(* ===== verification/_CoqProject ===== *)
-Q . S2P
Prelude.v
Spool.v
SpoolReader.v
PyLib.v
Addresses.v
Floats.v
Oids.v
Profiles.v
Episodes.v
Candidates.v
PairFeatures.v
Scoring.v
Incidents.v
Partitions.v
Scores.v
Judge.v
JudgeLaws.v
Cart.v
CartLaws.v
Attribution.v
AttributionLaws.v
Auth.v
Windows.v
WindowLife.v
Ber.v
Usm.v
Receiver.v
ReceiverLaws.v
Alternation.v
Learn.v
Ledger.v
Grouping.v
RootCause.v
Correlator.v
Situations.v
SituationLaws.v
Membership.v
Mirror.v
Alarms.v
Pipeline.v
PipelineLaws.v
Autonomy.v
Gaps.v
Intake.v
IntakeLaws.v
Json.v
Trees.v
TreesLaws.v
LinkModels.v
League.v
LeagueModels.v
ModelVersions.v
Lifecycle.v
Decoding.v
DecodingLaws.v
RbacTables.v
Rbac.v
Scope.v
Shaping.v
Perimeter.v
AuditLog.v
Commands.v
Sealing.v
SealingLaws.v
Leases.v
Agents.v
Cases.v
CaseOps.v
CaseDesk.v
CaseActs.v
CaseView.v
Playbook.v
Runbook.v
CaseTheorems.v
CaseLaws.v
Executor.v
LeaseLaws.v
LeaseSystem.v
LeaseSafety.v
LeaseEnds.v
