(* ===== verification/Prelude.v ===== *)
(** * NetCoreNOC verification library

    NetCoreNOC receives SNMP traps, writes them to a spool on disk, decodes them into alarms, groups
    alarms into situations, and opens a case for every situation, which people and agents work under
    an authorization model and an audit log. This library models the parts of that program that decide
    something and proves what makes them correct. This file is its root: it documents the whole, and
    holds the error monad, the automation and the lemmas the components share. Source paths are
    relative to [src/src/netcorenoc/].

    ** How the program's parts meet, and the files that model them

    Traps enter at [ingest]: a receiver walks each message with the BER readers and one writer appends
    it to the spool, which another process reads from its cursor on.

    - [Ber] ([ingest/ber.py]): length, element and INTEGER readers. An encoder is defined to state
      the round trip.
    - [Usm] ([ingest/usm.py], [snmpconf.py]): the SNMP policy, and who may send a v3 trap: the header, the
      localized keys, the senders' clocks.
    - [Receiver], [ReceiverLaws] ([ingest/receiver.py]): one datagram, from the allowlist to an event or the quarantine.
    - [Decoding], [DecodingLaws] ([ingest/records.py], [decoder.py]): raw records, events as checked JSON, the decoder
      process and the batches sent to it.
    - [Spool], [SpoolReader] ([ingest/spool.py]): a directory is a map from file names to inodes and
      a map from inodes to bytes; the writer's [open], [append], [recover] and rollover, the reader's
      [read] with its open file, [prunable] and [prune].

    The engine ([engine/operate/engine.py]) takes records through a feed and processes each trap in one
    transaction with the feed's cursor.

    - [Intake], [IntakeLaws] ([engine/operate/intake.py], [Engine._transaction]): the feed, the engine,
      the supervisor, crashes and power cuts as one step relation.
    - [Alarms] ([store/alarms.py], [devices.py], [entities.py], [engine/operate/flap.py]): names, the alarm
      table, the flap detector.
    - [Pipeline], [PipelineLaws] ([engine/operate/engine.py], [occurrence.py]): a trap from its names to
      its situation. A [Node] is the engine's memory, its tables and what it has learned.

    - [Gaps] ([engine/operate/gaps.py], [deadline.py]): what was dropped on the way, and how late the rest was.
    - [Autonomy] ([engine/operate/autonomy.py], [autonomy_judge.py]): the acts a model makes on its own, how they are
      judged, and when it suspends itself.

    What correlates an alarm with others is [engine/correlate].

    - [Alternation] ([alternation.py], with the key types of [store/types.py]): the learner of raise/clear
      pairs of classes and the learner of clear values of state varbinds.
    - [Learn], [Floats] ([learn.py]): affinities of classes and elements, which decay, and what counting in
      floats gives exactly.
    - [Oids] ([ingest/known_oids.py], [severity.py]): OID subtrees and the severity placed on a trap.
    - [Episodes], [Candidates], [PairFeatures] ([episodes.py], [pairs.py], [retrieval.py], [features.py]): the memory of
      what was related, which alarms a newcomer is compared with, and the features of a pair.
    - [Profiles] ([varbind_profile.py], [varbind_accum.py]): which varbind names the failed thing.
    - [Scoring] ([scoring.py], [gates.py], [scorer_contract.py]): the scorer and the guard that replaces it.
    - [Correlator] ([correlate.py]): the window and its index, one activation through all of the above.
    - [Grouping] ([grouping.py]): [GroupingState] with its shared accumulators, and the two ways a
      newcomer is placed.
    - [RootCause] ([rootcause.py], [engine/operate/upkeep.py]): learned precedence, the root, the sample
      it is picked from.

    The scorer is a model of [engine/model], chosen and judged.

    - [Cart], [CartLaws] ([cart.py], [tree.py]): decision trees, their fit, their check, their extremes.
    - [Attribution], [AttributionLaws] ([attribution.py], [background.py]): the table that explains a sum of trees.
    - [Trees], [TreesLaws] ([tree.py], [forest.py], [boosting.py]): the documents of the three tree kinds.
    - [LinkModels] ([gam.py], [linear.py]): the documents and scorers of the two additive kinds.
    - [League] ([league.py], [league_judge.py]): the members a build ships and the site's own, their manifests, the order
      offline, the comparison on a site's labels, the choice. A kind is the interface [Kinds].
    - [LeagueModels] ([trees.py], [trees_shap.py], [knn.py]): the league's sums of trees and its nearest neighbours, over the interface
      [Arith] where rounding is to be told from arithmetic, and the build's seven kinds as an instance of [Kinds].
    - [ModelVersions] ([model_version.py], [challenger.py]): the one check and dispatch of a stored document, over
      [Trees] and [LinkModels]; the routes that register one.
    - [Lifecycle] ([engine/operate/scorer_lifecycle.py], [league_loop.py]): the reload point, which puts in effect what
      the tables, the league and [ModelVersions] say, and the judge's step. An [act] is a call over the engine's state.
    - [Incidents] ([engine/dataset/incidents.py]), [Partitions], [Scores] ([engine/evaluation/shadow_eval.py] and others): which
      incident a situation belongs to, and how link decisions are scored against the operators' verdicts.
    - [Judge], [JudgeLaws] ([engine/evaluation/judge.py], [promotion.py], [engine/dataset/seal.py], [api/routes/promotion.py]): the
      promotion gate, its sealed holdout and its log.

    What it decides becomes situations.

    - [Situations], [SituationLaws] ([store/situations.py], [restructure.py], [proposals.py],
      [engine/operate/proposals.py], [Engine._assign_situation], the operators' routes): rows,
      the lifecycle table, the route of a placement, its execution, moves, merges, splits and answers.
    - [Membership], [Mirror] ([engine/operate/membership.py]): the maps the engine keeps of the tables,
      and that every write keeps them equal.

    A maintenance window decides first whether a trap is collected at all.

    - [Windows] ([engine/mw/rules.py], [index.py], [compile.py]): rules, targets, the compiled index.
    - [WindowLife] ([store/maintenance_windows.py], the routes): a window's statuses and its clock.
    - [Ledger] ([engine/mw/ledger.py], [engine/operate/window_sweep.py]): what a window suppressed, flushed
      and surfaced when it ends.

    Requests enter at [api], through one perimeter that asks authentication and authorization.

    - [Auth] ([crosscutting/auth.py], [store/auth.py]): passwords, throttle, sessions, tokens, login.
    - [RbacTables], [Rbac] ([crosscutting/rbac/]): the tables, the stored policy, the resolver.
    - [Perimeter] ([api/perimeter.py]): the checks every request passes, over [Auth] and [Rbac].
    - [Scope] ([crosscutting/shaping/scope.py]), [Addresses], [Shaping] ([fields.py], [naming.py], [project.py]): which rows a
      principal may see, over what the source uses of [ipaddress] and [fnmatch], and what a response shows of a row.
    - [AuditLog] ([crosscutting/audit.py], [audit_noc.py], [vault.py], [store/audit_log.py]): the
      catalogue of actions, redaction, the hash chain and its seals, pruning and verification; [Json]
      holds JSON values and the canonical text rows are hashed in.

    The NOC desk is [engine/noc], pressed by the API, by the case loop and by playbooks.

    - [Cases] ([cases.py]): the vocabularies, the transition table, what a case lacks.
    - [CaseOps] ([case_ops.py], [routing.py], the writes of [store/noc_cases.py], [noc_routing.py]): one
      function per act. A [Desk] is the state: the case's row, its cycles (the take and work clocks), its
      feed and the runs queued for agents.
    - [CaseDesk] ([case_loop.py], [hearing.py], [access.py], [runbook.py], [agent_loop.py], [feed.py] and
      the routes): the callers, each with its guards. The relation [pressed] is any one transaction
      on a case; histories are its closure.
    - [CaseActs], [CaseView]: every transaction is a sequence of guarded acts, and what each act does to
      the status, the owner, the resolution and the clocks.
    - [CaseTheorems], [CaseLaws]: what every history keeps.
    - [Agents] ([agents.py], [store/noc_agents.py], [api/routes/agents.py]): the organization, the chain a
      case climbs, the check against loops, hiring, moving, retiring.
    - [Commands] ([commands.py]): which line may run on a device.
    - [Sealing], [SealingLaws] ([crosscutting/vault.py], [secretbox.py]): values at rest, under keys and a place.
    - [Leases], [Executor], [LeaseLaws] ([engine/noc/lease.py], [api/noc_gate.py], [api/routes/secrets.py], [noc_access.py],
      [noc_exec.py]): device credentials, the leases agents get of them, and an agent's act on a device.
    - [LeaseSystem], [LeaseSafety], [LeaseEnds]: those requests as steps, one after another and overlapping.
    - [Playbook], [Runbook] ([playbook.py], [runbook.py]): what makes a document a playbook, and a run of
      it over a device's answers.

    [PyLib] holds what these use of Python on strings ([strip], [split], [lower], [isascii], the
    ordering of strings).

    ** What the theorems show

    - Spool: an append is all or nothing, and raises with the log grown in one case, which it tells; a crash at any byte of an append loses no earlier record and
      leaves a prefix of that one; the reader returns every record, once, in order, and its loop ends;
      framing and parsing are inverse on bytes cut anywhere; pruning deletes exactly what was read.
    - BER: no offset leaves the message; what an encoder writes reads back.
    - Receiver: an accepted trap is one the policy admits; an accepted v3 message carries the authentic MAC of a known
      user; every datagram is counted once, but for those a cipher's exception ends, which are told; decoding in the other process answers what decoding here would.
    - Intake: whatever interleaves, rolls back and crashes, the database is made by classifying each record up
      to its cursor once, in order, but for the records set aside, which are in the dead-letter file; the
      engine's memory is not in the transaction and may count a retried record twice.
    - A trap's path: the engine's view stays that of its tables; an activation always ends in a live
      situation; what a window covers teaches nothing.
    - Learning: a class has one role for good across restarts; the state learner learns exactly
      the strict alternations, in bounded memory.
    - Correlation: candidates are the newest live alarms; the window is bounded and its index is its
      content; the features read through shared lookups are those read directly; an activation links its
      strongest candidates; a scorer that fails is replaced for good, but where the check of its answer raises.
    - Models: the structure check accepts exactly the trees; the table read is the Shapley sum over the boxes; an accepted
      tree document links some pairs within the bounds and not others; a GAM or a linear model scores what it explains; a stored
      document is accepted or refused with at most two other exceptions; a scorer's own document loads the same scorer.
    - The league's trees: the walk that explains a tree ends, visits a node once, and without rounding gives each feature its
      Shapley value, by induction over what the stack still owes; the contributions add up to the logit less the reference's.
    - League: a member is what its manifest names; the champion of the day loses its place only on evidence; the choice settles.
    - Lifecycle: what scores is what the recorded ids and name say; a pass puts in effect what the tables say; a
      degradation is sticky; the fast loop takes the slow loop's decision, degraded as it was if the key is the same.
    - Promotion: no proposal is applied but on BETTER; the seal is cut once and read by the book.
    - Grouping: evidence is symmetric and by identity, is added, merged and dropped exactly as the
      members are, and each mode picks the best or the lowest candidate.
    - Situations: the maps mirror the tables through every operation but two, which are findings; a model
      never changes an open situation, it proposes to join it; the kept sample of a situation is the one a sort gives.
    - Windows: only a window somebody allowed confirmed suppresses, within its time and on its targets; the clock
      moves each as its rows say; a fault a window's ledger saw and that outlives it is surfaced once.
    - Playbooks: what the check accepts ends on every device's answers, sending only its own reads; what a run
      raises is what the world around it raised.
    - Authorization: no stored document lifts anyone above the role's ceiling or narrows an admin; a
      policy the write-time check accepts is the policy that applies; the perimeter lets through only
      those; sensitive refusals leave an audit row.
    - Authentication: a login opens a session only on the right password, failures look alike, locks
      grow and survive, sessions end at their limit, the limiter's memory is bounded.
    - Visibility: a shaped body shows a viewer networks only, of the addresses the code finds; a scope shows what its selectors name.
    - Credentials: a sealed value opens in one place; an agent that acts alone reaches only the device its lease names; an
      ended lease stays ended and every row keeps its own seal, whatever overlaps.
    - Autonomy: a sweep is bounded and acts within its grades. Gaps: every loss counted is in a row or open.
    - Audit: a log written by a clock that does not go back verifies, after any pruning; two logs that
      verify with one final hash are one log, field for field, unless two texts with one hash are at hand.
    - Cases: clocks follow the status, nothing changes silently, over is over, a wait has a complete
      customer update, only an edit lowers a priority, an escalation finds the nearest manager.
    - Organization: it has no loop, and a change of manager is refused exactly when it would make one.
    - Commands: what is let through has no control character of ASCII, no backquote, and a verb that only reads.

    ** Conventions

    - A call that may raise answers [res E A]; [E] is the component's own error type. A transaction that
      raises leaves the state it began with.
    - Integers are Python's, so [Z]. Bytes are [Z] in [0, 256) where arithmetic is done on them. Floats are
      binary64 ([spec_float] of the kernel's own library), with Python's comparisons and operations.
    - A string is a sequence of code points below 256; the source's em dash is written as a dash. Sets
      are [gset], dictionaries [gmap] where the order of iteration is not observed, else lists.
    - What the source takes from elsewhere is an argument: scrypt, SHA-256, HMAC, the ciphers, the BER decoder of a message's
      body, [inet_pton] and [inet_ntop], how a float prints, the hash of a pair, [exp], [log], [log1p], [log2], [pow], [stdev] and [math.dist], random
      values, the clock's readings, the devices' answers and what the calls to them raise, and [json.loads], whose result is the input. A law assumed of
      one is a hypothesis of the theorem, and its witness instantiates it.

    ** Fuel

    Every loop of the source that is not a walk over a list has fuel, chosen so that it is never what
    stops it: [Spool.parse] gives the buffer's length and one, and each record consumes a byte at least;
    [Agents.cycle] and [chain] give one more than the number of agents, and never visit one twice;
    [subtree] gives twice that number and one, for each agent is pushed and popped once; a case climbs
    with the number of agents. A tree is walked, and explained, with the number of its nodes and checked with that number and two; a list
    is searched with its length and one; the roots of a partition are sought with its size; a batch is decoded with
    two attempts, since a restart answers all but the record that stopped the process. Running out is a value of its own ([None]) where the loop might not end,
    and the theorems say it is never the answer. [Spool.read_run] takes the directory as each iteration
    finds it; its theorem says that enough iterations always end the loop.

    ** What is not modelled

    SQL as such (a table is the list or map of its rows and each statement a function on it), sockets,
    threads, HTTP and the web pages; and of the program's decisions, those of the fits of the models but the trees
    of [Trees] (numeric optimisation, whose results enter as checked documents), of the search, of dataset capture, and of the reports. In the
    modelled parts: a case's [send_update] (it formats a date for a customer), listing and paging reads,
    inserts of accounts, tokens and adapters; of a trap's path, what only observes it (the profiler, the
    monitor, dataset capture, shadow scoring), and derived names, events and labels of a situation. [Pipeline]
    and [Correlator] take the scorer as an argument, which [Lifecycle] chooses. A commit that fails is taken as
    one that did not happen.

    Examples are runs of the model in which the code does something other than what it or its comments
    intend: [SpoolReader.a_failed_roll_appends_twice], [SpoolReader.a_failed_roll_ends_the_writer],
    [SpoolReader.a_refused_start_forgets_the_numbers], [AuditLog.prune_after_a_clock_step], [Commands.c1_control_accepted],
    [Alternation.load_keeps_two_roles], [Alternation.load_misses_inverse], [Auth.delay_overflows],
    [Perimeter.blank_bearer_skips_csrf], [Ledger.end_now_loses_what_was_not_flushed],
    [Ledger.a_rolled_back_pass_loses_the_marks], [WindowLife.extend_undoes_a_cancel],
    [WindowLife.no_trailing_grace], [Correlator.a_returned_alarm_is_compared_twice],
    [Mirror.a_handed_back_alarm_is_in_two_situations],
    [Mirror.an_alarm_that_comes_back_may_be_in_two_situations],
    [RootCause.a_member_that_comes_back_hides_a_change],
    [PipelineLaws.a_key_under_another_parent_gets_the_first_entity],
    [Playbook.a_name_may_end_in_a_newline], [Runbook.a_routeros_ping_is_refused], [Scope.a_flagged_selector_may_match],
    [Shaping.a_tab_hides_an_address], [Profiles.a_start_loads_past_the_cap], [Autonomy.the_same_severity_disagrees],
    [Gaps.a_failed_pass_loses_a_gap], [Usm.a_changed_protocol_finds_the_old_key],
    [Usm.a_changed_protocol_raises], [Scoring.an_unnumbered_score_raises], [WindowLife.a_stale_edit_skips_the_confirmation],
    [IntakeLaws.a_retried_event_moves_memory_twice], [ReceiverLaws.a_long_version_passes_the_policy],
    [DecodingLaws.a_huge_time_stops_the_batch], [LeaseSafety.an_overlapping_edit_moves_a_lease], [CartLaws.the_midpoint_can_round_up],
    [TreesLaws.a_huge_seed_escapes], [LinkModels.a_list_of_names_escapes], [LinkModels.a_model_that_never_links],
    [League.one_document_takes_the_league], [Lifecycle.no_model_goes_unsaid], [Lifecycle.an_old_warning_stays],
    [Lifecycle.a_champion_without_a_league] and [Lifecycle.a_pass_raises]; the theorem
    [ModelVersions.no_fit_of_the_appliance_registers] and the lemma [LeagueModels.an_accepted_tree_never_links]. *)
From stdpp Require Export base gmap sets list strings pretty sorting.
From Stdlib Require Export ZArith Lia.
From Corelib Require Export SpecFloat.
From Stdlib Require Import Bool.
From Stdlib Require Export Sorted Ascii.

#[global] Set Default Proof Using "Type".
#[global] Open Scope Z_scope.

(** ** The error monad: a Python call that returns or raises *)

Inductive res (E A : Type) : Type :=
| Ok (a : A)
| Err (e : E).
Arguments Ok {E A} a.
Arguments Err {E A} e.

#[global] Instance res_ret E : MRet (res E) := fun A a => Ok a.
#[global] Instance res_bind E : MBind (res E) :=
  fun A B f m => match m with Ok a => f a | Err e => Err e end.

#[global] Instance res_fmap E : FMap (res E) :=
  fun A B f m => match m with Ok a => Ok (f a) | Err e => Err e end.

(** [ensure b e k]: [if not b: raise e], then go on. *)
Definition ensure {E A} (b : bool) (e : E) (k : res E A) : res E A :=
  if b then k else Err e.

Lemma bind_Ok_inv {E A B} (m : res E A) (f : A → res E B) b :
  m ≫= f = Ok b → ∃ a, m = Ok a ∧ f a = Ok b.
Proof. destruct m; simpl; [eauto | done]. Qed.

Lemma fmap_Ok_inv {E A B} (m : res E A) (f : A → B) b : f <$> m = Ok b → ∃ a, m = Ok a ∧ b = f a.
Proof. destruct m; simpl; [|done]. intros [= <-]. eauto. Qed.

Lemma ensure_Ok_inv {E A} b (e : E) (k : res E A) a :
  ensure b e k = Ok a → b = true ∧ k = Ok a.
Proof. by destruct b. Qed.

(** ** Development-wide automation *)

Create HintDb noc.

(** Case analysis on every [match]/[if] scrutinee of the goal or of the
    hypotheses, closing the contradictory branches. *)
Ltac case_all :=
  repeat (case_match; simplify_eq/=; try done).

(** A decidable fact about closed terms. *)
Ltac by_eval := apply (bool_decide_unpack _); vm_compute; reflexivity.

(** Turn boolean tests into the propositions they decide. *)
Ltac reflect_bools :=
  repeat match goal with
  | H : andb _ _ = true |- _ => apply andb_true_iff in H as [? ?]
  | H : orb _ _ = false |- _ => apply orb_false_iff in H as [? ?]
  | H : negb _ = true |- _ => apply negb_true_iff in H
  | H : negb _ = false |- _ => apply negb_false_iff in H
  | H : Z.eqb _ _ = true |- _ => apply Z.eqb_eq in H
  | H : Z.eqb _ _ = false |- _ => apply Z.eqb_neq in H
  | H : Z.leb _ _ = true |- _ => apply Z.leb_le in H
  | H : Z.leb _ _ = false |- _ => apply Z.leb_gt in H
  | H : Z.ltb _ _ = true |- _ => apply Z.ltb_lt in H
  | H : Z.ltb _ _ = false |- _ => apply Z.ltb_ge in H
  | H : String.eqb _ _ = true |- _ => apply String.eqb_eq in H
  | H : String.eqb _ _ = false |- _ => apply String.eqb_neq in H
  | H : bool_decide _ = true |- _ => apply bool_decide_eq_true in H
  | H : bool_decide _ = false |- _ => apply bool_decide_eq_false in H
  end.

(** Case analysis on the integer comparisons of the goal, with their meaning. *)
Ltac zcases :=
  rewrite ?Z.geb_leb, ?Z.gtb_ltb;
  repeat match goal with
  | |- context [?a <=? ?b] => destruct (Z.leb_spec a b)
  | |- context [?a <? ?b] => destruct (Z.ltb_spec a b)
  | |- context [?a =? ?b] => destruct (Z.eqb_spec a b)
  end; simpl in *; try lia.

(** ** Python floats: IEEE 754 binary64, computed exactly by [SpecFloat] *)

Abbreviation float := spec_float.
Definition fadd : float → float → float := SFadd 53 1024.
Definition fsub : float → float → float := SFsub 53 1024.
Definition fmul : float → float → float := SFmul 53 1024.
Definition fdiv : float → float → float := SFdiv 53 1024.
Definition fopp : float → float := SFopp.
Definition fltb : float → float → bool := SFltb.
Definition fleb : float → float → bool := SFleb.
Definition feqb : float → float → bool := SFeqb.

(** [float(z)], rounded to nearest even. *)
Definition f_of_Z (z : Z) : float := binary_normalize 53 1024 z 0 false.
(** The float nearest to [num / den]: a decimal literal such as [0.001] is [f_lit 1 1000]
    (both operands below 2^53 are exact, so the quotient is rounded once). *)
Definition f_lit (num den : Z) : float := fdiv (f_of_Z num) (f_of_Z den).
Definition f_zero : float := S754_zero false.
Definition f_one : float := f_of_Z 1.
(** [max(a, b)]: Python keeps the first argument unless the second is greater. *)
Definition fmax (a b : float) : float := if fltb a b then b else a.
Definition is_nan (x : float) : bool := match x with S754_nan => true | _ => false end.
(** [math.isfinite]. *)
Definition f_finite (x : float) : bool :=
  match x with S754_zero _ | S754_finite _ _ _ => true | _ => false end.

(** [int(x)], truncated towards zero, for a finite [x]. *)
Definition f_trunc (x : float) : Z :=
  match x with
  | S754_finite s m e =>
      let z := if 0 <=? e then Z.pos m * 2 ^ e else Z.pos m / 2 ^ (- e) in if s then - z else z
  | _ => 0
  end.

#[global] Instance float_eq_dec : EqDecision float.
Proof. solve_decision. Defined.

(** The order of the non-NaN floats is the lexicographic order of this key. *)
Definition fkey (x : float) : option (Z * Z * Z) :=
  match x with
  | S754_nan => None
  | S754_zero _ => Some (0, 0, 0)
  | S754_infinity s => Some (if s then (-2, 0, 0) else (2, 0, 0))
  | S754_finite s m e => Some (if s then (-1, - e, - Z.pos m) else (1, e, Z.pos m))
  end.

Definition key_lt (a b : Z * Z * Z) : Prop :=
  a.1.1 < b.1.1 ∨ (a.1.1 = b.1.1 ∧ (a.1.2 < b.1.2 ∨ (a.1.2 = b.1.2 ∧ a.2 < b.2))).

Lemma fcompare_key x y :
  match fkey x, fkey y with
  | Some a, Some b =>
      match SFcompare x y with
      | Some Eq => a = b
      | Some Lt => key_lt a b
      | Some Gt => key_lt b a
      | None => False
      end
  | _, _ => SFcompare x y = None
  end.
Proof.
  unfold key_lt.
  destruct x as [sx|sx| |sx mx ex], y as [sy|sy| |sy my ey]; simpl; auto;
    try (destruct sx; simpl; auto; lia); try (destruct sy; simpl; auto; lia);
    try (destruct sx, sy; simpl; auto; lia).
  destruct sx, sy; simpl; auto; try lia;
    destruct (Z.compare_spec ex ey); simpl; try lia; subst;
    change (PosDef.Pos.compare_cont Eq mx my) with (Pos.compare mx my);
    destruct (Pos.compare_spec mx my); simpl; subst; auto; lia.
Qed.

Lemma fltb_key x y :
  fltb x y = true ↔ ∃ a b, fkey x = Some a ∧ fkey y = Some b ∧ key_lt a b.
Proof.
  unfold fltb, SFltb. pose proof (fcompare_key x y) as H.
  destruct (fkey x) as [a|], (fkey y) as [b|];
    try (rewrite H; split; [done | by intros (?&?&?&?&?)]).
  unfold key_lt in *.
  destruct (SFcompare x y) as [[]|]; [subst| | |done];
    split; try done; try (intros (?&?&?&?&?); simplify_eq; lia); eauto 6.
Qed.

Lemma fleb_key x y :
  fleb x y = true ↔
  ∃ a b, fkey x = Some a ∧ fkey y = Some b ∧ (a = b ∨ key_lt a b).
Proof.
  unfold fleb, SFleb. pose proof (fcompare_key x y) as H.
  destruct (fkey x) as [a|], (fkey y) as [b|];
    try (rewrite H; split; [done | by intros (?&?&?&?&?)]).
  unfold key_lt in *.
  destruct (SFcompare x y) as [[]|]; [subst| | |done];
    split; try done; try (intros (?&?&?&?&[?|?]); simplify_eq; lia); eauto 7.
Qed.

Lemma fkey_nan x : fkey x = None ↔ is_nan x = true.
Proof. by destruct x. Qed.

Lemma fltb_irrefl x : fltb x x = false.
Proof.
  apply not_true_iff_false. rewrite fltb_key. unfold key_lt.
  intros (a&b&?&?&?); simplify_eq; lia.
Qed.

Lemma fltb_trans x y z : fltb x y = true → fltb y z = true → fltb x z = true.
Proof.
  rewrite !fltb_key. unfold key_lt. intros (a&b&?&?&?) (b'&c&?&?&?); simplify_eq.
  exists a, c. repeat split; auto; lia.
Qed.

Lemma fleb_trans x y z : fleb x y = true → fleb y z = true → fleb x z = true.
Proof.
  rewrite !fleb_key. unfold key_lt.
  intros (a&b&?&?&H1) (b'&c&?&?&H2); simplify_eq.
  exists a, c. repeat split; auto.
  destruct H1 as [->|H1], H2 as [->|H2]; auto; right; lia.
Qed.

Lemma fleb_ltb_trans x y z : fleb x y = true → fltb y z = true → fltb x z = true.
Proof.
  rewrite fleb_key, !fltb_key. unfold key_lt.
  intros (a&b&?&?&H1) (b'&c&?&?&H2); simplify_eq.
  exists a, c. repeat split; auto. destruct H1 as [->|H1]; auto; lia.
Qed.

Lemma fltb_leb_trans x y z : fltb x y = true → fleb y z = true → fltb x z = true.
Proof.
  rewrite fleb_key, !fltb_key. unfold key_lt.
  intros (a&b&?&?&H1) (b'&c&?&?&H2); simplify_eq.
  exists a, c. repeat split; auto. destruct H2 as [->|H2]; auto; lia.
Qed.

Lemma fltb_leb x y : fltb x y = true → fleb x y = true.
Proof. rewrite fltb_key, fleb_key. intros (a&b&?&?&?). eauto 7. Qed.

Lemma key_lt_cases a b : key_lt a b ∨ a = b ∨ key_lt b a.
Proof.
  destruct a as [[a1 a2] a3], b as [[b1 b2] b3]; unfold key_lt; simpl.
  destruct (Z.lt_trichotomy a1 b1) as [?|[->|?]]; [lia| |lia].
  destruct (Z.lt_trichotomy a2 b2) as [?|[->|?]]; [lia| |lia].
  destruct (Z.lt_trichotomy a3 b3) as [?|[->|?]]; [lia| |lia]. auto.
Qed.

Lemma fltb_fleb_total x y :
  is_nan x = false → is_nan y = false → fltb x y = negb (fleb y x).
Proof.
  intros Hx Hy.
  destruct (fkey x) as [a|] eqn:Ex; [|apply fkey_nan in Ex; congruence].
  destruct (fkey y) as [b|] eqn:Ey; [|apply fkey_nan in Ey; congruence].
  apply eq_bool_prop_intro. rewrite !Is_true_true, negb_true_iff.
  rewrite <- not_true_iff_false, fltb_key, fleb_key.
  destruct (key_lt_cases a b) as [Hab|[->|Hba]]; split.
  - intros _ (?&?&?&?&Hle); simplify_eq. unfold key_lt in *. destruct Hle as [->|]; lia.
  - intros _. eauto 6.
  - intros (?&?&?&?&?); simplify_eq. unfold key_lt in *. lia.
  - intros []. eauto 8.
  - intros (?&?&?&?&?); simplify_eq. unfold key_lt in *. lia.
  - intros []. eauto 8.
Qed.

Lemma fleb_total x y :
  is_nan x = false → is_nan y = false → fleb x y = true ∨ fleb y x = true.
Proof.
  intros Hx Hy. destruct (fleb y x) eqn:E; [auto|left].
  apply fltb_leb. rewrite fltb_fleb_total, E by done. done.
Qed.

Lemma fleb_refl x : is_nan x = false → fleb x x = true.
Proof. intros. by destruct (fleb_total x x). Qed.

Lemma fleb_not_nan x y : fleb x y = true → is_nan x = false ∧ is_nan y = false.
Proof.
  rewrite fleb_key. intros (a&b&Ha&Hb&_).
  split; apply not_true_iff_false; rewrite <- fkey_nan; congruence.
Qed.

Lemma fltb_not_nan x y : fltb x y = true → is_nan x = false ∧ is_nan y = false.
Proof. intros ?%fltb_leb. by apply fleb_not_nan. Qed.

Lemma feqb_key x y : feqb x y = true ↔ ∃ a, fkey x = Some a ∧ fkey y = Some a.
Proof.
  unfold feqb, SFeqb. pose proof (fcompare_key x y) as H.
  destruct (fkey x) as [a|], (fkey y) as [b|];
    try (rewrite H; split; [done | by intros (?&?&?)]).
  unfold key_lt in *.
  destruct (SFcompare x y) as [[]|]; [subst| | |done];
    split; try done; try (intros (?&?&?); simplify_eq; lia); eauto.
Qed.

Lemma fkey_opp x :
  fkey (fopp x) = match fkey x with Some a => Some (- a.1.1, - a.1.2, - a.2) | None => None end.
Proof.
  destruct x as [s|s| |s m e]; try done; destruct s; simpl; try done.
  - by rewrite Z.opp_involutive.
Qed.

Lemma fltb_opp x y : fltb (fopp x) (fopp y) = fltb y x.
Proof.
  apply eq_bool_prop_intro. rewrite !Is_true_true, !fltb_key, !fkey_opp. unfold key_lt.
  destruct (fkey x) as [a|], (fkey y) as [b|]; split; intros (u&v&?&?&?); simplify_eq/=;
    eexists _, _; (split; [done|]); (split; [done|]); simpl in *; lia.
Qed.

Lemma feqb_opp x y : feqb (fopp x) (fopp y) = feqb x y.
Proof.
  apply eq_bool_prop_intro. rewrite !Is_true_true, !feqb_key, !fkey_opp.
  destruct (fkey x) as [[[a1 a2] a3]|], (fkey y) as [[[b1 b2] b3]|]; split; intros (u&?&?);
    simplify_eq/=; eexists; (split; [done|]); repeat f_equal; lia.
Qed.

(** A total preorder on floats extends to pairs: compare the floats, then the rest. *)
Lemma feqb_not_lt x y : feqb x y = true → fltb x y = false.
Proof.
  rewrite feqb_key. intros (a & Hx & Hy). apply not_true_iff_false. rewrite fltb_key.
  unfold key_lt. intros (u & v & ? & ? & ?). simplify_eq. lia.
Qed.

Lemma feqb_sym x y : feqb x y = feqb y x.
Proof. apply eq_bool_prop_intro. rewrite !Is_true_true, !feqb_key. naive_solver. Qed.

Lemma feqb_trans x y z : feqb x y = true → feqb y z = true → feqb x z = true.
Proof. rewrite !feqb_key. naive_solver. Qed.

Lemma feqb_ltb_trans x y z : feqb x y = true → fltb y z = true → fltb x z = true.
Proof. rewrite feqb_key, !fltb_key. naive_solver. Qed.

Lemma fltb_eqb_trans x y z : fltb x y = true → feqb y z = true → fltb x z = true.
Proof. rewrite feqb_key, !fltb_key. naive_solver. Qed.

Lemma fltb_total3 x y :
  is_nan x = false → is_nan y = false → fltb x y = true ∨ feqb x y = true ∨ fltb y x = true.
Proof.
  intros Hx Hy.
  destruct (fkey x) as [a|] eqn:Ex; [|apply fkey_nan in Ex; congruence].
  destruct (fkey y) as [b|] eqn:Ey; [|apply fkey_nan in Ey; congruence].
  rewrite !fltb_key, feqb_key, Ex, Ey. destruct (key_lt_cases a b) as [?|[->|?]]; eauto 10.
Qed.

Lemma feqb_leb x y : feqb x y = true → fleb x y = true ∧ fleb y x = true.
Proof. rewrite feqb_key, !fleb_key. intros (a & ? & ?). split; eauto 6. Qed.

#[export] Hint Resolve fltb_leb fleb_refl : noc.

(** ** Python dictionaries whose order matters: association lists with distinct keys *)

Section dict.
Context {K V : Type} `{EqDecision K}.

(** [d.get(k)]. *)
Fixpoint assoc (k : K) (d : list (K * V)) : option V :=
  match d with
  | [] => None
  | (k', v) :: d => if decide (k = k') then Some v else assoc k d
  end.

(** [d[k] = v]: in place for a key already there, else at the end. *)
Fixpoint dict_set (k : K) (v : V) (d : list (K * V)) : list (K * V) :=
  match d with
  | [] => [(k, v)]
  | (k', v') :: d => if decide (k = k') then (k, v) :: d else (k', v') :: dict_set k v d
  end.

(** [d.pop(k, None)]. *)
Definition dict_del (k : K) (d : list (K * V)) : list (K * V) := filter (fun e => e.1 ≠ k) d.

Lemma assoc_Some k v d : assoc k d = Some v → (k, v) ∈ d.
Proof.
  induction d as [|[k' v'] d IH]; simpl; [done|].
  destruct (decide (k = k')) as [->|]; [intros [= ->]; by left|right; auto].
Qed.

Lemma assoc_None k d : assoc k d = None ↔ k ∉ d.*1.
Proof.
  induction d as [|[k' v'] d IH]; simpl; [split; [set_solver|done]|].
  destruct (decide (k = k')) as [->|]; [split; [done|set_solver]|]. rewrite IH. set_solver.
Qed.

Lemma assoc_NoDup k v d : NoDup d.*1 → (k, v) ∈ d → assoc k d = Some v.
Proof.
  induction d as [|[k' v'] d IH]; simpl; [set_solver|].
  intros [Hn Hd]%NoDup_cons [[= -> ->]|Hin]%elem_of_cons.
  - by rewrite decide_True.
  - rewrite decide_False; [auto|]. intros ->. apply Hn, list_elem_of_fmap. by exists (k', v).
Qed.

Lemma assoc_dict_set k v d k' :
  assoc k' (dict_set k v d) = if decide (k' = k) then Some v else assoc k' d.
Proof.
  induction d as [|[k1 v1] d IH]; simpl; [done|].
  destruct (decide (k = k1)) as [->|]; simpl; repeat case_decide; congruence.
Qed.

Lemma dict_set_fresh k v d : k ∉ d.*1 → dict_set k v d = d ++ [(k, v)].
Proof.
  induction d as [|[k' v'] d IH]; simpl; [done|]. intros H.
  destruct (decide (k = k')) as [->|]; [set_solver|]. rewrite IH; [done|set_solver].
Qed.

Lemma length_dict_set k v d :
  length (dict_set k v d) =
  if bool_decide (k ∈ d.*1) then length d else S (length d).
Proof.
  induction d as [|[k1 v1] d IH]; simpl; [done|].
  destruct (decide (k = k1)) as [->|Hn].
  - rewrite bool_decide_true; [done|]. by left.
  - simpl. rewrite IH. repeat case_bool_decide; try done; set_solver.
Qed.

Lemma dict_set_NoDup k v d : NoDup d.*1 -> NoDup (dict_set k v d).*1.
Proof.
  induction d as [|[k' v'] d IH]; simpl; [repeat constructor; by intros ?%elem_of_nil|]. intros [Hn Hd]%NoDup_cons.
  destruct (decide (k = k')) as [->|Hne]; simpl; apply NoDup_cons; [done|]. split; [|by apply IH].
  intros [e [-> He]]%list_elem_of_fmap. apply Hn. clear IH Hn Hd. induction d as [|[k1 v1] d IH]; simpl in He.
  - apply list_elem_of_singleton in He as ->. done.
  - destruct (decide (k = k1)) as [->|]; apply elem_of_cons in He as [->|He]; simpl in *; [done|right|by left|right; by apply IH].
    apply list_elem_of_fmap. by exists e.
Qed.

Lemma dict_set_Forall (P : K * V -> Prop) k v d : P (k, v) -> Forall P d -> Forall P (dict_set k v d).
Proof. intros Hp. induction 1 as [|[k' v'] d H1 H2 IH]; simpl; [by constructor|]. destruct (decide (k = k')) as [->|]; by constructor. Qed.
End dict.

Lemma assoc_fmap {K V W} `{EqDecision K} (f : K * V → W) k d :
  assoc k (map (λ e, (e.1, f e)) d) = (λ v, f (k, v)) <$> assoc k d.
Proof.
  induction d as [|[k' v'] d IH]; simpl; [done|]. destruct (decide (k = k')) as [->|]; done.
Qed.

(** ** [sorted]: Python's stable sort *)

Section sort_by.
Context {A : Type} (le : A → A → bool).

Fixpoint insert_by (x : A) (l : list A) : list A :=
  match l with
  | [] => [x]
  | y :: l' => if le x y then x :: l else y :: insert_by x l'
  end.

(** Elements that compare equal keep their order. *)
Definition sort_by (l : list A) : list A := foldr insert_by [] l.

Lemma insert_by_perm x l : insert_by x l ≡ₚ x :: l.
Proof.
  induction l as [|y l IH]; simpl; [done|].
  destruct (le x y); [done|]. rewrite IH. constructor.
Qed.

Lemma sort_by_perm l : sort_by l ≡ₚ l.
Proof. induction l as [|x l IH]; simpl; [done|]. by rewrite insert_by_perm, IH. Qed.

Lemma elem_of_sort_by x l : x ∈ sort_by l ↔ x ∈ l.
Proof. by rewrite sort_by_perm. Qed.

Lemma length_sort_by l : length (sort_by l) = length l.
Proof. by rewrite sort_by_perm. Qed.

Lemma NoDup_sort_by l : NoDup (sort_by l) ↔ NoDup l.
Proof. by rewrite sort_by_perm. Qed.

(** Sortedness needs totality and transitivity on the elements present only. *)
Lemma sort_by_sorted (P : A → Prop) l :
  Forall P l →
  (∀ x y, P x → P y → le x y = true ∨ le y x = true) →
  (∀ x y z, le x y = true → le y z = true → le x z = true) →
  StronglySorted (fun x y => le x y = true) (sort_by l).
Proof.
  intros Hl Htot Htr. induction Hl as [|x l Hx Hl IH]; simpl; [constructor|].
  assert (Forall P (sort_by l)) as HP by (by rewrite sort_by_perm).
  revert IH HP. generalize (sort_by l) as s. clear Hl l.
  induction s as [|y s IH]; simpl; intros Hs HP; [repeat constructor|].
  apply StronglySorted_inv in Hs as [Hs Hys]. apply Forall_cons in HP as [Hy HP].
  destruct (le x y) eqn:Exy.
  - constructor; [by constructor|]. constructor; [done|].
    eapply Forall_impl; [exact Hys|]. simpl. eauto.
  - constructor; [by apply IH|]. rewrite insert_by_perm. constructor; [|done].
    destruct (Htot x y Hx Hy); congruence.
Qed.

Lemma sort_by_head_least (P : A → Prop) l x s :
  Forall P l →
  (∀ x y, P x → P y → le x y = true ∨ le y x = true) →
  (∀ x y z, le x y = true → le y z = true → le x z = true) →
  sort_by l = x :: s → ∀ y, y ∈ l → y = x ∨ le x y = true.
Proof.
  intros Hl Htot Htr Es y Hy. pose proof (sort_by_sorted P l Hl Htot Htr) as Hs.
  rewrite Es in Hs. apply StronglySorted_inv in Hs as [_ Hs].
  rewrite <- elem_of_sort_by, Es, elem_of_cons in Hy. destruct Hy as [->|Hy]; [by left|].
  right. rewrite Forall_forall in Hs. auto.
Qed.
End sort_by.

Lemma StronglySorted_weaken {A} (R S : A → A → Prop) l :
  (∀ x y, R x y → S x y) → StronglySorted R l → StronglySorted S l.
Proof. intros HRS. induction 1; constructor; [done|]. eapply Forall_impl; eauto. Qed.

Lemma sort_Z_sorted l : StronglySorted Z.le (sort_by Z.leb l).
Proof.
  apply (StronglySorted_weaken (fun x y => Z.leb x y = true)); [intros; lia|].
  apply (sort_by_sorted _ (fun _ => True)); [by apply Forall_true | lia | lia].
Qed.

#[export] Hint Resolve sort_by_perm : noc.

Lemma StronglySorted_filter {A} (R : A → A → Prop) (P : A → Prop) `{∀ x, Decision (P x)} l :
  StronglySorted R l → StronglySorted R (filter P l).
Proof.
  induction 1 as [|x l Hl IH Hx]; [constructor|]. rewrite filter_cons.
  case_decide; [|done]. constructor; [done|].
  rewrite Forall_forall in *. intros y [_ Hy]%list_elem_of_filter. auto.
Qed.

Section filters.
Context {A : Type} (P : A → Prop) `{∀ x, Decision (P x)}.

Lemma filter_all (l : list A) : (∀ x, x ∈ l → P x) → filter P l = l.
Proof.
  induction l as [|x l IH]; intros Hl; [done|]. rewrite filter_cons, decide_True by set_solver.
  f_equal. apply IH. set_solver.
Qed.

Lemma filter_none (l : list A) : (∀ x, x ∈ l → ¬ P x) → filter P l = [].
Proof.
  induction l as [|x l IH]; intros Hl; [done|]. rewrite filter_cons, decide_False by set_solver.
  apply IH. set_solver.
Qed.
End filters.

Lemma filter_ext_in {A} (P Q : A -> Prop) `{∀ x, Decision (P x)} `{∀ x, Decision (Q x)} (l : list A) :
  (∀ x, x ∈ l -> P x ↔ Q x) -> filter P l = filter Q l.
Proof.
  intros Hpq. induction l as [|x l IH]; [done|]. rewrite !filter_cons.
  assert (Hx : P x ↔ Q x) by (apply Hpq; by left).
  rewrite IH by (intros y Hy; apply Hpq; by right). by repeat case_decide; try tauto.
Qed.

Lemma NoDup_split_unique {A} (l1 l2 k1 k2 : list A) x :
  NoDup (l1 ++ x :: l2) → l1 ++ x :: l2 = k1 ++ x :: k2 → l1 = k1 ∧ l2 = k2.
Proof.
  revert k1. induction l1 as [|y l1 IH]; intros k1 Hnd He; destruct k1 as [|z k1]; simplify_eq/=.
  - done.
  - apply NoDup_cons in Hnd as [Hni _]. set_solver.
  - apply NoDup_cons in Hnd as [Hni _]. set_solver.
  - apply NoDup_cons in Hnd as [_ Hnd]. by destruct (IH k1 Hnd) as [-> ->].
Qed.

(** A loop keeps a property of what it has consumed so far. *)
Lemma foldl_prefix_ind {A B} (P : list A → B → Prop) (f : B → A → B) (l : list A) (b : B) :
  P [] b →
  (∀ done x rest b', l = done ++ x :: rest → P done b' → P (done ++ [x]) (f b' x)) →
  P l (foldl f b l).
Proof.
  intros H0 Hs.
  assert (∀ rest done b', l = done ++ rest → P done b' → P l (foldl f b' rest)) as H.
  { induction rest as [|x rest IH]; intros dn b' Hl Hp; simpl.
    - by rewrite app_nil_r in Hl; subst.
    - apply (IH (dn ++ [x])); [by rewrite <- app_assoc|]. by eapply Hs. }
  by apply (H l [] b).
Qed.

(** ** Bytes *)

Abbreviation byte := Byte.byte.
Abbreviation bytes := (list Byte.byte).

#[global] Instance byte_eq_dec : EqDecision byte := Byte.byte_eq_dec.

Definition b2z (b : byte) : Z := Z.of_N (Byte.to_N b).
Definition z2b (z : Z) : byte :=
  match Byte.of_N (Z.to_N (z mod 256)) with Some b => b | None => Byte.x00 end.
Definition blen (bs : bytes) : Z := Z.of_nat (length bs).

(** [data[a:b]] for [0 <= a <= b]: out of range, a slice is shorter, never an error. *)
Definition slice (bs : bytes) (a b : Z) : bytes :=
  take (Z.to_nat (b - a)) (drop (Z.to_nat a) bs).

Lemma b2z_range b : 0 ≤ b2z b < 256.
Proof. unfold b2z. pose proof (Byte.to_N_bounded b). lia. Qed.

Lemma z2b_b2z b : z2b (b2z b) = b.
Proof.
  unfold z2b. rewrite Z.mod_small by apply b2z_range.
  unfold b2z. rewrite N2Z.id, Byte.of_to_N. done.
Qed.

Lemma b2z_z2b z : b2z (z2b z) = z mod 256.
Proof.
  unfold z2b. pose proof (Z.mod_pos_bound z 256 ltac:(lia)) as Hr.
  destruct (Byte.of_N _) as [b|] eqn:E.
  - apply Byte.to_of_N in E. unfold b2z. rewrite E. lia.
  - apply Byte.of_N_None_iff in E. lia.
Qed.

Lemma b2z_inj b c : b2z b = b2z c → b = c.
Proof. intros H. by rewrite <- (z2b_b2z b), H, z2b_b2z. Qed.

(** Little- and big-endian unsigned integers, as [struct] and [int.from_bytes] read them. *)
Fixpoint le_bytes (n : nat) (z : Z) : bytes :=
  match n with O => [] | S n' => z2b z :: le_bytes n' (z / 256) end.
Fixpoint le_value (bs : bytes) : Z :=
  match bs with [] => 0 | b :: bs' => b2z b + 256 * le_value bs' end.
Definition be_value (bs : bytes) : Z := le_value (reverse bs).
Definition be_bytes (n : nat) (z : Z) : bytes := reverse (le_bytes n z).

Lemma length_le_bytes n z : length (le_bytes n z) = n.
Proof. revert z; induction n; intros; simpl; auto. Qed.

Lemma le_value_range bs : 0 ≤ le_value bs < 256 ^ blen bs.
Proof.
  unfold blen. induction bs as [|b bs IH]; cbn [length le_value]; [done|].
  pose proof (b2z_range b). rewrite Nat2Z.inj_succ, Z.pow_succ_r by lia. lia.
Qed.

Lemma le_value_le_bytes n z : le_value (le_bytes n z) = z mod 256 ^ Z.of_nat n.
Proof.
  revert z; induction n as [|n IH]; intros z; [by rewrite Z.mod_1_r|].
  rewrite Nat2Z.inj_succ, Z.pow_succ_r by lia. cbn [le_bytes le_value].
  rewrite IH, b2z_z2b, Z.rem_mul_r by lia. lia.
Qed.

Lemma le_value_small n z : 0 ≤ z < 256 ^ Z.of_nat n → le_value (le_bytes n z) = z.
Proof. intros. rewrite le_value_le_bytes. by apply Z.mod_small. Qed.

Lemma le_bytes_le_value bs : le_bytes (length bs) (le_value bs) = bs.
Proof.
  induction bs as [|b bs IH]; cbn [length le_value le_bytes]; [done|].
  pose proof (b2z_range b) as Hb. f_equal.
  - apply b2z_inj. rewrite b2z_z2b, Z.mul_comm, Z.mod_add, Z.mod_small; lia.
  - rewrite (Z.mul_comm 256), Z.div_add, Z.div_small, Z.add_0_l by lia. done.
Qed.

Lemma blen_app a b : blen (a ++ b) = blen a + blen b.
Proof. unfold blen. rewrite length_app. lia. Qed.

Lemma blen_nonneg bs : 0 ≤ blen bs.
Proof. unfold blen. lia. Qed.

Lemma slice_app_exact a b c : slice (a ++ b ++ c) (blen a) (blen a + blen b) = b.
Proof.
  unfold slice, blen. rewrite Nat2Z.id, drop_app_length.
  replace (Z.to_nat _) with (length b) by lia. by rewrite take_app_length.
Qed.

Lemma slice_app_at a b c i j :
  i = blen a → j = blen a + blen b → slice (a ++ b ++ c) i j = b.
Proof. intros -> ->. apply slice_app_exact. Qed.

Lemma blen_slice bs a b : 0 ≤ a → a ≤ b → b ≤ blen bs → blen (slice bs a b) = b - a.
Proof.
  intros. unfold slice, blen in *. rewrite length_take, length_drop. lia.
Qed.
#[export] Hint Resolve blen_nonneg b2z_range : noc.

#[global] Arguments le_bytes : simpl never.
#[global] Arguments le_value : simpl never.
#[global] Arguments slice : simpl never.
#[global] Arguments blen : simpl never.

(** ** CRC-32 ([zlib.crc32]): the reflected polynomial 0xEDB88320, bit by bit *)

Definition crc_bit (c : Z) : Z :=
  Z.lxor (Z.shiftr c 1) (if Z.odd c then 0xEDB88320 else 0).
Definition crc_byte (c : Z) (b : byte) : Z :=
  Nat.iter 8 crc_bit (Z.lxor c (b2z b)).
(** [zlib.crc32(data, value)]. *)
Definition crc32 (data : bytes) (value : Z) : Z :=
  Z.lxor (foldl crc_byte (Z.lxor value 0xFFFFFFFF) data) 0xFFFFFFFF.

Lemma lxor_range n a b :
  0 ≤ n → 0 ≤ a < 2 ^ n → 0 ≤ b < 2 ^ n → 0 ≤ Z.lxor a b < 2 ^ n.
Proof.
  intros Hn Ha Hb. assert (0 ≤ Z.lxor a b) by (apply Z.lxor_nonneg; lia).
  split; [done|]. destruct (Z.eq_dec (Z.lxor a b) 0) as [->|]; [by apply Z.pow_pos_nonneg|].
  apply Z.log2_lt_pow2; [lia|].
  eapply Z.le_lt_trans; [apply Z.log2_lxor; lia|].
  apply Z.max_lub_lt.
  - destruct (Z.eq_dec a 0) as [->|]; [|apply Z.log2_lt_pow2; lia].
    destruct (Z.eq_dec n 0) as [->|]; [|cbn; lia]. assert (b = 0) as -> by lia. done.
  - destruct (Z.eq_dec b 0) as [->|]; [|apply Z.log2_lt_pow2; lia].
    destruct (Z.eq_dec n 0) as [->|]; [|cbn; lia]. assert (a = 0) as -> by lia. done.
Qed.

Lemma crc_bit_range c : 0 ≤ c < 2 ^ 32 → 0 ≤ crc_bit c < 2 ^ 32.
Proof.
  intros Hc. unfold crc_bit. apply lxor_range; [lia| |destruct (Z.odd c); lia].
  rewrite Z.shiftr_div_pow2 by lia. split; [apply Z.div_pos; lia|].
  apply Z.div_lt_upper_bound; lia.
Qed.

Lemma crc_byte_range c b : 0 ≤ c < 2 ^ 32 → 0 ≤ crc_byte c b < 2 ^ 32.
Proof.
  intros Hc. unfold crc_byte. pose proof (b2z_range b).
  cut (0 ≤ Z.lxor c (b2z b) < 2 ^ 32); [|apply lxor_range; lia].
  generalize (Z.lxor c (b2z b)). generalize 8%nat as n.
  induction n as [|n IH]; simpl; intros z Hz; [done|]. by apply crc_bit_range, IH.
Qed.

Lemma crc32_range data v : 0 ≤ v < 2 ^ 32 → 0 ≤ crc32 data v < 2 ^ 32.
Proof.
  intros Hv. unfold crc32. apply lxor_range; [lia| |lia].
  cut (0 ≤ Z.lxor v 0xFFFFFFFF < 2 ^ 32); [|apply lxor_range; lia].
  generalize (Z.lxor v 0xFFFFFFFF). induction data as [|b data IH]; simpl; intros z Hz;
    [done|]. by apply IH, crc_byte_range.
Qed.
#[global] Arguments crc32 : simpl never.
