(* ===== verification/Spool.v ===== *)
(** * The trap spool ([ingest/spool.py])

    Framing ([frame]/[parse]), the directory of segments, the one writer ([SpoolWriter]) with
    its crash recovery, and the reader ([SpoolReader]) with its resynchronisation.

    A directory is a map from a segment's first sequence number (its file name) to an inode, and
    inodes hold bytes: a reader that still has a deleted or replaced file open keeps reading the
    inode it opened, as POSIX has it. *)
From S2P Require Import Prelude.

Definition HEADER_size : Z := 16.
Definition SEGMENT_BYTES : Z := 64 * 1024 * 1024.
Definition MAX_PAYLOAD : Z := 256 * 1024.
Definition READ_CHUNK : Z := 1024 * 1024.

Inductive spool_error :=
| SpoolFullError                (* the spool holds its configured maximum *)
| OsError                       (* the disk refused *)
| RangeError                    (* struct.error or OverflowError: a number that does not fit *)
| LockHeld.                     (* RuntimeError: another process is writing the spool *)

Abbreviation record := (Z * bytes)%type.

(** ** Framing *)

(** [zlib.crc32(payload, zlib.crc32(seq.to_bytes(8, "little")))] *)
Definition record_crc (seq : Z) (payload : bytes) : Z :=
  crc32 payload (crc32 (le_bytes 8 seq) 0).

Definition frame (seq : Z) (payload : bytes) : res spool_error bytes :=
  ensure ((0 <=? seq) && (seq <? 2 ^ 64) && (blen payload <? 2 ^ 32)) RangeError
    (Ok (le_bytes 4 (blen payload) ++ le_bytes 4 (record_crc seq payload)
         ++ le_bytes 8 seq ++ payload)).

(** [HEADER.unpack_from(buffer, offset)]: length, crc, seq. *)
Definition unpack_header (buffer : bytes) (offset : Z) : Z * Z * Z :=
  (le_value (slice buffer offset (offset + 4)),
   le_value (slice buffer (offset + 4) (offset + 8)),
   le_value (slice buffer (offset + 8) (offset + 16))).

(** The loop of [parse]; [length buffer] iterations always suffice ([parse_eq]). *)
Fixpoint parse_go (fuel : nat) (buffer : bytes) (offset : Z) : list record * Z * bool :=
  match fuel with
  | O => ([], offset, false)
  | S fuel' =>
      if blen buffer - offset >=? HEADER_size then
        let '(length, crc, seq) := unpack_header buffer offset in
        if length >? MAX_PAYLOAD then ([], offset, true)
        else
          let e := offset + HEADER_size + length in
          if e >? blen buffer then ([], offset, false)
          else
            let payload := slice buffer (offset + HEADER_size) e in
            if record_crc seq payload =? crc then
              let '(out, e', corrupt) := parse_go fuel' buffer e in
              ((seq, payload) :: out, e', corrupt)
            else ([], offset, true)
      else ([], offset, false)
  end.

Definition parse (buffer : bytes) (offset : Z) : list record * Z * bool :=
  parse_go (S (length buffer)) buffer offset.

(** ** The directory *)

Record disk := Disk {
  names : gmap Z Z;             (* a segment's first sequence number -> its inode *)
  inodes : gmap Z bytes;        (* what each inode holds, unlinked ones included *)
  next_inode : Z
}.

Definition content (d : disk) (ino : Z) : bytes := default [] (inodes d !! ino).
Definition set_content (d : disk) (ino : Z) (bs : bytes) : disk :=
  Disk (names d) (<[ino := bs]> (inodes d)) (next_inode d).

(** [segments(directory)]: [(first sequence number, file)], oldest first. *)
Definition segments (d : disk) : list (Z * Z) :=
  sort_by (fun a b => a.1 <=? b.1) (map_to_list (names d)).

Definition usage (d : disk) : Z :=
  foldr (fun s acc => blen (content d s.2) + acc) 0 (segments d).

Fixpoint pairwise {A} (l : list A) : list (A * A) :=
  match l with
  | x :: ((y :: _) as l') => (x, y) :: pairwise l'
  | _ => []
  end.

Definition prunable (d : disk) (cursor : Z) : list (Z * Z) :=
  map fst (filter (fun p => p.2.1 ≤ cursor + 1) (pairwise (segments d))).

(** ** The writer *)

Record writer := Writer {
  max_bytes : Z;
  torn_w : Z;                   (* bytes cut off a torn tail at start *)
  next_seq : Z;
  fd : Z;                       (* the inode the descriptor is open on *)
  size_w : Z;
  used : Z;
  is_open : bool                (* false once a rollover closed the descriptor and opened none *)
}.

Definition head (w : writer) : Z := next_seq w - 1.

(** [_recover]: the next sequence number, the bytes cut, and the directory it leaves. *)
Definition recover (d : disk) : Z * Z * disk :=
  match last (segments d) with
  | None => (1, 0, d)
  | Some (first, ino) =>
      let data := content d ino in
      let '(records, valid, _) := parse data 0 in
      let torn := if valid <? blen data then blen data - valid else 0 in
      let d := if valid <? blen data then set_content d ino (slice data 0 valid) else d in
      match last records with
      | Some (seq, _) => (seq + 1, torn, d)
      | None => (first, torn, Disk (delete first (names d)) (inodes d) (next_inode d))
      end
  end.

(** What the system may refuse with an [OSError]. [n] bytes of the buffer reached the file before
    the write or the [fdatasync] failed; the [ftruncate] that cuts them off may fail as well; the
    segment to go on in may not open, or its directory not be synced once it is open. ([fstat] of a
    descriptor just opened is taken not to fail.) *)
Inductive fault :=
| Write_refused (n : nat)
| Cut_refused (n : nat)
| Open_refused
| Sync_refused.

(** [os.open(path, O_WRONLY | O_CREAT | O_APPEND)] on the segment named [seq]. *)
Definition open_name (d : disk) (seq : Z) : disk * Z :=
  match names d !! seq with
  | Some ino => (d, ino)
  | None =>
      (Disk (<[seq := next_inode d]> (names d)) (<[next_inode d := []]> (inodes d))
            (next_inode d + 1), next_inode d)
  end.

(** [_open_segment]: whether it returned, the directory, and the descriptor if there is one. *)
Definition open_segment (d : disk) (seq : Z) (refused : option fault) : bool * disk * option Z :=
  match refused with
  | Some Open_refused => (false, d, None)
  | Some Sync_refused => let '(d, ino) := open_name d seq in (false, d, Some ino)
  | _ => let '(d, ino) := open_name d seq in (true, d, Some ino)
  end.

(** [SpoolWriter.__init__]: the writer, and the directory also where there is none; [locked]:
    another process holds [spool.lock]. *)
Definition open_writer (d : disk) (max_bytes : Z) (locked : bool) (refused : option fault)
    : res spool_error writer * disk :=
  if locked then (Err LockHeld, d)
  else
    let '(seq, torn, d) := recover d in
    match open_segment d seq refused with
    | (true, d, Some ino) => (Ok (Writer max_bytes torn seq ino (blen (content d ino)) (usage d) true), d)
    | (_, d, _) => (Err OsError, d)
    end.

Fixpoint frames (seq : Z) (payloads : list bytes) : res spool_error bytes :=
  match payloads with
  | [] => Ok []
  | p :: ps => f ← frame seq p; rest ← frames (seq + 1) ps; Ok (f ++ rest)
  end.

(** The end of [append], once the segment is full: [os.close] and [_open_segment]. The records are
    durable and counted by then, also where this raises. *)
Definition roll (d : disk) (w : writer) (refused : option fault) : res spool_error Z * disk * writer :=
  match open_segment d (next_seq w) refused with
  | (returned, d, Some ino) =>
      let w := Writer (max_bytes w) (torn_w w) (next_seq w) ino (blen (content d ino)) (used w) true in
      (if returned then Ok (head w) else Err OsError, d, w)
  | (_, d, None) =>
      (Err OsError, d, Writer (max_bytes w) (torn_w w) (next_seq w) (fd w) (size_w w) (used w) false)
  end.

(** [append], and what the system refuses of it. On a descriptor a rollover left closed, the write
    and the [ftruncate] both raise (its number is taken not to be in use again). *)
Definition append (d : disk) (w : writer) (payloads : list bytes) (refused : option fault)
    : res spool_error Z * disk * writer :=
  if used w >=? max_bytes w then (Err SpoolFullError, d, w)
  else match frames (next_seq w) payloads with
  | Err e => (Err e, d, w)
  | Ok buffer =>
      if negb (is_open w) then (Err OsError, d, w)
      else match refused with
      | Some (Write_refused n) =>
          let d := set_content d (fd w) (content d (fd w) ++ take n buffer) in
          let d := set_content d (fd w) (slice (content d (fd w)) 0 (size_w w)) in
          (Err OsError, d, w)
      | Some (Cut_refused n) => (Err OsError, set_content d (fd w) (content d (fd w) ++ take n buffer), w)
      | _ =>
          let d := set_content d (fd w) (content d (fd w) ++ buffer) in
          let w := Writer (max_bytes w) (torn_w w) (next_seq w + Z.of_nat (length payloads)) (fd w)
                     (size_w w + blen buffer) (used w + blen buffer) true in
          if size_w w >=? SEGMENT_BYTES then roll d w refused else (Ok (head w), d, w)
      end
  end.

Definition refresh_usage (d : disk) (w : writer) : writer :=
  Writer (max_bytes w) (torn_w w) (next_seq w) (fd w) (size_w w) (usage d) (is_open w).

(** ** The reader *)

Record reader := Reader {
  after : Z;                    (* the last sequence number returned *)
  torn : Z;
  corrupt : Z;
  skipped : Z;
  file : option (Z * Z);        (* the open inode, and the position in it *)
  first_r : Z;
  buffer : bytes;
  offset : Z
}.

Definition new_reader (after : Z) : reader := Reader after 0 0 0 None 0 [] 0.

(** [_open(want)]. *)
Definition open_reader (d : disk) (r : reader) (want : Z) : bool * reader :=
  let found := segments d in
  match found with
  | [] => (false, r)
  | oldest :: _ =>
      let holding := filter (fun s => s.1 ≤ want) found in
      let '(first, ino) := default oldest (last holding) in
      let skipped := match holding with [] => skipped r + (first - want) | _ => skipped r end in
      (true, Reader (after r) (torn r) (corrupt r) skipped (Some (ino, 0)) first [] 0)
  end.

(** [_resync]. *)
Definition resync (r : reader) : reader :=
  let '(length, _, _) := unpack_header (buffer r) (offset r) in
  let jump := offset r + HEADER_size + length in
  let '(found, _, _) := parse (buffer r) jump in
  let step := if (length <=? MAX_PAYLOAD) && bool_decide (found ≠ []) then jump - offset r
              else 1 in
  Reader (after r) (torn r) (corrupt r + step) (skipped r) (file r) (first_r r)
    (buffer r) (offset r + step).

(** [_finished]: whether to go on reading, and the reader. *)
Definition finished (d : disk) (r : reader) : bool * reader :=
  match file r with
  | None => (false, r)
  | Some (ino, pos) =>
      let later := filter (fun s => first_r r ≤ s.1) (segments d) in
      let replaced := match later with
                      | s :: _ => (s.1 =? first_r r) && negb (s.2 =? ino)
                      | [] => false
                      end in
      let later := filter (fun s => first_r r < s.1 ∨ replaced = true) later in
      match later with
      | [] => (false, r)
      | (first, _) :: _ =>
          let rest := drop (Z.to_nat pos) (content d ino) in
          match rest with
          | _ :: _ =>
              (true, Reader (after r) (torn r) (corrupt r) (skipped r)
                       (Some (ino, blen (content d ino))) (first_r r)
                       (drop (Z.to_nat (offset r)) (buffer r) ++ rest) 0)
          | [] =>
              open_reader d
                (Reader (after r) (torn r + (blen (buffer r) - offset r)) (corrupt r)
                   (skipped r + Z.max 0 (first - (after r + 1))) None (first_r r)
                   (buffer r) (offset r)) first
          end
      end
  end.

(** [for seq, payload in records: if seq > self.after: ...] *)
Definition take_new (after : Z) (records : list record) : Z * list record :=
  foldl (fun '(a, out) rec => if rec.1 >? a then (rec.1, out ++ [rec]) else (a, out))
    (after, []) records.

(** [read]'s loop body once a segment is open: whether to go on, the reader, and the records it
    appended. *)
Definition read_body (d : disk) (r : reader) : bool * reader * list record :=
  let '(records, off, bad) := parse (buffer r) (offset r) in
  let '(a, out) := take_new (after r) records in
  let r := Reader a (torn r) (corrupt r) (skipped r) (file r) (first_r r) (buffer r) off in
  if (bad : bool) then (true, resync r, out)
  else match records with
  | _ :: _ => (true, r, out)
  | [] =>
      match file r with
      | None => (false, r, out)
      | Some (ino, pos) =>
          let chunk := slice (content d ino) pos (pos + READ_CHUNK) in
          match chunk with
          | _ :: _ =>
              (true, Reader (after r) (torn r) (corrupt r) (skipped r)
                       (Some (ino, pos + blen chunk)) (first_r r)
                       (drop (Z.to_nat (offset r)) (buffer r) ++ chunk) 0, out)
          | [] => let '(go, r) := finished d r in (go, r, out)
          end
      end
  end.

(** One iteration, on the directory as it is at that moment. *)
Definition read_iter (d : disk) (r : reader) : bool * reader * list record :=
  match file r with
  | Some _ => read_body d r
  | None =>
      let '(opened, r) := open_reader d r (after r + 1) in
      if (opened : bool) then read_body d r else (false, r, [])
  end.

(** [read(limit)], one directory per iteration: the writer may append, roll over or prune
    between any two. The flag is false when the list of directories ran out first. *)
Fixpoint read_run (ds : list disk) (limit : nat) (r : reader) (out : list record)
    : reader * list record * bool :=
  if (length out <? limit)%nat then
    match ds with
    | [] => (r, out, false)
    | d :: ds' =>
        let '(go, r, more) := read_iter d r in
        if (go : bool) then read_run ds' limit r (out ++ more) else (r, out ++ more, true)
    end
  else (r, out, true).

(** * Theorems *)

(** ** [parse] meets its loop equation: fuel is never the reason it stops *)

Definition parse_body (rec : bytes → Z → list record * Z * bool) (buffer : bytes) (offset : Z)
    : list record * Z * bool :=
  if blen buffer - offset >=? HEADER_size then
    let '(length, crc, seq) := unpack_header buffer offset in
    if length >? MAX_PAYLOAD then ([], offset, true)
    else
      let e := offset + HEADER_size + length in
      if e >? blen buffer then ([], offset, false)
      else
        let payload := slice buffer (offset + HEADER_size) e in
        if record_crc seq payload =? crc then
          let '(out, e', corrupt) := rec buffer e in
          ((seq, payload) :: out, e', corrupt)
        else ([], offset, true)
  else ([], offset, false).

Lemma parse_go_S n buf off : parse_go (S n) buf off = parse_body (parse_go n) buf off.
Proof. done. Qed.

Lemma le_value_nonneg bs : 0 ≤ le_value bs.
Proof. apply le_value_range. Qed.

Lemma parse_go_fuel n m buf off :
  0 ≤ off → blen buf - off < Z.of_nat n → blen buf - off < Z.of_nat m →
  parse_go n buf off = parse_go m buf off.
Proof.
  revert m off. induction n as [|n IH]; intros m off Hoff Hn Hm.
  - destruct m as [|m]; [done|]. rewrite parse_go_S. unfold parse_body, HEADER_size.
    zcases. done.
  - destruct m as [|m].
    { rewrite parse_go_S. unfold parse_body, HEADER_size. zcases. done. }
    rewrite !parse_go_S. unfold parse_body, HEADER_size. cbn [unpack_header].
    rewrite Z.geb_leb. destruct (Z.leb_spec 16 (blen buf - off)); [|done].
    pose proof (le_value_nonneg (slice buf off (off + 4))). unfold unpack_header.
    zcases; try done. rewrite (IH m); [done|lia..].
Qed.

Lemma parse_eq buf off : 0 ≤ off → parse buf off = parse_body parse buf off.
Proof.
  intros Hoff. unfold parse at 1. rewrite parse_go_S. unfold parse_body, unpack_header, HEADER_size.
  rewrite Z.geb_leb. destruct (Z.leb_spec 16 (blen buf - off)); [|done].
  pose proof (le_value_nonneg (slice buf off (off + 4))).
  rewrite Z.gtb_ltb. case_match; [done|]. rewrite Z.gtb_ltb. case_match; [done|].
  unfold parse. rewrite (parse_go_fuel _ (S (length buf))); [done|..]; unfold blen in *; lia.
Qed.

Lemma parse_unfold buf off : parse buf off = parse_go (S (length buf)) buf off.
Proof. done. Qed.

Opaque parse.

(** ** Framing and parsing are inverse *)

(** [payloads] numbered from [seq]. *)
Fixpoint number (seq : Z) (payloads : list bytes) : list record :=
  match payloads with [] => [] | p :: ps => (seq, p) :: number (seq + 1) ps end.

(** The bytes of any list of records, each framed under its own number. *)
Fixpoint frame_records (records : list record) : res spool_error bytes :=
  match records with
  | [] => Ok []
  | (seq, p) :: rs => f ← frame seq p; rest ← frame_records rs; Ok (f ++ rest)
  end.

Lemma frames_records seq ps : frames seq ps = frame_records (number seq ps).
Proof. revert seq; induction ps as [|p ps IH]; intros seq; simpl; [done|]. by rewrite IH. Qed.

Lemma frame_Ok_inv seq p f :
  frame seq p = Ok f →
  0 ≤ seq < 2 ^ 64 ∧ blen p < 2 ^ 32 ∧ blen f = 16 + blen p ∧
  f = le_bytes 4 (blen p) ++ le_bytes 4 (record_crc seq p) ++ le_bytes 8 seq ++ p.
Proof.
  unfold frame. intros [Hb Hf]%ensure_Ok_inv. reflect_bools.
  assert (f = le_bytes 4 (blen p) ++ le_bytes 4 (record_crc seq p) ++ le_bytes 8 seq ++ p)
    as -> by congruence.
  repeat split; [lia..|]. rewrite !blen_app. unfold blen.
  rewrite !length_le_bytes. lia.
Qed.

Lemma record_crc_range seq p : 0 ≤ record_crc seq p < 2 ^ 32.
Proof. apply crc32_range, crc32_range. lia. Qed.

(** The header of a frame, read back from wherever the frame starts, when at least the header's
    bytes are there. *)
Lemma unpack_header_frame pre seq p f t rest :
  frame seq p = Ok f → f = t ++ rest → 16 ≤ blen t →
  unpack_header (pre ++ t) (blen pre) = (blen p, record_crc seq p, seq).
Proof.
  intros Hf Hsplit Ht. apply frame_Ok_inv in Hf as (Hs & Hp & _ & Ef).
  set (h := le_bytes 4 (blen p) ++ le_bytes 4 (record_crc seq p) ++ le_bytes 8 seq) in *.
  assert (length h = 16)%nat as Hh.
  { unfold h. by rewrite !length_app, !length_le_bytes. }
  assert (t = h ++ drop 16 t) as Et.
  { rewrite <- (take_drop 16 t) at 1. f_equal.
    assert (f = h ++ p) as Ef' by (rewrite Ef; unfold h; by rewrite <- !app_assoc).
    rewrite Hsplit in Ef'. apply (f_equal (take 16)) in Ef'.
    rewrite take_app_le in Ef' by (unfold blen in Ht; lia).
    rewrite Ef'. rewrite take_app_le, take_ge by lia. done. }
  rewrite Et. generalize (drop 16 t) as q. intros q. unfold unpack_header, h.
  rewrite <- !app_assoc.
  assert (blen (le_bytes 4 (blen p)) = 4) as H1 by (unfold blen; by rewrite length_le_bytes).
  assert (blen (le_bytes 4 (record_crc seq p)) = 4) as H2
    by (unfold blen; by rewrite length_le_bytes).
  assert (blen (le_bytes 8 seq) = 8) as H3 by (unfold blen; by rewrite length_le_bytes).
  pose proof (record_crc_range seq p). pose proof (blen_nonneg p).
  repeat f_equal.
  - rewrite (slice_app_at pre) by lia. apply le_value_small. simpl. lia.
  - rewrite (app_assoc pre), (slice_app_at (pre ++ _)) by (rewrite ?blen_app; lia).
    apply le_value_small. simpl. lia.
  - rewrite (app_assoc pre), (app_assoc (pre ++ _)), (slice_app_at ((pre ++ _) ++ _))
      by (rewrite ?blen_app; lia).
    apply le_value_small. simpl. lia.
Qed.

Definition small (p : bytes) : Prop := blen p ≤ MAX_PAYLOAD.

Lemma frame_split_header seq p f :
  frame seq p = Ok f → ∃ h, f = h ++ p ∧ blen h = 16.
Proof.
  intros Hf. apply frame_Ok_inv in Hf as (_ & _ & Hlen & ->).
  exists (le_bytes 4 (blen p) ++ le_bytes 4 (record_crc seq p) ++ le_bytes 8 seq).
  rewrite <- !app_assoc. split; [done|]. rewrite !blen_app in *. lia.
Qed.

Lemma parse_frame pre seq p f rest :
  frame seq p = Ok f → small p →
  parse (pre ++ f ++ rest) (blen pre) =
  let '(out, e, c) := parse (pre ++ f ++ rest) (blen (pre ++ f)) in ((seq, p) :: out, e, c).
Proof.
  intros Hf Hp. rewrite parse_eq by apply blen_nonneg. unfold parse_body, small in *.
  destruct (frame_split_header _ _ _ Hf) as (h & Eh & Hh).
  pose proof (frame_Ok_inv _ _ _ Hf) as (_ & _ & Hlen & _).
  pose proof (blen_nonneg p). pose proof (blen_nonneg rest).
  assert (unpack_header (pre ++ f ++ rest) (blen pre) = (blen p, record_crc seq p, seq)) as ->.
  { subst f. unfold unpack_header. pose proof (unpack_header_frame pre seq p (h ++ p) (h ++ p) [] Hf) as Hu.
    rewrite app_nil_r in Hu. specialize (Hu eq_refl ltac:(lia)).
    unfold unpack_header in Hu. rewrite <- Hu.
    assert (∀ i j, j ≤ 16 → 0 ≤ i → slice (pre ++ (h ++ p) ++ rest) (blen pre + i) (blen pre + j)
      = slice (pre ++ h ++ p) (blen pre + i) (blen pre + j)) as Hs.
    { intros i j Hj Hi. unfold slice, blen in *.
      replace (Z.to_nat (Z.of_nat (length pre) + i)) with (length pre + Z.to_nat i)%nat by lia.
      rewrite <- !drop_drop, !drop_app_length, <- !app_assoc.
      destruct (decide (i ≤ 16)).
      - rewrite !(drop_app_le h) by lia. rewrite !take_app_le; [done|..];
          rewrite length_drop; lia.
      - replace (Z.to_nat _) with 0%nat by lia. done. }
    pose proof (Hs 0 4 ltac:(lia) ltac:(lia)) as E0. rewrite !Z.add_0_r in E0.
    by rewrite E0, !Hs by lia. }
  rewrite !blen_app, Hlen. unfold HEADER_size. rewrite Z.geb_leb.
  destruct (Z.leb_spec 16 (blen pre + (16 + blen p + blen rest) - blen pre)); [|lia].
  rewrite !Z.gtb_ltb. destruct (Z.ltb_spec MAX_PAYLOAD (blen p)); [lia|].
  destruct (Z.ltb_spec (blen pre + (16 + blen p + blen rest)) (blen pre + 16 + blen p)); [lia|].
  assert (slice (pre ++ f ++ rest) (blen pre + 16) (blen pre + 16 + blen p) = p) as ->.
  { subst f. rewrite <- app_assoc, (app_assoc pre). apply slice_app_at; rewrite blen_app; lia. }
  rewrite Z.eqb_refl. replace (blen pre + (16 + blen p)) with (blen pre + 16 + blen p) by lia.
  done.
Qed.

Lemma frames_cons_inv seq p ps bs :
  frames seq (p :: ps) = Ok bs →
  ∃ f rest, frame seq p = Ok f ∧ frames (seq + 1) ps = Ok rest ∧ bs = f ++ rest.
Proof.
  simpl. intros (f & Hf & H)%bind_Ok_inv. apply bind_Ok_inv in H as (rest & Hr & H).
  simplify_eq/=. eauto.
Qed.

Lemma parse_frames pre seq ps bs rest :
  frames seq ps = Ok bs → Forall small ps →
  parse (pre ++ bs ++ rest) (blen pre) =
  let '(out, e, c) := parse (pre ++ bs ++ rest) (blen (pre ++ bs)) in
  (number seq ps ++ out, e, c).
Proof.
  revert pre seq bs. induction ps as [|p ps IH]; intros pre seq bs Hfs Hps.
  - simplify_eq/=. rewrite app_nil_r. by destruct (parse _ _) as [[??]?].
  - apply frames_cons_inv in Hfs as (f & bs' & Hf & Hfs & ->).
    apply Forall_cons in Hps as [Hp Hps].
    rewrite <- app_assoc, (parse_frame pre seq p f (bs' ++ rest)) by done.
    rewrite (app_assoc pre f). rewrite (IH (pre ++ f) (seq + 1) bs') by done.
    rewrite <- !(app_assoc pre). rewrite (app_assoc f bs').
    by destruct (parse _ _) as [[??]?].
Qed.

(** A frame cut anywhere before its end parses to nothing, and is not corruption. *)
Lemma parse_torn pre seq p f t cut :
  frame seq p = Ok f → small p → f = t ++ cut → cut ≠ [] →
  parse (pre ++ t) (blen pre) = ([], blen pre, false).
Proof.
  intros Hf Hp Ef Hcut. rewrite parse_eq by apply blen_nonneg. unfold parse_body, HEADER_size.
  rewrite blen_app, Z.geb_leb. destruct (Z.leb_spec 16 (blen pre + blen t - blen pre)); [|done].
  rewrite (unpack_header_frame pre seq p f t cut) by (done || lia).
  pose proof (frame_Ok_inv _ _ _ Hf) as (_ & _ & Hlen & _).
  rewrite Ef, blen_app in Hlen. unfold small in Hp.
  assert (0 < blen cut) by (destruct cut; [done|unfold blen; simpl; lia]).
  rewrite !Z.gtb_ltb. destruct (Z.ltb_spec MAX_PAYLOAD (blen p)); [lia|].
  destruct (Z.ltb_spec (blen pre + blen t) (blen pre + 16 + blen p)); [done|lia].
Qed.

Lemma parse_end buf : parse buf (blen buf) = ([], blen buf, false).
Proof.
  rewrite parse_eq by apply blen_nonneg. unfold parse_body, HEADER_size. zcases. done.
Qed.

Lemma parse_frames_exact seq ps bs :
  frames seq ps = Ok bs → Forall small ps → parse bs 0 = (number seq ps, blen bs, false).
Proof.
  intros Hbs Hps. pose proof (parse_frames [] seq ps bs [] Hbs Hps) as H.
  simpl in H. rewrite app_nil_r, parse_end in H. rewrite app_nil_r in H. done.
Qed.

Lemma parse_frames_torn seq ps bs p f t cut :
  frames seq ps = Ok bs → Forall small ps →
  frame (seq + Z.of_nat (length ps)) p = Ok f → small p → f = t ++ cut → cut ≠ [] →
  parse (bs ++ t) 0 = (number seq ps, blen bs, false).
Proof.
  intros Hbs Hps Hf Hp Ef Hcut. pose proof (parse_frames [] seq ps bs t Hbs Hps) as H.
  simpl in H. rewrite (parse_torn bs _ p f t cut) in H by done.
  rewrite app_nil_r in H. done.
Qed.

(** Whatever [parse] returns was framed in the buffer, byte for byte. *)
Lemma parse_go_sound n buf off recs e c :
  0 ≤ off ≤ blen buf → parse_go n buf off = (recs, e, c) →
  off ≤ e ≤ blen buf ∧ frame_records recs = Ok (slice buf off e).
Proof.
  revert off recs e c. induction n as [|n IH]; intros off recs e c Hoff.
  { intros [= <- <- <-]. split; [lia|]. unfold slice. by rewrite Z.sub_diag. }
  rewrite parse_go_S. unfold parse_body, HEADER_size.
  assert (frame_records [] = Ok (slice buf off off)) as Hnil
    by (unfold slice; by rewrite Z.sub_diag).
  rewrite Z.geb_leb. destruct (Z.leb_spec 16 (blen buf - off)) as [H16|];
    [|intros [= <- <- <-]; by split; [lia|]].
  unfold unpack_header.
  set (len := le_value (slice buf off (off + 4))).
  set (crc := le_value (slice buf (off + 4) (off + 8))).
  set (seq := le_value (slice buf (off + 8) (off + 16))).
  assert (0 ≤ len) by apply le_value_nonneg.
  rewrite Z.gtb_ltb. destruct (Z.ltb_spec MAX_PAYLOAD len);
    [intros [= <- <- <-]; by split; [lia|]|].
  rewrite Z.gtb_ltb. destruct (Z.ltb_spec (blen buf) (off + 16 + len));
    [intros [= <- <- <-]; by split; [lia|]|].
  destruct (Z.eqb_spec (record_crc seq (slice buf (off + 16) (off + 16 + len))) crc) as [Hcrc|];
    [|intros [= <- <- <-]; by split; [lia|]].
  destruct (parse_go n buf (off + 16 + len)) as [[out e'] c'] eqn:Ego.
  intros [= <- <- <-]. apply IH in Ego as [He Hout]; [|lia]. split; [lia|].
  assert (∀ i j k, off ≤ i → i ≤ j → j ≤ k → slice buf i k = slice buf i j ++ slice buf j k) as Hcat.
  { intros i j k ???. unfold slice.
    replace (Z.to_nat (k - i)) with (Z.to_nat (j - i) + Z.to_nat (k - j))%nat by lia.
    rewrite <- take_take_drop. f_equal. rewrite drop_drop. do 2 f_equal. lia. }
  assert (∀ i j n, off ≤ i → i ≤ j ≤ blen buf → j - i = Z.of_nat n →
      le_bytes n (le_value (slice buf i j)) = slice buf i j) as Hle.
  { intros i j k ???. rewrite <- (le_bytes_le_value (slice buf i j)) at 2. f_equal.
    pose proof (blen_slice buf i j ltac:(lia) ltac:(lia) ltac:(lia)) as Hb. unfold blen in Hb. lia. }
  pose proof (le_value_range (slice buf (off + 8) (off + 16))) as Hseq.
  rewrite (blen_slice buf) in Hseq by lia.
  replace (off + 16 - (off + 8)) with 8 in Hseq by lia.
  assert (frame seq (slice buf (off + 16) (off + 16 + len)) = Ok (slice buf off (off + 16 + len))) as Hf.
  { unfold frame. unfold MAX_PAYLOAD in *. rewrite blen_slice by lia.
    replace (off + 16 + len - (off + 16)) with len by lia.
    rewrite Hcrc. fold seq in Hseq. 
    destruct (Z.leb_spec 0 seq); [|lia]. destruct (Z.ltb_spec seq (2 ^ 64)); [|lia].
    destruct (Z.ltb_spec len (2 ^ 32)); [|lia]. unfold ensure. cbn [andb]. apply (f_equal Ok).
    rewrite (Hcat off (off + 4) (off + 16 + len)), (Hcat (off + 4) (off + 8) (off + 16 + len)),
      (Hcat (off + 8) (off + 16) (off + 16 + len)) by lia.
    unfold len, crc, seq.
    rewrite (Hle off _ 4%nat), (Hle (off + 4) _ 4%nat), (Hle (off + 8) _ 8%nat) by lia.
    done. }
  simpl. rewrite Hf, Hout. simpl. f_equal. symmetry. apply Hcat; lia.
Qed.

Lemma parse_sound buf recs e c :
  parse buf 0 = (recs, e, c) → 0 ≤ e ≤ blen buf ∧ frame_records recs = Ok (slice buf 0 e).
Proof.
  rewrite parse_unfold. apply parse_go_sound. pose proof (blen_nonneg buf). lia.
Qed.

(** ** The directory listing *)

Lemma elem_of_segments d s : s ∈ segments d ↔ names d !! s.1 = Some s.2.
Proof.
  unfold segments. rewrite elem_of_sort_by. destruct s. apply elem_of_map_to_list.
Qed.

Lemma segments_sorted d : StronglySorted (fun a b => a.1 < b.1) (segments d).
Proof.
  assert (StronglySorted (fun a b : Z * Z => (a.1 <=? b.1) = true) (segments d)) as Hs.
  { apply (sort_by_sorted _ (fun _ => True)); [by apply Forall_true|lia|lia]. }
  assert (NoDup (map fst (segments d))) as Hnd.
  { unfold segments. rewrite sort_by_perm. apply NoDup_fst_map_to_list. }
  induction Hs as [|s l Hs IH Hall]; [constructor|].
  apply NoDup_cons in Hnd as [Hni Hnd]. constructor; [by apply IH|].
  rewrite Forall_forall in *. intros x Hx. specialize (Hall x Hx). simpl in Hall.
  assert (s.1 ≠ x.1); [|lia]. intros Heq. apply Hni, list_elem_of_fmap. eauto.
Qed.

Lemma segments_unique d l :
  StronglySorted (fun a b => a.1 < b.1) l → l ≡ₚ map_to_list (names d) → segments d = l.
Proof.
  intros Hl Hp. apply (StronglySorted_unique_strong (fun a b : Z * Z => a.1 < b.1)).
  - intros x y _ _ ??. lia.
  - apply segments_sorted.
  - done.
  - rewrite Hp. apply sort_by_perm.
Qed.

Lemma sorted_snoc (l : list (Z * Z)) x :
  StronglySorted (fun a b => a.1 < b.1) l → (∀ s, s ∈ l → s.1 < x.1) →
  StronglySorted (fun a b => a.1 < b.1) (l ++ [x]).
Proof.
  induction 1 as [|y l Hl IH Hy]; simpl; intros Hx; [repeat constructor|].
  constructor; [apply IH; set_solver|]. apply Forall_app. split; [done|].
  constructor; [|done]. apply Hx. set_solver.
Qed.

Lemma segments_insert_last d k ino inds nx :
  (∀ s, s ∈ segments d → s.1 < k) →
  segments (Disk (<[k := ino]> (names d)) inds nx) = segments d ++ [(k, ino)].
Proof.
  intros Hk. assert (names d !! k = None) as Hn.
  { destruct (names d !! k) as [i|] eqn:E; [|done].
    specialize (Hk (k, i)). rewrite elem_of_segments in Hk. specialize (Hk E). simpl in Hk. lia. }
  apply segments_unique.
  - apply sorted_snoc; [apply segments_sorted|done].
  - simpl. rewrite map_to_list_insert by done. unfold segments at 1.
    rewrite sort_by_perm. by rewrite Permutation_app_comm.
Qed.

Lemma segments_delete_last d front k ino inds nx :
  segments d = front ++ [(k, ino)] →
  segments (Disk (delete k (names d)) inds nx) = front.
Proof.
  intros Hs. pose proof (segments_sorted d) as Hsort. rewrite Hs in Hsort.
  assert (names d !! k = Some ino) as Hk.
  { change k with ((k, ino).1). change (Some ino) with (Some (k, ino).2).
    apply elem_of_segments. rewrite Hs. set_solver. }
  apply segments_unique.
  - by apply StronglySorted_app_1_l in Hsort.
  - simpl. apply (Permutation_cons_inv (a := (k, ino))).
    rewrite <- map_to_list_insert by (by rewrite lookup_delete_eq).
    rewrite insert_delete_eq, insert_id by done.
    trans (segments d); [|apply sort_by_perm]. rewrite Hs.
    by rewrite Permutation_app_comm.
Qed.

(** ** The spool invariant, and the log it holds *)

(** Segments hold whole frames, numbered on from [lo] to just below [hi] without a gap. *)
Fixpoint chain (lo : Z) (segs : list (Z * bytes)) (hi : Z) : Prop :=
  match segs with
  | [] => lo = hi
  | (first, bs) :: rest =>
      first = lo ∧ ∃ ps, frames lo ps = Ok bs ∧ Forall small ps ∧
      chain (lo + Z.of_nat (length ps)) rest hi
  end.

Definition seg_contents (d : disk) : list (Z * bytes) :=
  map (fun s => (s.1, content d s.2)) (segments d).

(** What a reader is owed: every whole record of every segment, oldest first. *)
Definition records_of (segs : list (Z * bytes)) : list record :=
  flat_map (fun s => (parse s.2 0).1.1) segs.
Definition log (d : disk) : list record := records_of (seg_contents d).

Record spool_wf (d : disk) (lo hi : Z) : Prop := {
  wf_chain : chain lo (seg_contents d) hi;
  wf_inodes : NoDup (map snd (segments d));
  wf_fresh : ∀ s, s ∈ segments d → s.2 < next_inode d
}.

(** The writer's descriptor is on the newest segment and its counters agree with it. *)
Record writer_ok (d : disk) (w : writer) (lo : Z) : Prop := {
  ok_wf : spool_wf d lo (next_seq w);
  ok_fd : ∃ front first, segments d = front ++ [(first, fd w)];
  ok_size : size_w w = blen (content d (fd w));
  ok_open : is_open w = true
}.

Lemma chain_app lo s1 s2 hi :
  chain lo (s1 ++ s2) hi ↔ ∃ mid, chain lo s1 mid ∧ chain mid s2 hi.
Proof.
  revert lo; induction s1 as [|[f bs] s1 IH]; intros lo; simpl; [naive_solver|].
  setoid_rewrite IH. split.
  - intros (->&ps&?&?&mid&?&?). exists mid. split; [|done]. split; [done|]. by exists ps.
  - intros (mid&(->&ps&?&?&?)&?). split; [done|]. exists ps. eauto.
Qed.

Lemma chain_le lo segs hi : chain lo segs hi → lo ≤ hi.
Proof.
  revert lo; induction segs as [|[f bs] segs IH]; simpl; intros lo; [lia|].
  intros (->&ps&_&_&H). apply IH in H. lia.
Qed.

Lemma number_app seq p1 p2 :
  number seq (p1 ++ p2) = number seq p1 ++ number (seq + Z.of_nat (length p1)) p2.
Proof.
  revert seq; induction p1 as [|p p1 IH]; intros seq; simpl.
  - by rewrite Z.add_0_r.
  - rewrite IH. do 3 f_equal. lia.
Qed.

Lemma frames_app seq p1 p2 b1 b2 :
  frames seq p1 = Ok b1 → frames (seq + Z.of_nat (length p1)) p2 = Ok b2 →
  frames seq (p1 ++ p2) = Ok (b1 ++ b2).
Proof.
  revert seq b1. induction p1 as [|p p1 IH]; intros seq b1 H1 H2.
  - simplify_eq/=. by rewrite Z.add_0_r in H2.
  - apply frames_cons_inv in H1 as (f & r & Hf & Hr & ->). simpl app. simpl frames.
    rewrite Hf. simpl. rewrite (IH _ r); [by rewrite <- app_assoc|done|].
    rewrite <- H2. f_equal. simpl. lia.
Qed.

Lemma chain_records lo segs hi :
  chain lo segs hi → ∃ ps, records_of segs = number lo ps ∧ hi = lo + Z.of_nat (length ps).
Proof.
  revert lo; induction segs as [|[f bs] segs IH]; simpl; intros lo.
  - intros ->. exists []. simpl. split; [done|lia].
  - intros (->&ps&Hf&Hps&H). apply IH in H as (qs & Hqs & ->).
    exists (ps ++ qs). rewrite (parse_frames_exact lo ps bs) by done. simpl.
    rewrite number_app, Hqs, length_app. split; [done|lia].
Qed.

Lemma frames_split seq p1 p2 b :
  frames seq (p1 ++ p2) = Ok b →
  ∃ b1 b2, frames seq p1 = Ok b1 ∧ frames (seq + Z.of_nat (length p1)) p2 = Ok b2 ∧ b = b1 ++ b2.
Proof.
  revert seq b. induction p1 as [|p p1 IH]; intros seq b Hb.
  - exists [], b. rewrite Z.add_0_r. done.
  - apply frames_cons_inv in Hb as (f & r & Hf & Hr & ->).
    apply IH in Hr as (b1 & b2 & H1 & H2 & ->). exists (f ++ b1), b2.
    simpl frames. rewrite Hf. simpl. rewrite H1. split_and!; [done| |by rewrite app_assoc].
    rewrite <- H2. f_equal. simpl. lia.
Qed.

Lemma chain_last_first lo front first bs hi :
  chain lo (front ++ [(first, bs)]) hi →
  chain lo front first ∧
  ∃ ps, frames first ps = Ok bs ∧ Forall small ps ∧ hi = first + Z.of_nat (length ps).
Proof.
  rewrite chain_app. intros (mid & Hf & (-> & ps & H1 & H2 & H3)). simpl in H3. eauto 6.
Qed.

Lemma records_of_app a b : records_of (a ++ b) = records_of a ++ records_of b.
Proof. unfold records_of. apply flat_map_app. Qed.

(** ** Appending *)

Lemma content_set d i bs j :
  content (set_content d i bs) j = if decide (i = j) then bs else content d j.
Proof.
  unfold content, set_content. simpl. rewrite lookup_insert. by case_decide.
Qed.

Lemma segments_set_content d i bs : segments (set_content d i bs) = segments d.
Proof. done. Qed.

Lemma seg_contents_set_last d front first ino bs :
  segments d = front ++ [(first, ino)] → NoDup (map snd (segments d)) →
  seg_contents (set_content d ino bs) =
  map (fun s => (s.1, content d s.2)) front ++ [(first, bs)].
Proof.
  intros Hs Hnd. unfold seg_contents. rewrite segments_set_content, Hs in *.
  rewrite map_app in *. simpl. rewrite content_set, decide_True by done. f_equal.
  apply map_ext_in. intros s Hin. rewrite content_set, decide_False; [done|].
  intros ->. rewrite NoDup_app in Hnd. destruct Hnd as (_ & Hnd & _).
  apply (Hnd s.2); [|simpl; set_solver]. apply list_elem_of_fmap.
  exists s. split; [done|]. by apply list_elem_of_In.
Qed.

Lemma seg_contents_last d front first ino :
  segments d = front ++ [(first, ino)] →
  seg_contents d = map (fun s => (s.1, content d s.2)) front ++ [(first, content d ino)].
Proof. intros Hs. unfold seg_contents. by rewrite Hs, map_app. Qed.

(** The newest segment's bytes, as frames. *)
Lemma wf_last_frames d lo hi front first ino :
  spool_wf d lo hi → segments d = front ++ [(first, ino)] →
  chain lo (map (fun s => (s.1, content d s.2)) front) first ∧
  ∃ ps, frames first ps = Ok (content d ino) ∧ Forall small ps ∧
        hi = first + Z.of_nat (length ps).
Proof.
  intros [Hc _ _] Hs. rewrite (seg_contents_last _ _ _ _ Hs) in Hc.
  by apply chain_last_first in Hc.
Qed.

(** Replacing the newest segment's bytes by more frames grows the log by exactly those. *)
Lemma wf_set_last d lo hi front first ino qs buf :
  spool_wf d lo hi → segments d = front ++ [(first, ino)] →
  frames hi qs = Ok buf → Forall small qs →
  let d' := set_content d ino (content d ino ++ buf) in
  spool_wf d' lo (hi + Z.of_nat (length qs)) ∧ log d' = log d ++ number hi qs.
Proof.
  intros Hwf Hs Hbuf Hqs d'.
  destruct (wf_last_frames _ _ _ _ _ _ Hwf Hs) as (Hfront & ps & Hps & Hsm & ->).
  assert (frames first (ps ++ qs) = Ok (content d ino ++ buf)) as Hall by eauto using frames_app.
  assert (Forall small (ps ++ qs)) as Hsm' by (by apply Forall_app).
  split.
  - split; [|apply Hwf|apply Hwf].
    unfold d'. rewrite (seg_contents_set_last _ _ _ _ _ Hs) by apply Hwf.
    apply chain_app. exists first. split; [done|]. simpl. split; [done|].
    exists (ps ++ qs). rewrite length_app. repeat split; auto; lia.
  - unfold log, d'. rewrite (seg_contents_set_last _ _ _ _ _ Hs) by apply Hwf.
    rewrite (seg_contents_last _ _ _ _ Hs), !records_of_app, <- app_assoc. f_equal.
    simpl. rewrite !app_nil_r.
    rewrite (parse_frames_exact _ _ _ Hall), (parse_frames_exact _ _ _ Hps) by done.
    simpl. by rewrite number_app.
Qed.

(** A fresh segment named by the next sequence number. *)
Lemma wf_open_name d lo hi :
  spool_wf d lo hi → (∀ s, s ∈ segments d → s.1 < hi) →
  let '(d', ino) := open_name d hi in
  spool_wf d' lo hi ∧ segments d' = segments d ++ [(hi, ino)] ∧ content d' ino = [] ∧
  log d' = log d.
Proof.
  intros Hwf Hlt. unfold open_name.
  assert (names d !! hi = None) as ->.
  { destruct (names d !! hi) as [i|] eqn:E; [|done].
    specialize (Hlt (hi, i)). rewrite elem_of_segments in Hlt. specialize (Hlt E). simpl in Hlt. lia. }
  pose proof (segments_insert_last d hi (next_inode d) (<[next_inode d := []]> (inodes d))
    (next_inode d + 1) Hlt) as Hsegs.
  set (d' := Disk _ _ _) in *.
  assert (∀ i, content d' i = if decide (next_inode d = i) then [] else content d i) as Hc.
  { intros i. unfold content, d'. simpl. rewrite lookup_insert. by case_decide. }
  assert (seg_contents d' = seg_contents d ++ [(hi, [])]) as Hsc.
  { unfold seg_contents. rewrite Hsegs, map_app. simpl. rewrite Hc, decide_True by done.
    f_equal. apply map_ext_in. intros s Hin%list_elem_of_In.
    rewrite Hc, decide_False; [done|]. apply Hwf in Hin. lia. }
  split; [|split; [done|split; [by rewrite Hc, decide_True|]]].
  - split.
    + rewrite Hsc, chain_app. exists hi. split; [apply Hwf|]. simpl. split; [done|].
      exists []. simpl. repeat split; [constructor|lia].
    + rewrite Hsegs, map_app. simpl. apply NoDup_app. split; [apply Hwf|].
      split; [|apply NoDup_singleton]. intros i Hi. apply list_elem_of_fmap in Hi as (s & -> & Hin).
      apply Hwf in Hin. set_unfold. lia.
    + rewrite Hsegs. intros s [Hin|Hin]%elem_of_app; simpl.
      * apply Hwf in Hin. lia.
      * apply list_elem_of_singleton in Hin as ->. simpl. lia.
  - unfold log. rewrite Hsc, records_of_app. simpl.
    assert (parse [] 0 = ([], 0, false)) as -> by exact (parse_end []). simpl.
    by rewrite app_nil_r.
Qed.

Lemma blen_frames_nonempty seq ps bs :
  frames seq ps = Ok bs → 0 < blen bs → 0 < Z.of_nat (length ps).
Proof. destruct ps; [intros [= <-]; done|simpl; lia]. Qed.

(** Sequence numbers of segments are below the next record's, when the newest is not empty. *)
Lemma wf_firsts_lt d lo hi front first ino :
  spool_wf d lo hi → segments d = front ++ [(first, ino)] → 0 < blen (content d ino) →
  ∀ s, s ∈ segments d → s.1 < hi.
Proof.
  intros Hwf Hs Hne s Hin.
  destruct (wf_last_frames _ _ _ _ _ _ Hwf Hs) as (Hfront & ps & Hps & Hsm & ->).
  pose proof (blen_frames_nonempty _ _ _ Hps Hne).
  pose proof (segments_sorted d) as Hsort. rewrite Hs in Hin, Hsort.
  apply elem_of_app in Hin as [Hin|Hin].
  - assert (s.1 < first); [|lia].
    apply (StronglySorted_app_1_elem_of _ _ _ s (first, ino) Hsort); [done|set_solver].
  - apply list_elem_of_singleton in Hin as ->. simpl. lia.
Qed.

(** What an append promises: all the payloads are in the log, or nothing changed. When it returns
    they are; when it raises they are not, but where only the rollover after them was refused. *)
Definition logged (d : disk) (w : writer) (payloads : list bytes) (d' : disk) (w' : writer) : Prop :=
  head w' = next_seq w + Z.of_nat (length payloads) - 1 ∧ log d' = log d ++ number (next_seq w) payloads.
Definition append_spec (d : disk) (w : writer) (payloads : list bytes) (refused : option fault)
    (r : res spool_error Z) (d' : disk) (w' : writer) : Prop :=
  match r with
  | Ok h => h = head w' ∧ logged d w payloads d' w'
  | Err e =>
      (w' = w ∧ segments d' = segments d ∧ ∀ ino, content d' ino = content d ino)
      ∨ (e = OsError ∧ (refused = Some Open_refused ∨ refused = Some Sync_refused) ∧ logged d w payloads d' w')
  end.
(** The writer goes on in step, or has no descriptor any more: then every record is in the
    directory, and the next writer starts from them. *)
Definition goes_on (d : disk) (w : writer) (lo : Z) : Prop :=
  writer_ok d w lo ∨ (is_open w = false ∧ spool_wf d lo (next_seq w)).

Lemma spool_wf_ext d d' lo hi :
  segments d' = segments d → (∀ ino, content d' ino = content d ino) →
  next_inode d' = next_inode d → spool_wf d lo hi → spool_wf d' lo hi.
Proof.
  intros Hs Hc Hn [H1 H2 H3]. split; rewrite ?Hs, ?Hn; auto.
  unfold seg_contents in *. rewrite Hs. erewrite map_ext; [exact H1|]. intros s. by rewrite Hc.
Qed.

Lemma append_go d w lo payloads buf :
  writer_ok d w lo → frames (next_seq w) payloads = Ok buf → Forall small payloads →
  let d1 := set_content d (fd w) (content d (fd w) ++ buf) in
  let hi := next_seq w + Z.of_nat (length payloads) in
  writer_ok d1 (Writer (max_bytes w) (torn_w w) hi (fd w) (size_w w + blen buf)
                  (used w + blen buf) true) lo ∧
  log d1 = log d ++ number (next_seq w) payloads.
Proof.
  intros [Hwf (front & first & Hs) Hsz _] Hbuf Hsm d1 hi.
  destruct (wf_set_last _ _ _ _ _ _ _ _ Hwf Hs Hbuf Hsm) as [Hwf' Hlog].
  split; [|done]. split; simpl.
  - exact Hwf'.
  - exists front, first. exact Hs.
  - unfold d1. rewrite content_set, decide_True, blen_app by done. lia.
  - done.
Qed.

Lemma roll_correct d w lo refused r d' w' :
  writer_ok d w lo → 0 < size_w w → roll d w refused = (r, d', w') →
  goes_on d' w' lo ∧ log d' = log d ∧ next_seq w' = next_seq w ∧
  match r with Ok h => h = head w' | Err e => e = OsError ∧ (refused = Some Open_refused ∨ refused = Some Sync_refused) end.
Proof.
  intros [Hwf (front & first & Hs) Hsz _] Hpos. rewrite Hsz in Hpos. unfold roll, open_segment.
  pose proof (wf_open_name d lo (next_seq w) Hwf (wf_firsts_lt _ _ _ _ _ _ Hwf Hs Hpos)) as H.
  destruct (open_name d (next_seq w)) as [d1 ino]. destruct H as (Hwf' & Hs' & Hc & Hlog).
  assert (∀ u, writer_ok d1 (Writer (max_bytes w) (torn_w w) (next_seq w) ino (blen (content d1 ino)) u true) lo) as Hok.
  { intros u. split; simpl; [done|by exists (segments d), (next_seq w)|done|done]. }
  destruct refused as [[n|n| |]|]; intros [= <- <- <-]; (split; [first [by left; apply Hok | by right]|split; [done|split; [done|]]]); auto.
Qed.

Lemma append_correct d w lo payloads refused r d' w' :
  writer_ok d w lo → Forall small payloads → (∀ n, refused ≠ Some (Cut_refused n)) →
  append d w payloads refused = (r, d', w') →
  goes_on d' w' lo ∧ append_spec d w payloads refused r d' w'.
Proof.
  intros Hok Hsm Hcut. unfold append. rewrite Z.geb_leb. case_match; [by intros [= <- <- <-]; split; [left|left]|].
  destruct (frames (next_seq w) payloads) as [buf|e] eqn:Hbuf; [|by intros [= <- <- <-]; split; [left|left]].
  rewrite (ok_open _ _ _ Hok). cbn [negb]. destruct (append_go _ _ _ _ _ Hok Hbuf Hsm) as [Hok1 Hlog].
  set (d1 := set_content d (fd w) (content d (fd w) ++ buf)) in *. set (w1 := Writer _ _ _ _ _ _ _) in *.
  assert ((if size_w w1 >=? SEGMENT_BYTES then roll d1 w1 refused else (Ok (head w1), d1, w1)) = (r, d', w') →
    goes_on d' w' lo ∧ append_spec d w payloads refused r d' w') as Go.
  { rewrite Z.geb_leb. destruct (Z.leb_spec SEGMENT_BYTES (size_w w1)) as [Hbig|].
    - intros E. apply (roll_correct _ _ lo) in E as (Hg & Hl & Hn & Hr); [|done|unfold SEGMENT_BYTES in Hbig; lia].
      assert (logged d w payloads d' w') as L by (split; [unfold head; rewrite Hn; done|by rewrite Hl]).
      split; [done|]. destruct r as [h|e]; [by split|]. right. by destruct Hr.
    - intros [= <- <- <-]. split; [by left|]. split; [done|]. by split. }
  destruct refused as [[n|n| |]|]; [|by specialize (Hcut n)|exact Go..].
  intros [= <- <- <-]. set (d2 := set_content d (fd w) (content d (fd w) ++ take n buf)).
  assert (∀ ino, content (set_content d2 (fd w) (slice (content d2 (fd w)) 0 (size_w w))) ino
                 = content d ino) as Hc.
  { intros ino. unfold d2. rewrite !content_set.
    destruct (decide (fd w = ino)) as [<-|Hi]; [|done].
    rewrite decide_True by done. rewrite (ok_size _ _ _ Hok).
    by apply (slice_app_at [] (content d (fd w))). }
  split; [|left; split; [done|split; [done|exact Hc]]].
  left. destruct Hok as [Hwf Hfd Hsz Hop]. split; [|exact Hfd|by rewrite Hc|done].
  eapply spool_wf_ext; [..|exact Hwf]; [done|exact Hc|done].
Qed.

(** ** Crash and recovery *)

(** [t] is what a crash left of the frame numbered [hi], or nothing at all. *)
Definition torn_tail (t : bytes) (hi : Z) : Prop :=
  t = [] ∨ ∃ p f cut, frame hi p = Ok f ∧ small p ∧ f = t ++ cut ∧ cut ≠ [].

(** A directory after a crash: well-formed but for a torn tail on the newest segment. *)
Definition crashed (d : disk) (lo hi : Z) : Prop :=
  ∃ front first ino bs t,
    segments d = front ++ [(first, ino)] ∧ content d ino = bs ++ t ∧ torn_tail t hi ∧
    spool_wf (set_content d ino bs) lo hi.

Lemma parse_torn_tail first ps bs t :
  frames first ps = Ok bs → Forall small ps → torn_tail t (first + Z.of_nat (length ps)) →
  parse (bs ++ t) 0 = (number first ps, blen bs, false).
Proof.
  intros Hbs Hps [->|(p & f & cut & Hf & Hp & Ef & Hcut)].
  - rewrite app_nil_r. by apply parse_frames_exact.
  - by apply (parse_frames_torn _ _ _ p f t cut).
Qed.

Lemma frames_prefix seq ps bs n :
  frames seq ps = Ok bs → Forall small ps →
  ∃ k bs' t, (k ≤ length ps)%nat ∧ frames seq (take k ps) = Ok bs' ∧ take n bs = bs' ++ t ∧
             torn_tail t (seq + Z.of_nat k).
Proof.
  revert seq bs n. induction ps as [|p ps IH]; intros seq bs n Hbs Hps.
  - simplify_eq/=. exists 0%nat, [], [].
    split; [lia|]. split; [done|]. split; [|by left]. by rewrite take_nil.
  - apply frames_cons_inv in Hbs as (f & rest & Hf & Hrest & ->).
    apply Forall_cons in Hps as [Hp Hps].
    destruct (decide (n < length f)%nat) as [Hlt|Hge].
    + exists 0%nat, [], (take n f). rewrite take_app_le by lia.
      split; [lia|]. split; [done|]. split; [done|]. right. exists p, f, (drop n f). simpl. rewrite Z.add_0_r, take_drop.
      repeat split; auto. intros Hd%(f_equal length). rewrite length_drop in Hd. simpl in Hd. lia.
    + destruct (IH (seq + 1) rest (n - length f)%nat Hrest Hps) as (k & bs' & t & Hk & Hf' & Ht & Htt).
      exists (S k), (f ++ bs'), t. simpl take. simpl frames. rewrite Hf. simpl. rewrite Hf'.
      split; [lia|]. split; [done|]. split.
      * rewrite take_app_ge by lia. by rewrite Ht, app_assoc.
      * replace (seq + Z.of_nat (S k)) with (seq + 1 + Z.of_nat k) by lia. done.
Qed.

Lemma crash_append d w lo payloads buf n :
  writer_ok d w lo → Forall small payloads → frames (next_seq w) payloads = Ok buf →
  ∃ k, (k ≤ length payloads)%nat ∧
    let d' := set_content d (fd w) (content d (fd w) ++ take n buf) in
    crashed d' lo (next_seq w + Z.of_nat k) ∧
    log d' = log d ++ number (next_seq w) (take k payloads).
Proof.
  intros [Hwf (front & first & Hs) _ _] Hsm Hbuf.
  destruct (frames_prefix _ _ _ n Hbuf Hsm) as (k & bs' & t & Hk & Hbs' & Ht & Htorn).
  exists k. split; [done|]. set (d' := set_content _ _ _).
  assert (Forall small (take k payloads)) as Hsm' by (by apply Forall_take).
  destruct (wf_set_last _ _ _ _ _ _ _ _ Hwf Hs Hbs' Hsm') as [Hwf' Hlog'].
  rewrite length_take, Nat.min_l in Hwf' by lia.
  set (whole := content d (fd w) ++ bs') in *.
  assert (content d' (fd w) = whole ++ t) as Hc.
  { unfold d', whole. rewrite content_set, decide_True by done. by rewrite Ht, app_assoc. }
  assert (set_content d' (fd w) whole = set_content d (fd w) whole) as Ed.
  { unfold d', set_content. simpl. by rewrite insert_insert_eq. }
  split.
  - exists front, first, (fd w), whole, t. rewrite Ed. by split_and!.
  - rewrite <- Hlog'. unfold log.
    pose proof Hs as Hs2. change (segments d) with (segments d') in Hs2.
    rewrite (seg_contents_last _ _ _ _ Hs2), Hc.
    rewrite <- Ed, (seg_contents_set_last _ _ _ _ _ Hs2) by apply Hwf.
    rewrite !records_of_app. f_equal. simpl. f_equal.
    change (segments d) with (segments (set_content d (fd w) whole)) in Hs.
    destruct (wf_last_frames _ _ _ _ _ _ Hwf' Hs) as (_ & ps & Hps & Hsmall & Hhi).
    rewrite content_set, decide_True in Hps by done.
    rewrite (parse_torn_tail first ps), (parse_frames_exact first ps) by (rewrite <- ?Hhi; done).
    done.
Qed.

Lemma wf_delete_last d lo front first ino :
  spool_wf d lo first → segments d = front ++ [(first, ino)] → content d ino = [] →
  let d' := Disk (delete first (names d)) (inodes d) (next_inode d) in
  spool_wf d' lo first ∧ (∀ s, s ∈ segments d' → s.1 < first) ∧ log d' = log d.
Proof.
  intros Hwf Hs Hc d'.
  pose proof (segments_delete_last d front first ino (inodes d) (next_inode d) Hs) as Hs'.
  fold d' in Hs'. pose proof (segments_sorted d) as Hsort. rewrite Hs in Hsort.
  assert (seg_contents d' = map (fun s => (s.1, content d s.2)) front) as Hsc.
  { unfold seg_contents. by rewrite Hs'. }
  destruct (wf_last_frames _ _ _ _ _ _ Hwf Hs) as [Hfront _].
  destruct Hwf as [Hchain Hnd Hfresh]. rewrite Hs in Hnd, Hfresh.
  split; [split|split].
  - by rewrite Hsc.
  - rewrite Hs'. rewrite map_app in Hnd. by apply NoDup_app in Hnd as (?&_&_).
  - rewrite Hs'. intros s Hin. apply Hfresh. set_solver.
  - rewrite Hs'. intros s Hin.
    apply (StronglySorted_app_1_elem_of _ _ _ s (first, ino) Hsort); [done|set_solver].
  - unfold log. rewrite Hsc, (seg_contents_last _ _ _ _ Hs), records_of_app, Hc. simpl.
    assert (parse [] 0 = ([], 0, false)) as -> by exact (parse_end []). simpl.
    by rewrite app_nil_r.
Qed.

(** What recovery leaves: every whole record, the torn bytes cut, and a writer in step. *)
Lemma recover_correct d lo hi max :
  crashed d lo hi →
  ∃ d' w', open_writer d max false None = (Ok w', d') ∧ writer_ok d' w' lo ∧
           next_seq w' = hi ∧ max_bytes w' = max ∧ log d' = log d.
Proof.
  intros (front & first & ino & bs & t & Hs & Hc & Htorn & Hwf).
  pose proof Hs as Hs0. change (segments d) with (segments (set_content d ino bs)) in Hs0.
  destruct (wf_last_frames _ _ _ _ _ _ Hwf Hs0) as (Hfront & ps & Hps & Hsm & Ehi).
  rewrite content_set, decide_True in Hps by done.
  assert (parse (content d ino) 0 = (number first ps, blen bs, false)) as Hparse.
  { rewrite Hc. apply parse_torn_tail; [done..|by rewrite <- Ehi]. }
  unfold open_writer, open_segment, recover. rewrite Hs, last_snoc, Hparse.
  assert ((if blen bs <? blen (content d ino)
           then set_content d ino (slice (content d ino) 0 (blen bs)) else d)
          = set_content d ino bs ∨
          (bs = content d ino ∧
           (if blen bs <? blen (content d ino)
            then set_content d ino (slice (content d ino) 0 (blen bs)) else d) = d)) as Hcut.
  { assert (slice (content d ino) 0 (blen bs) = bs) as ->.
    { rewrite Hc. by apply (slice_app_at []). }
    destruct (Z.ltb_spec (blen bs) (blen (content d ino))) as [|Hge]; [by left|right].
    split; [|done]. rewrite Hc in *. rewrite blen_app in Hge.
    destruct t; [by rewrite app_nil_r|]. unfold blen in Hge. simpl in Hge. lia. }
  assert (∃ d1, (if blen bs <? blen (content d ino)
     then set_content d ino (slice (content d ino) 0 (blen bs)) else d) = d1 ∧
     spool_wf d1 lo hi ∧ segments d1 = front ++ [(first, ino)] ∧ content d1 ino = bs ∧
     log d1 = log (set_content d ino bs)) as (d1 & -> & Hwf1 & Hs1 & Hc1 & Hlog1).
  { destruct Hcut as [->|[-> ->]].
    - exists (set_content d ino bs). rewrite content_set, decide_True by done. by split_and!.
    - exists d. split; [done|].
      assert (∀ i, content (set_content d ino (content d ino)) i = content d i) as He.
      { intros i. rewrite content_set. by case_decide; subst. }
      split; [by eapply spool_wf_ext; [..|exact Hwf]|]. split; [done|]. split; [done|].
      unfold log, seg_contents. rewrite segments_set_content. f_equal.
      apply map_ext. intros s. by rewrite He. }
  assert (log (set_content d ino bs) = log d) as Hlog.
  { unfold log. rewrite (seg_contents_last _ _ _ _ Hs),
      (seg_contents_set_last _ _ _ _ _ Hs), !records_of_app by apply Hwf.
    simpl. by rewrite Hparse, (parse_frames_exact first ps) by done. }
  rewrite <- Hlog, <- Hlog1. clear Hcut Hlog Hlog1 Hwf Hs Hs0 Hc Hparse.
  destruct (last (number first ps)) as [[seq p]|] eqn:Elast.
  - (* a new segment after the recovered one *)
    assert (seq + 1 = hi ∧ 0 < blen bs) as [Eseq Hne].
    { destruct ps as [|q qs] using rev_ind; [done|]. clear IHqs.
      rewrite number_app in Elast. simpl in Elast. rewrite last_snoc in Elast.
      injection Elast as Eseq _. rewrite length_app in Ehi. simpl in Ehi. split; [lia|].
      destruct (decide (bs = [])) as [->|Hne].
      - pose proof (parse_frames_exact _ _ _ Hps Hsm) as Hp0.
        assert (parse [] 0 = ([], 0, false)) as E by exact (parse_end []).
        rewrite E in Hp0. rewrite number_app in Hp0. destruct (number first qs); done.
      - destruct bs; [done|unfold blen; simpl; lia]. }
    rewrite <- Hc1 in Hne.
    pose proof (wf_open_name d1 lo hi Hwf1 (wf_firsts_lt _ _ _ _ _ _ Hwf1 Hs1 Hne)) as Hopen.
    rewrite Eseq. destruct (open_name d1 hi) as [d2 i2].
    destruct Hopen as (Hwf2 & Hs2 & Hc2 & Hlog2).
    eexists _, _. split; [done|]. split; [|done]. split; simpl; [done|by eexists _, _|done|done].
  - (* the newest segment is empty: deleted, and started again under its name *)
    assert (ps = []) as ->.
    { destruct ps as [|q qs] using rev_ind; [done|]. rewrite number_app in Elast. simpl in Elast. rewrite last_snoc in Elast. done. }
    simpl in Ehi. rewrite Z.add_0_r in Ehi. subst hi.
    assert (bs = []) as -> by (simpl in Hps; congruence).
    destruct (wf_delete_last _ _ _ _ _ Hwf1 Hs1 Hc1) as (Hwf2 & Hlt & Hlog2).
    set (d2 := Disk _ _ _) in *.
    pose proof (wf_open_name d2 lo first Hwf2 Hlt) as Hopen.
    destruct (open_name d2 first) as [d3 i3].
    destruct Hopen as (Hwf3 & Hs3 & Hc3 & Hlog3).
    eexists _, _. split; [done|]. split; [split; simpl; [done|by eexists _, _|done|done]|].
    split; [done|]. split; [done|]. by rewrite Hlog3.
Qed.
