(* ===== verification/SpoolReader.v ===== *)
(** * Reading the trap spool ([ingest/spool.py], [SpoolReader])

    The reader's theorems: it never goes back, it always stops, and on the directory a writer
    keeps it misses no record. *)
From S2P Require Import Prelude Spool.

(** ** The reader never goes back *)

Fixpoint ascending (a : Z) (l : list record) (a' : Z) : Prop :=
  match l with
  | [] => a = a'
  | rec :: l' => a < rec.1 ∧ ascending rec.1 l' a'
  end.

Lemma ascending_app a l1 l2 a' :
  ascending a (l1 ++ l2) a' ↔ ∃ m, ascending a l1 m ∧ ascending m l2 a'.
Proof. revert a; induction l1 as [|x l1 IH]; intros a; simpl; [naive_solver|].
  rewrite IH. naive_solver. Qed.

Definition take_new_step : Z * list record → record → Z * list record :=
  fun '(a, out) rec => if rec.1 >? a then (rec.1, out ++ [rec]) else (a, out).

Lemma take_new_acc recs a acc :
  foldl take_new_step (a, acc) recs =
  let '(a', out) := take_new a recs in (a', acc ++ out).
Proof.
  unfold take_new. fold take_new_step.
  revert a acc. induction recs as [|x recs IH]; intros a acc; simpl; [by rewrite app_nil_r|].
  rewrite Z.gtb_ltb. destruct (Z.ltb_spec a x.1); [|apply IH].
  rewrite IH, (IH _ [x]). destruct (foldl _ _ _). by rewrite <- app_assoc.
Qed.

Lemma take_new_cons a x recs :
  take_new a (x :: recs) =
  if a <? x.1 then let '(a', out) := take_new x.1 recs in (a', x :: out) else take_new a recs.
Proof.
  unfold take_new at 1. fold take_new_step. simpl. rewrite Z.gtb_ltb.
  destruct (Z.ltb_spec a x.1); rewrite take_new_acc; by destruct (take_new _ _).
Qed.

Lemma take_new_ascending recs a : let '(a', out) := take_new a recs in ascending a out a'.
Proof.
  revert a. induction recs as [|x recs IH]; intros a; [done|]. rewrite take_new_cons.
  destruct (Z.ltb_spec a x.1); [|apply IH].
  specialize (IH x.1). destruct (take_new _ _). by split.
Qed.

Lemma after_open d r want : after (open_reader d r want).2 = after r.
Proof.
  unfold open_reader. destruct (segments d); [done|].
  by destruct (default _ (last _)).
Qed.

Lemma after_resync r : after (resync r) = after r.
Proof. unfold resync. destruct (unpack_header _ _) as [[??]?]. by destruct (parse _ _) as [[??]?]. Qed.

Lemma after_finished d r : after (finished d r).2 = after r.
Proof. unfold finished. repeat case_match; simplify_eq/=; rewrite ?after_open; done. Qed.

Lemma read_body_ascending d r go r' more :
  read_body d r = (go, r', more) → ascending (after r) more (after r').
Proof.
  unfold read_body. destruct (parse _ _) as [[recs off] bad].
  pose proof (take_new_ascending recs (after r)) as Ha.
  destruct (take_new _ _) as [a out].
  destruct bad; [intros [= <- <- <-]; by rewrite after_resync|].
  destruct recs; [|by intros [= <- <- <-]]. cbn [file].
  destruct (file r) as [[ino pos]|]; [|by intros [= <- <- <-]].
  destruct (slice _ _ _); [|by intros [= <- <- <-]].
  destruct (finished _ _) as [g r1] eqn:Ef. intros [= <- <- <-].
  pose proof (after_finished d (Reader a (torn r) (corrupt r) (skipped r) (Some (ino, pos))
    (first_r r) (buffer r) off)) as H. rewrite Ef in H. simpl in H. by rewrite H.
Qed.

Lemma read_iter_ascending d r go r' more :
  read_iter d r = (go, r', more) → ascending (after r) more (after r').
Proof.
  unfold read_iter. destruct (file r); [apply read_body_ascending|].
  pose proof (after_open d r (after r + 1)) as Ha.
  destruct (open_reader _ _ _) as [[] r0]; simpl in *; rewrite <- Ha;
    [apply read_body_ascending|].
  by intros [= <- <- <-].
Qed.

Lemma read_run_extends ds limit r out r' out' stopped :
  read_run ds limit r out = (r', out', stopped) →
  ∃ more, out' = out ++ more ∧ ascending (after r) more (after r').
Proof.
  revert r out. induction ds as [|d ds IH]; intros r out; simpl;
    (destruct (_ <? _)%nat; [|intros [= <- <- <-]; exists []; by rewrite app_nil_r]).
  { intros [= <- <- <-]; exists []; by rewrite app_nil_r. }
  destruct (read_iter d r) as [[go r1] more] eqn:E. apply read_iter_ascending in E.
  destruct go; [|intros [= <- <- <-]; eauto].
  intros (more' & -> & H)%IH. exists (more ++ more'). rewrite app_assoc. split; [done|].
  rewrite ascending_app. eauto.
Qed.

(** ** Reading always ends *)

(** What is left to do on one directory: bytes not read yet count twice, since reading one moves
    it to the buffer, and each segment still to be opened counts one more. *)
Definition seg_cost (d : disk) (s : Z * Z) : nat := S (2 * length (content d s.2)).
Definition cost_of (d : disk) (segs : list (Z * Z)) : nat := sum_list_with (seg_cost d) segs.
Definition still_later (first ino : Z) (s : Z * Z) : Prop :=
  first < s.1 ∨ (s.1 = first ∧ s.2 ≠ ino).
#[export] Instance still_later_dec first ino s : Decision (still_later first ino s).
Proof. unfold still_later. apply _. Defined.

Definition unread (d : disk) (r : reader) : nat :=
  match file r with
  | None => S (cost_of d (filter (fun _ => True) (segments d)))
  | Some (ino, pos) =>
      (2 * (length (content d ino) - Z.to_nat pos) + (length (buffer r) - Z.to_nat (offset r))
       + cost_of d (filter (still_later (first_r r) ino) (segments d)))%nat
  end.

Definition reader_ok (r : reader) : Prop :=
  0 ≤ offset r ≤ blen (buffer r) ∧ match file r with Some (_, pos) => 0 ≤ pos | None => True end.

Lemma cost_of_filter_mem d (P Q : Z * Z → Prop) `{∀ s, Decision (P s), ∀ s, Decision (Q s)}
    segs s :
  (∀ s, s ∈ segs → P s → Q s) → s ∈ segs → Q s → ¬ P s →
  (cost_of d (filter P segs) + seg_cost d s ≤ cost_of d (filter Q segs))%nat.
Proof.
  intros HPQ Hin HQ HP. unfold cost_of.
  assert (∀ l, (∀ s, s ∈ l → P s → Q s) →
    sum_list_with (seg_cost d) (filter P l) ≤ sum_list_with (seg_cost d) (filter Q l))%nat as Hle.
  { induction l as [|x l IH]; intros Hl; [done|]. rewrite !filter_cons.
    specialize (IH ltac:(set_solver)). specialize (Hl x ltac:(set_solver)).
    destruct (decide (P x)), (decide (Q x)); cbn [sum_list_with]; [lia|naive_solver|lia|lia]. }
  induction segs as [|x segs IH]; [set_solver|].
  rewrite !filter_cons. apply elem_of_cons in Hin as [->|Hin].
  - rewrite decide_False, decide_True by done. cbn [sum_list_with].
    specialize (Hle segs ltac:(set_solver)). lia.
  - specialize (IH ltac:(set_solver) Hin). specialize (HPQ x ltac:(set_solver)).
    destruct (decide (P x)), (decide (Q x)); cbn [sum_list_with]; [lia|naive_solver|lia|lia].
Qed.

(** Opening a segment of a set pays for reading it and for what may follow it. *)
Lemma open_reader_cost d r want (Q : Z * Z → Prop) `{∀ s, Decision (Q s)} r' :
  open_reader d r want = (true, r') →
  (∀ s, s ∈ segments d → s.1 ≤ want → (∀ s', s' ∈ segments d → s'.1 ≤ want → s'.1 ≤ s.1) → Q s) →
  ((∀ s, s ∈ segments d → want < s.1) → ∀ s, s ∈ segments d → Q s) →
  (∀ s s', s ∈ segments d → Q s → s.1 < s'.1 → Q s') →
  (unread d r' < cost_of d (filter Q (segments d)))%nat ∧ reader_ok r' ∧ file r' ≠ None.
Proof.
  intros Ho Hhold Hnone Hup.
  pose proof (segments_sorted d) as Hsort.
  unfold open_reader in Ho. destruct (segments d) as [|oldest rest] eqn:Es; [done|].
  set (segs := oldest :: rest) in *.
  set (holding := filter _ segs) in Ho.
  assert (∃ s, default oldest (last holding) = s ∧ s ∈ segs ∧ Q s) as (s & Hs & Hin & HQ).
  { destruct (last holding) as [s|] eqn:El; simpl.
    - exists s. split; [done|]. apply last_Some in El as [l' El].
      assert (s ∈ holding) as Hin by (rewrite El; set_solver).
      apply list_elem_of_filter in Hin as [Hle Hin]. split; [done|]. apply Hhold; [done..|].
      intros s' Hin' Hle'.
      assert (s' ∈ holding) as Hh by (by apply list_elem_of_filter).
      assert (StronglySorted (fun a b : Z * Z => a.1 < b.1) holding) as Hsh
        by (by apply StronglySorted_filter).
      rewrite El in Hh, Hsh. apply elem_of_app in Hh as [Hh|Hh].
      + pose proof (StronglySorted_app_1_elem_of _ _ _ s' s Hsh Hh ltac:(set_solver)). simpl in *. lia.
      + apply list_elem_of_singleton in Hh as ->. lia.
    - exists oldest. split; [done|]. split; [unfold segs; set_solver|].
      apply last_None in El. apply Hnone; [|unfold segs; set_solver].
      intros s Hin. destruct (decide (s.1 ≤ want)) as [Hle|]; [|lia].
      assert (s ∈ holding) by (by apply list_elem_of_filter). rewrite El in *. set_solver. }
  rewrite Hs in Ho. destruct s as [first ino]. injection Ho as <-.
  split; [|split; [split; simpl; [unfold blen; simpl; lia|lia]|done]].
  unfold unread. simpl. rewrite Es. fold segs.
  assert (∀ s, s ∈ segs → still_later first ino s → first < s.1) as Hstrict.
  { intros s Hin' [|[Heq Hne]]; [done|]. exfalso. apply Hne.
    assert (names d !! first = Some ino) by (apply (elem_of_segments d (first, ino)); by rewrite Es).
    assert (names d !! s.1 = Some s.2) by (apply (elem_of_segments d s); by rewrite Es).
    rewrite Heq in *. congruence. }
  pose proof (cost_of_filter_mem d (still_later first ino) Q segs (first, ino)) as Hc.
  assert (¬ still_later first ino (first, ino)) by (unfold still_later; simpl; naive_solver lia).
  specialize (Hc (fun s H1 H2 => Hup (first, ino) s Hin HQ (Hstrict s H1 H2)) Hin HQ ltac:(done)).
  unfold seg_cost in Hc. simpl in Hc. lia.
Qed.

Lemma resync_step r :
  16 ≤ blen (buffer r) - offset r → 0 ≤ offset r →
  let r' := resync r in
  offset r < offset r' ≤ blen (buffer r') ∧ buffer r' = buffer r ∧ file r' = file r ∧
  first_r r' = first_r r.
Proof.
  intros H16 Hoff. unfold resync, unpack_header.
  set (len := le_value _). assert (0 ≤ len) by apply le_value_nonneg.
  destruct (parse (buffer r) (offset r + HEADER_size + len)) as [[found ?] ?] eqn:Ep.
  unfold HEADER_size in *. simpl. split; [|done].
  case_bool_decide as Hne; rewrite ?andb_false_r, ?andb_true_r; [|lia].
  case_match; [|lia].
  destruct (decide (offset r + 16 + len ≤ blen (buffer r))); [lia|].
  exfalso. apply Hne. rewrite parse_eq in Ep by lia. unfold parse_body, HEADER_size in Ep.
  rewrite Z.geb_leb in Ep.
  destruct (Z.leb_spec 16 (blen (buffer r) - (offset r + 16 + len))); [lia|by simplify_eq].
Qed.

Lemma parse_progress buf off recs e bad :
  0 ≤ off ≤ blen buf → parse buf off = (recs, e, bad) →
  off ≤ e ≤ blen buf ∧ (recs ≠ [] → off < e) ∧ (bad = true → 16 ≤ blen buf - e).
Proof.
  rewrite parse_unfold. generalize (S (length buf)). intros n. revert off recs.
  induction n as [|n IH]; intros off recs Hoff.
  { intros [= <- <- <-]. split; [lia|]. by split. }
  rewrite parse_go_S. unfold parse_body, HEADER_size, unpack_header.
  set (len := le_value (slice buf off (off + 4))). assert (0 ≤ len) by apply le_value_nonneg.
  rewrite Z.geb_leb. destruct (Z.leb_spec 16 (blen buf - off));
    [|intros [= <- <- <-]; split; [lia|by split]].
  rewrite !Z.gtb_ltb. case_match; [intros [= <- <- <-]; split; [lia|by split]|].
  destruct (Z.ltb_spec (blen buf) (off + 16 + len)); [intros [= <- <- <-]; split; [lia|by split]|].
  case_match; [|intros [= <- <- <-]; split; [lia|by split]].
  destruct (parse_go n buf (off + 16 + len)) as [[out e'] c'] eqn:Ego.
  intros [= <- <- <-]. apply IH in Ego as (? & _ & ?); [|lia]. split; [lia|]. split; [lia|done].
Qed.

Lemma read_body_progress d r ino pos r' more :
  file r = Some (ino, pos) → reader_ok r → read_body d r = (true, r', more) →
  reader_ok r' ∧ (unread d r' < unread d r)%nat.
Proof.
  intros Hf [Hoff Hpos] Hb. rewrite Hf in Hpos. unfold read_body in Hb.
  destruct (parse (buffer r) (offset r)) as [[recs off] bad] eqn:Ep.
  apply parse_progress in Ep as (Hle & Hrec & Hbad); [|done].
  destruct (take_new _ _) as [a out]. cbn [file] in Hb. rewrite Hf in Hb.
  set (r0 := Reader a (torn r) (corrupt r) (skipped r) (Some (ino, pos)) (first_r r) (buffer r) off) in *.
  assert (unread d r = (2 * (length (content d ino) - Z.to_nat pos)
    + (length (buffer r) - Z.to_nat (offset r))
    + cost_of d (filter (still_later (first_r r) ino) (segments d)))%nat) as ->
    by (unfold unread; by rewrite Hf).
  unfold blen in *.
  destruct bad.
  - injection Hb as <- <-.
    destruct (resync_step r0) as (Hs & Hbuf & Hfi & Hfr); [unfold blen; simpl; lia|simpl; lia|].
    unfold reader_ok, unread, blen in *. rewrite Hbuf, Hfi, Hfr. rewrite Hbuf in Hs. simpl in *. lia.
  - destruct recs as [|rec recs].
    2:{ injection Hb as <- <-. specialize (Hrec ltac:(done)).
        unfold reader_ok, unread, blen, r0. simpl. lia. }
    destruct (slice (content d ino) pos (pos + READ_CHUNK)) as [|b chunk] eqn:Ec.
    + destruct (finished d r0) as [g r1] eqn:Ef. injection Hb as -> -> <-.
      assert (drop (Z.to_nat pos) (content d ino) = []) as Hrest.
      { unfold slice, READ_CHUNK in Ec. destruct (drop _ _) as [|x l] eqn:E; [done|].
        replace (Z.to_nat (pos + 1024 * 1024 - pos)) with (S (Z.to_nat (1024 * 1024 - 1))) in Ec by lia.
        done. }
      unfold finished in Ef. cbn [file r0] in Ef. rewrite Hrest in Ef.
      set (later := filter (λ s : Z * Z, first_r r0 ≤ s.1) (segments d)) in *.
      set (replaced := match later with [] => false | _ => _ end) in *.
      destruct (filter _ later) as [|[first i] tl] eqn:El; [done|].
      eapply (open_reader_cost d _ _ (still_later (first_r r) ino)) in Ef as (Hlt & Hok & _).
      * split; [done|]. lia.
      * intros s Hin Hle0 Hmax.
        assert ((first, i) ∈ filter (λ s : Z * Z, first_r r0 < s.1 ∨ replaced = true) later) as Hfi
          by (rewrite El; set_solver).
        apply list_elem_of_filter in Hfi as [Hcase Hfi].
        apply list_elem_of_filter in Hfi as [Hge Hseg].
        specialize (Hmax _ Hseg ltac:(simpl; lia)). simpl in *.
        assert (s.1 = first) as Es by lia.
        assert (s = (first, i)) as ->.
        { apply elem_of_segments in Hin, Hseg. destruct s. simpl in *. congruence. }
        unfold still_later. simpl. destruct Hcase as [|Hrep]; [by left|].
        unfold replaced in Hrep. destruct later as [|s0 l0] eqn:El0; [done|].
        apply andb_true_iff in Hrep as [H1%Z.eqb_eq H2]. apply negb_true_iff, Z.eqb_neq in H2.
        simpl in H1.
        assert (s0 ∈ segments d) as Hs0.
        { assert (s0 ∈ later) as Hl by (rewrite El0; set_solver). unfold later in Hl.
          rewrite <- El0 in *. clear -Hl. by apply list_elem_of_filter in Hl as [_ ?]. }
        destruct (Z.eq_dec first (first_r r)) as [->|]; [|left; lia].
        right. split; [done|]. apply elem_of_segments in Hs0, Hseg. simpl in *.
        rewrite H1 in Hs0. congruence.
      * intros Hall s Hin.
        assert ((first, i) ∈ filter (λ s : Z * Z, first_r r0 < s.1 ∨ replaced = true) later) as Hfi
          by (rewrite El; set_solver).
        apply list_elem_of_filter in Hfi as [_ Hfi]. apply list_elem_of_filter in Hfi as [_ Hseg].
        specialize (Hall _ Hseg). simpl in Hall. lia.
      * intros s s' _ Hs Hlt'. unfold still_later in *. left. lia.
    + injection Hb as <- <-. unfold reader_ok, unread, r0. cbn [file offset buffer first_r].
      rewrite <- Ec. assert (length (slice (content d ino) pos (pos + READ_CHUNK)) = S (length chunk)) as Hlen
        by (by rewrite Ec).
      assert (length (slice (content d ino) pos (pos + READ_CHUNK))
              ≤ length (content d ino) - Z.to_nat pos)%nat.
      { unfold slice. rewrite length_take, length_drop. lia. }
      unfold blen. rewrite !length_app, length_drop. lia.
Qed.

Lemma read_iter_progress d r r' more :
  reader_ok r → read_iter d r = (true, r', more) →
  reader_ok r' ∧ (unread d r' < unread d r)%nat.
Proof.
  intros Hok. unfold read_iter. destruct (file r) as [[ino pos]|] eqn:Ef.
  { by eapply read_body_progress. }
  destruct (open_reader d r (after r + 1)) as [[] r0] eqn:Eo; [|done].
  eapply (open_reader_cost d _ _ (fun _ => True)) in Eo as (Hlt & Hok0 & Hf0); [|done..].
  destruct (file r0) as [[ino pos]|] eqn:Ef0; [|done]. intros Hb.
  eapply read_body_progress in Hb as [Hok' Hlt']; [|done..]. split; [done|].
  unfold unread in *. rewrite Ef. lia.
Qed.

(** On any directory, however damaged, reading stops within [unread] iterations. *)
Lemma read_run_stops d limit r out n :
  reader_ok r → (unread d r < n)%nat →
  ∃ r' out', read_run (replicate n d) limit r out = (r', out', true).
Proof.
  revert r out. induction n as [|n IH]; intros r out Hok Hn; [lia|]. simpl.
  destruct (_ <? _)%nat; [|eauto].
  destruct (read_iter d r) as [[[] r1] more] eqn:E; [|eauto].
  apply read_iter_progress in E as [Hok1 Hlt]; [|done]. apply IH; [done|lia].
Qed.

(** ** On a well-formed spool, reading misses nothing *)

(** The reader is somewhere in segment [first_r r]: what its buffer and the file still hold are
    the frames [qs] from number [k], and [pending] is what it has yet to return. *)
Definition newer (a : Z) (rs : list record) : list record := filter (fun x => a < x.1) rs.

#[global] Arguments newer : simpl never.

Inductive reading (d : disk) (hi : Z) (r : reader) : list record → Prop :=
| reading_closed :
    file r = None → reading d hi r (newer (after r) (log d))
| reading_open ino pos front back k qs lo' :
    file r = Some (ino, pos) → 0 ≤ pos → 0 ≤ offset r ≤ blen (buffer r) →
    segments d = front ++ (first_r r, ino) :: back →
    frames k qs = Ok (drop (Z.to_nat (offset r)) (buffer r) ++ drop (Z.to_nat pos) (content d ino)) →
    Forall small qs → lo' = k + Z.of_nat (length qs) →
    chain lo' (map (fun s => (s.1, content d s.2)) back) hi →
    reading d hi r (newer (after r)
      (number k qs ++ records_of (map (fun s => (s.1, content d s.2)) back))).

Lemma newer_app a l1 l2 : newer a (l1 ++ l2) = newer a l1 ++ newer a l2.
Proof. apply filter_app. Qed.

Lemma newer_all a l : (∀ x, x ∈ l → a < x.1) → newer a l = l.
Proof. apply filter_all. Qed.

Lemma newer_none a l : (∀ x, x ∈ l → x.1 ≤ a) → newer a l = [].
Proof. intros H. apply filter_none. intros x Hx. specialize (H x Hx). lia. Qed.

Lemma elem_of_number x k qs : x ∈ number k qs → k ≤ x.1 < k + Z.of_nat (length qs).
Proof.
  revert k; induction qs as [|q qs IH]; intros k; simpl; [set_solver|].
  intros [->|Hx]%elem_of_cons; simpl; [lia|]. apply IH in Hx. lia.
Qed.

Lemma chain_records_ge lo segs hi x : chain lo segs hi → x ∈ records_of segs → lo ≤ x.1 < hi.
Proof.
  intros H. apply chain_records in H as (ps & -> & ->). apply elem_of_number.
Qed.

(** What is returned is what was newer, and nothing after it is lost. *)
Lemma take_new_number a k qs a' out :
  take_new a (number k qs) = (a', out) →
  out = newer a (number k qs) ∧
  (∀ rest, (∀ x, x ∈ rest → k + Z.of_nat (length qs) ≤ x.1) → newer a' rest = newer a rest).
Proof.
  revert a k a' out. induction qs as [|q qs IH]; intros a k a' out; simpl.
  { intros [= <- <-]. split; [done|]. auto. }
  rewrite take_new_cons. simpl. destruct (Z.ltb_spec a k).
  - destruct (take_new k (number (k + 1) qs)) as [a1 out1] eqn:E. intros [= <- <-].
    apply IH in E as [-> Hrest]. split.
    + unfold newer. rewrite filter_cons, decide_True by done. f_equal.
      fold (newer k (number (k + 1) qs)) (newer a (number (k + 1) qs)).
      rewrite !newer_all; [done|..]; intros x Hx%elem_of_number; lia.
    + intros rest Hr. rewrite Hrest by (intros x Hx; specialize (Hr x Hx); lia).
      rewrite !newer_all; [done|..]; intros x Hx; specialize (Hr x Hx); lia.
  - intros E. apply IH in E as [-> Hrest]. split.
    + unfold newer. by rewrite filter_cons, decide_False by (simpl; lia).
    + intros rest Hr. apply Hrest. intros x Hx. specialize (Hr x Hx). lia.
Qed.

Lemma reading_open_reader d lo hi r r0 :
  spool_wf d lo hi → file r = None → open_reader d r (after r + 1) = (true, r0) →
  reading d hi r0 (newer (after r) (log d)).
Proof.
  intros Hwf Hf Ho. pose proof (segments_sorted d) as Hsort. unfold open_reader in Ho.
  destruct (segments d) as [|oldest rest] eqn:Es; [done|].
  assert (∃ front s back, default oldest (last (filter (fun s => s.1 ≤ after r + 1) (oldest :: rest))) = s ∧
     oldest :: rest = front ++ s :: back ∧ (front ≠ [] → s.1 ≤ after r + 1))
    as (front & s & back & Hs & Hsplit & Hfront).
  { destruct (last _) as [s|] eqn:El; simpl.
    - pose proof El as El'. apply last_filter_Some in El as (front & back & Heq & _).
      exists front, s, back. split_and!; [done..|]. intros _.
      apply last_Some in El' as [l' El'].
      assert (s ∈ filter (fun s : Z * Z => s.1 ≤ after r + 1) (oldest :: rest)) as Hin
        by (rewrite El'; set_solver).
      by apply list_elem_of_filter in Hin as [? _].
    - by exists [], oldest, rest. }
  rewrite Hs in Ho. destruct s as [first ino]. injection Ho as <-.
  destruct Hwf as [Hchain Hnd Hfresh]. unfold seg_contents in Hchain.
  rewrite Es, Hsplit, map_app in Hchain. apply chain_app in Hchain as (mid & Hc1 & Hc2).
  simpl in Hc2. destruct Hc2 as (<- & ps & Hps & Hsm & Hc2).
  replace (newer (after r) (log d)) with
    (newer (after r) (number first ps ++ records_of (map (fun s => (s.1, content d s.2)) back))).
  - eapply (reading_open _ _ (Reader _ _ _ _ (Some (ino, 0)) first [] 0)); simpl;
      [done|lia|unfold blen; simpl; lia|by rewrite Es, Hsplit|by rewrite drop_0|done|done|done].
  - unfold log, seg_contents. rewrite Es, Hsplit, map_app, records_of_app, newer_app.
    cbn [map records_of flat_map fst snd]. rewrite (parse_frames_exact first ps) by done.
    cbn [fst snd]. rewrite !newer_app. fold (records_of (map (fun s => (s.1, content d s.2)) back)).
    rewrite (newer_none _ (records_of (map _ front))), app_nil_l; [done|].
    intros x Hx. destruct front as [|y front]; [set_solver|].
    specialize (Hfront ltac:(done)). simpl in Hfront.
    eapply chain_records_ge in Hx; [|exact Hc1]. lia.
Qed.

Lemma parse_torn_at pre seq ps bs t :
  frames seq ps = Ok bs → Forall small ps → torn_tail t (seq + Z.of_nat (length ps)) →
  parse (pre ++ bs ++ t) (blen pre) = (number seq ps, blen (pre ++ bs), false).
Proof.
  intros Hbs Hps Ht. rewrite (parse_frames _ _ _ _ t Hbs Hps).
  assert (parse (pre ++ bs ++ t) (blen (pre ++ bs)) = ([], blen (pre ++ bs), false)) as ->.
  { rewrite app_assoc. destruct Ht as [->|(p & f & cut & Hf & Hp & Ef & Hcut)].
    - rewrite app_nil_r. apply parse_end.
    - by apply (parse_torn _ (seq + Z.of_nat (length ps)) p f t cut). }
  by rewrite app_nil_r.
Qed.

(** With nothing left in its segment, the reader moves to the next one the directory lists. *)
Lemma finished_moves d r front ino pos back :
  file r = Some (ino, pos) → segments d = front ++ (first_r r, ino) :: back →
  drop (Z.to_nat pos) (content d ino) = [] →
  match back with
  | [] => finished d r = (false, r)
  | (first, i) :: _ =>
      ∃ r', finished d r = (true, r') ∧ file r' = Some (i, 0) ∧ first_r r' = first ∧
            after r' = after r ∧ buffer r' = [] ∧ offset r' = 0
  end.
Proof.
  intros Hf Hs Hrest. pose proof (segments_sorted d) as Hsort. rewrite Hs in Hsort.
  apply StronglySorted_app in Hsort as (Hlt & _ & Hback).
  apply StronglySorted_inv in Hback as [Hback Hgt]. rewrite Forall_forall in Hgt.
  unfold finished. rewrite Hf, Hs, Hrest.
  assert (filter (fun s => first_r r ≤ s.1) (front ++ (first_r r, ino) :: back)
          = (first_r r, ino) :: back) as ->.
  { rewrite filter_app, filter_none; [|intros s Hin; specialize (Hlt s (first_r r, ino) Hin
      ltac:(set_solver)); simpl in *; lia].
    apply filter_all. intros s [->|Hin]%elem_of_cons; [simpl; lia|]. specialize (Hgt s Hin).
    simpl in *. lia. }
  cbn [fst snd]. rewrite !Z.eqb_refl. cbn [andb negb].
  assert (filter (fun s => first_r r < s.1 ∨ false = true) ((first_r r, ino) :: back) = back) as ->.
  { rewrite filter_cons, decide_False by (simpl; intros [|]; [lia|done]).
    apply filter_all. intros s Hin. left. by apply Hgt. }
  destruct back as [|[first i] tl]; [done|].
  unfold open_reader. rewrite Hs.
  set (segs := front ++ (first_r r, ino) :: (first, i) :: tl).
  assert (last (filter (fun s => s.1 ≤ first) segs) = Some (first, i)) as Hl.
  { unfold segs. change ((first_r r, ino) :: (first, i) :: tl)
      with ([(first_r r, ino); (first, i)] ++ tl). rewrite app_assoc, filter_app.
    rewrite (filter_none _ tl).
    - rewrite app_nil_r, filter_app. apply last_Some. simpl.
      exists (filter (fun s : Z * Z => s.1 ≤ first) front ++ [(first_r r, ino)]).
      rewrite !filter_cons, filter_nil. simpl. specialize (Hgt (first, i) ltac:(set_solver)).
      simpl in Hgt. rewrite !decide_True by lia. by rewrite <- app_assoc.
    - apply StronglySorted_inv in Hback as [_ Hb]. rewrite Forall_forall in Hb.
      intros s Hin. specialize (Hb s Hin). simpl in Hb. lia. }
  rewrite Hl. destruct segs eqn:E; [by destruct front|]. simpl. eexists. by split_and!.
Qed.

(** One iteration hands over exactly what it should, and says [stop] only when nothing is left. *)
Lemma read_body_reading d lo hi r ino pos pend go r' more :
  spool_wf d lo hi → file r = Some (ino, pos) → reading d hi r pend →
  read_body d r = (go, r', more) →
  ∃ pend', pend = more ++ pend' ∧ if (go : bool) then reading d hi r' pend' else pend' = [].
Proof.
  intros Hwf Hf Hr Hb. destruct Hr as [Hnone|ino' pos' front back k qs lo' Hf' Hpos Hoff Hs Hfr Hsm -> Hc];
    [congruence|]. assert (ino' = ino ∧ pos' = pos) as [-> ->] by (split; congruence). clear Hf'.
  set (later := records_of _).
  set (pre := take (Z.to_nat (offset r)) (buffer r)).
  set (cur := drop (Z.to_nat (offset r)) (buffer r)) in *.
  set (todo := drop (Z.to_nat pos) (content d ino)) in *.
  assert (buffer r = pre ++ cur) as Ebuf by (unfold pre, cur; by rewrite take_drop).
  assert (blen pre = offset r) as Epre.
  { unfold pre, blen in *. rewrite length_take. lia. }
  destruct (frames_prefix _ _ _ (length cur) Hfr Hsm) as (j & bs & t & Hj & Hbs & Ht & Htorn).
  rewrite take_app_length in Ht.
  assert (Forall small (take j qs)) as Hsmj by by apply Forall_take.
  assert (parse (buffer r) (offset r) = (number k (take j qs), blen (pre ++ bs), false)) as Ep.
  { rewrite Ebuf, <- Epre, Ht. apply parse_torn_at; [done..|].
    rewrite length_take, Nat.min_l by lia. done. }
  unfold read_body in Hb. rewrite Ep in Hb.
  destruct (take_new (after r) (number k (take j qs))) as [a out] eqn:Etn.
  apply take_new_number in Etn as [-> Hrest]. rewrite length_take, Nat.min_l in Hrest by lia.
  (* the frames that remain, whatever the branch *)
  assert (∃ bs', frames (k + Z.of_nat j) (drop j qs) = Ok bs' ∧ bs ++ bs' = cur ++ todo) as (bs' & Hbs' & Hcat).
  { rewrite <- (take_drop j qs) in Hfr. apply frames_split in Hfr as (b1 & b2 & H1 & H2 & E).
    rewrite length_take, Nat.min_l in H2 by lia. exists b2. split; [done|]. congruence. }
  assert (newer (after r) (number k qs ++ later) =
    newer (after r) (number k (take j qs)) ++ newer a (number (k + Z.of_nat j) (drop j qs) ++ later)) as Epend.
  { rewrite (Hrest (_ ++ later)).
    - rewrite <- newer_app, app_assoc. f_equal. f_equal.
      rewrite <- (take_drop j qs) at 1. rewrite number_app, length_take, Nat.min_l by lia. done.
    - intros x [Hx%elem_of_number|Hx]%elem_of_app; [lia|].
      eapply chain_records_ge in Hx; [|exact Hc]. lia. }
  rewrite Epend. clear Epend. cbn [file] in Hb. rewrite Hf in Hb.
  fold (newer (after r) (number k (take j qs))) in Hb.
  (* the state once the parsed frames are taken, whatever is left of the rest in the buffer *)
  assert (∀ r1 pos1, file r1 = Some (ino, pos1) → 0 ≤ pos1 → 0 ≤ offset r1 ≤ blen (buffer r1) →
     after r1 = a → first_r r1 = first_r r →
     drop (Z.to_nat (offset r1)) (buffer r1) ++ drop (Z.to_nat pos1) (content d ino) = t ++ todo →
     reading d hi r1 (newer a (number (k + Z.of_nat j) (drop j qs) ++ later))) as Hgo.
  { intros r1 pos1 Hf1 Hp1 Ho1 Ha1 Hfr1 Hd1. rewrite <- Ha1.
    eapply reading_open; [exact Hf1|done|done|by rewrite Hfr1| | |done|].
    - rewrite Hd1, Hbs'. f_equal. apply (app_inv_head bs). by rewrite Hcat, Ht, app_assoc.
    - by apply Forall_drop.
    - rewrite length_drop. by replace (k + _ + _) with (k + Z.of_nat (length qs)) by lia. }
  assert (0 ≤ blen (pre ++ bs) ≤ blen (buffer r)) as Hoff'.
  { rewrite Ebuf, Ht, !blen_app. pose proof (blen_nonneg pre). pose proof (blen_nonneg bs).
    pose proof (blen_nonneg t). lia. }
  assert (drop (Z.to_nat (blen (pre ++ bs))) (buffer r) = t) as Edrop.
  { rewrite Ebuf, Ht, app_assoc. unfold blen. by rewrite Nat2Z.id, drop_app_length. }
  destruct (number k (take j qs)) as [|rec recs] eqn:En.
  2:{ injection Hb as <- <- <-. eexists. split; [done|].
      eapply (Hgo _ pos); simpl; [done|done|done|done|done|]. by rewrite Edrop. }
  cbn [offset buffer] in Hb. rewrite Edrop in Hb.
  destruct (slice (content d ino) pos (pos + READ_CHUNK)) as [|c chunk] eqn:Ec.
  - assert (todo = []) as Htodo.
    { unfold todo. unfold slice, READ_CHUNK in Ec.
      destruct (drop (Z.to_nat pos) (content d ino)) as [|x l]; [done|].
      replace (Z.to_nat (pos + 1024 * 1024 - pos)) with (S (Z.to_nat (1024 * 1024 - 1))) in Ec by lia.
      done. }
    assert (qs = []) as Eqs.
    { rewrite Htodo, app_nil_r in Hfr.
      pose proof (parse_torn_at pre k qs cur [] Hfr Hsm ltac:(by left)) as Hall.
      rewrite app_nil_r, <- Ebuf, Epre, Ep in Hall. destruct qs; [done|]. by injection Hall. }
    subst qs. rewrite drop_nil. cbn [number app length] in *. rewrite Z.add_0_r in Hc.
    set (r0 := Reader a (torn r) (corrupt r) (skipped r) (Some (ino, pos)) (first_r r) (buffer r)
      (blen (pre ++ bs))) in *.
    pose proof (finished_moves d r0 front ino pos back eq_refl Hs Htodo) as Hm.
    destruct back as [|[first i] tl].
    + rewrite Hm in Hb. injection Hb as <- <- <-. by exists [].
    + destruct Hm as (r1 & Ef & Hf1 & Hfr1 & Ha1 & Hb1 & Ho1). rewrite Ef in Hb.
      injection Hb as <- <- <-. eexists. split; [done|].
      cbn [map chain fst snd] in Hc. destruct Hc as (-> & ps & Hps & Hsmp & Hc).
      unfold later. cbn [map]. unfold records_of at 1. cbn [flat_map fst snd].
      rewrite (parse_frames_exact k ps) by done. cbn [fst snd].
      fold (records_of (map (fun s => (s.1, content d s.2)) tl)).
      replace a with (after r1) by (by rewrite Ha1).
      eapply (reading_open _ _ r1 i 0 (front ++ [(first_r r, ino)])); [exact Hf1|lia|..].
      * rewrite Ho1, Hb1. pose proof (blen_nonneg []). lia.
      * by rewrite Hfr1, <- app_assoc.
      * rewrite Hb1, Ho1, drop_nil, drop_0. done.
      * done.
      * done.
      * done.
  - injection Hb as <- <- <-. eexists. split; [done|]. rewrite <- Ec.
    eapply (Hgo _ (pos + blen (slice (content d ino) pos (pos + READ_CHUNK))));
      simpl; try done.
    + pose proof (blen_nonneg (slice (content d ino) pos (pos + READ_CHUNK))). lia.
    + pose proof (blen_nonneg (t ++ slice (content d ino) pos (pos + READ_CHUNK))). lia.
    + rewrite drop_0, <- app_assoc. f_equal. unfold todo, slice.
      set (n := Z.to_nat (pos + READ_CHUNK - pos)).
      rewrite <- (take_drop n (drop (Z.to_nat pos) (content d ino))) at 3. f_equal.
      rewrite drop_drop. unfold blen. rewrite length_take, length_drop.
      destruct (decide (n ≤ length (content d ino) - Z.to_nat pos)%nat).
      * f_equal. lia.
      * rewrite !drop_ge; [done|lia..].
Qed.

Lemma read_iter_reading d lo hi r pend go r' more :
  spool_wf d lo hi → reading d hi r pend → read_iter d r = (go, r', more) →
  ∃ pend', pend = more ++ pend' ∧ if (go : bool) then reading d hi r' pend' else pend' = [].
Proof.
  intros Hwf Hr. unfold read_iter. destruct (file r) as [[ino pos]|] eqn:Ef.
  { intros Hb. by eapply read_body_reading. }
  inversion Hr as [|]; [subst|congruence].
  destruct (open_reader d r (after r + 1)) as [[] r0] eqn:Eo.
  - pose proof (reading_open_reader _ _ _ _ _ Hwf Ef Eo) as Hr0.
    eapply (open_reader_cost d _ _ (fun _ => True)) in Eo as (_ & _ & Hf0); [|done..].
    destruct (file r0) as [[ino pos]|] eqn:Ef0; [|done]. intros Hb. by eapply read_body_reading.
  - intros [= <- <- <-]. exists []. split; [|done]. unfold open_reader in Eo.
    unfold log, seg_contents. destruct (segments d) as [|s l]; [done|].
    by destruct (default _ _).
Qed.

Lemma read_run_reading d lo hi n limit r pend out r' out' :
  spool_wf d lo hi → reading d hi r pend →
  read_run (replicate n d) limit r out = (r', out', true) →
  ∃ rest, out ++ pend = out' ++ rest ∧ (rest = [] ∨ (limit ≤ length out')%nat).
Proof.
  intros Hwf. revert r pend out. induction n as [|n IH]; intros r pend out Hr; simpl;
    (destruct (Nat.ltb_spec (length out) limit); [|intros [= <- <-]; exists pend; split; [done|by right]]).
  { done. }
  destruct (read_iter d r) as [[go r1] more] eqn:E.
  destruct (read_iter_reading _ _ _ _ _ _ _ _ Hwf Hr E) as (pend' & -> & Hr1). rewrite app_assoc.
  destruct go; [intros Hrun; by apply (IH r1 pend')|].
  subst pend'. intros [= <- <-]. exists []. split; [done|by left].
Qed.

(** ** The properties of the spool *)

(** C20: framing and parsing are inverse across a crash. A buffer holding the frames of any
    payloads of at most [MAX_PAYLOAD] bytes, followed by any strict prefix of the next such frame (what a crash leaves), parses to
    exactly those records, stops at the end of the last whole one, and reports no corruption. *)
Theorem parse_whole_frames seq ps bs p f t cut :
  frames seq ps = Ok bs → Forall small ps →
  frame (seq + Z.of_nat (length ps)) p = Ok f → small p → f = t ++ cut → cut ≠ [] →
  parse (bs ++ t) 0 = (number seq ps, blen bs, false).
Proof. intros. by apply (parse_frames_torn _ _ _ p f t cut). Qed.

(** [parse] invents nothing: whatever the bytes are, the records it returns are framed in
    them byte for byte, under their own numbers, and the offset it returns is where they end. *)
Theorem parse_returns_framed_bytes buf recs e c :
  parse buf 0 = (recs, e, c) → 0 ≤ e ≤ blen buf ∧ frame_records recs = Ok (slice buf 0 e).
Proof. apply parse_sound. Qed.

(** C1: [append] is all or nothing. On a writer in step with its directory, for payloads of at most [MAX_PAYLOAD] bytes, and unless the disk
    that refused a write refuses to cut it back too: when it returns, the log has grown by exactly its payloads, consecutively numbered, and
    it returns the last number; when it raises (the spool is full, a number does not fit, the disk refuses part-way through the write), the
    writer and every byte of the directory are as before — but where the refusal is that of the next segment, after the records are durable:
    then it raises although the log has grown by all of them. The writer stays in step, or is left without a descriptor over a
    directory that holds every record. *)
Theorem append_all_or_nothing d w lo payloads refused r d' w' :
  writer_ok d w lo → Forall small payloads → (∀ n, refused ≠ Some (Cut_refused n)) →
  append d w payloads refused = (r, d', w') →
  goes_on d' w' lo ∧ append_spec d w payloads refused r d' w'.
Proof. apply append_correct. Qed.

(** C2: crash and restart. If the process dies with [n] bytes of an append written, for any [n],
    the writer that starts next comes up with every earlier record and a prefix of the payloads
    (the whole frames among those bytes), numbers on from there, and is in step again. *)
Theorem crash_restart_keeps_log d w lo payloads buf n max :
  writer_ok d w lo → Forall small payloads → frames (next_seq w) payloads = Ok buf →
  let d' := set_content d (fd w) (content d (fd w) ++ take n buf) in
  ∃ k d2 w2, (k ≤ length payloads)%nat ∧ open_writer d' max false None = (Ok w2, d2) ∧
    writer_ok d2 w2 lo ∧ next_seq w2 = next_seq w + Z.of_nat k ∧
    log d2 = log d ++ number (next_seq w) (take k payloads).
Proof.
  intros Hok Hsm Hbuf d'. destruct (crash_append _ _ _ _ _ n Hok Hsm Hbuf) as (k & Hk & Hcr & Hlog).
  destruct (recover_correct _ _ _ max Hcr) as (d2 & w2 & Ho & Hok2 & Hn & _ & Hlog2).
  exists k, d2, w2. rewrite Hlog2. by split_and!.
Qed.

(** Reading is complete and ends. On the directory a writer keeps, from any cursor [a] and
    for any [limit], enough iterations always end the loop, and what [read] returns is the
    records newer than [a], in order and without a gap, cut short only by [limit]. *)
Theorem read_returns_every_record d lo hi a limit :
  spool_wf d lo hi →
  ∃ n, ∀ m, (n ≤ m)%nat →
  ∃ r' out rest, read_run (replicate m d) limit (new_reader a) [] = (r', out, true) ∧
    newer a (log d) = out ++ rest ∧ (rest = [] ∨ (limit ≤ length out)%nat).
Proof.
  intros Hwf. exists (S (unread d (new_reader a))). intros m Hm.
  destruct (read_run_stops d limit (new_reader a) [] m) as (r' & out & Hrun); [|lia|].
  { split; simpl; [unfold blen; simpl; lia|done]. }
  exists r', out. pose proof (reading_closed d hi (new_reader a) eq_refl) as Hr.
  destruct (read_run_reading _ _ _ _ _ _ _ _ _ _ Hwf Hr Hrun) as (rest & E & Hrest). eauto.
Qed.

(** Whatever happens to the directory between its iterations (the writer appends, rolls over
    or restarts, segments are pruned, bytes rot), [read] returns sequence numbers that strictly
    increase from its cursor, and its cursor ends at the last one: no record is returned twice. *)
Theorem read_never_goes_back ds limit r out r' out' stopped :
  read_run ds limit r out = (r', out', stopped) →
  ∃ more, out' = out ++ more ∧ ascending (after r) more (after r').
Proof. apply read_run_extends. Qed.

Lemma prunable_spec d cursor s :
  s ∈ prunable d cursor ↔
  ∃ front nxt back, segments d = front ++ s :: nxt :: back ∧ nxt.1 ≤ cursor + 1.
Proof.
  assert (∀ l : list (Z * Z), ∀ p, p ∈ pairwise l ↔ ∃ front back, l = front ++ p.1 :: p.2 :: back) as Hpw.
  { induction l as [|x [|y l] IH]; intros p; simpl.
    - split; [set_solver|]. intros (front & back & H). by destruct front.
    - split; [set_solver|]. intros ([|? [|]] & back & H); done.
    - rewrite elem_of_cons, IH. split.
      + intros [->|(front & back & H)]; [by exists [], l|]. rewrite H. by exists (x :: front), back.
      + intros ([|z front] & back & H); simplify_eq/=; [left; by destruct p|right; eauto]. }
  unfold prunable. rewrite list_elem_of_In, in_map_iff. split.
  - intros (p & <- & Hp%list_elem_of_In). apply list_elem_of_filter in Hp as [Hle Hp].
    apply Hpw in Hp as (front & back & ->). eauto.
  - intros (front & nxt & back & Hs & Hle). exists (s, nxt). split; [done|].
    apply list_elem_of_In, list_elem_of_filter. split; [done|]. apply Hpw. eauto.
Qed.

(** Pruning is exactly right: of a well-formed spool, the segments deleted are those, other
    than the newest, all of whose records are at or before the cursor. *)
Theorem prunable_exactly_read d lo hi cursor front s back :
  spool_wf d lo hi → segments d = front ++ s :: back →
  (s ∈ prunable d cursor ↔
   back ≠ [] ∧ ∀ x, x ∈ (parse (content d s.2) 0).1.1 → x.1 ≤ cursor).
Proof.
  intros [Hc Hnd Hfr] Hs. pose proof (segments_sorted d) as Hsort.
  unfold seg_contents in Hc. rewrite Hs, map_app in Hc. apply chain_app in Hc as (mid & _ & Hc).
  destruct s as [first i]. cbn [map chain fst snd] in Hc. destruct Hc as (-> & ps & Hps & Hsm & Hc).
  cbn [snd]. rewrite (parse_frames_exact mid ps) by done. cbn [fst snd].
  assert (NoDup (segments d)) as Hnd'.
  { clear -Hsort. induction Hsort as [|x l Hl IH Hx]; constructor; [|done].
    intros Hin. rewrite Forall_forall in Hx. specialize (Hx x Hin). lia. }
  assert (∀ f' nxt b', segments d = f' ++ (mid, i) :: nxt :: b' → back = nxt :: b') as Huniq.
  { intros f' nxt b' He. rewrite Hs in He, Hnd'. by apply NoDup_split_unique in He as [_ ->]. }
  rewrite prunable_spec. destruct back as [|nxt back].
  - split; [|by intros [? _]]. intros (f' & nxt & b' & He & _). by apply Huniq in He.
  - cbn [map chain fst snd] in Hc. destruct Hc as [Hnx _]. split.
    + intros (f' & nxt' & b' & He & Hle). split; [done|]. intros x Hx%elem_of_number.
      apply Huniq in He. simplify_eq. lia.
    + intros [_ Hall]. exists front, nxt, back. split; [done|].
      destruct ps as [|q ps _] using rev_ind.
      { simpl in Hnx. rewrite Hs in Hsort. apply StronglySorted_app in Hsort as (_&_&Hb).
        apply StronglySorted_inv in Hb as [_ Hb]. apply Forall_cons in Hb as [Hb _]. simpl in Hb. lia. }
      specialize (Hall (mid + Z.of_nat (length ps), q)). rewrite number_app, length_app in *.
      simpl in *. cut (mid + Z.of_nat (length ps) ≤ cursor); [lia|]. apply Hall. set_solver.
Qed.

(** ** Witnesses: a spool with one segment *)

Section demo.
Definition demo_p1 : bytes := [Byte.x41; Byte.x42].
Definition demo_p2 : bytes := [Byte.x43].
Definition demo_frames : bytes :=
  match frames 1 [demo_p1; demo_p2] with Ok b => b | Err _ => [] end.
Definition demo_frame3 : bytes := match frame 3 demo_p1 with Ok b => b | Err _ => [] end.
Definition demo_disk : disk := Disk {[1 := 0]} {[0 := demo_frames]} 1.
Definition demo_writer : writer := Writer 1000000 0 3 0 (blen demo_frames) (blen demo_frames) true.

Lemma demo_small : Forall small [demo_p1; demo_p2].
Proof. repeat constructor; vm_compute; discriminate. Qed.

Lemma demo_frames_ok : frames 1 [demo_p1; demo_p2] = Ok demo_frames.
Proof. vm_compute. reflexivity. Qed.

Lemma demo_wf : spool_wf demo_disk 1 3.
Proof.
  split.
  - change (seg_contents demo_disk) with [(1, demo_frames)]. simpl. split; [done|].
    exists [demo_p1; demo_p2]. split; [exact demo_frames_ok|]. split; [exact demo_small|done].
  - change (NoDup [0]). apply NoDup_singleton.
  - intros s Hs. change (segments demo_disk) with [(1, 0)] in Hs.
    apply list_elem_of_singleton in Hs as ->. simpl. lia.
Qed.

Lemma demo_writer_ok : writer_ok demo_disk demo_writer 1.
Proof. split; [exact demo_wf|by exists [], 1|done|done]. Qed.
End demo.

Lemma parse_whole_frames_witness :
  parse (demo_frames ++ take 5 demo_frame3) 0 = ([(1, demo_p1); (2, demo_p2)], 35, false).
Proof.
  apply (parse_whole_frames 1 [demo_p1; demo_p2] demo_frames demo_p1 demo_frame3
           (take 5 demo_frame3) (drop 5 demo_frame3)).
  - exact demo_frames_ok.
  - exact demo_small.
  - vm_compute. reflexivity.
  - vm_compute. discriminate.
  - vm_compute. reflexivity.
  - vm_compute. discriminate.
Defined.

Lemma parse_returns_framed_bytes_witness :
  0 ≤ 35 ≤ blen demo_frames ∧
  frame_records [(1, demo_p1); (2, demo_p2)] = Ok (slice demo_frames 0 35).
Proof.
  apply (parse_returns_framed_bytes demo_frames _ 35 false). vm_compute. reflexivity.
Defined.

Lemma append_all_or_nothing_witness :
  let '(r, d', w') := append demo_disk demo_writer [demo_p1] (Some (Write_refused 7)) in
  goes_on d' w' 1 ∧ append_spec demo_disk demo_writer [demo_p1] (Some (Write_refused 7)) r d' w'.
Proof.
  destruct (append demo_disk demo_writer [demo_p1] (Some (Write_refused 7))) as [[r d'] w'] eqn:E.
  apply (append_all_or_nothing demo_disk demo_writer 1 [demo_p1] (Some (Write_refused 7))).
  - exact demo_writer_ok.
  - repeat constructor. vm_compute. discriminate.
  - intros n H. discriminate H.
  - exact E.
Defined.

Lemma crash_restart_keeps_log_witness :
  ∃ k d2 w2, (k ≤ 1)%nat ∧
    open_writer (set_content demo_disk 0 (demo_frames ++ take 9 demo_frame3)) 77 false None = (Ok w2, d2) ∧
    writer_ok d2 w2 1 ∧ next_seq w2 = 3 + Z.of_nat k ∧
    log d2 = log demo_disk ++ number 3 (take k [demo_p1]).
Proof.
  apply (crash_restart_keeps_log demo_disk demo_writer 1 [demo_p1] demo_frame3 9 77).
  - exact demo_writer_ok.
  - repeat constructor. vm_compute. discriminate.
  - vm_compute. reflexivity.
Defined.

Lemma read_returns_every_record_witness :
  ∃ n, ∀ m, (n ≤ m)%nat →
  ∃ r' out rest, read_run (replicate m demo_disk) 10 (new_reader 1) [] = (r', out, true) ∧
    newer 1 (log demo_disk) = out ++ rest ∧ (rest = [] ∨ (10 ≤ length out)%nat).
Proof. apply (read_returns_every_record demo_disk 1 3 1 10). exact demo_wf. Defined.

Lemma read_never_goes_back_witness :
  let '(r', out', _) := read_run (replicate 5 demo_disk) 10 (new_reader 1) [] in
  ∃ more, out' = [] ++ more ∧ ascending 1 more (after r').
Proof.
  destruct (read_run (replicate 5 demo_disk) 10 (new_reader 1) []) as [[r' out'] stopped] eqn:E.
  apply (read_never_goes_back (replicate 5 demo_disk) 10 (new_reader 1) [] r' out' stopped).
  exact E.
Defined.

Lemma prunable_exactly_read_witness :
  (1, 0) ∈ prunable demo_disk 2 ↔
  ([] : list (Z * Z)) ≠ [] ∧ ∀ x, x ∈ (parse (content demo_disk 0) 0).1.1 → x.1 ≤ 2.
Proof.
  apply (prunable_exactly_read demo_disk 1 3 2 [] (1, 0) []).
  - exact demo_wf.
  - vm_compute. reflexivity.
Defined.

(** A full segment whose successor's directory is not synced: the append raises with its record in the log, and appending the same payload
    again, as the spool thread does after an [OSError], logs it twice. *)
Definition full_writer : writer := Writer 100000000 0 3 0 (SEGMENT_BYTES - 1) (blen demo_frames) true.
Example a_failed_roll_appends_twice :
  let '(r1, d1, w1) := append demo_disk full_writer [demo_p1] (Some Sync_refused) in
  let '(r2, d2, w2) := append d1 w1 [demo_p1] None in
  (r1, r2, log d2) = (Err OsError, Ok 4, [(1, demo_p1); (2, demo_p2); (3, demo_p1); (4, demo_p1)]).
Proof. vm_compute. reflexivity. Qed.
(** Where the successor does not open, the closed descriptor stays the writer's: every later append raises, and logs nothing. *)
Example a_failed_roll_ends_the_writer :
  let '(_, d1, w1) := append demo_disk full_writer [demo_p1] (Some Open_refused) in
  let '(r2, d2, w2) := append d1 w1 [demo_p2] None in
  (r2, log d2) = (Err OsError, [(1, demo_p1); (2, demo_p2); (3, demo_p1)]).
Proof. vm_compute. reflexivity. Qed.

(** A start takes an empty newest segment away before it makes it again. If it is the only one and making it is refused, nothing says any
    more which numbers were used, and the next start numbers from 1. *)
Example a_refused_start_forgets_the_numbers :
  let '(r1, d1) := open_writer (Disk {[7 := 0]} {[0 := []]} 1) 1000 false (Some Open_refused) in
  let '(r2, d2) := open_writer d1 1000 false None in
  (r1, next_seq <$> r2) = (Err OsError, Ok 1).
Proof. vm_compute. reflexivity. Qed.
