(* ===== verification/PyLib.v ===== *)
(** * What the source uses of Python's standard library on strings

    A string is a sequence of code points below 256. *)
From S2P Require Import Prelude.

Definition chars (s : string) : list ascii := String.list_ascii_of_string s.
Definition unchars (l : list ascii) : string := String.string_of_list_ascii l.
Definition code (a : ascii) : Z := Z.of_N (Ascii.N_of_ascii a).

Lemma chars_unchars l : chars (unchars l) = l.
Proof. apply String.list_ascii_of_string_of_list_ascii. Qed.
Lemma unchars_chars s : unchars (chars s) = s.
Proof. apply String.string_of_list_ascii_of_string. Qed.

(** [str.isspace] on one character, and [str.strip()]. *)
Definition is_space (a : ascii) : bool :=
  let c := code a in
  ((9 <=? c) && (c <=? 13)) || ((28 <=? c) && (c <=? 32)) || (c =? 0x85) || (c =? 0xA0).

Fixpoint drop_spaces (l : list ascii) : list ascii :=
  match l with
  | [] => []
  | a :: l' => if is_space a then drop_spaces l' else l
  end.

Definition strip (s : string) : string :=
  unchars (reverse (drop_spaces (reverse (drop_spaces (chars s))))).

(** [s.split(sep)] for a one-character separator. *)
Fixpoint split_chars (sep : ascii) (l cur : list ascii) : list (list ascii) :=
  match l with
  | [] => [reverse cur]
  | a :: l => if Ascii.eqb a sep then reverse cur :: split_chars sep l []
              else split_chars sep l (a :: cur)
  end.
Definition split (sep : ascii) (s : string) : list string :=
  map unchars (split_chars sep (chars s) []).

(** [int(s)]: surrounding space, a sign, digits with single underscores between them. *)
Definition digit (a : ascii) : option Z :=
  let d := code a - 48 in if (0 <=? d) && (d <=? 9) then Some d else None.

Fixpoint digits (l : list ascii) (acc : Z) : option Z :=
  match l with
  | [] => Some acc
  | a :: l' =>
      match digit a with
      | Some d => digits l' (10 * acc + d)
      | None =>
          if Ascii.eqb a "_" then
            match l' with
            | b :: l'' => match digit b with Some d => digits l'' (10 * acc + d) | None => None end
            | [] => None
            end
          else None
      end
  end.

Definition unsigned (l : list ascii) : option Z :=
  match l with
  | a :: l' => match digit a with Some d => digits l' d | None => None end
  | [] => None
  end.

Definition py_int (s : string) : option Z :=
  match chars (strip s) with
  | a :: l =>
      if Ascii.eqb a "-" then Z.opp <$> unsigned l
      else if Ascii.eqb a "+" then unsigned l
      else unsigned (a :: l)
  | [] => None
  end.

(** ** [base64.b64encode] and [base64.b64decode] *)

Definition b64_alphabet : list ascii :=
  chars "ABCDEFGHIJKLMNOPQRSTUVWXYZabcdefghijklmnopqrstuvwxyz0123456789+/".
Definition b64_char (i : Z) : ascii := nth (Z.to_nat i) b64_alphabet "A"%char.
Definition b64_value (a : ascii) : option Z :=
  match list_find (a =.) b64_alphabet with Some (i, _) => Some (Z.of_nat i) | None => None end.

Fixpoint b64_enc (bs : bytes) : list ascii :=
  match bs with
  | [] => []
  | [x] => let a := b2z x in
      [b64_char (a / 4); b64_char (a mod 4 * 16); "="%char; "="%char]
  | [x; y] => let a := b2z x in let b := b2z y in
      [b64_char (a / 4); b64_char (a mod 4 * 16 + b / 16); b64_char (b mod 16 * 4); "="%char]
  | x :: y :: z :: bs => let a := b2z x in let b := b2z y in let c := b2z z in
      b64_char (a / 4) :: b64_char (a mod 4 * 16 + b / 16) :: b64_char (b mod 16 * 4 + c / 64)
      :: b64_char (c mod 64) :: b64_enc bs
  end.

Definition b64encode (bs : bytes) : string := unchars (b64_enc bs).

(** [binascii.a2b_base64], not strict: characters outside the alphabet are skipped; [quad] is the
    position in the group of four, [left] the bits carried over, [pads] the padding seen. *)
Fixpoint b64_dec (l : list ascii) (quad left pads : Z) : option bytes :=
  match l with
  | [] => if quad =? 0 then Some [] else None
  | a :: l =>
      if Ascii.eqb a "=" then
        if 2 <=? quad then
          if 4 <=? quad + (pads + 1) then Some [] else b64_dec l quad left (pads + 1)
        else b64_dec l quad left pads
      else match b64_value a with
      | None => b64_dec l quad left pads
      | Some v =>
          if quad =? 0 then b64_dec l 1 v 0
          else if quad =? 1 then
            rest ← b64_dec l 2 (v mod 16) 0; Some (z2b (left * 4 + v / 16) :: rest)
          else if quad =? 2 then
            rest ← b64_dec l 3 (v mod 4) 0; Some (z2b (left * 16 + v / 4) :: rest)
          else
            rest ← b64_dec l 0 0 0; Some (z2b (left * 64 + v) :: rest)
      end
  end.

(** A string with a character outside ASCII raises [ValueError]. *)
Definition b64decode (s : string) : option bytes :=
  if forallb (fun a => code a <? 128) (chars s) then b64_dec (chars s) 0 0 0 else None.

Lemma b64_char_value i :
  0 ≤ i < 64 → b64_value (b64_char i) = Some i ∧ Ascii.eqb (b64_char i) "=" = false ∧
               code (b64_char i) < 128 ∧ b64_char i ≠ "$"%char.
Proof.
  intros Hi.
  assert (forallb (fun n => let i := Z.of_nat n in
            bool_decide (b64_value (b64_char i) = Some i) && negb (Ascii.eqb (b64_char i) "=")
            && (code (b64_char i) <? 128) && negb (Ascii.eqb (b64_char i) "$"%char)) (seq 0 64) = true)
    as Hall by (vm_compute; reflexivity).
  rewrite forallb_forall in Hall. specialize (Hall (Z.to_nat i)).
  rewrite in_seq, Z2Nat.id in Hall by lia. specialize (Hall ltac:(lia)).
  apply andb_true_iff in Hall as [[[H1 H2]%andb_true_iff H3]%andb_true_iff H4].
  reflect_bools. split_and!; [done|done|done|]. intros E. by rewrite E in H4.
Qed.

Lemma b64_dec_char i l quad left pads :
  0 ≤ i < 64 →
  b64_dec (b64_char i :: l) quad left pads =
    if quad =? 0 then b64_dec l 1 i 0
    else if quad =? 1 then
      rest ← b64_dec l 2 (i mod 16) 0; Some (z2b (left * 4 + i / 16) :: rest)
    else if quad =? 2 then
      rest ← b64_dec l 3 (i mod 4) 0; Some (z2b (left * 16 + i / 4) :: rest)
    else
      rest ← b64_dec l 0 0 0; Some (z2b (left * 64 + i) :: rest).
Proof.
  intros Hi. destruct (b64_char_value i Hi) as (H1 & H2 & _). cbn [b64_dec]. by rewrite H2, H1.
Qed.

Ltac dlia := Z.to_euclidean_division_equations; lia.

Lemma z2b_eq z b : z = b2z b → z2b z = b.
Proof. intros ->. apply z2b_b2z. Qed.

Lemma b64_dec_enc bs : b64_dec (b64_enc bs) 0 0 0 = Some bs.
Proof.
  assert (∀ n bs, (length bs < n)%nat → b64_dec (b64_enc bs) 0 0 0 = Some bs) as H;
    [|apply (H (S (length bs))); lia].
  clear bs. induction n as [|n IH]; intros bs Hn; [lia|].
  destruct bs as [|x [|y [|z bs]]]; cbn [b64_enc]; cbv zeta; [done| | |];
    pose proof (b2z_range x); rewrite b64_dec_char by dlia; cbn [Z.eqb Pos.eqb];
    try pose proof (b2z_range y); rewrite b64_dec_char by dlia; cbn [Z.eqb Pos.eqb].
  - simpl. repeat f_equal; apply z2b_eq; dlia.
  - rewrite b64_dec_char by dlia. simpl. repeat f_equal; apply z2b_eq; dlia.
  - pose proof (b2z_range z). rewrite !b64_dec_char by dlia. simpl.
    rewrite IH by (simpl in Hn; lia). simpl. repeat f_equal; apply z2b_eq; dlia.
Qed.

Definition b64_ok (a : ascii) : Prop := code a < 128 ∧ a ≠ "$"%char.

Lemma b64_enc_ok bs : Forall b64_ok (b64_enc bs).
Proof.
  assert (∀ n bs, (length bs < n)%nat → Forall b64_ok (b64_enc bs)) as H;
    [|apply (H (S (length bs))); lia].
  assert (∀ i, 0 ≤ i < 64 → b64_ok (b64_char i)) as Hc.
  { intros i Hi. destruct (b64_char_value i Hi) as (_ & _ & ? & ?). by split. }
  clear bs. induction n as [|n IH]; intros bs Hn; [lia|].
  destruct bs as [|x [|y [|z bs]]]; cbn [b64_enc]; cbv zeta; [by constructor| | |];
    pose proof (b2z_range x); try pose proof (b2z_range y); try pose proof (b2z_range z);
    repeat (constructor; [first [by split; vm_compute|apply Hc; dlia]|]); [by constructor..|].
  apply IH. simpl in Hn. lia.
Qed.

Lemma b64decode_encode bs : b64decode (b64encode bs) = Some bs.
Proof.
  unfold b64decode, b64encode. rewrite chars_unchars.
  assert (forallb (fun a => code a <? 128) (b64_enc bs) = true) as ->; [|apply b64_dec_enc].
  apply forallb_forall. intros a Ha. pose proof (b64_enc_ok bs) as H.
  rewrite Forall_forall in H. apply Z.ltb_lt. apply H. by apply list_elem_of_In.
Qed.

Lemma split_chars_app sep l1 l2 cur :
  sep ∉ l1 → split_chars sep (l1 ++ sep :: l2) cur =
             reverse (reverse l1 ++ cur) :: split_chars sep l2 [].
Proof.
  revert cur. induction l1 as [|a l1 IH]; intros cur Hn; simpl.
  - by rewrite Ascii.eqb_refl.
  - destruct (Ascii.eqb_spec a sep) as [->|]; [set_solver|].
    rewrite IH by set_solver. f_equal. by rewrite reverse_cons, <- app_assoc.
Qed.

Lemma split_chars_last sep l cur : sep ∉ l → split_chars sep l cur = [reverse (reverse l ++ cur)].
Proof.
  revert cur. induction l as [|a l IH]; intros cur Hn; simpl; [done|].
  destruct (Ascii.eqb_spec a sep) as [->|]; [set_solver|].
  rewrite IH by set_solver. by rewrite reverse_cons, <- app_assoc.
Qed.

(** [sep.join(parts)] for a one-character separator. *)
(** A character is the separator or in a part. *)
Lemma split_chars_elem sep l cur c :
  c ∈ reverse cur ++ l -> c = sep ∨ ∃ p, p ∈ split_chars sep l cur ∧ c ∈ p.
Proof.
  revert cur. induction l as [|a l IH]; intros cur H; simpl.
  - right. exists (reverse cur). split; [by left|]. by rewrite app_nil_r in H.
  - destruct (Ascii.eqb_spec a sep) as [->|].
    + apply elem_of_app in H as [H|H]; [right; exists (reverse cur); split; [by left|done]|].
      apply elem_of_cons in H as [->|H]; [by left|]. destruct (IH [] H) as [->|(p & Hp & ?)]; [by left|right].
      exists p. split; [by right|done].
    + apply IH. by rewrite reverse_cons, <- app_assoc.
Qed.

Lemma split_chars_part sep l cur p c : p ∈ split_chars sep l cur -> c ∈ p -> c ∈ reverse cur ++ l.
Proof.
  revert cur. induction l as [|a l IH]; intros cur Hp Hc; simpl in Hp.
  - apply list_elem_of_singleton in Hp as ->. by rewrite app_nil_r.
  - destruct (Ascii.eqb_spec a sep) as [->|].
    + apply elem_of_app. apply elem_of_cons in Hp as [->|Hp]; [by left|]. right. right. by apply (IH [] Hp).
    + specialize (IH (a :: cur) Hp Hc). by rewrite reverse_cons, <- app_assoc in IH.
Qed.

Lemma split_part sep s p c : p ∈ split sep s -> c ∈ chars p -> c ∈ chars s.
Proof.
  intros (q & -> & Hq)%list_elem_of_fmap Hc. rewrite chars_unchars in Hc. by apply (split_chars_part sep (chars s) [] q c).
Qed.

Lemma split_one sep s : sep ∉ chars s -> split sep s = [s].
Proof.
  intros H. unfold split. rewrite split_chars_last by done. simpl. by rewrite app_nil_r, reverse_involutive, unchars_chars.
Qed.

Lemma split_elem sep s c : c ∈ chars s -> c = sep ∨ ∃ p, p ∈ split sep s ∧ c ∈ chars p.
Proof.
  intros H. destruct (split_chars_elem sep (chars s) [] c H) as [->|(p & Hp & Hc)]; [by left|right].
  exists (unchars p). split; [apply list_elem_of_fmap; by exists p|by rewrite chars_unchars].
Qed.

Fixpoint join_chars (sep : ascii) (parts : list (list ascii)) : list ascii :=
  match parts with
  | [] => []
  | [p] => p
  | p :: parts => p ++ sep :: join_chars sep parts
  end.

Lemma split_join sep parts :
  parts ≠ [] → Forall (λ p, sep ∉ p) parts → split_chars sep (join_chars sep parts) [] = parts.
Proof.
  intros Hne. induction parts as [|p parts IH]; [done|]. intros [Hp Hps]%Forall_cons.
  destruct parts as [|q parts].
  - simpl. by rewrite split_chars_last, app_nil_r, reverse_involutive.
  - change (join_chars sep (p :: q :: parts)) with (p ++ sep :: join_chars sep (q :: parts)).
    rewrite split_chars_app by done. rewrite app_nil_r, reverse_involutive. by rewrite IH.
Qed.

Lemma chars_app s t : chars (s +:+ t) = chars s ++ chars t.
Proof. induction s as [|a s IH]; simpl; [done|]. f_equal. exact IH. Qed.

Lemma unchars_app s l : unchars (chars s ++ l) = s +:+ unchars l.
Proof.
  induction s as [|a s IH]; [done|].
  change (String a (unchars (chars s ++ l)) = String a (s +:+ unchars l)). by rewrite IH.
Qed.

Lemma prefix_app s t : String.prefix s (s +:+ t) = true.
Proof.
  induction s as [|a s IH]; [by destruct t|].
  change (String.prefix (String a s) (String a (s +:+ t)) = true). simpl.
  by destruct (ascii_dec a a).
Qed.

Lemma string_app_assoc (s t u : string) : (s +:+ t) +:+ u = s +:+ (t +:+ u).
Proof.
  induction s as [|a s IH]; [done|].
  change (String a ((s +:+ t) +:+ u) = String a (s +:+ (t +:+ u))). by rewrite IH.
Qed.

(** [str.lower] on code points below 256: A-Z and the Latin-1 capitals move up by 32. *)
Definition lower_char (a : ascii) : ascii :=
  let c := code a in
  if ((65 <=? c) && (c <=? 90)) || ((192 <=? c) && (c <=? 222) && negb (c =? 215))
  then Ascii.ascii_of_N (Z.to_N (c + 32)) else a.
Definition lower (s : string) : string := unchars (map lower_char (chars s)).

(** [s[:n]]. *)
Definition clip (n : nat) (s : string) : string := String.substring 0 n s.

(** [sep.join(parts)]. *)
Fixpoint join (sep : string) (parts : list string) : string :=
  match parts with
  | [] => ""
  | [p] => p
  | p :: parts => p +:+ sep +:+ join sep parts
  end.

(** [s.split()]: the maximal runs of characters that are not space. *)
Fixpoint words_of (l cur : list ascii) : list (list ascii) :=
  match l with
  | [] => match cur with [] => [] | _ => [reverse cur] end
  | a :: l => if is_space a then match cur with [] => words_of l [] | _ => reverse cur :: words_of l [] end
              else words_of l (a :: cur)
  end.
Definition words (s : string) : list string := map unchars (words_of (chars s) []).

(** The order of strings: by code point, as [sorted] uses it. *)
Definition string_leb (a b : string) : bool := bool_decide (String.le a b).
