(* ===== verification/Addresses.v ===== *)
(** * What the source uses of [ipaddress] and [fnmatch]

    Parsing and printing of addresses and networks, membership of a network, and shell patterns. An
    address is its integer; a version 6 address may carry a zone ([%eth0]). A call that raises
    [ValueError] answers [None]. *)
From S2P Require Import Prelude PyLib.

(** ** Version 4 *)

Definition is_dec (a : ascii) : bool := (48 <=? code a) && (code a <=? 57).
Definition dec_value (l : list ascii) : Z := foldl (fun acc a => 10 * acc + (code a - 48)) 0 l.

(** [s.isascii() and s.isdigit()]. *)
Definition all_dec (l : list ascii) : bool := match l with [] => false | _ => forallb is_dec l end.

Definition parse_octet (s : string) : option Z :=
  let l := chars s in
  if negb (all_dec l) then None
  else if Nat.ltb 3 (length l) then None
  else if negb (String.eqb s "0") && bool_decide (head l = Some "0"%char) then None
  else if 255 <? dec_value l then None else Some (dec_value l).

Definition be_int (w : Z) (l : list Z) : Z := foldl (fun acc z => acc * 2 ^ w + z) 0 l.

Definition ip4_int (s : string) : option Z :=
  match split "." s with
  | [_; _; _; _] as octets => be_int 8 <$> mapM parse_octet octets
  | _ => None
  end.

Definition has_char (a : ascii) (s : string) : bool := bool_decide (a ∈ chars s).

Definition ip4_address (s : string) : option Z := if has_char "/" s then None else ip4_int s.

(** ** Version 6 *)

(** A part between colons, or one of the two a version 4 suffix makes. *)
Inductive Part := Text (s : string) | Hextet (z : Z).
Definition blank (p : Part) : bool := match p with Text s => String.eqb s "" | Hextet _ => false end.

Definition hex_value (a : ascii) : option Z :=
  let c := code a in
  if is_dec a then Some (c - 48)
  else if (97 <=? c) && (c <=? 102) then Some (c - 87)
  else if (65 <=? c) && (c <=? 70) then Some (c - 55)
  else None.

Definition parse_hextet (p : Part) : option Z :=
  match p with
  | Hextet z => Some z
  | Text s => match chars s with
              | [] => None
              | l => if Nat.ltb 4 (length l) then None else be_int 4 <$> mapM hex_value l
              end
  end.

(** The version 4 suffix, in hexadecimal. *)
Definition with_suffix (parts : list string) : option (list Part) :=
  let t := List.last parts "" in
  if has_char "." t then
    v ← ip4_address t;
    Some (map Text (removelast parts) ++ [Hextet (Z.land (Z.shiftr v 16) 0xFFFF); Hextet (Z.land v 0xFFFF)])
  else Some (map Text parts).

Definition HEXTETS : nat := 8.

(** The inner parts that are empty: where [::] stands. *)
Definition gaps (parts : list Part) : list nat :=
  filter (fun i => blank (nth i parts (Hextet 0)) = true) (seq 1 (length parts - 2)).

Definition hextets_int (hi : list Part) (skipped : nat) (lo : list Part) : option Z :=
  hs ← mapM parse_hextet hi;
  ls ← mapM parse_hextet lo;
  Some (be_int 16 (hs ++ repeat 0 skipped ++ ls)).

Definition ip6_parts (parts : list Part) : option Z :=
  let n := length parts in
  if Nat.ltb (HEXTETS + 1) n then None
  else match gaps parts with
  | [] =>
      if negb (Nat.eqb n HEXTETS) || blank (nth 0 parts (Hextet 0)) || blank (List.last parts (Hextet 0)) then None
      else hextets_int parts 0 []
  | [i] =>
      let first := blank (nth 0 parts (Hextet 0)) in
      let final := blank (List.last parts (Hextet 0)) in
      let hi := if first then (i - 1)%nat else i in
      let lo := if final then (n - i - 2)%nat else (n - i - 1)%nat in
      if first && negb (Nat.eqb hi 0) then None
      else if final && negb (Nat.eqb lo 0) then None
      else if Nat.ltb HEXTETS (hi + lo + 1) then None
      else hextets_int (take hi parts) (HEXTETS - (hi + lo)) (drop (n - lo) parts)
  | _ => None
  end.

Definition ip6_int (s : string) : option Z :=
  if String.eqb s "" then None
  else let parts := split ":" s in
       if Nat.ltb (length parts) 3 then None else with_suffix parts ≫= ip6_parts.

Definition split_zone (s : string) : option (string * option string) :=
  match split "%" s with
  | [a] => Some (a, None)
  | [a; z] => if String.eqb z "" then None else Some (a, Some z)
  | _ => None
  end.

Definition ip6_address (s : string) : option (Z * option string) :=
  if has_char "/" s then None
  else az ← split_zone s; n ← ip6_int az.1; Some (n, az.2).

(** ** [ip_address] and [ip_network] *)

Inductive Ip := V4 (n : Z) | V6 (n : Z) (zone : option string).
#[global] Instance ip_eq_dec : EqDecision Ip.
Proof. solve_decision. Defined.

Definition ip_address (s : string) : option Ip :=
  match ip4_address s with
  | Some n => Some (V4 n)
  | None => (fun a => V6 a.1 a.2) <$> ip6_address s
  end.

Definition prefix_string (w : Z) (s : string) : option Z :=
  let l := chars s in
  if all_dec l && (dec_value l <=? w) then Some (dec_value l) else None.

Definition bit_length (n : Z) : Z := if n =? 0 then 0 else Z.log2 n + 1.
Definition trailing_zeros (n w : Z) : Z :=
  if n =? 0 then w else Z.min w (bit_length (Z.land (Z.lnot n) (n - 1))).
Definition prefix_int (n : Z) : option Z :=
  let z := trailing_zeros n 32 in
  if Z.shiftr n z =? 2 ^ (32 - z) - 1 then Some (32 - z) else None.

(** A netmask or a hostmask in dotted form. *)
Definition prefix_mask (s : string) : option Z :=
  n ← ip4_int s;
  match prefix_int n with Some p => Some p | None => prefix_int (Z.lxor n (2 ^ 32 - 1)) end.

Definition netmask (w p : Z) : Z := Z.lxor (2 ^ w - 1) (Z.shiftr (2 ^ w - 1) p).

Record Network := MkNetwork { network_address : Ip; prefixlen : Z }.

Definition ip_network (s : string) : option Network :=
  match match split "/" s with
        | [a] => Some (a, None)
        | [a; m] => Some (a, Some m)
        | _ => None
        end with
  | None => None
  | Some (a, m) =>
      match match ip4_address a with
            | Some n =>
                p ← match m with
                    | None => Some 32
                    | Some m => match prefix_string 32 m with Some p => Some p | None => prefix_mask m end
                    end;
                Some (MkNetwork (V4 (Z.land n (netmask 32 p))) p)
            | None => None
            end with
      | Some net => Some net
      | None =>
          nz ← ip6_address a;
          p ← match m with None => Some 128 | Some m => prefix_string 128 m end;
          let cut := Z.land nz.1 (netmask 128 p) in
          Some (MkNetwork (V6 cut (if cut =? nz.1 then nz.2 else None)) p)
      end
  end.

(** [address in network]. *)
Definition in_network (a : Ip) (net : Network) : bool :=
  match a, network_address net with
  | V4 n, V4 m => Z.land n (netmask 32 (prefixlen net)) =? m
  | V6 n _, V6 m _ => Z.land n (netmask 128 (prefixlen net)) =? m
  | _, _ => false
  end.

(** ** Printing *)

Definition hex_text (z : Z) : string :=
  let digit i := nth (Z.to_nat (Z.land (Z.shiftr z (4 * i)) 15)) (chars "0123456789abcdef") "0"%char in
  let fix trim (l : list ascii) : list ascii :=
    match l with [] => [] | [a] => [a] | a :: l' => if Ascii.eqb a "0" then trim l' else l end in
  unchars (trim [digit 3; digit 2; digit 1; digit 0]).

(** The first longest run of zeros: where it starts, and its length. *)
Record Runs := MkRuns { best_start : nat; best_len : nat; run_start : nat; run_len : nat }.
Definition zero_run (r : Runs) (ih : nat * string) : Runs :=
  if String.eqb ih.2 "0" then
    let start := if Nat.eqb (run_len r) 0 then ih.1 else run_start r in
    let len := S (run_len r) in
    if Nat.ltb (best_len r) len then MkRuns start len start len else MkRuns (best_start r) (best_len r) start len
  else MkRuns (best_start r) (best_len r) 0 0.

Definition compress (hextets : list string) : list string :=
  let r := foldl zero_run (MkRuns 0 0 0 0) (imap pair hextets) in
  if Nat.ltb 1 (best_len r) then
    let e := (best_start r + best_len r)%nat in
    let tail := if Nat.eqb e (length hextets) then [""] else drop e hextets in
    let l := take (best_start r) hextets ++ [""] ++ tail in
    if Nat.eqb (best_start r) 0 then "" :: l else l
  else hextets.

Definition octets_of (n : Z) : list Z := map (fun i => Z.land (Z.shiftr n (8 * i)) 255) [3; 2; 1; 0].
Definition hextets_of (n : Z) : list Z := map (fun i => Z.land (Z.shiftr n (16 * i)) 0xFFFF) [7; 6; 5; 4; 3; 2; 1; 0].

Definition ip_text (a : Ip) : string :=
  match a with
  | V4 n => join "." (map pretty (octets_of n))
  | V6 n zone =>
      join ":" (compress (map hex_text (hextets_of n))) +:+ match zone with Some z => "%" +:+ z | None => "" end
  end.

Definition network_text (net : Network) : string := ip_text (network_address net) +:+ "/" +:+ pretty (prefixlen net).

Example text4 : network_text <$> ip_network "10.0.0.77/24" = Some "10.0.0.0/24". Proof. by vm_compute. Qed.
Example text6 : network_text <$> ip_network "2001:DB8:0:1::7/48" = Some "2001:db8::/48". Proof. by vm_compute. Qed.
Example suffix6 : ip_text <$> ip_address "::ffff:10.0.0.1" = Some "::ffff:a00:1". Proof. by vm_compute. Qed.
Example mask4 : network_text <$> ip_network "10.1.2.3/255.255.0.0" = Some "10.1.0.0/16". Proof. by vm_compute. Qed.
Example hostmask4 : network_text <$> ip_network "10.1.2.3/0.0.255.255" = Some "10.1.0.0/16". Proof. by vm_compute. Qed.
Example zone6 : network_text <$> ip_network "fe80::1%eth0/64" = Some "fe80::/64". Proof. by vm_compute. Qed.
Example bad6 : map ip_address ["1::2::3"; ":1:2:3:4:5:6:7:8"; "1:2:3"; "1.2.3"; "1.2.3.04"; "::%"; ""] = repeat None 7.
Proof. by vm_compute. Qed.

(** ** [fnmatch.fnmatchcase] *)

(** What one piece of a pattern matches. A class is a list of ranges. *)
Inductive Piece := Star | Any | Lit (a : ascii) | Class (negated : bool) (ranges : list (ascii * ascii)) | Never.

(** The text of a bracket, cut at the hyphens that make ranges: [k] counts down to where the next one
    is looked for. *)
Fixpoint chunks_of (l cur : list ascii) (k : nat) : list (list ascii) :=
  match l with
  | [] => [reverse cur]
  | a :: l' => if Nat.eqb k 0 && Ascii.eqb a "-" then reverse cur :: chunks_of l' [] 2 else chunks_of l' (a :: cur) (k - 1)
  end.

(** An empty last chunk is a hyphen of the one before it. *)
Fixpoint close_chunks (cs : list (list ascii)) : list (list ascii) :=
  match cs with
  | [c; []] => [c ++ ["-"%char]]
  | c :: cs => c :: close_chunks cs
  | [] => []
  end.

Definition last_code (c : list ascii) : Z := code (List.last c "000"%char).
Definition first_code (c : list ascii) : Z := code (hd "000"%char c).

(** Empty ranges are removed, the last first. *)
Fixpoint merge_chunks (cs : list (list ascii)) : list (list ascii) :=
  match cs with
  | [] => []
  | c :: cs =>
      match merge_chunks cs with
      | d :: ds => if first_code d <? last_code c then (removelast c ++ tl d) :: ds else c :: d :: ds
      | [] => [c]
      end
  end.

(** The ranges of chunks joined by the hyphens between them. *)
Definition singles (l : list ascii) : list (ascii * ascii) := map (fun a => (a, a)) l.
Fixpoint ranges_of (c : list ascii) (cs : list (list ascii)) : list (ascii * ascii) :=
  match cs with
  | [] => singles c
  | d :: ds =>
      match c with
      | [] => ("-"%char, "-"%char) :: ranges_of d ds
      | _ => singles (removelast c) ++ (List.last c "000"%char, hd "000"%char d) :: ranges_of (tl d) ds
      end
  end.

Definition class_of (stuff : list ascii) : Piece :=
  let negated := bool_decide (head stuff = Some "!"%char) in
  let cs := if bool_decide ("-"%char ∈ stuff)
            then merge_chunks (close_chunks (chunks_of stuff [] (if negated then 2 else 1)))
            else [stuff] in
  match cs with
  | [[]] => Never
  | (a :: c) :: cs => if Ascii.eqb a "!" then match c, cs with [], [] => Any | _, _ => Class true (ranges_of c cs) end
                      else Class false (ranges_of (a :: c) cs)
  | [] :: cs => Class false (ranges_of [] cs)
  | [] => Never
  end.

(** Up to the [ ] ] that ends a bracket; one that comes first is in it. *)
Fixpoint bracket (l acc : list ascii) : option (list ascii * list ascii) :=
  match l with
  | [] => None
  | a :: l => if Ascii.eqb a "]" then Some (reverse acc, l) else bracket l (a :: acc)
  end.
Definition bracket_of (l : list ascii) : option (list ascii * list ascii) :=
  let '(acc, l) := match l with a :: l' => if Ascii.eqb a "!" then ([a], l') else ([], l) | [] => ([], []) end in
  match l with
  | a :: l' => if Ascii.eqb a "]" then bracket l' (a :: acc) else bracket l acc
  | [] => None
  end.

(** [translate]; the fuel is the pattern's length. *)
Fixpoint pieces (fuel : nat) (l : list ascii) : list Piece :=
  match fuel, l with
  | S fuel, a :: l' =>
      if Ascii.eqb a "*" then Star :: pieces fuel l'
      else if Ascii.eqb a "?" then Any :: pieces fuel l'
      else if Ascii.eqb a "[" then
        match bracket_of l' with
        | Some (stuff, rest) => class_of stuff :: pieces fuel rest
        | None => Lit a :: pieces fuel l'
        end
      else Lit a :: pieces fuel l'
  | _, _ => []
  end.

Definition piece_matches (p : Piece) (a : ascii) : bool :=
  match p with
  | Star | Never => false
  | Any => true
  | Lit b => Ascii.eqb a b
  | Class negated rs => xorb negated (existsb (fun r => (code r.1 <=? code a) && (code a <=? code r.2)) rs)
  end.

Fixpoint matches (ps : list Piece) (l : list ascii) : bool :=
  match ps with
  | [] => match l with [] => true | _ => false end
  | Star :: ps => (fix skip (l : list ascii) : bool :=
                     matches ps l || match l with [] => false | _ :: l => skip l end) l
  | p :: ps => match l with a :: l => piece_matches p a && matches ps l | [] => false end
  end.

Definition fnmatchcase (name pat : string) : bool := matches (pieces (length (chars pat)) (chars pat)) (chars name).

Example glob1 : fnmatchcase "10.0.3.4" "10.0.*" = true. Proof. by vm_compute. Qed.
Example glob2 : fnmatchcase "10.0.3.4" "10.0.[0-3x].?" = true. Proof. by vm_compute. Qed.
Example glob3 : fnmatchcase "a" "[!b-a]" = true. Proof. by vm_compute. Qed.
Example glob4 : fnmatchcase "b" "[]-a]" = false. Proof. by vm_compute. Qed.
Example glob5 : map (fun s => fnmatchcase s "[a-]*x[!0-9]") ["-yxz"; "bxz"; "ax9"; "axa"] = [true; false; false; true].
Proof. by vm_compute. Qed.

(** ** What an address is *)

Lemma be_int_range w l : 0 <= w -> Forall (fun z => 0 <= z < 2 ^ w) l -> 0 <= be_int w l < 2 ^ (w * Z.of_nat (length l)).
Proof.
  intros Hw. unfold be_int. induction l as [|z l IH] using rev_ind; intros H; [simpl; rewrite Z.mul_0_r; simpl; lia|].
  apply Forall_app in H as [Hl Hz]. apply Forall_cons in Hz as [Hz _]. specialize (IH Hl). rewrite foldl_snoc, length_app. cbv beta. simpl length.
  rewrite Nat2Z.inj_add, Z.mul_add_distr_l, Z.mul_1_r, Z.pow_add_r by lia. pose proof (Z.pow_pos_nonneg 2 w ltac:(lia) Hw) as Hp.
  set (x := foldl _ _ _) in *. set (m := 2 ^ (w * Z.of_nat (length l))) in *. pose proof (Z.mul_nonneg_nonneg x (2 ^ w)); split; [lia|].
  assert ((x + 1) * 2 ^ w <= m * 2 ^ w) by (apply Z.mul_le_mono_nonneg_r; lia). lia.
Qed.

Lemma dec_value_nonneg l : (∀ x, In x l -> is_dec x = true) -> 0 <= dec_value l.
Proof.
  intros H. unfold dec_value. assert (∀ acc, 0 <= acc -> 0 <= foldl (fun acc a => 10 * acc + (code a - 48)) acc l) as G; [|by apply G].
  induction l as [|x l IH]; intros acc Ha; simpl; [done|]. apply IH; [intros; apply H; by right|].
  specialize (H x (or_introl eq_refl)). unfold is_dec in H. reflect_bools. lia.
Qed.

Lemma parse_octet_range s z : parse_octet s = Some z -> 0 <= z < 2 ^ 8.
Proof.
  unfold parse_octet, all_dec. intros H. destruct (chars s) as [|a l] eqn:E; [done|].
  destruct (forallb is_dec (a :: l)) eqn:Hd; [|done]. simpl negb in H. cbv iota in H.
  repeat (case_match; simplify_eq). split; [|lia]. apply dec_value_nonneg. by apply forallb_forall.
Qed.

Lemma mapM_Forall {A B} (f : A -> option B) (P : B -> Prop) l k :
  (∀ a b, f a = Some b -> P b) -> mapM f l = Some k -> Forall P k ∧ length k = length l.
Proof.
  intros Hf H. apply mapM_Some in H. split; [|by rewrite (Forall2_length _ _ _ H)].
  induction H as [|a b l k Hab _ IH]; constructor; eauto.
Qed.

Lemma ip4_int_range s n : ip4_int s = Some n -> 0 <= n < 2 ^ 32.
Proof.
  unfold ip4_int. intros H. repeat (case_match; try done).
  apply fmap_Some in H as (k & Hk & ->). destruct (mapM_Forall _ _ _ _ parse_octet_range Hk) as [Hf Hl].
  pose proof (be_int_range 8 k ltac:(done) Hf) as B. rewrite Hl in B. exact B.
Qed.

Lemma ip4_address_range s n : ip4_address s = Some n -> 0 <= n < 2 ^ 32.
Proof. unfold ip4_address. destruct (has_char _ _); [done|]. apply ip4_int_range. Qed.

Definition part_ok (p : Part) : Prop := match p with Text _ => True | Hextet z => 0 <= z < 2 ^ 16 end.

Lemma hex_value_range a z : hex_value a = Some z -> 0 <= z < 2 ^ 4.
Proof. unfold hex_value, is_dec. intros H. repeat (case_match; simplify_eq); reflect_bools; lia. Qed.

Lemma parse_hextet_range p z : part_ok p -> parse_hextet p = Some z -> 0 <= z < 2 ^ 16.
Proof.
  destruct p as [s|n]; cbn [part_ok parse_hextet]; [intros _|congruence]. intros H. destruct (chars s) as [|a l] eqn:E; [done|].
  destruct (Nat.ltb_spec 4 (length (a :: l))) as [|Hl]; [done|]. apply fmap_Some in H as (k & Hk & ->).
  destruct (mapM_Forall _ _ _ _ hex_value_range Hk) as [Hf Hn]. pose proof (be_int_range 4 k ltac:(done) Hf) as B.
  assert (4 * Z.of_nat (length k) <= 16) by lia. pose proof (Z.pow_le_mono_r 2 (4 * Z.of_nat (length k)) 16). lia.
Qed.

Lemma hextets_range l k : Forall part_ok l -> mapM parse_hextet l = Some k -> Forall (fun z => 0 <= z < 2 ^ 16) k ∧ length k = length l.
Proof.
  intros Hl H. apply mapM_Some in H. split; [|by rewrite (Forall2_length _ _ _ H)].
  induction H as [|a b l k Hab _ IH]; [constructor|]. apply Forall_cons in Hl as [Ha Hl]. constructor; [by eapply parse_hextet_range|by apply IH].
Qed.

Lemma hextets_int_range hi n lo z :
  Forall part_ok hi -> Forall part_ok lo -> (length hi + n + length lo = HEXTETS)%nat -> hextets_int hi n lo = Some z -> 0 <= z < 2 ^ 128.
Proof.
  intros Hhi Hlo Hn H. unfold hextets_int in H. apply bind_Some in H as (hs & Hhs & H). apply bind_Some in H as (ls & Hls & [= <-]).
  destruct (hextets_range _ _ Hhi Hhs) as [F1 L1], (hextets_range _ _ Hlo Hls) as [F2 L2].
  pose proof (be_int_range 16 (hs ++ repeat 0 n ++ ls) ltac:(done)) as B. rewrite !length_app, repeat_length, L1, L2 in B.
  replace (length hi + (n + length lo))%nat with HEXTETS in B by lia. apply B. rewrite !Forall_app. split_and!; [done| |done].
  apply Forall_forall. intros x ->%list_elem_of_In%repeat_spec. lia.
Qed.

Lemma with_suffix_ok l ps : with_suffix l = Some ps -> Forall part_ok ps.
Proof.
  unfold with_suffix. assert (∀ k, Forall part_ok (map Text k)) as G by (intros; by apply Forall_map, Forall_true).
  destruct (has_char _ _); [|by intros [= <-]]. intros H. apply bind_Some in H as (v & _ & [= <-]).
  apply Forall_app. split; [done|]. repeat constructor; simpl; change 65535 with (Z.ones 16); rewrite Z.land_ones by lia;
    pose proof (Z.mod_pos_bound) as M; apply M; lia.
Qed.

Lemma ip6_parts_range ps n : Forall part_ok ps -> ip6_parts ps = Some n -> 0 <= n < 2 ^ 128.
Proof.
  intros Hp H. unfold ip6_parts in H. destruct (Nat.ltb_spec (HEXTETS + 1) (length ps)) as [|Hn]; [done|].
  destruct (gaps ps) as [|i [|]] eqn:Eg; [| |done].
  - destruct (Nat.eqb_spec (length ps) HEXTETS) as [E|]; [|done]. simpl in H. destruct (_ || _); [done|].
    refine (hextets_int_range ps 0 [] n Hp (Forall_nil_2 _) _ H). by rewrite E.
  - assert (Hi : i ∈ gaps ps) by (rewrite Eg; by left). apply list_elem_of_filter in Hi as [_ Hi%elem_of_seq].
    repeat (destruct (_ && _); [done|]). destruct (Nat.ltb_spec HEXTETS ((if blank (nth 0 ps (Hextet 0)) then i - 1 else i) + (if blank (List.last ps (Hextet 0)) then length ps - i - 2 else length ps - i - 1) + 1)) as [|Hs]; [done|].
    refine (hextets_int_range _ _ _ n (Forall_take _ _ _ Hp) (Forall_drop _ _ _ Hp) _ H).
    unfold HEXTETS in *. rewrite length_take, length_drop. destruct (blank (nth 0 ps _)), (blank (List.last ps _)); lia.
Qed.

Lemma ip6_address_range s n z : ip6_address s = Some (n, z) -> 0 <= n < 2 ^ 128.
Proof.
  unfold ip6_address. intros H. destruct (has_char _ _); [done|].
  apply bind_Some in H as (az & _ & H). apply bind_Some in H as (m & Hm & [= <- _]). unfold ip6_int in Hm.
  destruct (String.eqb _ _); [done|]. destruct (Nat.ltb _ _); [done|]. apply bind_Some in Hm as (ps & Hps & Hm).
  eapply ip6_parts_range; [|exact Hm]. by eapply with_suffix_ok.
Qed.

(** A netmask keeps the first [p] bits of [w]. *)
Lemma netmask_bits w p i : 0 <= p <= w -> 0 <= i -> Z.testbit (netmask w p) i = (w - p <=? i) && (i <? w).
Proof.
  intros Hp Hi. unfold netmask. rewrite Z.lxor_spec, Z.shiftr_spec by lia. 
  replace (2 ^ w - 1) with (Z.ones w) by (rewrite Z.ones_equiv; lia).
  rewrite !Z.testbit_ones_nonneg by lia. zcases; try reflexivity; exfalso; lia.
Qed.

Lemma high_bits x w i : 0 <= x < 2 ^ w -> 0 <= w <= i -> Z.testbit x i = false.
Proof. intros H Hi. rewrite <- (Z.mod_small x (2 ^ w)) by done. apply Z.mod_pow2_bits_high. lia. Qed.

Lemma netmask_same w p a b :
  0 <= p <= w -> 0 <= a < 2 ^ w -> 0 <= b < 2 ^ w ->
  Z.land a (netmask w p) = Z.land b (netmask w p) ↔ Z.shiftr a (w - p) = Z.shiftr b (w - p).
Proof.
  intros Hp Ha Hb. split; intros H; apply Z.bits_inj'; intros i Hi.
  - rewrite !Z.shiftr_spec by lia. destruct (Z.ltb_spec (i + (w - p)) w) as [Hw|Hw].
    + apply (f_equal (fun z => Z.testbit z (i + (w - p)))) in H. rewrite !Z.land_spec, netmask_bits in H by lia.
      rewrite (proj2 (Z.leb_le _ _)), (proj2 (Z.ltb_lt _ _)) in H by lia. by rewrite !andb_true_r in H.
    + by rewrite !(high_bits _ w) by lia.
  - rewrite !Z.land_spec, netmask_bits by lia. destruct (Z.leb_spec (w - p) i) as [Hw|]; [|by rewrite !andb_false_r].
    apply (f_equal (fun z => Z.testbit z (i - (w - p)))) in H. rewrite !Z.shiftr_spec in H by lia.
    replace (i - (w - p) + (w - p)) with i in H by lia. by rewrite H.
Qed.

Lemma netmask_idem w p a : 0 <= p <= w -> Z.land (Z.land a (netmask w p)) (netmask w p) = Z.land a (netmask w p).
Proof. intros. by rewrite <- Z.land_assoc, Z.land_diag. Qed.

Lemma netmask_range w p a : 0 <= w -> 0 <= p <= w -> 0 <= a < 2 ^ w -> 0 <= Z.land a (netmask w p) < 2 ^ w.
Proof.
  intros Hw Hp Ha. assert (0 <= Z.land a (netmask w p)) by (apply Z.land_nonneg; lia). split; [done|].
  destruct (Z.eq_dec (Z.land a (netmask w p)) 0) as [->|]; [lia|]. apply Z.log2_lt_pow2; [lia|].
  pose proof (Z.log2_land a (netmask w p)) as L.
  assert (0 <= netmask w p) by (apply Z.bits_iff_nonneg_ex; exists w; intros m Hm; rewrite netmask_bits by lia; zcases; by rewrite andb_false_r).
  destruct (Z.eq_dec a 0) as [->|]; [by rewrite Z.land_0_l in *|]. pose proof (proj1 (Z.log2_lt_pow2 a w ltac:(lia)) ltac:(lia)). lia.
Qed.

Lemma prefix_int_range n p : prefix_int n = Some p -> 0 <= p <= 32.
Proof.
  unfold prefix_int, trailing_zeros, bit_length. intros H. destruct (_ =? _); [|done]. injection H as <-.
  destruct (n =? 0); [lia|]. match goal with |- context [if ?b then _ else _] => destruct b end; [lia|].
  pose proof (Z.log2_nonneg (Z.land (Z.lnot n) (n - 1))). lia.
Qed.

Lemma prefix_string_range w s p : prefix_string w s = Some p -> 0 <= p <= w.
Proof.
  unfold prefix_string. intros H. destruct (all_dec (chars s)) eqn:E; [|done]. simpl in H.
  destruct (Z.leb_spec (dec_value (chars s)) w); [|done]. injection H as <-. split; [|done].
  destruct (chars s) as [|a l]; [done|]. simpl in E. apply (dec_value_nonneg (a :: l)).
  apply forallb_forall. exact E.
Qed.

Definition width (a : Ip) : Z := match a with V4 _ => 32 | V6 _ _ => 128 end.
Definition value (a : Ip) : Z := match a with V4 n => n | V6 n _ => n end.

Lemma ip_address_range s a : ip_address s = Some a -> 0 <= value a < 2 ^ width a.
Proof.
  unfold ip_address. destruct (ip4_address s) as [n|] eqn:E; [intros [= <-]; by eapply ip4_address_range|].
  intros ([n z] & H & ->)%fmap_Some. by eapply ip6_address_range.
Qed.

Definition well_formed (net : Network) : Prop :=
  0 <= prefixlen net <= width (network_address net) ∧ 0 <= value (network_address net) < 2 ^ width (network_address net)
  ∧ Z.land (value (network_address net)) (netmask (width (network_address net)) (prefixlen net)) = value (network_address net).

Lemma cut_well_formed w p a n :
  width a = w -> value a = Z.land n (netmask w p) -> 0 <= w -> 0 <= p <= w -> 0 <= n < 2 ^ w -> well_formed (MkNetwork a p).
Proof. intros Hw Hv ? ? ?. unfold well_formed. simpl. rewrite Hw, Hv. split_and!; try apply netmask_range; try lia. by apply netmask_idem. Qed.

Lemma ip_network_ok s net : ip_network s = Some net -> well_formed net.
Proof.
  unfold ip_network. intros H. destruct (match split "/" s with [a] => _ | _ => _ end) as [[a m]|]; [|done].
  match type of H with match ?x with _ => _ end = _ => destruct x as [n4|] eqn:E4 end.
  - injection H as ->. destruct (ip4_address a) as [n|] eqn:En; [|done]. apply bind_Some in E4 as (p & Hp & [= <-]).
    eapply (cut_well_formed 32); [done..| |by eapply ip4_address_range]. destruct m as [m|]; [|injection Hp as <-; lia].
    destruct (prefix_string 32 m) eqn:Es; [injection Hp as <-; by eapply prefix_string_range|].
    unfold prefix_mask in Hp. apply bind_Some in Hp as (k & _ & Hk). destruct (prefix_int k) eqn:Ek; [injection Hk as <-|]; by eapply prefix_int_range.
  - apply bind_Some in H as ([n z] & Hn & H). apply bind_Some in H as (p & Hp & [= <-]).
    assert (0 <= n < 2 ^ 128) by (pose proof (ip6_address_range _ _ _ Hn); done).
    eapply (cut_well_formed 128 _ _ n); try done. destruct m as [m|]; [by eapply prefix_string_range|injection Hp as <-; lia].
Qed.

(** An address is in the network a text names exactly when both are of one version and agree on the
    first bits, as many as the prefix says. *)
Theorem a_network_is_its_prefix s net t a :
  ip_network s = Some net -> ip_address t = Some a ->
  in_network a net = true
  ↔ width a = width (network_address net)
    ∧ Z.shiftr (value a) (width a - prefixlen net) = Z.shiftr (value (network_address net)) (width a - prefixlen net).
Proof.
  intros (Hp & Hv & Hm)%ip_network_ok Ha%ip_address_range. unfold in_network.
  destruct a as [n|n z], (network_address net) as [m|m y]; simpl in *; try (split; [done|intros [? _]; done]);
    rewrite Z.eqb_eq, <- netmask_same, Hm by lia; split; [done|by intros [_ ?]|done|by intros [_ ?]].
Qed.

Lemma a_network_is_its_prefix_witness :
  match ip_network "10.1.2.3/20", ip_address "10.1.15.9" with
  | Some net, Some a => (in_network a net = true ↔ 32 = 32 ∧ Z.shiftr (value a) 12 = Z.shiftr (value (network_address net)) 12) ∧ in_network a net = true
  | _, _ => False
  end.
Proof. exact (conj (a_network_is_its_prefix "10.1.2.3/20" _ "10.1.15.9" _ eq_refl eq_refl) eq_refl). Defined.
