(* ===== verification/Floats.v ===== *)
(** * Counting in floats

    Python adds [1.0] to a float, and reads it back with [int]: exact below 2^53, in the [SpecFloat]
    arithmetic the models compute with. And [sum] of a list of floats. *)
From S2P Require Import Prelude.

(** ** [sum] of floats: compensated (Neumaier), as CPython 3.12 adds them *)

Definition sum_step (acc : float * float) (x : float) : float * float :=
  let '(f, c) := acc in
  let t := fadd f x in
  (t, fadd c (if fleb (SFabs x) (SFabs f) then fadd (fsub f t) x else fadd (fsub x t) f)).
Definition sum_end (acc : float * float) : float :=
  let '(f, c) := acc in if negb (feqb c f_zero) && f_finite c then fadd f c else f.
Definition py_sum (xs : list float) : float := sum_end (foldl sum_step (f_zero, f_zero) xs).

(** [min(a, b)]: Python keeps the first argument unless the second is less. *)
Definition py_min (a b : float) : float := if fltb b a then b else a.


Lemma digits2_pos_spec p : 2 ^ (Z.pos (digits2_pos p) - 1) ≤ Z.pos p < 2 ^ Z.pos (digits2_pos p).
Proof.
  induction p as [p IH|p IH|]; cbn [digits2_pos]; [| |done];
    rewrite Pos2Z.inj_succ, Z.pow_succ_r by lia;
    (replace (Z.succ (Z.pos (digits2_pos p)) - 1) with (Z.succ (Z.pos (digits2_pos p) - 1)) by lia);
    rewrite Z.pow_succ_r by lia; lia.
Qed.

Lemma digits2_pos_unique p d : 0 < d → 2 ^ (d - 1) ≤ Z.pos p < 2 ^ d → Z.pos (digits2_pos p) = d.
Proof.
  intros Hd H. pose proof (digits2_pos_spec p) as Hp.
  assert (d - 1 < Z.pos (digits2_pos p)) by (apply (Z.pow_lt_mono_r_iff 2); lia).
  assert (Z.pos (digits2_pos p) - 1 < d) by (apply (Z.pow_lt_mono_r_iff 2); lia). lia.
Qed.

(** [p * 2^k] as a mantissa. *)
Definition scaled (p : positive) (k : Z) : positive := Z.to_pos (Z.pos p * 2 ^ k).

Lemma scaled_Z p k : 0 ≤ k → Z.pos (scaled p k) = Z.pos p * 2 ^ k.
Proof. intros. unfold scaled. rewrite Z2Pos.id; [done|]. pose proof (Z.pow_pos_nonneg 2 k). lia. Qed.

Lemma scaled_digits p k : 0 ≤ k → Z.pos (digits2_pos (scaled p k)) = Z.pos (digits2_pos p) + k.
Proof.
  intros Hk. apply digits2_pos_unique; [lia|]. rewrite scaled_Z by done. pose proof (digits2_pos_spec p).
  replace (Z.pos (digits2_pos p) + k - 1) with (Z.pos (digits2_pos p) - 1 + k) by lia.
  rewrite !Z.pow_add_r by lia. pose proof (Z.pow_pos_nonneg 2 k). nia.
Qed.

Lemma scaled_scaled p a b : 0 ≤ a → 0 ≤ b → scaled (scaled p a) b = scaled p (a + b).
Proof. intros. apply Pos2Z.inj. rewrite !scaled_Z, Z.pow_add_r by lia. lia. Qed.

Lemma scaled_0 p : scaled p 0 = p.
Proof. apply Pos2Z.inj. rewrite scaled_Z by done. lia. Qed.

Lemma iter_xO p d : Pos.iter xO p d = scaled p (Z.pos d).
Proof.
  apply Pos2Z.inj. rewrite scaled_Z by done. induction d as [|d IH] using Pos.peano_ind; [simpl; lia|].
  rewrite Pos.iter_succ, Pos2Z.inj_succ, Z.pow_succ_r by lia. lia.
Qed.

Lemma iter_pos_nat {A} (f : A → A) p x : iter_pos f p x = Nat.iter (Pos.to_nat p) f x.
Proof.
  revert x. induction p as [p IH|p IH|]; intros x; simpl iter_pos; [| |done]; rewrite !IH, <- Nat.iter_add.
  - rewrite Pos2Nat.inj_xI, <- Nat.iter_succ_r. f_equal. lia.
  - rewrite Pos2Nat.inj_xO. f_equal. lia.
Qed.

Lemma shr_1_scaled k p :
  Nat.iter k shr_1 {| shr_m := Z.pos (scaled p (Z.of_nat k)); shr_r := false; shr_s := false |} =
  {| shr_m := Z.pos p; shr_r := false; shr_s := false |}.
Proof.
  revert p. induction k as [|k IH]; intros p; [by rewrite scaled_0|].
  assert (scaled p (Z.of_nat (S k)) = scaled (xO p) (Z.of_nat k)) as ->.
  { apply Pos2Z.inj. rewrite !scaled_Z by lia. rewrite Nat2Z.inj_succ, Z.pow_succ_r by lia. lia. }
  rewrite Nat.iter_succ, IH. done.
Qed.

Lemma shr_exact p e q :
  0 ≤ q → shr (shr_record_of_loc (Z.pos (scaled p q)) loc_Exact) e q =
  ({| shr_m := Z.pos p; shr_r := false; shr_s := false |}, e + q).
Proof.
  intros Hq. destruct q as [|q|q]; [|simpl|lia].
  - simpl. by rewrite scaled_0, Z.add_0_r.
  - rewrite iter_pos_nat. f_equal. pose proof (shr_1_scaled (Pos.to_nat q) p) as H.
    by rewrite positive_nat_Z in H.
Qed.

Lemma fexp_53 d : -1021 ≤ d → fexp 53 1024 d = d - 53.
Proof. intros. unfold fexp, emin. lia. Qed.

(** The float of a positive integer below 2^53, normalized. *)
Definition f_canon (p : positive) : float :=
  let d := Z.pos (digits2_pos p) in S754_finite false (scaled p (53 - d)) (d - 53).

Lemma binary_round_canon p k :
  Z.pos (digits2_pos p) ≤ 53 → 0 ≤ k ≤ 1000 → binary_round 53 1024 false (scaled p k) (- k) = f_canon p.
Proof.
  intros Hd Hk. unfold binary_round, f_canon. rewrite scaled_digits by lia.
  set (d := Z.pos (digits2_pos p)) in *. assert (1 ≤ d) by lia. rewrite fexp_53 by lia.
  assert (∃ q, 0 ≤ q ∧ shl_align (scaled p k) (- k) (d + k + - k - 53) = (scaled (scaled p (53 - d)) q, d - 53 - q))
    as (q & Hq & ->).
  { unfold shl_align. destruct (d + k + - k - 53 - - k) as [|q|q] eqn:E.
    - exists 0. rewrite scaled_0. split; [done|]. f_equal; [f_equal|]; lia.
    - exists (Z.pos q). split; [done|]. rewrite scaled_scaled by lia. f_equal; [f_equal|]; lia.
    - exists 0. split; [done|]. rewrite iter_xO, scaled_0, scaled_scaled by lia. f_equal; [f_equal|]; lia. }
  unfold binary_round_aux, shr_fexp. cbn [Zdigits2]. rewrite !scaled_digits by lia. fold d.
  rewrite fexp_53 by lia. replace (d + (53 - d) + q + (d - 53 - q) - 53 - (d - 53 - q)) with q by lia.
  rewrite shr_exact by done. cbn [shr_m loc_of_shr_record round_nearest_even Zdigits2].
  rewrite scaled_digits by lia. fold d. rewrite fexp_53 by lia.
  replace (d + (53 - d) + (d - 53 - q + q) - 53 - (d - 53 - q + q)) with 0 by lia. cbn [shr shr_record_of_loc shr_m].
  rewrite (proj2 (Z.leb_le _ _)) by lia. f_equal. lia.
Qed.

Lemma digits_below p : Z.pos p < 2 ^ 53 → Z.pos (digits2_pos p) ≤ 53.
Proof.
  intros. pose proof (digits2_pos_spec p). assert (Z.pos (digits2_pos p) - 1 < 53); [|lia].
  apply (Z.pow_lt_mono_r_iff 2); lia.
Qed.

Lemma f_of_Z_canon p : Z.pos p < 2 ^ 53 → f_of_Z (Z.pos p) = f_canon p.
Proof.
  intros H. unfold f_of_Z. cbn [binary_normalize]. rewrite <- (binary_round_canon p 0); [|by apply digits_below|lia].
  by rewrite scaled_0.
Qed.

Lemma f_trunc_of_Z n : 0 ≤ n < 2 ^ 53 → f_trunc (f_of_Z n) = n.
Proof.
  intros H. destruct n as [|p|p]; [done| |lia]. rewrite f_of_Z_canon by lia. unfold f_canon, f_trunc.
  pose proof (digits_below p ltac:(lia)). set (d := Z.pos (digits2_pos p)) in *.
  rewrite scaled_Z by lia. destruct (Z.leb_spec 0 (d - 53)).
  - assert (d = 53) as -> by lia. simpl. lia.
  - replace (- (d - 53)) with (53 - d) by lia. apply Z.div_mul. pose proof (Z.pow_pos_nonneg 2 (53 - d)). lia.
Qed.

Lemma f_of_Z_succ n : 0 ≤ n → n + 1 < 2 ^ 53 → fadd (f_of_Z n) f_one = f_of_Z (n + 1).
Proof.
  intros Hn H. destruct n as [|p|p]; [done| |lia]. unfold f_one.
  change 1 with (Z.pos 1) at 1. rewrite !f_of_Z_canon by lia. unfold fadd, f_canon at 1 2. cbn [SFadd cond_Zopp].
  pose proof (digits_below p ltac:(lia)) as Hd. set (d := Z.pos (digits2_pos p)) in *.
  change (Z.pos (digits2_pos 1)) with 1. replace (Z.min (d - 53) (1 - 53)) with (-52) by lia.
  assert (∀ q, shl_align (scaled 1 (53 - 1)) (1 - 53) (-52) = (scaled 1 52, -52) ∧
    (0 ≤ 53 - q → q = d → (shl_align (scaled p (53 - q)) (q - 53) (-52)).1 = scaled p 52)) as Ha.
  { intros q. split; [done|]. intros Hq ->. unfold shl_align. destruct (-52 - (d - 53)) as [|r|r] eqn:E; simpl.
    - f_equal. lia.
    - lia.
    - rewrite iter_xO, scaled_scaled by lia. f_equal. lia. }
  destruct (Ha d) as [-> Hp]. rewrite Hp by lia. cbn [fst].
  rewrite !scaled_Z by lia. rewrite <- Z.mul_add_distr_r.
  replace (Z.pos p + 1) with (Z.pos (p + 1)) by lia. rewrite <- scaled_Z by lia. cbn [binary_normalize].
  change (-52) with (- (52)). rewrite binary_round_canon; [|apply digits_below; lia | lia].
  by rewrite <- f_of_Z_canon by lia.
Qed.

(** The difference of two finite floats is a number. *)
Lemma shr_1_nonneg r : 0 ≤ shr_m r → 0 ≤ shr_m (shr_1 r).
Proof. destruct r as [[|[p|p|]|p] rr s]; simpl; lia. Qed.

Lemma shr_nonneg r e n : 0 ≤ shr_m r → 0 ≤ shr_m (shr r e n).1.
Proof.
  intros H. destruct n as [|p|p]; simpl; [done| |done]. rewrite iter_pos_nat.
  induction (Pos.to_nat p) as [|k IH]; [done|]. rewrite Nat.iter_succ. by apply shr_1_nonneg.
Qed.

Lemma binary_round_not_nan s p e : is_nan (binary_round 53 1024 s p e) = false.
Proof.
  unfold binary_round. destruct (shl_align p e _) as [m e']. unfold binary_round_aux, shr_fexp.
  match goal with |- context [shr ?r ?e ?n] => pose proof (shr_nonneg r e n ltac:(done)) as H; destruct (shr r e n) as [r1 e1] end.
  simpl in H. assert (0 ≤ round_nearest_even (shr_m r1) (loc_of_shr_record r1)) as H1.
  { unfold round_nearest_even. destruct (loc_of_shr_record r1) as [|[]]; try lia. destruct (Z.even _); lia. }
  match goal with |- context [shr ?r ?e ?n] => pose proof (shr_nonneg r e n H1) as H2; destruct (shr r e n) as [r2 e2] end.
  simpl in H2. destruct (shr_m r2); [done | by destruct (e2 <=? _) | lia].
Qed.

Lemma fsub_finite_not_nan a b : f_finite a = true → f_finite b = true → is_nan (fsub a b) = false.
Proof.
  destruct a as [sa|sa| |sa ma ea], b as [sb|sb| |sb mb eb]; try done; [by destruct sa, sb|].
  intros _ _. unfold fsub. cbn [SFsub]. unfold binary_normalize. destruct (_ - _); [done | |]; apply binary_round_not_nan.
Qed.

(** [int(x // n)] for a finite [x] and [n > 0], below 2^51. *)
Definition f_floor_div (x : float) (n : Z) : Z :=
  match x with
  | S754_finite s m e =>
      let z := if s then Z.neg m else Z.pos m in if 0 <=? e then z * 2 ^ e / n else z / (n * 2 ^ (- e))
  | _ => 0
  end.
