(* ===== verification/Oids.v ===== *)
(** * What an OID and a varbind value say by themselves ([ingest/known_oids.py],
    [engine/correlate/severity.py])

    Membership of a subtree, the severity words of X.733 and the severity placed on a trap. A varbind
    is its OID and its value. *)
From S2P Require Import Prelude PyLib.

(** ** Subtrees *)

Definition under_subtree (oid root : string) : bool :=
  String.eqb oid root || String.prefix (root +:+ ".") oid.

(** [range(len(arcs), 0, -1)]. *)
Definition ancestors (oid : string) : list string :=
  let arcs := split "." oid in
  map (fun n => join "." (take n arcs)) (reverse (seq 1 (length arcs))).

Definition CLEAR_PAIR_SEEDS : list (string * string) :=
  [("1.3.6.1.6.3.1.1.5.3", "1.3.6.1.6.3.1.1.5.4"); ("1.3.6.1.2.1.16.0.1", "1.3.6.1.2.1.16.0.2")].

(** The pairs of the bundled pack ([trappack.clear_pairs], [fault_pairs]) are arguments. [a or b] keeps
    [a] unless it is missing or empty. *)
Definition py_or (a b : option string) : option string :=
  match a with Some s => if String.eqb s "" then b else a | None => b end.

Definition clear_of (clear_pairs : list (string * string)) (oid : string) : option string :=
  py_or (assoc oid CLEAR_PAIR_SEEDS) (assoc oid clear_pairs).

Definition fault_of (fault_pairs : list (string * string)) (oid : string) : option string :=
  py_or (fst <$> List.find (fun p => String.eqb p.2 oid) CLEAR_PAIR_SEEDS) (assoc oid fault_pairs).

Definition OCCURRENCE_NOTIFICATIONS : list (string * string) :=
  [("1.3.6.1.6.3.1.1.5.1", "coldStart"); ("1.3.6.1.6.3.1.1.5.2", "warmStart");
   ("1.3.6.1.6.3.1.1.5.5", "authenticationFailure"); ("1.3.6.1.2.1.47.2.0.1", "entConfigChange");
   ("1.3.6.1.2.1.33.2.1", "upsTrapOnBattery"); ("1.3.6.1.2.1.33.2.2", "upsTrapTestCompleted")].

(** ** Severity *)

Definition SEVERITY_VOCAB : list (string * Z) :=
  [("critical", 0); ("major", 1); ("minor", 2); ("warning", 3); ("indeterminate", 4); ("cleared", 4)].

Definition severity_rank (value : string) : option Z := assoc (lower (strip value)) SEVERITY_VOCAB.

Definition more_severe (best : option (string * Z * string)) (vb : string * string)
  : option (string * Z * string) :=
  match severity_rank vb.2 with
  | None => best
  | Some rank =>
      match best with
      | Some b => if rank <? b.1.2 then Some (lower (strip vb.2), rank, vb.1) else best
      | None => Some (lower (strip vb.2), rank, vb.1)
      end
  end.

Definition standard_severity (varbinds : list (string * string)) : option (string * Z * string) :=
  foldl more_severe None varbinds.

Definition normalize (value : string) : option (string * Z) :=
  let token := strip value in
  match severity_rank token with
  | Some rank => Some (lower token, rank)
  | None => (fun n => (token, n)) <$> py_int token
  end.

Definition STANDARD : string := "standard".
Definition LEARNED : string := "learned".

(** [severity.Placement]. *)
Record Placed := MkPlaced { value : option string; rank : option Z; source : option string }.
Definition UNPLACED : Placed := MkPlaced None None None.
Definition placed (p : Placed) : bool := bool_decide (is_Some (source p)).
Definition clears (p : Placed) : bool := bool_decide (value p = Some "cleared").

Definition place (varbinds : list (string * string)) (learned_oid : option string) : Placed :=
  match standard_severity varbinds with
  | Some s => MkPlaced (Some s.1.1) (Some s.1.2) (Some STANDARD)
  | None =>
      match learned_oid ≫= (fun oid => snd <$> List.find (fun vb => String.eqb vb.1 oid) varbinds) with
      | Some v => match normalize v with
                  | Some t => MkPlaced (Some t.1) (Some t.2) (Some LEARNED)
                  | None => UNPLACED
                  end
      | None => UNPLACED
      end
  end.

(** ** Subtrees are about arcs *)

Lemma chars_inj s t : chars s = chars t → s = t.
Proof. intros H. rewrite <- (unchars_chars s), <- (unchars_chars t). by f_equal. Qed.

Lemma prefix_spec s t : String.prefix s t = true ↔ ∃ u, t = s +:+ u.
Proof.
  split; [|intros [u ->]; apply prefix_app]. revert t. induction s as [|a s IH]; intros t H.
  - by exists t.
  - destruct t as [|b t]; [done|]. simpl in H. destruct (ascii_dec a b) as [->|]; [|done].
    destruct (IH _ H) as [u ->]. by exists u.
Qed.

Lemma join_split_chars sep l cur : join_chars sep (split_chars sep l cur) = reverse cur ++ l.
Proof.
  revert cur. induction l as [|a l IH]; intros cur; simpl; [by rewrite app_nil_r|].
  destruct (Ascii.eqb_spec a sep) as [->|].
  - specialize (IH []). destruct (split_chars sep l []) as [|p ps] eqn:E.
    + by destruct l as [|b l]; simpl in E; [|destruct (Ascii.eqb b sep)].
    + cbn [join_chars]. cbn [join_chars] in IH. by rewrite IH.
  - rewrite IH. by rewrite reverse_cons, <- app_assoc.
Qed.

Lemma split_chars_ne sep l cur : split_chars sep l cur ≠ [].
Proof. revert cur. induction l as [|a l IH]; intros cur; simpl; [done|]. by destruct (Ascii.eqb a sep). Qed.

Lemma join_chars_app sep ps qs :
  ps ≠ [] → qs ≠ [] → join_chars sep (ps ++ qs) = join_chars sep ps ++ sep :: join_chars sep qs.
Proof.
  intros Hp Hq. induction ps as [|p ps IH]; [done|]. destruct ps as [|p' ps].
  - simpl. by destruct qs.
  - change (p ++ sep :: join_chars sep ((p' :: ps) ++ qs) = (p ++ sep :: join_chars sep (p' :: ps)) ++ sep :: join_chars sep qs).
    rewrite IH by done. by rewrite <- app_assoc.
Qed.

Lemma split_chars_sep sep l1 l2 cur :
  split_chars sep (l1 ++ sep :: l2) cur = split_chars sep l1 cur ++ split_chars sep l2 [].
Proof.
  revert cur. induction l1 as [|a l1 IH]; intros cur; simpl; [by rewrite Ascii.eqb_refl|].
  destruct (Ascii.eqb a sep); simpl; by rewrite IH.
Qed.

Lemma map_chars_unchars ps : map chars (map unchars ps) = ps.
Proof. rewrite map_map. rewrite <- (map_id ps) at 2. apply map_ext, chars_unchars. Qed.

(** [oid] is in the subtree of [root] exactly when [root]'s arcs begin [oid]'s. *)
Lemma under_subtree_arcs oid root :
  under_subtree oid root = true ↔ split "." root `prefix_of` split "." oid.
Proof.
  unfold under_subtree, split. rewrite orb_true_iff, String.eqb_eq, prefix_spec. split.
  - intros [->|[u ->]]; [done|]. rewrite !chars_app. simpl. rewrite <- app_assoc. simpl.
    rewrite split_chars_sep, map_app. by eexists.
  - intros [rest H]. assert (∃ ps, split_chars "." (chars oid) [] = split_chars "." (chars root) [] ++ ps) as [ps Hps].
    { exists (map chars rest). apply (f_equal (map chars)) in H. by rewrite map_app, !map_chars_unchars in H. }
    apply (f_equal (join_chars ".")) in Hps. destruct ps as [|p ps].
    + left. rewrite app_nil_r, !join_split_chars in Hps. by apply chars_inj.
    + right. rewrite join_chars_app, !join_split_chars in Hps by (done || apply split_chars_ne).
      exists (unchars (join_chars "." (p :: ps))). apply chars_inj.
      rewrite !chars_app, chars_unchars. simpl in Hps |- *. by rewrite Hps, <- app_assoc.
Qed.

(** ** The most severe word wins *)

Definition words_said (varbinds : list (string * string)) : list (string * Z * string) :=
  omap (fun vb => (fun r => (lower (strip vb.2), r, vb.1)) <$> severity_rank vb.2) varbinds.

Lemma words_said_snoc vbs vb :
  words_said (vbs ++ [vb]) =
  words_said vbs ++ match severity_rank vb.2 with Some r => [(lower (strip vb.2), r, vb.1)] | None => [] end.
Proof. unfold words_said. rewrite omap_app. simpl. by destruct (severity_rank vb.2). Qed.

Lemma standard_severity_none varbinds : standard_severity varbinds = None → words_said varbinds = [].
Proof.
  unfold standard_severity. induction varbinds as [|vb vbs IH] using rev_ind; [done|].
  rewrite foldl_snoc, words_said_snoc. unfold more_severe at 1.
  destruct (severity_rank vb.2) as [r|]; [|intros H; by rewrite app_nil_r, IH].
  destruct (foldl more_severe None vbs) as [b|]; [by destruct (r <? b.1.2) | done].
Qed.

Lemma standard_severity_best varbinds s :
  standard_severity varbinds = Some s →
  s ∈ words_said varbinds ∧ ∀ t, t ∈ words_said varbinds → s.1.2 ≤ t.1.2.
Proof.
  revert s. induction varbinds as [|vb vbs IH] using rev_ind; [done|].
  intros s. unfold standard_severity. rewrite foldl_snoc, words_said_snoc.
  fold (standard_severity vbs). unfold more_severe.
  destruct (severity_rank vb.2) as [r|]; [|rewrite app_nil_r; apply IH].
  destruct (standard_severity vbs) as [b|] eqn:Hb.
  - destruct (IH b eq_refl) as [Hin Hmin].
    destruct (Z.ltb_spec r b.1.2) as [Hlt|Hge]; intros [= <-]; split; try set_solver;
      intros t [Ht | ->%list_elem_of_singleton]%elem_of_app; simpl; try lia; specialize (Hmin t); try apply Hmin in Ht; lia.
  - rewrite (standard_severity_none _ Hb). intros [= <-]. split; [set_solver|].
    intros t ->%list_elem_of_singleton. simpl. lia.
Qed.
