(* ===== verification/Profiles.v ===== *)
(** * Which varbind names the failed thing ([engine/correlate/varbind_accum.py],
    [engine/correlate/varbind_profile.py], and the varbind rows of [store/entities.py])

    Bounded counters per element, class and varbind, co-occurrence of the values of two varbinds, the score
    of a discriminator, and the containment chain that is promoted. [value_hash] is an argument; so is
    the order in which a set of OIDs is walked, which Python does not fix. *)
From S2P Require Import Prelude PyLib Oids.

Definition W_R : float := f_lit 35 100.
Definition W_X : float := f_lit 45 100.
Definition W_D : float := f_lit 20 100.
Definition ENTITY_MARGIN : float := f_lit 125 100.
Definition MAX_TRACKED_VARBINDS_PER_CLASS : nat := 32.
Definition MAX_ENTITY_LEVEL : nat := 3.
Definition MAX_COOCCUR_PAIRS : nat := 4096.
Definition ENTITY_PROMOTE_SCORE : float := f_lit 60 100.
Definition ENTITY_PROMOTE_OBS : Z := 200.
Definition ENTITY_MIN_DISTINCT : Z := 2.
Definition ENTITY_MAX_CARD_RATIO : float := f_lit 50 100.
Definition MAX_TRACKED_VALUES : nat := 2048.
Definition MAX_DISPLAY_VALUES : nat := 16.
Definition MAX_DISPLAY_CHARS : nat := 32.
Definition FD_THRESHOLD : float := f_lit 95 100.
Definition FD_MIN_PAIRS : Z := 100.

Definition SYS_UPTIME_OID : string := "1.3.6.1.2.1.1.3.0".
Definition SNMP_TRAP_OID : string := "1.3.6.1.6.3.1.1.4.1.0".
Definition SKIP_OIDS : list string := [SYS_UPTIME_OID; SNMP_TRAP_OID; "1.3.6.1.6.3.1.1.4.3.0"; "1.3.6.1.6.3.18.1.3.0"].

(** [a / b] on counters. *)
Definition ratio (a b : Z) : float := fdiv (f_of_Z a) (f_of_Z b).

(** [(ne_id, class_id, varbind_oid)]. *)
Abbreviation Key := (Z * Z * string)%type.

Section profiles.
Context (value_hash : string -> string).

(** ** One varbind under one class *)

Record Accumulator := MkAccum {
  n_obs : Z; n_repeat : Z; n_monotonic : Z; n_numeric : Z;
  values : gmap string Z; display : gmap string string; display_capped : bool;
  last_numeric : option Z; updated_at : float }.

Definition new_accum : Accumulator := MkAccum 0 0 0 0 ∅ ∅ false None f_zero.

Definition n_distinct (a : Accumulator) : Z := Z.of_nat (size (values a)).

Definition observe_display (vh value : string) (shown : gmap string string) (capped : bool) : gmap string string * bool :=
  if capped || bool_decide (is_Some (shown !! vh)) then (shown, capped)
  else if Nat.leb MAX_DISPLAY_VALUES (size shown) then (∅, true)
  else (<[vh := clip MAX_DISPLAY_CHARS value]> shown, capped).

(** [_as_int]: a string always has [strip]. *)
Definition observe (value : string) (now : float) (a : Accumulator) : Accumulator :=
  let vh := value_hash value in
  let '(vs, rep) := match values a !! vh with
                    | Some n => (<[vh := n + 1]> (values a), n_repeat a + 1)
                    | None => (if Nat.ltb (size (values a)) MAX_TRACKED_VALUES then <[vh := 1]> (values a) else values a, n_repeat a)
                    end in
  let '(shown, capped) := observe_display vh value (display a) (display_capped a) in
  match py_int value with
  | Some num =>
      let up := match last_numeric a with Some l => l <? num | None => false end in
      MkAccum (n_obs a + 1) rep (if up then n_monotonic a + 1 else n_monotonic a) (n_numeric a + 1) vs shown capped (Some num) now
  | None => MkAccum (n_obs a + 1) rep (n_monotonic a) (n_numeric a) vs shown capped None now
  end.

(** ** The values of two varbinds together *)

Record CoOccur := MkCo { n_co : Z; x_to_y : gmap string string; y_to_x : gmap string string; x_bad : gset string; y_bad : gset string }.
Definition new_co : CoOccur := MkCo 0 ∅ ∅ ∅ ∅.

(** The first partner of a value, and the values seen with another. *)
Definition partner (k v : string) (first : gmap string string) (bad : gset string) : gmap string string * gset string :=
  match first !! k with
  | None => (if Nat.ltb (size first) MAX_TRACKED_VALUES then <[k := v]> first else first, bad)
  | Some w => (first, if String.eqb w v then bad else {[k]} ∪ bad)
  end.

Definition co_observe (xh yh : string) (c : CoOccur) : CoOccur :=
  let '(xy, xb) := partner xh yh (x_to_y c) (x_bad c) in
  let '(yx, yb) := partner yh xh (y_to_x c) (y_bad c) in
  MkCo (n_co c + 1) xy yx xb yb.

Definition determines (child_is_x : bool) (c : CoOccur) : bool :=
  let '(tracked, bad) := if child_is_x then (x_to_y c, x_bad c) else (y_to_x c, y_bad c) in
  if (n_co c <? FD_MIN_PAIRS) || Nat.eqb (size tracked) 0 then false
  else fleb FD_THRESHOLD (ratio (Z.of_nat (size tracked) - Z.of_nat (size bad)) (Z.of_nat (size tracked))).

(** ** The profiler *)

Record Profiler := MkProfiler {
  profiles : list (Key * Accumulator);
  roles : gmap (Z * string) string;
  cooccur : gmap (Z * string * string) CoOccur }.
Definition new_profiler : Profiler := MkProfiler [] ∅ ∅.

Definition set_role (ne : Z) (oid role : string) (p : Profiler) : Profiler :=
  MkProfiler (profiles p) (<[(ne, oid) := role]> (roles p)) (cooccur p).
Definition clear_roles (ne : Z) (p : Profiler) : Profiler :=
  MkProfiler (profiles p) (filter (fun e => e.1.1 ≠ ne) (roles p)) (cooccur p).
Definition drop_ne (ne : Z) (p : Profiler) : Profiler :=
  clear_roles ne (MkProfiler (filter (fun e => e.1.1.1 ≠ ne) (profiles p)) (roles p) (filter (fun e => e.1.1.1 ≠ ne) (cooccur p))).

Definition of_class (ne class : Z) (d : list (Key * Accumulator)) : list (Key * Accumulator) :=
  filter (fun e => e.1.1.1 = ne ∧ e.1.1.2 = class) d.

(** [min(keys, key=...)]: the first of the least. *)
Fixpoint least_seen (best : Key * Accumulator) (l : list (Key * Accumulator)) : Key * Accumulator :=
  match l with
  | [] => best
  | e :: l => least_seen (if n_obs e.2 <? n_obs best.2 then e else best) l
  end.

Definition enforce_varbind_cap (ne class : Z) (d : list (Key * Accumulator)) : list (Key * Accumulator) :=
  match of_class ne class d with
  | e :: l => if Nat.ltb (length (e :: l)) MAX_TRACKED_VARBINDS_PER_CLASS then d else dict_del (least_seen e l).1 d
  | [] => d
  end.

Definition skipped (oid : string) : bool := bool_decide (oid ∈ SKIP_OIDS).

Definition observe_one (ne class : Z) (oid value : string) (now : float) (d : list (Key * Accumulator)) : list (Key * Accumulator) :=
  match assoc (ne, class, oid) d with
  | Some a => dict_set (ne, class, oid) (observe value now a) d
  | None => dict_set (ne, class, oid) (observe value now new_accum) (enforce_varbind_cap ne class d)
  end.

(** [oa < ob] on strings. *)
Definition string_ltb (a b : string) : bool := negb (string_leb b a).

Definition observe_pair (ne : Z) (a b : string * string) (m : gmap (Z * string * string) CoOccur) : gmap (Z * string * string) CoOccur :=
  if String.eqb a.1 b.1 then m
  else
    let lt := string_ltb a.1 b.1 in
    let key := if lt then (ne, a.1, b.1) else (ne, b.1, a.1) in
    let '(xh, yh) := if lt then (a.2, b.2) else (b.2, a.2) in
    match m !! key with
    | Some c => <[key := co_observe xh yh c]> m
    | None => if Nat.leb MAX_COOCCUR_PAIRS (size m) then m else <[key := co_observe xh yh new_co]> m
    end.

Fixpoint observe_cooccurrence (ne : Z) (present : list (string * string)) (m : gmap (Z * string * string) CoOccur)
  : gmap (Z * string * string) CoOccur :=
  match present with
  | [] => m
  | a :: rest => observe_cooccurrence ne rest (foldl (fun m b => observe_pair ne a b m) m rest)
  end.

Definition profile_observe (ne class : Z) (varbinds : list (string * string)) (now : float) (p : Profiler) : Profiler :=
  let kept := filter (fun vb => skipped vb.1 = false) varbinds in
  MkProfiler (foldl (fun d vb => observe_one ne class vb.1 vb.2 now d) (profiles p) kept) (roles p)
    (observe_cooccurrence ne (map (fun vb => (vb.1, value_hash vb.2)) kept) (cooccur p)).

Definition fd_parent (p : Profiler) (ne : Z) (parent child : string) : bool :=
  if String.eqb parent child then false
  else
    let lt := string_ltb child parent in
    match cooccur p !! (if lt then (ne, child, parent) else (ne, parent, child)) with
    | Some c => determines lt c
    | None => false
    end.

(** ** Scores *)

Definition accums_for (p : Profiler) (ne : Z) (oid : string) : list Accumulator :=
  map snd (filter (fun e => e.1.1.1 = ne ∧ e.1.2 = oid) (profiles p)).

Definition class_count (p : Profiler) (ne : Z) (oid : string) : Z :=
  Z.of_nat (size (list_to_set (map (fun e => e.1.1.2) (filter (fun e => e.1.1.1 = ne ∧ e.1.2 = oid) (profiles p))) : gset Z)).

(** Readable values with their counts, or nothing when a class has too many of them. *)
Definition merge_display (a : Accumulator) (merged : gmap string Z) : gmap string Z :=
  map_fold (fun vh value m => <[value := default 0 (m !! value) + default 0 (values a !! vh)]> m) merged (display a).

Definition display_values (p : Profiler) (ne : Z) (oid : string) : option (gmap string Z) :=
  let accums := accums_for p ne oid in
  if existsb display_capped accums then None
  else let merged := foldl (fun m a => merge_display a m) ∅ accums in if Nat.eqb (size merged) 0 then None else Some merged.

Definition speaks_severity (p : Profiler) (ne : Z) (oid : string) : bool :=
  match display_values p ne oid with
  | None => false
  | Some m => forallb (fun v => bool_decide (is_Some (severity_rank v))) (elements (dom m))
  end.

(** The pairs [i < j], in order. *)
Fixpoint pairs {A} (l : list A) : list (A * A) :=
  match l with [] => [] | x :: l => map (pair x) l ++ pairs l end.

Definition cross_class_support (accums : list Accumulator) : float :=
  let sets := map (fun a => dom (values a)) (filter (fun a => size (values a) ≠ 0%nat) accums) in
  if Nat.ltb (length sets) 2 then f_zero
  else
    let ps := pairs sets in
    let total := foldl (fun t (xy : gset string * gset string) => fadd t (ratio (Z.of_nat (size (xy.1 ∩ xy.2))) (Z.of_nat (size (xy.1 ∪ xy.2))))) f_zero ps in
    fdiv total (f_of_Z (Z.of_nat (length ps))).

Record Candidate := MkCandidate {
  varbind_oid : string; c_r : float; c_x : float; c_d : float; c_score : float; c_obs : Z; c_distinct : Z }.

Definition sum_of (f : Accumulator -> Z) (l : list Accumulator) : Z := foldr (fun a n => f a + n) 0 l.

Definition score (p : Profiler) (ne : Z) (oid : string) : Candidate :=
  let accums := accums_for p ne oid in
  let obs := sum_of n_obs accums in
  let distinct := Z.of_nat (size (union_list (map (fun a => dom (values a)) accums) : gset string)) in
  let r := if obs =? 0 then f_zero else ratio (sum_of n_repeat accums) obs in
  let x := cross_class_support accums in
  let d := fsub f_one (ratio (sum_of n_monotonic accums) (Z.max 1 (sum_of n_numeric accums))) in
  MkCandidate oid r x d (fadd (fadd (fmul W_R r) (fmul W_X x)) (fmul W_D d)) obs distinct.

Definition within_ratio (distinct obs : Z) : bool := fleb (f_of_Z distinct) (fmul ENTITY_MAX_CARD_RATIO (f_of_Z obs)).

Definition meets_floor (c : Candidate) : bool :=
  fleb ENTITY_PROMOTE_SCORE (c_score c) && (ENTITY_PROMOTE_OBS <=? c_obs c) && (ENTITY_MIN_DISTINCT <=? c_distinct c)
  && within_ratio (c_distinct c) (c_obs c).

(** How a set of strings is walked. *)
Context (walk : gset string -> list string).

Definition oids_of (p : Profiler) (ne : Z) : gset string :=
  list_to_set (map (fun e => e.1.2) (filter (fun e => e.1.1.1 = ne) (profiles p))).

(** [sorted(..., reverse=True)] keeps the order of equals. *)
Definition candidates (p : Profiler) (ne : Z) : list Candidate :=
  sort_by (fun a b => fleb (c_score b) (c_score a)) (map (score p ne) (walk (oids_of p ne))).

Definition promotable (p : Profiler) (ne : Z) : list Candidate :=
  filter (fun c => meets_floor c && negb (speaks_severity p ne (varbind_oid c)) = true) (candidates p ne).

Definition emerging_finer_child (p : Profiler) (ne : Z) (c : Candidate) : bool :=
  existsb (fun o => negb (speaks_severity p ne (varbind_oid o)) && (c_distinct c <? c_distinct o) && (ENTITY_MIN_DISTINCT <=? c_distinct o)
                    && (FD_MIN_PAIRS <=? c_obs o) && within_ratio (c_distinct o) (c_obs o)
                    && fd_parent p ne (varbind_oid c) (varbind_oid o)) (candidates p ne).

(** [max(c.score for c in l)], of a list that is not empty. *)
Fixpoint max_score (l : list Candidate) : float :=
  match l with [] => f_zero | [c] => c_score c | c :: l => fmax (c_score c) (max_score l) end.

(** The chain grows at its coarse end; [chain] is coarsest first. *)
Fixpoint grow_chain (p : Profiler) (ne : Z) (rest chain : list Candidate) : list Candidate :=
  match rest, chain with
  | coarser :: rest, top :: _ =>
      if Nat.leb MAX_ENTITY_LEVEL (length chain) then chain
      else if fd_parent p ne (varbind_oid coarser) (varbind_oid top) then grow_chain p ne rest (coarser :: chain)
      else grow_chain p ne rest chain
  | _, _ => chain
  end.

Definition in_chain (chain : list Candidate) (c : Candidate) : bool := bool_decide (varbind_oid c ∈ map varbind_oid chain).

Definition promotion_chain (p : Profiler) (ne : Z) : option (list Candidate) :=
  let valid := sort_by (fun a b => c_distinct a <=? c_distinct b) (promotable p ne) in
  match reverse valid with
  | [] => None
  | finest :: coarser =>
      if emerging_finer_child p ne finest then None
      else
        let chain := grow_chain p ne coarser [finest] in
        let unrelated := filter (fun c => in_chain chain c = false) valid in
        match unrelated with
        | [] => Some chain
        | _ => if fltb (c_score finest) (fmul ENTITY_MARGIN (max_score unrelated)) then None else Some chain
        end
  end.

Definition best_promotable (p : Profiler) (ne : Z) : option Candidate :=
  match promotable p ne with
  | [] => None
  | best :: second :: _ =>
      if fltb (c_score best) (fmul ENTITY_MARGIN (fmax (c_score second) (f_lit 1 1000000000))) then None else Some best
  | [best] => Some best
  end.

(** ** Rows *)

Record ProfileRow := MkProfileRow {
  pr_key : Key; pr_obs : Z; pr_repeat : Z; pr_monotonic : Z; pr_numeric : Z; pr_distinct : Z; pr_score : float;
  pr_role : option string; pr_updated : float }.

Definition flush_rows (p : Profiler) : list ProfileRow :=
  map (fun e : Key * Accumulator =>
         let '(ne, class, oid, a) := e in
         MkProfileRow (ne, class, oid) (n_obs a) (n_repeat a) (n_monotonic a) (n_numeric a) (n_distinct a)
           (c_score (score p ne oid)) (roles p !! (ne, oid)) (updated_at a)) (profiles p).

Definition prune_stale (cutoff : float) (p : Profiler) : Profiler :=
  MkProfiler (filter (fun e => fltb (updated_at e.2) cutoff = false) (profiles p)) (roles p) (cooccur p).

Definition load_row (r : ProfileRow) (p : Profiler) : Profiler :=
  MkProfiler (dict_set (pr_key r) (MkAccum (pr_obs r) (pr_repeat r) (pr_monotonic r) (pr_numeric r) ∅ ∅ false None (pr_updated r)) (profiles p))
    (roles p) (cooccur p).

(** [upsert_varbind_profiles], and the deletion of stale rows: the rows of the table by key. *)
Definition upsert_rows (rows : list ProfileRow) (t : list (Key * ProfileRow)) : list (Key * ProfileRow) :=
  foldl (fun t r => dict_set (pr_key r) r t) t rows.
Definition delete_stale_rows (cutoff : float) (t : list (Key * ProfileRow)) : list (Key * ProfileRow) :=
  filter (fun e => fltb (pr_updated e.2) cutoff = false) t.
Definition load_rows (t : list (Key * ProfileRow)) : Profiler := foldl (fun p e => load_row e.2 p) new_profiler t.
End profiles.

(** ** What the profiler keeps, and what it promotes

    Its memory is bounded whatever traps say, its functional-dependency evidence is exact while it fits,
    and a promoted chain is a chain of containments. *)

(** ** Functional dependency *)

(** [first] and [bad] after pairs: the values seen, each with its first partner, and those seen with two. *)
Record partners_exact (ps : list (string * string)) (first : gmap string string) (bad : gset string) : Prop := {
  pe_dom : dom first = list_to_set ps.*1;
  pe_in : ∀ x y, first !! x = Some y -> (x, y) ∈ ps;
  pe_bad : ∀ x, x ∈ bad ↔ ∃ y z, (x, y) ∈ ps ∧ (x, z) ∈ ps ∧ y ≠ z }.

Lemma partner_exact ps x y first bad :
  (size (list_to_set ((ps ++ [(x, y)]).*1) : gset string) <= MAX_TRACKED_VALUES)%nat ->
  partners_exact ps first bad ->
  let r := partner x y first bad in partners_exact (ps ++ [(x, y)]) r.1 r.2.
Proof.
  rewrite fmap_app, list_to_set_app_L. simpl. intros Hs [Hd Hi Hb]. unfold partner.
  assert (Hu : ∀ a b, (a, b) ∈ ps ++ [(x, y)] ↔ (a, b) ∈ ps ∨ (a = x ∧ b = y)).
  { intros a b. rewrite elem_of_app, list_elem_of_singleton. naive_solver. }
  destruct (first !! x) as [w|] eqn:E.
  - assert (x ∈ (list_to_set ps.*1 : gset string)) as Hx by (rewrite <- Hd; by apply elem_of_dom_2 in E).
    split; simpl.
    + rewrite fmap_app, list_to_set_app_L, Hd. simpl. set_solver.
    + intros a b Hab. apply Hu. left. by apply Hi.
    + intros a. setoid_rewrite Hu. destruct (String.eqb_spec w y) as [->|Hne].
      * apply Hi in E. rewrite Hb. split; [intros (b & c & ? & ? & ?); exists b, c; auto|].
        intros (b & c & [Hab|[-> ->]] & [Hac|[? ->]] & Hbc); subst; [by exists b, c|by exists b, y|by exists y, c|done].
      * rewrite elem_of_union, elem_of_singleton, Hb. apply Hi in E. split; [intros [->|(b & c & ? & ? & ?)]; [exists w, y|exists b, c]; auto|].
        intros (b & c & [Hab|[-> ->]] & [Hac|[? ->]] & Hbc); subst; [right; by exists b, c|by left..].
  - assert (x ∉ (list_to_set ps.*1 : gset string)) as Hx by (rewrite <- Hd; by apply not_elem_of_dom).
    assert (∀ z, (x, z) ∉ ps) as Hno.
    { intros z Hz. apply Hx, elem_of_list_to_set, list_elem_of_fmap. by exists (x, z). }
    replace (list_to_set ps.*1 ∪ ({[x]} ∪ ∅) : gset string) with (list_to_set ps.*1 ∪ {[x]} : gset string) in Hs by set_solver.
    rewrite size_union, size_singleton, <- Hd, size_dom in Hs by set_solver.
    destruct (Nat.ltb_spec (size first) MAX_TRACKED_VALUES); [|lia]. split; simpl.
    + rewrite dom_insert_L, fmap_app, list_to_set_app_L, Hd. simpl. set_solver.
    + intros a b Hab. apply Hu. apply lookup_insert_Some in Hab as [[<- <-]|[? Hab]]; [by right|left; by apply Hi].
    + intros a. rewrite Hb. setoid_rewrite Hu. split; [intros (b & c & ? & ? & ?); exists b, c; auto|].
      intros (b & c & [Hab|[-> ->]] & [Hac|[? ->]] & Hbc); subst; [by exists b, c|by destruct (Hno b)|by destruct (Hno c)|done].
Qed.

Definition co_after (l : list (string * string)) : CoOccur := foldl (fun c p => co_observe p.1 p.2 c) new_co l.
Definition swap_pair (p : string * string) : string * string := (p.2, p.1).
Lemma swap_fst l : (map swap_pair l).*1 = map snd l.
Proof. induction l as [|p l IH]; [done|]. exact (f_equal (cons p.2) IH). Qed.

(** The evidence after any observations whose values fit is what the observations say: which values were
    seen, and which of them with more than one partner; so one varbind is taken to determine the
    other exactly when enough were seen together and enough of its values had one partner only. *)
Theorem dependency_evidence_is_exact l (one_of : bool) :
  let values_of : gset string := list_to_set (map (if one_of then fst else snd) l) in
  let mixed x := ∃ y z, (if one_of then (x, y) else (y, x)) ∈ l ∧ (if one_of then (x, z) else (z, x)) ∈ l ∧ y ≠ z in
  (size (list_to_set (map fst l) : gset string) <= MAX_TRACKED_VALUES)%nat ->
  (size (list_to_set (map snd l) : gset string) <= MAX_TRACKED_VALUES)%nat ->
  ∃ bad : gset string, (∀ x, x ∈ bad ↔ mixed x) ∧ bad ⊆ values_of
    ∧ determines one_of (co_after l)
      = (negb (Z.of_nat (length l) <? FD_MIN_PAIRS) && negb (Nat.eqb (size values_of) 0)
         && fleb FD_THRESHOLD (ratio (Z.of_nat (size values_of) - Z.of_nat (size bad)) (Z.of_nat (size values_of)))).
Proof.
  intros values_of mixed H1 H2.
  assert (n_co (co_after l) = Z.of_nat (length l) ∧ partners_exact l (x_to_y (co_after l)) (x_bad (co_after l))
          ∧ partners_exact (map swap_pair l) (y_to_x (co_after l)) (y_bad (co_after l))) as (Hn & Hx & Hy).
  { clear values_of mixed. unfold co_after. induction l as [|[x y] l IH] using rev_ind.
    - split_and!; [done|split; simpl; try done; intros x; split; set_solver..].
    - rewrite foldl_app. simpl. destruct IH as (Hn & Hx & Hy);
        [etrans; [|exact H1]|etrans; [|exact H2]|]; try (apply subseteq_size; rewrite map_app, list_to_set_app_L; set_solver).
      set (c := foldl _ new_co l) in *. unfold co_observe.
      pose proof (partner_exact l x y _ _ H1 Hx) as Px.
      assert (map swap_pair (l ++ [(x, y)]) = map swap_pair l ++ [(y, x)]) as Hsw by (by rewrite map_app).
      pose proof (partner_exact (map swap_pair l) y x (y_to_x c) (y_bad c)) as Py. rewrite <- Hsw in Py.
      rewrite swap_fst in Py. specialize (Py H2 Hy).
      destruct (partner x y _ _) as [xy xb], (partner y x _ _) as [yx yb]. simpl in *. split_and!; [|done|done].
      rewrite Hn, length_app. simpl. lia. }
  unfold determines. rewrite Hn. destruct one_of.
  - exists (x_bad (co_after l)). destruct Hx as [Hd Hi Hb]. split_and!.
    + intros x. apply Hb.
    + intros x (y & _ & Hxy & _)%Hb. subst values_of. apply elem_of_list_to_set, list_elem_of_fmap. by exists (x, y).
    + rewrite <- size_dom, Hd. fold values_of. by destruct (_ <? _), (Nat.eqb _ _).
  - exists (y_bad (co_after l)). destruct Hy as [Hd Hi Hb].
    assert (Hsw : ∀ a b, (a, b) ∈ map swap_pair l ↔ (b, a) ∈ l).
    { intros a b. rewrite list_elem_of_fmap. split; [by intros ([] & [= -> ->] & ?)|intros ?; by exists (b, a)]. }
    split_and!.
    + intros x. rewrite Hb. subst mixed. simpl. by setoid_rewrite Hsw.
    + intros x (y & _ & Hxy%Hsw & _)%Hb. subst values_of. apply elem_of_list_to_set, list_elem_of_fmap. by exists (y, x).
    + rewrite <- size_dom, Hd, swap_fst. fold values_of. by destruct (_ <? _), (Nat.eqb _ _).
Qed.

Section laws.
Context (value_hash : string -> string).
Abbreviation observe := (observe value_hash).
Abbreviation observe_one := (observe_one value_hash).
Abbreviation profile_observe := (profile_observe value_hash).

(** ** One accumulator *)

Record accum_ok (a : Accumulator) : Prop := {
  ao_values : (size (values a) <= MAX_TRACKED_VALUES)%nat;
  ao_display : (size (display a) <= MAX_DISPLAY_VALUES)%nat;
  ao_text : map_Forall (fun _ v => (String.length v <= MAX_DISPLAY_CHARS)%nat) (display a);
  ao_repeat : 0 <= n_repeat a <= n_obs a;
  ao_monotonic : 0 <= n_monotonic a <= n_numeric a;
  ao_numeric : n_numeric a <= n_obs a }.

Lemma length_substring n m s : (String.length (String.substring n m s) <= m)%nat.
Proof.
  revert n m. induction s as [|a s IH]; intros [|n] [|m]; simpl; try lia; [specialize (IH 0%nat m)|specialize (IH n 0%nat)|specialize (IH n (S m))]; lia.
Qed.

Lemma new_accum_ok : accum_ok new_accum.
Proof. split; simpl; rewrite ?map_size_empty; try lia; [vm_compute; lia..|apply map_Forall_empty]. Qed.

Lemma observe_display_ok vh v shown capped :
  (size shown <= MAX_DISPLAY_VALUES)%nat -> map_Forall (fun _ v => (String.length v <= MAX_DISPLAY_CHARS)%nat) shown ->
  let r := observe_display vh v shown capped in
  (size r.1 <= MAX_DISPLAY_VALUES)%nat ∧ map_Forall (fun _ v => (String.length v <= MAX_DISPLAY_CHARS)%nat) r.1.
Proof.
  intros Hs Ht. unfold observe_display. destruct (_ || _) eqn:E; [done|]. apply orb_false_iff in E as [_ E%bool_decide_eq_false].
  destruct (Nat.leb_spec MAX_DISPLAY_VALUES (size shown)) as [|Hlt]; simpl.
  - split; [rewrite map_size_empty; lia|apply map_Forall_empty].
  - apply eq_None_not_Some in E. rewrite map_size_insert_None by done. split; [lia|].
    apply map_Forall_insert_2; [apply length_substring|done].
Qed.

Lemma accum_observe_ok v now a : accum_ok a -> accum_ok (observe v now a).
Proof.
  intros [H1 H2 H3 H4 H5 H6]. unfold Profiles.observe.
  pose proof (observe_display_ok (value_hash v) v (display a) (display_capped a) H2 H3) as [D1 D2].
  destruct (observe_display _ _ _ _) as [shown capped]. simpl in D1, D2.
  assert (∀ vs rep, (size vs <= MAX_TRACKED_VALUES)%nat -> 0 <= rep <= n_obs a + 1 ->
    accum_ok (match py_int v with
              | Some num => MkAccum (n_obs a + 1) rep (if match last_numeric a with Some l => l <? num | None => false end then n_monotonic a + 1 else n_monotonic a)
                              (n_numeric a + 1) vs shown capped (Some num) now
              | None => MkAccum (n_obs a + 1) rep (n_monotonic a) (n_numeric a) vs shown capped None now
              end)) as G.
  { intros vs rep Hv Hr. destruct (py_int v) as [num|]; split; simpl; try done; try lia. destruct (last_numeric a) as [l|]; [destruct (l <? num)|]; lia. }
  destruct (values a !! value_hash v) as [n|] eqn:E; apply G; try lia.
  - rewrite map_size_insert_Some by (rewrite E; eauto). done.
  - destruct (Nat.ltb_spec (size (values a)) MAX_TRACKED_VALUES); [|done]. rewrite map_size_insert_None by done. lia.
Qed.

(** While the values fit, every observation is a repeat or a new value. *)
Definition seen_values (l : list string) : gset string := list_to_set (map value_hash l).

Lemma seen_values_snoc l v : seen_values (l ++ [v]) = seen_values l ∪ {[value_hash v]}.
Proof. unfold seen_values. rewrite map_app, list_to_set_app_L. simpl. set_solver. Qed.

Lemma repeats_are_exact now l :
  (size (seen_values l) <= MAX_TRACKED_VALUES)%nat ->
  let a := foldl (fun a v => observe v now a) new_accum l in
  dom (values a) = seen_values l ∧ n_obs a = Z.of_nat (length l) ∧ n_repeat a = n_obs a - n_distinct a.
Proof.
  induction l as [|v l IH] using rev_ind; intros Hs.
  - simpl. unfold n_distinct. simpl. split_and!; [apply dom_empty_L|done|done].
  - rewrite seen_values_snoc in Hs |- *. rewrite foldl_app. simpl.
    assert (size (seen_values l) <= MAX_TRACKED_VALUES)%nat as Hl.
    { etrans; [|exact Hs]. apply subseteq_size. set_solver. }
    destruct (IH Hl) as (Hd & Ho & Hr). set (a := foldl _ new_accum l) in *. unfold Profiles.observe.
    destruct (observe_display _ _ _ _) as [shown capped].
    assert (∀ vs rep, dom vs = seen_values l ∪ {[value_hash v]} -> rep = n_obs a + 1 - Z.of_nat (size vs) ->
      let b := match py_int v with
               | Some num => MkAccum (n_obs a + 1) rep (if match last_numeric a with Some l => l <? num | None => false end then n_monotonic a + 1 else n_monotonic a)
                               (n_numeric a + 1) vs shown capped (Some num) now
               | None => MkAccum (n_obs a + 1) rep (n_monotonic a) (n_numeric a) vs shown capped None now
               end in
      dom (values b) = seen_values l ∪ {[value_hash v]} ∧ n_obs b = Z.of_nat (length (l ++ [v])) ∧ n_repeat b = n_obs b - n_distinct b) as G.
    { intros vs rep Hv Hrep. unfold n_distinct. rewrite length_app. destruct (py_int v); simpl; split_and!; try done; lia. }
    unfold n_distinct in Hr. destruct (values a !! value_hash v) as [n|] eqn:E; apply G.
    + rewrite dom_insert_L, Hd. set_solver.
    + rewrite map_size_insert_Some by (rewrite E; eauto). lia.
    + assert (value_hash v ∉ seen_values l) as Hn by (rewrite <- Hd; by apply not_elem_of_dom).
      rewrite size_union, size_singleton in Hs by set_solver. rewrite <- size_dom, Hd.
      destruct (Nat.ltb_spec (size (seen_values l)) MAX_TRACKED_VALUES); [|lia]. rewrite dom_insert_L, Hd. set_solver.
    + assert (value_hash v ∉ seen_values l) as Hn by (rewrite <- Hd; by apply not_elem_of_dom).
      rewrite size_union, size_singleton in Hs by set_solver. rewrite <- Hd, size_dom in Hs.
      destruct (Nat.ltb_spec (size (values a)) MAX_TRACKED_VALUES); [|lia]. rewrite map_size_insert_None by done. lia.
Qed.
End laws.

(** ** The profiler *)

Record co_ok (c : CoOccur) : Prop := {
  co_x : (size (x_to_y c) <= MAX_TRACKED_VALUES)%nat; co_y : (size (y_to_x c) <= MAX_TRACKED_VALUES)%nat;
  co_xb : x_bad c ⊆ dom (x_to_y c); co_yb : y_bad c ⊆ dom (y_to_x c) }.

Lemma partner_ok k v first bad :
  (size first <= MAX_TRACKED_VALUES)%nat -> bad ⊆ dom first ->
  let r := partner k v first bad in (size r.1 <= MAX_TRACKED_VALUES)%nat ∧ r.2 ⊆ dom r.1.
Proof.
  intros Hs Hb. unfold partner. destruct (first !! k) as [w|] eqn:E; simpl.
  - split; [done|]. apply elem_of_dom_2 in E. destruct (String.eqb w v); [done|]. set_solver.
  - destruct (Nat.ltb_spec (size first) MAX_TRACKED_VALUES); [|done]. rewrite map_size_insert_None, dom_insert_L by done. split; [lia|set_solver].
Qed.

Lemma co_observe_ok x y c : co_ok c -> co_ok (co_observe x y c).
Proof.
  intros [H1 H2 H3 H4]. unfold co_observe. pose proof (partner_ok x y _ _ H1 H3) as [A1 A2]. pose proof (partner_ok y x _ _ H2 H4) as [B1 B2].
  destruct (partner x y _ _), (partner y x _ _). by split.
Qed.

Lemma new_co_ok : co_ok new_co.
Proof. split; simpl; rewrite ?map_size_empty; [lia..|set_solver|set_solver]. Qed.

Definition pairs_ok (m : gmap (Z * string * string) CoOccur) : Prop := (size m <= MAX_COOCCUR_PAIRS)%nat ∧ map_Forall (fun _ => co_ok) m.

Lemma observe_pair_ok ne a b m : pairs_ok m -> pairs_ok (observe_pair ne a b m).
Proof.
  intros [Hs Hm]. unfold observe_pair. destruct (String.eqb a.1 b.1); [by split|]. destruct (if string_ltb _ _ then (a.2, b.2) else (b.2, a.2)) as [xh yh].
  set (key := if string_ltb _ _ then _ else _). destruct (m !! key) as [c|] eqn:E.
  - split; [by rewrite map_size_insert_Some by eauto|]. apply map_Forall_insert_2; [|done]. apply co_observe_ok. by apply (Hm _ _ E).
  - destruct (Nat.leb_spec MAX_COOCCUR_PAIRS (size m)); [by split|]. split; [rewrite map_size_insert_None by done; lia|].
    apply map_Forall_insert_2; [|done]. apply co_observe_ok, new_co_ok.
Qed.

Lemma observe_cooccurrence_ok ne present m : pairs_ok m -> pairs_ok (observe_cooccurrence ne present m).
Proof.
  revert m. induction present as [|a rest IH]; intros m H; simpl; [done|]. apply IH. clear IH. revert m H.
  induction rest as [|b rest IH]; intros m H; simpl; [done|]. by apply IH, observe_pair_ok.
Qed.

(** Keys are keys, no class has more varbinds than the cap, and each has a good accumulator. *)
Record table_ok (d : list (Key * Accumulator)) : Prop := {
  to_keys : NoDup d.*1;
  to_class : ∀ ne class, (length (of_class ne class d) <= MAX_TRACKED_VARBINDS_PER_CLASS)%nat;
  to_accums : Forall (fun e => accum_ok e.2) d }.

Lemma length_filter_impl {A} (P Q : A -> Prop) `{∀ x, Decision (P x)} `{∀ x, Decision (Q x)} l :
  (∀ x, P x -> Q x) -> (length (filter P l) <= length (filter Q l))%nat.
Proof.
  intros HPQ. induction l as [|x l IH]; [done|]. rewrite !filter_cons. destruct (decide (P x)) as [Hp|].
  - rewrite decide_True by auto. simpl. lia.
  - case_decide; simpl; lia.
Qed.

Lemma table_ok_filter (P : Key * Accumulator -> Prop) `{∀ e, Decision (P e)} d : table_ok d -> table_ok (filter P d).
Proof.
  intros [H1 H2 H3]. split.
  - eapply sublist_NoDup; [exact H1|]. apply (fmap_sublist fst), sublist_filter.
  - intros ne class. etrans; [|apply (H2 ne class)]. unfold of_class. rewrite list_filter_filter. apply length_filter_impl. by intros ? [].
  - apply Forall_forall. intros e [_ He]%list_elem_of_filter. rewrite Forall_forall in H3. by apply H3.
Qed.

Lemma of_class_set ne class k a d :
  length (of_class ne class (dict_set k a d))
  = if decide (k ∈ d.*1 ∨ ¬ (k.1.1 = ne ∧ k.1.2 = class)) then length (of_class ne class d) else S (length (of_class ne class d)).
Proof.
  unfold of_class. induction d as [|[k' a'] d IH]; simpl.
  - rewrite filter_cons. pose proof (not_elem_of_nil k). simpl. repeat case_decide; try done; exfalso; tauto.
  - destruct (decide (k = k')) as [->|Hn].
    + rewrite decide_True by (left; by left). rewrite !filter_cons. simpl. repeat case_decide; simpl; try done; tauto.
    + rewrite !filter_cons. simpl. destruct (decide (k'.1.1 = ne ∧ k'.1.2 = class)); simpl; rewrite IH;
        repeat case_decide; try done; exfalso; rewrite ?elem_of_cons in *; tauto.
Qed.

Lemma table_ok_set k a d :
  table_ok d -> accum_ok a -> (k ∈ d.*1 ∨ length (of_class k.1.1 k.1.2 d) < MAX_TRACKED_VARBINDS_PER_CLASS)%nat -> table_ok (dict_set k a d).
Proof.
  intros [H1 H2 H3] Ha Hk. split; [by apply dict_set_NoDup| |by apply dict_set_Forall].
  intros ne class. rewrite of_class_set. case_decide as E; [apply H2|].
  destruct (decide (k.1.1 = ne ∧ k.1.2 = class)) as [[<- <-]|]; [|tauto]. destruct Hk as [|Hk]; [tauto|]. exact Hk.
Qed.

Lemma least_seen_in b l : least_seen b l ∈ b :: l.
Proof.
  revert b. induction l as [|e l IH]; intros b; simpl; [by left|]. specialize (IH (if n_obs e.2 <? n_obs b.2 then e else b)).
  apply elem_of_cons in IH as [->|]; [|by right; right]. destruct (_ <? _); [right; by left|by left].
Qed.

(** After the cap there is room for one more. *)
Lemma enforce_room ne class d : table_ok d -> (length (of_class ne class (enforce_varbind_cap ne class d)) < MAX_TRACKED_VARBINDS_PER_CLASS)%nat.
Proof.
  intros [H1 H2 _]. unfold enforce_varbind_cap. destruct (of_class ne class d) as [|e l] eqn:E; [rewrite E; simpl; unfold MAX_TRACKED_VARBINDS_PER_CLASS; lia|].
  destruct (Nat.ltb_spec (length (e :: l)) MAX_TRACKED_VARBINDS_PER_CLASS) as [Hlt|_]; [by rewrite E|].
  pose proof (H2 ne class) as Hle. rewrite E in Hle. pose proof (least_seen_in e l) as Hv. rewrite <- E in Hv.
  set (v := least_seen e l) in *. eapply Nat.lt_le_trans; [|exact Hle]. rewrite <- E. unfold of_class, dict_del. rewrite list_filter_filter.
  apply list_elem_of_filter in Hv as [Hc Hin]. clear -Hc Hin. induction d as [|x d IH]; [by apply elem_of_nil in Hin|].
  rewrite !filter_cons. apply elem_of_cons in Hin as [<-|Hin].
  - rewrite decide_False by tauto. rewrite decide_True by done. simpl. apply Nat.lt_succ_r, length_filter_impl. by intros ? [].
  - specialize (IH Hin). repeat case_decide; simpl; try lia; tauto.
Qed.

Lemma enforce_table_ok ne class d : table_ok d -> table_ok (enforce_varbind_cap ne class d).
Proof. intros H. unfold enforce_varbind_cap. destruct (of_class ne class d); [done|]. destruct (Nat.ltb _ _); [done|]. by apply table_ok_filter. Qed.

(** ** Its memory *)

Record profiler_ok (p : Profiler) : Prop := { po_table : table_ok (profiles p); po_pairs : pairs_ok (cooccur p) }.

(** The rows a start loads: keyed, sane, and no more of a class than are tracked. *)
Record rows_ok (t : list (Key * ProfileRow)) : Prop := {
  ro_keys : Forall (fun e => pr_key e.2 = e.1) t;
  ro_distinct : NoDup t.*1;
  ro_class : ∀ ne class, (length (filter (fun e => e.1.1.1 = ne ∧ e.1.1.2 = class) t) <= MAX_TRACKED_VARBINDS_PER_CLASS)%nat;
  ro_counts : Forall (fun e => 0 <= pr_repeat e.2 <= pr_obs e.2 ∧ 0 <= pr_monotonic e.2 <= pr_numeric e.2 ∧ pr_numeric e.2 <= pr_obs e.2) t }.

Definition loaded (r : ProfileRow) : Accumulator :=
  MkAccum (pr_obs r) (pr_repeat r) (pr_monotonic r) (pr_numeric r) ∅ ∅ false None (pr_updated r).

(** A start reads each row into its accumulator. *)
Lemma load_rows_profiles t : Forall (fun e => pr_key e.2 = e.1) t -> NoDup t.*1 -> profiles (load_rows t) = map (fun e => (e.1, loaded e.2)) t.
Proof.
  intros Hk Hn. unfold load_rows. assert (∀ p, (∀ e, e ∈ t -> e.1 ∉ (profiles p).*1) ->
    profiles (foldl (fun p e => load_row e.2 p) p t) = profiles p ++ map (fun e => (e.1, loaded e.2)) t) as G; [|by rewrite G by (by intros ? _ []%elem_of_nil)].
  induction t as [|[k r] t IH]; intros p Hp; simpl; [by rewrite app_nil_r|].
  apply Forall_cons in Hk as [Hkr Hk]. apply NoDup_cons in Hn as [Hnk Hn]. simpl in Hkr.
  assert (k ∉ (profiles p).*1) as Hf by (by apply (Hp (k, r)); left).
  rewrite (IH Hk Hn); unfold load_row; simpl; rewrite Hkr, dict_set_fresh by done; [by rewrite <- app_assoc|].
  intros e He. rewrite fmap_app. simpl. intros [Hin|Hin%list_elem_of_singleton]%elem_of_app; [by apply (Hp e); [by right|]|].
  apply Hnk. rewrite <- Hin. apply list_elem_of_fmap. by exists e.
Qed.

Lemma length_filter_map {A B} (f : A -> B) (P : B -> Prop) `{∀ x, Decision (P x)} l :
  length (filter P (map f l)) = length (filter (fun x => P (f x)) l).
Proof. induction l as [|x l IH]; [done|]. simpl. rewrite !filter_cons. by case_decide; simpl; rewrite IH. Qed.

Lemma load_rows_ok t : rows_ok t -> profiler_ok (load_rows t).
Proof.
  intros [H1 H2 H3 H4]. split.
  - rewrite load_rows_profiles by done. split.
    + replace (map _ t).*1 with t.*1; [done|]. clear. induction t as [|e t IH]; [done|]. exact (f_equal (cons e.1) IH).
    + intros ne class. unfold of_class. rewrite length_filter_map. apply H3.
    + apply Forall_forall. intros e (x & -> & Hx)%list_elem_of_fmap. rewrite Forall_forall in H4. destruct (H4 x Hx) as (? & ? & ?).
      split; simpl; rewrite ?map_size_empty; try lia; try (vm_compute; lia). apply map_Forall_empty.
  - assert (∀ p, pairs_ok (cooccur p) -> pairs_ok (cooccur (foldl (fun p e => load_row e.2 p) p t))) as G.
    { clear. induction t as [|e t IH]; intros p Hp; simpl; [done|]. by apply IH. }
    apply G. split; [apply Nat.le_0_l|apply map_Forall_empty].
Qed.

Section memory.
Context (value_hash : string -> string).

Lemma observe_one_ok ne class oid value now d : table_ok d -> table_ok (observe_one value_hash ne class oid value now d).
Proof.
  intros H. unfold observe_one. destruct (assoc (ne, class, oid) d) as [a|] eqn:E.
  - apply table_ok_set; [done| |].
    + apply accum_observe_ok. apply assoc_Some in E. destruct H as [_ _ H]. rewrite Forall_forall in H. apply (H _ E).
    + left. apply assoc_Some in E. apply list_elem_of_fmap. by exists (ne, class, oid, a).
  - apply table_ok_set; [by apply enforce_table_ok|apply accum_observe_ok, new_accum_ok|]. right. simpl. by apply enforce_room.
Qed.

Lemma profile_observe_ok ne class vbs now p : profiler_ok p -> profiler_ok (profile_observe value_hash ne class vbs now p).
Proof.
  intros [H1 H2]. unfold profile_observe. split; simpl; [|by apply observe_cooccurrence_ok].
  generalize (filter (fun vb : string * string => skipped vb.1 = false) vbs). clear vbs. intros l. revert H1. generalize (profiles p).
  induction l as [|vb l IH]; intros d Hd; simpl; [done|]. by apply IH, observe_one_ok.
Qed.

Lemma pairs_ok_filter (P : Z * string * string * CoOccur -> Prop) `{∀ e, Decision (P e)} m : pairs_ok m -> pairs_ok (filter P m).
Proof.
  intros [H1 H2]. split.
  - etrans; [|exact H1]. rewrite <- !size_dom. apply subseteq_size, dom_filter_subseteq.
  - intros k c [Hk _]%map_lookup_filter_Some. by apply (H2 k c).
Qed.

(** The profiler of a running appliance: started from the saved rows, then fed any varbinds, given and
    stripped of roles, cleared of an element and pruned, in any order. *)
Inductive profiled : Profiler -> Prop :=
| pd_start t : rows_ok t -> profiled (load_rows t)
| pd_observe ne class vbs now p : profiled p -> profiled (profile_observe value_hash ne class vbs now p)
| pd_role ne oid role p : profiled p -> profiled (set_role ne oid role p)
| pd_clear ne p : profiled p -> profiled (clear_roles ne p)
| pd_drop ne p : profiled p -> profiled (drop_ne ne p)
| pd_prune cutoff p : profiled p -> profiled (prune_stale cutoff p).

(** Whatever traps carry, the profiler keeps at most 32 varbinds of a class on an element, each with at
    most 2048 values and 16 readable ones of 32 characters; at most 4096 pairs of varbinds, each with at
    most 2048 values a side; and its counters are counters: no more repeats than observations, no more
    steps up than numbers, no more numbers than observations. *)
Theorem the_profiler_is_bounded p :
  profiled p ->
  (∀ ne class, (length (of_class ne class (profiles p)) <= 32)%nat)
  ∧ (∀ k a, (k, a) ∈ profiles p ->
     (size (values a) <= 2048)%nat ∧ (size (display a) <= 16)%nat ∧ (∀ vh v, display a !! vh = Some v -> (String.length v <= 32)%nat)
     ∧ 0 <= n_repeat a <= n_obs a ∧ 0 <= n_monotonic a <= n_numeric a ∧ n_numeric a <= n_obs a)
  ∧ (Z.of_nat (size (cooccur p)) <= 4096)
  ∧ (∀ k c, cooccur p !! k = Some c -> (size (x_to_y c) <= 2048)%nat ∧ (size (y_to_x c) <= 2048)%nat
                                      ∧ (size (x_bad c) <= 2048)%nat ∧ (size (y_bad c) <= 2048)%nat).
Proof.
  intros H. assert (profiler_ok p) as [[_ Hc Ha] [Hs Hp]].
  { induction H as [t Ht|ne class vbs now p _ IH|ne oid role p _ [? ?]|ne p _ [? ?]|ne p _ [? ?]|cutoff p _ [? ?]];
      [by apply load_rows_ok|by apply profile_observe_ok|by split|by split| |].
    - split; simpl; [by apply table_ok_filter|by apply pairs_ok_filter].
    - split; simpl; [by apply table_ok_filter|done]. }
  split_and!; [exact Hc| |change 4096 with (Z.of_nat MAX_COOCCUR_PAIRS); lia|].
  - intros k a Hin. rewrite Forall_forall in Ha. destruct (Ha _ Hin) as [A1 A2 A3 A4 A5 A6]. simpl in *. split_and!; try done; try lia.
  - intros k c Hin. destruct (Hp _ _ Hin) as [C1 C2 C3 C4]. apply subseteq_size in C3, C4. rewrite size_dom in C3, C4.
    unfold MAX_TRACKED_VALUES in *. split_and!; lia.
Qed.
End memory.

(** ** What is promoted *)

Section promotion.
Context (value_hash : string -> string) (walk : gset string -> list string).
Abbreviation promotable := (promotable walk).
Abbreviation promotion_chain := (promotion_chain walk).

(** A chain under construction: contained step by step, short, and ending in its finest. *)
Record is_chain (p : Profiler) (ne : Z) (finest : Candidate) (chain : list Candidate) : Prop := {
  ic_short : (length chain <= MAX_ENTITY_LEVEL)%nat;
  ic_from : Forall (fun c => c ∈ promotable p ne) chain;
  ic_step : ∀ i a b, chain !! i = Some a -> chain !! S i = Some b -> fd_parent p ne (varbind_oid a) (varbind_oid b) = true;
  ic_finest : last chain = Some finest }.

Lemma is_chain_cons p ne finest c top chain :
  is_chain p ne finest (top :: chain) -> (length (top :: chain) < MAX_ENTITY_LEVEL)%nat -> c ∈ promotable p ne ->
  fd_parent p ne (varbind_oid c) (varbind_oid top) = true -> is_chain p ne finest (c :: top :: chain).
Proof.
  intros [H1 H2 H3 H4] Hl Hc Hp. split; [simpl in *; lia|by constructor| |done].
  intros [|i] a b Ha Hb; [cbn in Ha, Hb; by simplify_eq|]. by apply (H3 i).
Qed.

Lemma grow_chain_ok p ne finest rest chain :
  Forall (fun c => c ∈ promotable p ne) rest -> is_chain p ne finest chain -> is_chain p ne finest (grow_chain p ne rest chain).
Proof.
  intros Hr. revert chain. induction Hr as [|c rest Hc Hr IH]; intros chain Hch; [done|].
  destruct chain as [|top chain]; [done|]. cbn [grow_chain]. destruct (Nat.leb_spec MAX_ENTITY_LEVEL (length (top :: chain))); [done|].
  destruct (fd_parent p ne (varbind_oid c) (varbind_oid top)) eqn:E; [|by apply IH]. apply IH. by apply is_chain_cons.
Qed.

Lemma promotable_spec p ne c :
  c ∈ promotable p ne <-> (∃ oid, oid ∈ walk (oids_of p ne) ∧ c = score p ne oid) ∧ meets_floor c = true ∧ speaks_severity p ne (varbind_oid c) = false.
Proof.
  unfold Profiles.promotable, candidates. rewrite list_elem_of_filter, elem_of_sort_by, list_elem_of_fmap, andb_true_iff, negb_true_iff.
  split; [intros ((Hf & Hs) & oid & He & Ho)|intros ((oid & Ho & He) & Hf & Hs)]; split_and!; eauto.
Qed.

(** A promoted chain has one to three varbinds, each seen on the element, scored by what was seen of it,
    past every floor and not a severity; each determines the next finer one; the last takes the
    most values of all that could be promoted and no finer child of it is emerging; and when
    others could be promoted but stand outside the chain, it beats the best of them by the margin. *)
Theorem a_promoted_chain_is_contained p ne chain :
  promotion_chain p ne = Some chain ->
  (1 <= length chain <= 3)%nat
  ∧ Forall (fun c => c = score p ne (varbind_oid c) ∧ varbind_oid c ∈ walk (oids_of p ne)
                     ∧ meets_floor c = true ∧ speaks_severity p ne (varbind_oid c) = false) chain
  ∧ (∀ i a b, chain !! i = Some a -> chain !! S i = Some b -> fd_parent p ne (varbind_oid a) (varbind_oid b) = true)
  ∧ ∃ finest, last chain = Some finest
    ∧ (∀ c, c ∈ promotable p ne -> c_distinct c <= c_distinct finest)
    ∧ emerging_finer_child walk p ne finest = false
    ∧ (let rivals := filter (fun c => in_chain chain c = false) (sort_by (fun a b => c_distinct a <=? c_distinct b) (promotable p ne)) in
       rivals ≠ [] -> fltb (c_score finest) (fmul ENTITY_MARGIN (max_score rivals)) = false).
Proof.
  unfold Profiles.promotion_chain. set (valid := sort_by _ (promotable p ne)).
  assert (∀ c, c ∈ reverse valid <-> c ∈ promotable p ne) as Hin by (intros c; by rewrite elem_of_reverse; unfold valid; rewrite elem_of_sort_by).
  destruct (reverse valid) as [|finest coarser] eqn:E; [done|]. destruct (emerging_finer_child walk p ne finest) eqn:Em; [done|]. intros H.
  assert (is_chain p ne finest (grow_chain p ne coarser [finest])) as Hch.
  { apply grow_chain_ok; [apply Forall_forall; intros c Hc; apply Hin; by right|].
    split; [unfold MAX_ENTITY_LEVEL; simpl; lia|by repeat constructor; apply Hin; left|by intros [|i] a b|done]. }
  assert (chain = grow_chain p ne coarser [finest]
          ∧ (filter (fun c => in_chain chain c = false) valid ≠ []
             -> fltb (c_score finest) (fmul ENTITY_MARGIN (max_score (filter (fun c => in_chain chain c = false) valid))) = false)) as [-> Hm].
  { set (ch := grow_chain p ne coarser [finest]) in *. destruct (filter (fun c => in_chain ch c = false) valid) as [|u un] eqn:Eu.
    - injection H as <-. by rewrite Eu.
    - destruct (fltb _ _) eqn:Ef; [done|]. injection H as <-. by rewrite Eu. }
  destruct Hch as [H1 H2 H3 H4]. split_and!.
  - destruct (grow_chain p ne coarser [finest]); [done|simpl; lia].
  - exact H1.
  - eapply Forall_impl; [exact H2|]. intros c ((oid & Ho & ->) & Hf & Hs)%promotable_spec. by split_and!.
  - exact H3.
  - exists finest. split_and!; [done| |done|exact Hm]. intros c Hc%Hin.
    pose proof (sort_by_sorted (fun a b => c_distinct a <=? c_distinct b) (fun _ => True) (promotable p ne)) as Hs.
    specialize (Hs ltac:(by apply Forall_true) ltac:(intros; cbv beta; lia) ltac:(cbv beta; intros; lia)). fold valid in Hs.
    assert (valid = reverse coarser ++ [finest]) as Ev by (by rewrite <- (reverse_involutive valid), E, reverse_cons).
    apply elem_of_cons in Hc as [->|Hc]; [lia|]. rewrite Ev in Hs. apply elem_of_reverse in Hc.
    apply Z.leb_le, (StronglySorted_app_1_elem_of _ _ _ _ finest Hs Hc). by left.
Qed.
End promotion.

(** ** Witnesses *)

(** Fifty polls of a site with two ports, and fifty of another. *)
Definition poll (i : nat) : string * string :=
  let site := if Nat.even (Nat.div2 i) then "north" else "south" in
  (site, String.append site (if Nat.even i then "/1" else "/2")).
Definition polls (n : nat) : list (string * string) := map poll (seq 0 n).

Lemma dependency_evidence_is_exact_witness :
  determines false (co_after (polls 100)) = true /\ determines true (co_after (polls 100)) = false
  /\ ∃ bad : gset string, bad ⊆ list_to_set (map fst (polls 100)) /\ "north" ∈ bad.
Proof.
  split; [vm_compute; reflexivity|]. split; [vm_compute; reflexivity|].
  destruct (dependency_evidence_is_exact (polls 100) true) as (bad & Hb & Hs & _).
  - apply Nat.leb_le. vm_compute. reflexivity.
  - apply Nat.leb_le. vm_compute. reflexivity.
  - exists bad. split; [exact Hs|]. apply Hb. exists "north/1", "north/2".
    split; [apply (bool_decide_eq_true_1 _); vm_compute; reflexivity|]. split; [apply (bool_decide_eq_true_1 _); vm_compute; reflexivity|discriminate].
Defined.

(** An element's traps of two classes, with a site, a port of it and a severity. *)
Definition SITE : string := "1.3.6.1.4.1.9.1".
Definition PORT : string := "1.3.6.1.4.1.9.2".
Definition SEVERITY : string := "1.3.6.1.4.1.9.3".
Definition trap_of (i : nat) : list (string * string) :=
  let '(site, port) := poll i in [(SITE, site); (PORT, port); (SEVERITY, if Nat.even i then "major" else "cleared"); (SYS_UPTIME_OID, "1")].
Definition watched (n : nat) : Profiler :=
  foldl (fun p i => profile_observe id 1 (if Nat.ltb i (Nat.div2 n) then 7 else 8) (trap_of i) f_one p) new_profiler (seq 0 n).
Definition walk_of (s : gset string) : list string := elements s.

Lemma watched_profiled n : profiled id (watched n).
Proof.
  unfold watched. generalize (seq 0 n). intros l. assert (profiled id new_profiler) as H.
  { apply (pd_start id []). split; [constructor|constructor|intros; apply Nat.le_0_l|constructor]. }
  revert H. generalize new_profiler. induction l as [|i l IH]; intros p H; [exact H|]. simpl. apply IH. by constructor.
Qed.

Lemma the_profiler_is_bounded_witness :
  length (profiles (watched 40)) = 6%nat /\ (length (of_class 1 7 (profiles (watched 40))) <= 32)%nat.
Proof.
  split; [vm_compute; reflexivity|]. destruct (the_profiler_is_bounded id _ (watched_profiled 40)) as [Hc _]. exact (Hc 1 7).
Defined.

(** The port is within the site; the severity is in the way of neither. *)
Lemma a_promoted_chain_is_contained_witness :
  ∃ chain, promotion_chain walk_of (watched 240) 1 = Some chain /\ map varbind_oid chain = [SITE; PORT] /\ (1 <= length chain <= 3)%nat.
Proof.
  assert (map varbind_oid <$> promotion_chain walk_of (watched 240) 1 = Some [SITE; PORT]) as G by (vm_compute; reflexivity).
  destruct (promotion_chain walk_of (watched 240) 1) as [chain|] eqn:E; [|discriminate G]. injection G as G.
  destruct (a_promoted_chain_is_contained walk_of (watched 240) 1 chain E) as [Hl _].
  exists chain. split; [reflexivity|]. split; [exact G|exact Hl].
Defined.

(** ** What saving undoes *)

(** Thirty-three varbinds of one class, each seen once and saved. In memory the cap holds; the row of
    the one it evicted stays in the table, and the next start loads all thirty-three. *)
Definition saved_one (st : Profiler * list (Key * ProfileRow)) (i : nat) : Profiler * list (Key * ProfileRow) :=
  let p := profile_observe id 1 7 [(String (Ascii.ascii_of_nat (48 + i)) EmptyString, "x")] f_one st.1 in (p, upsert_rows (flush_rows p) st.2).

Example a_start_loads_past_the_cap :
  let '(p, rows) := foldl saved_one (new_profiler, []) (seq 0 33) in
  (length (of_class 1 7 (profiles p)), length rows, length (of_class 1 7 (profiles (load_rows rows)))) = (32%nat, 33%nat, 33%nat).
Proof. vm_compute. reflexivity. Qed.
