(* ===== verification/Episodes.v ===== *)
(** * How often two things failed together on separate occasions
    ([engine/correlate/episodes.py], [store/learned.py])

    Tables from a pair's key to its number of episodes and the instant of its last co-occurrence,
    each element's partners, and the table they are saved to. A count is a float there, exact below
    2^53 ([Floats]). *)
From S2P Require Import Prelude Floats.

Definition CO_WINDOW_S : float := f_of_Z 300.
Definition EPISODE_GAP_S : float := f_of_Z 1800.
Definition MAX_PAIRS : Z := 200000.
Definition MAX_AGE_S : float := f_of_Z (365 * 86400).
Definition TOP_PARTNERS : nat := 6.

(** A tuple of ids. *)
Abbreviation Key := (list Z).

(** [a <= b] on tuples. *)
Fixpoint key_leb (a b : Key) : bool :=
  match a, b with
  | [], _ => true
  | _ :: _, [] => false
  | x :: a, y :: b => if x =? y then key_leb a b else x <? y
  end.

Definition pair (a b : Key) : Key := if key_leb a b then a ++ b else b ++ a.

Record Tab := MkTab { counts : gmap Key (float * float); dirty : gset Key }.
Definition new_tab : Tab := MkTab ∅ ∅.

Definition prior (t : Tab) (k : Key) (now : float) : Z :=
  match counts t !! k with
  | None => 0
  | Some (c, last) => if fleb (fsub now last) EPISODE_GAP_S then f_trunc c - 1 else f_trunc c
  end.

(** Whether it opened a new episode, and the table. *)
Definition observe_tab (k : Key) (now : float) (t : Tab) : bool * Tab :=
  let d := {[k]} ∪ dirty t in
  match counts t !! k with
  | None => (true, MkTab (<[k := (f_one, now)]> (counts t)) d)
  | Some (c, last) =>
      let opened := fltb EPISODE_GAP_S (fsub now last) in
      (opened, MkTab (<[k := (if opened then fadd c f_one else c, fmax last now)]> (counts t)) d)
  end.

Definition stalest_leb (a b : Key * (float * float)) : bool :=
  if feqb a.2.2 b.2.2 then key_leb a.1 b.1 else fltb a.2.2 b.2.2.

Definition prune_tab (now : float) (t : Tab) : Tab :=
  let kept := filter (fun p => fltb MAX_AGE_S (fsub now p.2.2) = false) (counts t) in
  let over := (size kept - Z.to_nat MAX_PAIRS)%nat in
  let gone := take over (sort_by stalest_leb (map_to_list kept)) in
  MkTab (foldr delete kept gone.*1) (dirty t).

Record EpisodeMemory := MkMemory {
  ne : Tab; cls : Tab; item : Tab; partners : gmap Z (gmap Z Z) }.
Definition new_memory : EpisodeMemory := MkMemory new_tab new_tab new_tab ∅.

Definition ne_prior (m : EpisodeMemory) (a b : Z) (now : float) : Z :=
  if a =? b then 0 else prior (ne m) (pair [a] [b]) now.
Definition cls_prior (m : EpisodeMemory) (a b : Z) (now : float) : Z := prior (cls m) (pair [a] [b]) now.
Definition item_key (a : Z * Z) : Key := [a.1; a.2].
Definition item_prior (m : EpisodeMemory) (a b : Z * Z) (now : float) : Z :=
  prior (item m) (pair (item_key a) (item_key b)) now.

Definition degree (m : EpisodeMemory) (n : Z) : Z := Z.of_nat (size (default ∅ (partners m !! n))).

(** By count, the most first, then by element. *)
Definition partner_leb (a b : Z * Z) : bool := if a.2 =? b.2 then a.1 <=? b.1 else b.2 <? a.2.

Definition neighbours (m : EpisodeMemory) (n : Z) : list Z :=
  let ranked := sort_by partner_leb (map_to_list (default ∅ (partners m !! n))) in
  (List.filter (fun p => 2 <=? p.2) (take TOP_PARTNERS ranked)).*1.

Definition partner_up (x y : Z) (ps : gmap Z (gmap Z Z)) : gmap Z (gmap Z Z) :=
  let mine := default ∅ (ps !! x) in <[x := <[y := default 0 (mine !! y) + 1]> mine]> ps.

(** [a] and [b] are [(element, class)]. *)
Definition observe (a b : Z * Z) (now : float) (m : EpisodeMemory) : EpisodeMemory :=
  let i := (observe_tab (pair (item_key a) (item_key b)) now (item m)).2 in
  let c := (observe_tab (pair [a.2] [b.2]) now (cls m)).2 in
  if a.1 =? b.1 then MkMemory (ne m) c i (partners m)
  else let '(opened, n) := observe_tab (pair [a.1] [b.1]) now (ne m) in
       MkMemory n c i (if opened then partner_up b.1 a.1 (partner_up a.1 b.1 (partners m)) else partners m).

(** The partners whose pair is still counted, and the elements that have one. *)
Definition keep_partners (live : gset Key) (ps : gmap Z (gmap Z Z)) : gmap Z (gmap Z Z) :=
  filter (fun p => p.2 ≠ ∅) (map_imap (fun x mine => Some (filter (fun p => pair [x] [p.1] ∈ live) mine)) ps).

Definition prune (now : float) (m : EpisodeMemory) : EpisodeMemory :=
  let n := prune_tab now (ne m) in
  MkMemory n (prune_tab now (cls m)) (prune_tab now (item m)) (keep_partners (dom (counts n)) (partners m)).

(** ** Saved *)

(** Table, key, count and last instant. *)
Abbreviation EpisodeRow := (string * Key * Z * float)%type.

Definition flush_tab (n : string) (t : Tab) : list EpisodeRow :=
  omap (fun k => (fun e => (n, k, f_trunc e.1, e.2)) <$> counts t !! k) (sort_by key_leb (elements (dirty t))).

Definition flush (m : EpisodeMemory) : list EpisodeRow * EpisodeMemory :=
  (flush_tab "ne" (ne m) ++ flush_tab "cls" (cls m) ++ flush_tab "item" (item m),
   MkMemory (MkTab (counts (ne m)) ∅) (MkTab (counts (cls m)) ∅) (MkTab (counts (item m)) ∅) (partners m)).

Definition put_row (k : Key) (count : Z) (last : float) (t : Tab) : Tab :=
  MkTab (<[k := (f_of_Z count, last)]> (counts t)) (dirty t).

Definition partner_set (x y count : Z) (ps : gmap Z (gmap Z Z)) : gmap Z (gmap Z Z) :=
  <[x := <[y := count]> (default ∅ (ps !! x))]> ps.

Definition load_row (m : EpisodeMemory) (r : EpisodeRow) : EpisodeMemory :=
  let '(n, k, count, last) := r in
  if String.eqb n "ne" then
    MkMemory (put_row k count last (ne m)) (cls m) (item m)
      match k with
      | [x; y] => partner_set y x count (partner_set x y count (partners m))
      | _ => partners m
      end
  else if String.eqb n "cls" then MkMemory (ne m) (put_row k count last (cls m)) (item m) (partners m)
  else if String.eqb n "item" then MkMemory (ne m) (cls m) (put_row k count last (item m)) (partners m)
  else m.
Definition load (rows : list EpisodeRow) (m : EpisodeMemory) : EpisodeMemory := foldl load_row m rows.

(** The saved table, keyed on the table's name and the key. *)
Abbreviation Saved := (gmap (string * Key) (Z * float)).

Definition upsert_episodes (rows : list EpisodeRow) (s : Saved) : Saved :=
  foldl (fun s r => let '(n, k, count, last) := r in <[(n, k) := (count, last)]> s) s rows.
Definition prune_episodes (older_than : float) (s : Saved) : Saved :=
  filter (fun p => fltb p.2.2 older_than = false) s.
(** The source orders them by name and key. *)
Definition load_episodes (s : Saved) : list EpisodeRow :=
  map (fun p => (p.1.1, p.1.2, p.2.1, p.2.2)) (map_to_list s).

(** ** Keys *)

Lemma key_leb_total a b : key_leb a b = false → key_leb b a = true.
Proof.
  revert b. induction a as [|x a IH]; intros [|y b]; simpl; try done.
  rewrite (Z.eqb_sym y x). destruct (Z.eqb_spec x y); [auto|]. rewrite Z.ltb_ge, Z.ltb_lt. lia.
Qed.

Lemma key_leb_antisym a b : key_leb a b = true → key_leb b a = true → a = b.
Proof.
  revert b. induction a as [|x a IH]; intros [|y b]; simpl; try done.
  rewrite (Z.eqb_sym y x). destruct (Z.eqb_spec x y) as [->|]; [intros; f_equal; auto|].
  rewrite !Z.ltb_lt. lia.
Qed.

Lemma pair_comm a b : pair a b = pair b a.
Proof.
  unfold pair. destruct (key_leb a b) eqn:E1, (key_leb b a) eqn:E2; try done.
  - by rewrite (key_leb_antisym a b).
  - by rewrite key_leb_total in E2.
Qed.

Lemma pair_single a b : pair [a] [b] = if a <=? b then [a; b] else [b; a].
Proof. unfold pair. simpl. destruct (Z.eqb_spec a b), (Z.ltb_spec a b), (Z.leb_spec a b); try done; lia. Qed.

Lemma pair_single_inj a b x y : pair [a] [b] = pair [x] [y] → (a = x ∧ b = y) ∨ (a = y ∧ b = x).
Proof. rewrite !pair_single. destruct (a <=? b), (x <=? y); intros; simplify_eq; auto. Qed.

(** ** A burst is one episode *)

Definition prior_of (e : option (float * float)) (now : float) : Z :=
  match e with
  | None => 0
  | Some (c, last) => if fleb (fsub now last) EPISODE_GAP_S then f_trunc c - 1 else f_trunc c
  end.

Definition seen_at (e : option (float * float)) (now : float) : float * float :=
  match e with
  | None => (f_one, now)
  | Some (c, last) => (if fltb EPISODE_GAP_S (fsub now last) then fadd c f_one else c, fmax last now)
  end.

Lemma observe_tab_lookup k now t k' :
  counts (observe_tab k now t).2 !! k' = if bool_decide (k' = k) then Some (seen_at (counts t !! k) now) else counts t !! k'.
Proof.
  unfold observe_tab. destruct (counts t !! k) as [[c last]|] eqn:E; simpl;
    (case_bool_decide; [subst; by rewrite lookup_insert_eq | by rewrite lookup_insert_ne]).
Qed.

(** What one co-occurrence touches: the elements (when they differ), the classes, the items. *)
Inductive relation := R_ne | R_cls | R_item.

Definition tab_of (r : relation) (m : EpisodeMemory) : Tab :=
  match r with R_ne => ne m | R_cls => cls m | R_item => item m end.
Definition key_of (r : relation) (a b : Z * Z) : option Key :=
  match r with
  | R_ne => if a.1 =? b.1 then None else Some (pair [a.1] [b.1])
  | R_cls => Some (pair [a.2] [b.2])
  | R_item => Some (pair (item_key a) (item_key b))
  end.

(** The feature a scorer reads. *)
Definition feature (r : relation) (m : EpisodeMemory) (a b : Z * Z) (now : float) : Z :=
  match r with
  | R_ne => ne_prior m a.1 b.1 now
  | R_cls => cls_prior m a.2 b.2 now
  | R_item => item_prior m a b now
  end.

Lemma feature_key r m a b now :
  feature r m a b now = from_option (fun k => prior_of (counts (tab_of r m) !! k) now) 0 (key_of r a b).
Proof. destruct r; simpl; try done. unfold ne_prior. by destruct (a.1 =? b.1). Qed.

Lemma observe_lookup r a b now m k :
  counts (tab_of r (observe a b now m)) !! k =
  if bool_decide (key_of r a b = Some k) then Some (seen_at (counts (tab_of r m) !! k) now)
  else counts (tab_of r m) !! k.
Proof.
  assert (∀ k' t, counts (observe_tab k' now t).2 !! k =
    if bool_decide (Some k' = Some k) then Some (seen_at (counts t !! k) now) else counts t !! k) as H.
  { intros k' t. rewrite observe_tab_lookup. do 2 case_bool_decide; congruence. }
  destruct r; unfold observe; simpl.
  - destruct (Z.eqb_spec a.1 b.1); [done|].
    specialize (H (pair [a.1] [b.1]) (ne m)). by destruct (observe_tab _ now (ne m)).
  - destruct (a.1 =? b.1); simpl; [|destruct (observe_tab (pair [a.1] [b.1]) now (ne m)); simpl]; apply H.
  - destruct (a.1 =? b.1); simpl; [|destruct (observe_tab (pair [a.1] [b.1]) now (ne m)); simpl]; apply H.
Qed.


(** The co-occurrences [ops], oldest first, and those of one pair of a relation. *)
Abbreviation Op := ((Z * Z) * (Z * Z) * float)%type.
Definition observe_all (m : EpisodeMemory) (ops : list Op) : EpisodeMemory :=
  foldl (fun m o => observe o.1.1 o.1.2 o.2 m) m ops.
Definition times (r : relation) (k : Key) (ops : list Op) : list float :=
  omap (fun o => if bool_decide (key_of r o.1.1 o.1.2 = Some k) then Some o.2 else None) ops.

Lemma observe_all_lookup r k ops m :
  counts (tab_of r (observe_all m ops)) !! k =
  foldl (fun e t => Some (seen_at e t)) (counts (tab_of r m) !! k) (times r k ops).
Proof.
  revert m. induction ops as [|o ops IH]; intros m; [done|]. unfold observe_all in *. cbn [foldl]. rewrite IH, observe_lookup.
  unfold times. cbn [omap list_omap]. by case_bool_decide.
Qed.

(** Each instant comes no later than the gap after those before it. *)
Fixpoint same_episode (last : float) (ts : list float) : Prop :=
  match ts with
  | [] => True
  | t :: ts => fltb EPISODE_GAP_S (fsub t last) = false ∧ same_episode (fmax last t) ts
  end.

Definition counted (N : Z) (e : option (float * float)) : Prop :=
  ∀ c last, e = Some (c, last) → (∃ n, 1 ≤ n ≤ N ∧ c = f_of_Z n) ∧ f_finite last = true.

Lemma same_episode_kept c last ts :
  same_episode last ts →
  foldl (fun e t => Some (seen_at e t)) (Some (c, last)) ts = Some (c, foldl fmax last ts).
Proof. revert last. induction ts as [|t ts IH]; intros last; [done|]. simpl. intros [-> H]. by apply IH. Qed.

Lemma fmax_finite a b : f_finite a = true → f_finite b = true → f_finite (fmax a b) = true.
Proof. unfold fmax. by destruct (fltb a b). Qed.

Lemma gap_decided a b :
  f_finite a = true → f_finite b = true → fltb EPISODE_GAP_S (fsub a b) = negb (fleb (fsub a b) EPISODE_GAP_S).
Proof. intros. apply fltb_fleb_total; [done | by apply fsub_finite_not_nan]. Qed.

(** What one co-occurrence makes of the count: the prior is the same until the episode ends. *)
Lemma seen_at_prior N e t now' :
  counted N e → N + 1 < 2 ^ 53 → f_finite t = true →
  ∃ c last, seen_at e t = (c, last) ∧ last = from_option (fun e => fmax e.2 t) t e ∧ f_trunc c - 1 = prior_of e t ∧
    (fleb (fsub now' last) EPISODE_GAP_S = true → prior_of (Some (c, last)) now' = prior_of e t).
Proof.
  intros He HN Ht. destruct e as [[c last]|].
  - destruct (He c last eq_refl) as [(n & Hn & ->) Hl]. simpl. eexists _, _. split; [done|]. split; [done|].
    rewrite gap_decided by done.
    assert (f_trunc (if negb (fleb (fsub t last) EPISODE_GAP_S) then fadd (f_of_Z n) f_one else f_of_Z n) - 1 =
            (if fleb (fsub t last) EPISODE_GAP_S then f_trunc (f_of_Z n) - 1 else f_trunc (f_of_Z n))) as ->.
    { destruct (fleb (fsub t last) EPISODE_GAP_S); simpl; [done|]. rewrite f_of_Z_succ, !f_trunc_of_Z by lia. lia. }
    split; [done|]. by intros ->.
  - simpl. eexists _, _. split; [done|]. split; [done|]. split; [done|]. by intros ->.
Qed.

(** ** Histories *)

(** At most [N] co-occurrences so far, in the memory and in the saved table. *)
Inductive remembers : Z → EpisodeMemory → Saved → Prop :=
| re_new : remembers 0 new_memory ∅
| re_observe N m s a b now :
    remembers N m s → f_finite now = true → remembers (N + 1) (observe a b now m) s
| re_prune N m s now : remembers N m s → remembers N (prune now m) s
| re_flush N m s : remembers N m s → remembers N (flush m).2 (upsert_episodes (flush m).1 s)
| re_forget N m s now : remembers N m s → remembers N m (prune_episodes now s)
| re_restart N m s rows : remembers N m s → rows ≡ₚ load_episodes s → remembers N (load rows new_memory) s.

Definition count_at (ps : gmap Z (gmap Z Z)) (x y : Z) : option Z := default ∅ (ps !! x) !! y.
Definition partner (m : EpisodeMemory) : Z → Z → option Z := count_at (partners m).

Record mem_ok (N : Z) (m : EpisodeMemory) : Prop := {
  mo_counted : ∀ r k, counted N (counts (tab_of r m) !! k);
  mo_keys : ∀ k, is_Some (counts (ne m) !! k) → ∃ x y, x ≠ y ∧ k = pair [x] [y];
  mo_mirror : ∀ x y, partner m x y = if x =? y then None else (fun e => f_trunc e.1) <$> counts (ne m) !! pair [x] [y] }.

Definition row_ok (N : Z) (r : EpisodeRow) : Prop :=
  1 ≤ r.1.2 ≤ N ∧ f_finite r.2 = true ∧ (r.1.1.1 = "ne"%string → ∃ x y, x ≠ y ∧ r.1.1.2 = pair [x] [y]).
Definition saved_ok (N : Z) (s : Saved) : Prop :=
  ∀ n k c last, s !! (n, k) = Some (c, last) → row_ok N (n, k, c, last).

Lemma counted_weaken N N' e : N ≤ N' → counted N e → counted N' e.
Proof. intros Hn H c last E. destruct (H c last E) as [(n & ? & ?) ?]. split; [exists n; split; [lia | done] | done]. Qed.

Lemma counted_seen N e t : 0 ≤ N → counted N e → N + 1 < 2 ^ 53 → f_finite t = true → counted (N + 1) (Some (seen_at e t)).
Proof.
  intros HN0 He HN Ht c last [= E]. destruct e as [[c0 l0]|]; simpl in E.
  - destruct (He c0 l0 eq_refl) as [(n & Hn & ->) Hl]. injection E as <- <-. split; [|by apply fmax_finite].
    destruct (fltb _ _); [exists (n + 1); rewrite f_of_Z_succ by lia | exists n]; split; (lia || done).
  - injection E as <- <-. split; [exists 1; split; [lia | done] | done].
Qed.

Lemma count_at_insert x y c ps x' y' :
  count_at (<[x := <[y := c]> (default ∅ (ps !! x))]> ps) x' y' =
  if bool_decide (x' = x ∧ y' = y) then Some c else count_at ps x' y'.
Proof.
  unfold count_at. destruct (decide (x' = x)) as [->|].
  - rewrite lookup_insert_eq. simpl. destruct (decide (y' = y)) as [->|].
    + by rewrite lookup_insert_eq, bool_decide_true.
    + by rewrite lookup_insert_ne, bool_decide_false by naive_solver.
  - by rewrite lookup_insert_ne, bool_decide_false by naive_solver.
Qed.

Lemma count_at_up x y ps x' y' :
  x ≠ y → count_at ps y x = count_at ps x y →
  count_at (partner_up y x (partner_up x y ps)) x' y' =
  if bool_decide (x' = y ∧ y' = x) then Some (default 0 (count_at ps x y) + 1)
  else if bool_decide (x' = x ∧ y' = y) then Some (default 0 (count_at ps x y) + 1) else count_at ps x' y'.
Proof.
  intros Hne Hs. unfold partner_up at 1. rewrite count_at_insert. case_bool_decide.
  - do 2 f_equal. fold (count_at (partner_up x y ps) y x). unfold partner_up. rewrite count_at_insert, bool_decide_false by naive_solver.
    by rewrite Hs.
  - unfold partner_up. by rewrite count_at_insert.
Qed.

Lemma count_at_set x y c ps x' y' :
  count_at (partner_set y x c (partner_set x y c ps)) x' y' =
  if bool_decide (x' = y ∧ y' = x) then Some c else if bool_decide (x' = x ∧ y' = y) then Some c else count_at ps x' y'.
Proof. unfold partner_set at 1. rewrite count_at_insert. case_bool_decide; [done|]. unfold partner_set. by rewrite count_at_insert. Qed.

(** Which keys the two directions of a pair stand for. *)
Lemma pair_cases x y x' y' (A : Type) (u v : A) :
  (if bool_decide (x' = y ∧ y' = x) then u else if bool_decide (x' = x ∧ y' = y) then u else v) =
  if bool_decide (pair [x'] [y'] = pair [x] [y]) then u else v.
Proof.
  destruct (bool_decide (pair [x'] [y'] = pair [x] [y])) eqn:E.
  - apply bool_decide_eq_true, pair_single_inj in E as [[-> ->]|[-> ->]]; repeat case_bool_decide; naive_solver.
  - apply bool_decide_eq_false in E. rewrite !bool_decide_false; [done | |].
    + intros [-> ->]. done.
    + intros [-> ->]. destruct E. apply pair_comm.
Qed.

Lemma pair_ne x y : x ≠ y → (x =? y) = false.
Proof. apply Z.eqb_neq. Qed.

Lemma episode_observe_ok N m a b now :
  0 ≤ N → N + 1 < 2 ^ 53 → f_finite now = true → mem_ok N m → mem_ok (N + 1) (observe a b now m).
Proof.
  intros HN0 HN Hf [H1 H2 H3]. split.
  - intros r k. rewrite observe_lookup. case_bool_decide; [by apply counted_seen | apply (counted_weaken N); [lia | apply H1]].
  - intros k. change (ne (observe a b now m)) with (tab_of R_ne (observe a b now m)). rewrite observe_lookup.
    case_bool_decide as Hk; [|apply H2]. intros _. simpl in Hk. destruct (Z.eqb_spec a.1 b.1); simplify_eq. eauto.
  - intros x y. change (counts (ne (observe a b now m)) !! pair [x] [y])
      with (counts (tab_of R_ne (observe a b now m)) !! pair [x] [y]). rewrite observe_lookup. simpl key_of.
    unfold observe. destruct (Z.eqb_spec a.1 b.1) as [|Hab]; [rewrite bool_decide_false by done; apply H3|].
    pose proof (H3 a.1 b.1) as Hm. pose proof (H1 R_ne (pair [a.1] [b.1])) as Hc. rewrite pair_ne in Hm by done.
    rewrite (bool_decide_ext (Some (pair [a.1] [b.1]) = Some (pair [x] [y])) (pair [x] [y] = pair [a.1] [b.1]))
      by (split; congruence).
    assert (partner m b.1 a.1 = partner m a.1 b.1) as Hs by (by rewrite !H3, Z.eqb_sym, pair_comm).
    specialize (H3 x y).
    assert (bool_decide (pair [x] [y] = pair [a.1] [b.1]) = true → (x =? y) = false) as Hxy.
    { intros [[-> ->]|[-> ->]]%bool_decide_eq_true%pair_single_inj; by apply pair_ne. }
    unfold observe_tab. simpl in Hc, Hm. destruct (counts (ne m) !! pair [a.1] [b.1]) as [[c last]|] eqn:E; cbn [tab_of].
    + destruct (Hc c last eq_refl) as [(n & Hn & ->) _]. destruct (fltb EPISODE_GAP_S (fsub now last)) eqn:Eg.
      * unfold partner at 1. cbn [partners]. rewrite count_at_up, pair_cases by done. fold (partner m). rewrite Hm, H3.
        destruct (bool_decide (pair [x] [y] = pair [a.1] [b.1])) eqn:Ek; [|done]. rewrite Hxy by done.
        apply bool_decide_eq_true in Ek as ->. rewrite E.
        cbn [seen_at fmap option_fmap option_map fst default from_option]. unfold id.
        rewrite Eg, f_of_Z_succ, !f_trunc_of_Z by lia. done.
      * unfold partner at 1. cbn [partners]. fold (partner m). rewrite H3.
        destruct (bool_decide (pair [x] [y] = pair [a.1] [b.1])) eqn:Ek; [|done]. rewrite Hxy by done.
        apply bool_decide_eq_true in Ek as ->. rewrite E.
        cbn [seen_at fmap option_fmap option_map fst]. by rewrite Eg.
    + unfold partner at 1. cbn [partners]. rewrite count_at_up, pair_cases by done. fold (partner m). rewrite Hm, H3.
      destruct (bool_decide (pair [x] [y] = pair [a.1] [b.1])) eqn:Ek; [|done]. rewrite Hxy by done.
      by apply bool_decide_eq_true in Ek as ->; rewrite E.
Qed.

Lemma prune_tab_sub now t k e : counts (prune_tab now t) !! k = Some e → counts t !! k = Some e.
Proof.
  unfold prune_tab. simpl. generalize (take (size (filter (fun p => fltb MAX_AGE_S (fsub now p.2.2) = false) (counts t)) - Z.to_nat MAX_PAIRS)
    (sort_by stalest_leb (map_to_list (filter (fun p => fltb MAX_AGE_S (fsub now p.2.2) = false) (counts t))))).*1.
  intros gone H. assert (filter (fun p => fltb MAX_AGE_S (fsub now p.2.2) = false) (counts t) !! k = Some e) as Hf.
  { induction gone as [|g gone IH]; [done|]. simpl in H. apply lookup_delete_Some in H as [_ H]. auto. }
  by apply map_lookup_filter_Some in Hf as [? _].
Qed.

Lemma keep_partners_at live ps x y :
  count_at (keep_partners live ps) x y = if bool_decide (pair [x] [y] ∈ live) then count_at ps x y else None.
Proof.
  unfold count_at, keep_partners. set (f := map_imap _ ps).
  assert (default ∅ (filter (fun p => p.2 ≠ ∅) f !! x) = default ∅ (f !! x)) as ->.
  { destruct (f !! x) as [mine|] eqn:E; simpl.
    - destruct (decide (mine = ∅)) as [->|Hne].
      + rewrite (proj2 (map_lookup_filter_None _ _ _)); [done|]. right. intros z Hz Hne. simpl in Hne. congruence.
      + by rewrite (proj2 (map_lookup_filter_Some (fun p : Z * gmap Z Z => p.2 ≠ ∅) f x mine) (conj E Hne)).
    - by rewrite (proj2 (map_lookup_filter_None _ _ _)) by (by left). }
  subst f. rewrite map_lookup_imap. destruct (ps !! x) as [mine|]; simpl; [|by case_bool_decide].
  case_bool_decide as Hd.
  - destruct (mine !! y) as [c|] eqn:E; [by apply map_lookup_filter_Some | by apply map_lookup_filter_None; left].
  - apply map_lookup_filter_None. right. intros c _. done.
Qed.

Lemma prune_partner now m x y :
  partner (prune now m) x y =
  if bool_decide (pair [x] [y] ∈ dom (counts (prune_tab now (ne m)))) then partner m x y else None.
Proof. apply keep_partners_at. Qed.

Lemma prune_ok N m now : mem_ok N m → mem_ok N (prune now m).
Proof.
  intros [H1 H2 H3]. split.
  - intros r k c last H. apply (H1 r k). destruct r; simpl in *; by apply prune_tab_sub in H.
  - intros k [e He]. apply H2. exists e. by apply prune_tab_sub in He.
  - intros x y. rewrite prune_partner, H3. destruct (x =? y); [by case_bool_decide|].
    cbn [ne prune]. case_bool_decide as Hd.
    + apply elem_of_dom in Hd as [e He]. by rewrite He, (prune_tab_sub _ _ _ _ He).
    + by apply not_elem_of_dom in Hd as ->.
Qed.

Lemma put_row_lookup k c last t k' : counts (put_row k c last t) !! k' = if bool_decide (k' = k) then Some (f_of_Z c, last) else counts t !! k'.
Proof. simpl. case_bool_decide; [subst; by rewrite lookup_insert_eq | by rewrite lookup_insert_ne]. Qed.

Lemma put_row_counted N k c last t :
  1 ≤ c ≤ N → f_finite last = true → (∀ k, counted N (counts t !! k)) → ∀ k', counted N (counts (put_row k c last t) !! k').
Proof. intros Hc Hl H k'. rewrite put_row_lookup. case_bool_decide; [|apply H]. intros ? ? [= <- <-]. eauto. Qed.

Lemma load_row_ok N m r : N < 2 ^ 53 → mem_ok N m → row_ok N r → mem_ok N (load_row m r).
Proof.
  destruct r as [[[n k] c] last]. intros HN [H1 H2 H3] (Hc & Hl & Hn). simpl in Hc, Hl, Hn. unfold load_row.
  destruct (String.eqb_spec n "ne") as [->|]; [|destruct (String.eqb n "cls"); [|destruct (String.eqb n "item"); [|done]]];
    [| split; simpl; [|done|done].. ];
    [| intros []; simpl; try apply (H1 R_ne); try apply (H1 R_cls); try apply (H1 R_item); apply put_row_counted; try done;
         try apply (H1 R_cls); apply (H1 R_item)..].
  destruct Hn as (x & y & Hxy & Hk); [done|]. split.
  - intros []; cbn [tab_of ne cls item]; [apply put_row_counted; [done|done|apply (H1 R_ne)] | apply (H1 R_cls) | apply (H1 R_item)].
  - intros k'. cbn [ne]. rewrite put_row_lookup. case_bool_decide; [subst; eauto | apply H2].
  - intros x' y'. cbn [ne]. rewrite put_row_lookup. unfold partner. cbn [partners].
    assert (∃ u v, k = [u; v] ∧ ∀ (P : Type) (p q : P),
      (if bool_decide (x' = v ∧ y' = u) then p else if bool_decide (x' = u ∧ y' = v) then p else q) =
      (if bool_decide (pair [x'] [y'] = k) then p else q)) as (u & v & -> & Huv).
    { subst k. rewrite (pair_single x y). destruct (Z.leb_spec x y); [exists x, y | exists y, x]; (split; [done|]);
        intros P p q; rewrite pair_cases; rewrite !pair_single;
        (destruct (Z.leb_spec x y); try lia); (destruct (Z.leb_spec y x); try lia); done. }
    rewrite count_at_set. rewrite Huv. fold (partner m). rewrite H3.
    destruct (decide (pair [x'] [y'] = [u; v])) as [Hd|Hd];
      [rewrite !bool_decide_true by done | by rewrite !bool_decide_false by done].
    rewrite pair_ne; [simpl; by rewrite f_trunc_of_Z by lia|]. intros ->.
    rewrite Hk, pair_single, Z.leb_refl in Hd. symmetry in Hd. rewrite pair_single in Hd. destruct (x <=? y); simplify_eq.
Qed.

Lemma new_memory_ok N : mem_ok N new_memory.
Proof.
  split; [by intros [] | by intros k [] |]. intros x y. unfold partner, count_at. simpl.
  rewrite !lookup_empty. simpl. by destruct (x =? y).
Qed.

Lemma load_ok N rows : N < 2 ^ 53 → Forall (row_ok N) rows → mem_ok N (load rows new_memory).
Proof.
  intros HN Hr. unfold load. pose proof (new_memory_ok N) as H. revert H. generalize new_memory.
  induction Hr as [|r rows Hr Hrs IH]; intros m H; [done|]. apply IH. by apply load_row_ok.
Qed.

Lemma flush_rows_ok N m : N < 2 ^ 53 → mem_ok N m → Forall (row_ok N) (flush m).1.
Proof.
  intros HN [H1 H2 _]. apply Forall_forall. intros r Hr. unfold flush in Hr. cbn [fst] in Hr.
  assert (∀ n t, (∀ k, counted N (counts t !! k)) → (n = "ne"%string → ∀ k, is_Some (counts t !! k) → ∃ x y, x ≠ y ∧ k = pair [x] [y]) →
    r ∈ flush_tab n t → row_ok N r) as Ht.
  { intros n t Hc Hn (k & _ & Hk)%list_elem_of_omap. destruct (counts t !! k) as [[c last]|] eqn:E; simplify_eq/=.
    destruct (Hc k c last E) as [(z & Hz & ->) Hl]. split; [simpl; rewrite f_trunc_of_Z by lia; done|]. split; [done|].
    intros Hne. apply (Hn Hne k). by rewrite E. }
  rewrite !elem_of_app in Hr. destruct Hr as [Hr|[Hr|Hr]]; eapply Ht; try exact Hr; try done;
    [apply (H1 R_ne) | apply (H1 R_cls) | apply (H1 R_item)].
Qed.

Lemma upsert_ok N rows s : Forall (row_ok N) rows → saved_ok N s → saved_ok N (upsert_episodes rows s).
Proof.
  intros Hr. unfold upsert_episodes. revert s. induction Hr as [|[[[n k] c] last] rows Hr Hrs IH]; intros s Hs; [done|].
  apply IH. intros n' k' c' l' [[[= <- <-] [= <- <-]]|[_ H]]%lookup_insert_Some; [done | by apply Hs].
Qed.

Lemma row_ok_weaken N N' r : N ≤ N' → row_ok N r → row_ok N' r.
Proof. intros Hn (? & ? & ?). split; [lia | done]. Qed.

Lemma remembers_ok N m s : remembers N m s → N < 2 ^ 53 → 0 ≤ N ∧ mem_ok N m ∧ saved_ok N s.
Proof.
  intros H. induction H as [|N m s a b now H IH Hf|N m s now H IH|N m s H IH|N m s now H IH|N m s rows H IH Hr]; intros HN.
  - split; [lia|]. split; [apply new_memory_ok|]. by intros n k c l.
  - destruct IH as (H0 & Hm & Hs); [lia|]. split; [lia|]. split; [by apply episode_observe_ok|].
    intros n k c l E. apply (row_ok_weaken N); [lia | by apply Hs].
  - destruct IH as (H0 & Hm & Hs); [lia|]. split; [lia|]. split; [by apply prune_ok | done].
  - destruct IH as (H0 & Hm & Hs); [lia|]. split; [lia|]. split; [|apply upsert_ok; [by apply flush_rows_ok | done]].
    destruct Hm as [H1 H2 H3]. split; [|done|done]. intros []; [apply (H1 R_ne) | apply (H1 R_cls) | apply (H1 R_item)].
  - destruct IH as (H0 & Hm & Hs); [lia|]. split; [lia|]. split; [done|].
    intros n k c l [E _]%map_lookup_filter_Some. by apply Hs.
  - destruct IH as (H0 & Hm & Hs); [lia|]. split; [lia|]. split; [|done]. apply load_ok; [done|].
    rewrite Hr. apply Forall_forall. intros r. unfold load_episodes. rewrite list_elem_of_fmap.
    intros ([[n k] [c l]] & -> & E%elem_of_map_to_list). by apply Hs.
Qed.

(** A burst does not vote for itself. However many co-occurrences of whatever elements and classes are
    observed, what a scorer reads of a pair while its episode lasts is what it read at the first of
    them: the separate occasions before it. A pair with no co-occurrence among them is unchanged. *)
Theorem a_burst_does_not_vote r N (m : EpisodeMemory) s ops a b now
    (Hm : remembers N m s) (HN : N + 1 < 2 ^ 53) (Hk : is_Some (key_of r a b)) :
  match times r (default [] (key_of r a b)) ops with
  | [] => feature r (observe_all m ops) a b now = feature r m a b now
  | t :: ts =>
      let last := from_option (fun e => fmax e.2 t) t (counts (tab_of r m) !! default [] (key_of r a b)) in
      f_finite t = true → same_episode last ts → fleb (fsub now (foldl fmax last ts)) EPISODE_GAP_S = true →
      feature r (observe_all m ops) a b now = feature r m a b t
  end.
Proof.
  destruct (remembers_ok _ _ _ Hm) as (_ & [Hc _ _] & _); [lia|].
  destruct Hk as [k Hk]. pose proof (observe_all_lookup r k ops m) as H. rewrite Hk. simpl.
  rewrite !feature_key, Hk. simpl. rewrite H. destruct (times r k ops) as [|t ts]; [done|].
  intros Ht Hs Hnow. rewrite feature_key, Hk. cbn [foldl from_option].
  destruct (seen_at_prior N _ t (foldl fmax (from_option (fun e => fmax e.2 t) t (counts (tab_of r m) !! k)) ts) (Hc r k) HN Ht)
    as (c & last & Ec & El & Hp & _).
  rewrite Ec, El, same_episode_kept by done. simpl. by rewrite Hnow.
Qed.

Lemma neighbours_spec m x y : y ∈ neighbours m x → ∃ c, partner m x y = Some c ∧ 2 ≤ c.
Proof.
  unfold neighbours. intros ([y' c] & -> & Hp)%list_elem_of_fmap.
  apply list_elem_of_In, filter_In in Hp as [Hp%list_elem_of_In Hc]. exists c.
  assert ((y', c) ∈ sort_by partner_leb (map_to_list (default ∅ (partners m !! x)))) as Hs.
  { rewrite <- (take_drop TOP_PARTNERS (sort_by _ _)). apply elem_of_app. by left. }
  apply elem_of_sort_by, elem_of_map_to_list in Hs. split; [exact Hs | by apply Z.leb_le].
Qed.

Lemma length_filter_le {A} (f : A → bool) l : (length (List.filter f l) ≤ length l)%nat.
Proof. induction l as [|x l IH]; simpl; [done|]. destruct (f x); simpl; lia. Qed.

(** Through co-occurrences, prunes, saves and restarts, an element's partners are the elements it is
    counted with, each with the same count, so what recall takes for learned neighbours are at most
    six elements this one failed with on two or more separate occasions. *)
Theorem partners_mirror_the_counts N m s (Hm : remembers N m s) (HN : N < 2 ^ 53) :
  (∀ x y, partner m x y = if x =? y then None else (fun e => f_trunc e.1) <$> counts (ne m) !! pair [x] [y]) ∧
  (∀ x y, y ∈ neighbours m x → x ≠ y ∧ ∃ n last, 2 ≤ n ∧ counts (ne m) !! pair [x] [y] = Some (f_of_Z n, last)) ∧
  (∀ x, (length (neighbours m x) ≤ 6)%nat).
Proof.
  destruct (remembers_ok _ _ _ Hm HN) as (_ & [Hc _ Hp] & _). split; [done|]. split.
  - intros x y (c & Hxy & Hc2)%neighbours_spec. rewrite Hp in Hxy. destruct (Z.eqb_spec x y); [done|]. split; [done|].
    destruct (counts (ne m) !! pair [x] [y]) as [[f last]|] eqn:E; simplify_eq/=.
    destruct (Hc R_ne _ f last E) as [(z & Hz & ->) _]. rewrite f_trunc_of_Z in Hc2 by lia. eauto.
  - intros x. unfold neighbours. rewrite length_fmap. etransitivity; [apply length_filter_le|]. rewrite length_take. unfold TOP_PARTNERS. lia.
Qed.

(** ** Concrete histories *)

(** Elements 1 and 2 fail together at 1000 s, at 1100 s, and again two hours later. *)
Definition ops1 : list Op := [((1, 7), (2, 8), f_of_Z 1000); ((1, 7), (2, 8), f_of_Z 1100)].
Definition m1 : EpisodeMemory := observe_all new_memory ops1.
Definition m2 : EpisodeMemory := observe_all m1 [((2, 8), (1, 7), f_of_Z 8300)].

Lemma m1_remembers : remembers 2 m1 ∅.
Proof. apply (re_observe 1); [apply (re_observe 0); [apply re_new | done] | done]. Qed.

Lemma a_burst_does_not_vote_witness :
  remembers 2 m1 ∅ ∧ feature R_ne m2 (1, 7) (2, 8) (f_of_Z 8400) = 1 ∧
  feature R_ne m2 (1, 7) (2, 8) (f_of_Z 8400) = feature R_ne m1 (1, 7) (2, 8) (f_of_Z 8300).
Proof.
  split; [exact m1_remembers|]. split; [vm_compute; reflexivity|].
  apply (a_burst_does_not_vote R_ne 2 m1 ∅ [((2, 8), (1, 7), f_of_Z 8300)] (1, 7) (2, 8) (f_of_Z 8400) m1_remembers);
    [lia | by eexists | reflexivity | exact I | vm_compute; reflexivity].
Defined.

Lemma partners_mirror_the_counts_witness :
  remembers 3 m2 ∅ ∧ neighbours m2 1 = [2] ∧
  ∃ n last, 2 ≤ n ∧ counts (ne m2) !! pair [1] [2] = Some (f_of_Z n, last).
Proof.
  assert (remembers 3 m2 ∅) as H by (apply (re_observe 2); [exact m1_remembers | done]).
  split; [exact H|]. split; [vm_compute; reflexivity|].
  destruct (partners_mirror_the_counts 3 m2 ∅ H) as (_ & Hn & _); [lia|].
  destruct (Hn 1 2) as [_ Hx]; [by_eval | exact Hx].
Defined.
