(* ===== verification/Candidates.v ===== *)
(** * Which alarms an arriving alarm is compared with
    ([engine/correlate/pairs.py], [engine/correlate/retrieval.py])

    The windowed alarm, the newest live alarms of the window, and the bounded rings by element, OID
    parent and named address. A deque is a list, oldest first. *)
From S2P Require Import Prelude PyLib.

Definition WINDOW_S : float := f_of_Z 120.
Definition MAX_CANDIDATES : Z := 100.

Record WindowAlarm := MkWindowAlarm {
  alarm_id : Z; class_id : Z; device_id : Z; ts : float; entity_id : Z; oid_root : string;
  arcs : list string; severity_rank : Z; chatter : Z; source : string; refs : gset string }.

(** An entity left at 0 is the device. *)
Definition window_alarm (alarm_id class_id device_id : Z) (ts : float) (entity_id : Z) (oid_root : string)
    (arcs : list string) (severity_rank chatter : Z) (source : string) (refs : gset string) : WindowAlarm :=
  MkWindowAlarm alarm_id class_id device_id ts (if entity_id =? 0 then device_id else entity_id)
    oid_root arcs severity_rank chatter source refs.

(** ** The window *)

Definition aged (horizon now : float) (a : WindowAlarm) : bool := fltb horizon (fsub now (ts a)).
Definition is_live (live : option (gset Z)) (a : WindowAlarm) : bool :=
  from_option (fun l => bool_decide (alarm_id a ∈ l)) true live.

(** Newest first, what is left of the window and what was taken of it. *)
Fixpoint select_go (now window_s : float) (max : Z) (live : option (gset Z)) (newest : list WindowAlarm)
    (recent : list WindowAlarm) : list WindowAlarm :=
  match newest with
  | [] => recent
  | a :: older =>
      if aged window_s now a then recent
      else if negb (is_live live a) then select_go now window_s max live older recent
      else let recent := recent ++ [a] in
           if max <=? Z.of_nat (length recent) then recent else select_go now window_s max live older recent
  end.

Definition select_candidates (window : list WindowAlarm) (now window_s : float) (max : Z) (live : option (gset Z))
  : list WindowAlarm := rev (select_go now window_s max live (rev window) []).

(** ** The rings *)

Definition RING_S : float := f_of_Z 3600.
Definition PER_NE : nat := 24.
Definition PER_PARENT : nat := 16.
Definition PER_REF : nat := 8.
Definition PER_NEIGHBOUR : nat := 6.
Definition MAX_RECALL : nat := 64.

Definition parent_of (arcs : list string) : list string := if (1 <? length arcs)%nat then removelast arcs else arcs.

(** [deque(maxlen=n).append]. *)
Definition ring_append (n : nat) (a : WindowAlarm) (ring : list WindowAlarm) : list WindowAlarm :=
  drop (length ring + 1 - n) (ring ++ [a]).

Section rings.
Context {K : Type} `{Countable K}.
Definition ring_add (n : nat) (k : K) (a : WindowAlarm) (rs : gmap K (list WindowAlarm)) : gmap K (list WindowAlarm) :=
  <[k := ring_append n a (default [] (rs !! k))]> rs.
(** A ring whose newest entry is past the horizon. *)
Definition stale (now : float) (ring : list WindowAlarm) : bool :=
  match last ring with None => true | Some a => aged RING_S now a end.
Definition rings_prune (now : float) (rs : gmap K (list WindowAlarm)) : gmap K (list WindowAlarm) := filter (fun p => stale now p.2 = false) rs.
End rings.

Record CandidateIndex := MkIndex {
  by_ne : gmap Z (list WindowAlarm); by_parent : gmap (list string) (list WindowAlarm);
  by_named : gmap string (list WindowAlarm); ne_of : gmap string Z }.
Definition new_index : CandidateIndex := MkIndex ∅ ∅ ∅ ∅.

Definition add (a : WindowAlarm) (x : CandidateIndex) : CandidateIndex :=
  MkIndex (ring_add PER_NE (device_id a) a (by_ne x))
    (ring_add PER_PARENT (parent_of (arcs a)) a (by_parent x))
    (foldl (fun rs r => ring_add PER_REF r a rs) (by_named x) (elements (refs a)))
    (if String.eqb (source a) "" then ne_of x else <[source a := device_id a]> (ne_of x)).

(** The ids in every ring. *)
Definition ring_ids (x : CandidateIndex) : gset Z :=
  list_to_set (map alarm_id (concat ((map_to_list (by_ne x)).*2 ++ (map_to_list (by_parent x)).*2 ++ (map_to_list (by_named x)).*2))).

Definition with_budget (ring : option (list WindowAlarm)) (budget : nat) : list (list WindowAlarm * nat) :=
  match ring with Some r => [(r, budget)] | None => [] end.

(** The rings [recall] reads, in order, each with its budget. *)
Definition rings_for (new : WindowAlarm) (neighbours : list Z) (x : CandidateIndex) : list (list WindowAlarm * nat) :=
  with_budget (by_ne x !! device_id new) PER_NE ++
  with_budget (by_parent x !! parent_of (arcs new)) PER_PARENT ++
  with_budget (if String.eqb (source new) "" then None else by_named x !! source new) PER_REF ++
  concat (map (fun r => match ne_of x !! r with
                        | Some n => if n =? device_id new then [] else with_budget (by_ne x !! n) PER_REF
                        | None => []
                        end) (sort_by string_leb (elements (refs new)))) ++
  concat (map (fun n => with_budget (by_ne x !! n) PER_NEIGHBOUR) neighbours).

Section recalling.
Context (new : WindowAlarm) (live exclude : gset Z).

(** What a ring may not propose: the newcomer, what is proposed, what the window has, what is not live. *)
Definition skipped (out : list WindowAlarm) (a : WindowAlarm) : bool :=
  (alarm_id a =? alarm_id new) || bool_decide (alarm_id a ∈ map alarm_id out)
  || bool_decide (alarm_id a ∈ exclude) || negb (bool_decide (alarm_id a ∈ live)).

(** One ring, newest first; [out] is what has been proposed and [seen] its ids. *)
Fixpoint take_ring (budget taken : nat) (newest : list WindowAlarm) (out : list WindowAlarm) : list WindowAlarm :=
  match newest with
  | [] => out
  | a :: older =>
      if aged RING_S (ts new) a || (budget <=? taken)%nat || (MAX_RECALL <=? length out)%nat then out
      else if skipped out a then take_ring budget taken older out
      else take_ring budget (S taken) older (out ++ [a])
  end.

(** By instant, then by id. *)
Definition chrono_leb (a b : WindowAlarm) : bool :=
  if feqb (ts a) (ts b) then alarm_id a <=? alarm_id b else fltb (ts a) (ts b).

Definition recall (neighbours : list Z) (x : CandidateIndex) : list WindowAlarm :=
  sort_by chrono_leb
    (foldl (fun out r => take_ring r.2 0 (rev r.1) out) [] (rings_for new neighbours x)).
End recalling.

Definition prune (now : float) (x : CandidateIndex) : CandidateIndex :=
  let ne := rings_prune now (by_ne x) in
  MkIndex ne (rings_prune now (by_parent x)) (rings_prune now (by_named x))
    (filter (fun p => is_Some (ne !! p.2)) (ne_of x)).

(** ** The window's rule *)

(** The last [n] elements. *)
Definition lastn {A} (n : nat) (l : list A) : list A := rev (take n (rev l)).

(** Oldest first: once one is inside the horizon, so are those after it. *)
Definition chronological (horizon now : float) (window : list WindowAlarm) : Prop :=
  StronglySorted (fun a b => aged horizon now b = true → aged horizon now a = true) window.

Lemma select_go_spec now window_s max live newest recent :
  1 ≤ max → Z.of_nat (length recent) < max →
  StronglySorted (fun a b => aged window_s now a = true → aged window_s now b = true) newest →
  select_go now window_s max live newest recent =
  recent ++ take (Z.to_nat max - length recent) (List.filter (fun a => negb (aged window_s now a) && is_live live a) newest).
Proof.
  intros Hm. revert recent. induction newest as [|a older IH]; intros recent Hr Hs; simpl.
  - by rewrite take_nil, app_nil_r.
  - apply StronglySorted_inv in Hs as [Hs Ha]. destruct (aged window_s now a) eqn:Ea; simpl.
    + assert (List.filter (fun a => negb (aged window_s now a) && is_live live a) older = []) as ->.
      { clear -Ha Ea. induction older as [|b older IH]; [done|]. apply Forall_cons in Ha as [Hb Ha]. simpl.
        rewrite Hb by done. simpl. auto. }
      by rewrite take_nil, app_nil_r.
    + destruct (is_live live a); simpl; [|by apply IH].
      destruct (Z.to_nat max - length recent)%nat as [|k] eqn:Ek; [lia|]. rewrite length_app. simpl.
      destruct (Z.leb_spec max (Z.of_nat (length recent + 1))).
      * assert (k = 0%nat) as -> by lia. done.
      * rewrite IH, length_app; [|rewrite length_app; simpl; lia|done]. simpl.
        replace (Z.to_nat max - (length recent + 1))%nat with k by lia. by rewrite <- app_assoc.
Qed.

Lemma StronglySorted_app_snoc {A} (R : A → A → Prop) l x :
  StronglySorted R l → Forall (fun y => R y x) l → StronglySorted R (l ++ [x]).
Proof.
  induction 1 as [|y l Hl IH Hy]; intros Hx; simpl; [by repeat constructor|].
  apply Forall_cons in Hx as [? ?]. constructor; [auto|]. apply Forall_app. split; [done | by constructor].
Qed.

Lemma StronglySorted_rev {A} (R : A → A → Prop) l :
  StronglySorted R l → StronglySorted (fun a b => R b a) (rev l).
Proof.
  induction 1 as [|x l Hl IH Hx]; simpl; [constructor|]. apply StronglySorted_app_snoc; [done|].
  apply Forall_forall. intros y Hy. rewrite list_elem_of_In, <- in_rev, <- list_elem_of_In in Hy.
  by eapply Forall_forall in Hx.
Qed.

Lemma filter_rev {A} (f : A → bool) l : List.filter f (rev l) = rev (List.filter f l).
Proof. induction l as [|x l IH]; simpl; [done|]. rewrite List.filter_app, IH. simpl. destruct (f x); simpl; [done | by rewrite app_nil_r]. Qed.

(** Over a window in time order, the walk that stops at the first old alarm, and at the hundredth
    candidate, returns the newest [max] of the live alarms within the window, in time order. *)
Theorem candidates_are_the_newest_live window now window_s max live
    (Hm : 1 ≤ max) (Hw : chronological window_s now window) :
  select_candidates window now window_s max live =
  lastn (Z.to_nat max) (List.filter (fun a => negb (aged window_s now a) && is_live live a) window).
Proof.
  unfold select_candidates, lastn. rewrite select_go_spec; [|done|simpl; lia|by apply StronglySorted_rev in Hw].
  simpl. by rewrite Nat.sub_0_r, filter_rev.
Qed.

(** ** The rings' shape *)

Inductive indexed : CandidateIndex → Prop :=
| ix_new : indexed new_index
| ix_add x a : indexed x → f_finite (ts a) = true → indexed (add a x)
| ix_prune x now : indexed x → indexed (prune now x).

Definition rings_ok {K} `{Countable K} (n : nat) (P : K → WindowAlarm → Prop) (rs : gmap K (list WindowAlarm)) : Prop :=
  ∀ k r, rs !! k = Some r → (length r ≤ n)%nat ∧ Forall (fun a => f_finite (ts a) = true ∧ P k a) r.

Record index_ok (x : CandidateIndex) : Prop := {
  io_ne : rings_ok PER_NE (fun n a => device_id a = n) (by_ne x);
  io_parent : rings_ok PER_PARENT (fun p a => parent_of (arcs a) = p) (by_parent x);
  io_named : rings_ok PER_REF (fun r a => r ∈ refs a) (by_named x) }.

Lemma ring_append_ok n a r (P : WindowAlarm → Prop) :
  Forall P r → P a → (length (ring_append n a r) ≤ n)%nat ∧ Forall P (ring_append n a r).
Proof.
  intros Hr Ha. unfold ring_append. split; [rewrite length_drop, length_app; simpl; lia|].
  apply Forall_drop, Forall_app. split; [done | by constructor].
Qed.

Lemma ring_add_ok {K} `{Countable K} n (P : K → WindowAlarm → Prop) k a rs :
  rings_ok n P rs → f_finite (ts a) = true → P k a → rings_ok n P (ring_add n k a rs).
Proof.
  intros Hrs Hf Ha k' r. unfold ring_add. intros [[<- <-]|[_ Hr]]%lookup_insert_Some; [|by apply Hrs].
  apply ring_append_ok; [|done]. destruct (rs !! k) as [r|] eqn:E; simpl; [by apply (Hrs k) | constructor].
Qed.

Lemma rings_prune_ok {K} `{Countable K} n (P : K → WindowAlarm → Prop) now rs :
  rings_ok n P rs → rings_ok n P (rings_prune now rs).
Proof. intros Hrs k r [Hr _]%map_lookup_filter_Some. by apply Hrs. Qed.

Lemma indexed_ok x : indexed x → index_ok x.
Proof.
  induction 1 as [|x a Hx [H1 H2 H3] Hf|x now Hx [H1 H2 H3]].
  - split; intros k r; simpl; by rewrite lookup_empty.
  - split; cbn [add by_ne by_parent by_named]; [by apply ring_add_ok | by apply ring_add_ok |].
    assert (Forall (fun r => r ∈ refs a) (elements (refs a))) as Hr by (apply Forall_forall; intros r; by rewrite elem_of_elements).
    revert H3. generalize (by_named x). induction Hr as [|r rs Hr Hrs IH]; intros named Hn; simpl; [done|].
    apply IH. by apply ring_add_ok.
  - split; cbn [prune by_ne by_parent by_named]; by apply rings_prune_ok.
Qed.

(** ** Recall *)

Definition proposable (new : WindowAlarm) (live exclude : gset Z) (a : WindowAlarm) : Prop :=
  alarm_id a ≠ alarm_id new ∧ alarm_id a ∈ live ∧ alarm_id a ∉ exclude ∧ aged RING_S (ts new) a = false.

(** What makes an alarm worth comparing with the newcomer beyond the window. *)
Definition related (new : WindowAlarm) (neighbours : list Z) (x : CandidateIndex) (a : WindowAlarm) : Prop :=
  device_id a = device_id new ∨ parent_of (arcs a) = parent_of (arcs new) ∨ source new ∈ refs a ∨
  (∃ r, r ∈ refs new ∧ ne_of x !! r = Some (device_id a)) ∨ device_id a ∈ neighbours.

Lemma skipped_spec new live exclude out a :
  skipped new live exclude out a = false ↔
  alarm_id a ≠ alarm_id new ∧ alarm_id a ∉ map alarm_id out ∧ alarm_id a ∉ exclude ∧ alarm_id a ∈ live.
Proof.
  unfold skipped. rewrite !orb_false_iff, negb_false_iff, Z.eqb_neq, !bool_decide_eq_false, bool_decide_eq_true. tauto.
Qed.

Record taken_ok new live exclude (Q : WindowAlarm → Prop) (out : list WindowAlarm) : Prop := {
  to_ok : Forall (fun a => proposable new live exclude a ∧ Q a) out;
  to_nodup : NoDup (map alarm_id out);
  to_len : (length out ≤ MAX_RECALL)%nat }.

Lemma take_ring_ok new live exclude Q budget taken newest out :
  taken_ok new live exclude Q out → Forall Q newest →
  taken_ok new live exclude Q (take_ring new live exclude budget taken newest out).
Proof.
  revert taken out. induction newest as [|a older IH]; intros taken out Hout HQ; cbn [take_ring]; [done|].
  apply Forall_cons in HQ as [Ha HQ].
  destruct (aged RING_S (ts new) a || (budget <=? taken)%nat || (MAX_RECALL <=? length out)%nat) eqn:E; [done|].
  apply orb_false_iff in E as [[Eg _]%orb_false_iff El%Nat.leb_gt].
  destruct (skipped new live exclude out a) eqn:Es; [by apply IH|]. apply IH; [|done].
  apply skipped_spec in Es as (H1 & H2 & H3 & H4). destruct Hout as [Ho Hn Hl]. split.
  - apply Forall_app. split; [done|]. by repeat constructor.
  - rewrite map_app. apply NoDup_app. simpl. split; [done|]. split; [|apply NoDup_singleton].
    intros i Hi ->%list_elem_of_singleton. done.
  - rewrite length_app. simpl. lia.
Qed.

Lemma with_budget_in ring b r : r ∈ with_budget ring b → ring = Some r.1.
Proof. destruct ring; simpl; [by intros ->%list_elem_of_singleton | by intros ?%elem_of_nil]. Qed.

Lemma rings_for_related new neighbours x r :
  index_ok x → r ∈ rings_for new neighbours x → Forall (fun a => f_finite (ts a) = true ∧ related new neighbours x a) r.1.
Proof.
  intros [H1 H2 H3]. unfold rings_for, related. rewrite !elem_of_app. intros [Hr|[Hr|[Hr|[Hr|Hr]]]].
  - apply with_budget_in in Hr. destruct (H1 _ _ Hr) as [_ Ha]. eapply Forall_impl; [exact Ha|]. naive_solver.
  - apply with_budget_in in Hr. destruct (H2 _ _ Hr) as [_ Ha]. eapply Forall_impl; [exact Ha|]. naive_solver.
  - apply with_budget_in in Hr. destruct (String.eqb (source new) ""); [done|].
    destruct (H3 _ _ Hr) as [_ Ha]. eapply Forall_impl; [exact Ha|]. naive_solver.
  - apply list_elem_of_In, in_concat in Hr as (l & (rf & <- & Hrf)%in_map_iff & Hr%list_elem_of_In).
    apply list_elem_of_In, elem_of_sort_by, elem_of_elements in Hrf.
    destruct (ne_of x !! rf) as [n|] eqn:En; [|by apply elem_of_nil in Hr].
    destruct (n =? device_id new); [by apply elem_of_nil in Hr|]. apply with_budget_in in Hr.
    destruct (H1 _ _ Hr) as [_ Ha]. eapply Forall_impl; [exact Ha|]. intros a [? <-]. split; [done|]. do 3 right. left. eauto.
  - apply list_elem_of_In, in_concat in Hr as (l & (n & <- & Hn)%in_map_iff & Hr%list_elem_of_In). apply list_elem_of_In in Hn.
    apply with_budget_in in Hr. destruct (H1 _ _ Hr) as [_ Ha]. eapply Forall_impl; [exact Ha|].
    intros a [? <-]. split; [done|]. by do 4 right.
Qed.

Lemma take_rings_ok new live exclude Q rs out :
  taken_ok new live exclude Q out → (∀ r : list WindowAlarm * nat, r ∈ rs → Forall Q r.1) →
  taken_ok new live exclude Q (foldl (fun out r => take_ring new live exclude r.2 0 (rev r.1) out) out rs).
Proof.
  revert out. induction rs as [|r rs IH]; intros out Hout HQ; cbn [foldl]; [done|]. apply IH.
  - apply take_ring_ok; [done|]. apply Forall_rev, HQ. by left.
  - intros r' Hr'. apply HQ. by right.
Qed.

Lemma take_ring_keeps new live exclude budget taken newest out i :
  i ∈ map alarm_id out → i ∈ map alarm_id (take_ring new live exclude budget taken newest out).
Proof.
  revert taken out. induction newest as [|a older IH]; intros taken out Hi; cbn [take_ring]; [done|].
  destruct (_ || _ || _); [done|]. destruct (skipped new live exclude out a); [by apply IH|].
  apply IH. rewrite map_app. apply elem_of_app. by left.
Qed.

Lemma take_rings_keep new live exclude rs out i :
  i ∈ map alarm_id out →
  i ∈ map alarm_id (foldl (fun out r => take_ring new live exclude r.2 0 (rev r.1) out) out rs).
Proof. revert out. induction rs as [|r rs IH]; intros out Hi; cbn [foldl]; [done|]. by apply IH, take_ring_keeps. Qed.

(** With room in the budget, nothing a ring may propose is left out. *)
Lemma take_ring_all new live exclude budget taken newest out a :
  (taken + length newest ≤ budget)%nat → (length out + length newest ≤ MAX_RECALL)%nat →
  StronglySorted (fun a b => aged RING_S (ts new) a = true → aged RING_S (ts new) b = true) newest →
  a ∈ newest → proposable new live exclude a → alarm_id a ∈ map alarm_id (take_ring new live exclude budget taken newest out).
Proof.
  revert taken out. induction newest as [|b older IH]; intros taken out Hb Hl Hs Ha Hp; [by apply elem_of_nil in Ha|].
  apply StronglySorted_inv in Hs as [Hs Hold]. simpl in Hb, Hl. cbn [take_ring].
  rewrite (proj2 (Nat.leb_gt budget taken)) by lia. rewrite (proj2 (Nat.leb_gt MAX_RECALL (length out))) by lia.
  rewrite !orb_false_r. destruct (aged RING_S (ts new) b) eqn:Eb.
  - apply elem_of_cons in Ha as [->|Ha]; [by destruct Hp as (_ & _ & _ & ?); congruence|].
    rewrite Forall_forall in Hold. destruct Hp as (_ & _ & _ & Hp). rewrite (Hold a Ha eq_refl) in Hp. done.
  - apply elem_of_cons in Ha as [<-|Ha].
    + destruct (skipped new live exclude out a) eqn:Es.
      * apply take_ring_keeps. destruct (decide (alarm_id a ∈ map alarm_id out)) as [|Hn]; [done|].
        destruct Hp as (? & ? & ? & _). by rewrite (proj2 (skipped_spec _ _ _ _ _)) in Es.
      * apply take_ring_keeps. rewrite map_app. apply elem_of_app. right. by left.
    + destruct (skipped new live exclude out b); [apply IH; try done; lia|].
      apply IH; try done; [lia|]. rewrite length_app. simpl. lia.
Qed.

Lemma chrono_total a b : f_finite (ts a) = true → f_finite (ts b) = true → chrono_leb a b = true ∨ chrono_leb b a = true.
Proof.
  intros Ha Hb. unfold chrono_leb. rewrite (feqb_sym (ts b)).
  assert (∀ x, f_finite x = true → is_nan x = false) as Hn by (by intros []).
  destruct (fltb_total3 (ts a) (ts b) (Hn _ Ha) (Hn _ Hb)) as [H|[H|H]].
  - left. destruct (feqb (ts a) (ts b)) eqn:E; [|done]. by rewrite (feqb_not_lt _ _ E) in H.
  - rewrite H. lia.
  - right. destruct (feqb (ts a) (ts b)) eqn:E; [|done]. rewrite feqb_sym in E. by rewrite (feqb_not_lt _ _ E) in H.
Qed.

Lemma chrono_trans a b c : chrono_leb a b = true → chrono_leb b c = true → chrono_leb a c = true.
Proof.
  unfold chrono_leb. destruct (feqb (ts a) (ts b)) eqn:E1, (feqb (ts b) (ts c)) eqn:E2; intros H1 H2.
  - rewrite (feqb_trans _ _ _ E1 E2). lia.
  - pose proof (feqb_ltb_trans _ _ _ E1 H2) as H. destruct (feqb (ts a) (ts c)) eqn:E; [|done]. by rewrite (feqb_not_lt _ _ E) in H.
  - pose proof (fltb_eqb_trans _ _ _ H1 E2) as H. destruct (feqb (ts a) (ts c)) eqn:E; [|done]. by rewrite (feqb_not_lt _ _ E) in H.
  - pose proof (fltb_trans _ _ _ H1 H2) as H. destruct (feqb (ts a) (ts c)) eqn:E; [|done]. by rewrite (feqb_not_lt _ _ E) in H.
Qed.

(** Whatever was indexed and pruned, recall proposes at most 64 alarms, no alarm twice, in time order;
    each is live, not the newcomer, not already the window's, at most an hour older, and shares the
    element, the OID parent, a named address or a learned neighbour with it; and, where the
    element's own ring is in time order, everything of it that may be proposed is. *)
Theorem recall_is_bounded_and_related x new live neighbours exclude (Hx : indexed x) :
  let out := recall new live exclude neighbours x in
  (length out ≤ 64)%nat ∧ NoDup (map alarm_id out) ∧
  StronglySorted (fun a b => chrono_leb a b = true) out ∧
  Forall (fun a => proposable new live exclude a ∧ related new neighbours x a) out ∧
  (∀ ring a, by_ne x !! device_id new = Some ring → chronological RING_S (ts new) ring →
     a ∈ ring → proposable new live exclude a → alarm_id a ∈ map alarm_id out).
Proof.
  simpl. apply indexed_ok in Hx. unfold recall.
  set (raw := foldl _ [] (rings_for new neighbours x)).
  assert (taken_ok new live exclude (fun a => f_finite (ts a) = true ∧ related new neighbours x a) raw) as [Ho Hn Hl].
  { apply take_rings_ok; [split; [constructor | constructor | simpl; lia]|]. intros r Hr. by apply rings_for_related. }
  split; [by rewrite length_sort_by|]. split; [by rewrite (Permutation_map alarm_id (sort_by_perm chrono_leb raw))|]. split; [|split].
  - apply (sort_by_sorted _ (fun a => f_finite (ts a) = true)); [|exact chrono_total|exact chrono_trans].
    eapply Forall_impl; [exact Ho|]. naive_solver.
  - rewrite sort_by_perm. eapply Forall_impl; [exact Ho|]. naive_solver.
  - intros ring a Hr Hc Ha Hp. rewrite (Permutation_map alarm_id (sort_by_perm chrono_leb raw)).
    subst raw. unfold rings_for. rewrite Hr. cbn [with_budget app foldl fst snd]. apply take_rings_keep.
    destruct (io_ne _ Hx _ _ Hr) as [Hlen _]. apply take_ring_all; rewrite ?length_rev; simpl; unfold PER_NE, MAX_RECALL in *; try lia.
    + by apply StronglySorted_rev in Hc.
    + by rewrite list_elem_of_In, <- in_rev, <- list_elem_of_In.
    + done.
Qed.

(** ** Concrete windows *)

Definition alarm_at (id cls dev t : Z) : WindowAlarm := window_alarm id cls dev (f_of_Z t) 0 "" ["1"; "3"; "9"] (-1) 0 "" ∅.
Definition window3 : list WindowAlarm := [alarm_at 1 7 1 100; alarm_at 2 7 2 190; alarm_at 3 8 3 210; alarm_at 4 8 4 215].

(** Alarm 1 is too old, 3 is a tombstone, and two are asked for. *)
Lemma candidates_are_the_newest_live_witness :
  chronological WINDOW_S (f_of_Z 230) window3 ∧
  map alarm_id (select_candidates window3 (f_of_Z 230) WINDOW_S 2 (Some {[1; 2; 4]})) = [2; 4] ∧
  select_candidates window3 (f_of_Z 230) WINDOW_S 2 (Some {[1; 2; 4]}) =
  lastn 2 (List.filter (fun a => negb (aged WINDOW_S (f_of_Z 230) a) && is_live (Some {[1; 2; 4]}) a) window3).
Proof.
  assert (chronological WINDOW_S (f_of_Z 230) window3) as H by (repeat constructor; vm_compute; congruence).
  split; [exact H|]. split; [vm_compute; reflexivity|].
  apply (candidates_are_the_newest_live window3 (f_of_Z 230) WINDOW_S 2 (Some {[1; 2; 4]})); [lia | exact H].
Defined.

(** Out of order, the walk stops at the entry a clock that stepped back left in the past. *)
Example a_step_back_hides_the_window :
  map alarm_id (select_candidates [alarm_at 1 7 1 200; alarm_at 2 7 2 50] (f_of_Z 230) WINDOW_S 100 None) = [].
Proof. vm_compute. reflexivity. Qed.

Definition index3 : CandidateIndex := add (alarm_at 3 8 1 700) (add (alarm_at 2 7 2 600) (add (alarm_at 1 7 1 500) new_index)).

Definition live3 : gset Z := {[1; 2; 3]}.
Definition seen3 : gset Z := {[3]}.

Lemma recall_is_bounded_and_related_witness :
  indexed index3 ∧ map alarm_id (recall (alarm_at 9 7 1 900) live3 seen3 [] index3) = [1; 2] ∧
  (length (recall (alarm_at 9 7 1 900) live3 seen3 [] index3) ≤ 64)%nat.
Proof.
  assert (indexed index3) as H by (do 3 (apply ix_add; [|reflexivity]); apply ix_new).
  split; [exact H|]. split; [vm_compute; reflexivity|].
  apply (recall_is_bounded_and_related index3 (alarm_at 9 7 1 900) live3 [] seen3 H).
Defined.
