(* ===== verification/PairFeatures.v ===== *)
(** * What a trained model reads of two alarms ([engine/correlate/features.py],
    [engine/correlate/scorer_contract.py])

    The pair feature vector, with the lookups of one activation kept in dictionaries, and the same
    vector computed pair by pair. [learner] is what the features take of [Learn.Learner]. *)
From S2P Require Import Prelude PyLib Floats Episodes Candidates.

Definition FEATURE_NAMES : list string :=
  ["dt"; "same_ne"; "same_class"; "oid_arcs"; "class_affinity"; "entity_affinity"; "ne_episodes"; "class_episodes";
   "item_episodes"; "severity"; "burst"; "chatter"; "degree"; "cross_ref"; "hour"].
Definition MAX_DT_S : float := f_of_Z 3600.
Definition MAX_ARCS : nat := 16.
Definition UNKNOWN_SEVERITY : Z := 5.
Definition MAX_REFS : nat := 4.

(** [str.isdigit] below 256: the decimal digits and the three superscripts. *)
Definition is_digit (a : ascii) : bool := ((48 <=? code a) && (code a <=? 57)) || bool_decide (code a ∈ [178; 179; 185]).

(** [p.isdigit() and len(p) <= 3 and int(p) <= 255]; [None] is the exception [int] raises. *)
Definition octet (p : string) : option bool :=
  if negb (String.eqb p "") && forallb is_digit (chars p) && (String.length p <=? 3)%nat then
    (fun n => n <=? 255) <$> py_int p
  else Some false.

(** [all(...)], from the left. *)
Fixpoint all_octets (ps : list string) : option bool :=
  match ps with
  | [] => Some true
  | p :: ps => b ← octet p; if b : bool then all_octets ps else Some false
  end.

Fixpoint references_go (values : list string) (source : string) (found : gset string) : option (gset string) :=
  match values with
  | [] => Some found
  | v :: values =>
      let parts := split "." v in
      if negb (length parts =? 4)%nat || String.eqb v source then references_go values source found
      else ok ← all_octets parts;
           if ok : bool then
             let found := {[v]} ∪ found in
             if (MAX_REFS <=? size found)%nat then Some found else references_go values source found
           else references_go values source found
  end.
Definition references (values : list string) (source : string) : option (gset string) := references_go values source ∅.

Fixpoint common_arcs_go (n : nat) (a b : list string) : nat :=
  match a, b with
  | x :: a, y :: b => if negb (String.eqb x y) || (MAX_ARCS <=? n)%nat then n else common_arcs_go (S n) a b
  | _, _ => n
  end.
Definition common_arcs (a b : list string) : nat := common_arcs_go 0 a b.

(** The first seven arcs of a trap OID. *)
Definition OID_ROOT_COMPONENTS : nat := 7.
Definition oid_root (oid : string) : string := join "." (take OID_ROOT_COMPONENTS (split "." oid)).

(** ** The vector *)

Section vectors.
(** [learner.class_affinity] and [learner.entity_affinity]. *)
Context (class_affinity : Z → Z → float) (entity_affinity : Z → Z → Z → Z → float).
Context (new : WindowAlarm) (episodes : EpisodeMemory) (burst : Z).

Definition b2f (b : bool) : float := if b then f_one else f_zero.

(** The fifteen features, from the six that are looked up. *)
Definition row (old : WindowAlarm) (a e ne cls item hub : float) : list float :=
  let dt := SFabs (fsub (ts new) (ts old)) in
  let severity := if Z.min (severity_rank new) (severity_rank old) <? 0 then UNKNOWN_SEVERITY
                  else Z.max (severity_rank new) (severity_rank old) in
  [if fltb dt MAX_DT_S then dt else MAX_DT_S;
   b2f (device_id new =? device_id old); b2f (class_id new =? class_id old);
   f_of_Z (Z.of_nat (common_arcs (arcs new) (arcs old)));
   a; e; ne; cls; item; f_of_Z severity; f_of_Z burst; f_of_Z (Z.max (chatter new) (chatter old)); hub;
   b2f ((bool_decide (source new ∈ refs old) || bool_decide (source old ∈ refs new)) && negb (String.eqb (source new) ""));
   f_of_Z (f_floor_div (ts new) 3600 mod 24)].

Definition look_class (c : Z) : float := class_affinity (class_id new) c.
Definition look_entity (k : Z * Z) : float := entity_affinity (entity_id new) (device_id new) k.1 k.2.
Definition look_ne (n : Z) : float := f_of_Z (ne_prior episodes (device_id new) n (ts new)).
Definition look_cls (c : Z) : float := f_of_Z (cls_prior episodes (class_id new) c (ts new)).
Definition look_item (k : Z * Z) : float := f_of_Z (item_prior episodes (device_id new, class_id new) k (ts new)).
Definition look_hub (n : Z) : float := f_of_Z (Z.max (degree episodes (device_id new)) (degree episodes n)).

(** One pair, every lookup made. *)
Definition one_vector (old : WindowAlarm) : list float :=
  let '(cls, n) := (class_id old, device_id old) in
  row old (look_class cls) (look_entity (entity_id old, n)) (look_ne n) (look_cls cls) (look_item (n, cls)) (look_hub n).

(** [value = cache.get(key)], computed and stored when it is missing. *)
Definition cached {K} `{Countable K} (look : K → float) (k : K) (cache : gmap K float) : float * gmap K float :=
  match cache !! k with Some v => (v, cache) | None => (look k, <[k := look k]> cache) end.

Record Caches := MkCaches {
  c_class : gmap Z float; c_entity : gmap (Z * Z) float; c_ne : gmap Z float; c_cls : gmap Z float;
  c_item : gmap (Z * Z) float; c_hub : gmap Z float }.

Definition vector_step (old : WindowAlarm) (c : Caches) : list float * Caches :=
  let '(cls, n) := (class_id old, device_id old) in
  let '(a, c1) := cached look_class cls (c_class c) in
  let '(e, c2) := cached look_entity (entity_id old, n) (c_entity c) in
  let '(ne_count, c3) := cached look_ne n (c_ne c) in
  let '(cls_count, c4) := cached look_cls cls (c_cls c) in
  let '(item_count, c5) := cached look_item (n, cls) (c_item c) in
  let '(hub, c6) := cached look_hub n (c_hub c) in
  (row old a e ne_count cls_count item_count hub, MkCaches c1 c2 c3 c4 c5 c6).

Fixpoint vectors_go (olds : list WindowAlarm) (c : Caches) : list (list float) :=
  match olds with
  | [] => []
  | old :: olds => let '(v, c) := vector_step old c in v :: vectors_go olds c
  end.
Definition vectors (olds : list WindowAlarm) : list (list float) := vectors_go olds (MkCaches ∅ ∅ ∅ ∅ ∅ ∅).
Definition vector (old : WindowAlarm) : list float := default [] (head (vectors [old])).

Definition faithful {K} `{Countable K} (look : K → float) (cache : gmap K float) : Prop :=
  ∀ k v, cache !! k = Some v → v = look k.

Lemma cached_faithful {K} `{Countable K} (look : K → float) k cache :
  faithful look cache → (cached look k cache).1 = look k ∧ faithful look (cached look k cache).2.
Proof.
  intros Hc. unfold cached. destruct (cache !! k) as [v|] eqn:E; simpl; [split; [by apply Hc | done]|].
  split; [done|]. intros k' v [[<- <-]|[_ Hv]]%lookup_insert_Some; [done | by apply Hc].
Qed.

Record caches_ok (c : Caches) : Prop := {
  co_class : faithful look_class (c_class c); co_entity : faithful look_entity (c_entity c);
  co_ne : faithful look_ne (c_ne c); co_cls : faithful look_cls (c_cls c);
  co_item : faithful look_item (c_item c); co_hub : faithful look_hub (c_hub c) }.

Lemma vector_step_ok old c : caches_ok c → (vector_step old c).1 = one_vector old ∧ caches_ok (vector_step old c).2.
Proof.
  intros [H1 H2 H3 H4 H5 H6]. unfold vector_step, one_vector.
  apply (cached_faithful _ (class_id old)) in H1 as [E1 H1]. apply (cached_faithful _ (entity_id old, device_id old)) in H2 as [E2 H2].
  apply (cached_faithful _ (device_id old)) in H3 as [E3 H3]. apply (cached_faithful _ (class_id old)) in H4 as [E4 H4].
  apply (cached_faithful _ (device_id old, class_id old)) in H5 as [E5 H5]. apply (cached_faithful _ (device_id old)) in H6 as [E6 H6].
  destruct (cached look_class _ _), (cached look_entity _ _), (cached look_ne _ _), (cached look_cls _ _),
    (cached look_item _ _), (cached look_hub _ _). simpl in *. by subst.
Qed.

Lemma vectors_go_direct olds c : caches_ok c → vectors_go olds c = map one_vector olds.
Proof.
  revert c. induction olds as [|old olds IH]; intros c Hc; [done|]. cbn [vectors_go map].
  destruct (vector_step_ok old c Hc) as [E Hc']. destruct (vector_step old c) as [v c']. simpl in *. by rewrite E, IH.
Qed.
End vectors.

(** Keeping each class's and each element's lookups for the rest of one activation changes no
    feature: the vectors of all the candidates are those of the candidates taken one at a time, each
    with the fifteen features of [FEATURE_NAMES], whatever the memories hold. *)
Theorem shared_lookups_are_exact class_affinity entity_affinity new episodes burst olds :
  vectors class_affinity entity_affinity new episodes burst olds =
    map (vector class_affinity entity_affinity new episodes burst) olds ∧
  Forall (fun v => length v = length FEATURE_NAMES) (vectors class_affinity entity_affinity new episodes burst olds).
Proof.
  unfold vector, vectors.
  assert (caches_ok class_affinity entity_affinity new episodes (MkCaches ∅ ∅ ∅ ∅ ∅ ∅)) as H0 by (by split).
  rewrite vectors_go_direct by done. split.
  - apply map_ext. intros old. by rewrite vectors_go_direct by done.
  - apply Forall_forall. intros v (old & -> & _)%list_elem_of_fmap. done.
Qed.

Lemma references_go_size values source found r :
  references_go values source found = Some r → (size found < MAX_REFS)%nat → (size r ≤ MAX_REFS)%nat.
Proof.
  revert found. induction values as [|v values IH]; intros found; cbn [references_go]; [intros [= <-]; lia|].
  intros H Hf. destruct (negb _ || _); [by eapply IH|]. destruct (all_octets _) as [[]|]; cbn [mbind option_bind] in H; [| by eapply IH | done].
  revert H. destruct (Nat.leb_spec MAX_REFS (size ({[v]} ∪ found))); [|intros Hr; eapply IH; [exact Hr | lia]].
  intros [= <-]. rewrite size_union_alt, size_singleton. pose proof (subseteq_size (found ∖ {[v]}) found ltac:(set_solver)). lia.
Qed.

(** At most four addresses are kept, and none is the trap's own source. *)
Lemma references_bounded values source r : references values source = Some r → (size r ≤ 4)%nat.
Proof. intros H. eapply references_go_size; [exact H|]. rewrite size_empty. unfold MAX_REFS. lia. Qed.

Lemma common_arcs_go_spec n a b :
  (n ≤ MAX_ARCS)%nat → ∃ k, common_arcs_go n a b = (n + k)%nat ∧ (n + k ≤ MAX_ARCS)%nat ∧ take k a = take k b.
Proof.
  revert n b. induction a as [|x a IH]; intros n [|y b] Hn; cbn [common_arcs_go];
    try (exists 0%nat; rewrite Nat.add_0_r; split; [reflexivity | split; [lia | reflexivity]]).
  destruct (String.eqb_spec x y) as [->|]; cbn [negb orb]; [|exists 0%nat; rewrite Nat.add_0_r; split; [reflexivity | split; [lia | reflexivity]]].
  destruct (Nat.leb_spec MAX_ARCS n); [exists 0%nat; rewrite Nat.add_0_r; split; [reflexivity | split; [lia | reflexivity]]|].
  destruct (IH (S n) b) as (k & -> & Hk & Ht); [lia|]. exists (S k). split; [lia|]. split; [lia|]. simpl. by rewrite Ht.
Qed.

(** Arc by arc, not character by character. *)
Example arcs_not_characters : common_arcs (split "." "1.3.6.1.4.1.2011.1.2") (split "." "1.3.6.1.4.1.2011.1.12") = 8%nat.
Proof. vm_compute. reflexivity. Qed.
