(* ===== verification/Scoring.v ===== *)
(** * The verdict on a pair, and what happens when a scorer misbehaves
    ([engine/correlate/scoring.py], [gates.py], [scorer_contract.py])

    The additive formula, the check of its parameters, and the wrapper that falls back to it. A
    scorer's answer is whatever it does: raise, return anything, take any time. [contract_violation] is
    over scores that are floats, which is what the appliance's own scorers return and what [Correlator]
    uses; [ScoreReply] adds the answers on which the check itself raises. [exp] is [math.exp]. *)
From S2P Require Import Prelude PyLib.

Definition TAU_S : float := f_of_Z 30.
Definition W_T : float := f_lit 3 10.
Definition W_A : float := f_lit 35 100.
Definition W_E : float := f_lit 35 100.
Definition LINK_THRESHOLD : float := f_lit 5 10.
Definition MIN_TAU_S : float := f_one.
Definition MAX_TAU_S : float := f_of_Z 3600.
Definition MIN_WEIGHT_SUM : float := f_lit 1 10.
Definition MIN_THRESHOLD : float := f_lit 1 100.
Definition THRESHOLD_MARGIN : float := f_lit 1 100.
Definition SCORE_BUDGET_S : float := f_lit 5 10.
Definition CONTRACT_VERSION : string := "1.0".
Definition BASIS_WEIGHTED_SUM : string := "weighted-sum".

Record LinkFeatures := MkFeatures {
  delta_t_s : float; class_i : Z; class_j : Z; class_affinity : float; ne_i : Z; ne_j : Z; entity_affinity : float;
  same_oid_root : option bool; v2 : option (list float) }.
Record TermContribution := MkTerm { t_name : string; t_weight : float; t_value : float; t_contribution : float }.
Record LinkScore := MkScore {
  s_linked : bool; s_score : float; s_threshold : float; s_terms : list TermContribution; s_basis : string; s_base : float }.

(** ** The contract's version *)

Inductive version_error := Malformed | Unsupported.
Definition contract_major (version : string) : option Z := py_int (default "" (head (split "." version))).
Definition check_contract_version (version : string) : option version_error :=
  match contract_major version with
  | None => Some Malformed
  | Some m => if bool_decide (Some m = contract_major CONTRACT_VERSION) then None else Some Unsupported
  end.

(** ** The formula *)

Definition unrelated_elements (f : LinkFeatures) : bool := negb (ne_i f =? ne_j f) && feqb (entity_affinity f) f_zero.
Definition cross_subtree_elements (f : LinkFeatures) : bool :=
  if negb (bool_decide (same_oid_root f = Some false)) then false else negb (ne_i f =? ne_j f).

Inductive params_problem :=
  | Not_finite (name : string) | Out_of_range (name : string) | Tau_not_finite | Tau_out_of_range
  | Weights_vanish | Threshold_too_low | Threshold_unreachable.

Fixpoint range_problem (named : list (string * float)) : option params_problem :=
  match named with
  | [] => None
  | (n, v) :: named =>
      if negb (f_finite v) then Some (Not_finite n)
      else if negb (fleb f_zero v && fleb v f_one) then Some (Out_of_range n)
      else range_problem named
  end.

Definition validate_params (w_t w_a w_e tau threshold : float) : option params_problem :=
  match range_problem [("w_t"%string, w_t); ("w_a"%string, w_a); ("w_e"%string, w_e); ("threshold"%string, threshold)] with
  | Some p => Some p
  | None =>
      if negb (f_finite tau) then Some Tau_not_finite
      else if negb (fleb MIN_TAU_S tau && fleb tau MAX_TAU_S) then Some Tau_out_of_range
      else
        let weight_sum := fadd (fadd w_t w_a) w_e in
        if fltb weight_sum MIN_WEIGHT_SUM then Some Weights_vanish
        else if fltb threshold MIN_THRESHOLD then Some Threshold_too_low
        else if fltb (fsub weight_sum THRESHOLD_MARGIN) threshold then Some Threshold_unreachable
        else None
  end.

Record AdditiveScorer := MkAdditive { w_t : float; w_a : float; w_e : float; tau_s : float; a_threshold : float }.
Definition default_scorer : AdditiveScorer := MkAdditive W_T W_A W_E TAU_S LINK_THRESHOLD.

Section formula.
Context (exp : float → float).

Definition additive_score (s : AdditiveScorer) (f : LinkFeatures) : LinkScore :=
  let decay := exp (fdiv (fopp (SFabs (delta_t_s f))) (tau_s s)) in
  let e := if cross_subtree_elements f then f_zero else entity_affinity f in
  let a := if unrelated_elements f then f_zero else class_affinity f in
  let term_t := fmul (w_t s) decay in
  let term_a := fmul (w_a s) a in
  let term_e := fmul (w_e s) e in
  let total := fadd (fadd term_t term_a) term_e in
  MkScore (fltb (a_threshold s) total) total (a_threshold s)
    [MkTerm "temporal" (w_t s) decay term_t; MkTerm "class_affinity" (w_a s) a term_a; MkTerm "entity_affinity" (w_e s) e term_e]
    BASIS_WEIGHTED_SUM f_zero.

(** ** The wrapper *)

(** What [delegate.score] does: raise an exception of a class, return something else, or a score that is a
    float. *)
Inductive Answer := A_raises (exc : string) | A_other (type : string) | A_score (r : LinkScore).
(** What [delegate.logit] does. *)
Inductive Logit := L_raises (exc : string) | L_value (v : float).

Inductive reason := R_raised (exc : string) | R_not_a_score (type : string) | R_non_finite | R_no_terms | R_over_budget | R_bad_logit.

Record SafeScorer := MkSafe {
  delegate_has_logit : bool; delegate_threshold : float; budget_s : float; degraded : bool; failures : Z; last_error : option reason }.
Definition new_safe (has_logit : bool) (threshold : float) : SafeScorer := MkSafe has_logit threshold SCORE_BUDGET_S false 0 None.

Definition degrade (why : reason) (s : SafeScorer) : SafeScorer :=
  MkSafe (delegate_has_logit s) (delegate_threshold s) (budget_s s) true (failures s + 1) (Some why).

Definition contract_violation (a : Answer) : option reason :=
  match a with
  | A_raises e => Some (R_raised e)
  | A_other t => Some (R_not_a_score t)
  | A_score r => if negb (f_finite (s_score r)) then Some R_non_finite
                 else match s_terms r with [] => Some R_no_terms | _ => None end
  end.

Definition fallback (f : LinkFeatures) : LinkScore := additive_score default_scorer f.

Definition safe_score (a : Answer) (elapsed : float) (f : LinkFeatures) (s : SafeScorer) : LinkScore * SafeScorer :=
  if degraded s then (fallback f, s)
  else match contract_violation a with
  | Some why => (fallback f, degrade why s)
  | None =>
      let r := match a with A_score r => r | _ => fallback f end in
      if fltb (budget_s s) elapsed then (r, degrade R_over_budget s) else (r, s)
  end.

Definition fast_path (s : SafeScorer) : bool := negb (degraded s) && delegate_has_logit s.

(** The margin over the threshold and whether it links, or nothing: take the full path. *)
Definition fast (l : Logit) (elapsed : float) (s : SafeScorer) : option (float * bool) * SafeScorer :=
  if negb (fast_path s) then (None, s)
  else match l with
  | L_raises e => (None, degrade (R_raised e) s)
  | L_value v =>
      if negb (f_finite v) then (None, degrade R_bad_logit s)
      else let s := if fltb (budget_s s) elapsed then degrade R_over_budget s else s in
           (Some (fsub v (delegate_threshold s), fltb (delegate_threshold s) v), s)
  end.

(** ** Any scorer, any history *)

(** What [delegate.score] does, in full: an answer as above, or a [LinkScore] on which the check itself
    raises, which runs outside the [try]: a score that is not a number ([TypeError] of [math.isfinite]) or
    an integer no float holds ([OverflowError]). The scorers of the appliance score with floats. *)
Inductive ScoreReply := SR_answer (a : Answer) | SR_breaks (exc : string).
(** What [delegate.logit] does, or the exception of [float(threshold)], read before the [try]. *)
Inductive LogitReply := LR_answer (l : Logit) | LR_breaks (exc : string).

(** [SafeScorer.score] and [fast]: their answer, or the exception that leaves them. *)
Definition score (d : ScoreReply) (elapsed : float) (f : LinkFeatures) (s : SafeScorer) : res string LinkScore * SafeScorer :=
  match d with
  | SR_answer a => let '(r, s) := safe_score a elapsed f s in (Ok r, s)
  | SR_breaks e => if degraded s then (Ok (fallback f), s) else (Err e, s)
  end.
Definition fast_score (d : LogitReply) (elapsed : float) (s : SafeScorer) : res string (option (float * bool)) * SafeScorer :=
  match d with
  | LR_answer l => let '(r, s) := fast l elapsed s in (Ok r, s)
  | LR_breaks e => if negb (fast_path s) then (Ok None, s) else (Err e, s)
  end.

Inductive Call := C_score (d : ScoreReply) (elapsed : float) (f : LinkFeatures) | C_fast (d : LogitReply) (elapsed : float).
Inductive Result := R_score (r : res string LinkScore) | R_fast (r : res string (option (float * bool))).

Definition call (c : Call) (s : SafeScorer) : Result * SafeScorer :=
  match c with
  | C_score d t f => let '(r, s) := score d t f s in (R_score r, s)
  | C_fast d t => let '(r, s) := fast_score d t s in (R_fast r, s)
  end.

Fixpoint calls (cs : list Call) (s : SafeScorer) : list Result * SafeScorer :=
  match cs with
  | [] => ([], s)
  | c :: cs => let '(r, s) := call c s in let '(rs, s) := calls cs s in (r :: rs, s)
  end.

(** Whether the scorer broke the contract in a call in a way the wrapper sees: raised, answered something
    unusable, or took too long. Without a logit the fast call asks nothing of it. *)
Definition misbehaves (has_logit : bool) (budget : float) (c : Call) : bool :=
  match c with
  | C_score (SR_answer a) t _ => match contract_violation a with Some _ => true | None => fltb budget t end
  | C_fast (LR_answer (L_raises _)) _ => has_logit
  | C_fast (LR_answer (L_value v)) t => has_logit && (negb (f_finite v) || fltb budget t)
  | C_score (SR_breaks _) _ _ | C_fast (LR_breaks _) _ => false
  end.

(** What a caller may get: an answer that keeps the contract or the formula's; a finite logit's margin or
    nothing; or the exception of the check itself. *)
Definition usable (c : Call) (r : Result) : Prop :=
  match c, r with
  | C_score d _ f, R_score (Ok r) => (d = SR_answer (A_score r) ∧ f_finite (s_score r) = true ∧ s_terms r ≠ []) ∨ r = fallback f
  | C_score d _ _, R_score (Err e) => d = SR_breaks e
  | C_fast _ _, R_fast (Ok None) => True
  | C_fast d _, R_fast (Ok (Some m)) => ∃ v th, d = LR_answer (L_value v) ∧ f_finite v = true ∧ m = (fsub v th, fltb th v)
  | C_fast d _, R_fast (Err e) => d = LR_breaks e
  | _, _ => False
  end.

(** What a degraded wrapper answers. *)
Definition of_formula (c : Call) : Result :=
  match c with C_score _ _ f => R_score (Ok (fallback f)) | C_fast _ _ => R_fast (Ok None) end.

Lemma call_usable c s : usable c (call c s).1.
Proof.
  destruct c as [[a|e] t f|[l|e] t]; simpl; [| |unfold fast|].
  - unfold safe_score. destruct (degraded s); [by right|]. destruct (contract_violation a) eqn:E; [by right|].
    assert (∃ r, a = A_score r ∧ f_finite (s_score r) = true ∧ s_terms r ≠ []) as (r & -> & Hf & Ht).
    { destruct a as [| |r]; try done. simpl in E. exists r. destruct (f_finite (s_score r)); [|done]. simpl in E.
      split_and!; [done..|]. by destruct (s_terms r). }
    destruct (fltb (budget_s s) t); by left.
  - destruct (degraded s); [by right|done].
  - destruct (fast_path s); [|done]. simpl. destruct l as [|v]; [done|].
    destruct (f_finite v) eqn:Ef; simpl; [|done]. eauto 6.
  - by destruct (fast_path s).
Qed.

Lemma call_degrades c s :
  degraded s = false →
  let bad := misbehaves (delegate_has_logit s) (budget_s s) c in
  degraded (call c s).2 = bad ∧ budget_s (call c s).2 = budget_s s ∧
  delegate_has_logit (call c s).2 = delegate_has_logit s ∧ failures (call c s).2 = failures s + (if bad then 1 else 0).
Proof.
  intros Hd. assert (0 = 0 -> failures s = failures s + 0) as Hz by lia. destruct c as [[a|e] t f|[l|e] t]; simpl.
  - unfold safe_score. rewrite Hd. destruct (contract_violation a) as [why|]; simpl; [done|].
    destruct (fltb (budget_s s) t); simpl; [done|]. rewrite Hd. auto.
  - rewrite Hd. simpl. auto.
  - unfold fast, fast_path. rewrite Hd. simpl. destruct (delegate_has_logit s) eqn:Hl; simpl.
    + destruct l as [|v]; simpl; [done|]. destruct (f_finite v); simpl; [|done]. destruct (fltb (budget_s s) t); simpl; [done|]. rewrite Hd, Hl. auto.
    + rewrite Hd, Hl. destruct l; auto.
  - destruct (fast_path s); simpl; auto.
Qed.

Lemma calls_degraded cs s : degraded s = true → calls cs s = (map of_formula cs, s).
Proof.
  intros Hd. induction cs as [|c cs IH]; [done|]. cbn [calls map].
  assert (call c s = (of_formula c, s)) as ->; [|by rewrite IH].
  destruct c as [[a|e] t f|[l|e] t]; simpl; unfold safe_score, fast, fast_path; by rewrite Hd.
Qed.

Lemma calls_split cs s i c :
  cs !! i = Some c → ∃ s1, s1 = (calls (take i cs) s).2 ∧
  calls cs s = ((calls (take i cs) s).1 ++ (call c s1).1 :: (calls (drop (S i) cs) (call c s1).2).1,
                (calls (drop (S i) cs) (call c s1).2).2).
Proof.
  revert cs s. induction i as [|i IH]; intros [|c' cs] s Hi; try done; simpl in Hi.
  - injection Hi as ->. eexists. split; [reflexivity|]. cbn [calls take drop fst snd app]. destruct (call c s) as [r s1].
    cbn [fst snd]. rewrite ?drop_0. destruct (calls cs s1). reflexivity.
  - cbn [calls take drop]. destruct (call c' s) as [r s1]. destruct (IH cs s1 Hi) as (s2 & -> & ->). eexists. split; [done|].
    simpl. by destruct (calls (take i cs) s1).
Qed.

(** C10: whatever a scorer does (raise, return anything that is no score, answer infinity, explain nothing,
    overrun its budget) a caller gets a verdict it may use: the scorer's own, finite and explained, or the
    formula's, by the full path or by the fast one, whether it has a logit or not. After the first
    misbehaviour the wrapper sees, every later verdict is the formula's and it is counted once; without one
    the scorer is never replaced. One thing is not caught, though the wrapper is to catch any misbehaviour:
    an answer on which the check itself raises (a score that is not a number, or a threshold that is not
    one), which the caller then gets as that exception, each time, unless the scorer was replaced before. *)
Theorem a_bad_scorer_is_replaced_for_good cs has_logit threshold :
  let s := new_safe has_logit threshold in
  let bad := misbehaves has_logit SCORE_BUDGET_S in
  Forall2 usable cs (calls cs s).1 ∧
  (∀ i c, cs !! i = Some c → Forall (fun c => bad c = false) (take i cs) → bad c = true →
     drop (S i) (calls cs s).1 = map of_formula (drop (S i) cs) ∧ failures (calls cs s).2 = 1) ∧
  (Forall (fun c => bad c = false) cs → degraded (calls cs s).2 = false ∧ failures (calls cs s).2 = 0).
Proof.
  intros s bad.
  assert (∀ cs s, Forall2 usable cs (calls cs s).1) as Hus.
  { clear. induction cs as [|c cs IH]; intros s; [constructor|]. cbn [calls]. pose proof (call_usable c s) as Hc.
    destruct (call c s) as [r s1]. specialize (IH s1). destruct (calls cs s1). by constructor. }
  assert (∀ cs s, delegate_has_logit s = has_logit → degraded s = false → failures s = 0 → budget_s s = SCORE_BUDGET_S →
    Forall (fun c => bad c = false) cs →
    degraded (calls cs s).2 = false ∧ failures (calls cs s).2 = 0 ∧ budget_s (calls cs s).2 = SCORE_BUDGET_S ∧
    delegate_has_logit (calls cs s).2 = has_logit) as Hgood.
  { clear -bad. induction cs as [|c cs IH]; intros s Hl Hd Hf Hb Hm; [done|]. apply Forall_cons in Hm as [Hc Hm]. cbn [calls].
    destruct (call_degrades c s Hd) as (H1 & H2 & H3 & H4). rewrite Hl, Hb in *. fold bad in H1, H4. rewrite Hc in *. destruct (call c s) as [r s1]. simpl in *.
    destruct (IH s1) as (G1 & G2 & G3 & G4); [done|done|lia|done|done|]. by destruct (calls cs s1). }
  split; [apply Hus|]. split.
  - intros i c Hi Hb Hm. destruct (calls_split cs s i c Hi) as (s1 & Hs1 & ->).
    destruct (Hgood (take i cs) s) as (G1 & G2 & G3 & G4); [done..|]. rewrite <- Hs1 in *.
    destruct (call_degrades c s1 G1) as (H1 & H2 & H3 & H4). rewrite G3, G4 in H1, H4. fold bad in H1, H4. rewrite Hm in H1, H4.
    rewrite (calls_degraded _ _ H1). cbn [fst snd]. split; [|lia].
    assert (length (calls (take i cs) s).1 = i) as Hlen.
    { rewrite <- (Forall2_length _ _ _ (Hus (take i cs) s)), length_take. apply lookup_lt_Some in Hi. lia. }
    rewrite drop_app_ge by lia. rewrite Hlen. by replace (S i - i)%nat with 1%nat by lia.
  - intros Hm. destruct (Hgood cs s) as (G1 & G2 & _); done.
Qed.
End formula.

(** ** Concrete histories *)

(** [exp] as 1: any decay will do. *)
Definition flat (_ : float) : float := f_one.
Definition features0 : LinkFeatures := MkFeatures (f_of_Z 3) 7 8 (f_lit 1 2) 1 2 (f_lit 1 2) None None.
Definition infinite : LinkScore := MkScore true (S754_infinity false) f_zero [MkTerm "x" f_one f_one f_one] "weighted-sum" f_zero.
Definition fine : LinkScore := MkScore true f_one f_zero [MkTerm "x" f_one f_one f_one] "weighted-sum" f_zero.
Definition scored (r : LinkScore) : Call := C_score (SR_answer (A_score r)) f_zero features0.
Definition calls3 : list Call := [scored fine; scored infinite; scored fine].

Lemma a_bad_scorer_is_replaced_for_good_witness :
  (calls flat calls3 (new_safe false f_zero)).1 = [R_score (Ok fine); R_score (Ok (fallback flat features0)); R_score (Ok (fallback flat features0))] ∧
  failures (calls flat calls3 (new_safe false f_zero)).2 = 1.
Proof.
  split; [vm_compute; reflexivity|].
  destruct (a_bad_scorer_is_replaced_for_good flat calls3 false f_zero) as (_ & Hbad & _).
  apply (Hbad 1%nat (scored infinite)); [reflexivity | repeat constructor | reflexivity].
Defined.

(** A score that is not a number leaves the wrapper as a [TypeError], again and again. *)
Example an_unnumbered_score_raises :
  let c := C_score (SR_breaks "TypeError") f_zero features0 in
  calls flat [c; c] (new_safe false f_zero) = ([R_score (Err "TypeError"); R_score (Err "TypeError")], new_safe false f_zero).
Proof. vm_compute. reflexivity. Qed.
