(* ===== verification/Incidents.v ===== *)
(** * Which incident a situation belongs to ([engine/dataset/incidents.py])

    A merged situation names the one it went into; its incident is where that chain ends. What the schema
    does not forbid, a chain that comes back or does not end, is told apart and never raises. *)
From S2P Require Import Prelude.

Definition MAX_CHAIN_DEPTH : nat := 64.

Record Resolution := MkResolution { incident : Z; cycle : bool; unterminated : bool }.

Section incidents.
Context (merged_into : gmap Z Z).

(** [min] of a set that is not empty. *)
Definition least (l : list Z) : Z := match l with x :: l => foldr Z.min x l | [] => 0 end.

(** [_cycle_members]: the loop's turns left, the members so far, the node. *)
Fixpoint cycle_walk (turns : nat) (entry : Z) (members : list Z) (node : Z) : list Z :=
  match turns with
  | O => members
  | S turns =>
      if node =? entry then members
      else match merged_into !! node with
           | None => node :: members
           | Some next => cycle_walk turns entry (node :: members) next
           end
  end.
(** [merged_into[entry]]: a node of a cycle has an edge. *)
Definition cycle_members (entry : Z) : list Z :=
  match merged_into !! entry with Some node => cycle_walk MAX_CHAIN_DEPTH entry [entry] node | None => [entry] end.

Fixpoint walk (turns : nat) (seen : list Z) (current : Z) : Resolution :=
  match turns with
  | O => MkResolution current false true
  | S turns =>
      match merged_into !! current with
      | None => MkResolution current false false
      | Some nxt => if bool_decide (nxt ∈ seen) then MkResolution (least (cycle_members nxt)) true false else walk turns (nxt :: seen) nxt
      end
  end.

Definition resolve (situation : Z) : Resolution := walk MAX_CHAIN_DEPTH [situation] situation.

(** [IncidentMap], as [resolve_all] fills it. *)
Record IncidentMap := MkIncidentMap { incident_of : gmap Z Z; one_hop_of : gmap Z Z; cycles : gset Z; unterminated_of : gset Z }.

Definition resolve_one (m : IncidentMap) (situation : Z) : IncidentMap :=
  let outcome := resolve situation in
  MkIncidentMap (<[situation := incident outcome]> (incident_of m))
    (<[situation := default situation (merged_into !! situation)]> (one_hop_of m))
    (if cycle outcome then {[situation]} ∪ cycles m else cycles m)
    (if unterminated outcome then {[situation]} ∪ unterminated_of m else unterminated_of m).
Definition resolve_all (situations : list Z) : IncidentMap := foldl resolve_one (MkIncidentMap ∅ ∅ ∅ ∅) situations.
End incidents.

(** Distinct values. *)
Definition distinct (m : gmap Z Z) : gset Z := map_to_set (fun _ v => v) m.
Definition incidents (m : IncidentMap) : nat := size (distinct (incident_of m)).
Definition incidents_one_hop (m : IncidentMap) : nat := size (distinct (one_hop_of m)).
Definition unsound_situations (m : IncidentMap) : gset Z := cycles m ∪ unterminated_of m.
(** What [stamp] writes on a row. *)
Definition stamped (m : IncidentMap) (situation : Z) : Z := default situation (incident_of m !! situation).

(** ** Chains *)

Section chains.
Context (merged_into : gmap Z Z).
Abbreviation step := (fun x => merged_into !! x).

(** [n] hops from [x]. *)
Fixpoint hops (n : nat) (x : Z) : option Z :=
  match n with O => Some x | S n => merged_into !! x ≫= hops n end.

Lemma hops_add n k x : hops (n + k) x = hops n x ≫= hops k.
Proof. revert x. induction n as [|n IH]; intros x; [done|]. cbn [Nat.add hops]. destruct (merged_into !! x); [|done]. apply IH. Qed.

Lemma hops_1 x : hops 1 x = merged_into !! x.
Proof. cbn. by destruct (merged_into !! x). Qed.

Lemma hops_S n x : hops (S n) x = hops n x ≫= (fun y => merged_into !! y).
Proof. replace (S n) with (n + 1)%nat by lia. rewrite hops_add. destruct (hops n x); [|done]. cbn. by destruct (merged_into !! _). Qed.

Lemma hops_le n k x y : hops n x = Some y -> (k <= n)%nat -> is_Some (hops k x).
Proof. intros H Hk. replace n with (k + (n - k))%nat in H by lia. rewrite hops_add in H. by destruct (hops k x). Qed.

(** A loop through [e] of length [l], visiting each of its situations once. *)
Definition loop (l : nat) (e : Z) : Prop := (0 < l)%nat ∧ hops l e = Some e ∧ ∀ k, (0 < k < l)%nat -> hops k e ≠ Some e.
(** What it visits. *)
Definition on_loop (l : nat) (e x : Z) : Prop := ∃ k, (k < l)%nat ∧ hops k e = Some x.

Lemma cycle_walk_visits l e turns n members node :
  loop l e -> (0 < n <= l)%nat -> hops n e = Some node -> (l <= n + turns - 1)%nat -> (0 < turns)%nat -> (∀ x, x ∈ members ↔ ∃ k, (k < n)%nat ∧ hops k e = Some x) ->
  ∀ x, x ∈ cycle_walk merged_into turns e members node ↔ on_loop l e x.
Proof.
  intros (Hl & Hr & Hd). revert n members node. induction turns as [|turns IH]; intros n members node Hn Hh Ht H0 Hm x; [lia|]. cbn [cycle_walk].
  destruct (Z.eqb_spec node e) as [->|Hne].
  { assert (n = l) as -> by (destruct (Nat.eq_dec n l); [done|]; exfalso; apply (Hd n); [lia|done]). apply Hm. }
  assert (n < l)%nat as Hlt by (destruct (Nat.eq_dec n l) as [->|]; [congruence|lia]).
  destruct (hops_le l (S n) e e Hr ltac:(lia)) as [next Hs]. pose proof Hs as Hs'. rewrite hops_S, Hh in Hs'. cbn in Hs'. rewrite Hs'.
  apply (IH (S n)); [lia|done|lia|lia|]. intros z. rewrite elem_of_cons, Hm. split.
  - intros [->|(k & Hk & E)]; [exists n; split; [lia|done]|exists k; split; [lia|done]].
  - intros (k & Hk & E). destruct (Nat.eq_dec k n) as [->|]; [left; congruence|right; exists k; split; [lia|done]].
Qed.

Lemma cycle_members_are_the_loop l e : loop l e -> (l <= MAX_CHAIN_DEPTH)%nat -> ∀ x, x ∈ cycle_members merged_into e ↔ on_loop l e x.
Proof.
  intros H Hl x. unfold cycle_members. pose proof H as (H1 & H2 & H3). destruct (hops_le l 1 e e H2 ltac:(lia)) as [node Hn]. rewrite hops_1 in Hn. rewrite Hn.
  apply (cycle_walk_visits l e MAX_CHAIN_DEPTH 1); [done|lia|by rewrite hops_1|lia|unfold MAX_CHAIN_DEPTH; lia|].
  intros z. rewrite list_elem_of_singleton. split; [intros ->; exists 0%nat; split; [lia|done]|]. intros (k & Hk & E). destruct k; [|lia]. by injection E.
Qed.

Lemma least_least l x : x ∈ l -> least l ∈ l ∧ least l <= x.
Proof.
  destruct l as [|a l]; [by intros ?%not_elem_of_nil|]. cbn [least]. assert (foldr Z.min a l ∈ a :: l ∧ ∀ y, y ∈ a :: l -> foldr Z.min a l <= y) as [H1 H2]; [|auto].
  induction l as [|b l [I1 I2]]; cbn [foldr].
  - split; [by left|]. intros y ->%list_elem_of_singleton. lia.
  - split.
    + destruct (Z.min_spec b (foldr Z.min a l)) as [[_ ->]|[_ ->]]; [right; by left|]. apply elem_of_cons in I1 as [E|I1]; [rewrite E; by left|]. right. by right.
    + intros y [->|[->|Hy]%elem_of_cons]%elem_of_cons; [pose proof (I2 a ltac:(by left))|..]; [lia|lia|]. pose proof (I2 y ltac:(by right)). lia.
Qed.

Lemma least_same l l' x : x ∈ l -> (∀ y, y ∈ l ↔ y ∈ l') -> least l = least l'.
Proof.
  intros Hx H. destruct (least_least l x Hx) as [H1 _]. destruct (least_least l' x) as [H2 _]; [by apply H|].
  pose proof (least_least l (least l') ltac:(by apply H)). pose proof (least_least l' (least l) ltac:(by apply H)). lia.
Qed.

(** A loop from any of its situations is the same loop. *)
Lemma loop_shift l e x : loop l e -> merged_into !! e = Some x -> loop l x ∧ ∀ y, on_loop l e y ↔ on_loop l x y.
Proof.
  intros (H1 & H2 & H3) Hx.
  assert (∀ k, hops (S k) e = hops k x) as Hs by (intros k; cbn; by rewrite Hx).
  assert (hops (l - 1) x = Some e) as Hb by (rewrite <- Hs; by replace (S (l - 1)) with l by lia).
  split.
  - split_and!; [done| |].
    + replace l with ((l - 1) + 1)%nat by lia. rewrite hops_add, Hb. cbn. by rewrite Hx.
    + intros k Hk E. apply (H3 k Hk). assert (hops (k + (l - 1)) x = Some e) as Hk' by (rewrite hops_add, E; done).
      rewrite Nat.add_comm, hops_add, Hb in Hk'. done.
  - intros y. split.
    + intros (k & Hk & E). destruct k as [|k]; [injection E as <-; exists (l - 1)%nat; split; [lia|done]|]. exists k. split; [lia|]. by rewrite <- Hs.
    + intros (k & Hk & E). rewrite <- Hs in E. destruct (Nat.eq_dec (S k) l) as [El|]; [|exists (S k); split; [lia|done]].
      rewrite El in E. exists 0%nat. split; [lia|]. cbn. congruence.
Qed.

Lemma loop_moves l e n x : loop l e -> hops n e = Some x -> loop l x ∧ ∀ y, on_loop l e y ↔ on_loop l x y.
Proof.
  revert e. induction n as [|n IH]; intros e Hl; [by intros [= <-]|]. cbn [hops]. destruct (merged_into !! e) as [z|] eqn:E; [|done]. cbn. intros Hx.
  destruct (loop_shift l e z Hl E) as [L1 L2]. destruct (IH z L1 Hx) as [M1 M2]. split; [done|]. intros y. by rewrite L2.
Qed.

(** *** What a walk finds *)

(** [e] ends the chain from [s], after [k] hops. *)
Definition ends (s : Z) (k : nat) (e : Z) : Prop := hops k s = Some e ∧ merged_into !! e = None.
(** The chain from [s] enters a loop of length [l] after [i] hops. *)
Definition enters (s : Z) (i l : nat) : Prop := ∃ e, hops i s = Some e ∧ loop l e ∧ ∀ k, (k < i)%nat -> ∀ x, hops k s = Some x -> ¬ on_loop l e x.

Lemma walk_spec turns n s seen current :
  hops n s = Some current -> (∀ x, x ∈ seen ↔ ∃ k, (k <= n)%nat ∧ hops k s = Some x) -> (∀ j k x, (j < k <= n)%nat -> hops j s = Some x -> hops k s ≠ Some x) ->
  (n + turns = MAX_CHAIN_DEPTH)%nat ->
  let r := walk merged_into turns seen current in
  (∃ k e, (n <= k < n + turns)%nat ∧ ends s k e ∧ r = MkResolution e false false)
  ∨ (∃ i l e, hops i s = Some e ∧ (i + l <= n + turns)%nat ∧ (n < i + l)%nat ∧ enters s i l ∧ r = MkResolution (least (cycle_members merged_into e)) true false)
  ∨ (is_Some (hops (n + turns) s) ∧ (∀ j k x, (j < k <= n + turns)%nat -> hops j s = Some x -> hops k s ≠ Some x) ∧ unterminated r = true ∧ cycle r = false).
Proof.
  revert n seen current. induction turns as [|turns IH]; intros n seen current Hc Hseen Hd Ht r; cbn [walk] in r.
  { right. right. rewrite Nat.add_0_r. split_and!; eauto. }
  destruct (merged_into !! current) as [nxt|] eqn:E.
  2: { left. exists n, current. split_and!; [lia|lia|by split|done]. }
  assert (hops (S n) s = Some nxt) as Hn by (by rewrite hops_S, Hc).
  subst r. case_bool_decide as Hin.
  - right. left. apply Hseen in Hin as (i & Hi & Ei). exists i, (S n - i)%nat, nxt. split_and!; [done|lia|lia| |done].
    exists nxt. split; [done|].
    assert (∀ k, hops (i + k) s = hops k nxt) as Hk by (intros k; by rewrite hops_add, Ei).
    assert (loop (S n - i) nxt) as Hl.
    { split_and!; [lia| |].
      - rewrite <- Hk. replace (i + (S n - i))%nat with (S n) by lia. done.
      - intros k Hk2. rewrite <- Hk. apply (Hd i); [lia|done]. }
    split; [done|]. intros k Hki x Ex (m & Hm & Em). rewrite <- Hk in Em. apply (Hd k (i + m)%nat x); [lia|done|done].
  - destruct (IH (S n) (nxt :: seen) nxt Hn) as [H|[H|H]]; [| |lia| | |].
    + intros x. rewrite elem_of_cons, Hseen. split.
      * intros [->|(k & Hk & Ek)]; [exists (S n); split; [lia|done]|exists k; split; [lia|done]].
      * intros (k & Hk & Ek). destruct (Nat.eq_dec k (S n)) as [->|]; [left; congruence|right; exists k; split; [lia|done]].
    + intros j k x Hj Ej. destruct (Nat.eq_dec k (S n)) as [->|]; [|apply (Hd j); [lia|done]].
      intros Ek. apply Hin. rewrite Hn in Ek. injection Ek as ->. apply Hseen. exists j. split; [lia|done].
    + left. destruct H as (k & e & H1 & H2 & H3). exists k, e. split_and!; try done; lia.
    + right. left. destruct H as (i & l & e & H1 & H2 & H3 & H4 & H5). exists i, l, e. split_and!; try done; lia.
    + right. right. replace (n + S turns)%nat with (S n + turns)%nat by lia. done.
Qed.

Lemma resolve_spec s :
  let r := resolve merged_into s in
  (∃ k e, (k < MAX_CHAIN_DEPTH)%nat ∧ ends s k e ∧ r = MkResolution e false false)
  ∨ (∃ i l e, hops i s = Some e ∧ (i + l <= MAX_CHAIN_DEPTH)%nat ∧ enters s i l ∧ r = MkResolution (least (cycle_members merged_into e)) true false)
  ∨ (is_Some (hops MAX_CHAIN_DEPTH s) ∧ (∀ j k x, (j < k <= MAX_CHAIN_DEPTH)%nat -> hops j s = Some x -> hops k s ≠ Some x) ∧ unterminated r = true ∧ cycle r = false).
Proof.
  destruct (walk_spec MAX_CHAIN_DEPTH 0 s [s] s) as [(k & e & H1 & H2 & H3)|[(i & l & e & H1 & H2 & _ & H3 & H4)|H]].
  - done.
  - intros x. rewrite list_elem_of_singleton. split; [intros ->; by exists 0%nat|]. intros (k & Hk & E). assert (k = 0%nat) as -> by lia. by injection E.
  - lia.
  - done.
  - left. exists k, e. split_and!; try done; lia.
  - right. left. by exists i, l, e.
  - right. right. done.
Qed.

(** *** Which one it is *)

Lemma loop_total l e n : loop l e -> is_Some (hops n e).
Proof.
  intros (H1 & H2 & _). induction n as [n IH] using lt_wf_ind. destruct (Nat.lt_ge_cases n l); [apply (hops_le l n e e H2); lia|].
  replace n with (l + (n - l))%nat by lia. rewrite hops_add, H2. apply IH. lia.
Qed.

Lemma loop_length l l' x : loop l x -> loop l' x -> l = l'.
Proof.
  intros (H1 & H2 & H3) (G1 & G2 & G3). destruct (Nat.lt_trichotomy l l') as [H|[H|H]]; [|done|]; exfalso; [apply (G3 l)|apply (H3 l')]; done.
Qed.

Lemma entered_total s i l n : enters s i l -> is_Some (hops n s).
Proof.
  intros (e & H1 & H2 & _). destruct (Nat.lt_ge_cases n i); [apply (hops_le i n s e H1); lia|].
  replace n with (i + (n - i))%nat by lia. rewrite hops_add, H1. by apply (loop_total l).
Qed.

Lemma one_loop s i l e i' l' e' :
  hops i s = Some e -> loop l e -> hops i' s = Some e' -> loop l' e' -> l = l' ∧ ∀ y, on_loop l e y ↔ on_loop l' e' y.
Proof.
  intros H1 H2 G1 G2. destruct (loop_total l e (Nat.max i i' - i) H2) as [x Hx].
  assert (hops (Nat.max i i') s = Some x) as Hm by (replace (Nat.max i i') with (i + (Nat.max i i' - i))%nat by lia; rewrite hops_add, H1; done).
  assert (hops (Nat.max i i' - i') e' = Some x) as Hx' by (replace (Nat.max i i') with (i' + (Nat.max i i' - i'))%nat in Hm by lia; rewrite hops_add, G1 in Hm; done).
  destruct (loop_moves l e _ x H2 Hx) as [A1 A2]. destruct (loop_moves l' e' _ x G2 Hx') as [B1 B2].
  assert (l = l') as <- by (by apply (loop_length _ _ x)). split; [done|]. intros y. by rewrite A2, B2.
Qed.

Lemma least_of_one_loop l e l' e' :
  loop l e -> loop l' e' -> (l <= MAX_CHAIN_DEPTH)%nat -> (l' <= MAX_CHAIN_DEPTH)%nat -> (∀ y, on_loop l e y ↔ on_loop l' e' y) ->
  least (cycle_members merged_into e) = least (cycle_members merged_into e').
Proof.
  intros H1 H2 L1 L2 H. apply (least_same _ _ e).
  - apply (cycle_members_are_the_loop l e H1 L1). exists 0%nat. by destruct H1.
  - intros y. by rewrite (cycle_members_are_the_loop l e H1 L1), (cycle_members_are_the_loop l' e' H2 L2).
Qed.

Lemma resolve_ends s k e : (k < MAX_CHAIN_DEPTH)%nat -> ends s k e -> resolve merged_into s = MkResolution e false false.
Proof.
  intros Hk [H1 H2]. assert (∀ n, (k < n)%nat -> hops n s = None) as Hnone.
  { intros n Hn. replace n with (k + S (n - k - 1))%nat by lia. rewrite hops_add, H1. cbn. by rewrite H2. }
  destruct (resolve_spec s) as [(k' & e' & _ & [G1 G2] & ->)|[(i & l & e' & _ & _ & Hen & _)|([y Hy] & _)]].
  - destruct (Nat.lt_trichotomy k k') as [Hl|[->|Hl]]; [by rewrite Hnone in G1|congruence|].
    assert (hops (S k') s = None) as Hx by (by rewrite hops_S, G1). destruct (hops_le k (S k') s e H1) as [? Hy]; [lia|congruence].
  - destruct (entered_total s i l (S k) Hen) as [? Hx]. by rewrite Hnone in Hx by lia.
  - by rewrite Hnone in Hy by done.
Qed.

Lemma resolve_enters s i l e :
  (i + l <= MAX_CHAIN_DEPTH)%nat -> hops i s = Some e -> loop l e -> resolve merged_into s = MkResolution (least (cycle_members merged_into e)) true false.
Proof.
  intros Hl H1 H2. assert (∀ n, is_Some (hops n s)) as Ht.
  { intros n. destruct (Nat.lt_ge_cases n i); [apply (hops_le i n s e H1); lia|].
    replace n with (i + (n - i))%nat by lia. rewrite hops_add, H1. by apply (loop_total l). }
  destruct (resolve_spec s) as [(k' & e' & _ & [G1 G2] & _)|[(i' & l' & e' & G1 & G2 & (e2 & G3 & G4 & _) & ->)|(_ & Hd & _)]].
  - destruct (Ht (S k')) as [? Hx]. rewrite hops_S, G1 in Hx. cbn in Hx. congruence.
  - assert (e2 = e') as -> by congruence. f_equal. symmetry. destruct (one_loop s i l e i' l' e' H1 H2 G1 G4) as [_ Ho].
    by apply (least_of_one_loop l e l' e'); [done|done|lia|lia|].
  - exfalso. destruct H2 as (H2 & H3 & _). apply (Hd i (i + l)%nat e); [lia|done|]. rewrite hops_add, H1. done.
Qed.

(** Two situations of which one was merged into the other are one incident, however far the chain goes on
    from them and also when it comes back: as long as the chain from the first is one the walk can tell
    (it ends within 63 hops, or is back within 64), following one edge first changes nothing. *)
Theorem merging_keeps_one_incident s t :
  merged_into !! s = Some t -> unterminated (resolve merged_into s) = false -> resolve merged_into t = resolve merged_into s.
Proof.
  intros Hst Hu. assert (∀ n, hops (S n) s = hops n t) as Hn by (intros n; cbn; by rewrite Hst).
  destruct (resolve_spec s) as [(k & e & Hk & [H1 H2] & E)|[(i & l & e & H1 & H2 & (e2 & H3 & H4 & _) & E)|(_ & _ & Hx & _)]]; [| |congruence]; rewrite E.
  - destruct k as [|k]; [injection H1 as <-; congruence|]. rewrite Hn in H1. apply (resolve_ends t k e); [lia|by split].
  - assert (e2 = e) as -> by congruence. destruct i as [|i].
    + injection H1 as <-. destruct (loop_shift l s t H4 Hst) as [L1 L2]. rewrite (resolve_enters t 0 l t ltac:(lia) eq_refl L1). f_equal.
      symmetry. by apply (least_of_one_loop l s l t); [done|done|lia|lia|].
    + rewrite Hn in H1. by apply (resolve_enters t i l e); [lia|..].
Qed.

(** What a resolution says: the situation that ends the chain, itself its own incident; or the least
    situation of the loop the chain enters, and nothing of the tail into it; or that it found neither in 64
    hops, all through different situations. *)
Theorem an_incident_is_where_the_chain_goes s :
  let r := resolve merged_into s in
  (cycle r = false -> unterminated r = false -> ∃ k, (k < MAX_CHAIN_DEPTH)%nat ∧ hops k s = Some (incident r) ∧ merged_into !! incident r = None)
  ∧ (cycle r = true -> unterminated r = false ∧ ∃ i l e, hops i s = Some e ∧ loop l e ∧ on_loop l e (incident r) ∧ ∀ x, on_loop l e x -> incident r <= x)
  ∧ (unterminated r = true -> cycle r = false ∧ ∀ j k x, (j < k <= MAX_CHAIN_DEPTH)%nat -> hops j s = Some x -> is_Some (hops k s) ∧ hops k s ≠ Some x).
Proof.
  intros r. destruct (resolve_spec s) as [(k & e & Hk & [H1 H2] & E)|[(i & l & e & H1 & H2 & (e2 & H3 & H4 & _) & E)|(Hs & Hd & Hx & Hc)]]; subst r.
  - rewrite E. cbn. split_and!; try done. intros _ _. by exists k.
  - rewrite E. cbn [cycle unterminated incident]. split_and!; try done. intros _. split; [done|]. assert (e2 = e) as -> by congruence. exists i, l, e.
    pose proof (cycle_members_are_the_loop l e H4 ltac:(lia)) as Hm.
    assert (e ∈ cycle_members merged_into e) as He by (apply Hm; exists 0%nat; split; [by destruct H4|done]).
    destruct (least_least _ _ He) as [L1 _]. split_and!; [done|done|by apply Hm|]. intros x Hxo. apply (least_least _ x). by apply Hm.
  - split_and!; [congruence|congruence|]. intros _. split; [done|]. intros j k x Hj Ej. split; [|by apply (Hd j)]. destruct Hs as [y Hy]. apply (hops_le _ k _ _ Hy). lia.
Qed.
End chains.

(** ** Examples *)

Definition chain_of (n : nat) : gmap Z Z := list_to_map (map (fun i => (Z.of_nat i, Z.of_nat (S i))) (seq 0 n)).

Lemma merging_keeps_one_incident_witness : resolve (<[1 := 7]> (<[7 := 8]> (<[8 := 7]> ∅))) 7 = resolve (<[1 := 7]> (<[7 := 8]> (<[8 := 7]> ∅))) 1.
Proof. apply (merging_keeps_one_incident (<[1 := 7]> (<[7 := 8]> (<[8 := 7]> ∅))) 1 7); vm_compute; reflexivity. Defined.

(** The least situation of the loop, not of the walk: the tail 1 does not name the incident. *)
Example a_tail_is_not_the_loop : resolve (<[1 := 7]> (<[7 := 8]> (<[8 := 7]> ∅))) 1 = MkResolution 7 true false.
Proof. vm_compute. reflexivity. Qed.

(** A chain of 64 hops ends, and is reported as one that does not: the walk looks at 64 situations. *)
Example a_chain_of_64_is_called_endless :
  resolve (chain_of 63) 0 = MkResolution 63 false false ∧ resolve (chain_of 64) 0 = MkResolution 64 false true.
Proof. vm_compute. split; reflexivity. Qed.
