(* ===== verification/Partitions.v ===== *)
(** * Partitions of a bag and how they are scored ([engine/evaluation/shadow_eval.py])

    Union-find over accepted links, the rates of a partition against the operators' verdicts, and the scores of
    one set of link decisions. A pair's features and the scorer are arguments. *)
From S2P Require Import Prelude.

(** ** Union-find *)

(** [find]: the root and the parents after path halving. [None] is a [KeyError], or fuel run out. *)
Fixpoint find_root (fuel : nat) (parent : gmap Z Z) (x : Z) : option (Z * gmap Z Z) :=
  p ← parent !! x;
  if p =? x then Some (x, parent)
  else match fuel with
  | O => None
  | S fuel => g ← parent !! p; find_root fuel (<[x := g]> parent) g
  end.

Definition find (parent : gmap Z Z) (x : Z) : option (Z * gmap Z Z) := find_root (size parent) parent x.

Definition union_edge (parent : option (gmap Z Z)) (e : Z * Z) : option (gmap Z Z) :=
  parent ← parent;
  match parent !! e.1, parent !! e.2 with
  | Some _, Some _ =>
      '(ra, parent) ← find parent e.1;
      '(rb, parent) ← find parent e.2;
      Some (if ra =? rb then parent else <[Z.max ra rb := Z.min ra rb]> parent)
  | _, _ => Some parent
  end.

Definition singletons (members : gset Z) : gmap Z Z := set_to_map (fun a => (a, a)) members.

(** [{alarm: find(alarm) for alarm in sorted(members)}]: each [find] halves what the next one walks. *)
Fixpoint name_all (parent : gmap Z Z) (alarms : list Z) : option (list (Z * Z)) :=
  match alarms with
  | [] => Some []
  | a :: l => '(r, parent) ← find parent a; rest ← name_all parent l; Some ((a, r) :: rest)
  end.

(** [sorted(members)]. *)
Definition sorted (members : gset Z) : list Z := merge_sort Z.le (elements members).

Definition partition (edges : list (Z * Z)) (members : gset Z) : option (gmap Z Z) :=
  parent ← foldl union_edge (Some (singletons members)) edges;
  list_to_map <$> name_all parent (sorted members).

(** ** Roots *)

(** [r] is where the parents of [x] lead. *)
Inductive root (parent : gmap Z Z) : Z -> Z -> Prop :=
| root_here x : parent !! x = Some x -> root parent x x
| root_up x p r : parent !! x = Some p -> p ≠ x -> root parent p r -> root parent x r.

(** Parents are smaller members. *)
Definition forest (parent : gmap Z Z) : Prop := ∀ x p, parent !! x = Some p -> p <= x ∧ is_Some (parent !! p).

Lemma root_member parent x r : root parent x r -> is_Some (parent !! x) ∧ parent !! r = Some r.
Proof. induction 1 as [x H|x p r H Hn _ [_ IH]]; split; eauto. Qed.

Lemma root_unique parent x r r' : root parent x r -> root parent x r' -> r = r'.
Proof.
  intros H. revert r'. induction H as [x H|x p r H Hn _ IH]; intros r' H'; inversion H'; subst; [done|congruence|congruence|].
  apply IH. congruence.
Qed.

Lemma root_le parent x r : forest parent -> root parent x r -> r <= x.
Proof. intros F. induction 1 as [x H|x p r H Hn _ IH]; [lia|]. destruct (F x p H). lia. Qed.

(** How many members are below [x]: fewer and fewer on the way up. *)
Definition below (x : Z) (parent : gmap Z Z) : nat := size (filter (fun e : Z * Z => e.1 < x) parent).

Lemma below_decreases parent parent' g p x v :
  g <= p -> p < x -> parent !! p = Some v -> (∀ k, k < g -> parent' !! k = parent !! k) -> (below g parent' < below x parent)%nat.
Proof.
  intros Hg Hp Hv Hk. apply map_subset_size. split.
  - apply map_subseteq_spec. intros k w [Hw H]%map_lookup_filter_Some. cbn in H. rewrite Hk in Hw by done. apply map_lookup_filter_Some. split; [done|cbn; lia].
  - intros Hsub. assert (filter (fun e : Z * Z => e.1 < x) parent !! p = Some v) as E by (apply map_lookup_filter_Some; split; [done|cbn; lia]).
    apply (lookup_weaken _ _ _ _ E) in Hsub. apply map_lookup_filter_Some in Hsub as [_ H]. cbn in H. lia.
Qed.

Lemma root_exists parent x : forest parent -> is_Some (parent !! x) -> ∃ r, root parent x r.
Proof.
  intros F. remember (below x parent) as n eqn:E. revert x E. induction n as [n IH] using lt_wf_ind. intros x -> [p Hp].
  destruct (Z.eq_dec p x) as [->|Hn]; [exists x; by constructor|]. destruct (F x p Hp) as [Hle [g Hg]].
  destruct (IH (below p parent)) with (x := p) as [r Hr]; [|done|eauto|exists r; by eapply root_up].
  apply (below_decreases parent parent p p x g); [lia|lia|done|done].
Qed.

(** *** Halving a path moves no root *)

Lemma halved_forest parent x p g : forest parent -> parent !! x = Some p -> parent !! p = Some g -> forest (<[x := g]> parent).
Proof.
  intros F Hx Hp y q. destruct (Z.eq_dec y x) as [->|Hn].
  - rewrite lookup_insert_eq. intros [= <-]. destruct (F x p Hx), (F p g Hp) as [? Hs]. split; [lia|].
    destruct (Z.eq_dec g x) as [->|]; [rewrite lookup_insert_eq; eauto|by rewrite lookup_insert_ne].
  - rewrite lookup_insert_ne by done. intros Hy. destruct (F y q Hy) as [? Hs]. split; [done|].
    destruct (Z.eq_dec q x) as [->|]; [rewrite lookup_insert_eq; eauto|by rewrite lookup_insert_ne].
Qed.

Lemma halved_root parent x p g z r :
  forest parent -> parent !! x = Some p -> p ≠ x -> parent !! p = Some g -> root parent z r -> root (<[x := g]> parent) z r.
Proof.
  intros F Hx Hn Hp. induction 1 as [z H|z q r H Hq Hr IH].
  - constructor. by rewrite lookup_insert_ne by congruence.
  - destruct (Z.eq_dec z x) as [->|Hzx].
    + assert (q = p) as -> by congruence. destruct (F x p Hx), (F p g Hp).
      apply (root_up _ _ g); [by rewrite lookup_insert_eq|lia|].
      inversion IH as [y E1|y p' s E1 E2 E3]; subst; rewrite lookup_insert_ne in E1 by done.
      * assert (g = r) as -> by congruence. exact IH.
      * assert (g = p') as -> by congruence. exact E3.
    + eapply root_up; [by rewrite lookup_insert_ne|done|done].
Qed.

Lemma find_root_spec fuel parent x r :
  forest parent -> root parent x r -> (below x parent <= fuel)%nat ->
  ∃ parent', find_root fuel parent x = Some (r, parent') ∧ forest parent' ∧ dom parent' = dom parent ∧ ∀ z s, root parent z s -> root parent' z s.
Proof.
  revert parent x. induction fuel as [|fuel IH]; intros parent x F Hr Hf; destruct (root_member _ _ _ Hr) as [[p Hp] _]; cbn [find_root]; rewrite Hp; cbn [mbind option_bind].
  - destruct (Z.eqb_spec p x) as [->|Hn]; [exists parent; split_and!; try done; assert (x = r) as -> by (inversion Hr; congruence); done|].
    destruct (F x p Hp) as [Hle [g Hg]]. pose proof (below_decreases parent parent p p x g ltac:(lia) ltac:(lia) Hg ltac:(done)). lia.
  - destruct (Z.eqb_spec p x) as [->|Hn]; [exists parent; split_and!; try done; assert (x = r) as -> by (inversion Hr; congruence); done|].
    destruct (F x p Hp) as [Hle [g Hg]]. rewrite Hg. cbn [mbind option_bind]. destruct (F p g Hg) as [Hle' _].
    pose proof (halved_root parent x p g x r F Hp Hn Hg Hr) as Hr'.
    assert (root (<[x := g]> parent) g r) as Hr2 by (inversion Hr' as [? H1|? p' ? H1 H2 H3]; subst; rewrite lookup_insert_eq in H1; injection H1 as E; [lia|by subst]).
    destruct (IH (<[x := g]> parent) g) as (parent' & E & F' & D & Hkeep); [by eapply halved_forest|done| |].
    + assert (below g (<[x := g]> parent) < below x parent)%nat; [|lia].
      apply (below_decreases _ _ g p x g); [done|lia|done|]. intros k Hk. by rewrite lookup_insert_ne by lia.
    + exists parent'. split_and!; [done|done| |].
      * rewrite D, dom_insert_L. apply elem_of_dom_2 in Hp. set_solver.
      * intros z s Hz. apply Hkeep. by eapply halved_root.
Qed.

Lemma find_spec parent x r :
  forest parent -> root parent x r ->
  ∃ parent', find parent x = Some (r, parent') ∧ forest parent' ∧ dom parent' = dom parent ∧ ∀ z s, root parent z s -> root parent' z s.
Proof. intros F Hr. apply find_root_spec; [done|done|]. apply map_subseteq_size, map_filter_subseteq. Qed.

(** *** Linking two roots *)

Lemma linked_root parent lo hi z r :
  forest parent -> parent !! hi = Some hi -> parent !! lo = Some lo -> lo < hi -> root parent z r ->
  root (<[hi := lo]> parent) z (if r =? hi then lo else r).
Proof.
  intros F Hhi Hlo Hlt. induction 1 as [z H|z p r H Hn Hr IH].
  - destruct (Z.eqb_spec z hi) as [->|].
    + eapply root_up; [by rewrite lookup_insert_eq|lia|]. constructor. by rewrite lookup_insert_ne by lia.
    + constructor. by rewrite lookup_insert_ne.
  - assert (z ≠ hi) by congruence. eapply root_up; [by rewrite lookup_insert_ne|done|done].
Qed.

Lemma linked_forest parent lo hi : forest parent -> is_Some (parent !! lo) -> lo < hi -> forest (<[hi := lo]> parent).
Proof.
  intros F Hlo Hlt y q. destruct (Z.eq_dec y hi) as [->|Hn].
  - rewrite lookup_insert_eq. intros [= <-]. split; [lia|]. by rewrite lookup_insert_ne by lia.
  - rewrite lookup_insert_ne by done. intros Hy. destruct (F y q Hy) as [? Hs]. split; [done|].
    destruct (Z.eq_dec q hi) as [->|]; [rewrite lookup_insert_eq; eauto|by rewrite lookup_insert_ne].
Qed.

(** ** Components *)

(** Joined by the accepted links between members. *)
Definition linked (edges : list (Z * Z)) (members : gset Z) (a b : Z) : Prop := (a, b) ∈ edges ∧ a ∈ members ∧ b ∈ members.
Definition joined (edges : list (Z * Z)) (members : gset Z) : Z -> Z -> Prop := rtsc (linked edges members).

(** The parents after some links: every member's root is joined to it, and joined members have one root. *)
Record united (edges : list (Z * Z)) (members : gset Z) (parent : gmap Z Z) : Prop := {
  un_forest : forest parent; un_dom : dom parent = members;
  un_joined : ∀ x r, root parent x r -> joined edges members x r;
  un_one : ∀ a b r, linked edges members a b -> root parent a r -> root parent b r }.

Lemma joined_more edges e members a b : joined edges members a b -> joined (edges ++ [e]) members a b.
Proof. apply rtc_subrel. intros x y [[H ?]|[H ?]]; [left|right]; split; try done; apply elem_of_app; by left. Qed.

Lemma linked_snoc edges e members a b : linked (edges ++ [e]) members a b -> linked edges members a b ∨ e = (a, b) ∧ a ∈ members ∧ b ∈ members.
Proof. intros ([H|H%list_elem_of_singleton]%elem_of_app & ? & ?); [by left|by right]. Qed.

Lemma singletons_lookup members x : singletons members !! x = if decide (x ∈ members) then Some x else None.
Proof.
  unfold singletons. case_decide as H.
  - apply lookup_set_to_map; [|by exists x]. done.
  - destruct (set_to_map (fun a => (a, a)) members !! x) as [y|] eqn:E; [|done]. apply lookup_set_to_map in E; [|done]. destruct E as (z & Hz & [= -> ->]). done.
Qed.

Lemma united_start members : united [] members (singletons members).
Proof.
  split.
  - intros x p. rewrite singletons_lookup. case_decide as H; [|done]. intros [= <-]. split; [lia|]. rewrite singletons_lookup. by rewrite decide_True.
  - apply set_eq. intros x. rewrite elem_of_dom, singletons_lookup. case_decide; [by split|]. split; [by intros [? ?]|done].
  - intros x r H. assert (x = r) as ->; [|apply rtc_refl]. inversion H as [|? p ? H1 H2]; subst; [done|]. rewrite singletons_lookup in H1. case_decide; congruence.
  - intros a b r (H & _). by apply not_elem_of_nil in H.
Qed.

Lemma united_step edges members parent e :
  united edges members parent -> ∃ parent', union_edge (Some parent) e = Some parent' ∧ united (edges ++ [e]) members parent'.
Proof.
  intros [F D J O]. destruct e as [a b]. unfold union_edge. cbn [mbind option_bind fst snd].
  assert (∀ x, x ∈ members ↔ is_Some (parent !! x)) as M by (intros x; by rewrite <- D, elem_of_dom).
  destruct (parent !! a) as [pa|] eqn:Ea, (parent !! b) as [pb|] eqn:Eb.
  2-4: exists parent; split; [done|]; split; [done|done|by intros x r H; apply joined_more, J|];
    intros x y r [H|([= -> ->] & H1%M & H2%M)]%linked_snoc; [by apply O|rewrite ?Ea, ?Eb in *; by destruct H1, H2].
  destruct (root_exists parent a F ltac:(eauto)) as [ra Ra]. destruct (find_spec parent a ra F Ra) as (p1 & -> & F1 & D1 & K1). cbn [mbind option_bind].
  destruct (root_exists parent b F ltac:(eauto)) as [rb Rb]. destruct (find_spec p1 b rb F1 (K1 _ _ Rb)) as (p2 & -> & F2 & D2 & K2). cbn [mbind option_bind].
  assert (∀ z s, root parent z s ↔ root p2 z s) as K.
  { intros z s. split; [by intros; apply K2, K1|]. intros H. destruct (root_exists parent z F) as [s' Hs].
    - apply elem_of_dom. rewrite <- D1, <- D2. apply elem_of_dom. by apply root_member in H as [? _].
    - by rewrite (root_unique p2 z s s' H ltac:(by apply K2, K1)). }
  assert (linked (edges ++ [(a, b)]) members a b) as Hab by (split; [apply elem_of_app; right; by left|split; apply M; eauto]).
  destruct (Z.eqb_spec ra rb) as [<-|Hne].
  { exists p2. split; [done|]. split; [done|by rewrite D2, D1| |].
    - intros x r H%K. by apply joined_more, J.
    - intros x y r [H|([= <- <-] & _ & _)]%linked_snoc Hx%K; apply K; [by eapply O|]. by rewrite (root_unique _ _ _ _ Hx Ra). }
  set (hi := Z.max ra rb). set (lo := Z.min ra rb). exists (<[hi := lo]> p2). split; [done|].
  assert (p2 !! ra = Some ra ∧ p2 !! rb = Some rb) as [Ha Hb] by (split; [apply K in Ra|apply K in Rb]; by eapply root_member).
  assert (p2 !! hi = Some hi ∧ p2 !! lo = Some lo ∧ lo < hi) as (Hhi & Hlo & Hlt) by (unfold hi, lo; split_and!; [by destruct (Z.max_spec ra rb) as [[_ ->]|[_ ->]]|by destruct (Z.min_spec ra rb) as [[_ ->]|[_ ->]]|lia]).
  assert (∀ z s, root (<[hi := lo]> p2) z s ↔ ∃ r, root parent z r ∧ s = if r =? hi then lo else r) as KL.
  { intros z s. split.
    - intros H. destruct (root_exists parent z F) as [r Hr].
      + apply elem_of_dom. rewrite <- D1, <- D2. apply root_member in H as [H _]. destruct (Z.eq_dec z hi) as [->|]; [apply elem_of_dom; eauto|]. rewrite lookup_insert_ne in H by done. by apply elem_of_dom.
      + exists r. split; [done|]. apply (root_unique _ _ _ _ H). apply linked_root; try done. by apply K.
    - intros (r & Hr & ->). apply linked_root; try done. by apply K. }
  assert (joined (edges ++ [(a, b)]) members hi lo) as Jhl.
  { assert (joined (edges ++ [(a, b)]) members ra rb) as Jr.
    { etrans; [symmetry; apply joined_more, J, Ra|]. etrans; [by apply rtc_once; left|]. by apply joined_more, J. }
    unfold hi, lo. destruct (Z.max_spec ra rb) as [[? ->]|[? ->]], (Z.min_spec ra rb) as [[? ->]|[? ->]]; try lia; [by symmetry|done]. }
  split.
  - apply linked_forest; [done|eauto|done].
  - rewrite dom_insert_L, D2, D1, D. assert (hi ∈ members) by (rewrite <- D, <- D1, <- D2; apply elem_of_dom; eauto). set_solver.
  - intros x s (r & Hr & ->)%KL. destruct (Z.eqb_spec r hi) as [->|]; [etrans; [by apply joined_more, J|done]|by apply joined_more, J].
  - intros x y s [H|([= <- <-] & _ & _)]%linked_snoc (r & Hr & ->)%KL; apply KL.
    + exists r. split; [by eapply O|done].
    + exists rb. split; [done|]. rewrite (root_unique _ _ _ _ Hr Ra). unfold hi, lo. destruct (Z.eqb_spec ra (Z.max ra rb)), (Z.eqb_spec rb (Z.max ra rb)); lia.
Qed.

Lemma united_all edges members : ∃ parent, foldl union_edge (Some (singletons members)) edges = Some parent ∧ united edges members parent.
Proof.
  induction edges as [|e edges IH] using rev_ind; [exists (singletons members); split; [done|apply united_start]|].
  destruct IH as (parent & E & U). rewrite foldl_app, E. by apply united_step.
Qed.

Lemma united_root edges members parent x y r : united edges members parent -> joined edges members x y -> root parent x r -> root parent y r.
Proof.
  intros U. induction 1 as [|x y z [H|H] _ IH]; [done|..]; intros Hr; apply IH; [by eapply un_one|].
  destruct (root_exists parent y (un_forest _ _ _ U)) as [s Hs]; [apply elem_of_dom; rewrite (un_dom _ _ _ U); apply H|].
  by rewrite (root_unique _ _ _ _ Hr (un_one _ _ _ U y x s H Hs)).
Qed.

Lemma name_all_spec parent alarms :
  forest parent -> (∀ a, a ∈ alarms -> is_Some (parent !! a)) ->
  ∃ named, name_all parent alarms = Some named ∧ named.*1 = alarms ∧ ∀ a r, (a, r) ∈ named -> root parent a r.
Proof.
  revert parent. induction alarms as [|a l IH]; intros parent F H; cbn [name_all]; [exists []; split_and!; try done; intros ? ? ?%not_elem_of_nil; done|].
  destruct (root_exists parent a F) as [r Hr]; [apply H; by left|]. destruct (find_spec parent a r F Hr) as (p1 & -> & F1 & D1 & K1). cbn [mbind option_bind].
  destruct (IH p1 F1) as (named & -> & N1 & N2); [intros b Hb; apply elem_of_dom; rewrite D1; apply elem_of_dom, H; by right|]. cbn [mbind option_bind].
  exists ((a, r) :: named). split_and!; [done|by rewrite fmap_cons, N1|]. intros b s [[= -> ->]|Hb]%elem_of_cons; [done|].
  destruct (root_exists parent b F) as [s' Hs]; [apply H; right; rewrite <- N1; apply list_elem_of_fmap; by exists (b, s)|].
  by rewrite (root_unique _ _ _ _ (N2 b s Hb) (K1 _ _ Hs)).
Qed.

Lemma sorted_elements members x : x ∈ sorted members ↔ x ∈ members.
Proof. unfold sorted. rewrite merge_sort_Permutation. apply elem_of_elements. Qed.
Lemma sorted_NoDup members : NoDup (sorted members).
Proof. unfold sorted. rewrite merge_sort_Permutation. apply NoDup_elements. Qed.

(** What [partition] answers, on the parents its links left. *)
Lemma partition_roots edges members :
  ∃ parent (component : gmap Z Z), united edges members parent ∧ partition edges members = Some component
    ∧ ∀ x c, component !! x = Some c ↔ x ∈ members ∧ root parent x c.
Proof.
  unfold partition. destruct (united_all edges members) as (parent & -> & U). cbn [mbind option_bind]. pose proof (un_forest _ _ _ U) as F.
  destruct (name_all_spec parent (sorted members) F) as (named & -> & N1 & N2); [intros a Ha; apply elem_of_dom; rewrite (un_dom _ _ _ U); by apply sorted_elements|].
  exists parent, (list_to_map named). split_and!; [done|done|]. intros x c. split.
  - intros H%elem_of_list_to_map_2. split; [|by apply N2]. apply sorted_elements. rewrite <- N1. apply list_elem_of_fmap. by exists (x, c).
  - intros [Hx Hc]. apply elem_of_list_to_map_1; [rewrite N1; apply sorted_NoDup|]. apply sorted_elements in Hx. rewrite <- N1 in Hx.
    apply list_elem_of_fmap in Hx as ([x' c'] & -> & Hin). cbn in *. by rewrite (root_unique _ _ _ _ Hc (N2 _ _ Hin)).
Qed.

Lemma member_named edges members parent (component : gmap Z Z) x :
  united edges members parent -> (∀ x c, component !! x = Some c ↔ x ∈ members ∧ root parent x c) -> x ∈ members ->
  ∃ c, component !! x = Some c ∧ root parent x c.
Proof.
  intros U L Hx. destruct (root_exists parent x (un_forest _ _ _ U)) as [c Hc]; [apply elem_of_dom; by rewrite (un_dom _ _ _ U)|].
  exists c. split; [by apply L|done].
Qed.

Lemma partition_total edges members : ∃ component, partition edges members = Some component ∧ dom component = members.
Proof.
  destruct (partition_roots edges members) as (parent & component & U & E & L). exists component. split; [done|].
  apply set_eq. intros x. rewrite elem_of_dom. split; [by intros [c [Hc _]%L]|]. intros Hx. destruct (member_named _ _ _ _ _ U L Hx) as (c & Ec & _). eauto.
Qed.

(** The partition of any accepted links over any members is their connected components: every member is named,
    two members by one name exactly when a path of links joins them, and the name is the least
    member of the component. The path halving and the order of the links change nothing, and no
    [find] fails to end. *)
Theorem partition_is_the_connected_components edges members :
  ∃ component, partition edges members = Some component ∧ dom component = members
    ∧ (∀ x y, x ∈ members -> y ∈ members -> (component !! x = component !! y ↔ joined edges members x y))
    ∧ ∀ x c, component !! x = Some c -> c ∈ members ∧ joined edges members x c ∧ ∀ y, joined edges members x y -> c <= y.
Proof.
  destruct (partition_roots edges members) as (parent & component & U & E & L). pose proof (un_forest _ _ _ U) as F. exists component.
  pose proof (fun x => member_named _ _ _ _ x U L) as T. split_and!; [done|..].
  - apply set_eq. intros x. rewrite elem_of_dom. split; [by intros [c [Hc _]%L]|]. intros Hx. destruct (T x Hx) as (c & Ec & _). eauto.
  - intros x y Hx Hy. destruct (T x Hx) as (c & -> & Rc), (T y Hy) as (d & -> & Rd). split.
    + intros [= <-]. etrans; [by eapply un_joined|]. symmetry. by eapply un_joined.
    + intros J. f_equal. apply (root_unique _ _ _ _ (united_root _ _ _ _ _ _ U J Rc) Rd).
  - intros x c [Hx Hc]%L. split_and!; [|by eapply un_joined|].
    + rewrite <- (un_dom _ _ _ U). apply elem_of_dom. destruct (root_member _ _ _ Hc) as [_ H]; eauto.
    + intros y J. apply (root_le parent y c F). by eapply united_root.
Qed.
