(* ===== verification/Scores.v ===== *)
(** * How two models' link decisions are scored
    ([shadow_eval.py], [shadow_assertions.py], [shadow_cv.py] and [promotion_metrics.py] of engine/evaluation)

    The rates of a partition against the operators' verdicts, whether a model kept apart what an operator
    asserted apart, and the resampled interval of each. [hash] of a pair of integers and the
    models' [score] are arguments. *)
From S2P Require Import Prelude PyLib Floats Scoring Incidents Partitions.

(** ** Counts as floats *)

(** [a / b] on counts. *)
Definition ratio (a b : nat) : float := fdiv (f_of_Z (Z.of_nat a)) (f_of_Z (Z.of_nat b)).

(** [round] to an integer: halves go to the even one. *)
Definition f_round (x : float) : Z :=
  match x with
  | S754_finite s m e =>
      let n := if 0 <=? e then Z.pos m * 2 ^ e else
        let d := 2 ^ (- e) in let q := Z.pos m / d in let r := Z.pos m mod d in
        if 2 * r <? d then q else if d <? 2 * r then q + 1 else if Z.even q then q else q + 1 in
      if s then - n else n
  | _ => 0
  end.

(** ** Merge rates *)

(** [_groups]: the two lists are filled side by side, so [strict] has nothing to refuse. *)
Definition group_one (out : gmap Z (gset Z)) (e : Z * Z) : gmap Z (gset Z) := <[e.1 := {[e.2]} ∪ default ∅ (out !! e.1)]> out.
Definition groups (labels keys : list Z) : gmap Z (gset Z) := foldl group_one ∅ (zip labels keys).
Definition spread (g : gmap Z (gset Z)) : nat := size (filter (fun e : Z * gset Z => 2 <= Z.of_nat (size e.2)) g).

Definition over_merge_rate (pred truth : list Z) : float :=
  let g := groups pred truth in if decide (g = ∅) then f_zero else ratio (spread g) (size g).
Definition under_merge_rate (pred truth : list Z) : float :=
  let g := groups truth pred in if decide (g = ∅) then f_zero else ratio (spread g) (size g).

(** ** A set of decisions against the verdicts *)

Record Pair := MkPair {
  pair_id : Z; p_feedback : Z; p_situation : Z; alarm_a : Z; alarm_b : Z; incumbent_linked : bool;
  p_delta_t_s : float; p_class_affinity : float; p_entity_affinity : float }.
Record Bag := MkBag { b_feedback : Z; b_situation : Z; b_verdict : string; b_label_at : float }.

Definition rows_of (pairs : list Pair) (feedback_id : Z) : list Pair := filter (fun r => p_feedback r = feedback_id) pairs.
Definition ends (rows : list Pair) : gset Z := list_to_set (alarm_a <$> rows) ∪ list_to_set (alarm_b <$> rows).
Definition accepts (accepted : gmap Z bool) (r : Pair) : bool := default false (accepted !! pair_id r).
Definition accepted_edges (accepted : gmap Z bool) (rows : list Pair) : list (Z * Z) :=
  (fun r => (alarm_a r, alarm_b r)) <$> filter (fun r => accepts accepted r = true) rows.
(** A dict's value for a key met twice is the later one. *)
Definition verdict_of (bags : list Bag) (feedback_id : Z) : option string :=
  b_verdict <$> last (filter (fun b => b_feedback b = feedback_id) bags).

Record PartitionScore := MkScores {
  over_merge : option float; under_merge : option float; confirm_bags : nat; confirm_alarms : nat; split_bags : nat; split_bags_intact : nat }.
Definition split_bag_intact_rate (s : PartitionScore) : option float :=
  if decide (split_bags s = 0%nat) then None else Some (ratio (split_bags_intact s) (split_bags s)).

(** [evaluate]'s local variables. *)
Record Tally := MkTally { t_pred : list Z; t_truth : list Z; t_confirm : nat; t_alarms : nat; t_split : nat; t_intact : nat }.

Section evaluate.
Context (hash : Z * Z -> Z).

(** [pred] and [truth] of one confirmed bag. [None]: a [KeyError]. *)
Definition predicted (feedback_id : Z) (component : gmap Z Z) (members : gset Z) : option (list Z) :=
  mapM (fun alarm => (fun c => hash (feedback_id, c)) <$> component !! alarm) (sorted members).

Definition score_bag (bags : list Bag) (pairs : list Pair) (accepted : gmap Z bool) (t : option Tally) (feedback_id : Z) : option Tally :=
  t ← t;
  let rows := rows_of pairs feedback_id in
  let members := ends rows in
  component ← partition (accepted_edges accepted rows) members;
  if bool_decide (verdict_of bags feedback_id = Some "confirm"%string) then
    labels ← predicted feedback_id component members;
    Some (MkTally (t_pred t ++ labels) (t_truth t ++ replicate (size members) feedback_id)
            (S (t_confirm t)) (t_alarms t + size members) (t_split t) (t_intact t))
  else
    names ← mapM (fun alarm => component !! alarm) (elements members);
    let one := bool_decide (size (list_to_set names : gset Z) = 1%nat) in
    Some (MkTally (t_pred t) (t_truth t) (t_confirm t) (t_alarms t) (S (t_split t)) (if one then S (t_intact t) else t_intact t)).

Definition tally (bags : list Bag) (pairs : list Pair) (accepted : gmap Z bool) : option Tally :=
  foldl (score_bag bags pairs accepted) (Some (MkTally [] [] 0 0 0 0)) (sorted (list_to_set (p_feedback <$> pairs))).

Definition evaluate (bags : list Bag) (pairs : list Pair) (accepted : gmap Z bool) : option PartitionScore :=
  t ← tally bags pairs accepted;
  let some := negb (bool_decide (t_pred t = [])) in
  Some (MkScores (if some then Some (over_merge_rate (t_pred t) (t_truth t)) else None)
    (if some then Some (under_merge_rate (t_pred t) (t_truth t)) else None)
    (t_confirm t) (t_alarms t) (t_split t) (t_intact t)).
End evaluate.

(** The two arms' decisions. The probability [challenger_decisions] also returns is read by nothing here. *)
Definition champion_decisions (pairs : list Pair) : gmap Z bool :=
  foldl (fun out p => <[pair_id p := incumbent_linked p]> out) ∅ pairs.
Definition reconstructed (p : Pair) : LinkFeatures :=
  MkFeatures (p_delta_t_s p) 0 0 (p_class_affinity p) 0 0 (p_entity_affinity p) None None.
Definition challenger_decisions (score : LinkFeatures -> LinkScore) (pairs : list Pair) : gmap Z bool :=
  foldl (fun out p => <[pair_id p := s_linked (score (reconstructed p))]> out) ∅ pairs.

(** ** What an operator asserted apart *)

Record AssertingBag := MkAsserting {
  ab_feedback : Z; ab_incident : Z; ab_members : list Z; ab_marked : gset Z; ab_hidden : gset Z; ab_coverage : string }.

Definition eligible (b : AssertingBag) : bool :=
  negb (bool_decide (ab_coverage b ∈ ["none"%string; "empty"%string])) && negb (bool_decide (ab_marked b = ∅)).
Definition marked_visible (b : AssertingBag) : list Z := filter (fun a => a ∈ ab_marked b ∧ a ∉ ab_hidden b) (ab_members b).
Definition rest_visible (b : AssertingBag) : list Z := filter (fun a => a ∉ ab_marked b ∧ a ∉ ab_hidden b) (ab_members b).
Definition observable_pairs (b : AssertingBag) : list (Z * Z) := a ← marked_visible b; (fun r => (a, r)) <$> rest_visible b.

(** [component.get(a, a) != component.get(b, b)]. *)
Definition apart (component : gmap Z Z) (e : Z * Z) : bool :=
  negb (default e.1 (component !! e.1) =? default e.2 (component !! e.2)).

Record Respect := MkRespect { per_incident : gmap Z (list float); bags_scored : nat; bags_excluded : nat; observable : nat; respected : nat }.

Definition respect_bag (components : gmap Z (gmap Z Z)) (r : Respect) (b : AssertingBag) : Respect :=
  let excluded := MkRespect (per_incident r) (bags_scored r) (S (bags_excluded r)) (observable r) (respected r) in
  if negb (eligible b) then excluded
  else let pairs := observable_pairs b in
  if bool_decide (pairs = []) then excluded
  else match components !! ab_feedback b with
  | None => excluded
  | Some component =>
      if bool_decide (component = ∅) then excluded
      else let kept := length (filter (fun e => apart component e = true) pairs) in
      MkRespect (<[ab_incident b := default [] (per_incident r !! ab_incident b) ++ [ratio kept (length pairs)]]> (per_incident r))
        (S (bags_scored r)) (bags_excluded r) (observable r + length pairs) (respected r + kept)
  end.
Definition asserted_negative_respected_rate (bags : list AssertingBag) (components : gmap Z (gmap Z Z)) : Respect :=
  foldl (respect_bag components) (MkRespect ∅ 0 0 0 0) bags.

(** [_hidden]: of the members the labeller could not see, how many were marked is all that is stored. *)
Definition hidden_members (members : list Z) (marked : gset Z) (hidden blind : Z) : gset Z :=
  if hidden =? 0 then ∅
  else list_to_set (take (Z.to_nat blind) (filter (fun a => a ∈ marked) members)
                    ++ take (Z.to_nat (Z.max (hidden - blind) 0)) (filter (fun a => a ∉ marked) members)).

(** ** The interval: clusters drawn with replacement *)

Definition FOLDS : Z := 5.
Definition REPEATS : nat := 3.
Definition SEED : Z := 20100000.
Definition RESAMPLES : nat := 2000.

(** [_Lcg]: a 32-bit state. *)
Definition lcg (seed : Z) : Z := Z.land seed 0xFFFFFFFF.
Definition lcg_below (state bound : Z) : Z * Z :=
  let state := Z.land (1664525 * state + 1013904223) 0xFFFFFFFF in (Z.shiftr state 16 mod bound, state).

(** [assign_folds]. *)
Definition assign_folds (incidents : list Z) (folds repeat : Z) : gmap Z Z :=
  list_to_map (imap (fun index i => (i, (Z.of_nat index + repeat) mod folds)) (sorted (list_to_set incidents))).

Record Interval := MkInterval { rate : float; low : float; high : float; clusters : nat }.

Section bootstrap.
Context (per_cluster : gmap Z (list float)).
Definition names : list Z := sorted (dom per_cluster).
Definition values_of (cluster : Z) : list float := default [] (per_cluster !! cluster).

(** One resample: as many draws as there are clusters, and their values in a row. *)
Fixpoint draw (n : nat) (state : Z) : list float * Z :=
  match n with
  | O => ([], state)
  | S n => let '(i, state) := lcg_below state (Z.of_nat (length names)) in
           let '(rest, state) := draw n state in
           (values_of (nth (Z.to_nat i) names 0) ++ rest, state)
  end.
Definition mean (xs : list float) : float := fdiv (py_sum xs) (f_of_Z (Z.of_nat (length xs))).
Fixpoint resample (resamples : nat) (state : Z) : list float :=
  match resamples with
  | O => []
  | S n => let '(drawn, state) := draw (length names) state in
           (match drawn with [] => f_zero | _ => mean drawn end) :: resample n state
  end.
(** [rates[max(0, min(len(rates) - 1, round(q * (len(rates) - 1))))]] *)
Definition percentile (rates : list float) (q : float) : float :=
  let n := Z.of_nat (length rates) - 1 in
  nth (Z.to_nat (Z.max 0 (Z.min n (f_round (fmul q (f_of_Z n)))))) rates f_zero.

Definition cluster_bootstrap_with (resamples : nat) (seed : Z) : Interval :=
  let values := concat (values_of <$> names) in
  if bool_decide (values = []) then MkInterval f_zero f_zero f_zero 0
  else let observed := mean values in
  if bool_decide (Z.of_nat (length names) < 2) then MkInterval observed observed observed (length names)
  else let rates := sort_by fleb (resample resamples (lcg seed)) in
  MkInterval observed (percentile rates (f_lit 25 1000)) (percentile rates (f_lit 975 1000)) (length names).
Definition cluster_bootstrap : Interval := cluster_bootstrap_with RESAMPLES SEED.
End bootstrap.

(** ** The detection threshold *)

Definition Z_ALPHA : float := f_lit 1959964 1000000.
Definition Z_POWER : float := f_lit 841621 1000000.
Definition MDD_MAX_ITERATIONS : nat := 64.
(** The literal [1e-12]. *)
Definition MDD_TOLERANCE : float := f_lit 1 1000000000000.
Definition fsqrt : float -> float := SFsqrt 53 1024.

(** [true] when the tolerance ended the loop, [false] when the steps ran out. *)
Fixpoint mdd_loop (steps : nat) (n : Z) (p delta : float) : float * bool :=
  match steps with
  | O => (delta, false)
  | S steps =>
      let q := let pd := fadd p delta in if fltb pd f_one then pd else f_one in
      let nxt := fmul (fadd Z_ALPHA Z_POWER)
        (fsqrt (fdiv (fadd (fmul p (fsub f_one p)) (fmul q (fsub f_one q))) (f_of_Z n))) in
      if fltb (SFabs (fsub nxt delta)) MDD_TOLERANCE then (nxt, true) else mdd_loop steps n p nxt
  end.
Definition mdd_start (n : Z) (p : float) : float :=
  fmul (fadd Z_ALPHA Z_POWER) (fsqrt (fdiv (fmul (fmul (f_of_Z 2) p) (fsub f_one p)) (f_of_Z n))).
Definition minimum_detectable_difference (n : Z) (p : float) : float :=
  if n <=? 0 then f_one else (mdd_loop MDD_MAX_ITERATIONS n p (mdd_start n p)).1.

Record Power := MkPower { pw_incidents : Z; detectable : float; observed_difference : float }.
Definition sufficient (p : Power) : bool := fltb (detectable p) (observed_difference p).
Definition power_at (incidents : Z) (observed : float) : Power :=
  MkPower incidents (minimum_detectable_difference incidents (f_lit 7 10)) (SFabs observed).

(** ** The four quantities, for both arms *)

Inductive QuantityName := Over_merge | Under_merge | Split_intact | Respected.
#[export] Instance QuantityName_eq_dec : EqDecision QuantityName.
Proof. solve_decision. Defined.
Definition QUANTITY_NAMES : list QuantityName := [Over_merge; Under_merge; Split_intact; Respected].
Definition HEADLINE_QUANTITIES : list QuantityName := [Over_merge; Under_merge].
Definition lower_is_better (q : QuantityName) : bool := bool_decide (q ∈ [Over_merge; Under_merge; Split_intact]).

Record Quantity := MkQuantity { q_name : QuantityName; challenger : Interval; champion : Interval }.
Definition favours_challenger (q : Quantity) : bool :=
  if lower_is_better (q_name q) then fltb (rate (challenger q)) (rate (champion q)) else fltb (rate (champion q)) (rate (challenger q)).
Definition difference (q : Quantity) : float := fsub (rate (challenger q)) (rate (champion q)).
Definition excludes_zero (q : Quantity) : bool :=
  negb (fleb (low (challenger q)) (rate (champion q)) && fleb (rate (champion q)) (high (challenger q))).

(** [Metrics]: the four, in the order of [QUANTITY_NAMES]. *)
Record Metrics := MkMetrics { m_over : Quantity; m_under : Quantity; m_intact : Quantity; m_respected : Quantity }.
Definition by_name (m : Metrics) (q : QuantityName) : Quantity :=
  match q with Over_merge => m_over m | Under_merge => m_under m | Split_intact => m_intact m | Respected => m_respected m end.

(** ** [measure] *)

(** The rows of the corpus: what [labelled_bags], [labelled_pairs], [merge_edges] and [asserting_bag_rows] return,
    a bag's members as the server saw them, and the marks among them. *)
Record AssertingRow := MkAssertingRow {
  ar_feedback : Z; ar_situation : Z; ar_coverage : string; ar_hidden : option Z; ar_blind : option Z }.
Record Corpus := MkCorpus {
  labelled_bags : list Bag; labelled_pairs : list Pair; merge_edges : gmap Z Z; asserting_rows : list AssertingRow;
  feedback_members : Z -> list Z; reconciled_marks : Z -> list Z; feedback_situations : list Z; situations : list (Z * option Z) }.

Definition resolve_identity (c : Corpus) : IncidentMap :=
  resolve_all (merge_edges c) (sorted (list_to_set (b_situation <$> labelled_bags c) ∪ list_to_set (p_situation <$> labelled_pairs c))).

Definition by_incident {A} (key : A -> Z) (incident : Z -> Z) (rows : list A) : gmap Z (list A) :=
  foldl (fun out r => let i := incident (key r) in <[i := default [] (out !! i) ++ [r]]> out) ∅ rows.

Record Rates := MkRates { r_over : gmap Z (list float); r_under : gmap Z (list float); r_intact : gmap Z (list float) }.
Definition rated (incident : Z) (x : option float) (m : gmap Z (list float)) : gmap Z (list float) :=
  match x with Some x => <[incident := default [] (m !! incident) ++ [x]]> m | None => m end.

Section measure.
Context (hash : Z * Z -> Z).

Definition rate_incident (pairs : gmap Z (list Pair)) (accepted : gmap Z bool) (r : option Rates) (e : Z * list Bag) : option Rates :=
  r ← r;
  score ← evaluate hash e.2 (default [] (pairs !! e.1)) accepted;
  Some (MkRates (rated e.1 (over_merge score) (r_over r)) (rated e.1 (under_merge score) (r_under r))
          (rated e.1 (split_bag_intact_rate score) (r_intact r))).
Definition partition_rates (bags : gmap Z (list Bag)) (pairs : gmap Z (list Pair)) (accepted : gmap Z bool) : option Rates :=
  foldl (rate_incident pairs accepted) (Some (MkRates ∅ ∅ ∅)) ((fun i => (i, default [] (bags !! i))) <$> sorted (dom bags)).

Definition components_for (asserting : list AssertingBag) (pairs : list Pair) (accepted : gmap Z bool) : option (gmap Z (gmap Z Z)) :=
  foldl (fun out b => out ← out;
    component ← partition (accepted_edges accepted (rows_of pairs (ab_feedback b))) (list_to_set (ab_members b));
    Some (<[ab_feedback b := component]> out)) (Some ∅) asserting.

Definition asserting_bag (c : Corpus) (incident : Z -> Z) (row : AssertingRow) : AssertingBag :=
  let members := feedback_members c (ar_feedback row) in
  let marked := list_to_set (reconciled_marks c (ar_feedback row)) in
  MkAsserting (ar_feedback row) (incident (ar_situation row)) members marked
    (hidden_members members marked (default 0 (ar_hidden row)) (default 0 (ar_blind row))) (ar_coverage row).

(** One arm: its four intervals. *)
Definition arm (bags : gmap Z (list Bag)) (by_inc : gmap Z (list Pair)) (elig : list AssertingBag) (pairs : list Pair)
    (accepted : gmap Z bool) : option (Interval * Interval * Interval * Interval) :=
  r ← partition_rates bags by_inc accepted;
  components ← components_for elig pairs accepted;
  Some (cluster_bootstrap (r_over r), cluster_bootstrap (r_under r), cluster_bootstrap (r_intact r),
        cluster_bootstrap (per_incident (asserted_negative_respected_rate elig components))).

Inductive Unavailable := No_pairs | No_eligible_bag | Seal_refused | Seal_not_read.

Definition EMPTY : Interval := MkInterval f_zero f_zero f_zero 0.
Definition nothing (q : QuantityName) : Quantity := MkQuantity q EMPTY EMPTY.

(** The metrics and what was unavailable; [None] is a [KeyError]. *)
Definition measure (c : Corpus) (score : LinkFeatures -> LinkScore) : option (Metrics * list Unavailable) :=
  let pairs := labelled_pairs c in
  let identity := resolve_identity c in
  let incident s := default s (incident_of identity !! s) in
  match pairs with
  | [] => Some (MkMetrics (nothing Over_merge) (nothing Under_merge) (nothing Split_intact) (nothing Respected), [No_pairs])
  | _ =>
      let bags := by_incident b_situation incident (labelled_bags c) in
      let by_inc := by_incident p_situation incident pairs in
      let elig := filter (fun b => eligible b = true) (asserting_bag c incident <$> asserting_rows c) in
      '(o1, u1, i1, r1) ← arm bags by_inc elig pairs (challenger_decisions score pairs);
      '(o2, u2, i2, r2) ← arm bags by_inc elig pairs (champion_decisions pairs);
      Some (MkMetrics (MkQuantity Over_merge o1 o2) (MkQuantity Under_merge u1 u2) (MkQuantity Split_intact i1 i2) (MkQuantity Respected r1 r2),
            if bool_decide (elig = []) then [No_eligible_bag] else [])
  end.
End measure.
