(* ===== verification/Judge.v ===== *)
(** * The promotion gate ([judge.py], [promotion.py], [evaluation_folds.py], [dataset/seal.py], [api/routes/promotion.py])

    The three-valued verdict, the sealed holdout and its log, the evaluation's order, the two refusals, and the
    route that proposes a promotion. [sha256] of a text and the scorer of a model version are
    arguments. *)
From S2P Require Import Prelude PyLib Floats Scoring Incidents Partitions Scores.

(** ** The verdict *)

Inductive Verdict := BETTER | NOT_BETTER | INSUFFICIENT_EVIDENCE.
Inductive Trigger :=
  | FLOOR_UNMET | HOLDOUT_UNSPENT | THIN_SPLIT | POWER | COVERAGE_EXCLUSIONS | UNKNOWN_POPULATION
  | TRUNCATED_LOAD_BEARING | UNSOUND_CHAINS | PRE_V080_MERGES.
Inductive Note := Buries_splits | Separates_everything.
#[export] Instance Verdict_eq_dec : EqDecision Verdict.
Proof. solve_decision. Defined.

Definition MIN_INCIDENTS_PER_SIDE : Z := 10.
Definition PRE_V080_SHARE : float := f_lit 1 10.

Record Judgement := MkJudgement {
  verdict : Verdict; triggers : list Trigger; notes : list Note; floors_met : bool; detectable_difference : float;
  j_incidents : Z; j_observed : float; query_count : Z }.
Definition decisive (j : Judgement) : bool := negb (bool_decide (verdict j = INSUFFICIENT_EVIDENCE)).

(** [judge]'s arguments. *)
Record Evidence := MkEvidence {
  e_floors : bool; holdout_spent : bool; power : Power; smallest_side : Z; coverage_excluded : Z; unknown_rows : Z;
  truncated : bool; unsound_chains : Z; pre_v080_merges : Z; asserting_incidents : Z; difference_excludes_zero : bool;
  favours : bool; split_bags_buried : bool; separates_everything : bool; e_queries : Z }.

Definition fires (b : bool) (t : Trigger) : list Trigger := if b then [t] else [].
Definition triggers_of (e : Evidence) : list Trigger :=
  fires (negb (e_floors e)) FLOOR_UNMET ++ fires (negb (holdout_spent e)) HOLDOUT_UNSPENT
  ++ fires (smallest_side e <? MIN_INCIDENTS_PER_SIDE) THIN_SPLIT ++ fires (negb (sufficient (power e))) POWER
  ++ fires (0 <? coverage_excluded e) COVERAGE_EXCLUSIONS ++ fires (0 <? unknown_rows e) UNKNOWN_POPULATION
  ++ fires (truncated e) TRUNCATED_LOAD_BEARING ++ fires (0 <? unsound_chains e) UNSOUND_CHAINS
  ++ fires ((0 <? asserting_incidents e) && fltb (fmul PRE_V080_SHARE (f_of_Z (asserting_incidents e))) (f_of_Z (pre_v080_merges e))) PRE_V080_MERGES.

Definition judge (e : Evidence) : Judgement :=
  let said v ts ns := MkJudgement v ts ns (e_floors e) (detectable (power e)) (pw_incidents (power e)) (observed_difference (power e)) (e_queries e) in
  match triggers_of e with
  | _ :: _ as ts => said INSUFFICIENT_EVIDENCE (triggers_of e) []
  | [] =>
      let notes := (if split_bags_buried e then [Buries_splits] else []) ++ (if separates_everything e then [Separates_everything] else []) in
      let better := difference_excludes_zero e && favours e && bool_decide (length notes = 0%nat) in
      said (if better then BETTER else NOT_BETTER) [] notes
  end.

(** ** The sealed holdout *)

Definition HOLDOUT_FRACTION : nat := 3.
(** The first twelve digits stand for the plan in a message. *)
Inductive Outcome := No_seal | No_plan (plan : string) | Granted (n : nat) | Recorded (plan release : string).

Record SealRow := MkSeal { s_release : string; s_plan : string; s_created_at : float; s_digest : string; incident_count : nat; corpus_incidents : nat }.
Record AccessRow := MkAccess { at_ : float; a_release : string; a_plan : option string; purpose : string; granted : bool; outcome : Outcome }.
(** [holdout_seal], [holdout_seal_member] and [holdout_access]. *)
Record Holdout := MkHoldout { seal_row : option SealRow; seal_members : list Z; access_log : list AccessRow }.

Definition record_access (h : Holdout) (a : AccessRow) : Holdout := MkHoldout (seal_row h) (seal_members h) (access_log h ++ [a]).
Definition ratified_plan_hashes (h : Holdout) : list string :=
  (match seal_row h with Some r => [s_plan r] | None => [] end)
  ++ omap (fun a => if bool_decide (purpose a = "ratify"%string) && granted a then a_plan a else None) (access_log h).
Definition queries (h : Holdout) : Z :=
  Z.of_nat (length (filter (fun a => granted a = true ∧ purpose a ≠ "ratify"%string) (access_log h))).

Section holdout.
Context (sha256 : string -> string) (show : Z -> string).

Definition digest_of (ids : list Z) : string := sha256 (join "," (map show ids)).

(** [sorted(first_label_at, key=lambda incident: (first_label_at[incident], incident))] *)
Definition label_le (a b : Z * float) : bool := if feqb a.2 b.2 then a.1 <=? b.1 else fltb a.2 b.2.
Definition plan_ordered_incidents (first_label_at : gmap Z float) : list Z := (sort_by label_le (map_to_list first_label_at)).*1.
Definition sealed_third (ordered : list Z) : list Z := drop (length ordered - length ordered / HOLDOUT_FRACTION) ordered.

(** [None]: the table's UNIQUE constraint. *)
Definition construct_seal (h : Holdout) (row : SealRow) (ids : list Z) : option Holdout :=
  match seal_row h with Some _ => None | None => Some (MkHoldout (Some row) (seal_members h ++ ids) (access_log h)) end.
Definition construct (h : Holdout) (release plan : string) (now : float) (first_label_at : gmap Z float) : option Holdout :=
  let ordered := plan_ordered_incidents first_label_at in
  let sealed := sealed_third ordered in
  construct_seal h (MkSeal release plan now (digest_of sealed) (length sealed) (length ordered)) sealed.

Definition ratify (h : Holdout) (release plan : string) (now : float) : Holdout :=
  record_access h (MkAccess now release (Some plan) "ratify" true (Recorded plan release)).

Definition spend (h : Holdout) (release plan asked : string) (now : float) : (bool * option (list Z)) * Holdout :=
  let refused o := ((false, None), record_access h (MkAccess now release (Some plan) asked false o)) in
  match seal_row h with
  | None => refused No_seal
  | Some _ =>
      if negb (bool_decide (plan ∈ ratified_plan_hashes h)) then refused (No_plan plan)
      else ((true, Some (seal_members h)), record_access h (MkAccess now release (Some plan) asked true (Granted (length (seal_members h)))))
  end.

(** [Maintenance._seal_once]: [first_label_at] is [census.first_label_per_incident]. *)
Definition SEAL_PLAN_SHA256 : string := "c03aef0181554c0c71482e57d03677f25964c3a5ac20a7bf1b1d74bff1ba1e01".
Definition first_label_per_incident (bags : list Bag) (incident : Z -> Z) : gmap Z float :=
  foldl (fun out b => let i := incident (b_situation b) in
    match out !! i with
    | Some t => if fltb (b_label_at b) t then <[i := b_label_at b]> out else out
    | None => <[i := b_label_at b]> out
    end) ∅ bags.
Definition seal_once (h : Holdout) (release : string) (now : float) (first_label_at : gmap Z float) : Holdout :=
  match seal_row h with
  | Some _ => h
  | None => if bool_decide (first_label_at = ∅) then h else default h (construct h release SEAL_PLAN_SHA256 now first_label_at)
  end.
End holdout.

(** ** The gate *)

Definition RATIFIED_PLAN_SHA256 : string := "e011ee6ad2367d44f2ede14cad7b072df598298f91ecc1a405744358b589d449".
Definition near_one : float := f_lit 95 100.
Definition separates (m : Metrics) : bool := fltb near_one (rate (challenger (m_respected m))) && negb (favours_challenger (m_under m)).

Definition deciding_quantity (m : Metrics) : Quantity :=
  if negb (favours_challenger (m_intact m)) then m_intact m
  else if separates m then m_respected m
  else match filter (fun q => favours_challenger q && excludes_zero q = false) (by_name m <$> HEADLINE_QUANTITIES) with
       | q :: _ => q
       | [] => m_over m
       end.

Record Decision := MkDecision {
  judgement : Judgement; d_metrics : Metrics; evaluation_run_id : string; plan_sha256 : string; unavailable : list Unavailable }.
Definition may_apply (d : Decision) : bool := bool_decide (verdict (judgement d) = BETTER).

(** A fold assignment's rows: incident, repeat, fold. *)
Definition Folds : Type := gmap string (list (Z * Z * Z)).

Section gate.
Context (sha256 : string -> string) (show : Z -> string).

Definition run_id_for (incident_ids : list Z) (params_hash : string) : string :=
  clip 32 (sha256 (params_hash +:+ String "010" (join "," (map show (sorted (list_to_set incident_ids)))))).
(** The rows one run writes; a run that is stored is left. *)
Definition fold_rows (incident_ids : list Z) : list (Z * Z * Z) :=
  r ← seqZ 0 (Z.of_nat REPEATS); '(i, f) ← map_to_list (assign_folds incident_ids FOLDS r); [(i, r, f)].
Definition materialise_folds (folds : Folds) (incident_ids : list Z) (params_hash : string) : string * Folds :=
  let run := run_id_for incident_ids params_hash in
  match default [] (folds !! run) with
  | _ :: _ => (run, folds)
  | [] => (run, <[run := fold_rows incident_ids]> folds)
  end.

(** What the caller derived. The five counts it may also pass are zero unless it does. *)
Record Derived := MkDerived {
  v_floors : bool; v_power : Power; v_metrics : Metrics; v_incidents : list Z; v_params_hash : string;
  v_smallest : Z; v_coverage : Z; v_unknown : Z; v_truncated : bool; v_unsound : Z; v_pre_v080 : Z; v_asserting : Z }.

Definition evaluate_promotion (h : Holdout) (folds : Folds) (v : Derived) (plan release : string) (now : float) : Decision * Holdout * Folds :=
  let '(run, folds) := materialise_folds folds (v_incidents v) (v_params_hash v) in
  let '(spent, missing, h) :=
    if v_floors v && sufficient (v_power v) then
      let '((ok, _), h) := spend h release plan "promotion" now in (ok, if ok then [] else [Seal_refused], h)
    else (false, [Seal_not_read], h) in
  let m := v_metrics v in
  let headline := by_name m <$> HEADLINE_QUANTITIES in
  let j := judge (MkEvidence (v_floors v) spent (v_power v) (v_smallest v) (v_coverage v) (v_unknown v) (v_truncated v) (v_unsound v)
    (v_pre_v080 v) (v_asserting v) (forallb excludes_zero headline) (forallb favours_challenger headline)
    (negb (favours_challenger (m_intact m))) (separates m) (queries h)) in
  (MkDecision j m run plan missing, h, folds).
End gate.

(** The refusals: each one only of its own verdict, [None] a [PromotionPathError]. *)
Inductive Refusal := Cannot_decide (triggers : list Trigger) (n : Z) (detectable observed : float) (queries : Z)
  | Decided_against (deciding : Quantity) (n : Z) (detectable : float) (queries : Z) (notes : list Note)
  | No_challenger_run (version : Z).
Definition insufficient_evidence_refusal (j : Judgement) : option Refusal :=
  if bool_decide (verdict j = INSUFFICIENT_EVIDENCE)
  then Some (Cannot_decide (triggers j) (j_incidents j) (detectable_difference j) (j_observed j) (query_count j)) else None.
Definition not_better_refusal (j : Judgement) (m : Metrics) : option Refusal :=
  if bool_decide (verdict j = NOT_BETTER)
  then Some (Decided_against (deciding_quantity m) (j_incidents j) (detectable_difference j) (query_count j) (notes j)) else None.
Definition refusal_for (d : Decision) : option Refusal :=
  match verdict (judgement d) with
  | INSUFFICIENT_EVIDENCE => insufficient_evidence_refusal (judgement d)
  | NOT_BETTER => not_better_refusal (judgement d) (d_metrics d)
  | BETTER => None
  end.
Definition missing_run_refusal (d : Decision) (version : Z) : option Refusal := if may_apply d then Some (No_challenger_run version) else None.

(** ** The route *)

Definition ASSERTING_BAGS_FLOOR : Z := 50.
Definition ASSERTING_INCIDENTS_FLOOR : Z := 30.

(** [model_version]. *)
Record Candidate := MkCandidate { kind : string; contract_version : string; params_document : string; params_hash : string; challenger_run_id : option Z }.
Record PromotionRow := MkPromotion {
  pr_version : Z; pr_verdict : Verdict; pr_triggers : list Trigger; pr_metrics : Metrics; pr_run : string; pr_plan : string;
  pr_queries : Z; approved_by : string; decided_at : float; applied : bool; refusal_reason : option Refusal; pr_unavailable : list Unavailable }.
(** [scorer_active]: one of the two ids is set. *)
Inductive Active := A_config (id : Z) | A_model (id : Z).
Record AuditEntry := MkAudit { au_action : string; au_object : Z; au_verdict : Verdict; au_triggers : list Trigger }.
Record Desk := MkDesk {
  holdout : Holdout; folds : Folds; model_versions : gmap Z Candidate; active : Active; promotions : list PromotionRow;
  decider_mode : string; audit : list AuditEntry }.
Inductive Problem := Not_found | Will_not_load | Internal_error.

Section route.
Context (sha256 : string -> string) (show : Z -> string) (hash : Z * Z -> Z) (release : string).
(** [model_version.scorer_for]: nothing when the document is not of its kind. *)
Context (scorer_for : Candidate -> option (LinkFeatures -> LinkScore)).

Definition derived_inputs (c : Corpus) (score : LinkFeatures -> LinkScore) : option (bool * list Z * Z * Metrics * list Unavailable) :=
  let resolved := resolve_all (list_to_map (omap (fun e : Z * option Z => (fun m => (e.1, m)) <$> e.2) (situations c))) ((situations c).*1) in
  let incident_ids := sorted (list_to_set ((fun s => default s (incident_of resolved !! s)) <$> feedback_situations c)) in
  let asserting := Z.of_nat (size (list_to_set ((fun r => default 0 (incident_of resolved !! ar_situation r)) <$> asserting_rows c) : gset Z)) in
  let floors := (ASSERTING_BAGS_FLOOR <=? Z.of_nat (length (asserting_rows c))) && (ASSERTING_INCIDENTS_FLOOR <=? asserting) in
  '(m, missing) ← measure hash c score;
  Some (floors, incident_ids, asserting, m, missing).

Definition fmaxl (a b : float) : float := if fltb a b then b else a.
Definition propose_promotion (d : Desk) (c : Corpus) (version : Z) (actor : string) (now : float) : Desk + Problem :=
  match model_versions d !! version with
  | None => inr Not_found
  | Some candidate =>
  match scorer_for candidate with
  | None => inr Will_not_load
  | Some score =>
  match derived_inputs c score with
  | None => inr Internal_error
  | Some (floors, incident_ids, asserting, m, missing) =>
      let observed := fmaxl (SFabs (difference (m_over m))) (SFabs (difference (m_under m))) in
      let v := MkDerived floors (power_at (Z.of_nat (length incident_ids)) observed) m incident_ids (params_hash candidate)
                 asserting 0 0 false 0 0 asserting in
      let '(decision, h, fs) := evaluate_promotion sha256 show (holdout d) (folds d) v RATIFIED_PLAN_SHA256 release now in
      let missing_run := bool_decide (challenger_run_id candidate = None) in
      let ok := may_apply decision && negb missing_run in
      let reason := if negb (may_apply decision) then refusal_for decision
                    else if missing_run then missing_run_refusal decision version else None in
      let row := MkPromotion version (verdict (judgement decision)) (triggers (judgement decision)) (d_metrics decision)
        (evaluation_run_id decision) (plan_sha256 decision) (query_count (judgement decision)) actor now ok reason (missing ++ unavailable decision) in
      inl (MkDesk h fs (model_versions d) (if ok then A_model version else active d) (promotions d ++ [row])
             (if ok then "site" else decider_mode d)
             (audit d ++ [MkAudit (if ok then "promotion.applied" else "promotion.refused") version
                            (verdict (judgement decision)) (triggers (judgement decision))]))
  end
  end
  end.
End route.
