(* ===== verification/JudgeLaws.v ===== *)
(** * What the promotion gate guarantees ([engine/evaluation], [dataset/seal.py], [api/routes/promotion.py])

    When the verdict is BETTER, what the seal and its log keep, that a proposal always leaves one record and moves
    the pointer only on BETTER, and what that comes to in the program as it runs. *)
From S2P Require Import Prelude PyLib Floats Scoring Incidents Partitions Scores Judge.

(** ** Every corpus can be scored *)

Section totals.
Context (hash : Z * Z -> Z).

Lemma mapM_found {A} (f : Z -> option A) (l : list Z) : (∀ x, x ∈ l -> is_Some (f x)) -> is_Some (mapM f l).
Proof.
  intros H. induction l as [|x l IH]; [done|]. cbn. destruct (H x) as [y ->]; [by left|]. cbn.
  destruct IH as [ys ->]; [intros z Hz; apply H; by right|]. done.
Qed.

Lemma score_bag_total bags pairs accepted t fid : is_Some (score_bag hash bags pairs accepted (Some t) fid).
Proof.
  unfold score_bag. cbn [mbind option_bind]. set (rows := rows_of pairs fid).
  destruct (partition_total (accepted_edges accepted rows) (ends rows)) as (component & -> & D). cbn [mbind option_bind].
  assert (∀ x, x ∈ ends rows -> is_Some (component !! x)) as H by (intros x Hx; apply elem_of_dom; by rewrite D).
  case_bool_decide.
  - assert (is_Some (predicted hash fid component (ends rows))) as [l ->]; [|by eexists].
    apply mapM_found. intros x Hx%sorted_elements. destruct (H x Hx) as [c ->]. by eexists.
  - assert (is_Some (mapM (fun a => component !! a) (elements (ends rows)))) as [l ->]; [|by eexists].
    apply mapM_found. intros x Hx%elem_of_elements. by apply H.
Qed.

Lemma foldl_total {A B} (f : option A -> B -> option A) (l : list B) a :
  (∀ a b, is_Some (f (Some a) b)) -> is_Some (foldl f (Some a) l).
Proof. intros H. revert a. induction l as [|b l IH]; intros a; [by eexists|]. cbn. destruct (H a b) as [a' ->]. apply IH. Qed.

Lemma tally_total bags pairs accepted : is_Some (tally hash bags pairs accepted).
Proof. apply foldl_total. intros. apply score_bag_total. Qed.

Lemma evaluate_total bags pairs accepted : is_Some (evaluate hash bags pairs accepted).
Proof. unfold evaluate. destruct (tally_total bags pairs accepted) as [t ->]. by eexists. Qed.

Lemma partition_rates_total bags pairs accepted : is_Some (partition_rates hash bags pairs accepted).
Proof.
  apply foldl_total. intros r e. unfold rate_incident. cbn [mbind option_bind].
  destruct (evaluate_total e.2 (default [] (pairs !! e.1)) accepted) as [s ->]. by eexists.
Qed.

Lemma components_total asserting pairs accepted : is_Some (components_for asserting pairs accepted).
Proof.
  apply foldl_total. intros out b. cbn [mbind option_bind].
  destruct (partition_total (accepted_edges accepted (rows_of pairs (ab_feedback b))) (list_to_set (ab_members b))) as (c & -> & _). by eexists.
Qed.

Lemma arm_total bags by_inc elig pairs accepted : is_Some (arm hash bags by_inc elig pairs accepted).
Proof.
  unfold arm. destruct (partition_rates_total bags by_inc accepted) as [r ->]. cbn [mbind option_bind].
  destruct (components_total elig pairs accepted) as [c ->]. by eexists.
Qed.

Lemma measure_total c score : is_Some (measure hash c score).
Proof.
  unfold measure. destruct (labelled_pairs c) as [|p l] eqn:E; [by eexists|]. rewrite <- E.
  match goal with |- context[arm hash ?b ?i ?e ?p (challenger_decisions _ _)] => destruct (arm_total b i e p (challenger_decisions score (labelled_pairs c))) as [[[[o1 u1] i1] r1] ->] end.
  cbn [mbind option_bind].
  match goal with |- context[arm hash ?b ?i ?e ?p (champion_decisions _)] => destruct (arm_total b i e p (champion_decisions (labelled_pairs c))) as [[[[o2 u2] i2] r2] ->] end.
  by eexists.
Qed.
End totals.

(** ** Zero, or no number: what the rate of something that never happens comes to *)

Definition null (x : float) : Prop := match x with S754_zero _ | S754_nan => True | _ => False end.

Lemma null_fadd x y : null x -> null y -> null (fadd x y).
Proof. destruct x as [[]|[]| |[]], y as [[]|[]| |[]]; done. Qed.
Lemma null_fsub x y : null x -> null y -> null (fsub x y).
Proof. destruct x as [[]|[]| |[]], y as [[]|[]| |[]]; done. Qed.
Lemma null_fdiv x y : null x -> null (fdiv x y).
Proof. destruct x, y; done. Qed.
Lemma null_not_less x y : null x -> null y -> fltb x y = false.
Proof. by destruct x, y. Qed.

Lemma null_sum xs : Forall null xs -> null (py_sum xs).
Proof.
  intros H. unfold py_sum. assert (∀ acc, null acc.1 ∧ null acc.2 -> null (sum_end (foldl sum_step acc xs))) as G; [|apply G; done].
  induction H as [|x xs Hx H IH]; intros [f c] [Hf Hc].
  - cbn. case_match; [by apply null_fadd|done].
  - cbn [foldl]. apply IH. unfold sum_step. cbn [fst snd]. split; [by apply null_fadd|]. apply null_fadd; [done|].
    destruct (fleb _ _); repeat (apply null_fadd || apply null_fsub); done.
Qed.

Lemma null_ratio n : null (ratio 0 n).
Proof. apply null_fdiv. done. Qed.

Lemma null_mean xs : Forall null xs -> null (mean xs).
Proof. intros H. by apply null_fdiv, null_sum. Qed.

Section null_intervals.
Context (m : gmap Z (list float)) (Hm : ∀ i xs, m !! i = Some xs -> Forall null xs).

Lemma values_null i : Forall null (values_of m i).
Proof using Hm. unfold values_of. destruct (m !! i) as [xs|] eqn:E; [by eapply Hm|constructor]. Qed.

Lemma draw_null n state : Forall null (draw m n state).1.
Proof using Hm.
  revert state. induction n as [|n IH]; intros state; [constructor|]. cbn [draw]. destruct (lcg_below _ _) as [i s1]. specialize (IH s1).
  destruct (draw m n s1) as [rest s2]. cbn in *. apply Forall_app. split; [apply values_null|done].
Qed.

Lemma resample_null k state : Forall null (resample m k state).
Proof using Hm.
  revert state. induction k as [|k IH]; intros state; [constructor|]. cbn [resample]. pose proof (draw_null (length (names m)) state) as H.
  destruct (draw m _ _) as [drawn s]. constructor; [|apply IH]. destruct drawn as [|x l]; [done|by apply null_mean].
Qed.

Lemma bootstrap_null : null (rate (cluster_bootstrap m)).
Proof using Hm.
  unfold cluster_bootstrap, cluster_bootstrap_with. case_bool_decide; [done|]. case_bool_decide; cbn [rate]; apply null_mean, Forall_concat;
    apply Forall_fmap, Forall_forall; intros; apply values_null.
Qed.
End null_intervals.

(** ** No partition joins two bags *)

Lemma groups_elem l ks k (es : list (Z * Z)) : foldl group_one ∅ es !! l = Some ks -> k ∈ ks -> (l, k) ∈ es.
Proof.
  revert ks. induction es as [|[l' k'] es IH] using rev_ind; intros ks; [cbn [foldl]; by rewrite (lookup_empty (M := gmap Z))|]. rewrite foldl_app. cbn [foldl].
  set (out := foldl group_one ∅ es) in *. change (group_one out (l', k')) with (<[l' := {[k']} ∪ default ∅ (out !! l')]> out).
  destruct (decide (l' = l)) as [->|Hn].
  - rewrite lookup_insert_eq. intros [= <-] [->%elem_of_singleton|H]%elem_of_union; apply elem_of_app; [right; by left|left].
    destruct (out !! l) as [ks|] eqn:E; [by eapply IH|by apply elem_of_empty in H].
  - rewrite lookup_insert_ne by done. intros H Hk. apply elem_of_app. left. by eapply IH.
Qed.

Lemma single_size (s : gset Z) : (∀ x y, x ∈ s -> y ∈ s -> x = y) -> (size s <= 1)%nat.
Proof.
  intros H. destruct (set_choose_or_empty s) as [[x Hx]|E]; [|rewrite (leibniz_equiv _ _ E), size_empty; lia].
  assert (s ⊆ {[x]}) as Hs%subseteq_size by (intros y Hy; apply elem_of_singleton; by apply H). by rewrite size_singleton in Hs.
Qed.

Lemma over_merge_null pred truth :
  (∀ l k k', (l, k) ∈ zip pred truth -> (l, k') ∈ zip pred truth -> k = k') -> null (over_merge_rate pred truth).
Proof.
  intros H. unfold over_merge_rate. case_decide; [done|]. assert (spread (groups pred truth) = 0%nat) as ->; [|apply null_ratio].
  unfold spread. assert (filter (fun e : Z * gset Z => 2 <= Z.of_nat (size e.2)) (groups pred truth) = ∅) as ->; [|apply map_size_empty].
  apply map_empty. intros l. destruct (_ !! l) as [ks|] eqn:F; [|done]. exfalso. apply map_lookup_filter_Some in F as [E H2]. cbn in H2.
  assert (size ks <= 1)%nat; [apply single_size|lia].
  intros x y Hx Hy. eapply H; by eapply groups_elem.
Qed.

Section no_collision.
Context (hash : Z * Z -> Z).

(** Labels of different bags differ: no two of the pairs that are hashed collide. *)
Definition no_collision (pairs : list Pair) : Prop := ∀ f f' a a',
  f ∈ p_feedback <$> pairs -> f' ∈ p_feedback <$> pairs -> a ∈ ends pairs -> a' ∈ ends pairs -> hash (f, a) = hash (f', a') -> f = f'.

Definition labelled_by (pairs : list Pair) (t : Tally) : Prop :=
  length (t_pred t) = length (t_truth t)
  ∧ ∀ l k, (l, k) ∈ zip (t_pred t) (t_truth t) -> k ∈ p_feedback <$> pairs ∧ ∃ a, a ∈ ends pairs ∧ l = hash (k, a).

Lemma ends_rows pairs fid a : a ∈ ends (rows_of pairs fid) -> a ∈ ends pairs.
Proof.
  unfold ends, rows_of. rewrite !elem_of_union, !elem_of_list_to_set, !list_elem_of_fmap.
  intros [(r & -> & [_ H]%list_elem_of_filter)|(r & -> & [_ H]%list_elem_of_filter)]; [left|right]; eauto.
Qed.

Lemma mapM_origin {A} (f : Z -> option A) l ys y : mapM f l = Some ys -> y ∈ ys -> ∃ x, x ∈ l ∧ f x = Some y.
Proof.
  revert ys. induction l as [|x l IH]; intros ys; cbn; [intros [= <-]; by intros ?%not_elem_of_nil|].
  destruct (f x) as [z|] eqn:E; [|done]. cbn. destruct (mapM f l) as [zs|]; [|done]. intros [= <-] [->|H]%elem_of_cons; [exists x; split; [by left|done]|].
  destruct (IH zs eq_refl H) as (w & Hw & ?). exists w. split; [by right|done].
Qed.

Lemma sorted_length members : length (sorted members) = size members.
Proof. unfold sorted. by rewrite merge_sort_Permutation. Qed.

Lemma score_bag_labels bags pairs accepted t fid t' :
  fid ∈ p_feedback <$> pairs -> labelled_by pairs t -> score_bag hash bags pairs accepted (Some t) fid = Some t' -> labelled_by pairs t'.
Proof.
  intros Hf [HL HE]. unfold score_bag. cbn [mbind option_bind].
  destruct (partition_roots (accepted_edges accepted (rows_of pairs fid)) (ends (rows_of pairs fid))) as (parent & component & U & -> & L). cbn [mbind option_bind].
  case_bool_decide; cycle 1.
  { destruct (mapM _ _); [|done]. cbn. intros [= <-]. by split. }
  destruct (predicted hash fid component (ends (rows_of pairs fid))) as [labels|] eqn:E; [|done]. cbn [mbind option_bind]. intros [= <-].
  assert (length labels = size (ends (rows_of pairs fid))) as Hlen by (apply length_mapM in E; by rewrite <- E, sorted_length).
  split; cbn [t_pred t_truth]; [rewrite !length_app, length_replicate; lia|]. intros l k.
  rewrite zip_with_app by done. intros [Hz|Hz]%elem_of_app; [by apply HE|].
  apply elem_of_lookup_zip_with in Hz as (i & x & y & [= -> ->] & H1 & H2). apply lookup_replicate in H2 as [-> _]. split; [done|].
  apply list_elem_of_lookup_2 in H1. destruct (mapM_origin _ _ _ _ E H1) as (a & Ha & Hc). apply fmap_Some in Hc as (c & Hc & ->).
  exists c. split; [|done]. apply L in Hc as [_ Hc]. apply (ends_rows _ fid). rewrite <- (un_dom _ _ _ U). apply elem_of_dom. apply root_member in Hc as [_ Hc]. eauto.
Qed.

Lemma tally_labels bags pairs accepted t : tally hash bags pairs accepted = Some t -> labelled_by pairs t.
Proof.
  unfold tally. assert (∀ l t0, (∀ f, f ∈ l -> f ∈ p_feedback <$> pairs) -> labelled_by pairs t0 ->
    foldl (score_bag hash bags pairs accepted) (Some t0) l = Some t -> labelled_by pairs t) as G.
  { induction l as [|f l IH]; intros t0 Hl H0; cbn [foldl]; [by intros [= <-]|].
    destruct (score_bag_total hash bags pairs accepted t0 f) as [t1 E]. rewrite E. apply IH; [intros; apply Hl; by right|].
    eapply score_bag_labels; [apply Hl; by left|done|done]. }
  apply G; [|split; [done|by intros ?? ?%not_elem_of_nil]]. intros f Hf%sorted_elements. by apply elem_of_list_to_set in Hf.
Qed.

Lemma evaluate_over_null bags pairs accepted s x :
  no_collision pairs -> evaluate hash bags pairs accepted = Some s -> over_merge s = Some x -> null x.
Proof.
  intros N. unfold evaluate. destruct (tally hash bags pairs accepted) as [t|] eqn:E; [|done]. cbn [mbind option_bind]. intros [= <-]. cbn [over_merge].
  destruct (negb _); [|done]. intros [= <-]. apply over_merge_null. apply tally_labels in E as [_ HE]. intros l k k' H1 H2.
  apply HE in H1 as (F1 & a1 & A1 & E1), H2 as (F2 & a2 & A2 & E2). eapply N; [..|by rewrite <- E1]; done.
Qed.

Lemma no_collision_some pairs pairs' : (∀ r, r ∈ pairs' -> r ∈ pairs) -> no_collision pairs -> no_collision pairs'.
Proof.
  intros Hs N.
  assert (∀ f, f ∈ p_feedback <$> pairs' -> f ∈ p_feedback <$> pairs) as HF by (intros f (r & -> & Hr)%list_elem_of_fmap; apply list_elem_of_fmap; eauto).
  assert (∀ a, a ∈ ends pairs' -> a ∈ ends pairs) as HA.
  { unfold ends. intros a. rewrite !elem_of_union, !elem_of_list_to_set, !list_elem_of_fmap. intros [(r & -> & Hr)|(r & -> & Hr)]; eauto. }
  intros f f' a a' Hf Hf' Ha Ha'. apply N; auto.
Qed.

Lemma by_incident_elem {A} (key : A -> Z) incident (rows : list A) i rs r : by_incident key incident rows !! i = Some rs -> r ∈ rs -> r ∈ rows.
Proof.
  unfold by_incident. revert rs. induction rows as [|x rows IH] using rev_ind; intros rs; [cbn [foldl]; by rewrite (lookup_empty (M := gmap Z))|].
  rewrite foldl_app. cbn [foldl]. set (out := foldl _ ∅ rows) in *. destruct (decide (incident (key x) = i)) as [<-|Hn].
  - rewrite lookup_insert_eq. intros [= <-] [H|H]%elem_of_app; apply elem_of_app; [left|by right].
    destruct (out !! incident (key x)) as [ys|] eqn:E; [by eapply IH|by apply not_elem_of_nil in H].
  - rewrite lookup_insert_ne by done. intros H Hr. apply elem_of_app. left. by eapply IH.
Qed.

Definition all_null (m : gmap Z (list float)) : Prop := ∀ i xs, m !! i = Some xs -> Forall null xs.

Lemma rated_null i x m : (∀ y, x = Some y -> null y) -> all_null m -> all_null (rated i x m).
Proof.
  intros Hx Hm. destruct x as [y|]; [|done]. intros j xs. cbn [rated]. destruct (decide (i = j)) as [->|Hn].
  - rewrite lookup_insert_eq. intros [= <-]. apply Forall_app. split; [|constructor; [by apply Hx|constructor]].
    destruct (m !! j) as [ys|] eqn:E; [by eapply Hm|constructor].
  - rewrite lookup_insert_ne by done. apply Hm.
Qed.

Lemma partition_rates_null bags by_inc accepted pairs r :
  no_collision pairs -> (∀ i rs x, by_inc !! i = Some rs -> x ∈ rs -> x ∈ pairs) ->
  partition_rates hash bags by_inc accepted = Some r -> all_null (r_over r).
Proof.
  intros N HI. unfold partition_rates.
  assert (∀ l r0, all_null (r_over r0) -> foldl (rate_incident hash by_inc accepted) (Some r0) l = Some r -> all_null (r_over r)) as G; [|apply G; by intros ? ? ?].
  induction l as [|e l IH]; intros r0 H0; cbn [foldl]; [by intros [= <-]|].
  unfold rate_incident at 2. cbn [mbind option_bind]. destruct (evaluate_total hash e.2 (default [] (by_inc !! e.1)) accepted) as [s E]. rewrite E. cbn [mbind option_bind].
  apply IH. cbn [r_over]. apply rated_null; [|done]. intros y Hy. eapply evaluate_over_null; [|exact E|exact Hy].
  apply (no_collision_some pairs); [|done]. intros x Hx. destruct (by_inc !! e.1) as [rs|] eqn:F; [by eapply HI|by apply not_elem_of_nil in Hx].
Qed.

(** Both arms' over-merge rates are null, so neither is lower. *)
Lemma over_never_favours c score m missing : no_collision (labelled_pairs c) -> measure hash c score = Some (m, missing) -> favours_challenger (m_over m) = false.
Proof.
  intros N. unfold measure. destruct (labelled_pairs c) as [|p l] eqn:EP; [by intros [= <- <-]|]. rewrite <- EP in *. unfold arm.
  destruct (partition_rates hash _ _ (challenger_decisions _ _)) as [r1|] eqn:E1; [|done]. cbn [mbind option_bind].
  destruct (components_for _ _ (challenger_decisions _ _)); [|done]. cbn [mbind option_bind].
  destruct (partition_rates hash _ _ (champion_decisions _)) as [r2|] eqn:E2; [|done]. cbn [mbind option_bind].
  destruct (components_for _ _ (champion_decisions _)); [|done]. cbn [mbind option_bind]. intros [= <- <-].
  apply null_not_less; cbn; apply bootstrap_null; eapply partition_rates_null; [exact N|intros ???; apply by_incident_elem|exact E1|exact N|intros ???; apply by_incident_elem|exact E2].
Qed.
End no_collision.

(** ** The verdict *)

Lemma judge_triggers e : triggers (judge e) = triggers_of e.
Proof. unfold judge. destruct (triggers_of e) eqn:E; cbn [triggers]; by rewrite ?E. Qed.

Lemma insufficient_iff e : verdict (judge e) = INSUFFICIENT_EVIDENCE ↔ triggers_of e ≠ [].
Proof. unfold judge. destruct (triggers_of e); cbn [verdict]; [|done]. destruct (_ && _ && _); done. Qed.

Lemma better_iff e : verdict (judge e) = BETTER ↔
  triggers_of e = [] ∧ difference_excludes_zero e = true ∧ favours e = true ∧ split_bags_buried e = false ∧ separates_everything e = false.
Proof.
  unfold judge. destruct (triggers_of e); cbn [verdict]; [|naive_solver].
  destruct (difference_excludes_zero e), (favours e), (split_bags_buried e), (separates_everything e); cbn; naive_solver.
Qed.

(** When each trigger applies. *)
Definition holds (e : Evidence) (t : Trigger) : Prop :=
  match t with
  | FLOOR_UNMET => e_floors e = false
  | HOLDOUT_UNSPENT => holdout_spent e = false
  | THIN_SPLIT => smallest_side e < 10
  | POWER => fltb (detectable (power e)) (observed_difference (power e)) = false
  | COVERAGE_EXCLUSIONS => 0 < coverage_excluded e
  | UNKNOWN_POPULATION => 0 < unknown_rows e
  | TRUNCATED_LOAD_BEARING => truncated e = true
  | UNSOUND_CHAINS => 0 < unsound_chains e
  | PRE_V080_MERGES => 0 < asserting_incidents e ∧ fltb (fmul (f_lit 1 10) (f_of_Z (asserting_incidents e))) (f_of_Z (pre_v080_merges e)) = true
  end.

Lemma elem_fires b t u : u ∈ fires b t ↔ b = true ∧ u = t.
Proof. destruct b; cbn; [rewrite list_elem_of_singleton|rewrite elem_of_nil]; naive_solver. Qed.

Lemma trigger_iff e t : t ∈ triggers_of e ↔ holds e t.
Proof.
  unfold triggers_of. rewrite !elem_of_app, !elem_fires, ?negb_true_iff, ?Z.ltb_lt, ?andb_true_iff, ?Z.ltb_lt. unfold sufficient, MIN_INCIDENTS_PER_SIDE, PRE_V080_SHARE.
  split; [intros H; decompose [or and] H; by subst|]. destruct t; cbn; tauto.
Qed.

(** The verdict is exactly what the evidence makes it: every trigger that applies is reported and no other, one of
    them is enough for INSUFFICIENT_EVIDENCE, and BETTER is what is left when none applies, the difference excludes
    zero and favours the challenger, and neither adverse finding was made. *)
Theorem the_verdict_is_exact e :
  (∀ t, t ∈ triggers (judge e) ↔ holds e t)
  ∧ (verdict (judge e) = INSUFFICIENT_EVIDENCE ↔ ∃ t, holds e t)
  ∧ (verdict (judge e) = BETTER ↔ (∀ t, ¬ holds e t) ∧ difference_excludes_zero e = true ∧ favours e = true
      ∧ split_bags_buried e = false ∧ separates_everything e = false).
Proof.
  split_and!.
  - intros t. rewrite judge_triggers. apply trigger_iff.
  - rewrite insufficient_iff. split.
    + intros H. destruct (triggers_of e) as [|t l] eqn:E; [done|]. exists t. apply trigger_iff. rewrite E. by left.
    + intros [t H%trigger_iff] E. rewrite E in H. by apply not_elem_of_nil in H.
  - rewrite better_iff. assert (triggers_of e = [] ↔ ∀ t, ¬ holds e t) as ->; [|done]. split.
    + intros E t H%trigger_iff. rewrite E in H. by apply not_elem_of_nil in H.
    + intros H. destruct (triggers_of e) as [|t l] eqn:E; [done|]. exfalso. apply (H t), trigger_iff. rewrite E. by left.
Qed.

(** ** The seal *)

Section seal.
Context (sha256 : string -> string) (show : Z -> string).

(** What may happen to the holdout: the maintenance pass, a plan put on record, a reading asked for. *)
Inductive hstep : Holdout -> Holdout -> Prop :=
| H_seal h release now labels : hstep h (seal_once sha256 show h release now labels)
| H_ratify h release plan now : hstep h (ratify h release plan now)
| H_spend h release plan asked now : asked ≠ "ratify"%string -> hstep h (spend h release plan asked now).2.

Definition unsealed : Holdout := MkHoldout None [] [].

Lemma seal_once_cases h release now labels :
  seal_once sha256 show h release now labels = h ∨
  ∃ ids row, seal_row h = None ∧ seal_once sha256 show h release now labels = MkHoldout (Some row) (seal_members h ++ ids) (access_log h)
    ∧ s_plan row = SEAL_PLAN_SHA256 ∧ incident_count row = length ids ∧ (3 * incident_count row <= corpus_incidents row)%nat.
Proof.
  unfold seal_once, construct, construct_seal. destruct (seal_row h) as [r|] eqn:E; [by left|]. case_bool_decide; [by left|]. right. cbn [default].
  eexists _, _. split_and!; [done|reflexivity|done|done|]. cbn [incident_count corpus_incidents]. unfold sealed_third. rewrite length_drop.
  unfold HOLDOUT_FRACTION. set (n := length (plan_ordered_incidents labels)). pose proof (Nat.div_mod n 3 ltac:(lia)). lia.
Qed.

Lemma spend_cases h release plan asked now :
  (spend h release plan asked now = ((true, Some (seal_members h)),
     record_access h (MkAccess now release (Some plan) asked true (Granted (length (seal_members h))))) ∧ plan ∈ ratified_plan_hashes h)
  ∨ ∃ o, spend h release plan asked now = ((false, None), record_access h (MkAccess now release (Some plan) asked false o))
      ∧ (seal_row h = None ∨ plan ∉ ratified_plan_hashes h).
Proof.
  unfold spend. destruct (seal_row h) as [r|]; [|right; eexists; by split; [|left]].
  destruct (bool_decide (plan ∈ ratified_plan_hashes h)) eqn:E; [left|right; eexists]; (split; [done|]); [by apply bool_decide_eq_true in E|right; by apply bool_decide_eq_false in E].
Qed.

Lemma hstep_keeps h h' : hstep h h' ->
  (∀ r, seal_row h = Some r -> seal_row h' = Some r ∧ seal_members h' = seal_members h) ∧ access_log h `prefix_of` access_log h'.
Proof.
  destruct 1 as [h release now labels|h release plan now|h release plan asked now _].
  - destruct (seal_once_cases h release now labels) as [->|(ids & row & E & -> & _)]; [done|]. split; [intros r Hr; congruence|done].
  - split; [done|]. by eexists.
  - destruct (spend_cases h release plan asked now) as [[-> _]|(o & -> & _)]; (split; [done|]; by eexists).
Qed.

(** A plan is on record once the log so far ratified it or the seal was cut under it. *)
Definition on_record (h : Holdout) (log : list AccessRow) (plan : string) : Prop :=
  (∃ r, seal_row h = Some r ∧ s_plan r = plan) ∨ ∃ a, a ∈ log ∧ purpose a = "ratify"%string ∧ granted a = true ∧ a_plan a = Some plan.

Record honest (h : Holdout) : Prop := {
  ho_sealed : ∀ r, seal_row h = Some r -> incident_count r = length (seal_members h) ∧ (3 * incident_count r <= corpus_incidents r)%nat ∧ s_plan r = SEAL_PLAN_SHA256;
  ho_unsealed : seal_row h = None -> seal_members h = [];
  ho_granted : ∀ before a after, access_log h = before ++ a :: after -> granted a = true -> purpose a ≠ "ratify"%string ->
    ∃ plan, a_plan a = Some plan ∧ on_record h before plan }.

Lemma snoc_split {A} (l : list A) x before a after : l ++ [x] = before ++ a :: after -> (after = [] ∧ before = l ∧ a = x) ∨ ∃ after', after = after' ++ [x] ∧ l = before ++ a :: after'.
Proof.
  destruct after as [|b after _] using rev_ind.
  - change (a :: []) with ([a]). intros [-> [= ->]]%app_inj_tail. by left.
  - rewrite app_comm_cons, app_assoc. intros [-> ->]%app_inj_tail. right. by exists after.
Qed.

Lemma record_honest h a : honest h -> (granted a = true -> purpose a ≠ "ratify"%string -> ∃ plan, a_plan a = Some plan ∧ on_record h (access_log h) plan) -> honest (record_access h a).
Proof.
  intros [H1 H2 H3] Ha. split; [done|done|]. cbn [record_access access_log]. intros before b after [(-> & -> & ->)|(after' & -> & E)]%snoc_split G P; [by apply Ha|].
  eapply H3; done.
Qed.

Lemma hstep_honest h h' : hstep h h' -> honest h -> honest h'.
Proof.
  destruct 1 as [h release now labels|h release plan now|h release plan asked now Hask]; intros Hh.
  - destruct (seal_once_cases h release now labels) as [->|(ids & row & E & -> & Hp & Hc & Hle)]; [done|]. destruct Hh as [H1 H2 H3]. rewrite (H2 E). split; cbn [seal_row seal_members access_log].
    + intros r [= <-]. by split_and!.
    + done.
    + intros before a after El G P. destruct (H3 before a after El G P) as (plan & Ep & [(r & ? & _)|R]); [congruence|]. exists plan. split; [done|by right].
  - by apply record_honest.
  - destruct (spend_cases h release plan asked now) as [[-> Hr]|(o & -> & _)]; apply record_honest; try done. cbn. intros _ _. exists plan. split; [done|].
    unfold ratified_plan_hashes in Hr. apply elem_of_app in Hr as [Hr|Hr].
    + left. destruct (seal_row h) as [r|]; [|by apply not_elem_of_nil in Hr]. apply list_elem_of_singleton in Hr as ->. by exists r.
    + right. apply list_elem_of_omap in Hr as (a & Ha & E). destruct (bool_decide _) eqn:B; [|done]. apply bool_decide_eq_true in B. destruct (granted a) eqn:G; [|done]. by exists a.
Qed.

(** C27: Once it is cut the seal never changes and the log of readings only grows. Of a holdout the program made, the sealed
    incidents are at most a third of the corpus, and every reading that was granted came after its plan was on record:
    nobody looks first and registers after. *)
Theorem the_seal_is_cut_once_and_read_by_the_book h h' :
  rtc hstep unsealed h -> rtc hstep h h' ->
  (∀ r, seal_row h = Some r -> seal_row h' = Some r ∧ seal_members h' = seal_members h)
  ∧ access_log h `prefix_of` access_log h'
  ∧ honest h'.
Proof.
  intros R R'. assert (honest unsealed) as H0 by (split; [done|done|intros before a after E; by destruct before]).
  split_and!.
  - clear R. induction R' as [h|h h1 h2 S _ IH]; [done|]. intros r Hr. apply hstep_keeps in S as [S _]. destruct (S r Hr) as [S1 S2]. destruct (IH r S1) as [-> ->]. done.
  - clear R. induction R' as [h|h h1 h2 S _ IH]; [done|]. apply hstep_keeps in S as [_ S]. by etrans.
  - assert (rtc hstep unsealed h') as R2 by (by etrans). clear R R'. revert H0. induction R2 as [|h0 h1 h2 S _ IH]; [done|]. intros H. apply IH. by eapply hstep_honest.
Qed.
End seal.

(** *** What is sealed *)

Lemma label_le_total a b : is_nan a.2 = false -> is_nan b.2 = false -> label_le a b = true ∨ label_le b a = true.
Proof.
  intros Ha Hb. unfold label_le. rewrite (feqb_sym b.2 a.2). destruct (feqb a.2 b.2) eqn:E; [lia|].
  destruct (fltb_total3 a.2 b.2 Ha Hb) as [?|[?|?]]; [by left|congruence|by right].
Qed.

Lemma label_le_trans a b c : label_le a b = true -> label_le b c = true -> label_le a c = true.
Proof.
  unfold label_le. destruct (feqb a.2 b.2) eqn:E1, (feqb b.2 c.2) eqn:E2; intros H1 H2.
  - rewrite (feqb_trans _ _ _ E1 E2). lia.
  - rewrite (feqb_ltb_trans _ _ _ E1 H2). destruct (feqb a.2 c.2) eqn:E3; [|done].
    exfalso. rewrite feqb_sym in E1. rewrite (feqb_trans _ _ _ E1 E3) in E2. done.
  - pose proof (fltb_eqb_trans _ _ _ H1 E2) as H. destruct (feqb a.2 c.2) eqn:E3; [|done]. apply feqb_not_lt in E3. congruence.
  - pose proof (fltb_trans _ _ _ H1 H2) as H. destruct (feqb a.2 c.2) eqn:E3; [|done]. apply feqb_not_lt in E3. congruence.
Qed.

Lemma StronglySorted_fmap_app {A} (R : A -> A -> Prop) l1 l2 x y : StronglySorted R (l1 ++ l2) -> x ∈ l1 -> y ∈ l2 -> R x y.
Proof.
  induction l1 as [|z l1 IH]; cbn; [by intros _ ?%not_elem_of_nil|]. intros [S F]%StronglySorted_inv [->|Hx]%elem_of_cons Hy; [|by apply IH].
  rewrite Forall_forall in F. apply F, elem_of_app. by right.
Qed.

(** What the first pass over a labelled corpus seals: the incidents first labelled last, ties by id, rounding down, so
    that never more than a third is kept from the models and everything kept was labelled before. *)
Theorem the_seal_is_the_latest_third (labels : gmap Z float) :
  (∀ i t, labels !! i = Some t -> is_nan t = false) ->
  let sealed := sealed_third (plan_ordered_incidents labels) in
  NoDup sealed ∧ length sealed = (size labels / 3)%nat
  ∧ (∀ i, i ∈ sealed -> is_Some (labels !! i))
  ∧ ∀ i j t u, i ∈ sealed -> labels !! i = Some t -> j ∉ sealed -> labels !! j = Some u -> fltb u t = true ∨ feqb u t = true ∧ j < i.
Proof.
  intros HN sealed. set (l := sort_by label_le (map_to_list labels)).
  assert (l ≡ₚ map_to_list labels) as HP by apply sort_by_perm.
  assert (NoDup l.*1) as ND by (rewrite HP; apply NoDup_fst_map_to_list).
  assert (length l.*1 = size labels) as HL by (rewrite length_fmap, HP; apply length_map_to_list).
  assert (sealed = (drop (length l - length l / 3) l).*1) as Es by (unfold sealed, sealed_third, plan_ordered_incidents, HOLDOUT_FRACTION; rewrite fmap_drop, length_fmap; done).
  assert (∀ i t, (i, t) ∈ l ↔ labels !! i = Some t) as HM by (intros i t; rewrite HP; apply elem_of_map_to_list).
  assert (StronglySorted (fun x y => label_le x y = true) l) as HS.
  { apply (sort_by_sorted _ (fun e => is_nan e.2 = false)); [|by intros; apply label_le_total|apply label_le_trans].
    apply Forall_forall. intros [i t] H%elem_of_map_to_list. by eapply HN. }
  split_and!.
  - rewrite Es. rewrite <- (take_drop (length l - length l / 3) l) in ND. rewrite fmap_app in ND. by apply NoDup_app in ND as (_ & _ & ND).
  - rewrite length_fmap in HL. rewrite Es, length_fmap, length_drop, HL. pose proof (Nat.div_le_upper_bound (size labels) 3 (size labels) ltac:(lia) ltac:(lia)). lia.
  - intros i Hi. rewrite Es in Hi. apply list_elem_of_fmap in Hi as ([i' t] & -> & Hi). exists t. apply HM. rewrite <- (take_drop (length l - length l / 3) l). apply elem_of_app. by right.
  - intros i j t u Hi Ht Hj Hu. rewrite <- (take_drop (length l - length l / 3) l) in HS, HM, ND. rewrite Es in Hi, Hj.
    apply list_elem_of_fmap in Hi as ([i' t'] & -> & Hi). cbn in Ht. apply HM in Hu. apply elem_of_app in Hu as [Hu|Hu]; [|exfalso; apply Hj, list_elem_of_fmap; by exists (j, u)].
    assert (t' = t) as -> by (assert (labels !! i' = Some t') as E by (apply HM, elem_of_app; by right); cbn in Ht; congruence).
    pose proof (StronglySorted_fmap_app _ _ _ _ _ HS Hu Hi) as H. unfold label_le in H. cbn in *. destruct (feqb u t) eqn:E; [right|by left]. split; [done|].
    assert (j ≠ i'); [|lia]. intros ->. apply Hj, list_elem_of_fmap. by exists (i', t).
Qed.

Lemma the_seal_is_the_latest_third_witness :
  let labels : gmap Z float := list_to_map [(4, f_of_Z 10); (2, f_of_Z 30); (9, f_of_Z 30)] in
  let sealed := sealed_third (plan_ordered_incidents labels) in
  sealed = [9] ∧ NoDup sealed ∧ length sealed = (size labels / 3)%nat
  ∧ (∀ i, i ∈ sealed -> is_Some (labels !! i))
  ∧ ∀ i j t u, i ∈ sealed -> labels !! i = Some t -> j ∉ sealed -> labels !! j = Some u -> fltb u t = true ∨ feqb u t = true ∧ j < i.
Proof.
  intros labels. split; [by vm_compute|]. apply (the_seal_is_the_latest_third labels). intros i t H.
  assert ((i, t) ∈ map_to_list labels) as E by (by apply elem_of_map_to_list). vm_compute in E. repeat (apply elem_of_cons in E as [[= -> ->]|E]; [done|]). by apply not_elem_of_nil in E.
Defined.

(** ** The order of the evaluation *)

Section route.
Context (sha256 : string -> string) (show : Z -> string).

(** Floors first, the power condition second, the seal last: the seal is asked exactly when the first two hold, and one
    row says so; otherwise the holdout is as it was and the verdict names what was missing. A verdict other than
    INSUFFICIENT_EVIDENCE comes with a reading that was granted. *)
Theorem the_seal_is_read_last h folds v plan release now :
  let '(d, h', _) := evaluate_promotion sha256 show h folds v plan release now in
  (v_floors v = true ∧ sufficient (v_power v) = true ->
     ∃ ok o, h' = record_access h (MkAccess now release (Some plan) "promotion" ok o)
       ∧ (ok = false -> HOLDOUT_UNSPENT ∈ triggers (judgement d)))
  ∧ (v_floors v = false ∨ sufficient (v_power v) = false ->
     h' = h ∧ (FLOOR_UNMET ∈ triggers (judgement d) ∨ POWER ∈ triggers (judgement d)) ∧ HOLDOUT_UNSPENT ∈ triggers (judgement d))
  ∧ (decisive (judgement d) = true -> plan ∈ ratified_plan_hashes h ∧ query_count (judgement d) = queries h + 1).
Proof.
  unfold evaluate_promotion. destruct (materialise_folds _ _ _ _ _) as [run fs]. destruct (v_floors v) eqn:F, (sufficient (v_power v)) eqn:P; cbn [andb].
  2-4: split_and!; [by intros [? ?]| |];
    [intros _; cbn [judgement]; rewrite !judge_triggers, !trigger_iff; cbn; unfold sufficient in P; rewrite ?F, ?P; tauto|];
    unfold decisive; cbn [judgement]; intros D%negb_true_iff%bool_decide_eq_false; exfalso; apply D, insufficient_iff; intros E;
    assert (HOLDOUT_UNSPENT ∈ @nil Trigger) as X by (rewrite <- E; apply trigger_iff; done); by apply not_elem_of_nil in X.
  destruct (spend_cases h release plan "promotion" now) as [[-> R]|(o & -> & _)]; split_and!; try (by intros [?|?]).
  - intros _. exists true. eexists. split; [reflexivity|done].
  - intros _. split; [done|]. cbn [judgement query_count]. unfold judge. destruct (triggers_of _); cbn [query_count e_queries]; unfold queries, record_access; cbn [access_log];
      rewrite filter_app, length_app, filter_cons_True by (cbn; done); cbn; lia.
  - intros _. exists false. eexists. split; [reflexivity|]. intros _. cbn [judgement]. rewrite judge_triggers, trigger_iff. done.
  - unfold decisive; cbn [judgement]; intros D%negb_true_iff%bool_decide_eq_false; exfalso; apply D, insufficient_iff; intros E.
    assert (HOLDOUT_UNSPENT ∈ @nil Trigger) as X by (rewrite <- E; apply trigger_iff; done). by apply not_elem_of_nil in X.
Qed.

(** *** The two refusals *)

Lemma refusal_of d : refusal_for d = match verdict (judgement d) with
  | BETTER => None
  | NOT_BETTER => Some (Decided_against (deciding_quantity (d_metrics d)) (j_incidents (judgement d)) (detectable_difference (judgement d)) (query_count (judgement d)) (notes (judgement d)))
  | INSUFFICIENT_EVIDENCE => Some (Cannot_decide (triggers (judgement d)) (j_incidents (judgement d)) (detectable_difference (judgement d)) (j_observed (judgement d)) (query_count (judgement d)))
  end.
Proof. unfold refusal_for, insufficient_evidence_refusal, not_better_refusal. by destruct (verdict (judgement d)) eqn:E; cbn. Qed.

(** ** The route *)

Context (hash : Z * Z -> Z) (release : string) (scorer_for : Candidate -> option (LinkFeatures -> LinkScore)).
Abbreviation propose := (propose_promotion sha256 show hash release scorer_for).

Lemma derived_inputs_total c score : is_Some (derived_inputs hash c score).
Proof. unfold derived_inputs. destruct (measure_total hash c score) as [[m missing] ->]. by eexists. Qed.

(** What a proposal that is answered does. *)
Record proposed (d : Desk) (c : Corpus) (version : Z) (actor : string) (now : float) (candidate : Candidate) (score : LinkFeatures -> LinkScore)
    (v : Derived) (decision : Decision) (row : PromotionRow) (d' : Desk) : Prop := {
  pp_metrics : ∃ missing, measure hash c score = Some (v_metrics v, missing);
  pp_decision : evaluate_promotion sha256 show (holdout d) (folds d) v RATIFIED_PLAN_SHA256 release now = (decision, holdout d', folds d');
  pp_row : promotions d' = promotions d ++ [row];
  pp_audit : ∃ a, audit d' = audit d ++ [a] ∧ au_object a = version ∧ au_verdict a = pr_verdict row ∧ au_triggers a = pr_triggers row
    ∧ au_action a = (if applied row then "promotion.applied" else "promotion.refused")%string;
  pp_says : pr_version row = version ∧ approved_by row = actor ∧ decided_at row = now ∧ pr_plan row = RATIFIED_PLAN_SHA256
    ∧ pr_verdict row = verdict (judgement decision) ∧ pr_triggers row = triggers (judgement decision) ∧ pr_queries row = query_count (judgement decision);
  pp_applied : applied row = true ↔ pr_verdict row = BETTER ∧ is_Some (challenger_run_id candidate);
  pp_active : active d' = (if applied row then A_model version else active d) ∧ decider_mode d' = (if applied row then "site"%string else decider_mode d);
  pp_reason : refusal_reason row = None ↔ applied row = true;
  pp_versions : model_versions d' = model_versions d }.

Lemma propose_spec d c version actor now candidate score :
  model_versions d !! version = Some candidate -> scorer_for candidate = Some score ->
  ∃ v decision row d', propose d c version actor now = inl d' ∧ proposed d c version actor now candidate score v decision row d'.
Proof.
  intros Hc Hs. unfold propose_promotion. rewrite Hc, Hs. unfold derived_inputs. destruct (measure_total hash c score) as [[m missing] Em]. rewrite Em. cbn [mbind option_bind].
  match goal with |- context[evaluate_promotion _ _ _ _ ?v _ _ _] => set (w := v) end.
  destruct (evaluate_promotion sha256 show (holdout d) (folds d) w RATIFIED_PLAN_SHA256 release now) as [[decision h] fs] eqn:E.
  eexists w, decision, _, _. split; [reflexivity|].
  assert (plan_sha256 decision = RATIFIED_PLAN_SHA256) as Ep.
  { unfold evaluate_promotion in E. destruct (materialise_folds _ _ _ _ _). destruct (v_floors w && sufficient (v_power w)); [destruct (spend _ _ _ _ _) as [[? ?] ?]|]; by injection E as <- _ _. }
  assert (may_apply decision = true ↔ verdict (judgement decision) = BETTER) as Hm by (unfold may_apply; apply bool_decide_eq_true).
  split; cbn [promotions holdout folds].
  - by eexists.
  - exact E.
  - reflexivity.
  - eexists. split_and!; try reflexivity.
  - by split_and!.
  - cbn [applied pr_verdict]. rewrite andb_true_iff, negb_true_iff, Hm, bool_decide_eq_false. destruct (challenger_run_id candidate); split; intros [? H]; try done; by destruct H.
  - by split.
  - cbn [applied refusal_reason]. rewrite refusal_of. unfold missing_run_refusal. destruct (may_apply decision) eqn:M; cbn [negb andb].
    + case_bool_decide; done.
    + destruct (verdict (judgement decision)) eqn:V; [|done..]. by destruct Hm as [_ Hm%(fun f => f eq_refl)].
  - reflexivity.
Qed.

(** A proposal is answered whatever the corpus holds: an unknown version and one that will not load are refused with nothing
    written, and otherwise exactly one decision and one audit row are added, the verdict is the server's own from the
    corpus and the seal, the pointer and the mode move exactly when it is BETTER and the version names its run, and a
    proposal that is not applied carries its reason. *)
Theorem a_proposal_leaves_one_record d c version actor now :
  match propose d c version actor now with
  | inr Not_found => model_versions d !! version = None
  | inr Will_not_load => ∃ candidate, model_versions d !! version = Some candidate ∧ scorer_for candidate = None
  | inr Internal_error => False
  | inl d' => ∃ candidate score v decision row,
      model_versions d !! version = Some candidate ∧ scorer_for candidate = Some score
      ∧ proposed d c version actor now candidate score v decision row d'
  end.
Proof.
  destruct (model_versions d !! version) as [candidate|] eqn:Hc; [|unfold propose_promotion; by rewrite Hc].
  destruct (scorer_for candidate) as [score|] eqn:Hs; [|unfold propose_promotion; rewrite Hc, Hs; eauto].
  destruct (propose_spec d c version actor now candidate score Hc Hs) as (v & decision & row & d' & -> & P). by exists candidate, score, v, decision, row.
Qed.

Lemma propose_inv d c version actor now d' : propose d c version actor now = inl d' ->
  ∃ candidate score v decision row, proposed d c version actor now candidate score v decision row d'.
Proof.
  intros H. destruct (model_versions d !! version) as [candidate|] eqn:Hc; [|unfold propose_promotion in H; by rewrite Hc in H].
  destruct (scorer_for candidate) as [score|] eqn:Hs; [|unfold propose_promotion in H; by rewrite Hc, Hs in H].
  destruct (propose_spec d c version actor now candidate score Hc Hs) as (v & decision & row & d1 & E & P).
  assert (d1 = d') as -> by congruence. by exists candidate, score, v, decision, row.
Qed.

(** *** What it comes to: the over-merge rate *)

(** However good the challenger, whatever the seal answers, and whatever plan is on record, no proposal is applied: the
    over-merge rate of a set of decisions is never above zero, because a bag's components are labelled with the bag's
    own id, so neither arm's is ever the lower one. *)
Theorem over_merging_never_favours_a_challenger d c version actor now d' :
  no_collision hash (labelled_pairs c) -> propose d c version actor now = inl d' ->
  active d' = active d ∧ decider_mode d' = decider_mode d ∧ ∃ row, promotions d' = promotions d ++ [row] ∧ pr_verdict row ≠ BETTER ∧ applied row = false.
Proof.
  intros N H. destruct (propose_inv _ _ _ _ _ _ H) as (candidate & score & v & decision & row & P).
  destruct (pp_metrics _ _ _ _ _ _ _ _ _ _ _ P) as [missing Em]. pose proof (over_never_favours _ _ _ _ _ N Em) as F.
  pose proof (pp_decision _ _ _ _ _ _ _ _ _ _ _ P) as E. destruct (pp_says _ _ _ _ _ _ _ _ _ _ _ P) as (_ & _ & _ & _ & V & _).
  assert (pr_verdict row ≠ BETTER) as NB.
  { rewrite V. unfold evaluate_promotion in E. destruct (materialise_folds _ _ _ _ _) as [run fs].
    destruct (if v_floors v && sufficient (v_power v) then _ else _) as [[spent miss] h]. injection E as <- _ _. cbn [judgement].
    rewrite better_iff. cbn. rewrite F. cbn. naive_solver. }
  assert (applied row = false) as A by (destruct (applied row) eqn:A; [|done]; apply (pp_applied _ _ _ _ _ _ _ _ _ _ _ P) in A as [A _]; done).
  destruct (pp_active _ _ _ _ _ _ _ _ _ _ _ P) as [-> ->]. rewrite A. split_and!; [done|done|]. exists row. split_and!; [apply P|done|done].
Qed.

(** *** What it comes to: the seal *)

(** The program's own steps: the maintenance pass, and proposals. *)
Inductive dstep : Desk -> Desk -> Prop :=
| D_propose d c version actor now d' : propose d c version actor now = inl d' -> dstep d d'
| D_seal d now labels : dstep d (MkDesk (seal_once sha256 show (holdout d) release now labels) (folds d) (model_versions d) (active d) (promotions d) (decider_mode d) (audit d)).

(** No plan was put on record but the one the seal is cut under. *)
Definition unratified (h : Holdout) : Prop :=
  (∀ r, seal_row h = Some r -> s_plan r = SEAL_PLAN_SHA256) ∧ ∀ a, a ∈ access_log h -> purpose a ≠ "ratify"%string.

Lemma unratified_plans h : unratified h -> RATIFIED_PLAN_SHA256 ∉ ratified_plan_hashes h.
Proof.
  intros [H1 H2] [H|H]%elem_of_app.
  - destruct (seal_row h) as [r|]; [|by apply not_elem_of_nil in H]. apply list_elem_of_singleton in H. rewrite (H1 r eq_refl) in H. by vm_compute in H.
  - apply list_elem_of_omap in H as (a & Ha & E). destruct (bool_decide _) eqn:B; [|done]. apply bool_decide_eq_true in B. by destruct (H2 a Ha).
Qed.

Lemma dstep_unratified d d' : dstep d d' -> unratified (holdout d) ->
  unratified (holdout d') ∧ active d' = active d ∧ decider_mode d' = decider_mode d
  ∧ ∃ rows, promotions d' = promotions d ++ rows ∧ ∀ row, row ∈ rows -> applied row = false ∧ pr_verdict row = INSUFFICIENT_EVIDENCE ∧ HOLDOUT_UNSPENT ∈ pr_triggers row.
Proof.
  destruct 1 as [d c version actor now d' H|d now labels]; intros U.
  - destruct (propose_inv _ _ _ _ _ _ H) as (candidate & score & v & decision & row & P).
    pose proof (pp_decision _ _ _ _ _ _ _ _ _ _ _ P) as E. destruct (pp_says _ _ _ _ _ _ _ _ _ _ _ P) as (_ & _ & _ & _ & V & T & _).
    assert (unratified (holdout d') ∧ HOLDOUT_UNSPENT ∈ triggers (judgement decision)) as [U' HT].
    { unfold evaluate_promotion in E. destruct (materialise_folds _ _ _ _ _) as [run fs]. destruct (v_floors v && sufficient (v_power v)).
      - destruct (spend_cases (holdout d) release RATIFIED_PLAN_SHA256 "promotion" now) as [[_ R]|(o & Es & _)]; [by destruct (unratified_plans _ U)|].
        rewrite Es in E. injection E as <- <- _. split; [|cbn [judgement]; rewrite judge_triggers, trigger_iff; done].
        destruct U as [U1 U2]. split; [done|]. cbn. intros a [Ha| ->%list_elem_of_singleton]%elem_of_app; [by apply U2|done].
      - injection E as <- <- _. split; [done|]. cbn [judgement]. rewrite judge_triggers, trigger_iff. done. }
    assert (pr_verdict row = INSUFFICIENT_EVIDENCE) as VI.
    { rewrite V. destruct (decisive (judgement decision)) eqn:D; [|unfold decisive in D; apply negb_false_iff, bool_decide_eq_true in D; done].
      exfalso. unfold evaluate_promotion in E. destruct (materialise_folds _ _ _ _ _) as [run fs]. destruct (if v_floors v && sufficient (v_power v) then _ else _) as [[spent miss] h].
      injection E as <- _ _. cbn [judgement] in *. unfold decisive in D. apply negb_true_iff, bool_decide_eq_false in D. apply D, insufficient_iff. rewrite judge_triggers in HT.
      intros X. rewrite X in HT. by apply not_elem_of_nil in HT. }
    assert (applied row = false) as A by (destruct (applied row) eqn:A; [|done]; apply (pp_applied _ _ _ _ _ _ _ _ _ _ _ P) in A as [A _]; congruence).
    destruct (pp_active _ _ _ _ _ _ _ _ _ _ _ P) as [-> ->]. rewrite A. split_and!; [done|done|done|]. exists [row]. split; [apply P|].
    intros x ->%list_elem_of_singleton. split_and!; [done|done|by rewrite T].
  - cbn. split_and!; [|done|done|exists []; split; [by rewrite app_nil_r|by intros ? ?%not_elem_of_nil]].
    destruct (seal_once_cases sha256 show (holdout d) release now labels) as [->|(ids & row & E & -> & Hp & _)]; [done|].
    destruct U as [U1 U2]. split; [|done]. cbn. by intros r [= <-].
Qed.

(** C19: As the program runs no model is ever promoted. It puts on record the plan the seal is cut under and no other, and a
    proposal presents a different one, so every reading of the seal is refused and every proposal ends with
    INSUFFICIENT_EVIDENCE, whatever the corpus holds. *)
Theorem no_proposal_is_ever_applied d d' :
  unratified (holdout d) -> rtc dstep d d' ->
  active d' = active d ∧ decider_mode d' = decider_mode d
  ∧ ∃ rows, promotions d' = promotions d ++ rows ∧ ∀ row, row ∈ rows -> applied row = false ∧ pr_verdict row = INSUFFICIENT_EVIDENCE ∧ HOLDOUT_UNSPENT ∈ pr_triggers row.
Proof.
  intros U. induction 1 as [d|d d1 d2 S _ IH].
  - split_and!; [done|done|]. exists []. split; [by rewrite app_nil_r|by intros ? ?%not_elem_of_nil].
  - destruct (dstep_unratified _ _ S U) as (U1 & A1 & M1 & rows1 & E1 & R1). destruct (IH U1) as (-> & -> & rows2 & E2 & R2).
    split_and!; [done|done|]. exists (rows1 ++ rows2). split; [by rewrite E2, E1, app_assoc|]. intros row [H|H]%elem_of_app; auto.
Qed.
End route.

(** ** What is counted *)

Lemma filter_filter_and {A} (P Q R : A -> Prop) `{∀ x, base.Decision (P x)} `{∀ x, base.Decision (Q x)} `{∀ x, base.Decision (R x)} (l : list A) :
  (∀ x, x ∈ l -> R x ↔ P x ∧ Q x) -> filter R l = filter Q (filter P l).
Proof.
  induction l as [|x l IH]; intros H'; [done|]. rewrite !filter_cons. pose proof (H' x ltac:(by left)) as E. rewrite IH by (intros; apply H'; by right).
  destruct (decide (P x)); [rewrite filter_cons|]; repeat case_decide; naive_solver.
Qed.

Lemma length_filter_rest (l : list Z) k : NoDup l -> length (filter (fun a => a ∉ take k l) l) = (length l - k)%nat.
Proof.
  intros ND. assert (filter (fun a => a ∉ take k l) l = filter (fun a => a ∉ take k l) (take k l ++ drop k l)) as -> by by rewrite take_drop.
  rewrite filter_app, filter_none by (intros x Hx H; by apply H).
  rewrite filter_all; [cbn; by rewrite length_drop|]. intros x Hx Ht. rewrite <- (take_drop k l) in ND. apply NoDup_app in ND as (_ & ND & _). by apply (ND x).
Qed.

Lemma length_observable (l1 l2 : list Z) : length (a ← l1; (fun r => (a, r)) <$> l2) = (length l1 * length l2)%nat.
Proof. induction l1 as [|a l1 IH]; [done|]. cbn [mbind list_bind] in *. rewrite length_app, length_fmap, IH. cbn. lia. Qed.

(** How many pairs a bag's labeller could have meant: of [n] members [m] were marked, [hidden] could not be seen and
    [blind] of those were marked; the pairs of a marked and an unmarked member that both could be seen number exactly
    (m - blind)((n - m) - (hidden - blind)), although which members were hidden is not stored. *)
Theorem observable_pairs_are_exact fid incident members marked hidden blind coverage :
  NoDup members -> 0 <= blind <= hidden ->
  let m := length (filter (fun a => a ∈ marked) members) in
  length (observable_pairs (MkAsserting fid incident members marked (hidden_members members marked hidden blind) coverage))
  = ((m - Z.to_nat blind) * (length members - m - Z.to_nat (hidden - blind)))%nat.
Proof.
  intros ND HB m. unfold observable_pairs. rewrite length_observable. unfold marked_visible, rest_visible. cbn [ab_members ab_marked ab_hidden].
  set (inside := filter (fun a => a ∈ marked) members). set (outside := filter (fun a => a ∉ marked) members).
  assert (length outside = length members - m)%nat as HO.
  { unfold outside, m. clear. induction members as [|x l IH]; [done|]. rewrite !filter_cons. destruct (decide (x ∈ marked)); [rewrite decide_False by tauto|rewrite decide_True by done]; cbn [length]; rewrite ?IH; [done|].
    pose proof (length_filter (fun a => a ∈ marked) l). lia. }
  assert (∀ a, a ∈ inside ↔ a ∈ marked ∧ a ∈ members) as HI by (intros a; unfold inside; by rewrite list_elem_of_filter).
  assert (∀ a, a ∈ outside ↔ a ∉ marked ∧ a ∈ members) as HU by (intros a; unfold outside; by rewrite list_elem_of_filter).
  assert (∀ a, a ∈ hidden_members members marked hidden blind ↔ a ∈ take (Z.to_nat blind) inside ∨ a ∈ take (Z.to_nat (hidden - blind)) outside) as HH.
  { intros a. unfold hidden_members. destruct (Z.eqb_spec hidden 0) as [->|]; [rewrite elem_of_empty; replace blind with 0 by lia; cbn; rewrite !elem_of_nil; tauto|].
    rewrite elem_of_list_to_set, elem_of_app. replace (Z.max (hidden - blind) 0) with (hidden - blind) by lia. done. }
  assert (∀ k (l : list Z) a, a ∈ take k l -> a ∈ l) as HT by (intros k l a; apply subseteq_take).
  f_equal.
  - etrans; [apply (f_equal length), (filter_filter_and (fun a => a ∈ marked) (fun a => a ∉ take (Z.to_nat blind) inside))|].
    2: fold inside; by rewrite length_filter_rest by by apply NoDup_filter.
    intros x Hx. cbn; rewrite HH; split; [tauto|]; intros [H1 H2]; split; [done|]; intros [?|H3%HT%HU]; tauto.
  - etrans; [apply (f_equal length), (filter_filter_and (fun a => a ∉ marked) (fun a => a ∉ take (Z.to_nat (hidden - blind)) outside))|].
    2: fold outside; rewrite length_filter_rest by (by apply NoDup_filter); by rewrite HO.
    intros x Hx. cbn; rewrite HH; split; [tauto|]; intros [H1 H2]; split; [done|]; intros [H3%HT%HI|?]; tauto.
Qed.

Lemma observable_pairs_are_exact_witness :
  NoDup [1; 2; 3; 4; 5; 6; 7; 8] ∧ (0 <= 1 <= 3)
  ∧ length (observable_pairs (MkAsserting 1 1 [1; 2; 3; 4; 5; 6; 7; 8] {[7; 8]} (hidden_members [1; 2; 3; 4; 5; 6; 7; 8] {[7; 8]} 3 1) "full")) = 4%nat.
Proof.
  assert (NoDup [1; 2; 3; 4; 5; 6; 7; 8]) as ND by (apply (bool_decide_unpack _); vm_compute; exact I).
  split_and!; [exact ND|lia|lia|]. exact (observable_pairs_are_exact 1 1 [1; 2; 3; 4; 5; 6; 7; 8] {[7; 8]} 3 1 "full" ND ltac:(lia)).
Defined.

(** ** Examples *)

(** The table [minimum_detectable_difference] documents, in ten-thousandths. *)
Example the_documented_thresholds :
  map (fun n => f_trunc (fmul (minimum_detectable_difference n (f_lit 7 10)) (f_of_Z 10000))) [0; 37; 120; 300] = [10000; 2383; 1487; 985].
Proof. vm_compute. reflexivity. Qed.

(** At 19 incidents the loop takes 62 of its 64 steps to meet the tolerance. *)
Example the_threshold_at_19_is_slow :
  let at_19 steps := (mdd_loop steps 19 (f_lit 7 10) (mdd_start 19 (f_lit 7 10))).2 in (at_19 10%nat, at_19 61%nat, at_19 62%nat) = (false, false, true).
Proof. vm_compute. reflexivity. Qed.

(** Two operators confirmed two bags, and one model joins each: neither spans the other. *)
Definition x_pair (id fid a b : Z) (linked : bool) : Pair := MkPair id fid fid a b linked f_zero f_one f_one.
Definition x_linked (yes : bool) (f : LinkFeatures) : LinkScore := MkScore yes (if yes then f_one else f_zero) (f_lit 1 2) [] BASIS_WEIGHTED_SUM f_zero.
Definition x_corpus : Corpus := MkCorpus [MkBag 1 1 "confirm" f_one; MkBag 2 2 "confirm" f_one]
  [x_pair 1 1 10 11 false; x_pair 2 1 11 12 true; x_pair 3 2 10 12 true] {[2 := 1]} [] (fun _ => []) (fun _ => []) [1; 2] [(1, None); (2, Some 1)].
Definition x_hash (e : Z * Z) : Z := e.1 * 1000 + e.2.
Definition x_candidate : Candidate := MkCandidate "additive" "1.0" "{}" "p" (Some 5).
Definition x_desk : Desk := MkDesk unsealed ∅ {[3 := x_candidate]} (A_config 1) [] "default" [].
Definition x_propose (d : Desk) (c : Corpus) : Desk + Problem :=
  propose_promotion (fun s => s) (fun _ => "0"%string) x_hash "0.26.0" (fun _ => Some (x_linked true)) d c 3 "root" (f_of_Z 100).
Definition x_proposed : Desk := match x_propose x_desk x_corpus with inl d => d | inr _ => x_desk end.

(** The challenger joins the confirmed bag, the champion splits it: under-merging counts for it, over-merging cannot. *)
Example a_better_partition_is_measured :
  match measure x_hash x_corpus (x_linked true) with
  | Some (m, _) => (favours_challenger (m_under m), excludes_zero (m_under m), favours_challenger (m_over m), rate (challenger (m_over m)), rate (champion (m_over m)))
  | None => (false, false, true, f_one, f_one)
  end = (true, true, false, f_zero, f_zero).
Proof. vm_compute. reflexivity. Qed.

Lemma over_merging_never_favours_a_challenger_witness :
  no_collision x_hash (labelled_pairs x_corpus) ∧ x_propose x_desk x_corpus = inl x_proposed
  ∧ active x_proposed = active x_desk ∧ decider_mode x_proposed = decider_mode x_desk
  ∧ ∃ row, promotions x_proposed = promotions x_desk ++ [row] ∧ pr_verdict row ≠ BETTER ∧ applied row = false.
Proof.
  assert (no_collision x_hash (labelled_pairs x_corpus)) as N.
  { assert (set_Forall (fun a => 0 <= a < 1000) (ends (labelled_pairs x_corpus))) as R by (apply (bool_decide_unpack _); vm_compute; exact I).
    intros f f' a a' _ _ Ha%R Ha'%R E. unfold x_hash in E. cbn in E. lia. }
  assert (x_propose x_desk x_corpus = inl x_proposed) as E by (vm_compute; reflexivity).
  split_and!; [exact N|exact E|..]; eapply (over_merging_never_favours_a_challenger (fun s => s) (fun _ => "0"%string) x_hash "0.26.0" (fun _ => Some (x_linked true)) x_desk x_corpus 3 "root" (f_of_Z 100) x_proposed N E).
Defined.

Lemma no_proposal_is_ever_applied_witness :
  unratified (holdout x_desk) ∧ rtc (dstep (fun s => s) (fun _ => "0"%string) x_hash "0.26.0" (fun _ => Some (x_linked true))) x_desk x_proposed
  ∧ length (promotions x_proposed) = 1%nat
  ∧ active x_proposed = active x_desk ∧ decider_mode x_proposed = decider_mode x_desk
  ∧ ∃ rows, promotions x_proposed = promotions x_desk ++ rows
      ∧ ∀ row, row ∈ rows -> applied row = false ∧ pr_verdict row = INSUFFICIENT_EVIDENCE ∧ HOLDOUT_UNSPENT ∈ pr_triggers row.
Proof.
  assert (unratified (holdout x_desk)) as U by (split; [done|intros a H; by apply not_elem_of_nil in H]).
  assert (rtc (dstep (fun s => s) (fun _ => "0"%string) x_hash "0.26.0" (fun _ => Some (x_linked true))) x_desk x_proposed) as R.
  { apply rtc_once. apply (D_propose _ _ _ _ _ x_desk x_corpus 3 "root" (f_of_Z 100)). vm_compute. reflexivity. }
  split; [exact U|]. split; [exact R|]. split; [vm_compute; reflexivity|].
  exact (no_proposal_is_ever_applied (fun s => s) (fun _ => "0"%string) x_hash "0.26.0" (fun _ => Some (x_linked true)) x_desk x_proposed U R).
Defined.

Definition x_labels : gmap Z float := list_to_map [(4, f_of_Z 10); (2, f_of_Z 30); (9, f_of_Z 30)].
Definition x_sealed : Holdout := seal_once (fun s => s) (fun _ => "0"%string) unsealed "0.10.0" (f_of_Z 40) x_labels.
Definition x_read : Holdout := (spend x_sealed "0.10.0" SEAL_PLAN_SHA256 "promotion" (f_of_Z 50)).2.

Lemma the_seal_is_cut_once_and_read_by_the_book_witness :
  queries x_read = 1 ∧ seal_members x_read = [9]
  ∧ rtc (hstep (fun s => s) (fun _ => "0"%string)) unsealed x_sealed ∧ rtc (hstep (fun s => s) (fun _ => "0"%string)) x_sealed x_read
  ∧ (∀ r, seal_row x_sealed = Some r -> seal_row x_read = Some r ∧ seal_members x_read = seal_members x_sealed)
  ∧ access_log x_sealed `prefix_of` access_log x_read ∧ honest x_read.
Proof.
  split; [vm_compute; reflexivity|]. split; [vm_compute; reflexivity|].
  assert (rtc (hstep (fun s => s) (fun _ => "0"%string)) unsealed x_sealed) as R by (apply rtc_once, H_seal).
  assert (rtc (hstep (fun s => s) (fun _ => "0"%string)) x_sealed x_read) as R' by (apply rtc_once, H_spend; done).
  split; [exact R|]. split; [exact R'|]. exact (the_seal_is_cut_once_and_read_by_the_book _ _ x_sealed x_read R R').
Defined.
