(* ===== verification/Cart.v ===== *)
(** * Decision trees over the link features ([engine/model/cart.py], [tree.py])

    A tree as its list of nodes, the walk, the greedy fit, the leaves with the box of features that reaches each, the
    check that a list of nodes is a tree, and the least and the greatest value a weighted sum of trees takes. [log2] is
    [math.log2]. A [list] index that is out of range, which the code never uses past the check, is [None]. *)
From S2P Require Import Prelude PyLib Floats.

Definition FEATURE_COUNT : Z := 3.
Definition LEAF : Z := -1.
Definition MAX_SPLIT_CANDIDATES : nat := 64.
Definition MAX_REACHABILITY_CELLS : Z := 200000.
Definition f_inf : float := S754_infinity false.
Definition f_minus_inf : float := S754_infinity true.

(** A fit's criterion; [variance] is boosting's alone. *)
Inductive Criterion := Gini | Entropy | Variance.

Record Node := MkNode { feature : Z; threshold : float; left : Z; right : Z; value : float }.
Record TrainingRow := MkRow { y : float; weight : float; x : list float }.

Definition is_leaf (n : Node) : bool := feature n =? LEAF.
Definition at_index {A} (l : list A) (i : Z) : option A := if 0 <=? i then l !! Z.to_nat i else None.

(** ** The walk *)

(** [predict], from a node; at most one step per node of a tree. *)
Fixpoint walk (fuel : nat) (nodes : list Node) (x : list float) (i : Z) : option float :=
  match fuel with
  | O => None
  | S fuel =>
      n ← at_index nodes i;
      if is_leaf n then Some (value n)
      else v ← at_index x (feature n); walk fuel nodes x (if fleb v (threshold n) then left n else right n)
  end.
Definition predict (nodes : list Node) (x : list float) : option float := walk (length nodes) nodes x 0.

(** ** The fit *)

Section fit.
Context (log2 : float -> float) (rows : list TrainingRow).

Definition impurity (mass total squared : float) (c : Criterion) : float :=
  if fleb mass f_zero then f_zero
  else
    let mean := fdiv total mass in
    match c with
    | Variance => fmax f_zero (fsub (fdiv squared mass) (fmul mean mean))
    | _ =>
        if fleb mean f_zero || fleb f_one mean then f_zero
        else match c with
        | Entropy => let rest := fsub f_one mean in fopp (fadd (fmul mean (log2 mean)) (fmul rest (log2 rest)))
        | _ => fmul (fmul (f_of_Z 2) mean) (fsub f_one mean)
        end
    end.

(** Every [k]-th of a list, from the first. *)
Fixpoint strided {A} (k skip : nat) (l : list A) : list A :=
  match l with
  | [] => []
  | a :: l => match skip with O => a :: strided k (k - 1) l | S skip => strided k skip l end
  end.
Definition positions (values : list float) : list nat :=
  let admissible := filter (fun i => fltb (nth i values f_zero) (nth (S i) values f_zero) = true) (seq 0 (length values - 1)) in
  if Nat.leb (length admissible) MAX_SPLIT_CANDIDATES then admissible
  else strided (Nat.div (length admissible) MAX_SPLIT_CANDIDATES + 1) 0 admissible.

Definition no_row : TrainingRow := MkRow f_zero f_zero [].
Definition row (i : nat) : TrainingRow := nth i rows no_row.
Definition coordinate (f : Z) (i : nat) : float := default f_zero (at_index (x (row i)) f).

Definition wy (i : nat) : float := fmul (weight (row i)) (y (row i)).
Definition wyy (i : nat) : float := fmul (fmul (weight (row i)) (y (row i))) (y (row i)).

(** [sorted(subset, key=lambda i: (rows[i].x[feature], i))] *)
Definition row_leb (f : Z) (i j : nat) : bool :=
  if feqb (coordinate f i) (coordinate f j) then Nat.leb i j else fltb (coordinate f i) (coordinate f j).

Record Split := MkSplit { sp_feature : Z; sp_threshold : float; sp_left : list nat; sp_right : list nat }.

(** The running sums of a scan of one feature, and the best split so far. *)
Record Scan := MkScan { cut : nat; l_mass : float; l_total : float; l_squared : float; best_gain : float; best : option Split }.
Definition take_row (s : Scan) (i : nat) : Scan :=
  MkScan (S (cut s)) (fadd (l_mass s) (weight (row i))) (fadd (l_total s) (wy i)) (fadd (l_squared s) (wyy i)) (best_gain s) (best s).

Section search.
Context (min_samples_leaf : nat) (c : Criterion) (mass total squared : float).
Definition parent : float := fmul (impurity mass total squared c) mass.
Definition gain_of (s : Scan) : float :=
  fsub parent (fadd (fmul (impurity (l_mass s) (l_total s) (l_squared s) c) (l_mass s))
    (fmul (impurity (fsub mass (l_mass s)) (fsub total (l_total s)) (fsub squared (l_squared s)) c) (fsub mass (l_mass s)))).
Definition try_position (f : Z) (order : list nat) (values : list float) (s : Scan) (p : nat) : Scan :=
  let s := foldl take_row s (drop (cut s) (take (S p) order)) in
  if Nat.ltb (cut s) min_samples_leaf || Nat.ltb (length order - cut s) min_samples_leaf then s
  else
    let gain := gain_of s in
    if fltb (best_gain s) gain then
      MkScan (cut s) (l_mass s) (l_total s) (l_squared s) gain
        (Some (MkSplit f (fdiv (fadd (nth p values f_zero) (nth (S p) values f_zero)) (f_of_Z 2)) (take (S p) order) (drop (S p) order)))
    else s.
Definition try_feature (subset : list nat) (b : float * option Split) (f : Z) : float * option Split :=
  let order := sort_by (row_leb f) subset in
  let values := map (coordinate f) order in
  let s := foldl (try_position f order values) (MkScan 0 f_zero f_zero f_zero b.1 b.2) (positions values) in
  (best_gain s, best s).
End search.

Definition best_split (subset : list nat) (min_samples_leaf : nat) (c : Criterion) (features : list Z) : option Split :=
  let mass := py_sum (map (fun i => weight (row i)) subset) in
  let total := py_sum (map wy subset) in
  let squared := py_sum (map wyy subset) in
  (foldl (try_feature min_samples_leaf c mass total squared subset) (f_zero, None) features).2.

Definition leaf_of (subset : list nat) : Node :=
  let mass := py_sum (map (fun i => weight (row i)) subset) in
  if fleb mass f_zero then MkNode LEAF f_zero LEAF LEAF f_zero
  else MkNode LEAF f_zero LEAF LEAF (fdiv (py_sum (map wy subset)) mass).

(** One entry of a level: a node's index and its rows. *)
Definition grow_one (min_samples_leaf : nat) (c : Criterion) (columns : list Z) (st : list Node * list (nat * list nat)) (e : nat * list nat) : list Node * list (nat * list nat) :=
  let '(nodes, pending) := st in
  let '(index, members) := e in
  if Nat.ltb (length members) (2 * min_samples_leaf) then st
  else match best_split members min_samples_leaf c columns with
  | None => st
  | Some s =>
      let l := length nodes in
      let nodes := nodes ++ [leaf_of (sp_left s); leaf_of (sp_right s)] in
      (<[index := MkNode (sp_feature s) (sp_threshold s) (Z.of_nat l) (Z.of_nat (S l)) f_zero]> nodes,
       pending ++ [(l, sp_left s); (S l, sp_right s)])
  end.
(** Every entry of a level has its depth, so [depth >= max_depth] ends the fit: [depth_left] counts down to it. *)
Fixpoint grow (depth_left min_samples_leaf : nat) (c : Criterion) (columns : list Z) (nodes : list Node) (level : list (nat * list nat)) : list Node :=
  match depth_left, level with
  | O, _ | _, [] => nodes
  | S d, _ => let '(nodes, pending) := foldl (grow_one min_samples_leaf c columns) (nodes, []) level in grow d min_samples_leaf c columns nodes pending
  end.
Definition fit (max_depth min_samples_leaf : nat) (c : Criterion) (subset : option (list nat)) (features : option (list Z)) : list Node :=
  let order := default (seq 0 (length rows)) subset in
  let columns := default [0; 1; 2] features in
  grow max_depth min_samples_leaf c columns [leaf_of order] [(0%nat, order)].
End fit.

(** ** The check that a list of nodes is a tree *)

Inductive structure_problem := Empty | Reached_twice (i : Z) | Leaf_with_children (i : Z) | No_such_feature (i : Z) | No_such_child (i child : Z) | Unreachable.
Definition in_list_of (nodes : list Node) (i : Z) : bool := (0 <=? i) && (i <? Z.of_nat (length nodes)).

(** The frontier is a stack, its top first; [None] is a loop that has not ended. *)
Fixpoint visit (fuel : nat) (nodes : list Node) (frontier seen : list Z) : option (res structure_problem (list Z)) :=
  match fuel with
  | O => None
  | S fuel =>
      match frontier with
      | [] => Some (Ok seen)
      | i :: frontier =>
          if bool_decide (i ∈ seen) then Some (Err (Reached_twice i))
          else
            let seen := seen ++ [i] in
            n ← at_index nodes i;
            if is_leaf n then
              if negb (left n =? LEAF) || negb (right n =? LEAF) then Some (Err (Leaf_with_children i)) else visit fuel nodes frontier seen
            else if negb ((0 <=? feature n) && (feature n <? FEATURE_COUNT)) then Some (Err (No_such_feature i))
            else if negb (in_list_of nodes (left n)) then Some (Err (No_such_child i (left n)))
            else if negb (in_list_of nodes (right n)) then Some (Err (No_such_child i (right n)))
            else visit fuel nodes (right n :: left n :: frontier) seen
      end
  end.
Definition structure_error (nodes : list Node) : option (res structure_problem unit) :=
  if bool_decide (nodes = []) then Some (Err Empty)
  else r ← visit (S (S (length nodes))) nodes [0] [];
       Some (seen ← r; ensure (Nat.eqb (length seen) (length nodes)) Unreachable (Ok ())).

(** ** The leaves and their boxes *)

Abbreviation Box := (list (float * float)).
Definition WHOLE_LINE : Box := [(f_minus_inf, f_inf); (f_minus_inf, f_inf); (f_minus_inf, f_inf)].
Definition replace (b : Box) (f : Z) (span : float * float) : Box := imap (fun i p => if Z.of_nat i =? f then span else p) b.

Fixpoint boxed (fuel : nat) (nodes : list Node) (frontier : list Z) (boxes : list (Z * Box)) : option (list (Z * Box)) :=
  match fuel with
  | O => None
  | S fuel =>
      match frontier with
      | [] => Some boxes
      | i :: frontier =>
          n ← at_index nodes i;
          if is_leaf n then boxed fuel nodes frontier boxes
          else
            b ← assoc i boxes;
            '(low, high) ← at_index b (feature n);
            let boxes := dict_set (left n) (replace b (feature n) (low, py_min high (threshold n))) boxes in
            let boxes := dict_set (right n) (replace b (feature n) (fmax low (threshold n), high)) boxes in
            boxed fuel nodes (right n :: left n :: frontier) boxes
      end
  end.
Definition leaves (nodes : list Node) : option (list (float * Box)) :=
  boxes ← boxed (S (length nodes)) nodes [0] [(0, WHOLE_LINE)];
  Some (omap (fun e : Z * Box => n ← at_index nodes e.1; if is_leaf n then Some (value n, e.2) else None) (sort_by (fun a b => a.1 <=? b.1) boxes)).

(** ** The least and the greatest output *)

Definition distinct (l : list float) : list float := foldl (fun acc v => if existsb (feqb v) acc then acc else acc ++ [v]) [] l.
Definition Member : Type := float * list Node.
Definition cuts_of (members : list Member) (f : Z) : list float :=
  sort_by fleb (distinct (flat_map (fun m : Member => omap (fun n => if feature n =? f then Some (threshold n) else None) m.2) members)).
Fixpoint points (cuts : list float) (previous low high : float) : list float :=
  match cuts with
  | [] => []
  | c :: cuts => let p := py_min c high in (if fltb previous p && fleb low p then [p] else []) ++ points cuts c low high
  end.
Definition representatives (cuts : list float) (low high : float) : list float := points (cuts ++ [f_inf]) f_minus_inf low high.

(** [base_score + sum(weight * predict(nodes, point) ...)] *)
Definition output (members : list Member) (base_score : float) (x : list float) : option float :=
  vs ← mapM (fun m : Member => (fun v => fmul m.1 v) <$> predict m.2 x) members; Some (fadd base_score (py_sum vs)).

Inductive extremes_problem := Too_many_cells (n : Z) | Not_a_tree.
Definition grid (a b c : list float) : list (list float) := flat_map (fun p => flat_map (fun q => map (fun r => [p; q; r]) c) b) a.
Definition extremes (members : list Member) (base_score : float) (bounds : list (float * float)) : res extremes_problem (float * float) :=
  let column f := representatives (cuts_of members f) (nth (Z.to_nat f) bounds (f_zero, f_zero)).1 (nth (Z.to_nat f) bounds (f_zero, f_zero)).2 in
  let a := column 0 in let b := column 1 in let c := column 2 in
  let cells := Z.of_nat (length a) * Z.of_nat (length b) * Z.of_nat (length c) in
  if MAX_REACHABILITY_CELLS <? cells then Err (Too_many_cells cells)
  else match mapM (output members base_score) (grid a b c) with
  | None => Err Not_a_tree
  | Some totals => Ok (foldl py_min f_inf totals, foldl fmax f_minus_inf totals)
  end.
