(* ===== verification/CartLaws.v ===== *)
(** * What the trees are ([engine/model/cart.py], [tree.py])

    The structure check accepts exactly the trees; a tree's walk ends; its leaves' boxes divide the feature space and
    say what the walk says; what the fit grows is a tree; the extremes are exact. *)
From S2P Require Import Prelude PyLib Floats Cart.

Lemma at_index_Some {A} (l : list A) i a : at_index l i = Some a -> 0 <= i < Z.of_nat (length l).
Proof. unfold at_index. destruct (Z.leb_spec 0 i); [|done]. intros E%lookup_lt_Some. lia. Qed.
Lemma at_index_in {A} (l : list A) i : 0 <= i < Z.of_nat (length l) -> ∃ a, at_index l i = Some a.
Proof. intros H. unfold at_index. destruct (Z.leb_spec 0 i); [|lia]. apply lookup_lt_is_Some. lia. Qed.
Lemma at_index_nat {A} (l : list A) n : at_index l (Z.of_nat n) = l !! n.
Proof. unfold at_index. destruct (Z.leb_spec 0 (Z.of_nat n)); [|lia]. by rewrite Nat2Z.id. Qed.

(** ** Trees *)

Section tree.
Context (nodes : list Node).

(** A tree below a node, and the nodes of it in the order the check visits them. *)
Inductive rooted : Z -> list Z -> Prop :=
  | R_leaf i n : at_index nodes i = Some n -> is_leaf n = true -> left n = LEAF -> right n = LEAF -> rooted i [i]
  | R_split i n ll lr : at_index nodes i = Some n -> is_leaf n = false -> 0 <= feature n < FEATURE_COUNT ->
      rooted (left n) ll -> rooted (right n) lr -> rooted i (i :: lr ++ ll).
(** Every node is below the first one, once. *)
Definition is_tree : Prop := ∃ ls, rooted 0 ls ∧ NoDup ls ∧ length ls = length nodes.

Lemma rooted_range i ls : rooted i ls -> Forall (fun j => 0 <= j < Z.of_nat (length nodes)) ls.
Proof.
  induction 1 as [i n E _ _ _|i n ll lr E _ _ _ Hl _ Hr]; (constructor; [by apply at_index_Some in E|]); [constructor|]. by apply Forall_app.
Qed.
Lemma rooted_head i ls : rooted i ls -> ∃ n, at_index nodes i = Some n.
Proof. inversion 1; eauto. Qed.
Lemma rooted_pos i ls : rooted i ls -> (0 < length ls)%nat.
Proof. inversion 1; cbn; lia. Qed.

Lemma in_range_length (ls : list Z) : NoDup ls -> Forall (fun j => 0 <= j < Z.of_nat (length nodes)) ls -> (length ls <= length nodes)%nat.
Proof.
  intros N F. assert (ls ⊆+ map Z.of_nat (seq 0 (length nodes))) as H.
  { apply NoDup_submseteq; [done|]. intros j Hj. rewrite Forall_forall in F. specialize (F _ Hj). apply list_elem_of_fmap.
    exists (Z.to_nat j). split; [lia|]. apply elem_of_seq. lia. }
  apply submseteq_length in H. by rewrite length_map, length_seq in H.
Qed.

(** *** The check accepts exactly the trees *)

Lemma visit_ok fuel fr seen s' : NoDup seen -> visit fuel nodes fr seen = Some (Ok s') ->
  ∃ lss, Forall2 rooted fr lss ∧ s' = seen ++ concat lss ∧ NoDup s'.
Proof.
  revert fr seen. induction fuel as [|fuel IH]; [done|]. intros [|i fr] seen N H; cbn in H.
  - injection H as <-. exists []. by rewrite app_nil_r.
  - destruct (bool_decide_reflect (i ∈ seen)) as [|Ni]; [done|]. destruct (at_index nodes i) as [n|] eqn:E; [|done]. cbn in H.
    assert (NoDup (seen ++ [i])) as N1 by (apply NoDup_app; split_and!; [done|set_solver|apply NoDup_singleton]).
    destruct (is_leaf n) eqn:L.
    + destruct (Z.eqb_spec (left n) LEAF), (Z.eqb_spec (right n) LEAF); try done. apply IH in H as (lss & F & -> & N'); [|done].
      exists ([i] :: lss). split_and!; [constructor; [by apply (R_leaf i n)|done]|by rewrite <- app_assoc|done].
    + destruct ((0 <=? feature n) && (feature n <? FEATURE_COUNT)) eqn:Hf; [|done]. cbn [negb] in H.
      destruct (in_list_of nodes (left n)); [|done]. destruct (in_list_of nodes (right n)); [|done]. cbn [negb] in H.
      apply IH in H as (lss & F & -> & N'); [|done]. apply Forall2_cons_inv_l in F as (lr & l2 & Hr & F & ->). apply Forall2_cons_inv_l in F as (ll & lss & Hl & F & ->).
      exists ((i :: lr ++ ll) :: lss). split_and!; [|cbn; by rewrite <- !app_assoc|done]. constructor; [|done].
      apply (R_split i n); [done..| |done|done]. unfold FEATURE_COUNT in *. lia.
Qed.

Lemma visit_rooted i ls : rooted i ls -> ∀ fuel fr seen, NoDup (seen ++ ls) -> visit (length ls + fuel) nodes (i :: fr) seen = visit fuel nodes fr (seen ++ ls).
Proof.
  induction 1 as [i n E L El Er|i n ll lr E L Hf Hl IHl Hr IHr]; intros fuel fr seen N.
  - cbn. assert (i ∉ seen) by (apply NoDup_app in N as (_ & N & _); set_solver). rewrite bool_decide_false by done. rewrite E. cbn. by rewrite L, El, Er.
  - assert (i ∉ seen) by (apply NoDup_app in N as (_ & N & _); set_solver). cbn [length Nat.add visit]. rewrite bool_decide_false by done. rewrite E.
    cbn [mbind option_bind]. rewrite L. replace ((0 <=? feature n) && _) with true by (unfold FEATURE_COUNT in *; lia). cbn [negb].
    destruct (rooted_head _ _ Hl) as [nl Al%at_index_Some], (rooted_head _ _ Hr) as [nr Ar%at_index_Some].
    unfold in_list_of. replace ((0 <=? left n) && _) with true by lia. replace ((0 <=? right n) && _) with true by lia. cbn [negb].
    rewrite length_app. replace (length lr + length ll + fuel)%nat with (length lr + (length ll + fuel))%nat by lia.
    change (i :: lr ++ ll) with ([i] ++ lr ++ ll) in *. rewrite IHr; [|rewrite !app_assoc in N; by apply NoDup_app in N as (N & _ & _)].
    rewrite IHl; [by rewrite <- !app_assoc|]. by rewrite <- !app_assoc.
Qed.

Lemma visit_ends fuel fr seen : NoDup seen -> Forall (fun j => 0 <= j < Z.of_nat (length nodes)) (seen ++ fr) ->
  (S (S (length nodes)) <= fuel + length seen)%nat -> is_Some (visit fuel nodes fr seen).
Proof.
  revert fr seen. induction fuel as [|fuel IH]; intros fr seen N F L.
  - apply Forall_app in F as [F _]. apply (in_range_length seen) in F; [lia|done].
  - destruct fr as [|i fr]; [by eexists|]. cbn. destruct (bool_decide_reflect (i ∈ seen)) as [|Ni]; [by eexists|].
    apply Forall_app in F as [Fs [Fi Ff]%Forall_cons]. destruct (at_index_in nodes i Fi) as [n E]. rewrite E. cbn.
    assert (NoDup (seen ++ [i])) as N1 by (apply NoDup_app; split_and!; [done|set_solver|apply NoDup_singleton]).
    assert (S (S (length nodes)) <= fuel + length (seen ++ [i]))%nat as L1 by (rewrite length_app; cbn; lia).
    destruct (is_leaf n); [destruct (_ || _); [by eexists|]|destruct (negb (_ && _)); [by eexists|]].
    + apply IH; [done| |done]. rewrite <- app_assoc. apply Forall_app. split; [done|]. by constructor.
    + destruct (in_list_of nodes (left n)) eqn:Hl; [|by eexists]. destruct (in_list_of nodes (right n)) eqn:Hr; [|by eexists]. cbn [negb].
      apply IH; [done| |done]. unfold in_list_of in *. rewrite <- app_assoc. apply Forall_app. split; [done|]. repeat (constructor; [lia|]). done.
Qed.

Lemma structure_error_ends : is_Some (structure_error nodes).
Proof.
  unfold structure_error. destruct (bool_decide_reflect (nodes = [])) as [->|Ne]; [by eexists|].
  assert (0 < length nodes)%nat as L by (destruct nodes; [done|cbn; lia]).
  destruct (visit_ends (S (S (length nodes))) [0] []) as [r E]; [apply NoDup_nil_2|repeat constructor; lia|cbn; lia|]. rewrite E. by eexists.
Qed.
Lemma structure_error_tree : structure_error nodes = Some (Ok ()) ↔ is_tree.
Proof.
  unfold structure_error, is_tree. destruct (bool_decide_reflect (nodes = [])) as [->|Ne].
  { split; [done|]. intros (ls & H%rooted_pos & _ & E). cbn in E. lia. }
  split.
  - destruct (visit _ nodes [0] []) as [[s|]|] eqn:E; [|done|done]. apply visit_ok in E as (lss & F & -> & N); [|apply NoDup_nil_2].
    apply Forall2_cons_inv_l in F as (ls & l2 & H & ->%Forall2_nil_inv_l & ->). cbn [app concat] in *. rewrite app_nil_r in *. intros [= [Hl%Nat.eqb_eq _]%ensure_Ok_inv]. by exists ls.
  - intros (ls & H & N & E). rewrite <- E. replace (S (S (length ls))) with (length ls + 2)%nat by lia. rewrite visit_rooted by done.
    cbn. unfold ensure. by rewrite Nat.eqb_refl.
Qed.

(** C18: The check of a list of nodes always answers, and accepts exactly the trees: every node reached from the first one, and once. *)
Theorem the_structure_check_is_exact :
  is_Some (structure_error nodes) ∧ (structure_error nodes = Some (Ok ()) ↔ is_tree).
Proof. split; [apply structure_error_ends|apply structure_error_tree]. Qed.

(** *** The walk ends *)

Lemma walk_mono fuel fuel' x i v : (fuel <= fuel')%nat -> walk fuel nodes x i = Some v -> walk fuel' nodes x i = Some v.
Proof.
  revert fuel' i. induction fuel as [|fuel IH]; intros [|fuel'] i L; try done; [lia|]. cbn. destruct (at_index nodes i) as [n|]; [|done]. cbn.
  destruct (is_leaf n); [done|]. destruct (at_index x _); [|done]. cbn. apply IH. lia.
Qed.

Lemma walk_ends i ls x : rooted i ls -> length x = 3%nat -> is_Some (walk (length ls) nodes x i).
Proof.
  intros H Lx. induction H as [i n E L El Er|i n ll lr E L Hf Hl IHl Hr IHr]; cbn; rewrite E; cbn; rewrite L; [by eexists|].
  destruct (at_index_in x (feature n)) as [v Ev]; [rewrite Lx; unfold FEATURE_COUNT in Hf; lia|]. rewrite Ev. cbn. rewrite length_app.
  destruct (fleb v _); [destruct IHl as [r W]|destruct IHr as [r W]]; exists r; (eapply walk_mono; [|exact W]); lia.
Qed.
Lemma predict_ends x : is_tree -> length x = 3%nat -> is_Some (predict nodes x).
Proof. intros (ls & H & _ & E) Lx. unfold predict. rewrite <- E. by apply walk_ends. Qed.
End tree.

(** ** Boxes *)

(** [lo < x[f] <= hi] for every feature. *)
Definition inside (b : Box) (x : list float) : bool := forallb (fun p => fltb p.1.1 p.2 && fleb p.2 p.1.2) (zip b x).
Definition numbers (l : list float) : Prop := Forall (fun v => is_nan v = false) l.
Definition box_ok (b : Box) : Prop := length b = 3%nat ∧ Forall (fun p => is_nan p.1 = false ∧ is_nan p.2 = false) b.
Definition thresholds_ok (nodes : list Node) : Prop := Forall (fun n => is_nan (threshold n) = false) nodes.

Lemma fleb_py_min v h t : is_nan v = false -> is_nan h = false -> is_nan t = false -> fleb v (py_min h t) = fleb v h && fleb v t.
Proof.
  intros Hv Hh Ht. unfold py_min. destruct (fltb t h) eqn:E.
  - destruct (fleb v t) eqn:F; [|by rewrite andb_false_r]. rewrite andb_true_r. symmetry. eapply fleb_trans; [exact F|by apply fltb_leb].
  - rewrite fltb_fleb_total in E by done. apply negb_false_iff in E. destruct (fleb v h) eqn:F; [|done]. symmetry. cbn. by eapply fleb_trans.
Qed.
Lemma fltb_fmax v l t : is_nan v = false -> is_nan l = false -> is_nan t = false -> fltb (fmax l t) v = fltb l v && fltb t v.
Proof.
  intros Hv Hl Ht. unfold fmax. destruct (fltb l t) eqn:E.
  - destruct (fltb t v) eqn:F; [|by rewrite andb_false_r]. rewrite andb_true_r. symmetry. by eapply fltb_trans.
  - rewrite fltb_fleb_total in E by done. apply negb_false_iff in E. destruct (fltb l v) eqn:F; [|done]. symmetry. cbn. by eapply fleb_ltb_trans.
Qed.
Lemma py_min_nan a b : is_nan a = false -> is_nan b = false -> is_nan (py_min a b) = false.
Proof. intros. unfold py_min. by destruct (fltb b a). Qed.
Lemma fmax_nan a b : is_nan a = false -> is_nan b = false -> is_nan (fmax a b) = false.
Proof. intros. unfold fmax. by destruct (fltb a b). Qed.

Lemma features_are (f : Z) : 0 <= f < FEATURE_COUNT -> f = 0 ∨ f = 1 ∨ f = 2.
Proof. unfold FEATURE_COUNT. lia. Qed.

Ltac float_cases := repeat match goal with |- context [fltb ?a ?b] => destruct (fltb a b) | |- context [fleb ?a ?b] => destruct (fleb a b) end.

(** A split cuts a box in two along its feature. *)
Lemma split_box b x f lo hi v t : box_ok b -> length x = 3%nat -> numbers x -> is_nan t = false -> 0 <= f < FEATURE_COUNT ->
  at_index b f = Some (lo, hi) -> at_index x f = Some v ->
  inside (replace b f (lo, py_min hi t)) x = inside b x && fleb v t
  ∧ inside (replace b f (fmax lo t, hi)) x = inside b x && fltb t v
  ∧ box_ok (replace b f (lo, py_min hi t)) ∧ box_ok (replace b f (fmax lo t, hi)).
Proof.
  intros [Lb Fb] Lx Nx Nt Hf Eb Ex. destruct b as [|b0 [|b1 [|b2 [|]]]]; try done. destruct x as [|x0 [|x1 [|x2 [|]]]]; try done.
  unfold numbers in Nx. rewrite !Forall_cons in Fb. rewrite !Forall_cons in Nx. destruct Fb as ([? ?] & [? ?] & [? ?] & _), Nx as (? & ? & ? & _). unfold box_ok, inside.
  destruct (features_are f Hf) as [->|[->| ->]]; vm_compute in Eb, Ex; simplify_eq; cbn -[fltb fleb py_min fmax is_nan] in *;
    change (Z.of_nat 0) with 0; change (Z.of_nat 1) with 1; change (Z.of_nat 2) with 2; cbn [Z.eqb Pos.eqb fst snd];
    rewrite fleb_py_min, fltb_fmax by done;
    (split_and!; [by float_cases|by float_cases
                 |done|repeat constructor; try done; by apply py_min_nan|done|repeat constructor; try done; by apply fmax_nan]).
Qed.

Definition holds (x : list float) (e : float * Box) : Prop := inside e.2 x = true.
#[export] Instance holds_dec x e : base.Decision (holds x e). Proof. unfold holds. apply _. Defined.

Section regions.
Context (nodes : list Node).

(** The nodes of a tree with their boxes, in the order the check visits them. *)
Inductive region : Z -> Box -> list (Z * Box) -> Prop :=
  | G_leaf i b n : at_index nodes i = Some n -> is_leaf n = true -> region i b [(i, b)]
  | G_split i b n lo hi Ll Lr : at_index nodes i = Some n -> is_leaf n = false -> 0 <= feature n < FEATURE_COUNT -> at_index b (feature n) = Some (lo, hi) ->
      region (left n) (replace b (feature n) (lo, py_min hi (threshold n))) Ll ->
      region (right n) (replace b (feature n) (fmax lo (threshold n), hi)) Lr ->
      region i b ((i, b) :: Lr ++ Ll).

Lemma length_replace b f s : length (replace b f s) = length b.
Proof. unfold replace. apply length_imap. Qed.

Lemma rooted_region i ls b : rooted nodes i ls -> length b = 3%nat -> ∃ L, region i b L ∧ L.*1 = ls.
Proof.
  intros H. revert b. induction H as [i n E L El Er|i n ll lr E L Hf Hl IHl Hr IHr]; intros b Lb.
  - exists [(i, b)]. split; [by eapply G_leaf|done].
  - destruct (at_index_in b (feature n)) as [[lo hi] Eb]; [rewrite Lb; unfold FEATURE_COUNT in Hf; lia|].
    destruct (IHl (replace b (feature n) (lo, py_min hi (threshold n)))) as (Ll & Rl & El); [by rewrite length_replace|].
    destruct (IHr (replace b (feature n) (fmax lo (threshold n), hi))) as (Lr & Rr & Er); [by rewrite length_replace|].
    exists ((i, b) :: Lr ++ Ll). split; [by eapply G_split|]. cbn. by rewrite fmap_app, El, Er.
Qed.
Lemma region_head i b L : region i b L -> ∃ L', L = (i, b) :: L'.
Proof. inversion 1; eauto. Qed.

(** The loop below a node adds the boxes of the nodes below it. *)
Lemma boxed_region i b L : region i b L -> ∀ fuel fr boxes, NoDup (boxes ++ tail L).*1 -> (i, b) ∈ boxes ->
  ∃ boxes', boxes' ≡ₚ boxes ++ tail L ∧ boxed (length L + fuel) nodes (i :: fr) boxes = boxed fuel nodes fr boxes'.
Proof.
  induction 1 as [i b n E L|i b n lo hi Ll Lr E L Hf Eb Rl IHl Rr IHr]; intros fuel fr boxes N Hi.
  - exists boxes. cbn. rewrite app_nil_r. split; [done|]. rewrite E. cbn. by rewrite L.
  - cbn [length Nat.add boxed tail] in *. rewrite E. cbn [mbind option_bind]. rewrite L.
    rewrite fmap_app in N. rewrite (assoc_NoDup i b) by (done || by apply NoDup_app in N as (N & _ & _)). cbn [mbind option_bind]. rewrite Eb. cbn [mbind option_bind].
    set (bl := replace b (feature n) (lo, _)) in *. set (br := replace b (feature n) (fmax lo _, hi)) in *.
    destruct (region_head _ _ _ Rl) as [Ll' ->], (region_head _ _ _ Rr) as [Lr' ->]. cbn [tail length] in *.
    assert (boxes.*1 ++ left n :: right n :: (Lr' ++ Ll').*1 ≡ₚ boxes.*1 ++ (((right n, br) :: Lr') ++ (left n, bl) :: Ll').*1) as P.
    { rewrite !fmap_app, !fmap_cons. cbn [fst]. apply Permutation_app_head. by rewrite <- (Permutation_middle (right n :: Lr'.*1)). }
    rewrite <- P in N. rewrite (dict_set_fresh (left n)) by (apply NoDup_app in N as (_ & N & _); set_solver).
    rewrite (dict_set_fresh (right n)); [|rewrite fmap_app; apply NoDup_app in N as (_ & N & N2); apply NoDup_cons in N2; set_solver].
    set (boxes1 := (boxes ++ [(left n, bl)]) ++ [(right n, br)]).
    assert (boxes1.*1 ++ (Lr' ++ Ll').*1 = boxes.*1 ++ left n :: right n :: (Lr' ++ Ll').*1) as E1 by (unfold boxes1; rewrite !fmap_app; cbn; by rewrite <- !app_assoc).
    rewrite length_app. cbn [length]. replace (S (length Lr') + S (length Ll') + fuel)%nat with (S (length Lr') + (S (length Ll') + fuel))%nat by lia.
    destruct (IHr (S (length Ll') + fuel)%nat (left n :: fr) boxes1) as (boxes2 & P2 & ->).
    { rewrite <- E1, fmap_app, app_assoc in N. apply NoDup_app in N as (N & _ & _). by rewrite fmap_app. }
    { unfold boxes1. set_solver. }
    destruct (IHl fuel fr boxes2) as (boxes3 & P3 & ->).
    { rewrite P2, <- app_assoc, fmap_app. by rewrite E1. }
    { rewrite P2. unfold boxes1. set_solver. }
    exists boxes3. split; [|done]. rewrite P3, P2. unfold boxes1. rewrite <- !app_assoc. cbn. apply Permutation_app_head.
    rewrite <- Permutation_middle. apply perm_swap.
Qed.

Definition leaf_at (e : Z * Box) : option (float * Box) := n ← at_index nodes e.1; if is_leaf n then Some (value n, e.2) else None.

(** Below a node, only the leaf the walk ends in holds a point of the node's box, and none holds any other. *)
Lemma region_walk i b L x : thresholds_ok nodes -> length x = 3%nat -> numbers x -> region i b L -> box_ok b ->
  if inside b x then ∃ v b', walk (length L) nodes x i = Some v ∧ filter (holds x) (omap leaf_at L) = [(v, b')]
  else filter (holds x) (omap leaf_at L) = [].
Proof.
  intros T Lx Nx. induction 1 as [i b n E L|i b n lo hi Ll Lr E L Hf Eb Rl IHl Rr IHr]; intros Bb.
  - assert (omap leaf_at [(i, b)] = [(value n, b)]) as -> by (cbn [omap list_omap]; unfold leaf_at; cbn [fst snd]; by rewrite E; cbn; rewrite L).
    destruct (inside b x) eqn:I; [exists (value n), b; split; [cbn; rewrite E; cbn; by rewrite L|by rewrite filter_cons_True]|].
    rewrite filter_cons_False; [done|]. unfold holds. cbn [snd]. by rewrite I.
  - destruct (at_index_in x (feature n)) as [v Ev]; [rewrite Lx; unfold FEATURE_COUNT in Hf; lia|].
    assert (is_nan (threshold n) = false) as Nt.
    { unfold thresholds_ok in T. rewrite Forall_forall in T. apply T. unfold at_index in E. destruct (0 <=? i); [|done]. by eapply list_elem_of_lookup_2. }
    assert (is_nan v = false) as Nv.
    { unfold numbers in Nx. rewrite Forall_forall in Nx. apply Nx. unfold at_index in Ev. destruct (0 <=? feature n); [|done]. by eapply list_elem_of_lookup_2. }
    destruct (split_box b x (feature n) lo hi v (threshold n)) as (S1 & S2 & B1 & B2); [done..|]. specialize (IHl B1). specialize (IHr B2). rewrite S1 in IHl. rewrite S2 in IHr.
    assert (omap leaf_at ((i, b) :: Lr ++ Ll) = omap leaf_at Lr ++ omap leaf_at Ll) as Eo.
    { cbn [omap list_omap]. unfold leaf_at at 1. cbn [fst]. rewrite E. cbn. rewrite L. apply omap_app. }
    rewrite Eo, filter_app. rewrite fltb_fleb_total in IHr by done. destruct (inside b x); cbn [andb] in *; [|by rewrite IHl, IHr].
    cbn [length walk]. rewrite E. cbn [mbind option_bind]. rewrite L, Ev. cbn [mbind option_bind]. rewrite length_app.
    destruct (fleb v (threshold n)); cbn [negb] in *.
    + destruct IHl as (w & b' & W & F). exists w, b'. rewrite IHr, F. split; [|done]. eapply walk_mono; [|exact W]. lia.
    + destruct IHr as (w & b' & W & F). exists w, b'. rewrite IHl, F. split; [|done]. eapply walk_mono; [|exact W]. lia.
Qed.
End regions.

Lemma whole_line_ok : box_ok WHOLE_LINE.
Proof. split; [done|]. repeat constructor. Qed.
Lemma whole_line_holds x : length x = 3%nat -> numbers x -> inside WHOLE_LINE x = true ∨ Exists (fun v => v = f_minus_inf) x.
Proof.
  intros Lx Nx. destruct x as [|x0 [|x1 [|x2 [|]]]]; try done. unfold numbers in Nx. rewrite !Forall_cons in Nx. destruct Nx as (N0 & N1 & N2 & _).
  assert (∀ v, is_nan v = false -> v = f_minus_inf ∨ fltb f_minus_inf v = true ∧ fleb v f_inf = true) as H by (intros [s|[]| |[] m e]; try done; by (left; done) || by right).
  destruct (H x0 N0) as [->|[A0 B0]], (H x1 N1) as [->|[A1 B1]], (H x2 N2) as [->|[A2 B2]]; try (right; repeat first [by left|right]; by left).
  left. unfold inside, WHOLE_LINE. cbn [zip zip_with forallb fst snd]. by rewrite A0, B0, A1, B1, A2, B2.
Qed.

Lemma leaves_region nodes : is_tree nodes ->
  ∃ L ls, region nodes 0 WHOLE_LINE L ∧ length L = length nodes ∧ leaves nodes = Some ls ∧ ls ≡ₚ omap (leaf_at nodes) L.
Proof.
  intros (ls & H & N & E). destruct (rooted_region nodes 0 ls WHOLE_LINE H eq_refl) as (L & R & EL).
  assert (length L = length nodes) as LL by (rewrite <- E, <- EL; by rewrite length_fmap).
  destruct (region_head _ _ _ _ R) as [L' EL'].
  destruct (boxed_region nodes 0 WHOLE_LINE L R 1 [] [(0, WHOLE_LINE)]) as (boxes & P & Eb).
  { rewrite EL'. cbn [tail app]. rewrite <- EL'. by rewrite EL. }
  { by left. }
  exists L, (omap (leaf_at nodes) (sort_by (fun a b => a.1 <=? b.1) boxes)). split_and!; [done|done| |].
  - unfold leaves. rewrite <- LL. replace (S (length L)) with (length L + 1)%nat by lia. rewrite Eb. done.
  - assert (sort_by (fun a b : Z * Box => a.1 <=? b.1) boxes ≡ₚ L) as -> by (rewrite sort_by_perm, P, EL'; done). done.
Qed.

(** On features that are numbers above minus infinity, exactly one leaf of a tree has a box that holds them, and it is the
    leaf the walk ends in. *)
Theorem the_leaves_are_the_tree nodes x :
  structure_error nodes = Some (Ok ()) -> thresholds_ok nodes -> length x = 3%nat -> Forall (fun v => fltb f_minus_inf v = true) x ->
  ∃ ls v b, leaves nodes = Some ls ∧ predict nodes x = Some v ∧ List.filter (fun e => inside e.2 x) ls = [(v, b)].
Proof.
  intros Tr%structure_error_tree T Lx Nx.
  assert (numbers x) as Nn by (eapply Forall_impl; [exact Nx|]; intros v Hv; by apply fltb_not_nan in Hv as [_ ?]).
  destruct (leaves_region nodes Tr) as (L & ls & R & LL & El & P).
  pose proof (region_walk nodes 0 WHOLE_LINE L x T Lx Nn R whole_line_ok) as W.
  destruct (whole_line_holds x Lx Nn) as [I|(v & Hv & ->)%Exists_exists]; [|rewrite Forall_forall in Nx; specialize (Nx _ Hv); by vm_compute in Nx].
  rewrite I in W. destruct W as (v & b & W & F). exists ls, v, b. split_and!; [done|unfold predict; by rewrite <- LL|].
  apply Permutation_singleton_r. rewrite <- F. clear -P.
  assert (∀ l, List.filter (fun e : float * Box => inside e.2 x) l = filter (holds x) l) as G.
  { induction l as [|e l IH]; [done|]. cbn [List.filter]. rewrite IH. destruct (inside e.2 x) eqn:I; [by rewrite filter_cons_True|rewrite filter_cons_False; [done|unfold holds; by rewrite I]]. }
  rewrite G. by rewrite P.
Qed.

Definition little_tree : list Node :=
  [MkNode 0 (f_of_Z 3) 1 2 f_zero; MkNode LEAF f_zero LEAF LEAF f_zero; MkNode 1 f_one 3 4 f_zero; MkNode LEAF f_zero LEAF LEAF f_one; MkNode LEAF f_zero LEAF LEAF (f_of_Z 2)].
Lemma the_leaves_are_the_tree_witness :
  ∃ ls v b, leaves little_tree = Some ls ∧ predict little_tree [f_of_Z 4; f_one; f_zero] = Some v ∧ List.filter (fun e => inside e.2 [f_of_Z 4; f_one; f_zero]) ls = [(v, b)].
Proof. apply the_leaves_are_the_tree; [by vm_compute|repeat constructor|done|repeat constructor]. Defined.

(** ** What the fit grows, and how far a model reaches ([engine/model/cart.py])

    A grown list of nodes is a tree of the depth asked for, whose splits keep the rows apart and leave enough on either side;
    the extremes are the least and the greatest value the model takes within the bounds, and it takes them. *)

(** ** The split search *)

Section splits.
Context (log2 : float -> float) (rows : list TrainingRow).

Lemma strided_sublist {A} k skip (l : list A) : strided k skip l `sublist_of` l.
Proof. revert skip. induction l as [|a l IH]; intros [|skip]; cbn; [done..| |]; [by apply sublist_skip|by apply sublist_cons]. Qed.
Lemma positions_sublist values : positions values `sublist_of` seq 0 (length values - 1).
Proof. unfold positions. destruct (Nat.leb _ _); [apply sublist_filter|]. etrans; [apply strided_sublist|apply sublist_filter]. Qed.

Lemma sublist_sorted {A} (R : A -> A -> Prop) l1 l2 : l1 `sublist_of` l2 -> StronglySorted R l2 -> StronglySorted R l1.
Proof.
  induction 1 as [|a l1 l2 S IH|a l1 l2 S IH]; [done| |]; intros [H F]%StronglySorted_inv; [|by apply IH].
  constructor; [by apply IH|]. rewrite Forall_forall in F |- *. intros b Hb. apply F. by eapply elem_of_sublist.
Qed.
Lemma seq_ascends a n : StronglySorted lt (seq a n).
Proof. revert a. induction n as [|n IH]; intros a; cbn; constructor; [apply IH|]. rewrite Forall_forall. intros b Hb%elem_of_seq. lia. Qed.

(** What a split says of the rows it was made from. *)
Definition fair (features : list Z) (subset : list nat) (min_samples_leaf : nat) (s : Split) : Prop :=
  sp_feature s ∈ features ∧ sp_left s ++ sp_right s ≡ₚ subset ∧ sp_left s ≠ [] ∧ sp_right s ≠ []
  ∧ (min_samples_leaf <= length (sp_left s))%nat ∧ (min_samples_leaf <= length (sp_right s))%nat.

Lemma take_rows s l : cut (foldl (take_row rows) s l) = (cut s + length l)%nat ∧ best (foldl (take_row rows) s l) = best s.
Proof. revert s. induction l as [|i l IH]; intros s; cbn; [split; [lia|done]|]. destruct (IH (take_row rows s i)) as [-> ->]. cbn. split; [lia|done]. Qed.

Lemma try_position_best m c mass total squared f order values s p : (cut s <= S p)%nat -> (S p < length order)%nat ->
  let s' := try_position log2 rows m c mass total squared f order values s p in
  cut s' = S p ∧ (best s' = best s ∨ ∃ th, best s' = Some (MkSplit f th (take (S p) order) (drop (S p) order)) ∧ (m <= S p)%nat ∧ (m <= length order - S p)%nat).
Proof.
  intros L1 L2. unfold try_position. set (l := drop (cut s) (take (S p) order)).
  destruct (take_rows s l) as [Ec Eb]. assert (cut (foldl (take_row rows) s l) = S p) as E by (rewrite Ec; unfold l; rewrite length_drop, length_take; lia).
  rewrite E. destruct (Nat.ltb_spec (S p) m), (Nat.ltb_spec (length order - S p) m); cbn [orb]; try (split; [exact E|by left]).
  destruct (fltb _ _); [|split; [exact E|by left]]. split; [done|]. right. eexists. split; [done|]. lia.
Qed.

Lemma scan_best m c mass total squared f order values ps s (P : option Split -> Prop) :
  StronglySorted lt ps -> Forall (fun p => (cut s <= S p)%nat ∧ (S p < length order)%nat) ps -> P (best s) ->
  (∀ p th, (S p < length order)%nat -> (m <= S p)%nat -> (m <= length order - S p)%nat -> P (Some (MkSplit f th (take (S p) order) (drop (S p) order)))) ->
  P (best (foldl (try_position log2 rows m c mass total squared f order values) s ps)).
Proof.
  intros Hps. revert s. induction Hps as [|p ps S IH H]; intros s F Hs HP; cbn; [done|]. apply Forall_cons in F as [[F1 F2] F].
  destruct (try_position_best m c mass total squared f order values s p F1 F2) as [Ec Eb]. apply IH; [| |done].
  - rewrite Ec. rewrite Forall_forall in H, F |- *. intros q Hq. specialize (H q Hq). specialize (F q Hq). lia.
  - destruct Eb as [->|(th & -> & ? & ?)]; auto.
Qed.

Lemma best_split_fair subset m c features s : best_split log2 rows subset m c features = Some s -> fair features subset m s.
Proof.
  unfold best_split. set (mass := py_sum _). set (total := py_sum _). set (squared := py_sum _). clearbody mass total squared.
  assert (∀ fs b, (∀ f, f ∈ fs -> f ∈ features) -> (∀ s, b.2 = Some s -> fair features subset m s) ->
    ∀ s, (foldl (try_feature log2 rows m c mass total squared subset) b fs).2 = Some s -> fair features subset m s) as H.
  { induction fs as [|f fs IH]; intros b Hf Hb; [done|]. cbn [foldl]. apply IH; [set_solver|]. unfold try_feature. cbn [snd].
    set (order := sort_by _ subset). set (values := map _ order).
    assert (order ≡ₚ subset) as Po by apply sort_by_perm. assert (length values = length order) as Lv by (unfold values; by rewrite length_map).
    apply (scan_best _ _ _ _ _ _ _ _ _ _ (fun b => ∀ s, b = Some s -> fair features subset m s)); [| |exact Hb|].
    - eapply sublist_sorted; [apply positions_sublist|apply seq_ascends].
    - rewrite Forall_forall. intros p Hp. cbn [cut]. split; [lia|]. 
      eapply elem_of_sublist in Hp; [|apply positions_sublist]. apply elem_of_seq in Hp. lia.
    - intros p th L1 L2 L3 s' [= <-]. unfold fair. cbn [sp_feature sp_left sp_right]. rewrite take_drop.
      split_and!; [apply Hf; by left|done| | |rewrite length_take; lia|rewrite length_drop; lia].
      + intros E%length_zero_iff_nil. rewrite length_take in E. lia.
      + intros E%length_zero_iff_nil. rewrite length_drop in E. lia. }
  intros E. eapply H; [| |exact E]; done.
Qed.
End splits.

(** ** The fit grows a tree *)

(** A leaf of a tree becomes a split with the two next indices below it. *)
Section split.
Context (nodes : list Node) (k : nat) (a b s : Node).
Context (Lk : (k < length nodes)%nat) (Ha : a = MkNode LEAF f_zero LEAF LEAF (value a)) (Hb : b = MkNode LEAF f_zero LEAF LEAF (value b)).
Context (Hs : 0 <= feature s < FEATURE_COUNT) (Hl : left s = Z.of_nat (length nodes)) (Hr : right s = Z.of_nat (S (length nodes))).
Definition split_nodes : list Node := <[k := s]> (nodes ++ [a; b]).

Lemma split_other j : j ≠ k -> (j < length nodes)%nat -> split_nodes !! j = nodes !! j.
Proof using All. intros. unfold split_nodes. rewrite list_lookup_insert_ne by done. by apply lookup_app_l. Qed.
Lemma split_self : split_nodes !! k = Some s.
Proof using All. unfold split_nodes. apply list_lookup_insert_eq. rewrite length_app. lia. Qed.
Lemma split_a : split_nodes !! length nodes = Some a.
Proof using All. unfold split_nodes. rewrite list_lookup_insert_ne by lia. by rewrite lookup_app_r, Nat.sub_diag by lia. Qed.
Lemma split_b : split_nodes !! S (length nodes) = Some b.
Proof using All. unfold split_nodes. rewrite list_lookup_insert_ne by lia. rewrite lookup_app_r by lia. by replace (S (length nodes) - length nodes)%nat with 1%nat by lia. Qed.

Lemma at_other i n : at_index nodes i = Some n -> i ≠ Z.of_nat k -> at_index split_nodes i = Some n.
Proof using All.
  intros E N. pose proof (at_index_Some _ _ _ E). unfold at_index in *. destruct (0 <=? i) eqn:Hi; [|done]. by rewrite split_other by lia.
Qed.

Lemma rooted_frame i ls : rooted nodes i ls -> Z.of_nat k ∉ ls -> rooted split_nodes i ls.
Proof using All.
  induction 1 as [i n E L El Er|i n ll lr E L Hf H1 IHl H2 IHr]; intros N.
  - apply (R_leaf _ i n); [apply at_other; [done|set_solver]|done..].
  - apply (R_split _ i n); [apply at_other; [done|set_solver]|done|done|apply IHl; set_solver|apply IHr; set_solver].
Qed.

Lemma rooted_split i ls n : rooted nodes i ls -> NoDup ls -> Z.of_nat k ∈ ls -> nodes !! k = Some n -> is_leaf n = true ->
  ∃ ls', rooted split_nodes i ls' ∧ ls' ≡ₚ Z.of_nat (length nodes) :: Z.of_nat (S (length nodes)) :: ls.
Proof using All.
  intros H. induction H as [i m E L El Er|i m ll lr E L Hf H1 IHl H2 IHr]; intros N Hk En Ln.
  - apply list_elem_of_singleton in Hk as <-. exists [Z.of_nat k; Z.of_nat (S (length nodes)); Z.of_nat (length nodes)].
    split; [|apply (Permutation_rev [Z.of_nat k; Z.of_nat (S (length nodes)); Z.of_nat (length nodes)])].
    change [Z.of_nat k; Z.of_nat (S (length nodes)); Z.of_nat (length nodes)] with (Z.of_nat k :: [Z.of_nat (S (length nodes))] ++ [Z.of_nat (length nodes)]).
    apply (R_split _ _ s); [by rewrite at_index_nat, split_self|unfold is_leaf, FEATURE_COUNT, LEAF in *; lia|done| |].
    + rewrite Hl. apply (R_leaf _ _ a); [by rewrite at_index_nat, split_a|by rewrite Ha..].
    + rewrite Hr. apply (R_leaf _ _ b); [by rewrite at_index_nat, split_b|by rewrite Hb..].
  - apply NoDup_cons in N as [Ni (Nr & D & Nl)%NoDup_app].
    assert (i ≠ Z.of_nat k) as Nik by (intros ->; rewrite at_index_nat in E; simplify_eq; congruence).
    apply elem_of_cons in Hk as [?|[Hk|Hk]%elem_of_app]; [done|destruct IHr as (ls' & R & P)|destruct IHl as (ls' & R & P)]; try done.
    + exists (i :: ls' ++ ll). split; [apply (R_split _ i m); [by apply at_other|done..|apply rooted_frame; [done|set_solver]|done]|].
      rewrite P. cbn. by rewrite (Permutation_swap i), (Permutation_swap i).
    + exists (i :: lr ++ ls'). split; [apply (R_split _ i m); [by apply at_other|done..|done|apply rooted_frame; [done|set_solver]]|].
      rewrite P. rewrite <- !Permutation_middle. by rewrite (Permutation_swap i), (Permutation_swap i).
Qed.

Lemma split_tree n : is_tree nodes -> nodes !! k = Some n -> is_leaf n = true -> is_tree split_nodes.
Proof using All.
  intros (ls & R & N & E) En Ln. pose proof (rooted_range _ _ _ R) as F. rewrite Forall_forall in F.
  assert (Z.of_nat k ∈ ls) as Hk.
  { destruct (decide (Z.of_nat k ∈ ls)) as [|Nk]; [done|]. exfalso.
    assert (length (Z.of_nat k :: ls) <= length nodes)%nat; [|cbn in *; lia]. apply in_range_length; [by apply NoDup_cons|].
    constructor; [lia|]. by rewrite Forall_forall. }
  destruct (rooted_split 0 ls n) as (ls' & R' & P); [done..|]. exists ls'. split; [done|]. rewrite P. split.
  - apply NoDup_cons. split; [rewrite elem_of_cons; intros [?|?%F]; lia|]. apply NoDup_cons. split; [intros ?%F; lia|done].
  - unfold split_nodes. rewrite length_insert, length_app. cbn. lia.
Qed.
End split.

Section fits.
Context (log2 : float -> float) (rows : list TrainingRow) (m : nat) (c : Criterion) (columns : list Z).
Context (Hc : Forall (fun f => 0 <= f < FEATURE_COUNT) columns).

(** The list of nodes is a tree; [parts] are its leaves with the rows each was made from: every row is in one of them. *)
Record grown (order : list nat) (nodes : list Node) (parts : list (nat * list nat)) : Prop := {
  g_tree : is_tree nodes;
  g_once : NoDup parts.*1;
  g_leaf : Forall (fun p => nodes !! p.1 = Some (leaf_of rows p.2)) parts;
  g_all : Forall (fun e => is_leaf e.2 = true -> e.1 ∈ parts.*1) (zip (seq 0 (length nodes)) nodes);
  g_columns : Forall (fun n => is_leaf n = true ∨ feature n ∈ columns) nodes;
  g_rows : concat parts.*2 ≡ₚ order;
  g_size : Forall (fun p => p.1 = 0%nat ∨ (m <= length p.2)%nat) parts }.
#[local] Arguments g_tree {_ _ _}. #[local] Arguments g_once {_ _ _}. #[local] Arguments g_leaf {_ _ _}. #[local] Arguments g_all {_ _ _}.
#[local] Arguments g_columns {_ _ _}. #[local] Arguments g_rows {_ _ _}. #[local] Arguments g_size {_ _ _}.

Lemma leaf_of_leaf subset : leaf_of rows subset = MkNode LEAF f_zero LEAF LEAF (value (leaf_of rows subset)).
Proof. unfold leaf_of. by destruct (fleb _ _). Qed.
Lemma leaf_of_is subset : is_leaf (leaf_of rows subset) = true.
Proof. by rewrite leaf_of_leaf. Qed.

Lemma numbered (nodes : list Node) i n : (i, n) ∈ zip (seq 0 (length nodes)) nodes ↔ nodes !! i = Some n.
Proof.
  rewrite list_elem_of_lookup. split.
  - intros (j & (i' & n' & [= <- <-] & E1 & E2)%lookup_zip_with_Some). apply lookup_seq in E1 as [-> _]. done.
  - intros E. exists i. apply lookup_zip_with_Some. exists i, n. split_and!; [done| |done]. apply lookup_seq. split; [lia|]. by eapply lookup_lt_Some.
Qed.

(** A leaf's part is replaced by the two of its split. *)
Lemma grown_split order nodes i members parts s : grown order nodes ((i, members) :: parts) -> fair columns members m s ->
  let l := length nodes in
  grown order (split_nodes nodes i (leaf_of rows (sp_left s)) (leaf_of rows (sp_right s)) (MkNode (sp_feature s) (sp_threshold s) (Z.of_nat l) (Z.of_nat (S l)) f_zero))
    ((l, sp_left s) :: (S l, sp_right s) :: parts).
Proof using Hc.
  intros G (Hf & P & _ & _ & Ml & Mr) l. set (a := leaf_of rows (sp_left s)). set (b := leaf_of rows (sp_right s)). set (sn := MkNode (sp_feature s) _ _ _ _).
  pose proof (g_leaf G) as [Ei Ep]%Forall_cons. cbn [fst snd] in Ei. pose proof (lookup_lt_Some _ _ _ Ei) as Li.
  pose proof (g_once G) as [Ni Np]%NoDup_cons. cbn [fst] in Ni.
  assert (0 <= feature sn < FEATURE_COUNT) as Hsn by (rewrite Forall_forall in Hc; by apply Hc).
  assert (∀ j, j ∈ parts.*1 -> (j < length nodes)%nat ∧ j ≠ i) as Hp.
  { intros j Hj. split; [|by intros ->]. apply list_elem_of_fmap in Hj as (p & -> & Hj). rewrite Forall_forall in Ep. by eapply lookup_lt_Some, Ep. }
  pose proof (leaf_of_leaf (sp_left s)) as La. pose proof (leaf_of_leaf (sp_right s)) as Lb. fold a in La. fold b in Lb.
  constructor.
  - eapply split_tree; [exact Li|exact La|exact Lb|exact Hsn|done|done|exact (g_tree G)|exact Ei|apply leaf_of_is].
  - cbn. apply NoDup_cons. split; [rewrite elem_of_cons; intros [?|?%Hp]; unfold l in *; lia|]. apply NoDup_cons. split; [intros ?%Hp; unfold l in *; lia|done].
  - constructor; [by apply split_a|]. constructor; [by apply split_b|]. rewrite Forall_forall in Ep |- *. intros p Hin.
    destruct (Hp p.1) as [? ?]; [by apply list_elem_of_fmap_2|]. rewrite split_other by done. by apply Ep.
  - rewrite Forall_forall. intros [j n] [E]%numbered%(fun x => conj x I) Ln. cbn [fst snd] in *.
    destruct (decide (j = i)) as [->|]; [rewrite split_self in E by done; injection E as <-; unfold is_leaf, FEATURE_COUNT, LEAF in *; lia|].
    pose proof (lookup_lt_Some _ _ _ E) as Lj. unfold split_nodes in Lj. rewrite length_insert, length_app in Lj. cbn in Lj. rewrite !fmap_cons. cbn [fst].
    destruct (decide (j < length nodes)%nat); [|rewrite !elem_of_cons; unfold l; lia]. rewrite split_other in E by done.
    pose proof (g_all G) as Ga. rewrite Forall_forall in Ga. specialize (Ga (j, n) (proj2 (numbered _ _ _) E) Ln). cbn in Ga. set_solver.
  - unfold split_nodes. apply Forall_insert; [|by right]. apply Forall_app. split; [exact (g_columns G)|]. constructor; [left; apply leaf_of_is|]. constructor; [left; apply leaf_of_is|constructor].
  - pose proof (g_rows G) as Gr. cbn in *. by rewrite app_assoc, P.
  - pose proof (g_size G) as [_ Gs]%Forall_cons. constructor; [by right|]. constructor; [by right|done].
Qed.

(** The state of the fit: the entries that wait are leaves. *)
Definition waiting (order : list nat) (nodes : list Node) (entries : list (nat * list nat)) : Prop :=
  ∃ closed, grown order nodes (entries ++ closed).

Lemma grown_perm order nodes parts parts' : parts ≡ₚ parts' -> grown order nodes parts -> grown order nodes parts'.
Proof.
  intros P [T O L A C R S]. constructor; [done|by rewrite <- P|by rewrite <- P| |done|by rewrite <- P|by rewrite <- P].
  eapply Forall_impl; [exact A|]. intros e He Hl. cbn in *. rewrite <- P. auto.
Qed.

Lemma grow_one_step order nodes pending e rest : waiting order nodes (e :: rest ++ pending) ->
  ∃ nodes' added, grow_one log2 rows m c columns (nodes, pending) e = (nodes', pending ++ added)
  ∧ waiting order nodes' (rest ++ pending ++ added) ∧ length nodes' = (length nodes + length added)%nat ∧ (length added <= 2)%nat.
Proof using Hc.
  intros [closed G]. destruct e as [i members]. unfold grow_one.
  assert (waiting order nodes (rest ++ pending)) as W.
  { exists ((i, members) :: closed). eapply grown_perm; [|exact G]. cbn. by rewrite (Permutation_middle (rest ++ pending)). }
  destruct (Nat.ltb _ _); [exists nodes, []; rewrite !app_nil_r; split_and!; [done|done|cbn; lia|cbn; lia]|].
  destruct (best_split _ _ _ _ _ _) as [s|] eqn:B; [|exists nodes, []; rewrite !app_nil_r; split_and!; [done|done|cbn; lia|cbn; lia]].
  apply best_split_fair in B. pose proof (grown_split order nodes i members _ s G B) as G'. cbn zeta in G'.
  eexists _, [(length nodes, sp_left s); (S (length nodes), sp_right s)]. split; [done|]. split_and!; [|unfold split_nodes; rewrite length_insert, length_app; cbn; lia|cbn; lia].
  exists closed. eapply grown_perm; [|exact G']. set (x1 := (length nodes, _)). set (x2 := (S (length nodes), _)).
  rewrite (app_assoc rest pending [x1; x2]), <- (app_assoc (rest ++ pending) [x1; x2]). change ([x1; x2] ++ closed) with (x1 :: x2 :: closed). by rewrite <- !Permutation_middle.
Qed.

Lemma grow_level order level nodes pending : waiting order nodes (level ++ pending) ->
  ∃ nodes' added, foldl (grow_one log2 rows m c columns) (nodes, pending) level = (nodes', pending ++ added)
  ∧ waiting order nodes' (pending ++ added) ∧ length nodes' = (length nodes + length added)%nat ∧ (length added <= 2 * length level)%nat.
Proof using Hc.
  revert nodes pending. induction level as [|e level IH]; intros nodes pending W.
  - exists nodes, []. rewrite app_nil_r. split_and!; [done|done|cbn; lia|cbn; lia].
  - destruct (grow_one_step order nodes pending e level W) as (n1 & a1 & E1 & W1 & L1 & B1). cbn [foldl]. rewrite E1.
    destruct (IH n1 (pending ++ a1)) as (n2 & a2 & E2 & W2 & L2 & B2); [done|]. rewrite E2. exists n2, (a1 ++ a2).
    rewrite <- app_assoc in *. split_and!; [done|done|rewrite length_app; lia|rewrite length_app; cbn; lia].
Qed.

Lemma grow_grown order d nodes level : waiting order nodes level ->
  ∃ parts, grown order (grow log2 rows d m c columns nodes level) parts
  ∧ (length (grow log2 rows d m c columns nodes level) + 2 * length level <= length nodes + length level * 2 ^ S d)%nat.
Proof using Hc.
  revert nodes level. induction d as [|d IH]; intros nodes level W.
  - destruct W as [cl G]. exists (level ++ cl). split; [done|]. cbn. lia.
  - destruct level as [|e level]; [destruct W as [cl G]; exists cl; split; [done|cbn; lia]|]. cbn [grow].
    destruct (grow_level order (e :: level) nodes []) as (n' & added & E & W' & L & B); [by rewrite app_nil_r|]. rewrite E. cbn [app] in *.
    destruct (IH n' added W') as (parts & G & Lg). exists parts. split; [done|].
    rewrite Nat.pow_succ_r'. assert (0 < 2 ^ S d)%nat by (apply Nat.neq_0_lt_0, Nat.pow_nonzero; lia). rewrite (Nat.pow_succ_r' 2 d) in *. nia.
Qed.

Lemma root_waits order : waiting order [leaf_of rows order] [(0%nat, order)].
Proof.
  exists []. constructor.
  - exists [0]. split_and!; [|by apply NoDup_singleton|done]. eapply R_leaf; [done|by rewrite leaf_of_leaf..].
  - apply NoDup_singleton.
  - by repeat constructor.
  - repeat constructor.
  - constructor; [left; apply leaf_of_is|constructor].
  - cbn. by rewrite app_nil_r.
  - repeat constructor.
Qed.
End fits.

(** Whatever the rows, the fit's list of nodes passes the structure check; it is at most as large as a full tree of the depth
    asked for; its splits are on the columns given; and every row given is in exactly one of its leaves, a leaf being the
    weighted mean of its rows and, the root apart, having at least the rows asked for. *)
Theorem the_fit_grows_a_tree log2 rows max_depth m c subset features :
  Forall (fun f => 0 <= f < FEATURE_COUNT) (default [0; 1; 2] features) ->
  let nodes := fit log2 rows max_depth m c subset features in
  structure_error nodes = Some (Ok ())
  ∧ (length nodes <= 2 ^ S max_depth - 1)%nat
  ∧ Forall (fun n => is_leaf n = true ∨ feature n ∈ default [0; 1; 2] features) nodes
  ∧ ∃ parts, NoDup parts.*1
    ∧ (∀ i n, nodes !! i = Some n -> is_leaf n = true -> i ∈ parts.*1)
    ∧ Forall (fun p => nodes !! p.1 = Some (leaf_of rows p.2)) parts
    ∧ concat parts.*2 ≡ₚ default (seq 0 (length rows)) subset
    ∧ Forall (fun p => p.1 = 0%nat ∨ (m <= length p.2)%nat) parts.
Proof.
  intros Hc nodes. set (order := default (seq 0 (length rows)) subset) in *.
  destruct (grow_grown log2 rows m c _ Hc order max_depth _ _ (root_waits rows m _ order)) as (parts & [T O L A Co R S] & Lg).
  change (grow _ _ _ _ _ _ _ _) with nodes in *. cbn [length] in Lg. split_and!; [by apply structure_error_tree|lia|done|].
  exists parts. split_and!; [done| |done..]. intros i n E. rewrite Forall_forall in A. by apply (A (i, n)), numbered.
Qed.

Definition two_rows : list TrainingRow := [MkRow f_zero f_one [f_zero; f_zero; f_zero]; MkRow f_one f_one [f_one; f_zero; f_zero]].
Lemma the_fit_grows_a_tree_witness :
  length (fit (fun _ => f_zero) two_rows 4 1 Gini None None) = 3%nat
  ∧ structure_error (fit (fun _ => f_zero) two_rows 4 1 Gini None None) = Some (Ok ()).
Proof.
  split; [by vm_compute|]. apply (the_fit_grows_a_tree (fun _ => f_zero) two_rows 4 1 Gini None None). cbn. unfold FEATURE_COUNT. repeat constructor; lia.
Defined.

(** Two neighbouring floats: the midpoint of the split between them rounds to the upper one, so the fitted tree sends both rows
    left, and answers 0 of a row its right leaf, which holds 1, was made from. *)
Definition near : float := S754_finite false 4503599627370497 (-52).
Definition next_to : float := S754_finite false 4503599627370498 (-52).
Definition close_rows : list TrainingRow := [MkRow f_zero f_one [near; f_zero; f_zero]; MkRow f_one f_one [next_to; f_zero; f_zero]].
Example the_midpoint_can_round_up :
  (fit (fun _ => f_zero) close_rows 4 1 Gini None None, predict (fit (fun _ => f_zero) close_rows 4 1 Gini None None) [next_to; f_zero; f_zero])
  = ([MkNode 0 next_to 1 2 f_zero; MkNode LEAF f_zero LEAF LEAF f_zero; MkNode LEAF f_zero LEAF LEAF f_one], Some f_zero).
Proof. vm_compute. reflexivity. Qed.

(** ** How far a model reaches ([engine/model/cart.py])

    A weighted sum of trees is constant on each cell its thresholds cut, and the points tried meet every cell within the
    bounds: the extremes are the least and the greatest output within them, and both are reached. *)

(** ** One column: a point of every cell *)

Definition between (b : float * float) (v : float) : bool := fleb b.1 v && fleb v b.2.

Lemma feqb_fleb_r v a b : feqb a b = true -> fleb v a = fleb v b.
Proof.
  intros [E1 E2]%feqb_leb. apply eq_bool_prop_intro. rewrite !Is_true_true. split; intros H; by eapply fleb_trans.
Qed.
Lemma py_min_l a b : is_nan a = false -> is_nan b = false -> fleb (py_min a b) a = true.
Proof. intros. unfold py_min. destruct (fltb b a) eqn:E; [by apply fltb_leb|by apply fleb_refl]. Qed.
Lemma py_min_r a b : is_nan a = false -> is_nan b = false -> fleb (py_min a b) b = true.
Proof. intros. unfold py_min. destruct (fltb b a) eqn:E; [by apply fleb_refl|]. rewrite fltb_fleb_total in E by done. by apply negb_false_iff in E. Qed.

Section column.
Context (low high : float) (Nl : is_nan low = false) (Nh : is_nan high = false).

(** Every number within the bounds has a point on its own side of every cut. *)
Lemma points_meet cuts previous v : StronglySorted (fun a b => fleb a b = true) cuts -> numbers cuts -> is_nan previous = false ->
  Forall (fun c => fleb previous c = true) cuts -> fltb previous v = true -> between (low, high) v = true -> Exists (fun c => fleb v c = true) cuts ->
  ∃ p, p ∈ points cuts previous low high ∧ fltb previous p = true ∧ ∀ c, c ∈ cuts -> fleb v c = fleb p c.
Proof using Nl Nh.
  intros S. revert previous. induction S as [|c cuts S IH Hc]; intros previous N Np F Hv B X; [by inversion X|].
  apply Forall_cons in N as [Nc N]. apply Forall_cons in F as [Fc F]. pose proof (fltb_not_nan _ _ Hv) as [_ Nv].
  unfold between in B. cbn [fst snd] in B. apply andb_prop in B as [B1 B2]. cbn [points].
  destruct (fleb v c) eqn:Hvc.
  - assert (fleb v (py_min c high) = true) as Hvp by (by rewrite fleb_py_min, Hvc, B2).
    assert (fltb previous (py_min c high) = true) as Hp by (by eapply fltb_leb_trans).
    assert (fleb low (py_min c high) = true) as Hl by (by eapply fleb_trans). exists (py_min c high). rewrite Hp, Hl. cbn.
    split_and!; [by left|done|]. intros d [->|Hd]%elem_of_cons; [by rewrite Hvc, py_min_l|].
    rewrite Forall_forall in Hc. specialize (Hc d Hd). rewrite (fleb_trans v c d) by done. symmetry.
    apply (fleb_trans _ c); [by apply py_min_l|done].
  - assert (fltb c v = true) as Hcv by (by rewrite fltb_fleb_total, Hvc).
    destruct (IH c) as (p & Hp & Hcp & He); [done|done|done|done|unfold between; cbn; by rewrite B1, B2|apply Exists_cons in X as [?|?]; [congruence|done]|].
    exists p. split_and!; [apply elem_of_app; by right|by eapply fleb_ltb_trans|]. intros d [->|Hd]%elem_of_cons; [|by apply He].
    rewrite Hvc. rewrite fltb_fleb_total in Hcp; [by apply negb_true_iff in Hcp|done|]. by apply fltb_not_nan in Hcp as [_ ?].
Qed.

Lemma points_within cuts previous p : numbers cuts -> p ∈ points cuts previous low high -> between (low, high) p = true.
Proof using Nl Nh.
  intros N. revert previous. induction N as [|c cuts Nc N IH]; intros previous; cbn [points]; [by intros ?%elem_of_nil|].
  intros [H|H]%elem_of_app; [|by eapply IH]. destruct (fltb previous (py_min c high) && fleb low (py_min c high)) eqn:E; [|by apply elem_of_nil in H].
  apply list_elem_of_singleton in H as ->. apply andb_prop in E as [_ E]. unfold between. cbn. rewrite E. by apply py_min_r.
Qed.
End column.

Section columns.
Context (cuts : list float) (b : float * float).
Context (Hcs : StronglySorted (fun a b => fleb a b = true) cuts) (Hcn : numbers cuts) (Hb : fltb f_minus_inf b.1 = true) (Nh : is_nan b.2 = false).

Lemma minus_inf_least v : is_nan v = false -> fleb f_minus_inf v = true.
Proof. by destruct v as [[]|[]| |[] m e]. Qed.
Lemma inf_greatest v : is_nan v = false -> fleb v f_inf = true.
Proof. by destruct v as [[]|[]| |[] m e]. Qed.

Lemma representatives_within p : p ∈ representatives cuts b.1 b.2 -> between b p = true.
Proof using Hcn Nh Hb.
  intros H. destruct b as [lo hi]. cbn [fst snd] in *. eapply points_within; [|done| |exact H]; [by apply fltb_not_nan in Hb as [_ ?]|].
  apply Forall_app. split; [done|]. by repeat constructor.
Qed.
Lemma representatives_meet v : between b v = true -> ∃ p, p ∈ representatives cuts b.1 b.2 ∧ ∀ c, c ∈ cuts -> fleb v c = fleb p c.
Proof using Hcs Hcn Nh Hb.
  intros B. destruct b as [lo hi]. cbn [fst snd] in *. pose proof (fltb_not_nan _ _ Hb) as [_ Nl].
  assert (fleb lo v = true) as Hlv by (by apply andb_prop in B as [? _]). pose proof (fleb_not_nan _ _ Hlv) as [_ Nv].
  destruct (points_meet lo hi Nl Nh (cuts ++ [f_inf]) f_minus_inf v) as (p & Hp & _ & He).
  - clear -Hcs Hcn. induction Hcs as [|c l H IH F]; cbn; [repeat constructor|]. apply Forall_cons in Hcn as [Nc N]. constructor; [exact (IH H N)|].
    apply Forall_app. split; [done|]. repeat constructor. by apply inf_greatest.
  - apply Forall_app. split; [done|]. by repeat constructor.
  - done.
  - apply Forall_app. split; [|by repeat constructor]. eapply Forall_impl; [exact Hcn|]. apply minus_inf_least.
  - by eapply fltb_leb_trans.
  - done.
  - apply Exists_app. right. constructor. by apply inf_greatest.
  - exists p. split; [done|]. intros c Hc. apply He. set_solver.
Qed.
End columns.

(** ** The cuts of a sum of trees *)

Lemma distinct_acc acc l : ∀ v, v ∈ acc ++ l -> is_nan v = false -> ∃ w, w ∈ foldl (fun acc v => if existsb (feqb v) acc then acc else acc ++ [v]) acc l ∧ feqb v w = true.
Proof.
  revert acc. induction l as [|a l IH]; intros acc v Hv Nv; cbn [foldl].
  - rewrite app_nil_r in Hv. exists v. split; [done|]. apply feqb_key. destruct (fkey v) eqn:E; [by eexists|]. apply fkey_nan in E. congruence.
  - destruct (existsb (feqb a) acc) eqn:E.
    + apply elem_of_app in Hv as [Hv|[->|Hv]%elem_of_cons]; [apply IH; [set_solver|done]| |apply IH; [set_solver|done]].
      apply existsb_exists in E as (w & Hw%list_elem_of_In & E). destruct (IH acc w) as (u & Hu & Eu); [set_solver| |].
      { apply feqb_leb in E as [[_ ?]%fleb_not_nan _]. done. }
      exists u. split; [done|]. by eapply feqb_trans.
    + apply IH; [|done]. rewrite <- app_assoc. done.
Qed.
Lemma distinct_meets l v : v ∈ l -> is_nan v = false -> ∃ w, w ∈ distinct l ∧ feqb v w = true.
Proof. intros. by apply (distinct_acc []). Qed.
Lemma distinct_subset l v : v ∈ distinct l -> v ∈ l.
Proof.
  unfold distinct. assert (∀ acc, v ∈ foldl (fun acc v => if existsb (feqb v) acc then acc else acc ++ [v]) acc l -> v ∈ acc ∨ v ∈ l) as H; [|by intros [?%elem_of_nil|?]%H].
  induction l as [|a l IH]; intros acc; cbn [foldl]; [by left|]. destruct (existsb _ acc); intros [H|H]%IH; set_solver.
Qed.

Section members.
Context (members : list Member) (Ht : Forall (fun m : Member => structure_error m.2 = Some (Ok ()) ∧ thresholds_ok m.2) members).

Lemma elem_of_cuts f t : t ∈ distinct (flat_map (fun m : Member => omap (fun n => if feature n =? f then Some (threshold n) else None) m.2) members) ->
  is_nan t = false.
Proof using Ht.
  intros (m & Hm & H)%distinct_subset%list_elem_of_In%in_flat_map. apply list_elem_of_In, list_elem_of_omap in H as (n & Hn & H).
  rewrite Forall_forall in Ht. destruct (Ht m) as [_ T]; [by apply list_elem_of_In|]. unfold thresholds_ok in T. rewrite Forall_forall in T.
  destruct (_ =? _); simplify_eq. by apply T.
Qed.
Lemma cuts_numbers f : numbers (cuts_of members f).
Proof using Ht. unfold numbers, cuts_of. rewrite sort_by_perm, Forall_forall. apply elem_of_cuts. Qed.
Lemma cuts_sorted f : StronglySorted (fun a b => fleb a b = true) (cuts_of members f).
Proof using Ht.
  unfold cuts_of. apply (sort_by_sorted fleb (fun v => is_nan v = false)); [rewrite Forall_forall; apply elem_of_cuts|apply fleb_total|apply fleb_trans].
Qed.
Lemma threshold_is_cut m n : m ∈ members -> n ∈ m.2 -> ∃ c, c ∈ cuts_of members (feature n) ∧ feqb (threshold n) c = true.
Proof using Ht.
  intros Hm Hn. rewrite Forall_forall in Ht. destruct (Ht m Hm) as [_ T]. unfold thresholds_ok in T. rewrite Forall_forall in T.
  destruct (distinct_meets (flat_map (fun m : Member => omap (fun k => if feature k =? feature n then Some (threshold k) else None) m.2) members) (threshold n)) as (c & Hc & E); [|by apply T|].
  - apply list_elem_of_In, in_flat_map. exists m. split; [by apply list_elem_of_In|]. apply list_elem_of_In, list_elem_of_omap. exists n. by rewrite Z.eqb_refl.
  - exists c. split; [|done]. unfold cuts_of. by apply elem_of_sort_by.
Qed.

(** Two points on the same side of every cut end in the same leaves. *)
Lemma walk_same nodes x p fuel i : length x = length p ->
  (∀ n v w, n ∈ nodes -> at_index x (feature n) = Some v -> at_index p (feature n) = Some w -> fleb v (threshold n) = fleb w (threshold n)) ->
  walk fuel nodes x i = walk fuel nodes p i.
Proof.
  intros L H. revert i. induction fuel as [|fuel IH]; intros i; [done|]. cbn [walk]. destruct (at_index nodes i) as [n|] eqn:E; [|done]. cbn.
  destruct (is_leaf n); [done|]. assert (n ∈ nodes) as Hn by (unfold at_index in E; destruct (0 <=? i); [by eapply list_elem_of_lookup_2|done]).
  destruct (at_index x (feature n)) as [v|] eqn:Ex.
  - destruct (at_index_in p (feature n)) as [w Ew]; [rewrite <- L; by eapply at_index_Some|]. rewrite Ew. cbn. by rewrite (H n v w), IH.
  - destruct (at_index p (feature n)) eqn:Ep; [|done]. apply at_index_Some in Ep. rewrite <- L in Ep. apply at_index_in in Ep as [? ?]. congruence.
Qed.

Lemma output_same x0 x1 x2 p0 p1 p2 base :
  (∀ c, c ∈ cuts_of members 0 -> fleb x0 c = fleb p0 c) -> (∀ c, c ∈ cuts_of members 1 -> fleb x1 c = fleb p1 c) -> (∀ c, c ∈ cuts_of members 2 -> fleb x2 c = fleb p2 c) ->
  output members base [x0; x1; x2] = output members base [p0; p1; p2].
Proof using Ht.
  intros H0 H1 H2. unfold output. assert (∀ l k : option (list float), l = k -> (vs ← l; Some (fadd base (py_sum vs))) = vs ← k; Some (fadd base (py_sum vs))) as C by (by intros ? ? ->).
  apply C, Forall_mapM_ext. rewrite Forall_forall. intros m Hm. unfold predict. f_equal. apply walk_same; [done|]. intros n v w Hn Ev Ew.
  destruct (threshold_is_cut m n Hm Hn) as (c & Hc & E). rewrite !(feqb_fleb_r _ _ _ E).
  pose proof (at_index_Some _ _ _ Ev) as R. cbn in R.
  assert (feature n = 0 ∨ feature n = 1 ∨ feature n = 2) as [F|[F|F]] by lia; rewrite F in *; vm_compute in Ev, Ew; simplify_eq; auto.
Qed.

Lemma output_ends base x : length x = 3%nat -> is_Some (output members base x).
Proof using Ht.
  intros L. unfold output. assert (is_Some (mapM (fun m : Member => (fun v => fmul m.1 v) <$> predict m.2 x) members)) as [vs ->]; [|by eexists].
  apply mapM_is_Some. eapply Forall_impl; [exact Ht|]. intros m [E%structure_error_tree _]. apply fmap_is_Some. by apply predict_ends.
Qed.
End members.

(** ** The least and the greatest of a list of floats *)

Lemma foldl_py_min l acc : is_nan acc = false ->
  let r := foldl py_min acc l in
  is_nan r = false ∧ fleb r acc = true ∧ (r = acc ∨ r ∈ l) ∧ ∀ v, v ∈ l -> is_nan v = false -> fleb r v = true.
Proof.
  revert acc. induction l as [|a l IH]; intros acc N; cbn [foldl]; [split_and!; [done|by apply fleb_refl|by left|by intros v ?%elem_of_nil]|].
  assert (is_nan (py_min acc a) = false ∧ fleb (py_min acc a) acc = true ∧ (py_min acc a = acc ∨ py_min acc a = a) ∧ (is_nan a = false -> fleb (py_min acc a) a = true)) as (N1 & L1 & C1 & A1).
  { unfold py_min. destruct (fltb a acc) eqn:E.
    - pose proof (fltb_not_nan _ _ E) as [Na _]. split_and!; [done|by apply fltb_leb|by right|intros; by apply fleb_refl].
    - split_and!; [done|by apply fleb_refl|by left|]. intros Na. rewrite fltb_fleb_total in E by done. by apply negb_false_iff in E. }
  destruct (IH _ N1) as (N2 & L2 & C2 & A2). split_and!; [done|by eapply fleb_trans| |].
  - destruct C2 as [->|?]; [destruct C1 as [->| ->]; [by left|right; by left]|right; by right].
  - intros v [->|Hv]%elem_of_cons Nv; [eapply fleb_trans; [exact L2|by apply A1]|by apply A2].
Qed.
Lemma foldl_fmax l acc : is_nan acc = false ->
  let r := foldl fmax acc l in
  is_nan r = false ∧ fleb acc r = true ∧ (r = acc ∨ r ∈ l) ∧ ∀ v, v ∈ l -> is_nan v = false -> fleb v r = true.
Proof.
  revert acc. induction l as [|a l IH]; intros acc N; cbn [foldl]; [split_and!; [done|by apply fleb_refl|by left|by intros v ?%elem_of_nil]|].
  assert (is_nan (fmax acc a) = false ∧ fleb acc (fmax acc a) = true ∧ (fmax acc a = acc ∨ fmax acc a = a) ∧ (is_nan a = false -> fleb a (fmax acc a) = true)) as (N1 & L1 & C1 & A1).
  { unfold fmax. destruct (fltb acc a) eqn:E.
    - pose proof (fltb_not_nan _ _ E) as [_ Na]. split_and!; [done|by apply fltb_leb|by right|intros; by apply fleb_refl].
    - split_and!; [done|by apply fleb_refl|by left|]. intros Na. rewrite fltb_fleb_total in E by done. by apply negb_false_iff in E. }
  destruct (IH _ N1) as (N2 & L2 & C2 & A2). split_and!; [done|by eapply fleb_trans| |].
  - destruct C2 as [->|?]; [destruct C1 as [->| ->]; [by left|right; by left]|right; by right].
  - intros v [->|Hv]%elem_of_cons Nv; [eapply fleb_trans; [by apply A1|exact L2]|by apply A2].
Qed.
Lemma foldl_py_min_reached l v : v ∈ l -> is_nan v = false -> foldl py_min f_inf l ∈ l.
Proof.
  intros Hv Nv. destruct (foldl_py_min l f_inf) as (_ & _ & C & A); [done|]. destruct C as [E|?]; [|done]. rewrite E in *.
  specialize (A v Hv Nv). by destruct v as [[]|[]| |[] m e].
Qed.
Lemma foldl_fmax_reached l v : v ∈ l -> is_nan v = false -> foldl fmax f_minus_inf l ∈ l.
Proof.
  intros Hv Nv. destruct (foldl_fmax l f_minus_inf) as (_ & _ & C & A); [done|]. destruct C as [E|?]; [|done]. rewrite E in *.
  specialize (A v Hv Nv). by destruct v as [[]|[]| |[] m e].
Qed.

Lemma elem_of_grid a b c x : x ∈ grid a b c ↔ ∃ p q r, x = [p; q; r] ∧ p ∈ a ∧ q ∈ b ∧ r ∈ c.
Proof.
  unfold grid. rewrite list_elem_of_In, in_flat_map. setoid_rewrite in_flat_map. setoid_rewrite in_map_iff. setoid_rewrite <- list_elem_of_In. naive_solver.
Qed.

(** ** The extremes *)

Definition within (bounds : list (float * float)) (x : list float) : Prop := Forall2 (fun b v => between b v = true) bounds x.

Section extremes.
Context (members : list Member) (base : float) (b0 b1 b2 : float * float).
Context (Ht : Forall (fun m : Member => structure_error m.2 = Some (Ok ()) ∧ thresholds_ok m.2) members).
Context (Hb : Forall (fun b => fltb f_minus_inf b.1 = true ∧ is_nan b.2 = false) [b0; b1; b2]).
Definition column (f : Z) (b : float * float) : list float := representatives (cuts_of members f) b.1 b.2.
Definition points_tried : list (list float) := grid (column 0 b0) (column 1 b1) (column 2 b2).

Lemma tried_within x : x ∈ points_tried -> within [b0; b1; b2] x.
Proof using Ht Hb.
  intros (p & q & r & -> & Hp & Hq & Hr)%elem_of_grid. rewrite !Forall_cons in Hb. destruct Hb as ([L0 N0] & [L1 N1] & [L2 N2] & _).
  unfold within. repeat constructor; (eapply representatives_within; [by eapply cuts_numbers|..]; done).
Qed.
Lemma tried_meet x : within [b0; b1; b2] x -> ∃ p, p ∈ points_tried ∧ output members base x = output members base p.
Proof using Ht Hb.
  intros (x0 & l0 & W0 & W & ->)%Forall2_cons_inv_l. apply Forall2_cons_inv_l in W as (x1 & l1 & W1 & W & ->).
  apply Forall2_cons_inv_l in W as (x2 & l2 & W2 & ->%Forall2_nil_inv_l & ->).
  rewrite !Forall_cons in Hb. destruct Hb as ([L0 N0] & [L1 N1] & [L2 N2] & _).
  destruct (representatives_meet (cuts_of members 0) b0) with x0 as (p0 & H0 & E0); [by apply cuts_sorted|by apply cuts_numbers|done..|].
  destruct (representatives_meet (cuts_of members 1) b1) with x1 as (p1 & H1 & E1); [by apply cuts_sorted|by apply cuts_numbers|done..|].
  destruct (representatives_meet (cuts_of members 2) b2) with x2 as (p2 & H2 & E2); [by apply cuts_sorted|by apply cuts_numbers|done..|].
  exists [p0; p1; p2]. split; [apply elem_of_grid; by exists p0, p1, p2|by apply output_same].
Qed.
Lemma within_length x : within [b0; b1; b2] x -> length x = 3%nat.
Proof. by intros <-%Forall2_length. Qed.

Lemma tried_outputs : ∃ totals, mapM (output members base) points_tried = Some totals
  ∧ (∀ x, within [b0; b1; b2] x -> ∃ v, output members base x = Some v ∧ v ∈ totals)
  ∧ (∀ v, v ∈ totals -> ∃ x, within [b0; b1; b2] x ∧ output members base x = Some v).
Proof using Ht Hb.
  assert (is_Some (mapM (output members base) points_tried)) as [totals E].
  { apply mapM_is_Some. rewrite Forall_forall. intros x Hx%tried_within%within_length. by apply output_ends. }
  exists totals. split; [done|]. apply mapM_Some in E. split.
  - intros x (p & Hp & ->)%tried_meet. apply list_elem_of_lookup in Hp as [i Hi]. destruct (Forall2_lookup_l _ _ _ _ _ E Hi) as (v & Hv & Ev).
    exists v. split; [done|]. by eapply list_elem_of_lookup_2.
  - intros v [i Hi]%list_elem_of_lookup. destruct (Forall2_lookup_r _ _ _ _ _ E Hi) as (x & Hx & Ex). exists x. split; [|done].
    apply tried_within. by eapply list_elem_of_lookup_2.
Qed.

Lemma extremes_tried : extremes members base [b0; b1; b2] =
  let cells := Z.of_nat (length (column 0 b0)) * Z.of_nat (length (column 1 b1)) * Z.of_nat (length (column 2 b2)) in
  if MAX_REACHABILITY_CELLS <? cells then Err (Too_many_cells cells)
  else match mapM (output members base) points_tried with
  | None => Err Not_a_tree
  | Some totals => Ok (foldl py_min f_inf totals, foldl fmax f_minus_inf totals)
  end.
Proof. reflexivity. Qed.
End extremes.

(** For trees with numbers for thresholds and bounds above minus infinity: the extremes are refused only for the cells they
    would take; otherwise every point within the bounds has an output, which unless it is not a number is between the two, and
    the two are themselves outputs within the bounds as soon as one output there is a number. *)
Theorem the_extremes_are_exact members base b0 b1 b2 :
  Forall (fun m : Member => structure_error m.2 = Some (Ok ()) ∧ thresholds_ok m.2) members ->
  Forall (fun b => fltb f_minus_inf b.1 = true ∧ is_nan b.2 = false) [b0; b1; b2] ->
  match extremes members base [b0; b1; b2] with
  | Err problem => ∃ n, problem = Too_many_cells n ∧ MAX_REACHABILITY_CELLS < n
  | Ok (lowest, highest) =>
      (∀ x, within [b0; b1; b2] x -> ∃ v, output members base x = Some v ∧ (is_nan v = false -> fleb lowest v = true ∧ fleb v highest = true))
      ∧ (∀ x v, within [b0; b1; b2] x -> output members base x = Some v -> is_nan v = false ->
          (∃ p, within [b0; b1; b2] p ∧ output members base p = Some lowest) ∧ (∃ p, within [b0; b1; b2] p ∧ output members base p = Some highest))
  end.
Proof.
  intros Ht Hb. rewrite extremes_tried. cbn zeta. set (cells := _ * _ * _). destruct (Z.ltb_spec MAX_REACHABILITY_CELLS cells); [by eexists|].
  destruct (tried_outputs members base b0 b1 b2 Ht Hb) as (totals & -> & Hin & Hout). split.
  - intros x Hx. destruct (Hin x Hx) as (v & E & Hv). exists v. split; [done|]. intros Nv.
    destruct (foldl_py_min totals f_inf) as (_ & _ & _ & Al); [done|]. destruct (foldl_fmax totals f_minus_inf) as (_ & _ & _ & Ah); [done|]. auto.
  - intros x v Hx E Nv. destruct (Hin x Hx) as (v' & E' & Hv). simplify_eq. split; apply Hout; [by eapply foldl_py_min_reached|by eapply foldl_fmax_reached].
Qed.

Lemma the_extremes_are_exact_witness :
  let unit := (f_zero, f_one) in
  let members := [(f_one, little_tree)] in
  extremes members f_zero [(f_zero, f_of_Z 9); (f_zero, f_of_Z 9); unit] = Ok (f_zero, f_of_Z 2)
  ∧ ∃ v, output members f_zero [f_of_Z 5; f_one; f_one] = Some v ∧ (is_nan v = false -> fleb f_zero v = true ∧ fleb v (f_of_Z 2) = true).
Proof.
  cbn zeta. split; [by vm_compute|].
  pose proof (the_extremes_are_exact [(f_one, little_tree)] f_zero (f_zero, f_of_Z 9) (f_zero, f_of_Z 9) (f_zero, f_one)) as H.
  replace (extremes _ _ _) with (Ok (E := extremes_problem) (f_zero, f_of_Z 2)) in H by (by vm_compute).
  apply H; repeat constructor.
Defined.
