(* ===== verification/Attribution.v ===== *)
(** * Exact Shapley attribution of a sum of trees ([engine/model/attribution.py])

    The eight coalitions' values on every cell a tree's thresholds cut, and the table read that scores a pair. The
    [background] rows are [background.BACKGROUND]; [exp] is [math.exp]. *)
From S2P Require Import Prelude PyLib Floats Scoring Cart.

(** ** The registered background ([engine/model/background.py])

    Its rows, each number as the float its literal reads as: [q m e] is [m * 2^e]. *)

Definition q (m : positive) (e : Z) : float := S754_finite false m e.
Definition CORPUS_EVALUATED_PAIRS : Z := 194341.
Definition CORPUS_DISTINCT_VECTORS : Z := 133202.
Definition BACKGROUND_STRIDE : Z := 521.
Definition BACKGROUND : list (list float) :=
  [[q 7849318772157038 (-58); f_zero; f_zero];
   [q 7637147527421336 (-53); q 8578285004515230 (-53); f_one];
   [q 7662647198163995 (-53); q 7828907825893352 (-55); f_one];
   [q 7688231948652924 (-53); q 5816813529615878 (-54); f_one];
   [q 7713902185162030 (-53); q 5583245750951807 (-58); f_one];
   [q 7739658070510720 (-53); q 5706038758030642 (-55); f_one];
   [q 7765499951975795 (-53); q 6739612777693285 (-55); f_one];
   [q 7791428116688988 (-53); q 8843717425507208 (-55); f_one];
   [q 7817442914868192 (-53); q 6327342086229836 (-59); f_one];
   [q 7830482899771937 (-53); q 4930235689820861 (-57); f_one];
   [q 7856628035521693 (-53); q 5136842266166341 (-55); f_one];
   [q 7882860467052837 (-53); q 6085002723638163 (-55); f_one];
   [q 7909180485836543 (-53); q 8061520480630221 (-57); f_one];
   [q 7922373494760234 (-53); q 6629205521350027 (-54); f_one];
   [q 7948825443271202 (-53); q 8401793251409664 (-55); f_one];
   [q 7975365711978192 (-53); q 6763255992111207 (-56); f_one];
   [q 7988669122008631 (-53); q 6629205521350027 (-54); f_one];
   [q 8015342424450922 (-53); q 7823643849057035 (-55); f_one];
   [q 8042104786166080 (-53); q 6997649404471964 (-57); f_one];
   [q 8055519521156532 (-53); q 4959272724436883 (-54); f_one];
   [q 8082416029853535 (-53); q 4852851749255791 (-55); f_one];
   [q 8095898006525808 (-53); q 7151422513851188 (-54); f_one];
   [q 8122929334619630 (-53); q 6810103758134090 (-56); f_one];
   [q 8150050917395258 (-53); q 6997649404471964 (-57); f_one];
   [q 8163645648421556 (-53); q 4703861956122514 (-53); f_one];
   [q 8190903178566613 (-53); q 4802484651137241 (-54); f_one];
   [q 8204566118604641 (-53); q 7379879511159817 (-54); f_one];
   [q 8231960277775210 (-53); q 5457924183456565 (-55); f_one];
   [q 8245691703628830 (-53); q 4540383019409159 (-54); f_one];
   [q 8273223176681187 (-53); q 7264324911233984 (-57); f_one];
   [q 8287023365777853 (-53); q 8898038466512620 (-54); f_one];
   [q 8314692840781237 (-53); q 7714157079526349 (-55); f_one];
   [q 8328562269736945 (-53); q 4880544987243463 (-54); f_one];
   [q 8356370438649351 (-53); q 4768306913879411 (-56); f_one];
   [q 8370309321930076 (-53); q 8342689118354808 (-54); f_one];
   [q 8398256879735954 (-53); q 8460799779010472 (-58); f_one];
   [q 8412265698747762 (-53); q 7944657290567322 (-56); f_one];
   [q 8426297818381780 (-53); q 5083044088936650 (-53); f_one];
   [q 8454432315723685 (-53); q 5402204790576526 (-55); f_one];
   [q 8468534838884691 (-53); q 8767535630335560 (-56); f_one];
   [q 8482660818524369 (-53); q 7014635681778058 (-53); f_one];
   [q 8510983505829633 (-53); q 5092325061901579 (-55); f_one];
   [q 8525180359921265 (-53); q 5922348802482892 (-61); f_one];
   [q 8539400827390546 (-53); q 7111528735536227 (-53); f_one];
   [q 8567912963450534 (-53); q 5887370275836177 (-56); f_one];
   [q 8582204711241486 (-53); q 6883029592317400 (-54); f_one];
   [q 8596520366769024 (-53); q 4809026056266393 (-54); f_one];
   [q 8625223150247965 (-53); q 5457924183456565 (-55); f_one];
   [q 8639610563228846 (-53); q 5783660487154258 (-55); f_one];
   [q 8654021906540624 (-53); q 4644181988965950 (-53); f_one];
   [q 8668457357652565 (-53); q 5720146765412901 (-54); f_one];
   [q 8697400330392436 (-53); q 5679717291703266 (-55); f_one];
   [q 8711908139435012 (-53); q 5706038758030642 (-55); f_one];
   [q 8711908139435012 (-53); q 5610141324777328 (-54); f_one];
   [q 8711908139435012 (-53); q 6026838368675419 (-53); f_one];
   [q 8714812590093138 (-53); q 4514066547360884 (-55); f_one];
   [q 8717718009061935 (-53); q 6976437508418354 (-55); f_one];
   [q 8717718009061935 (-53); q 8428280609120487 (-54); f_one];
   [q 8720624396664229 (-53); q 8053131544607381 (-55); f_one];
   [q 8720624396664229 (-53); q 5563373550806162 (-53); f_one];
   [q 8723531753222950 (-53); q 8465244220316943 (-56); f_one];
   [q 8726440079061136 (-53); q 6476843463219221 (-57); f_one];
   [q 8726440079061136 (-53); q 6035632340487813 (-54); f_one];
   [q 8726440079061136 (-53); q 8632936760372050 (-53); f_one];
   [q 8729349374501936 (-53); q 4596154007730739 (-54); f_one];
   [q 8729349443876572 (-53); q 6694396065076295 (-55); f_one];
   [q 8732259639868603 (-53); q 6582952938259065 (-55); f_one];
   [q 8735170875484499 (-53); q 7076658625945853 (-55); f_one];
   [q 8735170875484499 (-53); q 6974409584115724 (-53); f_one];
   [q 8738083081673095 (-53); q 8538942111590419 (-55); f_one];
   [q 8738083151117141 (-53); q 7689728140373235 (-55); f_one];
   [q 8740996258757968 (-53); q 8060231376327702 (-56); f_one];
   [q 8740996328225166 (-53); q 6510456038886276 (-58); f_one];
   [q 8743910407062805 (-53); q 7630414276303459 (-55); f_one];
   [q 8743910476553161 (-53); q 7675985842437201 (-55); f_one];
   [q 8746825526911398 (-53); q 4813454801501196 (-54); f_one];
   [q 8746825596424922 (-53); q 5309901137359899 (-54); f_one];
   [q 8749741618627649 (-53); q 4671192450083696 (-54); f_one];
   [q 8752658682535568 (-53); q 6299517476140178 (-55); f_one];
   [q 8752658752095450 (-53); q 7923428584563200 (-55); f_one];
   [q 8755576718959273 (-53); q 6743467261526071 (-55); f_one];
   [q 8755576788542345 (-53); q 6747400272469508 (-56); f_one];
   [q 8755576788542345 (-53); q 8720491409613709 (-54); f_one];
   [q 8758495728222988 (-53); q 5488650104295904 (-53); f_one];
   [q 8761415710651049 (-53); q 6639464741260211 (-55); f_one];
   [q 8761415780280525 (-53); q 4911045636544912 (-54); f_one];
   [q 8764336666567896 (-53); q 4877440085624020 (-54); f_one];
   [q 8764336736220586 (-53); q 6020029223261971 (-54); f_one];
   [q 8767258596298080 (-53); q 4803782855073767 (-53); f_one];
   [q 8767258665973992 (-53); q 7997031316478772 (-54); f_one];
   [q 8770181569865400 (-53); q 6629870898307888 (-55); f_one];
   [q 8770181569865400 (-53); q 7457682975429800 (-54); f_one];
   [q 8773105378497200 (-53); q 7143517151572478 (-54); f_one];
   [q 8773105448219578 (-53); q 6712921482495323 (-54); f_one];
   [q 8776030301361399 (-53); q 6510456038886276 (-58); f_one];
   [q 8776030301361399 (-53); q 8187265168170448 (-54); f_one];
   [q 8778956129615848 (-53); q 5227682563782583 (-54); f_one];
   [q 8778956129615848 (-53); q 8751312912276760 (-53); f_one];
   [q 8781882933308015 (-53); q 6077905739917556 (-54); f_one];
   [q 8784810712763100 (-53); q 6483771898431725 (-59); f_one];
   [q 8784810712763100 (-53); q 6686710300982641 (-55); f_one];
   [q 8784810712763100 (-53); q 6294271895671829 (-53); f_one];
   [q 8787739468306412 (-53); q 5646719002927560 (-54); f_one];
   [q 8787739538145091 (-53); q 7122263489551103 (-55); f_one];
   [q 8790669200263367 (-53); q 6539336721685811 (-54); f_one];
   [q 8793599908959491 (-53); q 5815871794926747 (-59); f_one];
   [q 8793599908959491 (-53); q 6903264275701566 (-54); f_one];
   [q 8796531594720416 (-53); q 5021131706730030 (-54); f_one];
   [q 8796531664628969 (-53); q 6119539492232881 (-55); f_one];
   [q 8799464257871886 (-53); q 4548319459230840 (-54); f_one];
   [q 8799464257871886 (-53); q 5517026651821026 (-53); f_one];
   [q 8802397898739750 (-53); q 7204688917860711 (-62); f_one];
   [q 8802397898739750 (-53); q 4509413833172065 (-53); f_one];
   [q 8805332517649970 (-53); q 5103258040871289 (-54); f_one];
   [q 8805332587628466 (-53); q 4568045572611493 (-54); f_one];
   [q 8808268114928612 (-53); q 6020029223261971 (-54); f_one];
   [q 8808268184930437 (-53); q 6887276306498611 (-54); f_one];
   [q 8811204690901853 (-53); q 6119057302463680 (-54); f_one];
   [q 8814142245895980 (-53); q 6620868656035202 (-55); f_one];
   [q 8814142245895980 (-53); q 5113786401034176 (-53); f_one];
   [q 8814142315944489 (-53); q 6696920668575249 (-54); f_one];
   [q 8817080780237386 (-53); q 5851104757360501 (-54); f_one];
   [q 8817080850309249 (-53); q 6415683000551996 (-54); f_one];
   [q 8820020294252575 (-53); q 6119057302463680 (-54); f_one];
   [q 8822960788268159 (-53); q 6794057264088833 (-55); f_one];
   [q 8822960858386751 (-53); q 7535408224138050 (-55); f_one];
   [q 8825902262610858 (-53); q 7852496575237347 (-55); f_one];
   [q 8825902332752828 (-53); q 4587879533898340 (-54); f_one];
   [q 8828844717607503 (-53); q 6314594934443719 (-56); f_one];
   [q 8828844787772857 (-53); q 4680420267565665 (-56); f_one];
   [q 8828844787772857 (-53); q 6670125068509685 (-53); f_one];
   [q 8831788223773779 (-53); q 7411075882187921 (-55); f_one];
   [q 8831788223773779 (-53); q 8746875576858305 (-53); f_one];
   [q 8834732641082641 (-53); q 8639368630113813 (-55); f_one];
   [q 8837677969791045 (-53); q 5715904399436393 (-58); f_one];
   [q 8837678040026599 (-53); q 6686710300982641 (-55); f_one];
   [q 8840624420932921 (-53); q 6221732176383078 (-55); f_one];
   [q 8840624420932921 (-53); q 8888917132048435 (-54); f_one];
   [q 8843571784128980 (-53); q 5755961850234546 (-59); f_one];
   [q 8843571784128980 (-53); q 5796306946734588 (-54); f_one];
   [q 8843571784128980 (-53); q 8139678533799025 (-53); f_one];
   [q 8846520129942262 (-53); q 4693156986856114 (-55); f_one];
   [q 8849469458700358 (-53); q 6155453308434164 (-55); f_one];
   [q 8849469458700358 (-53); q 7397125010410586 (-54); f_one];
   [q 8852419770730973 (-53); q 6873983064614210 (-55); f_one];
   [q 8852419770730973 (-53); q 8150215712209177 (-54); f_one];
   [q 8855371066361918 (-53); q 8217945119384857 (-57); f_one];
   [q 8855371066361918 (-53); q 4942298269647178 (-53); f_one];
   [q 8858323345921113 (-53); q 8847725457912480 (-55); f_one];
   [q 8858323345921113 (-53); q 8668842757976708 (-54); f_one];
   [q 8861276609736590 (-53); q 6293737403658821 (-55); f_one];
   [q 8861276609736590 (-53); q 6964464430734569 (-54); f_one];
   [q 8864230858136488 (-53); q 5414188765513813 (-58); f_one];
   [q 8864230858136488 (-53); q 6805211524467916 (-54); f_one];
   [q 8867186091449056 (-53); q 4709677006467507 (-54); f_one];
   [q 8867186091449056 (-53); q 7429864781004968 (-53); f_one];
   [q 8870142310002653 (-53); q 4996514590403157 (-54); f_one];
   [q 8870142310002653 (-53); q 8741500161680786 (-53); f_one];
   [q 8873099514125747 (-53); q 8365201425177397 (-56); f_one];
   [q 8873099514125747 (-53); q 5757485515340527 (-53); f_one];
   [q 8876057704146916 (-53); q 7211364356804134 (-55); f_one];
   [q 8876057704146916 (-53); q 5689021600125853 (-53); f_one];
   [q 8879016880394847 (-53); q 7437269248551041 (-55); f_one];
   [q 8879016880394847 (-53); q 6634569450754587 (-53); f_one];
   [q 8881977043198336 (-53); q 8058571754623993 (-57); f_one];
   [q 8881977113785948 (-53); q 5276969404415415 (-56); f_one];
   [q 8884938192886291 (-53); q 6256500562003018 (-54); f_one];
   [q 8884938263497436 (-53); q 6153867182897139 (-54); f_one];
   [q 8887900329787726 (-53); q 5041198267438868 (-54); f_one];
   [q 8887900329787726 (-53); q 8591957867054044 (-53); f_one];
   [q 8887900400422412 (-53); q 6153143320494261 (-53); f_one];
   [q 8890863454231768 (-53); q 4803782855073767 (-53); f_one];
   [q 8893827566547652 (-53); q 7226017683591556 (-55); f_one];
   [q 8893827637229443 (-53); q 6787974399151504 (-55); f_one];
   [q 8896792667064723 (-53); q 7046623704085485 (-55); f_one];
   [q 8896792737770079 (-53); q 7224017535934481 (-55); f_one];
   [q 8899758756112436 (-53); q 8138701319205145 (-58); f_one];
   [q 8899758826841365 (-53); q 8381262836059817 (-56); f_one];
   [q 8902725834020357 (-53); q 5126377313683106 (-54); f_one];
   [q 8902725904772865 (-53); q 6919021182809854 (-55); f_one];
   [q 8902725904772865 (-53); q 5330194764404204 (-53); f_one];
   [q 8905693901118159 (-53); q 5044574529820520 (-53); f_one];
   [q 8905693971894256 (-53); q 7786063202945331 (-54); f_one];
   [q 8908662957735628 (-53); q 7256945879964759 (-53); f_one];
   [q 8908663028535320 (-53); q 4915346756482577 (-53); f_one];
   [q 8911633075025954 (-53); q 7535408224138050 (-55); f_one];
   [q 8911633075025954 (-53); q 6754389507532312 (-53); f_one];
   [q 8914604111696160 (-53); q 7612757190822246 (-55); f_one];
   [q 8914604111696160 (-53); q 6204395099345329 (-53); f_one];
   [q 8917576138876055 (-53); q 7062096402901293 (-58); f_one];
   [q 8917576138876055 (-53); q 5446230301856477 (-54); f_one];
   [q 8920549086001707 (-53); q 5662460905081042 (-54); f_one];
   [q 8920549156895862 (-53); q 6077905739917556 (-54); f_one];
   [q 8923523095168126 (-53); q 8750969707081059 (-55); f_one];
   [q 8923523166085916 (-53); q 5878781565733665 (-54); f_one];
   [q 8923523166085916 (-53); q 8762438405427378 (-53); f_one];
   [q 8926498166776663 (-53); q 7515465424818621 (-55); f_one];
   [q 8929474159298656 (-53); q 6777700991308306 (-55); f_one];
   [q 8929474159298656 (-53); q 7683800734956553 (-54); f_one];
   [q 8932451143982562 (-53); q 7710358238296320 (-56); f_one];
   [q 8932451143982562 (-53); q 5443556790461081 (-54); f_one];
   [q 8932451143982562 (-53); q 5684809918669405 (-53); f_one];
   [q 8935429121159155 (-53); q 5322179614129632 (-57); f_one];
   [q 8935429121159155 (-53); q 7504879573807993 (-54); f_one];
   [q 8938408091159322 (-53); q 8670954892251574 (-55); f_one];
   [q 8938408091159322 (-53); q 5864509110504120 (-53); f_one];
   [q 8941388054314058 (-53); q 7975040786312776 (-55); f_one];
   [q 8941388054314058 (-53); q 5386700469914222 (-53); f_one];
   [q 8944369010954471 (-53); q 6529315394375612 (-57); f_one];
   [q 8944369010954471 (-53); q 5962467673216552 (-53); f_one];
   [q 8947350961411775 (-53); q 7504190880930355 (-55); f_one];
   [q 8947350961411775 (-53); q 8617115524637782 (-54); f_one];
   [q 8947351032518932 (-53); q 6845148260332708 (-55); f_one];
   [q 8950333906017300 (-53); q 4548319459230840 (-54); f_one];
   [q 8950333906017300 (-53); q 8314337773607070 (-53); f_one];
   [q 8953317845102482 (-53); q 4963884761265716 (-56); f_one];
   [q 8953317916257060 (-53); q 6978716210351965 (-59); f_one];
   [q 8956302778998870 (-53); q 4998856479621253 (-54); f_one];
   [q 8956302850177170 (-53); q 6351928666392589 (-55); f_one];
   [q 8959288708038122 (-53); q 8322050822074680 (-55); f_one];
   [q 8959288708038122 (-53); q 8696606176991303 (-53); f_one];
   [q 8962275632552008 (-53); q 8098867760634281 (-58); f_one];
   [q 8962275632552008 (-53); q 4580612308218664 (-53); f_one];
   [q 8962275703777776 (-53); q 8641767256296231 (-55); f_one];
   [q 8965263552872407 (-53); q 5066077915418389 (-54); f_one];
   [q 8965263624121921 (-53); q 8166043217014443 (-55); f_one];
   [q 8968252469331310 (-53); q 7772940372244821 (-55); f_one];
   [q 8968252540604578 (-53); q 6461890848506213 (-55); f_one];
   [q 8971242382260819 (-53); q 6733915783221161 (-60); f_one];
   [q 8971242453557848 (-53); q 7317939789010642 (-58); f_one];
   [q 8974233291993144 (-53); q 7063536626722047 (-55); f_one];
   [q 8974233363313943 (-53); q 6993242713897350 (-55); f_one];
   [q 8974233363313943 (-53); q 8628248797613311 (-53); f_one];
   [q 8977225198860610 (-53); q 5688296471006257 (-53); f_one];
   [q 8977225270205186 (-53); q 4999781065456309 (-54); f_one];
   [q 8977225270205186 (-53); q 8234041984371243 (-53); f_one];
   [q 8980218174564010 (-53); q 5193222857396098 (-58); f_one];
   [q 8980218174564010 (-53); q 7757353280679826 (-53); f_one];
   [q 8983212076722960 (-53); q 6655513271185661 (-55); f_one];
   [q 8983212076722960 (-53); q 5910097429346068 (-53); f_one];
   [q 8986206905598733 (-53); q 8660768514174031 (-53); f_one];
   [q 8986206977014690 (-53); q 8005061492979736 (-54); f_one];
   [q 8989202804332201 (-53); q 8314792104388790 (-54); f_one];
   [q 8989202875771967 (-53); q 4930714224308672 (-54); f_one];
   [q 8992199701864084 (-53); q 4595821813651518 (-53); f_one];
   [q 8992199773327667 (-53); q 4572211243868044 (-54); f_one];
   [q 8992199773327667 (-53); q 5435641316816881 (-53); f_one];
   [q 8995197598527372 (-53); q 4595821813651518 (-53); f_one];
   [q 8995197670014780 (-53); q 5962308574730302 (-54); f_one];
   [q 8995197670014780 (-53); q 8741500161680786 (-53); f_one];
   [q 8998196566166403 (-53); q 4688166284359164 (-55); f_one];
   [q 8998196566166403 (-53); q 8583659510993409 (-53); f_one];
   [q 9001196462115746 (-53); q 5111560375063283 (-54); f_one];
   [q 9001196462115746 (-53); q 7352371328909850 (-53); f_one];
   [q 9004197358196132 (-53); q 8259828577736855 (-55); f_one];
   [q 9004197358196132 (-53); q 5011028152734324 (-53); f_one]].

(** The stride is the one that leaves 256 rows of the corpus's distinct vectors. *)
Example background_size : (Z.of_nat (length BACKGROUND), (CORPUS_DISTINCT_VECTORS + BACKGROUND_STRIDE - 1) / BACKGROUND_STRIDE) = (256, 256).
Proof. vm_compute. reflexivity. Qed.

(** ** Shapley values *)

Definition FULL : Z := 7.
Definition SHAPLEY_WEIGHT : list float := [f_lit 1 3; f_lit 1 6; f_lit 1 3].
Definition MAX_CELLS_PER_TREE : Z := 4096.
Definition FEATURES : list Z := [0; 1; 2].
(** The eight coalitions. *)
Definition SUBSETS : list Z := [0; 1; 2; 3; 4; 5; 6; 7].

(** One leaf: its value and its box. *)
Definition Leaf : Type := float * list (float * float).

(** [bisect.bisect_left]: the first place [x] could be inserted; [length l] steps are enough. *)
Fixpoint bisect (fuel : nat) (l : list float) (x : float) (lo hi : nat) : nat :=
  match fuel with
  | O => lo
  | S fuel =>
      if Nat.ltb lo hi then
        let mid := Nat.div (lo + hi) 2 in
        if fltb (nth mid l f_zero) x then bisect fuel l x (S mid) hi else bisect fuel l x lo mid
      else lo
  end.
Definition bisect_left (l : list float) (x : float) : nat := bisect (S (length l)) l x 0 (length l).

Definition span_of (box : list (float * float)) (f : Z) : float * float := nth (Z.to_nat f) box (f_minus_inf, f_inf).
Definition part (x : list float) (f : Z) : float := nth (Z.to_nat f) x f_zero.

(** [mask |= 1 << feature] for the features that satisfy. *)
Definition mask_of (satisfied : Z -> bool) : Z := foldl (fun mask f => if satisfied f then Z.lor mask (Z.shiftl 1 f) else mask) 0 FEATURES.
Definition covers (mask subset : Z) : bool := Z.land mask subset =? subset.

Definition cuts_for (leaves : list Leaf) (f : Z) : list float :=
  sort_by fleb (distinct (flat_map (fun e : Leaf => List.filter f_finite [(span_of e.2 f).1; (span_of e.2 f).2]) leaves)).
Definition index_box (box : list (float * float)) (cuts : Z -> list float) (f : Z) : Z * Z :=
  let '(low, high) := span_of box f in
  let column := cuts f in
  (if negb (f_finite low) then -1 else Z.of_nat (bisect_left column low),
   if negb (f_finite high) then Z.of_nat (length column) else Z.of_nat (bisect_left column high)).
Definition cell_mask (bound : Z -> Z * Z) (cell : Z -> Z) : Z := mask_of (fun f => ((bound f).1 <? cell f) && (cell f <=? (bound f).2)).

Definition in_span (b : float * float) (v : float) : bool := fltb b.1 v && fleb v b.2.

(** Python's [sum] of integers. *)
Definition sum_Z (l : list Z) : Z := foldl Z.add 0 l.

Section table.
Context (background : list (list float)).

(** The count of the background rows by the mask of the features each satisfies. *)
Definition counts_of (box : list (float * float)) : list Z :=
  foldl (fun counts row => alter (fun n => n + 1) (Z.to_nat (mask_of (fun f => in_span (span_of box f) (part row f)))) counts) (replicate 8 0) background.
Definition background_fractions (box : list (float * float)) : list float :=
  let counts := counts_of box in
  map (fun subset => let complement := Z.lxor FULL subset in
    fdiv (f_of_Z (sum_Z (omap (fun e : Z * Z => if covers e.1 complement then Some e.2 else None) (zip SUBSETS counts)))) (f_of_Z (Z.of_nat (length background)))) SUBSETS.

Definition popcount (s : Z) : nat := length (List.filter (fun f => Z.testbit s f) FEATURES).
Definition shapley_of (coalition : list float) (f : Z) : float :=
  let bit := Z.shiftl 1 f in
  foldl (fun value subset =>
    if negb (Z.land subset bit =? 0) then value
    else fadd value (fmul (nth (popcount subset) SHAPLEY_WEIGHT f_zero) (fsub (nth (Z.to_nat (Z.lor subset bit)) coalition f_zero) (nth (Z.to_nat subset) coalition f_zero)))) f_zero SUBSETS.
Definition shapley (coalition : list float) : list float := map (shapley_of coalition) FEATURES.

Record Table := MkTable { cuts : list (list float); strides : list nat; cells : list (list float) }.

(** One leaf as the table's loop has it: its value, its eight fractions, its mask on the cell. *)
Definition coalition_value (terms : list (float * list float * Z)) (subset : Z) : float :=
  py_sum (omap (fun e : float * list float * Z => let '(value, fraction, mask) := e in
    if covers mask subset then Some (fmul value (nth (Z.to_nat subset) fraction f_zero)) else None) terms).
Definition coalition_of (terms : list (float * list float * Z)) : list float := map (coalition_value terms) SUBSETS.

Inductive attribution_error := Cells (n : Z).

Definition table_for (leaves : list Leaf) (weight : float) : res attribution_error (Table * float) :=
  let column := cuts_for leaves in
  let size f := S (length (column f)) in
  let total_cells := Z.of_nat (size 0) * Z.of_nat (size 1) * Z.of_nat (size 2) in
  if MAX_CELLS_PER_TREE <? total_cells then Err (Cells total_cells)
  else
    let bounds := map (fun e : Leaf => index_box e.2 column) leaves in
    let fractions := map (fun e : Leaf => background_fractions e.2) leaves in
    let member_base := py_sum (zip_with (fun (e : Leaf) fraction => fmul e.1 (nth 0 fraction f_zero)) leaves fractions) in
    let cell i j k :=
      let place f := if f =? 0 then Z.of_nat i else if f =? 1 then Z.of_nat j else Z.of_nat k in
      let masks := map (fun b => cell_mask b place) bounds in
      let phi := shapley (coalition_of (zip (zip (map fst leaves) fractions) masks)) in
      map (fun v => fmul weight v) phi in
    let all := flat_map (fun i => flat_map (fun j => map (fun k => cell i j k) (seq 0 (size 2))) (seq 0 (size 1))) (seq 0 (size 0)) in
    Ok (MkTable [column 0; column 1; column 2] [Nat.mul (size 1) (size 2); size 2; 1%nat] all, fmul weight member_base).

Record Explainer := MkExplainer { base_value : float; tables : list Table }.
Definition build (members : list (float * list Leaf)) (base_score : float) : res attribution_error Explainer :=
  foldl (fun (acc : res attribution_error Explainer) (m : float * list Leaf) =>
    acc ← acc; '(table, member_base) ← table_for m.2 m.1; Ok (MkExplainer (fadd (base_value acc) member_base) (tables acc ++ [table])))
    (Ok (MkExplainer base_score [])) members.
End table.

(** [explain]: three searches and a read per tree; a read out of range, which raises, is [None]. *)
Definition read (t : Table) (x : list float) : option (list float) :=
  cells t !! (bisect_left (nth 0 (cuts t) []) (part x 0) * nth 0 (strides t) 0
              + bisect_left (nth 1 (cuts t) []) (part x 1) * nth 1 (strides t) 0
              + bisect_left (nth 2 (cuts t) []) (part x 2))%nat.
Definition accumulate (acc : list float) (phi : list float) : list float := zip_with fadd acc phi.
Definition total_of (base : float) (phi : list float) : float := fadd (fadd (fadd (part phi 0) (part phi 1)) (part phi 2)) base.
Definition explain (e : Explainer) (x : list float) : option (float * list float) :=
  phis ← mapM (fun t => read t x) (tables e);
  let phi := foldl accumulate [f_zero; f_zero; f_zero] phis in Some (total_of (base_value e) phi, phi).

(** ** The scorer *)

Section scorer.
Context (exp : float -> float).

Definition TAU0_S : float := f_of_Z 30.
Definition FEATURE_NAMES : list string := ["decay"; "class_affinity"; "entity_affinity"]%string.
Definition BASIS_SHAPLEY : string := "shapley".
Definition feature_vector (delta_t_s class_affinity entity_affinity : float) : list float :=
  [exp (fdiv (fopp (SFabs delta_t_s)) TAU0_S); class_affinity; entity_affinity].

Record AttributedScorer := MkAttributed { explainer : Explainer; at_threshold : float; scorer_id : string; at_contract : string; params_document : string; at_fingerprint : string }.
Definition attributed_score (s : AttributedScorer) (f : LinkFeatures) : option LinkScore :=
  let values := feature_vector (delta_t_s f) (class_affinity f) (entity_affinity f) in
  '(total, contributions) ← explain (explainer s) values;
  Some (MkScore (fltb (at_threshold s) total) total (at_threshold s)
    (zip_with (fun (nv : string * float) c => MkTerm nv.1 f_zero nv.2 c) (zip FEATURE_NAMES values) contributions) BASIS_SHAPLEY (base_value (explainer s))).
End scorer.
