(* ===== verification/AttributionLaws.v ===== *)
(** * The table says what the trees say ([engine/model/attribution.py])

    The table read of a pair is the Shapley formula over the boxes that hold it: the searches find the pair's cell, the
    cell's masks are the pair's, and the background counts are the rows off each coalition. *)
From S2P Require Import Prelude PyLib Floats Scoring Cart CartLaws Attribution.

(** ** The binary search *)

(** [r] is where the elements below [x] end. *)
Definition cut_at (l : list float) (x : float) (r : nat) : Prop := (r <= length l)%nat ∧ ∀ i v, l !! i = Some v -> fltb v x = Nat.ltb i r.
Definition ascends (l : list float) : Prop := StronglySorted (fun a b => fleb a b = true) l.

Lemma ascends_lookup l i j a b : ascends l -> l !! i = Some a -> l !! j = Some b -> (i < j)%nat -> fleb a b = true.
Proof.
  intros S. revert i j. induction S as [|c l S IH F]; [done|]. intros [|i] [|j]; cbn; intros Ei Ej L; [lia| |lia|apply (IH i j); [done..|lia]].
  injection Ei as <-. rewrite Forall_forall in F. apply F. by eapply list_elem_of_lookup_2.
Qed.

Lemma bisect_cut fuel l x lo hi : ascends l -> (lo <= hi)%nat -> (hi <= length l)%nat -> (hi - lo < fuel)%nat ->
  (∀ i v, l !! i = Some v -> (i < lo)%nat -> fltb v x = true) -> (∀ i v, l !! i = Some v -> (hi <= i)%nat -> fltb v x = false) ->
  cut_at l x (bisect fuel l x lo hi).
Proof.
  intros S. revert lo hi. induction fuel as [|fuel IH]; intros lo hi L1 L2 Lf Hlo Hhi; [lia|]. cbn [bisect]. destruct (Nat.ltb_spec lo hi) as [L|L].
  - set (mid := Nat.div (lo + hi) 2). assert (lo <= mid < hi)%nat as Hm.
    { unfold mid. pose proof (Nat.div_mod_eq (lo + hi) 2). pose proof (Nat.mod_upper_bound (lo + hi) 2). lia. }
    destruct (lookup_lt_is_Some_2 l mid) as [m Em]; [lia|]. rewrite (nth_lookup_Some _ _ _ _ Em). destruct (fltb m x) eqn:E.
    + apply IH; [lia|done|lia| |done]. intros i v Ei Li. destruct (Nat.eq_dec i mid) as [->|]; [by simplify_eq|].
      apply (fleb_ltb_trans _ m); [|done]. apply (ascends_lookup l i mid); [done..|lia].
    + apply IH; [lia|lia|lia|done|]. intros i v Ei Li. destruct (Nat.eq_dec i mid) as [->|]; [by simplify_eq|].
      apply not_true_iff_false. intros H. apply not_true_iff_false in E. apply E. apply (fleb_ltb_trans _ v); [|done]. apply (ascends_lookup l mid i); [done..|lia].
  - assert (lo = hi) as -> by lia. split; [lia|]. intros i v Ei. destruct (Nat.ltb_spec i hi); [by eapply Hlo|by eapply Hhi].
Qed.
Lemma bisect_left_cut l x : ascends l -> cut_at l x (bisect_left l x).
Proof.
  intros S. apply bisect_cut; [done|lia|lia|lia|intros; lia|]. intros i v E%lookup_lt_Some L. lia.
Qed.

(** The place of [x] is above that of a cut exactly when [x] is above the cut. *)
Lemma bisect_above l c x : ascends l -> (∃ c', c' ∈ l ∧ feqb c c' = true) -> is_nan x = false ->
  Nat.ltb (bisect_left l c) (bisect_left l x) = fltb c x.
Proof.
  intros S (c' & [p Ep]%list_elem_of_lookup & E) Nx. destruct (bisect_left_cut l c S) as [La Ha], (bisect_left_cut l x S) as [Lx Hx].
  assert (is_nan c = false) as Nc by (apply feqb_leb in E as [[? _]%fleb_not_nan _]; done).
  destruct (Nat.ltb_spec (bisect_left l c) (bisect_left l x)) as [L|L].
  - destruct (lookup_lt_is_Some_2 l (bisect_left l c)) as [v Ev]; [lia|]. symmetry. pose proof (Ha _ _ Ev) as H1. rewrite Nat.ltb_irrefl in H1.
    pose proof (Hx _ _ Ev) as H2. rewrite (proj2 (Nat.ltb_lt _ _) L) in H2. pose proof (fltb_not_nan _ _ H2) as [Nv _].
    rewrite fltb_fleb_total in H1 by done. apply negb_false_iff in H1. by eapply fleb_ltb_trans.
  - symmetry. apply not_true_iff_false. intros H. rewrite feqb_sym in E. pose proof (Ha _ _ Ep) as H1. rewrite (feqb_not_lt _ _ E) in H1.
    pose proof (Hx _ _ Ep) as H2. rewrite (feqb_ltb_trans _ _ _ E H) in H2. symmetry in H1, H2. apply Nat.ltb_lt in H2. apply Nat.ltb_ge in H1. lia.
Qed.

(** ** The cells *)

(** A box's ends are thresholds, or none. *)
Definition ends_ok (box : list (float * float)) : bool :=
  forallb (fun f => (feqb (span_of box f).1 f_minus_inf || f_finite (span_of box f).1) && (feqb (span_of box f).2 f_inf || f_finite (span_of box f).2)) FEATURES.
Definition above_minus_inf (x : list float) : bool := forallb (fun f => fltb f_minus_inf (part x f)) FEATURES.
Lemma feqb_inf s v : feqb v (S754_infinity s) = true -> v = S754_infinity s.
Proof. by destruct v as [[]|[]| |[] m e], s. Qed.

Lemma finite_not_nan v : f_finite v = true -> is_nan v = false.
Proof. by destruct v. Qed.

Lemma finite_distinct leaves f v : v ∈ cuts_for leaves f -> f_finite v = true.
Proof.
  unfold cuts_for. rewrite elem_of_sort_by. intros (e & He & H)%distinct_subset%list_elem_of_In%in_flat_map. by apply filter_In in H as [_ ?].
Qed.
Lemma cuts_for_ascend leaves f : ascends (cuts_for leaves f).
Proof.
  apply (sort_by_sorted fleb (fun v => is_nan v = false)); [|apply fleb_total|apply fleb_trans].
  rewrite Forall_forall. intros v Hv. apply finite_not_nan, (finite_distinct leaves f). unfold cuts_for. by apply elem_of_sort_by.
Qed.
Lemma end_is_cut leaves e f v : e ∈ leaves -> f_finite v = true -> v = (span_of e.2 f).1 ∨ v = (span_of e.2 f).2 ->
  ∃ c, c ∈ cuts_for leaves f ∧ feqb v c = true.
Proof.
  intros He Fv Hv. destruct (distinct_meets (flat_map (fun e : Leaf => List.filter f_finite [(span_of e.2 f).1; (span_of e.2 f).2]) leaves) v) as (c & Hc & E).
  - apply list_elem_of_In, in_flat_map. exists e. split; [by apply list_elem_of_In|]. apply filter_In. split; [|done]. destruct Hv as [->| ->]; [by left|right; by left].
  - by apply finite_not_nan.
  - exists c. split; [|done]. unfold cuts_for. by apply elem_of_sort_by.
Qed.

Lemma FEATURES_in f : f ∈ FEATURES ↔ f = 0 ∨ f = 1 ∨ f = 2.
Proof. unfold FEATURES. rewrite !elem_of_cons, elem_of_nil. naive_solver. Qed.
Lemma mask_of_ext g h : (∀ f, f ∈ FEATURES -> g f = h f) -> mask_of g = mask_of h.
Proof. intros H. unfold mask_of, FEATURES. cbn. rewrite !H by (apply FEATURES_in; auto). done. Qed.

(** The cell a pair falls in satisfies of a leaf what the pair does. *)
Lemma cell_of_pair leaves e x : e ∈ leaves -> ends_ok e.2 = true -> above_minus_inf x = true ->
  cell_mask (index_box e.2 (cuts_for leaves)) (fun f => Z.of_nat (bisect_left (cuts_for leaves f) (part x f))) = mask_of (fun f => in_span (span_of e.2 f) (part x f)).
Proof.
  intros He Ho Hx. apply mask_of_ext. intros f Hf. unfold ends_ok, above_minus_inf in *. rewrite forallb_forall in Ho. rewrite forallb_forall in Hx.
  apply list_elem_of_In in Hf. specialize (Ho f Hf). specialize (Hx f Hf). apply andb_prop in Ho as [Hl%orb_prop Hh%orb_prop].
  pose proof (fltb_not_nan _ _ Hx) as [_ Nx]. unfold index_box, in_span. destruct (span_of e.2 f) as [low high] eqn:Es. cbn [fst snd] in *.
  pose proof (cuts_for_ascend leaves f) as S. destruct (bisect_left_cut _ (part x f) S) as [Lc _]. f_equal.
  - destruct (f_finite low) eqn:Fl; cbn [negb].
    + rewrite <- (bisect_above (cuts_for leaves f) low) by (done || (eapply end_is_cut; [done|done|rewrite Es; by left])).
      destruct (Nat.ltb_spec (bisect_left (cuts_for leaves f) low) (bisect_left (cuts_for leaves f) (part x f))); lia.
    + destruct Hl as [->%feqb_inf|?]; [|congruence]. fold f_minus_inf. rewrite Hx. lia.
  - destruct (f_finite high) eqn:Fh; cbn [negb].
    + assert (fleb (part x f) high = negb (fltb high (part x f))) as -> by (rewrite fltb_fleb_total, negb_involutive by (done || by apply finite_not_nan); done).
      rewrite <- (bisect_above (cuts_for leaves f) high) by (done || (eapply end_is_cut; [done|done|rewrite Es; by right])).
      destruct (Nat.ltb_spec (bisect_left (cuts_for leaves f) high) (bisect_left (cuts_for leaves f) (part x f))); lia.
    + destruct Hh as [->%feqb_inf|?]; [|congruence]. transitivity true; [lia|]. symmetry. revert Nx. by destruct (part x f) as [[]|[]| |[] m k].
Qed.

Lemma flat_map_lookup {A} (F : nat -> list A) m a n i j : (∀ i, length (F i) = m) -> (i < n)%nat -> (j < m)%nat ->
  flat_map F (seq a n) !! (i * m + j)%nat = F (a + i)%nat !! j.
Proof.
  intros L. revert a i. induction n as [|n IH]; intros a i Li Lj; [lia|]. cbn [seq flat_map]. destruct i as [|i].
  - rewrite Nat.add_0_r. cbn [Nat.mul Nat.add]. apply lookup_app_l. by rewrite L.
  - rewrite lookup_app_r by (rewrite L; lia). rewrite L. replace (S i * m + j - m)%nat with (i * m + j)%nat by lia. rewrite IH by lia. f_equal. f_equal. lia.
Qed.
Lemma flat_map_length {A} (F : nat -> list A) m a n : (∀ i, length (F i) = m) -> length (flat_map F (seq a n)) = (n * m)%nat.
Proof. intros L. revert a. induction n as [|n IH]; intros a; cbn; [done|]. rewrite length_app, L, IH. lia. Qed.

(** ** The background *)

Section background.
Context (background : list (list float)).

(** A row satisfies the leaf on every feature of a coalition. *)
Definition satisfies (box : list (float * float)) (x : list float) (subset : Z) : bool :=
  forallb (fun f => implb (Z.testbit subset f) (in_span (span_of box f) (part x f))) FEATURES.
(** The fraction of the background inside the leaf off a coalition. *)
Definition share (box : list (float * float)) (subset : Z) : float :=
  fdiv (f_of_Z (Z.of_nat (length (List.filter (fun row => satisfies box row (Z.lxor FULL subset)) background)))) (f_of_Z (Z.of_nat (length background))).

Lemma SUBSETS_in s : s ∈ SUBSETS -> s = 0 ∨ s = 1 ∨ s = 2 ∨ s = 3 ∨ s = 4 ∨ s = 5 ∨ s = 6 ∨ s = 7.
Proof. unfold SUBSETS. rewrite !elem_of_cons, elem_of_nil. naive_solver. Qed.
Lemma covers_satisfies g s : s ∈ SUBSETS -> covers (mask_of g) s = forallb (fun f => implb (Z.testbit s f) (g f)) FEATURES.
Proof.
  intros Hs. unfold mask_of, FEATURES. cbn [foldl forallb]. destruct (g 0), (g 1), (g 2);
    destruct (SUBSETS_in s Hs) as [->|[->|[->|[->|[->|[->|[->| ->]]]]]]]; reflexivity.
Qed.
Lemma mask_of_range g : mask_of g ∈ SUBSETS.
Proof. unfold mask_of, FEATURES, SUBSETS. cbn [foldl]. destruct (g 0), (g 1), (g 2); cbn; set_solver. Qed.
Lemma complement_in s : s ∈ SUBSETS -> Z.lxor FULL s ∈ SUBSETS.
Proof. intros Hs. destruct (SUBSETS_in s Hs) as [->|[->|[->|[->|[->|[->|[->| ->]]]]]]]; cbn; unfold SUBSETS; set_solver. Qed.

Definition covered (complement : Z) (counts : list Z) : Z := sum_Z (omap (fun e : Z * Z => if covers e.1 complement then Some e.2 else None) (zip SUBSETS counts)).
Lemma covered_alter m comp counts : m ∈ SUBSETS -> comp ∈ SUBSETS -> length counts = 8%nat ->
  covered comp (alter (fun n => n + 1) (Z.to_nat m) counts) = covered comp counts + Z.b2z (covers m comp).
Proof.
  intros Hm Hc L. destruct counts as [|c0 [|c1 [|c2 [|c3 [|c4 [|c5 [|c6 [|c7 [|]]]]]]]]]; try done. unfold covered, sum_Z.
  destruct (SUBSETS_in comp Hc) as [->|[->|[->|[->|[->|[->|[->| ->]]]]]]];
    destruct (SUBSETS_in m Hm) as [->|[->|[->|[->|[->|[->|[->| ->]]]]]]]; cbv -[Z.add]; lia.
Qed.
Lemma counts_covered box comp rows counts : comp ∈ SUBSETS -> length counts = 8%nat ->
  covered comp (foldl (fun counts row => alter (fun n => n + 1) (Z.to_nat (mask_of (fun f => in_span (span_of box f) (part row f)))) counts) counts rows)
  = covered comp counts + Z.of_nat (length (List.filter (fun row => satisfies box row comp) rows)).
Proof.
  intros Hc. revert counts. induction rows as [|row rows IH]; intros counts L; cbn [foldl List.filter]; [cbn; lia|].
  rewrite IH by (by rewrite length_alter). rewrite covered_alter by (done || apply mask_of_range). rewrite covers_satisfies by done.
  unfold satisfies at 2. destruct (forallb _ FEATURES); cbn; lia.
Qed.

Lemma fractions_share box s : s ∈ SUBSETS -> nth (Z.to_nat s) (background_fractions background box) f_zero = share box s.
Proof.
  intros Hs. assert (∀ comp, comp ∈ SUBSETS -> sum_Z (omap (fun e : Z * Z => if covers e.1 comp then Some e.2 else None) (zip SUBSETS (counts_of background box)))
    = Z.of_nat (length (List.filter (fun row => satisfies box row comp) background))) as H.
  { intros comp Hc. unfold counts_of. pose proof (counts_covered box comp background (replicate 8 0) Hc eq_refl) as E.
    assert (covered comp (replicate 8 0) = 0) as Z0 by (destruct (SUBSETS_in comp Hc) as [->|[->|[->|[->|[->|[->|[->| ->]]]]]]]; reflexivity).
    rewrite Z0 in E. exact E. }
  unfold background_fractions, share. rewrite <- H by (by apply complement_in).
  destruct (SUBSETS_in s Hs) as [->|[->|[->|[->|[->|[->|[->| ->]]]]]]]; reflexivity.
Qed.
End background.

(** ** The explanation, computed from the boxes *)

Section direct.
Context (background : list (list float)).

(** What the coalition [subset] is worth at [x]: the leaves that hold [x] on it, each by its share of the background off it. *)
Definition v_of (leaves : list Leaf) (x : list float) (subset : Z) : float :=
  py_sum (map (fun e : Leaf => fmul e.1 (share background e.2 subset)) (List.filter (fun e : Leaf => satisfies e.2 x subset) leaves)).
Definition phi_of (leaves : list Leaf) (x : list float) : list float := shapley (map (v_of leaves x) SUBSETS).
Definition direct (members : list (float * list Leaf)) (base_score : float) (x : list float) : float * list float :=
  let phi := foldl accumulate [f_zero; f_zero; f_zero] (map (fun m : float * list Leaf => map (fun v => fmul m.1 v) (phi_of m.2 x)) members) in
  let base := foldl (fun b (m : float * list Leaf) => fadd b (fmul m.1 (v_of m.2 x 0))) base_score members in
  (total_of base phi, phi).

Lemma coalition_direct leaves x (bound : Leaf -> Z) s : s ∈ SUBSETS ->
  (∀ e, e ∈ leaves -> bound e = mask_of (fun f => in_span (span_of e.2 f) (part x f))) ->
  coalition_value (zip (zip (map fst leaves) (map (fun e : Leaf => background_fractions background e.2) leaves)) (map bound leaves)) s = v_of leaves x s.
Proof.
  intros Hs H. unfold coalition_value, v_of. f_equal. induction leaves as [|e leaves IH]; [done|].
  cbn [map zip zip_with omap list_omap List.filter]. rewrite (H e) by (by left). rewrite covers_satisfies by done. fold (satisfies e.2 x s).
  assert (∀ e', e' ∈ leaves -> bound e' = mask_of (fun f => in_span (span_of e'.2 f) (part x f))) as H' by (intros; apply H; by right).
  specialize (IH H'). destruct (satisfies e.2 x s); cbn [map]; rewrite IH; [|done]. by rewrite fractions_share.
Qed.
Lemma satisfies_none box x : satisfies box x 0 = true.
Proof. reflexivity. Qed.
Lemma base_direct leaves x : py_sum (zip_with (fun (e : Leaf) fraction => fmul e.1 (nth 0 fraction f_zero)) leaves (map (fun e : Leaf => background_fractions background e.2) leaves)) = v_of leaves x 0.
Proof.
  unfold v_of. f_equal. induction leaves as [|e leaves IH]; [done|]. cbn [zip_with map List.filter]. rewrite satisfies_none. cbn [map]. f_equal; [|exact IH].
  f_equal. apply (fractions_share background e.2 0). unfold SUBSETS. by left.
Qed.

Lemma cell_below a b n m : (a < n)%nat -> (b < m)%nat -> (a * m + b < n * m)%nat.
Proof. nia. Qed.
(** One tree's table. *)
Lemma table_direct leaves weight t base x : table_for background leaves weight = Ok (t, base) -> Forall (fun e : Leaf => ends_ok e.2 = true) leaves -> above_minus_inf x = true ->
  read t x = Some (map (fun v => fmul weight v) (phi_of leaves x)) ∧ base = fmul weight (v_of leaves x 0).
Proof.
  intros H Ho Hx. rewrite Forall_forall in Ho. unfold table_for in H. destruct (_ <? _); [done|].
  assert (∀ a b : Table * float, Ok (E := attribution_error) a = Ok b -> a = b) as Inj by (intros ? ? [=]; done). apply Inj, pair_eq in H as [<- <-]. split; [|by rewrite base_direct with (x := x)].
  unfold read. cbn [nth cuts strides cells]. set (c := cuts_for leaves).
  pose proof (λ f, bisect_left_cut (c f) (part x f) (cuts_for_ascend leaves f)) as HL.
  assert (∀ f, (bisect_left (c f) (part x f) < S (length (c f)))%nat) as HB by (intros f; destruct (HL f); lia).
  set (s1 := S (length (c 1))). set (s2 := S (length (c 2))).
  assert (∀ F : nat -> list float, length (map F (seq 0 s2)) = s2) as L1 by (intros; by rewrite length_map, length_seq).
  rewrite <- Nat.add_assoc, (flat_map_lookup _ (s1 * s2)); [|intros i; apply flat_map_length; intros j; apply L1|apply HB|apply (cell_below _ _ _ _ (HB 1) (HB 2))].
  rewrite (flat_map_lookup _ s2); [|intros; apply L1|apply HB|apply HB].
  rewrite list_lookup_fmap, lookup_seq_lt by apply HB. cbn [fmap option_fmap option_map]. rewrite !Nat.add_0_l. do 2 f_equal. unfold phi_of, coalition_of. f_equal.
  apply map_ext_in. intros s Hs%list_elem_of_In. rewrite map_map. apply coalition_direct; [done|]. intros e He.
  rewrite <- (cell_of_pair leaves e x He (Ho e He) Hx). apply mask_of_ext. intros f Hf. apply FEATURES_in in Hf as [->|[->| ->]]; reflexivity.
Qed.

Lemma build_direct members x : above_minus_inf x = true -> Forall (fun m : float * list Leaf => Forall (fun e : Leaf => ends_ok e.2 = true) m.2) members ->
  ∀ acc e, foldl (fun (acc : res attribution_error Explainer) (m : float * list Leaf) =>
    acc ← acc; '(table, member_base) ← table_for background m.2 m.1; Ok (MkExplainer (fadd (base_value acc) member_base) (tables acc ++ [table]))) (Ok acc) members = Ok e ->
  ∃ ts, tables e = tables acc ++ ts ∧ mapM (fun t => read t x) ts = Some (map (fun m : float * list Leaf => map (fun v => fmul m.1 v) (phi_of m.2 x)) members)
  ∧ base_value e = foldl (fun b (m : float * list Leaf) => fadd b (fmul m.1 (v_of m.2 x 0))) (base_value acc) members.
Proof.
  intros Hx. induction members as [|m members IH]; intros F acc e H; cbn [foldl] in H.
  - injection H as <-. exists []. by rewrite app_nil_r.
  - apply Forall_cons in F as [Fm F]. cbn [mbind res_bind] in H. destruct (table_for background m.2 m.1) as [[t base]|p] eqn:E; cbn [mbind res_bind] in H.
    + destruct (table_direct _ _ _ _ x E Fm Hx) as [R ->]. destruct (IH F _ _ H) as (ts & Et & Er & Eb). cbn [tables base_value] in *.
      exists (t :: ts). split_and!; [by rewrite Et, <- app_assoc| |by rewrite Eb]. cbn [mapM map]. rewrite R. cbn. by rewrite Er.
    + exfalso. clear -H. induction members as [|m' members IH]; [done|]. by apply IH.
Qed.

(** C26: The table read: for boxes whose ends are thresholds and features above minus infinity, an explainer that was built
    answers, and its score and its three contributions are, bit for bit, the Shapley formula over the boxes that hold the pair. *)
Theorem the_table_explains_the_boxes members base_score x e :
  build background members base_score = Ok e -> Forall (fun m : float * list Leaf => Forall (fun l : Leaf => ends_ok l.2 = true) m.2) members -> above_minus_inf x = true ->
  explain e x = Some (direct members base_score x).
Proof.
  intros H F Hx. destruct (build_direct members x Hx F _ _ H) as (ts & Et & Er & Eb). cbn [tables base_value app] in *.
  unfold explain. rewrite Et, Er. cbn [mbind option_bind]. by rewrite Eb.
Qed.
End direct.

Definition two_rows_background : list (list float) := [[f_zero; f_zero; f_zero]; [f_of_Z 5; f_one; f_zero]].
Definition little_leaves : list Leaf := default [] (leaves little_tree).
Lemma the_table_explains_the_boxes_witness :
  match build two_rows_background [(f_one, little_leaves)] f_zero with
  | Ok e => explain e [f_of_Z 4; f_of_Z 2; f_zero] = Some (direct two_rows_background [(f_one, little_leaves)] f_zero [f_of_Z 4; f_of_Z 2; f_zero])
  | Err _ => False
  end.
Proof.
  destruct (build two_rows_background [(f_one, little_leaves)] f_zero) as [e|p] eqn:E; [|by vm_compute in E].
  apply the_table_explains_the_boxes; [exact E| |].
  - apply Forall_singleton, Forall_forall. intros l Hl. apply (proj1 (forallb_forall (fun l : Leaf => ends_ok l.2) little_leaves)); [vm_compute; reflexivity|by apply list_elem_of_In].
  - vm_compute; reflexivity.
Defined.
