(* ===== verification/Auth.v ===== *)
(** * Authentication ([crosscutting/auth.py]) over the identity tables ([store/auth.py])

    Passwords, the login throttle, sessions, service tokens and the login flow. SHA-256, scrypt and
    the vault's keyed hash are parameters (OpenSSL's code); random values are arguments. *)
From S2P Require Import Prelude PyLib.

Definition SCRYPT_N : Z := 2 ^ 17.
Definition SCRYPT_R : Z := 8.
Definition SCRYPT_P : Z := 1.
Definition SCRYPT_DKLEN : Z := 32.
Definition MIN_PASSWORD : nat := 12.
Definition MAX_PASSWORD : nat := 128.
Definition IDLE_TIMEOUT_S : float := f_of_Z (30 * 60).
Definition TOUCH_EVERY_S : float := f_of_Z 30.
Definition ABSOLUTE_TIMEOUT_S : float := f_of_Z (12 * 60 * 60).
Definition LOCKOUT_THRESHOLD : Z := 5.
Definition LOCKOUT_BASE_S : float := f_one.
Definition LOCKOUT_MAX_S : float := f_of_Z (15 * 60).
Definition THROTTLE_KEYS : nat := 4096.

Definition SCHEME : string := "scrypt-p1".
Definition LEGACY_SCHEME : string := "scrypt".

(** [str.encode("utf-8")] of a code point below 256. *)
Definition utf8 (s : string) : bytes :=
  flat_map (fun a => let c := code a in
              if c <? 128 then [z2b c] else [z2b (0xC0 + c / 64); z2b (0x80 + c mod 64)]) (chars s).

Inductive password_error := TooShort | TooLong.

Definition validate_password (password : string) : option password_error :=
  if bool_decide (String.length password < MIN_PASSWORD)%nat then Some TooShort
  else if bool_decide (MAX_PASSWORD < String.length password)%nat then Some TooLong
  else None.

Definition needs_rehash (stored : string) : bool := negb (String.prefix (SCHEME +:+ "$") stored).

(** ** The login throttle *)

Record Attempts := MkAttempts { fails : Z; locked_until : float }.

Record LoginThrottle := Throttle {
  by_user : list (string * Attempts); by_ip : list (string * Attempts) }.

Definition new_throttle : LoginThrottle := Throttle [] [].

(** [base * n] for a float and an integer: [OverflowError] (here [None]) when the integer is too
    large for a float. *)
Definition mul_int (base : float) (n : Z) : option float :=
  match f_of_Z n with S754_infinity _ => None | x => Some (fmul base x) end.

Definition fmin (a b : float) : float := if fltb b a then b else a.

Definition delay (fails : Z) : option float :=
  if fails <? LOCKOUT_THRESHOLD then Some f_zero
  else d ← mul_int LOCKOUT_BASE_S (2 ^ (fails - LOCKOUT_THRESHOLD)); Some (fmin d LOCKOUT_MAX_S).

Definition remaining (state : option Attempts) (now : float) (r : float) : float :=
  match state with Some s => fmax r (fsub (locked_until s) now) | None => r end.

Definition locked_for (t : LoginThrottle) (username source_ip : string) (now : float) : float :=
  fmax f_zero (remaining (assoc source_ip (by_ip t)) now
                 (remaining (assoc username (by_user t)) now f_zero)).

(** One table's share of [record_failure]: the table, and whether [_delay] raised. *)
Definition record_in (key : string) (now : float) (table : list (string * Attempts))
  : list (string * Attempts) * bool :=
  let s := default (MkAttempts 0 f_zero) (assoc key table) in
  let s := MkAttempts (fails s + 1) (locked_until s) in
  match delay (fails s) with
  | None => (dict_set key s table, true)
  | Some d =>
      let s := if fltb f_zero d then MkAttempts (fails s) (fadd now d) else s in
      (dict_set key s table, false)
  end.

(** [sorted(...)[-n:]]: the last [n]. *)
Definition last_n {A} (n : nat) (l : list A) : list A := drop (length l - n) l.

Definition bound_table (now : float) (table : list (string * Attempts))
  : list (string * Attempts) :=
  if bool_decide (length table ≤ THROTTLE_KEYS)%nat then table
  else
    let stale := fsub now LOCKOUT_MAX_S in
    let table := filter (fun e => negb ((fails e.2 <? LOCKOUT_THRESHOLD)
                                        || fltb (locked_until e.2) stale) = true) table in
    if bool_decide (THROTTLE_KEYS < length table)%nat then
      last_n THROTTLE_KEYS
        (sort_by (fun a b => fleb (locked_until a.2) (locked_until b.2)) table)
    else table.

Definition bound (now : float) (t : LoginThrottle) : LoginThrottle :=
  Throttle (bound_table now (by_user t)) (bound_table now (by_ip t)).

(** The throttle after a failure, and whether [OverflowError] left it. *)
Definition record_failure (username source_ip : string) (now : float) (t : LoginThrottle)
  : LoginThrottle * bool :=
  let '(users, raised) := record_in username now (by_user t) in
  if raised then (Throttle users (by_ip t), true)
  else
    let '(ips, raised) := record_in source_ip now (by_ip t) in
    if raised then (Throttle users ips, true)
    else (bound now (Throttle users ips), false).

Definition record_success (username source_ip : string) (t : LoginThrottle) : LoginThrottle :=
  Throttle (dict_del username (by_user t)) (dict_del source_ip (by_ip t)).

(** ** The identity tables *)

Record User := MkUser {
  username : string; password_hash : string; role : string;
  must_change_password : bool; disabled : bool }.

Record Session := MkSession {
  s_user : Z; created_at : float; last_seen_at : float; idle_expiry : float;
  absolute_expiry : float; s_source_ip : option string }.

Record Token := MkToken {
  token_hash : string; name : string; t_role : string; revoked : bool;
  last_used_at : option float }.

(** [session] is keyed by its unique [session_hash]; [paused] are the tokens of paused agents. *)
Record Store := MkStore {
  users : gmap Z User; sessions : gmap string Session; tokens : gmap Z Token; paused : gset Z }.

Definition set_users (st : Store) (u : gmap Z User) : Store :=
  MkStore u (sessions st) (tokens st) (paused st).
Definition set_sessions (st : Store) (s : gmap string Session) : Store :=
  MkStore (users st) s (tokens st) (paused st).
Definition set_tokens (st : Store) (t : gmap Z Token) : Store :=
  MkStore (users st) (sessions st) t (paused st).

(** [username] is unique, so at most one row is found. *)
Definition get_user_by_name (st : Store) (n : string) : option (Z * User) :=
  list_find (fun e => username e.2 = n) (map_to_list (users st)) ≫= fun r => Some r.2.

Definition rehash_password (user_id : Z) (h : string) (st : Store) : Store :=
  set_users st (alter (fun u => MkUser (username u) h (role u) (must_change_password u) (disabled u))
                  user_id (users st)).

Definition update_user_password (user_id : Z) (h : string) (st : Store) : Store :=
  set_users st (alter (fun u => MkUser (username u) h (role u) false (disabled u))
                  user_id (users st)).

Definition set_user_role (user_id : Z) (r : string) (st : Store) : Store :=
  set_users st (alter (fun u => MkUser (username u) (password_hash u) r (must_change_password u)
                                  (disabled u)) user_id (users st)).

(** Sessions of a deleted user go with it (the foreign key cascades). *)
Definition delete_user (user_id : Z) (st : Store) : bool * Store :=
  (bool_decide (is_Some (users st !! user_id)),
   set_sessions (set_users st (delete user_id (users st)))
     (filter (fun e => s_user e.2 ≠ user_id) (sessions st))).

Definition count_enabled_admins (excluding : option Z) (st : Store) : nat :=
  length (filter (fun e => role e.2 = "admin" ∧ disabled e.2 = false ∧ Some e.1 ≠ excluding)
            (map_to_list (users st))).

(** The unique index refuses a hash that is already there. *)
Definition create_session (h : string) (s : Session) (st : Store) : option Store :=
  match sessions st !! h with
  | Some _ => None
  | None => Some (set_sessions st (<[h := s]> (sessions st)))
  end.

(** The row of [session JOIN app_user]. *)
Definition get_session (h : string) (st : Store) : option (Session * User) :=
  s ← sessions st !! h; u ← users st !! s_user s; Some (s, u).

Definition touch_session (h : string) (seen idle : float) (st : Store) : Store :=
  set_sessions st (alter (fun s => MkSession (s_user s) (created_at s) seen idle
                                     (absolute_expiry s) (s_source_ip s)) h (sessions st)).

Definition delete_session (h : string) (st : Store) : Store :=
  set_sessions st (delete h (sessions st)).

Definition revoke_user_sessions (user_id : Z) (st : Store) : nat * Store :=
  (length (filter (fun e => s_user e.2 = user_id) (map_to_list (sessions st))),
   set_sessions st (filter (fun e => s_user e.2 ≠ user_id) (sessions st))).

Definition purge_expired_sessions (now : float) (st : Store) : Store :=
  set_sessions st (filter (fun e => negb (fltb (absolute_expiry e.2) now
                                          || fltb (idle_expiry e.2) now) = true) (sessions st)).

(** [token_hash] is unique. A paused agent's token is not found. *)
Definition get_token (h : string) (st : Store) : option (Z * Token) :=
  list_find (fun e => token_hash e.2 = h ∧ e.1 ∉ paused st) (map_to_list (tokens st))
  ≫= fun r => Some r.2.

Definition touch_token_used (h : string) (now : float) (st : Store) : Store :=
  set_tokens st ((fun t => if bool_decide (token_hash t = h)
                           then MkToken (token_hash t) (name t) (t_role t) (revoked t) (Some now)
                           else t) <$> tokens st).

Definition revoke_token (token_id : Z) (st : Store) : option string * Store :=
  match tokens st !! token_id with
  | Some t =>
      if revoked t then (None, st)
      else (Some (name t), set_tokens st (<[token_id := MkToken (token_hash t) (name t) (t_role t)
                                                       true (last_used_at t)]> (tokens st)))
  | None => (None, st)
  end.

(** ** Identity *)

Inductive principal_kind := SessionKind | TokenKind.
#[global] Instance principal_kind_eq_dec : EqDecision principal_kind.
Proof. solve_decision. Defined.

Record Principal := MkPrincipal {
  actor : string; p_role : string; p_kind : principal_kind; user_id : option Z;
  p_must_change : bool; token_id : option Z }.

Definition ref (p : Principal) : option string :=
  match user_id p with
  | Some u => Some ("user:" +:+ pretty u)
  | None => match token_id p with
            | Some t => Some ("token:" +:+ pretty t)
            | None => None
            end
  end.

Definition is_token (p : Principal) : bool := bool_decide (p_kind p = TokenKind).

Inductive LoginOutcome :=
| LoginOk (p : Principal) (session_token : string)
| LoginFail
| LoginLocked
| LoginMustChange
| LoginPolicy (e : password_error).

Section auth.
(** [hashlib.sha256(...).hexdigest()] of a string's UTF-8, [vault.current().pepper], and
    [hashlib.scrypt] (password, salt, n, r, p, dklen). *)
Context (sha256_hex : string → string) (pepper : string → bytes)
        (scrypt : bytes → bytes → Z → Z → Z → Z → bytes).

Definition scrypt_input (password scheme : string) : bytes :=
  if String.eqb scheme SCHEME then pepper password else utf8 password.

Definition hash_password (salt : bytes) (password : string) : string :=
  let derived := scrypt (scrypt_input password SCHEME) salt SCRYPT_N SCRYPT_R SCRYPT_P SCRYPT_DKLEN in
  unchars (join_chars "$" [chars SCHEME; chars (pretty SCRYPT_N); chars (pretty SCRYPT_R);
                           chars (pretty SCRYPT_P); chars (b64encode salt); chars (b64encode derived)]).

Definition verify_password (password stored : string) : bool :=
  match split "$" stored with
  | [scheme; n_s; r_s; p_s; salt_b64; hash_b64] =>
      if negb (String.eqb scheme SCHEME || String.eqb scheme LEGACY_SCHEME) then false
      else
        match py_int n_s, py_int r_s, py_int p_s, b64decode salt_b64, b64decode hash_b64 with
        | Some n, Some r, Some p, Some salt, Some expected =>
            bool_decide (scrypt (scrypt_input password scheme) salt n r p (blen expected) = expected)
        | _, _, _, _, _ => false
        end
  | _ => false
  end.

Definition hash_token (token : string) : string := sha256_hex token.

Definition open_session (token : string) (uid : Z) (source_ip : option string) (now : float)
    (st : Store) : option (string * Store) :=
  st ← create_session (hash_token token)
         (MkSession uid now now (fadd now IDLE_TIMEOUT_S) (fadd now ABSOLUTE_TIMEOUT_S) source_ip) st;
  Some (token, st).

Definition resolve_session (token : string) (now : float) (touch : bool) (st : Store)
  : option Principal * Store :=
  let h := hash_token token in
  match get_session h st with
  | None => (None, st)
  | Some (s, u) =>
      if disabled u then (None, st)
      else if fltb (absolute_expiry s) now || fltb (idle_expiry s) now then
        (None, if touch then delete_session h st else st)
      else
        let st := if touch && fleb TOUCH_EVERY_S (fsub now (fsub (idle_expiry s) IDLE_TIMEOUT_S))
                  then touch_session h now (fadd now IDLE_TIMEOUT_S) st else st in
        (Some (MkPrincipal (username u) (role u) SessionKind (Some (s_user s))
                 (must_change_password u) None), st)
  end.

Definition resolve_bearer (token : string) (now : float) (touch : bool) (st : Store)
  : option Principal * Store :=
  match get_token (hash_token token) st with
  | Some (id, t) =>
      if revoked t then (None, st)
      else
        let due := match last_used_at t with
                   | None => true
                   | Some last => fleb TOUCH_EVERY_S (fsub now last)
                   end in
        (Some (MkPrincipal (name t) (t_role t) TokenKind None false (Some id)),
         if touch && due then touch_token_used (token_hash t) now st else st)
  | None => (None, st)
  end.

(** The outcome, or [None] when an exception leaves the function: the throttle's
    [OverflowError], or the database refusing a session hash that is already there. [fresh] is the
    session token minted and [salt1], [salt2] the salts drawn. *)
Definition perform_login (uname password : string) (new_password : option string)
    (source_ip fresh : string) (salt1 salt2 : bytes) (now : float) (t : LoginThrottle) (st : Store)
  : option LoginOutcome * LoginThrottle * Store :=
  let failure (t : LoginThrottle) :=
    let '(t, raised) := record_failure uname source_ip now t in
    (if raised then None else Some LoginFail, t, st) in
  if fltb f_zero (locked_for t uname source_ip now) then (Some LoginLocked, t, st)
  else match get_user_by_name st uname with
  | None => failure t
  | Some (uid, user) =>
      if disabled user then failure t
      else if negb (verify_password password (password_hash user)) then failure t
      else
        let t := record_success uname source_ip t in
        let finish (st : Store) :=
          match open_session fresh uid (Some source_ip) now st with
          | None => (None, t, st)
          | Some (token, st) =>
              (Some (LoginOk (MkPrincipal uname (role user) SessionKind (Some uid) false None) token),
               t, st)
          end in
        if must_change_password user then
          match new_password with
          | None | Some EmptyString => (Some LoginMustChange, t, st)
          | Some np =>
              match validate_password np with
              | Some e => (Some (LoginPolicy e), t, st)
              | None => finish (revoke_user_sessions uid
                                  (update_user_password uid (hash_password salt2 np) st)).2
              end
          end
        else
          finish (if needs_rehash (password_hash user)
                  then rehash_password uid (hash_password salt1 password) st else st)
  end.
End auth.

(** ** Passwords *)

Section password_laws.
Context (pepper : string → bytes) (scrypt : bytes → bytes → Z → Z → Z → Z → bytes).
(** scrypt's output has the length asked for. *)
Hypothesis scrypt_length : ∀ p salt n r k len, 0 ≤ len → blen (scrypt p salt n r k len) = len.

Lemma verify_hash salt password attempt :
  verify_password pepper scrypt attempt (hash_password pepper scrypt salt password) =
  bool_decide (scrypt (pepper attempt) salt SCRYPT_N SCRYPT_R SCRYPT_P SCRYPT_DKLEN =
               scrypt (pepper password) salt SCRYPT_N SCRYPT_R SCRYPT_P SCRYPT_DKLEN).
Proof using scrypt_length.
  unfold verify_password, hash_password, split, scrypt_input. rewrite String.eqb_refl, chars_unchars.
  set (d := scrypt (pepper password) salt SCRYPT_N SCRYPT_R SCRYPT_P SCRYPT_DKLEN).
  assert (∀ bs, ("$"%char : ascii) ∉ chars (b64encode bs)) as Hb.
  { intros bs. unfold b64encode. rewrite chars_unchars. intros Hin.
    pose proof (b64_enc_ok bs) as H. rewrite Forall_forall in H. by apply H in Hin as [_ ?]. }
  rewrite split_join; [|done|].
  2: { repeat constructor; try apply Hb; apply (bool_decide_unpack _); vm_compute; reflexivity. }
  cbn [map]. rewrite !unchars_chars. cbn [String.eqb negb orb].
  assert (String.eqb SCHEME SCHEME = true) as -> by done. cbn [negb orb].
  assert (py_int (pretty SCRYPT_N) = Some SCRYPT_N) as -> by (vm_compute; reflexivity).
  assert (py_int (pretty SCRYPT_R) = Some SCRYPT_R) as -> by (vm_compute; reflexivity).
  assert (py_int (pretty SCRYPT_P) = Some SCRYPT_P) as -> by (vm_compute; reflexivity).
  rewrite !b64decode_encode. unfold d. by rewrite scrypt_length.
Qed.
End password_laws.

(** A stored password is read back whole, whatever salt was drawn: checking an attempt against
    the string [hash_password] wrote succeeds exactly when scrypt, with the parameters and the salt
    it was written with, gives the attempt the same key as the password; so the password itself
    always verifies. *)
Theorem stored_password_verifies pepper scrypt salt password attempt :
  (∀ p s n r k len, 0 ≤ len → blen (scrypt p s n r k len) = len) →
  verify_password pepper scrypt password (hash_password pepper scrypt salt password) = true ∧
  (verify_password pepper scrypt attempt (hash_password pepper scrypt salt password) = true ↔
   scrypt (pepper attempt) salt SCRYPT_N SCRYPT_R SCRYPT_P SCRYPT_DKLEN =
   scrypt (pepper password) salt SCRYPT_N SCRYPT_R SCRYPT_P SCRYPT_DKLEN) ∧
  needs_rehash (hash_password pepper scrypt salt password) = false.
Proof.
  intros Hlen. rewrite !verify_hash by done. rewrite !bool_decide_eq_true.
  split; [done|]. split; [reflexivity|].
  unfold needs_rehash, hash_password. apply negb_false_iff. cbn [join_chars].
  rewrite unchars_app. set (rest := chars (pretty SCRYPT_N) ++ _).
  change (unchars ("$"%char :: rest)) with ("$" +:+ unchars rest).
  rewrite <- string_app_assoc. apply prefix_app.
Qed.

Definition demo_scrypt (p salt : bytes) (n r k len : Z) : bytes :=
  take (Z.to_nat len) (p ++ salt ++ replicate (Z.to_nat len) Byte.x00).

Lemma demo_scrypt_length p s n r k len : 0 ≤ len → blen (demo_scrypt p s n r k len) = len.
Proof.
  intros. unfold demo_scrypt, blen. rewrite length_take, !length_app, length_replicate. lia.
Qed.

Lemma stored_password_verifies_witness :
  let h := hash_password utf8 demo_scrypt [Byte.x01; Byte.x02] "correct horse" in
  verify_password utf8 demo_scrypt "correct horse" h = true ∧
  (verify_password utf8 demo_scrypt "wrong horses!" h = true ↔
   demo_scrypt (utf8 "wrong horses!") [Byte.x01; Byte.x02] SCRYPT_N SCRYPT_R SCRYPT_P SCRYPT_DKLEN =
   demo_scrypt (utf8 "correct horse") [Byte.x01; Byte.x02] SCRYPT_N SCRYPT_R SCRYPT_P SCRYPT_DKLEN) ∧
  needs_rehash h = false.
Proof. apply stored_password_verifies. apply demo_scrypt_length. Defined.

(** ** The throttle *)

Definition lockout_ok (table : list (string * Attempts)) : Prop :=
  Forall (λ e, is_nan (locked_until e.2) = false) table.

(** Entry [e] imposes no lock any more. *)
Definition harmless (now : float) (e : string * Attempts) : bool :=
  (fails e.2 <? LOCKOUT_THRESHOLD) || fltb (locked_until e.2) (fsub now LOCKOUT_MAX_S).

Lemma length_last_n {A} n (l : list A) : length (last_n n l) = (n `min` length l)%nat.
Proof. unfold last_n. rewrite length_drop. lia. Qed.

Lemma sorted_split {A} (R : A → A → Prop) l k :
  StronglySorted R l → ∀ x y, x ∈ take k l → y ∈ drop k l → R x y.
Proof.
  revert k. induction l as [|a l IH]; intros k Hs x y; destruct k; simpl; [set_solver..|].
  apply StronglySorted_inv in Hs as [Hs Ha]. rewrite Forall_forall in Ha.
  intros [->|Hx]%elem_of_cons Hy; [|by eapply IH]. apply Ha. rewrite <- (take_drop k l). set_solver.
Qed.

Lemma bound_table_spec now table :
  lockout_ok table →
  (length (bound_table now table) ≤ THROTTLE_KEYS)%nat ∧
  (∀ e, e ∈ bound_table now table → e ∈ table) ∧
  (∀ e, e ∈ table → e ∉ bound_table now table →
     harmless now e = true ∨
     (length (bound_table now table) = THROTTLE_KEYS ∧
      ∀ e', e' ∈ bound_table now table → fleb (locked_until e.2) (locked_until e'.2) = true)).
Proof.
  intros Hok. unfold bound_table. case_bool_decide as Hlen; [by split_and!|].
  set (live := filter _ table).
  assert (∀ e, e ∈ live ↔ e ∈ table ∧ harmless now e = false) as Hlive.
  { intros e. unfold live. rewrite list_elem_of_filter, negb_true_iff. unfold harmless. tauto. }
  assert (lockout_ok live) as Hlok.
  { apply Forall_forall. intros e [He _]%Hlive. unfold lockout_ok in Hok.
    rewrite Forall_forall in Hok. auto. }
  case_bool_decide as Hlen2.
  - set (le := fun a b : string * Attempts => fleb (locked_until a.2) (locked_until b.2)).
    set (srt := sort_by le live).
    assert (StronglySorted (λ x y, le x y = true) srt) as Hs.
    { apply (sort_by_sorted le (λ e, is_nan (locked_until e.2) = false)); [done| |].
      - intros x y Hx Hy. by apply fleb_total.
      - intros x y z. apply fleb_trans. }
    assert (∀ e, e ∈ srt ↔ e ∈ live) as Hin by (intros e; apply elem_of_sort_by).
    assert (length (last_n THROTTLE_KEYS srt) = THROTTLE_KEYS) as Hl.
    { rewrite length_last_n. unfold srt. rewrite length_sort_by. lia. }
    split_and!.
    + by rewrite Hl.
    + intros e He. apply Hlive, Hin. unfold last_n in He.
      rewrite <- (take_drop (length srt - THROTTLE_KEYS) srt). set_solver.
    + intros e He Hn. destruct (harmless now e) eqn:Eh; [by left|right]. split; [done|].
      intros e' He'. assert (e ∈ srt) as Hes by (by apply Hin, Hlive).
      unfold last_n in *. rewrite <- (take_drop (length srt - THROTTLE_KEYS) srt) in Hes.
      apply elem_of_app in Hes as [Hes|]; [|done]. exact (sorted_split _ _ _ Hs _ _ Hes He').
  - split_and!; [lia|by intros e [??]%Hlive|]. intros e He Hn. left.
    destruct (harmless now e) eqn:Eh; [done|]. destruct Hn. by apply Hlive.
Qed.

(** The doubling lockout: one second at the fifth failure, fifteen minutes from the fifteenth. *)
Definition lockout_seconds (fails : Z) : float :=
  if fails <? 5 then f_zero
  else if fails <? 15 then f_of_Z (2 ^ (fails - 5))
  else f_of_Z 900.

Lemma delay_values fails : 0 ≤ fails < 1029 → delay fails = Some (lockout_seconds fails).
Proof.
  intros Hf.
  assert (forallb (λ n, bool_decide (delay (Z.of_nat n) = Some (lockout_seconds (Z.of_nat n))))
            (seq 0 1029) = true) as Hall by (vm_compute; reflexivity).
  rewrite forallb_forall in Hall. specialize (Hall (Z.to_nat fails)).
  rewrite in_seq, Z2Nat.id in Hall by lia. specialize (Hall ltac:(lia)).
  by apply bool_decide_eq_true in Hall.
Qed.

(** From the 1029th failure on a username or an address the exponent no longer fits a float. *)
Example delay_overflows : delay 1028 = Some (f_of_Z 900) ∧ delay 1029 = None.
Proof. vm_compute. done. Qed.

Definition fails_of (key : string) (table : list (string * Attempts)) : Z :=
  default 0 (fails <$> assoc key table).

(** The entry a failure leaves for its key. *)
Definition after_failure (key : string) (now : float) (table : list (string * Attempts)) : Attempts :=
  let n := fails_of key table + 1 in
  MkAttempts n (if n <? 5 then default f_zero (locked_until <$> assoc key table)
                else fadd now (lockout_seconds n)).

Lemma lockout_seconds_pos n : 5 ≤ n → fltb f_zero (lockout_seconds n) = true.
Proof.
  intros Hn. unfold lockout_seconds. destruct (Z.ltb_spec n 5); [lia|].
  destruct (Z.ltb_spec n 15); [|by vm_compute].
  assert (n = 5 ∨ n = 6 ∨ n = 7 ∨ n = 8 ∨ n = 9 ∨ n = 10 ∨ n = 11 ∨ n = 12 ∨ n = 13 ∨ n = 14)
    as Hc by lia.
  repeat (destruct Hc as [->|Hc]; [by vm_compute|]). subst. by vm_compute.
Qed.

Lemma record_in_spec key now table :
  0 ≤ fails_of key table < 1028 →
  record_in key now table = (dict_set key (after_failure key now table) table, false).
Proof.
  intros Hf. unfold record_in, after_failure, fails_of in *.
  set (s := default (MkAttempts 0 f_zero) (assoc key table)).
  assert (default 0 (fails <$> assoc key table) = fails s) as Ef by (unfold s; by destruct (assoc key table)).
  assert (default f_zero (locked_until <$> assoc key table) = locked_until s) as El
    by (unfold s; by destruct (assoc key table)).
  rewrite Ef, El in *. cbn [fails locked_until]. rewrite delay_values by lia.
  destruct (Z.ltb_spec (fails s + 1) 5).
  - unfold lockout_seconds. by destruct (Z.ltb_spec (fails s + 1) 5); [|lia].
  - by rewrite lockout_seconds_pos by lia.
Qed.

Lemma lockout_ok_set key a table :
  lockout_ok table → is_nan (locked_until a) = false → lockout_ok (dict_set key a table).
Proof.
  intros Hok Ha. induction Hok as [|[k b] table Hb Hok IH]; simpl; [by repeat constructor|].
  destruct (decide (key = k)); by constructor.
Qed.

(** A table between a failure and what is kept of it: at most [THROTTLE_KEYS] entries; an entry
    dropped imposed no lock any more, or the table is full of locks that end no earlier. *)
Definition keeps_lockouts (now : float) (before after : list (string * Attempts)) : Prop :=
  (length after ≤ THROTTLE_KEYS)%nat ∧
  (∀ e, e ∈ after → e ∈ before) ∧
  (∀ e, e ∈ before → e ∉ after → harmless now e = true ∨
     (length after = THROTTLE_KEYS ∧
      ∀ e', e' ∈ after → fleb (locked_until e.2) (locked_until e'.2) = true)).

(** A failed login counts against the username and the address (here, each below its 1028th
    failure), and from the fifth locks each for 1, 2, 4 ... seconds, never more than 900; and the
    tables stay bounded without a flood of other names clearing a lock: what is forgotten locks
    nothing any more, or ends no later than every lock that is kept. *)
Theorem failures_lock_and_locks_survive t uname ip now :
  0 ≤ fails_of uname (by_user t) < 1028 → 0 ≤ fails_of ip (by_ip t) < 1028 →
  lockout_ok (by_user t) → lockout_ok (by_ip t) →
  is_nan (locked_until (after_failure uname now (by_user t))) = false →
  is_nan (locked_until (after_failure ip now (by_ip t))) = false →
  ∃ t', record_failure uname ip now t = (t', false) ∧
    keeps_lockouts now (dict_set uname (after_failure uname now (by_user t)) (by_user t)) (by_user t') ∧
    keeps_lockouts now (dict_set ip (after_failure ip now (by_ip t)) (by_ip t)) (by_ip t').
Proof.
  intros Hu Hi Hou Hoi Hnu Hni. unfold record_failure.
  rewrite !record_in_spec by done. eexists. split; [done|].
  split; apply bound_table_spec; by apply lockout_ok_set.
Qed.

Lemma failures_lock_and_locks_survive_witness :
  let t := Throttle [("admin", MkAttempts 4 f_zero)] [("10.0.0.1", MkAttempts 0 f_zero)] in
  let now := f_of_Z 1000 in
  ∃ t', record_failure "admin" "10.0.0.1" now t = (t', false) ∧
    keeps_lockouts now (dict_set "admin" (after_failure "admin" now (by_user t)) (by_user t)) (by_user t') ∧
    keeps_lockouts now (dict_set "10.0.0.1" (after_failure "10.0.0.1" now (by_ip t)) (by_ip t)) (by_ip t').
Proof.
  apply failures_lock_and_locks_survive.
  - vm_compute. split; [discriminate|reflexivity].
  - vm_compute. split; [discriminate|reflexivity].
  - repeat constructor.
  - repeat constructor.
  - vm_compute. reflexivity.
  - vm_compute. reflexivity.
Defined.

(** ** Sessions and the login flow *)

Lemma get_user_by_name_Some st n uid u :
  get_user_by_name st n = Some (uid, u) → users st !! uid = Some u ∧ username u = n.
Proof.
  unfold get_user_by_name. destruct (list_find _ _) as [[i e]|] eqn:E; [|done].
  intros [= ->]. apply list_find_Some in E as (Hl & Hn & _). split; [|done].
  apply elem_of_map_to_list. by apply list_elem_of_lookup_2 with i.
Qed.

Section login.
Context (sha256_hex : string → string) (pepper : string → bytes)
        (scrypt : bytes → bytes → Z → Z → Z → Z → bytes).
Abbreviation login := (perform_login sha256_hex pepper scrypt).
Abbreviation resolve := (resolve_session sha256_hex).

(** The session [open_session] writes. *)
Definition fresh_session (uid : Z) (ip : string) (now : float) : Session :=
  MkSession uid now now (fadd now IDLE_TIMEOUT_S) (fadd now ABSOLUTE_TIMEOUT_S) (Some ip).

Lemma open_session_Some token uid ip now st tok st' :
  open_session sha256_hex token uid (Some ip) now st = Some (tok, st') →
  tok = token ∧ sessions st !! sha256_hex token = None ∧
  st' = set_sessions st (<[sha256_hex token := fresh_session uid ip now]> (sessions st)).
Proof.
  unfold open_session, create_session, hash_token.
  destruct (sessions st !! sha256_hex token) eqn:E; [done|]. intros [= <- <-]. done.
Qed.

(** What a login that succeeds leaves: [u'] is the user's row then. *)
Record login_facts (uname password : string) (new_password : option string) (ip fresh : string)
    (now : float) (t : LoginThrottle) (st st' : Store) (uid : Z) (u : User) : Prop := {
  lf_unlocked : fltb f_zero (locked_for t uname ip now) = false;
  lf_user : get_user_by_name st uname = Some (uid, u);
  lf_enabled : disabled u = false;
  lf_password : verify_password pepper scrypt password (password_hash u) = true;
  lf_changed : must_change_password u = true →
    (∃ np, new_password = Some np ∧ np ≠ "" ∧ validate_password np = None) ∧
    ∀ h s, sessions st' !! h = Some s → s_user s = uid → h = sha256_hex fresh;
  lf_session : sessions st' !! sha256_hex fresh = Some (fresh_session uid ip now);
  lf_row : ∃ u', users st' !! uid = Some u' ∧ username u' = uname ∧ role u' = role u ∧
                 disabled u' = false ∧ must_change_password u' = false }.

Lemma login_ok uname password np ip fresh salt1 salt2 now t st p tok t' st' :
  login uname password np ip fresh salt1 salt2 now t st = (Some (LoginOk p tok), t', st') →
  ∃ uid u, tok = fresh ∧ p = MkPrincipal uname (role u) SessionKind (Some uid) false None ∧
           login_facts uname password np ip fresh now t st st' uid u.
Proof.
  unfold perform_login. destruct (fltb f_zero _) eqn:El; [done|].
  cbv zeta.
  assert (∀ t0 (Q : Prop), (let '(t1, raised) := record_failure uname ip now t0 in
            (if raised then None else Some LoginFail, t1, st)) = (Some (LoginOk p tok), t', st') → Q)
    as Hfail.
  { intros t0 Q. by destruct (record_failure uname ip now t0) as [? []]. }
  destruct (get_user_by_name st uname) as [[uid u]|] eqn:Eu; [|apply Hfail].
  destruct (disabled u) eqn:Ed; [apply Hfail|].
  destruct (verify_password _ _ _ _) eqn:Ev; [|apply Hfail]. cbn [negb].
  apply get_user_by_name_Some in Eu as Hu. destruct Hu as [Hu Hn].
  destruct (must_change_password u) eqn:Em.
  - destruct np as [[|a np]|]; [done| |done]. set (np' := String a np).
    destruct (validate_password np') eqn:Evp; [done|].
    set (st1 := (revoke_user_sessions uid _).2).
    destruct (open_session _ fresh uid (Some ip) now st1) as [[tok' st2]|] eqn:Eo; [|done].
    intros [= <- <- _ <-]. apply open_session_Some in Eo as (-> & Hnone & ->).
    exists uid, u. split; [done|]. split; [done|]. split; try done; simpl.
    + intros _. split; [by exists np'|].
      intros h s [[<- _]|[Hne [_ Hf]%map_lookup_filter_Some]]%lookup_insert_Some; [done|].
      intros <-. by destruct Hf.
    + apply lookup_insert_eq.
    + rewrite lookup_alter_eq, Hu. eexists. split; [done|]. done.
  - set (st1 := if needs_rehash _ then _ else _).
    destruct (open_session _ fresh uid (Some ip) now st1) as [[tok' st2]|] eqn:Eo; [|done].
    intros [= <- <- _ <-]. apply open_session_Some in Eo as (-> & Hnone & ->).
    exists uid, u. split; [done|]. split; [done|]. split; try done; simpl.
    + congruence.
    + apply lookup_insert_eq.
    + unfold st1. destruct (needs_rehash _); [|by exists u]. simpl.
      rewrite lookup_alter_eq, Hu. eexists. split; [done|]. done.
Qed.
End login.

(** A login succeeds only with the right password of an enabled account that is not locked
    out, and, where a change is due, with a valid new one, which ends every other session of the
    account. The session it opens is one the next requests resolve, to that user and role, until
    the idle or the absolute expiry passes, and the caller then needs no password change. *)
Theorem login_opens_a_session sha256_hex pepper scrypt uname password np ip fresh salt1 salt2 now t
    st p tok t' st' now' touch :
  perform_login sha256_hex pepper scrypt uname password np ip fresh salt1 salt2 now t st
    = (Some (LoginOk p tok), t', st') →
  fltb (fadd now ABSOLUTE_TIMEOUT_S) now' = false → fltb (fadd now IDLE_TIMEOUT_S) now' = false →
  (∃ uid u, login_facts sha256_hex pepper scrypt uname password np ip fresh now t st st' uid u) ∧
  (resolve_session sha256_hex tok now' touch st').1 = Some p.
Proof.
  intros (uid & u & -> & -> & Hf)%login_ok Ha Hi. split; [by exists uid, u|].
  destruct Hf as [_ _ _ _ _ Hs (u' & Hu' & <- & <- & Hd & Hm)].
  unfold resolve_session, get_session, hash_token. rewrite Hs. simpl. rewrite Hu'. simpl.
  by rewrite Hd, Ha, Hi, Hm.
Qed.

(** No enumeration of accounts. A login under an unknown name, under a disabled account and
    with a wrong password have one outcome: the same answer, the same throttle, the store
    untouched. *)
Theorem failed_logins_look_alike sha256_hex pepper scrypt uname password np ip fresh salt1 salt2 now
    t st :
  fltb f_zero (locked_for t uname ip now) = false →
  (∀ uid u, get_user_by_name st uname = Some (uid, u) →
     disabled u = true ∨ verify_password pepper scrypt password (password_hash u) = false) →
  perform_login sha256_hex pepper scrypt uname password np ip fresh salt1 salt2 now t st =
  let '(t', raised) := record_failure uname ip now t in
  (if raised then None else Some LoginFail, t', st).
Proof.
  intros Hl Hbad. unfold perform_login. rewrite Hl.
  destruct (get_user_by_name st uname) as [[uid u]|]; [|done].
  destruct (disabled u) eqn:Ed; [done|].
  destruct (Hbad uid u eq_refl) as [?|Hv]; [congruence|]. by rewrite Hv.
Qed.

(** The calls that leave a session's row where it is, or end it. *)
Inductive session_step (sha256_hex : string → string) : Store → Store → Prop :=
| ss_resolve st token now touch :
    session_step sha256_hex st (resolve_session sha256_hex token now touch st).2
| ss_bearer st token now touch :
    session_step sha256_hex st (resolve_bearer sha256_hex token now touch st).2
| ss_revoke st uid : session_step sha256_hex st (revoke_user_sessions uid st).2
| ss_purge st now : session_step sha256_hex st (purge_expired_sessions now st)
| ss_role st uid r : session_step sha256_hex st (set_user_role uid r st)
| ss_delete st uid : session_step sha256_hex st (delete_user uid st).2
| ss_revoke_token st id : session_step sha256_hex st (revoke_token id st).2.

Lemma session_step_keeps sha256_hex st st' h s :
  session_step sha256_hex st st' → sessions st' !! h = Some s →
  ∃ s0, sessions st !! h = Some s0 ∧ absolute_expiry s = absolute_expiry s0 ∧ s_user s = s_user s0.
Proof.
  intros Hstep. destruct Hstep as [st token now touch|st token now touch|st uid|st now|st uid r|st uid|st id].
  - unfold resolve_session. destruct (get_session _ st) as [[s1 u]|]; [|by eauto].
    destruct (disabled u); [by eauto|]. destruct (_ || _).
    + destruct touch; [|by eauto]. simpl. intros [_ ?]%lookup_delete_Some. eauto.
    + simpl. destruct (touch && _); [|by eauto]. simpl. rewrite lookup_alter_Some.
      intros [(_ & s0 & Hs0 & ->)|[_ ?]]; eauto.
  - unfold resolve_bearer. destruct (get_token _ st) as [[id tk]|]; [|by eauto].
    destruct (revoked tk); [by eauto|]. simpl. destruct (touch && _); simpl; eauto.
  - simpl. intros [? _]%map_lookup_filter_Some. eauto.
  - simpl. intros [? _]%map_lookup_filter_Some. eauto.
  - simpl. eauto.
  - simpl. intros [? _]%map_lookup_filter_Some. eauto.
  - unfold revoke_token. destruct (tokens st !! id) as [tk|]; [|by eauto].
    destruct (revoked tk); simpl; eauto.
Qed.

Lemma session_steps_keep sha256_hex st st' h s :
  rtc (session_step sha256_hex) st st' → sessions st' !! h = Some s →
  ∃ s0, sessions st !! h = Some s0 ∧ absolute_expiry s = absolute_expiry s0 ∧ s_user s = s_user s0.
Proof.
  intros Hsteps. revert s. induction Hsteps as [st|st st1 st2 H1 _ IH]; intros s Hs; [by eauto|].
  destruct (IH s Hs) as (s1 & Hs1 & -> & ->). by eapply session_step_keeps.
Qed.

(** The absolute limit holds. Whatever requests, touches, purges, role changes and revocations
    follow, a session seen at a time past the absolute expiry it was opened with resolves to
    nobody; neither does any session of a user after [revoke_user_sessions], nor a service token
    that is revoked or whose agent is paused. *)
Theorem sessions_end sha256_hex st st' h s token now touch :
  rtc (session_step sha256_hex) st st' → sessions st !! h = Some s → hash_token sha256_hex token = h →
  (fltb (absolute_expiry s) now = true →
   (resolve_session sha256_hex token now touch st').1 = None) ∧
  (∀ p, (resolve_session sha256_hex token now touch (revoke_user_sessions (s_user s) st').2).1 = Some p →
        user_id p ≠ Some (s_user s)) ∧
  (∀ id p, (∃ tk, tokens st' !! id = Some tk ∧ revoked tk = true) ∨ id ∈ paused st' →
     (resolve_bearer sha256_hex token now touch st').1 = Some p → token_id p ≠ Some id).
Proof.
  intros Hsteps Hs Hh.
  unfold hash_token in Hh.
  assert (∀ s', sessions st' !! h = Some s' →
            absolute_expiry s' = absolute_expiry s ∧ s_user s' = s_user s) as Hkeep.
  { intros s' Hs'. destruct (session_steps_keep _ _ _ _ _ Hsteps Hs') as (s0 & ? & ? & ?).
    by simplify_eq. }
  split_and!.
  - intros Ha. unfold resolve_session, get_session, hash_token. rewrite Hh.
    destruct (sessions st' !! h) as [s'|] eqn:E; [|done]. simpl.
    destruct (users st' !! s_user s'); [|done]. simpl. destruct (disabled u); [done|].
    destruct (Hkeep s' eq_refl) as [-> _]. by rewrite Ha.
  - intros p. unfold resolve_session, get_session, hash_token. simpl. rewrite Hh.
    destruct (filter _ (sessions st') !! h) as [s'|] eqn:E; [|done]. simpl.
    apply map_lookup_filter_Some in E as [E Hne]. simpl in Hne.
    destruct (users st' !! s_user s'); [|done]. simpl. destruct (disabled u); [done|].
    destruct (_ || _); [done|]. simpl. intros [= <-]. simpl. by intros [= ?].
  - intros id p Hid. unfold resolve_bearer, get_token.
    destruct (list_find _ _) as [[i [id' tk]]|] eqn:E; [|done]. simpl.
    apply list_find_Some in E as (Hl & [_ Hnp] & _). simpl in Hnp.
    destruct (revoked tk) eqn:Er; [done|]. simpl. intros [= <-]. simpl. intros [= ->].
    assert (tokens st' !! id = Some tk) as Htk.
    { apply elem_of_map_to_list. by apply list_elem_of_lookup_2 with i. }
    destruct Hid as [(tk' & Htk' & ?)|?]; [|done]. congruence.
Qed.

Definition demo_store : Store :=
  MkStore {[1 := MkUser "ana" (hash_password utf8 demo_scrypt [Byte.x07] "correct horse") "editor"
                   false false]}
          {["h:old" := MkSession 1 f_zero f_zero (f_of_Z 1800) (f_of_Z 43200) None]}
          {[5 := MkToken "h:tok" "backup" "viewer" true None]} ∅.
Definition demo_sha (s : string) : string := "h:" +:+ s.

Lemma login_opens_a_session_witness :
  let r := perform_login demo_sha utf8 demo_scrypt "ana" "correct horse" None "10.0.0.9" "new" []
             [] (f_of_Z 100) new_throttle demo_store in
  let p := MkPrincipal "ana" "editor" SessionKind (Some 1) false None in
  (∃ uid u, login_facts demo_sha utf8 demo_scrypt "ana" "correct horse" None "10.0.0.9" "new"
              (f_of_Z 100) new_throttle demo_store r.2 uid u) ∧
  (resolve_session demo_sha "new" (f_of_Z 1000) true r.2).1 = Some p.
Proof.
  apply (login_opens_a_session demo_sha utf8 demo_scrypt "ana" "correct horse" None "10.0.0.9" "new"
           [] [] (f_of_Z 100) new_throttle demo_store _ "new"
           (record_success "ana" "10.0.0.9" new_throttle)).
  - vm_compute. reflexivity.
  - vm_compute. reflexivity.
  - vm_compute. reflexivity.
Defined.

Lemma failed_logins_look_alike_witness :
  perform_login demo_sha utf8 demo_scrypt "ana" "wrong" None "10.0.0.9" "new" [] [] (f_of_Z 100)
    new_throttle demo_store =
  let '(t', raised) := record_failure "ana" "10.0.0.9" (f_of_Z 100) new_throttle in
  (if raised then None else Some LoginFail, t', demo_store).
Proof.
  apply failed_logins_look_alike.
  - vm_compute. reflexivity.
  - intros uid u Hu. right.
    assert (get_user_by_name demo_store "ana" =
            Some (1, MkUser "ana" (hash_password utf8 demo_scrypt [Byte.x07] "correct horse")
                       "editor" false false)) as E by (vm_compute; reflexivity).
    rewrite E in Hu. injection Hu as <- <-. vm_compute. reflexivity.
Defined.

Lemma sessions_end_witness :
  let s := MkSession 1 f_zero f_zero (f_of_Z 1800) (f_of_Z 43200) None in
  let st := (resolve_session demo_sha "old" (f_of_Z 1000) true demo_store).2 in
  (fltb (absolute_expiry s) (f_of_Z 43201) = true →
   (resolve_session demo_sha "old" (f_of_Z 43201) true st).1 = None) ∧
  (∀ p, (resolve_session demo_sha "old" (f_of_Z 43201) true
           (revoke_user_sessions (s_user s) st).2).1 = Some p → user_id p ≠ Some (s_user s)) ∧
  (∀ id p, (∃ tk, tokens st !! id = Some tk ∧ revoked tk = true) ∨ id ∈ paused st →
     (resolve_bearer demo_sha "old" (f_of_Z 43201) true st).1 = Some p → token_id p ≠ Some id).
Proof.
  apply (sessions_end demo_sha demo_store _ "h:old").
  - apply rtc_once, ss_resolve.
  - reflexivity.
  - reflexivity.
Defined.
