(* ===== verification/Windows.v ===== *)
(** * Maintenance windows: what still gets through ([engine/mw/rules.py], [index.py], [compile.py])

    The rules of a target, the snapshot a trap is decided against, and the decision. *)
From S2P Require Import Prelude PyLib Oids.

(** ** Rules *)

Inductive MatchOn := MatchTrap | MatchVarbind.
#[global] Instance MatchOn_eq_dec : EqDecision MatchOn.
Proof. solve_decision. Defined.

Record SeverityRule := MkSeverityRule { at_or_above_rank : Z }.
Record OidRule := MkOidRule { root : string; match_on : MatchOn }.
Record SlotRule := MkSlotRule { slot_from : float; slot_to : float }.

Definition severity_admits (r : SeverityRule) (severity_rank : option Z) : bool :=
  match severity_rank with None => false | Some k => k <=? at_or_above_rank r end.

Definition oid_admits (r : OidRule) (trap_oid : string) (varbind_oids : list string) : bool :=
  match match_on r with
  | MatchTrap => under_subtree trap_oid (root r)
  | MatchVarbind => existsb (fun oid => under_subtree oid (root r)) varbind_oids
  end.

Definition slot_admits (r : SlotRule) (ts : float) : bool := fleb (slot_from r) ts && fltb ts (slot_to r).

Record TargetRules := MkRules { severity : list SeverityRule; oid : list OidRule; slot : list SlotRule }.
Definition COLLECT_NOTHING : TargetRules := MkRules [] [] [].

Definition no_rule {A} (l : list A) : bool := match l with [] => true | _ => false end.
Definition collects_nothing (t : TargetRules) : bool :=
  no_rule (severity t) && no_rule (oid t) && no_rule (slot t).

Definition admits (t : TargetRules) (ts : float) (trap_oid : string) (varbind_oids : list string)
    (severity_rank : option Z) : bool :=
  if collects_nothing t then false
  else if negb (no_rule (slot t)) && negb (existsb (fun r => slot_admits r ts) (slot t)) then false
  else if negb (no_rule (severity t)) && negb (existsb (fun r => severity_admits r severity_rank) (severity t))
  then false
  else no_rule (oid t) || existsb (fun r => oid_admits r trap_oid varbind_oids) (oid t).

(** ** The snapshot *)

Definition TRAILING_GRACE_S : float := f_of_Z 60.
Definition LEADING_HORIZON_S : float := f_of_Z 3600.

Record CompiledWindow := MkCompiled {
  window_id : Z; name : string; organization_id : Z;
  starts_at : float; ends_at : float;
  effective_starts_at : float; effective_ends_at : float;
  targets : gmap Z TargetRules;
  ledger_enabled : bool }.

Definition covers (w : CompiledWindow) (ts : float) : bool :=
  fleb (effective_starts_at w) ts && fltb ts (effective_ends_at w).

Definition build (window_id : Z) (name : string) (organization_id : Z) (starts_at ends_at patch_s : float)
    (targets : gmap Z TargetRules) (ledger_enabled : bool) : CompiledWindow :=
  let margin := fmax f_zero patch_s in
  MkCompiled window_id name organization_id starts_at ends_at (fsub starts_at margin) (fadd ends_at margin)
    targets ledger_enabled.

Record Decision := MkDecision { collect : bool; d_window : option Z }.
Definition suppressed (d : Decision) : bool := bool_decide (is_Some (d_window d)) && negb (collect d).
Definition under_window (d : Decision) : bool := bool_decide (is_Some (d_window d)).
Definition COLLECT : Decision := MkDecision true None.

Abbreviation WindowIndex := (gmap Z (list CompiledWindow)).
Definition EMPTY : WindowIndex := ∅.

(** [by_ne.setdefault(ne_id, []).append(window)], for each of the window's targets. *)
Definition file_window (by_ne : WindowIndex) (w : CompiledWindow) : WindowIndex :=
  foldl (fun m ne => <[ne := default [] (m !! ne) ++ [w]]> m) by_ne (elements (dom (targets w))).

Definition compile_windows (windows : list CompiledWindow) : WindowIndex := foldl file_window ∅ windows.

Definition rules_for (w : CompiledWindow) (ne_id : Z) : TargetRules :=
  default COLLECT_NOTHING (targets w !! ne_id).

Definition decide_trap (ix : WindowIndex) (ne_id : Z) (ts : float) (trap_oid : string)
    (varbind_oids : list string) (severity_rank : option Z) : Decision :=
  match ix !! ne_id with
  | None => COLLECT
  | Some windows =>
      match List.filter (fun w => covers w ts) windows with
      | [] => COLLECT
      | (first :: _) as covering =>
          match List.find (fun w => admits (rules_for w ne_id) ts trap_oid varbind_oids severity_rank) covering with
          | Some w => MkDecision true (Some (window_id w))
          | None => MkDecision false (Some (window_id first))
          end
      end
  end.

(** [seen.setdefault(window.window_id, window)]; the answer in order of id. *)
Definition active (ix : WindowIndex) (ts : float) : list CompiledWindow :=
  let note (seen : gmap Z CompiledWindow) w :=
    if covers w ts then match seen !! window_id w with Some _ => seen | None => <[window_id w := w]> seen end
    else seen in
  let seen := foldl (foldl note) ∅ (map snd (map_to_list ix)) in
  omap (fun k => seen !! k) (sort_by Z.leb (elements (dom seen))).

(** ** Rows to rules *)

Record RuleRow := MkRuleRow {
  ne_id : Z; r_kind : string; severity_rank : option Z; oid_root : option string;
  match_on_raw : option string; slot_starts_at : option float; slot_ends_at : option float }.

Definition read_match_on (raw : option string) : MatchOn :=
  if bool_decide (raw = Some "trap") then MatchTrap else MatchVarbind.

(** [a or b] on floats: zero and a missing value are false. *)
Definition or_float (a : option float) (b : float) : float :=
  match a with Some x => if feqb x f_zero then b else x | None => b end.

Definition compile_row (t : TargetRules) (row : RuleRow) : TargetRules :=
  if String.eqb (r_kind row) "severity" && bool_decide (is_Some (severity_rank row)) then
    MkRules (severity t ++ [MkSeverityRule (default 0 (severity_rank row))]) (oid t) (slot t)
  else if String.eqb (r_kind row) "oid" && negb (String.eqb (default "" (oid_root row)) "") then
    MkRules (severity t) (oid t ++ [MkOidRule (default "" (oid_root row)) (read_match_on (match_on_raw row))]) (slot t)
  else if String.eqb (r_kind row) "slot" then
    match slot_starts_at row with
    | Some s => MkRules (severity t) (oid t) (slot t ++ [MkSlotRule s (or_float (slot_ends_at row) s)])
    | None => t
    end
  else t.

Definition compile_rules (rows : list RuleRow) : TargetRules := foldl compile_row COLLECT_NOTHING rows.

(** ** What the rules of a target mean *)

(** Rules of one kind are alternatives; kinds that have rules must each agree. *)
Definition kind_agrees {A} (rules : list A) (ok : A → bool) : Prop := rules = [] ∨ ∃ r, r ∈ rules ∧ ok r = true.

Lemma existsb_elem {A} (p : A → bool) l : existsb p l = true ↔ ∃ x, x ∈ l ∧ p x = true.
Proof. rewrite existsb_exists. by setoid_rewrite <- list_elem_of_In. Qed.

Lemma kind_agrees_bool {A} (l : list A) ok :
  kind_agrees l ok ↔ no_rule l || existsb ok l = true.
Proof.
  unfold kind_agrees. rewrite orb_true_iff, existsb_elem.
  destruct l; simpl; (split; [intros [Hl|Hl]; [left; done | by right] | intros [Hl|Hl]; [left; done | by right]]).
Qed.

Lemma admits_spec t ts o vos sr :
  admits t ts o vos sr = true ↔
  t ≠ COLLECT_NOTHING ∧ kind_agrees (slot t) (fun r => slot_admits r ts) ∧
  kind_agrees (severity t) (fun r => severity_admits r sr) ∧
  kind_agrees (oid t) (fun r => oid_admits r o vos).
Proof.
  rewrite !kind_agrees_bool. unfold admits.
  assert (collects_nothing t = true ↔ t = COLLECT_NOTHING) as Hc.
  { destruct t as [[] [] []]; unfold collects_nothing, COLLECT_NOTHING; simpl; split; congruence. }
  destruct (collects_nothing t).
  - split; [done|]. intros (Ht & _). by destruct Ht; apply Hc.
  - assert (t ≠ COLLECT_NOTHING) by (intros Ht; by apply Hc in Ht).
    destruct (no_rule (slot t)), (existsb _ (slot t)), (no_rule (severity t)), (existsb _ (severity t)); simpl; naive_solver.
Qed.

(** ** The snapshot answers as a walk over the windows would *)

Lemma file_window_lookup by_ne w ne :
  default [] (file_window by_ne w !! ne) =
  default [] (by_ne !! ne) ++ (if bool_decide (is_Some (targets w !! ne)) then [w] else []).
Proof.
  unfold file_window. rewrite (bool_decide_ext _ (ne ∈ elements (dom (targets w)))) by
    (by rewrite elem_of_elements, elem_of_dom).
  pose proof (NoDup_elements (dom (targets w))) as Hnd. revert by_ne.
  induction (elements (dom (targets w))) as [|k ks IH]; intros by_ne; cbn [foldl].
  - rewrite bool_decide_false by set_solver. by rewrite app_nil_r.
  - apply NoDup_cons in Hnd as [Hk Hnd]. rewrite IH by done. destruct (decide (k = ne)) as [->|Hne].
    + rewrite lookup_insert_eq. simpl. rewrite bool_decide_false by done.
      rewrite bool_decide_true by set_solver. by rewrite app_nil_r.
    + rewrite lookup_insert_ne by done. f_equal.
      by rewrite (bool_decide_ext (ne ∈ k :: ks) (ne ∈ ks)) by set_solver.
Qed.

Definition targeting (ne : Z) (ws : list CompiledWindow) : list CompiledWindow :=
  List.filter (fun w => bool_decide (is_Some (targets w !! ne))) ws.

Lemma compile_windows_lookup ws ne : default [] (compile_windows ws !! ne) = targeting ne ws.
Proof.
  unfold compile_windows, targeting. induction ws as [|w ws IH] using rev_ind; [done|].
  rewrite foldl_snoc, file_window_lookup, IH, List.filter_app. simpl. by destruct (bool_decide _).
Qed.

(** The decision, with no index. *)
Definition decide_flat (ws : list CompiledWindow) (ne : Z) (ts : float) (o : string) (vos : list string)
    (sr : option Z) : Decision :=
  let in_force := List.filter (fun w => covers w ts) (targeting ne ws) in
  match List.find (fun w => admits (rules_for w ne) ts o vos sr) in_force, in_force with
  | Some w, _ => MkDecision true (Some (window_id w))
  | None, first :: _ => MkDecision false (Some (window_id first))
  | None, [] => COLLECT
  end.

Lemma decide_trap_flat ws ne ts o vos sr :
  decide_trap (compile_windows ws) ne ts o vos sr = decide_flat ws ne ts o vos sr.
Proof.
  unfold decide_trap, decide_flat. rewrite <- (compile_windows_lookup ws ne).
  destruct (compile_windows ws !! ne) as [l|]; [|done]. cbn [default from_option id].
  generalize (List.filter (fun w => covers w ts) l). intros [|f fs]; [done|]. done.
Qed.
