(* ===== verification/WindowLife.v ===== *)
(** * The life of a maintenance window ([store/maintenance_windows.py], [mw_compile.py],
    [store/codecs.py], [api/routes/maintenance.py], [maintenance_ops.py], [api/mw_shape.py])

    The rows, the clock's transitions and the people's, and the snapshot built from the rows. A row
    keeps instants as the database does, in microseconds. Words nobody here reads (description,
    zone, visibility, owner, key) are left out; who may see a window is not modelled. *)
From S2P Require Import Prelude PyLib Auth Oids Windows.

(** ** Instants *)

(** [round(x)]: to the nearest integer, ties to even. *)
Definition f_round (x : float) : Z :=
  match x with
  | S754_finite s m e =>
      let z := if 0 <=? e then Z.pos m * 2 ^ e
               else let d := 2 ^ (- e) in
                    let q := Z.pos m / d in
                    let r := Z.pos m mod d in
                    if 2 * r <? d then q else if d <? 2 * r then q + 1
                    else if Z.even q then q else q + 1 in
      if s then - z else z
  | _ => 0
  end.

Definition PG_EPOCH_US : Z := 946684800000000.
Definition INFINITY_US : Z := 9223372036854775807.

(** Of a number, not NaN. *)
Definition encode_instant (seconds : float) : Z :=
  match seconds with
  | S754_infinity false => INFINITY_US
  | S754_infinity true => - INFINITY_US - 1
  | _ => f_round (fmul seconds (f_of_Z 1000000)) - PG_EPOCH_US
  end.

(** The quotient of two integers below 2^53, rounded once. *)
Definition decode_instant (us : Z) : float :=
  if us =? INFINITY_US then S754_infinity false
  else if us =? - INFINITY_US - 1 then S754_infinity true
  else fdiv (f_of_Z (us + PG_EPOCH_US)) (f_of_Z 1000000).

(** ** Rows *)

Inductive w_status := pending_confirmation | scheduled | active | ended | cancelled | expired.
#[global] Instance w_status_eq_dec : EqDecision w_status.
Proof. solve_decision. Defined.

Definition LIVE_STATUSES : list w_status := [pending_confirmation; scheduled; active].
Definition CONFIRMATION_THRESHOLD_S : float := f_of_Z (6 * 3600).

#[global] Instance RuleRow_eq_dec : EqDecision RuleRow.
Proof. solve_decision. Defined.

Record Window := MkWindow {
  w_id : Z; w_name : string; w_organization : Z; status : w_status;
  w_starts : Z; w_ends : Z; patch_s : float; w_ledger : bool;
  needs_confirmation : bool; confirmed_at : option Z; confirmed_by : option string;
  updated_at : Z; cancelled_at : option Z; ended_at : option Z;
  w_targets : gset Z; w_rules : list RuleRow }.

Abbreviation Table := (gmap Z Window).

Definition set_status (s : w_status) (now : Z) (w : Window) : Window :=
  MkWindow (w_id w) (w_name w) (w_organization w) s (w_starts w) (w_ends w) (patch_s w) (w_ledger w)
    (needs_confirmation w) (confirmed_at w) (confirmed_by w) now (cancelled_at w) (ended_at w)
    (w_targets w) (w_rules w).

Definition set_confirmed (at_ : option Z) (by_ : option string) (w : Window) : Window :=
  MkWindow (w_id w) (w_name w) (w_organization w) (status w) (w_starts w) (w_ends w) (patch_s w) (w_ledger w)
    (needs_confirmation w) at_ by_ (updated_at w) (cancelled_at w) (ended_at w) (w_targets w) (w_rules w).

Definition set_over (cancelled_at ended_at : option Z) (w : Window) : Window :=
  MkWindow (w_id w) (w_name w) (w_organization w) (status w) (w_starts w) (w_ends w) (patch_s w) (w_ledger w)
    (needs_confirmation w) (confirmed_at w) (confirmed_by w) (updated_at w) cancelled_at ended_at
    (w_targets w) (w_rules w).

Definition set_schedule (starts ends : Z) (patch : float) (needs : bool) (w : Window) : Window :=
  MkWindow (w_id w) (w_name w) (w_organization w) (status w) starts ends patch (w_ledger w)
    needs (confirmed_at w) (confirmed_by w) (updated_at w) (cancelled_at w) (ended_at w)
    (w_targets w) (w_rules w).

Definition set_what (name : string) (ledger : bool) (targets : gset Z) (rules : list RuleRow) (w : Window) : Window :=
  MkWindow (w_id w) name (w_organization w) (status w) (w_starts w) (w_ends w) (patch_s w) ledger
    (needs_confirmation w) (confirmed_at w) (confirmed_by w) (updated_at w) (cancelled_at w) (ended_at w)
    targets rules.

(** ** The writes *)

(** [UPDATE ... WHERE id=? AND status IN (...)]: whether a row matched. *)
Definition update_where (wid : Z) (statuses : list w_status) (f : Window → Window) (t : Table) : bool * Table :=
  match t !! wid with
  | Some w => if bool_decide (status w ∈ statuses) then (true, <[wid := f w]> t) else (false, t)
  | None => (false, t)
  end.

(** [status] is one of [scheduled] and [active] here; the source raises [ValueError] on another. *)
Definition confirm_window (wid : Z) (by_ref : string) (now : Z) (to : w_status) (t : Table) : bool * Table :=
  update_where wid [pending_confirmation] (fun w => set_confirmed (Some now) (Some by_ref) (set_status to now w)) t.

Definition cancel_window (wid : Z) (now : Z) (t : Table) : bool * Table :=
  update_where wid LIVE_STATUSES (fun w => set_over (Some now) (ended_at w) (set_status cancelled now w)) t.

Definition end_window_now (wid : Z) (now : Z) (t : Table) : bool * Table :=
  update_where wid LIVE_STATUSES (fun w => set_over (cancelled_at w) (Some now) (set_status ended now w)) t.

Definition reschedule (starts ends : Z) (patch : float) (needs : bool) (to : w_status) (now : Z) (w : Window) : Window :=
  let w := set_schedule starts ends patch needs (set_status to now w) in
  if bool_decide (to = pending_confirmation) then set_confirmed None None w else w.

Definition update_window_schedule (wid : Z) (starts ends : Z) (patch : float) (needs : bool) (to : w_status)
    (now : Z) (t : Table) : Table := alter (reschedule starts ends patch needs to now) wid t.

Section clock.
(** [secs(patch_s)]: PostgreSQL's interval of that many seconds, in microseconds. *)
Context (secs : float → Z).

Definition effective_start (w : Window) : Z := w_starts w - secs (patch_s w).
Definition effective_end (w : Window) : Z := w_ends w + secs (patch_s w).

Definition expire (now : Z) (w : Window) : Window :=
  if bool_decide (status w = pending_confirmation) && (effective_start w <=? now)
  then set_status expired now w else w.

Definition activate (now : Z) (w : Window) : Window :=
  if bool_decide (status w = scheduled) && (effective_start w <=? now) && (now <? effective_end w)
  then set_status active now w else w.

Definition ends_now (now : Z) (w : Window) : bool :=
  bool_decide (status w ∈ [active; scheduled]) && (effective_end w <=? now).

Definition end_on_time (now : Z) (w : Window) : Window :=
  if ends_now now w
  then set_over (cancelled_at w) (Some (default now (ended_at w))) (set_status ended now w) else w.

Definition advance_statuses (now : Z) (t : Table) : list Z * Table :=
  let t := activate now <$> (expire now <$> t) in
  (sort_by Z.leb (map fst (filter (fun p => ends_now now p.2 = true) (map_to_list t))), end_on_time now <$> t).

(** ** The snapshot's rows *)

Definition INDEX_LOOKAHEAD_US : Z := 3600000000.
Definition INDEX_LOOKBEHIND_US : Z := 60000000.

Definition indexed (now : Z) (w : Window) : bool :=
  bool_decide (status w ∈ [scheduled; active]) && (effective_start w <=? now + INDEX_LOOKAHEAD_US)
  && (now - INDEX_LOOKBEHIND_US <=? effective_end w).

Definition id_leb (a b : Z * Window) : bool := a.1 <=? b.1.

Definition window_index_rows (now : Z) (t : Table) : list Window :=
  List.filter (indexed now) (map snd (sort_by id_leb (map_to_list t))).
End clock.

Definition rules_on (rows : list RuleRow) (ne : Z) : TargetRules :=
  compile_rules (List.filter (fun r => ne_id r =? ne) rows).

Definition compile_window (w : Window) : CompiledWindow :=
  build (w_id w) (w_name w) (w_organization w) (decode_instant (w_starts w)) (decode_instant (w_ends w))
    (patch_s w) (set_to_map (fun ne => (ne, rules_on (w_rules w) ne)) (w_targets w)) (w_ledger w).

Definition from_rows (rows : list Window) : WindowIndex := compile_windows (map compile_window rows).

(** ** The routes

    Each reads the window ([read]) before it takes the lock, and decides on what it read. *)

Definition over_threshold (starts ends : float) : bool := fltb CONFIRMATION_THRESHOLD_S (fsub ends starts).

Definition initial_status (starts now : float) : w_status := if fleb starts now then active else scheduled.

Definition lengthened (read : Window) (starts ends : float) : bool :=
  fltb (fsub (decode_instant (w_ends read)) (decode_instant (w_starts read))) (fsub ends starts).

Definition restatus (read : Window) (needs : bool) (starts now ends : float) : w_status :=
  if needs && (bool_decide (confirmed_at read = None) || lengthened read starts ends) then pending_confirmation
  else initial_status starts now.

Inductive refused := Status403 | Status409 | Status422.

Definition answered (r : bool * Table) : res refused Table := if r.1 then Ok r.2 else Err Status409.

Definition confirm (p : Principal) (wid : Z) (now : float) (t : Table) : res refused Table :=
  if is_token p then Err Status403
  else answered (confirm_window wid (default "-" (ref p)) (encode_instant now) scheduled t).

Definition cancel (wid : Z) (now : float) (t : Table) : res refused Table :=
  answered (cancel_window wid (encode_instant now) t).

Definition end_now (wid : Z) (now : float) (t : Table) : res refused Table :=
  answered (end_window_now wid (encode_instant now) t).

Definition extend (read : Window) (ends now : float) (t : Table) : res refused Table :=
  let starts := decode_instant (w_starts read) in
  if negb (bool_decide (status read ∈ LIVE_STATUSES)) then Err Status409
  else if fleb ends (decode_instant (w_ends read)) then Err Status422
  else
    let needs := over_threshold starts ends in
    Ok (update_window_schedule (w_id read) (encode_instant starts) (encode_instant ends) (patch_s read) needs
          (restatus read needs starts now ends) (encode_instant now) t).

(** What the body of a create or an update asks for. *)
Record Body := MkBody {
  b_name : string; b_organization : Z; b_starts : float; b_ends : float; b_patch : float; b_ledger : bool;
  b_targets : gset Z; b_rules : list RuleRow; b_confirm : bool }.

Definition fabs (x : float) : float := SFabs x.
Definition half : float := f_lit 1 2.

(** [sorted(a) != sorted(b)] on rows: they differ as multisets. *)
Definition same_rows (a b : list RuleRow) : bool :=
  forallb (fun r => Nat.eqb (length (List.filter (fun x => bool_decide (x = r)) a))
                      (length (List.filter (fun x => bool_decide (x = r)) b))) (a ++ b).

(** The zone is among the words left out. *)
Definition frozen_while_active (read : Window) (b : Body) (current_targets : gset Z) (current_rules : list RuleRow)
  : bool :=
  bool_decide (status read = active) &&
  (fltb half (fabs (fsub (decode_instant (w_starts read)) (b_starts b)))
   || fltb half (fabs (fsub (patch_s read) (b_patch b)))
   || negb (Bool.eqb (w_ledger read) (b_ledger b))
   || negb (bool_decide (current_targets = b_targets b))
   || negb (same_rows current_rules (b_rules b))).

(** [b] carries the targets and rules outside the caller's scope as the route adds them back. *)
Definition update (read : Window) (current_targets : gset Z) (current_rules : list RuleRow) (b : Body) (now : float)
    (t : Table) : res refused Table :=
  if negb (bool_decide (status read ∈ LIVE_STATUSES)) then Err Status409
  else if frozen_while_active read b current_targets current_rules then Err Status409
  else if bool_decide (status read = active) && fleb (b_ends b) now
            && fltb half (fabs (fsub (b_ends b) (decode_instant (w_ends read)))) then Err Status422
  else
    let needs := over_threshold (b_starts b) (b_ends b) in
    let to := restatus read needs (b_starts b) now (b_ends b) in
    let t := update_window_schedule (w_id read) (encode_instant (b_starts b)) (encode_instant (b_ends b)) (b_patch b)
               needs to (encode_instant now) t in
    Ok (alter (set_what (b_name b) (b_ledger b) (b_targets b) (b_rules b)) (w_id read) t).

Definition create (p : Principal) (may_confirm : bool) (wid : Z) (b : Body) (now : float) (t : Table)
  : res refused Table :=
  let needs := over_threshold (b_starts b) (b_ends b) in
  let confirm_now := needs && b_confirm b in
  if confirm_now && (is_token p || negb may_confirm) then Err Status403
  else
    let at_ := encode_instant now in
    let w := MkWindow wid (b_name b) (b_organization b)
               (if needs then pending_confirmation else initial_status (b_starts b) now)
               (encode_instant (b_starts b)) (encode_instant (b_ends b)) (b_patch b) (b_ledger b) needs
               None None at_ None None (b_targets b)
               (List.filter (fun r => bool_decide (ne_id r ∈ b_targets b)) (b_rules b)) in
    let t := <[wid := w]> t in
    Ok (if confirm_now
        then (confirm_window wid (default "-" (ref p)) at_ (initial_status (b_starts b) now) t).2 else t).

(** ** What every history of the table keeps *)

(** What was agreed to, in order: [Some p] where the principal [p] confirmed the window, [None] where a
    change over the threshold made it longer than what the change had read. *)
Abbreviation Agreements := (list (Z * option Principal)).

(** Some person, and no agent, confirmed it. *)
Definition ever_agreed (log : Agreements) (wid : Z) : Prop := ∃ p, (wid, Some p) ∈ log ∧ is_token p = false.
(** The last that was said of it: a person confirmed it, and it was not made longer since. *)
Definition agreed_by (log : Agreements) (wid : Z) (p : Principal) : Prop :=
  last (List.filter (fun e => e.1 =? wid) log) = Some (wid, Some p) ∧ is_token p = false.

Record window_ok (w : Window) : Prop := {
  wo_force : status w ∈ [scheduled; active] → needs_confirmation w = true → confirmed_at w ≠ None;
  wo_pending : status w = pending_confirmation → needs_confirmation w = true ∧ confirmed_at w = None }.

Definition table_ok (t : Table) : Prop := ∀ k w, t !! k = Some w → w_id w = k ∧ window_ok w.

(** What a transaction does to one window. *)
Definition change (f : Window → Window) : Prop := ∀ w, window_ok w → w_id (f w) = w_id w ∧ window_ok (f w).

Lemma table_ok_insert t k w : table_ok t → w_id w = k → window_ok w → table_ok (<[k := w]> t).
Proof. intros Ht Hk Hw k' w' [[<- <-]|[? ?]]%lookup_insert_Some; [done | by apply Ht]. Qed.

Lemma table_ok_fmap t f : change f → table_ok t → table_ok (f <$> t).
Proof.
  intros Hf Ht k w H. apply lookup_fmap_Some in H as (v & <- & Hv).
  destruct (Ht _ _ Hv) as [<- Hok]. by apply Hf.
Qed.

Lemma update_where_inv wid statuses f t t' :
  answered (update_where wid statuses f t) = Ok t' →
  ∃ w, t !! wid = Some w ∧ status w ∈ statuses ∧ t' = <[wid := f w]> t.
Proof.
  unfold answered, update_where. destruct (t !! wid) as [w|]; [|done].
  case_bool_decide; simpl; [|done]. intros [= <-]. eauto.
Qed.

(** What the promise reads of a row. *)
Definition core (w : Window) : Z * w_status * bool * option Z * option string :=
  (w_id w, status w, needs_confirmation w, confirmed_at w, confirmed_by w).
Lemma window_ok_core w w' : core w = core w' → window_ok w → window_ok w'.
Proof. intros [= _ E1 E2 E3 _] [H1 H2]. split; rewrite <- E1, <- E2, <- E3; done. Qed.

Lemma confirmed_ok now by_ to w : to ∈ [scheduled; active] → window_ok (set_confirmed (Some now) by_ (set_status to now w)).
Proof. intros Hto. split; simpl; [done | intros ->; set_solver]. Qed.

Lemma initial_in starts now : initial_status starts now ∈ [scheduled; active].
Proof. unfold initial_status. destruct (fleb starts now); set_solver. Qed.

Lemma alter_is_insert (t : Table) k w f : t !! k = Some w → alter f k t = <[k := f w]> t.
Proof.
  intros H. apply map_eq. intros i. destruct (decide (i = k)) as [->|].
  - by rewrite lookup_alter_eq, H, lookup_insert_eq.
  - by rewrite lookup_alter_ne, lookup_insert_ne.
Qed.
Lemma alter_absent (t : Table) k f : t !! k = None → alter f k t = t.
Proof.
  intros H. apply map_eq. intros i. destruct (decide (i = k)) as [->|]; [by rewrite lookup_alter_eq, H|by rewrite lookup_alter_ne].
Qed.

(** What each route writes. *)
Lemma create_writes p may wid b now t t' : t !! wid = None → create p may wid b now t = Ok t' →
  ∃ w, t' = <[wid := w]> t ∧ w_id w = wid ∧ window_ok w ∧
  (if over_threshold (b_starts b) (b_ends b) && b_confirm b then is_token p = false ∧ confirmed_by w = Some (default "-" (ref p))
   else confirmed_at w = None).
Proof.
  unfold create. set (needs := over_threshold _ _). set (w := MkWindow _ _ _ _ _ _ _ _ _ _ _ _ _ _ _ _). intros _.
  destruct (needs && b_confirm b) eqn:Hc; simpl.
  - destruct (is_token p) eqn:Hp; simpl; [done|]. destruct may; [|done]. intros [= <-].
    unfold confirm_window, update_where. rewrite lookup_insert_eq. apply andb_true_iff in Hc as [Hneeds _].
    rewrite bool_decide_true by (subst w; simpl; rewrite Hneeds; set_solver). simpl. rewrite insert_insert_eq.
    eexists. split; [done|]. split; [done|]. split; [apply confirmed_ok, initial_in|done].
  - intros [= <-]. exists w. split; [done|]. split; [done|]. split; [|done].
    split; subst w; simpl; [destruct needs; [set_solver | done]|by destruct needs; [|unfold initial_status; destruct (fleb _ _)]].
Qed.

(** The row a change of schedule writes, by what it read. *)
Definition rewrites (v : Window) (starts ends now : float) (f : Window → Window) : Prop :=
  ∃ s e patch at_, let needs := over_threshold starts ends in
  ∀ w, core (f w) = core (reschedule s e patch needs (restatus v needs starts now ends) at_ w).

Lemma extend_writes v ends now t t' : extend v ends now t = Ok t' →
  ∃ f, t' = alter f (w_id v) t ∧ rewrites v (decode_instant (w_starts v)) ends now f.
Proof.
  unfold extend. destruct (negb _); [done|]. destruct (fleb _ _); [done|]. intros [= <-]. eexists. split; [done|]. by eexists _, _, _, _.
Qed.
Lemma update_writes v ct cr b now t t' : update v ct cr b now t = Ok t' →
  ∃ f, t' = alter f (w_id v) t ∧ rewrites v (b_starts b) (b_ends b) now f.
Proof.
  unfold update. destruct (negb _); [done|]. destruct (frozen_while_active _ _ _ _); [done|]. destruct (_ && _); [done|]. intros [= <-].
  eexists. split; [unfold update_window_schedule; apply alter_alter_eq|]. by eexists _, _, _, _.
Qed.

(** A change to [pending_confirmation] takes the confirmation away, any other keeps it, and is to be
    confirmed only if the row read was and the change is no longer. *)
Lemma rewrites_cases v starts ends now f w : rewrites v starts ends now f →
  let needs := over_threshold starts ends in
  w_id (f w) = w_id w ∧ needs_confirmation (f w) = needs ∧
  if needs && (bool_decide (confirmed_at v = None) || lengthened v starts ends)
  then status (f w) = pending_confirmation ∧ confirmed_at (f w) = None
  else status (f w) ∈ [scheduled; active] ∧ confirmed_at (f w) = confirmed_at w ∧ confirmed_by (f w) = confirmed_by w.
Proof.
  intros (s & e & patch & at_ & E). specialize (E w). unfold reschedule, restatus in E. cbv zeta.
  destruct (over_threshold starts ends && _).
  - rewrite bool_decide_true in E by done. injection E as -> -> -> -> _. done.
  - rewrite bool_decide_false in E by (unfold initial_status; by destruct (fleb _ _)). injection E as -> -> -> -> ->.
    split_and!; try done. apply initial_in.
Qed.
Lemma rewrites_ok w starts ends now f : rewrites w starts ends now f → window_ok w → window_ok (f w).
Proof.
  intros H [H1 H2]. destruct (rewrites_cases w starts ends now f w H) as (_ & Hn & Hc).
  destruct (over_threshold starts ends); cbn [andb] in Hc; [destruct (_ || _) eqn:E|].
  - destruct Hc as [Hs Ha]. split; [rewrite Hs; set_solver|done].
  - destruct Hc as (Hs & Ha & _). apply orb_false_iff in E as [E%bool_decide_eq_false _]. split; [by rewrite Ha|intros Hp; rewrite Hp in Hs; set_solver].
  - destruct Hc as (Hs & Ha & _). split; [by rewrite Hn|intros Hp; rewrite Hp in Hs; set_solver].
Qed.

Section life.
Context (secs : float → Z).

(** The table, every row it ever held, and what was agreed to. *)
Record State := MkState { table : Table; seen : list Window; agreed : Agreements }.
Definition start : State := MkState ∅ [] [].
Definition next (s : State) (t : Table) (said : Agreements) : State :=
  MkState t (seen s ++ map snd (map_to_list t)) (agreed s ++ said).

(** Said of a window by a change that is over the threshold and longer than what it read. *)
Definition longer (read : Window) (starts ends : float) : Agreements :=
  if over_threshold starts ends && lengthened read starts ends then [(w_id read, None)] else [].

(** A change reads its window before it takes the lock: the row as it is at the write, or, where reads may
    be [stale], any row the window ever had. What an update compares the targets and rules with
    ([targets], [rules]) is read apart, and is anything. *)
Definition reads (stale : bool) (s : State) (w : Window) : Prop :=
  if stale then w ∈ seen s else table s !! w_id w = Some w.

Inductive step (stale : bool) : State → State → Prop :=
| step_create p may wid b now s t' :
    table s !! wid = None → create p may wid b now (table s) = Ok t' →
    step stale s (next s t' (if over_threshold (b_starts b) (b_ends b) && b_confirm b then [(wid, Some p)] else []))
| step_confirm p wid now s t' : confirm p wid now (table s) = Ok t' → step stale s (next s t' [(wid, Some p)])
| step_cancel wid now s t' : cancel wid now (table s) = Ok t' → step stale s (next s t' [])
| step_end wid now s t' : end_now wid now (table s) = Ok t' → step stale s (next s t' [])
| step_extend w ends now s t' :
    reads stale s w → extend w ends now (table s) = Ok t' → step stale s (next s t' (longer w (decode_instant (w_starts w)) ends))
| step_update w targets rules b now s t' :
    reads stale s w → update w targets rules b now (table s) = Ok t' → step stale s (next s t' (longer w (b_starts b) (b_ends b)))
| step_tick now s : step stale s (next s (advance_statuses secs now (table s)).2 []).

(** The states of an appliance: any number of steps from no window. *)
Inductive history (stale : bool) : State → Prop :=
| history_start : history stale start
| history_step s s' : history stale s → step stale s s' → history stale s'.

Lemma expire_ok now : change (expire secs now).
Proof.
  intros w [H1 H2]. unfold expire. destruct (_ && _); [|done]. by split; [|split; simpl; [set_solver|..]].
Qed.

Lemma activate_ok now : change (activate secs now).
Proof.
  intros w [H1 H2]. unfold activate. case_bool_decide as Hs; simpl; [|done].
  destruct (_ && _); [|done]. split; [done|]. split; simpl; [|done].
  intros _. apply H1. rewrite Hs. set_solver.
Qed.

Lemma end_ok now : change (end_on_time secs now).
Proof.
  intros w [H1 H2]. unfold end_on_time. destruct (ends_now secs now w); [|done].
  split; [done|]. split; simpl; [set_solver | done].
Qed.

(** A tick leaves what was agreed to, and puts in force only what was due to be. *)
Lemma tick_core now w :
  let w' := end_on_time secs now (activate secs now (expire secs now w)) in
  w_id w' = w_id w ∧ needs_confirmation w' = needs_confirmation w ∧ confirmed_at w' = confirmed_at w ∧ confirmed_by w' = confirmed_by w
  ∧ (status w' ∈ [scheduled; active] → status w ∈ [scheduled; active]).
Proof.
  unfold end_on_time, activate, expire. destruct w as [i n o [] st en p l nd ca cb up cc eo tg rl]; simpl; repeat case_match; split_and!; simpl; try done;
    try set_solver; intros; reflect_bools; try done; set_solver.
Qed.
Lemma tick_lookup now t k :
  (advance_statuses secs now t).2 !! k = (fun w => end_on_time secs now (activate secs now (expire secs now w))) <$> (t !! k).
Proof. simpl. rewrite !lookup_fmap. by destruct (t !! k). Qed.

(** *** What an agreement keeps to *)

Lemma agreed_other log said wid k p : (∀ e, e ∈ said → e.1 = wid) → k ≠ wid → agreed_by log k p → agreed_by (log ++ said) k p.
Proof.
  intros Hs Hk [H Hp]. split; [|done]. rewrite List.filter_app.
  assert (List.filter (fun e => e.1 =? k) said = []) as ->; [|by rewrite app_nil_r].
  induction said as [|e said IH]; [done|]. cbn [List.filter]. rewrite (Hs e) by left.
  rewrite (proj2 (Z.eqb_neq _ _)) by done. apply IH. intros e' He'. apply Hs. by right.
Qed.
Lemma agreed_last log wid p : is_token p = false → agreed_by (log ++ [(wid, Some p)]) wid p.
Proof. intros Hp. split; [|done]. rewrite List.filter_app. cbn. by rewrite Z.eqb_refl, last_snoc. Qed.
Lemma agreed_ever log wid p : agreed_by log wid p → ever_agreed log wid.
Proof.
  intros [H Hp]. exists p. split; [|done]. apply last_Some_elem_of, list_elem_of_In, filter_In in H as [H _]. by apply list_elem_of_In.
Qed.
Lemma ever_app log said wid : ever_agreed log wid → ever_agreed (log ++ said) wid.
Proof. intros (p & H & Hp). exists p. split; [|done]. apply elem_of_app. by left. Qed.

(** *** Where a change reads the row it writes *)

Definition fresh_ok (s : State) : Prop :=
  table_ok (table s) ∧ ∀ k w, table s !! k = Some w → confirmed_at w ≠ None →
    ∃ p, agreed_by (agreed s) k p ∧ confirmed_by w = Some (default "-" (ref p)).

Lemma fresh_insert s wid w said :
  fresh_ok s → w_id w = wid → window_ok w → (∀ e, e ∈ said → e.1 = wid) →
  (confirmed_at w ≠ None → ∃ p, agreed_by (agreed s ++ said) wid p ∧ confirmed_by w = Some (default "-" (ref p))) →
  fresh_ok (next s (<[wid := w]> (table s)) said).
Proof.
  intros [Ht Ha] Hid Hok Hs Hw. split; [by apply table_ok_insert|]. intros k v Hv Hc. cbn in Hv. apply lookup_insert_Some in Hv as [[<- <-]|[Hk Hv]]; [by apply Hw|].
  destruct (Ha _ _ Hv Hc) as (p & Hp & Hb). exists p. split; [|done]. by apply (agreed_other _ _ wid).
Qed.

Lemma fresh_rewrites s v starts ends now f :
  fresh_ok s → table s !! w_id v = Some v → rewrites v starts ends now f →
  fresh_ok (next s (alter f (w_id v) (table s)) (longer v starts ends)).
Proof.
  intros H Hv Hf. pose proof H as [Ht Ha]. rewrite (alter_is_insert _ _ v) by done. destruct (Ht _ _ Hv) as [_ Hok].
  destruct (rewrites_cases v starts ends now f v Hf) as (Hid & Hn & Hc).
  apply fresh_insert; [done|done|by eapply rewrites_ok| |]; unfold longer.
  { intros e. clear. destruct (_ && _); set_solver. }
  destruct (over_threshold starts ends); cbn [andb] in *; [destruct (lengthened v starts ends); [rewrite orb_true_r in Hc; by destruct Hc as [_ ->]|]|];
    rewrite app_nil_r.
  - destruct (_ || _); [by destruct Hc as [_ ->]|]. destruct Hc as (_ & -> & ->). by apply Ha.
  - destruct Hc as (_ & -> & ->). by apply Ha.
Qed.

Lemma fresh_step s s' : step false s s' → fresh_ok s → fresh_ok s'.
Proof.
  intros Hs H. pose proof H as [Ht Ha].
  assert (∀ k w w', table s !! k = Some w → w_id w' = w_id w → window_ok w' → confirmed_at w' = confirmed_at w → confirmed_by w' = confirmed_by w →
    fresh_ok (next s (<[k := w']> (table s)) [])) as Hquiet.
  { intros k w w' Hw Hid Hok Ec Eb. apply fresh_insert; [done|rewrite Hid; by destruct (Ht _ _ Hw)|done|set_solver|]. rewrite Ec, Eb, app_nil_r. by apply Ha. }
  destruct Hs as [p may wid b now s t' Hnew Hc|p wid now s t' Hc|wid now s t' Hc|wid now s t' Hc|v ends now s t' Hv Hc|v ct cr b now s t' Hv Hc|now s].
  - destruct (create_writes _ _ _ _ _ _ _ Hnew Hc) as (w & -> & Hid & Hok & Hb).
    apply fresh_insert; [done|done|done|intros e; destruct (over_threshold _ _ && _); set_solver|]. destruct (_ && _); [|by rewrite Hb]. intros _. destruct Hb as [Hp Hb].
    exists p. split; [by apply agreed_last|done].
  - unfold confirm in Hc. destruct (is_token p) eqn:Hp; [done|]. apply update_where_inv in Hc as (w & Hw & _ & ->).
    apply fresh_insert; [done|by destruct (Ht _ _ Hw)|apply confirmed_ok; set_solver|set_solver|]. intros _. exists p. split; [by apply agreed_last|done].
  - apply update_where_inv in Hc as (w & Hw & _ & ->). destruct (Ht _ _ Hw) as [_ [H1 H2]]. eapply Hquiet; [exact Hw|done|split; simpl; [set_solver|done]|done|done].
  - apply update_where_inv in Hc as (w & Hw & _ & ->). destruct (Ht _ _ Hw) as [_ [H1 H2]]. eapply Hquiet; [exact Hw|done|split; simpl; [set_solver|done]|done|done].
  - apply extend_writes in Hc as (f & -> & Hf). by eapply fresh_rewrites.
  - apply update_writes in Hc as (f & -> & Hf). by eapply fresh_rewrites.
  - split; simpl table; [apply table_ok_fmap; [apply end_ok|]; apply table_ok_fmap; [apply activate_ok|]; by apply table_ok_fmap; [apply expire_ok|]|].
    intros k w Hw. assert ((advance_statuses secs now (table s)).2 !! k = Some w) as Hw' by exact Hw. clear Hw. rename Hw' into Hw. rewrite tick_lookup in Hw.
    destruct (table s !! k) as [v|] eqn:Hv; [|done]. injection Hw as <-. destruct (tick_core now v) as (_ & _ & -> & -> & _).
    unfold next. cbn [agreed]. rewrite app_nil_r. by apply Ha.
Qed.

(** *** Where a change may have read an older row *)

Definition agreed_row (log : Agreements) (w : Window) : Prop :=
  confirmed_at w ≠ None ∨ status w ∈ [scheduled; active] ∧ needs_confirmation w = true → ever_agreed log (w_id w).
Definition stale_ok (s : State) : Prop :=
  (∀ k w, table s !! k = Some w → w_id w = k ∧ w ∈ seen s) ∧ ∀ w, w ∈ seen s → agreed_row (agreed s) w.

Lemma stale_next s t said :
  stale_ok s → (∀ k w, t !! k = Some w → w_id w = k ∧ agreed_row (agreed s ++ said) w) → stale_ok (next s t said).
Proof.
  intros [_ Ha] Ht. split; cbn.
  - intros k w Hw. split; [by apply Ht|]. apply elem_of_app. right. apply list_elem_of_fmap. exists (k, w). by rewrite elem_of_map_to_list.
  - intros w [Hw|Hw]%elem_of_app.
    + intros Hc. by apply ever_app, Ha.
    + apply list_elem_of_fmap in Hw as ([k v] & -> & Hw). apply elem_of_map_to_list in Hw. by apply (Ht k).
Qed.
Lemma stale_insert s k w said :
  stale_ok s → w_id w = k → agreed_row (agreed s ++ said) w → stale_ok (next s (<[k := w]> (table s)) said).
Proof.
  intros H Hid Hw. apply stale_next; [done|]. destruct H as [Ht Ha]. intros j v [[<- <-]|[_ Hv]]%lookup_insert_Some; [done|].
  destruct (Ht _ _ Hv) as [Hj Hs]. split; [done|]. intros Hc. by apply ever_app, Ha.
Qed.
Lemma stale_rewrites s v starts ends now f :
  stale_ok s → v ∈ seen s → rewrites v starts ends now f → stale_ok (next s (alter f (w_id v) (table s)) (longer v starts ends)).
Proof.
  clear secs. intros H Hv Hf. pose proof H as [Ht Ha]. destruct (table s !! w_id v) as [w|] eqn:Hw.
  - rewrite (alter_is_insert _ _ w) by done. destruct (Ht _ _ Hw) as [Hid Hs].
    destruct (rewrites_cases v starts ends now f w Hf) as (Hi & Hn & Hc). apply stale_insert; [done|congruence|].
    intros Hwhy. apply ever_app. rewrite Hi, Hid. destruct (over_threshold starts ends); cbn [andb] in Hc; [destruct (_ || _) eqn:E|].
    + destruct Hc as [Hst Hca]. rewrite Hst, Hca in Hwhy. destruct Hwhy as [?|[? _]]; [done|set_solver].
    + apply orb_false_iff in E as [E%bool_decide_eq_false _]. apply Ha; [done|by left].
    + destruct Hc as (_ & Hca & _). rewrite <- Hid. apply Ha; [done|]. left. destruct Hwhy as [Hwhy|[_ Hwhy]]; congruence.
  - rewrite alter_absent by done. apply stale_next; [done|]. intros k w Hk. destruct (Ht _ _ Hk) as [? Hs]. split; [done|].
    intros Hc. by apply ever_app, Ha.
Qed.

Lemma stale_step s s' : step true s s' → stale_ok s → stale_ok s'.
Proof.
  intros Hs H. pose proof H as [Ht Ha].
  destruct Hs as [p may wid b now s t' Hnew Hc|p wid now s t' Hc|wid now s t' Hc|wid now s t' Hc|v ends now s t' Hv Hc|v ct cr b now s t' Hv Hc|now s].
  - destruct (create_writes _ _ _ _ _ _ _ Hnew Hc) as (w & -> & Hid & [Hf _] & Hb). apply stale_insert; [done..|].
    intros Hwhy. assert (confirmed_at w ≠ None) as Hn by naive_solver. destruct (_ && _); [|done]. destruct Hb as [Hp _].
    rewrite Hid. by apply (agreed_ever _ _ p), agreed_last.
  - unfold confirm in Hc. destruct (is_token p) eqn:Hp; [done|]. apply update_where_inv in Hc as (w & Hw & _ & ->).
    destruct (Ht _ _ Hw) as [Hid _]. apply stale_insert; [done..|]. intros _. simpl. rewrite Hid. by apply (agreed_ever _ _ p), agreed_last.
  - apply update_where_inv in Hc as (w & Hw & _ & ->). destruct (Ht _ _ Hw) as [Hid Hin]. apply stale_insert; [done..|].
    rewrite app_nil_r. intros Hwhy. apply (Ha w Hin). left. destruct Hwhy as [?|[? _]]; [done|set_solver].
  - apply update_where_inv in Hc as (w & Hw & _ & ->). destruct (Ht _ _ Hw) as [Hid Hin]. apply stale_insert; [done..|].
    rewrite app_nil_r. intros Hwhy. apply (Ha w Hin). left. destruct Hwhy as [?|[? _]]; [done|set_solver].
  - apply extend_writes in Hc as (f & -> & Hf). by eapply stale_rewrites.
  - apply update_writes in Hc as (f & -> & Hf). by eapply stale_rewrites.
  - apply stale_next; [done|]. intros k w Hw. rewrite tick_lookup in Hw. destruct (table s !! k) as [v|] eqn:Hv; [|done]. injection Hw as <-.
    destruct (Ht _ _ Hv) as [Hid Hin]. destruct (tick_core now v) as (E1 & E2 & E3 & _ & E5). split; [by rewrite E1|].
    rewrite app_nil_r. unfold agreed_row. rewrite E1, E2, E3. intros Hwhy. apply (Ha v Hin). destruct Hwhy as [?|[? ?]]; [by left|right; auto].
Qed.

Lemma fresh_history s : history false s → fresh_ok s.
Proof.
  induction 1 as [|s s' _ IH Hs]; [|by apply (fresh_step s)]. split; intros k w H; cbn in H; by apply lookup_empty_Some in H.
Qed.
Lemma stale_history s : history true s → stale_ok s.
Proof.
  induction 1 as [|s s' _ IH Hs]; [|by apply (stale_step s)]. split; [intros k w H; cbn in H; by apply lookup_empty_Some in H|intros w H; cbn in H; by apply elem_of_nil in H].
Qed.

(** ** The clock *)

(** What one tick makes of a status. *)
Definition clocked (now : Z) (w : Window) : w_status :=
  match status w with
  | pending_confirmation => if effective_start secs w <=? now then expired else pending_confirmation
  | scheduled => if effective_end secs w <=? now then ended
                 else if effective_start secs w <=? now then active else scheduled
  | active => if effective_end secs w <=? now then ended else active
  | s => s
  end.

Definition tick_row (now : Z) (w : Window) : Window := end_on_time secs now (activate secs now (expire secs now w)).

Lemma tick_row_spec now w :
  status (tick_row now w) = clocked now w ∧
  w_id (tick_row now w) = w_id w ∧ w_starts (tick_row now w) = w_starts w ∧ w_ends (tick_row now w) = w_ends w ∧
  patch_s (tick_row now w) = patch_s w ∧ w_targets (tick_row now w) = w_targets w ∧
  ends_now secs now (activate secs now (expire secs now w)) =
    bool_decide (clocked now w = ended) && negb (bool_decide (status w = ended)).
Proof.
  unfold tick_row, end_on_time, ends_now, activate, expire, clocked. rewrite !Z.ltb_antisym.
  destruct w as [i n o [] st en p l nd ca cb up cc eo tg rl]; unfold effective_start, effective_end; simpl;
    destruct (st - secs p <=? now) eqn:E1, (en + secs p <=? now) eqn:E2; simpl; rewrite ?E1, ?E2; simpl;
    rewrite ?E1, ?E2; simpl; repeat first [done | split; [done|]].
Qed.

Lemma advance_lookup now t k : (advance_statuses secs now t).2 !! k = tick_row now <$> (t !! k).
Proof. simpl. rewrite !lookup_fmap. by destruct (t !! k). Qed.

Lemma advance_ids now t k :
  k ∈ (advance_statuses secs now t).1 ↔ ∃ w, t !! k = Some w ∧ clocked now w = ended ∧ status w ≠ ended.
Proof.
  simpl. rewrite elem_of_sort_by, list_elem_of_fmap. split.
  - intros ([k' w] & -> & [He Hw]%list_elem_of_filter). apply elem_of_map_to_list in Hw. simpl in *.
    rewrite !lookup_fmap in Hw. destruct (t !! k') as [v|] eqn:Hv; simplify_eq/=. exists v. split; [done|].
    destruct (tick_row_spec now v) as (_ & _ & _ & _ & _ & _ & Hends). rewrite Hends in He.
    apply andb_true_iff in He as [? ?]. by reflect_bools.
  - intros (w & Hw & Hc & Hs). exists (k, activate secs now (expire secs now w)). split; [done|].
    apply list_elem_of_filter. simpl. split.
    + destruct (tick_row_spec now w) as (_ & _ & _ & _ & _ & _ & ->). by rewrite Hc, bool_decide_true, bool_decide_false.
    + apply elem_of_map_to_list. by rewrite !lookup_fmap, Hw.
Qed.

Lemma window_index_rows_elem now t w :
  w ∈ window_index_rows secs now t ↔ ∃ k, t !! k = Some w ∧ indexed secs now w = true.
Proof.
  unfold window_index_rows. rewrite list_elem_of_In, filter_In, <- list_elem_of_In, list_elem_of_fmap. split.
  - intros [([k v] & -> & Hv) Hi]. rewrite elem_of_sort_by in Hv. apply elem_of_map_to_list in Hv. eauto.
  - intros (k & Hk & Hi). split; [|done]. exists (k, w). split; [done|].
    rewrite elem_of_sort_by. by apply elem_of_map_to_list.
Qed.

(** After a tick the snapshot holds no window whose end has come: how far behind the rows reach
    never matters. *)
Lemma no_trailing_grace now t w :
  w ∈ window_index_rows secs now (advance_statuses secs now t).2 → now < effective_end secs w.
Proof.
  intros (k & Hk & Hi)%window_index_rows_elem. rewrite advance_lookup in Hk.
  destruct (t !! k) as [v|]; simplify_eq/=. destruct (tick_row_spec now v) as (Hs & _ & _ & He & Hp & _).
  unfold indexed in Hi. apply andb_true_iff in Hi as [Hi _]. apply andb_true_iff in Hi as [Hi _].
  apply bool_decide_eq_true in Hi. rewrite Hs, !elem_of_cons, elem_of_nil in Hi. unfold clocked in Hi.
  assert (effective_end secs (tick_row now v) = effective_end secs v) as -> by (unfold effective_end; by rewrite He, Hp).
  clear -Hi. destruct (Z.leb_spec (effective_end secs v) now); [exfalso | lia].
  destruct (status v), (effective_start secs v <=? now); naive_solver.
Qed.

(** ** A trap against the snapshot *)

Lemma compile_window_targets w ne :
  targets (compile_window w) !! ne = if bool_decide (ne ∈ w_targets w) then Some (rules_on (w_rules w) ne) else None.
Proof.
  unfold compile_window, build. simpl. case_bool_decide as Hn.
  - apply lookup_set_to_map; [naive_solver|]. by exists ne.
  - destruct (_ !! ne) eqn:E; [|done]. apply lookup_set_to_map in E as (k & Hk & [= <- _]); [done | naive_solver].
Qed.

(** [w] is in the snapshot taken at [now], over the element and at the instant of a trap. *)
Definition in_force (now : Z) (t : Table) (ne : Z) (ts : float) (w : Window) : Prop :=
  (∃ k, t !! k = Some w) ∧ indexed secs now w = true ∧ ne ∈ w_targets w ∧ covers (compile_window w) ts = true.

Definition lets_through (w : Window) (ne : Z) (ts : float) (o : string) (vos : list string) (sr : option Z) : bool :=
  admits (rules_on (w_rules w) ne) ts o vos sr.

Lemma in_force_compiled now t ne ts c :
  c ∈ List.filter (fun w => covers w ts) (targeting ne (map compile_window (window_index_rows secs now t))) ↔
  ∃ w, in_force now t ne ts w ∧ c = compile_window w.
Proof.
  unfold targeting. rewrite list_elem_of_In, !filter_In, <- list_elem_of_In, list_elem_of_fmap. split.
  - intros [[(w & -> & Hw) Ht] Hc]. apply window_index_rows_elem in Hw as (k & Hk & Hi). exists w. split; [|done].
    rewrite compile_window_targets in Ht. reflect_bools. case_bool_decide as Hn; [|by destruct Ht].
    split; [by exists k | done].
  - intros (w & ([k Hk] & Hi & Hn & Hc) & ->). split; [split|done].
    + exists w. split; [done|]. apply window_index_rows_elem. eauto.
    + rewrite compile_window_targets, !bool_decide_true by (rewrite ?bool_decide_true by done; eauto). done.
Qed.

Lemma rules_for_compiled w ne : ne ∈ w_targets w → rules_for (compile_window w) ne = rules_on (w_rules w) ne.
Proof. intros H. unfold rules_for. by rewrite compile_window_targets, bool_decide_true. Qed.


(** One tick of the clock does to every window what its status and bounds say and nothing else: a
    window waiting for confirmation past its start expires and never takes effect, a scheduled one
    becomes active, one whose end has come ends. The windows it reports, for their ledgers to be
    read, are those that end with this tick, each once and in the order of their ids. *)
Theorem the_clock_moves_every_window now t :
  let '(just_ended, t') := advance_statuses secs now t in
  (∀ k, (status <$> t' !! k) = (clocked now <$> t !! k)) ∧
  (∀ k, k ∈ just_ended ↔ ∃ w, t !! k = Some w ∧ clocked now w = ended ∧ status w ≠ ended) ∧
  NoDup just_ended ∧ StronglySorted Z.le just_ended.
Proof.
  destruct (advance_statuses secs now t) as [ids t'] eqn:E. split_and!.
  - intros k. change t' with (ids, t').2. rewrite <- E, advance_lookup.
    destruct (t !! k); simpl; [f_equal; apply tick_row_spec | done].
  - intros k. change ids with (ids, t').1. rewrite <- E. apply advance_ids.
  - change ids with (ids, t').1. rewrite <- E. simpl. apply NoDup_sort_by.
    set (m := activate secs now <$> (expire secs now <$> t)).
    apply (sublist_NoDup _ (map_to_list m).*1); [apply NoDup_fst_map_to_list | apply (fmap_sublist fst), sublist_filter].
  - change ids with (ids, t').1. rewrite <- E. apply sort_Z_sorted.
Qed.
End life.

(** ** A run: an agent's eight-hour window, confirmed by a person *)

Definition us_of (seconds : float) : Z := f_round (fmul seconds (f_of_Z 1000000)).
Definition agent_ : Principal := MkPrincipal "bot" "editor" TokenKind None false (Some 4).
Definition person_ : Principal := MkPrincipal "ana" "editor" SessionKind (Some 2) false None.

Definition asked : Body :=
  MkBody "swap" 1 (f_of_Z 1700000000) (f_of_Z 1700028800) (f_of_Z 60) true {[7]}
    [MkRuleRow 7 "severity" (Some 0) None None None None] false.

(** One step of a run, by what its route answers. *)
Definition then_write (r : Table → res refused Table) (said : Agreements) (y : State) : State :=
  match r (table y) with Ok t => next y t said | Err _ => y end.
Definition tick1 : Z := encode_instant (f_of_Z 1700000100).
Definition run1 : State := then_write (create agent_ false 1 asked (f_of_Z 1699990000)) [] start.
Definition run2 : State := then_write (confirm person_ 1 (f_of_Z 1699995000)) [(1, Some person_)] run1.
Definition run3 : State := next run2 (advance_statuses us_of tick1 (table run2)).2 [].

Lemma run3_history stale : history us_of stale run3.
Proof.
  apply (history_step _ _ run2); [|apply step_tick].
  apply (history_step _ _ run1); [|apply (step_confirm _ _ person_ 1 (f_of_Z 1699995000)); vm_compute; reflexivity].
  apply (history_step _ _ start); [constructor|].
  apply (step_create _ _ agent_ false 1 asked (f_of_Z 1699990000)); vm_compute; reflexivity.
Qed.


(** Ana's eight-hour window is confirmed; one of her colleagues lengthens it, so it waits again; a third
    edit, which had read it before that, keeps the eight hours and puts it in force, confirmed by nobody. *)
Definition eight (name : string) (hours : Z) : Body :=
  MkBody name 1 (f_of_Z 1700000000) (f_of_Z (1700000000 + 3600 * hours)) (f_of_Z 60) true {[7]} [] true.
Example a_stale_edit_skips_the_confirmation :
  (match create person_ true 1 (eight "swap" 8) (f_of_Z 1699990000) ∅ with
   | Ok t =>
       match t !! 1, t !! 1 ≫= fun w => match update w {[7]} [] (eight "swap" 10) (f_of_Z 1699990010) t with Ok t => Some t | Err _ => None end with
       | Some read, Some t =>
           match update read {[7]} [] (eight "swap, floor 2" 8) (f_of_Z 1699990020) t with
           | Ok t' => Some ((fun w => (status w, confirmed_at w)) <$> t !! 1, (fun w => (status w, confirmed_at w)) <$> t' !! 1)
           | Err _ => None
           end
       | _, _ => None
       end
   | Err _ => None
   end) = Some (Some (pending_confirmation, None), Some (scheduled, None)).
Proof. vm_compute. reflexivity. Qed.

(** [extend] decides on a window read before the lock: one cancelled in between is back in force. *)
Definition short : Body := MkBody "patch" 1 (f_of_Z 1700000000) (f_of_Z 1700014400) (f_of_Z 60) true {[7]} [] false.
Definition run4 : Table :=
  match create person_ true 1 short (f_of_Z 1700000100) ∅ with Ok t => t | Err _ => ∅ end.

Example extend_undoes_a_cancel :
  (match run4 !! 1, cancel 1 (f_of_Z 1700000300) run4 with
   | Some read, Ok t =>
       match extend read (f_of_Z 1700018000) (f_of_Z 1700000301) t with
       | Ok t' => (status <$> t !! 1, status <$> t' !! 1)
       | Err _ => (None, None)
       end
   | _, _ => (None, None)
   end) = (Some cancelled, Some active).
Proof. vm_compute. reflexivity. Qed.

Lemma live_not_over s : s ∈ LIVE_STATUSES → s ∉ [ended; cancelled; expired].
Proof. destruct s; by_eval. Qed.

(** Read in the state it writes to, a window that is over stays as it is. *)
Lemma windows_stay_over secs y y' k w :
  step secs false y y' → fresh_ok y → table y !! k = Some w → status w ∈ [ended; cancelled; expired] →
  ∃ w', table y' !! k = Some w' ∧ status w' = status w.
Proof.
  intros Hs [Ht _] Hk Hst.
  assert (∀ l f, (∀ s, s ∈ l → s ∉ [ended; cancelled; expired]) → ∀ wid t',
    answered (update_where wid l f (table y)) = Ok t' → ∃ w', t' !! k = Some w' ∧ status w' = status w) as Hup.
  { intros l f Hl wid t2 (v & Hv & Hin & ->)%update_where_inv. destruct (decide (wid = k)) as [->|].
    - simplify_eq. by destruct (Hl _ Hin).
    - exists w. by rewrite lookup_insert_ne. }
  destruct Hs as [p may wid b now s t' Hnew H|p wid now s t' H|wid now s t' H|wid now s t' H
    |v ends now s t' Hv H|v ct cr b now s t' Hv H|now s]; unfold reads in *; cbn [table next] in *.
  - destruct (create_writes _ _ _ _ _ _ _ Hnew H) as (v & -> & _). exists w. rewrite lookup_insert_ne; [done|]. intros ->. congruence.
  - unfold confirm in H. destruct (is_token p); [done|]. eapply Hup; [|exact H].
    intros s' ->%list_elem_of_singleton. by_eval.
  - eapply Hup; [|exact H]. apply live_not_over.
  - eapply Hup; [|exact H]. apply live_not_over.
  - unfold extend in H. case_bool_decide as Hl; [|done]. simpl in H. destruct (fleb _ _); simplify_eq.
    exists w. split; [|done]. unfold update_window_schedule. rewrite lookup_alter_ne; [done|].
    intros <-. simplify_eq. by apply live_not_over in Hl.
  - pose proof H as Hl. unfold update in Hl. case_bool_decide as Hl'; [|done]. clear Hl. apply update_writes in H as (f & -> & _).
    exists w. split; [|done]. rewrite lookup_alter_ne; [done|]. intros <-. simplify_eq. by apply live_not_over in Hl'.
  - exists (tick_row secs now w). split; [by rewrite advance_lookup, Hk|].
    destruct (tick_row_spec secs now w) as [-> _]. unfold clocked.
    destruct (status w); try done; exfalso; revert Hst; by_eval.
Qed.
