(* ===== verification/Ber.v ===== *)
(** * BER primitives ([ingest/ber.py])

    The length, tag-length-value and INTEGER readers the receiver walks a message with: offsets
    stay inside the buffer, and they read back what a BER encoder writes. *)
From S2P Require Import Prelude.

(** The three reasons [BerError] is raised with (the expected and found tags as data). *)
Inductive ber_error :=
| Truncated
| WrongTag (expected found : Z)
| BadLength
| BadInteger.

Record Tlv := MkTlv { tag : Z; offset : Z; start : Z; end_ : Z }.

(** [data[i]], for [0 <= i < len(data)]. *)
Definition byte_at (data : bytes) (i : Z) : Z := b2z (nth (Z.to_nat i) data Byte.x00).

(** [int.from_bytes(_, "big", signed=True)]. *)
Definition signed_be (bs : bytes) : Z :=
  let v := be_value bs in
  if 2 * v <? 256 ^ blen bs then v else v - 256 ^ blen bs.

Definition read_length (data : bytes) (i : Z) : option (Z * Z) :=
  if i >=? blen data then None
  else
    let first := byte_at data i in
    let i := i + 1 in
    if first <? 0x80 then Some (first, i)
    else
      let count := Z.land first 0x7F in
      if (count =? 0) || (count >? 4) || (i + count >? blen data) then None
      else Some (be_value (slice data i (i + count)), i + count).

Definition tlv (data : bytes) (i : Z) (want : option Z) : res ber_error Tlv :=
  if i >=? blen data then Err Truncated
  else
    let found := byte_at data i in
    let wrong := match want with Some t => negb (found =? t) | None => false end in
    if wrong then Err (WrongTag (default 0 want) found)
    else match read_length data (i + 1) with
    | None => Err BadLength
    | Some (length, content) =>
        if content + length >? blen data then Err BadLength
        else Ok (MkTlv found i content (content + length))
    end.

Definition integer (data : bytes) (element : Tlv) : res ber_error Z :=
  let content := slice data (start element) (end_ element) in
  if (1 <=? blen content) && (blen content <=? 8) then Ok (signed_be content)
  else Err BadInteger.

(** ** What a BER encoder writes (the reference the readers are compared with) *)

(** Definite form: one octet below 128, else a count of 1 to 4 octets and the length. *)
Definition encode_length (count : nat) (n : Z) : bytes :=
  match count with
  | O => [z2b n]
  | S _ => z2b (0x80 + Z.of_nat count) :: be_bytes count n
  end.
Definition length_fits (count : nat) (n : Z) : Prop :=
  match count with O => 0 ≤ n < 128 | S _ => (count ≤ 4)%nat ∧ 0 ≤ n < 256 ^ Z.of_nat count end.

Lemma byte_at_app pre b rest : byte_at (pre ++ b :: rest) (blen pre) = b2z b.
Proof. unfold byte_at, blen. by rewrite Nat2Z.id, nth_middle. Qed.

Lemma be_value_nonneg bs : 0 ≤ be_value bs.
Proof. apply le_value_range. Qed.

Lemma be_value_be_bytes n z : 0 ≤ z < 256 ^ Z.of_nat n → be_value (be_bytes n z) = z.
Proof.
  intros Hz. unfold be_value, be_bytes. rewrite reverse_involutive. by apply le_value_small.
Qed.

Lemma blen_be_bytes n z : blen (be_bytes n z) = Z.of_nat n.
Proof. unfold blen, be_bytes. by rewrite length_reverse, length_le_bytes. Qed.

Lemma read_length_bounds data i n c :
  0 ≤ i → read_length data i = Some (n, c) → 0 ≤ n ∧ i < c ≤ blen data.
Proof.
  intros Hi. unfold read_length. rewrite Z.geb_leb.
  destruct (Z.leb_spec (blen data) i); [done|].
  assert (0 ≤ byte_at data i) by apply b2z_range.
  destruct (Z.ltb_spec (byte_at data i) 0x80); [intros [= <- <-]; lia|].
  rewrite !Z.gtb_ltb.
  destruct (Z.eqb_spec (Z.land (byte_at data i) 127) 0); [done|].
  assert (0 ≤ Z.land (byte_at data i) 127) by (apply Z.land_nonneg; lia).
  destruct (Z.ltb_spec 4 (Z.land (byte_at data i) 127)); [done|].
  destruct (Z.ltb_spec (blen data) (i + 1 + Z.land (byte_at data i) 127)); [done|].
  intros [= <- <-]. split; [apply be_value_nonneg|lia].
Qed.

Lemma read_length_encoded pre count n rest :
  length_fits count n →
  read_length (pre ++ encode_length count n ++ rest) (blen pre) =
  Some (n, blen pre + blen (encode_length count n)).
Proof.
  intros Hn. unfold read_length. rewrite Z.geb_leb.
  destruct count as [|k]; unfold length_fits, encode_length in *.
  - cbn [app]. rewrite byte_at_app, b2z_z2b, Z.mod_small, !blen_app by lia.
    destruct (Z.leb_spec (blen pre + blen (z2b n :: rest)) (blen pre)) as [Hle|].
    { unfold blen in Hle. simpl in Hle. lia. }
    destruct (Z.ltb_spec n 128); [done|lia].
  - destruct Hn as [Hk Hn].
    cbn [app]. rewrite byte_at_app, b2z_z2b, Z.mod_small, blen_app by lia.
    set (m := S k) in *.
    assert (blen (z2b (128 + Z.of_nat m) :: be_bytes m n) = 1 + Z.of_nat m) as Hb.
    { rewrite <- (blen_be_bytes m n). unfold blen. simpl. lia. }
    assert (blen (z2b (128 + Z.of_nat m) :: be_bytes m n ++ rest) = 1 + Z.of_nat m + blen rest) as ->.
    { rewrite <- Hb, <- blen_app. done. }
    pose proof (blen_nonneg rest). rewrite !Z.gtb_ltb.
    destruct (Z.leb_spec (blen pre + (1 + Z.of_nat m + blen rest)) (blen pre)); [lia|].
    destruct (Z.ltb_spec (128 + Z.of_nat m) 128); [lia|].
    assert (Z.land (128 + Z.of_nat m) 127 = Z.of_nat m) as ->.
    { change 127 with (Z.ones 7). rewrite Z.land_ones by lia.
      change (2 ^ 7) with 128. replace (128 + Z.of_nat m) with (Z.of_nat m + 1 * 128) by lia.
      rewrite Z.mod_add, Z.mod_small; lia. }
    destruct (Z.eqb_spec (Z.of_nat m) 0); [lia|].
    destruct (Z.ltb_spec 4 (Z.of_nat m)); [lia|].
    destruct (Z.ltb_spec (blen pre + (1 + Z.of_nat m + blen rest)) (blen pre + 1 + Z.of_nat m)); [lia|].
    cbn [orb]. rewrite Hb. f_equal. f_equal; [|lia].
    change (z2b (128 + Z.of_nat m) :: be_bytes m n ++ rest)
      with ([z2b (128 + Z.of_nat m)] ++ be_bytes m n ++ rest).
    rewrite (app_assoc pre), (slice_app_at (pre ++ [_])).
    + by apply be_value_be_bytes.
    + rewrite blen_app. done.
    + rewrite blen_app, blen_be_bytes. change (blen [z2b (128 + Z.of_nat m)]) with 1. lia.
Qed.

Lemma tlv_bounds data i want t :
  0 ≤ i → tlv data i want = Ok t →
  offset t = i ∧ i + 1 < start t ∧ start t ≤ end_ t ≤ blen data ∧
  tag t = byte_at data i ∧ (∀ w, want = Some w → tag t = w).
Proof.
  intros Hi. unfold tlv. rewrite Z.geb_leb. case_match; [done|].
  case_match eqn:Hw; [done|]. destruct (read_length data (i + 1)) as [[n c]|] eqn:Er; [|done].
  apply read_length_bounds in Er as [Hn Hc]; [|lia]. rewrite Z.gtb_ltb.
  destruct (Z.ltb_spec (blen data) (c + n)); [done|]. intros [= <-]. simpl.
  split_and!; [done|lia..|done|]. intros w ->. reflect_bools. done.
Qed.

Lemma tlv_encoded pre tg count content rest :
  length_fits count (blen content) →
  let msg := pre ++ (tg :: encode_length count (blen content) ++ content) ++ rest in
  ∃ t, tlv msg (blen pre) (Some (b2z tg)) = Ok t ∧ tag t = b2z tg ∧
       slice msg (start t) (end_ t) = content.
Proof.
  intros Hn msg. unfold tlv.
  assert (blen pre < blen msg).
  { unfold msg, blen. rewrite !length_app. simpl. lia. }
  rewrite Z.geb_leb. destruct (Z.leb_spec (blen msg) (blen pre)); [lia|].
  assert (byte_at msg (blen pre) = b2z tg) as -> by apply byte_at_app.
  rewrite Z.eqb_refl. cbn [negb].
  set (lb := encode_length count (blen content)) in *.
  assert (msg = (pre ++ [tg]) ++ lb ++ content ++ rest) as Emsg.
  { unfold msg. rewrite <- !app_assoc. simpl. by rewrite <- app_assoc. }
  assert (blen (pre ++ [tg]) = blen pre + 1) as Hb1 by (rewrite blen_app; done).
  assert (read_length msg (blen pre + 1) = Some (blen content, blen pre + 1 + blen lb)) as ->.
  { rewrite Emsg, <- Hb1. by apply read_length_encoded. }
  assert (blen msg = blen pre + 1 + blen lb + blen content + blen rest) as Hlen.
  { rewrite Emsg, !blen_app. change (blen [tg]) with 1. lia. }
  pose proof (blen_nonneg rest). rewrite Z.gtb_ltb.
  destruct (Z.ltb_spec (blen msg) (blen pre + 1 + blen lb + blen content)); [lia|].
  eexists. split; [done|]. split; [done|]. cbn [start end_].
  rewrite Emsg, (app_assoc (pre ++ [tg])). apply slice_app_at; rewrite !blen_app, ?Hb1;
    change (blen [tg]) with 1; lia.
Qed.

(** The octets of a signed integer in two's complement, [n] of them. *)
Definition encode_signed (n : nat) (v : Z) : bytes := be_bytes n (v mod 256 ^ Z.of_nat n).

Lemma signed_be_encode n v :
  (0 < n)%nat → - 256 ^ Z.of_nat n ≤ 2 * v < 256 ^ Z.of_nat n →
  signed_be (encode_signed n v) = v.
Proof.
  intros Hn Hv. unfold signed_be, encode_signed.
  assert (0 < 256 ^ Z.of_nat n) by (apply Z.pow_pos_nonneg; lia).
  pose proof (Z.mod_pos_bound v (256 ^ Z.of_nat n) ltac:(lia)).
  rewrite be_value_be_bytes, blen_be_bytes by lia.
  destruct (decide (0 ≤ v)).
  - rewrite Z.mod_small by lia. destruct (Z.ltb_spec (2 * v) (256 ^ Z.of_nat n)); lia.
  - replace (v mod 256 ^ Z.of_nat n) with (v + 256 ^ Z.of_nat n).
    + destruct (Z.ltb_spec (2 * (v + 256 ^ Z.of_nat n)) (256 ^ Z.of_nat n)); lia.
    + rewrite <- (Z.mod_small (v + 256 ^ Z.of_nat n) (256 ^ Z.of_nat n)) at 1 by lia.
      rewrite <- (Z.mul_1_l (256 ^ Z.of_nat n)) at 1. by rewrite Z.mod_add by lia.
Qed.

Lemma signed_be_range bs : - 256 ^ blen bs ≤ 2 * signed_be bs < 256 ^ blen bs.
Proof.
  unfold signed_be. pose proof (le_value_range (reverse bs)) as Hr.
  assert (blen (reverse bs) = blen bs) as Hl by (unfold blen; by rewrite length_reverse).
  rewrite Hl in Hr. unfold be_value.
  destruct (Z.ltb_spec (2 * le_value (reverse bs)) (256 ^ blen bs)); lia.
Qed.

(** Offsets never leave the message. Whatever the bytes, an element [tlv] accepts at [i]
    begins after its tag and length octets, ends inside the message, and carries the tag asked
    for; and an INTEGER read from it fits a signed 64-bit integer. *)
Theorem tlv_stays_inside data i want t :
  0 ≤ i → tlv data i want = Ok t →
  i + 1 < start t ∧ start t ≤ end_ t ≤ blen data ∧ (∀ w, want = Some w → tag t = w) ∧
  (∀ v, integer data t = Ok v → - 2 ^ 63 ≤ v < 2 ^ 63).
Proof.
  intros Hi Ht. destruct (tlv_bounds _ _ _ _ Hi Ht) as (_ & H1 & H2 & _ & H3).
  split_and!; [done|apply H2|apply H2|done|]. intros v.
  unfold integer. set (c := slice _ _ _).
  destruct (Z.leb_spec 1 (blen c)), (Z.leb_spec (blen c) 8); simpl; try done.
  intros [= <-]. pose proof (signed_be_range c) as Hr.
  assert (256 ^ blen c ≤ 256 ^ 8) by (apply Z.pow_le_mono_r; lia).
  change (256 ^ 8) with (2 * 2 ^ 63) in *. lia.
Qed.

(** Round trip with an encoder: an INTEGER of up to eight octets, encoded with its tag and a
    definite length of any legal form, anywhere in a message, reads back as itself. *)
Theorem tlv_integer_roundtrip pre tg count n v rest :
  (0 < n ≤ 8)%nat → - 256 ^ Z.of_nat n ≤ 2 * v < 256 ^ Z.of_nat n →
  length_fits count (Z.of_nat n) →
  let msg := pre ++ (tg :: encode_length count (Z.of_nat n) ++ encode_signed n v) ++ rest in
  (t ← tlv msg (blen pre) (Some (b2z tg)); integer msg t) = Ok v.
Proof.
  intros Hn Hv Hc msg.
  assert (blen (encode_signed n v) = Z.of_nat n) as Hb by apply blen_be_bytes.
  destruct (tlv_encoded pre tg count (encode_signed n v) rest) as (t & Ht & _ & Hs);
    [by rewrite Hb|]. rewrite Hb in Ht, Hs. fold msg in Ht, Hs. rewrite Ht. simpl.
  unfold integer. rewrite Hs, Hb.
  destruct (Z.leb_spec 1 (Z.of_nat n)); [|lia]. destruct (Z.leb_spec (Z.of_nat n) 8); [|lia].
  simpl. f_equal. apply signed_be_encode; [lia|done].
Qed.

Lemma tlv_stays_inside_witness :
  let t := MkTlv 2 0 2 4 in
  1 < start t ∧ start t ≤ end_ t ≤ 5 ∧ (∀ w, Some 2 = Some w → tag t = w) ∧
  (∀ v, integer [Byte.x02; Byte.x02; Byte.xff; Byte.x01; Byte.x00] t = Ok v →
        - 2 ^ 63 ≤ v < 2 ^ 63).
Proof.
  apply (tlv_stays_inside [Byte.x02; Byte.x02; Byte.xff; Byte.x01; Byte.x00] 0 (Some 2)).
  - lia.
  - vm_compute. reflexivity.
Defined.

Lemma tlv_integer_roundtrip_witness :
  let msg := [Byte.x30] ++ (Byte.x02 :: encode_length 1 2 ++ encode_signed 2 (-255)) ++ [] in
  (t ← tlv msg 1 (Some 2); integer msg t) = Ok (-255).
Proof.
  apply (tlv_integer_roundtrip [Byte.x30] Byte.x02 1 2 (-255) []).
  - lia.
  - vm_compute. split; [discriminate|reflexivity].
  - simpl. lia.
Defined.
