(* ===== verification/Usm.v ===== *)
(** * SNMPv3: who may send a trap ([ingest/usm.py], [ingest/snmpconf.py])

    The message walked by hand, the user and its security level, the localized keys and the senders'
    clocks the receiver remembers, and the order the checks are made in. The hash and HMAC functions by the
    names of the protocols, the ciphers and the BER decoder of the body are arguments. *)
From S2P Require Import Prelude PyLib Ber.

Definition USM_SECURITY_MODEL : Z := 3.
Definition FLAG_AUTH : Z := 0x01.
Definition FLAG_PRIV : Z := 0x02.
Definition TIME_WINDOW_S : Z := 150.
Definition MAX_BOOTS : Z := 2147483647.
Definition CACHE_ENTRIES : nat := 4096.
Definition KEY_SIZE : list (string * nat) :=
  [("DES", 16%nat); ("3DES", 32%nat); ("AES-128", 16%nat); ("AES-192", 24%nat); ("AES-256", 32%nat); ("AES-192-C", 24%nat); ("AES-256-C", 32%nat)].
Definition REEDER : list string := ["3DES"; "AES-192-C"; "AES-256-C"].

(** ** The policy ([snmpconf.py]) *)

Definition NONE : string := "none".
(** The length of the truncated MAC by protocol. *)
Definition AUTH_PROTOCOLS : list (string * nat) :=
  [("MD5", 12%nat); ("SHA", 12%nat); ("SHA-224", 16%nat); ("SHA-256", 24%nat); ("SHA-384", 32%nat); ("SHA-512", 48%nat)].
Definition PRIV_PROTOCOLS : list string := ["DES"; "3DES"; "AES-128"; "AES-192"; "AES-256"; "AES-192-C"; "AES-256-C"].
Definition MAX_COMMUNITIES : nat := 64.
Definition MAX_USERS : nat := 64.
Definition MAX_USER_NAME : nat := 32.

Record UsmUser := MkUser {
  u_name : string; u_auth : string; u_priv : string; auth_key : bytes; priv_key : bytes; u_engine_id : option bytes }.
Definition level (u : UsmUser) : Z := if String.eqb (u_auth u) NONE then 0 else if String.eqb (u_priv u) NONE then 1 else 2.

Record Community := MkCommunity { digest : string; hint : string }.
(** [users] by name, as a dict; no communities means any. *)
Record SnmpPolicy := MkPolicy {
  v1 : bool; v2c : bool; v3 : bool; communities : list Community; users : list (bytes * UsmUser); time_window : bool }.
Definition DEFAULT_POLICY : SnmpPolicy := MkPolicy true true true [] [] true.
Definition digests (p : SnmpPolicy) : list string := map digest (communities p).

(** [_USER_NAME]: [$] matches before a final newline too. *)
Definition name_char (a : ascii) : bool :=
  let c := code a in
  ((65 <=? c) && (c <=? 90)) || ((97 <=? c) && (c <=? 122)) || ((48 <=? c) && (c <=? 57)) || bool_decide (a ∈ chars "._@-").
Definition user_name_ok (s : string) : bool :=
  let l := chars s in
  let ok l := Nat.leb 1 (length l) && Nat.leb (length l) MAX_USER_NAME && forallb name_char l in
  ok l || match reverse l with a :: r => Ascii.eqb a "010" && ok (reverse r) | [] => false end.

Inductive UserProblem := BadName | UnknownAuth | UnknownPriv | PrivNeedsAuth | NoAuthKey | NoPrivKey | BadEngineId.
Definition say {A} (b : bool) (p : A) : list A := if b then [p] else [].
Definition user_problems (u : UsmUser) : list UserProblem :=
  let auth := negb (String.eqb (u_auth u) NONE) in
  let priv := negb (String.eqb (u_priv u) NONE) in
  say (negb (user_name_ok (u_name u))) BadName
  ++ say (auth && negb (bool_decide (u_auth u ∈ AUTH_PROTOCOLS.*1))) UnknownAuth
  ++ say (priv && negb (bool_decide (u_priv u ∈ PRIV_PROTOCOLS))) UnknownPriv
  ++ say (priv && negb auth) PrivNeedsAuth
  ++ say (auth && Nat.eqb (length (auth_key u)) 0) NoAuthKey
  ++ say (priv && Nat.eqb (length (priv_key u)) 0) NoPrivKey
  ++ say (match u_engine_id u with Some e => negb (Nat.leb 5 (length e) && Nat.leb (length e) 32) | None => false end) BadEngineId.

Inductive PolicyProblem := NoVersion | ManyCommunities | ManyUsers | OfUser (p : UserProblem).
Definition policy_problems (p : SnmpPolicy) : list PolicyProblem :=
  say (negb (v1 p || v2c p || v3 p)) NoVersion
  ++ say (Nat.ltb MAX_COMMUNITIES (length (communities p))) ManyCommunities
  ++ say (Nat.ltb MAX_USERS (length (users p))) ManyUsers
  ++ flat_map (fun e => map OfUser (user_problems e.2)) (users p).

(** ** The header *)

Record Header := MkHeader {
  flags : Z; engine_id : bytes; boots : Z; engine_time : Z; h_user : bytes; auth_params : bytes; auth_offset : Z; priv_params : bytes;
  data_tag : Z; h_data : bytes }.

(** A refusal is its reason; every [BerError] is one. *)
Definition at_tag (data : bytes) (i tag : Z) : res string Tlv :=
  match tlv data i (Some tag) with Ok t => Ok t | Err _ => Err "v3-malformed" end.
Definition any_tag (data : bytes) (i : Z) : res string Tlv :=
  match tlv data i None with Ok t => Ok t | Err _ => Err "v3-malformed" end.
Definition int_at (data : bytes) (t : Tlv) : res string Z :=
  match integer data t with Ok z => Ok z | Err _ => Err "v3-malformed" end.
Definition content (data : bytes) (t : Tlv) : bytes := slice data (start t) (end_ t).

Definition parse_header (data : bytes) : res string Header :=
  outer ← at_tag data 0 0x30;
  version ← at_tag data (start outer) 0x02;
  v ← int_at data version;
  ensure (v =? 3) "v3-malformed"
  (globl ← at_tag data (end_ version) 0x30;
   msg_id ← at_tag data (start globl) 0x02;
   max_size ← at_tag data (end_ msg_id) 0x02;
   fl ← at_tag data (end_ max_size) 0x04;
   model ← at_tag data (end_ fl) 0x02;
   m ← int_at data model;
   ensure (m =? USM_SECURITY_MODEL) "v3-unsupported-security-model"
   (params ← at_tag data (end_ globl) 0x04;
    usm ← at_tag data (start params) 0x30;
    engine ← at_tag data (start usm) 0x04;
    bt ← at_tag data (end_ engine) 0x02;
    clock ← at_tag data (end_ bt) 0x02;
    user ← at_tag data (end_ clock) 0x04;
    auth ← at_tag data (end_ user) 0x04;
    priv ← at_tag data (end_ auth) 0x04;
    body ← any_tag data (end_ params);
    boots_value ← int_at data bt;
    time_value ← int_at data clock;
    ensure (bool_decide (tag body ∈ [0x30; 0x04]) && (end_ fl - start fl =? 1)) "v3-malformed"
    (ensure ((0 <=? boots_value) && (boots_value <=? MAX_BOOTS) && (0 <=? time_value) && (time_value <=? MAX_BOOTS)) "v3-malformed"
     (Ok (MkHeader (byte_at data (start fl)) (content data engine) boots_value time_value (content data user) (content data auth)
            (start auth) (content data priv) (tag body)
            (if tag body =? 0x04 then content data body else slice data (offset body) (end_ body))))))).

(** ** Keys *)

Section keys.
Context (hash : string -> bytes -> bytes).

Definition MIB : nat := Nat.pow 2 20.
(** [(secret * (1_048_576 // len(secret) + 1))[:1_048_576]]; an empty secret is a [ZeroDivisionError]. *)
Definition repeated (secret : bytes) : bytes := take MIB (concat (replicate (MIB / length secret + 1) secret)).
Definition master_key (secret : bytes) (auth : string) : bytes := hash auth (repeated secret).

Definition localize (master engine : bytes) (auth : string) : bytes := hash auth (master ++ engine ++ master).

(** [while len(key) < size]: each turn adds a digest. *)
Fixpoint reeder (fuel : nat) (size : nat) (engine : bytes) (auth : string) (key : bytes) : option bytes :=
  if Nat.ltb (length key) size then
    match fuel with
    | O => None
    | S fuel => reeder fuel size engine auth (key ++ localize (master_key key auth) engine auth)
    end
  else Some key.

(** [range(1, ceil(size / len(key)))]. *)
Fixpoint blumenthal (n : nat) (auth : string) (key : bytes) : bytes :=
  match n with O => key | S n => blumenthal n auth (key ++ hash auth key) end.
Definition turns (size len : nat) : nat := ((size + len - 1) / len - 1)%nat.

Definition privacy_key (u : UsmUser) (engine : bytes) : option bytes :=
  let key := localize (priv_key u) engine (u_auth u) in
  size ← assoc (u_priv u) KEY_SIZE;
  full ← (if bool_decide (u_priv u ∈ REEDER) then reeder size size engine (u_auth u) key else Some (blumenthal (turns size (length key)) (u_auth u) key));
  Some (take size full).

(** ** What is remembered between messages *)

Abbreviation Slot := (string * bytes * bytes * bytes)%type.
(** [OrderedDict]s, the least recently used first. *)
Record UsmState := MkState { s_keys : list (Slot * (bytes * bytes)); s_clocks : list (bytes * (Z * Z * float)) }.
Definition new_state : UsmState := MkState [] [].

Definition move_to_end {K V} `{EqDecision K} (k : K) (d : list (K * V)) : list (K * V) :=
  match assoc k d with Some v => dict_del k d ++ [(k, v)] | None => d end.
Definition bounded {A} (d : list A) : list A := if Nat.ltb CACHE_ENTRIES (length d) then tail d else d.

Definition keys (u : UsmUser) (engine : bytes) (s : UsmState) : option ((bytes * bytes) * UsmState) :=
  let slot := (u_name u, auth_key u, priv_key u, engine) in
  match assoc slot (s_keys s) with
  | Some found => Some (found, MkState (move_to_end slot (s_keys s)) (s_clocks s))
  | None =>
      let auth := if String.eqb (u_auth u) NONE then [] else localize (auth_key u) engine (u_auth u) in
      priv ← (if String.eqb (u_priv u) NONE then Some [] else privacy_key u engine);
      Some ((auth, priv), MkState (bounded (dict_set slot (auth, priv) (s_keys s))) (s_clocks s))
  end.

Definition remember (engine : bytes) (c : Z * Z * float) (s : UsmState) : UsmState :=
  MkState (s_keys s) (bounded (move_to_end engine (dict_set engine c (s_clocks s)))).
Definition used (engine : bytes) (s : UsmState) : UsmState := MkState (s_keys s) (move_to_end engine (s_clocks s)).

(** [int(now - seen_at)] toward zero. *)
Definition estimate (known_time : Z) (seen_at now : float) : Z := known_time + f_trunc (fsub now seen_at).

Definition in_window (engine : bytes) (boots_ time_ : Z) (now : float) (s : UsmState) : bool * UsmState :=
  if MAX_BOOTS <=? boots_ then (false, s)
  else
    match assoc engine (s_clocks s) with
    | Some (known_boots, known_time, seen_at) =>
        let est := estimate known_time seen_at now in
        let behind := (boots_ =? known_boots) && (time_ <? est - TIME_WINDOW_S) in
        if (boots_ <? known_boots) || behind then (false, s)
        else if (boots_ =? known_boots) && (time_ <=? est) then (true, used engine s)
        else (true, remember engine (boots_, time_, now) s)
    | None => (true, remember engine (boots_, time_, now) s)
    end.
End keys.

(** ** Privacy ([decrypt]) *)

(** Key, initialisation vector, data; [None] where the library raises [ValueError]: a key or an
    initialisation vector of a size the cipher does not know, or an incomplete block. *)
Record Ciphers := MkCiphers { aes_cfb : bytes -> bytes -> bytes -> option bytes; des3_cbc : bytes -> bytes -> bytes -> option bytes }.

Definition xor_byte (a b : byte) : byte := z2b (Z.lxor (b2z a) (b2z b)).
(** [None] is a [ValueError]: the [zip(strict=True)] of a key too short for the initialisation vector of
    its protocol, which a kept key can be ([a_changed_protocol_raises]), or the library's. *)
Definition decrypt (installed : option Ciphers) (priv : string) (key : bytes) (h : Header) : option (res string bytes) :=
  match installed with
  | None => Some (Err "v3-privacy-unavailable")
  | Some c =>
      let salt := priv_params h in
      if negb (Nat.eqb (length salt) 8) then Some (Err "v3-decryption-failed")
      else if bool_decide (priv ∈ ["DES"; "3DES"]) then
        let size := if String.eqb priv "DES" then 8%nat else 24%nat in
        if negb (Nat.eqb (length (h_data h) mod 8) 0) then Some (Err "v3-decryption-failed")
        else
          let mask := take 8 (drop size key) in
          if negb (Nat.eqb (length mask) (length salt)) then None
          else
            let des_key := if String.eqb priv "DES" then take 8 key ++ take 8 key ++ take 8 key else take 24 key in
            Ok <$> des3_cbc c des_key (zip_with xor_byte mask salt) (h_data h)
      else Ok <$> aes_cfb c key (be_bytes 4 (boots h) ++ be_bytes 4 (engine_time h) ++ salt) (h_data h)
  end.

(** ** One message ([process]) *)

(** What the BER decoder finds in a scoped PDU: a trap with its varbinds (OID, kind, value), or another. *)
Inductive Pdu := TrapPDU (vbs : list (string * string * string)) | OtherPDU (kind : string).

Section process.
Context (hash : string -> bytes -> bytes) (hmac : string -> bytes -> bytes -> bytes) (installed : option Ciphers)
        (decode_scoped : bytes -> option Pdu).

Definition message_level (h : Header) : Z :=
  if negb (Z.land (flags h) FLAG_PRIV =? 0) then 2 else if negb (Z.land (flags h) FLAG_AUTH =? 0) then 1 else 0.

(** The message with its MAC zeroed. *)
Definition zeroed (data : bytes) (h : Header) (length_ : nat) : bytes :=
  take (Z.to_nat (auth_offset h)) data ++ replicate length_ Byte.x00 ++ drop (Z.to_nat (auth_offset h) + length_) data.

Definition mac_of (u : UsmUser) (key data : bytes) (h : Header) (length_ : nat) : bytes := take length_ (hmac (u_auth u) key (zeroed data h length_)).

(** [None] is an exception other than a refusal: a protocol the tables do not know. *)
Definition authenticate (data : bytes) (p : SnmpPolicy) (u : UsmUser) (key : bytes) (h : Header) (now : float) (s : UsmState)
  : option (res string unit * UsmState) :=
  length_ ← assoc (u_auth u) AUTH_PROTOCOLS;
  if negb (Nat.eqb (length (auth_params h)) length_) then Some (Err "v3-authentication-failed", s)
  else if negb (bool_decide (mac_of u key data h length_ = auth_params h)) then Some (Err "v3-authentication-failed", s)
  else if time_window p then
    let '(fresh, s) := in_window (engine_id h) (boots h) (engine_time h) now s in
    Some (if fresh then Ok () else Err "v3-not-in-time-window", s)
  else Some (Ok (), s).

Definition scoped_bytes (u : UsmUser) (key : bytes) (h : Header) : option (res string bytes) :=
  if message_level h =? 2 then if negb (data_tag h =? 0x04) then Some (Err "v3-malformed") else decrypt installed (u_priv u) key h
  else Some (ensure (data_tag h =? 0x30) "v3-malformed" (Ok (h_data h))).

(** The user a header names, when the message may be from it. *)
Definition known_user (p : SnmpPolicy) (h : Header) : res string UsmUser :=
  match assoc (h_user h) (users p) with
  | None => Err "v3-unknown-user"
  | Some u =>
      ensure (match u_engine_id u with Some e => bool_decide (e = engine_id h) | None => true end) "v3-unknown-engine-id"
      (ensure (negb (negb (Z.land (flags h) FLAG_PRIV =? 0) && (Z.land (flags h) FLAG_AUTH =? 0))) "v3-malformed"
       (ensure (level u <=? message_level h) "v3-security-level-too-low"
        (ensure (message_level h <=? level u) "v3-unsupported-security-level" (Ok u))))
  end.

Definition body_of (u : UsmUser) (key : bytes) (h : Header) : option (res string (Pdu * UsmUser)) :=
  scoped ← scoped_bytes u key h;
  Some (scoped ← scoped;
        match decode_scoped scoped with
        | None => Err (if message_level h =? 2 then "v3-decryption-failed" else "v3-malformed")
        | Some pdu => Ok (pdu, u)
        end).

(** The answer, [None] for an exception other than a refusal, and what is remembered in either case. *)
Definition process_run (data : bytes) (p : SnmpPolicy) (s : UsmState) (now : float) : option (res string (Pdu * UsmUser)) * UsmState :=
  match h ← parse_header data; u ← known_user p h; Ok (h, u) with
  | Err e => (Some (Err e), s)
  | Ok (h, u) =>
      match keys hash u (engine_id h) s with
      | None => (None, s)
      | Some ((key, pkey), s) =>
          match (if 1 <=? message_level h then authenticate data p u key h now s else Some (Ok (), s)) with
          | None => (None, s)
          | Some (Err e, s) => (Some (Err e), s)
          | Some (Ok _, s) => (body_of u pkey h, s)
          end
      end
  end.
Definition process (data : bytes) (p : SnmpPolicy) (s : UsmState) (now : float) : option (res string (Pdu * UsmUser) * UsmState) :=
  match process_run data p s now with (Some r, s) => Some (r, s) | (None, _) => None end.
End process.

(** ** What an accepted SNMPv3 message proves, and what a replay meets

    The message is from a configured user, at exactly that user's level, with the MAC of that user's key
    for the sender's engine and within the window of its clock; the caches are bounded; keys have
    the sizes of their ciphers. *)

(** ** Least recently used *)

Section lru.
Context {K V : Type} `{EqDecision K}.
Implicit Types (d : list (K * V)) (k : K).

Lemma assoc_app k d d' : assoc k (d ++ d') = match assoc k d with Some v => Some v | None => assoc k d' end.
Proof. induction d as [|[k' v] d IH]; cbn; [done|]. by destruct (decide (k = k')). Qed.

Lemma assoc_del_self k d : assoc k (dict_del k d) = None.
Proof.
  unfold dict_del. induction d as [|[k' v] d IH]; [done|]. rewrite filter_cons. cbn [fst]. destruct (decide (k' ≠ k)) as [Hn|Hn]; [|done].
  cbn. rewrite decide_False by congruence. done.
Qed.

Lemma assoc_del_other k k' d : k ≠ k' -> assoc k (dict_del k' d) = assoc k d.
Proof.
  intros Hn. unfold dict_del. induction d as [|[j v] d IH]; [done|]. rewrite filter_cons. cbn [fst].
  destruct (decide (j ≠ k')) as [Hj|Hj]; cbn [assoc]; [by rewrite IH|]. rewrite IH. by rewrite decide_False by (intros ->; tauto).
Qed.

Lemma assoc_move k k' d : assoc k (move_to_end k' d) = assoc k d.
Proof.
  unfold move_to_end. destruct (assoc k' d) as [v|] eqn:E; [|done]. rewrite assoc_app. destruct (decide (k = k')) as [->|Hn].
  - rewrite assoc_del_self, E. cbn. by rewrite decide_True.
  - rewrite assoc_del_other by done. destruct (assoc k d); [done|]. cbn. by rewrite decide_False.
Qed.

Lemma keys_of_del k d : (dict_del k d).*1 = filter (fun j => j ≠ k) d.*1.
Proof. unfold dict_del. induction d as [|[j v] d IH]; [done|]. rewrite filter_cons. cbn [fmap list_fmap fst]. rewrite filter_cons. destruct (decide (j ≠ k)); cbn [fmap list_fmap fst]; [f_equal|]; exact IH. Qed.

Lemma assoc_elem k v d : assoc k d = Some v -> k ∈ d.*1.
Proof. intros H%assoc_Some. apply list_elem_of_fmap. by exists (k, v). Qed.

Lemma elem_assoc k d : k ∈ d.*1 -> is_Some (assoc k d).
Proof.
  induction d as [|[j v] d IH]; [by intros ?%not_elem_of_nil|]. cbn. intros [->|H]%elem_of_cons; [by rewrite decide_True|].
  destruct (decide (k = j)); [done|by apply IH].
Qed.

Lemma move_keys k d : is_Some (assoc k d) -> (move_to_end k d).*1 = filter (fun j => j ≠ k) d.*1 ++ [k].
Proof. intros [v E]. unfold move_to_end. by rewrite E, fmap_app, keys_of_del. Qed.

Lemma filter_ne_absent k (l : list K) : k ∉ l -> filter (fun j => j ≠ k) l = l.
Proof.
  induction l as [|j l IH]; [done|]. intros [Hj Hl]%not_elem_of_cons. rewrite filter_cons, decide_True by congruence. by rewrite IH.
Qed.

Lemma length_filter_ne k (l : list K) : NoDup l -> k ∈ l -> S (length (filter (fun j => j ≠ k) l)) = length l.
Proof.
  induction l as [|j l IH]; [by intros _ ?%not_elem_of_nil|]. intros [Hj Hl]%NoDup_cons [->|H]%elem_of_cons; rewrite filter_cons.
  - rewrite decide_False by tauto. by rewrite filter_ne_absent.
  - rewrite decide_True by (intros ->; done). cbn. by rewrite IH.
Qed.

Lemma move_NoDup k d : NoDup d.*1 -> NoDup (move_to_end k d).*1.
Proof.
  intros H. destruct (assoc k d) as [v|] eqn:E; [|by unfold move_to_end; rewrite E]. rewrite move_keys by eauto. apply NoDup_app. split_and!.
  - by apply NoDup_filter.
  - intros j [Hj _]%list_elem_of_filter ->%list_elem_of_singleton. done.
  - apply NoDup_singleton.
Qed.

Lemma move_length k d : NoDup d.*1 -> length (move_to_end k d) = length d.
Proof.
  intros H. destruct (assoc k d) as [v|] eqn:E; [|by unfold move_to_end; rewrite E].
  rewrite <- (length_fmap fst (move_to_end k d)), move_keys, length_app by eauto. cbn.
  pose proof (length_filter_ne k d.*1 H (assoc_elem k v d E)) as L. rewrite length_fmap in L. lia.
Qed.

Lemma set_keys k v d : (dict_set k v d).*1 = if decide (k ∈ d.*1) then d.*1 else d.*1 ++ [k].
Proof.
  induction d as [|[j w] d IH]; cbn [dict_set]; [done|]. destruct (decide (k = j)) as [->|Hn].
  - by rewrite decide_True by by left.
  - cbn [fmap list_fmap fst]. rewrite IH. destruct (decide (k ∈ d.*1)) as [Hk|Hk].
    + by rewrite decide_True by by right.
    + rewrite decide_False; [done|]. by intros [?|?]%elem_of_cons.
Qed.

Lemma set_NoDup k v d : NoDup d.*1 -> NoDup (dict_set k v d).*1.
Proof.
  intros H. rewrite set_keys. case_decide as Hk; [done|]. apply NoDup_app. split_and!; [done| |apply NoDup_singleton].
  by intros j Hj ->%list_elem_of_singleton.
Qed.

Lemma set_length k v d : (length (dict_set k v d) <= S (length d))%nat.
Proof. rewrite length_dict_set. case_bool_decide; lia. Qed.

Lemma bounded_length (d : list (K * V)) : (length d <= S CACHE_ENTRIES)%nat -> (length (bounded d) <= CACHE_ENTRIES)%nat.
Proof. unfold bounded. intros H. destruct (Nat.ltb_spec CACHE_ENTRIES (length d)); [|done]. destruct d; cbn in *; lia. Qed.

Lemma bounded_NoDup d : NoDup d.*1 -> NoDup (bounded d).*1.
Proof. unfold bounded. intros H. destruct (Nat.ltb _ _); [|done]. destruct d; [done|]. by apply NoDup_cons in H as [_ H]. Qed.

(** Only the oldest entry goes. *)
Lemma assoc_bounded k d v : assoc k (bounded d) = Some v -> NoDup d.*1 -> assoc k d = Some v.
Proof.
  unfold bounded. destruct (Nat.ltb _ _); [|done]. destruct d as [|[j w] d]; [done|]. cbn. intros H [Hj _]%NoDup_cons.
  destruct (decide (k = j)) as [->|]; [|done]. by apply assoc_elem in H.
Qed.
End lru.

(** ** The memory *)

Record memory_ok (s : UsmState) : Prop := {
  mo_keys : (length (s_keys s) <= CACHE_ENTRIES)%nat; mo_clocks : (length (s_clocks s) <= CACHE_ENTRIES)%nat;
  mo_slots : NoDup (s_keys s).*1; mo_engines : NoDup (s_clocks s).*1 }.

Lemma remember_ok e c s : memory_ok s -> memory_ok (remember e c s).
Proof.
  intros [H1 H2 H3 H4]. split; cbn [s_keys s_clocks remember]; try done.
  - apply bounded_length. rewrite move_length by by apply set_NoDup. etrans; [apply set_length|]. lia.
  - by apply bounded_NoDup, move_NoDup, set_NoDup.
Qed.

Lemma used_ok e s : memory_ok s -> memory_ok (used e s).
Proof. intros [H1 H2 H3 H4]. split; cbn [s_keys s_clocks used]; try done; [by rewrite move_length|by apply move_NoDup]. Qed.

Lemma in_window_ok e b t now s : memory_ok s -> memory_ok (in_window e b t now s).2.
Proof.
  intros H. unfold in_window. destruct (MAX_BOOTS <=? b); [done|]. destruct (assoc e (s_clocks s)) as [[[kb kt] at_]|]; [|by apply remember_ok].
  destruct (_ || _); [done|]. destruct (_ && _); [by apply used_ok|by apply remember_ok].
Qed.

(** ** Replays *)

(** The sender's clock is on record: as accepted, or from before and no earlier. *)
Lemma accepted_clock e b t now s s' :
  memory_ok s -> in_window e b t now s = (true, s') ->
  ∃ kt at_ l, assoc e (s_clocks s') = Some (b, kt, at_) ∧ (s_clocks s').*1 = l ++ [e]
    ∧ (kt = t ∧ at_ = now ∨ assoc e (s_clocks s) = Some (b, kt, at_) ∧ t <= estimate kt at_ now)
    ∧ match assoc e (s_clocks s) with
      | Some (kb, kt0, at0) => kb <= b ∧ (kb = b -> estimate kt0 at0 now - TIME_WINDOW_S <= t)
      | None => True
      end.
Proof.
  intros Hok. assert (∀ s0, NoDup (s_clocks s0).*1 -> ∃ l, assoc e (s_clocks (remember e (b, t, now) s0)) = Some (b, t, now)
    ∧ (s_clocks (remember e (b, t, now) s0)).*1 = l ++ [e]) as R.
  { intros s0 H0. cbn [s_clocks remember]. set (d := dict_set e (b, t, now) (s_clocks s0)).
    assert (assoc e d = Some (b, t, now)) as Ed by (unfold d; by rewrite assoc_dict_set, decide_True).
    assert (assoc e (move_to_end e d) = Some (b, t, now)) as Em by (by rewrite assoc_move).
    assert ((move_to_end e d).*1 = filter (fun j => j ≠ e) d.*1 ++ [e]) as Ek by (apply move_keys; eauto).
    unfold bounded. destruct (Nat.ltb _ _) eqn:Hl; [|by eexists].
    destruct (move_to_end e d) as [|[j w] d'] eqn:E; [done|]. cbn [tail]. cbn [fmap list_fmap fst] in Ek.
    destruct (filter (fun j => j ≠ e) d.*1) as [|j' l] eqn:Ef.
    - destruct d' as [|x d']; [|by destruct d']. apply Nat.ltb_lt in Hl. cbn in Hl. unfold CACHE_ENTRIES in Hl. lia.
    - cbn in Ek. injection Ek as -> Ek. exists l. split; [|done].
      assert (j' ≠ e) as Hj by (assert (j' ∈ filter (fun j => j ≠ e) d.*1) as [? _]%list_elem_of_filter by (rewrite Ef; by left); done).
      cbn [assoc] in Em. by rewrite decide_False in Em by congruence. }
  unfold in_window. destruct (MAX_BOOTS <=? b); [done|]. destruct (assoc e (s_clocks s)) as [[[kb kt] at_]|] eqn:E.
  2: { intros [= <-]. destruct (R s (mo_engines _ Hok)) as (l & R1 & R2). exists t, now, l. split_and!; auto. }
  destruct ((b <? kb) || _) eqn:Eb; [done|]. apply orb_false_iff in Eb as [E1 E2]. destruct ((b =? kb) && (t <=? estimate kt at_ now)) eqn:Eq.
  - intros [= <-]. apply andb_true_iff in Eq as [Eq1 Eq2]. assert (b = kb) as -> by lia.
    exists kt, at_, (filter (fun j => j ≠ e) (s_clocks s).*1). cbn [s_clocks used]. rewrite assoc_move. split_and!; try done; try lia.
    + by apply move_keys; eauto.
    + right. split; [done|lia].
  - intros [= <-]. destruct (R s (mo_engines _ Hok)) as (l & R1 & R2). exists t, now, l. split_and!; auto; lia.
Qed.

(** What a message of any sender does to the memory. *)
Definition heard (s : UsmState) (m : bytes * Z * Z * float) : UsmState := let '(e, b, t, now) := m in (in_window e b t now s).2.

(** [e] is at most [n] places from the end. *)
Definition within_last (n : nat) (e : bytes) (s : UsmState) : Prop := ∃ l k, (s_clocks s).*1 = l ++ e :: k ∧ (length k <= n)%nat.

Lemma tail_app {A} (l : list A) x k : l ≠ [] -> tail (l ++ x :: k) = tail l ++ x :: k.
Proof. by destruct l. Qed.

Lemma bounded_tail {V} (d : list (bytes * V)) e l k :
  d.*1 = l ++ e :: k -> (length k < CACHE_ENTRIES)%nat -> ∃ l', (bounded d).*1 = l' ++ e :: k ∧ (NoDup d.*1 -> assoc e (bounded d) = assoc e d).
Proof.
  intros Hd Hk. unfold bounded. destruct (Nat.ltb_spec CACHE_ENTRIES (length d)) as [Hl|]; [|by exists l].
  rewrite <- (length_fmap fst d), Hd, length_app in Hl. cbn in Hl. destruct l as [|j l]; [cbn in Hl; lia|].
  destruct d as [|[j' w] d]; [done|]. cbn in Hd. injection Hd as -> Hd. exists l. split; [done|]. cbn. intros [Hj _]%NoDup_cons.
  rewrite decide_False; [done|]. intros ->. apply Hj. rewrite Hd. apply elem_of_app. right. by left.
Qed.

Lemma heard_other s e b t now e' n :
  memory_ok s -> e' ≠ e -> within_last n e s -> (S n < CACHE_ENTRIES)%nat ->
  let s' := (in_window e' b t now s).2 in within_last (S n) e s' ∧ assoc e (s_clocks s') = assoc e (s_clocks s).
Proof.
  intros Hok Hne (l & k & Hd & Hk) Hn s'.
  assert (Hsame : within_last (S n) e s) by (exists l, k; split; [done|lia]).
  assert (Hsp : ∀ (l0 k0 : list bytes), filter (fun j => j ≠ e') (l0 ++ e :: k0) = filter (fun j => j ≠ e') l0 ++ e :: filter (fun j => j ≠ e') k0).
  { intros. by rewrite filter_app, filter_cons, decide_True by congruence. }
  assert (Hu : is_Some (assoc e' (s_clocks s)) -> within_last (S n) e (used e' s) ∧ assoc e (s_clocks (used e' s)) = assoc e (s_clocks s)).
  { intros He. cbn [used s_clocks]. split; [|apply assoc_move]. unfold within_last. cbn [used s_clocks]. rewrite move_keys, Hd, Hsp by done.
    eexists _, _. rewrite <- app_assoc. split; [reflexivity|]. rewrite length_app. cbn.
    pose proof (length_filter (fun j => j ≠ e') k). lia. }
  assert (Hr : ∀ c, within_last (S n) e (remember e' c s) ∧ assoc e (s_clocks (remember e' c s)) = assoc e (s_clocks s)).
  { intros c. set (d := dict_set e' c (s_clocks s)).
    assert (Ek : ∃ l0 k0, (move_to_end e' d).*1 = l0 ++ e :: k0 ∧ (length k0 <= S n)%nat).
    { rewrite move_keys by (unfold d; rewrite assoc_dict_set, decide_True by done; eauto). unfold d. rewrite set_keys.
      assert ((if decide (e' ∈ (s_clocks s).*1) then (s_clocks s).*1 else (s_clocks s).*1 ++ [e'])
              = l ++ e :: (if decide (e' ∈ (s_clocks s).*1) then k else k ++ [e'])) as -> by (destruct (decide (e' ∈ (s_clocks s).*1)); rewrite Hd; by rewrite <- ?app_assoc).
      rewrite Hsp. eexists _, _. rewrite <- app_assoc. split; [reflexivity|]. rewrite length_app. cbn.
      assert (length (filter (fun j => j ≠ e') (if decide (e' ∈ (s_clocks s).*1) then k else k ++ [e'])) <= n)%nat; [|lia].
      case_decide; [pose proof (length_filter (fun j => j ≠ e') k); lia|].
      rewrite filter_app, filter_cons, decide_False, app_nil_r by tauto. pose proof (length_filter (fun j => j ≠ e') k). lia. }
    destruct Ek as (l0 & k0 & Ek & Hk0). destruct (bounded_tail (move_to_end e' d) e l0 k0 Ek) as (l' & El & Ea); [lia|].
    split; [by exists l', k0|]. cbn [remember s_clocks]. fold d. rewrite Ea by apply move_NoDup, set_NoDup, Hok.
    rewrite assoc_move. unfold d. rewrite assoc_dict_set. by rewrite decide_False by congruence. }
  unfold s', in_window. destruct (MAX_BOOTS <=? b); [done|]. destruct (assoc e' (s_clocks s)) as [[[kb kt] at_]|] eqn:E; [|apply Hr].
  destruct (_ || _); [done|]. destruct (_ && _); [apply Hu; eauto|apply Hr].
Qed.

Lemma heard_same s e b t now n kb kt at_ :
  memory_ok s -> within_last n e s -> (S n < CACHE_ENTRIES)%nat -> assoc e (s_clocks s) = Some (kb, kt, at_) ->
  let s' := (in_window e b t now s).2 in
  within_last (S n) e s' ∧ ∃ kb' kt' at', assoc e (s_clocks s') = Some (kb', kt', at') ∧ kb <= kb'.
Proof.
  intros Hok (l & k & Hd & Hk) Hn E s'. destruct (in_window e b t now s) as [[|] s1] eqn:W; subst s'; cbn [snd].
  - destruct (accepted_clock _ _ _ _ _ _ Hok W) as (kt' & at' & l' & A1 & A2 & _ & A4). rewrite E in A4. split.
    + exists l', []. split; [done|cbn; lia].
    + exists b, kt', at'. split; [done|lia].
  - assert (s1 = s) as ->.
    { unfold in_window in W. rewrite E in W. destruct (MAX_BOOTS <=? b); [by injection W|]. destruct (_ || _); [by injection W|]. by destruct (_ && _). }
    split; [exists l, k; split; [done|lia]|]. exists kb, kt, at_. split; [done|lia].
Qed.

(** A message whose clock is from before a reboot the receiver has accepted since is refused, as long as
    fewer than 4095 messages with clocks were looked at in between, whoever sent them: the sender is
    not forgotten before. And at once, a message of the same boot is refused when it is more than 150
    seconds behind the clock on record. *)
Theorem a_replay_is_refused e b t now s s' heard_since b' t' now' :
  memory_ok s -> in_window e b t now s = (true, s') -> (length heard_since < CACHE_ENTRIES - 1)%nat ->
  (b' < b -> (in_window e b' t' now' (foldl heard s' heard_since)).1 = false)
  ∧ ∃ kt at_, assoc e (s_clocks s') = Some (b, kt, at_) ∧ t <= Z.max t (estimate kt at_ now)
    ∧ (t' < estimate kt at_ now' - TIME_WINDOW_S -> (in_window e b t' now' s').1 = false).
Proof.
  intros Hok W Hn. pose proof (in_window_ok e b t now s Hok) as Hok'. rewrite W in Hok'. cbn [snd] in Hok'.
  destruct (accepted_clock _ _ _ _ _ _ Hok W) as (kt & at_ & l & A1 & A2 & A3 & _). split.
  - intros Hb. assert (∃ kb kt0 at0, assoc e (s_clocks (foldl heard s' heard_since)) = Some (kb, kt0, at0) ∧ b <= kb) as (kb & kt0 & at0 & E & Hk).
    { assert (∀ hs, (length hs < CACHE_ENTRIES - 1)%nat -> memory_ok (foldl heard s' hs) ∧ within_last (length hs) e (foldl heard s' hs)
        ∧ ∃ kb kt0 at0, assoc e (s_clocks (foldl heard s' hs)) = Some (kb, kt0, at0) ∧ b <= kb) as G; [|by apply (G heard_since)].
      clear Hn. intros hs. induction hs as [|[[[e1 b1] t1] n1] hs IH] using rev_ind; intros Hn.
      - split_and!; [done|exists l, []; split; [done|cbn; lia]|]. exists b, kt, at_. split; [done|lia].
      - rewrite length_app in Hn |- *. cbn [length] in Hn |- *. destruct IH as (I1 & I2 & kb & kt0 & at0 & I3 & I4); [lia|].
        rewrite foldl_app. cbn [foldl heard]. set (s1 := foldl heard s' hs) in *. replace (length hs + 1)%nat with (S (length hs)) by lia.
        split; [by apply in_window_ok|]. destruct (decide (e1 = e)) as [->|Hne].
        + destruct (heard_same s1 e b1 t1 n1 _ kb kt0 at0 I1 I2 ltac:(lia) I3) as (J1 & kb' & kt' & at' & J2 & J3).
          split; [done|]. exists kb', kt', at'. split; [done|lia].
        + destruct (heard_other s1 e b1 t1 n1 e1 _ I1 Hne I2 ltac:(lia)) as (J1 & J2). split; [done|]. exists kb, kt0, at0. by rewrite J2. }
    unfold in_window. destruct (MAX_BOOTS <=? b'); [done|]. rewrite E. replace (b' <? kb) with true by (symmetry; lia). done.
  - exists kt, at_. split_and!; [done|lia|]. intros Ht. unfold in_window. destruct (MAX_BOOTS <=? b); [done|]. rewrite A1.
    rewrite Z.eqb_refl, Z.ltb_irrefl. cbn [andb orb]. by replace (t' <? estimate kt at_ now' - TIME_WINDOW_S) with true by (symmetry; lia).
Qed.

(** ** Keys *)

Section keys.
Context (hash : string -> bytes -> bytes) (digest_size : string -> nat).
(** What [hashlib] says of its digests: each protocol's has one length, of sixteen octets at least. *)
Hypothesis hash_size : ∀ auth data, auth ∈ AUTH_PROTOCOLS.*1 -> length (hash auth data) = digest_size auth.
Hypothesis digests_are_long : ∀ auth, auth ∈ AUTH_PROTOCOLS.*1 -> (16 <= digest_size auth)%nat.

Lemma reeder_done auth engine size fuel key :
  auth ∈ AUTH_PROTOCOLS.*1 -> (size <= length key + 16 * fuel)%nat ->
  ∃ k, reeder hash fuel size engine auth key = Some k ∧ (size <= length k)%nat.
Proof using All.
  intros Ha. revert key. induction fuel as [|fuel IH]; intros key Hs; cbn [reeder]; (destruct (Nat.ltb_spec (length key) size) as [Hl|Hl];
    [|by exists key]); [lia|].
  pose proof (digests_are_long auth Ha). apply IH. rewrite length_app. unfold localize. rewrite hash_size by done. lia.
Qed.

Lemma blumenthal_length auth n key : auth ∈ AUTH_PROTOCOLS.*1 -> length (blumenthal hash n auth key) = (length key + n * digest_size auth)%nat.
Proof using All.
  intros Ha. revert key. induction n as [|n IH]; intros key; cbn [blumenthal]; [lia|]. rewrite IH, length_app, hash_size by done. lia.
Qed.

Lemma turns_enough size len : (0 < len -> size <= len + turns size len * len)%nat.
Proof.
  intros Hl. unfold turns. pose proof (Nat.div_mod (size + len - 1) len ltac:(lia)) as D.
  pose proof (Nat.mod_upper_bound (size + len - 1) len ltac:(lia)). set (q := ((size + len - 1) / len)%nat) in *. destruct q; nia.
Qed.

Lemma privacy_key_sized u engine :
  u_auth u ∈ AUTH_PROTOCOLS.*1 -> u_priv u ∈ PRIV_PROTOCOLS ->
  ∃ k size, privacy_key hash u engine = Some k ∧ assoc (u_priv u) KEY_SIZE = Some size ∧ length k = size.
Proof using All.
  intros Ha Hp. unfold privacy_key. assert (∃ size, assoc (u_priv u) KEY_SIZE = Some size) as [size Es].
  { unfold PRIV_PROTOCOLS in Hp. repeat (apply elem_of_cons in Hp as [->|Hp]; [by eexists|]). by apply not_elem_of_nil in Hp. }
  rewrite Es. cbn [mbind option_bind]. set (key := localize hash _ engine _). assert (length key = digest_size (u_auth u)) as Hk by by apply hash_size.
  pose proof (digests_are_long _ Ha). case_bool_decide.
  - destruct (reeder_done (u_auth u) engine size size key Ha) as (k & -> & L); [lia|]. cbn. exists (take size k), size. split_and!; [done..|].
    rewrite length_take. lia.
  - cbn. eexists _, size. split_and!; [done..|]. rewrite length_take, blumenthal_length by done. rewrite Hk.
    pose proof (turns_enough size (digest_size (u_auth u)) ltac:(lia)). lia.
Qed.

(** Deriving a key ends, and the key is as long as its cipher's: so the slices of a DES key and of its
    initialisation vector are never short. *)
Theorem a_privacy_key_has_its_size u engine :
  u_auth u ∈ AUTH_PROTOCOLS.*1 -> u_priv u ∈ PRIV_PROTOCOLS ->
  ∃ k size, privacy_key hash u engine = Some k ∧ assoc (u_priv u) KEY_SIZE = Some size ∧ length k = size.
Proof using All. apply privacy_key_sized. Qed.
End keys.

(** ** Accepted messages *)

Section accepted.
Context (hash : string -> bytes -> bytes) (hmac : string -> bytes -> bytes -> bytes) (installed : option Ciphers)
        (decode_scoped : bytes -> option Pdu).

Lemma new_state_ok : memory_ok new_state.
Proof. split; cbn; try lia; constructor. Qed.

Definition slot_of (u : UsmUser) (engine : bytes) : string * bytes * bytes * bytes := (u_name u, auth_key u, priv_key u, engine).
Definition fresh_auth (u : UsmUser) (engine : bytes) : bytes := if String.eqb (u_auth u) NONE then [] else localize hash (auth_key u) engine (u_auth u).
Definition fresh_priv (u : UsmUser) (engine : bytes) : option bytes := if String.eqb (u_priv u) NONE then Some [] else privacy_key hash u engine.

(** The keys that are kept are those of some user of [seen]; of which one, the slot does not say: it has
    the name and the master keys, and not the protocols. *)
Definition cached_by (seen : list UsmUser) (s : UsmState) : Prop :=
  ∀ slot k, assoc slot (s_keys s) = Some k ->
    ∃ u engine, u ∈ seen ∧ slot = slot_of u engine ∧ k.1 = fresh_auth u engine ∧ fresh_priv u engine = Some k.2.

Lemma keys_memory u engine s r s' : memory_ok s -> keys hash u engine s = Some (r, s') -> memory_ok s' ∧ s_clocks s' = s_clocks s.
Proof.
  intros [M1 M2 M3 M4]. unfold keys. destruct (assoc _ (s_keys s)) as [found|].
  - intros [= _ <-]. split; [|done]. split; cbn [s_keys s_clocks]; try done; [by rewrite move_length|by apply move_NoDup].
  - destruct (if String.eqb (u_priv u) NONE then _ else _); [|done]. intros [= _ <-]. split; [|done].
    split; cbn [s_keys s_clocks]; try done; [|by apply bounded_NoDup, set_NoDup].
    apply bounded_length. etrans; [apply set_length|]. lia.
Qed.

Lemma keys_ok seen u engine s r s' :
  u ∈ seen -> cached_by seen s -> memory_ok s -> keys hash u engine s = Some (r, s') ->
  (∃ v, v ∈ seen ∧ slot_of v engine = slot_of u engine ∧ r.1 = fresh_auth v engine ∧ fresh_priv v engine = Some r.2) ∧ cached_by seen s'.
Proof.
  intros Hu Hc Hm. unfold keys. change (u_name u, auth_key u, priv_key u, engine) with (slot_of u engine). cbv zeta.
  destruct (assoc (slot_of u engine) (s_keys s)) as [found|] eqn:E.
  - intros [= <- <-]. split.
    + destruct (Hc _ _ E) as (v & e & Hv & Es & H1 & H2). unfold slot_of in Es. injection Es as E1 E2 E3 <-. exists v. split; [done|].
      split; [|done]. unfold slot_of. congruence.
    + intros slot k Hk. cbn [s_keys] in Hk. rewrite assoc_move in Hk. by apply Hc.
  - intros H. fold (fresh_priv u engine) in H. destruct (fresh_priv u engine) as [pk|] eqn:Ep; [|done]. cbn [mbind option_bind] in H.
    fold (fresh_auth u engine) in H. injection H as <- <-. split; [by exists u|].
    intros slot k Hk. cbn [s_keys] in Hk. apply assoc_bounded in Hk; [|apply set_NoDup, Hm]. rewrite assoc_dict_set in Hk.
    case_decide as Es; [|by apply Hc]. injection Hk as <-. subst slot. by exists u, engine.
Qed.

Lemma authenticate_memory data p u k h now s x s' :
  memory_ok s -> authenticate hmac data p u k h now s = Some (x, s') -> memory_ok s' ∧ s_keys s' = s_keys s.
Proof.
  intros M. unfold authenticate. destruct (assoc _ _) as [len|]; [|done]. cbn [mbind option_bind].
  destruct (negb _); [by intros [= _ <-]|]. destruct (negb _); [by intros [= _ <-]|]. destruct (time_window p); [|by intros [= _ <-]].
  pose proof (in_window_ok (engine_id h) (boots h) (engine_time h) now s M) as W.
  assert (s_keys (in_window (engine_id h) (boots h) (engine_time h) now s).2 = s_keys s) as Ks.
  { unfold in_window. destruct (_ <=? _); [done|]. destruct (assoc _ _) as [[[? ?] ?]|]; [|done]. destruct (_ || _); [done|]. by destruct (_ && _). }
  destruct (in_window _ _ _ _ _) as [fresh s3]. by intros [= _ <-].
Qed.

Lemma known_user_in p h u : known_user p h = Ok u -> assoc (h_user h) (users p) = Some u.
Proof.
  unfold known_user. destruct (assoc (h_user h) (users p)) as [v|]; [|done]. intros K. do 4 apply ensure_Ok_inv in K as [_ K]. by injection K as ->.
Qed.

(** The memory stays bounded, whatever arrives. *)
Lemma process_memory_ok data p s now : memory_ok s -> memory_ok (process_run hash hmac installed decode_scoped data p s now).2.
Proof.
  intros Hm. unfold process_run. destruct (_ ≫= _) as [[h u]|e]; [|done].
  destruct (keys hash u (engine_id h) s) as [[[k pk] s1]|] eqn:K; [|done]. destruct (keys_memory u (engine_id h) s (k, pk) s1 Hm K) as [M1 _].
  destruct (if 1 <=? message_level h then _ else _) as [[x s2]|] eqn:E; [|done].
  assert (memory_ok s2) by (destruct (1 <=? message_level h); [by eapply authenticate_memory|by injection E as _ <-]). by destruct x.
Qed.

(** Every kept key is some user's. *)
Lemma process_cached data p s now seen :
  memory_ok s -> cached_by seen s -> (∀ e, e ∈ users p -> e.2 ∈ seen) ->
  cached_by seen (process_run hash hmac installed decode_scoped data p s now).2.
Proof.
  intros Hm Hc Hp. unfold process_run. destruct (_ ≫= _) as [[h u]|e] eqn:G; [|done].
  apply bind_Ok_inv in G as (h0 & _ & G). apply bind_Ok_inv in G as (u0 & Ku%known_user_in & G). injection G as -> ->.
  assert (u ∈ seen) as Hu by (apply (Hp (h_user h, u)); by apply assoc_Some).
  destruct (keys hash u (engine_id h) s) as [[[k pk] s1]|] eqn:K; [|done].
  destruct (keys_memory u (engine_id h) s (k, pk) s1 Hm K) as [M1 _]. destruct (keys_ok seen u (engine_id h) s (k, pk) s1 Hu Hc Hm K) as [_ C1].
  destruct (if 1 <=? message_level h then _ else _) as [[x s2]|] eqn:E; [|done].
  assert (s_keys s2 = s_keys s1) as K2.
  { destruct (1 <=? message_level h); [by eapply authenticate_memory|by injection E as _ <-]. }
  assert (cached_by seen s2) by (unfold cached_by; by rewrite K2). by destruct x.
Qed.

(** What a receiver remembers, and every user it was configured with: policies are put in effect, and
    messages arrive under one whose users are among those. *)
Inductive lived : list UsmUser -> UsmState -> Prop :=
| lived_start : lived [] new_state
| lived_policy p seen s : lived seen s -> lived (map snd (users p) ++ seen) s
| lived_message data p now seen s :
    lived seen s -> (∀ e, e ∈ users p -> e.2 ∈ seen) -> lived seen (process_run hash hmac installed decode_scoped data p s now).2.

Lemma lived_ok seen s : lived seen s -> memory_ok s ∧ cached_by seen s.
Proof.
  induction 1 as [|p seen s _ [IH1 IH2]|data p now seen s _ [IH1 IH2] Hp].
  - split; [apply new_state_ok|]. by intros slot k H.
  - split; [done|]. intros slot k (u & e & Hu & ?)%IH2. exists u, e. split; [|done]. apply elem_of_app. by right.
  - split; [by apply process_memory_ok|by apply process_cached].
Qed.

(** C12: An accepted message names a configured user, comes from the engine the user is pinned to, if it is, and
    has exactly that user's security level. If the user authenticates, the message carries the MAC of its
    bytes, by the user's protocol, under a key localized for the sender's engine, and its clock was in the
    window when the policy asks. What was decoded is the message's data, or for a private user its
    decryption by the user's cipher. In every life of the receiver, from its start on, over any policies and
    messages, those keys were derived for a user it was configured with under the same name and master
    keys: this user, unless an admin changed the user's protocols and kept both master keys; then it may be the user as
    it was before ([a_changed_protocol_finds_the_old_key]), whose keys the same passphrases give. *)
Theorem an_accepted_message_is_authentic data p seen s now pdu u s' :
  lived seen s -> (∀ e, e ∈ users p -> e.2 ∈ seen) ->
  process hash hmac installed decode_scoped data p s now = Some (Ok (pdu, u), s') ->
  ∃ h v, parse_header data = Ok h ∧ assoc (h_user h) (users p) = Some u
    ∧ v ∈ seen ∧ u_name v = u_name u ∧ auth_key v = auth_key u ∧ priv_key v = priv_key u
    ∧ (∀ e, u_engine_id u = Some e -> e = engine_id h) ∧ message_level h = level u
    ∧ (level u ≠ 0 -> ∃ len, assoc (u_auth u) AUTH_PROTOCOLS = Some len
         ∧ auth_params h = take len (hmac (u_auth u) (fresh_auth v (engine_id h)) (zeroed data h len))
         ∧ (time_window p = true -> ∃ s1, s_clocks s1 = s_clocks s ∧ (in_window (engine_id h) (boots h) (engine_time h) now s1).1 = true))
    ∧ ∃ body, decode_scoped body = Some pdu
        ∧ (level u ≠ 2 -> body = h_data h)
        ∧ (level u = 2 -> ∃ key, fresh_priv v (engine_id h) = Some key ∧ decrypt installed (u_priv u) key h = Some (Ok body)).
Proof.
  intros [Hm Hc]%lived_ok Hp. unfold process, process_run. destruct (_ ≫= _) as [[h u0]|e] eqn:G; [|done].
  apply bind_Ok_inv in G as (h0 & Eh & G). apply bind_Ok_inv in G as (u1 & Ku & G). injection G as -> ->.
  pose proof (known_user_in _ _ _ Ku) as Eu. unfold known_user in Ku. rewrite Eu in Ku.
  apply ensure_Ok_inv in Ku as [K1 Ku]. apply ensure_Ok_inv in Ku as [_ Ku]. apply ensure_Ok_inv in Ku as [K3 Ku].
  apply ensure_Ok_inv in Ku as [K4 _]. assert (El : message_level h = level u0) by lia. clear K3 K4.
  assert (u0 ∈ seen) as Hu by (apply (Hp (h_user h, u0)); by apply assoc_Some).
  destruct (keys hash u0 (engine_id h) s) as [[[k pk] s1]|] eqn:K; [|done].
  destruct (keys_ok seen u0 (engine_id h) s (k, pk) s1 Hu Hc Hm K) as [(v & Hv & Es & Ek & Ep) _]. cbn [fst snd] in Ek, Ep.
  destruct (keys_memory u0 (engine_id h) s (k, pk) s1 Hm K) as [_ Esc].
  destruct (if 1 <=? message_level h then _ else _) as [[[[]|] s2]|] eqn:E; [|done..].
  destruct (body_of installed decode_scoped u0 pk h) as [b|] eqn:Hb; [|done]. intros [= -> <-].
  unfold body_of in Hb. destruct (scoped_bytes installed u0 pk h) as [scoped|] eqn:Hs; [|done]. cbn [mbind option_bind] in Hb. injection Hb as Hb.
  apply bind_Ok_inv in Hb as (body & -> & Hb). destruct (decode_scoped body) as [pdu0|] eqn:Ed; [|done]. injection Hb as -> ->.
  assert (Hlv : 0 <= level u) by (unfold level; repeat case_match; lia). unfold slot_of in Es. injection Es as E1 E2 E3.
  exists h, v. split_and!; [done..| |done| |].
  - intros e Ee. rewrite Ee in K1. by apply bool_decide_eq_true in K1.
  - intros L. rewrite El in E. replace (1 <=? level u) with true in E by (symmetry; lia). unfold authenticate in E.
    destruct (assoc (u_auth u) AUTH_PROTOCOLS) as [len|]; [|done]. cbn [mbind option_bind] in E. exists len. split; [done|].
    destruct (negb _); [done|]. destruct (negb (bool_decide _)) eqn:M; [done|]. apply negb_false_iff, bool_decide_eq_true in M. split.
    + rewrite <- M. unfold mac_of. by rewrite Ek.
    + intros Ht. rewrite Ht in E. exists s1. split; [done|]. destruct (in_window _ _ _ _ _) as [[|] s3]; [done|]. by injection E.
  - exists body. split; [done|]. unfold scoped_bytes in Hs. rewrite El in Hs. split.
    + intros L. replace (level u =? 2) with false in Hs by (symmetry; lia). injection Hs as Hs. apply ensure_Ok_inv in Hs as [_ Hs]. by injection Hs.
    + intros L. rewrite L in Hs. cbn in Hs. destruct (negb (data_tag h =? 4)); [done|]. by exists pk.
Qed.
End accepted.

(** ** At one message *)

Section at_one_message.

(** Toy digests: all that is used of them is their length. *)
Let toy_hash (_ : string) (data : bytes) : bytes := take 16 (data ++ replicate 16 Byte.x2a).
Let toy_hmac (_ : string) (key data : bytes) : bytes := replicate 16 (foldl xor_byte Byte.x5c (key ++ data)).
Let decoder (_ : bytes) : option Pdu := Some (TrapPDU []).

Let engine : bytes := map z2b [128; 0; 31; 136; 128].
Let the_user (priv : string) : UsmUser := MkUser "ab" "MD5" priv (map z2b [1; 2; 3]) (map z2b [4; 5; 6]) None.
Let the_policy (priv : string) : SnmpPolicy := MkPolicy true true true [] [(map z2b [97; 98], the_user priv)] true.

(** An authNoPriv message of boot 5, second 100, with the given MAC. *)
Let message (mac : bytes) : bytes :=
  map z2b [0x30; 0x3b; 0x02; 0x01; 0x03; 0x30; 0x0d; 0x02; 0x01; 0x01; 0x02; 0x02; 0x05; 0xdc; 0x04; 0x01; 0x01; 0x02; 0x01; 0x03; 0x04; 0x23; 0x30; 0x21; 0x04; 0x05]
  ++ engine ++ map z2b [0x02; 0x01; 0x05; 0x02; 0x01; 0x64; 0x04; 0x02; 97; 98; 0x04; 0x0c] ++ mac
  ++ map z2b [0x04; 0x00; 0x30; 0x02; 0x05; 0x00].
Let its_mac : bytes := take 12 (toy_hmac "MD5" (localize toy_hash (map z2b [1; 2; 3]) engine "MD5") (message (replicate 12 Byte.x00))).
Let arrives (mac : bytes) (s : UsmState) := process toy_hash toy_hmac None decoder (message mac) (the_policy NONE) s (f_of_Z 1000).

Lemma an_accepted_message_is_authentic_witness :
  ∃ s', arrives its_mac new_state = Some (Ok (TrapPDU [], the_user NONE), s') ∧ ∃ h, parse_header (message its_mac) = Ok h ∧ message_level h = 1.
Proof.
  destruct (arrives its_mac new_state) as [[[[pdu u]|e] s']|] eqn:E; [|by vm_compute in E..].
  assert (pdu = TrapPDU [] ∧ u = the_user NONE) as [-> ->] by (vm_compute in E; injection E as <- <- _; split; reflexivity).
  exists s'. split; [done|].
  destruct (an_accepted_message_is_authentic toy_hash toy_hmac None decoder (message its_mac) (the_policy NONE) [the_user NONE] new_state (f_of_Z 1000) _ _ s'
    (lived_policy toy_hash toy_hmac None decoder (the_policy NONE) [] new_state (lived_start toy_hash toy_hmac None decoder))
    ltac:(intros e He; apply list_elem_of_singleton in He as ->; by left) E) as (h & v & H1 & _ & _ & _ & _ & _ & _ & H4 & _).
  exists h. split; [exact H1|rewrite H4; reflexivity].
Defined.

(** The MAC is asked for: with another the message is refused. *)
Example another_mac_is_refused : fst <$> arrives (replicate 12 Byte.x00) new_state = Some (Err "v3-authentication-failed").
Proof. vm_compute. reflexivity. Qed.

Lemma a_replay_is_refused_witness :
  ∃ s', in_window engine 5 100 (f_of_Z 1000) new_state = (true, s') ∧ (in_window engine 4 400 (f_of_Z 1001) s').1 = false.
Proof.
  destruct (in_window engine 5 100 (f_of_Z 1000) new_state) as [b s'] eqn:E. assert (b = true) as -> by (vm_compute in E; by injection E). exists s'. split; [done|].
  apply (a_replay_is_refused engine 5 100 (f_of_Z 1000) new_state s' [] 4 400 (f_of_Z 1001) new_state_ok E); [cbn; unfold CACHE_ENTRIES; lia|lia].
Defined.

Lemma a_privacy_key_has_its_size_witness : ∃ k, privacy_key toy_hash (the_user "DES") engine = Some k ∧ length k = 16%nat.
Proof.
  destruct (a_privacy_key_has_its_size toy_hash (fun _ => 16%nat)
    ltac:(intros a d _; unfold toy_hash; rewrite length_take, length_app, length_replicate; cbv beta; lia) ltac:(intros; cbv beta; lia) (the_user "DES") engine
    ltac:(apply elem_of_cons; by left) ltac:(apply elem_of_cons; by left)) as (k & size & H1 & H2 & H3).
  exists k. split; [exact H1|]. injection H2 as <-. exact H3.
Defined.

(** The slot of the kept keys does not say the protocols: after a user's privacy goes from AES-128 to
    AES-256 with the same master keys, the keys of the 128-bit cipher are found again. *)
Example a_changed_protocol_finds_the_old_key :
  match keys toy_hash (the_user "AES-128") engine new_state with
  | Some (old, s) => (fst <$> keys toy_hash (the_user "AES-256") engine s) = Some old ∧ length old.2 = 16%nat
      ∧ (length <$> privacy_key toy_hash (the_user "AES-256") engine) = Some 32%nat
  | None => False
  end.
Proof. vm_compute. auto. Qed.

(** From DES to 3DES the kept key is too short for the initialisation vector: the message raises. *)
Example a_changed_protocol_raises :
  match parse_header (message its_mac), keys toy_hash (the_user "DES") engine new_state with
  | Ok h, Some (_, s) =>
      let sent := MkHeader (flags h) (engine_id h) (boots h) (engine_time h) (h_user h) (auth_params h) (auth_offset h)
                    (map z2b [1; 2; 3; 4; 5; 6; 7; 8]) 4 (replicate 8 Byte.x00) in
      let some_ciphers := Some (MkCiphers (fun _ _ d => Some d) (fun _ _ d => Some d)) in
      match keys toy_hash (the_user "3DES") engine s, privacy_key toy_hash (the_user "3DES") engine with
      | Some (old, _), Some key => (decrypt some_ciphers "3DES" old.2 sent, decrypt some_ciphers "3DES" key sent)
      | _, _ => (Some (Err "no key"), None)
      end
  | _, _ => (Some (Err "no message"), None)
  end = (None, Some (Ok (replicate 8 Byte.x00))).
Proof. vm_compute. reflexivity. Qed.
End at_one_message.
