(* ===== verification/Receiver.v ===== *)
(** * The trap receiver ([ingest/receiver.py])

    One datagram: the allowlist, the version, the policy, the parse of a v1, v2c or v3 trap, and the
    quarantine of what is refused, with its community blanked. The BER decoder of a v1 or v2c message,
    the hashes and the ciphers are arguments; what prints a value ([prettyPrint]) is part of the
    decoder. *)
From S2P Require Import Prelude PyLib Addresses Oids Ber Usm.

Definition MAX_QUARANTINE_BYTES : nat := 4096.
Definition MAX_INSTANCE_CHARS : nat := 120.
Definition COMMUNITY_TAG_HEX : nat := 12.
Definition MAX_REASONS : nat := 64.
Definition SNMP_TRAPS_PREFIX : string := "1.3.6.1.6.3.1.1.5".
Definition SNMP_TRAP_ADDRESS_OID : string := "1.3.6.1.6.3.18.1.3.0".
Definition SNMP_TRAP_ENTERPRISE_OID : string := "1.3.6.1.6.3.1.1.4.3.0".
Definition SNMP_TRAP_OID : string := "1.3.6.1.6.3.1.1.4.1.0".
Definition SYS_UPTIME_OID : string := "1.3.6.1.2.1.1.3.0".
Definition IF_INDEX_PREFIX : string := "1.3.6.1.2.1.2.2.1.1.".
Definition SKIP_FOR_INSTANCE : list string := [SYS_UPTIME_OID; SNMP_TRAP_OID].

(** ** Events ([events.py]) *)

Record Varbind := MkVarbind { vb_oid : string; vb_kind : string; vb_value : string }.
Record Trap := MkTrapEvent {
  t_device : string; t_oid : string; t_instance : string; t_stamp : float; t_varbinds : list Varbind; t_tag : string }.
Record Quarantined := MkQuarantined {
  q_source : string; q_raw : bytes; q_reason : string; q_stamp : float; q_sha256 : string; q_length : Z; q_first8 : string; q_sanitized : bool }.
Inductive QueueItem := TrapItem (t : Trap) | QuarantineItem (q : Quarantined).

(** ** What the BER decoder finds *)

Record V1Trap := MkV1Trap {
  enterprise : string; generic : Z; specific : Z; timestamp : Z; agent : string; v1_varbinds : list (string * string * string) }.
Inductive V1Pdu := V1TrapPDU (t : V1Trap) | V1OtherPDU (kind : string).

(** ** Versions *)

Definition peek_version (data : bytes) : option Z :=
  if (blen data <? 5) || negb (byte_at data 0 =? 0x30) then None
  else
    let offset := 2 + (if Z.land (byte_at data 1) 0x80 =? 0 then 0 else Z.land (byte_at data 1) 0x7F) in
    if (blen data <? offset + 3) || negb (byte_at data offset =? 0x02) || negb (byte_at data (offset + 1) =? 0x01) then None
    else Some (byte_at data (offset + 2)).

Definition decode_failure_reason (data : bytes) : string :=
  match peek_version data with
  | None => "ber-decode-failed"
  | Some v => if v =? 1 then "malformed-v2c-message" else "unsupported-snmp-version-" +:+ pretty v
  end.

(** ** Varbinds *)

Definition varbind_of (vb : string * string * string) : Varbind := MkVarbind vb.1.1 vb.1.2 vb.2.

(** [all(part.isdigit() for part in trap_oid.split("."))]. *)
Definition numeric_oid (oid : string) : bool := forallb (fun part => all_dec (chars part)) (split "." oid).

(** [value.lstrip("-").isdigit()]. *)
Fixpoint drop_dashes (l : list ascii) : list ascii :=
  match l with a :: l' => if Ascii.eqb a "-" then drop_dashes l' else l | [] => [] end.
Definition a_number (value : string) : bool := all_dec (drop_dashes (chars value)).
(** [oid[-2:] == ".0"]. *)
Definition scalar (oid : string) : bool :=
  match reverse (chars oid) with z :: d :: _ => Ascii.eqb z "0" && Ascii.eqb d "." | _ => false end.

Definition instance_of (varbinds : list Varbind) : string :=
  match List.find (fun vb => String.prefix IF_INDEX_PREFIX (vb_oid vb)) varbinds with
  | Some vb => PyLib.clip MAX_INSTANCE_CHARS (vb_value vb)
  | None =>
      let payload := List.filter (fun vb => negb (bool_decide (vb_oid vb ∈ SKIP_FOR_INSTANCE))) varbinds in
      let payload := List.filter (fun vb => negb (scalar (vb_oid vb) && a_number (vb_value vb))) payload in
      match List.find (fun vb => negb (bool_decide (is_Some (severity_rank (vb_value vb))))) payload with
      | Some vb => PyLib.clip MAX_INSTANCE_CHARS (vb_value vb)
      | None => match payload with vb :: _ => PyLib.clip MAX_INSTANCE_CHARS (vb_value vb) | [] => "" end
      end
  end.

(** An SNMPv2 trap as an event: the last [snmpTrapOID] varbind names it. *)
Definition event_from_pdu (source : string) (vbs : list (string * string * string)) (ts : float) (tag : string) : res string Trap :=
  let varbinds := map varbind_of vbs in
  let trap_oid := foldl (fun oid vb => if String.eqb (vb_oid vb) SNMP_TRAP_OID then vb_value vb else oid) "" varbinds in
  ensure (negb (String.eqb trap_oid "")) "missing-trap-oid"
  (ensure (numeric_oid trap_oid) "bad-trap-oid"
   (Ok (MkTrapEvent source trap_oid (instance_of varbinds) ts varbinds tag))).

Definition v1_trap_oid (enterprise : string) (generic specific : Z) : string :=
  if (0 <=? generic) && (generic <? 6) then SNMP_TRAPS_PREFIX +:+ "." +:+ pretty (generic + 1)
  else enterprise +:+ ".0." +:+ pretty specific.

(** The trap's own varbinds between the two the event is named by and the two that say where from. *)
Definition v1_event (source : string) (t : V1Trap) (ts : float) (tag : string) : res string Trap :=
  let oid := v1_trap_oid (enterprise t) (generic t) (specific t) in
  ensure (numeric_oid oid) "bad-trap-oid"
  (let varbinds :=
     [MkVarbind SYS_UPTIME_OID "TimeTicks" (pretty (timestamp t)); MkVarbind SNMP_TRAP_OID "ObjectIdentifier" oid]
     ++ map varbind_of (v1_varbinds t)
     ++ [MkVarbind SNMP_TRAP_ADDRESS_OID "IpAddress" (agent t); MkVarbind SNMP_TRAP_ENTERPRISE_OID "ObjectIdentifier" (enterprise t)] in
   Ok (MkTrapEvent source oid (instance_of varbinds) ts varbinds tag)).

(** ** Quarantine *)

(** [bytes.hex()]. *)
Definition hex_digit (z : Z) : ascii := nth (Z.to_nat z) (chars "0123456789abcdef") "0"%char.
Definition hex_of (bs : bytes) : string := unchars (flat_map (fun b => [hex_digit (b2z b / 16); hex_digit (b2z b mod 16)]) bs).

(** Octets from [start] on, [length] of them, zeroed. *)
Definition zero_at (data : bytes) (start length : Z) : bytes :=
  take (Z.to_nat start) data ++ replicate (Z.to_nat length) Byte.x00 ++ drop (Z.to_nat (start + length)) data.

Definition blank_community (data : bytes) : option bytes :=
  if (blen data =? 0) || negb (byte_at data 0 =? 0x30) then None
  else match read_length data 1 with
  | None => None
  | Some seq =>
      let i := seq.2 in
      if (blen data <=? i) || negb (byte_at data i =? 0x02) then None
      else match read_length data (i + 1) with
      | None => None
      | Some ver =>
          let i := ver.2 + ver.1 in
          if (blen data <=? i) || negb (byte_at data i =? 0x04) then None
          else match read_length data (i + 1) with
          | None => None
          | Some com => if blen data <? com.2 + com.1 then None else Some (zero_at data com.2 com.1)
          end
      end
  end.

(** ** The allowlist *)

(** [None] is every source; a bad entry raises, naming itself. *)
Definition parse_allowlist (spec : string) : res string (option (list Network)) :=
  let entries := List.filter (fun e => negb (String.eqb e "")) (map strip (split "," spec)) in
  nets ← foldr (fun e acc => match ip_network e with Some n => nets ← acc; Ok (n :: nets) | None => Err e end) (Ok []) entries;
  Ok (match nets with [] => None | _ => Some nets end).

Record Stats := MkStats { received : Z; accepted : Z; denied : Z; quarantined : Z; dropped : Z }.
Definition no_stats : Stats := MkStats 0 0 0 0 0.

(** The queue holds at most [queue_size] items; 0 is no bound. *)
Record TrapReceiver := MkReceiver {
  queue : list QueueItem; queue_size : nat; networks : option (list Network); community_key : option bytes; accepts : SnmpPolicy;
  usm : UsmState; stats : Stats; reasons : list (string * Z) }.

Definition allowed (networks : option (list Network)) (source : string) : bool :=
  match networks with
  | None => true
  | Some nets => match ip_address source with Some a => existsb (in_network a) nets | None => false end
  end.

(** [_refused]. *)
Definition refused (reason : string) (reasons : list (string * Z)) : list (string * Z) :=
  match assoc reason reasons with
  | Some n => dict_set reason (n + 1) reasons
  | None => if Nat.ltb (length reasons) MAX_REASONS then dict_set reason 1 reasons else reasons
  end.

Definition full (r : TrapReceiver) : bool := Nat.ltb 0 (queue_size r) && Nat.leb (queue_size r) (length (queue r)).

Section receiver.
Context (hash : string -> bytes -> bytes) (hmac : string -> bytes -> bytes -> bytes) (installed : option Ciphers)
        (decode_scoped : bytes -> option Pdu)
        (hmac_sha256 : bytes -> bytes -> string) (sha256 : bytes -> string)
        (decode_v1 : bytes -> option (bytes * V1Pdu)) (decode_v2c : bytes -> option (bytes * Pdu)).

Definition community_digest (community : bytes) (key : option bytes) : string :=
  match key with None => "" | Some k => hmac_sha256 k community end.
Definition community_tag (community : bytes) (key : option bytes) : string := PyLib.clip COMMUNITY_TAG_HEX (community_digest community key).

Definition accepted_tag (community : bytes) (key : option bytes) (p : SnmpPolicy) : res string string :=
  let d := community_digest community key in
  ensure (Nat.eqb (length (communities p)) 0 || bool_decide (d ∈ digests p)) "community-not-accepted" (Ok (PyLib.clip COMMUNITY_TAG_HEX d)).

Definition parse_v2c (source : string) (data : bytes) (ts : float) (key : option bytes) (p : SnmpPolicy) : res string Trap :=
  match decode_v2c data with
  | None => Err (decode_failure_reason data)
  | Some (_, OtherPDU kind) => Err ("not-a-trap-pdu:" +:+ kind)
  | Some (community, TrapPDU vbs) => tag ← accepted_tag community key p; event_from_pdu source vbs ts tag
  end.

Definition parse_v1 (source : string) (data : bytes) (ts : float) (key : option bytes) (p : SnmpPolicy) : res string Trap :=
  match decode_v1 data with
  | None => Err "malformed-v1-message"
  | Some (_, V1OtherPDU kind) => Err ("not-a-trap-pdu:" +:+ kind)
  | Some (community, V1TrapPDU t) => tag ← accepted_tag community key p; v1_event source t ts tag
  end.

Definition user_tag (u : UsmUser) (key : option bytes) : string := community_tag (String.list_byte_of_string ("usm:" +:+ u_name u)) key.

(** [None] is an exception other than a refusal. *)
Definition parse_v3 (source : string) (data : bytes) (ts : float) (key : option bytes) (p : SnmpPolicy) (s : UsmState)
  : option (res string Trap * UsmState) :=
  '(r, s) ← process hash hmac installed decode_scoped data p s ts;
  Some (match r with
        | Err reason => Err reason
        | Ok (OtherPDU kind, _) => Err ("not-a-trap-pdu:" +:+ kind)
        | Ok (TrapPDU vbs, u) => event_from_pdu source vbs ts (user_tag u key)
        end, s).

Definition parse_trap (source : string) (data : bytes) (ts : float) (key : option bytes) (p : SnmpPolicy) (s : UsmState)
  : option (res string Trap * UsmState) :=
  let version := peek_version data in
  if bool_decide (version = Some 0) then
    Some (ensure (v1 p) "snmp-v1-not-accepted" (parse_v1 source data ts key p), s)
  else if bool_decide (version = Some 3) then
    if v3 p then parse_v3 source data ts key p s else Some (Err "snmp-v3-not-accepted", s)
  else if bool_decide (version = Some 1) && negb (v2c p) then Some (Err "snmp-v2c-not-accepted", s)
  else Some (parse_v2c source data ts key p, s).

Definition quarantine_packet (source : string) (data : bytes) (reason : string) (ts : float) : Quarantined :=
  match blank_community data with
  | Some blanked =>
      let raw := take MAX_QUARANTINE_BYTES blanked in
      MkQuarantined source raw reason ts (sha256 raw) (blen data) (hex_of (take 8 raw)) true
  | None => MkQuarantined source [] reason ts (sha256 data) (blen data) (hex_of (take 4 data)) false
  end.

Definition datagram_received (data : bytes) (source : string) (now : float) (r : TrapReceiver) : option TrapReceiver :=
  let '(MkStats received accepted denied quarantined dropped) := stats r in
  let received := received + 1 in
  if negb (allowed (networks r) source) then
    Some (MkReceiver (queue r) (queue_size r) (networks r) (community_key r) (accepts r) (usm r)
            (MkStats received accepted (denied + 1) quarantined dropped) (reasons r))
  else
    '(parsed, s) ← parse_trap source data now (community_key r) (accepts r) (usm r);
    let '(item, accepted, quarantined, reasons) :=
      match parsed with
      | Ok t => (TrapItem t, accepted + 1, quarantined, reasons r)
      | Err reason => (QuarantineItem (quarantine_packet source data reason now), accepted, quarantined + 1, refused reason (reasons r))
      end in
    let '(q, dropped) := if full r then (queue r, dropped + 1) else (queue r ++ [item], dropped) in
    Some (MkReceiver q (queue_size r) (networks r) (community_key r) (accepts r) s (MkStats received accepted denied quarantined dropped) reasons).

(** What an exception other than a refusal leaves, which only SNMPv3 raises: the datagram is counted as
    received, what was remembered of it stays, and the event loop logs it and goes on. *)
Definition datagram_raised (data : bytes) (now : float) (r : TrapReceiver) : TrapReceiver :=
  let '(MkStats received accepted denied quarantined dropped) := stats r in
  MkReceiver (queue r) (queue_size r) (networks r) (community_key r) (accepts r)
    (process_run hash hmac installed decode_scoped data (accepts r) (usm r) now).2
    (MkStats (received + 1) accepted denied quarantined dropped) (reasons r).
End receiver.

(** [TrapReceiver(queue, allowlist, community_key, policy)]. *)
Definition new_receiver (queue_size : nat) (allowlist : string) (key : option bytes) (p : SnmpPolicy) : res string TrapReceiver :=
  nets ← parse_allowlist allowlist;
  Ok (MkReceiver [] queue_size nets key p new_state no_stats []).
