(* ===== verification/ReceiverLaws.v ===== *)
(** * What the receiver lets in, counts and keeps

    A trap it accepts is one its policy admits; every datagram is counted once and nothing grows
    without bound; a quarantined message keeps no octet of its community; no datagram raises. *)
From S2P Require Import Prelude PyLib Addresses Oids Ber Usm Receiver.

(** ** The policy *)

Section receiver.
Context (hash : string -> bytes -> bytes) (hmac : string -> bytes -> bytes -> bytes) (installed : option Ciphers)
        (decode_scoped : bytes -> option Pdu)
        (hmac_sha256 : bytes -> bytes -> string) (sha256 : bytes -> string)
        (decode_v1 : bytes -> option (bytes * V1Pdu)) (decode_v2c : bytes -> option (bytes * Pdu)).

Abbreviation parse := (parse_trap hash hmac installed decode_scoped hmac_sha256 decode_v1 decode_v2c).
Abbreviation receive := (datagram_received hash hmac installed decode_scoped hmac_sha256 sha256 decode_v1 decode_v2c).

Definition community_accepted (p : SnmpPolicy) (key : option bytes) (community : bytes) : Prop :=
  communities p = [] ∨ community_digest hmac_sha256 community key ∈ digests p.

Lemma accepted_tag_ok community key p tag :
  accepted_tag hmac_sha256 community key p = Ok tag ->
  community_accepted p key community ∧ tag = community_tag hmac_sha256 community key.
Proof.
  unfold accepted_tag. intros [H [= <-]]%ensure_Ok_inv. split; [|done]. apply orb_true_iff in H as [H|H].
  - left. apply Nat.eqb_eq in H. by destruct (communities p).
  - right. by apply bool_decide_eq_true in H.
Qed.

Lemma event_from_pdu_ok source vbs ts tag t :
  event_from_pdu source vbs ts tag = Ok t ->
  t_device t = source ∧ t_stamp t = ts ∧ t_tag t = tag ∧ numeric_oid (t_oid t) = true ∧ t_varbinds t = map varbind_of vbs
  ∧ t_instance t = instance_of (t_varbinds t).
Proof. unfold event_from_pdu. intros [_ [H [= <-]]%ensure_Ok_inv]%ensure_Ok_inv. done. Qed.

Lemma v1_event_ok source v ts tag t :
  v1_event source v ts tag = Ok t ->
  t_device t = source ∧ t_stamp t = ts ∧ t_tag t = tag ∧ numeric_oid (t_oid t) = true ∧ t_instance t = instance_of (t_varbinds t).
Proof. unfold v1_event. intros [H [= <-]]%ensure_Ok_inv. done. Qed.

(** C3: A trap that comes out of a datagram has the sender's address, whatever the message says, a numeric
    name and the tag of what let it in; and the policy let it in: a message of version 1 while v1 is
    accepted and with an accepted community, an SNMPv3 message from a configured user while v3 is
    accepted, or a message that reads as v2c with an accepted community, whose version octet, if it has
    one octet of version, is only 1 when v2c is accepted. *)
Theorem an_accepted_trap_is_admitted source data ts key p s t s' :
  parse source data ts key p s = Some (Ok t, s') ->
  t_device t = source ∧ t_stamp t = ts ∧ numeric_oid (t_oid t) = true ∧ t_instance t = instance_of (t_varbinds t)
  ∧ ((∃ community v, peek_version data = Some 0 ∧ v1 p = true ∧ decode_v1 data = Some (community, V1TrapPDU v)
        ∧ community_accepted p key community ∧ t_tag t = community_tag hmac_sha256 community key)
     ∨ (∃ vbs u, peek_version data = Some 3 ∧ v3 p = true
        ∧ process hash hmac installed decode_scoped data p s ts = Some (Ok (TrapPDU vbs, u), s')
        ∧ t_varbinds t = map varbind_of vbs ∧ t_tag t = user_tag hmac_sha256 u key)
     ∨ (∃ community vbs, peek_version data ≠ Some 0 ∧ peek_version data ≠ Some 3 ∧ (peek_version data = Some 1 -> v2c p = true)
        ∧ decode_v2c data = Some (community, TrapPDU vbs) ∧ community_accepted p key community
        ∧ t_varbinds t = map varbind_of vbs ∧ t_tag t = community_tag hmac_sha256 community key)).
Proof.
  unfold parse_trap. case_bool_decide as H0.
  { intros [= H _]. apply ensure_Ok_inv in H as [Hv H]. unfold parse_v1 in H. destruct (decode_v1 data) as [[community [v|]]|] eqn:E; [|done..].
    apply bind_Ok_inv in H as (tag & (Hc & ->)%accepted_tag_ok & H). apply v1_event_ok in H as (H1 & H2 & H3 & H4 & H5).
    split_and!; [done..|]. left. by exists community, v. }
  case_bool_decide as H3.
  { destruct (v3 p) eqn:Hv; [|done]. unfold parse_v3. destruct (process _ _ _ _ data p s ts) as [[[[pdu u]|] s1]|] eqn:E; cbn; [|done|done].
    destruct pdu as [vbs|]; [|done]. intros [= H <-]. apply event_from_pdu_ok in H as (H1 & H2 & H5 & H4 & H6 & H7).
    split_and!; [done..|]. right. left. by exists vbs, u. }
  destruct (bool_decide (peek_version data = Some 1) && negb (v2c p)) eqn:Hv; [done|]. intros [= H _]. unfold parse_v2c in H.
  destruct (decode_v2c data) as [[community [vbs|]]|] eqn:E; [|done..].
  apply bind_Ok_inv in H as (tag & (Hc & ->)%accepted_tag_ok & H). apply event_from_pdu_ok in H as (H1 & H2 & H5 & H4 & H6 & H7).
  split_and!; [done..|]. right. right. exists community, vbs. split_and!; try done. intros H8. rewrite bool_decide_eq_true_2 in Hv by done.
  by destruct (v2c p).
Qed.

(** ** Nothing raises *)

Section total.
Context (digest_size : string -> nat).
Hypothesis hash_size : ∀ auth data, auth ∈ AUTH_PROTOCOLS.*1 -> length (hash auth data) = digest_size auth.
Hypothesis digests_are_long : ∀ auth, auth ∈ AUTH_PROTOCOLS.*1 -> (16 <= digest_size auth)%nat.

Lemma say_nil {A} (b : bool) (p : A) : say b p = [] -> b = false.
Proof. by destruct b. Qed.

(** What the check at write time gives of each user. *)
Lemma usable_user p name u :
  policy_problems p = [] -> (name, u) ∈ users p ->
  (u_auth u ≠ NONE -> u_auth u ∈ AUTH_PROTOCOLS.*1) ∧ (u_priv u ≠ NONE -> u_priv u ∈ PRIV_PROTOCOLS ∧ u_auth u ≠ NONE).
Proof.
  intros Hp Hu. unfold policy_problems in Hp. do 3 apply app_nil in Hp as [_ Hp].
  assert (user_problems u = []) as H.
  { destruct (user_problems u) as [|q l] eqn:E; [done|]. exfalso.
    assert (OfUser q ∈ flat_map (fun e => map OfUser (user_problems e.2)) (users p)) as Hq; [|rewrite Hp in Hq; by apply not_elem_of_nil in Hq].
    apply list_elem_of_In, in_flat_map. exists (name, u). split; [by apply list_elem_of_In|]. cbn. rewrite E. by left. }
  unfold user_problems in H. apply app_nil in H as [_ H]. apply app_nil in H as [H1%say_nil H]. apply app_nil in H as [H2%say_nil H].
  apply app_nil in H as [H3%say_nil _]. split.
  - intros Ha. destruct (String.eqb_spec (u_auth u) NONE); [done|]. cbn [negb andb] in H1. by apply negb_false_iff, bool_decide_eq_true in H1.
  - intros Ha. destruct (String.eqb_spec (u_priv u) NONE); [done|]. cbn [negb andb] in H2, H3. split; [by apply negb_false_iff, bool_decide_eq_true in H2|].
    intros Hn. by rewrite Hn in H3.
Qed.

(** The ciphers take the keys their protocols are given: of 16, 24 or 32 octets with AES, and of 24, an
    initialisation vector of 8 and whole blocks, with 3DES. *)
Definition takes_its_keys (c : Ciphers) : Prop :=
  (∀ key iv data, length key ∈ [16; 24; 32]%nat -> is_Some (aes_cfb c key iv data))
  ∧ (∀ key iv data, length key = 24%nat -> length iv = 8%nat -> (length data mod 8 = 0)%nat -> is_Some (des3_cbc c key iv data)).
Hypothesis ciphers_take_keys : ∀ c, installed = Some c -> takes_its_keys c.

(** The kept keys are those of the users as they are now. *)
Definition cached_now (p : SnmpPolicy) (s : UsmState) : Prop :=
  ∀ name u engine k, (name, u) ∈ users p -> assoc (slot_of u engine) (s_keys s) = Some k -> fresh_priv hash u engine = Some k.2.

Lemma decrypt_total priv key size h :
  assoc priv KEY_SIZE = Some size -> priv ∈ PRIV_PROTOCOLS -> length key = size -> is_Some (decrypt installed priv key h).
Proof using ciphers_take_keys.
  intros Hs Hp Hk. unfold decrypt. destruct installed as [c|]; [|done]. destruct (ciphers_take_keys c eq_refl) as [Haes Hdes].
  destruct (Nat.eqb_spec (length (priv_params h)) 8) as [Hsalt|]; [|done]. cbn [negb]. case_bool_decide as Hd.
  - destruct (Nat.eqb_spec (length (h_data h) mod 8) 0); [|done]. cbn [negb].
    assert (length (take 8 (drop (if String.eqb priv "DES" then 8 else 24) key)) = 8%nat ∧
            length (if String.eqb priv "DES" then take 8 key ++ take 8 key ++ take 8 key else take 24 key) = 24%nat) as [L1 L2].
    { apply elem_of_cons in Hd as [->|Hd%list_elem_of_singleton]; [|subst priv]; injection Hs as <-; cbn [String.eqb Ascii.eqb Bool.eqb];
        rewrite ?length_app, !length_take, ?length_drop, Hk; split; reflexivity. }
    rewrite L1, Hsalt. cbn [negb Nat.eqb]. apply fmap_is_Some, Hdes; [done|rewrite length_zip_with; lia|done].
  - apply fmap_is_Some, Haes. rewrite Hk. clear -Hs Hp Hd. unfold PRIV_PROTOCOLS in Hp.
    repeat (apply elem_of_cons in Hp as [->|Hp]; [first [by destruct Hd; set_solver|injection Hs as <-; set_solver]|]). by apply not_elem_of_nil in Hp.
Qed.

Lemma process_total data p s now :
  policy_problems p = [] -> cached_now p s -> is_Some (process hash hmac installed decode_scoped data p s now).
Proof using All.
  intros Hp Hcached. unfold process, process_run. destruct (_ ≫= _) as [[h u]|] eqn:G; [|done].
  apply bind_Ok_inv in G as (h0 & _ & G). apply bind_Ok_inv in G as (u0 & Ku & G). injection G as -> ->.
  unfold known_user in Ku. destruct (assoc (h_user h) (users p)) as [u1|] eqn:E; [|done].
  do 3 apply ensure_Ok_inv in Ku as [_ Ku]. apply ensure_Ok_inv in Ku as [K Ku]. injection Ku as ->.
  destruct (usable_user p (h_user h) u Hp (assoc_Some _ _ _ E)) as [U1 U2].
  assert (∃ k pk s1, keys hash u (engine_id h) s = Some ((k, pk), s1) ∧ fresh_priv hash u (engine_id h) = Some pk) as (k & pk & s1 & -> & Hpk).
  { unfold keys. change (u_name u, auth_key u, priv_key u, engine_id h) with (slot_of u (engine_id h)).
    destruct (assoc _ (s_keys s)) as [[k pk]|] eqn:Ek.
    - eexists _, _, _. split; [done|]. by apply (Hcached (h_user h) u _ _ (assoc_Some _ _ _ E)) in Ek.
    - fold (fresh_priv hash u (engine_id h)). assert (is_Some (fresh_priv hash u (engine_id h))) as [pk ->]; [|by eexists _, _, _].
      unfold fresh_priv. destruct (String.eqb_spec (u_priv u) NONE) as [|Hn]; [done|].
      destruct (U2 Hn) as [U3 U4]. destruct (privacy_key_sized hash digest_size hash_size digests_are_long u (engine_id h) (U1 U4) U3) as (pk & _ & -> & _). done. }
  assert (is_Some (if 1 <=? message_level h then authenticate hmac data p u k h now s1 else Some (Ok (), s1))) as [[c s2] ->].
  { destruct (1 <=? message_level h) eqn:L; [|done]. unfold authenticate.
    assert (u_auth u ≠ NONE) as Ha by (intros Hn; unfold level in K; rewrite Hn in K; cbn in K; lia).
    destruct (elem_assoc (u_auth u) AUTH_PROTOCOLS (U1 Ha)) as [len ->]. cbn [mbind option_bind].
    destruct (negb _); [done|]. destruct (negb _); [done|]. destruct (time_window p); [|done]. by destruct (in_window _ _ _ _ _). }
  destruct c as [[]|]; [|done]. assert (is_Some (body_of installed decode_scoped u pk h)) as [x ->]; [|done].
  unfold body_of. assert (is_Some (scoped_bytes installed u pk h)) as [x ->]; [|done]. unfold scoped_bytes.
  destruct (message_level h =? 2) eqn:L; [|done]. destruct (negb _); [done|].
  assert (u_priv u ≠ NONE) as Hn by (intros Hn; unfold level in K; rewrite Hn in K; destruct (String.eqb (u_auth u) NONE); cbn in K; lia).
  destruct (U2 Hn) as [U3 U4]. destruct (privacy_key_sized hash digest_size hash_size digests_are_long u (engine_id h) (U1 U4) U3) as (pk' & size & Hk' & Hs & Hl).
  unfold fresh_priv in Hpk. destruct (String.eqb_spec (u_priv u) NONE); [done|]. assert (pk' = pk) as -> by congruence. by eapply decrypt_total.
Qed.

Lemma receive_total data source now r :
  policy_problems (accepts r) = [] -> cached_now (accepts r) (usm r) -> is_Some (receive data source now r).
Proof using All.
  intros Hp Hc. unfold datagram_received. destruct (stats r) as [n1 n2 n3 n4 n5]. destruct (negb _); [done|].
  assert (is_Some (parse source data now (community_key r) (accepts r) (usm r))) as [[parsed s] ->].
  { unfold parse_trap. case_bool_decide; [done|]. case_bool_decide.
    - destruct (v3 (accepts r)); [|done]. unfold parse_v3. destruct (process_total data (accepts r) (usm r) now Hp Hc) as [[x s] ->]. done.
    - by destruct (_ && _). }
  cbn [mbind option_bind]. destruct parsed; destruct (full r); done.
Qed.

(** Under a policy the check at write time accepts, while the kept keys are those of its users as they are
    ([cached_now]: no protocol was changed with its passphrases kept), every datagram is dealt with: none
    raises. *)
Theorem no_datagram_raises data source now r :
  policy_problems (accepts r) = [] -> cached_now (accepts r) (usm r) -> is_Some (receive data source now r).
Proof using All. apply receive_total. Qed.
End total.

(** ** Counting *)

(** A receiver's life: datagrams, the consumer's [get_nowait], and the settings an admin changes. *)
Inductive Happening :=
| Arrives (data : bytes) (source : string) (now : float)
| Taken
| Accepting (p : SnmpPolicy)
| Allowing (nets : option (list Network)).

Definition with_queue (q : list QueueItem) (r : TrapReceiver) : TrapReceiver :=
  MkReceiver q (queue_size r) (networks r) (community_key r) (accepts r) (usm r) (stats r) (reasons r).
Definition with_policy (p : SnmpPolicy) (r : TrapReceiver) : TrapReceiver :=
  MkReceiver (queue r) (queue_size r) (networks r) (community_key r) p (usm r) (stats r) (reasons r).
Definition with_networks (nets : option (list Network)) (r : TrapReceiver) : TrapReceiver :=
  MkReceiver (queue r) (queue_size r) nets (community_key r) (accepts r) (usm r) (stats r) (reasons r).

(** The receiver, how many datagrams arrived and how many raised, and how many items were taken. *)
Record Life := MkLife { receiver : TrapReceiver; arrived : Z; raised : Z; taken : Z }.
Definition start_life (r : TrapReceiver) : Life := MkLife r 0 0 0.

Definition happen (l : Life) (e : Happening) : Life :=
  let r := receiver l in
  match e with
  | Arrives data source now =>
      match receive data source now r with
      | Some r => MkLife r (arrived l + 1) (raised l) (taken l)
      | None => MkLife (datagram_raised hash hmac installed decode_scoped data now r) (arrived l + 1) (raised l + 1) (taken l)
      end
  | Taken => match queue r with _ :: q => MkLife (with_queue q r) (arrived l) (raised l) (taken l + 1) | [] => l end
  | Accepting p => MkLife (with_policy p r) (arrived l) (raised l) (taken l)
  | Allowing nets => MkLife (with_networks nets r) (arrived l) (raised l) (taken l)
  end.

Definition total (l : list (string * Z)) : Z := foldr (fun e acc => e.2 + acc) 0 l.

Record counted (r : TrapReceiver) (arrived raised taken : Z) : Prop := {
  c_received : received (stats r) = arrived;
  c_once : received (stats r) = denied (stats r) + accepted (stats r) + quarantined (stats r) + raised;
  c_kept : accepted (stats r) + quarantined (stats r) = Z.of_nat (length (queue r)) + taken + dropped (stats r);
  c_queue : (0 < queue_size r -> length (queue r) <= queue_size r)%nat;
  c_reasons : (length (reasons r) <= MAX_REASONS)%nat;
  c_total : total (reasons r) <= quarantined (stats r);
  c_usm : memory_ok (usm r) }.

Lemma total_set reason n (l : list (string * Z)) :
  total (dict_set reason n l) = total l - default 0 (assoc reason l) + n.
Proof.
  induction l as [|[k v] l IH]; cbn [dict_set assoc total foldr]; [cbn; lia|]. destruct (decide (reason = k)) as [->|]; cbn [foldr snd]; [cbn; lia|].
  unfold total in IH. rewrite IH. lia.
Qed.

Lemma refused_ok reason l : (length l <= MAX_REASONS)%nat -> (length (refused reason l) <= MAX_REASONS)%nat ∧ total (refused reason l) <= total l + 1.
Proof.
  intros Hl. unfold refused. destruct (assoc reason l) as [n|] eqn:E.
  - rewrite total_set, E, length_dict_set, bool_decide_eq_true_2; [cbn; lia|]. by apply assoc_elem in E.
  - destruct (Nat.ltb_spec (length l) MAX_REASONS); [|lia]. rewrite total_set, E, length_dict_set. cbn. case_bool_decide; lia.
Qed.

Lemma parse_memory source data ts key p s x s' : memory_ok s -> parse source data ts key p s = Some (x, s') -> memory_ok s'.
Proof.
  intros Hm. unfold parse_trap. case_bool_decide; [by intros [= _ <-]|]. case_bool_decide.
  - destruct (v3 p); [|by intros [= _ <-]]. unfold parse_v3. destruct (process _ _ _ _ data p s ts) as [[y s1]|] eqn:E; [|done].
    cbn. intros [= _ <-]. pose proof (process_memory_ok hash hmac installed decode_scoped data p s ts Hm) as Hm'.
    unfold process in E. destruct (process_run _ _ _ _ data p s ts) as [[z|] s2]; [|done]. by injection E as _ <-.
  - destruct (_ && _); by intros [= _ <-].
Qed.

Lemma receive_counted data source now r r' arrived raised taken :
  counted r arrived raised taken -> receive data source now r = Some r' -> counted r' (arrived + 1) raised taken.
Proof.
  intros [C1 C2 C3 C4 C5 C6 C7]. unfold datagram_received. destruct (stats r) as [n1 n2 n3 n4 n5] eqn:Es.
  cbn [received accepted denied quarantined dropped] in *.
  destruct (negb _); [intros [= <-]; split; cbn [received accepted denied quarantined dropped stats queue queue_size reasons usm]; try done; lia|].
  destruct (parse source data now (community_key r) (accepts r) (usm r)) as [[parsed s]|] eqn:E; [|done]. cbn [mbind option_bind].
  apply parse_memory in E; [|done].
  assert (full r = false -> 0 < queue_size r -> length (queue r) < queue_size r)%nat as Hq.
  { unfold full. intros F Hq. destruct (Nat.ltb_spec 0 (queue_size r)); [|lia]. cbn [andb] in F. apply Nat.leb_gt in F. lia. }
  destruct parsed as [t|reason]; [|destruct (refused_ok reason (reasons r) C5) as [R1 R2]];
    destruct (full r); intros [= <-]; split; cbn [received accepted denied quarantined dropped stats queue queue_size reasons usm];
    rewrite ?length_app; cbn [length]; try done; try lia; intros ?; specialize (Hq eq_refl); lia.
Qed.

Lemma raised_counted data now r arrived raised taken :
  counted r arrived raised taken -> counted (datagram_raised hash hmac installed decode_scoped data now r) (arrived + 1) (raised + 1) taken.
Proof.
  intros [C1 C2 C3 C4 C5 C6 C7]. unfold datagram_raised. destruct (stats r) as [n1 n2 n3 n4 n5] eqn:Es. cbn [received accepted denied quarantined dropped] in *.
  split; cbn [received accepted denied quarantined dropped stats queue queue_size reasons usm]; try done; try lia. by apply process_memory_ok.
Qed.

(** Only a message that says it is SNMPv3, from a sender the allowlist lets in, while v3 is accepted, raises. *)
Lemma receive_raises data source now r :
  receive data source now r = None ->
  allowed (networks r) source = true ∧ peek_version data = Some 3 ∧ v3 (accepts r) = true
  ∧ process hash hmac installed decode_scoped data (accepts r) (usm r) now = None.
Proof.
  unfold datagram_received. destruct (stats r) as [n1 n2 n3 n4 n5]. destruct (allowed _ _); [|done]. cbn [negb].
  destruct (parse source data now (community_key r) (accepts r) (usm r)) as [[x s]|] eqn:E; [by destruct x, (full r)|]. intros _. split; [done|].
  unfold parse_trap in E. case_bool_decide; [done|]. case_bool_decide; [|by destruct (_ && _)]. destruct (v3 (accepts r)); [|done].
  unfold parse_v3 in E. destruct (process _ _ _ _ data (accepts r) (usm r) now) as [[y s]|]; [done|]. done.
Qed.

(** C9: Whatever arrives, is taken from the queue and is configured, every datagram is counted once as
    received and once as denied, accepted or quarantined, unless its handling raised; every accepted or
    quarantined one is in the queue, was taken, or is counted as dropped; the queue, the refusal reasons and
    what SNMPv3 remembers stay within their bounds, and no reason is counted for what was not quarantined.
    A datagram raises only where an SNMPv3 message is accepted and its [usm.process] raises something
    other than a refusal, such as the [ValueError] of a kept key too short for a changed cipher: it is
    counted as received, and nothing else is counted or queued for it. The decoders of the bodies are
    taken to answer or to fail as their callers catch. *)
Theorem every_datagram_is_counted_once size allowlist key p r0 happenings :
  new_receiver size allowlist key p = Ok r0 ->
  let l := foldl happen (start_life r0) happenings in
  let r := receiver l in
  received (stats r) = arrived l
  ∧ received (stats r) = denied (stats r) + accepted (stats r) + quarantined (stats r) + raised l
  ∧ accepted (stats r) + quarantined (stats r) = Z.of_nat (length (queue r)) + taken l + dropped (stats r)
  ∧ (0 < size -> length (queue r) <= size)%nat
  ∧ (length (reasons r) <= MAX_REASONS)%nat ∧ total (reasons r) <= quarantined (stats r) ∧ memory_ok (usm r)
  ∧ ∀ data source now, receive data source now r = None ->
      allowed (networks r) source = true ∧ peek_version data = Some 3 ∧ v3 (accepts r) = true
      ∧ process hash hmac installed decode_scoped data (accepts r) (usm r) now = None.
Proof.
  intros H0 l r. assert (counted r (arrived l) (raised l) (taken l) ∧ queue_size r = size) as [[C1 C2 C3 C4 C5 C6 C7] <-];
    [|split_and!; try done; intros data source now; apply receive_raises].
  assert (counted r0 0 0 0 ∧ queue_size r0 = size) as I.
  { unfold new_receiver in H0. destruct (parse_allowlist allowlist); [|done]. injection H0 as <-. split; [|done]. split; cbn; try lia. apply new_state_ok. }
  clear H0. subst r l. induction happenings as [|e l IH] using rev_ind; [exact I|].
  rewrite foldl_app. cbn [foldl]. destruct (foldl happen (start_life r0) l) as [r1 a1 x1 t1]. cbn [receiver arrived raised taken] in *.
  destruct IH as [C Hs]. unfold happen. cbn [receiver arrived raised taken]. destruct e as [data source now| |q|nets].
  - destruct (receive data source now r1) as [r2|] eqn:E; cbn [receiver arrived raised taken].
    + split; [by eapply receive_counted|].
      rewrite <- Hs. unfold datagram_received in E. destruct (stats r1). destruct (negb _); [by injection E as <-|].
      destruct (parse _ _ _ _ _ _) as [[x s]|]; [|done]. cbn in E. destruct x, (full r1); by injection E as <-.
    + split; [by apply raised_counted|]. rewrite <- Hs. unfold datagram_raised. by destruct (stats r1).
  - destruct (queue r1) as [|i q] eqn:Eq; cbn [receiver arrived raised taken]; [done|]. split; [|done]. destruct C as [C1 C2 C3 C4 C5 C6 C7]. rewrite Eq in C3, C4. cbn in C3, C4.
    split; cbn; try done; [lia|]. intros Hq. apply C4 in Hq. lia.
  - by destruct C.
  - by destruct C.
Qed.
End receiver.

(** ** Quarantine *)

(** A message as far as its community: a sequence, a version of any octets, a community; each length
    written on any number of octets. *)
Definition up_to_community (lens : nat * nat * nat) (all : Z) (version community rest : bytes) : bytes :=
  (z2b 0x30 :: encode_length lens.1.1 all) ++ (z2b 0x02 :: encode_length lens.1.2 (blen version)) ++ version
  ++ (z2b 0x04 :: encode_length lens.2 (blen community)) ++ community ++ rest.

Lemma read_length_at pre count n e rest i :
  length_fits count n -> e = encode_length count n -> i = blen pre ->
  read_length (pre ++ e ++ rest) i = Some (n, blen pre + blen e).
Proof. intros H -> ->. by apply read_length_encoded. Qed.

Lemma blen_cons b (l : bytes) : blen (b :: l) = 1 + blen l.
Proof. unfold blen. cbn. lia. Qed.

Lemma byte_at_mid pre b rest i : i = blen pre -> byte_at (pre ++ b :: rest) i = b2z b.
Proof. intros ->. apply byte_at_app. Qed.

Lemma zero_at_mid pre mid rest s n : s = blen pre -> n = blen mid -> zero_at (pre ++ mid ++ rest) s n = pre ++ replicate (length mid) Byte.x00 ++ rest.
Proof.
  intros -> ->. unfold zero_at, blen. rewrite <- Nat2Z.inj_add, !Nat2Z.id. rewrite take_app_length. f_equal. f_equal.
  rewrite app_assoc, <- length_app. apply drop_app_length.
Qed.

Lemma blank_encoded lens all version community rest :
  length_fits lens.1.1 all -> length_fits lens.1.2 (blen version) -> length_fits lens.2 (blen community) ->
  blank_community (up_to_community lens all version community rest) = Some (up_to_community lens all version (replicate (length community) Byte.x00) rest).
Proof.
  intros H1 H2 H3. set (e1 := encode_length lens.1.1 all). set (e2 := encode_length lens.1.2 (blen version)). set (e3 := encode_length lens.2 (blen community)).
  set (msg := up_to_community lens all version community rest).
  assert (msg = z2b 0x30 :: e1 ++ z2b 0x02 :: e2 ++ version ++ z2b 0x04 :: e3 ++ community ++ rest) as E0.
  { unfold msg, up_to_community. cbn. by rewrite <- ?app_assoc. }
  pose proof (blen_nonneg e1). pose proof (blen_nonneg e2). pose proof (blen_nonneg e3). pose proof (blen_nonneg version). pose proof (blen_nonneg community). pose proof (blen_nonneg rest).
  assert (blen msg = 3 + blen e1 + blen e2 + blen version + blen e3 + blen community + blen rest) as Hb.
  { rewrite E0. rewrite ?blen_cons, ?blen_app, ?blen_cons, ?blen_app, ?blen_cons, ?blen_app. lia. }
  unfold blank_community. destruct (Z.eqb_spec (blen msg) 0); [lia|].
  assert (byte_at msg 0 = 0x30) as -> by (rewrite E0; by apply (byte_at_mid [])).
  assert (read_length msg 1 = Some (all, 1 + blen e1)) as ->.
  { rewrite E0. change (z2b 48 :: ?x) with ([z2b 48] ++ x). by apply (read_length_at [z2b 48] lens.1.1). }
  cbn [negb orb fst snd Z.eqb Pos.eqb]. destruct (Z.leb_spec (blen msg) (1 + blen e1)); [lia|].
  assert (byte_at msg (1 + blen e1) = 0x02) as ->.
  { rewrite E0. change (z2b 48 :: e1 ++ ?x) with ((z2b 48 :: e1) ++ x). apply byte_at_mid. by rewrite blen_cons. }
  assert (read_length msg (1 + blen e1 + 1) = Some (blen version, 2 + blen e1 + blen e2)) as ->.
  { rewrite E0. change (z2b 48 :: e1 ++ z2b 2 :: ?x) with ((z2b 48 :: e1) ++ [z2b 2] ++ x). rewrite app_assoc.
    rewrite (read_length_at _ lens.1.2 (blen version) e2); [|done|done|rewrite blen_app, !blen_cons; change (blen []) with 0; lia]. do 2 f_equal. rewrite blen_app, !blen_cons. change (blen []) with 0. lia. }
  cbn [negb orb fst snd Z.eqb Pos.eqb]. destruct (Z.leb_spec (blen msg) (2 + blen e1 + blen e2 + blen version)); [lia|].
  assert (byte_at msg (2 + blen e1 + blen e2 + blen version) = 0x04) as ->.
  { rewrite E0. replace (z2b 48 :: e1 ++ z2b 2 :: e2 ++ version ++ z2b 4 :: e3 ++ community ++ rest)
      with ((z2b 48 :: e1 ++ z2b 2 :: e2 ++ version) ++ z2b 4 :: e3 ++ community ++ rest) by (cbn; by rewrite <- ?app_assoc, <- ?app_comm_cons, <- ?app_assoc).
    apply byte_at_mid. rewrite blen_cons, blen_app, blen_cons, blen_app. lia. }
  set (pre := z2b 48 :: e1 ++ z2b 2 :: e2 ++ version ++ [z2b 4]).
  assert (msg = pre ++ e3 ++ community ++ rest) as E1 by (rewrite E0; unfold pre; cbn; by rewrite <- ?app_assoc, <- ?app_comm_cons, <- ?app_assoc).
  assert (blen pre = 3 + blen e1 + blen e2 + blen version) as Hp.
  { unfold pre. rewrite blen_cons, blen_app, blen_cons, !blen_app. change (blen [z2b 4]) with 1. lia. }
  assert (read_length msg (2 + blen e1 + blen e2 + blen version + 1) = Some (blen community, 3 + blen e1 + blen e2 + blen version + blen e3)) as ->.
  { rewrite E1, (read_length_at _ lens.2 (blen community) e3); [|done|done|lia]. do 2 f_equal. lia. }
  cbn [negb orb fst snd Z.eqb Pos.eqb]. destruct (Z.ltb_spec (blen msg) (3 + blen e1 + blen e2 + blen version + blen e3 + blen community)); [lia|]. f_equal.
  rewrite E1, app_assoc, zero_at_mid; [|rewrite blen_app; lia|done].
  unfold pre, up_to_community. fold e1 e2. assert (blen (replicate (length community) Byte.x00) = blen community) as -> by (unfold blen; by rewrite length_replicate).
  fold e3. cbn. by rewrite <- ?app_assoc, <- ?app_comm_cons, <- ?app_assoc.
Qed.

Section quarantine.
Context (sha256 : bytes -> string).

(** What the quarantine keeps of a v1 or v2c message, however malformed it is after its community, is the
    same for every community of one length: its octets, its hash and its prefix say nothing of it.
    And what is kept is at most 4096 octets, or none of the message but four. *)
Theorem a_quarantined_community_leaves_no_trace source lens all version community community' rest reason ts :
  length_fits lens.1.1 all -> length_fits lens.1.2 (blen version) -> length_fits lens.2 (blen community) ->
  length community' = length community ->
  quarantine_packet sha256 source (up_to_community lens all version community rest) reason ts
  = quarantine_packet sha256 source (up_to_community lens all version community' rest) reason ts
  ∧ q_sanitized (quarantine_packet sha256 source (up_to_community lens all version community rest) reason ts) = true.
Proof.
  intros H1 H2 H3 Hl. assert (blen community' = blen community) as Hb by (unfold blen; by rewrite Hl).
  unfold quarantine_packet. rewrite !blank_encoded by (rewrite ?Hb; done). rewrite Hl. split; [|done]. f_equal.
  unfold up_to_community. rewrite Hb. rewrite ?blen_app, ?blen_cons, ?blen_app, Hb. done.
Qed.
End quarantine.

(** ** At one datagram *)

Section at_one_datagram.
Let toy_hash (_ : string) (data : bytes) : bytes := take 16 (data ++ replicate 16 Byte.x2a).
Let toy_hmac (_ : string) (key data : bytes) : bytes := replicate 16 (foldl xor_byte Byte.x5c (key ++ data)).

Let link_down : list (string * string * string) :=
  [(SYS_UPTIME_OID, "TimeTicks", "77"); (SNMP_TRAP_OID, "ObjectIdentifier", "1.3.6.1.6.3.1.1.5.3"); (IF_INDEX_PREFIX +:+ "7", "Integer", "7")].

(** A v2c decoder that reads a message's version and community with the BER readers, and finds one trap. *)
Let toy_v2c (data : bytes) : option (bytes * Pdu) :=
  match outer ← tlv data 0 (Some 0x30); version ← tlv data (start outer) (Some 0x02); v ← integer data version;
        community ← tlv data (end_ version) (Some 0x04); Ok (v, community) with
  | Ok (v, community) => if v =? 1 then Some (slice data (start community) (end_ community), TrapPDU link_down) else None
  | Err _ => None
  end.

Let public : bytes := String.list_byte_of_string "public".
Let message (version : list Z) : bytes := up_to_community (0%nat, 0%nat, 0%nat) 13 (map z2b version) public [Byte.x05; Byte.x00].
Let toy_hex (_ bs : bytes) : string := hex_of bs.
Let parse_it (version : list Z) (p : SnmpPolicy) :=
  parse_trap toy_hash toy_hmac None (fun _ => None) toy_hex (fun _ => None) toy_v2c "10.0.0.1" (message version) (f_of_Z 1000) (Some [Byte.x2a]) p new_state.
Let only_v3 : SnmpPolicy := MkPolicy false false true [] [] true.

Let the_trap : Trap :=
  MkTrapEvent "10.0.0.1" "1.3.6.1.6.3.1.1.5.3" "7" (f_of_Z 1000) (map varbind_of link_down) (PyLib.clip 12 (hex_of public)).

Lemma an_accepted_trap_is_admitted_witness : parse_it [1] DEFAULT_POLICY = Some (Ok the_trap, new_state) ∧ numeric_oid (t_oid the_trap) = true.
Proof.
  assert (parse_it [1] DEFAULT_POLICY = Some (Ok the_trap, new_state)) as E by (vm_compute; reflexivity). split; [exact E|].
  destruct (an_accepted_trap_is_admitted _ _ _ _ _ _ _ _ _ _ _ _ _ _ _ E) as (_ & _ & H & _). exact H.
Defined.

(** The policy reads the version where it is one octet. Written on two, a v2c message passes a policy that
    accepts SNMPv3 only, while the same message with its version on one octet is refused. *)
Example a_long_version_passes_the_policy :
  fst <$> parse_it [1] only_v3 = Some (Err "snmp-v2c-not-accepted") ∧ parse_it [0; 1] only_v3 = Some (Ok the_trap, new_state).
Proof. vm_compute. split; reflexivity. Qed.

Let a_receiver : TrapReceiver := MkReceiver [] 1 (Some [MkNetwork (V4 0x0a000000) 8]) (Some [Byte.x2a]) only_v3 new_state no_stats [].
Let receives (data : bytes) (source : string) := Arrives data source (f_of_Z 1000).
Let day : list Happening :=
  [receives (message [1]) "10.0.0.1"; receives (message [0; 1]) "10.0.0.1"; receives (message [1]) "192.0.2.1"; Taken; Accepting DEFAULT_POLICY; receives (message [1]) "10.0.0.2"].
Let lives := foldl (happen toy_hash toy_hmac None (fun _ => None) toy_hex hex_of (fun _ => None) toy_v2c) (start_life a_receiver) day.

Lemma every_datagram_is_counted_once_witness :
  new_receiver 1 "10.0.0.0/8" (Some [Byte.x2a]) only_v3 = Ok a_receiver
  ∧ received (stats (receiver lives)) = arrived lives ∧ stats (receiver lives) = MkStats 4 2 1 1 1 ∧ raised lives = 0 ∧ taken lives = 1.
Proof.
  assert (new_receiver 1 "10.0.0.0/8" (Some [Byte.x2a]) only_v3 = Ok a_receiver) as E0 by (vm_compute; reflexivity). split; [exact E0|].
  split; [exact (proj1 (every_datagram_is_counted_once toy_hash toy_hmac None (fun _ => None) toy_hex hex_of (fun _ => None) toy_v2c
    1 "10.0.0.0/8" (Some [Byte.x2a]) only_v3 a_receiver day E0))|].
  split_and!; vm_compute; reflexivity.
Defined.

Lemma no_datagram_raises_witness :
  is_Some (datagram_received toy_hash toy_hmac None (fun _ => None) toy_hex hex_of (fun _ => None) toy_v2c (message [1]) "10.0.0.1" (f_of_Z 1000) a_receiver).
Proof.
  apply (no_datagram_raises toy_hash toy_hmac None (fun _ => None) toy_hex hex_of (fun _ => None) toy_v2c (fun _ => 16%nat)); [| |done|reflexivity|].
  - intros a d _. unfold toy_hash. rewrite length_take, length_app, length_replicate. cbv beta. lia.
  - intros. cbv beta. lia.
  - intros name u engine k _ E. discriminate E.
Defined.

Lemma a_quarantined_community_leaves_no_trace_witness :
  quarantine_packet hex_of "10.0.0.1" (message [1]) "community-not-accepted" f_one
  = quarantine_packet hex_of "10.0.0.1" (up_to_community (0%nat, 0%nat, 0%nat) 13 [Byte.x01] (String.list_byte_of_string "secret") [Byte.x05; Byte.x00]) "community-not-accepted" f_one.
Proof.
  apply (proj1 (a_quarantined_community_leaves_no_trace hex_of "10.0.0.1" (0%nat, 0%nat, 0%nat) 13 [Byte.x01] public (String.list_byte_of_string "secret")
    [Byte.x05; Byte.x00] "community-not-accepted" f_one
    ltac:(split; [apply Z.leb_le|apply Z.ltb_lt]; reflexivity) ltac:(split; [apply Z.leb_le|apply Z.ltb_lt]; reflexivity)
    ltac:(split; [apply Z.leb_le|apply Z.ltb_lt]; reflexivity) eq_refl)).
Defined.

(** The instance: a reading of a scalar does not identify an alarm, a text does, and [ifIndex] wins. *)
Example an_instance_is_not_a_reading :
  map instance_of [[MkVarbind "1.3.6.1.4.1.14988.1.1.3.10.0" "Gauge32" "810"]; [MkVarbind "1.3.6.1.4.1.9.1.0" "OctetString" "major"; MkVarbind "1.3.6.1.4.1.9.2.0" "OctetString" "fan 2"];
                   map varbind_of link_down]
  = [""; "fan 2"; "7"].
Proof. vm_compute. reflexivity. Qed.
End at_one_datagram.
