(* ===== verification/Alternation.v ===== *)
(** * Raise/clear pairing learned from strict alternation ([engine/correlate/alternation.py])

    [ClearPairLearner] pairs alarm classes, [StateClearLearner] finds the clear value of a state
    varbind. Each Section holds one learner: its state, its operations, its invariant. *)
From S2P Require Import Prelude.

Definition CLEAR_CYCLES_TO_LEARN : Z := 2.
Definition MAX_STATE_SLOTS : nat := 4096.
Definition STATE_MAX_VALUE_CHARS : nat := 32.
Definition STATE_SKIP : list string :=
  ["1.3.6.1.2.1.1.3.0"; "1.3.6.1.6.3.1.1.4.1.0"; "1.3.6.1.6.3.1.1.4.3.0";
   "1.3.6.1.6.3.18.1.3.0"].

Record EdgeRow := Edge { kind : string; a_id : Z; b_id : Z; weight : float; n_pairs : float; g : Z }.

(** ** The class-pair learner *)

Record Alternation := Alt { first : Z; second : option Z; last : Z; cycles : Z }.

Record ClearPairLearner := CPL {
  raise_to_clear : gmap Z Z;
  clear_to_raise : gmap Z Z;
  state : gmap (Z * string) Alternation;
  dirty : gset (Z * Z) }.

Definition new_learner : ClearPairLearner := CPL ∅ ∅ ∅ ∅.

Inductive role := Raise | Clear.
#[global] Instance role_eq_dec : EqDecision role.
Proof. solve_decision. Defined.

Definition known_role (l : ClearPairLearner) (c : Z) : option role :=
  if bool_decide (is_Some (raise_to_clear l !! c)) then Some Raise
  else if bool_decide (is_Some (clear_to_raise l !! c)) then Some Clear
  else None.

Definition is_known (l : ClearPairLearner) (c : Z) : bool := bool_decide (is_Some (known_role l c)).

Definition register (raise_class clear_class : Z) (l : ClearPairLearner) : ClearPairLearner :=
  if is_known l raise_class || is_known l clear_class then l
  else CPL (<[raise_class := clear_class]> (raise_to_clear l))
           (<[clear_class := raise_class]> (clear_to_raise l))
           (state l) ({[(raise_class, clear_class)]} ∪ dirty l).

Definition set_slot (slot : Z * string) (alt : Alternation) (l : ClearPairLearner)
  : ClearPairLearner :=
  CPL (raise_to_clear l) (clear_to_raise l) (<[slot := alt]> (state l)) (dirty l).

Definition observe (device_id : Z) (inst : string) (c : Z) (l : ClearPairLearner)
  : ClearPairLearner :=
  let slot := (device_id, inst) in
  match state l !! slot with
  | None => set_slot slot (Alt c None c 0) l
  | Some alt =>
      if c =? last alt then l
      else
        let sec := match second alt with
                   | None => if c =? first alt then None else Some c
                   | Some s => Some s
                   end in
        if negb ((c =? first alt) || bool_decide (sec = Some c)) then
          set_slot slot (Alt c None c 0) l
        else match sec with
        | Some s =>
            if c =? s then
              let alt := Alt (first alt) sec c (cycles alt + 1) in
              let l := set_slot slot alt l in
              let known := is_known l (first alt) || is_known l s in
              if (CLEAR_CYCLES_TO_LEARN <=? cycles alt) && negb known
              then register (first alt) s l else l
            else set_slot slot (Alt (first alt) sec c (cycles alt)) l
        | None => set_slot slot (Alt (first alt) sec c (cycles alt)) l
        end
  end.

(** Tuples compare lexicographically. *)
Definition pair_leb (p q : Z * Z) : bool :=
  (p.1 <? q.1) || ((p.1 =? q.1) && (p.2 <=? q.2)).

Definition clear_edge (p : Z * Z) : EdgeRow := Edge "clear_pair" p.1 p.2 f_one f_one 0.

Definition flush (l : ClearPairLearner) : list EdgeRow * ClearPairLearner :=
  (map clear_edge (sort_by pair_leb (elements (dirty l))),
   CPL (raise_to_clear l) (clear_to_raise l) (state l) ∅).

Definition edge_leb (e f : EdgeRow) : bool := pair_leb (a_id e, b_id e) (a_id f, b_id f).

(** One row of the first pass of [load]: the first partner each class was stored with, and the
    classes found contradicted so far. *)
Definition load_scan (acc : gmap Z Z * gset Z) (e : EdgeRow) : gmap Z Z * gset Z :=
  let '(fst_of, bad) := acc in
  let bad := if bool_decide (fst_of !! b_id e = Some (a_id e))
             then {[a_id e; b_id e]} ∪ bad else bad in
  (match fst_of !! a_id e with Some _ => fst_of | None => <[a_id e := b_id e]> fst_of end, bad).

Definition load_adopt (bad : gset Z) (l : ClearPairLearner) (e : EdgeRow) : ClearPairLearner :=
  if bool_decide (a_id e ∈ bad ∨ b_id e ∈ bad) then l
  else CPL (<[a_id e := b_id e]> (raise_to_clear l)) (<[b_id e := a_id e]> (clear_to_raise l))
           (state l) (dirty l).

Definition load (edges : list EdgeRow) (l : ClearPairLearner) : list Z * ClearPairLearner :=
  let rows := sort_by edge_leb edges in
  let bad := (foldl load_scan (∅, ∅) rows).2 in
  (sort_by Z.leb (elements bad), foldl (load_adopt bad) l rows).

(** ** The state-varbind learner *)

Record ValueAlternation := VAlt {
  v_first : string; v_second : option string; v_last : string; v_cycles : Z; poisoned : bool }.

Record StateClearLearner := SCL {
  clear_value : gmap (Z * string) string;
  raise_value : gmap (Z * string) string;
  slots : gmap (Z * string * Z * string) ValueAlternation;
  s_dirty : gset (Z * string) }.

Definition new_state_learner : StateClearLearner := SCL ∅ ∅ ∅ ∅.

Definition clip (raw : string) : string := String.substring 0 STATE_MAX_VALUE_CHARS raw.

Definition register_state (class_id : Z) (oid raise_v clear_v : string) (l : StateClearLearner)
  : StateClearLearner :=
  let key := (class_id, oid) in
  match clear_value l !! key with
  | Some _ => l
  | None => SCL (<[key := clear_v]> (clear_value l)) (<[key := raise_v]> (raise_value l))
                (slots l) ({[key]} ∪ s_dirty l)
  end.

Definition put_slot (k : Z * string * Z * string) (alt : ValueAlternation) (l : StateClearLearner)
  : StateClearLearner := SCL (clear_value l) (raise_value l) (<[k := alt]> (slots l)) (s_dirty l).

Definition observe_value (device_id : Z) (inst : string) (class_id : Z) (l : StateClearLearner)
    (vb : string * string) : StateClearLearner :=
  let '(oid, raw) := vb in
  if bool_decide (oid ∈ STATE_SKIP) || bool_decide (is_Some (clear_value l !! (class_id, oid)))
  then l
  else
    let value := clip raw in
    let key := (device_id, inst, class_id, oid) in
    match slots l !! key with
    | None =>
        if bool_decide (size (slots l) < MAX_STATE_SLOTS)%nat
        then put_slot key (VAlt value None value 0 false) l else l
    | Some alt =>
        if poisoned alt || bool_decide (value = v_last alt) then l
        else
          let sec := match v_second alt with
                     | None => if bool_decide (value = v_first alt) then None else Some value
                     | Some s => Some s
                     end in
          if negb (bool_decide (value = v_first alt) || bool_decide (sec = Some value)) then
            put_slot key (VAlt (v_first alt) sec (v_last alt) (v_cycles alt) true) l
          else match sec with
          | Some s =>
              if bool_decide (value = s) then
                let l := put_slot key (VAlt (v_first alt) sec value (v_cycles alt + 1) false) l in
                if CLEAR_CYCLES_TO_LEARN <=? v_cycles alt + 1
                then register_state class_id oid (v_first alt) s l else l
              else put_slot key (VAlt (v_first alt) sec value (v_cycles alt) false) l
          | None => put_slot key (VAlt (v_first alt) sec value (v_cycles alt) false) l
          end
    end.

Definition observe_state (device_id : Z) (inst : string) (class_id : Z)
    (varbinds : list (string * string)) (l : StateClearLearner) : StateClearLearner :=
  foldl (observe_value device_id inst class_id) l varbinds.

Fixpoint is_clear (l : StateClearLearner) (class_id : Z) (varbinds : list (string * string))
  : bool :=
  match varbinds with
  | [] => false
  | (oid, raw) :: rest =>
      match clear_value l !! (class_id, oid) with
      | Some clear => if bool_decide (clip raw = clear) then true else is_clear l class_id rest
      | None => is_clear l class_id rest
      end
  end.

Definition key_leb (p q : Z * string) : bool :=
  (p.1 <? q.1) || ((p.1 =? q.1) && String.leb p.2 q.2).

(** [self.clear_value[(c, o)]] raises [KeyError] (here [None]) for a key that is not there. *)
Definition flush_state (l : StateClearLearner)
  : option (list (Z * string * string * string) * StateClearLearner) :=
  rows ← mapM (fun k => c ← clear_value l !! k; r ← raise_value l !! k; Some (k, c, r))
           (sort_by key_leb (elements (s_dirty l)));
  Some (rows, SCL (clear_value l) (raise_value l) (slots l) ∅).

Definition load_state (rows : list (Z * string * string * string)) (l : StateClearLearner)
  : StateClearLearner :=
  foldl (fun l row => let '(k, c, r) := row in
           SCL (<[k := c]> (clear_value l)) (<[k := r]> (raise_value l)) (slots l) (s_dirty l))
        l rows.

(** ** One role per class, over many lives of the process

    The [edge] table keeps what [flush] wrote; a restart, after a crash or not, builds a new
    learner and loads the table, whose rows come in any order. *)

Record world := World { learner : ClearPairLearner; table : gset (Z * Z) }.

Definition pairs_of (edges : list EdgeRow) : gset (Z * Z) :=
  list_to_set (map (fun e => (a_id e, b_id e)) edges).

Inductive step : world → world → Prop :=
| step_observe w d i c : step w (World (observe d i c (learner w)) (table w))
| step_register w r c : r ≠ c → step w (World (register r c (learner w)) (table w))
| step_flush w :
    step w (World (flush (learner w)).2 (pairs_of (flush (learner w)).1 ∪ table w))
| step_restart w edges :
    pairs_of edges = table w → step w (World (load edges new_learner).2 (table w)).

Record roles_ok (l : ClearPairLearner) : Prop := {
  roles_inverse : ∀ a b, raise_to_clear l !! a = Some b ↔ clear_to_raise l !! b = Some a;
  roles_disjoint : ∀ a b c, raise_to_clear l !! a = Some b → clear_to_raise l !! a = Some c → False }.

Record world_ok (w : world) : Prop := {
  w_roles : roles_ok (learner w);
  w_alts : ∀ k alt, state (learner w) !! k = Some alt → second alt ≠ Some (first alt);
  w_dirty : ∀ a b, (a, b) ∈ dirty (learner w) → raise_to_clear (learner w) !! a = Some b;
  w_table : ∀ a b, (a, b) ∈ table w → raise_to_clear (learner w) !! a = Some b }.

Lemma is_known_false l c :
  is_known l c = false ↔ raise_to_clear l !! c = None ∧ clear_to_raise l !! c = None.
Proof.
  unfold is_known, known_role. rewrite bool_decide_eq_false.
  destruct (raise_to_clear l !! c), (clear_to_raise l !! c); simpl;
    rewrite ?bool_decide_true, ?bool_decide_false by
      (eauto || (intros [? ?]; done)); simpl; split; intros H; split_and?; try done;
    try (by destruct H; eauto); try (by destruct H); by intros [].
Qed.

Lemma roles_add l a b :
  roles_ok l → a ≠ b → is_known l a = false → is_known l b = false →
  ∀ st d, roles_ok (CPL (<[a := b]> (raise_to_clear l)) (<[b := a]> (clear_to_raise l)) st d).
Proof.
  intros [Hi Hd] Hab [Ha1 Ha2]%is_known_false [Hb1 Hb2]%is_known_false st d.
  split; simpl.
  - intros x y. rewrite !lookup_insert_Some. specialize (Hi x y).
    split; (intros [[-> ->]|[Hn Hx]]; [by left|right]); [apply Hi in Hx|apply Hi in Hx];
      (split; [congruence|done]) || (split; [|by apply Hi]); congruence.
  - intros x y z. rewrite !lookup_insert_Some.
    intros [[-> ->]|[Hn Hx]] [[He Hz]|[Hn' Hx']]; try congruence. by eapply Hd.
Qed.

(** A set of stored pairs in which no class has two partners or two roles. *)
Record pairing (T : gset (Z * Z)) : Prop := {
  pair_fun : ∀ a b b', (a, b) ∈ T → (a, b') ∈ T → b = b';
  pair_inj : ∀ a a' b, (a, b) ∈ T → (a', b) ∈ T → a = a';
  pair_disj : ∀ a b c, (a, b) ∈ T → (c, a) ∈ T → False }.

Lemma pairing_mono T T' : pairing T → T' ⊆ T → pairing T'.
Proof.
  intros [F I D] HT. split.
  - intros a b b' H1 H2. apply (F a); auto.
  - intros a a' b H1 H2. apply (I a a' b); auto.
  - intros a b c H1 H2. apply (D a b c); auto.
Qed.

Lemma elem_of_pairs_of edges a b :
  (a, b) ∈ pairs_of edges ↔ ∃ e, e ∈ edges ∧ a_id e = a ∧ b_id e = b.
Proof.
  unfold pairs_of. rewrite elem_of_list_to_set, list_elem_of_fmap. split.
  - intros (e & [= -> ->] & He). eauto.
  - intros (e & He & <- & <-). eauto.
Qed.

Lemma pairs_of_sorted edges : pairs_of (sort_by edge_leb edges) = pairs_of edges.
Proof. unfold pairs_of. by rewrite sort_by_perm. Qed.

Lemma pairs_of_cons e l : pairs_of (e :: l) = {[(a_id e, b_id e)]} ∪ pairs_of l.
Proof. done. Qed.

Lemma scan_seen rows f0 bad0 :
  (∀ a b, f0 !! a = Some b → (foldl load_scan (f0, bad0) rows).1 !! a = Some b) ∧
  (∀ a b, (foldl load_scan (f0, bad0) rows).1 !! a = Some b →
          f0 !! a = Some b ∨ (a, b) ∈ pairs_of rows).
Proof.
  revert f0 bad0. induction rows as [|e rows IH]; intros f0 bad0; [by split; [|left]|].
  cbn [foldl]. destruct (load_scan (f0, bad0) e) as [f1 bad1] eqn:E.
  rewrite pairs_of_cons. destruct (IH f1 bad1) as [H1 H2]. unfold load_scan in E.
  destruct (f0 !! a_id e) as [p|] eqn:Ea; injection E as <- <-; split; intros a b Hab.
  - by apply H1.
  - destruct (H2 a b Hab); set_solver.
  - apply H1. rewrite lookup_insert_ne; [done|congruence].
  - destruct (H2 a b Hab) as [[[-> ->]|[_ ?]]%lookup_insert_Some|]; set_solver.
Qed.

(** A class is only called contradicted when two stored rows say so. *)
Lemma scan_bad_sound rows f0 bad0 c :
  c ∈ (foldl load_scan (f0, bad0) rows).2 →
  c ∈ bad0 ∨ ∃ a b, (c = a ∨ c = b) ∧ (a, b) ∈ pairs_of rows ∧
                    (f0 !! b = Some a ∨ (b, a) ∈ pairs_of rows).
Proof.
  revert f0 bad0. induction rows as [|e rows IH]; intros f0 bad0 Hc; [by left|].
  cbn [foldl] in Hc. destruct (load_scan (f0, bad0) e) as [f1 bad1] eqn:E.
  rewrite pairs_of_cons. unfold load_scan in E. injection E as <- <-.
  apply IH in Hc as [Hc|(a & b & Hab & Hin & Hor)].
  - case_bool_decide as Hf; [|by left].
    apply elem_of_union in Hc as [Hc|Hc]; [|by left].
    right. exists (a_id e), (b_id e). split; [set_solver|]. split; [set_solver|]. by left.
  - right. exists a, b. split; [done|]. split; [set_solver|].
    destruct Hor as [Hf|]; [|set_solver].
    destruct (f0 !! a_id e) eqn:Ea; [by left|].
    apply lookup_insert_Some in Hf as [[<- <-]|[_ ?]]; [set_solver|by left].
Qed.

Lemma lookup_insert_or (m : gmap Z Z) k v (P : Prop) x y :
  m !! k = None ∨ m !! k = Some v →
  P ∨ <[k := v]> m !! x = Some y ↔ ((x = k ∧ y = v) ∨ P) ∨ m !! x = Some y.
Proof.
  intros Hm. destruct (decide (k = x)) as [->|Hne].
  - rewrite lookup_insert_eq. split.
    + intros [?|[= ->]]; auto.
    + intros [[[_ ->]|?]|Hy]; auto. right. destruct Hm; congruence.
  - rewrite lookup_insert_ne by done. split; [intros [?|?]; auto|].
    intros [[[-> _]|?]|?]; [done|auto..].
Qed.

Lemma adopt_all bad rows l :
  pairing (pairs_of rows) →
  (∀ e, e ∈ rows → a_id e ∉ bad ∧ b_id e ∉ bad) →
  (∀ a b, (a, b) ∈ pairs_of rows → raise_to_clear l !! a = None ∨ raise_to_clear l !! a = Some b) →
  (∀ a b, (a, b) ∈ pairs_of rows → clear_to_raise l !! b = None ∨ clear_to_raise l !! b = Some a) →
  let l' := foldl (load_adopt bad) l rows in
  state l' = state l ∧ dirty l' = dirty l ∧
  (∀ a b, raise_to_clear l' !! a = Some b ↔ (a, b) ∈ pairs_of rows ∨ raise_to_clear l !! a = Some b) ∧
  (∀ a b, clear_to_raise l' !! b = Some a ↔ (a, b) ∈ pairs_of rows ∨ clear_to_raise l !! b = Some a).
Proof.
  revert l. induction rows as [|e rows IH]; intros l HT Hbad Hr Hc; cbn [foldl]; cbv zeta.
  { split_and!; [done..| |]; unfold pairs_of; set_solver. }
  rewrite pairs_of_cons in *.
  assert (pairing (pairs_of rows)) as HT'.
  { eapply pairing_mono; [exact HT|set_solver]. }
  destruct HT as [F I D].
  assert (load_adopt bad l e =
          CPL (<[a_id e := b_id e]> (raise_to_clear l)) (<[b_id e := a_id e]> (clear_to_raise l))
           (state l) (dirty l)) as ->.
  { unfold load_adopt. destruct (Hbad e) as [? ?]; [left|]. by rewrite bool_decide_false by tauto. }
  set (U := {[(a_id e, b_id e)]} ∪ pairs_of rows) in *.
  assert ((a_id e, b_id e) ∈ U) as Hin by (by apply elem_of_union_l, elem_of_singleton_2).
  assert (∀ p, p ∈ pairs_of rows → p ∈ U) as Hsub by (intros; by apply elem_of_union_r).
  edestruct (IH (CPL (<[a_id e := b_id e]> (raise_to_clear l)) (<[b_id e := a_id e]> (clear_to_raise l))
           (state l) (dirty l))) as (H1 & H2 & H3 & H4); simpl in *; [done| | | |].
  - intros e' He'. apply Hbad. by right.
  - intros a b Hab. destruct (decide (a = a_id e)) as [->|].
    + right. rewrite lookup_insert_eq. f_equal. apply (F (a_id e)); auto.
    + rewrite lookup_insert_ne by done. auto.
  - intros a b Hab. destruct (decide (b = b_id e)) as [->|].
    + right. rewrite lookup_insert_eq. f_equal. apply (I _ _ (b_id e)); auto.
    + rewrite lookup_insert_ne by done. auto.
  - split_and!; [done..| |]; intros a b; unfold U.
    + rewrite H3, lookup_insert_or, elem_of_union, elem_of_singleton, pair_equal_spec; [done|]. auto.
    + rewrite H4, lookup_insert_or, elem_of_union, elem_of_singleton, pair_equal_spec; [tauto|]. auto.
Qed.

Lemma load_pairing edges :
  pairing (pairs_of edges) →
  let '(refused, l) := load edges new_learner in
  refused = [] ∧ state l = ∅ ∧ dirty l = ∅ ∧
  (∀ a b, raise_to_clear l !! a = Some b ↔ (a, b) ∈ pairs_of edges) ∧
  (∀ a b, clear_to_raise l !! b = Some a ↔ (a, b) ∈ pairs_of edges).
Proof.
  intros HT. unfold load. rewrite <- pairs_of_sorted in HT.
  assert ((foldl load_scan (∅, ∅) (sort_by edge_leb edges)).2 = ∅) as ->.
  { apply set_eq. intros c. split; [|set_solver]. intros Hc.
    apply scan_bad_sound in Hc as [|(a & b & _ & Hab & [Hf|Hba])]; [done|set_solver|].
    exfalso. by eapply (pair_disj _ HT). }
  destruct (adopt_all ∅ (sort_by edge_leb edges) new_learner HT) as (H1 & H2 & H3 & H4);
    [set_solver|by left..|].
  rewrite pairs_of_sorted in *.
  split_and!; [done..|intros a b; rewrite H3; set_solver|intros a b; rewrite H4; set_solver].
Qed.

Lemma table_pairing w : world_ok w → pairing (table w).
Proof.
  intros [[Hi Hd] _ _ Ht]. split.
  - intros a b b' ?%Ht ?%Ht. congruence.
  - intros a a' b ?%Ht%Hi ?%Ht%Hi. congruence.
  - intros a b c H1%Ht H2%Ht%Hi. by eapply Hd.
Qed.

Lemma register_ok r c w :
  world_ok w → r ≠ c → world_ok (World (register r c (learner w)) (table w)) ∧
  ∀ a b, raise_to_clear (learner w) !! a = Some b →
         raise_to_clear (register r c (learner w)) !! a = Some b.
Proof.
  intros [Hr Ha Hd Ht] Hne. unfold register.
  destruct (is_known (learner w) r) eqn:Ekr; [by split|].
  destruct (is_known (learner w) c) eqn:Ekc; [by split|]. simpl.
  pose proof (roles_add _ r c Hr Hne Ekr Ekc (state (learner w))) as Hadd.
  apply is_known_false in Ekr as [Er _].
  assert (∀ a b, raise_to_clear (learner w) !! a = Some b →
                 <[r := c]> (raise_to_clear (learner w)) !! a = Some b) as Hkeep.
  { intros a b Hab. rewrite lookup_insert_ne; [done|congruence]. }
  split; [|done]. split; simpl; [apply Hadd|done| |auto].
  intros a b [[= -> ->]%elem_of_singleton|?]%elem_of_union; [apply lookup_insert_eq|auto].
Qed.

Lemma set_slot_ok slot alt w :
  world_ok w → second alt ≠ Some (first alt) →
  world_ok (World (set_slot slot alt (learner w)) (table w)).
Proof.
  intros [[Hi Hd'] Ha Hd Ht] Hs. split; simpl; [by split| |done..].
  intros k alt' [[<- <-]|[_ ?]]%lookup_insert_Some; eauto.
Qed.

Lemma observe_ok d i c w :
  world_ok w → world_ok (World (observe d i c (learner w)) (table w)) ∧
  ∀ a b, raise_to_clear (learner w) !! a = Some b →
         raise_to_clear (observe d i c (learner w)) !! a = Some b.
Proof.
  intros Hw. unfold observe. destruct (state (learner w) !! (d, i)) as [alt|] eqn:Es.
  2: { split; [|done]. by apply set_slot_ok. }
  destruct (Z.eqb_spec c (last alt)); [by split; destruct w|].
  set (sec := match second alt with None => _ | Some s => Some s end).
  assert (sec ≠ Some (first alt)) as Hsec.
  { unfold sec. destruct (second alt) eqn:E2.
    - intros [= ->]. by eapply (w_alts _ Hw).
    - destruct (Z.eqb_spec c (first alt)); congruence. }
  destruct (negb _); [split; [by apply set_slot_ok|done]|].
  destruct sec as [s|] eqn:E; [|split; [by apply set_slot_ok|done]].
  destruct (Z.eqb_spec c s) as [->|]; [|split; [by apply set_slot_ok|done]].
  simpl. set (w' := World (set_slot (d, i) (Alt (first alt) (Some s) s (cycles alt + 1)) (learner w)) (table w)).
  assert (world_ok w') as Hw' by (by apply set_slot_ok).
  destruct ((CLEAR_CYCLES_TO_LEARN <=? _) && _); [|by split].
  destruct (register_ok (first alt) s w' Hw') as [H1 H2]; [congruence|]. by split.
Qed.

Lemma elem_of_flush l p : p ∈ pairs_of (flush l).1 ↔ p ∈ dirty l.
Proof.
  destruct p as [a b]. rewrite elem_of_pairs_of. unfold flush. simpl. split.
  - intros (e & He & <- & <-). apply list_elem_of_fmap in He as ([x y] & -> & Hp). simpl.
    by rewrite elem_of_sort_by, elem_of_elements in Hp.
  - intros Hp. exists (clear_edge (a, b)). split; [|done]. apply list_elem_of_fmap.
    exists (a, b). by rewrite elem_of_sort_by, elem_of_elements.
Qed.

Lemma step_ok w w' : world_ok w → step w w' → world_ok w' ∧ table w ⊆ table w'.
Proof.
  intros Hw Hs. destruct Hs as [w d i c|w r c Hne|w|w edges He]; cbn [learner table].
  - split; [by apply observe_ok|done].
  - split; [by apply register_ok|done].
  - split; [|set_solver]. destruct Hw as [[Hi Hd'] Ha Hd Ht].
    split; simpl; [by split|done|set_solver|].
    intros a b [Hp%elem_of_flush|?]%elem_of_union; auto.
  - split; [|done]. pose proof (table_pairing w Hw) as HT. rewrite <- He in HT.
    pose proof (load_pairing edges HT) as Hl.
    destruct (load edges new_learner) as [bad l]. destruct Hl as (_ & Hs & Hd & Hr & Hc).
    rewrite He in *. split; simpl; [|rewrite Hs; set_solver|rewrite Hd; set_solver|].
    + split; [intros a b; by rewrite Hr, Hc|].
      intros a b c Hab%Hr Hca%Hc. by apply (pair_disj _ HT a b c).
    + intros a b. by rewrite Hr.
Qed.

Lemma steps_ok w w' : world_ok w → rtc step w w' → world_ok w' ∧ table w ⊆ table w'.
Proof.
  intros Hw Hs. induction Hs as [w|w w1 w2 H1 _ IH]; [done|].
  destruct (step_ok w w1 Hw H1) as [Hw1 Ht1]. destruct (IH Hw1). set_solver.
Qed.

Definition world0 : world := World new_learner ∅.

Lemma world0_ok : world_ok world0.
Proof. split; simpl; [split|..]; set_solver. Qed.

(** A class holds exactly one role, for good. In every state any sequence of observations,
    seeded registrations, flushes and restarts (losing what was not flushed) reaches, the two maps
    are inverse and no class is both a raise and a clear; and a pair that has been flushed keeps
    its orientation in every later state, over every later restart. *)
Theorem one_role_for_good w w' :
  rtc step world0 w → rtc step w w' →
  roles_ok (learner w') ∧
  ∀ a b, (a, b) ∈ table w →
    raise_to_clear (learner w') !! a = Some b ∧
    known_role (learner w') a = Some Raise ∧ known_role (learner w') b = Some Clear.
Proof.
  intros H1 H2. destruct (steps_ok _ _ world0_ok H1) as [Hw _].
  destruct (steps_ok _ _ Hw H2) as [[Hr _ _ Ht] Hsub]. split; [done|].
  intros a b Hab. apply Hsub, Ht in Hab as Hr1. split; [done|]. unfold known_role.
  rewrite (bool_decide_true (is_Some (_ !! a))) by eauto. split; [done|].
  apply (roles_inverse _ Hr) in Hr1. rewrite bool_decide_false, bool_decide_true; eauto.
  intros [c Hc]. by eapply (roles_disjoint _ Hr).
Qed.

(** [load] does not depend on the order of the rows; from rows in which every class has one
    partner and one role it adopts exactly these pairs and refuses nothing. *)
Theorem load_adopts_pairing edges edges' :
  pairing (pairs_of edges) → pairs_of edges' = pairs_of edges →
  load edges' new_learner = load edges new_learner ∧
  (load edges new_learner).1 = [] ∧
  (∀ a b, raise_to_clear (load edges new_learner).2 !! a = Some b ↔ (a, b) ∈ pairs_of edges) ∧
  (∀ a b, clear_to_raise (load edges new_learner).2 !! b = Some a ↔ (a, b) ∈ pairs_of edges).
Proof.
  intros HT He. pose proof (load_pairing edges HT) as H1.
  assert (pairing (pairs_of edges')) as HT' by by rewrite He.
  pose proof (load_pairing edges' HT') as H2.
  destruct (load edges _) as [r1 [rc1 cr1 s1 d1]], (load edges' _) as [r2 [rc2 cr2 s2 d2]].
  destruct H1 as (-> & Hs1 & Hd1 & Hr1 & Hc1), H2 as (-> & Hs2 & Hd2 & Hr2 & Hc2). simpl in *.
  subst. split_and!; [|done..]. f_equal. f_equal.
  - apply map_eq. intros a. apply option_eq. intros b. by rewrite Hr1, Hr2, He.
  - apply map_eq. intros b. apply option_eq. intros a. by rewrite Hc1, Hc2, He.
Qed.

Definition demo_world : world :=
  World (observe 1 "if2" 8 (observe 1 "if2" 7 (observe 1 "if2" 8 (observe 1 "if2" 7 new_learner)))) ∅.

Lemma one_role_for_good_witness :
  let w := World (flush (learner demo_world)).2 (pairs_of (flush (learner demo_world)).1 ∪ ∅) in
  let w' := World (load [clear_edge (7, 8)] new_learner).2 (table w) in
  (7, 8) ∈ table w ∧ roles_ok (learner w') ∧
  ∀ a b, (a, b) ∈ table w →
    raise_to_clear (learner w') !! a = Some b ∧
    known_role (learner w') a = Some Raise ∧ known_role (learner w') b = Some Clear.
Proof.
  split; [by vm_compute|]. apply one_role_for_good.
  - eapply rtc_l; [apply (step_observe world0 1 "if2" 7)|].
    eapply rtc_l; [apply (step_observe _ 1 "if2" 8)|].
    eapply rtc_l; [apply (step_observe _ 1 "if2" 7)|].
    eapply rtc_l; [apply (step_observe _ 1 "if2" 8)|].
    apply rtc_once. apply (step_flush demo_world).
  - apply rtc_once. refine (step_restart (World _ _) _ _). by vm_compute.
Defined.

Lemma load_adopts_pairing_witness :
  let edges := [clear_edge (7, 8); clear_edge (3, 4)] in
  let edges' := [clear_edge (3, 4); clear_edge (7, 8)] in
  load edges' new_learner = load edges new_learner ∧
  (load edges new_learner).1 = [] ∧
  (∀ a b, raise_to_clear (load edges new_learner).2 !! a = Some b ↔ (a, b) ∈ pairs_of edges) ∧
  (∀ a b, clear_to_raise (load edges new_learner).2 !! b = Some a ↔ (a, b) ∈ pairs_of edges).
Proof.
  apply load_adopts_pairing; [|by vm_compute].
  split; unfold pairs_of; simpl; intros *; rewrite !elem_of_union, !elem_of_singleton,
    !elem_of_empty; intros; destruct_or?; simplify_eq; done.
Defined.

(** What [load] does with other tables: a class that is the clear of one row and the raise of
    another keeps both roles, and an inverse row behind a second partner is not noticed. *)
Example load_keeps_two_roles :
  let '(refused, l) := load [clear_edge (1, 2); clear_edge (2, 3)] new_learner in
  refused = [] ∧ raise_to_clear l !! 2 = Some 3 ∧ clear_to_raise l !! 2 = Some 1.
Proof. by vm_compute. Qed.

Example load_misses_inverse :
  let '(refused, l) := load [clear_edge (1, 2); clear_edge (1, 3); clear_edge (3, 1)] new_learner in
  refused = [] ∧ raise_to_clear l !! 1 = Some 3 ∧ raise_to_clear l !! 3 = Some 1.
Proof. by vm_compute. Qed.

(** ** The state-varbind learner: bounds, and what it learns *)

Record state_ok (l : StateClearLearner) : Prop := {
  so_bound : (size (slots l) ≤ MAX_STATE_SLOTS)%nat;
  so_dom : dom (raise_value l) = dom (clear_value l);
  so_dirty : s_dirty l ⊆ dom (clear_value l) }.

Lemma put_slot_ok k alt alt' l :
  state_ok l → slots l !! k = Some alt → state_ok (put_slot k alt' l).
Proof.
  intros [Hb Hd Hdi] Hk. split; simpl; [|done..].
  rewrite map_size_insert_Some; eauto.
Qed.

Lemma register_state_ok c o r v l : state_ok l → state_ok (register_state c o r v l).
Proof.
  intros [Hb Hd Hdi]. unfold register_state. destruct (clear_value l !! (c, o)); [done|].
  split; simpl; [done|set_solver|set_solver].
Qed.

Lemma observe_value_ok d i c l vb : state_ok l → state_ok (observe_value d i c l vb).
Proof.
  intros Hl. destruct vb as [oid raw]. unfold observe_value. destruct (_ || _); [done|].
  set (k := (d, i, c, oid)). destruct (slots l !! k) as [alt|] eqn:Ek.
  - destruct (poisoned alt || _); [done|]. set (sec := match v_second alt with None => _ | _ => _ end).
    pose proof (λ alt', put_slot_ok k alt alt' l Hl Ek) as Hput.
    destruct (negb _); [apply Hput|]. destruct sec as [s|]; [|apply Hput].
    case_bool_decide; [|apply Hput]. case_match; [apply register_state_ok|]; apply Hput.
  - case_bool_decide as Hsz; [|done]. destruct Hl as [Hb Hd Hdi].
    split; simpl; [|done..]. rewrite map_size_insert_None by done. lia.
Qed.

Lemma flush_state_ok l :
  state_ok l → ∃ rows, flush_state l =
    Some (rows, SCL (clear_value l) (raise_value l) (slots l) ∅) ∧
    Forall (λ row, row.1.1 ∈ s_dirty l ∧ clear_value l !! row.1.1 = Some row.1.2 ∧
                   raise_value l !! row.1.1 = Some row.2) rows.
Proof.
  intros [_ Hd Hdi]. unfold flush_state. set (f := λ k : Z * string, _).
  destruct (mapM f (sort_by key_leb (elements (s_dirty l)))) as [rows|] eqn:E.
  - exists rows. split; [done|]. apply mapM_Some in E.
    assert (Forall (λ k, k ∈ s_dirty l) (sort_by key_leb (elements (s_dirty l)))) as Hk.
    { apply Forall_forall. intros k. by rewrite elem_of_sort_by, elem_of_elements. }
    induction E as [|k [[k' c] r] ks rows Hf _ IH]; [done|].
    apply Forall_cons in Hk as [Hk Hks]. constructor; [|by apply IH].
    unfold f in Hf. destruct (clear_value l !! k) eqn:Ec; [|done].
    destruct (raise_value l !! k) eqn:Er; [|done]. by simplify_eq/=.
  - exfalso. apply mapM_None in E. apply Exists_exists in E as (k & Hk & Hf).
    rewrite elem_of_sort_by, elem_of_elements in Hk. apply Hdi in Hk.
    apply elem_of_dom in Hk as Hc. rewrite <- Hd in Hk. apply elem_of_dom in Hk as Hr.
    destruct Hc as [? Hc], Hr as [? Hr]. unfold f in Hf. by rewrite Hc in Hf; simpl in Hf; rewrite Hr in Hf.
Qed.

(** Consecutive duplicates collapse to one. *)
Fixpoint dedup_adj (prev : string) (vs : list string) : list string :=
  match vs with
  | [] => []
  | v :: vs => if bool_decide (v = prev) then dedup_adj prev vs else v :: dedup_adj v vs
  end.

(** The raise and the clear value a stream of values of one varbind teaches: two full alternations
    between its first two distinct values, with nothing else in between. *)
Definition taught (vs : list string) : option (string * string) :=
  match vs with
  | [] => None
  | f :: vs =>
      match dedup_adj f vs with
      | s :: f' :: s' :: _ => if bool_decide (f' = f ∧ s' = s) then Some (f, s) else None
      | _ => None
      end
  end.

(** Where a stream stands before it has taught or been ruled out: seen [f]; [f s]; [f s f]. *)
Inductive stage : ValueAlternation → string → list string → Prop :=
| stage_f f : stage (VAlt f None f 0 false) f []
| stage_fs f s : f ≠ s → stage (VAlt f (Some s) s 1 false) s [s]
| stage_fsf f s : f ≠ s → stage (VAlt f (Some s) f 1 false) f [s; f].

Section one_slot.
Context (d : Z) (i : string) (c : Z) (oid : string) (Hoid : oid ∉ STATE_SKIP).

Definition watch (vs : list string) (l : StateClearLearner) : StateClearLearner :=
  foldl (λ l v, observe_state d i c [(oid, v)] l) l vs.

Definition learned (l : StateClearLearner) (o : option (string * string)) : Prop :=
  clear_value l !! (c, oid) = snd <$> o ∧ raise_value l !! (c, oid) = fst <$> o.

Lemma watch_learned vs l p : learned l (Some p) → learned (watch vs l) (Some p).
Proof.
  revert l. induction vs as [|v vs IH]; intros l Hl; [done|]. apply IH.
  unfold observe_state, observe_value. simpl. destruct Hl as [Hc Hr].
  rewrite (bool_decide_true (is_Some _)) by (rewrite Hc; by eauto). by rewrite orb_true_r.
Qed.

Lemma watch_poisoned vs l alt :
  learned l None → slots l !! (d, i, c, oid) = Some alt → poisoned alt = true →
  learned (watch vs l) None.
Proof.
  intros Hl Hs Hp. revert l Hl Hs. induction vs as [|v vs IH]; intros l Hl Hs; [done|].
  cut (observe_state d i c [(oid, v)] l = l); [|].
  { intros E. unfold watch. cbn [foldl]. rewrite E. by apply IH. }
  unfold observe_state, observe_value. simpl. destruct (_ || _); [done|]. by rewrite Hs, Hp.
Qed.

Lemma observe_known_slot l alt v :
  learned l None → slots l !! (d, i, c, oid) = Some alt → poisoned alt = false →
  let value := clip v in let k := (d, i, c, oid) in
  observe_state d i c [(oid, v)] l =
    if bool_decide (value = v_last alt) then l
    else
      let sec := match v_second alt with
                 | None => if bool_decide (value = v_first alt) then None else Some value
                 | Some s => Some s
                 end in
      if negb (bool_decide (value = v_first alt) || bool_decide (sec = Some value)) then
        put_slot k (VAlt (v_first alt) sec (v_last alt) (v_cycles alt) true) l
      else match sec with
      | Some s =>
          if bool_decide (value = s) then
            let l := put_slot k (VAlt (v_first alt) sec value (v_cycles alt + 1) false) l in
            if CLEAR_CYCLES_TO_LEARN <=? v_cycles alt + 1
            then register_state c oid (v_first alt) s l else l
          else put_slot k (VAlt (v_first alt) sec value (v_cycles alt) false) l
      | None => put_slot k (VAlt (v_first alt) sec value (v_cycles alt) false) l
      end.
Proof using Hoid.
  intros [Hc _] Hs Hp. unfold observe_state, observe_value. simpl.
  rewrite (bool_decide_false (oid ∈ _)) by done. rewrite Hc, bool_decide_false by (by intros []).
  simpl. by rewrite Hs, Hp.
Qed.

Lemma watch_stage vs l alt seen :
  learned l None → slots l !! (d, i, c, oid) = Some alt → stage alt (v_last alt) seen →
  learned (watch vs l)
    match seen ++ dedup_adj (v_last alt) (map clip vs) with
    | s :: f' :: s' :: _ =>
        if bool_decide (f' = v_first alt ∧ s' = s) then Some (v_first alt, s) else None
    | _ => None
    end.
Proof using Hoid.
  revert l alt seen. induction vs as [|v vs IH]; intros l alt seen Hl Hs Hst.
  { simpl. rewrite app_nil_r. by destruct Hst. }
  assert (poisoned alt = false) as Hp by by destruct Hst.
  change (watch (v :: vs) l) with (watch vs (observe_state d i c [(oid, v)] l)).
  rewrite (observe_known_slot l alt v Hl Hs Hp). cbn [map dedup_adj]. set (x := clip v).
  case_bool_decide as Hx; [by apply IH|]. cbv zeta.
  set (k := (d, i, c, oid)) in *.
  assert (∀ a, slots (put_slot k a l) !! k = Some a) as Hput by (intros; apply lookup_insert_eq).
  inversion Hst as [f|f s Hfs|f s Hfs]; subst; simpl in *; subst.
  - 
    rewrite !(bool_decide_false (x = f)) by done. simpl.
    rewrite !(bool_decide_true (Some x = _)), (bool_decide_true (x = x)) by done. simpl.
    refine (IH (put_slot k _ l) (VAlt f (Some x) x 1 false) [x] _ (Hput _) _); [done|].
    apply stage_fs. congruence.
  - destruct (decide (x = f)) as [->|Hxf].
    + rewrite (bool_decide_true (f = f)), (bool_decide_false (f = s)) by done. simpl.
      refine (IH (put_slot k _ l) (VAlt f (Some s) f 1 false) [s; f] _ (Hput _) _); [done|].
      by apply stage_fsf.
    + rewrite (bool_decide_false (x = f)), (bool_decide_false (Some s = _)) by congruence. simpl.
      destruct (dedup_adj x (map clip vs)) eqn:Ed; simpl;
        rewrite ?(bool_decide_false (x = f ∧ _)) by tauto;
        (eapply watch_poisoned; [|apply Hput|]; done).
  - destruct (decide (x = s)) as [->|Hxs].
    + rewrite (bool_decide_false (s = f)), !(bool_decide_true (s = s)),
        (bool_decide_true (Some s = _)) by congruence. simpl.
      rewrite bool_decide_true by done. apply watch_learned. unfold register_state. simpl.
      destruct Hl as [Hc Hr]. rewrite Hc. simpl. by split; apply lookup_insert_eq.
    + rewrite (bool_decide_false (x = f)), (bool_decide_false (Some s = _)) by congruence. simpl.
      rewrite (bool_decide_false (f = f ∧ _)) by tauto.
      eapply watch_poisoned; [|apply Hput|]; done.
Qed.

Lemma watch_fresh vs l :
  learned l None → slots l !! (d, i, c, oid) = None → (size (slots l) < MAX_STATE_SLOTS)%nat →
  learned (watch vs l) (taught (map clip vs)).
Proof using Hoid.
  intros Hl Hs Hsz. destruct vs as [|v vs]; [done|].
  change (watch (v :: vs) l) with (watch vs (observe_state d i c [(oid, v)] l)).
  set (alt := VAlt (clip v) None (clip v) 0 false).
  assert (observe_state d i c [(oid, v)] l = put_slot (d, i, c, oid) alt l) as ->.
  { unfold observe_state, observe_value. simpl. destruct Hl as [Hc _].
    rewrite Hc, !bool_decide_false by (done || by intros []). simpl.
    by rewrite Hs, bool_decide_true. }
  apply (watch_stage vs _ alt []); [done|apply lookup_insert_eq|constructor].
Qed.
End one_slot.

(** The state learner learns exactly the strict two-value alternations. Fed any stream of
    values of one varbind it is not yet tracking (with room for one more slot), it ends knowing a
    clear value just when the stream, clipped to 32 characters and with repetitions collapsed,
    begins raise, clear, raise, clear; and these are the values it knows. *)
Theorem learns_exactly_alternations d i c oid vs l :
  oid ∉ STATE_SKIP → state_ok l → clear_value l !! (c, oid) = None →
  slots l !! (d, i, c, oid) = None → (size (slots l) < MAX_STATE_SLOTS)%nat →
  clear_value (watch d i c oid vs l) !! (c, oid) = snd <$> taught (map clip vs) ∧
  raise_value (watch d i c oid vs l) !! (c, oid) = fst <$> taught (map clip vs).
Proof.
  intros Hoid Hl Hc Hs Hsz. apply watch_fresh; try done. split; [done|].
  apply not_elem_of_dom. rewrite (so_dom _ Hl). by apply not_elem_of_dom.
Qed.

(** Whatever the traps, the state learner tracks at most [MAX_STATE_SLOTS] slots, and [flush]
    never fails: each row it returns holds the clear and raise value known for a dirty key. *)
Theorem state_learner_bounded traps :
  let l := foldl (λ l '(d, i, c, vbs), observe_state d i c vbs l) new_state_learner traps in
  (size (slots l) ≤ MAX_STATE_SLOTS)%nat ∧
  ∃ rows l', flush_state l = Some (rows, l') ∧ s_dirty l' = ∅ ∧
    Forall (λ row, clear_value l !! row.1.1 = Some row.1.2 ∧
                   raise_value l !! row.1.1 = Some row.2) rows.
Proof.
  intros l. assert (state_ok l) as Hl.
  { unfold l. assert (state_ok new_state_learner) as H0 by (split; [apply Nat.le_0_l|done..]).
    revert H0. generalize new_state_learner. induction traps as [|[[[d i] c] vbs] traps IH];
      intros l0 H0; [done|]. simpl. apply IH. unfold observe_state. clear IH l. revert l0 H0.
    induction vbs as [|vb vbs IHv]; intros l0 H0; [done|]. simpl. by apply IHv, observe_value_ok. }
  split; [apply Hl|]. destruct (flush_state_ok l Hl) as (rows & -> & Hrows).
  do 2 eexists. split; [done|]. split; [done|]. eapply Forall_impl; [done|]. simpl. tauto.
Qed.

Lemma learns_exactly_alternations_witness :
  let l := watch 1 "if2" 7 "1.3.6.1.4.1.9" ["down"; "down"; "up"; "down"; "up"] new_state_learner in
  clear_value l !! (7, "1.3.6.1.4.1.9") = Some "up" ∧
  raise_value l !! (7, "1.3.6.1.4.1.9") = Some "down".
Proof.
  apply (learns_exactly_alternations 1 "if2" 7 "1.3.6.1.4.1.9"
           ["down"; "down"; "up"; "down"; "up"] new_state_learner).
  - apply (bool_decide_unpack _). by vm_compute.
  - split; [apply Nat.le_0_l|done..].
  - done.
  - done.
  - apply Nat.ltb_lt. vm_compute. reflexivity.
Defined.
