(* ===== verification/Learn.v ===== *)
(** * What the alarm stream teaches about classes and elements ([engine/correlate/learn.py])

    The co-occurrence masses with their lazy forgetting, the affinities a scorer reads, and the
    learner that drives the two matrices. [fpow x n] is [x ** n] and [ln] is [math.log], as the
    platform's mathematical library computes them. The two alternation learners the [Learner] also
    holds are in [Alternation]; a matrix's saved document is the value the JSON text holds. *)
From S2P Require Import Prelude Floats Alternation.

Definition LAMBDA : float := f_lit 5 100.
Definition EPOCH_S : Z := 3600.
Definition CLOCK : string := "hourly".
Definition MIN_EDGE_N : float := f_of_Z 5.
Definition SAME_NE_AFFINITY : float := f_lit 8 10.
Definition STORM_DAMPING : float := f_lit 1 10.
Definition STORM_ALARMS : Z := 50.
Definition SPLIT_PENALTY : float := f_lit 5 10.
Definition EPOCH_PAIR_CAP : nat := 20.

Definition pair (a b : Z) : Z * Z := if a <=? b then (a, b) else (b, a).

(** A mass and the epoch it was last touched in. *)
Abbreviation mass := (float * Z)%type.

Record Matrix := MkMatrix {
  m_kind : string; lam : float; epoch : Z; total : float; total_e : Z;
  pairs : gmap (Z * Z) mass; marginals : gmap Z mass; m_dirty : gset (Z * Z) }.
Definition new_matrix (k : string) : Matrix := MkMatrix k LAMBDA 0 f_zero 0 ∅ ∅ ∅.

Definition set_epoch (e : Z) (m : Matrix) : Matrix :=
  MkMatrix (m_kind m) (lam m) e (total m) (total_e m) (pairs m) (marginals m) (m_dirty m).
Definition tick (m : Matrix) : Matrix := set_epoch (epoch m + 1) m.
Definition advance_to (e : Z) (m : Matrix) : Matrix := if epoch m <? e then set_epoch e m else m.

Definition rebase (e : Z) (m : Matrix) : Matrix :=
  let shift := e - epoch m in
  if shift =? 0 then m
  else MkMatrix (m_kind m) (lam m) (epoch m + shift) (total m) (total_e m + shift)
         ((fun p => (p.1, p.2 + shift)) <$> pairs m) ((fun p => (p.1, p.2 + shift)) <$> marginals m)
         (dom (pairs m) ∪ m_dirty m).

(** [min(x, 1.0)] and [max(0.0, x)]: the first argument unless the second is strictly better. *)
Definition fmin (a b : float) : float := if fltb b a then b else a.

Section math.
Context (fpow : float → Z → float) (ln : float → float).

Definition decayed (m : Matrix) (x : float) (at_epoch : Z) : float :=
  fmul x (fpow (fsub f_one (lam m)) (epoch m - at_epoch)).

Definition mass_of (m : Matrix) (o : option mass) : float := let '(x, e) := default (f_zero, epoch m) o in decayed m x e.

Definition observe_occurrence (item : Z) (w : float) (m : Matrix) : Matrix :=
  MkMatrix (m_kind m) (lam m) (epoch m) (fadd (decayed m (total m) (total_e m)) w) (epoch m) (pairs m)
    (<[item := (fadd (mass_of m (marginals m !! item)) w, epoch m)]> (marginals m)) (m_dirty m).

Definition observe_pair (a b : Z) (w : float) (m : Matrix) : Matrix :=
  MkMatrix (m_kind m) (lam m) (epoch m) (total m) (total_e m)
    (<[pair a b := (fadd (mass_of m (pairs m !! pair a b)) w, epoch m)]> (pairs m)) (marginals m)
    ({[pair a b]} ∪ m_dirty m).

Definition pair_mass (m : Matrix) (a b : Z) : float := mass_of m (pairs m !! pair a b).

Definition scale_pair (a b : Z) (factor : float) (m : Matrix) : Matrix :=
  match pairs m !! pair a b with
  | None => m
  | Some (x, e) => MkMatrix (m_kind m) (lam m) (epoch m) (total m) (total_e m)
                     (<[pair a b := (fmul x factor, e)]> (pairs m)) (marginals m) ({[pair a b]} ∪ m_dirty m)
  end.

Definition npmi (m : Matrix) (a b : Z) : float :=
  let m_ab := pair_mass m a b in
  let tot := decayed m (total m) (total_e m) in
  if fleb m_ab f_zero || fleb tot f_zero then f_zero
  else
    let m_a := mass_of m (marginals m !! a) in
    let m_b := mass_of m (marginals m !! b) in
    if fleb m_a f_zero || fleb m_b f_zero then f_zero
    else
      let discount := fdiv m_ab (fadd m_ab f_one) in
      let p_ab := fmin (fdiv m_ab tot) f_one in
      if fleb (fsub f_one (f_lit 1 1000000000)) p_ab then discount
      else
        let p_a := fmin (fdiv m_a tot) f_one in
        let p_b := fmin (fdiv m_b tot) f_one in
        let pmi := ln (fdiv p_ab (fmul p_a p_b)) in
        fmul (fmax f_zero (fmin f_one (fdiv pmi (fopp (ln p_ab))))) discount.

Definition m_flush (m : Matrix) : list EdgeRow * Matrix :=
  (map (fun p => Edge (m_kind m) p.1 p.2 (npmi m p.1 p.2) (pair_mass m p.1 p.2) (epoch m))
     (sort_by pair_leb (elements (m_dirty m))),
   MkMatrix (m_kind m) (lam m) (epoch m) (total m) (total_e m) (pairs m) (marginals m) ∅).

(** ** The learner *)

(** [(class_id, device_id)]. *)
Abbreviation Item := (Z * Z)%type.
Record Learner := MkLearner { A : Matrix; E : Matrix; clocked : bool }.
Definition new_learner : Learner := MkLearner (new_matrix "class") (new_matrix "device") false.

(** One learning epoch per hour of stream time. *)
Definition epoch_of (ts : float) : Z := f_floor_div ts EPOCH_S.
Definition advance (ts : float) (l : Learner) : Learner :=
  let e := epoch_of ts in
  let once m := if negb (clocked l) && (epoch m <? e - 24 * 365 * 10) then rebase e m else m in
  MkLearner (advance_to e (once (A l))) (advance_to e (once (E l))) true.

Definition observe_activation (i : Item) (l : Learner) : Learner :=
  MkLearner (observe_occurrence i.1 f_one (A l)) (observe_occurrence i.2 f_one (E l)) (clocked l).

Definition observe_pairs (new : Item) (others : list Item) (storm : bool) (l : Learner) : Learner :=
  let w := if storm then STORM_DAMPING else f_one in
  MkLearner
    (foldl (fun m c => observe_pair new.1 c w m) (A l) (elements (list_to_set (map fst others) : gset Z)))
    (foldl (fun m d => observe_pair new.2 d w m) (E l)
       (elements (list_to_set (List.filter (fun d => negb (d =? new.2)) (map snd others)) : gset Z)))
    (clocked l).

Definition class_affinity (l : Learner) (a b : Z) : float := npmi (A l) a b.

Definition entity_affinity (l : Learner) (a_entity a_ne b_entity b_ne : Z) : float :=
  if a_entity =? b_entity then f_one
  else if a_ne =? b_ne then SAME_NE_AFFINITY
  else if fleb MIN_EDGE_N (pair_mass (E l) a_ne b_ne) then npmi (E l) a_ne b_ne else f_zero.

Definition device_affinity (l : Learner) (a b : Z) : float := entity_affinity l a a b b.

(** The pairs [(i, j)] with [i < j] of a list, with their positions. *)
Fixpoint later_pairs {X} (l : list X) : list (X * X) :=
  match l with [] => [] | x :: l => map (Datatypes.pair x) l ++ later_pairs l end.

Definition class_pairs (ps : list (Item * Item)) : gset (Z * Z) := list_to_set (map (fun p => pair p.1.1 p.2.1) ps).
Definition device_pairs (ps : list (Item * Item)) : gset (Z * Z) :=
  list_to_set (map (fun p => pair p.1.2 p.2.2) (List.filter (fun p => negb (p.1.2 =? p.2.2)) ps)).

Definition learn_epoch (members : list Item) (advance_epoch : bool) (l : Learner) : Learner :=
  let step m := if advance_epoch then tick m else m in
  let ps := later_pairs (take EPOCH_PAIR_CAP members) in
  let w := if STORM_ALARMS <=? Z.of_nat (length members) then STORM_DAMPING else f_one in
  MkLearner (foldl (fun m p => observe_pair p.1 p.2 w m) (step (A l)) (elements (class_pairs ps)))
    (foldl (fun m p => observe_pair p.1 p.2 w m) (step (E l)) (elements (device_pairs ps))) (clocked l).

(** The pairs a split asserts do not belong together: all, or those [marked] parts. *)
Definition asserted (members : list Item) (marked : option (gset nat)) : list (Item * Item) :=
  let sample := take EPOCH_PAIR_CAP members in
  map (fun p => (p.1.2, p.2.2))
    (List.filter (fun p => match marked with
                           | None => true
                           | Some s => negb (Bool.eqb (bool_decide (p.1.1 ∈ s)) (bool_decide (p.2.1 ∈ s)))
                           end) (later_pairs (imap Datatypes.pair sample))).

Definition scale_all (ps : gset (Z * Z)) (m : Matrix) : Matrix :=
  foldl (fun m p => scale_pair p.1 p.2 SPLIT_PENALTY m) m (elements ps).

Definition penalize (members : list Item) (marked : option (gset nat)) (l : Learner) : Learner :=
  let ps := asserted members marked in
  MkLearner (scale_all (class_pairs ps) (A l)) (scale_all (device_pairs ps) (E l)) (clocked l).

(** ** Saved *)

Record MatrixState := MkState { s_clock : option string; s_epoch : Z; s_total : mass; s_marginals : list (Z * mass) }.
Definition m_state (m : Matrix) : MatrixState :=
  MkState (Some CLOCK) (epoch m) (total m, total_e m) (map_to_list (marginals m)).

(** Whether it was written under the hourly clock, and the matrix. *)
Definition load_state (s : MatrixState) (edges : list EdgeRow) (m : Matrix) : bool * Matrix :=
  (bool_decide (s_clock s = Some CLOCK),
   MkMatrix (m_kind m) (lam m) (s_epoch s) (s_total s).1 (s_total s).2
     (list_to_map (rev (map (fun e => (pair (a_id e) (b_id e), (n_pairs e, g e))) edges)))
     (list_to_map (rev (s_marginals s))) (m_dirty m)).

(** ** What rebasing keeps *)

Lemma mass_of_shift (m : Matrix) shift x :
  mass_of (set_epoch (epoch m + shift) m) ((fun p => (p.1, p.2 + shift)) <$> x) = mass_of m x.
Proof.
  unfold mass_of, decayed. destruct x as [[x e]|]; simpl; [|by rewrite !Z.sub_diag].
  by replace (epoch m + shift - (e + shift)) with (epoch m - e) by lia.
Qed.

Lemma rebase_npmi e m a b : npmi (rebase e m) a b = npmi m a b ∧ pair_mass (rebase e m) a b = pair_mass m a b.
Proof.
  unfold rebase. destruct (Z.eqb_spec (e - epoch m) 0); [done|]. set (m' := MkMatrix _ _ _ _ _ _ _ _).
  assert (∀ x, mass_of m' ((fun p => (p.1, p.2 + (e - epoch m))) <$> x) = mass_of m x) as Hm by apply mass_of_shift.
  assert (pair_mass m' a b = pair_mass m a b) as Hp by (unfold pair_mass; subst m'; cbn [pairs]; by rewrite lookup_fmap, Hm).
  split; [|done]. unfold npmi. rewrite Hp.
  assert (∀ i, mass_of m' (marginals m' !! i) = mass_of m (marginals m !! i)) as Hi.
  { intros i. rewrite <- Hm. subst m'. cbn [marginals]. by rewrite lookup_fmap. }
  rewrite !Hi. assert (decayed m' (total m') (total_e m') = decayed m (total m) (total_e m)) as ->; [|done].
  unfold decayed. subst m'. cbn [epoch total total_e lam].
  by replace (epoch m + (e - epoch m) - (total_e m + (e - epoch m))) with (epoch m - total_e m) by lia.
Qed.

(** The hourly clock started on matrices counted in situations moves them to the present hour, and
    every affinity and mass a scorer reads is what it was; after that first activation the clock
    never goes back, whatever the instants. *)
Theorem the_clock_starts_without_forgetting ts (l : Learner) :
  (clocked l = false → ∀ m m', (m, m') ∈ [(A l, A (advance ts l)); (E l, E (advance ts l))] →
     epoch m < epoch_of ts - 87600 →
     epoch m' = epoch_of ts ∧ (∀ a b, npmi m' a b = npmi m a b ∧ pair_mass m' a b = pair_mass m a b)) ∧
  (∀ ts', epoch (A (advance ts l)) ≤ epoch (A (advance ts' (advance ts l))) ∧
          epoch (E (advance ts l)) ≤ epoch (E (advance ts' (advance ts l)))).
Proof.
  assert (∀ e m, epoch m ≤ epoch (advance_to e m)) as Hup.
  { intros e m. unfold advance_to. destruct (Z.ltb_spec (epoch m) e); simpl; lia. }
  split.
  - intros Hc m m' Hm He. assert (m' = advance_to (epoch_of ts) (rebase (epoch_of ts) m)) as ->.
    { unfold advance in Hm. rewrite Hc in Hm. simpl in Hm.
      apply elem_of_cons in Hm as [[= -> ->]|[= -> ->]%list_elem_of_singleton]; by rewrite (proj2 (Z.ltb_lt _ _)) by lia. }
    assert (epoch (rebase (epoch_of ts) m) = epoch_of ts) as Er.
    { unfold rebase. destruct (Z.eqb_spec (epoch_of ts - epoch m) 0); simpl; lia. }
    unfold advance_to. rewrite Er, Z.ltb_irrefl. split; [done|]. intros a b. apply rebase_npmi.
  - intros ts'. split; apply Hup.
Qed.

(** ** A split halves each asserted pair once *)

Lemma scale_pair_lookup a b f m k :
  pairs (scale_pair a b f m) !! k = if bool_decide (k = pair a b) then (fun x => (fmul x.1 f, x.2)) <$> pairs m !! k else pairs m !! k.
Proof.
  unfold scale_pair. destruct (pairs m !! pair a b) as [[x e]|] eqn:E; cbn [pairs]; case_bool_decide as Hk; subst.
  - by rewrite lookup_insert_eq, E.
  - by rewrite lookup_insert_ne by congruence.
  - by rewrite E.
  - done.
Qed.

Lemma pair_sorted (p : Z * Z) : p.1 ≤ p.2 → pair p.1 p.2 = p.
Proof. intros. unfold pair. rewrite (proj2 (Z.leb_le _ _)) by done. by destruct p. Qed.

Lemma pair_le a b : (pair a b).1 ≤ (pair a b).2.
Proof. unfold pair. destruct (Z.leb_spec a b); simpl; lia. Qed.

Lemma scale_all_lookup (ps : gset (Z * Z)) m k :
  (∀ p, p ∈ ps → p.1 ≤ p.2) →
  pairs (scale_all ps m) !! k =
  if bool_decide (k ∈ ps) then (fun x => (fmul x.1 SPLIT_PENALTY, x.2)) <$> pairs m !! k else pairs m !! k.
Proof.
  intros Hps. unfold scale_all. assert (Forall (fun p : Z * Z => p.1 ≤ p.2) (elements ps)) as Hle.
  { apply Forall_forall. intros p Hp. apply Hps. by apply elem_of_elements. }
  rewrite (bool_decide_ext (k ∈ ps) (k ∈ elements ps)) by (by rewrite elem_of_elements).
  pose proof (NoDup_elements ps) as Hnd. revert Hle Hnd. generalize (elements ps) as l. clear Hps ps.
  intros l. revert m. induction l as [|p l IH]; intros m Hle Hnd; [by rewrite bool_decide_false by apply not_elem_of_nil|].
  apply Forall_cons in Hle as [Hp Hle]. apply NoDup_cons in Hnd as [Hpl Hnd]. cbn [foldl].
  rewrite IH, scale_pair_lookup, pair_sorted by done.
  rewrite (bool_decide_ext (k ∈ p :: l) (k = p ∨ k ∈ l)) by apply elem_of_cons.
  destruct (decide (k = p)) as [->|Hk].
  - rewrite (bool_decide_false (p ∈ l)), !bool_decide_true by tauto. done.
  - rewrite (bool_decide_false (k = p)) by done. by rewrite (bool_decide_ext (k = p ∨ k ∈ l) (k ∈ l)) by tauto.
Qed.

Lemma class_pairs_le ps p : p ∈ class_pairs ps → p.1 ≤ p.2.
Proof. unfold class_pairs. rewrite elem_of_list_to_set. intros ([x y] & -> & _)%list_elem_of_fmap. apply pair_le. Qed.

Lemma device_pairs_le ps p : p ∈ device_pairs ps → p.1 ≤ p.2.
Proof. unfold device_pairs. rewrite elem_of_list_to_set. intros ([x y] & -> & _)%list_elem_of_fmap. apply pair_le. Qed.

Lemma asserted_sub members marked p : p ∈ asserted members marked → p ∈ asserted members None.
Proof.
  unfold asserted. intros (q & -> & Hq)%list_elem_of_fmap. apply list_elem_of_fmap. exists q. split; [done|].
  apply list_elem_of_In, filter_In in Hq as [Hq _]. by apply list_elem_of_In, filter_In.
Qed.

(** A split halves the mass of every pair of classes (and of distinct elements) it asserts, once each
    however many members carry it, and touches no other; with members marked it asserts only
    pairs of a marked and an unmarked member, a part of what it asserts with none. *)
Theorem a_split_halves_each_asserted_pair_once members marked (l : Learner) :
  let ps := asserted members marked in
  (∀ k, pairs (A (penalize members marked l)) !! k =
     if bool_decide (k ∈ class_pairs ps) then (fun x => (fmul x.1 SPLIT_PENALTY, x.2)) <$> pairs (A l) !! k else pairs (A l) !! k) ∧
  (∀ k, pairs (E (penalize members marked l)) !! k =
     if bool_decide (k ∈ device_pairs ps) then (fun x => (fmul x.1 SPLIT_PENALTY, x.2)) <$> pairs (E l) !! k else pairs (E l) !! k) ∧
  class_pairs ps ⊆ class_pairs (asserted members None) ∧ device_pairs ps ⊆ device_pairs (asserted members None).
Proof.
  cbn [penalize A E]. split; [intros k; apply scale_all_lookup, class_pairs_le|].
  split; [intros k; apply scale_all_lookup, device_pairs_le|]. split; intros p.
  - unfold class_pairs. rewrite !elem_of_list_to_set. intros (q & -> & Hq%asserted_sub)%list_elem_of_fmap.
    apply list_elem_of_fmap. eauto.
  - unfold device_pairs. rewrite !elem_of_list_to_set. intros (q & -> & Hq)%list_elem_of_fmap. apply list_elem_of_fmap.
    exists q. split; [done|]. apply list_elem_of_In, filter_In in Hq as [Hq%list_elem_of_In%asserted_sub Hd].
    by apply list_elem_of_In, filter_In; split; [apply list_elem_of_In|].
Qed.
End math.
