(* ===== verification/Ledger.v ===== *)
(** * What a maintenance window suppressed ([engine/mw/ledger.py], [store/mw_ledger.py],
    [engine/operate/window_sweep.py])

    The ledger of raises and clears seen under a window: in memory on the ingest path, in a table at
    each tick, and read when the window ends. Instants are kept as given: only whether one is
    there is decided on. The situation the surfaced alarms are filed in is in [Situations]. *)
From S2P Require Import Prelude PyLib Oids Auth Windows WindowLife Alternation.

(** ** In memory *)

(** Window, device, class, instance. *)
Abbreviation LedgerKey := (Z * Z * Z * string)%type.
Definition k_window (k : LedgerKey) : Z := k.1.1.1.
Definition k_device (k : LedgerKey) : Z := k.1.1.2.
Definition k_class (k : LedgerKey) : Z := k.1.2.
Definition k_instance (k : LedgerKey) : string := k.2.

Record LedgerEntry := MkEntry {
  e_ne : Z; raised_at : option float; cleared_at : option float; surfaced_at : option float }.

Definition entry_unresolved (e : LedgerEntry) : bool :=
  bool_decide (is_Some (raised_at e)) && bool_decide (cleared_at e = None) && bool_decide (surfaced_at e = None).

Record StateLedger := MkLedger { entries : gmap LedgerKey LedgerEntry; dirty : gset LedgerKey }.
Definition new_ledger : StateLedger := MkLedger ∅ ∅.

Definition entry_of (l : StateLedger) (k : LedgerKey) (ne : Z) : LedgerEntry :=
  default (MkEntry ne None None None) (entries l !! k).

Definition put (l : StateLedger) (k : LedgerKey) (e : LedgerEntry) : StateLedger :=
  MkLedger (<[k := e]> (entries l)) ({[k]} ∪ dirty l).

Definition observe_raise (k : LedgerKey) (ne : Z) (ts : float) (l : StateLedger) : StateLedger :=
  let e := entry_of l k ne in
  put l k (if bool_decide (raised_at e = None) || bool_decide (is_Some (cleared_at e))
           then MkEntry (e_ne e) (Some ts) None None else e).

Definition observe_clear (k : LedgerKey) (ne : Z) (ts : float) (l : StateLedger) : StateLedger :=
  let e := entry_of l k ne in put l k (MkEntry (e_ne e) (raised_at e) (Some ts) (surfaced_at e)).

(** The window of the decision, if it is filed under the element. *)
Definition window_of (windows : WindowIndex) (ne window_id : Z) : option CompiledWindow :=
  List.find (fun w => Windows.window_id w =? window_id) (default [] (windows !! ne)).

Definition observe_suppressed (d : Decision) (ne device class_id : Z) (inst : string) (ts : float)
    (varbinds : list (string * string)) (clears : ClearPairLearner) (states : StateClearLearner)
    (windows : WindowIndex) (l : StateLedger) : StateLedger :=
  match d_window d with
  | None => l
  | Some wid =>
      if negb (from_option ledger_enabled true (window_of windows ne wid)) then l
      else match clear_to_raise clears !! class_id with
      | Some raise_class => observe_clear (wid, device, raise_class, inst) ne ts l
      | None =>
          let over := match standard_severity varbinds with Some s => String.eqb s.1.1 "cleared" | None => false end in
          if is_clear states class_id varbinds || over
          then observe_clear (wid, device, class_id, inst) ne ts l
          else observe_raise (wid, device, class_id, inst) ne ts l
      end
  end.

(** The lexicographic order of [(window, device, class, instance)]. *)
Definition key4_leb (a b : LedgerKey) : bool :=
  if k_window a =? k_window b then
    if k_device a =? k_device b then
      if k_class a =? k_class b then string_leb (k_instance a) (k_instance b) else k_class a <? k_class b
    else k_device a <? k_device b
  else k_window a <? k_window b.

(** The entries of one window, in order; the source sorts all of them by [(device, class,
    instance)] and keeps that window's. *)
Definition unresolved (l : StateLedger) (wid : Z) : list (LedgerKey * LedgerEntry) :=
  List.filter (fun p => (k_window p.1 =? wid) && entry_unresolved p.2)
    (sort_by (fun a b => key4_leb (0, k_device a.1, k_class a.1, k_instance a.1) (0, k_device b.1, k_class b.1, k_instance b.1))
       (map_to_list (entries l))).

Definition forget_window (wid : Z) (l : StateLedger) : StateLedger :=
  MkLedger (filter (fun p => k_window p.1 ≠ wid) (entries l))
    (dirty l ∖ filter (fun k => k_window k = wid) (dom (entries l))).

Definition take_dirty (l : StateLedger) : list (LedgerKey * LedgerEntry) * StateLedger :=
  (omap (fun k => pair k <$> entries l !! k) (sort_by key4_leb (elements (dirty l))), MkLedger (entries l) ∅).

(** [(window_id, ne_id, device_id, class_id, instance, raised_at, cleared_at, surfaced_at)]. *)
Record LedgerRow := MkRow {
  lr_window : Z; lr_ne : Z; lr_device : Z; lr_class : Z; lr_instance : string;
  lr_raised : option float; lr_cleared : option float; lr_surfaced : option float }.

Definition to_rows (l : list (LedgerKey * LedgerEntry)) : list LedgerRow :=
  map (fun p => MkRow (k_window p.1) (e_ne p.2) (k_device p.1) (k_class p.1) (k_instance p.1)
                  (raised_at p.2) (cleared_at p.2) (surfaced_at p.2)) l.

(** ** The table, keyed on the window, the element, the class and the instance *)

Record Kept := MkKept { t_raised : option float; t_cleared : option float; t_surfaced : option float }.
Abbreviation LedgerTable := (gmap LedgerKey Kept).

Definition coalesce (a b : option float) : option float := match a with Some _ => a | None => b end.

Definition upsert (t : LedgerTable) (r : LedgerRow) : LedgerTable :=
  let k := (lr_window r, lr_ne r, lr_class r, lr_instance r) in
  <[k := match t !! k with
         | None => MkKept (lr_raised r) (lr_cleared r) (lr_surfaced r)
         | Some old => MkKept (coalesce (lr_raised r) (t_raised old)) (lr_cleared r)
                         (coalesce (lr_surfaced r) (t_surfaced old))
         end]> t.

Definition flush_ledger (rows : list LedgerRow) (t : LedgerTable) : LedgerTable := foldl upsert t rows.

Definition open_row (wid : Z) (p : LedgerKey * Kept) : bool :=
  (k_window p.1 =? wid) && bool_decide (is_Some (t_raised p.2)) && bool_decide (t_cleared p.2 = None)
  && bool_decide (t_surfaced p.2 = None).

Definition unresolved_ledger (wid : Z) (t : LedgerTable) : list LedgerRow :=
  map (fun p => MkRow wid (k_device p.1) (k_device p.1) (k_class p.1) (k_instance p.1)
                  (t_raised p.2) (t_cleared p.2) (t_surfaced p.2))
    (sort_by (fun a b => key4_leb a.1 b.1) (List.filter (open_row wid) (map_to_list t))).

Definition mark_ledger_surfaced (r : LedgerRow) (now : float) (t : LedgerTable) : LedgerTable :=
  alter (fun k => MkKept (t_raised k) (t_cleared k) (Some now)) (lr_window r, lr_ne r, lr_class r, lr_instance r) t.

Definition ledger_summary (wid : Z) (t : LedgerTable) : Z * Z * Z :=
  let mine := List.filter (fun p => k_window p.1 =? wid) (map_to_list t) in
  let count f := Z.of_nat (length (List.filter f mine)) in
  (Z.of_nat (length mine), count (fun p => bool_decide (is_Some (t_cleared p.2))),
   count (fun p => bool_decide (is_Some (t_surfaced p.2)))).

(** ** Surfacing *)

(** An alarm row: what surfacing reads and writes of it. *)
Record Alarm := MkAlarm {
  a_id : Z; a_active : bool; a_first_seen : float; a_last_seen : float; a_cleared_at : option float;
  a_window : option Z; a_surfaced_at : option float }.
(** Keyed on the element, the class and the instance. *)
Abbreviation AlarmTable := (gmap (Z * Z * string) Alarm).

Definition alarm_key (r : LedgerRow) : Z * Z * string := (lr_ne r, lr_class r, lr_instance r).

(** The alarm id is the next of its sequence ([next]). *)
Definition surface_ledger_entry (r : LedgerRow) (now : float) (next : Z) (alarms : AlarmTable)
  : option Z * (Z * AlarmTable) :=
  match alarms !! alarm_key r with
  | Some a =>
      if a_active a then (None, (next, alarms))
      else (Some (a_id a),
            (next, <[alarm_key r := MkAlarm (a_id a) true (a_first_seen a) now None (Some (lr_window r)) (Some now)]> alarms))
  | None =>
      let raised := default now (lr_raised r) in
      (Some next, (next + 1, <[alarm_key r := MkAlarm next true raised now None (Some (lr_window r)) (Some now)]> alarms))
  end.

Record Books := MkBooks { memory : StateLedger; rows : LedgerTable; next_alarm : Z; alarms : AlarmTable }.

(** One unresolved row; the ids of the alarms that appeared, with their rows, are what is filed. *)
Definition surface_one (now : float) (acc : list (Z * LedgerRow) * Books) (r : LedgerRow) : list (Z * LedgerRow) * Books :=
  let '(filed, b) := acc in
  let '(id, (next, al)) := surface_ledger_entry r now (next_alarm b) (alarms b) in
  (match id with Some a => filed ++ [(a, r)] | None => filed end,
   MkBooks (memory b) (mark_ledger_surfaced r now (rows b)) next al).

Definition surface_entries (rs : list LedgerRow) (now : float) (b : Books) : list (Z * LedgerRow) * Books :=
  foldl (surface_one now) ([], b) rs.

Definition surface_window (wid : Z) (now : float) (b : Books) : list (Z * LedgerRow) * Books :=
  surface_entries (unresolved_ledger wid (rows b)) now b.

Definition set_memory (m : StateLedger) (b : Books) : Books := MkBooks m (rows b) (next_alarm b) (alarms b).

Definition end_one (now : float) (b : Books) (wid : Z) : Books :=
  let b := (surface_window wid now b).2 in set_memory (forget_window wid (memory b)) b.

(** [_maintenance_windows] after [advance_statuses] has told which windows just ended. *)
Definition sweep (just_ended : list Z) (now : float) (b : Books) : Books :=
  let '(taken, m) := take_dirty (memory b) in
  let b := MkBooks m (flush_ledger (to_rows taken) (rows b)) (next_alarm b) (alarms b) in
  foldl (end_one now) b just_ended.

(** The sweep of one pass, the clock and the snapshot included. *)
Definition maintenance_windows (secs : float → Z) (now : float) (t : Table) (b : Books) : Table * Books * WindowIndex :=
  let '(just_ended, t) := advance_statuses secs (encode_instant now) t in
  (t, sweep just_ended now b, from_rows (window_index_rows secs (encode_instant now) t)).

(** "End now": the rows are read as the last sweep left them. *)
Definition surface_window_now (wid : Z) (now : float) (b : Books) : Z * Books :=
  let '(filed, b) := surface_window wid now b in
  (Z.of_nat (length filed), set_memory (forget_window wid (memory b)) b).

(** ** What a suppressed trap says *)

(** The fingerprint it is about, and whether it raises (or ends) the fault. *)
Definition said (d : Decision) (ne class_id : Z) (inst : string) (varbinds : list (string * string))
    (clears : ClearPairLearner) (states : StateClearLearner) (windows : WindowIndex) : option (LedgerKey * bool) :=
  wid ← d_window d;
  if negb (from_option ledger_enabled true (window_of windows ne wid)) then None
  else match clear_to_raise clears !! class_id with
  | Some raise_class => Some ((wid, ne, raise_class, inst), false)
  | None => Some ((wid, ne, class_id, inst),
                  negb (is_clear states class_id varbinds ||
                        match standard_severity varbinds with Some s => String.eqb s.1.1 "cleared" | None => false end))
  end.

Definition heard (k : LedgerKey) (raises : bool) (ts : float) (m : StateLedger) : StateLedger :=
  if raises then observe_raise k (k_device k) ts m else observe_clear k (k_device k) ts m.

Lemma observe_suppressed_said d ne c inst ts vbs clears states windows m :
  observe_suppressed d ne ne c inst ts vbs clears states windows m =
  match said d ne c inst vbs clears states windows with Some (k, raises) => heard k raises ts m | None => m end.
Proof.
  unfold observe_suppressed, said. destruct (d_window d) as [wid|]; simpl; [|done].
  destruct (negb _); [done|]. destruct (clear_to_raise clears !! c); [done|].
  by destruct (is_clear states c vbs || _).
Qed.

(** ** The promise: a fault that outlives its window surfaces

    [open] is the set of the fingerprints whose last suppressed trap raised a fault, [saved] what it
    was at the last sweep, [over] the windows that ended. *)

Inductive life : gset Z → gset LedgerKey → gset LedgerKey → Books → Prop :=
| life_start next al : life ∅ ∅ ∅ (MkBooks new_ledger ∅ next al)
| life_trap over opened saved b d ne c inst ts vbs clears states windows :
    life over opened saved b → (∀ wid, d_window d = Some wid → wid ∉ over) →
    life over
      match said d ne c inst vbs clears states windows with
      | Some (k, true) => {[k]} ∪ opened
      | Some (k, false) => opened ∖ {[k]}
      | None => opened
      end saved
      (set_memory (observe_suppressed d ne ne c inst ts vbs clears states windows (memory b)) b)
| life_sweep over opened saved b now ended :
    life over opened saved b →
    life (list_to_set ended ∪ over) (filter (fun k => k_window k ∉ ended) opened)
      (filter (fun k => k_window k ∉ ended) opened) (sweep ended now b)
| life_restart over opened saved b :
    life over opened saved b → life over saved saved (set_memory new_ledger b)
| life_alarms over opened saved b next al :
    life over opened saved b → life over opened saved (MkBooks (memory b) (rows b) next al).

Definition e_shows (e : LedgerEntry) : bool := bool_decide (is_Some (raised_at e)) && bool_decide (cleared_at e = None).
Definition r_shows (r : option Kept) : bool :=
  match r with
  | Some r => bool_decide (is_Some (t_raised r)) && bool_decide (t_cleared r = None)
  | None => false
  end.
Definition shows (b : Books) (k : LedgerKey) : bool :=
  match entries (memory b) !! k with Some e => e_shows e | None => r_shows (rows b !! k) end.

(** A row is as an entry that was flushed to it left it. *)
Definition agrees (e : LedgerEntry) (r : option Kept) : Prop := r_shows r = e_shows e.

Record books_ok (over : gset Z) (opened saved : gset LedgerKey) (b : Books) : Prop := {
  bo_open : ∀ k, k ∈ opened ↔ k_window k ∉ over ∧ shows b k = true;
  bo_saved : ∀ k, k ∈ saved ↔ k_window k ∉ over ∧ r_shows (rows b !! k) = true;
  bo_entry : ∀ k e, entries (memory b) !! k = Some e →
             e_ne e = k_device k ∧ surfaced_at e = None ∧ k_window k ∉ over ∧ (raised_at e = None → is_Some (cleared_at e));
  bo_dirty : ∀ k, k ∈ dirty (memory b) → is_Some (entries (memory b) !! k);
  bo_clean : ∀ k e, entries (memory b) !! k = Some e → k ∉ dirty (memory b) → agrees e (rows b !! k);
  bo_unsurfaced : ∀ k r, rows b !! k = Some r → k_window k ∉ over → t_surfaced r = None;
  bo_over : ∀ k r, rows b !! k = Some r → k_window k ∈ over → open_row (k_window k) (k, r) = false }.

Lemma heard_entry k raises ts m : ∃ e,
  heard k raises ts m = put m k e ∧ e_ne e = e_ne (entry_of m k (k_device k)) ∧
  e_shows e = raises ∧ surfaced_at e = (if raises then if e_shows (entry_of m k (k_device k))
    then surfaced_at (entry_of m k (k_device k)) else None else surfaced_at (entry_of m k (k_device k))) ∧
  (raised_at e = None → is_Some (cleared_at e)).
Proof.
  unfold heard, observe_raise, observe_clear, e_shows. set (e := entry_of m k (k_device k)).
  destruct raises; eexists; (split; [done|]).
  - destruct e as [ne [r|] [c|] s]; simpl; repeat split; done.
  - destruct e as [ne [r|] [c|] s]; simpl; repeat split; eauto.
Qed.

Lemma shows_heard b k raises ts k' :
  shows (set_memory (heard k raises ts (memory b)) b) k' = if bool_decide (k' = k) then raises else shows b k'.
Proof.
  destruct (heard_entry k raises ts (memory b)) as (e & -> & _ & Hs & _). unfold shows. simpl.
  case_bool_decide as Hk; [subst; by rewrite lookup_insert_eq | by rewrite lookup_insert_ne].
Qed.

Lemma heard_ok (over : gset Z) (opened saved : gset LedgerKey) (b : Books) k (raises : bool) ts :
  books_ok over opened saved b → k_window k ∉ over →
  books_ok over (if raises then {[k]} ∪ opened else opened ∖ {[k]}) saved
    (set_memory (heard k raises ts (memory b)) b).
Proof.
  intros [H1 H2 H3 H4 H5 H6 H7] Hk.
  destruct (heard_entry k raises ts (memory b)) as (e & Heq & Hne & Hs & Hsurf & Hrc).
  assert (e_ne (entry_of (memory b) k (k_device k)) = k_device k ∧ surfaced_at (entry_of (memory b) k (k_device k)) = None)
    as [Hne' Hsurf'].
  { unfold entry_of. destruct (entries (memory b) !! k) as [e0|] eqn:E; simpl; [|done]. by destruct (H3 _ _ E) as (? & ? & _). }
  split.
  - intros k'. rewrite shows_heard. specialize (H1 k'). destruct raises; case_bool_decide; set_solver.
  - exact H2.
  - intros k' e'. rewrite Heq. simpl. intros [[<- <-]|[? He]]%lookup_insert_Some; [|by apply H3].
    rewrite Hne, Hne', Hsurf, Hsurf'. split_and!; [done | | done | done]. destruct raises; [by case_match | done].
  - intros k'. rewrite Heq. simpl. intros [->%elem_of_singleton|Hd]%elem_of_union; [rewrite lookup_insert_eq; eauto|].
    rewrite lookup_insert_is_Some. destruct (decide (k = k')); [by left | right; auto].
  - intros k' e'. rewrite Heq. simpl. intros [[<- <-]|[? He]]%lookup_insert_Some Hd; [set_solver|].
    apply (H5 _ _ He). set_solver.
  - exact H6.
  - exact H7.
Qed.

(** ** Flushing *)

Definition merged_row (e : LedgerEntry) (old : option Kept) : Kept :=
  match old with
  | None => MkKept (raised_at e) (cleared_at e) (surfaced_at e)
  | Some old => MkKept (coalesce (raised_at e) (t_raised old)) (cleared_at e) (coalesce (surfaced_at e) (t_surfaced old))
  end.

Lemma flush_lookup l t k :
  NoDup l.*1 → (∀ p, p ∈ l → e_ne p.2 = k_device p.1) →
  flush_ledger (to_rows l) t !! k =
  match assoc k l with Some e => Some (merged_row e (t !! k)) | None => t !! k end.
Proof.
  revert t. induction l as [|[k0 e0] l IH]; intros t Hnd Hne; [done|].
  apply NoDup_cons in Hnd as [Hk0 Hnd]. simpl.
  assert ((k_window k0, e_ne e0, k_class k0, k_instance k0) = k0) as Hkey.
  { pose proof (Hne (k0, e0) ltac:(by left)) as H. simpl in H. rewrite H. by destruct k0 as [[[? ?] ?] ?]. }
  rewrite IH; [|done|set_solver]. unfold upsert. cbn [lr_window lr_ne lr_class lr_instance lr_raised lr_cleared lr_surfaced].
  rewrite Hkey. destruct (decide (k0 = k)) as [->|Hne0].
  - rewrite (proj2 (assoc_None k l)) by done. rewrite lookup_insert_eq, decide_True by done. by destruct (t !! k).
  - by rewrite lookup_insert_ne, decide_False by done.
Qed.

Lemma assoc_taken (f : LedgerKey → option LedgerEntry) ks k :
  assoc k (omap (fun k => pair k <$> f k) ks) = if bool_decide (k ∈ ks) then f k else None.
Proof.
  induction ks as [|k0 ks IH]; [done|]. cbn [omap list_omap]. fold (omap (M:=list) (fun k => pair k <$> f k) ks).
  destruct (f k0) as [e|] eqn:E; cbn [fmap option_fmap option_map assoc].
  - destruct (decide (k0 = k)) as [->|].
    + by rewrite decide_True, bool_decide_true by set_solver.
    + rewrite decide_False, IH by done. by rewrite (bool_decide_ext (k ∈ k0 :: ks) (k ∈ ks)) by set_solver.
  - rewrite IH. destruct (decide (k0 = k)) as [->|].
    + rewrite E. by destruct (bool_decide _), (bool_decide _).
    + by rewrite (bool_decide_ext (k ∈ k0 :: ks) (k ∈ ks)) by set_solver.
Qed.

Lemma taken_keys (f : LedgerKey → option LedgerEntry) ks : (omap (fun k => pair k <$> f k) ks).*1 `sublist_of` ks.
Proof. induction ks as [|k ks IH]; simpl; [done|]. destruct (f k); simpl; by constructor. Qed.

Definition flushed (b : Books) : Books :=
  MkBooks (take_dirty (memory b)).2 (flush_ledger (to_rows (take_dirty (memory b)).1) (rows b)) (next_alarm b) (alarms b).

Lemma flushed_lookup over opened saved b k :
  books_ok over opened saved b →
  rows (flushed b) !! k =
  match entries (memory b) !! k with
  | Some e => if bool_decide (k ∈ dirty (memory b)) then Some (merged_row e (rows b !! k)) else rows b !! k
  | None => rows b !! k
  end.
Proof.
  intros [_ _ H3 H4 _ _ _]. simpl. rewrite flush_lookup.
  - rewrite assoc_taken. rewrite (bool_decide_ext _ (k ∈ dirty (memory b))) by (by rewrite elem_of_sort_by, elem_of_elements).
    case_bool_decide as Hd; [by destruct (H4 _ Hd) as [e ->] | by destruct (entries (memory b) !! k)].
  - eapply sublist_NoDup; [|apply taken_keys]. apply NoDup_sort_by, NoDup_elements.
  - intros [k' e'] Hp. apply list_elem_of_omap in Hp as (k2 & _ & Hp). destruct (entries (memory b) !! k2) eqn:E; simplify_eq/=.
    by destruct (H3 _ _ E).
Qed.

Lemma merged_shows e old : (raised_at e = None → is_Some (cleared_at e)) → r_shows (Some (merged_row e old)) = e_shows e.
Proof. destruct e as [ne [r|] [c|] s], old as [[[|] [|] [|]]|]; simpl; try done; by intros [? ?]. Qed.

Lemma flushed_shows over opened saved b k :
  books_ok over opened saved b → r_shows (rows (flushed b) !! k) = shows b k.
Proof.
  intros Hok. rewrite (flushed_lookup _ _ _ _ _ Hok). unfold shows. destruct Hok as [_ _ H3 _ H5 _ _].
  destruct (entries (memory b) !! k) as [e|] eqn:E; [|done]. case_bool_decide as Hd; [|by apply H5].
  apply merged_shows. by destruct (H3 _ _ E) as (_ & _ & _ & ?).
Qed.

Lemma flushed_ok over opened saved b : books_ok over opened saved b → books_ok over opened opened (flushed b).
Proof.
  intros Hok. pose proof (flushed_shows over opened saved b) as Hfs. pose proof (flushed_lookup over opened saved b) as Hfl.
  pose proof Hok as [H1 H2 H3 H4 H5 H6 H7].
  assert (∀ k, shows (flushed b) k = shows b k) as Hsh.
  { intros k. change (match entries (memory b) !! k with Some e => e_shows e | None => r_shows (rows (flushed b) !! k) end
      = shows b k). rewrite Hfs by done. unfold shows. by destruct (entries (memory b) !! k). }
  split.
  - intros k. by rewrite Hsh.
  - intros k. rewrite Hfs by done. apply H1.
  - exact H3.
  - simpl. set_solver.
  - intros k e He _. unfold agrees. rewrite Hfs by done. unfold shows.
    change (entries (memory b) !! k = Some e) in He. by rewrite He.
  - intros k r. rewrite Hfl by done. intros Hr Ho. destruct (entries (memory b) !! k) as [e|] eqn:E; [|by apply (H6 k)].
    case_bool_decide; [|by apply (H6 k)]. destruct (H3 _ _ E) as (_ & Hs & _). injection Hr as <-.
    unfold merged_row. destruct (rows b !! k) as [r0|] eqn:Hr0; simpl; rewrite Hs; [|done]. simpl. by apply (H6 k).
  - intros k r. rewrite Hfl by done. intros Hr Ho. destruct (entries (memory b) !! k) as [e|] eqn:E; [|by apply H7].
    by destruct (H3 _ _ E) as (_ & _ & ? & _).
Qed.

(** ** Surfacing *)

Definition row_key (r : LedgerRow) : LedgerKey := (lr_window r, lr_ne r, lr_class r, lr_instance r).
Definition alarm_of (k : LedgerKey) : Z * Z * string := (k_device k, k_class k, k_instance k).

Definition is_active (al : AlarmTable) (ak : Z * Z * string) : Prop := ∃ a, al !! ak = Some a ∧ a_active a = true.

Record surfaced_from (rs : list LedgerRow) (now : float) (b b' : Books) : Prop := {
  sf_memory : memory b' = memory b;
  sf_rows : ∀ k, rows b' !! k =
    if bool_decide (k ∈ map row_key rs)
    then (fun r => MkKept (t_raised r) (t_cleared r) (Some now)) <$> rows b !! k else rows b !! k;
  sf_active : ∀ r, r ∈ rs → is_active (alarms b') (alarm_key r);
  sf_kept : ∀ ak a, alarms b !! ak = Some a → a_active a = true → alarms b' !! ak = Some a;
  sf_new : ∀ ak a, alarms b' !! ak = Some a → alarms b !! ak = Some a ∨
    ∃ r, r ∈ rs ∧ ak = alarm_key r ∧ a_window a = Some (lr_window r) }.

Lemma surface_entry_cases r now next al :
  ∃ next' al', (surface_ledger_entry r now next al).2 = (next', al') ∧ is_active al' (alarm_key r) ∧
    (∀ ak a, al !! ak = Some a → a_active a = true → al' !! ak = Some a) ∧
    (∀ ak a, al' !! ak = Some a → al !! ak = Some a ∨ (ak = alarm_key r ∧ a_window a = Some (lr_window r))).
Proof.
  unfold surface_ledger_entry. destruct (al !! alarm_key r) as [a|] eqn:E; [destruct (a_active a) eqn:Ea|];
    eexists _, _; (split; [reflexivity|]).
  - split; [by exists a|]. split; [done | by left].
  - split; [eexists; by rewrite lookup_insert_eq|]. split.
    + intros ak a' Hak Ha. rewrite lookup_insert_ne; [done | congruence].
    + intros ak a' [[<- <-]|[? ?]]%lookup_insert_Some; [by right | by left].
  - split; [eexists; by rewrite lookup_insert_eq|]. split.
    + intros ak a' Hak Ha. rewrite lookup_insert_ne; [done | congruence].
    + intros ak a' [[<- <-]|[? ?]]%lookup_insert_Some; [by right | by left].
Qed.

Lemma surface_one_spec now filed b r :
  surfaced_from [r] now b (surface_one now (filed, b) r).2.
Proof.
  unfold surface_one. destruct (surface_entry_cases r now (next_alarm b) (alarms b)) as (n & al & Heq & Ha & Hk & Hn).
  destruct (surface_ledger_entry r now (next_alarm b) (alarms b)) as [id [n' al']]. simpl in Heq. injection Heq as -> ->.
  split; simpl; try done.
  - intros k. unfold mark_ledger_surfaced. fold (row_key r). case_bool_decide as Hin.
    + apply list_elem_of_singleton in Hin as ->. by rewrite lookup_alter_eq.
    + rewrite lookup_alter_ne; [done | set_solver].
  - by intros r' ->%list_elem_of_singleton.
  - intros ak a [?|[? ?]]%Hn; [by left | right; exists r; set_solver].
Qed.

Lemma surface_entries_spec rs now filed b :
  surfaced_from rs now b (foldl (surface_one now) (filed, b) rs).2.
Proof.
  revert filed b. induction rs as [|r rs IH]; intros filed b.
  - split; simpl; try done; [by intros ? ?%elem_of_nil | by left].
  - cbn [foldl]. pose proof (surface_one_spec now filed b r) as [S1 S2 S3 S4 S5].
    destruct (surface_one now (filed, b) r) as [filed' b1]. cbn [snd] in *.
    destruct (IH filed' b1) as [T1 T2 T3 T4 T5]. split.
    + congruence.
    + intros k. rewrite T2, S2. cbn [map].
      destruct (decide (k = row_key r)) as [->|Hk].
      * rewrite (bool_decide_true (row_key r ∈ [row_key r])) by set_solver.
        rewrite (bool_decide_true (row_key r ∈ row_key r :: _)) by set_solver.
        destruct (bool_decide _); [|done]. by destruct (rows b !! row_key r).
      * rewrite (bool_decide_false (k ∈ [row_key r])) by set_solver.
        by rewrite (bool_decide_ext (k ∈ row_key r :: map row_key rs) (k ∈ map row_key rs)) by set_solver.
    + intros r' [->|Hr]%elem_of_cons; [|by apply T3]. destruct (S3 r) as (a & Ha & Hact); [by left|].
      exists a. split; [by apply T4 | done].
    + intros ak a Ha Hact. apply T4; [by apply S4 | done].
    + intros ak a [Ha|(r' & Hr & ? & ?)]%T5.
      * destruct (S5 _ _ Ha) as [?|(r' & Hr & ? & ?)]; [by left | right; exists r'; set_solver].
      * right. exists r'. set_solver.
Qed.

Lemma unresolved_ledger_elem wid t r :
  r ∈ unresolved_ledger wid t ↔
  ∃ k v, t !! k = Some v ∧ open_row wid (k, v) = true ∧
    r = MkRow wid (k_device k) (k_device k) (k_class k) (k_instance k) (t_raised v) (t_cleared v) (t_surfaced v).
Proof.
  unfold unresolved_ledger. rewrite list_elem_of_fmap. setoid_rewrite elem_of_sort_by.
  setoid_rewrite list_elem_of_In. setoid_rewrite filter_In. setoid_rewrite <- list_elem_of_In.
  split.
  - intros ([k v] & -> & [Hkv%elem_of_map_to_list Ho]). exists k, v. done.
  - intros (k & v & Hkv & Ho & ->). exists (k, v). split; [done|]. split; [by apply elem_of_map_to_list | done].
Qed.

Lemma open_row_spec wid k v :
  open_row wid (k, v) = true ↔ k_window k = wid ∧ r_shows (Some v) = true ∧ t_surfaced v = None.
Proof. unfold open_row, r_shows. simpl. rewrite !andb_true_iff, Z.eqb_eq, !bool_decide_eq_true. naive_solver. Qed.

Lemma unresolved_keys wid t k :
  k ∈ map row_key (unresolved_ledger wid t) ↔ ∃ v, t !! k = Some v ∧ open_row wid (k, v) = true.
Proof.
  rewrite list_elem_of_fmap. setoid_rewrite unresolved_ledger_elem. split.
  - intros (r & -> & k' & v & Hk & Ho & ->). exists v. unfold row_key. simpl.
    assert ((wid, k_device k', k_class k', k_instance k') = k') as ->; [|done].
    apply open_row_spec in Ho as [<- _]. by destruct k' as [[[? ?] ?] ?].
  - intros (v & Hk & Ho). eexists. split; [|by exists k, v]. unfold row_key. simpl.
    apply open_row_spec in Ho as [<- _]. by destruct k as [[[? ?] ?] ?].
Qed.

Lemma r_shows_mark r s : r_shows ((fun v => MkKept (t_raised v) (t_cleared v) s) <$> r) = r_shows r.
Proof. by destruct r. Qed.

Lemma end_one_rows now b wid k :
  rows (end_one now b wid) !! k =
  match rows b !! k with
  | Some v => if open_row wid (k, v) then Some (MkKept (t_raised v) (t_cleared v) (Some now)) else Some v
  | None => None
  end.
Proof.
  unfold end_one, surface_window, surface_entries. simpl.
  destruct (surface_entries_spec (unresolved_ledger wid (rows b)) now [] b) as [_ -> _ _ _].
  case_bool_decide as Hin; destruct (rows b !! k) as [v|] eqn:E; try done.
  - apply unresolved_keys in Hin as (v' & Hv & Ho). simplify_eq. by rewrite Ho.
  - destruct (open_row wid (k, v)) eqn:Ho; [|done]. destruct Hin. apply unresolved_keys. eauto.
Qed.

Lemma end_one_memory now b wid : memory (end_one now b wid) = forget_window wid (memory b).
Proof.
  unfold end_one, surface_window, surface_entries. simpl. f_equal. apply surface_entries_spec.
Qed.

Lemma end_one_ok over opened b now wid :
  books_ok over opened opened b →
  books_ok ({[wid]} ∪ over) (filter (fun k => k_window k ≠ wid) opened) (filter (fun k => k_window k ≠ wid) opened)
    (end_one now b wid).
Proof.
  intros [H1 H2 H3 H4 H5 H6 H7].
  assert (∀ k, k_window k ≠ wid → rows (end_one now b wid) !! k = rows b !! k) as Hr.
  { intros k Hk. rewrite end_one_rows. destruct (rows b !! k) as [v|]; [|done].
    destruct (open_row wid (k, v)) eqn:Ho; [|done]. by apply open_row_spec in Ho as [? _]. }
  assert (∀ k, k_window k ≠ wid → entries (memory (end_one now b wid)) !! k = entries (memory b) !! k) as He.
  { intros k Hk. rewrite end_one_memory. simpl. destruct (entries (memory b) !! k) as [e|] eqn:E.
    - by apply map_lookup_filter_Some.
    - by apply map_lookup_filter_None; left. }
  assert (∀ k e, entries (memory (end_one now b wid)) !! k = Some e → k_window k ≠ wid ∧ entries (memory b) !! k = Some e) as He'.
  { intros k e. rewrite end_one_memory. simpl. by intros [? ?]%map_lookup_filter_Some. }
  split.
  - intros k. rewrite elem_of_filter, H1, not_elem_of_union, not_elem_of_singleton. unfold shows.
    destruct (decide (k_window k = wid)); [naive_solver|]. rewrite He, Hr by done. naive_solver.
  - intros k. rewrite elem_of_filter, H2, not_elem_of_union, not_elem_of_singleton.
    destruct (decide (k_window k = wid)); [naive_solver|]. rewrite Hr by done. naive_solver.
  - intros k e [Hk Hke]%He'. destruct (H3 _ _ Hke) as (? & ? & ? & ?). split_and!; try done. set_solver.
  - intros k. rewrite end_one_memory. simpl. intros [Hd Hn]%elem_of_difference. destruct (H4 _ Hd) as [e Hke].
    exists e. apply map_lookup_filter_Some. split; [done|]. intros Hk. apply Hn, elem_of_filter.
    split; [done | by apply elem_of_dom].
  - intros k e [Hk Hke]%He' Hd. unfold agrees. rewrite Hr by done. apply H5; [done|].
    rewrite end_one_memory in Hd. simpl in Hd. intros ?. apply Hd, elem_of_difference. split; [done|].
    by intros [? _]%elem_of_filter.
  - intros k v Hv [Hk Ho]%not_elem_of_union. rewrite Hr in Hv by set_solver. by apply (H6 k).
  - intros k v Hv Hk. rewrite end_one_rows in Hv. destruct (rows b !! k) as [v0|] eqn:E; [|done].
    destruct (decide (k_window k = wid)) as [Hw|Hw].
    + subst wid. destruct (open_row (k_window k) (k, v0)) eqn:Ho; simplify_eq; [|done].
      apply not_true_iff_false. by intros (_ & _ & ?)%open_row_spec.
    + destruct (open_row wid (k, v0)) eqn:Ho; [by apply open_row_spec in Ho as [? _]|]. injection Hv as <-.
      apply (H7 _ _ E). clear -Hk Hw. set_solver.
Qed.

Record end_of (ended : list Z) (opened : gset LedgerKey) (b b' : Books) : Prop := {
  eo_active : ∀ k, k ∈ opened → k_window k ∈ ended → is_active (alarms b') (alarm_of k);
  eo_kept : ∀ ak a, alarms b !! ak = Some a → a_active a = true → alarms b' !! ak = Some a;
  eo_new : ∀ ak a, alarms b' !! ak = Some a → alarms b !! ak = Some a ∨
    ∃ k, k ∈ opened ∧ k_window k ∈ ended ∧ ak = alarm_of k ∧ a_window a = Some (k_window k) }.

Lemma end_one_alarms over opened b now wid :
  books_ok over opened opened b → end_of [wid] opened b (end_one now b wid).
Proof.
  intros [H1 H2 H3 H4 H5 H6 H7]. unfold end_one, surface_window, surface_entries.
  destruct (surface_entries_spec (unresolved_ledger wid (rows b)) now [] b) as [_ _ S3 S4 S5].
  split; simpl.
  - intros k Hk Hw%list_elem_of_singleton. apply H2 in Hk as [Ho Hs]. destruct (rows b !! k) as [v|] eqn:E; [|done].
    apply (S3 (MkRow wid (k_device k) (k_device k) (k_class k) (k_instance k) (t_raised v) (t_cleared v) (t_surfaced v))).
    apply unresolved_ledger_elem. exists k, v. split; [done|]. split; [|done]. apply open_row_spec.
    split; [done|]. split; [done|]. by apply (H6 k).
  - exact S4.
  - intros ak a [?|(r & Hr & -> & Hw)]%S5; [by left|]. right.
    apply unresolved_ledger_elem in Hr as (k & v & Hk & Ho & ->). apply open_row_spec in Ho as (Hkw & Hs & Hu).
    exists k. split; [|split; [set_solver | split; [done|]]]; [|simpl in Hw; congruence].
    apply H2. rewrite Hk. split; [|done]. intros Hin. specialize (H7 _ _ Hk Hin).
    by rewrite (proj2 (open_row_spec _ _ _)) in H7.
Qed.

Lemma end_all_ok ended over opened b now :
  books_ok over opened opened b →
  books_ok (list_to_set ended ∪ over) (filter (fun k => k_window k ∉ ended) opened)
    (filter (fun k => k_window k ∉ ended) opened) (foldl (end_one now) b ended) ∧
  end_of ended opened b (foldl (end_one now) b ended).
Proof.
  revert over opened b. induction ended as [|wid ended IH]; intros over opened b Hok.
  - cbn [foldl]. split.
    + assert (filter (λ k, k_window k ∉ []) opened = opened) as ->.
      { apply set_eq. intros k. rewrite elem_of_filter. set_solver. }
      assert (list_to_set [] ∪ over = over) as -> by set_solver. done.
    + split; [set_solver | done | by left].
  - cbn [foldl]. pose proof (end_one_ok _ _ _ now wid Hok) as Hok1.
    destruct (end_one_alarms _ _ _ now wid Hok) as [A1 A2 A3].
    destruct (IH _ _ _ Hok1) as [Hok2 [B1 B2 B3]]. split.
    + assert (filter (λ k, k_window k ∉ wid :: ended) opened =
              filter (λ k, k_window k ∉ ended) (filter (λ k, k_window k ≠ wid) opened)) as ->.
      { apply set_eq. intros k. rewrite !elem_of_filter, not_elem_of_cons. naive_solver. }
      simpl. assert ({[wid]} ∪ list_to_set ended ∪ over = list_to_set ended ∪ ({[wid]} ∪ over)) as -> by set_solver.
      exact Hok2.
    + split.
      * intros k Hk Hw. destruct (decide (k_window k = wid)) as [Hkw|Hkw].
        -- destruct (A1 k Hk) as (a & Ha & Hact); [set_solver|]. exists a. split; [by apply B2 | done].
        -- apply B1; [by apply elem_of_filter | set_solver].
      * intros ak a Ha Hact. apply B2; [by apply A2 | done].
      * intros ak a [[?|(k & ? & ? & ? & ?)]%A3|(k & Hk & ? & ? & ?)]%B3; [by left | right; exists k; set_solver |].
        right. exists k. apply elem_of_filter in Hk. set_solver.
Qed.

Lemma sweep_flushed ended now b : sweep ended now b = foldl (end_one now) (flushed b) ended.
Proof. done. Qed.

Lemma life_ok over opened saved b : life over opened saved b → books_ok over opened saved b.
Proof.
  induction 1 as [next al|over opened saved b d ne c inst ts vbs clears states windows H IH Hov
    |over opened saved b now ended H IH|over opened saved b H IH|over opened saved b next al H IH].
  - split; simpl; try done; try set_solver.
  - rewrite observe_suppressed_said. destruct (said d ne c inst vbs clears states windows) as [[k r]|] eqn:Hs.
    + assert (k_window k ∉ over) as Hk.
      { unfold said in Hs. destruct (d_window d) as [wid|] eqn:Hd; [|done]. simpl in Hs. destruct (negb _); [done|].
        destruct (clear_to_raise clears !! c); simplify_eq; by apply Hov. }
      pose proof (heard_ok _ _ _ _ k r ts IH Hk). by destruct r.
    + by destruct b.
  - rewrite sweep_flushed. apply end_all_ok. by apply (flushed_ok _ _ saved).
  - destruct IH as [H1 H2 H3 H4 H5 H6 H7]. split; simpl; try done; try set_solver.
  - destruct IH. by split.
Qed.

(** C7: through any history of suppressed traps, sweeps and restarts, a fault last raised under a window
    whose ledger is on and that this sweep ends, and not cleared since, has an active alarm after the
    sweep; no alarm appears or changes that is not such a fault's, whose window it names; and of an ended
    window nothing is left to surface, in the table or in memory. A window created with
    [ledger_enabled=false] records nothing, so its faults are in no set here and are not promised ([said]).
    The histories are those where no trap is suppressed by a window a sweep has already ended: the sweep
    swaps in a snapshot without it under the same lock. A restart loses what was heard since the last
    sweep: [life_restart] gives the set back as it was saved. Not in the histories: the "end now" of the
    API and a pass that is rolled back, which lose what was not flushed (the Examples below). *)
Theorem faults_outlive_their_window over opened saved b ended now (H : life over opened saved b) :
  let b' := sweep ended now b in
  (∀ k, k ∈ opened → k_window k ∈ ended → is_active (alarms b') (alarm_of k)) ∧
  (∀ ak a, alarms b !! ak = Some a → a_active a = true → alarms b' !! ak = Some a) ∧
  (∀ ak a, alarms b' !! ak = Some a → alarms b !! ak = Some a ∨
     ∃ k, k ∈ opened ∧ k_window k ∈ ended ∧ ak = alarm_of k ∧ a_window a = Some (k_window k)) ∧
  (∀ wid, wid ∈ ended → unresolved_ledger wid (rows b') = [] ∧
     ∀ k, is_Some (entries (memory b') !! k) → k_window k ≠ wid).
Proof.
  simpl. rewrite sweep_flushed. apply life_ok, flushed_ok in H.
  destruct (end_all_ok ended _ _ _ now H) as [Hok [Ha Hk Hn]]. split; [done|]. split; [done|]. split; [done|].
  intros wid Hw. split.
  - destruct (unresolved_ledger wid _) as [|r rs] eqn:E; [done|].
    assert (r ∈ r :: rs) as Hr by left. rewrite <- E in Hr.
    apply unresolved_ledger_elem in Hr as (k & v & Hkv & Ho & _). pose proof Ho as [Hkw _]%open_row_spec.
    apply (bo_over _ _ _ _ Hok) in Hkv; [|set_solver]. by rewrite Hkw, Ho in Hkv.
  - intros k [e He] Hkw. destruct (bo_entry _ _ _ _ Hok _ _ He) as (_ & _ & Ho & _). set_solver.
Qed.

(** ** Concrete histories *)

(** Element 7 raises class 3 under window 1 at instant [ts]. *)
Definition raised_once (ts : float) : Books :=
  set_memory (observe_suppressed (MkDecision false (Some 1)) 7 7 3 "eth0" ts [] new_learner new_state_learner EMPTY new_ledger)
    (MkBooks new_ledger ∅ 1 ∅).

Lemma faults_outlive_their_window_witness :
  life ∅ {[(1, 7, 3, "eth0"%string)]} ∅ (raised_once (f_of_Z 10)) ∧
  is_active (alarms (sweep [1] (f_of_Z 20) (raised_once (f_of_Z 10)))) (7, 3, "eth0"%string).
Proof.
  assert (life ∅ {[(1, 7, 3, "eth0"%string)]} ∅ (raised_once (f_of_Z 10))) as H.
  { rewrite <- (right_id_L ∅ (∪) {[(1, 7, 3, "eth0"%string)]}).
    apply (life_trap ∅ ∅ ∅ (MkBooks new_ledger ∅ 1 ∅) (MkDecision false (Some 1)) 7 3 "eth0" (f_of_Z 10) []
      new_learner new_state_learner EMPTY); [apply life_start | set_solver]. }
  split; [exact H|].
  apply (proj1 (faults_outlive_their_window ∅ {[(1, 7, 3, "eth0"%string)]} ∅ (raised_once (f_of_Z 10)) [1] (f_of_Z 20) H)
    (1, 7, 3, "eth0"%string)); [by apply elem_of_singleton | by left].
Defined.

(** "End now" reads the table without the flush the sweep begins with: what was raised since the
    last sweep is forgotten, and no later sweep brings it back. *)
Example end_now_loses_what_was_not_flushed :
  let '(n, b) := surface_window_now 1 (f_of_Z 20) (raised_once (f_of_Z 10)) in
  (n, map_to_list (alarms (sweep [1] (f_of_Z 25) b)), map_to_list (rows (sweep [1] (f_of_Z 25) b))) = (0, [], []).
Proof. vm_compute. reflexivity. Qed.

(** A pass rolled back after [take_dirty]: the rows and the alarms are as before it, the marks in
    memory are gone, and the next pass does not write the entry. *)
Example a_rolled_back_pass_loses_the_marks :
  let b := raised_once (f_of_Z 10) in
  let rolled_back := set_memory (memory (sweep [] (f_of_Z 20) b)) b in
  (map_to_list (rows (sweep [1] (f_of_Z 25) rolled_back)), map_to_list (alarms (sweep [1] (f_of_Z 25) rolled_back))) = ([], []).
Proof. vm_compute. reflexivity. Qed.

(** A sweep that ends the window surfaces the fault, and ending it again changes nothing. *)
Example surfaced_once :
  let b := sweep [1] (f_of_Z 20) (raised_once (f_of_Z 10)) in
  (map_to_list (alarms b), map_to_list (alarms (sweep [1] (f_of_Z 25) b))) =
  ([((7, 3, "eth0"%string), MkAlarm 1 true (f_of_Z 10) (f_of_Z 20) None (Some 1) (Some (f_of_Z 20)))],
   [((7, 3, "eth0"%string), MkAlarm 1 true (f_of_Z 10) (f_of_Z 20) None (Some 1) (Some (f_of_Z 20)))]).
Proof. vm_compute. reflexivity. Qed.
