(* ===== verification/Grouping.v ===== *)
(** * Which situation an arriving alarm belongs to ([engine/correlate/grouping.py])

    The accumulators of [cross] are Python lists that two situations share, so they live in a
    store of cells and [cross] holds the cells' names: an addition through one situation is seen
    through the other. Dictionaries are finite maps; no loop of the source depends on their order,
    since each iteration touches the entry of its own key. *)
From S2P Require Import Prelude.

Inductive grouping_mode := MODE_COMPONENTS | MODE_CLUSTER.
#[global] Instance grouping_mode_eq_dec : EqDecision grouping_mode.
Proof. solve_decision. Defined.

Record Scored := MkScored { alarm_id : Z; evidence : float; linked : bool }.

Record GroupingParams := Params { join_bias : float; merge_bias : float; merge_min_pairs : Z }.
Definition default_params : GroupingParams := Params f_zero f_one 3.

Definition params_as_dict (p : GroupingParams) : list (string * float) :=
  [("join_bias", join_bias p); ("merge_bias", merge_bias p);
   ("merge_min_pairs", f_of_Z (merge_min_pairs p))].

Record Placement := Place {
  join : option Z; merge : list Z; support : list (Z * float * Z) }.

(** An accumulator: the sum of evidence and the number of pairs, both floats. *)
Abbreviation acc := (float * float)%type.

Record Grouper := MkGrouper {
  mode : grouping_mode;
  params : GroupingParams;
  cross : gmap Z (gmap Z nat);
  cells : gmap nat acc;
  next_cell : nat }.

Definition acc0 : acc := (f_zero, f_zero).
Definition acc_add (a b : acc) : acc := (fadd a.1 b.1, fadd a.2 b.2).

(** ** The decision *)

Definition support_step (sit_of : gmap Z Z) (sup : gmap Z acc) (p : Scored) : gmap Z acc :=
  match sit_of !! alarm_id p with
  | None => sup
  | Some sid => <[sid := acc_add (default acc0 (sup !! sid)) (evidence p, f_one)]> sup
  end.

Definition row_of (r : Z * acc) : Z * float * Z :=
  (r.1, fdiv r.2.1 r.2.2, f_trunc r.2.2).

(** The order of [(-mean, -pairs, sid)]. *)
Definition rank_leb (a b : Z * float * Z) : bool :=
  let ma := fopp a.1.2 in let mb := fopp b.1.2 in
  if feqb ma mb then
    if a.2 =? b.2 then a.1.1 <=? b.1.1 else - a.2 <? - b.2
  else fltb ma mb.

Definition ranked (scored : list Scored) (sit_of : gmap Z Z) : list (Z * float * Z) :=
  sort_by rank_leb (map row_of (map_to_list (foldl (support_step sit_of) ∅ scored))).

Definition held_of (gr : Grouper) (sid other : Z) : option nat :=
  d ← cross gr !! sid; d !! other.

(** [prior.get(sid, [0.0, 0.0])] read through its cell. *)
Definition held_value (gr : Grouper) (sid other : Z) : acc :=
  default acc0 (c ← held_of gr sid other; cells gr !! c).

Definition wants_merge (gr : Grouper) (sup : gmap Z acc) (j sid : Z) : bool :=
  negb (sid =? j) &&
  let t := acc_add (held_value gr j sid) (default acc0 (sup !! sid)) in
  fleb (f_of_Z (merge_min_pairs (params gr))) t.2 &&
  fltb (merge_bias (params gr)) (fdiv t.1 t.2).

Definition linked_situations (scored : list Scored) (sit_of : gmap Z Z) : gset Z :=
  list_to_set (omap (fun p => if linked p then sit_of !! alarm_id p else None) scored).

Definition components (scored : list Scored) (sit_of : gmap Z Z) (own : option Z) : Placement :=
  let sids := linked_situations scored sit_of in
  let sids := match own with Some s => {[s]} ∪ sids | None => sids end in
  match sort_by Z.leb (elements sids) with
  | [] => Place None [] []
  | j :: rest => Place (Some j) rest []
  end.

Definition place (gr : Grouper) (scored : list Scored) (sit_of : gmap Z Z) (own : option Z)
  : Placement :=
  match mode gr with
  | MODE_COMPONENTS => components scored sit_of own
  | MODE_CLUSTER =>
      let sup := foldl (support_step sit_of) ∅ scored in
      let rk := ranked scored sit_of in
      let j := match own with
               | Some s => Some s
               | None => match rk with
                         | best :: _ => if fltb (join_bias (params gr)) best.1.2
                                        then Some best.1.1 else None
                         | [] => None
                         end
               end in
      let merges := match j with
                    | Some j => filter (fun sid => wants_merge gr sup j sid = true)
                                  (map (fun r => r.1.1) rk)
                    | None => []
                    end in
      Place j (sort_by Z.leb merges) rk
  end.

(** ** The bookkeeping *)

Definition set_cross (gr : Grouper) (c : gmap Z (gmap Z nat)) : Grouper :=
  MkGrouper (mode gr) (params gr) c (cells gr) (next_cell gr).

(** [self.cross.setdefault(sid, {})]. *)
Definition ensure_row (gr : Grouper) (sid : Z) : Grouper :=
  set_cross gr (<[sid := default ∅ (cross gr !! sid)]> (cross gr)).

(** [self.cross.setdefault(sid, {})[other] = acc]. *)
Definition point (gr : Grouper) (sid other : Z) (c : nat) : Grouper :=
  set_cross gr (<[sid := <[other := c]> (default ∅ (cross gr !! sid))]> (cross gr)).

(** [back = self.cross.get(sid); if back is not None: back.pop(other, None)]. *)
Definition unpoint (gr : Grouper) (sid other : Z) : Grouper :=
  set_cross gr (alter (delete other) sid (cross gr)).

Definition add_to_cell (gr : Grouper) (c : nat) (a : acc) : Grouper :=
  MkGrouper (mode gr) (params gr) (cross gr)
    (<[c := acc_add (default acc0 (cells gr !! c)) a]> (cells gr)) (next_cell gr).

Definition alloc (gr : Grouper) : nat * Grouper :=
  (next_cell gr,
   MkGrouper (mode gr) (params gr) (cross gr) (<[next_cell gr := acc0]> (cells gr))
     (S (next_cell gr))).

(** One entry [(other, acc)] of the row taken from [src]. *)
Definition fold_entry (dst src : Z) (gr : Grouper) (entry : Z * nat) : Grouper :=
  let '(other, c) := entry in
  let gr := unpoint gr other src in
  if other =? dst then gr
  else match held_of gr dst other with
  | None => point (point gr dst other c) other dst c
  | Some h => add_to_cell gr h (default acc0 (cells gr !! c))
  end.

Definition fold_into (gr : Grouper) (dst src : Z) : Grouper :=
  let moved := default ∅ (cross gr !! src) in
  let gr := set_cross gr (delete src (cross gr)) in
  let gr := ensure_row gr dst in
  let gr := foldl (fold_entry dst src) gr (map_to_list moved) in
  unpoint gr dst src.

Definition commit_pair (sid : Z) (sit_of : gmap Z Z) (gr : Grouper) (p : Scored) : Grouper :=
  match sit_of !! alarm_id p with
  | None => gr
  | Some other =>
      if other =? sid then gr
      else
        let '(c, gr) := match held_of gr sid other with
                        | Some c => (c, gr)
                        | None => let '(c, gr) := alloc gr in (c, point gr sid other c)
                        end in
        point (add_to_cell gr c (evidence p, f_one)) other sid c
  end.

Definition commit (gr : Grouper) (sid : Z) (placement : Placement) (scored : list Scored)
    (sit_of : gmap Z Z) : Grouper :=
  match mode gr with
  | MODE_COMPONENTS => gr
  | MODE_CLUSTER =>
      let gr := foldl (fun gr gone => fold_into gr sid gone) gr (merge placement) in
      let gr := ensure_row gr sid in
      foldl (commit_pair sid sit_of) gr scored
  end.

Definition merged (gr : Grouper) (dst src : Z) : Grouper := fold_into gr dst src.

Definition forget (gr : Grouper) (sid : Z) : Grouper :=
  let row := default ∅ (cross gr !! sid) in
  let gr := set_cross gr (delete sid (cross gr)) in
  foldl (fun gr other => unpoint gr other sid) gr (elements (dom row)).

Definition prune (gr : Grouper) (live : gset Z) : Grouper :=
  foldl forget gr (elements (dom (cross gr) ∖ live)).

(** ** The shape of [cross]: symmetric by identity *)

Record cross_ok (gr : Grouper) : Prop := {
  co_sym : ∀ a b c, held_of gr a b = Some c → held_of gr b a = Some c;
  co_irrefl : ∀ a, held_of gr a a = None;
  co_uniq : ∀ a b a' b' c, held_of gr a b = Some c → held_of gr a' b' = Some c →
            (a = a' ∧ b = b') ∨ (a = b' ∧ b = a');
  co_cells : ∀ a b c, held_of gr a b = Some c → (c < next_cell gr)%nat ∧ is_Some (cells gr !! c) }.

Lemma held_point gr s o c a b :
  held_of (point gr s o c) a b =
  if bool_decide (a = s ∧ b = o) then Some c else held_of gr a b.
Proof.
  unfold held_of, point. simpl. destruct (decide (a = s)) as [->|].
  - rewrite lookup_insert_eq. simpl. destruct (decide (b = o)) as [->|].
    + by rewrite lookup_insert_eq, bool_decide_true.
    + rewrite lookup_insert_ne, bool_decide_false by naive_solver.
      by destruct (cross gr !! s).
  - by rewrite lookup_insert_ne, bool_decide_false by naive_solver.
Qed.

Lemma held_unpoint gr s o a b :
  held_of (unpoint gr s o) a b =
  if bool_decide (a = s ∧ b = o) then None else held_of gr a b.
Proof.
  unfold held_of, unpoint. simpl. destruct (decide (a = s)) as [->|].
  - rewrite lookup_alter_eq. destruct (cross gr !! s) as [m|]; simpl.
    + destruct (decide (b = o)) as [->|].
      * by rewrite lookup_delete_eq, bool_decide_true.
      * by rewrite lookup_delete_ne, bool_decide_false by naive_solver.
    + by case_bool_decide.
  - by rewrite lookup_alter_ne, bool_decide_false by naive_solver.
Qed.

Lemma held_ensure gr s a b : held_of (ensure_row gr s) a b = held_of gr a b.
Proof.
  unfold held_of, ensure_row. simpl. destruct (decide (a = s)) as [->|].
  - rewrite lookup_insert_eq. by destruct (cross gr !! s).
  - by rewrite lookup_insert_ne.
Qed.

Lemma held_delete gr s a b :
  held_of (set_cross gr (delete s (cross gr))) a b =
  if bool_decide (a = s) then None else held_of gr a b.
Proof.
  unfold held_of. simpl. case_bool_decide as Ha.
  - subst. by rewrite lookup_delete_eq.
  - by rewrite lookup_delete_ne.
Qed.

Section folding.
Context (gr : Grouper) (dst src : Z).

(** The accumulator between [a] and [b] once the entries [done] of [src]'s row have moved. *)
Definition mid_held (done : list Z) (a b : Z) : option nat :=
  if bool_decide (a = src) then None
  else if bool_decide (b = src) then if bool_decide (a ∈ done) then None else held_of gr a src
  else if bool_decide (a = dst ∧ b ∈ done ∧ b ≠ dst) then
    match held_of gr dst b with Some h => Some h | None => held_of gr src b end
  else if bool_decide (b = dst ∧ a ∈ done ∧ a ≠ dst) then
    match held_of gr dst a with Some h => Some h | None => held_of gr src a end
  else held_of gr a b.

(** [h] has received the cell [c] of one of the entries moved. *)
Definition received (done : list Z) (h c : nat) : Prop :=
  ∃ b, b ∈ done ∧ b ≠ dst ∧ held_of gr dst b = Some h ∧ held_of gr src b = Some c.

Record mid (done : list Z) (g : Grouper) : Prop := {
  mid_of : ∀ a b, held_of g a b = mid_held done a b;
  mid_sum : ∀ h c, received done h c →
            cells g !! h = Some (acc_add (default acc0 (cells gr !! h)) (default acc0 (cells gr !! c)));
  mid_rest : ∀ x, (∀ c, ¬ received done x c) → cells g !! x = cells gr !! x;
  mid_next : next_cell g = next_cell gr }.

Lemma received_snoc done other h c :
  received (done ++ [other]) h c ↔
  received done h c ∨
  (other ≠ dst ∧ held_of gr dst other = Some h ∧ held_of gr src other = Some c).
Proof.
  unfold received. split.
  - intros (b & [?| ->%list_elem_of_singleton]%elem_of_app & ? & ? & ?); eauto 8.
  - intros [(b & ? & ? & ? & ?)|(? & ? & ?)].
    + exists b. rewrite elem_of_app. auto.
    + exists other. rewrite elem_of_app, list_elem_of_singleton. auto.
Qed.

Ltac bool_cases :=
  repeat case_bool_decide;
  repeat match goal with
  | H : context [_ ∈ _ ++ [_]] |- _ => rewrite elem_of_app, list_elem_of_singleton in H
  end;
  destruct_and?; destruct_or?; subst; try done; try congruence; try tauto.

Lemma mid_step done other c g :
  cross_ok gr → dst ≠ src → held_of gr src other = Some c → other ∉ done →
  mid done g → mid (done ++ [other]) (fold_entry dst src g (other, c)).
Proof.
  intros [Hsym Hirr Huniq Hcells] Hne Hsrc Hnd [Hof Hsum Hrest Hnext].
  assert (other ≠ src) as Hos by (intros ->; congruence).
  unfold fold_entry. destruct (Z.eqb_spec other dst) as [->|Hod].
  { split; [|intros h x [?|[]]%received_snoc; [by apply Hsum|done]| |done].
    - intros a b. rewrite held_unpoint, Hof. unfold mid_held.  bool_cases.
    - intros x Hx. apply Hrest. intros x' ?. apply (Hx x'), received_snoc. by left. }
  assert (held_of (unpoint g other src) dst other = held_of gr dst other) as Hheld.
  { rewrite held_unpoint, Hof. unfold mid_held. bool_cases. }
  rewrite Hheld. destruct (held_of gr dst other) as [h|] eqn:Eh.
  - split; simpl; [|..|done].
    + intros a b. change (held_of (add_to_cell _ _ _) a b) with (held_of (unpoint g other src) a b).
      rewrite held_unpoint, Hof. unfold mid_held. 
      bool_cases; rewrite ?Eh; auto; by apply Hsym.
    + assert (∀ x, ¬ received done h x) as Hnh.
      { intros x (b & Hb & Hbd & Hb1 & _). destruct (Huniq _ _ _ _ _ Eh Hb1) as [[_ ->]|[-> _]]; done. }
      assert (∀ x, ¬ received done c x) as Hnc.
      { intros x (b & Hb & Hbd & Hb1 & _). destruct (Huniq _ _ _ _ _ Hsrc Hb1) as [[-> _]|[_ ->]]; done. }
      rewrite (Hrest h), (Hrest c) by done. intros h' c' [Hr|(_ & Hh & Hc)]%received_snoc.
      * rewrite lookup_insert_ne; [by apply Hsum|]. intros <-. by eapply Hnh.
      * assert (h' = h) as -> by congruence. assert (c' = c) as -> by congruence.
        apply lookup_insert_eq.
    + intros x Hx. rewrite lookup_insert_ne.
      * apply Hrest. intros x' ?. apply (Hx x'), received_snoc. by left.
      * intros <-. apply (Hx c), received_snoc. by right.
  - split; [|intros h x [?|(_ & ? & _)]%received_snoc; [by apply Hsum|congruence]| |done].
    + intros a b. rewrite !held_point, held_unpoint, Hof. unfold mid_held. 
      bool_cases; rewrite ?Eh; auto.
    + intros x Hx. apply Hrest. intros x' ?. apply (Hx x'), received_snoc. by left.
Qed.
End folding.

(** Between [a] and [b] after [src] is folded into [dst]. *)
Definition folded (gr : Grouper) (dst src a b : Z) : option nat :=
  if bool_decide (a = src ∨ b = src) then None
  else if bool_decide (a = dst ∧ b ≠ dst) then
    match held_of gr dst b with Some h => Some h | None => held_of gr src b end
  else if bool_decide (b = dst ∧ a ≠ dst) then
    match held_of gr dst a with Some h => Some h | None => held_of gr src a end
  else held_of gr a b.

Lemma held_sym gr a b : cross_ok gr → held_of gr a b = held_of gr b a.
Proof.
  intros Hok. destruct (held_of gr a b) as [c|] eqn:E1.
  - symmetry. by apply (co_sym _ Hok).
  - destruct (held_of gr b a) as [c|] eqn:E2; [|done]. apply (co_sym _ Hok) in E2. congruence.
Qed.

Lemma mid_held_all gr dst src done a b :
  cross_ok gr → dst ≠ src → (∀ b, b ∈ done ↔ is_Some (held_of gr src b)) →
  (if bool_decide (a = dst ∧ b = src) then None else mid_held gr dst src done a b) =
  folded gr dst src a b.
Proof.
  intros Hok Hne Hdone. unfold folded, mid_held.
  assert (∀ x, x ∉ done → held_of gr src x = None) as Hno.
  { intros x Hx. destruct (held_of gr src x) eqn:E; [|done]. destruct Hx. apply Hdone. eauto. }
  destruct (decide (a = src)) as [->|Ha].
  { rewrite (bool_decide_true (src = src ∨ _)), (bool_decide_true (src = src)) by auto.
    by case_bool_decide. }
  destruct (decide (b = src)) as [->|Hb].
  { rewrite (bool_decide_true (a = src ∨ _)), (bool_decide_false (a = src)),
      (bool_decide_true (src = src)) by auto.
    case_bool_decide; [done|]. case_bool_decide; [done|]. rewrite held_sym by done. auto. }
  rewrite (bool_decide_false (a = dst ∧ b = src)), (bool_decide_false (a = src ∨ _)),
    (bool_decide_false (a = src)), (bool_decide_false (b = src)) by tauto.
  destruct (decide (a = dst)) as [->|Had], (decide (b = dst)) as [->|Hbd].
  - by rewrite !bool_decide_false by tauto.
  - rewrite (bool_decide_true (dst = dst ∧ b ≠ dst)) by done.
    destruct (decide (b ∈ done)); [by rewrite bool_decide_true|].
    rewrite !bool_decide_false, Hno by tauto. by destruct (held_of gr dst b).
  - rewrite (bool_decide_false (a = dst ∧ _)), (bool_decide_false (a = dst ∧ _)),
      (bool_decide_true (dst = dst ∧ a ≠ dst)) by tauto.
    destruct (decide (a ∈ done)); [by rewrite bool_decide_true|].
    rewrite bool_decide_false, Hno, (held_sym gr a dst) by tauto. by destruct (held_of gr dst a).
  - by rewrite !bool_decide_false by tauto.
Qed.

Lemma fold_into_spec gr dst src :
  cross_ok gr → dst ≠ src →
  let g := fold_into gr dst src in
  (∀ a b, held_of g a b = folded gr dst src a b) ∧
  (∀ b h c, b ≠ dst → held_of gr dst b = Some h → held_of gr src b = Some c →
     cells g !! h = Some (acc_add (default acc0 (cells gr !! h)) (default acc0 (cells gr !! c)))) ∧
  (∀ x, (∀ b c, b ≠ dst → held_of gr dst b = Some x → held_of gr src b ≠ Some c) →
     cells g !! x = cells gr !! x) ∧
  next_cell g = next_cell gr.
Proof.
  intros Hok Hne. cbv zeta. unfold fold_into.
  set (moved := default ∅ (cross gr !! src)).
  set (g0 := ensure_row (set_cross gr (delete src (cross gr))) dst).
  assert (∀ b, held_of gr src b = moved !! b) as Hmoved.
  { intros b. unfold held_of, moved. by destruct (cross gr !! src). }
  assert (mid gr dst src (map_to_list moved).*1 (foldl (fold_entry dst src) g0 (map_to_list moved)))
    as [Hof Hsum Hrest Hnext].
  { apply (foldl_prefix_ind (λ done g, mid gr dst src done.*1 g)).
    - split; [|by intros h c (b & Hb & _); apply elem_of_nil in Hb|done..].
      intros a b. unfold g0. rewrite held_ensure, held_delete. unfold mid_held.
      repeat case_bool_decide; subst; set_solver.
    - intros done [other c] rest g Heq Hg. rewrite fmap_app. simpl. apply mid_step; try done.
      + rewrite Hmoved. apply elem_of_map_to_list. rewrite Heq. set_solver.
      + pose proof (NoDup_fst_map_to_list moved) as Hnd. rewrite Heq, fmap_app in Hnd.
        apply NoDup_app in Hnd as (_ & Hnd & _). intros Hin. apply (Hnd other Hin). by left. }
  set (g := foldl _ g0 _) in *.
  assert (∀ b, b ∈ (map_to_list moved).*1 ↔ is_Some (held_of gr src b)) as Hdone.
  { intros b. rewrite Hmoved, list_elem_of_fmap. split.
    - intros ([k v] & -> & Hk%elem_of_map_to_list). eauto.
    - intros [c Hc]. exists (b, c). by rewrite elem_of_map_to_list. }
  split_and!.
  - intros a b. rewrite held_unpoint, Hof. by apply mid_held_all.
  - intros b h c Hbd Hh Hc. apply Hsum. exists b. rewrite Hdone, Hc. eauto.
  - intros x Hx. apply Hrest. intros c (b & _ & Hbd & Hb & Hc). by eapply Hx.
  - done.
Qed.

Lemma folded_origin gr dst src a b c :
  cross_ok gr → folded gr dst src a b = Some c →
  a ≠ src ∧ b ≠ src ∧
  (held_of gr a b = Some c ∨
   (a = dst ∧ b ≠ dst ∧ held_of gr src b = Some c) ∨
   (b = dst ∧ a ≠ dst ∧ held_of gr src a = Some c)).
Proof.
  intros Hok. unfold folded. case_bool_decide as H1; [done|].
  case_bool_decide as H2; [destruct H2 as [-> ?]; destruct (held_of gr dst b) eqn:E|].
  - intros [= ->]. tauto.
  - tauto.
  - case_bool_decide as H3; [destruct H3 as [-> ?]; destruct (held_of gr dst a) eqn:E|].
    + intros [= ->]. apply (co_sym _ Hok) in E. tauto.
    + tauto.
    + tauto.
Qed.

Lemma fold_into_cells gr dst src x :
  is_Some (cells gr !! x) → is_Some (cells (fold_into gr dst src) !! x).
Proof.
  unfold fold_into. simpl. generalize (map_to_list (default ∅ (cross gr !! src))).
  set (g0 := ensure_row _ _). change (cells gr !! x) with (cells g0 !! x).
  generalize g0. intros g l. revert g. induction l as [|[o c] l IH]; [done|].
  intros g Hx. cbn [foldl]. apply IH. unfold fold_entry. destruct (o =? dst); [done|].
  destruct (held_of _ dst o) as [h|]; [|done]. simpl.
  rewrite lookup_insert. case_decide; [by eauto|done].
Qed.

Lemma fold_into_ok gr dst src : cross_ok gr → dst ≠ src → cross_ok (fold_into gr dst src).
Proof.
  intros Hok Hne. destruct (fold_into_spec gr dst src Hok Hne) as (Hof & _ & _ & Hnext).
  split.
  - intros a b c. rewrite !Hof. unfold folded. rewrite (held_sym gr b a) by done.
    repeat case_bool_decide; tauto.
  - intros a. rewrite Hof. unfold folded. repeat case_bool_decide; destruct_and?; try done.
    by apply (co_irrefl _ Hok).
  - intros a b a' b' c. rewrite !Hof. intros H1 H2.
    apply folded_origin in H1 as (Ha & Hb & H1); [|done].
    apply folded_origin in H2 as (Ha' & Hb' & H2); [|done].
    destruct H1 as [H1|[(-> & ? & H1)|(-> & ? & H1)]], H2 as [H2|[(-> & ? & H2)|(-> & ? & H2)]];
      destruct (co_uniq _ Hok _ _ _ _ _ H1 H2) as [[??]|[??]]; subst; tauto.
  - intros a b c. rewrite Hof, Hnext. intros (_ & _ & H1)%folded_origin; [|done].
    assert (∃ x y, held_of gr x y = Some c) as (x & y & Hxy) by (destruct_or?; destruct_and?; eauto).
    apply (co_cells _ Hok) in Hxy as [? ?]. split; [done|]. by apply fold_into_cells.
Qed.

(** ** [commit] and [forget] *)

Lemma ensure_row_ok gr s : cross_ok gr → cross_ok (ensure_row gr s).
Proof.
  intros [S I U C]. split; intros *; rewrite !held_ensure; [apply S|apply I|apply U|apply C].
Qed.

(** What one scored pair adds: its situation's accumulator, shared and fresh if there was none. *)
Lemma add_pair_ok gr sid other a :
  cross_ok gr → other ≠ sid →
  let '(c, g) := match held_of gr sid other with
                 | Some c => (c, gr)
                 | None => let '(c, g) := alloc gr in (c, point g sid other c)
                 end in
  let g' := point (add_to_cell g c a) other sid c in
  cross_ok g' ∧
  (∀ x y, held_of g' x y =
     if bool_decide ((x = sid ∧ y = other) ∨ (x = other ∧ y = sid)) then Some c
     else held_of gr x y) ∧
  cells g' !! c = Some (acc_add (held_value gr sid other) a) ∧
  (∀ x y d, held_of gr x y = Some d → ¬ ((x = sid ∧ y = other) ∨ (x = other ∧ y = sid)) →
     cells g' !! d = cells gr !! d).
Proof.
  intros Hok Hne. unfold held_value.
  pose proof (held_sym gr sid other Hok) as Hsym.
  destruct (held_of gr sid other) as [c|] eqn:E; simpl.
  - assert (∀ x y, held_of (point (add_to_cell gr c a) other sid c) x y = held_of gr x y) as Hsame.
    { intros x y. rewrite held_point. change (held_of (add_to_cell gr c a) x y) with (held_of gr x y).
      case_bool_decide as Hxy; [|done]. destruct Hxy as [-> ->]. by rewrite <- Hsym. }
    split_and!.
    + destruct Hok as [S I U C]. split; intros *; rewrite !Hsame; [apply S|apply I|apply U|].
      intros [? ?]%C. split; [done|]. simpl. rewrite lookup_insert. case_decide; eauto.
    + intros x y. rewrite Hsame. case_bool_decide as Hxy; [|done].
      destruct Hxy as [[-> ->]|[-> ->]]; [done|by rewrite <- Hsym].
    + apply lookup_insert_eq.
    + intros x y d Hd Hxy. apply lookup_insert_ne. intros ->.
      destruct (co_uniq _ Hok _ _ _ _ _ E Hd) as [[-> ->]|[-> ->]]; tauto.
  - set (c := next_cell gr).
    assert (∀ x y, held_of (point (add_to_cell (point (alloc gr).2 sid other c) c a) other sid c) x y =
       if bool_decide ((x = sid ∧ y = other) ∨ (x = other ∧ y = sid)) then Some c
       else held_of gr x y) as Hof.
    { intros x y. rewrite held_point.
      change (held_of (add_to_cell (point (alloc gr).2 sid other c) c a) x y)
        with (held_of (point (alloc gr).2 sid other c) x y).
      rewrite held_point. change (held_of (alloc gr).2 x y) with (held_of gr x y).
      repeat case_bool_decide; tauto. }
    assert (∀ x y d, held_of gr x y = Some d → d ≠ c) as Hfresh.
    { intros x y d Hd. apply (co_cells _ Hok) in Hd. unfold c. lia. }
    split_and!.
    + split.
      * intros x y d. rewrite !Hof. repeat case_bool_decide; try tauto. apply (co_sym _ Hok).
      * intros x. rewrite Hof. case_bool_decide as Hx; [destruct Hx as [[??]|[??]]; congruence|].
        apply (co_irrefl _ Hok).
      * intros x y x' y' d. rewrite !Hof. repeat case_bool_decide.
        -- intros _ _. destruct_or?; destruct_and?; subst; tauto.
        -- intros [= <-] ?%Hfresh. done.
        -- intros ?%Hfresh [= <-]. done.
        -- apply (co_uniq _ Hok).
      * intros x y d. rewrite Hof. simpl. case_bool_decide.
        -- intros [= <-]. split; [unfold c; lia|]. rewrite lookup_insert_eq. eauto.
        -- intros [? ?]%(co_cells _ Hok). split; [lia|].
           rewrite !lookup_insert_ne by (fold c; lia). done.
    + exact Hof.
    + simpl. rewrite lookup_insert_eq. f_equal. fold c. by rewrite lookup_insert_eq.
    + intros x y d Hd _. simpl. pose proof (Hfresh _ _ _ Hd) as Hdc.
      by rewrite !lookup_insert_ne by (intros <-; by destruct Hdc).
Qed.

(** The accumulated evidence a run of scored pairs leaves between [sid] and [other]. *)
Definition pair_evidence (sit_of : gmap Z Z) (other : Z) (scored : list Scored) (a : acc) : acc :=
  foldl acc_add a
    (map (fun p => (evidence p, f_one))
       (filter (fun p => sit_of !! alarm_id p = Some other) scored)).

Lemma commit_pair_ok sid sit_of gr p :
  cross_ok gr →
  let g := commit_pair sid sit_of gr p in
  cross_ok g ∧
  (∀ other, other ≠ sid →
     held_value g sid other = pair_evidence sit_of other [p] (held_value gr sid other)) ∧
  (∀ x y, x ≠ sid → y ≠ sid → held_value g x y = held_value gr x y).
Proof.
  intros Hok. unfold commit_pair, pair_evidence.
  destruct (sit_of !! alarm_id p) as [o|] eqn:Ep.
  2: { split; [done|]. split; [|done]. intros other _. simpl.
       by rewrite filter_cons, Ep, decide_False. }
  destruct (Z.eqb_spec o sid) as [->|Hne].
  { split; [done|]. split; [|done]. intros other Hn.
    by rewrite filter_cons, Ep, decide_False by congruence. }
  pose proof (add_pair_ok gr sid o (evidence p, f_one) Hok Hne) as Hadd.
  destruct (match held_of gr sid o with Some c => _ | None => _ end) as [c g].
  destruct Hadd as (H1 & H2 & H3 & H4). cbv zeta. split; [done|].
  assert (∀ x y, ¬ ((x = sid ∧ y = o) ∨ (x = o ∧ y = sid)) →
            held_value (point (add_to_cell g c (evidence p, f_one)) o sid c) x y = held_value gr x y)
    as Hother.
  { intros x y Hxy. unfold held_value. rewrite H2, bool_decide_false by done.
    destruct (held_of gr x y) as [d|] eqn:Ed; [|done].
    exact (f_equal (default acc0) (H4 x y d Ed Hxy)). }
  split.
  - intros other Hos. rewrite filter_cons, Ep. destruct (decide (o = other)) as [->|Hoo].
    + rewrite decide_True by done. simpl. unfold held_value at 1.
      rewrite H2, bool_decide_true by auto. exact (f_equal (default acc0) H3).
    + rewrite decide_False by congruence. simpl. apply Hother. naive_solver.
  - intros x y Hx Hy. apply Hother. tauto.
Qed.

Lemma commit_pairs_ok sid sit_of scored gr :
  cross_ok gr →
  let g := foldl (commit_pair sid sit_of) gr scored in
  cross_ok g ∧
  (∀ other, other ≠ sid →
     held_value g sid other = pair_evidence sit_of other scored (held_value gr sid other)) ∧
  (∀ x y, x ≠ sid → y ≠ sid → held_value g x y = held_value gr x y).
Proof.
  revert gr. induction scored as [|p scored IH]; intros gr Hok; [done|].
  destruct (commit_pair_ok sid sit_of gr p Hok) as (H1 & H2 & H3).
  cbn [foldl]. destruct (IH _ H1) as (I1 & I2 & I3). split_and!; [done| |].
  - intros other Hne. rewrite I2, H2 by done. unfold pair_evidence.
    rewrite !filter_cons. by case_decide.
  - intros x y Hx Hy. by rewrite I3, H3.
Qed.

Lemma folds_ok sid l gr :
  cross_ok gr → sid ∉ l → cross_ok (foldl (fun gr gone => fold_into gr sid gone) gr l).
Proof.
  revert gr. induction l as [|s l IH]; intros gr Hok Hn; [done|]. simpl.
  apply IH; [apply fold_into_ok|]; set_solver.
Qed.

Lemma commit_ok gr sid pl scored sit_of :
  cross_ok gr → sid ∉ merge pl → cross_ok (commit gr sid pl scored sit_of).
Proof.
  intros Hok Hn. unfold commit. destruct (mode gr); [done|].
  apply commit_pairs_ok, ensure_row_ok, folds_ok; done.
Qed.

Lemma forget_spec gr s :
  cross_ok gr →
  (∀ a b, held_of (forget gr s) a b =
          if bool_decide (a = s ∨ b = s) then None else held_of gr a b) ∧
  cells (forget gr s) = cells gr ∧ next_cell (forget gr s) = next_cell gr ∧
  dom (cross (forget gr s)) = dom (cross gr) ∖ {[s]}.
Proof.
  intros Hok. unfold forget.
  set (row := default ∅ (cross gr !! s)). set (g0 := set_cross gr _).
  assert (∀ l g, let g' := foldl (λ g o, unpoint g o s) g l in
    (∀ a b, held_of g' a b = if bool_decide (a ∈ l ∧ b = s) then None else held_of g a b) ∧
    cells g' = cells g ∧ next_cell g' = next_cell g ∧ dom (cross g') = dom (cross g)) as Hfold.
  { induction l as [|o l IH]; intros g; cbn [foldl]; cbv zeta.
    - split_and!; done.
    - destruct (IH (unpoint g o s)) as (I1 & I2 & I3 & I4). split_and!; [|done|done|].
      + intros a b. rewrite I1, held_unpoint.
        repeat case_bool_decide; rewrite !elem_of_cons in *; tauto.
      + rewrite I4. unfold unpoint. simpl. apply dom_alter_L. }
  destruct (Hfold (elements (dom row)) g0) as (F1 & F2 & F3 & F4). split_and!; [|done|done|].
  - intros a b. rewrite F1. unfold g0. rewrite held_delete.
    destruct (decide (a = s)) as [->|Ha].
    { rewrite (bool_decide_true (s = s)), (bool_decide_true (s = s ∨ _)) by auto. by case_bool_decide. }
    rewrite (bool_decide_false (a = s)) by done.
    destruct (decide (b = s)) as [->|Hb];
      [rewrite (bool_decide_true (a = s ∨ _)) by auto
      |by rewrite !bool_decide_false by tauto].
    case_bool_decide as Hin; [done|]. rewrite held_sym by done.
    destruct (held_of gr s a) as [c|] eqn:E; [|done]. exfalso. apply Hin. split; [|done].
    apply elem_of_elements, elem_of_dom. unfold held_of in E. unfold row.
    destruct (cross gr !! s); [|done]. simpl in *. eauto.
  - rewrite F4. unfold g0. simpl. by rewrite dom_delete_L.
Qed.

Lemma forget_ok gr s : cross_ok gr → cross_ok (forget gr s).
Proof.
  intros Hok. destruct (forget_spec gr s Hok) as (Hof & Hc & Hn & _). destruct Hok as [S I U C].
  split.
  - intros a b c. rewrite !Hof. repeat case_bool_decide; try tauto. apply S.
  - intros a. rewrite Hof. case_bool_decide; [done|apply I].
  - intros a b a' b' c. rewrite !Hof. repeat case_bool_decide; try done. apply U.
  - intros a b c. rewrite Hof, Hc, Hn. case_bool_decide; [done|apply C].
Qed.

Lemma prune_spec gr live :
  cross_ok gr →
  cross_ok (prune gr live) ∧ cells (prune gr live) = cells gr ∧
  dom (cross (prune gr live)) = dom (cross gr) ∩ live ∧
  (∀ a b, held_of (prune gr live) a b =
          if bool_decide (a ∈ live ∧ b ∈ live) then held_of gr a b else None).
Proof.
  intros Hok. unfold prune. set (gone := elements (dom (cross gr) ∖ live)).
  assert (∀ l g, cross_ok g → let g' := foldl forget g l in
    cross_ok g' ∧ cells g' = cells g ∧ dom (cross g') = dom (cross g) ∖ list_to_set l ∧
    (∀ a b, held_of g' a b = if bool_decide (a ∈ l ∨ b ∈ l) then None else held_of g a b)) as Hfold.
  { induction l as [|s l IH]; intros g Hg; cbn [foldl]; cbv zeta.
    - split_and!; [done..|set_solver|]. intros a b. rewrite bool_decide_false; [done|]. set_solver.
    - destruct (forget_spec g s Hg) as (F1 & F2 & F3 & F4).
      destruct (IH (forget g s) (forget_ok g s Hg)) as (I1 & I2 & I3 & I4).
      split_and!; [done|congruence|rewrite I3, F4; set_solver|].
      intros a b. rewrite I4, F1. repeat case_bool_decide; rewrite !elem_of_cons in *; tauto. }
  destruct (Hfold gone gr Hok) as (F1 & F2 & F3 & F4). split_and!; [done|done| |].
  - rewrite F3. unfold gone. rewrite list_to_set_elements_L. clear. apply set_eq. intros x.
    rewrite !elem_of_difference, elem_of_intersection. destruct (decide (x ∈ live)); tauto.
  - intros a b. rewrite F4. unfold gone.
    destruct (held_of gr a b) as [c|] eqn:E; [|by repeat case_bool_decide].
    assert (∀ x y, held_of gr x y = Some c → x ∈ dom (cross gr)) as Hdom.
    { intros x y Hxy. apply elem_of_dom. unfold held_of in Hxy.
      destruct (cross gr !! x); [eauto|done]. }
    pose proof (Hdom _ _ E) as Ha. pose proof (Hdom _ _ (co_sym _ Hok _ _ _ E)) as Hb.
    repeat case_bool_decide; try done; exfalso;
      rewrite !elem_of_elements, !elem_of_difference in *; tauto.
Qed.

(** ** The claims *)

Inductive gstep : Grouper → Grouper → Prop :=
| g_commit gr sid pl scored sit_of :
    sid ∉ merge pl → gstep gr (commit gr sid pl scored sit_of)
| g_merged gr dst src : dst ≠ src → gstep gr (merged gr dst src)
| g_forget gr sid : gstep gr (forget gr sid)
| g_prune gr live : gstep gr (prune gr live).

Definition new_grouper (m : grouping_mode) (p : GroupingParams) : Grouper := MkGrouper m p ∅ ∅ 0.

Lemma gsteps_ok g0 gr : cross_ok g0 → rtc gstep g0 gr → cross_ok gr.
Proof.
  intros H0 Hs. induction Hs as [|g g1 g2 Hs _ IH]; [done|]. apply IH.
  destruct Hs; [by apply commit_ok|by apply fold_into_ok|by apply forget_ok|by apply prune_spec].
Qed.

(** The cross evidence stays symmetric by identity. After any sequence of commits, operator
    merges, forgets and prunes, two situations name one shared accumulator, no situation has one
    with itself, and no accumulator serves two pairs; and [prune] leaves rows and evidence about
    the live situations only, unchanged. *)
Theorem cross_symmetric_and_bounded m p gr live :
  rtc gstep (new_grouper m p) gr →
  cross_ok gr ∧ dom (cross (prune gr live)) ⊆ live ∧
  ∀ a b, held_value (prune gr live) a b =
         if bool_decide (a ∈ live ∧ b ∈ live) then held_value gr a b else acc0.
Proof.
  intros Hs. assert (cross_ok gr) as Hok.
  { eapply gsteps_ok; [|done]. split; intros *; unfold held_of; simpl; by rewrite lookup_empty. }
  destruct (prune_spec gr live Hok) as (_ & Hc & Hd & Hof).
  split_and!; [done|set_solver|]. intros a b. unfold held_value. rewrite Hof, Hc.
  by case_bool_decide.
Qed.

(** An operator's merge moves the evidence with the members. Between the surviving situation
    and any third one, the evidence is the sum of what both had; between two others it is
    unchanged; the merged situation has none left. *)
Theorem merged_moves_evidence gr dst src :
  cross_ok gr → dst ≠ src →
  let g := merged gr dst src in
  (∀ b, b ≠ dst → b ≠ src → held_value g dst b =
     match held_of gr dst b, held_of gr src b with
     | Some _, Some _ => acc_add (held_value gr dst b) (held_value gr src b)
     | Some _, None => held_value gr dst b
     | None, _ => held_value gr src b
     end) ∧
  (∀ a b, a ≠ dst → a ≠ src → b ≠ dst → b ≠ src → held_value g a b = held_value gr a b) ∧
  (∀ b, held_of g src b = None ∧ held_of g b src = None).
Proof.
  intros Hok Hne. destruct (fold_into_spec gr dst src Hok Hne) as (Hof & Hsum & Hrest & _).
  unfold merged, held_value. cbv zeta.
  assert (∀ a b c, held_of gr a b = Some c → (∀ b', (a, b) ≠ (dst, b') ∧ (a, b) ≠ (b', dst) ∨
            held_of gr dst b' ≠ Some c ∨ held_of gr src b' = None) →
          cells (fold_into gr dst src) !! c = cells gr !! c) as Hkeep.
  { intros a b c E Hab. apply Hrest. intros b' c' ? Hb' Hc'.
    destruct (Hab b') as [[H1 H2]|[?|?]]; [|congruence..].
    destruct (co_uniq _ Hok _ _ _ _ _ E Hb') as [[-> ->]|[-> ->]]; done. }
  split_and!.
  - intros b Hbd Hbs. rewrite Hof. unfold folded.
    rewrite bool_decide_false, bool_decide_true by tauto.
    destruct (held_of gr dst b) as [h|] eqn:Eh, (held_of gr src b) as [c|] eqn:Ec; try done.
    + exact (f_equal (default acc0) (Hsum b h c Hbd Eh Ec)).
    + refine (f_equal (default acc0) (Hkeep dst b h Eh _)). intros b'.
      destruct (decide (b' = b)) as [->|]; [tauto|]. right.
      destruct (decide (held_of gr dst b' = Some h)) as [E|]; [|tauto].
      destruct (co_uniq _ Hok _ _ _ _ _ Eh E) as [[??]|[??]]; congruence.
    + refine (f_equal (default acc0) (Hkeep src b c Ec _)). intros b'. left. split; congruence.
  - intros a b Had Has Hbd Hbs. rewrite Hof. unfold folded.
    rewrite !bool_decide_false by tauto. destruct (held_of gr a b) as [c|] eqn:E; [|done].
    refine (f_equal (default acc0) (Hkeep a b c E _)). intros b'. left. split; congruence.
  - intros b. rewrite !Hof. unfold folded. by rewrite !bool_decide_true by auto.
Qed.

(** ** [place] *)

Lemma rank_leb_mean a b : rank_leb a b = true → fleb b.1.2 a.1.2 = true.
Proof.
  unfold rank_leb. rewrite feqb_opp, fltb_opp. destruct (feqb a.1.2 b.1.2) eqn:E.
  - intros _. by apply feqb_leb in E as [_ ?].
  - apply fltb_leb.
Qed.

Lemma rank_leb_trans a b c : rank_leb a b = true → rank_leb b c = true → rank_leb a c = true.
Proof.
  unfold rank_leb. rewrite !feqb_opp, !fltb_opp.
  destruct (feqb a.1.2 b.1.2) eqn:E1, (feqb b.1.2 c.1.2) eqn:E2.
  - rewrite (feqb_trans _ _ _ E1 E2).
    destruct (Z.eqb_spec a.2 b.2), (Z.eqb_spec b.2 c.2), (Z.eqb_spec a.2 c.2);
      rewrite ?Z.leb_le, ?Z.ltb_lt; lia.
  - intros _ H. assert (fltb c.1.2 a.1.2 = true) as Hlt.
    { eapply fltb_eqb_trans; [done|]. by rewrite feqb_sym. }
    destruct (feqb a.1.2 c.1.2) eqn:E3; [|done].
    rewrite feqb_sym in E3. apply feqb_not_lt in E3. congruence.
  - intros H _. assert (fltb c.1.2 a.1.2 = true) as Hlt.
    { eapply feqb_ltb_trans; [|done]. by rewrite feqb_sym. }
    destruct (feqb a.1.2 c.1.2) eqn:E3; [|done].
    rewrite feqb_sym in E3. apply feqb_not_lt in E3. congruence.
  - intros H1 H2. pose proof (fltb_trans _ _ _ H2 H1) as Hlt.
    destruct (feqb a.1.2 c.1.2) eqn:E3; [|done].
    rewrite feqb_sym in E3. apply feqb_not_lt in E3. congruence.
Qed.

Lemma rank_leb_total a b :
  is_nan a.1.2 = false → is_nan b.1.2 = false → rank_leb a b = true ∨ rank_leb b a = true.
Proof.
  intros Ha Hb. unfold rank_leb. rewrite !feqb_opp, !fltb_opp, (feqb_sym b.1.2).
  destruct (feqb a.1.2 b.1.2) eqn:E.
  - rewrite (Z.eqb_sym b.2). destruct (Z.eqb_spec a.2 b.2); rewrite ?Z.leb_le, ?Z.ltb_lt; lia.
  - destruct (fltb_total3 _ _ Ha Hb) as [?|[?|?]]; auto; congruence.
Qed.

(** The mean evidence of a situation the newcomer was scored against. *)
Definition mean_of (scored : list Scored) (sit_of : gmap Z Z) (sid : Z) : option float :=
  a ← foldl (support_step sit_of) ∅ scored !! sid; Some (fdiv a.1 a.2).

Lemma elem_of_ranked scored sit_of r :
  r ∈ ranked scored sit_of ↔
  ∃ a, foldl (support_step sit_of) ∅ scored !! r.1.1 = Some a ∧ r = row_of (r.1.1, a).
Proof.
  unfold ranked. rewrite elem_of_sort_by, list_elem_of_fmap. split.
  - intros ([sid a] & -> & Ha%elem_of_map_to_list). exists a. done.
  - intros (a & Ha & ->). exists (r.1.1, a). by rewrite elem_of_map_to_list.
Qed.

Lemma mean_of_ranked scored sit_of sid m :
  mean_of scored sit_of sid = Some m ↔ ∃ r, r ∈ ranked scored sit_of ∧ r.1 = (sid, m).
Proof.
  unfold mean_of. split.
  - destruct (_ !! sid) as [a|] eqn:E; [|done]. intros [= <-].
    exists (row_of (sid, a)). split; [|done]. apply elem_of_ranked. by exists a.
  - intros ([[s m'] n] & (a & Ha & Hr)%elem_of_ranked & [= -> ->]). simpl in *. rewrite Ha.
    injection Hr as -> _. done.
Qed.

Lemma ranked_head_best scored sit_of best rest :
  (∀ sid m, mean_of scored sit_of sid = Some m → is_nan m = false) →
  ranked scored sit_of = best :: rest →
  mean_of scored sit_of best.1.1 = Some best.1.2 ∧
  ∀ sid m, mean_of scored sit_of sid = Some m → fleb m best.1.2 = true.
Proof.
  intros Hnan Hrk. assert (best ∈ ranked scored sit_of) as Hin by (rewrite Hrk; by left).
  assert (mean_of scored sit_of best.1.1 = Some best.1.2) as Hb.
  { apply mean_of_ranked. exists best. split; [done|]. by destruct best as [[??]?]. }
  split; [done|]. intros sid m Hm. apply mean_of_ranked in Hm as (r & Hr & Er).
  assert (∀ r, r ∈ ranked scored sit_of → is_nan r.1.2 = false) as Hn.
  { intros [[s x] k] Hs. apply (Hnan s). apply mean_of_ranked. by exists (s, x, k). }
  assert (m = r.1.2) as -> by by rewrite Er.
  unfold ranked in *. edestruct (sort_by_head_least rank_leb (λ r, is_nan r.1.2 = false))
    as [->|H]; [| |apply rank_leb_trans|exact Hrk| | |by apply rank_leb_mean].
  - apply Forall_forall. intros x Hx. apply Hn. by rewrite elem_of_sort_by.
  - apply rank_leb_total.
  - rewrite elem_of_sort_by in Hr. exact Hr.
  - apply fleb_refl. by apply Hn.
Qed.

(** In cluster mode the newcomer joins its own situation if it has one, else the situation
    with the greatest mean evidence if that exceeds [join_bias], else a new one. Merged into it
    are exactly the other scored situations whose accumulated pairs reach [merge_min_pairs] and
    whose accumulated mean exceeds [merge_bias]; the one joined is never among them. *)
Theorem place_joins_best gr scored sit_of own :
  mode gr = MODE_CLUSTER →
  (∀ sid m, mean_of scored sit_of sid = Some m → is_nan m = false) →
  let p := place gr scored sit_of own in
  (match own, join p with
   | Some s, j => j = Some s
   | None, Some s => ∃ m, mean_of scored sit_of s = Some m ∧
       fltb (join_bias (params gr)) m = true ∧
       ∀ s' m', mean_of scored sit_of s' = Some m' → fleb m' m = true
   | None, None => ∀ s m, mean_of scored sit_of s = Some m →
       fltb (join_bias (params gr)) m = false
   end) ∧
  (∀ sid, sid ∈ merge p ↔ ∃ j a, join p = Some j ∧ sid ≠ j ∧
     foldl (support_step sit_of) ∅ scored !! sid = Some a ∧
     let t := acc_add (held_value gr j sid) a in
     fleb (f_of_Z (merge_min_pairs (params gr))) t.2 = true ∧
     fltb (merge_bias (params gr)) (fdiv t.1 t.2) = true).
Proof.
  intros Hm Hnan. unfold place. rewrite Hm. cbn [join merge]. split.
  - destruct own as [s|]; [done|].
    destruct (ranked scored sit_of) as [|best rest] eqn:Hrk.
    { intros s m Hs. apply mean_of_ranked in Hs as (r & Hr & _). rewrite Hrk in Hr. set_solver. }
    destruct (ranked_head_best _ _ _ _ Hnan Hrk) as [Hb Hall].
    destruct (fltb (join_bias (params gr)) best.1.2) eqn:Ej; [by eauto|].
    intros s m Hs. apply Hall in Hs. apply not_true_iff_false. intros Hlt.
    by rewrite (fltb_leb_trans _ _ _ Hlt Hs) in Ej.
  - intros sid. set (j := match own with Some s => Some s | None => _ end).
    rewrite elem_of_sort_by. destruct j as [j|].
    2: { split; [set_solver|]. by intros (?&?&?&?). }
    rewrite list_elem_of_filter, list_elem_of_fmap. unfold wants_merge. split.
    + intros [Hw (r & -> & Hr)]. apply elem_of_ranked in Hr as (a & Ha & _).
      rewrite Ha in Hw. apply andb_true_iff in Hw as [Hne [H1 H2]%andb_true_iff].
      exists j, a. reflect_bools. simpl in *. done.
    + intros (j' & a & [= <-] & Hne & Ha & H1 & H2). rewrite Ha. simpl in *. rewrite H1, H2.
      split; [by destruct (Z.eqb_spec sid j)|].
      exists (row_of (sid, a)). split; [done|]. apply elem_of_ranked. by exists a.
Qed.

Lemma elem_of_linked scored sit_of sid :
  sid ∈ linked_situations scored sit_of ↔
  ∃ p, p ∈ scored ∧ linked p = true ∧ sit_of !! alarm_id p = Some sid.
Proof.
  unfold linked_situations. rewrite elem_of_list_to_set, list_elem_of_omap. split.
  - intros (p & Hp & Hs). destruct (linked p) eqn:El; [|done]. eauto.
  - intros (p & Hp & El & Hs). exists p. by rewrite El.
Qed.

(** In components mode the newcomer's own situation and every situation it is linked into
    become one, the lowest numbered of them: that one is joined, all the others merged. *)
Theorem components_joins_lowest gr scored sit_of own :
  mode gr = MODE_COMPONENTS →
  let p := place gr scored sit_of own in
  let touched sid := own = Some sid ∨ ∃ q, q ∈ scored ∧ linked q = true ∧
                                      sit_of !! alarm_id q = Some sid in
  match join p with
  | None => merge p = [] ∧ ∀ sid, ¬ touched sid
  | Some j => touched j ∧ ∀ sid, (touched sid ↔ sid = j ∨ sid ∈ merge p) ∧
                                 (sid ∈ merge p → j < sid)
  end.
Proof.
  intros Hm. unfold place. rewrite Hm. unfold components.
  set (sids := match own with Some s => _ | None => _ end).
  assert (∀ sid, sid ∈ sids ↔ own = Some sid ∨ ∃ q, q ∈ scored ∧ linked q = true ∧
                                      sit_of !! alarm_id q = Some sid) as Hin.
  { intros sid. rewrite <- elem_of_linked. unfold sids. destruct own as [s|].
    - rewrite elem_of_union, elem_of_singleton. split; (intros [H|H]; [left|by right]); congruence.
    - split; [by right|]. by intros [|]. }
  pose proof (sort_by_sorted Z.leb (λ _, True) (elements sids)) as Hs.
  pose proof (NoDup_sort_by Z.leb (elements sids)) as Hnd.
  assert (∀ x, x ∈ sort_by Z.leb (elements sids) ↔ x ∈ sids) as Hel.
  { intros x. by rewrite elem_of_sort_by, elem_of_elements. }
  destruct (sort_by Z.leb (elements sids)) as [|j rest]; cbn [join merge].
  - split; [done|]. intros sid Ht. apply Hin, Hel in Ht. set_solver.
  - assert (NoDup (j :: rest)) as [Hj _]%NoDup_cons by (apply Hnd, NoDup_elements).
    assert (StronglySorted (λ x y, (x <=? y) = true) (j :: rest)) as [_ Hle]%StronglySorted_inv.
    { apply Hs; [by apply Forall_true| |]; intros *; rewrite !Z.leb_le; lia. }
    rewrite Forall_forall in Hle. split; [apply Hin, Hel; by left|].
    intros sid. split.
    + rewrite <- Hin, <- Hel, elem_of_cons. done.
    + intros Hsid. pose proof (Hle sid Hsid) as Hlt. apply Z.leb_le in Hlt.
      assert (sid ≠ j) by (intros ->; done). lia.
Qed.

(** [commit] first moves the evidence of the merged situations, then adds, in order, every
    scored pair whose alarm is in another situation to the evidence with that situation, and
    touches no other evidence. *)
Theorem commit_adds_evidence gr sid pl scored sit_of :
  mode gr = MODE_CLUSTER → cross_ok gr → sid ∉ merge pl →
  let before := foldl (λ g gone, merged g sid gone) gr (merge pl) in
  let after := commit gr sid pl scored sit_of in
  (∀ other, other ≠ sid →
     held_value after sid other = pair_evidence sit_of other scored (held_value before sid other) ∧
     held_value after other sid = held_value after sid other) ∧
  (∀ x y, x ≠ sid → y ≠ sid → held_value after x y = held_value before x y).
Proof.
  intros Hm Hok Hn. pose proof (commit_ok gr sid pl scored sit_of Hok Hn) as Haft. revert Haft.
  unfold commit. rewrite Hm. cbv zeta.
  set (before := foldl (λ g gone, merged g sid gone) gr (merge pl)).
  assert (cross_ok before) as Hb by (by apply folds_ok).
  destruct (commit_pairs_ok sid sit_of scored (ensure_row before sid)) as (H1 & H2 & H3);
    [by apply ensure_row_ok|].
  assert (∀ x y, held_value (ensure_row before sid) x y = held_value before x y) as He.
  { intros x y. unfold held_value. by rewrite held_ensure. }
  intros Haft. split.
  - intros other Ho. split; [rewrite <- (He sid other); by apply H2|].
    unfold held_value. rewrite held_sym; [done|exact Haft].
  - intros x y Hx Hy. rewrite <- He. by apply H3.
Qed.

(** ** Witnesses *)

Definition demo_scored : list Scored :=
  [MkScored 1 (f_of_Z 2) true; MkScored 2 (f_of_Z 3) false; MkScored 3 (f_of_Z (-1)) true].
Definition demo_sit : gmap Z Z := {[1 := 10; 2 := 20; 3 := 20]}.
Definition demo_grouper : Grouper :=
  commit (new_grouper MODE_CLUSTER default_params) 30 (Place (Some 30) [] []) demo_scored demo_sit.

Lemma demo_steps : rtc gstep (new_grouper MODE_CLUSTER default_params) demo_grouper.
Proof. apply rtc_once, g_commit. apply not_elem_of_nil. Qed.

Lemma demo_cross_ok : cross_ok demo_grouper.
Proof.
  eapply gsteps_ok; [|apply demo_steps].
  split; intros *; unfold held_of; simpl; by rewrite lookup_empty.
Qed.

Lemma cross_symmetric_and_bounded_witness :
  cross_ok demo_grouper ∧ dom (cross (prune demo_grouper {[20; 30]})) ⊆ {[20; 30]} ∧
  ∀ a b, held_value (prune demo_grouper {[20; 30]}) a b =
    if bool_decide (a ∈ ({[20; 30]} : gset Z) ∧ b ∈ ({[20; 30]} : gset Z))
    then held_value demo_grouper a b else acc0.
Proof. apply (cross_symmetric_and_bounded _ _ _ _ demo_steps). Defined.

Lemma merged_moves_evidence_witness :
  let g := merged demo_grouper 10 20 in
  held_value g 10 30 = (f_of_Z 4, f_of_Z 3) ∧ held_value demo_grouper 20 30 = (f_of_Z 2, f_of_Z 2) ∧
  held_value (merged demo_grouper 30 20) 30 10 = (f_of_Z 2, f_of_Z 1) ∧
  (∀ b, b ≠ 10 → b ≠ 20 → held_value g 10 b =
     match held_of demo_grouper 10 b, held_of demo_grouper 20 b with
     | Some _, Some _ => acc_add (held_value demo_grouper 10 b) (held_value demo_grouper 20 b)
     | Some _, None => held_value demo_grouper 10 b
     | None, _ => held_value demo_grouper 20 b
     end) ∧
  (∀ a b, a ≠ 10 → a ≠ 20 → b ≠ 10 → b ≠ 20 → held_value g a b = held_value demo_grouper a b) ∧
  (∀ b, held_of g 20 b = None ∧ held_of g b 20 = None).
Proof.
  split; [vm_compute; reflexivity|]. split; [vm_compute; reflexivity|].
  split; [vm_compute; reflexivity|].
  apply (merged_moves_evidence demo_grouper 10 20 demo_cross_ok). lia.
Defined.

Lemma place_joins_best_witness :
  let gr := new_grouper MODE_CLUSTER default_params in
  let p := place gr demo_scored demo_sit None in
  (match join p with
   | Some s => ∃ m, mean_of demo_scored demo_sit s = Some m ∧
       fltb (join_bias (params gr)) m = true ∧
       ∀ s' m', mean_of demo_scored demo_sit s' = Some m' → fleb m' m = true
   | None => ∀ s m, mean_of demo_scored demo_sit s = Some m →
       fltb (join_bias (params gr)) m = false
   end) ∧
  (∀ sid, sid ∈ merge p ↔ ∃ j a, join p = Some j ∧ sid ≠ j ∧
     foldl (support_step demo_sit) ∅ demo_scored !! sid = Some a ∧
     let t := acc_add (held_value gr j sid) a in
     fleb (f_of_Z (merge_min_pairs (params gr))) t.2 = true ∧
     fltb (merge_bias (params gr)) (fdiv t.1 t.2) = true).
Proof.
  apply (place_joins_best (new_grouper MODE_CLUSTER default_params) demo_scored demo_sit None).
  - reflexivity.
  - intros sid m. unfold mean_of.
    change (foldl (support_step demo_sit) ∅ demo_scored)
      with (<[20 := acc_add (acc_add acc0 (f_of_Z 3, f_one)) (f_of_Z (-1), f_one)]>
            (<[20 := acc_add acc0 (f_of_Z 3, f_one)]>
            (<[10 := acc_add acc0 (f_of_Z 2, f_one)]> (∅ : gmap Z acc)))).
    rewrite !lookup_insert, lookup_empty. repeat case_decide; intros Hm; try discriminate;
      injection Hm as <-; reflexivity.
Defined.

Lemma components_joins_lowest_witness :
  let p := place (new_grouper MODE_COMPONENTS default_params) demo_scored demo_sit (Some 15) in
  let touched sid := Some 15 = Some sid ∨ ∃ q, q ∈ demo_scored ∧ linked q = true ∧
                                      demo_sit !! alarm_id q = Some sid in
  match join p with
  | None => merge p = [] ∧ ∀ sid, ¬ touched sid
  | Some j => touched j ∧ ∀ sid, (touched sid ↔ sid = j ∨ sid ∈ merge p) ∧
                                 (sid ∈ merge p → j < sid)
  end.
Proof.
  apply (components_joins_lowest (new_grouper MODE_COMPONENTS default_params)). reflexivity.
Defined.

Lemma commit_adds_evidence_witness :
  let before := foldl (λ g gone, merged g 10 gone) demo_grouper [30] in
  let after := commit demo_grouper 10 (Place (Some 10) [30] []) demo_scored demo_sit in
  (∀ other, other ≠ 10 →
     held_value after 10 other =
       pair_evidence demo_sit other demo_scored (held_value before 10 other) ∧
     held_value after other 10 = held_value after 10 other) ∧
  (∀ x y, x ≠ 10 → y ≠ 10 → held_value after x y = held_value before x y).
Proof.
  apply (commit_adds_evidence demo_grouper 10 (Place (Some 10) [30] [])).
  - reflexivity.
  - exact demo_cross_ok.
  - simpl. rewrite list_elem_of_singleton. lia.
Defined.
