(* ===== verification/RootCause.v ===== *)
(** * The probable root of a situation ([engine/correlate/rootcause.py], [engine/operate/upkeep.py])

    Who leads whom, by class and by device; the member of the sample that most consistently leads the
    others; and the sample itself, the earliest [ROOT_SAMPLE] members, kept between activations. A
    [Member] and the list it is in are Python objects compared by identity: [m_obj] and the list's
    handle name them. *)
From S2P Require Import Prelude Floats Alternation.

Definition ROOT_SAMPLE : nat := 25.
Definition EARLIEST_BONUS : float := f_lit 1 1000.

Record Member := MkMember { m_obj : Z; alarm_id : Z; class_id : Z; device_id : Z; first_seen : float }.

#[global] Instance member_eq_dec : EqDecision Member.
Proof. solve_decision. Defined.

(** ** Precedence *)

Abbreviation wins := (gmap (Z * Z) float).

Record Precedence := MkPrecedence {
  class_wins : wins; device_wins : wins; dirty_class : gset (Z * Z); dirty_device : gset (Z * Z) }.
Definition new_precedence : Precedence := MkPrecedence ∅ ∅ ∅ ∅.

Definition get_win (w : wins) (k : Z * Z) : float := default f_zero (w !! k).

(** [lead] and [lag] are a class and a device each. *)
Definition observe (lead lag : Z * Z) (weight : float) (p : Precedence) : Precedence :=
  let p :=
    if lead.1 =? lag.1 then p
    else
      let key := (lead.1, lag.1) in
      MkPrecedence (<[key := fadd (get_win (class_wins p) key) weight]> (class_wins p)) (device_wins p)
        ({[key]} ∪ dirty_class p) (dirty_device p) in
  if lead.2 =? lag.2 then p
  else
    let key := (lead.2, lag.2) in
    MkPrecedence (class_wins p) (<[key := fadd (get_win (device_wins p) key) weight]> (device_wins p))
      (dirty_class p) ({[key]} ∪ dirty_device p).

Definition f_half : float := f_lit 1 2.

Definition prob (w : wins) (a b : Z) : float :=
  let forward := get_win w (a, b) in
  let backward := get_win w (b, a) in
  if (a =? b) || fleb (fadd forward backward) f_zero then f_half
  else fdiv forward (fadd forward backward).
Definition class_lead_prob (p : Precedence) : Z -> Z -> float := prob (class_wins p).
Definition device_lead_prob (p : Precedence) : Z -> Z -> float := prob (device_wins p).

(** What one other member of the sample adds to a candidate's score. *)
Definition against (p : Precedence) (candidate : Member) (score : float) (other : Member) : float :=
  if alarm_id other =? alarm_id candidate then score
  else
    let score := fadd score (class_lead_prob p (class_id candidate) (class_id other)) in
    fadd score (device_lead_prob p (device_id candidate) (device_id other)).

Definition score_of (p : Precedence) (sample : list Member) (i : nat) (candidate : Member) : float :=
  foldl (against p candidate) (fmul (fopp EARLIEST_BONUS) (f_of_Z (Z.of_nat i))) sample.

(** The loop over the candidates: a strictly better score takes over. *)
Fixpoint best_of (p : Precedence) (sample rest : list Member) (i : nat) (best : Z * float) : Z * float :=
  match rest with
  | [] => best
  | c :: rest =>
      let score := score_of p sample i c in
      best_of p sample rest (S i) (if fltb best.2 score then (alarm_id c, score) else best)
  end.

(** [sorted(members, key=first_seen)[:ROOT_SAMPLE]]. *)
Definition earlier (a b : Member) : bool := fleb (first_seen a) (first_seen b).
Definition sorted_sample (members : list Member) : list Member := take ROOT_SAMPLE (sort_by earlier members).

Definition minus_infinity : float := SpecFloat.S754_infinity true.

Definition pick_root (p : Precedence) (members : list Member) (sample : option (list Member)) : option Z :=
  match members with
  | [] => None
  | _ =>
      let sample := default (sorted_sample members) sample in
      match sample with
      | [] => None
      | first :: _ => Some (best_of p sample sample 0 (alarm_id first, minus_infinity)).1
      end
  end.

(** [save] and [load], against the rows of the [edge] table. *)
Definition key_leb (a b : Z * Z) : bool := (a.1 <? b.1) || ((a.1 =? b.1) && (a.2 <=? b.2)).
Definition lead_rows (kind : string) (w : wins) (dirty : gset (Z * Z)) : list EdgeRow :=
  map (fun k => Edge kind k.1 k.2 (get_win w k) (get_win w k) 0) (sort_by key_leb (elements dirty)).
Definition save (p : Precedence) : list EdgeRow * Precedence :=
  (lead_rows "lead_class" (class_wins p) (dirty_class p) ++ lead_rows "lead_device" (device_wins p) (dirty_device p),
   MkPrecedence (class_wins p) (device_wins p) ∅ ∅).

(** ** The samples ([SituationUpkeep]) *)

Record Sample := MkSample { of_list : Z; seen : nat; last_member : option Member; earliest_of : list Member }.
Record SituationUpkeep := MkUpkeep { renamed_set : gset Z; samples : gmap Z Sample }.
Definition new_upkeep : SituationUpkeep := MkUpkeep ∅ ∅.

Definition renamed (sid : Z) (u : SituationUpkeep) : SituationUpkeep := MkUpkeep ({[sid]} ∪ renamed_set u) (samples u).
(** The names [flush] refreshes, in order. *)
Definition flush (u : SituationUpkeep) : list Z * SituationUpkeep :=
  (sort_by Z.leb (elements (renamed_set u)), MkUpkeep ∅ (samples u)).
Definition discard (u : SituationUpkeep) : SituationUpkeep := MkUpkeep ∅ (samples u).
Definition retain (live : gset Z) (u : SituationUpkeep) : SituationUpkeep :=
  MkUpkeep (renamed_set u) (filter (fun e => e.1 ∈ live) (samples u)).

(** [bisect.insort_right] on a sorted list: after every member that is not later. *)
Fixpoint insort_right (x : Member) (l : list Member) : list Member :=
  match l with
  | [] => [x]
  | y :: l' => if fltb (first_seen x) (first_seen y) then x :: l else y :: insort_right x l'
  end.

(** [members[seen - 1] is last]. *)
Definition same_last (s : Sample) (members : list Member) : bool :=
  match seen s with
  | O => true
  | S k => bool_decide (m_obj <$> members !! k = m_obj <$> last_member s)
  end.

Definition is_valid (s : Sample) (handle : Z) (members : list Member) : bool :=
  (of_list s =? handle) && Nat.leb (seen s) (length members) && same_last s members.

(** [members[-1] if members else None]. *)
Definition last_of (members : list Member) : option Member := members !! pred (length members).

Definition fresh_sample (handle : Z) (members : list Member) : Sample :=
  MkSample handle (length members) (last_of members) (sorted_sample members).

Definition extend_sample (s : Sample) (members : list Member) : Sample :=
  MkSample (of_list s) (length members) (last_of members)
    (foldl (fun e m => take ROOT_SAMPLE (insort_right m e)) (earliest_of s) (drop (seen s) members)).

Definition earliest (sid handle : Z) (members : list Member) (u : SituationUpkeep) : list Member * SituationUpkeep :=
  let s :=
    match samples u !! sid with
    | Some s => if is_valid s handle members then extend_sample s members else fresh_sample handle members
    | None => fresh_sample handle members
    end in
  (earliest_of s, MkUpkeep (renamed_set u) (<[sid := s]> (samples u))).

(** ** The kept sample is the sorted one *)

Section insort.
Context {A : Type} (lt le : A -> A -> bool).

(** The two insertions commute when the earlier one stays before its equals: a stable sort can be
    extended at its end. *)
Fixpoint insort (x : A) (l : list A) : list A :=
  match l with
  | [] => [x]
  | y :: l' => if lt x y then x :: l else y :: insort x l'
  end.

Lemma insert_insort (P : A -> Prop) x y l :
  (∀ a b, P a -> P b -> le a b = negb (lt b a)) ->
  (∀ a b, P a -> P b -> lt a b = true -> lt b a = false) ->
  (∀ a b c, P a -> P b -> P c -> lt b a = false -> lt c b = false -> lt c a = false) ->
  P x -> P y -> Forall P l ->
  insert_by le y (insort x l) = insort x (insert_by le y l).
Proof.
  intros Hle Hasym Htr Px Py Hl. induction Hl as [|z l Pz Hl IH]; simpl; rewrite ?(Hle y x), ?(Hle y z) by done;
    [by destruct (lt x y)|].
  destruct (lt x z) eqn:Exz; destruct (lt z y) eqn:Eyz; simpl; rewrite ?(Hle y x), ?(Hle y z), ?Exz, ?Eyz by done; simpl.
  - assert (Exy : lt x y = true).
    { destruct (lt x y) eqn:E; [done|]. pose proof (Htr z y x Pz Py Px (Hasym _ _ Pz Py Eyz) E). congruence. }
    rewrite Exy. simpl. by rewrite ?Exz, ?Eyz.
  - destruct (lt x y); simpl; by rewrite ?Exz, ?Eyz.
  - by rewrite IH.
  - assert (Exy : lt x y = false) by (by apply (Htr y z x)).
    rewrite Exy. simpl. by rewrite ?Exy, ?Exz.
Qed.
End insort.

Lemma insort_right_insort x l : insort_right x l = insort (fun a b => fltb (first_seen a) (first_seen b)) x l.
Proof. induction l as [|y l IH]; simpl; [done|]. by rewrite IH. Qed.

(** Times that are no NaN, as every [first_seen] is. *)
Definition timed (m : Member) : Prop := is_nan (first_seen m) = false.

Lemma sort_extend l x :
  timed x -> Forall timed l -> sort_by earlier (l ++ [x]) = insort_right x (sort_by earlier l).
Proof.
  intros Hx Hl. rewrite insort_right_insort.
  induction Hl as [|y l Hy Hl IH]; simpl; [done|]. rewrite IH.
  apply (insert_insort _ _ timed); [| | |done..|by rewrite sort_by_perm].
  - intros a b Ha Hb. unfold earlier. by rewrite fltb_fleb_total, negb_involutive.
  - intros a b Ha Hb Hab. rewrite fltb_fleb_total by done. apply fltb_leb in Hab. by rewrite Hab.
  - intros a b c Ha Hb Hc. rewrite !fltb_fleb_total by done. rewrite !negb_false_iff. apply fleb_trans.
Qed.

Lemma take_insort n x l : take n (insort_right x (take n l)) = take n (insort_right x l).
Proof.
  revert l. induction n as [|n IH]; intros l; [done|]. destruct l as [|y l]; simpl; [done|].
  destruct (fltb _ _); simpl; [|by rewrite IH].
  f_equal. destruct n; simpl; [done|]. by rewrite take_take, Nat.min_l by lia.
Qed.

Lemma sorted_sample_extend ms new :
  Forall timed ms -> Forall timed new ->
  foldl (fun e m => take ROOT_SAMPLE (insort_right m e)) (sorted_sample ms) new = sorted_sample (ms ++ new).
Proof.
  intros Hm Hn. revert ms Hm. induction Hn as [|x new Hx Hn IH]; intros ms Hm; [by rewrite app_nil_r|].
  cbn [foldl]. unfold sorted_sample at 1. rewrite take_insort, <- sort_extend by done.
  change (take ROOT_SAMPLE (sort_by earlier (ms ++ [x]))) with (sorted_sample (ms ++ [x])).
  rewrite IH; [by rewrite <- app_assoc|]. apply Forall_app. by rewrite Forall_singleton.
Qed.

Lemma sublist_full {A} (l k : list A) : sublist l k -> length l = length k -> l = k.
Proof.
  induction 1 as [|x l k H IH|x l k H IH]; simpl; intros E; [done|f_equal; auto|].
  apply sublist_length in H. lia.
Qed.

(** ** Histories of one situation's list

    [ms] is the list the engine keeps for the situation, [h] its identity. It grows by members that
    were never in it, loses some to operators' moves, is replaced by another list (a split, a reload),
    and is asked for its sample, in any order. *)

Section histories.
Context (sid : Z).

Record History := MkHistory { h_list : Z; h_members : list Member; h_upkeep : SituationUpkeep; h_used : gset Z }.

Inductive lives : History -> Prop :=
| lives_start u : samples u !! sid = None -> lives (MkHistory 0 [] u ∅)
| lives_append h ms u used m :
    lives (MkHistory h ms u used) -> timed m -> m_obj m ∉ used ->
    lives (MkHistory h (ms ++ [m]) u ({[m_obj m]} ∪ used))
| lives_remove h ms ms' u used :
    lives (MkHistory h ms u used) -> sublist ms' ms -> lives (MkHistory h ms' u used)
| lives_replace h ms u used h' ms' :
    lives (MkHistory h ms u used) -> h < h' -> Forall timed ms' -> NoDup (m_obj <$> ms') ->
    lives (MkHistory h' ms' u (list_to_set (m_obj <$> ms')))
| lives_retain h ms u used live :
    lives (MkHistory h ms u used) -> lives (MkHistory h ms (retain live u) used)
| lives_ask h ms u used :
    lives (MkHistory h ms u used) -> lives (MkHistory h ms (earliest sid h ms u).2 used).

(** What the sample was taken from: the members left of it come first, the others are new. *)
Definition taken_from (h : Z) (ms : list Member) (used : gset Z) (s : Sample) : Prop :=
  ∃ c0 kept new, earliest_of s = sorted_sample c0 ∧ seen s = length c0 ∧ last_member s = last_of c0
    ∧ ms = kept ++ new ∧ sublist kept c0 ∧ Forall timed c0 ∧ (∀ m, m ∈ c0 -> m_obj m ∈ used)
    ∧ (∀ m, m ∈ new -> m_obj m ∉ (m_obj <$> c0)).

Record history_ok (y : History) : Prop := {
  ho_timed : Forall timed (h_members y);
  ho_distinct : NoDup (m_obj <$> h_members y);
  ho_used m : m ∈ h_members y -> m_obj m ∈ h_used y;
  ho_sample s : samples (h_upkeep y) !! sid = Some s ->
    of_list s < h_list y ∨ of_list s = h_list y ∧ taken_from (h_list y) (h_members y) (h_used y) s }.

Lemma taken_fresh h ms used :
  Forall timed ms -> (∀ m, m ∈ ms -> m_obj m ∈ used) -> taken_from h ms used (fresh_sample h ms).
Proof.
  intros Ht Hu. exists ms, ms, []. split_and!; try done; [by rewrite app_nil_r|].
  intros m Hm. by apply not_elem_of_nil in Hm.
Qed.

(** A cached sample that passes the code's test was taken from a prefix of the list. *)
Lemma valid_is_prefix h ms used s :
  taken_from h ms used s -> is_valid s h ms = true ->
  ∃ c0 new, ms = c0 ++ new ∧ earliest_of s = sorted_sample c0 ∧ seen s = length c0.
Proof.
  intros (c0 & kept & new & He & Hs & Hlast & -> & Hsub & _ & _ & Hnew) Hv.
  unfold is_valid in Hv. apply andb_true_iff in Hv as [[_ Hlen%Nat.leb_le]%andb_true_iff Hl].
  destruct (decide (length kept = length c0)) as [Hk|Hk].
  { exists c0, new. split_and!; [|done|done]. f_equal. by apply sublist_full. }
  exfalso. pose proof (sublist_length _ _ Hsub). rewrite Hs in Hlen. rewrite length_app in Hlen.
  unfold same_last in Hl. rewrite Hs, Hlast in Hl. destruct (length c0) as [|k] eqn:Ec; [lia|].
  apply bool_decide_eq_true in Hl. unfold last_of in Hl. rewrite Ec in Hl. simpl in Hl.
  destruct (lookup_lt_is_Some_2 c0 k) as [x Hx]; [lia|].
  destruct (lookup_lt_is_Some_2 (kept ++ new) k) as [y Hy]; [rewrite length_app; lia|].
  rewrite Hx, Hy in Hl. simpl in Hl. injection Hl as Hl.
  rewrite lookup_app_r in Hy by lia. apply list_elem_of_lookup_2 in Hy, Hx.
  apply (Hnew y Hy). rewrite Hl. by apply list_elem_of_fmap_2.
Qed.

Lemma earliest_sampled h ms u used :
  history_ok (MkHistory h ms u used) -> (earliest sid h ms u).1 = sorted_sample ms
  ∧ ∃ s, (earliest sid h ms u).2 = MkUpkeep (renamed_set u) (<[sid := s]> (samples u)) ∧ of_list s = h
    ∧ taken_from h ms used s.
Proof.
  intros [Ht Hd Hu Hsm]. simpl in *.
  assert (Hfresh : earliest_of (fresh_sample h ms) = sorted_sample ms ∧ of_list (fresh_sample h ms) = h
    ∧ taken_from h ms used (fresh_sample h ms)) by (split_and!; [done|done|by apply taken_fresh]).
  unfold earliest. destruct (samples u !! sid) as [s|] eqn:Es; [|naive_solver].
  destruct (is_valid s h ms) eqn:Ev; [|naive_solver]. clear Hfresh.
  destruct (Hsm s eq_refl) as [Hlt|[Hh Htk]].
  { unfold is_valid in Ev. apply andb_true_iff in Ev as [[Ev%Z.eqb_eq _]%andb_true_iff _]. lia. }
  destruct (valid_is_prefix _ _ _ _ Htk Ev) as (c0 & new & -> & He & Hs).
  assert (Hx : earliest_of (extend_sample s (c0 ++ new)) = sorted_sample (c0 ++ new)).
  { unfold extend_sample. simpl. rewrite He, Hs, drop_app_length.
    apply Forall_app in Ht as [? ?]. by apply sorted_sample_extend. }
  split; [exact Hx|]. exists (extend_sample s (c0 ++ new)). split_and!; [done|done|].
  exists (c0 ++ new), (c0 ++ new), []. split_and!; try done; [by rewrite app_nil_r|].
  intros m Hm. by apply not_elem_of_nil in Hm.
Qed.

Lemma lives_ok y : lives y -> history_ok y.
Proof.
  induction 1 as [u Hn|h ms u used m H IH Ht Hm|h ms ms' u used H IH Hsub|h ms u used h' ms' H IH Hh Ht Hd
    |h ms u used live H IH|h ms u used H IH].
  - split; simpl; [constructor|constructor|by intros ? ?%not_elem_of_nil|]. intros s Hs. congruence.
  - destruct IH as [It Id Iu Is]. simpl in *. split; simpl.
    + apply Forall_app. by rewrite Forall_singleton.
    + rewrite fmap_app. apply NoDup_app. split_and!; [done| |apply NoDup_singleton].
      intros o Ho ->%list_elem_of_singleton. apply list_elem_of_fmap in Ho as (x & Ex & Hx).
      apply Hm. rewrite Ex. by apply Iu.
    + intros x [Hx| ->%list_elem_of_singleton]%elem_of_app; [specialize (Iu _ Hx)|]; set_solver.
    + intros s Hs. destruct (Is s Hs) as [|[Hl (c0 & kept & new & He & Hn & Hla & -> & Hsub & Hc & Hcu & Hnew)]]; [by left|].
      right. split; [done|]. exists c0, kept, (new ++ [m]). split_and!; try done.
      * by rewrite <- app_assoc.
      * intros x Hx. specialize (Hcu x Hx). set_solver.
      * intros x [Hx| ->%list_elem_of_singleton]%elem_of_app; [by apply Hnew|].
        intros (x & Ex & Hx)%list_elem_of_fmap. apply Hm. rewrite Ex. by apply Hcu.
  - destruct IH as [It Id Iu Is]. simpl in *. split; simpl.
    + rewrite Forall_forall in *. intros x Hx. apply It. eapply sublist_subseteq; eauto.
    + eapply sublist_NoDup; [exact Id|]. by apply fmap_sublist.
    + intros x Hx. apply Iu. eapply sublist_subseteq; eauto.
    + intros s Hs. destruct (Is s Hs) as [|[Hl (c0 & kept & new & He & Hn & Hla & -> & Hk & Hc & Hcu & Hnew)]]; [by left|].
      right. split; [done|]. apply sublist_app_r in Hsub as (k1 & k2 & -> & H1 & H2).
      exists c0, k1, k2. split_and!; try done; [by etrans|].
      intros x Hx. apply Hnew. eapply sublist_subseteq; eauto.
  - destruct IH as [It Id Iu Is]. simpl in *. split; simpl; [done|done| |].
    + intros x Hx. apply elem_of_list_to_set. by apply list_elem_of_fmap_2.
    + intros s Hs. left. destruct (Is s Hs) as [|[-> _]]; lia.
  - destruct IH as [It Id Iu Is]. simpl in *. split; simpl; [done..|].
    intros s [Hs _]%map_lookup_filter_Some. auto.
  - pose proof (earliest_sampled _ _ _ _ IH) as [_ (s & -> & Hl & Htk)].
    destruct IH as [It Id Iu Is]. simpl in *. split; simpl; [done..|].
    intros s'. rewrite lookup_insert_eq. intros [= <-]. by right.
Qed.
End histories.

(** Whatever happens to a situation's list — members join, operators move some out, a split or a
    reload puts another list in its place — the kept sample is exactly the sorted one, as long as no
    member that left a list comes back to it. *)
Theorem the_kept_sample_is_exact sid h ms u used :
  lives sid (MkHistory h ms u used) -> (earliest sid h ms u).1 = sorted_sample ms.
Proof. intros H. by apply lives_ok, earliest_sampled in H as [H _]. Qed.

Definition at_time (obj : Z) (t : Z) : Member := MkMember obj obj 1 1 (f_of_Z t).

Lemma the_kept_sample_is_exact_witness :
  ∃ y, lives 7 y ∧ h_members y = [at_time 2 20; at_time 3 5]
    ∧ (earliest 7 (h_list y) (h_members y) (h_upkeep y)).1 = [at_time 3 5; at_time 2 20].
Proof.
  assert (H0 : lives 7 (MkHistory 0 [] new_upkeep ∅)) by (by constructor).
  assert (H1 : lives 7 (MkHistory 0 [at_time 1 10] new_upkeep ({[1]} ∪ ∅)))
    by (apply (lives_append 7 0 [] new_upkeep ∅ (at_time 1 10) H0); [done|set_solver]).
  assert (H2 : lives 7 (MkHistory 0 [at_time 1 10; at_time 2 20] new_upkeep ({[2]} ∪ ({[1]} ∪ ∅))))
    by (apply (lives_append 7 0 [at_time 1 10] new_upkeep _ (at_time 2 20) H1); [done|set_solver]).
  apply (lives_ask 7) in H2.
  apply (lives_remove 7 0 _ [at_time 2 20]) in H2; [|apply sublist_cons; done].
  apply (lives_append 7 0 _ _ _ (at_time 3 5)) in H2; [|done|set_solver].
  eexists. split; [exact H2|]. split; [done|].
  exact (the_kept_sample_is_exact 7 _ _ _ _ H2).
Defined.

(** Two members leave by operators' moves and one comes back where the last was: the list has the
    length and the last member the sample remembers, and the sample names a member that is gone. *)
Example a_member_that_comes_back_hides_a_change :
  let a := at_time 1 1 in let b := at_time 2 2 in let c := at_time 3 3 in
  let u := (earliest 7 0 [a; c] new_upkeep).2 in
  (earliest 7 0 [b; c] u).1 = [a; c] ∧ pick_root new_precedence [b; c] (Some (earliest 7 0 [b; c] u).1) = Some 1.
Proof. vm_compute. done. Qed.

(** ** Who the root is *)

Lemma best_of_in p sample rest i best (ids : list Z) :
  best.1 ∈ ids -> (∀ m, m ∈ rest -> alarm_id m ∈ ids) -> (best_of p sample rest i best).1 ∈ ids.
Proof.
  revert i best. induction rest as [|m rest IH]; intros i best Hb Hr; [done|]. cbn [best_of].
  apply IH; [|intros; apply Hr; by right]. destruct (fltb _ _); [apply Hr; by left|done].
Qed.

(** The score of the candidate at [i] of [n] members when nothing was learned. *)
Definition blank_score (n i : nat) : float :=
  Nat.iter (n - 1) (fun s => fadd (fadd s f_half) f_half) (fmul (fopp EARLIEST_BONUS) (f_of_Z (Z.of_nat i))).

Lemma blank_scores_fall : forallb (fun n => forallb (fun i =>
  negb (fltb (blank_score n 0) (blank_score n i))) (seq 0 n) && fltb minus_infinity (blank_score n 0)) (seq 1 25) = true.
Proof. vm_compute. reflexivity. Qed.

Section unlearned.
Context (p : Precedence) (Hc : class_wins p = ∅) (Hd : device_wins p = ∅).

Lemma blank_prob a b : prob ∅ a b = f_half.
Proof. unfold prob, get_win. rewrite !lookup_empty. by destruct (a =? b). Qed.

Lemma foldl_against c sample s :
  foldl (against p c) s sample
  = Nat.iter (length (filter (fun m => alarm_id m ≠ alarm_id c) sample)) (fun s => fadd (fadd s f_half) f_half) s.
Proof using Hc Hd.
  revert s. induction sample as [|m sample IH]; intros s; [done|]. cbn [foldl]. rewrite IH, filter_cons.
  unfold against, class_lead_prob, device_lead_prob. rewrite Hc, Hd, !blank_prob.
  case_decide as E; [rewrite (proj2 (Z.eqb_neq _ _) E)|].
  - cbn [length]. by rewrite Nat.iter_succ_r.
  - by rewrite (proj2 (Z.eqb_eq _ _) E).
Qed.

Lemma others_count c sample :
  NoDup (alarm_id <$> sample) -> c ∈ sample -> length (filter (fun m => alarm_id m ≠ alarm_id c) sample) = (length sample - 1)%nat.
Proof.
  induction sample as [|m sample IH]; intros Hn Hin; [by apply not_elem_of_nil in Hin|].
  rewrite fmap_cons in Hn. apply NoDup_cons in Hn as [Hm Hn]. rewrite filter_cons.
  apply elem_of_cons in Hin as [->|Hin].
  - rewrite decide_False by (intros H; done). rewrite filter_all; [simpl; lia|].
    intros x Hx E. apply Hm. rewrite <- E. by apply list_elem_of_fmap_2.
  - rewrite decide_True by (intros E; apply Hm; rewrite E; by apply list_elem_of_fmap_2).
    cbn [length]. rewrite IH by done. destruct sample; [by apply not_elem_of_nil in Hin|simpl; lia].
Qed.

Lemma score_unlearned sample i c :
  NoDup (alarm_id <$> sample) -> c ∈ sample -> score_of p sample i c = blank_score (length sample) i.
Proof using Hc Hd. intros. unfold score_of. by rewrite foldl_against, others_count. Qed.

Lemma best_stays sample rest i best :
  (length sample <= ROOT_SAMPLE)%nat -> (i + length rest <= length sample)%nat ->
  NoDup (alarm_id <$> sample) -> (∀ m, m ∈ rest -> m ∈ sample) -> best.2 = blank_score (length sample) 0 ->
  best_of p sample rest i best = best.
Proof using Hc Hd.
  intros Hl Hi Hn. revert i Hi. induction rest as [|m rest IH]; intros i Hi Hr Hb; [done|]. cbn [best_of].
  rewrite score_unlearned by (try done; apply Hr; by left). simpl in Hi.
  pose proof blank_scores_fall as Hf. rewrite forallb_forall in Hf.
  specialize (Hf (length sample)). rewrite in_seq in Hf. unfold ROOT_SAMPLE in Hl.
  apply andb_true_iff in Hf as [Hf _]; [|lia]. rewrite forallb_forall in Hf.
  specialize (Hf i). rewrite in_seq in Hf. rewrite Hb. apply negb_true_iff in Hf; [|lia]. rewrite Hf.
  apply IH; [lia|intros; apply Hr; by right|done].
Qed.
End unlearned.

(** The root is one of the situation's [ROOT_SAMPLE] earliest members, and the earliest of all while
    no precedence was learned. *)
Theorem the_root_is_an_early_member p ms :
  ms ≠ [] -> Forall timed ms -> NoDup (alarm_id <$> ms) ->
  ∃ m, pick_root p ms None = Some (alarm_id m) ∧ m ∈ sorted_sample ms ∧ m ∈ ms
    ∧ (class_wins p = ∅ -> device_wins p = ∅ -> ∀ o, o ∈ ms -> fltb (first_seen o) (first_seen m) = false).
Proof.
  intros Hne Ht Hn. unfold pick_root. simpl default.
  assert (Hin : ∀ m, m ∈ sorted_sample ms -> m ∈ ms).
  { intros m Hm. unfold sorted_sample in Hm. apply (elem_of_sort_by earlier).
    eapply sublist_subseteq; [apply sublist_take|exact Hm]. }
  assert (Hnd : NoDup (alarm_id <$> sorted_sample ms)).
  { eapply sublist_NoDup; [|apply fmap_sublist, sublist_take]. by rewrite sort_by_perm. }
  assert (Hlen : (length (sorted_sample ms) <= ROOT_SAMPLE)%nat) by (unfold sorted_sample; rewrite length_take; lia).
  destruct ms as [|m0 ms0] eqn:Ems; [done|]. rewrite <- Ems in *.
  destruct (sorted_sample ms) as [|first rest] eqn:Es.
  { exfalso. apply (f_equal length) in Es. unfold sorted_sample in Es.
    rewrite length_take, length_sort_by, Ems in Es. simpl in Es. lia. }
  pose proof (best_of_in p (first :: rest) (first :: rest) 0 (alarm_id first, minus_infinity) (alarm_id <$> first :: rest)) as Hb.
  specialize (Hb ltac:(by left) ltac:(intros; by apply list_elem_of_fmap_2)).
  apply list_elem_of_fmap in Hb as (m & Em & Hm). exists m. rewrite Em. split_and!; [done|done|by apply Hin|].
  intros Hc Hd o Ho.
  assert (Hfirst : m = first).
  { assert (E : best_of p (first :: rest) (first :: rest) 0 (alarm_id first, minus_infinity)
      = (alarm_id first, blank_score (length (first :: rest)) 0)).
    { cbn [best_of]. rewrite (score_unlearned p Hc Hd) by (try done; by left).
      pose proof blank_scores_fall as Hf. rewrite forallb_forall in Hf.
      specialize (Hf (length (first :: rest))). rewrite in_seq in Hf. unfold ROOT_SAMPLE in Hlen.
      apply andb_true_iff in Hf as [_ Hf]; [|simpl in *; lia]. change (alarm_id first, minus_infinity).2 with minus_infinity.
      rewrite Hf. apply (best_stays p Hc Hd); simpl in *; [unfold ROOT_SAMPLE; lia|lia|done|by right|done]. }
    rewrite E in Em. simpl in Em. rewrite fmap_cons in Hnd. apply NoDup_cons in Hnd as [Hni _].
    apply elem_of_cons in Hm as [|Hm]; [done|]. exfalso. apply Hni. rewrite Em. by apply list_elem_of_fmap_2. }
  subst m. assert (Hs : ∃ s, sort_by earlier ms = first :: s).
  { unfold sorted_sample in Es. destruct (sort_by earlier ms) as [|x s]; [done|]. simpl in Es. injection Es as -> _. eauto. }
  destruct Hs as [s Hs].
  assert (Hnan : ∀ x, x ∈ ms -> is_nan (first_seen x) = false) by (by apply (proj1 (Forall_forall timed ms))).
  assert (Hf : first ∈ ms) by (apply Hin; by left).
  destruct (sort_by_head_least earlier timed ms first s Ht) with o as [->|Hle]; try done.
  - intros x y Hx Hy. by apply fleb_total.
  - intros x y z. apply fleb_trans.
  - rewrite fltb_fleb_total by auto. apply negb_false_iff, fleb_refl. auto.
  - rewrite fltb_fleb_total by auto. unfold earlier in Hle. by rewrite Hle.
Qed.

Lemma the_root_is_an_early_member_witness :
  let ms := [at_time 1 30; at_time 2 10; at_time 3 20] in
  ∃ m, pick_root new_precedence ms None = Some (alarm_id m) ∧ m ∈ sorted_sample ms ∧ m ∈ ms
    ∧ (class_wins new_precedence = ∅ -> device_wins new_precedence = ∅ ->
       ∀ o, o ∈ ms -> fltb (first_seen o) (first_seen m) = false).
Proof.
  apply (the_root_is_an_early_member new_precedence [at_time 1 30; at_time 2 10; at_time 3 20]); [done| |].
  - repeat constructor.
  - by_eval.
Defined.

(** A class that always leads another is the root though it came second. *)
Example the_leader_is_the_root :
  let lead := MkMember 1 1 7 1 (f_of_Z 20) in let lag := MkMember 2 2 8 1 (f_of_Z 10) in
  pick_root (observe (7, 1) (8, 1) f_one new_precedence) [lag; lead] None = Some 1.
Proof. vm_compute. reflexivity. Qed.
