(* ===== verification/Correlator.v ===== *)
(** * From an activation to its links and its placement
    ([engine/correlate/correlate.py], [engine/correlate/pairs.py])

    The correlator over the window, the recall rings, the episode memory, the learned affinities, the
    guarded scorer and the grouping decision. What the active scorer answers to a pair, and how long
    it takes, are functions; [exp], [fpow] and [ln] are the mathematical library's. *)
From S2P Require Import Prelude PyLib Floats Alternation Grouping Episodes Learn Scoring Candidates PairFeatures.

Definition MAX_LINKS_PER_ALARM : nat := 5.
Definition MAX_WINDOW_ALARMS : nat := Z.to_nat 20000.

Record EvaluatedPair := MkPair {
  p_other : WindowAlarm; p_result : option LinkScore; p_vector : option (list float); p_margin : float; p_accepted : bool }.
Definition p_evidence (p : EvaluatedPair) : float :=
  match p_result p with Some r => fsub (s_score r) (s_threshold r) | None => p_margin p end.
Definition p_linked (p : EvaluatedPair) : bool :=
  match p_result p with Some r => s_linked r | None => p_accepted p end.
Definition scored_of (p : EvaluatedPair) : Scored := MkScored (Candidates.alarm_id (p_other p)) (p_evidence p) (p_linked p).

Record ScoredLink := MkLink { l_other : WindowAlarm; l_result : LinkScore }.
Definition contribution_of (r : LinkScore) (name : string) : float :=
  from_option t_contribution f_zero (List.find (fun t => String.eqb (t_name t) name) (s_terms r)).

Record CorrelationResult := MkResult {
  links : list ScoredLink; considered : list WindowAlarm; storm : bool; evaluated : list EvaluatedPair;
  placement : Placement; recalled : nat }.

Record Correlator := MkCorrelator {
  window_s : float; max_candidates : Z; max_window : nat;
  scorer : SafeScorer; window : list WindowAlarm; index : gmap Z WindowAlarm; recall_index : CandidateIndex;
  episodes : EpisodeMemory; grouper : Grouper; live : gset Z; overflow_dropped : Z }.

Definition new_correlator (s : SafeScorer) : Correlator :=
  MkCorrelator WINDOW_S MAX_CANDIDATES MAX_WINDOW_ALARMS s [] ∅ new_index new_memory
    (new_grouper MODE_COMPONENTS default_params) ∅ 0.

(** ** The window *)

Definition set_window (w : list WindowAlarm) (ix : gmap Z WindowAlarm) (dropped : Z) (c : Correlator) : Correlator :=
  MkCorrelator (window_s c) (max_candidates c) (max_window c) (scorer c) w ix (recall_index c) (episodes c) (grouper c) (live c) dropped.

(** The old entries at the left of the deque. *)
Fixpoint evict_old (horizon now : float) (w : list WindowAlarm) (ix : gmap Z WindowAlarm) : list WindowAlarm * gmap Z WindowAlarm :=
  match w with
  | [] => (w, ix)
  | a :: w' => if aged horizon now a then evict_old horizon now w' (delete (Candidates.alarm_id a) ix) else (w, ix)
  end.

(** The oldest of too many entries, counting the live ones. *)
Fixpoint evict_excess (n : nat) (w : list WindowAlarm) (ix : gmap Z WindowAlarm) (dropped : Z)
  : list WindowAlarm * gmap Z WindowAlarm * Z :=
  match n, w with
  | S n, a :: w =>
      evict_excess n w (delete (Candidates.alarm_id a) ix)
        (if bool_decide (is_Some (ix !! Candidates.alarm_id a)) then dropped + 1 else dropped)
  | _, _ => (w, ix, dropped)
  end.

Definition evict (now : float) (c : Correlator) : Correlator :=
  let '(w, ix) := evict_old (window_s c) now (window c) (index c) in
  let '(w, ix, dropped) := evict_excess (length w - max_window c) w ix (overflow_dropped c) in
  set_window w ix dropped c.

Definition remove (id : Z) (c : Correlator) : Correlator :=
  MkCorrelator (window_s c) (max_candidates c) (max_window c) (scorer c) (window c) (delete id (index c)) (recall_index c)
    (episodes c) (grouper c) (live c ∖ {[id]}) (overflow_dropped c).

Definition prune (now : float) (c : Correlator) : Correlator :=
  let r := Candidates.prune now (recall_index c) in
  MkCorrelator (window_s c) (max_candidates c) (max_window c) (scorer c) (window c) (index c) r
    (Episodes.prune now (episodes c)) (grouper c) (live c ∩ (dom (index c) ∪ ring_ids r)) (overflow_dropped c).

Definition take_overflow (c : Correlator) : Z * Correlator := (overflow_dropped c, set_window (window c) (index c) 0 c).

(** What a scorer carries of grouping, when it is a trained model. *)
Definition set_scorer (s : SafeScorer) (grouping : option GroupingParams) (c : Correlator) : Correlator :=
  let g := grouper c in
  let g := match grouping with
           | Some p => MkGrouper MODE_CLUSTER p (cross g) (cells g) (next_cell g)
           | None => MkGrouper MODE_COMPONENTS (params g) (cross g) (cells g) (next_cell g)
           end in
  MkCorrelator (window_s c) (max_candidates c) (max_window c) s (window c) (index c) (recall_index c) (episodes c) g (live c)
    (overflow_dropped c).

Definition recent_live (now : float) (c : Correlator) : list WindowAlarm :=
  select_candidates (window c) now (window_s c) (max_candidates c) (Some (dom (index c))).

Definition two_stage (c : Correlator) : bool := fast_path (scorer c).

Section scoring.
Context (exp : float → float) (fpow : float → Z → float) (ln : float → float).
(** The active scorer: what it answers and the time it takes. *)
Context (d_score : LinkFeatures → Answer * float) (d_logit : list float → Logit * float).
Context (learner : Learner).

Definition features (new old : WindowAlarm) (vec : option (list float)) : LinkFeatures :=
  let known := negb (String.eqb (Candidates.oid_root new) "") && negb (String.eqb (Candidates.oid_root old) "") in
  MkFeatures (SFabs (fsub (ts new) (ts old))) (class_id new) (class_id old)
    (match vec with Some v => nth 4 v f_zero | None => Learn.class_affinity fpow ln learner (class_id new) (class_id old) end)
    (device_id new) (device_id old)
    (match vec with
     | Some v => nth 5 v f_zero
     | None => Learn.entity_affinity fpow ln learner (entity_id new) (device_id new) (entity_id old) (device_id old)
     end)
    (if known then Some (String.eqb (Candidates.oid_root new) (Candidates.oid_root old)) else None) vec.

(** [self.scorer.score(features)]. *)
Definition ask (f : LinkFeatures) (s : SafeScorer) : LinkScore * SafeScorer :=
  let '(a, t) := d_score f in safe_score exp a t f s.

(** One candidate, by the fast path when there is one; [vec] is [None] for the formula. *)
Definition evaluate (new : WindowAlarm) (old : WindowAlarm) (vec : option (list float)) (s : SafeScorer) : EvaluatedPair * SafeScorer :=
  match vec with
  | Some v =>
      let '(l, t) := d_logit v in
      match fast l t s with
      | (Some (margin, accepted), s) => (MkPair old None vec margin accepted, s)
      | (None, s) => let '(r, s) := ask (features new old vec) s in (MkPair old (Some r) vec f_zero false, s)
      end
  | None => let '(r, s) := ask (features new old None) s in (MkPair old (Some r) None f_zero false, s)
  end.

Fixpoint evaluate_all (new : WindowAlarm) (pairs : list (WindowAlarm * option (list float))) (s : SafeScorer)
  : list EvaluatedPair * SafeScorer :=
  match pairs with
  | [] => ([], s)
  | (old, vec) :: pairs =>
      let '(p, s) := evaluate new old vec s in
      let '(ps, s) := evaluate_all new pairs s in (p :: ps, s)
  end.

(** The kept links, each with its explanation. *)
Fixpoint explain_all (new : WindowAlarm) (kept : list EvaluatedPair) (s : SafeScorer) : list ScoredLink * SafeScorer :=
  match kept with
  | [] => ([], s)
  | p :: kept =>
      let '(r, s) := match p_result p with
                     | Some r => (r, s)
                     | None => ask (features new (p_other p) (p_vector p)) s
                     end in
      let '(ls, s) := explain_all new kept s in (MkLink (p_other p) r :: ls, s)
  end.

(** By evidence, the most first; equal ones in candidate order. *)
Definition stronger (a b : EvaluatedPair) : bool := fleb (p_evidence b) (p_evidence a).
Definition kept_of (ps : list EvaluatedPair) : list EvaluatedPair :=
  take MAX_LINKS_PER_ALARM (sort_by stronger (List.filter p_linked ps)).

(** The candidates of an activation, on the correlator it finds, and how many recall added. *)
Definition candidates_of (new : WindowAlarm) (c : Correlator) : list WindowAlarm * list WindowAlarm :=
  let w := recent_live (ts new) c in
  (w, if two_stage c
      then recall new (live c) (list_to_set (map Candidates.alarm_id w)) (neighbours (episodes c) (device_id new)) (recall_index c)
      else []).

Definition vectors_of (new : WindowAlarm) (c : Correlator) (cands : list WindowAlarm) : list (option (list float)) :=
  if two_stage c
  then map Some (vectors (Learn.class_affinity fpow ln learner) (Learn.entity_affinity fpow ln learner) new (episodes c)
                   (Z.of_nat (size (index c))) cands)
  else map (fun _ => None) cands.

Definition teach (new : WindowAlarm) (cands : list WindowAlarm) (m : EpisodeMemory) : EpisodeMemory :=
  foldl (fun m old =>
           if fleb (fsub (ts new) (ts old)) CO_WINDOW_S
           then observe (device_id new, class_id new) (device_id old, class_id old) (ts new) m else m) m cands.

Definition process (new : WindowAlarm) (sit_of : gmap Z Z) (own : option Z) (teaches : bool) (c : Correlator)
  : CorrelationResult * Correlator :=
  let c := remove (Candidates.alarm_id new) (evict (ts new) c) in
  let '(w, extra) := candidates_of new c in
  let cands := w ++ extra in
  let burst := Z.of_nat (size (index c)) in
  let '(ps, s) := evaluate_all new (zip cands (vectors_of new c cands)) (scorer c) in
  let '(ls, s) := explain_all new (kept_of ps) s in
  let pl := place (grouper c) (map scored_of ps) sit_of own in
  (MkResult ls w (STORM_ALARMS <=? burst) ps pl (length extra),
   MkCorrelator (window_s c) (max_candidates c) (max_window c) s (window c ++ [new]) (<[Candidates.alarm_id new := new]> (index c))
     (add new (recall_index c)) (if teaches then teach new cands (episodes c) else episodes c) (grouper c)
     ({[Candidates.alarm_id new]} ∪ live c) (overflow_dropped c)).
End scoring.

(** The engine executed the placement: the alarm is in [sid]. *)
Definition commit (sid : Z) (outcome : CorrelationResult) (sit_of : gmap Z Z) (c : Correlator) : Correlator :=
  MkCorrelator (window_s c) (max_candidates c) (max_window c) (scorer c) (window c) (index c) (recall_index c) (episodes c)
    (Grouping.commit (grouper c) sid (placement outcome) (map scored_of (evaluated outcome)) sit_of) (live c) (overflow_dropped c).

(** ** The window's bookkeeping *)

Inductive reachable : Correlator → Prop :=
| rc_new s : reachable (new_correlator s)
| rc_process exp fpow ln d_score d_logit learner new sit_of own teaches c :
    reachable c → f_finite (ts new) = true →
    reachable (process exp fpow ln d_score d_logit learner new sit_of own teaches c).2
| rc_remove id c : reachable c → reachable (remove id c)
| rc_prune now c : reachable c → reachable (prune now c)
| rc_take_overflow c : reachable c → reachable (take_overflow c).2
| rc_set_scorer s g c : reachable c → reachable (set_scorer s g c)
| rc_commit sid out sit_of c : reachable c → reachable (commit sid out sit_of c).

Definition tracked (w : list WindowAlarm) (ix : gmap Z WindowAlarm) : Prop :=
  ∀ i a, ix !! i = Some a → Candidates.alarm_id a = i ∧ a ∈ w.

Record cor_ok (c : Correlator) : Prop := {
  ck_index : tracked (window c) (index c);
  ck_live : dom (index c) ⊆ live c;
  ck_window : (length (window c) ≤ S (max_window c))%nat;
  ck_recall : indexed (recall_index c) }.

Lemma tracked_pop a w ix : tracked (a :: w) ix → tracked w (delete (Candidates.alarm_id a) ix).
Proof.
  intros H i b [Hi Hb]%lookup_delete_Some. destruct (H _ _ Hb) as [<- Hw]. split; [done|].
  apply elem_of_cons in Hw as [->|Hw]; [done | exact Hw].
Qed.

Lemma evict_old_ok horizon now w ix :
  tracked w ix → let '(w', ix') := evict_old horizon now w ix in tracked w' ix' ∧ dom ix' ⊆ dom ix ∧ suffix w' w.
Proof.
  revert ix. induction w as [|a w IH]; intros ix H; cbn [evict_old]; [by split_and!|].
  destruct (aged horizon now a); [|by split_and!].
  specialize (IH _ (tracked_pop a w ix H)). destruct (evict_old horizon now w (delete (Candidates.alarm_id a) ix)) as [w' ix'].
  destruct IH as (H1 & H2 & H3). split; [done|]. split; [set_solver | by apply suffix_cons_r].
Qed.

Lemma evict_excess_ok n w ix d :
  tracked w ix → let '(w', ix', d') := evict_excess n w ix d in
  tracked w' ix' ∧ dom ix' ⊆ dom ix ∧ w' = drop n w ∧ d ≤ d' ≤ d + Z.of_nat n.
Proof.
  revert w ix d. induction n as [|n IH]; intros w ix d H; [split_and!; [done..|lia|lia]|].
  destruct w as [|a w]; [split_and!; [done..|lia|lia]|]. cbn [evict_excess].
  specialize (IH w _ (if bool_decide (is_Some (ix !! Candidates.alarm_id a)) then d + 1 else d) (tracked_pop a w ix H)).
  destruct (evict_excess n w _ _) as [[w' ix'] d']. destruct IH as (H1 & H2 & -> & H4). split; [done|].
  split; [set_solver|]. split; [done|]. case_bool_decide; lia.
Qed.

Lemma evict_ok now c : cor_ok c →
  cor_ok (evict now c) ∧ (length (window (evict now c)) ≤ max_window (evict now c))%nat ∧ dom (index (evict now c)) ⊆ dom (index c) ∧
  suffix (window (evict now c)) (window c).
Proof.
  intros [H1 H2 H3 H4]. unfold evict. pose proof (evict_old_ok (window_s c) now _ _ H1) as Ho.
  destruct (evict_old (window_s c) now (window c) (index c)) as [w ix]. destruct Ho as (O1 & O2 & O3).
  pose proof (evict_excess_ok (length w - max_window c) w ix (overflow_dropped c) O1) as He.
  destruct (evict_excess (length w - max_window c) w ix (overflow_dropped c)) as [[w' ix'] d]. destruct He as (E1 & E2 & -> & _).
  simpl. assert (length (drop (length w - max_window c) w) ≤ max_window c)%nat by (rewrite length_drop; lia).
  split; [|split; [done|]].
  - split; simpl; [done | set_solver | lia | done].
  - split; [set_solver|]. etransitivity; [|exact O3]. exists (take (length w - max_window c) w). by rewrite take_drop.
Qed.

Lemma remove_ok id c : cor_ok c → cor_ok (remove id c).
Proof.
  intros [H1 H2 H3 H4]. split; simpl; [|set_solver|done|done]. intros i a [_ Ha]%lookup_delete_Some. by apply H1.
Qed.

Lemma process_fields exp fpow ln d_score d_logit learner new sit_of own teaches c :
  let c0 := remove (Candidates.alarm_id new) (evict (ts new) c) in
  let c1 := (process exp fpow ln d_score d_logit learner new sit_of own teaches c).2 in
  window c1 = window c0 ++ [new] ∧ index c1 = <[Candidates.alarm_id new := new]> (index c0) ∧
  live c1 = {[Candidates.alarm_id new]} ∪ live c0 ∧ recall_index c1 = add new (recall_index c0) ∧
  max_window c1 = max_window c0 ∧ grouper c1 = grouper c0 ∧ overflow_dropped c1 = overflow_dropped c0 ∧
  (teaches = false → episodes c1 = episodes c0).
Proof.
  cbn zeta. unfold process. set (c0 := remove _ _). destruct (candidates_of new c0) as [w extra]. cbv zeta.
  destruct (evaluate_all _ _ _ _ _ _ _ _ _) as [ps s]. destruct (explain_all _ _ _ _ _ _ _ _) as [ls s'].
  simpl. split_and!; try done. by intros ->.
Qed.

Lemma reachable_ok c : reachable c → cor_ok c.
Proof.
  induction 1 as [s|exp fpow ln d_score d_logit learner new sit_of own teaches c Hc IH Hf|id c Hc IH|now c Hc IH|c Hc IH|s g c Hc IH|sid out sit_of c Hc IH].
  - split; simpl; [|set_solver|lia|apply ix_new]. intros i a. by rewrite lookup_empty.
  - destruct (evict_ok (ts new) c IH) as (He & Hw & _). apply (remove_ok (Candidates.alarm_id new)) in He as [H1 H2 H3 H4].
    pose proof (process_fields exp fpow ln d_score d_logit learner new sit_of own teaches c) as Hp. cbn zeta in Hp.
    destruct Hp as (P1 & P2 & P3 & P4 & P5 & _). split.
    + rewrite P1, P2. intros i a [[<- <-]|[_ Ha]]%lookup_insert_Some; [split; [done | apply elem_of_app; right; by left]|].
      destruct (H1 _ _ Ha). split; [done | apply elem_of_app; by left].
    + rewrite P2, P3. set_solver.
    + rewrite P1, P5, length_app. simpl in Hw |- *. lia.
    + rewrite P4. by apply ix_add.
  - by apply remove_ok.
  - destruct IH as [H1 H2 H3 H4]. split; simpl; [done | set_solver | done | by apply ix_prune].
  - by destruct IH.
  - by destruct IH.
  - by destruct IH.
Qed.

(** ** The links *)

Section scoring_facts.
Context (exp : float → float) (fpow : float → Z → float) (ln : float → float).
Context (d_score : LinkFeatures → Answer * float) (d_logit : list float → Logit * float) (learner : Learner).

Lemma evaluate_other new old vec s : p_other (evaluate exp fpow ln d_score d_logit learner new old vec s).1 = old.
Proof.
  unfold evaluate. destruct vec as [v|].
  - destruct (d_logit v) as [l t]. destruct (fast l t s) as [[[m a]|] s']; [done|].
    by destruct (ask exp d_score (features fpow ln learner new old (Some v)) s').
  - by destruct (ask exp d_score (features fpow ln learner new old None) s).
Qed.

Lemma evaluate_all_others new pairs s :
  map p_other (evaluate_all exp fpow ln d_score d_logit learner new pairs s).1 = map fst pairs.
Proof.
  revert s. induction pairs as [|[old vec] pairs IH]; intros s; [done|]. cbn [evaluate_all].
  pose proof (evaluate_other new old vec s) as He. destruct (evaluate _ _ _ _ _ _ new old vec s) as [p s1].
  specialize (IH s1). destruct (evaluate_all _ _ _ _ _ _ new pairs s1) as [ps s2]. simpl in *. by rewrite He, IH.
Qed.

Lemma explain_all_others new kept s : map l_other (explain_all exp fpow ln d_score learner new kept s).1 = map p_other kept.
Proof.
  revert s. induction kept as [|p kept IH]; intros s; [done|]. cbn [explain_all].
  destruct (match p_result p with Some r => (r, s) | None => _ end) as [r s1].
  specialize (IH s1). destruct (explain_all _ _ _ _ _ new kept s1) as [ls s2]. simpl in *. by rewrite IH.
Qed.

Lemma vectors_of_length new c cands : length (vectors_of fpow ln learner new c cands) = length cands.
Proof.
  unfold vectors_of. destruct (two_stage c); rewrite length_map; [|done].
  rewrite (proj1 (shared_lookups_are_exact _ _ _ _ _ _)). apply length_map.
Qed.

Lemma select_go_sub now h mx lv newest recent a :
  a ∈ select_go now h mx lv newest recent → a ∈ recent ∨ (a ∈ newest ∧ is_live lv a = true).
Proof.
  revert recent. induction newest as [|b older IH]; intros recent; cbn [select_go]; [by left|].
  destruct (aged h now b); [by left|]. destruct (is_live lv b) eqn:El; cbn [negb].
  - destruct (mx <=? _).
    + rewrite elem_of_app, list_elem_of_singleton. intros [? | ->]; [by left | right; split; [by left | done]].
    + intros H. apply IH in H as [Ha|[Ha Hl]]; [|right; split; [by right | done]].
      apply elem_of_app in Ha as [?|Ha]; [by left|]. apply list_elem_of_singleton in Ha as ->. right. split; [by left | done].
  - intros [Ha|[Ha Hl]]%IH; [by left | right; split; [by right | done]].
Qed.

Lemma select_go_length now h mx lv newest recent :
  1 ≤ mx → Z.of_nat (length recent) < mx → Z.of_nat (length (select_go now h mx lv newest recent)) ≤ mx.
Proof.
  intros Hm. revert recent. induction newest as [|b older IH]; intros recent Hr; cbn [select_go]; [lia|].
  destruct (aged h now b); [lia|]. destruct (is_live lv b); cbn [negb]; [|by apply IH].
  destruct (Z.leb_spec mx (Z.of_nat (length (recent ++ [b])))); [rewrite length_app in *; simpl in *; lia | by apply IH].
Qed.

Lemma select_candidates_sub w now h mx lv a : a ∈ select_candidates w now h mx lv → a ∈ w ∧ is_live lv a = true.
Proof.
  unfold select_candidates. rewrite list_elem_of_In, <- in_rev, <- list_elem_of_In.
  intros [Ha|[Ha Hl]]%select_go_sub; [by apply elem_of_nil in Ha|]. split; [|done].
  by rewrite list_elem_of_In, <- in_rev, <- list_elem_of_In in Ha.
Qed.
End scoring_facts.

Lemma stronger_trans a b c : stronger a b = true → stronger b c = true → stronger a c = true.
Proof. unfold stronger. intros H1 H2. by eapply fleb_trans. Qed.

Lemma kept_of_spec ps :
  (∀ p, p ∈ ps → is_nan (p_evidence p) = false) →
  ∃ rest, kept_of ps ++ rest ≡ₚ List.filter p_linked ps ∧
    (∀ p q, p ∈ kept_of ps → q ∈ rest → stronger p q = true) ∧ (rest = [] ∨ length (kept_of ps) = 5%nat).
Proof.
  intros Hn. set (sorted := sort_by stronger (List.filter p_linked ps)).
  assert (StronglySorted (fun x y => stronger x y = true) sorted) as Hs.
  { apply (sort_by_sorted _ (fun p => is_nan (p_evidence p) = false)); [| |exact stronger_trans].
    - apply Forall_forall. intros p Hp. apply Hn. rewrite list_elem_of_In in *. by apply filter_In in Hp as [? _].
    - intros x y Hx Hy. unfold stronger. by apply fleb_total. }
  exists (drop MAX_LINKS_PER_ALARM sorted). unfold kept_of. fold sorted. split; [|split].
  - rewrite take_drop. apply sort_by_perm.
  - intros p q Hp Hq. rewrite <- (take_drop MAX_LINKS_PER_ALARM sorted) in Hs.
    clear -Hs Hp Hq. revert Hs. generalize (drop MAX_LINKS_PER_ALARM sorted), (take MAX_LINKS_PER_ALARM sorted), Hp, Hq.
    intros d t Ht Hd. clear Hp Hq. induction t as [|x t IH]; [by apply elem_of_nil in Ht|]. simpl.
    intros [Hs Hx]%StronglySorted_inv. apply elem_of_cons in Ht as [->|Ht]; [|by apply IH].
    apply Forall_app in Hx as [_ Hx]. by rewrite Forall_forall in Hx; apply Hx.
  - rewrite length_take. destruct (Nat.le_gt_cases (length sorted) MAX_LINKS_PER_ALARM) as [Hl|Hl].
    + left. by apply drop_ge.
    + right. unfold MAX_LINKS_PER_ALARM in *. lia.
Qed.

Lemma reachable_params c : reachable c → window_s c = WINDOW_S ∧ max_candidates c = 100 ∧ max_window c = MAX_WINDOW_ALARMS.
Proof.
  induction 1 as [s|exp fpow ln d_score d_logit learner new sit_of own teaches c Hc IH Hf|id c Hc IH|now c Hc IH|c Hc IH|s g c Hc IH|sid out sit_of c Hc IH];
    [done| |done..].
  unfold process. assert (∀ now c, window_s (evict now c) = window_s c ∧ max_candidates (evict now c) = max_candidates c ∧
    max_window (evict now c) = max_window c) as He.
  { clear. intros now c. unfold evict. destruct (evict_old _ _ _ _) as [w ix]. by destruct (evict_excess _ _ _ _) as [[w' ix'] d]. }
  destruct (He (ts new) c) as (E1 & E2 & E3). destruct IH as (I1 & I2 & I3).
  set (c0 := remove _ _). destruct (candidates_of new c0) as [w extra]. cbv zeta.
  destruct (evaluate_all _ _ _ _ _ _ _ _ _) as [ps s]. destruct (explain_all _ _ _ _ _ _ _ _) as [ls s'].
  subst c0. cbn [snd window_s max_candidates max_window remove]. split_and!; congruence.
Qed.

(** Whatever arrives, clears, is pruned or swaps the scorer, the window holds at most 20 001 entries;
    every alarm it calls live is an entry of it, is one [recall] may propose, and is filed under its
    own id; and after a prune nothing is live that neither the window nor a ring can propose. *)
Theorem the_window_is_bounded_and_tracked c (H : reachable c) :
  Z.of_nat (length (window c)) ≤ 20001 ∧
  (∀ i a, index c !! i = Some a → Candidates.alarm_id a = i ∧ a ∈ window c ∧ i ∈ live c) ∧
  indexed (recall_index c) ∧
  (∀ now, live (prune now c) ⊆ dom (index c) ∪ ring_ids (recall_index (prune now c)) ∧ dom (index c) ⊆ live (prune now c)).
Proof.
  pose proof (reachable_ok c H) as [H1 H2 H3 H4]. destruct (reachable_params c H) as (_ & _ & Hm).
  split; [rewrite Hm in H3; unfold MAX_WINDOW_ALARMS in H3; lia|]. split; [|split; [done|]].
  - intros i a Ha. destruct (H1 i a Ha) as [Hi Hw]. split; [done|]. split; [done|]. apply H2, elem_of_dom. eauto.
  - intros now. simpl. set_solver.
Qed.

(** An activation is compared with at most a hundred live alarms of the window and at most 64 recalled ones (none
    under the formula), never with itself; every one gets a verdict, and its links are five of the
    accepted pairs, or all of them, none left out stronger than one kept; and an alarm under a
    maintenance window moves no memory of episodes. *)
Theorem an_activation_links_its_strongest_candidates exp fpow ln d_score d_logit learner new sit_of own teaches c
    (H : reachable c) :
  let c0 := remove (Candidates.alarm_id new) (evict (ts new) c) in
  let '(out, c') := process exp fpow ln d_score d_logit learner new sit_of own teaches c in
  (∃ extra, map p_other (evaluated out) = considered out ++ extra ∧ recalled out = length extra ∧
     (length (considered out) ≤ 100)%nat ∧ (length extra ≤ 64)%nat ∧ (two_stage c0 = false → extra = []) ∧
     (∀ a, a ∈ considered out → a ∈ window c0 ∧ Candidates.alarm_id a ∈ dom (index c0) ∧ Candidates.alarm_id a ≠ Candidates.alarm_id new) ∧
     (∀ a, a ∈ extra → proposable new (live c0) (list_to_set (map Candidates.alarm_id (considered out))) a)) ∧
  ((∀ p, p ∈ evaluated out → is_nan (p_evidence p) = false) →
   ∃ kept rest, map l_other (links out) = map p_other kept ∧ kept ++ rest ≡ₚ List.filter p_linked (evaluated out) ∧
     (∀ p q, p ∈ kept → q ∈ rest → stronger p q = true) ∧ (length kept ≤ 5)%nat ∧ (rest = [] ∨ length kept = 5%nat)) ∧
  (teaches = false → episodes c' = episodes c0).
Proof.
  cbn zeta. destruct (reachable_params c H) as (_ & Hmax & _).
  pose proof (reachable_ok c H) as Hc. destruct (evict_ok (ts new) c Hc) as (He & _).
  apply (remove_ok (Candidates.alarm_id new)) in He.
  pose proof (process_fields exp fpow ln d_score d_logit learner new sit_of own teaches c) as Hp. cbn zeta in Hp.
  destruct Hp as (_ & _ & _ & _ & _ & _ & _ & Hep). unfold process in *.
  assert (max_candidates (remove (Candidates.alarm_id new) (evict (ts new) c)) = 100) as Hm0.
  { unfold evict. destruct (evict_old _ _ _ _) as [w ix]. by destruct (evict_excess _ _ _ _) as [[w' ix'] d]. }
  assert (Candidates.alarm_id new ∉ dom (index (remove (Candidates.alarm_id new) (evict (ts new) c)))) as Hnew by (simpl; set_solver).
  set (c0 := remove _ _) in *. destruct (candidates_of new c0) as [w extra] eqn:Ec. cbv zeta in Hep |- *.
  pose proof (evaluate_all_others exp fpow ln d_score d_logit learner new (zip (w ++ extra) (vectors_of fpow ln learner new c0 (w ++ extra))) (scorer c0)) as Ho.
  destruct (evaluate_all _ _ _ _ _ _ _ _ _) as [ps s]. cbn [fst] in Ho.
  pose proof (explain_all_others exp fpow ln d_score learner new (kept_of ps) s) as Hl.
  destruct (explain_all _ _ _ _ _ _ _ _) as [ls s']. cbn [fst snd links evaluated considered recalled episodes] in *.
  unfold candidates_of in Ec. injection Ec as Ew Eex. split; [|split; [|exact Hep]].
  - exists extra. rewrite Ho. split.
    { change (map fst (zip (w ++ extra) (vectors_of fpow ln learner new c0 (w ++ extra)))) with
        (fst <$> zip (w ++ extra) (vectors_of fpow ln learner new c0 (w ++ extra))).
      apply fst_zip. by rewrite vectors_of_length. }
    split; [done|]. split.
    { subst w. unfold recent_live, select_candidates. rewrite length_rev, Hm0.
      pose proof (select_go_length (ts new) (window_s c0) 100 (Some (dom (index c0))) (rev (window c0)) []
        ltac:(lia) ltac:(simpl; lia)) as Hs. lia. }
    pose proof (recall_is_bounded_and_related _ new (live c0) (neighbours (episodes c0) (device_id new))
      (list_to_set (map Candidates.alarm_id w)) (ck_recall _ He)) as (R1 & _ & _ & R4 & _).
    split; [|split; [|split]].
    + rewrite <- Eex, Ew. destruct (two_stage c0); [exact R1 | simpl; lia].
    + intros E. by rewrite <- Eex, E.
    + intros a Ha. rewrite <- Ew in Ha. apply select_candidates_sub in Ha as [Ha Hal]. split; [done|].
      simpl in Hal. apply bool_decide_eq_true in Hal. split; [done|]. intros Heq. by rewrite Heq in Hal.
    + intros a. rewrite <- Eex, Ew. destruct (two_stage c0); [|by intros ?%elem_of_nil]. intros Ha.
      rewrite Forall_forall in R4. by apply R4.
  - intros Hn. destruct (kept_of_spec ps Hn) as (rest & K1 & K2 & K3). exists (kept_of ps), rest.
    split; [done|]. split; [done|]. split; [done|]. split; [|done]. unfold kept_of. rewrite length_take. unfold MAX_LINKS_PER_ALARM. lia.
Qed.

(** ** Concrete activations *)

Definition no_pow (_ : float) (_ : Z) : float := f_one.
Definition no_ln (x : float) : float := x.
Definition formula (f : LinkFeatures) : Answer * float := (A_score (additive_score flat default_scorer f), f_zero).
Definition no_logit (_ : list float) : Logit * float := (L_raises "AttributeError", f_zero).
Definition arrive (a : WindowAlarm) (c : Correlator) : CorrelationResult * Correlator :=
  process flat no_pow no_ln formula no_logit Learn.new_learner a ∅ None true c.
Definition c_zero : Correlator := new_correlator (new_safe false f_zero).
Definition c_one : Correlator := (arrive (alarm_at 1 7 1 0) c_zero).2.

Lemma c_one_reachable : reachable c_one.
Proof. apply rc_process; [apply rc_new | reflexivity]. Qed.

Lemma the_window_is_bounded_and_tracked_witness :
  reachable c_one ∧ map Candidates.alarm_id (window c_one) = [1] ∧ Z.of_nat (length (window c_one)) ≤ 20001.
Proof.
  split; [exact c_one_reachable|]. split; [vm_compute; reflexivity|].
  apply (the_window_is_bounded_and_tracked c_one c_one_reachable).
Defined.

Lemma an_activation_links_its_strongest_candidates_witness :
  reachable c_one ∧
  match process flat no_pow no_ln formula no_logit Learn.new_learner (alarm_at 2 8 1 30) ∅ None false c_one with
  | (out, c') => map Candidates.alarm_id (considered out) = [1] ∧ episodes c' = episodes c_one
  end.
Proof.
  split; [exact c_one_reachable|].
  pose proof (an_activation_links_its_strongest_candidates flat no_pow no_ln formula no_logit Learn.new_learner
    (alarm_at 2 8 1 30) ∅ None false c_one c_one_reachable) as H. cbn zeta in H.
  destruct (process _ _ _ _ _ _ _ _ _ _ _) as [out c'] eqn:E. destruct H as (_ & _ & H).
  split; [|exact (H eq_refl)].
  assert (considered out = considered (process flat no_pow no_ln formula no_logit Learn.new_learner
    (alarm_at 2 8 1 30) ∅ None false c_one).1) as -> by (by rewrite E). vm_compute. reflexivity.
Defined.

(** An alarm that clears and comes back within the window leaves its first entry in the deque: under its
    id both are live, and the next activation is compared with it twice. *)
Definition c_back : Correlator := (arrive (alarm_at 1 7 1 60) (remove 1 c_one)).2.
Example a_returned_alarm_is_compared_twice :
  map Candidates.alarm_id (considered (arrive (alarm_at 2 7 2 90) c_back).1) = [1; 1].
Proof. vm_compute. reflexivity. Qed.

(** And when the first entry ages out it takes the id with it: the alarm active since 60 s is no
    candidate at 130 s, though it is 70 s old. *)
Example a_returned_alarm_is_forgotten_early :
  (map Candidates.alarm_id (considered (arrive (alarm_at 3 7 3 130) c_back).1),
   map Candidates.alarm_id (window (evict (f_of_Z 130) c_back))) = ([], [1]).
Proof. vm_compute. reflexivity. Qed.
