(* ===== verification/Situations.v ===== *)
(** * Situations: their rows, the maps that mirror them, and who may grow them
    ([store/situations.py], [store/restructure.py], [store/proposals.py], [engine/operate/proposals.py],
    [engine/operate/membership.py], [engine/operate/engine.py])

    A [Db] is what the tables say; an [Engine] holds the database, the two maps, and the components an
    activation goes through. The lifecycle's table of transitions, the engine's placement with the rule
    about confirmed work, and the operators' gestures are one definition each. A derived name is a
    projection of the membership and is left out, as are the events and labels the gestures record. *)
From S2P Require Import Prelude PyLib Floats Alternation Grouping Episodes Learn Scoring Candidates PairFeatures Correlator RootCause.

(** ** The lifecycle ([TRANSITIONS]) *)

Definition TRANSITIONS : list (string * list (option string * string)) :=
  let attention := [(Some "new", "open"); (Some "pending", "open")] in
  let leaving := [(Some "new", "resolved"); (Some "pending", "resolved"); (Some "open", "resolved")] in
  [("correlate", [(None, "new")]); ("surface", [(None, "new")]); ("operator_split", [(None, "open")]);
   ("propose", [(None, "pending")]); ("promote", attention); ("feedback", attention); ("move", attention);
   ("merge", attention); ("split", attention); ("hand_clear", attention); ("autonomy", [(Some "new", "open")]);
   ("accept", [(Some "pending", "resolved")]); ("reject", [(Some "pending", "new")]);
   ("lapse", [(Some "pending", "new")]); ("rename", []); ("close", leaving); ("self_cleared", leaving);
   ("idle", leaving); ("merged_away", leaving); ("manual_clear", leaving)].

Definition edge (act : string) (from : option string) : option string :=
  edges ← assoc act TRANSITIONS; assoc from edges.
Definition ATTENTION : list string := filter (fun act => edge act (Some "new") = Some "open") TRANSITIONS.*1.

Definition LIVE_STATES : list string := ["new"; "pending"; "open"].
Definition LIVE (status : string) : bool := bool_decide (status ∈ LIVE_STATES).

(** ** The tables *)

Record Situation := MkSituation {
  status : string; created_at : float; updated_at : float; closed_at : option float; resolution : option string;
  merged_into : option Z; proposed_into : option Z; proposal_confidence : option float; root_alarm_id : option Z;
  scorer_config_id : option Z; decider : option string }.

Record LinkRow := MkLinkRow {
  lk_situation : Z; lk_a : Z; lk_b : Z; lk_score : float; lk_term_t : float; lk_term_a : float; lk_term_e : float;
  lk_at : float }.

(** [situation_alarm] is a set of pairs: its two columns are its key. [active] are the alarms that are. *)
Record Db := MkDb {
  situations : gmap Z Situation; next_id : Z; situation_alarm : gset (Z * Z); link_rows : list LinkRow; active : gset Z }.

Definition with_situations (s : gmap Z Situation) (d : Db) : Db := MkDb s (next_id d) (situation_alarm d) (link_rows d) (active d).
Definition with_rows (r : gset (Z * Z)) (d : Db) : Db := MkDb (situations d) (next_id d) r (link_rows d) (active d).
Definition with_links (l : list LinkRow) (d : Db) : Db := MkDb (situations d) (next_id d) (situation_alarm d) l (active d).

Definition status_of (d : Db) (sid : Z) : option string := status <$> situations d !! sid.
Definition live_in (d : Db) (sid : Z) : bool := match status_of d sid with Some st => LIVE st | None => false end.

(** An [UPDATE ... WHERE id = ?]: a row that is not there stays so. *)
Definition update (sid : Z) (f : Situation -> Situation) (d : Db) : Db := with_situations (alter f sid (situations d)) d.

Definition set_state (st : string) (res : option string) (into : option Z) (ts : float) (s : Situation) : Situation :=
  MkSituation st (created_at s) ts (Some ts) res into (proposed_into s) (proposal_confidence s) (root_alarm_id s)
    (scorer_config_id s) (decider s).
Definition set_proposed (st : string) (into : option Z) (conf : option float) (ts : float) (s : Situation) : Situation :=
  MkSituation st (created_at s) ts (closed_at s) (resolution s) (merged_into s) into conf (root_alarm_id s)
    (scorer_config_id s) (decider s).
Definition set_updated (ts : float) (s : Situation) : Situation :=
  MkSituation (status s) (created_at s) ts (closed_at s) (resolution s) (merged_into s) (proposed_into s)
    (proposal_confidence s) (root_alarm_id s) (scorer_config_id s) (decider s).
Definition with_root (alarm : Z) (s : Situation) : Situation :=
  MkSituation (status s) (created_at s) (updated_at s) (closed_at s) (resolution s) (merged_into s) (proposed_into s)
    (proposal_confidence s) (Some alarm) (scorer_config_id s) (decider s).

Definition create_situation (ts : float) (config : option Z) (act : string) (dec : option string) (d : Db) : Z * Db :=
  let st := default "" (edge act None) in
  let row := MkSituation st ts ts None None None None None None config dec in
  (next_id d, MkDb (<[next_id d := row]> (situations d)) (next_id d + 1) (situation_alarm d) (link_rows d) (active d)).

Definition insert_member (sid alarm : Z) (d : Db) : bool * Db :=
  (bool_decide ((sid, alarm) ∉ situation_alarm d), with_rows ({[(sid, alarm)]} ∪ situation_alarm d) d).

Definition of_situation (sid : Z) (r : gset (Z * Z)) : gset (Z * Z) := filter (fun e => e.1 = sid) r.
Definition members_of (sid : Z) (d : Db) : gset Z := set_map snd (of_situation sid (situation_alarm d)).

Definition touch_situation (sid : Z) (ts : float) : Db -> Db := update sid (set_updated ts).

Definition relink (dst src : Z) (l : LinkRow) : LinkRow :=
  if lk_situation l =? src then MkLinkRow dst (lk_a l) (lk_b l) (lk_score l) (lk_term_t l) (lk_term_a l) (lk_term_e l) (lk_at l)
  else l.

Definition merge_situations (dst src : Z) (ts : float) (d : Db) : Db :=
  let rows := situation_alarm d ∪ set_map (fun e => (dst, e.2)) (of_situation src (situation_alarm d)) in
  let d := with_rows (filter (fun e => e.1 ≠ src) rows) d in
  let d := with_links (map (relink dst src) (link_rows d)) d in
  let d := update src (set_state "resolved" (Some "merged") (Some dst) ts) d in
  touch_situation dst ts d.

(** [AND NOT HAS_ACTIVE], and the reason derived from the members. *)
Definition has_active (sid : Z) (d : Db) : bool := negb (bool_decide (members_of sid d ∩ active d = ∅)).
Definition close_reason (sid : Z) (d : Db) : string :=
  if negb (bool_decide (members_of sid d = ∅)) && negb (has_active sid d) then "self_cleared" else "idle".
Definition resolve_where (sid : Z) (res : string) (ts : float) (d : Db) : Db :=
  if live_in d sid then update sid (fun s => set_state "resolved" (Some res) (merged_into s) ts s) d else d.
Definition close_situation (sid : Z) (ts : float) (d : Db) : Db :=
  if has_active sid d then d else resolve_where sid (close_reason sid d) ts d.
Definition resolve_situation (sid : Z) (res : string) (ts : float) (d : Db) : bool * Db :=
  (live_in d sid, resolve_where sid res ts d).
Definition manual_close_situation (sid : Z) (ts : float) (d : Db) : bool * Db := resolve_situation sid "operator" ts d.

(** An act that is not of attention is a [ValueError]. *)
Definition promote_situation (sid : Z) (ts : float) (act : string) (d : Db) : option Db :=
  if bool_decide (act ∈ ATTENTION) then
    Some (update sid (fun s =>
      if bool_decide (status s ∈ ["new"; "pending"]) then set_proposed "open" None None ts s else s) d)
  else None.

Definition lifecycle_states (ids : list Z) (d : Db) : gmap Z (string * option Z) :=
  list_to_map (omap (fun i => (fun s => (i, (status s, proposed_into s))) <$> situations d !! i) ids).

Definition pending_for (target : Z) (d : Db) : option Z :=
  head (sort_by Z.leb (map fst (filter (fun e => proposed_into e.2 = Some target ∧ status e.2 = "pending")
    (map_to_list (situations d))))).

Definition clamp (x : float) : float :=
  let low := if fltb x f_one then x else f_one in if fltb f_zero low then low else f_zero.
Definition set_proposal (sid target : Z) (conf : float) : Db -> Db :=
  update sid (fun s => set_proposed (status s) (Some target) (Some (clamp conf)) (updated_at s) s).
Definition withdraw_proposal (sid : Z) (ts : float) : Db -> Db :=
  update sid (fun s => if bool_decide (status s = "pending") then set_proposed "new" None None ts s else s).

Definition orphaned (d : Db) (s : Situation) : Prop :=
  status s = "pending" ∧ (proposed_into s ≫= status_of d) ≠ Some "open".
#[global] Instance orphaned_dec d s : Decision (orphaned d s).
Proof. unfold orphaned. apply _. Defined.
Definition orphan_proposals (d : Db) : list Z :=
  sort_by Z.leb (map fst (filter (fun e => orphaned d e.2) (map_to_list (situations d)))).

Definition set_root (sid alarm : Z) : Db -> Db := update sid (with_root alarm).

Definition move_row (alarm from to : Z) (d : Db) : bool * Db :=
  if bool_decide ((from, alarm) ∈ situation_alarm d) then
    (true, with_rows ({[(to, alarm)]} ∪ (situation_alarm d ∖ {[(from, alarm)]})) d)
  else (false, d).

Definition operator_split (sid : Z) (departing : list Z) (ts : float) (d : Db) : Z * Db :=
  let '(new, d) := create_situation ts None "operator_split" None d in
  let left := filter (fun e => ¬ (e.1 = sid ∧ e.2 ∈ departing)) (situation_alarm d) in
  let d := with_rows (left ∪ list_to_set (map (fun a => (new, a)) departing)) d in
  let d := with_links (map (fun l =>
    if bool_decide (lk_a l ∈ departing ∧ lk_b l ∈ departing) then relink new sid l else l) (link_rows d)) d in
  (new, d).

(** ** The engine *)

(** A list of members is a Python object: its handle and its contents. *)
Record Engine := MkEngine {
  db : Db; sit_of : gmap Z Z; members : gmap Z (Z * list Member); rejected_proposals : gset (Z * Z); heap : Z;
  correlator : Correlator; precedence : Precedence; upkeep : SituationUpkeep; config_id : option Z; decider_ref : option string }.

Definition with_db (d : Db) (e : Engine) : Engine :=
  MkEngine d (sit_of e) (members e) (rejected_proposals e) (heap e) (correlator e) (precedence e) (upkeep e) (config_id e) (decider_ref e).
Definition with_maps (s : gmap Z Z) (m : gmap Z (Z * list Member)) (e : Engine) : Engine :=
  MkEngine (db e) s m (rejected_proposals e) (heap e) (correlator e) (precedence e) (upkeep e) (config_id e) (decider_ref e).
Definition with_rejected (r : gset (Z * Z)) (e : Engine) : Engine :=
  MkEngine (db e) (sit_of e) (members e) r (heap e) (correlator e) (precedence e) (upkeep e) (config_id e) (decider_ref e).
Definition with_correlator (c : Correlator) (e : Engine) : Engine :=
  MkEngine (db e) (sit_of e) (members e) (rejected_proposals e) (heap e) c (precedence e) (upkeep e) (config_id e) (decider_ref e).
Definition with_upkeep (u : SituationUpkeep) (e : Engine) : Engine :=
  MkEngine (db e) (sit_of e) (members e) (rejected_proposals e) (heap e) (correlator e) (precedence e) u (config_id e) (decider_ref e).
(** A new object. *)
Definition alloc (e : Engine) : Z * Engine :=
  (heap e, MkEngine (db e) (sit_of e) (members e) (rejected_proposals e) (heap e + 1) (correlator e) (precedence e) (upkeep e) (config_id e) (decider_ref e)).

Definition list_of (sid : Z) (e : Engine) : list Member := snd (default (0, []) (members e !! sid)).
Definition tracked (e : Engine) (sid : Z) : bool := bool_decide (is_Some (members e !! sid)).

(** [self.members[sid] = []], and appending to a list that is there. *)
Definition put_list (sid : Z) (l : list Member) (e : Engine) : Engine :=
  let '(h, e) := alloc e in with_maps (sit_of e) (<[sid := (h, l)]> (members e)) e.
Definition append_to (sid : Z) (m : Member) (e : Engine) : Engine :=
  with_maps (sit_of e) (alter (fun p => (p.1, p.2 ++ [m])) sid (members e)) e.
Definition set_sit (alarm sid : Z) (e : Engine) : Engine := with_maps (<[alarm := sid]> (sit_of e)) (members e) e.

(** *** Operators' moves, in memory ([membership.py]) *)

Definition unmap_all (l : list Member) (s : gmap Z Z) : gmap Z Z := foldl (fun s m => delete (RootCause.alarm_id m) s) s l.

(** [members[src]] popped, each member re-pointed and appended to the list of [dst], which may not be there. *)
Definition fold_members (dst src : Z) (e : Engine) : Engine :=
  let l := list_of src e in
  let e := with_maps (sit_of e) (delete src (members e)) e in
  foldl (fun e m =>
    let e := set_sit (RootCause.alarm_id m) dst e in
    append_to dst m (if tracked e dst then e else put_list dst [] e)) e l.
Definition merged (dst src : Z) (e : Engine) : Engine := fold_members dst src e.

Definition is_alarm (a : Z) (m : Member) : bool := RootCause.alarm_id m =? a.

(** [list.remove]: the first member that is equal. *)
Fixpoint remove_first (a : Z) (l : list Member) : list Member :=
  match l with
  | [] => []
  | m :: l => if is_alarm a m then l else m :: remove_first a l
  end.

Definition moved (alarm from to : Z) (e : Engine) : Engine :=
  match List.find (is_alarm alarm) (list_of from e) with
  | None => with_maps (delete alarm (sit_of e)) (members e) e
  | Some m =>
      let e := with_maps (sit_of e) (alter (fun p => (p.1, remove_first alarm p.2)) from (members e)) e in
      if tracked e to then set_sit alarm to (append_to to m e)
      else with_maps (delete alarm (sit_of e)) (members e) e
  end.

Definition split (sid new : Z) (departing : list Z) (e : Engine) : Engine :=
  let l := list_of sid e in
  let staying := filter (fun m => RootCause.alarm_id m ∉ departing) l in
  let leaving := filter (fun m => RootCause.alarm_id m ∈ departing) l in
  let e := if tracked e sid then put_list sid staying e else e in
  let e := put_list new leaving e in
  foldl (fun e m => set_sit (RootCause.alarm_id m) new e) e leaving.

Definition cleared (alarm : Z) (e : Engine) : Engine := with_correlator (Correlator.remove alarm (correlator e)) e.

Definition with_grouper (g : Grouper) (c : Correlator) : Correlator :=
  MkCorrelator (window_s c) (max_candidates c) (max_window c) (scorer c) (window c) (index c) (recall_index c) (episodes c)
    g (live c) (overflow_dropped c).

Definition forget_situation (sid : Z) (e : Engine) : Engine :=
  let l := list_of sid e in
  let e := with_maps (unmap_all l (sit_of e)) (delete sid (members e)) e in
  with_correlator (with_grouper (Grouping.forget (grouper (correlator e)) sid) (correlator e)) e.

(** [_close_situation]: the maps forget it, and the row is closed unless a member is active. *)
Definition close (sid : Z) (ts : float) (e : Engine) : Engine :=
  let e := forget_situation sid e in with_db (close_situation sid ts (db e)) e.

(** *** The rule about confirmed work ([proposals.route]) *)

Record Route := MkRoute { r_sid : option Z; r_merges : list Z; r_propose : option Z; r_confidence : float }.
Definition r_act (r : Route) : string := match r_propose r with None => "correlate" | Some _ => "propose" end.

Section engine.
Context (exp : float -> float).

Definition probability (x : float) : float :=
  if fleb f_zero x then
    let m := if fltb (f_of_Z 700) x then f_of_Z 700 else x in fdiv f_one (fadd f_one (exp (fopp m)))
  else
    let m := if fltb x (f_of_Z (- 700)) then f_of_Z (- 700) else x in
    let v := exp m in fdiv v (fadd f_one v).

(** [{s: mean for s, mean, _n in placement.support}.get(target, 0.0)]: the last of equal keys. *)
Definition support_of (p : Placement) (target : Z) : float :=
  foldl (fun acc r => if r.1.1 =? target then r.1.2 else acc) f_zero (support p).

Definition is_rejected (e : Engine) (bag target : option Z) : bool :=
  match bag, target with
  | Some b, Some t => bool_decide ((b, t) ∈ rejected_proposals e)
  | _, _ => false
  end.

(** With [st] and [target_of] the states that were read. *)
Definition settle (e : Engine) (p : Placement) (own sid : option Z) (merges ids : list Z) (st : Z -> string)
    (target_of : Z -> option Z) : Route :=
  let sid_is w := match sid with Some s => String.eqb (st s) w | None => false end in
  if sid_is "pending" then
    let proposed := sid ≫= target_of in
    MkRoute sid (filter (fun m =>
      (st m = "new" ∧ is_rejected e (Some m) proposed = false) ∨ (st m = "pending" ∧ target_of m = proposed)) merges)
      None f_zero
  else
    let target :=
      if sid_is "open" then sid
      else snd <$> list_find (fun m => st m = "open" ∧ is_rejected e sid (Some m) = false) merges in
    match target with
    | None => MkRoute sid (filter (fun m => st m = "new") merges) None f_zero
    | Some t =>
        if bool_decide (own = Some t) then MkRoute (Some t) [] None f_zero
        else
          let pending := pending_for t (db e) in
          MkRoute pending (filter (fun i => i ≠ t ∧ Some i ≠ pending
            ∧ ((st i = "new" ∧ is_rejected e (Some i) (Some t) = false) ∨ (st i = "pending" ∧ target_of i = Some t))) ids)
            (Some t) (probability (support_of p t))
    end.

Definition route (e : Engine) (p : Placement) (own : option Z) : Route :=
  let sid := match join p with Some s => if tracked e s then Some s else None | None => None end in
  let merges := filter (fun m => Some m ≠ sid ∧ tracked e m = true) (merge p) in
  let ids := match sid with Some s => [s] | None => [] end ++ merges in
  if bool_decide (ids = []) then MkRoute None [] None f_zero
  else
    let states := lifecycle_states ids (db e) in
    settle e p own sid merges ids (fun i => (default ("new", None) (states !! i)).1)
      (fun i => (default ("new", None) (states !! i)).2).

(** *** An activation's placement, executed ([_assign_situation]) *)

Definition create (ts : float) (act : string) (config : option Z) (dec : option string) (e : Engine) : Z * Engine :=
  let '(sid, d) := create_situation ts config act dec (db e) in (sid, put_list sid [] (with_db d e)).

Definition fold_one (sid : Z) (ts : float) (e : Engine) (other : Z) : Engine :=
  let e := with_db (merge_situations sid other ts (db e)) e in
  let l := list_of other e in
  let e := with_maps (sit_of e) (delete other (members e)) e in
  foldl (fun e m => append_to sid m (set_sit (RootCause.alarm_id m) sid e)) e l.

Definition link_row (l : ScoredLink) (sid alarm : Z) (ts : float) : LinkRow :=
  let r := l_result l in
  MkLinkRow sid (Candidates.alarm_id (l_other l)) alarm (s_score r) (contribution_of r "temporal")
    (contribution_of r "class_affinity") (contribution_of r "entity_affinity") ts.

(** The alarm joins [sid], where it is not its member yet. *)
Definition join_member (entry : WindowAlarm) (sid : Z) (e : Engine) : Engine :=
  let a := Candidates.alarm_id entry in
  if bool_decide (sit_of e !! a = Some sid) then e
  else
    let '(added, d) := insert_member sid a (db e) in
    let e := with_db d e in
    let e := if added then with_upkeep (renamed sid (upkeep e)) e else e in
    let e := set_sit a sid e in
    let '(obj, e) := alloc e in
    append_to sid (MkMember obj a (Candidates.class_id entry) (Candidates.device_id entry) (Candidates.ts entry)) e.

(** What follows the membership: the links that explain it, the grouping's bookkeeping, the root. *)
Definition explain_member (entry : WindowAlarm) (outcome : CorrelationResult) (sid : Z) (r : Route) (executed : list Z)
    (e : Engine) : Engine :=
  let ts := Candidates.ts entry in
  let rows := map (fun l => link_row l sid (Candidates.alarm_id entry) ts)
    (filter (fun l => sit_of e !! Candidates.alarm_id (l_other l) ∈ [Some sid; r_propose r]) (links outcome)) in
  let e := with_db (with_links (link_rows (db e) ++ rows) (db e)) e in
  let placed := MkResult (links outcome) (considered outcome) (storm outcome) (evaluated outcome)
    (Place (Some sid) executed (support (placement outcome))) (recalled outcome) in
  let e := with_correlator (Correlator.commit sid placed (sit_of e) (correlator e)) e in
  let e := with_db (touch_situation sid ts (db e)) e in
  let '(h, l) := default (0, []) (members e !! sid) in
  let '(sample, u) := earliest sid h l (upkeep e) in
  let e := with_upkeep u e in
  match pick_root (precedence e) l (Some sample) with
  | Some root => with_db (set_root sid root (db e)) e
  | None => e
  end.

(** The routed situation where the engine tracks it, a new one otherwise. *)
Definition situation_for (r : Route) (ts : float) (e : Engine) : Z * Engine :=
  match r_sid r with
  | Some s => if tracked e s then (s, e) else create ts (r_act r) (config_id e) (decider_ref e) e
  | None => create ts (r_act r) (config_id e) (decider_ref e) e
  end.

(** The engine, the situation the alarm is in, and those folded into it. *)
Definition assign_situation (entry : WindowAlarm) (outcome : CorrelationResult) (e : Engine) : Engine * Z * list Z :=
  let ts := Candidates.ts entry in
  let r := route e (placement outcome) (sit_of e !! Candidates.alarm_id entry) in
  let '(sid, e) := situation_for r ts e in
  let e := match r_propose r with Some t => with_db (set_proposal sid t (r_confidence r) (db e)) e | None => e end in
  let executed := filter (fun m => m ≠ sid ∧ tracked e m = true) (r_merges r) in
  let e := foldl (fold_one sid ts) e executed in
  let e := join_member entry sid e in
  (explain_member entry outcome sid r executed e, sid, executed).
End engine.

(** *** The other writers *)

(** [_file_surfaced]: a maintenance window's alarm joins the window's situation, opening it for the first. *)
Definition file_surfaced (alarm class device : Z) (at_ : float) (situation : option Z) (e : Engine) : Z * Engine :=
  let '(sid, e) := match situation with Some s => (s, e) | None => create at_ "surface" (config_id e) None e end in
  let e := with_db (insert_member sid alarm (db e)).2 e in
  let e := set_sit alarm sid e in
  let '(obj, e) := alloc e in
  let e := if tracked e sid then e else put_list sid [] e in
  (sid, append_to sid (MkMember obj alarm class device at_) e).

Inductive gesture_error := NoSuchSituation | HasResolved | SameSituation | NotAMember | WouldEmpty | NotPending | TargetNotOpen.

Definition live_or (sid : Z) (e : Engine) : res gesture_error unit :=
  match status_of (db e) sid with
  | None => Err NoSuchSituation
  | Some st => ensure (negb (String.eqb st "resolved")) HasResolved (Ok tt)
  end.

(** The loop of a move: each alarm's row, then its member. *)
Fixpoint move_each (moving : list Z) (from to : Z) (e : Engine) : res gesture_error Engine :=
  match moving with
  | [] => Ok e
  | a :: moving =>
      let '(found, d) := move_row a from to (db e) in
      ensure found NotAMember (move_each moving from to (moved a from to (with_db d e)))
  end.

Definition promoted (sid : Z) (ts : float) (act : string) (e : Engine) : Engine :=
  with_db (default (db e) (promote_situation sid ts act (db e))) e.

(** [moving] is the request's list without its repeats; [hidden] are the members the caller may not see. *)
Definition move_alarm (moving : list Z) (from to : Z) (hidden : gset Z) (ts : float) (e : Engine) : res gesture_error Engine :=
  ensure (negb (from =? to)) SameSituation
  (_ ← live_or from e; _ ← live_or to e;
   let subject := members_of from (db e) in
   ensure (forallb (fun a => bool_decide (a ∈ subject ∧ a ∉ hidden)) moving) NotAMember
   (ensure (Nat.ltb (length moving) (size subject)) WouldEmpty
    (promoted from ts "move" <$> move_each moving from to e))).

Definition operator_merge (dst src : Z) (ts : float) (e : Engine) : res gesture_error Engine :=
  ensure (negb (dst =? src)) SameSituation
  (_ ← live_or dst e; _ ← live_or src e;
   Ok (promoted dst ts "merge" (merged dst src (with_db (merge_situations dst src ts (db e)) e)))).

Definition split_situation (sid : Z) (named : list Z) (hidden : gset Z) (ts : float) (e : Engine) : res gesture_error (Z * Engine) :=
  _ ← live_or sid e;
  let subject := members_of sid (db e) in
  let departing := filter (fun a => a ∈ subject ∧ a ∉ hidden) named in
  ensure (Nat.eqb (length departing) (size (list_to_set named : gset Z)) && Nat.ltb 0 (length departing)
          && Nat.ltb (length departing) (size subject)) WouldEmpty
  (let '(new, d) := operator_split sid departing ts (db e) in
   Ok (new, promoted sid ts "split" (split sid new departing (with_db d e)))).

(** Accepting merges the bag into its target; rejecting makes it a situation of its own, for good. *)
Definition answer_proposal (sid : Z) (accept : bool) (ts : float) (e : Engine) : res gesture_error Engine :=
  match situations (db e) !! sid with
  | None => Err NoSuchSituation
  | Some row =>
      match proposed_into row with
      | None => Err NoSuchSituation
      | Some target =>
          ensure (String.eqb (status row) "pending") NotPending
          (ensure (bool_decide (status_of (db e) target = Some "open")) TargetNotOpen
           (Ok (if accept then merged target sid (with_db (merge_situations target sid ts (db e)) e)
                else with_rejected ({[(sid, target)]} ∪ rejected_proposals e) (with_db (withdraw_proposal sid ts (db e)) e))))
      end
  end.

(** An operator's close, and the end of a silent occurrence: the row first, the maps if it was live. *)
Definition resolve_and_forget (sid : Z) (res : string) (ts : float) (e : Engine) : Engine :=
  let '(was, d) := resolve_situation sid res ts (db e) in
  if was then forget_situation sid (with_db d e) else e.

Definition lapse (ts : float) (e : Engine) : Engine :=
  with_db (foldl (fun d sid => withdraw_proposal sid ts d) (db e) (orphan_proposals (db e))) e.

(** *** The reload, at start and after a rolled-back batch ([membership.reload]) *)

(** A row of [open_situation_members] becomes a member of its situation's list. *)
Definition reload_row (facts : Z -> Z * Z * float) (e : Engine) (r : Z * Z) : Engine :=
  let '(sid, alarm) := r in
  let '(class, device, first) := facts alarm in
  let '(obj, e) := alloc e in
  let e := append_to sid (MkMember obj alarm class device first) (if tracked e sid then e else put_list sid [] e) in
  set_sit alarm sid e.

Definition live_rows (d : Db) : list (Z * Z) :=
  sort_by RootCause.key_leb (elements (filter (fun r => live_in d r.1 = true) (situation_alarm d))).

(** [newest] is the highest id of an alarm that exists; [facts] are an alarm's class, device and first time. *)
Definition reload (facts : Z -> Z * Z * float) (newest : Z) (e : Engine) : Engine :=
  let e := foldl (reload_row facts) (with_maps ∅ ∅ e) (live_rows (db e)) in
  let c := correlator e in
  let gone := filter (fun a => newest < a) (elements (dom (index c) ∪ Correlator.live c)) in
  let c := foldl (fun c a => Correlator.remove a c) c gone in
  let e := with_correlator (with_grouper (Grouping.prune (grouper c) (dom (members e))) c) e in
  with_upkeep (retain ∅ (discard (upkeep e))) e.
