(* ===== verification/SituationLaws.v ===== *)
(** * What every history of situations keeps

    The rule about confirmed work — no placement of the model's changes an [open] situation — and the
    agreement of the engine's maps with the tables, over every writer of [Situations]. *)
From S2P Require Import Prelude PyLib Floats Alternation Grouping Episodes Learn Scoring Candidates PairFeatures Correlator RootCause Situations.

(** The ids in use are below the next. *)
Definition fresh_ids (d : Db) : Prop := ∀ s, is_Some (situations d !! s) -> s < next_id d.

Lemma status_update sid f d s :
  status_of (update sid f d) s = (if decide (s = sid) then (λ x, status (f x)) <$> situations d !! s else status_of d s).
Proof.
  unfold status_of, update. simpl. destruct (decide (s = sid)) as [->|].
  - rewrite lookup_alter_eq. by destruct (situations d !! sid).
  - by rewrite lookup_alter_ne.
Qed.

Lemma status_update_same sid f d s : (∀ x, status (f x) = status x) -> status_of (update sid f d) s = status_of d s.
Proof.
  intros H. rewrite status_update. case_decide; [|done]. subst. unfold status_of.
  destruct (situations d !! sid); simpl; [|done]. by rewrite H.
Qed.

Lemma lifecycle_states_status ids d i :
  i ∈ ids -> (default ("new", None) (lifecycle_states ids d !! i)).1 = default "new" (status_of d i).
Proof.
  intros Hi. unfold status_of. destruct (lifecycle_states ids d !! i) as [x|] eqn:E; simpl.
  - unfold lifecycle_states in E. apply elem_of_list_to_map_2 in E.
    apply list_elem_of_omap in E as (j & _ & Hj). destruct (situations d !! j) as [r|] eqn:Er; [|done].
    simpl in Hj. injection Hj as <- <-. by rewrite Er.
  - apply not_elem_of_list_to_map_2 in E. destruct (situations d !! i) as [r|] eqn:Er; [|done]. exfalso. apply E.
    apply list_elem_of_fmap. exists (i, (status r, proposed_into r)). split; [done|].
    apply list_elem_of_omap. exists i. by rewrite Er.
Qed.

Lemma pending_for_pending target d p : pending_for target d = Some p -> status_of d p = Some "pending".
Proof.
  unfold pending_for. set (l := map fst _). intros H.
  assert (Hin : p ∈ sort_by Z.leb l) by (destruct (sort_by Z.leb l); [done|]; injection H as ->; by left).
  rewrite elem_of_sort_by in Hin. apply list_elem_of_fmap in Hin as ([q r] & -> & Hin).
  apply list_elem_of_filter in Hin as [[_ Hs] Hin]. apply elem_of_map_to_list in Hin. simpl in *.
  unfold status_of. by rewrite Hin, <- Hs.
Qed.

(** *** The route never names an open situation, but the alarm's own *)

Section route.
Context (exp : float -> float).

Lemma list_find_Some_pred {A} (P : A -> Prop) `{∀ x, Decision (P x)} l x :
  snd <$> list_find P l = Some x -> x ∈ l ∧ P x.
Proof.
  destruct (list_find P l) as [[i y]|] eqn:E; [|done]. intros [= ->].
  apply list_find_Some in E as (Hl & Hp & _). split; [by eapply list_elem_of_lookup_2|done].
Qed.

Lemma settle_spares_open e p own sid (merges ids : list Z) (st : Z -> string) target_of :
  (∀ i, i ∈ ids -> st i = default "new" (status_of (db e) i)) ->
  (∀ m, m ∈ merges -> m ∈ ids) -> (∀ s, sid = Some s -> s ∈ ids) ->
  let r := settle exp e p own sid merges ids st target_of in
  (∀ m, m ∈ r_merges r -> status_of (db e) m ≠ Some "open") ∧
  (∀ s, r_sid r = Some s -> status_of (db e) s = Some "open" -> own = Some s ∧ r_merges r = []).
Proof.
  intros Hst Hm Hs.
  assert (Hopen : ∀ i, i ∈ ids -> status_of (db e) i = Some "open" -> st i = "open").
  { intros i Hi Ho. by rewrite Hst, Ho. }
  assert (Hfolds : ∀ t m, m ∈ filter (fun i => i ≠ t ∧ Some i ≠ pending_for t (db e)
      ∧ ((st i = "new" ∧ is_rejected e (Some i) (Some t) = false) ∨ (st i = "pending" ∧ target_of i = Some t))) ids ->
      status_of (db e) m ≠ Some "open").
  { intros t m [(_ & _ & Hk) Hin]%list_elem_of_filter Ho. rewrite (Hopen m Hin Ho) in Hk. naive_solver. }
  assert (Hpend : ∀ t s, pending_for t (db e) = Some s -> status_of (db e) s = Some "open" -> False).
  { intros t s Hp%pending_for_pending Ho. congruence. }
  unfold settle. destruct (match sid with Some s => String.eqb (st s) "pending" | None => false end) eqn:Ep.
  { destruct sid as [s|]; [|done]. apply String.eqb_eq in Ep. split; cbn [r_merges r_sid].
    - intros m [Hk Hin]%list_elem_of_filter Ho. apply Hm in Hin. rewrite (Hopen m Hin Ho) in Hk. naive_solver.
    - intros s' [= <-] Ho. rewrite (Hopen s (Hs s eq_refl) Ho) in Ep. done. }
  cbv zeta.
  assert (Hgo : ∀ target, (target = None -> ∀ s, sid = Some s -> status_of (db e) s ≠ Some "open") ->
    let r := match target with
      | None => MkRoute sid (filter (fun m => st m = "new") merges) None f_zero
      | Some t =>
          if bool_decide (own = Some t) then MkRoute (Some t) [] None f_zero
          else MkRoute (pending_for t (db e)) (filter (fun i => i ≠ t ∧ Some i ≠ pending_for t (db e)
            ∧ ((st i = "new" ∧ is_rejected e (Some i) (Some t) = false) ∨ (st i = "pending" ∧ target_of i = Some t))) ids)
            (Some t) (probability exp (support_of p t))
      end in
    (∀ m, m ∈ r_merges r -> status_of (db e) m ≠ Some "open") ∧
    (∀ s, r_sid r = Some s -> status_of (db e) s = Some "open" -> own = Some s ∧ r_merges r = [])).
  { intros [t|] Ht.
    - case_bool_decide as Eown; [split; cbn; [by intros ? ?%not_elem_of_nil|by intros s' [= <-] _]|].
      split; cbn [r_merges r_sid]; [apply Hfolds|]. intros s' Hp Ho. by destruct (Hpend _ _ Hp Ho).
    - split; cbn [r_merges r_sid].
      + intros m [Hk Hin]%list_elem_of_filter Ho. apply Hm in Hin. rewrite (Hopen m Hin Ho) in Hk. done.
      + intros s' Es Ho. by destruct (Ht eq_refl s' Es). }
  apply Hgo. intros Hnone s Es Ho. subst sid. rewrite (Hopen s (Hs s eq_refl) Ho) in Hnone. done.
Qed.

Lemma route_spares_open e p own :
  (∀ m, m ∈ r_merges (route exp e p own) -> status_of (db e) m ≠ Some "open") ∧
  (∀ s, r_sid (route exp e p own) = Some s -> status_of (db e) s = Some "open" ->
     own = Some s ∧ r_merges (route exp e p own) = []).
Proof.
  unfold route. case_bool_decide as Eids; [by split; [intros ? ?%not_elem_of_nil|]|].
  apply settle_spares_open.
  - intros i Hi. by apply lifecycle_states_status.
  - intros m Hin. apply elem_of_app. by right.
  - intros s ->. apply elem_of_app. left. by left.
Qed.
End route.

(** ** What a write leaves alone *)

(** A situation's status, its rows and its list, before and after. *)
Definition same_for (s : Z) (e e' : Engine) : Prop :=
  status_of (db e') s = status_of (db e) s
  ∧ of_situation s (situation_alarm (db e')) = of_situation s (situation_alarm (db e))
  ∧ members e' !! s = members e !! s.

#[global] Instance same_for_refl s : Reflexive (same_for s).
Proof. by intros e. Qed.
#[global] Instance same_for_trans s : Transitive (same_for s).
Proof. intros e1 e2 e3 (A1 & B1 & C1) (A2 & B2 & C2). split_and!; congruence. Qed.

Lemma elem_of_situation s r x : x ∈ of_situation s r ↔ x.1 = s ∧ x ∈ r.
Proof. unfold of_situation. by rewrite elem_of_filter. Qed.

Lemma merge_rows_other dst src ts d s :
  s ≠ dst -> s ≠ src ->
  of_situation s (situation_alarm (merge_situations dst src ts d)) = of_situation s (situation_alarm d).
Proof.
  intros Hd Hs. apply set_eq. intros x. rewrite !elem_of_situation. cbn [merge_situations situation_alarm touch_situation update with_situations with_links with_rows].
  rewrite elem_of_filter, elem_of_union, elem_of_map. split.
  - intros [Hx [_ [H|(y & -> & _)]]]; [done|]. simpl in Hx. congruence.
  - intros [Hx H]. split; [done|]. split; [congruence|by left].
Qed.

Lemma merge_status_other dst src ts d s :
  s ≠ src -> status_of (merge_situations dst src ts d) s = status_of d s.
Proof.
  intros Hs. unfold merge_situations, touch_situation. rewrite status_update_same by done.
  rewrite status_update, decide_False by done. done.
Qed.

Lemma append_all_other sid (l : list Member) e s :
  s ≠ sid ->
  let e' := foldl (fun e m => append_to sid m (set_sit (RootCause.alarm_id m) sid e)) e l in
  db e' = db e ∧ members e' !! s = members e !! s.
Proof.
  intros Hs. revert e. induction l as [|m l IH]; intros e; [done|]. cbn [foldl].
  destruct (IH (append_to sid m (set_sit (RootCause.alarm_id m) sid e))) as [Hd Hm].
  split; [exact Hd|]. rewrite Hm. unfold append_to. cbn [members with_maps set_sit]. by rewrite lookup_alter_ne.
Qed.

Lemma fold_one_other sid ts e other s : s ≠ sid -> s ≠ other -> same_for s e (fold_one sid ts e other).
Proof.
  intros Hs Ho. unfold fold_one.
  set (e1 := with_db _ e). set (e2 := with_maps _ (delete other _) e1).
  destruct (append_all_other sid (list_of other e1) e2 s Hs) as [Hd Hm].
  unfold same_for. rewrite Hd, Hm. subst e2 e1. cbn [db members with_maps with_db].
  rewrite lookup_delete_ne by done. split_and!; [by apply merge_status_other|by apply merge_rows_other|done].
Qed.

Lemma fold_all_other sid ts l e s : s ≠ sid -> s ∉ l -> same_for s e (foldl (fold_one sid ts) e l).
Proof.
  intros Hs. revert e. induction l as [|o l IH]; intros e Hl; [done|].
  apply not_elem_of_cons in Hl as [Ho Hl]. cbn [foldl].
  etrans; [apply (fold_one_other sid ts e o s Hs Ho)|by apply IH].
Qed.

Lemma create_other ts act c dc e s :
  fresh_ids (db e) -> is_Some (situations (db e) !! s) -> same_for s e (create ts act c dc e).2.
Proof.
  intros Hf Hs. specialize (Hf s Hs). unfold create, create_situation, same_for. cbn.
  unfold status_of. cbn. rewrite lookup_insert_ne by lia. split_and!; [done|done|]. by rewrite lookup_insert_ne by lia.
Qed.

Lemma join_member_other entry sid e s : s ≠ sid -> same_for s e (join_member entry sid e).
Proof.
  intros Hs. unfold join_member. case_bool_decide; [done|]. cbn [insert_member].
  assert (Hrows : of_situation s ({[(sid, Candidates.alarm_id entry)]} ∪ situation_alarm (db e))
    = of_situation s (situation_alarm (db e))).
  { apply set_eq. intros x. rewrite !elem_of_situation, elem_of_union, elem_of_singleton. split; [|tauto].
    intros [Hx [->|H']]; [simpl in Hx; congruence|done]. }
  unfold same_for, append_to, alloc, set_sit. case_bool_decide; cbn; by rewrite Hrows, lookup_alter_ne.
Qed.

Lemma join_member_again entry sid e :
  sit_of e !! Candidates.alarm_id entry = Some sid -> join_member entry sid e = e.
Proof. intros H. unfold join_member. by rewrite bool_decide_true. Qed.

Lemma explain_member_same entry outcome sid r executed e s :
  same_for s e (explain_member entry outcome sid r executed e).
Proof.
  unfold explain_member. cbv zeta.
  match goal with |- same_for s e (let '(h, l) := default _ (members ?x !! sid) in _) => set (e1 := x) end.
  assert (H1 : same_for s e e1).
  { subst e1. unfold same_for. cbn [db members with_db with_correlator]. split_and!; [|done|done].
    unfold touch_situation. by rewrite status_update_same. }
  destruct (default (0, []) (members e1 !! sid)) as [h l]. destruct (earliest sid h l (upkeep e1)) as [sample u].
  etrans; [exact H1|]. destruct (pick_root _ _ _) as [root|]; [|done].
  unfold same_for, set_root. cbn [db members with_db with_upkeep]. by rewrite status_update_same.
Qed.

(** ** A proposal *)

(** The status of a situation and what it is proposed into. *)
Definition proposal_of (d : Db) (s : Z) : option (string * option Z) := (λ r, (status r, proposed_into r)) <$> situations d !! s.

Lemma proposal_update sid f d s :
  (∀ x, status (f x) = status x ∧ proposed_into (f x) = proposed_into x) -> proposal_of (update sid f d) s = proposal_of d s.
Proof.
  intros H. unfold proposal_of, update. simpl. destruct (decide (s = sid)) as [->|]; [rewrite lookup_alter_eq|by rewrite lookup_alter_ne].
  destruct (situations d !! sid) as [x|]; simpl; [|done]. destruct (H x) as [-> ->]. done.
Qed.

Lemma proposal_update_other sid f d s : s ≠ sid -> proposal_of (update sid f d) s = proposal_of d s.
Proof. intros H. unfold proposal_of, update. simpl. by rewrite lookup_alter_ne. Qed.

Lemma append_all_db sid (l : list Member) e : db (foldl (λ e m, append_to sid m (set_sit (RootCause.alarm_id m) sid e)) e l) = db e.
Proof. revert e. induction l as [|m l IH]; intros e; [done|]. cbn [foldl]. by rewrite IH. Qed.

Lemma proposal_folded sid ts l e :
  sid ∉ l -> proposal_of (db (foldl (fold_one sid ts) e l)) sid = proposal_of (db e) sid.
Proof.
  revert e. induction l as [|o l IH]; intros e Hl; [done|]. apply not_elem_of_cons in Hl as [Ho Hl]. cbn [foldl]. rewrite IH by done.
  unfold fold_one. rewrite append_all_db. cbn [db with_maps with_db]. unfold merge_situations, touch_situation.
  rewrite proposal_update by done. by rewrite proposal_update_other.
Qed.

Lemma proposal_joined entry sid e : proposal_of (db (join_member entry sid e)) sid = proposal_of (db e) sid.
Proof. unfold join_member. case_bool_decide; [done|]. cbn [insert_member]. by case_bool_decide. Qed.

Lemma sit_joined entry sid e : sit_of (join_member entry sid e) !! Candidates.alarm_id entry = Some sid.
Proof.
  unfold join_member. case_bool_decide as Hs; [done|]. cbn [insert_member]. case_bool_decide; cbn; by rewrite lookup_insert_eq.
Qed.

Lemma explained_proposal entry outcome sid r executed e :
  proposal_of (db (explain_member entry outcome sid r executed e)) sid = proposal_of (db e) sid
  ∧ sit_of (explain_member entry outcome sid r executed e) = sit_of e.
Proof.
  unfold explain_member. cbv zeta.
  match goal with |- context [default _ (members ?x !! sid)] => set (e1 := x) end.
  assert (H1 : proposal_of (db e1) sid = proposal_of (db e) sid ∧ sit_of e1 = sit_of e).
  { subst e1. split; [|done]. cbn [db with_db with_correlator]. unfold touch_situation. by rewrite proposal_update. }
  destruct (default (0, []) (members e1 !! sid)) as [h l]. destruct (earliest sid h l (upkeep e1)) as [sample u].
  destruct (pick_root _ _ _) as [root|]; [|done]. destruct H1 as [<- <-]. split; [|done]. cbn [db with_db with_upkeep].
  unfold set_root. by rewrite proposal_update.
Qed.

Lemma pending_for_there t d p : pending_for t d = Some p -> is_Some (situations d !! p).
Proof. intros H%pending_for_pending. unfold status_of in H. destruct (situations d !! p); [eauto|done]. Qed.

(** A route that proposes a target leaves the alarm in a pending situation proposed into it. *)
Lemma routed_proposal exp entry outcome e t :
  let r := route exp e (placement outcome) (sit_of e !! Candidates.alarm_id entry) in
  r_propose r = Some t -> r_sid r = pending_for t (db e) ->
  let '(e', sid, _) := assign_situation exp entry outcome e in
  sit_of e' !! Candidates.alarm_id entry = Some sid ∧ proposal_of (db e') sid = Some ("pending", Some t).
Proof.
  intros r Hr Hs. unfold assign_situation. cbv zeta. fold r. rewrite Hr.
  assert (Hc : status_of (db (situation_for r (Candidates.ts entry) e).2) (situation_for r (Candidates.ts entry) e).1 = Some "pending").
  { assert (Hnew : ∀ c dc, status_of (db (create (Candidates.ts entry) (r_act r) c dc e).2) (create (Candidates.ts entry) (r_act r) c dc e).1
      = Some "pending").
    { intros. unfold r_act. rewrite Hr. unfold create, create_situation, status_of. cbn. by rewrite lookup_insert_eq. }
    unfold situation_for. destruct (r_sid r) as [x|] eqn:Ex; [|apply Hnew]. destruct (tracked e x); [|apply Hnew].
    simpl. eapply pending_for_pending. by rewrite <- Hs. }
  destruct (situation_for r (Candidates.ts entry) e) as [sid e1]. simpl in Hc.
  set (e2 := with_db (set_proposal sid t (r_confidence r) (db e1)) e1).
  assert (H2 : proposal_of (db e2) sid = Some ("pending", Some t)).
  { unfold e2, proposal_of, set_proposal, update. simpl. rewrite lookup_alter_eq. unfold status_of in Hc.
    destruct (situations (db e1) !! sid) as [x|]; [|done]. simpl in *. by injection Hc as ->. }
  set (executed := filter _ (r_merges r)).
  destruct (explained_proposal entry outcome sid r executed (join_member entry sid (foldl (fold_one sid (Candidates.ts entry)) e2 executed)))
    as [-> ->].
  split; [apply sit_joined|]. rewrite proposal_joined, proposal_folded; [done|]. by intros [[H _] _]%list_elem_of_filter.
Qed.

Lemma open_route exp e p own s :
  join p = Some s -> tracked e s = true -> status_of (db e) s = Some "open" -> own ≠ Some s ->
  r_propose (route exp e p own) = Some s ∧ r_sid (route exp e p own) = pending_for s (db e).
Proof.
  intros Hj Ht Ho Hown. unfold route. rewrite Hj, Ht. rewrite bool_decide_false by done. unfold settle.
  rewrite lifecycle_states_status, Ho by (by left). cbn. by rewrite bool_decide_false.
Qed.

(** What an execution leaves of an open situation. *)
Lemma model_spares_open exp entry outcome e s :
  fresh_ids (db e) -> status_of (db e) s = Some "open" ->
  same_for s e (assign_situation exp entry outcome e).1.1.
Proof.
  intros Hf Ho. unfold assign_situation. cbv zeta.
  set (own := sit_of e !! Candidates.alarm_id entry).
  destruct (route_spares_open exp e (placement outcome) own) as [Hm Hr].
  set (r := route exp e (placement outcome) own) in *.
  assert (Hs : is_Some (situations (db e) !! s)) by (unfold status_of in Ho; destruct (situations (db e) !! s); eauto; done).
  set (chosen := situation_for r (Candidates.ts entry) e).
  assert (Hc : same_for s e chosen.2 ∧ (chosen.1 = s -> own = Some s ∧ r_merges r = [] ∧ sit_of chosen.2 = sit_of e)).
  { assert (Hnew : ∀ act c dc, same_for s e (create (Candidates.ts entry) act c dc e).2
      ∧ ((create (Candidates.ts entry) act c dc e).1 = s -> own = Some s ∧ r_merges r = []
         ∧ sit_of (create (Candidates.ts entry) act c dc e).2 = sit_of e)).
    { intros. split; [by apply create_other|]. cbn. intros E. specialize (Hf s Hs). lia. }
    subst chosen. unfold situation_for. destruct (r_sid r) as [x|] eqn:Ex; [|apply Hnew]. destruct (tracked e x); [|apply Hnew].
    split; [done|]. intros E. simpl in E. subst x. destruct (Hr s eq_refl Ho). done. }
  destruct chosen as [sid e1]. destruct Hc as [H1 Hown]. simpl in H1, Hown.
  set (e2 := match r_propose r with Some t => _ | None => e1 end).
  assert (H2 : same_for s e1 e2 ∧ sit_of e2 = sit_of e1).
  { subst e2. destruct (r_propose r); [|done]. split; [|done]. unfold same_for, set_proposal. cbn [db members with_db].
    by rewrite status_update_same. }
  destruct H2 as [H2 H2s]. cbn [fst].
  set (executed := filter _ (r_merges r)).
  assert (Hex : s ∉ executed) by (intros [_ Hin]%list_elem_of_filter; by apply (Hm s Hin)).
  etrans; [exact H1|]. etrans; [exact H2|]. etrans; [|apply explain_member_same].
  destruct (decide (sid = s)) as [->|Hne].
  - destruct (Hown eq_refl) as (Eo & Em & Es). subst executed. rewrite Em. cbn [foldl filter list_filter].
    rewrite join_member_again; [done|]. by rewrite H2s, Es.
  - etrans; [by apply fold_all_other|]. by apply join_member_other.
Qed.

(** C30: Whatever the correlator's placement says, executing it ([_assign_situation]) leaves every [open]
    situation — open after a person's answer or an autonomous promotion — with its status, its member rows
    and its list of members. When the placement would have the alarm join a tracked open situation it is
    not in, the model only proposes: the alarm goes to a pending situation proposed into that one.
    Situation ids are below the next id, as the table's key makes them. What people, the autonomy's
    closing and promotions and the idle closing do to an open situation is other code, which this does not
    speak of. *)
Theorem a_model_never_changes_an_open_situation exp entry outcome e s :
  fresh_ids (db e) -> status_of (db e) s = Some "open" ->
  let '(e', sid, _) := assign_situation exp entry outcome e in
  same_for s e e' ∧
  (join (placement outcome) = Some s -> tracked e s = true -> sit_of e !! Candidates.alarm_id entry ≠ Some s ->
   sit_of e' !! Candidates.alarm_id entry = Some sid ∧ proposal_of (db e') sid = Some ("pending", Some s)).
Proof.
  intros Hf Ho. pose proof (model_spares_open exp entry outcome e s Hf Ho) as Hsame.
  assert (Hp : join (placement outcome) = Some s -> tracked e s = true -> sit_of e !! Candidates.alarm_id entry ≠ Some s ->
    let '(e', sid, _) := assign_situation exp entry outcome e in
    sit_of e' !! Candidates.alarm_id entry = Some sid ∧ proposal_of (db e') sid = Some ("pending", Some s)).
  { intros Hj Ht Hown. destruct (open_route exp e _ _ s Hj Ht Ho Hown). by apply routed_proposal. }
  destruct (assign_situation exp entry outcome e) as [[e' sid] executed]. done.
Qed.

(** Situation 1 is open, with alarm 1; the model places alarm 2 in it. *)
Definition confirmed : Engine :=
  let e := MkEngine (MkDb ∅ 1 ∅ [] ∅) ∅ ∅ ∅ 0 c_zero new_precedence new_upkeep None None in
  promoted 1 (f_of_Z 20) "feedback" (file_surfaced 1 7 1 (f_of_Z 10) None e).2.
Definition joins_it : CorrelationResult :=
  MkResult [] [] false [] (Place (Some 1) [] [(1, f_of_Z 2, 1)]) 0.
Definition proposed : Engine := (assign_situation flat (alarm_at 2 8 1 30) joins_it confirmed).1.1.

Lemma a_model_never_changes_an_open_situation_witness :
  (fresh_ids (db confirmed) ∧ status_of (db confirmed) 1 = Some "open" ∧ same_for 1 confirmed proposed)
  ∧ ∃ sid, sit_of proposed !! 2 = Some sid ∧ proposal_of (db proposed) sid = Some ("pending", Some 1).
Proof.
  assert (Hf : fresh_ids (db confirmed)).
  { assert (H : set_Forall (λ s, s < next_id (db confirmed)) (dom (situations (db confirmed)))) by by_eval.
    intros s Hs. by apply H, elem_of_dom. }
  assert (Ho : status_of (db confirmed) 1 = Some "open") by (vm_compute; reflexivity).
  pose proof (a_model_never_changes_an_open_situation flat (alarm_at 2 8 1 30) joins_it confirmed 1 Hf Ho) as H.
  unfold proposed. destruct (assign_situation flat (alarm_at 2 8 1 30) joins_it confirmed) as [[e' sid] executed].
  destruct H as [Hs Hp]. split; [done|]. exists sid. apply Hp; [reflexivity|vm_compute; reflexivity|vm_compute; discriminate].
Defined.
