(* ===== verification/Membership.v ===== *)
(** * The engine's maps mirror the tables ([engine/operate/membership.py])

    [bag s e] are the alarms the engine lists for situation [s]. [agree]: the lists, the map from alarms
    to situations and the rows of the live situations say the same; every writer of [Situations] keeps
    it, the reload after a rollback restores it. *)
From S2P Require Import Prelude PyLib Floats Alternation Grouping Episodes Learn Scoring Candidates PairFeatures Correlator RootCause Situations SituationLaws.

Abbreviation ids_of l := (RootCause.alarm_id <$> l).
Definition bag (s : Z) (e : Engine) : list Z := ids_of (list_of s e).

Record agree (e : Engine) : Prop := {
  ag_fresh : fresh_ids (db e);
  ag_known s a : (s, a) ∈ situation_alarm (db e) -> is_Some (situations (db e) !! s);
  ag_live s : is_Some (members e !! s) ↔ live_in (db e) s = true;
  ag_nodup s : NoDup (bag s e);
  ag_maps a s : sit_of e !! a = Some s ↔ a ∈ bag s e;
  ag_rows s a : live_in (db e) s = true -> ((s, a) ∈ situation_alarm (db e) ↔ a ∈ bag s e) }.

(** Every live situation has a member. *)
Definition peopled (d : Db) : Prop := ∀ s, live_in d s = true -> ∃ a, (s, a) ∈ situation_alarm d.

Lemma bag_untracked s e : members e !! s = None -> bag s e = [].
Proof. intros H. unfold bag, list_of. by rewrite H. Qed.

Lemma agree_disjoint e a s s' : agree e -> a ∈ bag s e -> a ∈ bag s' e -> s = s'.
Proof. intros [ ] H1%ag_maps0 H2%ag_maps0. congruence. Qed.

(** A write of the tables that changes neither the rows nor who is live. *)
Lemma agree_db e d :
  agree e -> fresh_ids d -> (∀ s, is_Some (situations (db e) !! s) -> is_Some (situations d !! s)) ->
  (∀ s, live_in d s = live_in (db e) s) -> situation_alarm d = situation_alarm (db e) -> agree (with_db d e).
Proof.
  intros [Af Ak Al An Am Ar] Hf Hk Hl Hr. split; cbn [db members sit_of with_db]; try done.
  - intros s a. rewrite Hr. eauto.
  - intros s. by rewrite Hl.
  - intros s a. rewrite Hl, Hr. apply Ar.
Qed.

Lemma update_known sid f d s : is_Some (situations (update sid f d) !! s) ↔ is_Some (situations d !! s).
Proof. unfold update. cbn. by rewrite lookup_alter_is_Some. Qed.

Lemma update_fresh sid f d : fresh_ids d -> fresh_ids (update sid f d).
Proof. intros H s Hs%update_known. by apply H. Qed.

(** An update under which a live row stays live and another does not become so. *)
Lemma live_update sid f d s :
  (∀ x, LIVE (status (f x)) = LIVE (status x)) -> live_in (update sid f d) s = live_in d s.
Proof.
  intros H. unfold live_in. rewrite status_update. case_decide as E; [|done]. subst. unfold status_of.
  destruct (situations d !! sid); simpl; [apply H|done].
Qed.

Lemma agree_update sid f e :
  agree e -> (∀ x, LIVE (status (f x)) = LIVE (status x)) -> agree (with_db (update sid f (db e)) e).
Proof.
  intros He H. apply agree_db; [done|apply update_fresh, He| |by intros; apply live_update|done].
  intros s. by rewrite update_known.
Qed.

Lemma peopled_update sid f d :
  peopled d -> (∀ x, LIVE (status (f x)) = LIVE (status x)) -> peopled (update sid f d).
Proof. intros Hp H s. rewrite live_update by done. apply Hp. Qed.

(** ** A new situation, without members yet *)

Lemma agree_create ts act c dc e :
  agree e -> LIVE (default "" (edge act None)) = true ->
  let '(sid, e') := create ts act c dc e in
  agree e' ∧ sid = next_id (db e) ∧ bag sid e' = [] ∧ is_Some (members e' !! sid)
  ∧ (∀ s, s ≠ sid -> bag s e' = bag s e) ∧ sit_of e' = sit_of e ∧ situation_alarm (db e') = situation_alarm (db e)
  ∧ (∀ s, live_in (db e') s = (live_in (db e) s || (s =? sid))%bool).
Proof.
  intros [Af Ak Al An Am Ar] Hact. unfold create, create_situation. cbn [put_list alloc].
  set (sid := next_id (db e)). set (e' := with_maps _ _ _).
  assert (Hnone : situations (db e) !! sid = None).
  { destruct (situations (db e) !! sid) eqn:E; [|done]. assert (sid < next_id (db e)) by (apply Af; eauto). unfold sid in *. lia. }
  assert (Hdead : live_in (db e) sid = false) by (unfold live_in, status_of; by rewrite Hnone).
  assert (Hmem : members e !! sid = None).
  { destruct (members e !! sid) eqn:E; [|done]. assert (live_in (db e) sid = true) by (apply Al; eauto). congruence. }
  assert (Hself : bag sid e' = []) by (unfold bag, list_of, e'; cbn; by rewrite lookup_insert_eq).
  assert (Hbag : ∀ s, bag s e' = bag s e).
  { intros s. destruct (decide (s = sid)) as [->|]; [by rewrite Hself, bag_untracked|].
    unfold bag, list_of, e'. cbn. by rewrite lookup_insert_ne. }
  assert (Hlive : ∀ s, live_in (db e') s = (live_in (db e) s || (s =? sid))%bool).
  { intros s. unfold live_in, status_of, e'. cbn. destruct (Z.eqb_spec s sid) as [->|Hne].
    - rewrite lookup_insert_eq, orb_true_r. exact Hact.
    - by rewrite lookup_insert_ne, orb_false_r. }
  split_and!; try done.
  - split.
    + intros s. unfold e'. cbn. rewrite lookup_insert. case_decide as E; [intros _; fold sid; lia|].
      intros Hs. apply Af in Hs. lia.
    + intros s a Hin. unfold e'. cbn. rewrite lookup_insert. case_decide; [eauto|]. eapply Ak, Hin.
    + intros s. rewrite Hlive. unfold e'. cbn. rewrite lookup_insert. case_decide as E.
      * subst s. rewrite Z.eqb_refl, orb_true_r. split; eauto.
      * rewrite (proj2 (Z.eqb_neq _ _)) by congruence. rewrite orb_false_r. apply Al.
    + intros s. by rewrite Hbag.
    + intros a s. rewrite Hbag. apply Am.
    + intros s a. rewrite Hlive, Hbag. destruct (Z.eqb_spec s sid) as [->|].
      * intros _. rewrite (bag_untracked sid e Hmem). split; [|by intros ?%not_elem_of_nil].
        intros Hin. apply Ak in Hin as [x Hx]. congruence.
      * rewrite orb_false_r. apply Ar.
  - unfold e'. cbn. rewrite lookup_insert_eq. eauto.
Qed.

(** ** Members that change situation *)

Lemma append_all_effect sid (l : list Member) e :
  is_Some (members e !! sid) ->
  let e' := foldl (fun e m => append_to sid m (set_sit (RootCause.alarm_id m) sid e)) e l in
  db e' = db e ∧ list_of sid e' = list_of sid e ++ l ∧ (∀ s, s ≠ sid -> members e' !! s = members e !! s)
  ∧ (∀ s, is_Some (members e' !! s) ↔ is_Some (members e !! s))
  ∧ ∀ a, sit_of e' !! a = if decide (a ∈ ids_of l) then Some sid else sit_of e !! a.
Proof.
  revert e. induction l as [|m l IH]; intros e Hs; cbn [foldl].
  { split_and!; [done|by rewrite app_nil_r|done|done|]. intros a. rewrite decide_False; [done|apply not_elem_of_nil]. }
  set (e1 := append_to sid m (set_sit (RootCause.alarm_id m) sid e)).
  assert (H1 : is_Some (members e1 !! sid)) by (unfold e1; cbn; by rewrite lookup_alter_is_Some).
  destruct (IH e1 H1) as (Hd & Hl & Ho & Ht & Hsit). split_and!.
  - by rewrite Hd.
  - rewrite Hl. unfold list_of, e1. cbn. destruct Hs as [[h l0] Hs]. rewrite lookup_alter_eq, Hs. cbn. by rewrite <- app_assoc.
  - intros s Hne. rewrite Ho by done. unfold e1. cbn. by rewrite lookup_alter_ne.
  - intros s. rewrite Ht. unfold e1. cbn. by rewrite lookup_alter_is_Some.
  - intros a. rewrite Hsit. unfold e1. cbn. destruct (decide (a ∈ ids_of l)) as [Hin|Hin].
    + rewrite decide_True; [done|by right].
    + rewrite lookup_insert. case_decide as E.
      * rewrite decide_True; [done|]. rewrite E. by left.
      * rewrite decide_False; [done|]. intros [Ha|Ha]%elem_of_cons; congruence.
Qed.

(** The members of [src] go to [dst], in the maps and in the rows, and [src] is over. *)
Record transferred (dst src : Z) (e e' : Engine) : Prop := {
  tr_known s : is_Some (situations (db e') !! s) ↔ is_Some (situations (db e) !! s);
  tr_next : next_id (db e') = next_id (db e);
  tr_live s : live_in (db e') s = (live_in (db e) s && negb (s =? src))%bool;
  tr_rows s a : (s, a) ∈ situation_alarm (db e') ↔
    s ≠ src ∧ ((s, a) ∈ situation_alarm (db e) ∨ s = dst ∧ (src, a) ∈ situation_alarm (db e));
  tr_tracked s : is_Some (members e' !! s) ↔ is_Some (members e !! s) ∧ s ≠ src;
  tr_dst : bag dst e' = bag dst e ++ bag src e;
  tr_src : bag src e' = [];
  tr_bag s : s ≠ dst -> s ≠ src -> bag s e' = bag s e;
  tr_sit a : sit_of e' !! a = if decide (a ∈ bag src e) then Some dst else sit_of e !! a }.

Lemma agree_transferred dst src e e' :
  agree e -> dst ≠ src -> live_in (db e) dst = true -> live_in (db e) src = true -> transferred dst src e e' -> agree e'.
Proof.
  intros He Hne Hd Hs [Tk Tn Tl Tr Tt Tdst Tsrc Tb Ts]. pose proof He as [Af Ak Al An Am Ar]. split.
  - intros s Hk. rewrite Tn. by apply Af, Tk.
  - intros s a [_ [Hin|[-> _]]]%Tr; apply Tk; [by eapply Ak|].
    unfold live_in, status_of in Hd. destruct (situations (db e) !! dst); eauto; done.
  - intros s. rewrite Tt, Tl, Al, andb_true_iff, negb_true_iff, Z.eqb_neq. done.
  - intros s. destruct (decide (s = src)) as [->|]; [rewrite Tsrc; constructor|].
    destruct (decide (s = dst)) as [->|]; [|rewrite Tb by done; apply An].
    rewrite Tdst. apply NoDup_app. split_and!; [apply An| |apply An].
    intros a Ha Hb. apply Hne. by eapply agree_disjoint.
  - intros a s. rewrite Ts. destruct (decide (a ∈ bag src e)) as [Hin|Hin].
    + split.
      * intros [= <-]. rewrite Tdst, elem_of_app. by right.
      * intros Ha. destruct (decide (s = src)) as [->|]; [rewrite Tsrc in Ha; by apply not_elem_of_nil in Ha|].
        destruct (decide (s = dst)) as [->|]; [done|]. rewrite Tb in Ha by done.
        exfalso. apply n. by eapply agree_disjoint.
    + rewrite Am. destruct (decide (s = src)) as [->|]; [rewrite Tsrc; split; [done|by intros ?%not_elem_of_nil]|].
      destruct (decide (s = dst)) as [->|]; [|by rewrite Tb]. rewrite Tdst, elem_of_app. tauto.
  - intros s a. rewrite Tl, andb_true_iff, negb_true_iff, Z.eqb_neq. intros [Hl Hn]. rewrite Tr.
    destruct (decide (s = dst)) as [->|]; [|rewrite Tb by done; rewrite <- Ar by done; naive_solver].
    rewrite Tdst, elem_of_app, <- !Ar by done. naive_solver.
Qed.

Lemma peopled_transferred dst src e e' : transferred dst src e e' -> peopled (db e) -> peopled (db e').
Proof.
  intros [Tk Tn Tl Tr _ _ _ _ _] Hp s. rewrite Tl, andb_true_iff, negb_true_iff, Z.eqb_neq. intros [Hl Hn].
  destruct (Hp s Hl) as [a Ha]. exists a. apply Tr. auto.
Qed.

Lemma merge_rows dst src ts d s a :
  dst ≠ src ->
  (s, a) ∈ situation_alarm (merge_situations dst src ts d) ↔
    s ≠ src ∧ ((s, a) ∈ situation_alarm d ∨ s = dst ∧ (src, a) ∈ situation_alarm d).
Proof.
  intros Hne. cbn [merge_situations situation_alarm touch_situation update with_situations with_links with_rows].
  rewrite elem_of_filter, elem_of_union, elem_of_map. setoid_rewrite elem_of_situation. simpl. split.
  - intros [Hs [H|(x & [= -> ->] & <- & Hx)]]; [auto|]. split; [done|]. right. split; [done|]. by destruct x.
  - intros [Hs [H|[-> H]]]; [auto|]. split; [done|]. right. by exists (src, a).
Qed.

Lemma merge_known dst src ts d s :
  is_Some (situations (merge_situations dst src ts d) !! s) ↔ is_Some (situations d !! s).
Proof. unfold merge_situations, touch_situation. rewrite !update_known. done. Qed.

Lemma merge_live dst src ts d s :
  live_in (merge_situations dst src ts d) s = (live_in d s && negb (s =? src))%bool.
Proof.
  unfold merge_situations, touch_situation. rewrite live_update by done. unfold live_in.
  rewrite status_update. destruct (Z.eqb_spec s src) as [->|Hn].
  - rewrite decide_True by done. simpl. destruct (situations d !! src); simpl; by rewrite andb_false_r.
  - rewrite decide_False by done. by rewrite andb_true_r.
Qed.

Lemma transfer_maps dst src ts e e1 e2 :
  dst ≠ src -> agree e -> live_in (db e) dst = true ->
  e1 = with_maps (sit_of e) (delete src (members e)) (with_db (merge_situations dst src ts (db e)) e) ->
  e2 = foldl (fun e m => append_to dst m (set_sit (RootCause.alarm_id m) dst e)) e1 (list_of src e) ->
  transferred dst src e e2.
Proof.
  intros Hne He Hd -> ->. set (e1 := with_maps _ (delete src (members e)) _).
  assert (Hdst : is_Some (members e1 !! dst)).
  { unfold e1. cbn. rewrite lookup_delete_ne by done. by apply (ag_live e He). }
  destruct (append_all_effect dst (list_of src e) e1 Hdst) as (Hdb & Hl & Ho & Ht & Hs).
  set (e2 := foldl _ e1 _) in *. split; rewrite ?Hdb.
  - intros s. apply merge_known.
  - done.
  - intros s. apply merge_live.
  - intros s a. by apply merge_rows.
  - intros s. rewrite Ht. unfold e1. cbn. rewrite lookup_delete_is_Some. naive_solver.
  - unfold bag. rewrite Hl, fmap_app. f_equal. unfold list_of, e1. cbn. by rewrite lookup_delete_ne.
  - unfold bag, list_of. rewrite Ho by done. unfold e1. cbn. by rewrite lookup_delete_eq.
  - intros s H1 H2. unfold bag, list_of. rewrite Ho by done. unfold e1. cbn. by rewrite lookup_delete_ne.
  - intros a. rewrite Hs. done.
Qed.

Lemma fold_one_transferred sid ts e other :
  sid ≠ other -> agree e -> live_in (db e) sid = true -> transferred sid other e (fold_one sid ts e other).
Proof. intros Hne He Hd. by eapply transfer_maps. Qed.

(** With the destination tracked, [setdefault] finds its list. *)
Lemma fold_members_tracked dst src e :
  dst ≠ src -> is_Some (members e !! dst) ->
  fold_members dst src e = foldl (fun e m => append_to dst m (set_sit (RootCause.alarm_id m) dst e))
    (with_maps (sit_of e) (delete src (members e)) e) (list_of src e).
Proof.
  intros Hne Hd. unfold fold_members. set (e1 := with_maps _ _ e).
  assert (H1 : is_Some (members e1 !! dst)) by (unfold e1; cbn; by rewrite lookup_delete_ne).
  clearbody e1. generalize (list_of src e) as l. intros l. revert e1 H1.
  induction l as [|m l IH]; intros e1 H1; [done|]. cbn [foldl].
  assert (Ht : tracked (set_sit (RootCause.alarm_id m) dst e1) dst = true) by (unfold tracked; by apply bool_decide_eq_true).
  rewrite Ht. apply IH. cbn. by rewrite lookup_alter_is_Some.
Qed.

Lemma merged_transferred dst src ts e :
  dst ≠ src -> agree e -> live_in (db e) dst = true ->
  transferred dst src e (merged dst src (with_db (merge_situations dst src ts (db e)) e)).
Proof.
  intros Hne He Hd. unfold merged. rewrite fold_members_tracked; [|done|by apply (ag_live e He)].
  by eapply transfer_maps.
Qed.

Lemma fold_all_agree sid ts l e :
  agree e -> live_in (db e) sid = true -> sid ∉ l -> NoDup l -> (∀ s, s ∈ l -> live_in (db e) s = true) ->
  let e' := foldl (fold_one sid ts) e l in
  agree e' ∧ live_in (db e') sid = true
  ∧ (∀ a, sit_of e' !! a = match sit_of e !! a with
        | Some s => if decide (s ∈ l) then Some sid else Some s | None => None end)
  ∧ (∀ s, live_in (db e') s = true -> live_in (db e) s = true ∧ s ∉ l
     ∧ ∀ a, (s, a) ∈ situation_alarm (db e) -> (s, a) ∈ situation_alarm (db e')).
Proof.
  revert e. induction l as [|o l IH]; intros e He Hs Hn Hd Hl; cbn [foldl].
  { split_and!; [done|done| |]. { intros a. destruct (sit_of e !! a); [|done]. by rewrite decide_False by apply not_elem_of_nil. }
    intros s Hlv. split_and!; [done|apply not_elem_of_nil|done]. }
  apply not_elem_of_cons in Hn as [Hne Hn]. apply NoDup_cons in Hd as [Ho Hd].
  assert (Hlo : live_in (db e) o = true) by (apply Hl; by left).
  pose proof (fold_one_transferred sid ts e o Hne He Hs) as Ht.
  pose proof (agree_transferred _ _ _ _ He Hne Hs Hlo Ht) as He1.
  set (e1 := fold_one sid ts e o) in *. destruct Ht as [Tk Tn Tl Tr Tt Tdst Tsrc Tb Ts].
  assert (Hs1 : live_in (db e1) sid = true) by (rewrite Tl, Hs, (proj2 (Z.eqb_neq _ _)); done).
  destruct (IH e1 He1 Hs1 Hn Hd) as (Hr1 & Hr2 & Hr3 & Hr4).
  { intros s Hin. rewrite Tl, Hl by (by right). simpl. rewrite (proj2 (Z.eqb_neq _ _)); [done|congruence]. }
  split_and!; [done|done| |].
  - intros a. rewrite Hr3, Ts. destruct (decide (a ∈ bag o e)) as [Ha|Ha].
    + apply (ag_maps e He) in Ha. rewrite Ha, decide_False by done. by rewrite decide_True by (by left).
    + destruct (sit_of e !! a) as [s|] eqn:E; [|done].
      assert (s ≠ o) by (intros ->; by apply Ha, (ag_maps e He)).
      destruct (decide (s ∈ l)); [rewrite decide_True; [done|by right]|].
      rewrite decide_False; [done|]. by intros [|]%elem_of_cons.
  - intros s Hlv. destruct (Hr4 s Hlv) as (H1 & H2 & H3). rewrite Tl, andb_true_iff, negb_true_iff, Z.eqb_neq in H1.
    destruct H1 as [H1 H1n]. split_and!; [done|by apply not_elem_of_cons|].
    intros a Ha. apply H3, Tr. auto.
Qed.

(** ** One alarm joins *)

Lemma agree_join a sid m e d u :
  agree e -> live_in (db e) sid = true -> sit_of e !! a = None -> RootCause.alarm_id m = a ->
  d = (insert_member sid a (db e)).2 ->
  agree (append_to sid m (set_sit a sid (with_upkeep u (with_db d e)))).
Proof.
  intros He Hl Hn Em ->. pose proof He as [Af Ak Al An Am Ar]. set (e' := append_to _ _ _).
  assert (Hsid : is_Some (members e !! sid)) by (by apply Al).
  assert (Hbag : ∀ s, bag s e' = if decide (s = sid) then bag sid e ++ [a] else bag s e).
  { intros s. unfold bag, list_of, e'. cbn. case_decide as E.
    - subst s. destruct Hsid as [[h l] Hs]. rewrite lookup_alter_eq, Hs. cbn. by rewrite fmap_app, <- Em.
    - by rewrite lookup_alter_ne. }
  assert (Hout : ∀ s, a ∉ bag s e) by (intros s Ha; apply Am in Ha; congruence).
  split.
  - exact Af.
  - intros s b. unfold e'. cbn. intros [[= -> ->]%elem_of_singleton|Hin]%elem_of_union; [|by eapply Ak].
    unfold live_in, status_of in Hl. destruct (situations (db e) !! sid); [eauto|done].
  - intros s. unfold e'. cbn. rewrite lookup_alter_is_Some. apply Al.
  - intros s. rewrite Hbag. case_decide; [|done]. subst. apply NoDup_app.
    split_and!; [apply An| |apply NoDup_singleton]. intros b Hb ->%list_elem_of_singleton. by apply (Hout sid).
  - intros b s. rewrite Hbag. unfold e'. cbn. rewrite lookup_insert. case_decide as E.
    + subst b. case_decide as Es.
      * subst s. rewrite elem_of_app, list_elem_of_singleton. tauto.
      * split; [congruence|]. intros H. by apply Hout in H.
    + rewrite Am. case_decide; [|done]. subst. rewrite elem_of_app, list_elem_of_singleton. naive_solver.
  - intros s b. change (live_in (db e') s) with (live_in (db e) s). intros Hlv. rewrite Hbag. unfold e'. cbn.
    rewrite elem_of_union, elem_of_singleton. case_decide as E.
    + subst s. rewrite elem_of_app, list_elem_of_singleton, Ar by done. naive_solver.
    + rewrite Ar by done. naive_solver.
Qed.

(** ** An activation *)

(** A write of the tables, and of what is neither map. *)
Definition quiet_write (e e' : Engine) : Prop :=
  sit_of e' = sit_of e ∧ members e' = members e ∧ situation_alarm (db e') = situation_alarm (db e)
  ∧ next_id (db e') = next_id (db e) ∧ (∀ s, is_Some (situations (db e') !! s) ↔ is_Some (situations (db e) !! s))
  ∧ ∀ s, live_in (db e') s = live_in (db e) s.

#[global] Instance quiet_write_refl : Reflexive quiet_write.
Proof. by intros e. Qed.
#[global] Instance quiet_write_trans : Transitive quiet_write.
Proof. intros e1 e2 e3 (A1&B1&C1&D1&E1&F1) (A2&B2&C2&D2&E2&F2). split_and!; [congruence..| |]; intros s; [by rewrite E2|by rewrite F2]. Qed.

Lemma quiet_agree e e' : quiet_write e e' -> agree e -> agree e'.
Proof.
  intros (Hs & Hm & Hr & Hn & Hk & Hl) [Af Ak Al An Am Ar].
  assert (Hb : ∀ s, bag s e' = bag s e) by (intros s; unfold bag, list_of; by rewrite Hm).
  split.
  - intros s H%Hk. rewrite Hn. by apply Af.
  - intros s a. rewrite Hr. intros H%Ak. by apply Hk.
  - intros s. by rewrite Hm, Hl.
  - intros s. by rewrite Hb.
  - intros a s. by rewrite Hs, Hb.
  - intros s a. rewrite Hl, Hr, Hb. apply Ar.
Qed.

Lemma quiet_peopled e e' : quiet_write e e' -> peopled (db e) -> peopled (db e').
Proof. intros (_ & _ & Hr & _ & _ & Hl) Hp s. rewrite Hl, Hr. apply Hp. Qed.

Lemma quiet_update sid f e :
  (∀ x, LIVE (status (f x)) = LIVE (status x)) -> quiet_write e (with_db (update sid f (db e)) e).
Proof.
  intros H. split_and!; [done..| |].
  - intros s. apply update_known.
  - intros s. by apply live_update.
Qed.

Lemma quiet_explain entry outcome sid r executed e : quiet_write e (explain_member entry outcome sid r executed e).
Proof.
  unfold explain_member. cbv zeta.
  match goal with |- quiet_write e (let '(h, l) := default _ (members ?x !! sid) in _) => set (e1 := x) end.
  assert (H1 : quiet_write e e1).
  { etrans; [|exact (quiet_update sid (set_updated (Candidates.ts entry)) _ (λ _, eq_refl))]. done. }
  destruct (default (0, []) (members e1 !! sid)) as [h l]. destruct (earliest sid h l (upkeep e1)) as [sample u].
  etrans; [exact H1|]. destruct (pick_root _ _ _) as [root|]; [|done].
  exact (quiet_update sid (with_root root) (with_upkeep u e1) (λ _, eq_refl)).
Qed.

Section activation.
Context (exp : float -> float).

Lemma live_known d s : live_in d s = true -> ∃ st, status_of d s = Some st ∧ st ∈ LIVE_STATES.
Proof. unfold live_in. destruct (status_of d s) as [st|]; [|done]. intros H%bool_decide_eq_true. eauto. Qed.

(** The alarm's own situation is where it stays, or is folded into where it goes. *)
Lemma route_keeps_own e p o :
  agree e -> tracked e o = true -> join p = Some o ->
  let r := route exp e p (Some o) in r_sid r = Some o ∨ o ∈ r_merges r.
Proof.
  intros He Ht Hj. unfold route. rewrite Hj, Ht. set (merges := filter _ _). cbn [app].
  rewrite bool_decide_false by done. cbv zeta.
  assert (Hst : (default ("new", None) (lifecycle_states (o :: merges) (db e) !! o)).1 ∈ LIVE_STATES).
  { rewrite lifecycle_states_status by by left. apply bool_decide_eq_true, (ag_live e He), live_known in Ht as (st & -> & Hst). done. }
  assert (Hmo : ∀ m, m ∈ merges -> m ≠ o) by (intros m [[Hm _] _]%list_elem_of_filter; congruence).
  set (st i := (default ("new", None) (lifecycle_states (o :: merges) (db e) !! i)).1).
  set (tg i := (default ("new", None) (lifecycle_states (o :: merges) (db e) !! i)).2).
  change (st o ∈ LIVE_STATES) in Hst. clearbody st tg. unfold settle.
  destruct (String.eqb_spec (st o) "pending") as [|Hp]; [by left|]. cbv zeta.
  destruct (String.eqb_spec (st o) "open") as [|Hop]; [rewrite bool_decide_true by done; by left|].
  assert (Hnew : st o = "new").
  { unfold LIVE_STATES in Hst. apply elem_of_cons in Hst as [|[|[|H]%elem_of_cons]%elem_of_cons]; try done.
    by apply not_elem_of_nil in H. }
  destruct (snd <$> list_find _ merges) as [t|] eqn:Et; [|by left].
  apply list_find_Some_pred in Et as [Hin [_ Hrej]]. case_bool_decide as E; [left; cbn; congruence|].
  cbn [r_sid r_merges]. destruct (decide (pending_for t (db e) = Some o)) as [->|Hpd]; [by left|right].
  apply list_elem_of_filter. split; [|by left]. split_and!; [|congruence|by left].
  intros ->. by apply (Hmo t).
Qed.

Lemma agree_rejoin entry sid e :
  agree e -> live_in (db e) sid = true ->
  sit_of e !! Candidates.alarm_id entry = None ∨ sit_of e !! Candidates.alarm_id entry = Some sid ->
  agree (join_member entry sid e) ∧ (Candidates.alarm_id entry ∈ bag sid (join_member entry sid e))
  ∧ (∀ s, live_in (db (join_member entry sid e)) s = live_in (db e) s)
  ∧ situation_alarm (db e) ⊆ situation_alarm (db (join_member entry sid e)).
Proof.
  intros He Hl Ha. unfold join_member. destruct Ha as [Ha|Ha].
  - rewrite bool_decide_false by congruence. cbn [insert_member alloc].
    set (a := Candidates.alarm_id entry) in *.
    set (u := if bool_decide ((sid, a) ∉ situation_alarm (db e)) then renamed sid (upkeep e) else upkeep e).
    set (m := MkMember _ a _ _ _). set (d := with_rows _ (db e)).
    assert (Hagr : agree (append_to sid m (set_sit a sid (with_upkeep u (with_db d e))))) by (by apply (agree_join a sid)).
    match goal with |- agree ?x ∧ _ => assert (Hsame : ∃ e2, x = e2 ∧ sit_of e2 = sit_of (append_to sid m (set_sit a sid (with_upkeep u (with_db d e))))
      ∧ members e2 = members (append_to sid m (set_sit a sid (with_upkeep u (with_db d e)))) ∧ db e2 = d) end.
    { eexists. split; [reflexivity|]. subst u. by case_bool_decide. }
    destruct Hsame as (e2 & -> & Es & Em & Ed).
    assert (Hq : quiet_write (append_to sid m (set_sit a sid (with_upkeep u (with_db d e)))) e2).
    { unfold quiet_write. rewrite Es, Em, Ed. done. }
    pose proof (quiet_agree _ _ Hq Hagr) as H2. split_and!; [done| |by rewrite Ed|rewrite Ed; subst d; set_solver].
    apply (ag_maps e2 H2). rewrite Es. cbn. apply lookup_insert_eq.
  - rewrite bool_decide_true by done. split_and!; [done| |done|done]. by apply (ag_maps e He).
Qed.

(** A placement that keeps an alarm with its own situation, as the trained model's does. *)
Definition keeps_own (p : Placement) (own : option Z) : Prop :=
  NoDup (merge p) ∧ ∀ o, own = Some o -> join p = Some o.

Lemma tracked_of_sit e a o : agree e -> sit_of e !! a = Some o -> tracked e o = true.
Proof.
  intros He Ho. apply bool_decide_eq_true. apply (ag_maps e He) in Ho. destruct (members e !! o) eqn:E; [by eexists|].
  rewrite bag_untracked in Ho by done. by apply not_elem_of_nil in Ho.
Qed.

Lemma tracked_live e s : agree e -> tracked e s = true -> live_in (db e) s = true.
Proof. intros He H. apply (ag_live e He). by apply bool_decide_eq_true in H. Qed.

Lemma settle_merges_NoDup e p own sid (merges ids : list Z) st target_of :
  NoDup merges -> NoDup ids -> NoDup (r_merges (settle exp e p own sid merges ids st target_of)).
Proof.
  intros Hm Hi. unfold settle.
  destruct (match sid with Some s => String.eqb (st s) "pending" | None => false end); [by apply NoDup_filter|].
  cbv zeta. destruct (if match sid with Some s => String.eqb (st s) "open" | None => false end then sid else _);
    [|by apply NoDup_filter].
  case_bool_decide; [constructor|]. by apply NoDup_filter.
Qed.

Lemma route_merges_NoDup e p own : NoDup (merge p) -> NoDup (r_merges (route exp e p own)).
Proof.
  intros Hnd. unfold route. case_bool_decide; [constructor|]. apply settle_merges_NoDup; [by apply NoDup_filter|].
  set (sid := match join p with Some s => _ | None => _ end).
  assert (Hm : NoDup (filter (λ m, Some m ≠ sid ∧ tracked e m = true) (merge p))) by (by apply NoDup_filter).
  destruct sid; [|done]. apply NoDup_cons. split; [|done]. by intros [[Hx _] _]%list_elem_of_filter.
Qed.

(** What the chosen situation is, before anything is folded into it. *)
Record chosen_ok (r : Route) (own : option Z) (e : Engine) (sid : Z) (e1 : Engine) : Prop := {
  ch_agree : agree e1;
  ch_live : live_in (db e1) sid = true;
  ch_sit : sit_of e1 = sit_of e;
  ch_rows : situation_alarm (db e1) = situation_alarm (db e);
  ch_others s : live_in (db e1) s = true -> live_in (db e) s = true ∨ s = sid;
  ch_own o : own = Some o -> o = sid ∨ o ∈ r_merges r }.

Lemma choose r own ts e :
  agree e -> (∀ o, own = Some o -> tracked e o = true ∧ (r_sid r = Some o ∨ o ∈ r_merges r)) ->
  chosen_ok r own e (situation_for r ts e).1 (situation_for r ts e).2.
Proof.
  intros He Hown.
  assert (Hnew : (∀ o, own = Some o -> o ∈ r_merges r) ->
    chosen_ok r own e (create ts (r_act r) (config_id e) (decider_ref e) e).1 (create ts (r_act r) (config_id e) (decider_ref e) e).2).
  { intros Ho. assert (Hact : LIVE (default "" (edge (r_act r) None)) = true) by (unfold r_act; by destruct (r_propose r)).
    pose proof (agree_create ts (r_act r) (config_id e) (decider_ref e) e He Hact) as Hc.
    destruct (create _ _ _ _ e) as [sid e1]. destruct Hc as (H1 & -> & _ & H4 & _ & H6 & H7 & H8).
    split; try done; [by apply (ag_live e1 H1)| |auto].
    intros s Hs. rewrite H8 in Hs. apply orb_true_iff in Hs as [|?%Z.eqb_eq]; auto. }
  unfold situation_for. destruct (r_sid r) as [s|] eqn:Er.
  - destruct (tracked e s) eqn:Et.
    + split; try done; [by apply tracked_live|auto|]. intros o Ho. destruct (Hown o Ho) as [_ [[= ->]|]]; auto.
    + apply Hnew. intros o Ho. destruct (Hown o Ho) as [Ht [[= ->]|]]; [congruence|done].
  - apply Hnew. intros o Ho. by destruct (Hown o Ho) as [_ [|]].
Qed.

Lemma agree_assign entry outcome e :
  agree e -> peopled (db e) -> keeps_own (placement outcome) (sit_of e !! Candidates.alarm_id entry) ->
  agree (assign_situation exp entry outcome e).1.1 ∧ peopled (db (assign_situation exp entry outcome e).1.1)
  ∧ is_Some (sit_of (assign_situation exp entry outcome e).1.1 !! Candidates.alarm_id entry).
Proof.
  intros He Hp [Hnd Hown]. unfold assign_situation. cbv zeta. set (a := Candidates.alarm_id entry) in *.
  set (r := route exp e (placement outcome) (sit_of e !! a)).
  pose proof (choose r (sit_of e !! a) (Candidates.ts entry) e He) as Hch.
  destruct (situation_for r (Candidates.ts entry) e) as [sid e1]. simpl in Hch.
  destruct Hch as [He1 Hl1 Hs1 Hr1 Hlv1 Hk1].
  { intros o Ho. pose proof (tracked_of_sit e a o He Ho). split; [done|]. unfold r. rewrite Ho. apply route_keeps_own; auto. }
  set (e2 := match r_propose r with Some t => _ | None => e1 end).
  assert (Hq2 : quiet_write e1 e2) by (subst e2; destruct (r_propose r); [by apply quiet_update|done]).
  pose proof (quiet_agree _ _ Hq2 He1) as He2. destruct Hq2 as (Hs2 & _ & Hr2 & _ & _ & Hl2).
  set (executed := filter _ (r_merges r)).
  destruct (fold_all_agree sid (Candidates.ts entry) executed e2 He2) as (He3 & Hl3 & Hs3 & Hr3).
  { by rewrite Hl2. }
  { by intros [[Hx _] _]%list_elem_of_filter. }
  { by apply NoDup_filter, route_merges_NoDup. }
  { intros s [[_ Hx] _]%list_elem_of_filter. by apply tracked_live. }
  set (e3 := foldl _ e2 executed) in *.
  assert (Hsit3 : sit_of e3 !! a = None ∨ sit_of e3 !! a = Some sid).
  { rewrite Hs3, Hs2, Hs1. destruct (sit_of e !! a) as [o|] eqn:Eo; [|by left]. right.
    destruct (decide (o ∈ executed)) as [|Hno]; [done|]. destruct (Hk1 o eq_refl) as [->|Hin]; [done|].
    destruct (decide (o = sid)) as [->|Hne]; [done|]. exfalso. apply Hno, list_elem_of_filter. split; [|done]. split; [done|].
    apply (tracked_of_sit e2 a); [done|]. by rewrite Hs2, Hs1. }
  destruct (agree_rejoin entry sid e3 He3 Hl3 Hsit3) as (He4 & Hin4 & Hl4 & Hr4). cbn [fst].
  pose proof (quiet_explain entry outcome sid r executed (join_member entry sid e3)) as Hq5.
  split; [by eapply quiet_agree|]. split; [apply (quiet_peopled _ _ Hq5)|].
  2: { destruct Hq5 as (-> & _). exists sid. by apply (ag_maps _ He4). }
  intros s Hs. rewrite Hl4 in Hs. destruct (decide (s = sid)) as [->|Hne].
  - exists (Candidates.alarm_id entry). apply (ag_rows _ He4); [by rewrite Hl4|done].
  - destruct (Hr3 s Hs) as (H1 & _ & H3). rewrite Hl2 in H1. destruct (Hlv1 s H1) as [H|]; [|done].
    destruct (Hp s H) as [b Hb]. exists b. apply Hr4, H3. by rewrite Hr2, Hr1.
Qed.
End activation.

(** ** The operators' gestures *)

Lemma quiet_promoted sid ts act e : quiet_write e (promoted sid ts act e).
Proof.
  unfold promoted, promote_situation. case_bool_decide; [|done]. apply quiet_update. intros x.
  case_bool_decide as E; [|done]. cbn [status set_proposed].
  apply elem_of_cons in E as [->|[->|E]%elem_of_cons]; [done..|by apply not_elem_of_nil in E].
Qed.

Lemma live_withdraw sid ts d s : live_in (withdraw_proposal sid ts d) s = live_in d s.
Proof. apply live_update. intros x. case_bool_decide as E; [by rewrite E|done]. Qed.

Lemma quiet_withdraw sid ts e : quiet_write e (with_db (withdraw_proposal sid ts (db e)) e).
Proof. apply quiet_update. intros x. case_bool_decide as E; [by rewrite E|done]. Qed.

Lemma quiet_lapse ts e : quiet_write e (lapse ts e).
Proof.
  unfold lapse. generalize (orphan_proposals (db e)) as l. intros l. revert e.
  induction l as [|s l IH]; intros e; cbn [foldl]; [done|].
  etrans; [apply (quiet_withdraw s ts e)|]. exact (IH (with_db (withdraw_proposal s ts (db e)) e)).
Qed.


Lemma agree_merge dst src ts e :
  agree e -> peopled (db e) -> dst ≠ src -> live_in (db e) dst = true -> live_in (db e) src = true ->
  agree (merged dst src (with_db (merge_situations dst src ts (db e)) e))
  ∧ peopled (db (merged dst src (with_db (merge_situations dst src ts (db e)) e))).
Proof.
  intros He Hp Hne Hd Hs. pose proof (merged_transferred dst src ts e Hne He Hd) as Ht.
  split; [by eapply agree_transferred|by eapply peopled_transferred].
Qed.

(** A situation that is over leaves the maps. *)
Lemma unmap_all_lookup l s a : unmap_all l s !! a = if decide (a ∈ ids_of l) then None else s !! a.
Proof.
  unfold unmap_all. revert s. induction l as [|m l IH]; intros s; cbn [foldl].
  { rewrite decide_False; [done|apply not_elem_of_nil]. }
  rewrite IH, lookup_delete. destruct (decide (a ∈ ids_of l)) as [H|H].
  - rewrite decide_True; [done|by right].
  - case_decide as E; [rewrite decide_True; [done|]; subst; by left|].
    rewrite decide_False; [done|]. intros [Ha|Ha]%elem_of_cons; [by apply E|done].
Qed.

Lemma agree_forget sid d e :
  agree e -> (∀ s, is_Some (situations d !! s) ↔ is_Some (situations (db e) !! s)) -> next_id d = next_id (db e) ->
  situation_alarm d = situation_alarm (db e) -> (∀ s, live_in d s = (live_in (db e) s && negb (s =? sid))%bool) ->
  agree (forget_situation sid (with_db d e)).
Proof.
  intros [Af Ak Al An Am Ar] Hk Hn Hr Hl. set (e' := forget_situation sid _).
  assert (Hbag : ∀ s, bag s e' = if decide (s = sid) then [] else bag s e).
  { intros s. unfold bag, list_of, e'. cbn. case_decide as E; [subst; by rewrite lookup_delete_eq|by rewrite lookup_delete_ne]. }
  assert (Hsit : ∀ a, sit_of e' !! a = if decide (a ∈ bag sid e) then None else sit_of e !! a).
  { intros a. unfold e'. cbn. by rewrite unmap_all_lookup. }
  assert (Hdb : db e' = d) by done. split; rewrite ?Hdb.
  - intros s Hs%Hk. rewrite Hn. by apply Af.
  - intros s a. rewrite Hr. intros H%Ak. by apply Hk.
  - intros s. change (members e') with (delete sid (members e)). rewrite lookup_delete_is_Some, Hl, andb_true_iff, negb_true_iff, Z.eqb_neq.
    rewrite Al. naive_solver.
  - intros s. rewrite Hbag. case_decide; [constructor|apply An].
  - intros a s. rewrite Hbag, Hsit. destruct (decide (a ∈ bag sid e)) as [Ha|Ha].
    + split; [done|]. case_decide; [by intros ?%not_elem_of_nil|]. intros Hs. apply Am in Ha, Hs. congruence.
    + case_decide as E; [|apply Am]. subst s. rewrite Am. split; [done|by intros ?%not_elem_of_nil].
  - intros s a. rewrite Hl, andb_true_iff, negb_true_iff, Z.eqb_neq, Hr, Hbag. intros [H1 H2].
    rewrite decide_False by done. by apply Ar.
Qed.

Lemma live_resolve sid res ts d s : live_in (resolve_where sid res ts d) s = (live_in d s && negb (s =? sid))%bool.
Proof.
  unfold resolve_where. destruct (live_in d sid) eqn:E.
  - unfold live_in. rewrite status_update. destruct (Z.eqb_spec s sid) as [->|Hn].
    + rewrite decide_True by done. destruct (situations d !! sid); simpl; by rewrite andb_false_r.
    + rewrite decide_False by done. by rewrite andb_true_r.
  - destruct (Z.eqb_spec s sid) as [->|]; [by rewrite E|by rewrite andb_true_r].
Qed.

Lemma resolve_keeps sid res ts d :
  (∀ s, is_Some (situations (resolve_where sid res ts d) !! s) ↔ is_Some (situations d !! s))
  ∧ next_id (resolve_where sid res ts d) = next_id d
  ∧ situation_alarm (resolve_where sid res ts d) = situation_alarm d.
Proof.
  unfold resolve_where. destruct (live_in d sid); [|done]. split_and!; [|done|done]. intros s. apply update_known.
Qed.

Lemma peopled_less d d' :
  peopled d -> situation_alarm d' = situation_alarm d -> (∀ s, live_in d' s = true -> live_in d s = true) -> peopled d'.
Proof. intros Hp Hr Hl s Hs. rewrite Hr. by apply Hp, Hl. Qed.

Lemma agree_resolve sid res ts e :
  agree e -> peopled (db e) -> agree (resolve_and_forget sid res ts e) ∧ peopled (db (resolve_and_forget sid res ts e)).
Proof.
  intros He Hp. unfold resolve_and_forget, resolve_situation. destruct (live_in (db e) sid) eqn:E; [|done].
  destruct (resolve_keeps sid res ts (db e)) as (Hk & Hn & Hr). split.
  - apply agree_forget; [done..|]. intros s. apply live_resolve.
  - apply (peopled_less (db e)); [done..|]. intros s. change (db (forget_situation _ (with_db ?d _))) with d.
    rewrite live_resolve. by intros [? _]%andb_true_iff.
Qed.

Lemma agree_close sid ts e :
  agree e -> peopled (db e) -> has_active sid (db e) = false -> agree (close sid ts e) ∧ peopled (db (close sid ts e)).
Proof.
  intros He Hp Ha. unfold close, close_situation.
  change (db (forget_situation sid e)) with (db e). rewrite Ha.
  destruct (resolve_keeps sid (close_reason sid (db e)) ts (db e)) as (Hk & Hn & Hr). split.
  - change (agree (forget_situation sid (with_db (resolve_where sid (close_reason sid (db e)) ts (db e)) e))).
    apply agree_forget; [done..|]. intros s. apply live_resolve.
  - apply (peopled_less (db e)); [done..|]. intros s. cbn [db with_db].
    rewrite live_resolve. by intros [? _]%andb_true_iff.
Qed.
