(* ===== verification/Mirror.v ===== *)
(** * Every history keeps the maps and the tables together

    The operators' gestures and the reload over the lemmas of [Membership], the histories of an engine
    as a step relation, and what holds in all of them. *)
From S2P Require Import Prelude PyLib Floats Alternation Grouping Episodes Learn Scoring Candidates PairFeatures Correlator RootCause Situations SituationLaws Membership.

(** ** A member moves *)

Lemma find_member a l : a ∈ ids_of l -> ∃ m, List.find (is_alarm a) l = Some m ∧ RootCause.alarm_id m = a.
Proof.
  intros (m & Hm & Hin)%list_elem_of_fmap. destruct (List.find (is_alarm a) l) as [m'|] eqn:E.
  - exists m'. split; [done|]. apply List.find_some in E as [_ E]. by apply Z.eqb_eq in E.
  - apply list_elem_of_In in Hin. apply (List.find_none _ _ E) in Hin.
    unfold is_alarm in Hin. apply Z.eqb_neq in Hin. congruence.
Qed.

Lemma ids_remove_first a l : NoDup (ids_of l) -> ids_of (remove_first a l) = filter (λ b, b ≠ a) (ids_of l).
Proof.
  induction l as [|m l IH]; [done|]. rewrite fmap_cons. intros [Hm Hl]%NoDup_cons. cbn [remove_first].
  unfold is_alarm. destruct (Z.eqb_spec (RootCause.alarm_id m) a) as [E|E].
  - rewrite filter_cons_False by tauto. rewrite <- E. clear IH Hl E. induction l as [|x l IHl]; [done|].
    rewrite fmap_cons in Hm |- *. apply not_elem_of_cons in Hm as [H1 H2]. rewrite filter_cons_True by done. f_equal. by apply IHl.
  - rewrite fmap_cons, filter_cons_True by done. f_equal. by apply IH.
Qed.

Lemma live_is_known d s : live_in d s = true -> is_Some (situations d !! s).
Proof. unfold live_in, status_of. destruct (situations d !! s); [eauto|done]. Qed.

Definition row_moved (a from to : Z) (d : Db) : Db :=
  with_rows ({[(to, a)]} ∪ (situation_alarm d ∖ {[(from, a)]})) d.

Lemma elem_row_moved a from to d s b :
  (s, b) ∈ situation_alarm (row_moved a from to d) ↔
    (s = to ∧ b = a) ∨ ((s, b) ∈ situation_alarm d ∧ ¬ (s = from ∧ b = a)).
Proof.
  cbn. rewrite elem_of_union, elem_of_difference, !elem_of_singleton. split.
  - intros [[= -> ->]|[H Hn]]; [by left|]. right. split; [done|]. by intros [-> ->].
  - intros [[-> ->]|[H Hn]]; [by left|]. right. split; [done|]. intros [= -> ->]. by apply Hn.
Qed.

Lemma agree_moved a from to e :
  agree e -> from ≠ to -> live_in (db e) from = true -> live_in (db e) to = true ->
  (from, a) ∈ situation_alarm (db e) -> agree (moved a from to (with_db (row_moved a from to (db e)) e)).
Proof.
  intros He Hne Hf Ht Hin. pose proof He as [Af Ak Al An Am Ar].
  assert (Ha : a ∈ bag from e) by (by apply Ar). destruct (find_member a _ Ha) as (m & Hfind & Em).
  unfold moved. change (list_of from (with_db _ e)) with (list_of from e). rewrite Hfind. cbv zeta.
  set (e1 := with_maps _ (alter _ from _) _).
  assert (Htr : tracked e1 to = true).
  { apply bool_decide_eq_true. unfold e1. cbn. rewrite lookup_alter_ne by done. by apply Al. }
  rewrite Htr. set (e' := set_sit a to _).
  assert (Hbag : ∀ s, bag s e' = if decide (s = from) then filter (λ b, b ≠ a) (bag from e)
    else if decide (s = to) then bag to e ++ [a] else bag s e).
  { intros s. apply Al in Hf as [[hf lf] Hf], Ht as [[ht lt] Ht]. unfold bag, list_of, e', e1. cbn.
    destruct (decide (s = from)) as [->|].
    - rewrite lookup_alter_ne, lookup_alter_eq, Hf by congruence. cbn. rewrite ids_remove_first; [done|].
      specialize (An from). unfold bag, list_of in An. by rewrite Hf in An.
    - destruct (decide (s = to)) as [->|]; [|by rewrite !lookup_alter_ne].
      rewrite lookup_alter_eq, lookup_alter_ne, Ht by done. cbn. by rewrite fmap_app, <- Em. }
  assert (Hrows : ∀ s b, (s, b) ∈ situation_alarm (db e') ↔
    (s = to ∧ b = a) ∨ ((s, b) ∈ situation_alarm (db e) ∧ ¬ (s = from ∧ b = a))).
  { intros s b. apply elem_row_moved. }
  assert (Hout : ∀ s, a ∈ bag s e -> s = from) by (intros s H; by eapply agree_disjoint).
  split.
  - exact Af.
  - intros s b. rewrite Hrows. intros [[-> ->]|[H _]]; [by apply live_is_known|by eapply Ak].
  - intros s. unfold e', e1. cbn. rewrite !lookup_alter_is_Some. apply Al.
  - intros s. rewrite Hbag. case_decide; [apply NoDup_filter, An|]. case_decide; [|apply An]. subst s. apply NoDup_app.
    split_and!; [apply An| |apply NoDup_singleton]. intros b Hb ->%list_elem_of_singleton. by apply Hne; rewrite (Hout to).
  - intros b s. rewrite Hbag. change (sit_of e') with (<[a := to]> (sit_of e)). rewrite lookup_insert. case_decide as E.
    + subst b. case_decide as Es; [subst s; rewrite list_elem_of_filter; split; [congruence|tauto]|].
      case_decide as Et; [subst s; rewrite elem_of_app, list_elem_of_singleton; tauto|].
      split; [congruence|]. intros H. by apply Hout in H.
    + rewrite Am. case_decide as Es; [subst s; rewrite list_elem_of_filter; naive_solver|].
      case_decide as Et; [subst s; rewrite elem_of_app, list_elem_of_singleton; naive_solver|done].
  - intros s b Hl. change (live_in (db e) s = true) in Hl. rewrite Hrows, Hbag.
    case_decide as Es; [subst s; rewrite list_elem_of_filter, Ar by done; naive_solver|].
    case_decide as Et; [subst s; rewrite elem_of_app, list_elem_of_singleton, Ar by done; naive_solver|].
    rewrite Ar by done. naive_solver.
Qed.

Lemma live_row_moved a from to d s : live_in (row_moved a from to d) s = live_in d s.
Proof. done. Qed.

Lemma db_moved a from to e : db (moved a from to e) = db e.
Proof. unfold moved. destruct (List.find _ _); [|done]. by destruct (tracked _ _). Qed.

Lemma move_each_ok moving from to e e' :
  agree e -> from ≠ to -> live_in (db e) from = true -> live_in (db e) to = true -> move_each moving from to e = Ok e' ->
  agree e' ∧ situations (db e') = situations (db e)
  ∧ (∀ s b, s ≠ from -> (s, b) ∈ situation_alarm (db e) -> (s, b) ∈ situation_alarm (db e'))
  ∧ (∀ b, b ∉ moving -> (from, b) ∈ situation_alarm (db e) -> (from, b) ∈ situation_alarm (db e')).
Proof.
  revert e. induction moving as [|a moving IH]; intros e He Hne Hf Ht; cbn [move_each]; [by intros [= <-]|].
  unfold move_row. case_bool_decide as Hin; [|done]. cbn [ensure].
  intros H. apply IH in H as (H1 & H2 & H3 & H4); [|by apply agree_moved|done|by rewrite db_moved|by rewrite db_moved].
  rewrite db_moved in H2, H3, H4. fold (row_moved a from to (db e)) in *. cbn [db with_db] in *. split_and!; [done|done| |].
  - intros s b Hs Hb. apply H3; [done|]. apply elem_row_moved. right. naive_solver.
  - intros b [Hb1 Hb2]%not_elem_of_cons Hb. apply H4; [done|]. apply elem_row_moved. right. naive_solver.
Qed.

Lemma size_of_list (l : list Z) : (size (list_to_set l : gset Z) <= length l)%nat.
Proof.
  induction l as [|x l IH]; cbn [list_to_set length]; [by rewrite size_empty|].
  rewrite size_union_alt, size_singleton. assert (size ((list_to_set l : gset Z) ∖ {[x]}) <= size (list_to_set l : gset Z))%nat; [|lia].
  apply subseteq_size, subseteq_difference_l. done.
Qed.

Lemma more_than (l : list Z) (X : gset Z) : (length l < size X)%nat -> ∃ b, b ∈ X ∧ b ∉ l.
Proof.
  intros Hlt. destruct (set_choose_or_empty (X ∖ list_to_set l)) as [[b Hb]|He].
  - apply elem_of_difference in Hb as [Hb Hn]. exists b. split; [done|]. intros H. by apply Hn, elem_of_list_to_set.
  - assert (Hs : X ⊆ list_to_set l).
    { intros b Hb. destruct (decide (b ∈ (list_to_set l : gset Z))); [done|]. exfalso.
      apply (not_elem_of_empty (C:=gset Z) b). rewrite <- He. by apply elem_of_difference. }
    apply subseteq_size in Hs. pose proof (size_of_list l). lia.
Qed.

Lemma elem_members_of sid d a : a ∈ members_of sid d ↔ (sid, a) ∈ situation_alarm d.
Proof.
  unfold members_of. rewrite elem_of_map. setoid_rewrite elem_of_situation. split.
  - by intros ([? ?] & -> & <- & H).
  - intros H. by exists (sid, a).
Qed.

(** ** A situation splits *)

Lemma sit_split l new e a :
  sit_of (foldl (λ e m, set_sit (RootCause.alarm_id m) new e) e l) !! a
  = if decide (a ∈ ids_of l) then Some new else sit_of e !! a.
Proof.
  revert e. induction l as [|m l IH]; intros e; cbn [foldl].
  { rewrite decide_False; [done|apply not_elem_of_nil]. }
  rewrite IH. cbn. destruct (decide (a ∈ ids_of l)) as [H|H]; [rewrite decide_True; [done|by right]|].
  rewrite lookup_insert. case_decide as E; [rewrite decide_True; [done|]; subst; by left|].
  rewrite decide_False; [done|]. intros [Ha|Ha]%elem_of_cons; [by apply E|done].
Qed.

Lemma set_sits_same l new e :
  db (foldl (λ e m, set_sit (RootCause.alarm_id m) new e) e l) = db e
  ∧ members (foldl (λ e m, set_sit (RootCause.alarm_id m) new e) e l) = members e.
Proof. revert e. induction l as [|m l IH]; intros e; [done|]. cbn [foldl]. by destruct (IH (set_sit (RootCause.alarm_id m) new e)). Qed.

Lemma ids_filter (P : Z -> Prop) `{!∀ x, Decision (P x)} (l : list Member) :
  ids_of (filter (λ m, P (RootCause.alarm_id m)) l) = filter P (ids_of l).
Proof.
  induction l as [|m l IH]; [done|]. rewrite fmap_cons, !filter_cons. case_decide; [|done]. by rewrite fmap_cons, IH.
Qed.

Lemma split_rows sid departing ts d s b :
  (∀ a, a ∈ departing -> (sid, a) ∈ situation_alarm d) ->
  (s, b) ∈ situation_alarm (operator_split sid departing ts d).2 ↔
    ((s, b) ∈ situation_alarm d ∧ ¬ (s = sid ∧ b ∈ departing)) ∨ (s = next_id d ∧ b ∈ departing).
Proof.
  intros Hd. cbn. rewrite elem_of_union, elem_of_filter, elem_of_list_to_set, list_elem_of_fmap. cbn. split.
  - intros [[H1 H2]|(a & [= -> ->] & Ha)]; [by left|by right].
  - intros [[H1 H2]|[-> H]]; [by left|]. right. by exists b.
Qed.

Lemma fresh_next d : fresh_ids d -> situations d !! next_id d = None.
Proof. intros H. destruct (situations d !! next_id d) eqn:E; [|done]. assert (next_id d < next_id d) by (apply H; eauto). lia. Qed.

Lemma live_split sid departing ts d s :
  live_in (operator_split sid departing ts d).2 s = (live_in d s || (s =? next_id d))%bool.
Proof.
  unfold live_in, status_of. cbn. destruct (Z.eqb_spec s (next_id d)) as [->|Hne].
  - by rewrite lookup_insert_eq, orb_true_r.
  - by rewrite lookup_insert_ne, orb_false_r.
Qed.

Lemma agree_split sid departing ts e :
  agree e -> live_in (db e) sid = true -> (∀ a, a ∈ departing -> (sid, a) ∈ situation_alarm (db e)) ->
  let '(new, d) := operator_split sid departing ts (db e) in
  agree (split sid new departing (with_db d e)) ∧ db (split sid new departing (with_db d e)) = d.
Proof.
  intros He Hl Hsub. pose proof He as [Af Ak Al An Am Ar].
  pose proof (split_rows sid departing ts (db e)) as Hrows. pose proof (live_split sid departing ts (db e)) as Hlive.
  assert (Hknown : ∀ s, is_Some (situations (operator_split sid departing ts (db e)).2 !! s) ↔
    is_Some (situations (db e) !! s) ∨ s = next_id (db e)).
  { intros s. cbn. rewrite lookup_insert. case_decide as E; [split; eauto|]. split; [auto|]. intros [|]; [done|congruence]. }
  assert (Hnext : next_id (operator_split sid departing ts (db e)).2 = next_id (db e) + 1) by done.
  assert (Enew : (operator_split sid departing ts (db e)).1 = next_id (db e)) by done.
  destruct (operator_split sid departing ts (db e)) as [new d]. cbn [fst snd] in *. subst new.
  set (new := next_id (db e)) in *.
  assert (Hnone : situations (db e) !! new = None) by (by apply fresh_next).
  assert (Hdead : live_in (db e) new = false) by (unfold live_in, status_of; by rewrite Hnone).
  assert (Hmem : members e !! new = None).
  { destruct (members e !! new) eqn:E; [|done]. assert (live_in (db e) new = true) by (apply Al; eauto). congruence. }
  assert (Hsn : sid ≠ new) by congruence.
  set (e' := split sid new departing (with_db d e)).
  set (staying := filter (λ m, RootCause.alarm_id m ∉ departing) (list_of sid e)).
  set (leaving := filter (λ m, RootCause.alarm_id m ∈ departing) (list_of sid e)).
  assert (Htr : tracked e sid = true) by (by apply bool_decide_eq_true, Al).
  assert (Heff : db e' = d ∧ members e' = <[new := (heap e + 1, leaving)]> (<[sid := (heap e, staying)]> (members e))
    ∧ ∀ a, sit_of e' !! a = if decide (a ∈ ids_of leaving) then Some new else sit_of e !! a).
  { unfold e', split. change (list_of sid (with_db d e)) with (list_of sid e).
    change (tracked (with_db d e) sid) with (tracked e sid). rewrite Htr. cbv zeta. fold staying leaving.
    split_and!; [by rewrite (proj1 (set_sits_same _ _ _))|by rewrite (proj2 (set_sits_same _ _ _))|].
    intros a. by rewrite sit_split. }
  destruct Heff as (Hdb & Hmems & Hsit).
  assert (Hbag : ∀ s, bag s e' = if decide (s = new) then filter (λ a, a ∈ departing) (bag sid e)
    else if decide (s = sid) then filter (λ a, a ∉ departing) (bag sid e) else bag s e).
  { intros s. unfold bag at 1. unfold list_of at 1. rewrite Hmems. case_decide as E1.
    - subst s. rewrite lookup_insert_eq. cbn. exact (ids_filter (λ a, a ∈ departing) (list_of sid e)).
    - rewrite lookup_insert_ne by done. case_decide as E2; [|by rewrite lookup_insert_ne].
      subst s. rewrite lookup_insert_eq. cbn. exact (ids_filter (λ a, a ∉ departing) (list_of sid e)). }
  assert (Hleft : ∀ a, a ∈ ids_of leaving ↔ a ∈ departing ∧ a ∈ bag sid e).
  { intros a. assert (E : ids_of leaving = filter (λ a, a ∈ departing) (bag sid e))
      by exact (ids_filter (λ a, a ∈ departing) (list_of sid e)).
    by rewrite E, list_elem_of_filter. }
  assert (Hnb : ∀ a, a ∉ bag new e) by (intros a; rewrite bag_untracked by done; apply not_elem_of_nil).
  split; [|done]. split; rewrite ?Hdb.
  - intros s [Hs| ->]%Hknown; rewrite Hnext; [|fold new; lia]. specialize (Af s Hs). lia.
  - intros s a. rewrite Hrows by done. intros [[H _]|[-> H]]; apply Hknown; [left; by eapply Ak|by right].
  - intros s. rewrite Hmems, Hlive, !lookup_insert, orb_true_iff, Z.eqb_eq. fold new.
    case_decide as E1; [split; eauto|]. case_decide as E2; [|rewrite Al; naive_solver]. subst s. split; eauto.
  - intros s. rewrite Hbag. repeat case_decide; try apply NoDup_filter; apply An.
  - intros a s. rewrite Hsit, Hbag. destruct (decide (a ∈ ids_of leaving)) as [Hx|Hx]; rewrite Hleft in Hx.
    + destruct Hx as [Hx Hb]. case_decide as E1; [subst s; rewrite list_elem_of_filter; tauto|].
      case_decide as E2; [subst s; rewrite list_elem_of_filter; split; [congruence|tauto]|].
      split; [congruence|]. intros Hs. exfalso. apply E2. by eapply agree_disjoint.
    + rewrite Am. case_decide as E1; [subst s; rewrite list_elem_of_filter; split; [intros H; by apply Hnb in H|tauto]|].
      case_decide as E2; [subst s; rewrite list_elem_of_filter|]; tauto.
  - intros s a. rewrite Hlive, Hrows, Hbag by done. fold new. intros Hs. case_decide as E1.
    + subst s. rewrite list_elem_of_filter, <- Ar by done. split.
      * intros [[H _]|[_ H]]; [|auto]. apply Ak in H as [x H]. congruence.
      * intros [H _]. by right.
    + rewrite (proj2 (Z.eqb_neq _ _)), orb_false_r in Hs by done. case_decide as E2.
      * subst s. rewrite list_elem_of_filter, Ar by done. tauto.
      * rewrite Ar by done. tauto.
Qed.

(** ** An alarm a maintenance window hands back *)

Lemma agree_surfaced alarm class device at_ situation e :
  agree e -> peopled (db e) -> sit_of e !! alarm = None ->
  (∀ s, situation = Some s -> live_in (db e) s = true) ->
  agree (file_surfaced alarm class device at_ situation e).2
  ∧ peopled (db (file_surfaced alarm class device at_ situation e).2).
Proof.
  intros He Hp Hn Hs. unfold file_surfaced.
  assert (Hgo : ∀ sid e1, agree e1 -> live_in (db e1) sid = true -> sit_of e1 !! alarm = None ->
    (∀ s, live_in (db e1) s = true -> s = sid ∨ ∃ b, (s, b) ∈ situation_alarm (db e1)) ->
    let e2 := set_sit alarm sid (with_db (insert_member sid alarm (db e1)).2 e1) in
    let '(obj, e3) := Situations.alloc e2 in
    let e4 := if tracked e3 sid then e3 else put_list sid [] e3 in
    agree (append_to sid (MkMember obj alarm class device at_) e4)
    ∧ peopled (db (append_to sid (MkMember obj alarm class device at_) e4))).
  { intros sid e1 H1 Hl H1n Hpe. cbn zeta. cbn [Situations.alloc].
    set (m := MkMember _ alarm class device at_). set (d := (insert_member sid alarm (db e1)).2).
    assert (Ht : ∀ h, tracked (MkEngine d (<[alarm := sid]> (sit_of e1)) (members e1) (rejected_proposals e1) h (correlator e1)
      (precedence e1) (upkeep e1) (config_id e1) (decider_ref e1)) sid = true).
    { intros h. apply bool_decide_eq_true. by apply (ag_live e1 H1). }
    cbn. cbn in Ht. rewrite Ht.
    pose proof (agree_join alarm sid m e1 d (upkeep e1) H1 Hl H1n eq_refl eq_refl) as Hj.
    split; [by eapply quiet_agree; [|exact Hj]|]. intros s Hlv. cbn in Hlv |- *.
    destruct (Hpe s Hlv) as [->|[b Hb]]; [exists alarm; set_solver|exists b; apply elem_of_union; by right]. }
  destruct situation as [s|].
  - apply Hgo; [done|by apply Hs|done|]. intros s' Hl. right. by apply Hp.
  - pose proof (agree_create at_ "surface" (config_id e) None e He eq_refl) as Hc.
    destruct (create at_ "surface" (config_id e) None e) as [sid e1]. destruct Hc as (H1 & -> & _ & H4 & _ & H6 & H7 & H8).
    apply Hgo; [done|by apply (ag_live e1 H1)|by rewrite H6|].
    intros s Hl. rewrite H8 in Hl. apply orb_true_iff in Hl as [Hl|Hl%Z.eqb_eq]; [right|by left].
    rewrite H7. by apply Hp.
Qed.

(** ** The reload *)

Lemma reload_rows_maps facts l e0 :
  sit_of e0 = ∅ -> members e0 = ∅ ->
  let e := foldl (reload_row facts) e0 l in
  db e = db e0
  ∧ (∀ s, is_Some (members e !! s) ↔ s ∈ l.*1)
  ∧ (∀ s, bag s e = (filter (λ r, r.1 = s) l).*2)
  ∧ (∀ a s, sit_of e !! a = Some s -> (s, a) ∈ l)
  ∧ (∀ a, a ∈ l.*2 -> is_Some (sit_of e !! a)).
Proof.
  intros Hs0 Hm0. induction l as [|[sid alarm] l IH] using rev_ind; cbn [foldl].
  { cbv zeta. rewrite Hs0. split_and!; [done| | |done|].
    - intros s. rewrite Hm0, lookup_empty. split; [by intros [? ?]|by intros ?%not_elem_of_nil].
    - intros s. apply bag_untracked. by rewrite Hm0.
    - by intros a ?%not_elem_of_nil. }
  rewrite foldl_app. cbn zeta in *. cbn [foldl]. destruct IH as (Hd & Hm & Hb & Hs & Ha).
  set (e1 := foldl (reload_row facts) e0 l) in *.
  set (e2 := reload_row facts e1 (sid, alarm)).
  assert (Heff : db e2 = db e1 ∧ sit_of e2 = <[alarm := sid]> (sit_of e1)
    ∧ (∀ s, is_Some (members e2 !! s) ↔ is_Some (members e1 !! s) ∨ s = sid)
    ∧ ∀ s, bag s e2 = if decide (s = sid) then bag sid e1 ++ [alarm] else bag s e1).
  { unfold e2, reload_row. destruct (facts alarm) as [[class device] first]. cbn [Situations.alloc]. unfold tracked.
    cbn [members]. case_bool_decide as Ht.
    - split_and!; [done|done| |].
      + intros s. cbn. rewrite lookup_alter_is_Some. split; [auto|]. by intros [| ->].
      + intros s. unfold bag, list_of. cbn. destruct Ht as [[h l0] Ht]. case_decide as E.
        * subst s. by rewrite lookup_alter_eq, Ht; cbn; rewrite fmap_app.
        * by rewrite lookup_alter_ne.
    - split_and!; [done|done| |].
      + intros s. cbn. rewrite lookup_alter_is_Some, lookup_insert. case_decide; split; eauto. intros [|]; [done|congruence].
      + intros s. unfold bag, list_of. cbn. case_decide as E.
        * subst s. rewrite lookup_alter_eq, lookup_insert_eq. cbn.
          destruct (members e1 !! sid) eqn:E; [by destruct Ht|done].
        * by rewrite lookup_alter_ne, lookup_insert_ne. }
  destruct Heff as (Ed & Es & Em & Eb). split_and!.
  - by rewrite Ed.
  - intros s. rewrite Em, Hm, fmap_app, elem_of_app. cbn. by rewrite list_elem_of_singleton.
  - intros s. rewrite Eb, filter_app, fmap_app. case_decide as E.
    + subst s. rewrite filter_cons_True by done. by rewrite Hb.
    + rewrite filter_cons_False by (simpl; congruence). by rewrite filter_nil, app_nil_r, Hb.
  - intros a s. rewrite Es, lookup_insert, elem_of_app, list_elem_of_singleton. case_decide as E.
    + intros [= ->]. right. by subst.
    + intros H. left. by apply Hs.
  - intros a. rewrite Es, fmap_app, elem_of_app. change ([(sid, alarm)].*2) with [alarm]. rewrite list_elem_of_singleton. intros [H| ->].
    + rewrite lookup_insert. case_decide; [eauto|]. by apply Ha.
    + rewrite lookup_insert_eq. eauto.
Qed.

Lemma elem_live_rows d s a : (s, a) ∈ live_rows d ↔ live_in d s = true ∧ (s, a) ∈ situation_alarm d.
Proof. unfold live_rows. by rewrite elem_of_sort_by, elem_of_elements, elem_of_filter. Qed.

Lemma live_rows_NoDup d : NoDup (live_rows d).
Proof. unfold live_rows. rewrite (sort_by_perm RootCause.key_leb _). apply NoDup_elements. Qed.

Lemma NoDup_fmap_snd (l : list (Z * Z)) s : NoDup l -> NoDup (filter (λ r, r.1 = s) l).*2.
Proof.
  intros Hn. apply NoDup_fmap_2_strong; [|by apply NoDup_filter].
  intros [a1 b1] [a2 b2] [H1 _]%list_elem_of_filter [H2 _]%list_elem_of_filter H. simpl in *. congruence.
Qed.

(** Whatever the maps had become, the reload builds them again from the tables. *)
Lemma agree_reload facts newest e e' :
  agree e -> peopled (db e) -> agree (reload facts newest (with_db (db e) e')) ∧ db (reload facts newest (with_db (db e) e')) = db e.
Proof.
  intros He Hp. pose proof He as [Af Ak Al An Am Ar]. unfold reload.
  set (e0 := with_maps ∅ ∅ (with_db (db e) e')).
  destruct (reload_rows_maps facts (live_rows (db e)) e0 eq_refl eq_refl) as (Hd & Hm & Hb & Hs & Hs2).
  change (db (with_db (db e) e')) with (db e). set (e1 := foldl _ e0 _) in *. cbv zeta. change (db e0) with (db e) in Hd.
  assert (H1 : agree e1).
  { assert (Hone : ∀ a s s', (s, a) ∈ live_rows (db e) -> (s', a) ∈ live_rows (db e) -> s = s').
    { intros a s s' [L1 R1]%elem_live_rows [L2 R2]%elem_live_rows. apply (agree_disjoint e a); [done|by apply Ar..]. }
    assert (Hbag : ∀ s a, a ∈ bag s e1 ↔ (s, a) ∈ live_rows (db e)).
    { intros s a. rewrite Hb, list_elem_of_fmap. split.
      - intros ([s' a'] & -> & [Hx Hin]%list_elem_of_filter). simpl in *. by subst.
      - intros H. exists (s, a). split; [done|]. by apply list_elem_of_filter. }
    split; rewrite ?Hd.
    - done.
    - done.
    - intros s. rewrite Hm, list_elem_of_fmap. split.
      + by intros ([s' a] & -> & [? _]%elem_live_rows).
      + intros Hl. destruct (Hp s Hl) as [a Ha]. exists (s, a). split; [done|]. by apply elem_live_rows.
    - intros s. rewrite Hb. apply NoDup_fmap_snd, live_rows_NoDup.
    - intros a s. rewrite Hbag. split; [apply Hs|]. intros Hin.
      destruct (Hs2 a) as [s' Hs']; [apply list_elem_of_fmap; by exists (s, a)|]. rewrite Hs'. f_equal.
      apply Hs in Hs'. by eapply Hone.
    - intros s a Hl. rewrite Hbag, elem_live_rows. tauto. }
  split; [|exact Hd]. eapply quiet_agree; [|exact H1]. done.
Qed.

(** ** The statuses there are *)

Definition known (st : string) : Prop := LIVE st = true ∨ st = "resolved".
Definition sane (d : Db) : Prop := ∀ s st, status_of d s = Some st -> known st.

Lemma sane_same d d' : situations d' = situations d -> sane d -> sane d'.
Proof. intros E H s st. unfold status_of. rewrite E. apply H. Qed.

Lemma sane_update sid f d : sane d -> (∀ x, known (status x) -> known (status (f x))) -> sane (update sid f d).
Proof.
  intros H Hf s st. rewrite status_update. case_decide; [|apply H]. destruct (situations d !! s) as [x|] eqn:E; [|done].
  intros [= <-]. apply Hf, (H s). unfold status_of. by rewrite E.
Qed.

Lemma sane_create ts act c dc e : sane (db e) -> LIVE (default "" (edge act None)) = true -> sane (db (create ts act c dc e).2).
Proof.
  intros H Ha s st. unfold status_of. cbn. rewrite lookup_insert. case_decide; [|apply H]. intros [= <-]. by left.
Qed.

Lemma sane_merge dst src ts d : sane d -> sane (merge_situations dst src ts d).
Proof. intros H. unfold merge_situations, touch_situation. apply sane_update; [|done]. apply sane_update; [exact H|by right]. Qed.

Lemma sane_withdraw sid ts d : sane d -> sane (withdraw_proposal sid ts d).
Proof. intros H. apply sane_update; [done|]. intros x Hx. case_bool_decide; [by left|done]. Qed.

Lemma sane_resolve sid res ts d : sane d -> sane (resolve_where sid res ts d).
Proof. intros H. unfold resolve_where. destruct (live_in d sid); [|done]. apply sane_update; [done|]. by right. Qed.

Lemma sane_promoted sid ts act e : sane (db e) -> sane (db (promoted sid ts act e)).
Proof.
  intros H. unfold promoted, promote_situation. case_bool_decide; [|done]. apply sane_update; [done|].
  intros x Hx. case_bool_decide; [by left|done].
Qed.

Lemma db_fold_one sid ts e o : db (fold_one sid ts e o) = merge_situations sid o ts (db e).
Proof.
  unfold fold_one. set (e1 := with_db _ e). set (e2 := with_maps _ (delete o _) e1).
  assert (Hs : sid + 1 ≠ sid) by lia. by destruct (append_all_other sid (list_of o e1) e2 (sid + 1) Hs) as [-> _].
Qed.

Lemma sane_fold sid ts l e : sane (db e) -> sane (db (foldl (fold_one sid ts) e l)).
Proof. revert e. induction l as [|o l IH]; intros e H; [done|]. cbn [foldl]. apply IH. rewrite db_fold_one. by apply sane_merge. Qed.

Lemma db_merged dst src e : db (merged dst src e) = db e.
Proof.
  unfold merged, fold_members. change (db e) with (db (with_maps (sit_of e) (delete src (members e)) e)).
  generalize (list_of src e) as l, (with_maps (sit_of e) (delete src (members e)) e) as e1. intros l.
  induction l as [|m l IH]; intros e1; [done|]. cbn [foldl]. rewrite IH. by destruct (tracked _ _).
Qed.

Lemma sane_assign exp entry outcome e : sane (db e) -> sane (db (assign_situation exp entry outcome e).1.1).
Proof.
  intros H. unfold assign_situation. cbv zeta. set (r := route _ _ _ _).
  assert (H1 : sane (db (situation_for r (Candidates.ts entry) e).2)).
  { assert (∀ c dc, sane (db (create (Candidates.ts entry) (r_act r) c dc e).2)).
    { intros c dc. apply sane_create; [done|]. unfold r_act. by destruct (r_propose r). }
    unfold situation_for. destruct (r_sid r); [by destruct (tracked _ _)|done]. }
  destruct (situation_for r (Candidates.ts entry) e) as [sid e1]. cbn [fst snd] in *.
  set (e2 := match r_propose r with Some t => _ | None => e1 end).
  assert (H2 : sane (db e2)) by (subst e2; destruct (r_propose r); [by apply sane_update|done]).
  set (executed := filter _ (r_merges r)). pose proof (sane_fold sid (Candidates.ts entry) executed e2 H2) as H3.
  set (e3 := foldl _ e2 executed) in *.
  assert (H4 : sane (db (join_member entry sid e3))).
  { unfold join_member. case_bool_decide; [done|]. cbn [insert_member]. by case_bool_decide. }
  set (e4 := join_member entry sid e3) in *. unfold explain_member. cbv zeta.
  match goal with |- context [members ?x !! sid] => set (e5 := x) end.
  assert (H5 : sane (db e5)) by (by apply (sane_update sid (set_updated (Candidates.ts entry)))).
  destruct (default (0, []) (members e5 !! sid)) as [h l]. destruct (earliest sid h l (upkeep e5)) as [sample u].
  destruct (pick_root _ _ _) as [root|]; [|done]. by apply (sane_update sid (with_root root)).
Qed.

Lemma sane_surfaced alarm class device at_ situation e :
  sane (db e) -> sane (db (file_surfaced alarm class device at_ situation e).2).
Proof.
  intros H. unfold file_surfaced.
  assert (H1 : sane (db (match situation with Some s => (s, e) | None => create at_ "surface" (config_id e) None e end).2)).
  { destruct situation; [done|by apply sane_create]. }
  destruct (match situation with Some s => (s, e) | None => create at_ "surface" (config_id e) None e end) as [sid e1].
  cbn [Situations.alloc insert_member]. cbn [fst snd]. by case_match.
Qed.

Lemma sane_split sid departing ts d : sane d -> sane (operator_split sid departing ts d).2.
Proof. intros H s st. unfold status_of. cbn. rewrite lookup_insert. case_decide; [|apply H]. intros [= <-]. by left. Qed.

Lemma live_or_live sid e u : sane (db e) -> live_or sid e = Ok u -> live_in (db e) sid = true.
Proof.
  unfold live_or, live_in. intros Hs H. destruct (status_of (db e) sid) as [st|] eqn:E; [|done].
  apply ensure_Ok_inv in H as [H _]. apply negb_true_iff, String.eqb_neq in H. by destruct (Hs sid st E).
Qed.

(** ** Histories *)

Definition sound (e : Engine) : Prop := agree e ∧ peopled (db e) ∧ sane (db e).

Lemma sound_quiet e e' : quiet_write e e' -> sane (db e') -> sound e -> sound e'.
Proof. intros Hq Hs (H1 & H2 & _). split_and!; [by eapply quiet_agree|by eapply quiet_peopled|done]. Qed.

Lemma sound_promoted sid ts act e : sound e -> sound (promoted sid ts act e).
Proof. intros H. apply (sound_quiet e); [apply quiet_promoted| |done]. apply sane_promoted, H. Qed.

Lemma sound_move moving from to hidden ts e e' : sound e -> move_alarm moving from to hidden ts e = Ok e' -> sound e'.
Proof.
  intros (He & Hp & Hs) H. unfold move_alarm in H. apply ensure_Ok_inv in H as [Hne H].
  apply negb_true_iff, Z.eqb_neq in Hne. apply bind_Ok_inv in H as (u & Hf & H). apply bind_Ok_inv in H as (u' & Ht & H).
  apply (live_or_live _ _ _ Hs) in Hf, Ht. apply ensure_Ok_inv in H as [_ H]. apply ensure_Ok_inv in H as [Hlt H].
  apply Nat.ltb_lt in Hlt. apply fmap_Ok_inv in H as (e1 & H & ->). apply sound_promoted.
  destruct (move_each_ok moving from to e e1 He Hne Hf Ht H) as (H1 & H2 & H3 & H4).
  assert (Hl : ∀ s, live_in (db e1) s = live_in (db e) s) by (intros s; unfold live_in, status_of; by rewrite H2).
  split_and!; [done| |by eapply sane_same]. intros s Hlv. rewrite Hl in Hlv. destruct (decide (s = from)) as [->|Hn].
  - destruct (more_than _ _ Hlt) as (b & Hb & Hnb). exists b. apply H4; [done|]. by apply elem_members_of.
  - destruct (Hp s Hlv) as [b Hb]. exists b. by apply H3.
Qed.

Lemma sound_merged dst src ts e :
  sound e -> dst ≠ src -> live_in (db e) dst = true -> live_in (db e) src = true ->
  sound (merged dst src (with_db (merge_situations dst src ts (db e)) e)).
Proof.
  intros (He & Hp & Hs) Hne Hd Hl. destruct (agree_merge dst src ts e He Hp Hne Hd Hl). split_and!; [done..|].
  rewrite db_merged. by apply sane_merge.
Qed.

Lemma sound_merge dst src ts e e' : sound e -> operator_merge dst src ts e = Ok e' -> sound e'.
Proof.
  intros He H. unfold operator_merge in H. apply ensure_Ok_inv in H as [Hne H].
  apply negb_true_iff, Z.eqb_neq in Hne. apply bind_Ok_inv in H as (u & Hd & H). apply bind_Ok_inv in H as (u' & Hl & H).
  injection H as <-. pose proof He as (_ & _ & Hs). apply (live_or_live _ _ _ Hs) in Hd, Hl.
  by apply sound_promoted, sound_merged.
Qed.

Lemma sound_split sid named hidden ts e r : sound e -> split_situation sid named hidden ts e = Ok r -> sound r.2.
Proof.
  intros (He & Hp & Hs) H. unfold split_situation in H. apply bind_Ok_inv in H as (u & Hl & H).
  apply (live_or_live _ _ _ Hs) in Hl. apply ensure_Ok_inv in H as [Hc H].
  set (departing := filter _ named) in *. apply andb_true_iff in Hc as [Hc Hlt]. apply andb_true_iff in Hc as [_ Hpos].
  apply Nat.ltb_lt in Hlt, Hpos.
  assert (Hsub : ∀ a, a ∈ departing -> (sid, a) ∈ situation_alarm (db e)).
  { intros a [[Ha _] _]%list_elem_of_filter. by apply elem_members_of. }
  pose proof (agree_split sid departing ts e He Hl Hsub) as Hag.
  pose proof (split_rows sid departing ts (db e)) as Hrows. pose proof (live_split sid departing ts (db e)) as Hlive.
  pose proof (sane_split sid departing ts (db e) Hs) as Hsane.
  destruct (operator_split sid departing ts (db e)) as [new d]. injection H as <-. cbn [fst snd] in *.
  destruct Hag as [Hag Hdb]. apply sound_promoted. split_and!; [done|rewrite Hdb|by rewrite Hdb].
  intros s Hlv. rewrite Hlive in Hlv. apply orb_true_iff in Hlv as [Hlv| ->%Z.eqb_eq].
  - destruct (decide (s = sid)) as [->|Hn].
    + destruct (more_than _ _ Hlt) as (b & Hb & Hnb). exists b. apply Hrows; [done|]. left. split; [by apply elem_members_of|]. tauto.
    + destruct (Hp s Hlv) as [b Hb]. exists b. apply Hrows; [done|]. left. tauto.
  - destruct departing as [|b departing]; [simpl in Hpos; lia|]. exists b. apply Hrows; [done|]. right. split; [done|by left].
Qed.

Lemma sound_answer sid accept ts e e' : sound e -> answer_proposal sid accept ts e = Ok e' -> sound e'.
Proof.
  intros He H. unfold answer_proposal in H. destruct (situations (db e) !! sid) as [row|] eqn:Er; [|done].
  destruct (proposed_into row) as [target|]; [|done]. apply ensure_Ok_inv in H as [Hst H].
  apply ensure_Ok_inv in H as [Ht H]. injection H as <-. apply String.eqb_eq in Hst. apply bool_decide_eq_true in Ht.
  assert (Hs : status_of (db e) sid = Some "pending") by (unfold status_of; by rewrite Er, <- Hst).
  destruct accept.
  - apply sound_merged; [done| |unfold live_in; by rewrite Ht|unfold live_in; by rewrite Hs]. intros ->. congruence.
  - apply (sound_quiet e); [apply (quiet_withdraw sid ts e)| |done]. apply sane_withdraw, He.
Qed.

Lemma sound_lapse ts e : sound e -> sound (lapse ts e).
Proof.
  intros H. apply (sound_quiet e); [apply quiet_lapse| |done]. destruct H as (_ & _ & H). unfold lapse. cbn [db with_db].
  set (l := orphan_proposals (db e)). clearbody l. revert H. generalize (db e) as d.
  induction l as [|s l IH]; intros d Hd; [exact Hd|].
  apply IH. by apply sane_withdraw.
Qed.

(** The trained grouping's placement: the alarm's own situation, or the best, and distinct others. *)
Lemma NoDup_ranked scored sit : NoDup (map (fun r => r.1.1) (ranked scored sit)).
Proof.
  unfold ranked. rewrite (sort_by_perm rank_leb _), map_map. apply NoDup_fst_map_to_list.
Qed.

Lemma cluster_keeps_own gr scored sit own : mode gr = MODE_CLUSTER -> keeps_own (place gr scored sit own) own.
Proof.
  intros Hm. unfold place. rewrite Hm. split; cbn [merge join].
  - rewrite (sort_by_perm Z.leb _). destruct own as [o|]; [apply NoDup_filter, NoDup_ranked|].
    destruct (ranked scored sit) as [|best rest] eqn:E; [constructor|].
    destruct (fltb _ _); [|constructor]. rewrite <- E. apply NoDup_filter, NoDup_ranked.
  - by intros o ->.
Qed.

Lemma place_process exp fpow ln d_score d_logit learner new sit_of own teaches c :
  ∃ scored, placement (process exp fpow ln d_score d_logit learner new sit_of own teaches c).1
    = place (grouper c) scored sit_of own.
Proof.
  unfold process. cbv zeta. set (c0 := remove _ _).
  assert (Hg : grouper c0 = grouper c).
  { unfold c0, evict. destruct (evict_old _ _ _ _) as [w ix]. by destruct (evict_excess _ _ _ _) as [[w' ix'] d]. }
  destruct (candidates_of _ _) as [w extra]. destruct (evaluate_all _ _ _ _ _ _ _ _) as [ps s].
  destruct (explain_all _ _ _ _ _ _ _) as [ls s']. exists (map scored_of ps). by rewrite <- Hg.
Qed.

Definition LEARN_CAP : nat := 20.
(** [l[-n:]]. *)
Definition last_n {A} (n : nat) (l : list A) : list A := drop (length l - n) l.

Definition with_precedence (p : Precedence) (e : Engine) : Engine :=
  MkEngine (db e) (sit_of e) (members e) (rejected_proposals e) (heap e) (correlator e) p (upkeep e) (config_id e) (decider_ref e).

Section lived.
Context (exp : float -> float) (fpow : float -> Z -> float) (ln : float -> float)
  (d_score : LinkFeatures -> Answer * float) (d_logit : list float -> Logit * float).

(** What an activation teaches: the affinities of the window's last members, and who led. *)
Definition teach_all (entry : WindowAlarm) (outcome : CorrelationResult) (l : Learner) (p : Precedence) : Learner * Precedence :=
  let recent := last_n LEARN_CAP (considered outcome) in
  let pair_of (w : WindowAlarm) := (Candidates.class_id w, Candidates.device_id w) in
  let l := Learn.observe_activation fpow (pair_of entry) l in
  let l := Learn.observe_pairs fpow (pair_of entry) (map pair_of recent) (storm outcome) l in
  let weight := if storm outcome then Learn.STORM_DAMPING else f_one in
  (l, foldl (fun p c => RootCause.observe (pair_of c) (pair_of entry) weight p) p recent).

(** An activation: scored and placed, taught unless a maintenance window covers it, and executed. *)
Definition activate (entry : WindowAlarm) (teaches : bool) (l : Learner) (e : Engine) : Learner * Engine :=
  let l := if teaches then Learn.advance (Candidates.ts entry) l else l in
  let own := sit_of e !! Candidates.alarm_id entry in
  let '(outcome, c) := process exp fpow ln d_score d_logit l entry (sit_of e) own teaches (correlator e) in
  let '(l, p) := if teaches then teach_all entry outcome l (precedence e) else (l, precedence e) in
  (l, (assign_situation exp entry outcome (with_precedence p (with_correlator c e))).1.1).

(** An engine over an empty database. *)
Definition started (c : Correlator) (p : Precedence) (config : option Z) (dec : option string) : Engine :=
  MkEngine (MkDb ∅ 1 ∅ [] ∅) ∅ ∅ ∅ 0 c p new_upkeep config dec.

(** What may happen to an engine that groups by a trained model ([MODE_CLUSTER]): activations, the
    maintenance pass's closes and hand-backs (of alarms that are in no situation), the operators' gestures,
    and the rollback of a batch that failed half-way. *)
Inductive lived : Engine -> Prop :=
| lived_start c p config dec : lived (started c p config dec)
| lived_activate learner entry teaches e :
    lived e -> mode (grouper (correlator e)) = MODE_CLUSTER -> lived (activate entry teaches learner e).2
| lived_set_scorer s g config dec e :
    lived e -> lived (MkEngine (db e) (sit_of e) (members e) (rejected_proposals e) (heap e)
      (set_scorer s g (correlator e)) (precedence e) (upkeep e) config dec)
| lived_surfaced alarm class device at_ situation e :
    lived e -> sit_of e !! alarm = None -> (∀ s, situation = Some s -> live_in (db e) s = true) ->
    lived (file_surfaced alarm class device at_ situation e).2
| lived_move moving from to hidden ts e e' : lived e -> move_alarm moving from to hidden ts e = Ok e' -> lived e'
| lived_merge dst src ts e e' : lived e -> operator_merge dst src ts e = Ok e' -> lived e'
| lived_split sid named hidden ts e new e' : lived e -> split_situation sid named hidden ts e = Ok (new, e') -> lived e'
| lived_answer sid accept ts e e' : lived e -> answer_proposal sid accept ts e = Ok e' -> lived e'
| lived_promoted sid ts act e : lived e -> lived (promoted sid ts act e)
| lived_lapse ts e : lived e -> lived (lapse ts e)
| lived_resolved sid res ts e : lived e -> lived (resolve_and_forget sid res ts e)
| lived_close sid ts e : lived e -> has_active sid (db e) = false -> lived (close sid ts e)
| lived_cleared alarm e : lived e -> lived (cleared alarm e)
| lived_active alarms e :
    lived e -> lived (with_db (MkDb (situations (db e)) (next_id (db e)) (situation_alarm (db e)) (link_rows (db e)) alarms) e)
| lived_rolled_back facts newest e e' : lived e -> lived (reload facts newest (with_db (db e) e')).

Lemma started_sound c p config dec : sound (started c p config dec).
Proof.
  split_and!; [|by intros s|by intros s st].
  split.
  - by intros s [? ?].
  - by intros s a ?%elem_of_empty.
  - intros s. split; [by intros [? ?]|done].
  - intros s. constructor.
  - intros a s. split; [done|by intros ?%not_elem_of_nil].
  - done.
Qed.

Lemma activate_sound learner entry teaches e :
  sound e -> mode (grouper (correlator e)) = MODE_CLUSTER ->
  sound (activate entry teaches learner e).2
  ∧ is_Some (sit_of (activate entry teaches learner e).2 !! Candidates.alarm_id entry).
Proof.
  intros H Hm. unfold activate. set (l := if teaches then _ else learner). cbv zeta.
  destruct (place_process exp fpow ln d_score d_logit l entry (sit_of e) (sit_of e !! Candidates.alarm_id entry) teaches
    (correlator e)) as [scored Hp].
  destruct (process _ _ _ _ _ _ _ _ _ _ _) as [outcome c]. cbn [fst] in Hp.
  destruct (if teaches then teach_all entry outcome l (precedence e) else (l, precedence e)) as [l1 p]. cbn [snd].
  set (e1 := with_precedence p (with_correlator c e)).
  assert (H1 : sound e1) by (by apply (sound_quiet e); [|apply H|]).
  destruct H1 as (A & P & S). destruct (agree_assign exp entry outcome e1 A P) as (A' & P' & Hin).
  - rewrite Hp. by apply cluster_keeps_own.
  - split; [|done]. split_and!; [done..|by apply sane_assign].
Qed.

Lemma lived_sound e : lived e -> sound e.
Proof.
  induction 1 as [c p config dec|learner entry teaches e _ IH Hm|s g config dec e _ IH|alarm class device at_ situation e _ IH Hn Hs
    |moving from to hidden ts e e' _ IH H|dst src ts e e' _ IH H|sid named hidden ts e new e' _ IH H|sid accept ts e e' _ IH H
    |sid ts act e _ IH|ts e _ IH|sid res ts e _ IH|sid ts e _ IH Ha|alarm e _ IH|alarms e _ IH|facts newest e e' _ IH].
  - apply started_sound.
  - by apply activate_sound.
  - by apply (sound_quiet e); [|apply IH|].
  - destruct IH as (A & P & S). destruct (agree_surfaced alarm class device at_ situation e A P Hn Hs).
    split_and!; [done..|by apply sane_surfaced].
  - by eapply sound_move.
  - by eapply sound_merge.
  - exact (sound_split _ _ _ _ _ _ IH H).
  - by eapply sound_answer.
  - by apply sound_promoted.
  - by apply sound_lapse.
  - destruct IH as (A & P & S). destruct (agree_resolve sid res ts e A P). split_and!; [done..|].
    unfold resolve_and_forget, resolve_situation. destruct (live_in (db e) sid); [|done]. by apply sane_resolve.
  - destruct IH as (A & P & S). destruct (agree_close sid ts e A P Ha). split_and!; [done..|].
    unfold close, close_situation. case_match; [done|]. by apply sane_resolve.
  - by apply (sound_quiet e); [|apply IH|].
  - by apply (sound_quiet e); [|apply IH|].
  - destruct IH as (A & P & S). destruct (agree_reload facts newest e e' A P) as [H1 H2]. split_and!; [done|by rewrite H2..].
Qed.

(** C29: In every history of an engine that groups by a trained model, the maps in memory say what the tables
    say: it tracks exactly the live situations, lists each one's members once and exactly as its rows do,
    points every alarm at the situation that lists it; no alarm is in two live situations, and none is
    without members. The histories ([lived]) are those in which every activation is placed in
    [MODE_CLUSTER], every alarm a maintenance window hands back is in no situation then and goes to a new
    or a live one, and the idle closing takes situations without an active alarm; the gestures, the
    autonomy's promotions and closings, the lapses, the scorer's changes and the rollbacks are
    unrestricted. Outside them the agreement is lost: Examples
    [a_handed_back_alarm_is_in_two_situations] and [an_alarm_that_comes_back_may_be_in_two_situations]. *)
Theorem the_maps_mirror_the_tables e :
  lived e ->
  (∀ s, tracked e s = true ↔ live_in (db e) s = true)
  ∧ (∀ s, live_in (db e) s = true -> NoDup (bag s e) ∧ list_to_set (bag s e) = members_of s (db e))
  ∧ (∀ a s, sit_of e !! a = Some s ↔ live_in (db e) s = true ∧ (s, a) ∈ situation_alarm (db e))
  ∧ (∀ a s s', live_in (db e) s = true -> live_in (db e) s' = true ->
       (s, a) ∈ situation_alarm (db e) -> (s', a) ∈ situation_alarm (db e) -> s = s')
  ∧ (∀ s, live_in (db e) s = true -> ∃ a, (s, a) ∈ situation_alarm (db e)).
Proof.
  intros (A & P & _)%lived_sound. pose proof A as [_ _ Al An Am Ar]. split_and!; [| | | |exact P].
  - intros s. unfold tracked. rewrite bool_decide_eq_true. apply Al.
  - intros s Hl. split; [apply An|]. apply set_eq. intros a. rewrite elem_of_list_to_set, elem_members_of. symmetry. by apply Ar.
  - intros a s. rewrite Am. split.
    + intros Ha. assert (Hl : live_in (db e) s = true).
      { apply Al. destruct (members e !! s) eqn:E; [eauto|]. rewrite bag_untracked in Ha by done. by apply not_elem_of_nil in Ha. }
      split; [done|]. by apply Ar.
    + intros [Hl Ha]. by apply Ar.
  - intros a s s' L L' R R'. by eapply agree_disjoint; [exact A|apply Ar..].
Qed.
End lived.

(** *** A concrete history *)

Definition or_else {E A} (r : res E A) (a : A) : A := match r with Ok x => x | Err _ => a end.
Lemma or_else_Ok {E A} (r : res E A) a : (if r then true else false) = true -> r = Ok (or_else r a).
Proof. by destruct r. Qed.

Definition demo_start : Engine := started c_zero new_precedence None None.
Definition demo_files : Engine :=
  (file_surfaced 4 0 0 (f_of_Z 40) None (file_surfaced 3 0 0 (f_of_Z 30) (Some 1) (file_surfaced 2 0 0 (f_of_Z 20) (Some 1)
    (file_surfaced 1 0 0 (f_of_Z 10) None demo_start).2).2).2).2.
Definition demo_split : Z * Engine := or_else (split_situation 1 [3] ∅ (f_of_Z 50) demo_files) (0, demo_files).
Definition demo_moved : Engine := or_else (move_alarm [2] 1 2 ∅ (f_of_Z 60) demo_split.2) demo_files.
Definition demo_merged : Engine := or_else (operator_merge 1 3 (f_of_Z 70) demo_moved) demo_files.
Definition demo_trained : Engine :=
  MkEngine (db demo_merged) (sit_of demo_merged) (members demo_merged) (rejected_proposals demo_merged) (heap demo_merged)
    (set_scorer (new_safe false f_zero) (Some default_params) (correlator demo_merged)) (precedence demo_merged)
    (upkeep demo_merged) None None.
Definition demo_activate (a : WindowAlarm) (e : Engine) : Engine := (activate flat no_pow no_ln formula no_logit a true Learn.new_learner e).2.
Definition demo_engine : Engine := demo_activate (alarm_at 6 8 1 90) (demo_activate (alarm_at 5 7 1 80) demo_trained).
Abbreviation demo_histories := (lived flat no_pow no_ln formula no_logit).

Lemma demo_lived : demo_histories demo_engine.
Proof.
  assert (H1 : demo_histories demo_files).
  { unfold demo_files. apply lived_surfaced; [|by vm_compute|done].
    apply lived_surfaced; [|by vm_compute|intros s [= <-]; by vm_compute].
    apply lived_surfaced; [|by vm_compute|intros s [= <-]; by vm_compute].
    apply lived_surfaced; [|by vm_compute|done]. apply lived_start. }
  assert (H2 : demo_histories demo_split.2).
  { apply (lived_split _ _ _ _ _ 1 [3] ∅ (f_of_Z 50) demo_files demo_split.1); [done|].
    rewrite <- (surjective_pairing demo_split). apply or_else_Ok. by vm_compute. }
  assert (H3 : demo_histories demo_moved).
  { apply (lived_move _ _ _ _ _ [2] 1 2 ∅ (f_of_Z 60) demo_split.2); [done|]. apply or_else_Ok. by vm_compute. }
  assert (H4 : demo_histories demo_merged).
  { apply (lived_merge _ _ _ _ _ 1 3 (f_of_Z 70) demo_moved); [done|]. apply or_else_Ok. by vm_compute. }
  apply lived_activate; [|by vm_compute]. apply lived_activate; [|by vm_compute]. by apply lived_set_scorer.
Qed.

(** Four alarms of a maintenance window, a split, a move and a merge, then two activations. *)
Lemma the_maps_mirror_the_tables_witness :
  demo_histories demo_engine
  ∧ (elements (dom (members demo_engine)), bag 1 demo_engine, bag 2 demo_engine, bag 4 demo_engine, sit_of demo_engine !! 6)
    = ([4; 2; 1], [1; 3], [4; 2], [5; 6], Some 4)
  ∧ ∀ s, tracked demo_engine s = true ↔ live_in (db demo_engine) s = true.
Proof.
  split; [exact demo_lived|]. split; [vm_compute; reflexivity|].
  destruct (the_maps_mirror_the_tables flat no_pow no_ln formula no_logit demo_engine demo_lived) as [H _]. exact H.
Defined.

(** ** Where the agreement is lost

    A maintenance window that hands back an alarm which is still a member of a live situation makes it
    a member of two. *)
Example a_handed_back_alarm_is_in_two_situations :
  let e := (file_surfaced 1 7 1 (f_of_Z 50) None confirmed).2 in
  (bag 1 e, bag 2 e, live_in (db e) 1, live_in (db e) 2, sit_of e !! 1) = ([1], [1], true, true, Some 2).
Proof. vm_compute. reflexivity. Qed.

(** Under the formula the lowest linked situation is joined. An alarm that comes back while its own is a
    proposal, which the rule does not fold, joins the other and stays a member of its own. *)
Definition came_back : Engine :=
  let e := (file_surfaced 1 7 1 (f_of_Z 10) None demo_start).2 in
  let e := (file_surfaced 3 7 2 (f_of_Z 15) None e).2 in
  let e := promoted 2 (f_of_Z 20) "feedback" e in
  let placed := MkResult [] [] false [] (Place (Some 2) [] [(2, f_of_Z 2, 1)]) 0 in
  (assign_situation flat (alarm_at 2 8 1 30) placed e).1.1.
Example an_alarm_that_comes_back_may_be_in_two_situations :
  let scored := [Grouping.MkScored 1 (f_of_Z 1) true] in
  let p := components scored (sit_of came_back) (sit_of came_back !! 2) in
  let e := (assign_situation flat (alarm_at 2 8 1 40) (MkResult [] [] false [] p 0) came_back).1.1 in
  (status_of (db came_back) 3, join p, merge p, bag 1 e, bag 3 e, live_in (db e) 3)
  = (Some "pending", Some 1, [3], [1; 2], [2], true).
Proof. vm_compute. reflexivity. Qed.
