(* ===== verification/Alarms.v ===== *)
(** * Alarms ([store/alarms.py], [store/devices.py], [store/entities.py], [engine/operate/flap.py])

    The names the store gives ids to, the alarm table with its dedup key, and the flap detector.
    The [last_seen] of a name is cosmetic and left out; instants are finite. *)
From S2P Require Import Prelude PyLib Floats Oids.

(** ** Names and their ids *)

(** An insert-or-get keyed by the name. *)
Record Ids := MkIds { ids : gmap string Z; next : Z }.
Definition intern (name : string) (t : Ids) : Z * Ids :=
  match ids t !! name with
  | Some i => (i, t)
  | None => (next t, MkIds (<[name := next t]> (ids t)) (next t + 1))
  end.

(** [entity]: level 0 has one row per element, the others a row per element, parent and key; the cache
    in memory is keyed without the parent. *)
Record Entities := MkEntities {
  level0 : gmap Z Z; deeper : gmap (Z * Z * string) Z; entity_cache : gmap (Z * string) Z; next_entity : Z }.
Definition new_entities : Entities := MkEntities ∅ ∅ ∅ 1.

Definition entity_level0 (ne : Z) (t : Entities) : Z * Entities :=
  match level0 t !! ne with
  | Some i => (i, t)
  | None => (next_entity t, MkEntities (<[ne := next_entity t]> (level0 t)) (deeper t) (entity_cache t) (next_entity t + 1))
  end.

Definition get_or_create_entity (ne parent : Z) (key : string) (t : Entities) : Z * Entities :=
  match entity_cache t !! (ne, key) with
  | Some i => (i, t)
  | None =>
      let '(i, t) := match deeper t !! (ne, parent, key) with
                     | Some i => (i, t)
                     | None => (next_entity t, MkEntities (level0 t) (<[(ne, parent, key) := next_entity t]> (deeper t))
                                  (entity_cache t) (next_entity t + 1))
                     end in
      (i, MkEntities (level0 t) (deeper t) (<[(ne, key) := i]> (entity_cache t)) (next_entity t))
  end.

Definition entity_keys_for_ne (ne : Z) (t : Entities) : gset string :=
  set_map snd (filter (fun k => k.1.1 = ne) (dom (deeper t))).

(** ** Events *)

Record TrapEvent := MkTrap {
  device : string; trap_oid : string; instance : string; t_ts : float; varbinds : list (string * string); community_tag : string }.
Abbreviation Fingerprint := (string * string * string)%type.

(** ** The alarm table *)

Abbreviation AlarmKey := (Z * Z * string)%type.

Record AlarmRow := MkAlarmRow {
  al_id : Z; al_entity : option Z; al_active : bool; al_flapping : bool; al_count : Z; al_first_seen : float; al_last_seen : float;
  al_cleared_at : option float; al_varbinds : list (string * string); al_community : option string;
  al_severity : option string; al_severity_rank : option Z; al_severity_source : option string }.

(** The dedup key is unique. *)
Record AlarmTable := MkAlarms { alarms : gmap AlarmKey AlarmRow; next_alarm : Z }.
Definition new_alarms : AlarmTable := MkAlarms ∅ 1.

Definition COALESCE {A} (a b : option A) : option A := match a with Some _ => a | None => b end.

Record IngestResult := MkIngested {
  i_alarm : Z; i_device : Z; i_class : Z; i_activated : bool; i_count : Z; i_entity : Z; previous_seen : option float }.

Definition raise_again (e : TrapEvent) (p : Placed) (a : AlarmRow) : AlarmRow :=
  MkAlarmRow (al_id a) (al_entity a) true (al_flapping a) (al_count a + 1) (al_first_seen a) (t_ts e) None (varbinds e)
    (al_community a) (COALESCE (value p) (al_severity a)) (COALESCE (rank p) (al_severity_rank a))
    (match value p with None => al_severity_source a | Some _ => source p end).

Definition first_raise (e : TrapEvent) (p : Placed) (entity id : Z) : AlarmRow :=
  MkAlarmRow id (Some entity) true false 1 (t_ts e) (t_ts e) None (varbinds e)
    (if String.eqb (community_tag e) "" then None else Some (community_tag e)) (value p) (rank p) (source p).

(** [ne] and [class] are the ids of the event's names, [entity] and [inst] what the engine resolved. *)
Definition ingest (ne class entity : Z) (inst : string) (e : TrapEvent) (p : Placed) (t : AlarmTable)
  : IngestResult * AlarmTable :=
  let key := (ne, class, inst) in
  match alarms t !! key with
  | None =>
      let id := next_alarm t in
      (MkIngested id ne class true 1 entity None, MkAlarms (<[key := first_raise e p entity id]> (alarms t)) (id + 1))
  | Some a =>
      (MkIngested (al_id a) ne class (negb (al_active a)) (al_count a + 1) (default entity (al_entity a)) (Some (al_last_seen a)),
       MkAlarms (<[key := raise_again e p a]> (alarms t)) (next_alarm t))
  end.

Definition cleared_row (ts : float) (a : AlarmRow) : AlarmRow :=
  MkAlarmRow (al_id a) (al_entity a) false (al_flapping a) (al_count a) (al_first_seen a) ts (Some ts) (al_varbinds a)
    (al_community a) (al_severity a) (al_severity_rank a) (al_severity_source a).

Definition clear_alarm (ne class : Z) (inst : string) (ts : float) (t : AlarmTable) : option Z * AlarmTable :=
  match alarms t !! (ne, class, inst) with
  | Some a => if al_active a then (Some (al_id a), MkAlarms (<[(ne, class, inst) := cleared_row ts a]> (alarms t)) (next_alarm t))
              else (None, t)
  | None => (None, t)
  end.

Definition with_flapping (b : bool) (a : AlarmRow) : AlarmRow :=
  MkAlarmRow (al_id a) (al_entity a) (al_active a) b (al_count a) (al_first_seen a) (al_last_seen a) (al_cleared_at a)
    (al_varbinds a) (al_community a) (al_severity a) (al_severity_rank a) (al_severity_source a).
Definition set_flapping (id : Z) (b : bool) (t : AlarmTable) : AlarmTable :=
  MkAlarms ((fun a => if al_id a =? id then with_flapping b a else a) <$> alarms t) (next_alarm t).

Definition active_ids (t : AlarmTable) : gset Z :=
  list_to_set (omap (fun e => if al_active e.2 then Some (al_id e.2) else None) (map_to_list (alarms t))).

(** ** Flapping *)

(** A finite float is an integer multiple of 2^-1074. *)
Definition fixed (x : float) : Z :=
  match x with
  | S754_finite s m e => (if s then Z.neg m else Z.pos m) * 2 ^ (e + 1074)
  | _ => 0
  end.
Definition sum_fixed (l : list float) : Z := foldr (fun x n => fixed x + n) 0 l.

(** [statistics.fmean]: [fsum] rounds the exact sum once. *)
Definition fsum (l : list float) : float := binary_normalize 53 1024 (sum_fixed l) (- 1074) false.
Definition fmean (l : list float) : float := fdiv (fsum l) (f_of_Z (Z.of_nat (length l))).

(** [statistics._float_sqrt_of_frac]: the square root of [n / m], rounded once. *)
Definition bit_length (n : Z) : Z := if n =? 0 then 0 else Z.log2 (Z.abs n) + 1.
Definition isqrt_of_frac_rto (n m : Z) : Z :=
  let a := Z.sqrt (n / m) in Z.lor a (if a * a * m =? n then 0 else 1).
Definition float_sqrt_of_frac (n m : Z) : float :=
  let q := (bit_length n - bit_length m - 109) / 2 in
  if 0 <=? q then binary_normalize 53 1024 (Z.shiftl (isqrt_of_frac_rto n (Z.shiftl m (2 * q))) q) 0 false
  else binary_normalize 53 1024 (isqrt_of_frac_rto (Z.shiftl n (- 2 * q)) m) q false.

(** [statistics.pstdev]: the exact variance as a fraction in lowest terms. *)
Definition pstdev (l : list float) : float :=
  let n := Z.of_nat (length l) in
  let s := sum_fixed l in
  let sq := foldr (fun x t => fixed x * fixed x + t) 0 l in
  let num := n * sq - s * s in
  let den := n * n * 2 ^ 2148 in
  let g := Z.gcd num den in
  float_sqrt_of_frac (num / g) (den / g).

Record FlapDetector := MkFlap {
  min_raises : nat; max_mean_interval : float; max_cv : float; reset_gap : float; history : gmap Fingerprint (list float) }.
Definition new_flap : FlapDetector := MkFlap 6 (f_of_Z 900) (f_lit 1 2) (f_of_Z 3600) ∅.
Definition MAXLEN : nat := 8.

(** A deque of [MAXLEN]. *)
Definition push (x : float) (l : list float) : list float := let l := l ++ [x] in drop (length l - MAXLEN) l.

Definition raises_after (f : FlapDetector) (fp : Fingerprint) (ts : float) : list float :=
  let raises := default [] (history f !! fp) in
  let silent := match List.last raises f_zero with
                | l => match raises with [] => false | _ => fltb (reset_gap f) (fsub ts l) end
                end in
  push ts (if silent then [] else raises).

Definition intervals_of (raises : list float) : list float := map (fun p => fsub p.2 p.1) (zip raises (tail raises)).

Definition is_regular (f : FlapDetector) (raises : list float) : bool :=
  if Nat.ltb (length raises) (min_raises f) then false
  else
    let mean := fmean (intervals_of raises) in
    if fleb mean (f_lit 1 100) then false
    else fleb mean (max_mean_interval f) && fleb (fdiv (pstdev (intervals_of raises)) mean) (max_cv f).

Definition flap_observe (fp : Fingerprint) (ts : float) (f : FlapDetector) : bool * FlapDetector :=
  let raises := raises_after f fp ts in
  (is_regular f raises, MkFlap (min_raises f) (max_mean_interval f) (max_cv f) (reset_gap f) (<[fp := raises]> (history f))).

Definition recent (fp : Fingerprint) (ts : float) (f : FlapDetector) : Z :=
  match history f !! fp with
  | None => 0
  | Some raises => Z.of_nat (length (List.filter (fun t => fleb (fsub ts t) (f_of_Z 3600)) raises))
  end.
