(* ===== verification/Pipeline.v ===== *)
(** * One trap, from its names to its situation ([engine/operate/engine.py] [_process],
    [engine/operate/occurrence.py])

    A [Node] is the engine with what the ingest path reads and writes around it. A trap either fails, and
    its batch is rolled back, or gives the next node. The profiler, the monitor, the dataset capture
    and the shadow scorers only observe a trap and are left out. *)
From S2P Require Import Prelude PyLib Floats Oids Alternation Windows Ledger Grouping Episodes Learn Scoring Candidates PairFeatures Correlator RootCause Situations SituationLaws Membership Mirror Alarms.

Record Naming := MkNaming {
  elements : Ids; classes : Ids; entities : Entities; ne_keys : gmap Z (gset string); cap_hit : gset Z }.
Record Knowledge := MkKnowledge {
  affinities : Learner; pairs : ClearPairLearner; states : StateClearLearner; seeded : gset string }.
(** The element's learned severity field and its chain of discriminators, coarsest first. *)
Record Config := MkConfig { ne_severity : gmap Z string; ne_discriminator : gmap Z (list string); rearm_s : float }.

Record Node := MkNode {
  engine : Engine; naming : Naming; knowledge : Knowledge; table : AlarmTable; flap : FlapDetector; flapping : gset Fingerprint;
  windows : WindowIndex; ledger : StateLedger; config : Config; processed : Z }.

Definition with_engine (e : Engine) (n : Node) : Node :=
  MkNode e (naming n) (knowledge n) (table n) (flap n) (flapping n) (windows n) (ledger n) (config n) (processed n).
Definition with_naming (x : Naming) (n : Node) : Node :=
  MkNode (engine n) x (knowledge n) (table n) (flap n) (flapping n) (windows n) (ledger n) (config n) (processed n).
Definition with_knowledge (k : Knowledge) (n : Node) : Node :=
  MkNode (engine n) (naming n) k (table n) (flap n) (flapping n) (windows n) (ledger n) (config n) (processed n).
Definition with_ledger (l : StateLedger) (n : Node) : Node :=
  MkNode (engine n) (naming n) (knowledge n) (table n) (flap n) (flapping n) (windows n) l (config n) (processed n).
Definition with_flap (f : FlapDetector) (s : gset Fingerprint) (n : Node) : Node :=
  MkNode (engine n) (naming n) (knowledge n) (table n) f s (windows n) (ledger n) (config n) (processed n).
Definition count_one (n : Node) : Node :=
  MkNode (engine n) (naming n) (knowledge n) (table n) (flap n) (flapping n) (windows n) (ledger n) (config n) (processed n + 1).

(** The engine's view of the database shows which alarms are active. *)
Definition show_active (t : AlarmTable) (e : Engine) : Engine :=
  with_db (MkDb (situations (db e)) (next_id (db e)) (situation_alarm (db e)) (link_rows (db e)) (active_ids t)) e.
Definition with_table (t : AlarmTable) (n : Node) : Node :=
  MkNode (show_active t (engine n)) (naming n) (knowledge n) t (flap n) (flapping n) (windows n) (ledger n) (config n) (processed n).

Definition class_id_of (oid : string) (x : Naming) : Z * Naming :=
  let '(i, t) := intern oid (classes x) in (i, MkNaming (elements x) t (entities x) (ne_keys x) (cap_hit x)).
Definition ne_id_of (ip : string) (x : Naming) : Z * Naming :=
  let '(i, t) := intern ip (elements x) in (i, MkNaming t (classes x) (entities x) (ne_keys x) (cap_hit x)).

(** ** The entity a trap names ([_resolve_entity]) *)

Definition MAX_INSTANCE_CHARS : nat := 120.
Definition MAX_ENTITIES_PER_NE : Z := 10000.

Record Walk := MkWalk { w_keys : gset string; w_entities : Entities; w_parent : Z; w_entity : option Z; w_instance : string; w_capped : bool }.

Fixpoint walk_chain (ne : Z) (varbinds : list (string * string)) (chain : list string) (w : Walk) : Walk :=
  match chain with
  | [] => w
  | oid :: chain =>
      match snd <$> List.find (fun vb => String.eqb vb.1 oid) varbinds with
      | None => w
      | Some v =>
          let v := PyLib.clip MAX_INSTANCE_CHARS v in
          if negb (bool_decide (v ∈ w_keys w)) && (MAX_ENTITIES_PER_NE <=? Z.of_nat (size (w_keys w)))
          then MkWalk (w_keys w) (w_entities w) (w_parent w) (w_entity w) (w_instance w) true
          else
            let '(i, t) := get_or_create_entity ne (w_parent w) v (w_entities w) in
            walk_chain ne varbinds chain (MkWalk ({[v]} ∪ w_keys w) t i (Some i) v (w_capped w))
      end
  end.

Definition resolve_entity (c : Config) (ne : Z) (e : TrapEvent) (x : Naming) : option Z * string * Naming :=
  match default [] (ne_discriminator c !! ne) with
  | [] => (None, instance e, x)
  | chain =>
      let keys := default (entity_keys_for_ne ne (entities x)) (ne_keys x !! ne) in
      let '(parent, t) := entity_level0 ne (entities x) in
      let w := walk_chain ne (varbinds e) chain (MkWalk keys t parent None (instance e) false) in
      (w_entity w, w_instance w,
       MkNaming (elements x) (classes x) (w_entities w) (<[ne := w_keys w]> (ne_keys x))
         (if w_capped w then {[ne]} ∪ cap_hit x else cap_hit x))
  end.

(** ** Known raise/clear pairs ([_seed_clear_pair]); the bundled pack's are arguments *)

Section pipeline.
Context (clear_pairs fault_pairs : list (string * string)).

Definition seed_clear_pair (oid : string) (class : Z) (x : Naming) (k : Knowledge) : Naming * Knowledge :=
  if bool_decide (oid ∈ seeded k) then (x, k)
  else
    let '(x, p) := match clear_of clear_pairs oid with
                   | Some c => let '(i, x) := class_id_of c x in (x, register class i (pairs k))
                   | None => (x, pairs k)
                   end in
    let '(x, p) := match fault_of fault_pairs oid with
                   | Some r => let '(i, x) := class_id_of r x in (x, register i class p)
                   | None => (x, p)
                   end in
    (x, MkKnowledge (affinities k) p (states k) ({[oid]} ∪ seeded k)).

(** ** Clears *)

Definition forget_candidate (a : option Z) (n : Node) : Node :=
  match a with Some a => with_engine (cleared a (engine n)) n | None => n end.

Definition handle_clear (ne raise_class clear_class : Z) (inst : string) (ts : float) (n : Node) : Node :=
  let '(a, t) := clear_alarm ne raise_class inst ts (table n) in
  let '(stale, t) := clear_alarm ne clear_class inst ts t in
  forget_candidate stale (forget_candidate a (with_table t n)).

Definition handle_state_clear (ne class : Z) (inst : string) (ts : float) (n : Node) : Node :=
  let '(a, t) := clear_alarm ne class inst ts (table n) in forget_candidate a (with_table t n).

(** ** A repeat that is a new occurrence ([occurrence.rearm]) *)

Definition sole_active_member (sid alarm : Z) (d : Db) : bool :=
  bool_decide (members_of sid d ∩ active d ⊆ {[alarm]}) && bool_decide ((sid, alarm) ∈ situation_alarm d).

Definition rearm (r : IngestResult) (fp : Fingerprint) (ts : float) (n : Node) : bool * Node :=
  let e := engine n in
  if bool_decide (fp ∈ flapping n) then (false, n)
  else match sit_of e !! i_alarm r with
  | None => (true, with_engine (cleared (i_alarm r) e) n)
  | Some sid =>
      match previous_seen r with
      | None => (false, n)
      | Some previous =>
          if fleb (rearm_s (config n)) f_zero || fleb (fsub ts previous) (rearm_s (config n)) then (false, n)
          else if negb (sole_active_member sid (i_alarm r) (db e)) then (false, n)
          else
            let '(was, d) := resolve_situation sid "idle" ts (db e) in
            if was then (true, with_engine (cleared (i_alarm r) (forget_situation sid (with_db d e))) n)
            else (false, n)
      end
  end.

Definition is_flapping (fp : Fingerprint) (ts : float) (alarm : Z) (n : Node) : bool * Node :=
  let '(b, f) := flap_observe fp ts (flap n) in
  let n := with_flap f (flapping n) n in
  if Bool.eqb b (bool_decide (fp ∈ flapping n)) then (b, n)
  else (b, with_flap f (if b then {[fp]} ∪ flapping n else flapping n ∖ {[fp]})
             (with_table (Alarms.set_flapping alarm b (table n)) n)).

(** ** The trap *)

Context (exp : float -> float) (fpow : float -> Z -> float) (ln : float -> float)
  (d_score : LinkFeatures -> Answer * float) (d_logit : list float -> Logit * float).

(** What is scored is computed once per activation. *)
Definition entry_of_trap (e : TrapEvent) (r : IngestResult) (p : Placed) (inst : string) (f : FlapDetector) : option WindowAlarm :=
  refs ← PairFeatures.references (map snd (varbinds e)) (device e);
  Some (window_alarm (i_alarm r) (i_class r) (i_device r) (t_ts e) (i_entity r) (PairFeatures.oid_root (trap_oid e))
    (PyLib.split "." (trap_oid e)) (default (- 1) (rank p)) (recent (device e, trap_oid e, inst) (t_ts e) f) (device e) refs).

Definition activation (e : TrapEvent) (r : IngestResult) (p : Placed) (inst : string) (teaches : bool) (n : Node) : option Node :=
  entry ← entry_of_trap e r p inst (flap n);
  let '(l, g) := activate exp fpow ln d_score d_logit entry teaches (affinities (knowledge n)) (engine n) in
  Some (with_knowledge (MkKnowledge l (pairs (knowledge n)) (states (knowledge n)) (seeded (knowledge n))) (with_engine g n)).

(** A trap that raises: deduplicated, and correlated when it is an activation that does not flap. *)
Definition handle_raise (ne class : Z) (entity : option Z) (inst : string) (p : Placed) (e : TrapEvent) (teaches : bool) (n : Node)
  : option Node :=
  let fp := (device e, trap_oid e, inst) in
  let '(entity, x) := match entity with
                      | Some i => (i, naming n)
                      | None => let '(i, t) := entity_level0 ne (entities (naming n)) in
                                (i, MkNaming (elements (naming n)) (classes (naming n)) t (ne_keys (naming n)) (cap_hit (naming n)))
                      end in
  let n := with_naming x n in
  let '(r, t) := ingest ne class entity inst e p (table n) in
  let n := with_table t n in
  let '(again, n) := if i_activated r then (true, n) else rearm r fp (t_ts e) n in
  if negb again then Some n
  else
    let '(flaps, n) := is_flapping fp (t_ts e) (i_alarm r) n in
    if flaps then Some n else activation e r p inst teaches n.

Definition learn_clears (ne class : Z) (inst : string) (e : TrapEvent) (n : Node) : Node :=
  if Z.of_nat (size (index (correlator (engine n)))) <? Learn.STORM_ALARMS then
    let k := knowledge n in
    with_knowledge (MkKnowledge (affinities k) (Alternation.observe ne (instance e) class (pairs k))
      (observe_state ne inst class (varbinds e) (states k)) (seeded k)) n
  else n.

(** What a trap means once no window suppresses it. *)
Definition handle_trap (ne class : Z) (entity : option Z) (inst : string) (p : Placed) (e : TrapEvent) (teaches : bool) (n : Node)
  : option Node :=
  let n := count_one (if teaches then learn_clears ne class inst e n else n) in
  match clear_to_raise (pairs (knowledge n)) !! class with
  | Some raise_class => Some (handle_clear ne raise_class class inst (t_ts e) n)
  | None =>
      if is_clear (states (knowledge n)) class (varbinds e) || clears p then Some (handle_state_clear ne class inst (t_ts e) n)
      else handle_raise ne class entity inst p e teaches n
  end.

(** The names, the severity and the pairs, before the windows are asked. *)
Definition identify (e : TrapEvent) (n : Node) : Z * Z * option Z * string * Placed * Node :=
  let '(class, x) := class_id_of (trap_oid e) (naming n) in
  let '(ne, x) := ne_id_of (device e) x in
  let '(entity, inst, x) := resolve_entity (config n) ne e x in
  let p := Oids.place (varbinds e) (ne_severity (config n) !! ne) in
  let '(x, k) := seed_clear_pair (trap_oid e) class x (knowledge n) in
  (ne, class, entity, inst, p, with_knowledge k (with_naming x n)).

Definition process_trap (e : TrapEvent) (n : Node) : option Node :=
  let '(ne, class, entity, inst, p, n) := identify e n in
  let d := decide_trap (windows n) ne (t_ts e) (trap_oid e) (map fst (varbinds e)) (rank p) in
  if suppressed d then
    Some (with_ledger (observe_suppressed d ne ne class inst (t_ts e) (varbinds e) (pairs (knowledge n)) (states (knowledge n))
      (windows n) (ledger n)) n)
  else handle_trap ne class entity inst p e (negb (under_window d)) n.
End pipeline.
