(* ===== verification/PipelineLaws.v ===== *)
(** * What every trap keeps

    The alarm table's identities, what an activation leaves alone, and the end of a trap: in a live
    situation, known to flap, or suppressed. *)
From S2P Require Import Prelude PyLib Floats Oids Alternation Windows Ledger Grouping Episodes Learn Scoring Candidates PairFeatures Correlator RootCause Situations SituationLaws Membership Mirror Alarms Pipeline.

(** ** The alarm table *)

(** Ids are below the next and name one row. *)
Record table_ok (t : AlarmTable) : Prop := {
  tk_fresh k a : alarms t !! k = Some a -> al_id a < next_alarm t;
  tk_one k k' a a' : alarms t !! k = Some a -> alarms t !! k' = Some a' -> al_id a = al_id a' -> k = k' }.

Lemma elem_active_ids i t : i ∈ active_ids t ↔ ∃ k a, alarms t !! k = Some a ∧ al_active a = true ∧ al_id a = i.
Proof.
  unfold active_ids. rewrite elem_of_list_to_set, list_elem_of_omap. split.
  - intros ([k a] & Hin%elem_of_map_to_list & H). exists k, a. cbn in H. destruct (al_active a); [|done]. by injection H.
  - intros (k & a & Hk & Ha & <-). exists (k, a). split; [by apply elem_of_map_to_list|]. cbn. by rewrite Ha.
Qed.

Lemma table_update k a a' t :
  table_ok t -> alarms t !! k = Some a -> al_id a' = al_id a -> table_ok (MkAlarms (<[k := a']> (alarms t)) (next_alarm t)).
Proof.
  intros [Hf Ho] Hk E. split; cbn.
  - intros j b [[<- <-]|[_ Hb]]%lookup_insert_Some; [rewrite E; by eapply Hf|by eapply Hf].
  - intros j j' b b' [[<- <-]|[Hj Hb]]%lookup_insert_Some [[<- <-]|[Hj' Hb']]%lookup_insert_Some Eb; [done| | |by eapply Ho].
    + rewrite E in Eb. by eapply Ho.
    + rewrite E in Eb. by eapply Ho.
Qed.

Lemma ingest_ok ne class entity inst e p t :
  table_ok t ->
  let '(r, t') := ingest ne class entity inst e p t in
  table_ok t' ∧ next_alarm t ≤ next_alarm t' ∧ i_alarm r < next_alarm t'
  ∧ (∃ a, alarms t' !! (ne, class, inst) = Some a ∧ al_id a = i_alarm r ∧ al_active a = true).
Proof.
  intros H. pose proof H as [Hf Ho]. unfold ingest. destruct (alarms t !! (ne, class, inst)) as [a|] eqn:E.
  - split_and!; [by eapply table_update|done|by eapply Hf|]. eexists. split; [apply lookup_insert_eq|done].
  - split_and!; [|cbn; lia|cbn; lia|eexists; split; [apply lookup_insert_eq|done]].
    split; cbn.
    + intros k b [[<- <-]|[_ Hb]]%lookup_insert_Some; [cbn; lia|]. specialize (Hf _ _ Hb). lia.
    + intros k k' b b' [[<- <-]|[Hj Hb]]%lookup_insert_Some [[<- <-]|[Hj' Hb']]%lookup_insert_Some Eb; [done| | |by eapply Ho].
      * specialize (Hf _ _ Hb'). cbn in Eb. lia.
      * specialize (Hf _ _ Hb). cbn in Eb. lia.
Qed.

Lemma clear_ok ne class inst ts t : table_ok t -> table_ok (clear_alarm ne class inst ts t).2 ∧ next_alarm (clear_alarm ne class inst ts t).2 = next_alarm t.
Proof.
  intros H. unfold clear_alarm. destruct (alarms t !! (ne, class, inst)) as [a|] eqn:E; [|done].
  destruct (al_active a); [|done]. split; [by eapply table_update|done].
Qed.

Lemma flapping_ok id b t : table_ok t -> table_ok (Alarms.set_flapping id b t).
Proof.
  intros [Hf Ho].
  assert (Hid : ∀ k a, alarms (Alarms.set_flapping id b t) !! k = Some a -> ∃ a0, alarms t !! k = Some a0 ∧ al_id a0 = al_id a).
  { intros k a H. cbn in H. apply lookup_fmap_Some in H as (a0 & <- & H). exists a0. split; [done|]. by case_match. }
  split.
  - intros k a (a0 & H & <-)%Hid. by eapply Hf.
  - intros k k' a a' (a0 & H & <-)%Hid (a0' & H' & <-)%Hid. by apply Ho.
Qed.

(** A clear stops exactly the alarm it names. *)
Lemma cleared_is_inactive ne class inst ts t i :
  table_ok t -> (clear_alarm ne class inst ts t).1 = Some i -> i ∈ active_ids t ∧ i ∉ active_ids (clear_alarm ne class inst ts t).2.
Proof.
  intros [Hf Ho]. unfold clear_alarm. destruct (alarms t !! (ne, class, inst)) as [a|] eqn:E; [|done].
  destruct (al_active a) eqn:Ea; [|done]. intros [= <-]. split; [apply elem_active_ids; eauto|].
  intros (k & b & Hk & Hb & Eb)%elem_active_ids. cbn in Hk.
  apply lookup_insert_Some in Hk as [[<- <-]|[Hk1 Hk2]]; [done|]. apply Hk1. symmetry. by eapply Ho.
Qed.

(** ** What an activation leaves alone *)

(** From one engine to the next: the alarms shown active, what orders root causes, the episodes, the
    grouping's mode, and no member but [a] that was not one already. *)
Record within (a : Z) (e e' : Engine) : Prop := {
  wi_active : active (db e') = active (db e);
  wi_prec : precedence e' = precedence e;
  wi_episodes : episodes (correlator e') = episodes (correlator e);
  wi_mode : mode (grouper (correlator e')) = mode (grouper (correlator e));
  wi_rows s b : (s, b) ∈ situation_alarm (db e') -> b = a ∨ ∃ s', (s', b) ∈ situation_alarm (db e) }.

#[global] Instance within_refl a : Reflexive (within a).
Proof. intros e. split; eauto. Qed.
#[global] Instance within_trans a : Transitive (within a).
Proof.
  intros e1 e2 e3 [A1 B1 C1 D1 E1] [A2 B2 C2 D2 E2]. split; [congruence..|].
  intros s b [->|[s' H]]%E2; [by left|]. by apply E1 in H.
Qed.

Lemma mode_fold_left {A} (f : Grouper -> A -> Grouper) l g : (∀ g x, mode (f g x) = mode g) -> mode (foldl f g l) = mode g.
Proof. intros Hf. revert g. induction l as [|x l IH]; intros g; [done|]. cbn [foldl]. by rewrite IH, Hf. Qed.

Lemma mode_fold_into g dst src : mode (fold_into g dst src) = mode g.
Proof.
  unfold fold_into. cbn. rewrite mode_fold_left; [done|]. intros g' [o c]. unfold fold_entry. destruct (o =? dst); [done|].
  by destruct (held_of _ _ _).
Qed.

Lemma mode_commit g sid pl scored sit : mode (Grouping.commit g sid pl scored sit) = mode g.
Proof.
  unfold Grouping.commit. destruct (mode g) eqn:E; [done|]. rewrite mode_fold_left.
  - cbn. rewrite mode_fold_left; [done|]. intros. apply mode_fold_into.
  - intros g' p. unfold commit_pair. destruct (sit !! _) as [o|]; [|done]. destruct (o =? sid); [done|].
    by destruct (held_of g' sid o).
Qed.

Lemma mode_forget g sid : mode (Grouping.forget g sid) = mode g.
Proof. unfold Grouping.forget. by rewrite mode_fold_left. Qed.

(** The maps' and the tables' writes. *)
Lemma within_update a sid f e : within a e (with_db (update sid f (db e)) e).
Proof. split; try done. intros s b H. right. by exists s. Qed.

Lemma within_maps a e e1 :
  db e1 = db e -> correlator e1 = correlator e -> precedence e1 = precedence e -> within a e e1.
Proof. intros E1 E2 E3. split; rewrite ?E1, ?E2, ?E3; try done. intros s b H. right. by exists s. Qed.

Lemma appends_within sid (l : list Member) e :
  let e' := foldl (fun e m => append_to sid m (set_sit (RootCause.alarm_id m) sid e)) e l in
  correlator e' = correlator e ∧ precedence e' = precedence e ∧ db e' = db e.
Proof.
  revert e. induction l as [|m l IH]; intros e; [done|]. cbn [foldl].
  by destruct (IH (append_to sid m (set_sit (RootCause.alarm_id m) sid e))) as (-> & -> & ->).
Qed.

Lemma within_fold_one a sid ts e o : within a e (fold_one sid ts e o).
Proof.
  unfold fold_one. set (e1 := with_db _ e). set (e2 := with_maps _ (delete o _) e1).
  destruct (appends_within sid (list_of o e1) e2) as (Hc & Hp & Hd). etrans; [|by apply (within_maps a e2)].
  split; try done. intros s b H. right. cbn in H. apply elem_of_filter in H as [_ [H|(x & [= -> ->] & H)%elem_of_map]%elem_of_union];
    [by exists s|]. apply elem_of_situation in H as [_ H]. exists x.1. by destruct x.
Qed.

Lemma within_folds a sid ts l e : within a e (foldl (fold_one sid ts) e l).
Proof.
  revert e. induction l as [|o l IH]; intros e; [done|]. cbn [foldl]. etrans; [apply (within_fold_one a sid ts e o)|apply IH].
Qed.

Lemma within_join entry sid e : within (Candidates.alarm_id entry) e (join_member entry sid e).
Proof.
  unfold join_member. case_bool_decide; [done|]. cbn [insert_member Situations.alloc].
  case_bool_decide; (split; [done..|]); intros s b Hin; cbn in Hin;
    (apply elem_of_union in Hin as [[= -> ->]%elem_of_singleton|Hin]; [by left|right; by exists s]).
Qed.

Lemma within_explain a entry outcome sid r executed e : within a e (explain_member entry outcome sid r executed e).
Proof.
  unfold explain_member. cbv zeta.
  match goal with |- within a e (let '(h, l) := default _ (members ?x !! sid) in _) => set (e1 := x) end.
  assert (H1 : within a e e1).
  { split; try done; [|intros s b H; right; by exists s]. cbn. apply mode_commit. }
  destruct (default (0, []) (members e1 !! sid)) as [h l]. destruct (earliest sid h l (upkeep e1)) as [sample u].
  etrans; [exact H1|]. destruct (pick_root _ _ _) as [root|]; [|by apply within_maps].
  etrans; [apply (within_maps a e1 (with_upkeep u e1)); done|apply (within_update a sid (with_root root) (with_upkeep u e1))].
Qed.

Lemma within_assign exp entry outcome e : within (Candidates.alarm_id entry) e (assign_situation exp entry outcome e).1.1.
Proof.
  unfold assign_situation. cbv zeta. set (r := route _ _ _ _). set (a := Candidates.alarm_id entry).
  assert (H1 : within a e (situation_for r (Candidates.ts entry) e).2).
  { assert (∀ act c dc, within a e (create (Candidates.ts entry) act c dc e).2).
    { intros. split; try done. intros s b H. right. by exists s. }
    unfold situation_for. destruct (r_sid r); [by destruct (tracked _ _)|done]. }
  destruct (situation_for r (Candidates.ts entry) e) as [sid e1]. cbn [fst snd] in *.
  etrans; [exact H1|]. set (e2 := match r_propose r with Some t => _ | None => e1 end).
  assert (H2 : within a e1 e2) by (subst e2; destruct (r_propose r); [apply within_update|done]).
  etrans; [exact H2|]. etrans; [apply within_folds|]. etrans; [apply within_join|apply within_explain].
Qed.

Lemma evict_keeps now c : grouper (evict now c) = grouper c ∧ episodes (evict now c) = episodes c.
Proof. unfold evict. destruct (evict_old _ _ _ _) as [w ix]. by destruct (evict_excess _ _ _ _) as [[w' ix'] d]. Qed.

Section laws.
Context (exp : float -> float) (fpow : float -> Z -> float) (ln : float -> float)
  (d_score : LinkFeatures -> Answer * float) (d_logit : list float -> Logit * float).
Notation activate := (activate exp fpow ln d_score d_logit).

Lemma activate_within entry teaches l e :
  let '(l', e') := activate entry teaches l e in
  active (db e') = active (db e) ∧ mode (grouper (correlator e')) = mode (grouper (correlator e))
  ∧ (∀ s b, (s, b) ∈ situation_alarm (db e') -> b = Candidates.alarm_id entry ∨ ∃ s', (s', b) ∈ situation_alarm (db e))
  ∧ (teaches = false -> l' = l ∧ precedence e' = precedence e ∧ episodes (correlator e') = episodes (correlator e)).
Proof.
  unfold Mirror.activate. set (l0 := if teaches then _ else l). cbv zeta.
  pose proof (process_fields exp fpow ln d_score d_logit l0 entry (sit_of e) (sit_of e !! Candidates.alarm_id entry) teaches (correlator e)) as Hp.
  cbn zeta in Hp. destruct Hp as (_ & _ & _ & _ & _ & Hg & _ & Hep).
  destruct (process _ _ _ _ _ _ _ _ _ _ _) as [outcome c]. cbn [snd] in Hg, Hep.
  destruct (if teaches then teach_all _ entry outcome l0 (precedence e) else (l0, precedence e)) as [l1 p] eqn:Et. cbn [snd].
  set (e1 := with_precedence p (with_correlator c e)).
  assert (Hc : grouper c = grouper (correlator e) ∧ (teaches = false -> episodes c = episodes (correlator e))).
  { destruct (evict_keeps (Candidates.ts entry) (correlator e)) as [H1 H2]. split; [by rewrite Hg|].
    intros H. by rewrite (Hep H). }
  destruct (within_assign exp entry outcome e1) as [A1 B1 C1 D1 E1]. destruct Hc as [Hc1 Hc2].
  split_and!.
  - by rewrite A1.
  - rewrite D1. cbn. by rewrite Hc1.
  - exact E1.
  - intros ->. injection Et as <- <-. split_and!; [done|by rewrite B1|]. rewrite C1. cbn. by apply Hc2.
Qed.
End laws.

(** ** The node's well-formedness *)

Record node_ok (n : Node) : Prop := {
  no_sound : sound (engine n);
  no_table : table_ok (table n);
  no_active : active (db (engine n)) = active_ids (table n);
  no_rows s a : (s, a) ∈ situation_alarm (db (engine n)) -> a < next_alarm (table n);
  no_mode : mode (grouper (correlator (engine n))) = MODE_CLUSTER }.

Lemma node_same n n' : engine n' = engine n -> table n' = table n -> node_ok n -> node_ok n'.
Proof. intros E1 E2 [A B C D E]. split; rewrite ?E1, ?E2; try done. Qed.

Lemma node_table t n : table_ok t -> next_alarm (table n) ≤ next_alarm t -> node_ok n -> node_ok (with_table t n).
Proof.
  intros Ht Hn [A B C D E]. split; try done.
  - by apply (sound_quiet (engine n)); [|apply A|].
  - intros s a H. specialize (D s a H). cbn. lia.
Qed.

Lemma node_engine e n :
  node_ok n -> sound e -> active (db e) = active (db (engine n)) -> mode (grouper (correlator e)) = mode (grouper (correlator (engine n))) ->
  (∀ s a, (s, a) ∈ situation_alarm (db e) -> a < next_alarm (table n)) -> node_ok (with_engine e n).
Proof. intros [A B C D E] Hs Ha Hm Hr. split; cbn; [done|done|by rewrite Ha|done|by rewrite Hm]. Qed.

Lemma node_cleared a n : node_ok n -> node_ok (with_engine (cleared a (engine n)) n).
Proof.
  intros H. pose proof H as [A B C D E]. apply node_engine; try done. by apply (sound_quiet (engine n)); [|apply A|].
Qed.

Lemma node_forget_candidate a n : node_ok n -> node_ok (forget_candidate a n).
Proof. destruct a; [apply node_cleared|done]. Qed.

Lemma table_forget_candidate a n : table (forget_candidate a n) = table n.
Proof. by destruct a. Qed.

Lemma node_handle_clear ne rc cc inst ts n : node_ok n -> node_ok (handle_clear ne rc cc inst ts n).
Proof.
  intros H. unfold handle_clear. pose proof (clear_ok ne rc inst ts (table n) (no_table n H)) as [T1 N1].
  destruct (clear_alarm ne rc inst ts (table n)) as [a t]. pose proof (clear_ok ne cc inst ts t T1) as [T2 N2].
  destruct (clear_alarm ne cc inst ts t) as [b t']. cbn [snd] in *.
  apply node_forget_candidate, node_forget_candidate, node_table; [done|lia|done].
Qed.

Lemma node_handle_state_clear ne c inst ts n : node_ok n -> node_ok (handle_state_clear ne c inst ts n).
Proof.
  intros H. unfold handle_state_clear. pose proof (clear_ok ne c inst ts (table n) (no_table n H)) as [T1 N1].
  destruct (clear_alarm ne c inst ts (table n)) as [a t]. apply node_forget_candidate, node_table; [done|cbn in N1; lia|done].
Qed.

(** A repeat is left where it is — flapping, or in its live situation — or is correlated again. *)
Lemma rearm_ok r fp ts n :
  node_ok n ->
  let '(again, n') := rearm r fp ts n in
  node_ok n' ∧ table n' = table n ∧ knowledge n' = knowledge n ∧ flapping n' = flapping n ∧ flap n' = flap n
  ∧ precedence (engine n') = precedence (engine n) ∧ episodes (correlator (engine n')) = episodes (correlator (engine n))
  ∧ (again = false -> n' = n ∧ (fp ∈ flapping n ∨ is_Some (sit_of (engine n) !! i_alarm r))).
Proof.
  intros H. unfold rearm. case_bool_decide as Hf; [by split_and!; [..|auto]|].
  destruct (sit_of (engine n) !! i_alarm r) as [sid|] eqn:Es; [|by split_and!; [apply node_cleared|..]].
  destruct (previous_seen r) as [prev|]; [|split_and!; [done..|]; eauto].
  destruct (_ || _); [split_and!; [done..|]; eauto|]. destruct (negb _); [split_and!; [done..|]; eauto|].
  unfold resolve_situation. destruct (live_in (db (engine n)) sid) eqn:El; [|split_and!; [done..|]; eauto].
  split_and!; try done. destruct H as [(A & P & S) B C D E].
  set (e1 := forget_situation sid (with_db (resolve_where sid "idle" ts (db (engine n))) (engine n))).
  assert (He1 : e1 = resolve_and_forget sid "idle" ts (engine n)) by (unfold resolve_and_forget, resolve_situation; by rewrite El).
  destruct (agree_resolve sid "idle" ts (engine n) A P) as [A1 P1]. rewrite <- He1 in A1, P1.
  assert (Hrows : situation_alarm (db e1) = situation_alarm (db (engine n)) ∧ active (db e1) = active (db (engine n))).
  { unfold e1. cbn. unfold resolve_where. by rewrite El. }
  destruct Hrows as [Hr Ha].
  apply (node_engine (cleared (i_alarm r) e1) n); [by split| |done| |].
  - apply (sound_quiet e1); [done| |split_and!; [done..|]]; by apply sane_resolve.
  - cbn. by rewrite mode_forget.
  - intros s a. change (situation_alarm (db (cleared (i_alarm r) e1))) with (situation_alarm (db e1)). rewrite Hr. apply D.
Qed.

Lemma is_flapping_ok fp ts alarm n :
  node_ok n ->
  let '(flaps, n') := is_flapping fp ts alarm n in
  node_ok n' ∧ knowledge n' = knowledge n ∧ next_alarm (table n') = next_alarm (table n)
  ∧ (∀ k a, alarms (table n) !! k = Some a -> ∃ a', alarms (table n') !! k = Some a' ∧ al_id a' = al_id a ∧ al_active a' = al_active a)
  ∧ (flaps = true -> fp ∈ flapping n') ∧ sit_of (engine n') = sit_of (engine n)
  ∧ precedence (engine n') = precedence (engine n) ∧ episodes (correlator (engine n')) = episodes (correlator (engine n)).
Proof.
  intros H. unfold is_flapping. destruct (flap_observe fp ts (flap n)) as [b f]. cbn zeta.
  change (flapping (with_flap f (flapping n) n)) with (flapping n).
  destruct (Bool.eqb b (bool_decide (fp ∈ flapping n))) eqn:E.
  - split_and!; try done; [by apply (node_same n)|intros k a Ha; by exists a|].
    intros ->. by apply Bool.eqb_prop, eq_sym, bool_decide_eq_true in E.
  - split_and!; try done.
    + eapply (node_same (with_table _ (with_flap f (flapping n) n))); [done|done|].
      apply node_table; [by apply flapping_ok, H|done|by apply (node_same n)].
    + intros k a Ha. cbn. rewrite lookup_fmap, Ha. cbn. eexists. split; [done|]. by case_match.
    + intros ->. cbn. set_solver.
Qed.

(** ** One trap *)

Section trap.
Context (clear_pairs fault_pairs : list (string * string)) (exp : float -> float) (fpow : float -> Z -> float) (ln : float -> float)
  (d_score : LinkFeatures -> Answer * float) (d_logit : list float -> Logit * float).
Notation process_trap := (process_trap clear_pairs fault_pairs exp fpow ln d_score d_logit).
Notation identify := (identify clear_pairs fault_pairs).
Notation handle_trap := (handle_trap exp fpow ln d_score d_logit).
Notation handle_raise := (handle_raise exp fpow ln d_score d_logit).
Notation activation := (activation exp fpow ln d_score d_logit).

(** What correlation has learned from traffic: the affinities with their clock, the raise/clear pairs
    and the alternations they are read from, the state fields, the precedence and the episodes. *)
Definition learned_of (n : Node) : Learner * ClearPairLearner * StateClearLearner * Precedence * EpisodeMemory :=
  (affinities (knowledge n), pairs (knowledge n), states (knowledge n), precedence (engine n), episodes (correlator (engine n))).

Lemma identify_same e n :
  let '(_, _, _, _, _, n') := identify e n in
  engine n' = engine n ∧ table n' = table n ∧ flap n' = flap n ∧ flapping n' = flapping n ∧ windows n' = windows n
  ∧ ledger n' = ledger n ∧ affinities (knowledge n') = affinities (knowledge n) ∧ states (knowledge n') = states (knowledge n)
  ∧ state (pairs (knowledge n')) = state (pairs (knowledge n))
  ∧ (trap_oid e ∈ seeded (knowledge n) ∨ clear_of clear_pairs (trap_oid e) = None ∧ fault_of fault_pairs (trap_oid e) = None ->
     pairs (knowledge n') = pairs (knowledge n)).
Proof.
  assert (Hreg : ∀ i j l, state (register i j l) = state l) by (intros; unfold register; by case_match).
  unfold Pipeline.identify. destruct (class_id_of _ _) as [class x]. destruct (ne_id_of _ _) as [ne x1].
  destruct (resolve_entity _ _ _ _) as [[entity inst] x2].
  assert (Hk : ∀ k x, let '(_, k') := seed_clear_pair clear_pairs fault_pairs (trap_oid e) class x k in
    affinities k' = affinities k ∧ states k' = states k ∧ state (pairs k') = state (pairs k)
    ∧ (trap_oid e ∈ seeded k ∨ clear_of clear_pairs (trap_oid e) = None ∧ fault_of fault_pairs (trap_oid e) = None -> pairs k' = pairs k)).
  { intros k y. unfold seed_clear_pair. case_bool_decide; [done|]. destruct (clear_of _ _); [destruct (class_id_of _ y) as [i y']|];
      (destruct (fault_of _ _); [destruct (class_id_of _ _) as [j z]|]); split_and!; cbn [pairs]; rewrite ?Hreg; try done; naive_solver. }
  specialize (Hk (knowledge n) x2). destruct (seed_clear_pair _ _ _ _ _ _) as [x3 k]. by destruct Hk.
Qed.

(** The addresses a trap names, which an activation reads. *)
Definition refs_of (e : TrapEvent) : option (gset string) := PairFeatures.references (map snd (varbinds e)) (device e).

Lemma activation_ok e r p inst (teaches : bool) n :
  node_ok n -> i_alarm r < next_alarm (table n) ->
  match activation e r p inst teaches n with
  | Some n' => node_ok n' ∧ table n' = table n ∧ flapping n' = flapping n
               ∧ is_Some (sit_of (engine n') !! i_alarm r)
  | None => refs_of e = None
  end.
Proof.
  intros H Hid. unfold Pipeline.activation, entry_of_trap. fold (refs_of e). destruct (refs_of e) as [refs|]; [|done].
  cbn [mbind option_bind].
  set (entry := window_alarm _ _ _ _ _ _ _ _ _ _ _).
  pose proof (activate_sound exp fpow ln d_score d_logit (affinities (knowledge n)) entry teaches (engine n) (no_sound n H) (no_mode n H)) as [Hs Hin].
  pose proof (activate_within exp fpow ln d_score d_logit entry teaches (affinities (knowledge n)) (engine n)) as Hw.
  destruct (activate _ _ _ _ _ entry teaches _ _) as [l g]. cbn [snd] in *. destruct Hw as (Ha & Hm & Hr & Ht).
  split_and!; try done.
  - eapply (node_same (with_engine g n)); [done|done|]. apply node_engine; try done.
    intros s a [->|[s' Hin']]%Hr; [done|]. by eapply no_rows.
Qed.

(** Where an alarm is once its trap is handled. *)
Definition placed_alarm (key : AlarmKey) (fp : Fingerprint) (n : Node) : Prop :=
  ∃ a, alarms (table n) !! key = Some a ∧ al_active a = true
  ∧ (fp ∈ flapping n ∨ ∃ s, sit_of (engine n) !! al_id a = Some s ∧ live_in (db (engine n)) s = true).

Lemma sound_sit_live e a : sound e -> is_Some (sit_of e !! a) -> ∃ s, sit_of e !! a = Some s ∧ live_in (db e) s = true.
Proof. intros (A & _ & _) [s Hs]. exists s. split; [done|]. by eapply tracked_live, tracked_of_sit. Qed.

Lemma handle_raise_ok ne class entity inst p e (teaches : bool) n :
  node_ok n ->
  match handle_raise ne class entity inst p e teaches n with
  | Some n' => node_ok n' ∧ placed_alarm (ne, class, inst) (device e, trap_oid e, inst) n'
  | None => refs_of e = None
  end.
Proof.
  intros H. unfold Pipeline.handle_raise. set (fp := (device e, trap_oid e, inst)).
  destruct (match entity with Some i => (i, naming n) | None => _ end) as [ent x].
  assert (H1 : node_ok (with_naming x n)) by by apply (node_same n).
  pose proof (ingest_ok ne class ent inst e p (table n) (no_table n H)) as Hi. change (table (with_naming x n)) with (table n).
  destruct (ingest ne class ent inst e p (table n)) as [r t]. destruct Hi as (Ht & Hnx & Hid & a & Hkey & Haid & Hact).
  pose proof (node_table t (with_naming x n) Ht Hnx H1) as H2. cbv zeta. set (n2 := with_table t (with_naming x n)) in *.
  assert (Hnext : ∃ again n3, (if i_activated r then (true, n2) else rearm r fp (t_ts e) n2) = (again, n3)
    ∧ node_ok n3 ∧ table n3 = t
    ∧ (again = false -> fp ∈ flapping n3 ∨ is_Some (sit_of (engine n3) !! i_alarm r))).
  { destruct (i_activated r); [by exists true, n2|]. pose proof (rearm_ok r fp (t_ts e) n2 H2) as Hr.
    destruct (rearm r fp (t_ts e) n2) as [again n3]. destruct Hr as (R1 & R2 & R3 & R4 & R5 & R6 & R7 & R8).
    exists again, n3. split_and!; [done|done|done|]. intros Ef. by destruct (R8 Ef) as [-> ?]. }
  destruct Hnext as (again & n3 & -> & H3 & Et & Hag). destruct again; cbn [negb].
  - pose proof (is_flapping_ok fp (t_ts e) (i_alarm r) n3 H3) as Hf.
    destruct (is_flapping fp (t_ts e) (i_alarm r) n3) as [flaps n4]. destruct Hf as (F1 & F2 & F3 & F4 & F5 & F6 & F7 & F8).
    rewrite Et in F3, F4. destruct (F4 _ _ Hkey) as (a' & Ha' & E1 & E2).
    destruct flaps.
    + split; [done|]. exists a'. split_and!; [done|congruence|]. left. by apply F5.
    + pose proof (activation_ok e r p inst teaches n4 F1) as Hac. destruct (activation e r p inst teaches n4) as [n'|]; [|apply Hac; lia].
      destruct Hac as (A1 & A2 & A3 & A4); [lia|]. split; [done|]. exists a'. rewrite A2.
      split_and!; [done|congruence|]. right. apply sound_sit_live; [apply A1|]. by rewrite E1, Haid.
  - split; [done|]. exists a. rewrite Et. split_and!; [done|done|].
    destruct (Hag eq_refl) as [Hf|Hs]; [by left|right]. apply sound_sit_live; [apply H3|]. by rewrite Haid.
Qed.

Lemma learn_clears_same ne class inst e n :
  engine (learn_clears ne class inst e n) = engine n ∧ table (learn_clears ne class inst e n) = table n.
Proof. unfold learn_clears. by destruct (_ <? _). Qed.

Lemma learned_forget_candidate a n : learned_of (forget_candidate a n) = learned_of n.
Proof. by destruct a. Qed.

(** Is the trap a clear: by a known pair, by a learned field, or by the severity it states? *)
Definition says_clear (class : Z) (p : Placed) (e : TrapEvent) (k : Knowledge) : bool :=
  bool_decide (is_Some (clear_to_raise (pairs k) !! class)) || is_clear (states k) class (varbinds e) || Oids.clears p.

Lemma handle_trap_ok ne class entity inst p e (teaches : bool) n :
  node_ok n ->
  let n1 := if teaches then learn_clears ne class inst e n else n in
  match handle_trap ne class entity inst p e teaches n with
  | Some n' => node_ok n'
      ∧ (says_clear class p e (knowledge n1) = false -> placed_alarm (ne, class, inst) (device e, trap_oid e, inst) n')
  | None => refs_of e = None
  end.
Proof.
  intros H n1. unfold Pipeline.handle_trap. fold n1.
  assert (H1 : node_ok (count_one n1)).
  { apply (node_same n); [| |done]; unfold n1; destruct teaches; cbn; try done; apply learn_clears_same. }
  change (knowledge (count_one n1)) with (knowledge n1). cbv zeta. unfold says_clear.
  destruct (clear_to_raise (pairs (knowledge n1)) !! class) as [rc|] eqn:Ec.
  - split; [by apply node_handle_clear|by rewrite bool_decide_true].
  - rewrite bool_decide_false by (by intros [? ?]). cbn [orb].
    destruct (is_clear (states (knowledge n1)) class (varbinds e) || Oids.clears p).
    + by split; [apply node_handle_state_clear|].
    + pose proof (handle_raise_ok ne class entity inst p e teaches (count_one n1) H1) as Hr.
      destruct (handle_raise ne class entity inst p e teaches (count_one n1)) as [n'|]; [|done].
      by destruct Hr.
Qed.

(** *** What a trap that does not teach leaves as it was, of any node *)

Lemma rearm_learned r fp ts n : learned_of (rearm r fp ts n).2 = learned_of n.
Proof.
  unfold rearm. case_bool_decide; [done|]. destruct (sit_of _ !! _) as [sid|]; [|done]. destruct (previous_seen r); [|done].
  destruct (_ || _); [done|]. destruct (negb _); [done|]. by destruct (resolve_situation _ _ _ _) as [[] d].
Qed.
Lemma is_flapping_learned fp ts alarm n : learned_of (is_flapping fp ts alarm n).2 = learned_of n.
Proof. unfold is_flapping. destruct (flap_observe _ _ _) as [b f]. by destruct (Bool.eqb _ _). Qed.
Lemma activation_learned e r p inst n n' : activation e r p inst false n = Some n' -> learned_of n' = learned_of n.
Proof.
  unfold Pipeline.activation. destruct (entry_of_trap e r p inst (flap n)) as [entry|]; [|done]. cbn [mbind option_bind].
  pose proof (activate_within exp fpow ln d_score d_logit entry false (affinities (knowledge n)) (engine n)) as Hw.
  destruct (activate _ _ _ _ _ entry false _ _) as [l g]. destruct Hw as (_ & _ & _ & Hw). destruct (Hw eq_refl) as (-> & Hp & He).
  intros [= <-]. unfold learned_of. cbn. by rewrite Hp, He.
Qed.
Lemma handle_raise_learned ne class entity inst p e n n' :
  handle_raise ne class entity inst p e false n = Some n' -> learned_of n' = learned_of n.
Proof.
  unfold Pipeline.handle_raise. destruct (match entity with Some i => (i, naming n) | None => _ end) as [ent x].
  destruct (ingest _ _ _ _ _ _ _) as [r t]. cbv zeta. set (n2 := with_table t (with_naming x n)).
  pose proof (rearm_learned r (device e, trap_oid e, inst) (t_ts e) n2) as Hr. change (learned_of n2) with (learned_of n) in Hr.
  assert (H3 : learned_of (if i_activated r then (true, n2) else rearm r (device e, trap_oid e, inst) (t_ts e) n2).2 = learned_of n) by by destruct (i_activated r).
  destruct (if i_activated r then _ else _) as [again n3]. destruct again; cbn [negb]; [|by intros [= <-]].
  pose proof (is_flapping_learned (device e, trap_oid e, inst) (t_ts e) (i_alarm r) n3) as Hf. destruct (is_flapping _ _ _ n3) as [flaps n4].
  cbn [snd] in *. destruct flaps; [intros [= <-]; congruence|]. intros H%activation_learned. congruence.
Qed.
Lemma handle_trap_learned ne class entity inst p e n n' :
  handle_trap ne class entity inst p e false n = Some n' -> learned_of n' = learned_of n.
Proof.
  unfold Pipeline.handle_trap. cbv zeta. destruct (clear_to_raise _ !! class) as [rc|].
  - intros [= <-]. unfold handle_clear. destruct (clear_alarm _ _ _ _ _) as [a t]. destruct (clear_alarm _ _ _ _ t) as [b t'].
    by rewrite !learned_forget_candidate.
  - destruct (is_clear _ _ _ || _); [|intros H%handle_raise_learned; exact H].
    intros [= <-]. unfold handle_state_clear. destruct (clear_alarm _ _ _ _ _) as [a t]. by rewrite learned_forget_candidate.
Qed.

(** C4: A well-formed node stays so over every trap it handles: the maps mirror the tables, the alarm ids
    are unique, the alarms the engine sees active are those of the table, every member is an alarm,
    and the grouping stays the trained one. A trap whose addresses can be read is always handled. *)
Theorem a_trap_keeps_the_node_well_formed e n :
  node_ok n ->
  match process_trap e n with Some n' => node_ok n' | None => refs_of e = None end.
Proof.
  intros H. unfold Pipeline.process_trap. pose proof (identify_same e n) as Hi.
  destruct (identify e n) as [[[[[ne class] entity] inst] p] n0]. destruct Hi as (I1 & I2 & _).
  assert (H0 : node_ok n0) by by apply (node_same n).
  destruct (suppressed _); [by apply (node_same n0)|].
  pose proof (handle_trap_ok ne class entity inst p e (negb (under_window (decide_trap (windows n0) ne (t_ts e) (trap_oid e)
      (map fst (varbinds e)) (rank p)))) n0 H0) as Hh.
  destruct (handle_trap _ _ _ _ _ _ _ _) as [n'|]; [apply Hh|done].
Qed.

(** Does the window of the decision keep a ledger? One it cannot find does. *)
Definition keeps_ledger (d : Decision) (ne : Z) (ws : WindowIndex) : bool :=
  from_option (fun wid => from_option ledger_enabled true (window_of ws ne wid)) false (d_window d).

(** C5: No fault that is raised is lost. Take a well-formed node (as in C4: its grouping in cluster mode)
    and a trap it handles that is not a clear: neither by a known pair, nor by a learned state field, nor
    by the severity it states. If no window suppresses it, it leaves an active alarm under its element,
    class and instance, which is a member of a live situation unless its fingerprint is known to flap. If
    a window suppresses it, the engine and the alarms are as they were, and if that window keeps a ledger,
    the ledger holds it under the window, element, class and instance: raised, not cleared, and marked to
    be written; nothing else of the ledger changes. A window with [ledger_enabled=false] keeps none: there
    the trap leaves nothing, by its operator's choice. *)
Theorem no_raise_is_lost e n n' :
  node_ok n -> process_trap e n = Some n' ->
  let '(ne, class, entity, inst, p, n0) := identify e n in
  let d := decide_trap (windows n) ne (t_ts e) (trap_oid e) (map fst (varbinds e)) (rank p) in
  let k := if under_window d then knowledge n0 else knowledge (learn_clears ne class inst e n0) in
  says_clear class p e k = false ->
  if suppressed d then
    engine n' = engine n ∧ table n' = table n ∧
    if keeps_ledger d ne (windows n) then
      ∃ wid en, d_window d = Some wid ∧ entries (ledger n') = <[(wid, ne, class, inst) := en]> (entries (ledger n))
        ∧ is_Some (raised_at en) ∧ cleared_at en = None ∧ Ledger.dirty (ledger n') = {[(wid, ne, class, inst)]} ∪ Ledger.dirty (ledger n)
    else ledger n' = ledger n
  else placed_alarm (ne, class, inst) (device e, trap_oid e, inst) n'.
Proof.
  intros H. unfold Pipeline.process_trap. pose proof (identify_same e n) as Hi.
  assert (Hp : let '(_, _, _, _, p, _) := identify e n in ∃ o, p = Oids.place (varbinds e) o).
  { unfold Pipeline.identify. destruct (class_id_of _ _), (ne_id_of _ _), (resolve_entity _ _ _ _) as [[? ?] ?], (seed_clear_pair _ _ _ _ _ _). eauto. }
  destruct (identify e n) as [[[[[ne class] entity] inst] p] n0]. destruct Hi as (I1 & I2 & I3 & I4 & I5 & I6 & _).
  assert (H0 : node_ok n0) by by apply (node_same n). rewrite <- I5. destruct Hp as [o Hp].
  set (d := decide_trap _ _ _ _ _ _). cbv zeta. unfold suppressed. destruct (under_window d) eqn:Eu.
  - unfold under_window in Eu. rewrite Eu. cbn [andb negb]. destruct (collect d); cbn [negb].
    + intros Hd. pose proof (handle_trap_ok ne class entity inst p e false n0 H0) as Hh. rewrite Hd in Hh. apply Hh.
    + intros [= <-] Hc. split_and!; [done|done|]. cbn [ledger with_ledger]. rewrite <- I6. apply bool_decide_eq_true in Eu as [wid Ew].
      rewrite observe_suppressed_said. unfold said, keeps_ledger. rewrite Ew. cbn [mbind option_bind from_option]. rewrite I5.
      destruct (from_option ledger_enabled true _); cbn [negb]; [|done]. unfold says_clear in Hc. rewrite !orb_false_iff in Hc.
      destruct Hc as [[Hc1%bool_decide_eq_false Hc2] Hc3]. destruct (clear_to_raise _ !! class) as [rc|]; [by destruct Hc1; eauto|].
      assert (match standard_severity (varbinds e) with Some s => String.eqb s.1.1 "cleared" | None => false end = false) as ->.
      { rewrite Hp in Hc3. unfold Oids.place, Oids.clears in Hc3. destruct (standard_severity _) as [s|]; [|done].
        cbn in Hc3. apply bool_decide_eq_false in Hc3. apply String.eqb_neq. congruence. }
      rewrite Hc2. cbn [orb negb]. destruct (heard_entry (wid, ne, class, inst) true (t_ts e) (ledger n0)) as (en & -> & _ & Hs & _).
      exists wid, en. unfold e_shows in Hs. apply andb_true_iff in Hs as [Hs1%bool_decide_eq_true Hs2%bool_decide_eq_true]. done.
  - unfold under_window in Eu. rewrite Eu. cbn [andb negb]. intros Hd.
    pose proof (handle_trap_ok ne class entity inst p e true n0 H0) as Hh. rewrite Hd in Hh. apply Hh.
Qed.

(** C6: A trap under a maintenance window that the node handles teaches correlation nothing, whether or
    not its window lets it through, in any state of the node: the affinities with their clock, the
    alternations that pairs are learned from, the state fields, the precedence and the episodes are as
    they were. So are the raise/clear pairs, but for the bundled pairs of the trap's own OID, which are
    public names registered before the windows are asked: [identify] is all that can add to them, and
    where the OID was seen before or has no bundled partner they are unchanged. Not about the varbind
    profiles, which observe every trap and are not modelled, nor the flap detector. *)
Theorem maintenance_teaches_nothing e n n' :
  process_trap e n = Some n' ->
  let '(ne, _, _, _, p, n0) := identify e n in
  under_window (decide_trap (windows n) ne (t_ts e) (trap_oid e) (map fst (varbinds e)) (rank p)) = true ->
  learned_of n' = (affinities (knowledge n), pairs (knowledge n0), states (knowledge n), precedence (engine n), episodes (correlator (engine n)))
  ∧ state (pairs (knowledge n0)) = state (pairs (knowledge n))
  ∧ (trap_oid e ∈ seeded (knowledge n) ∨ clear_of clear_pairs (trap_oid e) = None ∧ fault_of fault_pairs (trap_oid e) = None ->
     learned_of n' = learned_of n).
Proof.
  unfold Pipeline.process_trap. pose proof (identify_same e n) as Hi.
  destruct (identify e n) as [[[[[ne class] entity] inst] p] n0]. destruct Hi as (I1 & I2 & I3 & I4 & I5 & I6 & I7 & I8 & I9 & I10).
  rewrite <- I5. intros Hp Hu. rewrite Hu in Hp.
  assert (El : learned_of n' = learned_of n0) by (destruct (suppressed _); [by injection Hp as <-|by apply handle_trap_learned in Hp]).
  rewrite El. unfold learned_of. rewrite I1, I7, I8, I9. split_and!; [done..|]. by intros ->%I10.
Qed.
End trap.

(** *** A concrete node: a trained grouping, no traffic yet, and a window over element 1 *)

Definition node0 (ws : WindowIndex) : Node :=
  MkNode (started (set_scorer (new_safe false f_zero) (Some default_params) c_zero) new_precedence None None)
    (MkNaming (MkIds ∅ 1) (MkIds ∅ 1) new_entities ∅ ∅)
    (MkKnowledge Learn.new_learner Alternation.new_learner new_state_learner ∅)
    new_alarms new_flap ∅ ws new_ledger (MkConfig ∅ ∅ (f_of_Z 3600)) 0.

Lemma node0_ok ws : node_ok (node0 ws).
Proof.
  split; [apply started_sound| | |by intros s a ?%elem_of_empty|done].
  - split; cbn; [intros k a H|intros k k' a a' H]; by rewrite lookup_empty in H.
  - vm_compute. reflexivity.
Qed.

Definition link_down : TrapEvent := MkTrap "10.0.0.1" "1.3.6.1.6.3.1.1.5.3" "7" (f_of_Z 100) [("1.3.6.1.2.1.2.2.1.1.7", "7")] "".
Definition planned_work : WindowIndex :=
  compile_windows [build 5 "work" 1 (f_of_Z 0) (f_of_Z 1000) f_zero {[1 := COLLECT_NOTHING]} true].
Definition take_trap : TrapEvent -> Node -> option Node := process_trap [] [] flat no_pow no_ln formula no_logit.

(** The trap is an active alarm, the only member of situation 1. *)
Lemma a_trap_keeps_the_node_well_formed_witness :
  node_ok (node0 ∅) ∧
  match take_trap link_down (node0 ∅) with
  | Some n => node_ok n ∧ bag 1 (engine n) = [1] ∧ active_ids (table n) = {[1]} ∧ status_of (db (engine n)) 1 = Some "new"
  | None => False
  end.
Proof.
  split; [apply node0_ok|].
  pose proof (a_trap_keeps_the_node_well_formed [] [] flat no_pow no_ln formula no_logit link_down (node0 ∅) (node0_ok ∅)) as H.
  fold take_trap in H.
  assert (Hc : (n ← take_trap link_down (node0 ∅); Some (bag 1 (engine n), active_ids (table n), status_of (db (engine n)) 1))
    = Some ([1], {[1]}, Some "new")) by (vm_compute; reflexivity).
  destruct (take_trap link_down (node0 ∅)) as [n|]; [|done]. split; [exact H|]. injection Hc as -> -> ->. done.
Defined.

Lemma no_raise_is_lost_witness :
  node_ok (node0 ∅) ∧
  match take_trap link_down (node0 ∅) with
  | Some n => placed_alarm (1, 1, "7") ("10.0.0.1", "1.3.6.1.6.3.1.1.5.3", "7") n
  | None => False
  end.
Proof.
  split; [apply node0_ok|].
  assert (Hs : (if take_trap link_down (node0 ∅) then true else false) = true) by (vm_compute; reflexivity).
  pose proof (no_raise_is_lost [] [] flat no_pow no_ln formula no_logit link_down (node0 ∅)) as H. fold take_trap in H.
  destruct (take_trap link_down (node0 ∅)) as [n|]; [|discriminate]. specialize (H n (node0_ok ∅) eq_refl).
  assert (Hc : (let '(ne, class, _, inst, p, n0) := identify [] [] link_down (node0 ∅) in
    let d := decide_trap ∅ ne (t_ts link_down) (trap_oid link_down) (map fst (varbinds link_down)) (rank p) in
    (ne =? 1) && (class =? 1) && String.eqb inst "7" && negb (suppressed d) && negb (under_window d)
    && negb (says_clear class p link_down (knowledge (learn_clears ne class inst link_down n0)))) = true) by (vm_compute; reflexivity).
  destruct (identify [] [] link_down (node0 ∅)) as [[[[[ne class] entity] inst] p] n0].
  change (windows (node0 ∅)) with (∅ : WindowIndex) in H. cbv zeta in H, Hc.
  rewrite !andb_true_iff, !negb_true_iff in Hc. destruct Hc as (((((->%Z.eqb_eq & ->%Z.eqb_eq) & ->%String.eqb_eq) & Hs') & Hu) & Hk).
  rewrite Hs', Hu in H. exact (H Hk).
Defined.

Lemma maintenance_teaches_nothing_witness :
  match take_trap link_down (node0 planned_work) with
  | Some n => affinities (knowledge n) = affinities (knowledge (node0 planned_work)) ∧ state (pairs (knowledge n)) = ∅
              ∧ dom (entries (ledger n)) = {[(5, 1, 1, "7")]}
  | None => False
  end.
Proof.
  pose proof (maintenance_teaches_nothing [] [] flat no_pow no_ln formula no_logit link_down (node0 planned_work)) as H.
  fold take_trap in H.
  assert (Hc : (n ← take_trap link_down (node0 planned_work); Some (dom (entries (ledger n)))) = Some {[(5, 1, 1, "7")]}) by (vm_compute; reflexivity).
  assert (Hu : (let '(ne, _, _, _, p, _) := identify [] [] link_down (node0 planned_work) in
    under_window (decide_trap (windows (node0 planned_work)) ne (t_ts link_down) (trap_oid link_down) (map fst (varbinds link_down)) (rank p))) = true)
    by (vm_compute; reflexivity).
  destruct (take_trap link_down (node0 planned_work)) as [n|]; [|done]. specialize (H n eq_refl).
  destruct (identify [] [] link_down (node0 planned_work)) as [[[[[ne class] entity] inst] p] n0].
  destruct (H Hu) as (E & Es & _). injection E as E1 E2 _ _ _. split_and!; [exact E1|rewrite E2; exact Es|by injection Hc].
Defined.

(** ** Where names run into each other

    The entity cache is keyed by element and key only: port 1 of slot 2 is answered with port 1 of slot
    1, which the table would keep apart. *)
Example a_key_under_another_parent_gets_the_first_entity :
  let t := (get_or_create_entity 1 1 "slot 1" (MkEntities {[1 := 1]} ∅ ∅ 2)).2 in
  let '(port, t) := get_or_create_entity 1 2 "port 1" t in
  let '(slot2, t) := get_or_create_entity 1 1 "slot 2" t in
  let cold := MkEntities (level0 t) (deeper t) ∅ (next_entity t) in
  ((get_or_create_entity 1 slot2 "port 1" t).1 =? port, (get_or_create_entity 1 slot2 "port 1" cold).1 =? port) = (true, false).
Proof. vm_compute. reflexivity. Qed.
