(* ===== verification/Autonomy.v ===== *)
(** * The model classifying incidents on its own ([engine/operate/autonomy.py],
    [engine/operate/autonomy_judge.py], [store/autonomy.py], and the routes that switch it)

    A sweep judges the acts on record by what operators and the network did next, suspends itself when they
    disagree too often, and else acts: groupings accepted, situations named, given a severity, closed. The
    words of an act and its evidence are left out, but for what is judged later. A read that fails, or
    an [IndexError], is [None]: the transaction is rolled back. *)
From S2P Require Import Prelude PyLib Floats Oids Alternation Windows Ledger Grouping Episodes Learn Scoring Candidates PairFeatures Correlator RootCause Situations SituationLaws Membership Mirror Alarms Pipeline PipelineLaws.

Inductive Grade := Grouping | Naming_ | Closing | Severity.
#[global] Instance grade_eq_dec : EqDecision Grade.
Proof. solve_decision. Defined.
Definition GRADES : list Grade := [Grouping; Naming_; Closing; Severity].

Definition MAX_ACTS : Z := 50.
Definition SETTLE_S : float := f_of_Z 120.
Definition STALE_S : float := f_of_Z 1800.
Definition SPREAD_ELEMENTS : nat := 5.
Definition SEVERITIES : list string := ["critical"; "major"; "minor"; "warning"; "indeterminate"].
Definition CLOSE_JUDGE_S : float := f_of_Z 3600.

(** ** Settings *)

Record Settings := MkSettings {
  s_grouping : bool; s_naming : bool; s_closing : bool; s_severity : bool; agreement_floor : float; verdict_window : nat;
  min_judged : nat; confidence_floor : float; set_by : string; s_reason : string; set_at : float }.

Definition default_settings : Settings :=
  MkSettings false false false false (f_lit 8 10) 30 8 (f_lit 9 10) "" "" f_zero.
(** The last row, or the class's defaults. *)
Definition from_row (rows : list Settings) : Settings := default default_settings (head (reverse rows)).

Definition grade_on (s : Settings) (g : Grade) : bool :=
  match g with Grouping => s_grouping s | Naming_ => s_naming s | Closing => s_closing s | Severity => s_severity s end.
Definition enabled (s : Settings) : list Grade := filter (fun g => grade_on s g = true) GRADES.
Definition suspended (s : Settings) : bool := bool_decide (enabled s = []) && String.eqb (set_by s) "autonomy".

(** [values(grouping=0, naming=0, closing=0, severity=0)], written as a row. *)
Definition all_off (s : Settings) (who why : string) (ts : float) : Settings :=
  MkSettings false false false false (agreement_floor s) (verdict_window s) (min_judged s) (confidence_floor s) who why ts.

(** ** What it reads and writes *)

(** The columns of a situation that operators and the model name it with. *)
Record Label := MkLabel { operator_name : option string; model_name : option string; severity : option string; severity_by : option string }.
Definition no_label : Label := MkLabel None None None None.

(** A row of [situation_event], with the verdict of its feedback. *)
Record EventRow := MkEvent { ev_situation : Z; ev_kind : string; ev_actor : option string; ev_at : float; ev_verdict : option string }.

Record Verdict := MkVerdict { v_agreed : bool; v_at : float; v_by : string }.
(** An id is a position. *)
Record DecisionRow := MkDecision {
  d_situation : Z; d_grade : Grade; d_decider : string; d_confidence : float; stale_cleared : list Z; d_at : float;
  d_verdict : option Verdict }.

Record AuditLine := MkLine { au_actor : string; au_action : string; au_situation : option Z }.

Record Appliance := MkAppliance {
  node : Node; labels : gmap Z Label; settings : list Settings; decisions : list DecisionRow; events : list EventRow;
  audited : list AuditLine }.

Definition with_node (n : Node) (w : Appliance) : Appliance := MkAppliance n (labels w) (settings w) (decisions w) (events w) (audited w).
Definition with_decisions (l : list DecisionRow) (w : Appliance) : Appliance := MkAppliance (node w) (labels w) (settings w) l (events w) (audited w).
Definition add_event (e : EventRow) (w : Appliance) : Appliance := MkAppliance (node w) (labels w) (settings w) (decisions w) (events w ++ [e]) (audited w).
Definition write_event (l : AuditLine) (w : Appliance) : Appliance := MkAppliance (node w) (labels w) (settings w) (decisions w) (events w) (audited w ++ [l]).
Definition set_autonomy_row (s : Settings) (w : Appliance) : Appliance := MkAppliance (node w) (labels w) (settings w ++ [s]) (decisions w) (events w) (audited w).

Definition eng (w : Appliance) : Engine := engine (node w).
Definition rows_of (w : Appliance) : gmap Z Situation := situations (db (eng w)).
Definition label (w : Appliance) (sid : Z) : Label := default no_label (labels w !! sid).
(** [UPDATE situation SET ... WHERE id = ?]. *)
Definition set_label (sid : Z) (l : Label) (w : Appliance) : Appliance :=
  if bool_decide (is_Some (rows_of w !! sid))
  then MkAppliance (node w) (<[sid := l]> (labels w)) (settings w) (decisions w) (events w) (audited w) else w.

Definition the_decider (w : Appliance) : string := default "additive:default" (decider_ref (eng w)).
Definition by_model (who : string) : bool := String.prefix "model:" who.
Definition additive (decider : string) : bool := String.prefix "additive" decider.
Definition model_ref (w : Appliance) : string := "model:" +:+ the_decider w.

(** ** Reads ([AutonomyMixin]) *)

Record CandidateRow := MkCandidateRow {
  c_id : Z; c_status : string; c_updated : float; c_decider : option string; c_label : Label }.

(** [ORDER BY updated_at DESC, id DESC]. *)
Definition newer (a b : CandidateRow) : bool :=
  fltb (c_updated b) (c_updated a) || (feqb (c_updated b) (c_updated a) && (c_id b <=? c_id a)).
Definition autonomy_candidates (settled_before : float) (limit : nat) (w : Appliance) : list CandidateRow :=
  take limit (sort_by newer (omap (fun e : Z * Situation =>
    if LIVE (status e.2) && fleb (created_at e.2) settled_before
    then Some (MkCandidateRow e.1 (status e.2) (updated_at e.2) (decider e.2) (label w e.1)) else None) (map_to_list (rows_of w)))).

Definition situation_link_scores (sid : Z) (w : Appliance) : list LinkRow :=
  filter (fun l => lk_situation l = sid) (link_rows (db (eng w))).

(** The name an id was given to. *)
Definition name_of (i : Z) (t : Ids) : option string :=
  head (omap (fun e : string * Z => if e.2 =? i then Some e.1 else None) (map_to_list (ids t))).

Record MemberRow := MkMember {
  m_alarm : Z; m_class : Z; class_oid : string; device_ip : string; severity_rank : option Z; m_active : bool; is_root : bool }.

Definition member_row (sid : Z) (w : Appliance) (root : option Z) (e : AlarmKey * AlarmRow) : option MemberRow :=
  let '(ne, class, _, a) := e in
  if bool_decide (al_id a ∈ members_of sid (db (eng w))) then
    oid ← name_of class (classes (naming (node w)));
    ip ← name_of ne (elements (naming (node w)));
    Some (MkMember (al_id a) class oid ip (al_severity_rank a) (al_active a) (bool_decide (root = Some (al_id a))))
  else None.
Definition situation_profile (sid : Z) (w : Appliance) : list MemberRow :=
  match rows_of w !! sid with
  | None => []
  | Some s => sort_by (fun a b => m_alarm a <=? m_alarm b) (omap (member_row sid w (root_alarm_id s)) (map_to_list (alarms (table (node w)))))
  end.

(** The grades of the newest decisions on a situation. *)
Definition done_of (sid : Z) (w : Appliance) : list Grade :=
  map d_grade (take 20 (reverse (filter (fun d => d_situation d = sid) (decisions w)))).

Definition situation_gestures_after (sid : Z) (after : float) (w : Appliance) : list EventRow :=
  sort_by (fun a b => fleb (ev_at a) (ev_at b)) (filter (fun e =>
    ev_situation e = sid ∧ fltb after (ev_at e) = true ∧ match ev_actor e with Some who => negb (by_model who) | None => false end = true) (events w)).

Definition any_reactivated (ids : list Z) (after : float) (w : Appliance) : bool :=
  existsb (fun e : AlarmKey * AlarmRow => bool_decide (al_id e.2 ∈ ids) && al_active e.2 && fltb after (al_last_seen e.2))
    (map_to_list (alarms (table (node w)))).

Definition recent_verdicts (n : nat) (w : Appliance) : list bool :=
  map v_agreed (take n (sort_by (fun a b => fleb (v_at b) (v_at a)) (reverse (omap d_verdict (decisions w))))).

(** ** Verdicts ([judge]) *)

(** What an event says an operator did. *)
Definition kind_of (e : EventRow) : string :=
  if String.eqb (ev_kind e) "verdict" && bool_decide (ev_verdict e = Some "split") then "split" else ev_kind e.
Definition contradicting (g : Grade) : list string :=
  match g with Grouping => ["move"; "merge"; "operator_split"; "split"] | Naming_ => ["rename"] | Severity => [] | Closing => [] end.

(** The verdict on one pending act, if anything has happened since. *)
Definition verdict_on (d : DecisionRow) (now : float) (w : Appliance) : option Verdict :=
  if bool_decide (d_grade d = Closing) then
    if any_reactivated (stale_cleared d) (d_at d) w then Some (MkVerdict false now "network")
    else if fleb CLOSE_JUDGE_S (fsub now (d_at d)) then Some (MkVerdict true now "network") else None
  else
    let overruled :=
      if bool_decide (d_grade d = Severity) && bool_decide (is_Some (rows_of w !! d_situation d)) then
        match severity_by (label w (d_situation d)) with Some who => if by_model who then None else Some who | None => None end
      else None in
    match overruled with
    | Some who => Some (MkVerdict false now who)
    | None =>
        match situation_gestures_after (d_situation d) (d_at d) w with
        | [] => None
        | first :: _ as after =>
            Some (MkVerdict (negb (existsb (fun e => bool_decide (kind_of e ∈ contradicting (d_grade d)))
                                     (situation_gestures_after (d_situation d) (d_at d) w))) now (default "" (ev_actor first)))
        end
    end.

Definition set_verdict (v : Verdict) (d : DecisionRow) : DecisionRow :=
  MkDecision (d_situation d) (d_grade d) (d_decider d) (d_confidence d) (stale_cleared d) (d_at d) (Some v).

(** The newest 500 that are pending; a verdict once given stays. Verdicts are not read by other verdicts. *)
Fixpoint judge_newest (n : nat) (now : float) (w : Appliance) (newest_first : list DecisionRow) : list DecisionRow :=
  match newest_first, n with
  | d :: l, S n' =>
      match d_verdict d with
      | Some _ => d :: judge_newest n now w l
      | None => (match verdict_on d now w with Some v => set_verdict v d | None => d end) :: judge_newest n' now w l
      end
  | l, _ => l
  end.
Definition judge (now : float) (w : Appliance) : Appliance :=
  with_decisions (reverse (judge_newest 500 now w (reverse (decisions w)))) w.

(** ** Acts *)

(** [_record]: the decision and its line in the audit log. *)
Definition clamp01 (x : float) : float := clamp x.
Definition grade_name (g : Grade) : string :=
  match g with Grouping => "grouping" | Naming_ => "naming" | Closing => "closing" | Severity => "severity" end.
Definition record (sid : Z) (g : Grade) (confidence : float) (stale : list Z) (now : float) (w : Appliance) : Appliance :=
  write_event (MkLine (model_ref w) ("autonomy." +:+ grade_name g) (Some sid))
    (with_decisions (decisions w ++ [MkDecision sid g (the_decider w) (clamp01 confidence) stale now None]) w).

Section acts.
Context (exp : float -> float) (pack_name : string -> option string).

(** [_p]: [min] and [max] keep their first argument unless the second is beyond it. *)
Definition link_probability (score : float) : float :=
  let m := if fltb score (f_of_Z 700) then score else f_of_Z 700 in
  let z := if fltb (f_of_Z (- 700)) m then m else f_of_Z (- 700) in
  fdiv f_one (fadd f_one (exp (fopp z))).

(** The confidence of [_grouping_evidence]: the weakest link's. *)
Definition grouping_confidence (links : list LinkRow) : float :=
  match sort_by (fun a b => fleb (lk_score a) (lk_score b)) links with
  | [] => f_zero
  | weakest :: _ => link_probability (lk_score weakest)
  end.

Definition with_eng (e : Engine) (w : Appliance) : Appliance := with_node (with_engine e (node w)) w.

Definition confident (s : Settings) (members : list MemberRow) (confidence : float) : bool :=
  Nat.leb 2 (length members) && fleb (confidence_floor s) confidence.

Definition act_grouping (s : Settings) (row : CandidateRow) (done : list Grade) (members : list MemberRow) (confidence now : float)
    (w : Appliance) : Z * Appliance :=
  if s_grouping s && bool_decide (Grouping ∉ done) && String.eqb (c_status row) "new" && confident s members confidence
  then (1, record (c_id row) Grouping confidence [] now (with_eng (promoted (c_id row) now "autonomy" (eng w)) w))
  else (0, w).

(** [_class_name]: the pack's, or the last two arcs; an OID of one arc is an [IndexError]. *)
Definition class_name (oid : string) : option string :=
  match pack_name oid with
  | Some n => Some n
  | None => match reverse (PyLib.split "." oid) with l :: p :: _ => Some (p +:+ "." +:+ l) | _ => None end
  end.

(** [Counter(names).most_common(1)]: the first of the most frequent. *)
Definition count_of (x : string) (l : list string) : nat := length (filter (fun y => y = x) l).
Definition most_common (names : list string) : option (string * nat) :=
  match names with
  | [] => None
  | x :: l => Some (foldl (fun best y => if Nat.ltb best.2 (count_of y names) then (y, count_of y names) else best) (x, count_of x names) l)
  end.

Definition middle_dot : string := String (Ascii.ascii_of_nat 183) EmptyString.
(** [_name]; of members there is at least one. *)
Definition name (members : list MemberRow) : option string :=
  names ← mapM (fun m => class_name (class_oid m)) members;
  '(top, count) ← most_common names;
  let devices := sort_by string_leb (base.elements (list_to_set (map device_ip members) : gset string)) in
  first ← head devices;
  let root := default first (device_ip <$> List.find is_root members) in
  let more := if Nat.ltb 1 (length devices) then " (+" +:+ pretty (Z.of_nat (length devices) - 1) +:+ " elements)" else "" in
  Some (PyLib.clip 120 (top +:+ " x" +:+ pretty (Z.of_nat count) +:+ " " +:+ middle_dot +:+ " " +:+ root +:+ more)).

(** [set_situation_name_by_model]. *)
Definition set_situation_name_by_model (sid : Z) (n : string) (w : Appliance) : bool * Appliance :=
  let l := label w sid in
  if bool_decide (is_Some (rows_of w !! sid)) && bool_decide (operator_name l = None) && bool_decide (model_name l = None)
  then (true, set_label sid (MkLabel None (Some n) (severity l) (severity_by l)) w) else (false, w).

Definition act_naming (s : Settings) (row : CandidateRow) (done : list Grade) (members : list MemberRow) (confidence now : float)
    (w : Appliance) : option (Z * Appliance) :=
  if s_naming s && bool_decide (Naming_ ∉ done) && bool_decide (operator_name (c_label row) = None)
     && bool_decide (model_name (c_label row) = None) && confident s members confidence
  then
    n ← name members;
    let '(named, w) := set_situation_name_by_model (c_id row) n w in
    Some (if named then (1, record (c_id row) Naming_ confidence [] now w) else (0, w))
  else Some (0, w).

(** [_severity]: the word. *)
Definition min_list (x : Z) (l : list Z) : Z := foldl Z.min x l.
Definition severity_word (members : list MemberRow) : option string :=
  match omap (fun m => Z.max 0 <$> severity_rank m) members with
  | [] => None
  | r :: l =>
      let worst := Z.min (min_list r l) 4 in
      let spread := size (list_to_set (map device_ip members) : gset string) in
      SEVERITIES !! Z.to_nat (if Nat.leb SPREAD_ELEMENTS spread && (0 <? worst) && (worst <? 4) then worst - 1 else worst)
  end.

Definition set_situation_severity (sid : Z) (word by_ : string) (w : Appliance) : Appliance :=
  let l := label w sid in set_label sid (MkLabel (operator_name l) (model_name l) (Some word) (Some by_)) w.

Definition act_severity (s : Settings) (row : CandidateRow) (members : list MemberRow) (now : float) (w : Appliance) : Z * Appliance :=
  if s_severity s && match severity_by (c_label row) with None => true | Some who => by_model who end then
    match severity_word members with
    | Some word =>
        if bool_decide (severity (c_label row) = Some word) then (0, w)
        else
          let placed := length (filter (fun m => is_Some (severity_rank m)) members) in
          (1, record (c_id row) Severity (fdiv (f_of_Z (Z.of_nat placed)) (f_of_Z (Z.of_nat (length members)))) [] now
                (set_situation_severity (c_id row) word (model_ref w) w))
    | None => (0, w)
    end
  else (0, w).

(** [manual_clear_alarm]. *)
Definition hand_cleared (ts : float) (a : AlarmRow) : AlarmRow :=
  MkAlarmRow (al_id a) (al_entity a) false (al_flapping a) (al_count a) (al_first_seen a) (al_last_seen a) (Some ts) (al_varbinds a)
    (al_community a) (al_severity a) (al_severity_rank a) (al_severity_source a).
Definition manual_clear_alarm (id : Z) (ts : float) (t : AlarmTable) : bool * AlarmTable :=
  (bool_decide (id ∈ active_ids t),
   MkAlarms ((fun a => if (al_id a =? id) && al_active a then hand_cleared ts a else a) <$> alarms t) (next_alarm t)).

(** Each quiet alarm: cleared, out of the correlator's window, and a gesture of the model's. *)
Definition clear_one (sid : Z) (now : float) (w : Appliance) (m : MemberRow) : Appliance :=
  let '(was, t) := manual_clear_alarm (m_alarm m) now (table (node w)) in
  if was then
    let w := with_node (with_table t (node w)) w in
    add_event (MkEvent sid "manual_clear" (Some (model_ref w)) now None) (with_eng (cleared (m_alarm m) (eng w)) w)
  else w.

(** The row first, then the maps. *)
Definition resolve_by_hand (sid : Z) (ts : float) (e : Engine) : Engine :=
  forget_situation sid (with_db (resolve_situation sid "manual_clear" ts (db e)).2 e).

(** The classes with a clear of their own. *)
Definition clearable (w : Appliance) : gset Z :=
  dom (raise_to_clear (pairs (knowledge (node w)))) ∪ set_map fst (dom (clear_value (states (knowledge (node w))))).

(** [_close]. *)
Definition act_close (sid : Z) (members : list MemberRow) (now : float) (w : Appliance) : Z * Appliance :=
  let still := filter (fun m => m_active m = true) members in
  let n_cleared := (length members - length still)%nat in
  if Nat.eqb (length still) 0 || Nat.eqb n_cleared 0 || existsb (fun m => bool_decide (m_class m ∈ clearable w)) still then (0, w)
  else
    let w := foldl (clear_one sid now) w still in
    let w := if has_active sid (db (eng w)) then w else with_eng (resolve_by_hand sid now (eng w)) w in
    (1, record sid Closing (fdiv (f_of_Z (Z.of_nat n_cleared)) (f_of_Z (Z.of_nat (length members)))) (map m_alarm still) now w).

Definition act_closing (s : Settings) (row : CandidateRow) (done : list Grade) (members : list MemberRow) (now : float) (w : Appliance) : Z * Appliance :=
  if s_closing s && bool_decide (Closing ∉ done) && fleb (c_updated row) (fsub now STALE_S) then act_close (c_id row) members now w else (0, w).

(** [_act]: how many acts, or a failure. *)
Definition act (s : Settings) (row : CandidateRow) (now : float) (w : Appliance) : option (Z * Appliance) :=
  let dec := default "" (c_decider row) in
  if String.eqb dec "" || additive dec then Some (0, w)
  else
    let done := done_of (c_id row) w in
    let confidence := grouping_confidence (situation_link_scores (c_id row) w) in
    let members := situation_profile (c_id row) w in
    let '(a, w) := act_grouping s row done members confidence now w in
    '(b, w) ← act_naming s row done members confidence now w;
    let '(c, w) := act_severity s row members now w in
    let '(d, w) := act_closing s row done members now w in
    Some (a + b + c + d, w).

Fixpoint act_on (s : Settings) (now : float) (rows : list CandidateRow) (budget : Z) (w : Appliance) : option Appliance :=
  match rows with
  | [] => Some w
  | row :: rows => if budget <=? 0 then Some w else '(n, w) ← act s row now w; act_on s now rows (budget - n) w
  end.

(** ** The sweep *)

Definition suspend (now : float) (s : Settings) (w : Appliance) : Appliance :=
  write_event (MkLine "autonomy" "autonomy.suspend" None) (set_autonomy_row (all_off s "autonomy" "agreement" now) w).

(** Whether the agreement is below the floor; no verdict at all is a division by zero. *)
Definition disagreed (s : Settings) (verdicts : list bool) : option bool :=
  if Nat.leb (min_judged s) (length verdicts) then
    match verdicts with
    | [] => None
    | _ => Some (fltb (fdiv (f_of_Z (Z.of_nat (length (filter (fun v => v = true) verdicts)))) (f_of_Z (Z.of_nat (length verdicts)))) (agreement_floor s))
    end
  else Some false.

Definition sweep (now : float) (w : Appliance) : option Appliance :=
  let s := from_row (settings w) in
  if bool_decide (enabled s = []) then Some w
  else
    let w := judge now w in
    off ← disagreed s (recent_verdicts (verdict_window s) w);
    if off : bool then Some (suspend now s w)
    else if additive (the_decider w) then Some w
    else act_on s now (autonomy_candidates (fsub now SETTLE_S) 200 w) MAX_ACTS w.

(** ** The routes *)

Definition set_autonomy (s : Settings) (actor : string) (now : float) (w : Appliance) : Appliance :=
  write_event (MkLine actor "autonomy.set" None)
    (set_autonomy_row (MkSettings (s_grouping s) (s_naming s) (s_closing s) (s_severity s) (agreement_floor s) (verdict_window s)
                         (min_judged s) (confidence_floor s) actor (s_reason s) now) w).

Definition stop_autonomy (actor : string) (now : float) (w : Appliance) : Appliance :=
  let s := from_row (settings w) in
  if bool_decide (enabled s = []) then w
  else write_event (MkLine actor "autonomy.stop" None) (set_autonomy_row (all_off s actor "stopped from the console" now) w).

Definition situation_severity (sid : Z) (word actor : string) (w : Appliance) : Appliance :=
  write_event (MkLine actor "situation.severity" (Some sid)) (set_situation_severity sid word actor w).

(** [None] withdraws a name; no such situation is a 404. *)
Definition name_situation (sid : Z) (n : option string) (actor : string) (now : float) (w : Appliance) : option Appliance :=
  if bool_decide (is_Some (rows_of w !! sid)) then
    let l := label w sid in
    let w := set_label sid (MkLabel n (model_name l) (severity l) (severity_by l)) w in
    let w := with_eng (with_db (touch_situation sid now (db (eng w))) (eng w)) w in
    Some (write_event (MkLine actor "situation.name" (Some sid)) (add_event (MkEvent sid "rename" (Some actor) now None) w))
  else None.
End acts.

(** What the top bar shows: the grades on, whether it stopped itself, who decides, and the agreement. *)
Record Status := MkStatus {
  st_grades : list Grade; st_suspended : bool; st_set_by : string; st_decider : string; st_model_decider : bool; st_judged : nat;
  st_agreed : nat; st_rate : option float }.
Definition status_view (w : Appliance) : Status :=
  let s := from_row (settings w) in
  let verdicts := recent_verdicts (verdict_window s) w in
  let agreed := length (filter (fun v => v = true) verdicts) in
  MkStatus (enabled s) (suspended s) (set_by s) (the_decider w) (negb (additive (the_decider w))) (length verdicts) agreed
    (match verdicts with [] => None | _ => Some (fdiv (f_of_Z (Z.of_nat agreed)) (f_of_Z (Z.of_nat (length verdicts)))) end).

(** ** Its transaction ([_model_ops]) *)

(** The tables of [w] with what is in memory as the failed step left it. *)
Definition rolled_back (w failed : Appliance) : Appliance := with_eng (with_db (db (eng w)) (eng failed)) w.

(** ** What autonomy may do

    A sweep's acts, each within a grade an admin switched on, each on record and warranted by what the
    tables said when the sweep began; how many; and how it is stopped. *)

(** ** From one state of a sweep to another *)

Definition told (ds : list DecisionRow) (sid : Z) (g : Grade) : Prop := ∃ d, d ∈ ds ∧ d_situation d = sid ∧ d_grade d = g.
Definition unclaimed (by_ : option string) : Prop := match by_ with None => True | Some who => by_model who = true end.
Abbreviation status_in w sid := (status_of (db (eng w)) sid).
Abbreviation alarm_table w := (table (node w)).

(** Alarms only stop being active. *)
Definition quieter (t t' : AlarmTable) : Prop :=
  ∀ k a', alarms t' !! k = Some a' -> ∃ a, alarms t !! k = Some a ∧ al_id a' = al_id a ∧ (al_active a' = true -> al_active a = true).

Record acted (w w' : Appliance) (ds : list DecisionRow) : Prop := {
  ac_settings : settings w' = settings w;
  ac_decisions : decisions w' = decisions w ++ ds;
  ac_links : link_rows (db (eng w')) = link_rows (db (eng w));
  ac_decider : the_decider w' = the_decider w;
  ac_knowledge : knowledge (node w') = knowledge (node w);
  ac_operator sid : operator_name (label w' sid) = operator_name (label w sid);
  ac_name sid : model_name (label w' sid) = model_name (label w sid)
                ∨ (operator_name (label w sid) = None ∧ model_name (label w sid) = None ∧ told ds sid Naming_);
  ac_severity sid : (severity (label w' sid) = severity (label w sid) ∧ severity_by (label w' sid) = severity_by (label w sid))
                    ∨ (unclaimed (severity_by (label w sid)) ∧ unclaimed (severity_by (label w' sid)) ∧ told ds sid Severity);
  ac_status sid : status_in w' sid = status_in w sid
                  ∨ (status_in w sid = Some "new" ∧ status_in w' sid = Some "open" ∧ told ds sid Grouping)
                  ∨ (live_in (db (eng w)) sid = true ∧ status_in w' sid = Some "resolved" ∧ told ds sid Closing);
  ac_table : quieter (alarm_table w) (alarm_table w');
  ac_cleared a : a ∈ active_ids (alarm_table w) -> a ∈ active_ids (alarm_table w') ∨ ∃ d, d ∈ ds ∧ d_grade d = Closing ∧ a ∈ stale_cleared d;
  ac_node : node_ok (node w) -> node_ok (node w') }.

Lemma quieter_refl t : quieter t t.
Proof. intros k a H. by exists a. Qed.

Lemma acted_refl w : acted w w [].
Proof. split; try done; try (intros; by left); [by rewrite app_nil_r|apply quieter_refl]. Qed.

Lemma told_l ds ds' sid g : told ds sid g -> told (ds ++ ds') sid g.
Proof. intros (d & H & ?). exists d. split; [|done]. apply elem_of_app. by left. Qed.
Lemma told_r ds ds' sid g : told ds' sid g -> told (ds ++ ds') sid g.
Proof. intros (d & H & ?). exists d. split; [|done]. apply elem_of_app. by right. Qed.
#[local] Hint Resolve told_l told_r : noc.

Lemma acted_trans w1 w2 w3 ds ds' : acted w1 w2 ds -> acted w2 w3 ds' -> acted w1 w3 (ds ++ ds').
Proof.
  intros [A1 A2 A3 A4 A5 A6 A7 A8 A9 A10 A11 A12] [B1 B2 B3 B4 B5 B6 B7 B8 B9 B10 B11 B12]. split.
  - congruence.
  - by rewrite B2, A2, app_assoc.
  - congruence.
  - congruence.
  - congruence.
  - intros sid. by rewrite B6.
  - intros sid. destruct (A7 sid) as [E|(E1 & E2 & E3)], (B7 sid) as [F|(F1 & F2 & F3)]; [left; congruence|right|right; auto with noc..].
    rewrite A6 in F1. rewrite E in F2. auto with noc.
  - intros sid. destruct (A8 sid) as [[E E']|(E1 & E2 & E3)], (B8 sid) as [[F F']|(F1 & F2 & F3)]; [left; split; congruence|right..]; split_and!; auto with noc.
    + by rewrite <- E'.
    + by rewrite F'.
  - intros sid. destruct (B9 sid) as [F|[(F1 & F2 & F3)|(F1 & F2 & F3)]].
    + rewrite F. destruct (A9 sid) as [?|[(? & ? & ?)|(? & ? & ?)]]; [by left|right; left|right; right]; auto with noc.
    + destruct (A9 sid) as [E|[(? & E & ?)|(? & E & ?)]]; [right; left; rewrite <- E; auto with noc|congruence..].
    + right. right. split_and!; [|done|by auto with noc]. unfold live_in in F1 |- *.
      destruct (A9 sid) as [E|[(E & ? & ?)|(E & E' & ?)]]; [by rewrite <- E|by rewrite E|]. by rewrite E' in F1.
  - intros k a'' (a' & H' & E' & G')%B10. destruct (A10 k a' H') as (a & H & E & G). exists a. split_and!; [done|congruence|auto].
  - intros a [H|(d & H & ?)]%A11; [destruct (B11 a H) as [?|(d & Hd & ?)]; [by left|]|]; right; exists d; (split; [|done]); apply elem_of_app; auto.
  - auto.
Qed.

(** A row is written of its situation only. *)
Lemma label_set sid l w sid' : label (set_label sid l w) sid' = label w sid' ∨ sid' = sid ∧ label (set_label sid l w) sid' = l.
Proof.
  unfold set_label. case_bool_decide; [|by left]. unfold label. cbn. destruct (decide (sid' = sid)) as [->|Hn].
  - right. by rewrite lookup_insert_eq.
  - left. by rewrite lookup_insert_ne.
Qed.

Lemma set_label_rest sid l w :
  let w' := set_label sid l w in
  node w' = node w ∧ settings w' = settings w ∧ decisions w' = decisions w ∧ events w' = events w.
Proof. unfold set_label. by case_bool_decide. Qed.

Lemma label_record sid g c stale now w sid' : label (record sid g c stale now w) sid' = label w sid'.
Proof. done. Qed.

(** The decision that is recorded. *)
Definition on_record (sid : Z) (g : Grade) (confidence : float) (stale : list Z) (now : float) (w : Appliance) : DecisionRow :=
  MkDecision sid g (the_decider w) (clamp01 confidence) stale now None.
Lemma told_one sid g c stale now w : told [on_record sid g c stale now w] sid g.
Proof. eexists. split; [by left|done]. Qed.

Lemma grouping_acted s row done members confidence now w :
  status_in w (c_id row) = Some (c_status row) ->
  let '(n, w') := act_grouping s row done members confidence now w in
  ∃ ds, acted w w' ds ∧ n = Z.of_nat (length ds)
    ∧ (ds = [] ∨ ds = [on_record (c_id row) Grouping confidence [] now w] ∧ s_grouping s = true ∧ c_status row = "new"
                 ∧ fleb (confidence_floor s) confidence = true).
Proof.
  intros Hst. unfold act_grouping. destruct (_ && _) eqn:G; [|exists []; split_and!; [apply acted_refl|done|by left]].
  apply andb_true_iff in G as [[[G1 _]%andb_true_iff G2%String.eqb_eq]%andb_true_iff [_ G3]%andb_true_iff].
  exists [on_record (c_id row) Grouping confidence [] now w]. split_and!; [|done|by right].
  unfold promoted, promote_situation. rewrite bool_decide_true by (vm_compute; set_solver).
  cbn [default]. split; try done; try (intros; by left).
  - intros sid. destruct (decide (sid = c_id row)) as [->|Hn]; [right; left|left].
    + split_and!; [by rewrite Hst, G2| |apply told_one]. unfold status_of, update. cbn. rewrite lookup_alter_eq.
      unfold status_of in Hst. destruct (situations _ !! c_id row) as [x|]; [|done]. cbn in Hst |- *. injection Hst as ->. rewrite G2. by rewrite bool_decide_true by set_solver.
    + unfold status_of, update. cbn. by rewrite lookup_alter_ne.
  - apply quieter_refl.
  - intros H. apply (node_engine (promoted (c_id row) now "autonomy" (eng w))) in H; [|by apply sound_promoted, H|done..|].
    + unfold promoted, promote_situation in H. rewrite bool_decide_true in H by (vm_compute; set_solver). done.
    + intros b a Hb. by apply (no_rows _ H b).
Qed.

Lemma naming_acted pack_name s row done members confidence now w :
  match act_naming pack_name s row done members confidence now w with
  | None => True
  | Some (n, w') =>
    ∃ ds, acted w w' ds ∧ n = Z.of_nat (length ds)
      ∧ (ds = [] ∨ ds = [on_record (c_id row) Naming_ confidence [] now w] ∧ s_naming s = true
                   ∧ fleb (confidence_floor s) confidence = true
                   ∧ operator_name (label w (c_id row)) = None ∧ model_name (label w (c_id row)) = None)
  end.
Proof.
  unfold act_naming. destruct (_ && _) eqn:G; [|exists []; split_and!; [apply acted_refl|done|by left]].
  apply andb_true_iff in G as [[[[G1 _]%andb_true_iff _]%andb_true_iff _]%andb_true_iff [_ G3]%andb_true_iff].
  destruct (name pack_name members) as [n|]; [|done]. cbn [mbind option_bind].
  unfold set_situation_name_by_model. destruct (_ && _) eqn:G; [|exists []; split_and!; [apply acted_refl|done|by left]].
  apply andb_true_iff in G as [[_ G4%bool_decide_eq_true]%andb_true_iff G5%bool_decide_eq_true].
  set (l := MkLabel _ _ _ _). destruct (set_label_rest (c_id row) l w) as (E1 & E2 & E3 & _).
  exists [on_record (c_id row) Naming_ confidence [] now w]. split_and!; [|done|by right].
  split; unfold eng, the_decider, eng; cbn; rewrite ?E1, ?E2, ?E3; try done; try (intros; by left); try apply quieter_refl.
  - by unfold on_record, the_decider, eng; rewrite E1.
  - intros sid. rewrite label_record. destruct (label_set (c_id row) l w sid) as [->|[-> ->]]; [done|by rewrite G4].
  - intros sid. rewrite label_record. destruct (label_set (c_id row) l w sid) as [->|[-> _]]; [by left|right]. split_and!; [done..|apply told_one].
  - intros sid. left. rewrite label_record. destruct (label_set (c_id row) l w sid) as [->|[-> ->]]; done.
Qed.

Lemma by_model_ref w : by_model (model_ref w) = true.
Proof. unfold by_model, model_ref. cbn. by destruct (the_decider w). Qed.

Lemma severity_acted s row members now w :
  severity_by (c_label row) = severity_by (label w (c_id row)) ->
  let '(n, w') := act_severity s row members now w in
  ∃ ds, acted w w' ds ∧ n = Z.of_nat (length ds)
    ∧ (ds = [] ∨ (∃ c, ds = [on_record (c_id row) Severity c [] now w]) ∧ s_severity s = true
                 ∧ unclaimed (severity_by (label w (c_id row)))).
Proof.
  intros Hby. unfold act_severity. rewrite Hby.
  assert (∀ n : Z, n = 0 -> ∃ ds, acted w w ds ∧ n = Z.of_nat (length ds)
    ∧ (ds = [] ∨ (∃ c, ds = [on_record (c_id row) Severity c [] now w]) ∧ s_severity s = true
                 ∧ unclaimed (severity_by (label w (c_id row))))) as idle.
  { intros n ->. exists []. split_and!; [apply acted_refl|done|by left]. }
  destruct (_ && _) eqn:G; [|by apply idle]. destruct (severity_word members) as [word|]; [|by apply idle].
  case_bool_decide; [by apply idle|]. apply andb_true_iff in G as [G1 G2].
  assert (unclaimed (severity_by (label w (c_id row)))) as Hu by (by destruct (severity_by (label w (c_id row)))).
  unfold set_situation_severity. set (l := MkLabel _ _ _ _). set (c := fdiv _ _).
  destruct (set_label_rest (c_id row) l w) as (E1 & E2 & E3 & _).
  exists [on_record (c_id row) Severity c [] now w]. split_and!; [|done|right; eauto].
  split; unfold eng, the_decider, eng; cbn; rewrite ?E1, ?E2, ?E3; try done; try (intros; by left); try apply quieter_refl.
  - by unfold on_record, the_decider, eng; rewrite E1.
  - intros sid. rewrite label_record. destruct (label_set (c_id row) l w sid) as [->|[-> ->]]; done.
  - intros sid. left. rewrite label_record. destruct (label_set (c_id row) l w sid) as [->|[-> ->]]; done.
  - intros sid. rewrite label_record. destruct (label_set (c_id row) l w sid) as [E|[-> E]]; [left; by rewrite E|right].
    split_and!; [done|rewrite E; apply by_model_ref|apply told_one].
Qed.

(** *** Closing *)

Lemma hand_clear_ok id ts t : PipelineLaws.table_ok t -> PipelineLaws.table_ok (manual_clear_alarm id ts t).2.
Proof.
  intros [Hf Ho].
  assert (Hid : ∀ k a, alarms (manual_clear_alarm id ts t).2 !! k = Some a -> ∃ a0, alarms t !! k = Some a0 ∧ al_id a0 = al_id a).
  { intros k a H. cbn in H. apply lookup_fmap_Some in H as (a0 & <- & H). exists a0. split; [done|]. by case_match. }
  split.
  - intros k a (a0 & H & <-)%Hid. by eapply Hf.
  - intros k k' a a' (a0 & H & <-)%Hid (a0' & H' & <-)%Hid. by apply Ho.
Qed.

Lemma hand_clear_quieter id ts t : quieter t (manual_clear_alarm id ts t).2.
Proof. intros k a' H. cbn in H. apply lookup_fmap_Some in H as (a & <- & H). exists a. split_and!; [done|by case_match|by case_match]. Qed.

Lemma hand_clear_active id ts t a : a ∈ active_ids t -> a = id ∨ a ∈ active_ids (manual_clear_alarm id ts t).2.
Proof.
  intros (k & r & Hk & Ha & <-)%elem_active_ids. destruct (decide (al_id r = id)) as [|Hn]; [by left|right].
  apply elem_active_ids. exists k, r. split_and!; [|done..]. cbn. rewrite lookup_fmap, Hk. cbn. by rewrite (proj2 (Z.eqb_neq _ _) Hn).
Qed.

(** What the closing of a situation does before its decision is recorded. *)
Record closing_of (sid : Z) (stale : list Z) (w w' : Appliance) : Prop := {
  cl_labels : labels w' = labels w; cl_settings : settings w' = settings w; cl_decisions : decisions w' = decisions w;
  cl_links : link_rows (db (eng w')) = link_rows (db (eng w)); cl_decider : the_decider w' = the_decider w;
  cl_knowledge : knowledge (node w') = knowledge (node w);
  cl_status i : status_in w' i = status_in w i ∨ i = sid ∧ live_in (db (eng w)) i = true ∧ status_in w' i = Some "resolved";
  cl_table : quieter (alarm_table w) (alarm_table w');
  cl_active a : a ∈ active_ids (alarm_table w) -> a ∈ stale ∨ a ∈ active_ids (alarm_table w');
  cl_node : node_ok (node w) -> node_ok (node w') }.

Lemma clear_one_closing sid now w m : closing_of sid [m_alarm m] w (clear_one sid now w m).
Proof.
  unfold clear_one. pose proof (hand_clear_ok (m_alarm m) now (alarm_table w)) as Hok.
  pose proof (hand_clear_quieter (m_alarm m) now (alarm_table w)) as Hq. pose proof (hand_clear_active (m_alarm m) now (alarm_table w)) as Ha.
  destruct (manual_clear_alarm (m_alarm m) now (alarm_table w)) as [was t] eqn:E. destruct was.
  - split; try done; cbn.
    + by left.
    + intros a [->|H]%Ha; [left; by left|by right].
    + intros H. apply (node_cleared (m_alarm m) (with_table t (node w))), node_table; [by apply Hok, H| |done].
      unfold manual_clear_alarm in E. by injection E as _ <-.
  - split; try done; [by left|apply quieter_refl|by right].
Qed.

Lemma closing_trans sid l l' w1 w2 w3 : closing_of sid l w1 w2 -> closing_of sid l' w2 w3 -> closing_of sid (l ++ l') w1 w3.
Proof.
  intros [A1 A2 A3 A4 A5 A6 A7 A8 A9 A10] [B1 B2 B3 B4 B5 B6 B7 B8 B9 B10]. split; try congruence; auto.
  - intros i. destruct (A7 i) as [E|(Ei & E1 & E2)], (B7 i) as [F|(Fi & F1 & F2)].
    + left. congruence.
    + right. split_and!; [done| |done]. unfold live_in in *. by rewrite <- E.
    + right. split_and!; [done..|congruence].
    + by right.
  - intros k a'' (a' & H' & E' & G')%B8. destruct (A8 k a' H') as (a & H & E & G). exists a. split_and!; [done|congruence|auto].
  - intros a [H|[H|H]%B9]%A9; [left|left|by right]; apply elem_of_app; auto.
Qed.

Lemma clears_closing sid now l w : closing_of sid (map m_alarm l) w (foldl (clear_one sid now) w l).
Proof.
  revert w. induction l as [|m l IH]; intros w; cbn [foldl map].
  - split; try done; [by left|apply quieter_refl|by right].
  - apply (closing_trans sid [m_alarm m] _ w (clear_one sid now w m)); [apply clear_one_closing|apply IH].
Qed.

Lemma forget_untracked sid e : members e !! sid = None -> quiet_write e (forget_situation sid e).
Proof.
  intros H. unfold forget_situation, list_of. rewrite H. cbn. unfold with_maps. cbn. rewrite delete_id by done. by destruct e.
Qed.

Lemma sound_resolved sid ts e : sound e -> sound (resolve_by_hand sid ts e).
Proof.
  intros H. pose proof H as (A & P & S). destruct (live_in (db e) sid) eqn:E.
  - assert (resolve_by_hand sid ts e = resolve_and_forget sid "manual_clear" ts e) as ->.
    { unfold resolve_by_hand, resolve_and_forget, resolve_situation. by rewrite E. }
    destruct (agree_resolve sid "manual_clear" ts e A P). split_and!; [done..|].
    unfold resolve_and_forget, resolve_situation. rewrite E. by apply (sane_resolve sid "manual_clear" ts (db e)).
  - unfold resolve_by_hand, resolve_situation, resolve_where. rewrite E. cbn [snd].
    assert (with_db (db e) e = e) as -> by (by destruct e).
    apply (sound_quiet e); [|done..]. apply forget_untracked. destruct (members e !! sid) eqn:Em; [|done].
    assert (live_in (db e) sid = true) by (apply (ag_live _ A); by rewrite Em). congruence.
Qed.

Lemma resolve_db sid ts e : db (resolve_by_hand sid ts e) = resolve_where sid "manual_clear" ts (db e).
Proof. done. Qed.
Lemma resolve_where_rest sid res ts d :
  link_rows (resolve_where sid res ts d) = link_rows d ∧ active (resolve_where sid res ts d) = active d
  ∧ situation_alarm (resolve_where sid res ts d) = situation_alarm d.
Proof. unfold resolve_where. by destruct (live_in d sid). Qed.

Lemma resolve_closing sid now w : closing_of sid [] w (with_eng (resolve_by_hand sid now (eng w)) w).
Proof.
  destruct (resolve_where_rest sid "manual_clear" now (db (eng w))) as (R1 & R2 & R3).
  split; try done.
  - intros i. change (db (eng (with_eng ?e w))) with (db e). rewrite resolve_db. unfold resolve_where.
    destruct (live_in (db (eng w)) sid) eqn:E; [|by left]. destruct (decide (i = sid)) as [->|Hn]; [right|left].
    + split_and!; [done..|]. unfold live_in in E. unfold status_of, update in *. cbn. rewrite lookup_alter_eq.
      by destruct (situations (db (eng w)) !! sid).
    + unfold status_of, update. cbn. by rewrite lookup_alter_ne.
  - apply quieter_refl.
  - by right.
  - intros H. apply (node_engine (resolve_by_hand sid now (eng w))); [done|by apply sound_resolved, H|done|..].
    + unfold resolve_by_hand. cbn. apply mode_forget.
    + intros b a Hb. apply (no_rows _ H b). rewrite resolve_db, R3 in Hb. done.
Qed.

Lemma quiet_members sid w m : m ∈ situation_profile sid w -> m_active m = true ->
  ∃ k a, alarms (alarm_table w) !! k = Some a ∧ al_id a = m_alarm m ∧ al_active a = true ∧ k.1.2 = m_class m.
Proof.
  unfold situation_profile. destruct (rows_of w !! sid) as [s|]; [|by intros ?%not_elem_of_nil].
  intros ([[[ne class] i] a] & Hin & H)%elem_of_sort_by%list_elem_of_omap Ha.
  exists (ne, class, i), a. apply elem_of_map_to_list in Hin. unfold member_row in H. case_bool_decide; [|done].
  destruct (name_of class _) as [oid|]; [|done]. destruct (name_of ne _) as [ip|]; [|done]. cbn in H. injection H as <-. by split_and!.
Qed.

(** An alarm that is on, in the table, of a class without a clear of its own. *)
Definition stuck (w : Appliance) (a : Z) : Prop :=
  ∃ k r, alarms (alarm_table w) !! k = Some r ∧ al_id r = a ∧ al_active r = true ∧ k.1.2 ∉ clearable w.

Lemma closing_acted s row done members now w0 w :
  members = situation_profile (c_id row) w0 -> knowledge (node w) = knowledge (node w0) ->
  let '(n, w') := act_closing s row done members now w in
  ∃ ds, acted w w' ds ∧ n = Z.of_nat (length ds)
    ∧ (ds = [] ∨ (∃ c stale, ds = [on_record (c_id row) Closing c stale now w] ∧ (∀ a, a ∈ stale -> stuck w0 a)) ∧ s_closing s = true
                 ∧ fleb (c_updated row) (fsub now STALE_S) = true).
Proof.
  intros Em Ek. assert (∃ ds, acted w w ds ∧ 0 = Z.of_nat (length ds)
    ∧ (ds = [] ∨ (∃ c stale, ds = [on_record (c_id row) Closing c stale now w] ∧ (∀ a, a ∈ stale -> stuck w0 a)) ∧ s_closing s = true
                 ∧ fleb (c_updated row) (fsub now STALE_S) = true)) as idle.
  { exists []. split_and!; [apply acted_refl|done|by left]. }
  unfold act_closing. destruct (_ && _) eqn:G; [|exact idle]. apply andb_true_iff in G as [[G1 _]%andb_true_iff G2].
  unfold act_close. set (still := filter _ members). destruct (_ || _) eqn:K; [exact idle|]. clear idle.
  apply orb_false_iff in K as [_ K]. set (sid := c_id row).
  set (w1 := foldl (clear_one sid now) w still). pose proof (clears_closing sid now still w) as C1. fold w1 in C1.
  assert (closing_of sid (map m_alarm still) w (if has_active sid (db (eng w1)) then w1 else with_eng (resolve_by_hand sid now (eng w1)) w1)) as C.
  { destruct (has_active sid (db (eng w1))); [done|]. rewrite <- (app_nil_r (map m_alarm still)).
    apply (closing_trans sid _ [] w w1); [done|apply resolve_closing]. }
  revert C. generalize (if has_active sid (db (eng w1)) then w1 else with_eng (resolve_by_hand sid now (eng w1)) w1).
  clear C1. intros w' [A1 A2 A3 A4 A5 A6 A7 A8 A9 A10]. set (c := fdiv _ _).
  exists [on_record sid Closing c (map m_alarm still) now w]. split_and!; [|done|right; split_and!; [|done..]].
  - assert (∀ i, label (record sid Closing c (map m_alarm still) now w') i = label w i) as El by (intros i; unfold label; cbn; by rewrite A1).
    split; try done.
    + cbn. rewrite A3. unfold on_record. by rewrite A5.
    + intros i. by rewrite El.
    + intros i. left. by rewrite El.
    + intros i. left. by rewrite El.
    + intros i. destruct (A7 i) as [E|(-> & E1 & E2)]; [by left|]. right. right. split_and!; [done..|apply told_one].
    + intros a [Hs|Ha]%A9; [|by left]. right. exists (on_record sid Closing c (map m_alarm still) now w). split_and!; [by left|done..].
  - exists c, (map m_alarm still). split; [done|]. intros a (m & -> & [Ha Hm]%list_elem_of_filter)%list_elem_of_fmap.
    rewrite Em in Hm. destruct (quiet_members _ _ _ Hm Ha) as (k & r & Hk & Er & Hr & Ec). exists k, r. split_and!; [done..|].
    rewrite Ec. intros Hc. unfold clearable in Hc. rewrite <- Ek in Hc. apply not_true_iff_false in K. apply K, existsb_exists. exists m. split.
    + apply list_elem_of_In, list_elem_of_filter. by rewrite Em.
    + by apply bool_decide_eq_true.
Qed.

(** ** One situation *)

Lemma stuck_before w0 w ds a : acted w0 w ds -> stuck w a -> stuck w0 a.
Proof.
  intros H (k & r & Hk & <- & Hr & Hc). destruct (ac_table _ _ _ H k r Hk) as (r0 & H0 & E & Ha). exists k, r0.
  split_and!; [done..|auto|]. unfold clearable in *. by rewrite <- (ac_knowledge _ _ _ H).
Qed.

Lemma untold_same w0 w ds sid :
  acted w0 w ds -> (∀ d, d ∈ ds -> d_situation d ≠ sid) ->
  status_in w sid = status_in w0 sid ∧ label w sid = label w0 sid.
Proof.
  intros H Hn. assert (∀ g, ¬ told ds sid g) as Ht by (intros g (d & Hd & E & _); by apply (Hn d)).
  split.
  - destruct (ac_status _ _ _ H sid) as [E|[(_ & _ & F)|(_ & _ & F)]]; [done|by destruct (Ht Grouping)|by destruct (Ht Closing)].
  - pose proof (ac_operator _ _ _ H sid). destruct (ac_name _ _ _ H sid) as [En|(_ & _ & F)]; [|by destruct (Ht Naming_)].
    destruct (ac_severity _ _ _ H sid) as [[Es Eb]|(_ & _ & F)]; [|by destruct (Ht Severity)].
    destruct (label w sid), (label w0 sid). cbn in *. congruence.
Qed.

Lemma candidate_row before n w row :
  row ∈ autonomy_candidates before n w ->
  ∃ x, rows_of w !! c_id row = Some x ∧ c_status row = status x ∧ c_updated row = updated_at x ∧ c_decider row = decider x
    ∧ c_label row = label w (c_id row) ∧ LIVE (status x) = true ∧ fleb (created_at x) before = true.
Proof.
  unfold autonomy_candidates. intros [i [H%list_elem_of_lookup_2 _]%lookup_take_Some]%list_elem_of_lookup. clear i.
  apply elem_of_sort_by, list_elem_of_omap in H as ([i x] & Hin%elem_of_map_to_list & H). cbn in H.
  destruct (_ && _) eqn:E; [|done]. injection H as <-. apply andb_true_iff in E as [? ?]. exists x. by split_and!.
Qed.

Section sweep.
Context (exp : float -> float) (pack_name : string -> option string).

(** What allowed an act, by the tables a sweep began with. *)
Definition warranted (s : Settings) (now : float) (w : Appliance) (d : DecisionRow) : Prop :=
  let sid := d_situation d in
  let sure := fleb (confidence_floor s) (grouping_confidence exp (situation_link_scores sid w)) = true in
  grade_on s (d_grade d) = true ∧ d_at d = now ∧ d_verdict d = None ∧ d_decider d = the_decider w
  ∧ ∃ row dec, rows_of w !! sid = Some row ∧ LIVE (status row) = true ∧ fleb (created_at row) (fsub now SETTLE_S) = true
    ∧ decider row = Some dec ∧ dec ≠ "" ∧ additive dec = false
    ∧ match d_grade d with
      | Grouping => status row = "new" ∧ sure
      | Naming_ => operator_name (label w sid) = None ∧ model_name (label w sid) = None ∧ sure
      | Severity => unclaimed (severity_by (label w sid))
      | Closing => fleb (updated_at row) (fsub now STALE_S) = true ∧ ∀ a, a ∈ stale_cleared d -> stuck w a
      end.

Abbreviation act := (act exp pack_name).

Lemma act_acted s row now w0 w ds0 n w' :
  acted w0 w ds0 -> (∀ d, d ∈ ds0 -> d_situation d ≠ c_id row) ->
  row ∈ autonomy_candidates (fsub now SETTLE_S) 200 w0 -> act s row now w = Some (n, w') ->
  ∃ ds, acted w w' ds ∧ n = Z.of_nat (length ds) ∧ (length ds <= 4)%nat
    ∧ Forall (fun d => d_situation d = c_id row ∧ warranted s now w0 d) ds.
Proof.
  intros H0 Hn (x & Hx & Est & Eup & Edec & Elab & Hlive & Hset)%candidate_row Hact.
  destruct (untold_same _ _ _ _ H0 Hn) as [Hs Hl].
  unfold Autonomy.act in Hact. destruct (_ || _) eqn:G.
  { injection Hact as <- <-. exists []. split_and!; [apply acted_refl|done|cbn; lia|constructor]. }
  apply orb_false_iff in G as [G1%String.eqb_neq G2]. rewrite Edec in G1, G2.
  destruct (decider x) as [dec|] eqn:Ed; [|done]. cbn [default] in G1, G2.
  set (conf := grouping_confidence exp _) in *. set (members := situation_profile (c_id row) w) in *. set (done := done_of (c_id row) w) in *.
  assert (Hc : conf = grouping_confidence exp (situation_link_scores (c_id row) w0)).
  { unfold conf, situation_link_scores. by rewrite (ac_links _ _ _ H0). }
  pose proof (grouping_acted s row done members conf now w) as A1. destruct (act_grouping _ _ _ _ _ _ _) as [a w1].
  destruct A1 as (d1 & A1 & -> & W1).
  { rewrite Hs. unfold status_of. unfold rows_of in Hx. rewrite Hx. cbn. by rewrite Est. }
  pose proof (naming_acted pack_name s row done members conf now w1) as A2.
  destruct (act_naming _ _ _ _ _ _ _ _) as [[b w2]|]; [|done]. cbn [mbind option_bind] in Hact.
  destruct A2 as (d2 & A2 & -> & W2).
  pose proof (acted_trans _ _ _ _ _ A1 A2) as A12.
  assert (T : ¬ told (d1 ++ d2) (c_id row) Severity).
  { intros (d & [Hd|Hd]%elem_of_app & _ & Hg).
    - destruct W1 as [->|(-> & _)]; [by apply not_elem_of_nil in Hd|]. by apply list_elem_of_singleton in Hd as ->.
    - destruct W2 as [->|(-> & _)]; [by apply not_elem_of_nil in Hd|]. by apply list_elem_of_singleton in Hd as ->. }
  assert (Hby : severity_by (label w2 (c_id row)) = severity_by (label w0 (c_id row))).
  { rewrite <- Hl. by destruct (ac_severity _ _ _ A12 (c_id row)) as [[_ ->]|(_ & _ & F)]. }
  pose proof (severity_acted s row members now w2) as A3. destruct (act_severity _ _ _ _ _) as [c w3].
  destruct A3 as (d3 & A3 & -> & W3); [by rewrite Hby, Elab|].
  pose proof (acted_trans _ _ _ _ _ A12 A3) as A123.
  pose proof (closing_acted s row done members now w w3) as A4. destruct (act_closing _ _ _ _ _ _) as [d w4].
  destruct A4 as (d4 & A4 & -> & W4); [done|apply (ac_knowledge _ _ _ A123)|].
  injection Hact as <- <-. exists (((d1 ++ d2) ++ d3) ++ d4).
  assert (L : ∀ (l : list DecisionRow) e, l = [] ∨ l = [e] -> (length l <= 1)%nat) by (intros ? ? [-> | ->]; cbn; lia).
  assert (length d1 <= 1 ∧ length d2 <= 1 ∧ length d3 <= 1 ∧ length d4 <= 1)%nat as (L1 & L2 & L3 & L4).
  { split_and!; [destruct W1 as [->|(-> & _)]|destruct W2 as [->|(-> & _)]|destruct W3 as [->|((? & ->) & _)]|destruct W4 as [->|((? & ? & -> & _) & _)]]; cbn; lia. }
  split_and!; [by eapply acted_trans|rewrite !length_app; lia|rewrite !length_app; lia|].
  assert (D1 : the_decider w = the_decider w0) by apply (ac_decider _ _ _ H0).
  assert (D2 : the_decider w1 = the_decider w0) by (rewrite (ac_decider _ _ _ A1); done).
  assert (D3 : the_decider w2 = the_decider w0) by (rewrite (ac_decider _ _ _ A12); done).
  assert (D4 : the_decider w3 = the_decider w0) by (rewrite (ac_decider _ _ _ A123); done).
  rewrite !Forall_app. split_and!.
  - destruct W1 as [->|(-> & Hg & Hst & Hf)]; constructor; [|constructor]. split; [done|].
    split_and!; [done..|]. exists x, dec. cbn [d_grade on_record]. split_and!; [done..|by rewrite <- Est|by rewrite Hc in Hf].
  - destruct W2 as [->|(-> & Hg & Hf & Ho & Hm)]; constructor; [|constructor]. split; [done|].
    split_and!; [done..|]. exists x, dec. cbn [d_grade on_record]. split_and!; [done..| | |by rewrite Hc in Hf].
    + cbn [d_situation on_record]. by rewrite <- Hl, <- (ac_operator _ _ _ A1).
    + cbn [d_situation on_record]. rewrite <- Hl. destruct (ac_name _ _ _ A1 (c_id row)) as [E|(_ & E & _)]; [by rewrite <- E|done].
  - destruct W3 as [->|((c & ->) & Hg & Hu)]; constructor; [|constructor]. split; [done|].
    split_and!; [done..|]. exists x, dec. cbn [d_grade on_record]. split_and!; [done..|]. by rewrite Hby in Hu.
  - destruct W4 as [->|((c & stale & -> & Hstuck) & Hg & Hup)]; constructor; [|constructor]. split; [done|].
    split_and!; [done..|]. exists x, dec. cbn [d_grade on_record]. split_and!; [done..|by rewrite <- Eup|]. intros a Ha. apply (stuck_before _ _ _ _ H0). by apply Hstuck.
Qed.
End sweep.

Lemma candidates_NoDup before n w : NoDup (map c_id (autonomy_candidates before n w)).
Proof.
  unfold autonomy_candidates. apply (sublist_NoDup _ (map c_id (sort_by newer (omap (fun e : Z * Situation =>
    if LIVE (status e.2) && fleb (created_at e.2) before
    then Some (MkCandidateRow e.1 (status e.2) (updated_at e.2) (decider e.2) (label w e.1)) else None) (map_to_list (rows_of w)))))).
  2: { apply (fmap_sublist c_id), sublist_take. }
  rewrite sort_by_perm. pose proof (NoDup_fst_map_to_list (rows_of w)) as H. revert H.
  generalize (map_to_list (rows_of w)). induction l as [|[i x] l IH]; [constructor|]. cbn [fmap list_fmap omap list_omap].
  intros [Hi Hl]%NoDup_cons. destruct (_ && _); [|by apply IH]. cbn [map c_id fst]. apply NoDup_cons. split; [|by apply IH].
  intros (r & Er & (e & He & H)%list_elem_of_omap)%list_elem_of_fmap. apply Hi, list_elem_of_fmap. exists e. split; [|done].
  destruct (_ && _); [|done]. by injection H as <-.
Qed.

Section whole.
Context (exp : float -> float) (pack_name : string -> option string).
Abbreviation act_on := (act_on exp pack_name).
Abbreviation sweep := (sweep exp pack_name).
Abbreviation warranted := (warranted exp).

Lemma act_on_acted s now w0 rows budget w ds0 w' :
  Forall (fun r => r ∈ autonomy_candidates (fsub now SETTLE_S) 200 w0) rows -> NoDup (map c_id rows) ->
  acted w0 w ds0 -> (∀ d, d ∈ ds0 -> d_situation d ∉ map c_id rows) -> act_on s now rows budget w = Some w' ->
  ∃ ds, acted w0 w' (ds0 ++ ds) ∧ Z.of_nat (length ds) <= Z.max 0 (budget + 3) ∧ Forall (warranted s now w0) ds.
Proof.
  revert budget w ds0. induction rows as [|row rows IH]; intros budget w ds0 Hr Hd H0 Hn Ha.
  - cbn in Ha. injection Ha as <-. exists []. rewrite app_nil_r. split_and!; [done|cbn; lia|constructor].
  - cbn [Autonomy.act_on] in Ha. destruct (Z.leb_spec budget 0).
    { injection Ha as <-. exists []. rewrite app_nil_r. split_and!; [done|cbn; lia|constructor]. }
    apply Forall_cons in Hr as [Hrow Hr]. cbn [map] in Hd, Hn. apply NoDup_cons in Hd as [Hnew Hd].
    destruct (act exp pack_name s row now w) as [[n w1]|] eqn:E; [|done]. cbn [mbind option_bind] in Ha.
    destruct (act_acted exp pack_name s row now w0 w ds0 n w1 H0) as (ds1 & A1 & -> & L1 & W1); [|done..|].
    { intros d Hds Ed. apply (Hn d Hds). rewrite Ed. by left. }
    destruct (IH (budget - Z.of_nat (length ds1)) w1 (ds0 ++ ds1) Hr Hd (acted_trans _ _ _ _ _ H0 A1)) as (ds2 & A2 & L2 & W2).
    { intros d [Hds|Hds]%elem_of_app; [intros Hin; apply (Hn d Hds); by right|].
      rewrite Forall_forall in W1. by destruct (W1 d Hds) as [-> _]. }
    { exact Ha. }
    exists (ds1 ++ ds2). rewrite app_assoc. split_and!; [done|rewrite length_app; lia|].
    apply Forall_app. split; [|done]. eapply Forall_impl; [exact W1|]. by intros ? [].
Qed.

(** Judging touches nothing but verdicts, and a verdict given stays. *)
Lemma judge_same now w :
  let w' := judge now w in
  node w' = node w ∧ labels w' = labels w ∧ settings w' = settings w ∧ events w' = events w
  ∧ Forall2 (fun d d' => d' = d ∨ d_verdict d = None ∧ ∃ v, verdict_on d now w = Some v ∧ d' = set_verdict v d) (decisions w) (decisions w').
Proof.
  split_and!; try done. cbn. rewrite <- (reverse_involutive (decisions w)) at 1. apply Forall2_reverse.
  assert (∀ n l, Forall2 (fun d d' => d' = d ∨ d_verdict d = None ∧ ∃ v, verdict_on d now w = Some v ∧ d' = set_verdict v d) l (judge_newest n now w l)) as G;
    [|apply G].
  intros n l. revert n. induction l as [|d l IH]; intros [|n]; cbn.
  - constructor.
  - constructor.
  - constructor; [by left|]. clear IH. induction l; constructor; [by left|done].
  - destruct (d_verdict d) eqn:E; constructor; [by left|apply IH| |apply IH]. destruct (verdict_on d now w) as [v|]; [right; eauto|by left].
Qed.

(** What a sweep does: nothing when no grade is on; it suspends itself when the judged acts agreed too
    rarely; and otherwise, once the pending acts are judged, every change is an act on record. Each
    act is of a grade the last settings switch on, by the decider in charge, on a situation that was live,
    old enough and formed by a model when the sweep began: only a new one with a confident weakest link is
    accepted as an incident, only one nobody has named is named, a severity an operator gave is not
    replaced, and only alarms that were on and whose class has no clear are cleared, in a
    situation quiet for half an hour. What is not on record has not changed: names, severities,
    statuses and alarms; and the node stays well-formed. *)
Theorem autonomy_acts_within_its_grades now w w' :
  sweep now w = Some w' ->
  let s := from_row (settings w) in
  let verdicts := recent_verdicts (verdict_window s) (judge now w) in
  (enabled s = [] ∧ w' = w)
  ∨ (enabled s ≠ [] ∧ disagreed s verdicts = Some true ∧ w' = suspend now s (judge now w))
  ∨ (enabled s ≠ [] ∧ disagreed s verdicts = Some false ∧ ∃ ds, acted (judge now w) w' ds ∧ Forall (warranted s now w) ds).
Proof.
  intros H s verdicts. unfold Autonomy.sweep in H. fold s in H. case_bool_decide as He; [left; split; [done|congruence]|right].
  fold verdicts in H. destruct (disagreed s verdicts) as [[|]|]; [..|done]; cbn [mbind option_bind] in H.
  - left. injection H as <-. done.
  - right. split_and!; [done..|]. destruct (additive _); [injection H as <-; exists []; split; [apply acted_refl|constructor]|].
    destruct (act_on_acted s now (judge now w) _ _ _ [] w' ltac:(by apply Forall_forall) (candidates_NoDup _ _ _) (acted_refl _)
      ltac:(by intros d ?%not_elem_of_nil) H) as (ds & A & _ & W). exists ds. split; [exact A|exact W].
Qed.

(** C35: A sweep records at most 53 acts: it starts a situation while any of its fifty is left, and a
    situation takes up to four. *)
Theorem a_sweep_is_bounded now w w' : sweep now w = Some w' -> (length (decisions w') <= length (decisions w) + 53)%nat.
Proof.
  unfold Autonomy.sweep. destruct (judge_same now w) as (_ & _ & _ & _ & Hj%Forall2_length).
  case_bool_decide; [intros [= <-]; lia|]. destruct (disagreed _ _) as [[|]|]; [..|done]; cbn [mbind option_bind].
  - intros [= <-]. change (decisions (suspend _ _ ?x)) with (decisions x). lia.
  - destruct (additive _); [intros [= <-]; lia|]. intros Ha.
    destruct (act_on_acted (from_row (settings w)) now (judge now w) _ _ _ [] w' ltac:(by apply Forall_forall) (candidates_NoDup _ _ _) (acted_refl _)
      ltac:(by intros d ?%not_elem_of_nil) Ha) as (ds & A & L & _).
    rewrite (ac_decisions _ _ _ A), length_app. unfold MAX_ACTS in L. cbn [app] in *. lia.
Qed.

(** ** Stopped until an admin starts it *)

(** What goes on beside an admin's settings: sweeps, the kill switch, the operators' severities and
    names, and anything the network, the engine and the operators do to the node and the events. *)
Inductive step (w : Appliance) : Appliance -> Prop :=
| st_sweep now w' : sweep now w = Some w' -> step w w'
| st_stop actor now : step w (stop_autonomy actor now w)
| st_severity sid word actor : step w (situation_severity sid word actor w)
| st_name sid n actor now w' : name_situation sid n actor now w = Some w' -> step w w'
| st_else n es : step w (MkAppliance n (labels w) (settings w) (decisions w) es (audited w)).

Lemma stopped_step w w' :
  enabled (from_row (settings w)) = [] -> step w w' ->
  settings w' = settings w ∧ decisions w' = decisions w ∧ ∀ sid, model_name (label w' sid) = model_name (label w sid).
Proof.
  intros He [now v H|actor now|sid word actor|sid n actor now v H|n es].
  - unfold Autonomy.sweep in H. rewrite bool_decide_true in H by done. by injection H as <-.
  - unfold stop_autonomy. by rewrite bool_decide_true.
  - unfold situation_severity, set_situation_severity. set (l := MkLabel _ _ _ _). destruct (set_label_rest sid l w) as (_ & E2 & E3 & _).
    split_and!; [done..|]. intros i. change (label (write_event _ ?x) i) with (label x i). by destruct (label_set sid l w i) as [->|[-> ->]].
  - unfold name_situation in H. case_bool_decide; [|done]. injection H as <-. set (l := MkLabel _ _ _ _).
    destruct (set_label_rest sid l w) as (_ & E2 & E3 & _). split_and!; [done..|]. intros i.
    change (label (write_event _ (add_event _ (with_eng _ ?x))) i) with (label x i). by destruct (label_set sid l w i) as [->|[-> ->]].
  - done.
Qed.

Lemma stopped_for_long w w' :
  enabled (from_row (settings w)) = [] -> rtc step w w' ->
  settings w' = settings w ∧ decisions w' = decisions w ∧ ∀ sid, model_name (label w' sid) = model_name (label w sid).
Proof.
  intros He Hr. induction Hr as [w|w v u Hs Hr IH]; [done|].
  destruct (stopped_step w v He Hs) as (E1 & E2 & E3). rewrite <- E1 in He. destruct (IH He) as (F1 & F2 & F3).
  split_and!; [congruence..|]. intros sid. by rewrite F3.
Qed.

(** Once the judged acts agree less often than the floor, the sweep switches every grade off in
    its own name; and from then on, whatever happens short of an admin's settings, the settings stay
    what they are, no act is recorded and no situation is named. *)
Theorem a_suspended_autonomy_waits_for_an_admin now w w1 w2 :
  let s := from_row (settings w) in
  enabled s ≠ [] -> disagreed s (recent_verdicts (verdict_window s) (judge now w)) = Some true ->
  sweep now w = Some w1 -> rtc step w1 w2 ->
  suspended (from_row (settings w2)) = true ∧ settings w2 = settings w ++ [all_off s "autonomy" "agreement" now]
  ∧ decisions w2 = decisions (judge now w) ∧ ∀ sid, model_name (label w2 sid) = model_name (label w sid).
Proof.
  intros s He Hd H Hr. unfold Autonomy.sweep in H. fold s in H. rewrite bool_decide_false in H by done. rewrite Hd in H. cbn in H. injection H as <-.
  assert (from_row (settings (suspend now s (judge now w))) = all_off s "autonomy" "agreement" now) as Es.
  { unfold from_row. change (settings (suspend now s (judge now w))) with (settings w ++ [all_off s "autonomy" "agreement" now]). by rewrite reverse_snoc. }
  destruct (stopped_for_long _ w2 ltac:(by rewrite Es) Hr) as (E1 & E2 & E3). rewrite E1, E2, Es. split_and!; [done..|exact E3].
Qed.
End whole.

(** ** Witnesses *)

(** Fourteen situations of two alarms, one cleared and one stuck: an open one that is named and fresh,
    and thirteen new ones. *)
Definition demo_row (i : nat) (active : bool) : AlarmKey * AlarmRow :=
  let id := 2 * Z.of_nat i + (if active then 1 else 0) in
  ((1, 1, pretty id), MkAlarmRow id None active false 1 f_zero f_zero None [] None None (Some 1) None).
Definition demo_situation (i : nat) : Z * Situation :=
  (Z.of_nat i, if Nat.eqb i 0 then MkSituation "open" f_zero (f_of_Z 9000) None None None None None None None (Some "shipped:1")
               else MkSituation "new" f_zero f_zero None None None None None None None (Some "shipped:1")).
Definition demo_member (i : nat) (active : bool) : Member := RootCause.MkMember (2 * Z.of_nat i + (if active then 1 else 0)) (2 * Z.of_nat i + (if active then 1 else 0)) 1 1 f_zero.
Definition demo_node (n : nat) : Node :=
  let l := seq 0 n in
  let t := MkAlarms (list_to_map (map (fun i => demo_row i true) l ++ map (fun i => demo_row i false) l)) 100 in
  let d := MkDb (list_to_map (map demo_situation l)) 100
             (list_to_set (flat_map (fun i => [(Z.of_nat i, 2 * Z.of_nat i); (Z.of_nat i, 2 * Z.of_nat i + 1)]) l))
             (map (fun i => MkLinkRow (Z.of_nat i) 1 2 (f_of_Z 5) f_zero f_zero f_zero f_zero) l) (active_ids t) in
  let c := set_scorer (new_safe false f_zero) (Some default_params) c_zero in
  let e := MkEngine d (list_to_map (flat_map (fun i => [(2 * Z.of_nat i, Z.of_nat i); (2 * Z.of_nat i + 1, Z.of_nat i)]) l))
             (list_to_map (map (fun i => (Z.of_nat i, (0, [demo_member i false; demo_member i true]))) l)) ∅ 1 c new_precedence new_upkeep None (Some "shipped:1") in
  with_table t (MkNode e (MkNaming (MkIds {["10.0.0.1" := 1]} 2) (MkIds {["1.3.6.1" := 1]} 2) new_entities ∅ ∅)
    (MkKnowledge Learn.new_learner Alternation.new_learner new_state_learner ∅) t new_flap ∅ ∅ new_ledger (MkConfig ∅ ∅ (f_of_Z 3600)) 0).
Definition all_on (min : nat) : Settings := MkSettings true true true true (f_lit 8 10) 30 min (f_lit 9 10) "ana" "on" f_zero.
Definition demo_appliance (n : nat) : Appliance :=
  MkAppliance (demo_node n) {[0 := MkLabel (Some "core") None None None]} [all_on 8] [] [] [].
Definition demo_sweep : Appliance -> option Appliance := sweep (fun _ => f_zero) (fun _ => None) (f_of_Z 10000).

(** What the sweep of one new situation does to it. *)
Lemma autonomy_acts_within_its_grades_witness :
  match demo_sweep (demo_appliance 2) with
  | Some w => map d_grade (decisions w) = [Severity; Grouping; Naming_; Severity; Closing]
              ∧ status_in w 1 = Some "resolved" ∧ label w 0 = MkLabel (Some "core") None (Some "major") (Some "model:shipped:1")
              ∧ (enabled (from_row [all_on 8]) ≠ [] -> w = suspend (f_of_Z 10000) (all_on 8) (judge (f_of_Z 10000) (demo_appliance 2))
                 ∨ ∃ ds, acted (judge (f_of_Z 10000) (demo_appliance 2)) w ds)
  | None => False
  end.
Proof.
  assert (H : (w ← demo_sweep (demo_appliance 2); Some (map d_grade (decisions w), status_in w 1, label w 0))
    = Some ([Severity; Grouping; Naming_; Severity; Closing], Some "resolved", MkLabel (Some "core") None (Some "major") (Some "model:shipped:1")))
    by (vm_compute; reflexivity).
  destruct (demo_sweep (demo_appliance 2)) as [w|] eqn:E; [|discriminate H]. injection H as H1 H2 H3.
  split; [exact H1|]. split; [exact H2|]. split; [exact H3|]. intros Hon.
  destruct (autonomy_acts_within_its_grades _ _ _ _ _ E) as [[He _]|[(_ & _ & Hs)|(_ & _ & ds & Hd & _)]].
  - destruct (Hon He).
  - left. exact Hs.
  - right. exists ds. exact Hd.
Defined.

(** The bound is reached. *)
Lemma a_sweep_is_bounded_witness :
  match demo_sweep (demo_appliance 14) with
  | Some w => length (decisions w) = 53%nat ∧ (length (decisions w) <= 0 + 53)%nat
  | None => False
  end.
Proof.
  assert (H : (fun w => length (decisions w)) <$> demo_sweep (demo_appliance 14) = Some 53%nat) by (vm_compute; reflexivity).
  destruct (demo_sweep (demo_appliance 14)) as [w|] eqn:E; [|discriminate H]. injection H as H. split; [exact H|].
  exact (a_sweep_is_bounded _ _ _ _ _ E).
Defined.

(** One act, judged wrong, is enough here. *)
Definition contradicted : Appliance :=
  MkAppliance (demo_node 2) ∅ [all_on 1]
    [MkDecision 1 Grouping "shipped:1" f_one [] f_zero None] [MkEvent 1 "move" (Some "user:ana") (f_of_Z 5) None] [].
Lemma a_suspended_autonomy_waits_for_an_admin_witness :
  match demo_sweep contradicted with
  | Some w => suspended (from_row (settings (situation_severity 1 "minor" "user:ana" w))) = true
  | None => False
  end.
Proof.
  assert (H : (fun w => length (settings w)) <$> demo_sweep contradicted = Some 2%nat) by (vm_compute; reflexivity).
  destruct (demo_sweep contradicted) as [w|] eqn:E; [|discriminate H].
  apply (a_suspended_autonomy_waits_for_an_admin (fun _ => f_zero) (fun _ => None) (f_of_Z 10000) contradicted w).
  - discriminate.
  - vm_compute. reflexivity.
  - exact E.
  - eapply rtc_l; [|apply rtc_refl]. apply st_severity.
Defined.

(** ** What the code does not do as it says *)

(** An operator who gives the very severity the model gave is counted against the model. *)
Example the_same_severity_disagrees :
  let d := MkDecision 1 Severity "shipped:1" f_one [] f_zero None in
  let w := set_situation_severity 1 "major" "model:shipped:1" (demo_appliance 2) in
  v_agreed <$> verdict_on d (f_of_Z 10) (situation_severity 1 "major" "user:ana" w) = Some false.
Proof. vm_compute. reflexivity. Qed.

(** A sweep that fails after it closed a situation is rolled back in the tables only: the situation is
    live again, and the engine has forgotten it. *)
Example a_failed_sweep_forgets_a_live_situation :
  (fun w' => let w := rolled_back (demo_appliance 2) w' in
    (live_in (db (eng (demo_appliance 2))) 1, tracked (eng (demo_appliance 2)) 1, live_in (db (eng w)) 1, tracked (eng w) 1))
  <$> demo_sweep (demo_appliance 2) = Some (true, true, true, false).
Proof. vm_compute. reflexivity. Qed.
