(* ===== verification/Gaps.v ===== *)
(** * Traps that were lost, and how late the others were ([engine/operate/gaps.py], [store/ingest_gaps.py],
    [engine/operate/deadline.py])

    The ledger of drops: counters folded into open gaps, and gaps into rows, by the maintenance pass. And
    the classification objective: each trap's delay, counted since start and in the sampler's intervals. *)
From S2P Require Import Prelude Floats Grouping Episodes Scoring Candidates PairFeatures Learn Correlator.

(** ** Gaps *)

Definition GAP_CLOSE_S : float := f_of_Z 10.

Record OpenGap := MkGap { started_at : float; last_drop_at : float; dropped : Z }.
Abbreviation GapTracker := (list (string * OpenGap)) (only parsing).

Definition gap_observe (reason : string) (count : Z) (now : float) (t : GapTracker) : GapTracker :=
  if count <=? 0 then t
  else match assoc reason t with
       | None => dict_set reason (MkGap now now count) t
       | Some g => dict_set reason (MkGap (started_at g) now (dropped g + count)) t
       end.

Record GapRow := MkGapRow { g_started : float; g_ended : float; g_dropped : Z; g_reason : string }.
Definition row_of (e : string * OpenGap) : GapRow := MkGapRow (started_at e.2) (last_drop_at e.2) (dropped e.2) e.1.

(** A gap is idle when it has not grown for ten seconds. *)
Definition idle (now : float) (g : OpenGap) : bool := fleb GAP_CLOSE_S (fsub now (last_drop_at g)).
Definition gap_flush (now : float) (t : GapTracker) : list (string * OpenGap) * GapTracker :=
  (filter (fun e => idle now e.2 = true) t, filter (fun e => idle now e.2 = false) t).

(** The rows written, with a line of the audit log each; [received] is what the receiver counts. *)
Record Losses := MkLosses {
  tracker : GapTracker; dropped_baseline : Z; correlator : Correlator; ingest_gap : list GapRow; audited : list (string * Z) }.

Definition record_ingest_gaps (now : float) (received : Z) (w : Losses) : Losses :=
  let t := gap_observe "queue_full" (received - dropped_baseline w) now (tracker w) in
  let '(overflow, c) := take_overflow (correlator w) in
  let t := gap_observe "window_overflow" overflow now t in
  let '(closed, t) := gap_flush now t in
  MkLosses t received c (ingest_gap w ++ map row_of closed) (audited w ++ map (fun e => (e.1, dropped e.2)) closed).

(** A pass that fails later is rolled back: the rows go, what is in memory stays. *)
Definition failed_pass (now : float) (received : Z) (w : Losses) : Losses :=
  let w' := record_ingest_gaps now received w in
  MkLosses (tracker w') (dropped_baseline w') (correlator w') (ingest_gap w) (audited w).

(** *** What the ledger accounts for *)

Definition sum_Z {A} (f : A -> Z) (l : list A) : Z := foldr (fun x n => f x + n) 0 l.
Definition rows_for (reason : string) (w : Losses) : Z :=
  sum_Z g_dropped (filter (fun r => g_reason r = reason) (ingest_gap w)).
Definition open_for (reason : string) (w : Losses) : Z := match assoc reason (tracker w) with Some g => dropped g | None => 0 end.
Definition accounted (reason : string) (w : Losses) : Z := rows_for reason w + open_for reason w.

Definition new_losses (c : Correlator) : Losses := MkLosses [] 0 c [] [].

(** ** Deadlines *)

Definition SAMPLES : nat := 4096.
Definition INTERVAL_SAMPLES : nat := 50 * 1000.
Definition TARGET_S : float := f_of_Z 60.
Definition LIMIT_S : float := f_of_Z 120.
Definition MAX_KPI_S : float := f_of_Z 86400.
Definition DELAY_EDGES : list float := map f_of_Z [5; 10; 30; 60; 120; 300; 600].

Record Kpi := MkKpi { target_s : float; limit_s : float }.
Inductive KpiProblem := TargetRange | LimitRange | TargetLater.
Definition in_range (x : float) : bool := f_finite x && fltb f_zero x && fleb x MAX_KPI_S.
Definition problems (target limit : float) : list KpiProblem :=
  match (if in_range target then [] else [TargetRange]) ++ (if in_range limit then [] else [LimitRange]) with
  | [] => if fltb limit target then [TargetLater] else []
  | out => out
  end.

(** The document's two numbers, if it is one and has them. *)
Definition from_document (document : option (float * float)) (default_ : Kpi) : Kpi :=
  match document with
  | None => default_
  | Some (target, limit) => match problems target limit with [] => MkKpi target limit | _ => default_ end
  end.

Record Interval := MkInterval { i_classified : nat; i_over_target : nat; i_over_limit : nat; i_worst : float; i_window : list float }.
Definition new_interval : Interval := MkInterval 0 0 0 f_zero [].

Record DeadlineTracker := MkTracker {
  kpi : Kpi; latencies : list float; classified : nat; over_target : nat; over_limit : nat; worst_s : float; delays : list nat;
  interval : Interval }.
Definition new_tracker (k : Kpi) : DeadlineTracker := MkTracker k [] 0 0 0 f_zero (replicate (S (length DELAY_EDGES)) 0%nat) new_interval.

(** [max(0.0, now - ts)]. *)
Definition waited (now ts : float) : float := fmax f_zero (fsub now ts).

(** The first edge a delay is not past. *)
Fixpoint bucket (edges : list float) (x : float) : nat :=
  match edges with
  | [] => 0
  | e :: edges => if fltb e x then S (bucket edges x) else 0
  end.

Definition count_if (b : bool) (n : nat) : nat := if b then S n else n.

(** One trap of a committed batch; a quarantined packet is none. *)
Definition classify (x : float) (t : DeadlineTracker) : DeadlineTracker :=
  let late := fltb (target_s (kpi t)) x in
  let broken := fltb (limit_s (kpi t)) x in
  let i := interval t in
  MkTracker (kpi t) (drop (S (length (latencies t)) - SAMPLES) (latencies t ++ [x])) (S (classified t))
    (count_if late (over_target t)) (count_if broken (over_limit t)) (fmax (worst_s t) x)
    (alter S (bucket DELAY_EDGES x) (delays t))
    (MkInterval (S (i_classified i)) (count_if late (i_over_target i)) (count_if broken (i_over_limit i)) (fmax (i_worst i) x)
       (if Nat.ltb (length (i_window i)) INTERVAL_SAMPLES then i_window i ++ [x] else i_window i)).

Definition committed (items : list (option float)) (now : float) (t : DeadlineTracker) : DeadlineTracker :=
  foldl (fun t item => match item with Some ts => classify (waited now ts) t | None => t end) t items.

(** [sorted]: no latency is a NaN. *)
Definition sorted_latencies (l : list float) : list float := sort_by fleb l.
Definition quantile (ordered : list float) (q : float) : float :=
  match ordered with
  | [] => f_zero
  | _ => default f_zero (ordered !! Nat.min (length ordered - 1) (Z.to_nat (f_trunc (fmul q (f_of_Z (Z.of_nat (length ordered)))))))
  end.
Definition percentile (q : float) (t : DeadlineTracker) : float := quantile (sorted_latencies (latencies t)) q.

Record Sample := MkSample { sp_classified : nat; sp_over_target : nat; sp_over_limit : nat; sp_p95 : option float; sp_max : option float }.
Definition take_interval (t : DeadlineTracker) : Sample * DeadlineTracker :=
  let i := interval t in
  let ordered := sorted_latencies (i_window i) in
  let seen := negb (Nat.eqb (length ordered) 0) in
  (MkSample (i_classified i) (i_over_target i) (i_over_limit i)
     (if seen then Some (quantile ordered (f_lit 95 100)) else None) (if seen then Some (i_worst i) else None),
   MkTracker (kpi t) (latencies t) (classified t) (over_target t) (over_limit t) (worst_s t) (delays t) new_interval).

(** ** Every lost trap is accounted for, and every placed one is counted once

    The ledger of drops conserves what the counters say, whatever the passes' instants; the delay counters
    are those of the traps placed, and the sampler's intervals add up to them. *)

(** ** Gaps *)

Lemma sum_Z_app {A} (f : A -> Z) l k : sum_Z f (l ++ k) = sum_Z f l + sum_Z f k.
Proof. induction l as [|x l IH]; simpl; [done|lia]. Qed.

(** What is open for a reason, by its gaps. *)
Definition open_sum (reason : string) (t : list (string * OpenGap)) : Z := sum_Z (fun e => dropped e.2) (filter (fun e => e.1 = reason) t).

Lemma open_sum_cons reason k g t : open_sum reason ((k, g) :: t) = (if decide (k = reason) then dropped g else 0) + open_sum reason t.
Proof. unfold open_sum. rewrite filter_cons. cbn [fst]. by case_decide. Qed.

Lemma open_sum_absent reason t : reason ∉ t.*1 -> open_sum reason t = 0.
Proof.
  induction t as [|[k g] t IH]; [done|]. intros [Hk H]%not_elem_of_cons. rewrite open_sum_cons, IH by done.
  rewrite decide_False; [done|]. intros ->. by apply Hk.
Qed.

Lemma open_sum_assoc reason t : NoDup t.*1 -> open_sum reason t = match assoc reason t with Some g => dropped g | None => 0 end.
Proof.
  induction t as [|[k g] t IH]; [done|]. intros [Hk Ht]%NoDup_cons. rewrite open_sum_cons. cbn [assoc].
  destruct (decide (reason = k)) as [->|Hn].
  - rewrite decide_True, open_sum_absent by done. lia.
  - rewrite decide_False by congruence. by rewrite IH.
Qed.

Lemma open_sum_set reason key g t :
  open_sum reason (dict_set key g t)
  = open_sum reason t + (if decide (key = reason) then dropped g - match assoc key t with Some g0 => dropped g0 | None => 0 end else 0).
Proof.
  induction t as [|[k h] t IH]; cbn [dict_set assoc].
  - rewrite open_sum_cons. case_decide; cbn; lia.
  - destruct (decide (key = k)) as [->|Hn]; rewrite !open_sum_cons; [case_decide; lia|]. rewrite IH. case_decide; case_decide; lia.
Qed.

Lemma open_sum_observe reason key count now t :
  0 <= count -> open_sum reason (gap_observe key count now t) = open_sum reason t + if decide (key = reason) then count else 0.
Proof.
  intros Hc. unfold gap_observe. destruct (Z.leb_spec count 0); [case_decide; lia|].
  destruct (assoc key t) as [g|] eqn:E; rewrite open_sum_set, E; cbn; case_decide; lia.
Qed.

Lemma observe_keys key count now t : NoDup t.*1 -> NoDup (gap_observe key count now t).*1.
Proof.
  intros H. unfold gap_observe. destruct (count <=? 0); [done|].
  assert (∀ g, NoDup (dict_set key g t).*1) as G; [|by destruct (assoc key t)].
  intros g. revert H. induction t as [|[k h] t IH]; cbn; [repeat constructor; by intros ?%not_elem_of_nil|].
  intros [Hk Ht]%NoDup_cons. destruct (decide (key = k)) as [->|Hn]; cbn; apply NoDup_cons; [done|]. split; [|by apply IH].
  intros (e & -> & He)%list_elem_of_fmap. apply Hk. clear IH Hk Ht. induction t as [|[k1 h1] t IH]; cbn in He.
  - apply list_elem_of_singleton in He as ->. done.
  - destruct (decide (key = k1)) as [->|]; apply elem_of_cons in He as [->|He]; cbn in *; [done|right|by left|right; by apply IH].
    apply list_elem_of_fmap. by exists e.
Qed.

Lemma observe_positive key count now t : Forall (fun e => 0 < dropped e.2) t -> Forall (fun e => 0 < dropped e.2) (gap_observe key count now t).
Proof.
  intros H. unfold gap_observe. destruct (Z.leb_spec count 0); [done|].
  assert (∀ g, 0 < dropped g -> Forall (fun e => 0 < dropped e.2) (dict_set key g t)) as G.
  { intros g Hg. clear -H Hg. induction H as [|[k h] t H1 H2 IH]; cbn; [by repeat constructor|]. destruct (decide (key = k)); by constructor. }
  destruct (assoc key t) as [g|] eqn:E; apply G; cbn; [|lia]. apply assoc_Some in E. rewrite Forall_forall in H. specialize (H _ E). cbn in H. lia.
Qed.

Lemma flush_splits reason now t :
  open_sum reason (gap_flush now t).2 + sum_Z g_dropped (filter (fun r => g_reason r = reason) (map row_of (gap_flush now t).1)) = open_sum reason t.
Proof.
  unfold gap_flush. cbn [fst snd]. induction t as [|[k g] t IH]; [done|]. rewrite open_sum_cons, !filter_cons. cbn [snd].
  destruct (idle now g); [rewrite decide_False, decide_True by done|rewrite decide_True, decide_False by done]; [cbn [map]|rewrite open_sum_cons; lia].
  rewrite filter_cons. cbn [g_reason row_of fst]. case_decide; cbn [sum_Z foldr g_dropped row_of snd]; [change (foldr _ 0 ?l) with (sum_Z g_dropped l)|]; lia.
Qed.

(** The counters beside the ledger: what the receiver and the correlator have ever dropped. *)
Record Watched := MkWatched { losses : Losses; received : Z; overflowed : Z }.

(** Traps are dropped, the window overflows, and passes take place, in any order. *)
Inductive watched : Watched -> Prop :=
| wa_start c : overflow_dropped c = 0 -> watched (MkWatched (new_losses c) 0 0)
| wa_drop n s : 0 <= n -> watched s -> watched (MkWatched (losses s) (received s + n) (overflowed s))
| wa_overflow c n s :
    0 <= n -> overflow_dropped c = overflow_dropped (correlator (losses s)) + n -> watched s ->
    watched (MkWatched (MkLosses (tracker (losses s)) (dropped_baseline (losses s)) c (ingest_gap (losses s)) (audited (losses s)))
               (received s) (overflowed s + n))
| wa_pass now s : watched s -> watched (MkWatched (record_ingest_gaps now (received s) (losses s)) (received s) (overflowed s)).

Record watched_ok (s : Watched) : Prop := {
  wo_baseline : dropped_baseline (losses s) <= received s;
  wo_pending : 0 <= overflow_dropped (correlator (losses s));
  wo_full : sum_Z g_dropped (filter (fun r => g_reason r = "queue_full") (ingest_gap (losses s))) + open_sum "queue_full" (tracker (losses s))
            = dropped_baseline (losses s);
  wo_over : sum_Z g_dropped (filter (fun r => g_reason r = "window_overflow") (ingest_gap (losses s))) + open_sum "window_overflow" (tracker (losses s))
            + overflow_dropped (correlator (losses s)) = overflowed s;
  wo_keys : NoDup (tracker (losses s)).*1;
  wo_open : Forall (fun e => 0 < dropped e.2) (tracker (losses s));
  wo_rows : Forall (fun r => 0 < g_dropped r) (ingest_gap (losses s));
  wo_audit : audited (losses s) = map (fun r => (g_reason r, g_dropped r)) (ingest_gap (losses s)) }.

Lemma pass_ok now s : watched_ok s -> watched_ok (MkWatched (record_ingest_gaps now (received s) (losses s)) (received s) (overflowed s)).
Proof.
  intros [H1 H2 H3 H4 H5 H6 H7 H8]. unfold record_ingest_gaps, take_overflow.
  set (t1 := gap_observe "queue_full" _ _ _). set (t2 := gap_observe "window_overflow" _ _ t1).
  assert (NoDup t2.*1) as K by (by repeat apply observe_keys).
  assert (Forall (fun e => 0 < dropped e.2) t2) as P by (by repeat apply observe_positive).
  pose proof (flush_splits "queue_full" now t2) as F1. pose proof (flush_splits "window_overflow" now t2) as F2.
  assert (open_sum "queue_full" t2 = open_sum "queue_full" (tracker (losses s)) + (received s - dropped_baseline (losses s))) as E1.
  { unfold t2, t1. rewrite !open_sum_observe by lia. repeat case_decide; try done; lia. }
  assert (open_sum "window_overflow" t2 = open_sum "window_overflow" (tracker (losses s)) + overflow_dropped (correlator (losses s))) as E2.
  { unfold t2, t1. rewrite !open_sum_observe by lia. repeat case_decide; try done; lia. }
  unfold gap_flush in *. cbn [fst snd] in *. split; cbn [losses received overflowed tracker dropped_baseline correlator ingest_gap audited].
  - lia.
  - cbn. lia.
  - rewrite filter_app, sum_Z_app. lia.
  - rewrite filter_app, sum_Z_app. cbn. lia.
  - eapply sublist_NoDup; [exact K|]. apply (fmap_sublist fst), sublist_filter.
  - apply Forall_forall. intros e [_ He]%list_elem_of_filter. rewrite Forall_forall in P. by apply P.
  - apply Forall_app. split; [done|]. apply Forall_forall. intros r (e & -> & [_ He]%list_elem_of_filter)%list_elem_of_fmap.
    rewrite Forall_forall in P. by apply P.
  - rewrite H8, map_app, map_map. done.
Qed.

Lemma watched_watched_ok s : watched s -> watched_ok s.
Proof.
  induction 1 as [c Hc|n s Hn _ IH|c n s Hn Hc _ IH|now s _ IH].
  - split; cbn; try rewrite Hc; try done; constructor.
  - destruct IH as [H1 H2 H3 H4 H5 H6 H7 H8]. split; cbn [losses received overflowed tracker dropped_baseline correlator ingest_gap audited]; try done; lia.
  - destruct IH as [H1 H2 H3 H4 H5 H6 H7 H8]. split; cbn [losses received overflowed tracker dropped_baseline correlator ingest_gap audited]; try done; lia.
  - by apply pass_ok.
Qed.

(** Every trap the receiver could not take and every alarm the window pushed out is accounted for: the rows
    of its reason, the open gap, and what no pass has read yet add up to the counter; there is one
    open gap of a reason at most, no gap is of nothing, and each row has its line in the audit log. After a
    pass the rows and the open gaps say it all. *)
Theorem every_loss_is_accounted s :
  watched s ->
  (accounted "queue_full" (losses s) + (received s - dropped_baseline (losses s)) = received s
   ∧ accounted "window_overflow" (losses s) + overflow_dropped (correlator (losses s)) = overflowed s)
  ∧ NoDup (tracker (losses s)).*1 ∧ Forall (fun e => 0 < dropped e.2) (tracker (losses s)) ∧ Forall (fun r => 0 < g_dropped r) (ingest_gap (losses s))
  ∧ audited (losses s) = map (fun r => (g_reason r, g_dropped r)) (ingest_gap (losses s))
  ∧ ∀ now, let w := record_ingest_gaps now (received s) (losses s) in
      accounted "queue_full" w = received s ∧ accounted "window_overflow" w = overflowed s.
Proof.
  intros H%watched_watched_ok.
  assert (∀ s, watched_ok s -> accounted "queue_full" (losses s) = dropped_baseline (losses s)
    ∧ accounted "window_overflow" (losses s) + overflow_dropped (correlator (losses s)) = overflowed s) as G.
  { intros s' [H1 H2 H3 H4 H5 _ _ _]. unfold accounted, rows_for, open_for. rewrite <- !open_sum_assoc by done. lia. }
  destruct (G s H) as [G1 G2]. destruct H as [H1 H2 H3 H4 H5 H6 H7 H8] eqn:EH. split_and!; [lia|done..|].
  intros now w. destruct (G _ (pass_ok now s H)) as [P1 P2]. subst w. cbn [losses received overflowed] in *.
  split; [done|]. cbn in P2 |- *. lia.
Qed.

(** A pass that fails after the ledger was folded loses an idle gap for good: neither row nor open gap nor
    counter remembers its traps. *)
Example a_failed_pass_loses_a_gap :
  let w1 := record_ingest_gaps (f_of_Z 100) 7 (new_losses c_zero) in
  let w2 := failed_pass (f_of_Z 115) 7 w1 in
  let w3 := record_ingest_gaps (f_of_Z 130) 7 w2 in
  (accounted "queue_full" w1, accounted "queue_full" w2, accounted "queue_full" w3) = (7, 0, 0).
Proof. vm_compute. reflexivity. Qed.

Lemma every_loss_is_accounted_witness :
  accounted "queue_full" (record_ingest_gaps (f_of_Z 100) 7 (new_losses c_zero)) = 7.
Proof.
  assert (watched (MkWatched (new_losses c_zero) 7 0)) as H.
  { apply (wa_drop 7 (MkWatched (new_losses c_zero) 0 0)); [lia|]. apply wa_start. vm_compute. reflexivity. }
  destruct (every_loss_is_accounted _ H) as (_ & _ & _ & _ & _ & Hp). exact (proj1 (Hp (f_of_Z 100))).
Defined.

(** ** Deadlines *)

Inductive Op := Commit (items : list (option float)) (now : float) | Take.

Definition run_op (st : DeadlineTracker * list Sample) (o : Op) : DeadlineTracker * list Sample :=
  match o with
  | Commit items now => (committed items now st.1, st.2)
  | Take => let '(s, t) := take_interval st.1 in (t, st.2 ++ [s])
  end.
Definition run_ops (k : Kpi) (ops : list Op) : DeadlineTracker * list Sample := foldl run_op (new_tracker k, []) ops.

(** The delays of the traps placed, in order. *)
Definition waits_of (o : Op) : list float := match o with Commit items now => map (waited now) (omap id items) | Take => [] end.
Definition all_waits (ops : list Op) : list float := flat_map waits_of ops.
Definition past (limit : float) (l : list float) : nat := length (filter (fun x => fltb limit x = true) l).
Definition sum_of (f : Sample -> nat) (l : list Sample) : nat := foldr (fun s n => f s + n)%nat 0%nat l.

Record counted (k : Kpi) (l : list float) (t : DeadlineTracker) (taken : list Sample) : Prop := {
  ct_kpi : kpi t = k;
  ct_latencies : latencies t = drop (length l - SAMPLES) l;
  ct_classified : classified t = length l;
  ct_target : over_target t = past (target_s k) l;
  ct_limit : over_limit t = past (limit_s k) l;
  ct_delays : delays t = map (fun b => length (filter (fun x => bucket DELAY_EDGES x = b) l)) (seq 0 8);
  ct_i_classified : (sum_of sp_classified taken + i_classified (interval t) = classified t)%nat;
  ct_i_target : (sum_of sp_over_target taken + i_over_target (interval t) = over_target t)%nat;
  ct_i_limit : (sum_of sp_over_limit taken + i_over_limit (interval t) = over_limit t)%nat;
  ct_window : (length (i_window (interval t)) <= INTERVAL_SAMPLES)%nat }.

Lemma sum_of_snoc f l s : (sum_of f (l ++ [s]) = sum_of f l + f s)%nat.
Proof. unfold sum_of. induction l as [|x l IH]; simpl; [lia|]. rewrite IH. lia. Qed.

Lemma past_snoc limit l x : past limit (l ++ [x]) = count_if (fltb limit x) (past limit l).
Proof.
  unfold past. rewrite filter_app, length_app, filter_cons, filter_nil.
  destruct (fltb limit x); [rewrite decide_True by done|rewrite decide_False by done]; cbn [length count_if]; lia.
Qed.

Lemma bucket_small edges x : (bucket edges x <= length edges)%nat.
Proof. induction edges as [|e edges IH]; simpl; [lia|]. destruct (fltb e x); lia. Qed.

Lemma buckets_snoc n l x :
  map (fun b => length (filter (fun y => bucket DELAY_EDGES y = b) (l ++ [x]))) (seq 0 n)
  = alter S (bucket DELAY_EDGES x) (map (fun b => length (filter (fun y => bucket DELAY_EDGES y = b) l)) (seq 0 n)).
Proof.
  apply list_eq. intros i. destruct (decide (i = bucket DELAY_EDGES x)) as [->|Hn].
  - rewrite list_lookup_alter_eq, !list_lookup_fmap. destruct (seq 0 n !! bucket DELAY_EDGES x) as [b|] eqn:E; [|done].
    apply lookup_seq in E as [-> _]. cbn [Nat.add fmap option_fmap option_map]. f_equal. rewrite filter_app, length_app, filter_cons, decide_True, filter_nil by (cbv beta; lia). cbn [length]. lia.
  - rewrite list_lookup_alter_ne, !list_lookup_fmap by done. destruct (seq 0 n !! i) as [b|] eqn:E; [|done].
    apply lookup_seq in E as [-> _]. cbn [Nat.add fmap option_fmap option_map]. f_equal. rewrite filter_app, length_app, filter_cons, decide_False, filter_nil by (cbv beta; lia). cbn [length]. lia.
Qed.

Lemma drop_snoc {A} n (l : list A) x : (length l <= n)%nat ∨ (n < length l)%nat ->
  drop (S (length (drop (length l - n) l)) - n) (drop (length l - n) l ++ [x]) = drop (S (length l) - n) (l ++ [x]).
Proof.
  intros _. rewrite length_drop. destruct (Nat.le_gt_cases (length l) n).
  - replace (length l - n)%nat with 0%nat by lia. rewrite drop_0. by replace (length l - 0)%nat with (length l) by lia.
  - replace (S (length l - (length l - n)) - n)%nat with 1%nat by lia.
    rewrite <- (drop_app_le l [x] (length l - n)) by lia. rewrite drop_drop. f_equal. lia.
Qed.

#[local] Opaque INTERVAL_SAMPLES.

Lemma classify_counted k l t taken x : counted k l t taken -> counted k (l ++ [x]) (classify x t) taken.
Proof.
  intros [H1 H2 H3 H4 H5 H6 H7 H8 H9 H10]. unfold classify. rewrite H1.
  split; cbn [kpi latencies classified over_target over_limit delays interval i_classified i_over_target i_over_limit i_window].
  - done.
  - rewrite H2, length_app, Nat.add_comm. apply drop_snoc. lia.
  - rewrite H3, length_app. cbn. lia.
  - by rewrite H4, past_snoc.
  - by rewrite H5, past_snoc.
  - by rewrite H6, buckets_snoc.
  - lia.
  - unfold count_if. destruct (fltb _ _); lia.
  - unfold count_if. destruct (fltb _ _); lia.
  - revert H10. generalize INTERVAL_SAMPLES. intros n H10. destruct (Nat.ltb_spec (length (i_window (interval t))) n); [rewrite length_app; cbn; lia|done].
Qed.

Lemma committed_counted k l t taken items now :
  counted k l t taken -> counted k (l ++ map (waited now) (omap id items)) (committed items now t) taken.
Proof.
  unfold committed. revert l t. induction items as [|[ts|] items IH]; intros l t H; cbn [foldl omap list_omap id map].
  - by rewrite app_nil_r.
  - rewrite cons_middle, app_assoc. by apply IH, classify_counted.
  - by apply IH.
Qed.

Lemma take_counted k l t taken : counted k l t taken -> counted k l (take_interval t).2 (taken ++ [(take_interval t).1]).
Proof.
  intros [H1 H2 H3 H4 H5 H6 H7 H8 H9 H10]. unfold take_interval.
  split; cbn [fst snd kpi latencies classified over_target over_limit delays interval i_classified i_over_target i_over_limit i_window new_interval];
    rewrite ?sum_of_snoc; cbn [sp_classified sp_over_target sp_over_limit]; try done; try lia. apply Nat.le_0_l.
Qed.

(** The counters are those of the traps that were placed: how many, how many past the target and past the
    limit, how many in each bucket of delay, with the last 4096 delays kept; whatever the batches and the
    sampler's readings, the intervals read and the current one add up to them; and with a valid objective
    no trap is past the limit and not past the target. *)
Theorem the_delays_are_counted_exactly k ops :
  problems (target_s k) (limit_s k) = [] ->
  let '(t, taken) := run_ops k ops in
  let l := all_waits ops in
  classified t = length l ∧ over_target t = past (target_s k) l ∧ over_limit t = past (limit_s k) l
  ∧ delays t = map (fun b => length (filter (fun x => bucket DELAY_EDGES x = b) l)) (seq 0 8)
  ∧ latencies t = drop (length l - SAMPLES) l
  ∧ (sum_of sp_classified taken + i_classified (interval t) = classified t)%nat
  ∧ (sum_of sp_over_target taken + i_over_target (interval t) = over_target t)%nat
  ∧ (sum_of sp_over_limit taken + i_over_limit (interval t) = over_limit t)%nat
  ∧ (over_limit t <= over_target t)%nat.
Proof.
  intros Hk. assert (counted k (all_waits ops) (run_ops k ops).1 (run_ops k ops).2) as [H1 H2 H3 H4 H5 H6 H7 H8 H9 _].
  { unfold run_ops, all_waits. induction ops as [|o ops IH] using rev_ind; [split; try done; apply Nat.le_0_l|].
    rewrite foldl_app, flat_map_app. cbn [foldl flat_map]. rewrite app_nil_r. destruct (foldl run_op (new_tracker k, []) ops) as [t taken].
    destruct o as [items now|]; cbn [run_op waits_of fst snd]; [by apply committed_counted|]. rewrite app_nil_r.
    exact (take_counted k _ _ _ IH). }
  destruct (run_ops k ops) as [t taken]. cbn [fst snd] in *. split_and!; [done..|]. rewrite H4, H5. unfold past.
  generalize (all_waits ops). intros l. induction l as [|x l IH]; [done|]. rewrite !filter_cons. destruct (decide (fltb (limit_s k) x = true)) as [E|E].
  - rewrite decide_True; [cbn; lia|]. unfold problems in Hk. destruct (in_range (target_s k)) eqn:R1, (in_range (limit_s k)) eqn:R2; try discriminate Hk.
    cbn in Hk. destruct (fltb (limit_s k) (target_s k)) eqn:L; [discriminate Hk|]. unfold in_range, f_finite in R1, R2.
    destruct (fltb (target_s k) x) eqn:T; [done|]. apply fltb_key in E as (a & b & Ea & Eb & Hab).
    destruct (fkey (target_s k)) as [c|] eqn:Ec; [|apply fkey_nan in Ec; by destruct (target_s k)].
    apply not_true_iff_false in L, T. rewrite fltb_key in L, T. exfalso. unfold key_lt in *.
    assert (¬ (a.1.1 < c.1.1 ∨ (a.1.1 = c.1.1 ∧ (a.1.2 < c.1.2 ∨ (a.1.2 = c.1.2 ∧ a.2 < c.2))))) as N1 by (intros F; apply L; by exists a, c).
    assert (¬ (c.1.1 < b.1.1 ∨ (c.1.1 = b.1.1 ∧ (c.1.2 < b.1.2 ∨ (c.1.2 = b.1.2 ∧ c.2 < b.2))))) as N2 by (intros F; apply T; by exists c, b).
    lia.
  - destruct (decide _); cbn; lia.
Qed.

#[local] Transparent INTERVAL_SAMPLES.

Lemma the_delays_are_counted_exactly_witness :
  let ops := [Commit [Some (f_of_Z 10); None; Some (f_of_Z 90)] (f_of_Z 100); Take; Commit [Some (f_of_Z 100)] (f_of_Z 400)] in
  let '(t, taken) := run_ops (MkKpi TARGET_S LIMIT_S) ops in
  (over_target t, over_limit t, map sp_classified taken, delays t) = (2, 1, [2], [0; 1; 0; 0; 1; 1; 0; 0])%nat
  ∧ classified t = length (all_waits ops).
Proof.
  assert (problems TARGET_S LIMIT_S = []) as Hk by (vm_compute; reflexivity).
  pose proof (the_delays_are_counted_exactly (MkKpi TARGET_S LIMIT_S)
    [Commit [Some (f_of_Z 10); None; Some (f_of_Z 90)] (f_of_Z 100); Take; Commit [Some (f_of_Z 100)] (f_of_Z 400)] Hk) as H.
  vm_compute in H |- *. destruct H as [H _]. split; [reflexivity|exact H].
Defined.
