(* ===== verification/Intake.v ===== *)
(** * From the spool to the engine ([engine/operate/intake.py], and [_transaction] and [run] of
    [engine/operate/engine.py])

    The feed reads records after its cursor, decodes them and delivers them; the engine takes batches and
    commits the cursor with what it classified; a crash replays. What the pump, the engine and the
    supervisor do between two awaits is one step each, in any order. Record [n] of the log is its
    [n]-th: that the reader returns them all, in order, is [SpoolReader]'s theorem.

    The engine's memory (the profiler, the learner, the flap detector, what it has seeded, the ledger) is
    not in the transaction: a rollback and a restart of the engine's task leave in it what the half did,
    but for the maps [membership.reload] reads back, and the end of the process takes what was not
    flushed. *)
From S2P Require Import Prelude.

Inductive Decoded (Item : Type) := Nothing | Invalid (why : string) | Event (i : Item).
Arguments Nothing {Item}.
Arguments Invalid {Item} why.
Arguments Event {Item} i.

Definition QUEUE_SIZE : nat := Z.to_nat 10000.
Definition READ_BATCH : nat := 2048.
Definition BATCH_SIZE : nat := 500.

(** What the engine does with the items, over its memory and the database's contents: [_process], where it
    may be cut short by an exception and what memory then is, [membership.reload], [Engine.start], and
    what anything else of the process (the maintenance loop, a request) does in a transaction of its own. *)
Record Engine (Item Memory Contents : Type) := MkEngine {
  classify : Item -> Memory * Contents -> Memory * Contents;
  cut_short : Item -> Memory * Contents -> Memory -> Prop;
  reloads : Contents -> Memory -> Memory -> Prop;
  starts : Contents -> Memory -> Prop;
  elsewhere : Memory * Contents -> Memory * Contents -> Prop }.
Arguments MkEngine {Item Memory Contents}.
Arguments classify {Item Memory Contents}.
Arguments cut_short {Item Memory Contents}.
Arguments reloads {Item Memory Contents}.
Arguments starts {Item Memory Contents}.
Arguments elsewhere {Item Memory Contents}.

Section intake.
Context {Payload Item Memory Contents : Type} (decode : Payload -> Decoded Item) (E : Engine Item Memory Contents).

(** An item is a Python object: its identity, and its value. *)
Record Obj := MkObj { o_id : Z; o_item : Item }.

Record Feed := MkFeed {
  cursor : nat; read : nat; head : nat; peak : nat; dead_lettered : nat; invalid : nat; ignored : nat;
  isolate_until : nat; pending : list (Obj * nat); seq_of : gmap Z nat; runs : nat }.

(** [SpoolFeed(..., cursor)], and the database's cursor. *)
Definition new_feed (c : nat) : Feed := MkFeed c c c 0 0 0 0 0 [] ∅ 0.

Record Db := MkDb { contents : Contents; meta_cursor : nat }.

Definition backlog (f : Feed) : nat := head f - cursor f.

(** [stage]: the cursor of a committed prefix, in its transaction. *)
Definition stage (items : list Obj) (f : Feed) (d : Db) : option nat * Db :=
  match List.last (map Some items) None with
  | None => (None, d)
  | Some o => match seq_of f !! o_id o with
              | Some s => (Some s, MkDb (contents d) s)
              | None => (None, d)
              end
  end.

Fixpoint drop_committed (c : nat) (l : list (Obj * nat)) (m : gmap Z nat) : list (Obj * nat) * gmap Z nat :=
  match l with
  | (o, s) :: l' => if Nat.leb s c then drop_committed c l' (delete (o_id o) m) else (l, m)
  | [] => ([], m)
  end.

Definition committed (position : option nat) (f : Feed) : Feed :=
  match position with
  | None => f
  | Some p =>
      let c := Nat.max (cursor f) p in
      let '(l, m) := drop_committed c (pending f) (seq_of f) in
      MkFeed c (read f) (head f) (peak f) (dead_lettered f) (invalid f) (ignored f) (isolate_until f) l m (runs f)
  end.

Definition written (h : nat) (f : Feed) : Feed :=
  if Nat.ltb (head f) h then
    MkFeed (cursor f) (read f) h (Nat.max (peak f) (h - cursor f)) (dead_lettered f) (invalid f) (ignored f) (isolate_until f)
      (pending f) (seq_of f) (runs f)
  else f.

Definition take_peak (f : Feed) : nat * Feed :=
  (Nat.max (peak f) (backlog f),
   MkFeed (cursor f) (read f) (head f) (backlog f) (dead_lettered f) (invalid f) (ignored f) (isolate_until f) (pending f)
     (seq_of f) (runs f)).

(** [self.head = max(self.head, seq)], and a record that decoded to nothing. *)
Definition seen (s : nat) (f : Feed) : Feed :=
  MkFeed (cursor f) (read f) (Nat.max (head f) s) (peak f) (dead_lettered f) (invalid f) (ignored f) (isolate_until f)
    (pending f) (seq_of f) (runs f).
Definition ignore (f : Feed) : Feed :=
  MkFeed (cursor f) (read f) (head f) (peak f) (dead_lettered f) (invalid f) (S (ignored f)) (isolate_until f) (pending f)
    (seq_of f) (runs f).
Definition count_invalid (f : Feed) : Feed :=
  MkFeed (cursor f) (read f) (head f) (peak f) (dead_lettered f) (S (invalid f)) (ignored f) (isolate_until f) (pending f)
    (seq_of f) (runs f).

(** After [queue.put]. *)
Definition delivered (o : Obj) (s : nat) (f : Feed) : Feed :=
  MkFeed (cursor f) s (head f) (Nat.max (peak f) (head f - cursor f)) (dead_lettered f) (invalid f) (ignored f) (isolate_until f)
    (pending f ++ [(o, s)]) (<[o_id o := s]> (seq_of f)) (runs f).

(** [_set_aside], after the dead-letter file: the cursor past the record, durably. *)
Definition advance_to (s : nat) (f : Feed) : Feed :=
  MkFeed (Nat.max (cursor f) s) (read f) (head f) (peak f) (dead_lettered f) (invalid f) (ignored f) (isolate_until f) (pending f)
    (seq_of f) (runs f).

(** What a rewind decides: the record to set aside, or up to where to deliver one at a time. *)
Inductive Suspect := Nobody | The (s : nat) | OneByOne (until : nat).
Definition suspect (qsize : nat) (f : Feed) : Suspect :=
  let in_flight := (length (pending f) - qsize)%nat in
  if Nat.ltb 1 (S (runs f)) && Nat.ltb 0 in_flight then
    if Nat.ltb (cursor f) (isolate_until f) && Nat.eqb in_flight 1 then
      match pending f with (_, s) :: _ => The s | [] => Nobody end
    else match pending f !! (in_flight - 1)%nat with Some (_, s) => OneByOne s | None => Nobody end
  else Nobody.

Definition forget_pending (f : Feed) : Feed :=
  MkFeed (cursor f) (cursor f) (head f) (peak f) (dead_lettered f) (invalid f) (ignored f) (isolate_until f) [] ∅ (S (runs f)).
Definition isolate (until : nat) (f : Feed) : Feed :=
  MkFeed (cursor f) (read f) (head f) (peak f) (dead_lettered f) (invalid f) (ignored f) until (pending f) (seq_of f) (runs f).
Definition count_dead (f : Feed) : Feed :=
  MkFeed (cursor f) (read f) (head f) (peak f) (S (dead_lettered f)) (invalid f) (ignored f) (isolate_until f) (pending f)
    (seq_of f) (runs f).

(** The rewind, once the dead-letter file has the record it sets aside. *)
Definition rewind (qsize : nat) (f : Feed) : Feed :=
  forget_pending match suspect qsize f with
                 | Nobody => f
                 | The s => advance_to s (count_dead f)
                 | OneByOne u => isolate u f
                 end.

(** ** The world *)

(** The pump: its reader's position, what is left of what it read, and the record it has put in the
    dead-letter file and not passed yet. *)
Record Pump := MkPump { position : nat; todo : list (nat * Payload); aside_now : option nat }.

Record World := MkWorld {
  feed : Feed; queue : list Obj; batch : list Obj; alive : bool; pump : Pump; next_object : Z;
  log : list Payload; floor : nat; letters : list nat;
  db : Db; survivors : list Db; memory : Memory }.

Definition numbered (l : list Payload) : list (nat * Payload) := imap (fun i p => (S i, p)) l.
Definition slice (a b : nat) (l : list Payload) : list (nat * Payload) := take (b - a) (drop a (numbered l)).

(** A commit that waits for the disk is the only state a power cut can leave; one that does not adds its
    own to them. *)
Definition commit_durably (d : Db) (w : World) : World :=
  MkWorld (feed w) (queue w) (batch w) (alive w) (pump w) (next_object w) (log w) (floor w) (letters w) d [d] (memory w).
Definition commit_lightly (d : Db) (w : World) : World :=
  MkWorld (feed w) (queue w) (batch w) (alive w) (pump w) (next_object w) (log w) (floor w) (letters w) d (survivors w ++ [d])
    (memory w).

Definition with_feed (f : Feed) (w : World) : World :=
  MkWorld f (queue w) (batch w) (alive w) (pump w) (next_object w) (log w) (floor w) (letters w) (db w) (survivors w)
    (memory w).
Definition with_pump (p : Pump) (w : World) : World :=
  MkWorld (feed w) (queue w) (batch w) (alive w) p (next_object w) (log w) (floor w) (letters w) (db w) (survivors w)
    (memory w).
Definition with_letter (s : nat) (w : World) : World :=
  MkWorld (feed w) (queue w) (batch w) (alive w) (pump w) (next_object w) (log w) (floor w) (letters w ++ [s]) (db w) (survivors w)
    (memory w).
Definition with_engine (q b : list Obj) (a : bool) (w : World) : World :=
  MkWorld (feed w) q b a (pump w) (next_object w) (log w) (floor w) (letters w) (db w) (survivors w)
    (memory w).

Definition with_floor (n : nat) (w : World) : World :=
  MkWorld (feed w) (queue w) (batch w) (alive w) (pump w) (next_object w) (log w) n (letters w) (db w) (survivors w)
    (memory w).
Definition with_memory (m : Memory) (w : World) : World :=
  MkWorld (feed w) (queue w) (batch w) (alive w) (pump w) (next_object w) (log w) (floor w) (letters w) (db w) (survivors w) m.
Definition with_log (l : list Payload) (w : World) : World :=
  MkWorld (feed w) (queue w) (batch w) (alive w) (pump w) (next_object w) l (floor w) (letters w) (db w) (survivors w)
    (memory w).

(** [_process] of each item in turn. *)
Definition classify_all (items : list Obj) (x : Memory * Contents) : Memory * Contents :=
  foldl (fun x o => classify E (o_item o) x) x items.

(** The engine's transaction over the first [taken] items of its batch: what it classified and the
    cursor are one commit. *)
Definition transaction (taken : nat) (w : World) : World :=
  let items := take taken (batch w) in
  let x := classify_all items (memory w, contents (db w)) in
  let '(position, d) := stage items (feed w) (MkDb x.2 (meta_cursor (db w))) in
  with_memory x.1 (with_engine (queue w) (drop taken (batch w)) (alive w) (with_feed (committed position (feed w))
    (match position with Some _ => commit_lightly d w | None => commit_durably d w end))).

(** The memory a transaction over [items] had when an exception ended it: in the commit, or within the
    last item's [_process]. *)
Inductive interrupted (x : Memory * Contents) : list Obj -> Memory -> Prop :=
| in_commit items : interrupted x items (classify_all items x).1
| in_process items o m : cut_short E (o_item o) (classify_all items x) m -> interrupted x (items ++ [o]) m.

(** A put, on the queue and in the feed. *)
Definition put_item (i : Item) (s : nat) (w : World) : World :=
  let o := MkObj (next_object w) i in
  MkWorld (delivered o s (feed w)) (queue w ++ [o]) (batch w) (alive w) (pump w) (next_object w + 1) (log w) (floor w) (letters w)
    (db w) (survivors w) (memory w).

(** The cursor moves past a record that is in the dead-letter file. *)
Definition pass_over (s : nat) (w : World) : World :=
  with_feed (advance_to s (feed w)) (commit_durably (MkDb (contents (db w)) s) w).

(** The supervisor's restart of the engine: the pump is cancelled, the queue emptied, and the feed
    starts again after its cursor. *)
Definition restarted (w : World) : World :=
  let f := rewind (length (queue w)) (feed w) in
  let w := match suspect (length (queue w)) (feed w) with The s => pass_over s (with_letter s w) | _ => w end in
  with_pump (MkPump (cursor f) [] None) (with_engine [] [] true (with_feed f w)).

(** The process starts over the database [d], of which a power cut may still leave [l], with the memory
    [Engine.start] made: [open], and the first rewind. *)
Definition opened (m : Memory) (d : Db) (l : list Db) (w : World) : World :=
  let f := rewind 0 (new_feed (meta_cursor d)) in
  MkWorld f [] [] true (MkPump (cursor f) [] None) (next_object w) (log w) (floor w) (letters w) d l m.

(** What may happen next. The process may die at any step, the rewind half-way through setting a record
    aside too, and a power cut leaves the database in any state it may. *)
Inductive step : World -> World -> Prop :=
| st_append l w : step w (with_log (log w ++ l) w)
| st_written h w : step w (with_feed (written h (feed w)) w)
| st_peak w : step w (with_feed (take_peak (feed w)).2 w)
| st_read n w :
    todo (pump w) = [] -> (n <= READ_BATCH)%nat -> (floor w <= position (pump w))%nat -> aside_now (pump w) = None ->
    let l := slice (position (pump w)) (position (pump w) + n) (log w) in
    step w (with_pump (MkPump (position (pump w) + length l) l None) w)
| st_ignore s p rest w :
    todo (pump w) = (s, p) :: rest -> decode p = Nothing ->
    step w (with_pump (MkPump (position (pump w)) rest None) (with_feed (ignore (seen s (feed w))) w))
| st_invalid s p rest why w :
    todo (pump w) = (s, p) :: rest -> decode p = Invalid why -> aside_now (pump w) = None -> pending (feed w) = [] ->
    step w (with_pump (MkPump (position (pump w)) (todo (pump w)) (Some s)) (with_letter s (with_feed (count_invalid (seen s (feed w))) w)))
| st_passed s p rest w :
    todo (pump w) = (s, p) :: rest -> aside_now (pump w) = Some s ->
    step w (with_pump (MkPump (position (pump w)) rest None) (pass_over s w))
| st_put s p i rest w :
    todo (pump w) = (s, p) :: rest -> decode p = Event i ->
    ((s <= isolate_until (feed w))%nat -> pending (feed w) = []) -> (length (queue w) < QUEUE_SIZE)%nat ->
    step w (with_pump (MkPump (position (pump w)) rest None) (put_item i s (with_feed (seen s (feed w)) w)))
| st_take n w :
    alive w = true -> batch w = [] -> (0 < n <= BATCH_SIZE)%nat ->
    step w (with_engine (drop n (queue w)) (take n (queue w)) true w)
| st_commit n w : alive w = true -> (0 < n <= length (batch w))%nat -> step w (transaction n w)
| st_rollback n m m' w :
    alive w = true -> (0 < n <= length (batch w))%nat -> interrupted (memory w, contents (db w)) (take n (batch w)) m ->
    reloads E (contents (db w)) m m' -> step w (with_memory m' w)
| st_crash w : step w (with_engine (queue w) (batch w) false w)
| st_restart w : alive w = false -> step w (restarted w)
| st_prune n w : (n <= cursor (feed w))%nat -> step w (with_floor (Nat.max (floor w) n) (commit_durably (db w) w))
| st_half_aside s w : alive w = false -> suspect (length (queue w)) (feed w) = The s -> step w (with_letter s w)
| st_elsewhere x lasting w :
    elsewhere E (memory w, contents (db w)) x ->
    let d := MkDb x.2 (meta_cursor (db w)) in
    step w (with_memory x.1 (if (lasting : bool) then commit_durably d w else commit_lightly d w))
| st_exit m w : starts E (contents (db w)) m -> step w (opened m (db w) (survivors w) w)
| st_power_cut m d w : d ∈ survivors w -> starts E (contents d) m -> step w (opened m d [d] w).

Definition begin (m : Memory) (d : Db) (l : list Payload) : World :=
  opened m d [d] (MkWorld (new_feed (meta_cursor d)) [] [] true (MkPump (meta_cursor d) [] None) 0 l 0 [] d [d] m).

(** The record a stopped engine had in flight, when it was one. *)
Definition stopped_on (w : World) : gset nat :=
  match pending (feed w) with
  | (_, s) :: _ => if negb (alive w) && Nat.eqb (length (pending (feed w)) - length (queue w)) 1 then {[s]} else ∅
  | [] => ∅
  end.

(** A history from an empty database, and the records an engine stopped on alone. *)
Inductive history (s0 : Contents) : World -> gset nat -> Prop :=
| h_begin m l : starts E s0 m -> history s0 (begin m (MkDb s0 0) l) ∅
| h_step w w' A : history s0 w A -> step w w' -> history s0 w' (A ∪ stopped_on w).

(** ** What is classified *)

Definition event_of (r : nat * Payload) : option (nat * Item) :=
  match decode r.2 with Event i => Some (r.1, i) | _ => None end.
Definition events (l : list (nat * Payload)) : list (nat * Item) := omap event_of l.

(** Every record up to [n] that is an event and was not set aside, in order. *)
Definition due (aside : gset nat) (l : list Payload) (n : nat) : list Item :=
  map snd (filter (fun e => e.1 ∉ aside) (events (slice 0 n l))).

(** The contents [c] are made from [s0] by classifying each of the items once, in order, each with some
    memory, and by what the rest of the process committed in between. *)
Inductive made (s0 : Contents) : list Item -> Contents -> Prop :=
| made_nothing : made s0 [] s0
| made_item l i m c : made s0 l c -> made s0 (l ++ [i]) (classify E i (m, c)).2
| made_elsewhere l m c x : made s0 l c -> elsewhere E (m, c) x -> made s0 l x.2.
End intake.
