(* ===== verification/IntakeLaws.v ===== *)
(** * Every spooled record is classified once

    The invariant of the feed, the engine and the database over every interleaving of [Intake]'s steps. *)
From S2P Require Import Prelude Intake.

Local Arguments slice : simpl never.
Local Arguments events : simpl never.
Local Arguments due : simpl never.

Section laws.
Context {Payload Item Memory Contents : Type} (decode : Payload -> Decoded Item) (engine : Engine Item Memory Contents).
Implicit Types (l : list Payload).
Notation World := (@World Payload Item Memory Contents).
Notation events := (@events Payload Item decode).
Notation due := (@due Payload Item decode).

(** ** Slices of the log *)

Lemma length_numbered l : length (numbered l) = length l.
Proof. unfold numbered. by rewrite length_imap. Qed.

Lemma lookup_numbered l i : numbered l !! i = (λ p, (S i, p)) <$> l !! i.
Proof. unfold numbered. by rewrite list_lookup_imap. Qed.

Lemma numbered_app l l' : ∃ k, numbered (l ++ l') = numbered l ++ k.
Proof. unfold numbered. rewrite imap_app. eauto. Qed.

Lemma slice_split a b c l : (a <= b <= c)%nat -> slice a c l = slice a b l ++ slice b c l.
Proof.
  intros H. unfold slice. replace (drop b (numbered l)) with (drop (b - a) (drop a (numbered l))) by (rewrite drop_drop; f_equal; lia).
  rewrite take_take_drop. f_equal. lia.
Qed.

Lemma slice_nil a l : slice a a l = [].
Proof. unfold slice. by rewrite Nat.sub_diag. Qed.

Lemma slice_log a b l l' : (b <= length l)%nat -> slice a b (l ++ l') = slice a b l.
Proof.
  intros H. unfold slice. destruct (numbered_app l l') as [k ->]. destruct (decide (a <= b)%nat) as [Ha|Ha].
  - rewrite drop_app_le by (rewrite length_numbered; lia). apply take_app_le. rewrite length_drop, length_numbered. lia.
  - by replace (b - a)%nat with 0%nat by lia.
Qed.

Lemma length_slice a b l : (b <= length l)%nat -> length (slice a b l) = (b - a)%nat.
Proof. intros H. unfold slice. rewrite length_take, length_drop, length_numbered. lia. Qed.

Lemma slice_short a n l : (a <= length l)%nat -> slice a (a + n) l = slice a (a + length (slice a (a + n) l)) l.
Proof.
  intros Ha. unfold slice. rewrite length_take, length_drop, length_numbered. rewrite !Nat.add_sub_swap, Nat.sub_diag by lia. simpl.
  destruct (decide (n <= length l - a)%nat); [by rewrite Nat.min_l|]. rewrite Nat.min_r by lia.
  rewrite !take_ge; [done|rewrite length_drop, length_numbered; lia..].
Qed.

(** What is left of a slice after its first record. *)
Lemma slice_cons a b l s p rest :
  (b <= length l)%nat -> slice a b l = (s, p) :: rest -> s = S a ∧ (a < b)%nat ∧ slice a (S a) l = [(s, p)] ∧ rest = slice (S a) b l.
Proof.
  intros Hb H. assert (Hlen : (a < b)%nat) by (pose proof (length_slice a b l Hb) as E; rewrite H in E; simpl in E; lia).
  rewrite (slice_split a (S a) b) in H by lia. pose proof (length_slice a (S a) l) as E. rewrite Nat.sub_succ_l, Nat.sub_diag in E by lia.
  destruct (slice a (S a) l) as [|x [|y k]] eqn:Ex; [exfalso; simpl in E; lia| |exfalso; simpl in E; lia].
  simpl in H. injection H as -> <-. split_and!; try done.
  assert (H0 : slice a (S a) l !! 0%nat = Some (s, p)) by by rewrite Ex. unfold slice in H0.
  rewrite lookup_take in H0. case_decide; [|done]. rewrite lookup_drop, lookup_numbered, Nat.add_0_r in H0.
  destruct (l !! a); [|done]. by injection H0.
Qed.

Lemma elem_slice_seq a b l s p : (s, p) ∈ slice a b l -> (a < s <= b)%nat.
Proof.
  unfold slice. intros H. apply list_elem_of_lookup in H as [i Hi]. rewrite lookup_take in Hi. case_decide; [|done].
  rewrite lookup_drop, lookup_numbered in Hi. destruct (l !! (a + i)%nat); [|done]. injection Hi as <- _. lia.
Qed.

(** ** Events, in order *)

Lemma events_app k k' : events (k ++ k') = events k ++ events k'.
Proof. apply omap_app. Qed.

Lemma elem_events_seq a b l e : e ∈ events (slice a b l) -> (a < e.1 <= b)%nat.
Proof.
  intros ([s p] & Hin & He)%list_elem_of_omap. unfold event_of in He. simpl in He. destruct (decode p); try done.
  injection He as <-. by apply elem_slice_seq in Hin.
Qed.

Lemma events_upto a b c l :
  (a <= b <= c)%nat ->
  events (slice a b l) = filter (λ e, (e.1 <= b)%nat) (events (slice a c l))
  ∧ events (slice b c l) = filter (λ e, ¬ (e.1 <= b)%nat) (events (slice a c l)).
Proof.
  intros H. rewrite (slice_split a b c) by done. rewrite events_app, !filter_app.
  assert (H1 : ∀ e, e ∈ events (slice a b l) -> (e.1 <= b)%nat) by (intros e He%elem_events_seq; lia).
  assert (H2 : ∀ e, e ∈ events (slice b c l) -> ¬ (e.1 <= b)%nat) by (intros e He%elem_events_seq; lia).
  rewrite (filter_all _ _ H1), (filter_all _ _ H2), (filter_none (λ e, (e.1 <= b)%nat) _ H2), app_nil_r.
  rewrite filter_none; [done|]. intros e He Hn. by apply Hn, H1.
Qed.

Lemma events_cons a b l : (a < b <= length l)%nat ->
  ∃ p, slice a b l = (S a, p) :: slice (S a) b l ∧ l !! a = Some p
  ∧ events (slice a b l) = match decode p with Event i => (S a, i) :: events (slice (S a) b l) | _ => events (slice (S a) b l) end.
Proof.
  intros H. destruct (slice a b l) as [|[s p] rest] eqn:E.
  - pose proof (length_slice a b l) as Hl. rewrite E in Hl. simpl in Hl. lia.
  - pose proof E as E'. apply slice_cons in E' as (-> & _ & _ & ->); [|lia]. exists p. split_and!; [done| |].
    + assert (H0 : slice a b l !! 0%nat = Some (S a, p)) by by rewrite E. unfold slice in H0.
      rewrite lookup_take in H0. case_decide; [|done]. rewrite lookup_drop, lookup_numbered, Nat.add_0_r in H0.
      destruct (l !! a); [|done]. by injection H0 as ->.
    + unfold Intake.events. simpl. unfold event_of at 1. simpl. by destruct (decode p).
Qed.

Lemma events_sorted a b l : (b <= length l)%nat -> StronglySorted lt (events (slice a b l)).*1.
Proof.
  intros Hb. remember (b - a)%nat as n eqn:En. revert a En. induction n as [|n IH]; intros a En.
  - unfold slice. rewrite <- En. constructor.
  - destruct (events_cons a b l) as (p & _ & _ & ->); [lia|]. destruct (decode p) as [| |i]; [apply IH; lia..|].
    rewrite fmap_cons. constructor; [apply IH; lia|]. apply Forall_fmap, Forall_forall. intros e He%elem_events_seq. simpl. lia.
Qed.

(** ** What is pending *)

Lemma drop_committed_spec c (k k' : list (@Obj Item * nat)) m :
  Forall (λ e, (e.2 <= c)%nat) k -> Forall (λ e, (c < e.2)%nat) k' ->
  drop_committed c (k ++ k') m = (k', foldl (λ m e, delete (o_id e.1) m) m k).
Proof.
  intros Hk Hk'. revert m. induction Hk as [|[o s] k Hs Hk IH]; intros m; simpl.
  - destruct k' as [|[o s] k']; [done|]. apply Forall_cons in Hk' as [Hs _]. simpl. by rewrite (proj2 (Nat.leb_gt _ _)).
  - simpl in Hs. rewrite (proj2 (Nat.leb_le _ _)) by done. apply IH.
Qed.

Lemma sorted_numbers_split (k : list nat) n s :
  StronglySorted lt k -> k !! n = Some s -> Forall (λ x, (x <= s)%nat) (take (S n) k) ∧ Forall (λ x, (s < x)%nat) (drop (S n) k).
Proof.
  intros Hk. revert n. induction Hk as [|x k Hk IH Hx]; intros n Hn; [done|]. destruct n as [|n]; simpl in Hn |- *.
  - injection Hn as ->. split; [by repeat constructor|]. exact Hx.
  - destruct (IH n Hn) as [H1 H2]. split; [|done]. constructor; [|done].
    apply list_elem_of_lookup_2 in Hn. apply (proj1 (Forall_forall _ _) Hx) in Hn. lia.
Qed.

(** ** The contents *)

Lemma due_split A l a b :
  (a <= b)%nat -> due A l b = due A l a ++ map snd (filter (λ e, e.1 ∉ A) (events (slice a b l))).
Proof. intros H. unfold Intake.due. rewrite (slice_split 0 a b) by lia. by rewrite events_app, filter_app, map_app. Qed.

Lemma due_log A l l' n : (n <= length l)%nat -> due A (l ++ l') n = due A l n.
Proof. intros H. unfold Intake.due. by rewrite slice_log. Qed.

(** A record past [n] does not matter yet. *)
Lemma due_aside A k l n : (n < k)%nat -> due (A ∪ {[k]}) l n = due A l n.
Proof.
  intros H. unfold Intake.due. f_equal. apply filter_ext_in. intros e He%elem_events_seq. rewrite elem_of_union, elem_of_singleton.
  split; [tauto|]. intros Hn [|]; [done|lia].
Qed.

Lemma made_classified s0 (k : list Item) items m c :
  made engine s0 k c -> made engine s0 (k ++ map o_item items) (classify_all engine items (m, c)).2.
Proof.
  revert k m c. induction items as [|o items IH]; intros k m c H; [by rewrite app_nil_r|].
  cbn [map classify_all foldl]. rewrite cons_middle, app_assoc. pose proof (made_item engine s0 k (o_item o) m c H) as H1.
  destruct (classify engine (o_item o) (m, c)) as [m' c']. by apply IH.
Qed.

(** ** The invariant *)

Variable s0 : Contents.
Notation step := (@step Payload Item Memory Contents decode engine).
Notation history := (@history Payload Item Memory Contents decode engine s0).
Notation made := (made engine s0).
Notation Db := (@Db Contents).

Definition values (k : list (@Obj Item * nat)) : list (nat * Item) := map (λ e, (e.2, o_item e.1)) k.

(** With the records set aside and how far the pump has delivered. *)
Record inv (w : World) (A aside : gset nat) (dl : nat) : Prop := {
  v_order : (cursor (feed w) <= dl)%nat ∧ (dl <= position (pump w))%nat ∧ (position (pump w) <= length (log w))%nat;
  v_todo : todo (pump w) = slice dl (position (pump w)) (log w);
  v_pending : values (pending (feed w)) = events (slice (cursor (feed w)) dl (log w));
  v_queue : (pending (feed w)).*1 = batch w ++ queue w;
  v_seq o s : (o, s) ∈ pending (feed w) -> seq_of (feed w) !! o_id o = Some s;
  v_ids : NoDup (map (λ e, o_id e.1) (pending (feed w)));
  v_next o s : (o, s) ∈ pending (feed w) -> o_id o < next_object w;
  v_cursor : meta_cursor (db w) = cursor (feed w);
  v_db : db w ∈ survivors w;
  v_survive d : d ∈ survivors w -> made (due aside (log w) (meta_cursor d)) (contents d)
    ∧ (floor w <= meta_cursor d)%nat ∧ (meta_cursor d <= cursor (feed w))%nat ∧ (∀ k, k ∈ aside -> (k <= meta_cursor d)%nat);
  v_aside k : k ∈ aside -> k ∈ letters w ∧ k ∈ A;
  v_invalid k p why : (k, p) ∈ slice 0 dl (log w) -> decode p = Invalid why -> k ∈ letters w;
  v_now s : aside_now (pump w) = Some s -> pending (feed w) = [] ∧ s ∈ letters w
    ∧ ∃ p rest why, todo (pump w) = (s, p) :: rest ∧ decode p = Invalid why }.

Lemma inv_more A A' w aside dl : A ⊆ A' -> inv w A aside dl -> inv w A' aside dl.
Proof. intros H [ ]. split; try done. intros k Hk. destruct (v_aside0 k Hk). split; [done|by apply H]. Qed.

(** A step that only counts. *)
Lemma inv_feed f A w aside dl :
  cursor f = cursor (feed w) -> pending f = pending (feed w) -> seq_of f = seq_of (feed w) ->
  inv w A aside dl -> inv (with_feed f w) A aside dl.
Proof. intros E1 E2 E3 [ ]. split; cbn; rewrite ?E1, ?E2, ?E3; try done. Qed.

Lemma values_app k k' : values (k ++ k') = values k ++ values k'.
Proof. apply map_app. Qed.

Lemma elem_slice_mono a b c l x : (a <= b <= c)%nat -> x ∈ slice a b l -> x ∈ slice a c l.
Proof. intros H Hx. rewrite (slice_split a b c) by done. apply elem_of_app. by left. Qed.

(** The pump moves past its record. *)
Lemma todo_next A w aside dl s p rest :
  inv w A aside dl -> todo (pump w) = (s, p) :: rest ->
  s = S dl ∧ (S dl <= position (pump w))%nat ∧ rest = slice (S dl) (position (pump w)) (log w)
  ∧ slice 0 (S dl) (log w) = slice 0 dl (log w) ++ [(s, p)]
  ∧ slice (cursor (feed w)) (S dl) (log w) = slice (cursor (feed w)) dl (log w) ++ [(s, p)].
Proof.
  intros [[Ho1 [Ho2 Ho3]] Ht _ _ _ _ _ _ _ _ _ _ _] H. rewrite Ht in H. apply slice_cons in H as (-> & H1 & H2 & H3); [|done].
  split_and!; try done.
  - rewrite (slice_split 0 dl (S dl)), H2 by lia. done.
  - rewrite (slice_split (cursor (feed w)) dl (S dl)), H2 by lia. done.
Qed.

Lemma invalid_next A w aside dl s p rest :
  inv w A aside dl -> todo (pump w) = (s, p) :: rest -> (∀ why, decode p = Invalid why -> s ∈ letters w) ->
  ∀ k q why, (k, q) ∈ slice 0 (S dl) (log w) -> decode q = Invalid why -> k ∈ letters w.
Proof.
  intros H Ht Hs k q why Hin Hq. destruct (todo_next _ _ _ _ _ _ _ H Ht) as (_ & _ & _ & E & _). rewrite E in Hin.
  apply elem_of_app in Hin as [Hin|Hin]; [by eapply v_invalid|]. apply list_elem_of_singleton in Hin as [= -> ->]. by eapply Hs.
Qed.

Lemma events_one s p : events [(s, p)] = match decode p with Event i => [(s, i)] | _ => [] end.
Proof. unfold Intake.events, event_of. simpl. by destruct (decode p). Qed.

Lemma inv_ignore A w aside dl s p rest :
  inv w A aside dl -> todo (pump w) = (s, p) :: rest -> decode p = Nothing ->
  inv (with_pump (MkPump (position (pump w)) rest None) (with_feed (ignore (seen s (feed w))) w)) A aside (S dl).
Proof.
  intros H Ht Hp. destruct (todo_next _ _ _ _ _ _ _ H Ht) as (-> & Hle & Hr & _ & Ec).
  assert (Hinv : ∀ k q why, (k, q) ∈ slice 0 (S dl) (log w) -> decode q = Invalid why -> k ∈ letters w).
  { eapply invalid_next; [done..|]. intros why. by rewrite Hp. }
  destruct H as [Ho Htodo Hpe Hq Hse Hid Hne Hcu Hdb Hsu Has Hin Hno]. split; cbn; try done.
  - lia.
  - by rewrite Ec, events_app, events_one, Hp, app_nil_r.
Qed.

Lemma inv_put A w aside dl s p i rest :
  inv w A aside dl -> todo (pump w) = (s, p) :: rest -> decode p = Event i ->
  inv (with_pump (MkPump (position (pump w)) rest None) (put_item i s (with_feed (seen s (feed w)) w))) A aside (S dl).
Proof.
  intros H Ht Hp. destruct (todo_next _ _ _ _ _ _ _ H Ht) as (-> & Hle & Hr & _ & Ec).
  assert (Hinv : ∀ k q why, (k, q) ∈ slice 0 (S dl) (log w) -> decode q = Invalid why -> k ∈ letters w).
  { eapply invalid_next; [done..|]. intros why. by rewrite Hp. }
  destruct H as [Ho Htodo Hpe Hq Hse Hid Hne Hcu Hdb Hsu Has Hin Hno]. split; cbn; try done.
  - lia.
  - by rewrite values_app, Hpe, Ec, events_app, events_one, Hp.
  - by rewrite fmap_app, Hq, app_assoc.
  - intros o k [Hok|Hok]%elem_of_app.
    + rewrite lookup_insert_ne; [by apply Hse|]. apply Hne in Hok. lia.
    + apply list_elem_of_singleton in Hok as [= -> ->]. cbn. apply lookup_insert_eq.
  - rewrite map_app. apply NoDup_app. split_and!; [done| |apply NoDup_singleton].
    intros x (y & -> & Hy)%list_elem_of_fmap Hx. apply list_elem_of_singleton in Hx. destruct y as [o k]. apply Hne in Hy. simpl in Hx. lia.
  - intros o k [Hok|Hok]%elem_of_app; [apply Hne in Hok; lia|]. apply list_elem_of_singleton in Hok as [= -> _]. cbn. lia.
Qed.

Lemma inv_append A w aside dl l : inv w A aside dl -> inv (with_log (log w ++ l) w) A aside dl.
Proof.
  intros H. pose proof H as [Ho Htodo Hpe Hq Hse Hid Hne Hcu Hdb Hsu Has Hin Hno]. split; cbn; try done.
  - rewrite length_app. lia.
  - rewrite slice_log by lia. done.
  - rewrite slice_log by lia. done.
  - intros d Hd. destruct (Hsu d Hd) as (E & E1 & E2 & E3). split_and!; try done. rewrite due_log by lia. done.
  - intros k p why. rewrite slice_log by lia. apply Hin.
Qed.

Lemma inv_read A w aside dl n :
  inv w A aside dl -> todo (pump w) = [] -> aside_now (pump w) = None ->
  let l := slice (position (pump w)) (position (pump w) + n) (log w) in
  inv (with_pump (MkPump (position (pump w) + length l) l None) w) A aside dl.
Proof.
  intros [Ho Htodo Hpe Hq Hse Hid Hne Hcu Hdb Hsu Has Hin Hno] Ht Hn l.
  assert (E : dl = position (pump w)).
  { rewrite Ht in Htodo. pose proof (length_slice dl (position (pump w)) (log w)) as Hl. rewrite <- Htodo in Hl. simpl in Hl. lia. }
  assert (Hlen : (length l <= length (log w) - position (pump w))%nat).
  { unfold l, slice. rewrite length_take, length_drop, length_numbered. lia. }
  split; cbn; try done.
  - lia.
  - rewrite E. unfold l. apply slice_short. lia.
Qed.

Lemma inv_invalid A w aside dl s p rest why :
  inv w A aside dl -> todo (pump w) = (s, p) :: rest -> decode p = Invalid why -> pending (feed w) = [] ->
  inv (with_pump (MkPump (position (pump w)) (todo (pump w)) (Some s)) (with_letter s (with_feed (count_invalid (seen s (feed w))) w))) A aside dl.
Proof.
  intros [Ho Htodo Hpe Hq Hse Hid Hne Hcu Hdb Hsu Has Hin Hno] Ht Hp Hpend. split; cbn; try done.
  - intros k Hk. destruct (Has k Hk). split; [|done]. apply elem_of_app. by left.
  - intros k q y H1 H2. apply elem_of_app. left. by eapply Hin.
  - intros k [= <-]. split_and!; [done|apply elem_of_app; right; by left|]. eauto.
Qed.

Lemma inv_passed A w aside dl s p rest :
  inv w A aside dl -> todo (pump w) = (s, p) :: rest -> aside_now (pump w) = Some s ->
  inv (with_pump (MkPump (position (pump w)) rest None) (pass_over s w)) A aside (S dl).
Proof.
  intros H Ht Hn. destruct (todo_next _ _ _ _ _ _ _ H Ht) as (-> & Hle & Hr & _ & Ec).
  destruct (v_now _ _ _ _ H (S dl) Hn) as (Hpend & Hlet & q & rest' & why & E & Hp). rewrite Ht in E. injection E as <- <-.
  assert (Hinv : ∀ k q why, (k, q) ∈ slice 0 (S dl) (log w) -> decode q = Invalid why -> k ∈ letters w) by by eapply invalid_next.
  destruct H as [Ho Htodo Hpe Hq Hse Hid Hne Hcu Hdb Hsu Has Hin Hno]. rewrite Hpend in Hpe. destruct (Hsu _ Hdb) as (Hc & Hf & _ & Hk).
  rewrite Hcu in *.
  split; cbn; rewrite ?Nat.max_r by lia; try done.
  - lia.
  - by rewrite Hpend, slice_nil.
  - by left.
  - intros d ->%list_elem_of_singleton. cbn. split_and!; [|lia|lia|intros k Hka; specialize (Hk k Hka); lia].
    rewrite (due_split aside (log w) (cursor (feed w)) (S dl)), Ec, events_app, events_one, Hp, <- Hpe by lia. by rewrite app_nil_r.
Qed.

Lemma inv_engine q b a A w aside dl : b ++ q = batch w ++ queue w -> inv w A aside dl -> inv (with_engine q b a w) A aside dl.
Proof. intros E [ ]. split; cbn; try done. by rewrite E. Qed.

Lemma inv_letter s A w aside dl : inv w A aside dl -> inv (with_letter s w) A aside dl.
Proof.
  intros [Ho Htodo Hpe Hq Hse Hid Hne Hcu Hdb Hsu Has Hin Hno]. split; cbn; try done.
  - intros k Hk. destruct (Has k Hk). split; [|done]. apply elem_of_app. by left.
  - intros k q y H1 H2. apply elem_of_app. left. by eapply Hin.
  - intros k Hk. destruct (Hno k Hk) as (H1 & H2 & H3). split_and!; [done|apply elem_of_app; by left|done].
Qed.

Lemma inv_prune n A w aside dl : (n <= cursor (feed w))%nat -> inv w A aside dl -> inv (with_floor (Nat.max (floor w) n) (commit_durably (db w) w)) A aside dl.
Proof.
  intros Hn [Ho Htodo Hpe Hq Hse Hid Hne Hcu Hdb Hsu Has Hin Hno]. split; cbn; try done; [by left|].
  intros d ->%list_elem_of_singleton. destruct (Hsu _ Hdb) as (E1 & E2 & E3 & E4). split_and!; try done. lia.
Qed.

(** A start after the cursor of [d]: nothing is pending, and the log is read from there. *)
Lemma inv_opened m d (ds : list Db) A w aside dl :
  inv w A aside dl -> d ∈ ds -> (∀ d', d' ∈ ds -> d' ∈ survivors w ∧ (meta_cursor d' <= meta_cursor d)%nat) ->
  inv (opened m d ds w) A aside (meta_cursor d).
Proof.
  intros [Ho Htodo Hpe Hq Hse Hid Hne Hcu Hdb Hsu Has Hin Hno] Hd Hl. destruct (Hl d Hd) as [Hds _].
  destruct (Hsu d Hds) as (E1 & E2 & E3 & E4). split; cbn; try done.
  - lia.
  - by rewrite slice_nil.
  - by rewrite slice_nil.
  - by intros o s ?%not_elem_of_nil.
  - constructor.
  - by intros o s ?%not_elem_of_nil.
  - intros d' Hd'. destruct (Hl d' Hd') as [H1 H2]. destruct (Hsu d' H1) as (F1 & F2 & F3 & F4). done.
  - intros k p why Hk. apply Hin. eapply elem_slice_mono; [|exact Hk]. lia.
Qed.

Lemma last_some (k : list (@Obj Item)) n o : k !! n = Some o -> List.last (map Some (take (S n) k)) None = Some o.
Proof.
  revert n. induction k as [|x k IH]; intros n H; [done|]. destruct n as [|n]; simpl in H |- *; [by injection H as ->|].
  specialize (IH n H). destruct k as [|y k]; [done|]. exact IH.
Qed.

Lemma deleted_ids (k : list (@Obj Item * nat)) (m : gmap Z nat) i :
  i ∉ map (λ e, o_id e.1) k -> foldl (λ m e, delete (o_id e.1) m) m k !! i = m !! i.
Proof.
  revert m. induction k as [|e k IH]; intros m Hi; [done|]. cbn [foldl map] in *. apply not_elem_of_cons in Hi as [H1 H2].
  rewrite IH by done. by rewrite lookup_delete_ne.
Qed.

Lemma items_values (k : list (@Obj Item * nat)) : map o_item (k.*1) = map snd (values k).
Proof. induction k as [|e k IH]; [done|]. cbn. by f_equal. Qed.

Lemma inv_memory m A w aside dl : inv w A aside dl -> inv (with_memory m w) A aside dl.
Proof. by intros [ ]. Qed.

(** What the rest of the process commits leaves the cursor. *)
Lemma inv_elsewhere x (lasting : bool) A w aside dl :
  elsewhere engine (memory w, contents (db w)) x -> inv w A aside dl ->
  let d := Intake.MkDb x.2 (meta_cursor (db w)) in
  inv (with_memory x.1 (if lasting then commit_durably d w else commit_lightly d w)) A aside dl.
Proof.
  intros Hx H d. apply inv_memory. destruct H as [Ho Htodo Hpe Hq Hse Hid Hne Hcu Hdb Hsu Has Hin Hno].
  assert (Hd : made (due aside (log w) (meta_cursor d)) (contents d)
    ∧ (floor w <= meta_cursor d)%nat ∧ (meta_cursor d <= cursor (feed w))%nat ∧ (∀ k, k ∈ aside -> (k <= meta_cursor d)%nat)).
  { destruct (Hsu _ Hdb) as (F1 & F). split; [by eapply made_elsewhere|exact F]. }
  destruct lasting; split; cbn; try done.
  - by left.
  - by intros d' ->%list_elem_of_singleton.
  - apply elem_of_app. right. by left.
  - intros d' [Hd'|Hd']%elem_of_app; [by apply Hsu|]. apply list_elem_of_singleton in Hd' as ->. exact Hd.
Qed.

Lemma values_snd (k : list (@Obj Item * nat)) : (values k).*1 = k.*2.
Proof. unfold values. induction k as [|e k IH]; [done|]. cbn. by f_equal. Qed.

(** The pending records up to the [m]-th and those after it, in the log. *)
Lemma pending_split A w aside dl m o s :
  inv w A aside dl -> pending (feed w) !! m = Some (o, s) ->
  (cursor (feed w) < s <= dl)%nat
  ∧ values (take (S m) (pending (feed w))) = events (slice (cursor (feed w)) s (log w))
  ∧ values (drop (S m) (pending (feed w))) = events (slice s dl (log w))
  ∧ Forall (λ e, (e.2 <= s)%nat) (take (S m) (pending (feed w))) ∧ Forall (λ e, (s < e.2)%nat) (drop (S m) (pending (feed w))).
Proof.
  intros [Ho Htodo Hpe Hq Hse Hid Hne Hcu Hdb Hsu Has Hin Hno] Hm.
  assert (Hkeys : (pending (feed w)).*2 = (events (slice (cursor (feed w)) dl (log w))).*1) by (rewrite <- Hpe; by rewrite values_snd).
  assert (Hsort : StronglySorted lt ((pending (feed w)).*2)) by (rewrite Hkeys; apply events_sorted; lia).
  assert (Hk : (pending (feed w)).*2 !! m = Some s) by (rewrite list_lookup_fmap; by rewrite Hm).
  destruct (sorted_numbers_split _ m s Hsort Hk) as [H1 H2]. rewrite <- fmap_take in H1. rewrite <- fmap_drop in H2.
  rewrite Forall_fmap in H1. rewrite (Forall_fmap snd) in H2.
  assert (Hs : (cursor (feed w) < s <= dl)%nat).
  { assert (Hin' : (s, o_item o) ∈ events (slice (cursor (feed w)) dl (log w))).
    { rewrite <- Hpe. apply list_elem_of_lookup_2 in Hm. apply list_elem_of_fmap. by exists (o, s). }
    apply elem_events_seq in Hin'. done. }
  destruct (events_upto (cursor (feed w)) s dl (log w)) as [E1 E2]; [lia|]. rewrite <- Hpe in E1, E2.
  rewrite <- (take_drop (S m) (pending (feed w))), values_app, filter_app in E1, E2.
  assert (L1 : ∀ e, e ∈ values (take (S m) (pending (feed w))) -> (e.1 <= s)%nat).
  { intros e (x & -> & Hx)%list_elem_of_fmap. exact (proj1 (Forall_forall _ _) H1 x Hx). }
  assert (L2 : ∀ e, e ∈ values (drop (S m) (pending (feed w))) -> ¬ (e.1 <= s)%nat).
  { intros e (x & -> & Hx)%list_elem_of_fmap. pose proof (proj1 (Forall_forall _ _) H2 x Hx) as Hlt. simpl in *. lia. }
  rewrite (filter_all _ _ L1), (filter_none _ _ L2), app_nil_r in E1.
  rewrite (filter_all _ _ L2), (filter_none (λ e, ¬ (e.1 <= s)%nat) (values (take _ _))) in E2.
  2: { intros e He Hn. by apply Hn, L1. }
  split_and!; [lia|lia|done|done|exact H1|exact H2].
Qed.

Lemma inv_commit n A w aside dl : (0 < n <= length (batch w))%nat -> inv w A aside dl -> inv (transaction engine n w) A aside dl.
Proof.
  intros Hn H. destruct n as [|m]; [lia|]. destruct (lookup_lt_is_Some_2 (batch w) m) as [o Ho]; [lia|].
  pose proof (v_queue _ _ _ _ H) as Hqueue.
  destruct (pending (feed w) !! m) as [[o' s]|] eqn:Hm.
  2: { exfalso. apply lookup_ge_None in Hm. apply (f_equal length) in Hqueue. rewrite length_fmap, length_app in Hqueue. lia. }
  assert (o' = o) as ->.
  { assert (E : (pending (feed w)).*1 !! m = Some o') by (by rewrite list_lookup_fmap, Hm).
    rewrite Hqueue, lookup_app_l in E by lia. congruence. }
  destruct (pending_split A w aside dl m o s H Hm) as (Hs & V1 & V2 & F1 & F2).
  assert (Hitems : take (S m) (batch w) = (take (S m) (pending (feed w))).*1).
  { rewrite fmap_take, Hqueue, take_app_le by lia. done. }
  destruct H as [Hor Htodo Hpe Hq Hse Hid Hne Hcu Hdb Hsu Has Hin Hno].
  unfold transaction, stage. rewrite (last_some _ _ _ Ho). rewrite (Hse o s) by by eapply list_elem_of_lookup_2.
  set (after := classify_all _ _ _). apply inv_memory. unfold committed. rewrite Nat.max_r by lia.
  rewrite <- (take_drop (S m) (pending (feed w))), (drop_committed_spec _ _ _ _ F1 F2).
  assert (Hids : NoDup (map (λ e, o_id e.1) (take (S m) (pending (feed w))) ++ map (λ e, o_id e.1) (drop (S m) (pending (feed w)))))
    by (by rewrite <- map_app, take_drop).
  apply NoDup_app in Hids as (_ & Hdis & Hids). split; cbn; try done.
  - lia.
  - apply (app_inv_head (take (S m) (batch w))). rewrite app_assoc, take_drop, <- Hq, Hitems, <- fmap_app, take_drop. done.
  - intros x k Hx. rewrite deleted_ids.
    + apply Hse. rewrite <- (take_drop (S m) (pending (feed w))). apply elem_of_app. by right.
    + intros Hd. apply (Hdis _ Hd). apply list_elem_of_fmap. by exists (x, k).
  - intros x k Hx. apply (Hne x k). rewrite <- (take_drop (S m) (pending (feed w))). apply elem_of_app. by right.
  - apply elem_of_app. right. by left.
  - destruct (Hsu _ Hdb) as (Hc & Hf & _ & Hk). rewrite Hcu in Hc, Hf, Hk.
    intros d [Hd|Hd]%elem_of_app.
    + destruct (Hsu d Hd) as (E1 & E2 & E3 & E4). split_and!; try done. lia.
    + apply list_elem_of_singleton in Hd as ->. cbn. split_and!; [|lia|lia|intros k Hka; specialize (Hk k Hka); lia].
      rewrite (due_split aside (log w) (cursor (feed w)) s) by lia.
      rewrite filter_all; [|]. { rewrite <- V1, <- items_values, <- Hitems. by apply made_classified. } intros e He%elem_events_seq Ha. specialize (Hk _ Ha). lia.
  - intros k Hk. destruct (Hno k Hk) as (H1 & H2). exfalso. rewrite H1 in Hm. done.
Qed.

(** ** A restart *)

Lemma inv_fresh f A w aside dl :
  cursor f = cursor (feed w) -> inv w A aside dl ->
  inv (with_pump (MkPump (cursor f) [] None) (with_engine [] [] true (with_feed (forget_pending f) w))) A aside (cursor f).
Proof.
  intros Ef [Ho Htodo Hpe Hq Hse Hid Hne Hcu Hdb Hsu Has Hin Hno]. split; cbn; rewrite ?Ef; try done.
  - lia.
  - by rewrite slice_nil.
  - by rewrite slice_nil.
  - by intros o s ?%not_elem_of_nil.
  - constructor.
  - by intros o s ?%not_elem_of_nil.
  - intros k p why Hk. apply Hin. eapply elem_slice_mono; [|exact Hk]. lia.
Qed.

Lemma inv_restarted A w aside dl :
  alive w = false -> inv w A aside dl -> ∃ aside' dl', inv (restarted w) (A ∪ stopped_on w) aside' dl'.
Proof.
  intros Hal H. assert (H1 : inv w (A ∪ stopped_on w) aside dl) by (by eapply inv_more; [|exact H]; set_solver).
  unfold restarted, rewind. destruct (suspect (length (queue w)) (feed w)) as [|s|u] eqn:Es.
  - exists aside, (cursor (feed w)). by apply (inv_fresh (feed w) _ _ _ dl).
  - unfold suspect in Es. destruct (_ && _); [|done].
    destruct (Nat.ltb (cursor (feed w)) (isolate_until (feed w)) && Nat.eqb (length (pending (feed w)) - length (queue w)) 1) eqn:Eone.
    2: { by destruct (pending (feed w) !! _) as [[? ?]|]. }
    apply andb_true_iff in Eone as [_ Eone]. destruct (pending (feed w)) as [|[o s'] rest] eqn:Ep; [done|]. injection Es as ->.
    assert (Hm : pending (feed w) !! 0%nat = Some (o, s)) by (by rewrite Ep).
    destruct (pending_split A w aside dl 0 o s H Hm) as (Hs & V1 & _ & _ & _). rewrite Ep in V1. cbn [take values map] in V1.
    assert (Hst : s ∈ stopped_on w).
    { unfold stopped_on. rewrite Ep, Hal. cbn [negb andb]. rewrite <- Ep in Eone |- *. rewrite Eone. by apply elem_of_singleton. }
    clear H. destruct H1 as [Ho Htodo Hpe Hq Hse Hid Hne Hcu Hdb Hsu Has Hin Hno].
    destruct (Hsu _ Hdb) as (Hc & Hf & _ & Hk). rewrite Hcu in Hc, Hf, Hk.
    exists (aside ∪ {[s]}), s.
    assert (Hmax : Nat.max (cursor (feed w)) s = s) by lia.
    split; cbn; rewrite ?Hmax; try done.
    + lia.
    + by rewrite slice_nil.
    + by rewrite slice_nil.
    + by intros x k ?%not_elem_of_nil.
    + constructor.
    + by intros x k ?%not_elem_of_nil.
    + by left.
    + intros d ->%list_elem_of_singleton. cbn.
      assert (Hold : ∀ k, k ∈ aside ∪ {[s]} -> (k <= s)%nat).
      { intros k [Hka| ->%elem_of_singleton]%elem_of_union; [specialize (Hk k Hka); lia|lia]. }
      split_and!; [|lia|lia|done]. rewrite (due_split _ _ (cursor (feed w)) s), due_aside, <- V1 by lia.
      rewrite filter_cons_False; [by rewrite app_nil_r|]. simpl. set_solver.
    + intros k [Hka| ->%elem_of_singleton]%elem_of_union.
      * destruct (Has k Hka). split; [|done]. apply elem_of_app. by left.
      * split; [apply elem_of_app; right; by left|]. apply elem_of_union. by right.
    + intros k p why Hkp Hp. apply elem_of_app. left. eapply Hin; [|exact Hp]. eapply elem_slice_mono; [|exact Hkp]. lia.
  - exists aside, (cursor (feed w)). by apply (inv_fresh (isolate u (feed w)) _ _ _ dl).
Qed.

Lemma inv_step A w w' aside dl :
  inv w A aside dl -> step w w' -> ∃ aside' dl', inv w' (A ∪ stopped_on w) aside' dl'.
Proof.
  intros H0 Hs. assert (H : inv w (A ∪ stopped_on w) aside dl) by (by eapply inv_more; [|exact H0]; set_solver).
  inversion Hs; subst.
  - exists aside, dl. by apply inv_append.
  - exists aside, dl. apply inv_feed; [..|done]; unfold written; by destruct (Nat.ltb _ _).
  - exists aside, dl. by apply inv_feed.
  - exists aside, dl. by apply inv_read.
  - exists aside, (S dl). by eapply inv_ignore.
  - exists aside, dl. by eapply inv_invalid.
  - exists aside, (S dl). by eapply inv_passed.
  - exists aside, (S dl). by eapply inv_put.
  - exists aside, dl. apply inv_engine; [|done]. rewrite take_drop. by rewrite H2.
  - exists aside, dl. by apply inv_commit.
  - exists aside, dl. by apply inv_memory.
  - exists aside, dl. by apply inv_engine.
  - by eapply inv_restarted.
  - exists aside, dl. by apply inv_prune.
  - exists aside, dl. by apply inv_letter.
  - exists aside, dl. by apply inv_elsewhere.
  - exists aside, (meta_cursor (db w)). eapply inv_opened; [exact H|apply H|]. intros d Hd. split; [done|].
    destruct (v_survive _ _ _ _ H d Hd) as (_ & _ & E & _). by rewrite (v_cursor _ _ _ _ H).
  - exists aside, (meta_cursor d). eapply inv_opened; [exact H|by left|]. by intros d' ->%list_elem_of_singleton.
Qed.

Lemma inv_begin m l : inv (begin m (Intake.MkDb s0 0) l) ∅ ∅ 0.
Proof.
  split; cbn; try done.
  - lia.
  - by intros o s ?%not_elem_of_nil.
  - constructor.
  - by intros o s ?%not_elem_of_nil.
  - by left.
  - intros d ->%list_elem_of_singleton. cbn. unfold Intake.due. rewrite slice_nil. split_and!; [constructor|lia..|done].
  - by intros k p why ?%not_elem_of_nil.
Qed.

Lemma history_inv w A : history w A -> ∃ aside dl, inv w A aside dl.
Proof.
  induction 1 as [m l _|w w' A _ (aside & dl & IH) Hs]; [exists ∅, 0%nat; apply inv_begin|]. by eapply inv_step.
Qed.

End laws.

(** ** A concrete history

    Events are numbers; 0 decodes to nothing and 9 does not decode. *)
Definition demo_decode (p : nat) : Decoded nat :=
  match p with 0%nat => Nothing | 9%nat => Invalid "not a trap" | _ => Event p end.
(** The engine remembers each number it classified and the database holds it; nothing of its memory is
    forgotten but with the process. *)
Definition demo_engine : Engine nat (list nat) (list nat) :=
  {| classify i x := (x.1 ++ [i], x.2 ++ [i]); cut_short i x m := m = x.1 ++ [i]; reloads _ m m' := m' = m;
     starts _ m := m = []; elsewhere x y := y = x |}.
Abbreviation DemoWorld := (@Intake.World nat nat (list nat) (list nat)).

(** The steps, chosen. *)
Inductive act := Read (n : nat) | Deliver | SetAside | Take (n : nat) | Commit (n : nat) | Rollback (n : nat) | Crash | Restart | PowerCut (n : nat).

Definition exec (a : act) (w : DemoWorld) : option DemoWorld :=
  match a with
  | Read n =>
      if bool_decide (todo (pump w) = []) && bool_decide (n <= READ_BATCH)%nat && bool_decide (floor w <= position (pump w))%nat
         && bool_decide (aside_now (pump w) = None) then
        let l := slice (position (pump w)) (position (pump w) + n) (log w) in
        Some (with_pump (MkPump (position (pump w) + length l) l None) w)
      else None
  | Deliver =>
      match todo (pump w) with
      | [] => None
      | (s, p) :: rest =>
          match demo_decode p with
          | Nothing => Some (with_pump (MkPump (position (pump w)) rest None) (with_feed (ignore (seen s (feed w))) w))
          | Invalid _ =>
              if bool_decide (aside_now (pump w) = None) && Nat.eqb (length (pending (feed w))) 0 then
                Some (with_pump (MkPump (position (pump w)) (todo (pump w)) (Some s))
                  (with_letter s (with_feed (count_invalid (seen s (feed w))) w)))
              else None
          | Event i =>
              if (Nat.ltb (isolate_until (feed w)) s || Nat.eqb (length (pending (feed w))) 0)
                 && bool_decide (length (queue w) < QUEUE_SIZE)%nat then
                Some (with_pump (MkPump (position (pump w)) rest None) (put_item i s (with_feed (seen s (feed w)) w)))
              else None
          end
      end
  | SetAside =>
      match todo (pump w) with
      | [] => None
      | (s, p) :: rest =>
          if bool_decide (aside_now (pump w) = Some s) then Some (with_pump (MkPump (position (pump w)) rest None) (pass_over s w))
          else None
      end
  | Take n =>
      if alive w && Nat.eqb (length (batch w)) 0 && bool_decide (0 < n <= BATCH_SIZE)%nat then
        Some (with_engine (drop n (queue w)) (take n (queue w)) true w)
      else None
  | Commit n =>
      if alive w && bool_decide (0 < n <= length (batch w))%nat then Some (transaction demo_engine n w) else None
  | Rollback n =>
      if alive w && bool_decide (0 < n <= length (batch w))%nat then
        Some (with_memory (classify_all demo_engine (take n (batch w)) (memory w, contents (db w))).1 w)
      else None
  | Crash => Some (with_engine (queue w) (batch w) false w)
  | Restart => if negb (alive w) then Some (restarted w) else None
  | PowerCut n => (λ d, opened [] d [d] w) <$> survivors w !! n
  end.

Lemma exec_step a w w' : exec a w = Some w' -> Intake.step demo_decode demo_engine w w'.
Proof.
  destruct a as [n| | |n|n|n| | |n]; cbn [exec]; intros H.
  - destruct (_ && _) eqn:E; [|done]. injection H as <-. rewrite !andb_true_iff, !bool_decide_eq_true in E.
    destruct E as [[[E1 E2] E3] E4]. by constructor.
  - destruct (todo (pump w)) as [|[s p] rest] eqn:Et; [done|]. destruct (demo_decode p) as [|why|i] eqn:Ed.
    + injection H as <-. by eapply st_ignore.
    + destruct (_ && _) eqn:E; [|done]. injection H as <-. apply andb_true_iff in E as [E1%bool_decide_eq_true E2%Nat.eqb_eq].
      rewrite <- Et. eapply st_invalid; [done|done|done|]. by apply nil_length_inv.
    + destruct (_ && _) eqn:E; [|done]. injection H as <-. apply andb_true_iff in E as [E1 E2%bool_decide_eq_true].
      eapply st_put; [done|done| |done]. intros Hs. apply orb_true_iff in E1 as [E1%Nat.ltb_lt|E1%Nat.eqb_eq]; [lia|by apply nil_length_inv].
  - destruct (todo (pump w)) as [|[s p] rest] eqn:Et; [done|]. case_bool_decide; [|done]. injection H as <-. by eapply st_passed.
  - destruct (_ && _) eqn:E; [|done]. injection H as <-. rewrite !andb_true_iff, bool_decide_eq_true, Nat.eqb_eq in E.
    destruct E as [[E1 E2] E3]. constructor; [done|by apply nil_length_inv|done].
  - destruct (_ && _) eqn:E; [|done]. injection H as <-. apply andb_true_iff in E as [E1 E2%bool_decide_eq_true]. by constructor.
  - destruct (_ && _) eqn:E; [|done]. injection H as <-. apply andb_true_iff in E as [E1 E2%bool_decide_eq_true].
    eapply st_rollback; [done|done|apply in_commit|done].
  - injection H as <-. constructor.
  - destruct (alive w) eqn:E; [done|]. injection H as <-. by constructor.
  - destruct (survivors w !! n) as [d|] eqn:E; [|done]. injection H as <-. constructor; [by eapply list_elem_of_lookup_2|done].
Qed.

Fixpoint exec_all (l : list act) (w : DemoWorld) (A : gset nat) : option (DemoWorld * gset nat) :=
  match l with
  | [] => Some (w, A)
  | a :: l => w' ← exec a w; exec_all l w' (A ∪ stopped_on w)
  end.

Lemma exec_history l w A w' A' :
  Intake.history demo_decode demo_engine [] w A -> exec_all l w A = Some (w', A') -> Intake.history demo_decode demo_engine [] w' A'.
Proof.
  revert w A. induction l as [|a l IH]; intros w A H; cbn [exec_all]; [by intros [= <- <-]|].
  destruct (exec a w) as [w1|] eqn:E; [|done]. apply IH. eapply h_step; [exact H|]. by eapply exec_step.
Qed.

(** Nothing else commits: what is made is what was classified. *)
Lemma demo_made l c : Intake.made demo_engine [] l c -> c = l.
Proof. induction 1 as [|l i m c _ ->|l m c x _ -> Hx]; [done..|]. by rewrite Hx. Qed.

(** Records 1, 3 and 4 are events, 2 does not decode, the first transaction is rolled back and retried, and
    the engine crashes on 3 twice. *)
Definition demo_world : option (DemoWorld * gset nat) :=
  exec_all [Read 10; Deliver; Take 5; Rollback 1; Commit 1; Deliver; SetAside; Deliver; Deliver; Take 2; Crash; Restart;
            Read 10; Deliver; Take 1; Crash; Restart; Read 10; Deliver; Take 1; Commit 1]
    (begin [] (Intake.MkDb [] 0) [1; 9; 2; 3]%nat) ∅.
Definition demo_summary (w : DemoWorld) : list nat * nat * list nat * list (list nat * nat) :=
  (contents (db w), meta_cursor (db w), letters w, map (λ d, (contents d, meta_cursor d)) (survivors w)).

(** The retried event is in the database once, and in the engine's memory twice. *)
Example a_retried_event_moves_memory_twice :
  (λ r, (contents (db r.1), memory r.1)) <$> demo_world = Some ([1; 3], [1; 1; 3])%nat.
Proof. vm_compute. reflexivity. Qed.

