(* ===== verification/Json.v ===== *)
(** * JSON values and their canonical text

    What [json.loads] answers, and [json.dumps(value, sort_keys=True, separators=(",", ":"))] with its
    ASCII escapes. How a float prints ([float.__repr__]) is an argument. *)
From S2P Require Import Prelude PyLib.

Inductive json :=
| JNull
| JBool (b : bool)
| JInt (z : Z)
| JFloat (f : float)
| JStr (s : string)
| JList (l : list json)
| JObj (fields : list (string * json)).

Section json_ind.
Context (P : json -> Prop) (Hnull : P JNull) (Hbool : ∀ b, P (JBool b)) (Hint : ∀ z, P (JInt z))
  (Hfloat : ∀ f, P (JFloat f)) (Hstr : ∀ s, P (JStr s)) (Hlist : ∀ l, Forall P l -> P (JList l))
  (Hobj : ∀ d, Forall (fun e => P e.2) d -> P (JObj d)).

(** Induction through the nested lists. *)
Fixpoint json_nested (v : json) : P v :=
  match v with
  | JNull => Hnull
  | JBool b => Hbool b
  | JInt z => Hint z
  | JFloat f => Hfloat f
  | JStr s => Hstr s
  | JList l => Hlist l ((fix go (l : list json) : Forall P l :=
      match l with [] => Forall_nil_2 P | x :: l => Forall_cons_2 P x l (json_nested x) (go l) end) l)
  | JObj d => Hobj d ((fix go (d : list (string * json)) : Forall (fun e => P e.2) d :=
      match d with [] => Forall_nil_2 _ | e :: d => Forall_cons_2 _ e d (json_nested e.2) (go d) end) d)
  end.
End json_ind.

(** ** [json.dumps] *)

Definition quote : string := String (Ascii.ascii_of_nat 34) "".
Definition backslash : string := String (Ascii.ascii_of_nat 92) "".

(** One character as [ensure_ascii] writes it. *)
Definition hex_digit (n : Z) : ascii := nth (Z.to_nat n) (chars "0123456789abcdef") "0"%char.
Definition escape (a : ascii) : string :=
  let c := code a in
  if c =? 34 then backslash +:+ quote
  else if c =? 92 then backslash +:+ backslash
  else if c =? 10 then backslash +:+ "n"
  else if c =? 13 then backslash +:+ "r"
  else if c =? 9 then backslash +:+ "t"
  else if c =? 12 then backslash +:+ "f"
  else if c =? 8 then backslash +:+ "b"
  else if (32 <=? c) && (c <=? 126) then String a ""
  else backslash +:+ "u00" +:+ String (hex_digit (c / 16)) (String (hex_digit (c mod 16)) "").

Definition quoted (s : string) : string := quote +:+ join "" (map escape (chars s)) +:+ quote.

(** [sorted(d.items())]: the keys are distinct, so values are never compared. *)
Definition by_key {A} (d : list (string * A)) : list (string * A) :=
  sort_by (fun a b => string_leb a.1 b.1) d.

Section dumps.
Context (float_repr : float -> string).

Fixpoint dumps (v : json) : string :=
  match v with
  | JNull => "null"
  | JBool true => "true"
  | JBool false => "false"
  | JInt z => pretty z
  | JFloat f => float_repr f
  | JStr s => quoted s
  | JList l => "[" +:+ join "," (map dumps l) +:+ "]"
  | JObj d =>
      "{" +:+ join "," (map (fun e => quoted e.1 +:+ ":" +:+ e.2)
        (by_key (map (fun e => (e.1, dumps e.2)) d))) +:+ "}"
  end.
End dumps.

(** What [json.loads] gives back of a canonical text: the same value, its objects in key order. *)
Fixpoint normal (v : json) : json :=
  match v with
  | JList l => JList (map normal l)
  | JObj d => JObj (by_key (map (fun e => (e.1, normal e.2)) d))
  | v => v
  end.

(** ** Sorting by key *)

Lemma string_leb_total a b : string_leb a b = true ∨ string_leb b a = true.
Proof. unfold string_leb. rewrite !bool_decide_eq_true. apply (total String.le). Qed.

Lemma string_leb_trans a b c : string_leb a b = true -> string_leb b c = true -> string_leb a c = true.
Proof. unfold string_leb. rewrite !bool_decide_eq_true. apply transitivity. Qed.

Lemma sort_by_map {A B} (leA : A -> A -> bool) (leB : B -> B -> bool) (f : A -> B) l :
  (∀ x y, leB (f x) (f y) = leA x y) -> sort_by leB (map f l) = map f (sort_by leA l).
Proof.
  intros H. assert (Hi : ∀ x l, insert_by leB (f x) (map f l) = map f (insert_by leA x l)).
  { intros x s. induction s as [|y s IH]; simpl; [done|]. rewrite H. destruct (leA x y); [done|].
    simpl. by rewrite IH. }
  induction l as [|x l IH]; simpl; [done|]. by rewrite IH, Hi.
Qed.

Lemma sort_by_id {A} (le : A -> A -> bool) l :
  StronglySorted (fun x y => le x y = true) l -> sort_by le l = l.
Proof.
  induction 1 as [|x l Hl IH Hx]; simpl; [done|]. rewrite IH. destruct Hx as [|y l Hy _]; simpl; [done|].
  by rewrite Hy.
Qed.

Lemma by_key_map {A B} (f : string * A -> string * B) d :
  (∀ e, (f e).1 = e.1) -> by_key (map f d) = map f (by_key d).
Proof. intros H. apply sort_by_map. intros x y. by rewrite !H. Qed.

Lemma by_key_by_key {A} (d : list (string * A)) : by_key (by_key d) = by_key d.
Proof.
  apply sort_by_id. apply (sort_by_sorted _ (fun _ => True)).
  - by apply Forall_true.
  - intros x y _ _. apply string_leb_total.
  - intros x y z. apply string_leb_trans.
Qed.

(** Reading a canonical text back and writing it again gives the same text. *)
Lemma dumps_normal float_repr v : dumps float_repr (normal v) = dumps float_repr v.
Proof.
  induction v as [| | | | |l Hl|d Hd] using json_nested; simpl; try done.
  - do 3 f_equal. induction Hl as [|x l Hx _ IH]; simpl; [done|]. by rewrite Hx, IH.
  - set (g := fun e : string * json => (e.1, dumps float_repr e.2)).
    set (n := fun e : string * json => (e.1, normal e.2)).
    assert (H : by_key (map g (by_key (map n d))) = by_key (map g d)); [|by rewrite H].
    rewrite (by_key_map g), (by_key_map g d), by_key_by_key, (by_key_map n) by done.
    rewrite map_map. apply map_ext_Forall. unfold by_key at 1. rewrite sort_by_perm.
    eapply Forall_impl; [exact Hd|]. intros e He. unfold g, n. simpl. by rewrite He.
Qed.

(** ** A canonical text is that of one value

    Two values with one text are the same value but for the order of their objects' keys, if floats print apart from each other, from the
    integers and from the constants, in bare characters. *)

Definition delimiter (a : ascii) : bool := existsb (Z.eqb (code a)) [44; 93; 125].
Definition bare (a : ascii) : bool := negb (existsb (Z.eqb (code a)) [34; 44; 58; 91; 93; 123; 125]).
Definition CONSTANTS : list string := ["null"; "true"; "false"].
Record float_text (float_repr : float -> string) : Prop := {
  repr_inj : ∀ f g, float_repr f = float_repr g -> f = g;
  repr_bare : ∀ f, Forall (fun a => bare a = true) (chars (float_repr f));
  repr_not_empty : ∀ f, float_repr f <> "";
  repr_not_constant : ∀ f, float_repr f ∉ CONSTANTS;
  repr_not_int : ∀ f (z : Z), float_repr f <> pretty z }.

(** What follows a value in a text. *)
Definition ended (l : list ascii) : Prop := match l with [] => True | a :: _ => delimiter a = true end.

Lemma bare_not_delimiter a : bare a = true -> delimiter a = false.
Proof. unfold bare, delimiter. cbn. destruct (code a =? 44), (code a =? 93), (code a =? 125); rewrite ?orb_true_r; done. Qed.
Lemma run_split (p q : ascii -> bool) (apart : ∀ c, p c = true -> q c = false) a b s t :
  Forall (fun c => p c = true) a -> Forall (fun c => p c = true) b ->
  match s with [] => True | c :: _ => q c = true end -> match t with [] => True | c :: _ => q c = true end ->
  a ++ s = b ++ t -> a = b ∧ s = t.
Proof.
  intros Ha. revert b. induction Ha as [|c a Hc Ha IH]; intros [|d b] Hb Hs Ht E; cbn in E; [done|..].
  - subst s. apply Forall_cons in Hb as [Hd _]. by rewrite (apart d Hd) in Hs.
  - subst t. by rewrite (apart c Hc) in Ht.
  - injection E as -> E. apply Forall_cons in Hb as [_ Hb]. by destruct (IH b Hb Hs Ht E) as [-> ->].
Qed.
Lemma bare_split a b s t : Forall (fun c => bare c = true) a -> Forall (fun c => bare c = true) b -> ended s -> ended t -> a ++ s = b ++ t -> a = b ∧ s = t.
Proof. apply run_split, bare_not_delimiter. Qed.

Definition all_ascii : list ascii := map Ascii.ascii_of_nat (seq 0 256).
Lemma in_all_ascii a : a ∈ all_ascii.
Proof.
  unfold all_ascii. apply list_elem_of_fmap. exists (Ascii.nat_of_ascii a). split; [by rewrite Ascii.ascii_nat_embedding|].
  apply elem_of_seq. pose proof (Ascii.nat_ascii_bounded a). lia.
Qed.
(** Two texts that differ within the shorter one. *)
Fixpoint apart (l k : list ascii) : bool :=
  match l, k with a :: l, b :: k => if bool_decide (a = b) then apart l k else true | _, _ => false end.
Lemma apart_split l k s t : apart l k = true -> l ++ s <> k ++ t.
Proof.
  revert k. induction l as [|a l IH]; intros [|b k] H E; cbn in *; try done. injection E as -> E. rewrite bool_decide_true in H by done. by eapply IH.
Qed.
Lemma escapes_apart : forallb (fun a => forallb (fun b => bool_decide (a = b) || apart (chars (escape a)) (chars (escape b))) all_ascii) all_ascii = true.
Proof. vm_compute. reflexivity. Qed.
Lemma escape_split a b s t : chars (escape a) ++ s = chars (escape b) ++ t -> a = b ∧ s = t.
Proof.
  intros E. pose proof escapes_apart as H. rewrite forallb_forall in H. specialize (H a (proj1 (list_elem_of_In _ _) (in_all_ascii a))).
  rewrite forallb_forall in H. specialize (H b (proj1 (list_elem_of_In _ _) (in_all_ascii b))). apply orb_true_iff in H as [H%bool_decide_eq_true|H].
  - subst b. split; [done|]. by apply app_inv_head in E.
  - by apply apart_split with (1 := H) in E.
Qed.
Definition quote_char : ascii := Ascii.ascii_of_nat 34.
Lemma escapes_start : forallb (fun a => apart (chars (escape a)) [quote_char]) all_ascii = true.
Proof. vm_compute. reflexivity. Qed.
Lemma escape_start a s t : chars (escape a) ++ s <> quote_char :: t.
Proof.
  pose proof escapes_start as H. rewrite forallb_forall in H. apply (apart_split _ [quote_char]). apply H, list_elem_of_In, in_all_ascii.
Qed.

Lemma chars_eq s t : chars s = chars t -> s = t.
Proof. intros E. by rewrite <- (unchars_chars s), E, unchars_chars. Qed.
Lemma chars_quoted s : chars (quoted s) = quote_char :: (chars s ≫= fun a => chars (escape a)) ++ [quote_char].
Proof.
  unfold quoted. rewrite !chars_app. cbn. f_equal. f_equal. induction (chars s) as [|a l IH]; [done|]. cbn [map].
  destruct l as [|b l]; [cbn; by rewrite app_nil_r|]. cbn [map] in *. change (join "" (escape a :: escape b :: map escape l)) with (escape a +:+ "" +:+ join "" (escape b :: map escape l)).
  rewrite !chars_app. cbn [chars String.list_ascii_of_string app]. by rewrite IH.
Qed.
Lemma quoted_split s t r r' : chars (quoted s) ++ r = chars (quoted t) ++ r' -> s = t ∧ r = r'.
Proof.
  rewrite !chars_quoted. cbn. rewrite <- !app_assoc. cbn. intros [= E].
  assert (∀ l k, (l ≫= fun a => chars (escape a)) ++ quote_char :: r = (k ≫= fun a => chars (escape a)) ++ quote_char :: r' -> l = k ∧ r = r') as H.
  { clear. intros l. induction l as [|a l IH]; intros [|b k] E; cbn in E; rewrite <- ?app_assoc in E.
    - by injection E.
    - symmetry in E. by apply escape_start in E.
    - by apply escape_start in E.
    - apply escape_split in E as [-> E]. by destruct (IH k E) as [-> ->]. }
  apply H in E as [E ->]. split; [by apply chars_eq|done].
Qed.

(** Elements between commas, up to a closing bracket. *)
Section joined.
Context {A : Type} (text : A -> string) (same : A -> A -> Prop) (close : ascii) (Hclose : delimiter close = true) (Hcomma : close <> ","%char).
Definition element_ok (x : A) : Prop := ∀ y s t, ended s -> ended t -> chars (text x) ++ s = chars (text y) ++ t -> same x y ∧ s = t.
Context (Hstart : ∀ x, ∃ a l, chars (text x) = a :: l ∧ delimiter a = false).
Lemma chars_join x l : chars (join "," (map text (x :: l))) = chars (text x) ++ match l with [] => [] | _ :: _ => ","%char :: chars (join "," (map text l)) end.
Proof using.
  destruct l as [|y l]; [cbn; by rewrite app_nil_r|]. cbn [map]. change (join "," (text x :: text y :: map text l)) with (text x +:+ "," +:+ join "," (text y :: map text l)).
  by rewrite !chars_app.
Qed.
Lemma join_split l l' s t : Forall element_ok l -> chars (join "," (map text l)) ++ close :: s = chars (join "," (map text l')) ++ close :: t -> Forall2 same l l' ∧ s = t.
Proof using Hclose Hcomma Hstart.
  intros F. revert l'. induction F as [|x l Hx F IH]; intros [|y l'] E.
  - cbn in E. injection E as ->. by split.
  - rewrite chars_join in E. destruct (Hstart y) as (a & k & Ey & Ha). rewrite Ey in E. cbn in E. injection E as <- _. by rewrite Hclose in Ha.
  - rewrite chars_join in E. destruct (Hstart x) as (a & k & Ex & Ha). rewrite Ex in E. cbn in E. injection E as -> _. by rewrite Hclose in Ha.
  - rewrite !chars_join, <- !app_assoc in E. apply Hx in E as [Hs E].
    + destruct l as [|x2 l], l' as [|y2 l']; cbn [app] in E.
      * injection E as ->. split; [by repeat constructor|done].
      * by injection E as ->.
      * by injection E as <-.
      * injection E as E. destruct (IH (y2 :: l') E) as [F2 ->]. split; [by constructor|done].
    + destruct l; cbn; [done|by vm_compute].
    + destruct l'; cbn; [done|by vm_compute].
Qed.
End joined.

Definition digit_char (a : ascii) : bool := (48 <=? code a) && (code a <=? 57).
Lemma digits_only x s : Forall (fun a => digit_char a = true) (chars s) -> Forall (fun a => digit_char a = true) (chars (pretty_N_go x s)).
Proof.
  revert s. induction (N.lt_wf_0 x) as [x _ IH]; intros s Fs. destruct (decide (x = 0)%N) as [->|]; [by rewrite pretty_N_go_0|].
  rewrite pretty_N_go_step by lia. apply IH; [apply N.div_lt; lia|]. cbn. constructor; [|done]. unfold pretty_N_char. by repeat case_match.
Qed.
Lemma pretty_digits (x : N) : Forall (fun a => digit_char a = true) (chars (pretty x)).
Proof. unfold pretty, pretty_N. case_decide; [by repeat constructor|]. by apply digits_only. Qed.
Lemma digit_bare a : digit_char a = true -> bare a = true.
Proof.
  unfold digit_char, bare. intros [H1%Z.leb_le H2%Z.leb_le]%andb_true_iff. apply negb_true_iff, not_true_is_false. intros (c & Hc & E%Z.eqb_eq)%existsb_exists.
  cbn in Hc. lia.
Qed.
Lemma pretty_bare (z : Z) : Forall (fun a => bare a = true) (chars (pretty z)).
Proof.
  assert (∀ x : N, Forall (fun a => bare a = true) (chars (pretty x))) as H by (intros x; eapply Forall_impl; [apply pretty_digits|apply digit_bare]).
  destruct z as [|p|p]; [by repeat constructor|apply (H (Npos p))|]. change (pretty (Z.neg p)) with ("-" +:+ pretty (Npos p)). rewrite chars_app. constructor; [done|apply H].
Qed.

Section injective.
Context (float_repr : float -> string) (Hf : float_text float_repr).

Lemma digits_start x s a l : chars s = a :: l -> (48 <=? code a) && (code a <=? 57) = true ->
  ∃ b k, chars (pretty_N_go x s) = b :: k ∧ (48 <=? code b) && (code b <=? 57) = true.
Proof using.
  revert s a l. induction (N.lt_wf_0 x) as [x _ IH]; intros s a l E D. destruct (decide (x = 0)%N) as [->|]; [rewrite pretty_N_go_0; eauto|].
  rewrite pretty_N_go_step by lia. eapply IH; [apply N.div_lt; lia|reflexivity|]. unfold pretty_N_char. by repeat case_match.
Qed.
Lemma pretty_start (z : Z) : ∃ b k, chars (pretty z) = b :: k ∧ ((48 <=? code b) && (code b <=? 57) || (code b =? 45)) = true.
Proof using.
  assert (∀ x : N, ∃ b k, chars (pretty x) = b :: k ∧ (48 <=? code b) && (code b <=? 57) = true) as H.
  { intros x. unfold pretty, pretty_N. case_decide; [by eexists _, _|]. rewrite pretty_N_go_step by lia. eapply digits_start; [reflexivity|]. unfold pretty_N_char. by repeat case_match. }
  destruct z as [|p|p]; [by eexists _, _| |].
  - destruct (H (Npos p)) as (b & k & E & D). exists b, k. split; [exact E|by rewrite D].
  - destruct (H (Npos p)) as (b & k & E & D). change (pretty (Z.neg p)) with ("-" +:+ pretty (Npos p)). rewrite chars_app. by eexists _, _.
Qed.

(** The text of a constant or a number. *)
Definition token (v : json) : Prop := match v with JStr _ | JList _ | JObj _ => False | _ => True end.
Lemma token_bare v : token v -> Forall (fun a => bare a = true) (chars (dumps float_repr v)).
Proof using Hf.
  destruct v as [|[]|z|f|s|l|d]; intros T; try done; [by repeat constructor..|apply pretty_bare|apply (repr_bare _ Hf)].
Qed.
Lemma dumps_start v : ∃ a l, chars (dumps float_repr v) = a :: l ∧ bare a = match v with JStr _ | JList _ | JObj _ => false | _ => true end ∧ delimiter a = false.
Proof using Hf.
  destruct v as [|[]|z|f|s|l|d]; try by eexists _, _.
  - destruct (pretty_start z) as (b & k & E & _). exists b, k. pose proof (pretty_bare z) as F. rewrite E in F. apply Forall_cons in F as [F _]. split; [exact E|]. split; [done|by apply bare_not_delimiter].
  - pose proof (repr_bare _ Hf f) as F. pose proof (repr_not_empty _ Hf f) as N. cbn [dumps]. destruct (chars (float_repr f)) as [|b k] eqn:E; [by apply (chars_eq _ "") in E|].
    apply Forall_cons in F as [F _]. exists b, k. split; [done|]. split; [done|by apply bare_not_delimiter].
Qed.
Lemma token_inj v w : token v -> token w -> dumps float_repr v = dumps float_repr w -> v = w.
Proof using Hf.
  assert (∀ (z : Z) c, c ∈ CONSTANTS -> pretty z <> c) as Hz.
  { intros z c Hc E. destruct (pretty_start z) as (b & k & Eb & D). rewrite E in Eb. unfold CONSTANTS in Hc.
    repeat (apply elem_of_cons in Hc as [->|Hc]; [injection Eb as <- _; by vm_compute in D|]). by apply elem_of_nil in Hc. }
  assert (∀ c, c ∈ CONSTANTS -> ∀ f, float_repr f <> c) as Hc by (intros c Hc' f E; rewrite <- E in Hc'; by apply (repr_not_constant _ Hf f)).
  destruct v as [|[]|z|f| | |], w as [|[]|z'|f'| | |]; intros Tv Tw E; cbn in Tv, Tw, E; try done;
    try (exfalso; first [apply (Hz _ _) in E|symmetry in E; apply (Hz _ _) in E|apply (Hc _) in E|symmetry in E; apply (Hc _) in E]; [done|unfold CONSTANTS; set_solver]).
  - f_equal. by apply (inj pretty).
  - symmetry in E. by apply (repr_not_int _ Hf) in E.
  - by apply (repr_not_int _ Hf) in E.
  - f_equal. by apply (repr_inj _ Hf).
Qed.

Lemma dumps_obj d : dumps float_repr (JObj d) = "{" +:+ join "," (map (fun e => quoted e.1 +:+ ":" +:+ dumps float_repr e.2) (by_key d)) +:+ "}".
Proof using. cbn [dumps]. rewrite by_key_map by done. by rewrite map_map. Qed.
Lemma normal_obj d : normal (JObj d) = JObj (map (fun e => (e.1, normal e.2)) (by_key d)).
Proof using. cbn [normal]. by rewrite by_key_map. Qed.

Lemma kind_split v w s t : chars (dumps float_repr v) ++ s = chars (dumps float_repr w) ++ t -> token v -> token w.
Proof using Hf.
  intros E T. destruct (dumps_start v) as (a & l & Ea & Ba & _), (dumps_start w) as (b & k & Eb & Bb & _).
  rewrite Ea, Eb in E. cbn in E. injection E as -> _. rewrite Ba in Bb. by destruct v, w.
Qed.
Lemma token_split v w s t : token v -> ended s -> ended t -> chars (dumps float_repr v) ++ s = chars (dumps float_repr w) ++ t -> normal v = normal w ∧ s = t.
Proof using Hf.
  intros T Hs Ht E. pose proof (kind_split v w s t E T) as Tw.
  destruct (bare_split _ _ s t (token_bare v T) (token_bare w Tw) Hs Ht E) as [Et ->]. apply chars_eq, token_inj in Et; [by subst w|done|done].
Qed.
Definition entry_text (e : string * json) : string := quoted e.1 +:+ ":" +:+ dumps float_repr e.2.
Lemma list_chars l s : chars (dumps float_repr (JList l)) ++ s = "["%char :: chars (join "," (map (dumps float_repr) l)) ++ "]"%char :: s.
Proof using. cbn [dumps]. rewrite !chars_app. cbn. by rewrite <- app_assoc. Qed.
Lemma obj_chars d s : chars (dumps float_repr (JObj d)) ++ s = "{"%char :: chars (join "," (map entry_text (by_key d))) ++ "}"%char :: s.
Proof using. rewrite dumps_obj, !chars_app. cbn. by rewrite <- app_assoc. Qed.
Lemma str_chars x s : chars (dumps float_repr (JStr x)) ++ s = quote_char :: ((chars x ≫= fun a => chars (escape a)) ++ [quote_char]) ++ s.
Proof using. cbn [dumps]. by rewrite chars_quoted. Qed.
Lemma entry_start e : ∃ a l, chars (entry_text e) = a :: l ∧ delimiter a = false.
Proof using. unfold entry_text. rewrite chars_app, chars_quoted. by eexists _, _. Qed.
Lemma entry_split e : (∀ w s t, ended s -> ended t -> chars (dumps float_repr e.2) ++ s = chars (dumps float_repr w) ++ t -> normal e.2 = normal w ∧ s = t) ->
  element_ok entry_text (fun a b => (a.1, normal a.2) = (b.1, normal b.2)) e.
Proof using.
  intros H e' s t Hs Ht E. unfold entry_text in E. rewrite !chars_app, <- !app_assoc in E. apply quoted_split in E as [Ek E].
  cbn in E. injection E as E. destruct (H _ s t Hs Ht E) as [Ev ->]. split; [by rewrite Ek, Ev|done].
Qed.

(** A text, and what follows it, can be read in one way. *)
Lemma dumps_split v : ∀ w s t, ended s -> ended t -> chars (dumps float_repr v) ++ s = chars (dumps float_repr w) ++ t -> normal v = normal w ∧ s = t.
Proof using Hf.
  induction v as [|b|z|f|x|l Hl|d Hd] using json_nested; intros w s t Hs Ht E; [by apply token_split..| | |].
  all: assert (¬ token w) as T by (intros T; symmetry in E; by apply kind_split in E).
  - destruct w as [| | | |y|l'|d']; try (by destruct (T I)).
    + cbn in E. apply quoted_split in E as [-> ->]. done.
    + by rewrite str_chars, list_chars in E.
    + by rewrite str_chars, obj_chars in E.
  - destruct w as [| | | |y|l'|d']; try (by destruct (T I)).
    + by rewrite str_chars, list_chars in E.
    + rewrite !list_chars in E. injection E as E. apply (join_split (dumps float_repr) (fun a b => normal a = normal b)) in E as [F ->]; [|done|done| |].
      * split; [|done]. cbn. f_equal. clear Hl. induction F as [|a b l l' Hab _ IH]; [done|]. cbn. by rewrite Hab, IH.
      * intros u. destruct (dumps_start u) as (a & k & Ea & _ & Da). by exists a, k.
      * eapply Forall_impl; [exact Hl|]. intros u Hu w' s' t'. apply Hu.
    + by rewrite list_chars, obj_chars in E.
  - destruct w as [| | | |y|l'|d']; try (by destruct (T I)).
    + by rewrite str_chars, obj_chars in E.
    + by rewrite list_chars, obj_chars in E.
    + rewrite !obj_chars in E. injection E as E. apply (join_split entry_text (fun a b => (a.1, normal a.2) = (b.1, normal b.2))) in E as [F ->]; [|done|done|apply entry_start|].
      * split; [|done]. rewrite !normal_obj. f_equal. induction F as [|a b k k' Hab _ IH]; [done|]. cbn. by rewrite Hab, IH.
      * unfold by_key. rewrite sort_by_perm. eapply Forall_impl; [exact Hd|]. intros e He. by apply entry_split.
Qed.
Lemma dumps_inj v w : dumps float_repr v = dumps float_repr w -> normal v = normal w.
Proof using Hf. intros E. by apply (dumps_split v w [] []); [..|by rewrite E]. Qed.
End injective.
