(* ===== verification/Trees.v ===== *)
(** * The three tree kinds ([engine/model/tree.py], [forest.py], [boosting.py])

    Their documents, the rules a document must pass, their fits and the scorers they build. A call answers [res problem A]:
    a [problem] is [TreePayloadError] but for [Number Too_large] ([OverflowError]), [Key] ([KeyError]), [Cells_beyond] ([AttributionError]),
    [No_members] ([ZeroDivisionError]) and [Cannot_walk] ([IndexError]). The text of a message is left out, its label is [Member]. *)
From S2P Require Import Prelude PyLib Floats Scoring Json Cart Attribution.

Inductive number_problem := Not_a_number | Infinite_or_nan | Too_large.
Inductive problem :=
  | Not_a_list | Bad_row (position : nat) | Field (position column : nat) (p : number_problem)
  | Number (key : string) (p : number_problem) | Count (key : string) | Criterion_unknown | Key (key : string)
  | Structure (p : structure_problem) | Leaf_beyond (position : nat) | Single_leaf | Never_links (high : float) | Always_links (low : float)
  | Cells_beyond (n : Z) | Cannot_walk | Seed_missing | Few_trees (n : nat) | Same_trees | No_members
  | Rate_missing | Rate_out_of_range (rate : float) | No_rounds | Base_score_missing | Base_value_wrong (rebuilt : float)
  | Member_of (index : nat) (p : problem).

Definition Payload : Type := list (string * json).
Definition MIN_ESTIMATORS : nat := 2.
Definition MIN_ROUNDS : nat := 1.
Definition CRITERIA : list string := ["gini"; "entropy"]%string.
Definition SCALARS : list string := ["base_score"; "base_value"; "learning_rate"; "seed"; "threshold"]%string.
Definition COUNTS : list string := ["max_depth"; "min_samples_leaf"; "mtry"; "n_estimators"; "n_rounds"]%string.
Definition TREE_KEYS : list string := ["base_value"; "criterion"; "max_depth"; "min_samples_leaf"; "nodes"; "threshold"]%string.
Definition FOREST_KEYS : list string := ["base_value"; "max_depth"; "min_samples_leaf"; "mtry"; "n_estimators"; "seed"; "threshold"; "trees"]%string.
Definition BOOSTING_KEYS : list string := ["base_score"; "base_value"; "learning_rate"; "max_depth"; "min_samples_leaf"; "n_rounds"; "threshold"; "trees"]%string.

(** ** Documents *)

(** [isinstance(value, int | float)], not a bool, and [math.isfinite(float(value))]; [float] of an integer beyond the largest float raises. *)
Definition number (v : json) : res number_problem float :=
  match v with
  | JInt z => let f := f_of_Z z in if f_finite f then Ok f else Err Too_large
  | JFloat f => if f_finite f then Ok f else Err Infinite_or_nan
  | _ => Err Not_a_number
  end.
(** [int(value)] of a finite number. *)
Definition whole (v : json) : Z := match v with JInt z => z | JFloat f => f_trunc f | _ => 0 end.
Definition reraise {E F A} (wrap : E -> F) (r : res E A) : res F A := match r with Ok a => Ok a | Err e => Err (wrap e) end.

Definition node_from (position : nat) (row : json) : res problem Node :=
  match row with
  | JList [a; b; c; d; e] =>
      vs ← mapM (M := res problem) id (imap (fun column v => reraise (Field position column) (number v)) [a; b; c; d; e]);
      Ok (MkNode (whole a) (nth 1 vs f_zero) (whole c) (whole d) (nth 4 vs f_zero))
  | _ => Err (Bad_row position)
  end.
Definition nodes_from_payload (v : json) : res problem (list Node) :=
  match v with JList rows => mapM (M := res problem) id (imap node_from rows) | _ => Err Not_a_list end.
Definition trees_from_payload (v : json) : res problem (list (list Node)) :=
  match v with JList ms => mapM (M := res problem) id (imap (fun i m => reraise (Member_of i) (nodes_from_payload m)) ms) | _ => Err Not_a_list end.
Definition document_payload (nodes : list Node) : json :=
  JList (map (fun n => JList [JFloat (f_of_Z (feature n)); JFloat (threshold n); JFloat (f_of_Z (left n)); JFloat (f_of_Z (right n)); JFloat (value n)]) nodes).

(** The first of a loop's raises. *)
Fixpoint each {A} (l : list A) (k : A -> res problem unit) : res problem unit :=
  match l with [] => Ok () | a :: l => _ ← k a; each l k end.
Definition scalar_error (payload : Payload) : res problem unit :=
  _ ← each SCALARS (fun key => match assoc key payload with None => Ok () | Some v => _ ← reraise (Number key) (number v); Ok () end);
  each COUNTS (fun key => match assoc key payload with None => Ok () | Some (JInt z) => ensure (0 <=? z) (Count key) (Ok ()) | Some _ => Err (Count key) end).

(** [payload[key]], and [float(payload[key])] of a number. *)
Definition item (key : string) (payload : Payload) : res problem json := match assoc key payload with Some v => Ok v | None => Err (Key key) end.
Definition item_float (key : string) (payload : Payload) : res problem float := v ← item key payload; reraise (Number key) (number v).

(** ** The rules *)

Section rules.
Context (max_abs : float) (bounds : list (float * float)).

(** Some output within the bounds links, and some does not. *)
Definition reachable (threshold : float) (members : list Member) (base_score : float) : res problem unit :=
  match extremes members base_score bounds with
  | Err (Too_many_cells n) => Err (Cells_beyond n)
  | Err Not_a_tree => Err Cannot_walk
  | Ok (low, high) =>
      if fleb high threshold then Err (Never_links high)
      else if fltb threshold low then Err (Always_links low)
      else Ok ()
  end.
Definition validate (nodes : list Node) (threshold : float) (check_depth : bool) : res problem unit :=
  match structure_error nodes with
  | None => Err Cannot_walk
  | Some (Err p) => Err (Structure p)
  | Some (Ok _) =>
      _ ← each (zip (seq 0 (length nodes)) nodes) (fun e => ensure (negb (is_leaf e.2 && fltb max_abs (SFabs (value e.2)))) (Leaf_beyond e.1) (Ok ()));
      if check_depth then
        if Nat.eqb (length nodes) 1 then Err Single_leaf else reachable threshold [(f_one, nodes)] f_zero
      else Ok ()
  end.

Definition node_eqb (a b : Node) : bool :=
  (feature a =? feature b) && feqb (threshold a) (threshold b) && (left a =? left b) && (right a =? right b) && feqb (value a) (value b).
Fixpoint nodes_eqb (a b : list Node) : bool :=
  match a, b with [], [] => true | n :: a, m :: b => node_eqb n m && nodes_eqb a b | _, _ => false end.
(** [len({tuple(nodes) for nodes in grown}) == 1] *)
Definition all_same (grown : list (list Node)) : bool := match grown with [] => false | t :: grown => forallb (nodes_eqb t) grown end.

Definition validate_members (grown : list (list Node)) (threshold : float) : res problem unit :=
  each (zip (seq 0 (length grown)) grown) (fun e => reraise (Member_of e.1) (validate e.2 threshold false)).

(** [forest._members]: [1.0 / len(grown)] raises of no tree. *)
Definition forest_members (grown : list (list Node)) : res problem (list Member) :=
  match grown with [] => Err No_members | _ => Ok (map (pair (fdiv f_one (f_of_Z (Z.of_nat (length grown))))) grown) end.
Definition forest_validate (grown : list (list Node)) (params : Payload) (threshold : float) : res problem unit :=
  match assoc "seed"%string params with
  | Some (JInt _) =>
      if Nat.ltb (length grown) MIN_ESTIMATORS then Err (Few_trees (length grown))
      else
        _ ← validate_members grown threshold;
        if all_same grown then Err Same_trees else members ← forest_members grown; reachable threshold members f_zero
  | _ => Err Seed_missing
  end.

Definition boosting_members (learning_rate : float) (grown : list (list Node)) : list Member := map (pair learning_rate) grown.
Definition as_float (key : string) (v : json) : res problem float :=
  match v with JInt _ => reraise (Number key) (number v) | JFloat f => Ok f | _ => Err (Number key Not_a_number) end.
Definition is_number (v : json) : bool := match v with JInt _ | JFloat _ => true | _ => false end.
Definition number_at (key : string) (missing : problem) (params : Payload) : res problem json :=
  match assoc key params with Some v => ensure (is_number v) missing (Ok v) | None => Err missing end.
Definition boosting_validate (grown : list (list Node)) (params : Payload) (threshold : float) : res problem unit :=
  rate ← number_at "learning_rate" Rate_missing params;
  rate ← as_float "learning_rate" rate;
  ensure (fltb f_zero rate && fleb rate f_one) (Rate_out_of_range rate) (
  ensure (negb (Nat.ltb (length grown) MIN_ROUNDS)) No_rounds (
  base ← number_at "base_score" Base_score_missing params;
  _ ← validate_members grown threshold;
  base ← as_float "base_score" base;
  reachable threshold (boosting_members rate grown) base)).

Inductive Kind := Tree | Forest | Gradient_boosting.

(** [validate_payload] of each kind. *)
Definition validate_payload (k : Kind) (payload : Payload) : res problem unit :=
  _ ← scalar_error payload;
  match k with
  | Tree =>
      match assoc "criterion"%string payload with
      | Some (JStr c) =>
          ensure (bool_decide (c ∈ CRITERIA)) Criterion_unknown (
          doc ← item "nodes" payload; nodes ← nodes_from_payload doc; t ← item_float "threshold" payload; validate nodes t true)
      | _ => Err Criterion_unknown
      end
  | Forest => doc ← item "trees" payload; grown ← trees_from_payload doc; t ← item_float "threshold" payload; forest_validate grown payload t
  | Gradient_boosting => doc ← item "trees" payload; grown ← trees_from_payload doc; t ← item_float "threshold" payload; boosting_validate grown payload t
  end.
End rules.

(** ** The scorers *)

Section scorers.
Context (background : list (list float)).

Definition with_leaves (members : list Member) : res problem (list (float * list Leaf)) :=
  mapM (M := res problem) (fun m : Member => match leaves m.2 with Some ls => Ok (m.1, ls) | None => Err Cannot_walk end) members.
Definition explainer_of (members : list Member) (base_score : float) : res problem Explainer :=
  ms ← with_leaves members; reraise (fun e : attribution_error => let 'Cells n := e in Cells_beyond n) (build background ms base_score).

(** The weighted trees a document describes, and the constant they are added to. *)
Definition model_of (k : Kind) (payload : Payload) : res problem (list Member * float) :=
  match k with
  | Tree => doc ← item "nodes" payload; nodes ← nodes_from_payload doc; Ok ([(f_one, nodes)], f_zero)
  | Forest => doc ← item "trees" payload; grown ← trees_from_payload doc; ms ← forest_members grown; Ok (ms, f_zero)
  | Gradient_boosting =>
      doc ← item "trees" payload; grown ← trees_from_payload doc; rate ← item_float "learning_rate" payload; base ← item_float "base_score" payload;
      Ok (boosting_members rate grown, base)
  end.
Definition KIND (k : Kind) : string := (match k with Tree => "tree" | Forest => "forest" | Gradient_boosting => "gradient_boosting" end)%string.
Definition build_scorer (k : Kind) (members : list Member) (base_score threshold base_value : float) (contract document fingerprint : string) : res problem AttributedScorer :=
  e ← explainer_of members base_score;
  ensure (feqb (Attribution.base_value e) base_value) (Base_value_wrong (Attribution.base_value e))
    (Ok (MkAttributed e threshold (KIND k) contract document fingerprint)).
Definition scorer_from_payload (k : Kind) (payload : Payload) (contract document fingerprint : string) : res problem AttributedScorer :=
  '(members, base) ← model_of k payload; t ← item_float "threshold" payload; b ← item_float "base_value" payload;
  build_scorer k members base t b contract document fingerprint.

(** ** The fits *)

Section fits.
Context (log2 : float -> float) (rows : list TrainingRow).

Definition criterion_name (c : Criterion) : string := (match c with Gini => "gini" | Entropy => "entropy" | Variance => "variance" end)%string.
Definition fit_tree (max_depth min_samples_leaf : nat) (c : Criterion) (threshold : float) : res problem Payload :=
  let nodes := fit log2 rows max_depth min_samples_leaf c None None in
  e ← explainer_of [(f_one, nodes)] f_zero;
  Ok [("base_value", JFloat (Attribution.base_value e)); ("criterion", JStr (criterion_name c)); ("max_depth", JInt (Z.of_nat max_depth));
      ("min_samples_leaf", JInt (Z.of_nat min_samples_leaf)); ("nodes", document_payload nodes); ("threshold", JFloat threshold)]%string.

Definition MASK64 : Z := Z.shiftl 1 64 - 1.
Definition draw (seed tree_index position bound : Z) : Z :=
  let z := Z.land (seed * 0x9E3779B97F4A7C15 + tree_index * 0xBF58476D1CE4E5B9 + position * 0x94D049BB133111EB) MASK64 in
  let z := Z.lxor z (Z.shiftr z 30) in
  let z := Z.land (z * 0xBF58476D1CE4E5B9) MASK64 in
  let z := Z.lxor z (Z.shiftr z 27) in
  let z := Z.land (z * 0x94D049BB133111EB) MASK64 in
  let z := Z.lxor z (Z.shiftr z 31) in
  Z.shiftr z 32 mod bound.
(** [pool.pop(_draw(...))] for each draw in turn. *)
Definition take_feature (seed tree_index : Z) (st : list Z * list Z) (position : nat) : list Z * list Z :=
  let '(pool, chosen) := st in
  let at_ := Z.to_nat (draw seed tree_index (1000 + Z.of_nat position) (Z.of_nat (length pool))) in
  match pool !! at_ with Some f => (delete at_ pool, chosen ++ [f]) | None => st end.
Definition features_for (seed tree_index : Z) (mtry : nat) : list Z :=
  if Nat.leb 3 mtry then FEATURES
  else sort_by Z.leb (foldl (take_feature seed tree_index) (FEATURES, []) (seq 0 mtry)).2.
Definition bag (seed tree_index : Z) : list nat :=
  let count := Z.of_nat (length rows) in map (fun position => Z.to_nat (draw seed tree_index (Z.of_nat position) count)) (seq 0 (length rows)).
Definition forest_grow (n_estimators max_depth min_samples_leaf mtry : nat) (seed : Z) : list (list Node) :=
  map (fun index => fit log2 rows max_depth min_samples_leaf Gini (Some (bag seed (Z.of_nat index))) (Some (features_for seed (Z.of_nat index) mtry))) (List.seq 0 n_estimators).
Definition fit_forest (n_estimators max_depth min_samples_leaf mtry : nat) (seed : Z) (threshold : float) : res problem Payload :=
  let grown := forest_grow n_estimators max_depth min_samples_leaf mtry seed in
  ms ← forest_members grown; e ← explainer_of ms f_zero;
  Ok [("base_value", JFloat (Attribution.base_value e)); ("max_depth", JInt (Z.of_nat max_depth)); ("min_samples_leaf", JInt (Z.of_nat min_samples_leaf));
      ("mtry", JInt (Z.of_nat mtry)); ("n_estimators", JInt (Z.of_nat n_estimators)); ("seed", JInt seed); ("threshold", JFloat threshold);
      ("trees", JList (map document_payload grown))]%string.

(** The residuals a round is fitted to, and what it adds to the running score. *)
Definition residuals (running : list float) : list TrainingRow := zip_with (fun r f => MkRow (fsub (y r) f) (weight r) (x r)) rows running.
Fixpoint boosting_grow (n_rounds : nat) (learning_rate : float) (max_depth min_samples_leaf : nat) (running : list float) : res problem (list (list Node)) :=
  match n_rounds with
  | O => Ok []
  | S n =>
      let nodes := fit log2 (residuals running) max_depth min_samples_leaf Variance None None in
      match mapM (fun r => predict nodes (x r)) rows with
      | None => Err Cannot_walk
      | Some outs => rest ← boosting_grow n learning_rate max_depth min_samples_leaf (zip_with (fun f v => fadd f (fmul learning_rate v)) running outs); Ok (nodes :: rest)
      end
  end.
Definition base_score_of : float :=
  let mass := py_sum (map weight rows) in
  if fleb mass f_zero then f_zero else fdiv (py_sum (map (fun r => fmul (weight r) (y r)) rows)) mass.
Definition fit_boosting (n_rounds : nat) (learning_rate : float) (max_depth min_samples_leaf : nat) (threshold : float) : res problem Payload :=
  let base := base_score_of in
  grown ← boosting_grow n_rounds learning_rate max_depth min_samples_leaf (replicate (length rows) base);
  e ← explainer_of (boosting_members learning_rate grown) base;
  Ok [("base_score", JFloat base); ("base_value", JFloat (Attribution.base_value e)); ("learning_rate", JFloat learning_rate); ("max_depth", JInt (Z.of_nat max_depth));
      ("min_samples_leaf", JInt (Z.of_nat min_samples_leaf)); ("n_rounds", JInt (Z.of_nat n_rounds)); ("threshold", JFloat threshold);
      ("trees", JList (map document_payload grown))]%string.
End fits.
End scorers.
