(* ===== verification/TreesLaws.v ===== *)
(** * What a tree document says, and which are accepted ([engine/model/tree.py], [forest.py], [boosting.py])

    A node list's document reads back as the same nodes; a document that passes the rules describes trees whose sum links
    some features within the bounds and not others; a fitted model's document loads. *)
From S2P Require Import Prelude PyLib Floats Scoring Json Cart CartLaws Attribution AttributionLaws Trees.

(** ** Documents *)

Definition finite_node (n : Node) : Prop := f_finite (threshold n) = true ∧ f_finite (value n) = true.

Lemma finite_f_of_Z n : 0 <= n < 2 ^ 53 -> f_finite (f_of_Z n) = true.
Proof. intros H. destruct n as [|p|p]; [done| |lia]. by rewrite f_of_Z_canon by lia. Qed.
Lemma small_index n : -1 <= n < 2 ^ 53 -> f_finite (f_of_Z n) = true ∧ f_trunc (f_of_Z n) = n.
Proof.
  intros H. destruct (decide (n = -1)) as [->|]; [by vm_compute|]. split; [apply finite_f_of_Z; lia|apply f_trunc_of_Z; lia].
Qed.

Lemma node_from_document position n : -1 <= feature n < 2 ^ 53 -> -1 <= left n < 2 ^ 53 -> -1 <= right n < 2 ^ 53 -> finite_node n ->
  node_from position (JList [JFloat (f_of_Z (feature n)); JFloat (threshold n); JFloat (f_of_Z (left n)); JFloat (f_of_Z (right n)); JFloat (value n)]) = Ok n.
Proof.
  intros [F1 F2]%small_index [L1 L2]%small_index [R1 R2]%small_index [T V]. unfold node_from.
  cbn -[f_of_Z f_finite f_trunc]. rewrite F1, T, L1, R1, V. cbn -[f_of_Z f_trunc]. rewrite F2, L2, R2. by destruct n.
Qed.
Lemma mapM_imap_Ok {A B} (f : nat -> A -> res problem B) (g : B -> A) l k : (∀ i b, b ∈ l -> f i (g b) = Ok b) -> mapM (M := res problem) id (imap (fun i => f (k + i)%nat) (map g l)) = Ok l.
Proof.
  revert k. induction l as [|b l IH]; intros k H; [done|]. cbn [map imap mapM]. rewrite H by (by left). cbn.
  assert (imap (λ i : nat, f (k + S i)%nat) (map g l) = imap (fun i => f (S k + i)%nat) (map g l)) as E by (apply imap_ext; intros; f_equal; lia).
  unfold compose. rewrite E. rewrite IH by (intros; apply H; by right). done.
Qed.

(** A node list that is a tree: its numbers fit in floats. *)
Lemma tree_numbers nodes : is_tree nodes -> Z.of_nat (length nodes) < 2 ^ 53 ->
  Forall (fun n => -1 <= feature n < 2 ^ 53 ∧ -1 <= left n < 2 ^ 53 ∧ -1 <= right n < 2 ^ 53) nodes.
Proof.
  intros (ls & R & N & E) L. pose proof (rooted_range _ _ _ R) as F.
  assert (∀ i ls, rooted nodes i ls -> ∀ j n, j ∈ ls -> at_index nodes j = Some n -> -1 <= feature n < 2 ^ 53 ∧ -1 <= left n < 2 ^ 53 ∧ -1 <= right n < 2 ^ 53) as H.
  { clear -L. induction 1 as [i n E Lf El Er|i n ll lr E Lf Hf Hl IHl Hr IHr]; intros j m Hj Em.
    - apply list_elem_of_singleton in Hj as ->. simplify_eq. unfold is_leaf, LEAF in *. lia.
    - apply elem_of_cons in Hj as [->|[Hj|Hj]%elem_of_app]; [|by eapply IHr|by eapply IHl]. simplify_eq. unfold FEATURE_COUNT in *.
      destruct (rooted_head _ _ _ Hl) as [? ?%at_index_Some], (rooted_head _ _ _ Hr) as [? ?%at_index_Some]. lia. }
  rewrite Forall_lookup. intros i n Ei. apply (H 0 ls R (Z.of_nat i)); [|by rewrite at_index_nat].
  destruct (decide (Z.of_nat i ∈ ls)) as [|Ni]; [done|]. exfalso. apply lookup_lt_Some in Ei.
  assert (length (Z.of_nat i :: ls) <= length nodes)%nat; [|cbn in *; lia]. apply in_range_length; [by apply NoDup_cons|]. constructor; [lia|done].
Qed.

Lemma document_reads_back nodes : is_tree nodes -> Z.of_nat (length nodes) < 2 ^ 53 -> Forall finite_node nodes -> nodes_from_payload (document_payload nodes) = Ok nodes.
Proof.
  intros T L F. pose proof (tree_numbers nodes T L) as B. rewrite Forall_forall in B. rewrite Forall_forall in F. unfold nodes_from_payload, document_payload.
  apply (mapM_imap_Ok node_from _ nodes 0). intros i n Hn. destruct (B n Hn) as (? & ? & ?). apply node_from_document; auto.
Qed.
Lemma documents_read_back grown : Forall (fun nodes => is_tree nodes ∧ Z.of_nat (length nodes) < 2 ^ 53 ∧ Forall finite_node nodes) grown ->
  trees_from_payload (JList (map document_payload grown)) = Ok grown.
Proof.
  intros F. rewrite Forall_forall in F. unfold trees_from_payload.
  apply (mapM_imap_Ok (fun i m => reraise (Member_of i) (nodes_from_payload m)) document_payload grown 0). intros i nodes Hn. destruct (F nodes Hn) as (? & ? & ?).
  by rewrite document_reads_back.
Qed.

(** ** The rules *)

Lemma mapM_Ok_In {B} (l : list (res problem B)) vs b : mapM (M := res problem) id l = Ok vs -> b ∈ vs -> Ok b ∈ l.
Proof.
  revert vs. induction l as [|r l IH]; intros vs H Hb; cbn in H; [injection H as <-; by apply elem_of_nil in Hb|].
  apply bind_Ok_inv in H as (v & E & H). apply bind_Ok_inv in H as (vs' & E' & [= <-]). unfold id in E. subst r.
  apply elem_of_cons in Hb as [->|Hb]; [by left|right; by eapply IH].
Qed.
Lemma number_finite v f : number v = Ok f -> f_finite f = true.
Proof. destruct v as [| |z|g| | |]; cbn; try done; [destruct (f_finite (f_of_Z z)) eqn:E|destruct (f_finite g) eqn:E]; intros [= <-]; done. Qed.
Lemma reraise_Ok {E F A} (w : E -> F) (r : res E A) a : reraise w r = Ok a -> r = Ok a.
Proof. by destruct r as [?|?]; [intros [= <-]|]. Qed.

Lemma nodes_from_payload_finite v nodes : nodes_from_payload v = Ok nodes -> Forall finite_node nodes.
Proof.
  destruct v as [| | | | |rows|]; try done. intros H. rewrite Forall_forall. intros n Hn. eapply mapM_Ok_In in Hn; [|exact H].
  apply elem_of_lookup_imap in Hn as (i & row & E & _). symmetry in E. destruct row as [| | | | |[|a [|b [|c [|d [|e [|]]]]]]|]; try done. unfold node_from in E.
  apply bind_Ok_inv in E as (vs & E & [= <-]). cbn [imap mapM] in E.
  apply bind_Ok_inv in E as (va & _ & E). apply bind_Ok_inv in E as (ws & E & [= <-]). apply bind_Ok_inv in E as (vb & Eb & E). apply bind_Ok_inv in E as (ws2 & E & [= <-]).
  apply bind_Ok_inv in E as (vc & _ & E). apply bind_Ok_inv in E as (ws3 & E & [= <-]). apply bind_Ok_inv in E as (vd & _ & E). apply bind_Ok_inv in E as (ws4 & E & [= <-]).
  apply bind_Ok_inv in E as (ve & Ee & E). cbn in E. injection E as <-. apply reraise_Ok, number_finite in Eb, Ee. split; [exact Eb|exact Ee].
Qed.
Lemma trees_from_payload_finite v grown : trees_from_payload v = Ok grown -> Forall (Forall finite_node) grown.
Proof.
  destruct v as [| | | | |ms|]; try done. intros H. rewrite Forall_forall. intros n Hn. eapply mapM_Ok_In in Hn; [|exact H].
  apply elem_of_lookup_imap in Hn as (i & m & E & _). symmetry in E. apply reraise_Ok in E. by eapply nodes_from_payload_finite.
Qed.

Lemma each_inv {A} (l : list A) k : each l k = Ok () -> Forall (fun a => k a = Ok ()) l.
Proof. induction l as [|a l IH]; cbn; [done|]. intros H. apply bind_Ok_inv in H as ([] & E & H). constructor; [done|by apply IH]. Qed.

Section accepted.
Context (max_abs : float) (b0 b1 b2 : float * float).
Context (Hb : Forall (fun b => fltb f_minus_inf b.1 = true ∧ is_nan b.2 = false) [b0; b1; b2]).

(** Within the bounds, some features link and some do not. *)
Definition discriminates (members : list Member) (base threshold : float) : Prop :=
  (∃ x v, within [b0; b1; b2] x ∧ output members base x = Some v ∧ fltb threshold v = true)
  ∧ (∃ x v, within [b0; b1; b2] x ∧ output members base x = Some v ∧ fleb v threshold = true).
Definition a_tree (nodes : list Node) : Prop := structure_error nodes = Some (Ok ()) ∧ Forall finite_node nodes ∧
  Forall (fun n => is_leaf n = true -> fleb (SFabs (value n)) max_abs = true) nodes.

Lemma finite_thresholds nodes : Forall finite_node nodes -> thresholds_ok nodes.
Proof. intros F. eapply Forall_impl; [exact F|]. intros n [T _]. by destruct (threshold n). Qed.

Lemma reachable_discriminates members base threshold : f_finite threshold = true ->
  Forall (fun m : Member => structure_error m.2 = Some (Ok ()) ∧ thresholds_ok m.2) members ->
  reachable [b0; b1; b2] threshold members base = Ok () -> discriminates members base threshold.
Proof using Hb.
  intros Ft Ht. unfold reachable. rewrite extremes_tried. cbn zeta. destruct (_ <? _); [done|].
  destruct (tried_outputs members base b0 b1 b2 Ht Hb) as (totals & -> & _ & Hout).
  destruct (foldl_fmax totals f_minus_inf eq_refl) as (Nh & _ & Ch & _), (foldl_py_min totals f_inf eq_refl) as (Nl & _ & Cl & _).
  assert (is_nan threshold = false) as Nt by (by destruct threshold).
  destruct (fleb (foldl fmax f_minus_inf totals) threshold) eqn:H; [done|]. destruct (fltb threshold (foldl py_min f_inf totals)) eqn:L; [done|]. intros _.
  assert (fltb threshold (foldl fmax f_minus_inf totals) = true) as H' by (rewrite fltb_fleb_total by done; by rewrite H).
  assert (fleb (foldl py_min f_inf totals) threshold = true) as L' by (rewrite fltb_fleb_total in L by done; by apply negb_false_iff in L).
  split.
  - destruct Ch as [E|Hin]; [exfalso; rewrite E in H'; clear -H'; by destruct threshold as [[]|[]| |[] m e]|].
    destruct (Hout _ Hin) as (x & Hx & Ex). eauto.
  - destruct Cl as [E|Hin]; [exfalso; rewrite E in L'; clear -L' Ft; by destruct threshold as [[]|[]| |[] m e]|].
    destruct (Hout _ Hin) as (x & Hx & Ex). eauto.
Qed.

Lemma validate_tree nodes t check : Forall finite_node nodes -> is_nan max_abs = false -> validate max_abs [b0; b1; b2] nodes t check = Ok () ->
  a_tree nodes ∧ (check = true -> reachable [b0; b1; b2] t [(f_one, nodes)] f_zero = Ok ()).
Proof.
  intros F Nm H. unfold validate in H. destruct (structure_error nodes) as [[[]|p]|] eqn:E; [|done|done].
  apply bind_Ok_inv in H as ([] & Hl & H). split; [split_and!; [done|done|]|].
  - rewrite Forall_forall in F. rewrite Forall_forall. intros n Hn Ln. apply each_inv in Hl. rewrite Forall_forall in Hl. apply list_elem_of_lookup in Hn as [i Hi].
    specialize (Hl (i, n) (proj2 (numbered _ _ _) Hi)). cbn [fst snd] in Hl. apply ensure_Ok_inv in Hl as [Hl _]. rewrite Ln in Hl. cbn in Hl. apply negb_true_iff in Hl.
    destruct (F n) as [_ V]; [by eapply list_elem_of_lookup_2|]. rewrite fltb_fleb_total in Hl; [by apply negb_false_iff in Hl|done|by destruct (value n)].
  - intros ->. destruct (Nat.eqb _ _); [done|]. done.
Qed.
Lemma validate_members_trees grown t : Forall (Forall finite_node) grown -> is_nan max_abs = false -> validate_members max_abs [b0; b1; b2] grown t = Ok () -> Forall a_tree grown.
Proof.
  intros F Nm H%each_inv. rewrite Forall_forall in F. rewrite Forall_forall in H. rewrite Forall_forall. intros nodes Hn. pose proof Hn as [i Hi]%list_elem_of_lookup.
  assert ((i, nodes) ∈ zip (seq 0 (length grown)) grown) as Hz.
  { apply list_elem_of_lookup. exists i. apply lookup_zip_with_Some. exists i, nodes. split_and!; [done| |done]. apply lookup_seq. split; [lia|]. by eapply lookup_lt_Some. }
  specialize (H _ Hz). cbn [fst snd] in H. apply reraise_Ok in H. apply validate_tree in H as [? _]; auto.
Qed.
Lemma weighted_trees w grown : Forall a_tree grown -> Forall (fun m : Member => structure_error m.2 = Some (Ok ()) ∧ thresholds_ok m.2) (map (pair w) grown).
Proof.
  intros F. rewrite Forall_fmap. eapply Forall_impl; [exact F|]. intros nodes (E & Fn & _). cbn. split; [done|by apply finite_thresholds].
Qed.

Lemma item_float_Ok key payload f : item_float key payload = Ok f -> f_finite f = true ∧ ∃ v, assoc key payload = Some v ∧ number v = Ok f.
Proof.
  unfold item_float, item. intros H. apply bind_Ok_inv in H as (v & E & H). destruct (assoc key payload) as [v'|]; [injection E as <-|done].
  apply reraise_Ok in H. split; [by eapply number_finite|eauto].
Qed.
Lemma as_float_number key v f : as_float key v = Ok f -> reraise (Number key) (number v) = Ok f ∨ ∃ g, v = JFloat g ∧ f = g.
Proof. destruct v; cbn; try done; [by left|]. intros [= <-]. right. eauto. Qed.
End accepted.

Lemma scalar_checked payload key : scalar_error payload = Ok () -> key ∈ SCALARS -> ∀ v, assoc key payload = Some v -> ∃ f, number v = Ok f.
Proof.
  unfold scalar_error. intros H. apply bind_Ok_inv in H as ([] & H%each_inv & _). rewrite Forall_forall in H. intros Hk v Hv. specialize (H key Hk). cbn beta in H. rewrite Hv in H.
  apply bind_Ok_inv in H as (f & E%reraise_Ok & _). eauto.
Qed.

(** C24: A document of any of the three kinds that passes its rules, for bounds above minus infinity: it describes trees whose leaves keep within the
    magnitude bound, and within the feature bounds their weighted sum is above the threshold somewhere and at or below it somewhere. *)
Theorem an_accepted_model_discriminates max_abs b0 b1 b2 k payload :
  Forall (fun b => fltb f_minus_inf b.1 = true ∧ is_nan b.2 = false) [b0; b1; b2] -> is_nan max_abs = false ->
  validate_payload max_abs [b0; b1; b2] k payload = Ok () ->
  ∃ members base threshold, model_of k payload = Ok (members, base) ∧ item_float "threshold" payload = Ok threshold
  ∧ Forall (fun m : Member => a_tree max_abs m.2) members ∧ discriminates b0 b1 b2 members base threshold.
Proof.
  intros Hb Nm H. unfold validate_payload in H. apply bind_Ok_inv in H as ([] & Hs & H). destruct k; unfold model_of.
  - destruct (assoc "criterion" payload) as [[]|]; try done. apply ensure_Ok_inv in H as [_ H].
    apply bind_Ok_inv in H as (doc & -> & H). apply bind_Ok_inv in H as (nodes & En & H). apply bind_Ok_inv in H as (t & Et & H). cbn. rewrite En. cbn.
    pose proof (nodes_from_payload_finite _ _ En) as Fn. apply validate_tree in H as [T R]; [|done|done]. specialize (R eq_refl).
    eexists _, _, t. split; [done|]. split; [done|]. split; [by apply Forall_singleton|]. apply (reachable_discriminates b0 b1 b2 Hb); [by apply item_float_Ok in Et as [? _]| |done].
    apply Forall_singleton. split; [by destruct T|by apply finite_thresholds].
  - apply bind_Ok_inv in H as (doc & -> & H). apply bind_Ok_inv in H as (grown & En & H). apply bind_Ok_inv in H as (t & Et & H). cbn. rewrite En. cbn.
    unfold forest_validate in H. destruct (assoc "seed" payload) as [[]|]; try done. destruct (Nat.ltb _ _); [done|].
    apply bind_Ok_inv in H as ([] & Hm & H). destruct (all_same grown); [done|]. apply bind_Ok_inv in H as (ms & Em & H). rewrite Em. cbn.
    apply validate_members_trees in Hm; [|by eapply trees_from_payload_finite|done].
    assert (∃ w, ms = map (pair w) grown) as [w ->] by (unfold forest_members in Em; destruct grown; [done|]; injection Em as <-; eauto).
    eexists _, _, t. split; [done|]. split; [done|]. split; [by rewrite Forall_fmap|]. apply (reachable_discriminates b0 b1 b2 Hb); [by apply item_float_Ok in Et as [? _]| |done].
    by eapply weighted_trees.
  - apply bind_Ok_inv in H as (doc & -> & H). apply bind_Ok_inv in H as (grown & En & H). apply bind_Ok_inv in H as (t & Et & H). cbn. rewrite En. cbn.
    unfold boosting_validate, number_at in H. destruct (assoc "learning_rate" payload) as [lr|] eqn:El; [|done].
    apply bind_Ok_inv in H as (lr' & E & H). apply ensure_Ok_inv in E as [_ [= <-]]. apply bind_Ok_inv in H as (rate & Er & H). apply ensure_Ok_inv in H as [_ H]. apply ensure_Ok_inv in H as [_ H].
    destruct (assoc "base_score" payload) as [bs|] eqn:Eb; [|done]. apply bind_Ok_inv in H as (bs' & E & H). apply ensure_Ok_inv in E as [_ [= <-]].
    apply bind_Ok_inv in H as ([] & Hm & H). apply bind_Ok_inv in H as (base & Ebs & H).
    destruct (scalar_checked _ "learning_rate" Hs ltac:(unfold SCALARS; set_solver) lr El) as [f1 N1]. destruct (scalar_checked _ "base_score" Hs ltac:(unfold SCALARS; set_solver) bs Eb) as [f2 N2].
    assert (f1 = rate) as -> by (destruct lr; cbn in *; try done; [rewrite N1 in Er; by injection Er|destruct (f_finite f); [|done]; congruence]).
    assert (f2 = base) as -> by (destruct bs; cbn in *; try done; [rewrite N2 in Ebs; by injection Ebs|destruct (f_finite f); [|done]; congruence]).
    unfold item_float, item. rewrite El, Eb. cbn. rewrite N1, N2. cbn.
    apply validate_members_trees in Hm; [|by eapply trees_from_payload_finite|done].
    eexists _, _, t. split; [done|]. split; [exact Et|]. split; [unfold boosting_members; by rewrite Forall_fmap|]. apply (reachable_discriminates b0 b1 b2 Hb); [by apply item_float_Ok in Et as [? _]| |done].
    by eapply weighted_trees.
Qed.

(** ** The fits *)

Section fits.
Context (background : list (list float)) (log2 : float -> float) (rows : list TrainingRow).

Lemma draw_range seed tree position bound : 0 < bound -> 0 <= draw seed tree position bound < bound.
Proof. intros. unfold draw. by apply Z.mod_pos_bound. Qed.

Lemma fit_is_tree rows' d m c subset features : Forall (fun f => 0 <= f < FEATURE_COUNT) (default [0; 1; 2] features) ->
  is_tree (fit log2 rows' d m c subset features) ∧ (length (fit log2 rows' d m c subset features) <= 2 ^ S d - 1)%nat.
Proof.
  intros Hc. destruct (grow_grown log2 rows' m c _ Hc (default (seq 0 (length rows')) subset) d _ _ (root_waits rows' m _ _)) as (parts & [T _ _ _ _ _ _] & Lg).
  change (grow _ _ _ _ _ _ _ _) with (fit log2 rows' d m c subset features) in *. split; [done|]. cbn [length] in Lg. lia.
Qed.

Lemma take_feature_in seed tree l st : Forall (fun f => f ∈ FEATURES) st.1 -> Forall (fun f => f ∈ FEATURES) st.2 ->
  let st' := foldl (take_feature seed tree) st l in Forall (fun f => f ∈ FEATURES) st'.2.
Proof.
  revert st. induction l as [|p l IH]; intros [pool chosen] Hp Hc; cbn [foldl]; [done|]. cbn [fst snd] in *. apply IH; unfold take_feature.
  - destruct (pool !! _) eqn:E; [|done]. cbn. by apply Forall_delete.
  - destruct (pool !! _) as [f|] eqn:E; [|done]. cbn. apply Forall_app. split; [done|]. constructor; [|constructor]. rewrite Forall_forall in Hp. apply Hp. by eapply list_elem_of_lookup_2.
Qed.
Lemma features_for_ok seed tree mtry : Forall (fun f => 0 <= f < FEATURE_COUNT) (features_for seed tree mtry).
Proof.
  assert (∀ l, Forall (fun f => f ∈ FEATURES) l -> Forall (fun f => 0 <= f < FEATURE_COUNT) l) as H.
  { intros l F. eapply Forall_impl; [exact F|]. intros f [->|[->| ->]]%FEATURES_in; by unfold FEATURE_COUNT. }
  apply H. unfold features_for. destruct (Nat.leb 3 mtry); [by rewrite Forall_forall|]. rewrite sort_by_perm.
  apply take_feature_in; cbn [fst snd]; [by rewrite Forall_forall|constructor].
Qed.

Lemma bag_rows seed tree : Forall (fun i => (i < length rows)%nat) (bag rows seed tree) ∧ length (bag rows seed tree) = length rows.
Proof.
  unfold bag. split; [|by rewrite length_map, length_seq]. rewrite Forall_fmap, Forall_forall. intros p Hp%elem_of_seq. cbn.
  pose proof (draw_range seed tree (Z.of_nat p) (Z.of_nat (length rows)) ltac:(lia)). lia.
Qed.

Lemma forest_grow_trees n d m mtry seed : Forall (fun nodes => is_tree nodes ∧ (length nodes <= 2 ^ S d - 1)%nat) (forest_grow log2 rows n d m mtry seed).
Proof. unfold forest_grow. rewrite Forall_fmap, Forall_forall. intros i _. apply fit_is_tree, features_for_ok. Qed.

Lemma all_columns : Forall (fun f => 0 <= f < FEATURE_COUNT) (default [0; 1; 2] None).
Proof. unfold FEATURE_COUNT. repeat constructor; lia. Qed.
Lemma boosting_grow_trees n rate d m running : Forall (fun r => length (x r) = 3%nat) rows ->
  ∃ grown, boosting_grow log2 rows n rate d m running = Ok grown ∧ length grown = n ∧ Forall (fun nodes => is_tree nodes ∧ (length nodes <= 2 ^ S d - 1)%nat) grown.
Proof.
  intros Hx. revert running. induction n as [|n IH]; intros running; cbn [boosting_grow]; [by exists []|].
  destruct (fit_is_tree (residuals rows running) d m Variance None None all_columns) as [T L].
  assert (is_Some (mapM (fun r => predict (fit log2 (residuals rows running) d m Variance None None) (x r)) rows)) as [outs ->].
  { apply mapM_is_Some. eapply Forall_impl; [exact Hx|]. intros r Hr. by apply predict_ends. }
  destruct (IH (zip_with (fun f v => fadd f (fmul rate v)) running outs)) as (rest & -> & Ln & F). cbn. eexists. split; [done|]. split; [cbn; lia|]. by constructor.
Qed.

Lemma load k payload members base t e contract document fp :
  model_of k payload = Ok (members, base) -> item_float "threshold" payload = Ok t -> item_float "base_value" payload = Ok (base_value e) ->
  explainer_of background members base = Ok e -> scorer_from_payload background k payload contract document fp = Ok (MkAttributed e t (KIND k) contract document fp).
Proof.
  intros M T B E. unfold scorer_from_payload. rewrite M, T, B. cbn. unfold build_scorer. rewrite E. cbn.
  assert (feqb (base_value e) (base_value e) = true) as ->; [|done]. apply item_float_Ok in B as [F _]. apply feqb_key.
  destruct (fkey (base_value e)) eqn:K; [by eexists|]. apply fkey_nan in K. by destruct (base_value e).
Qed.
Lemma item_float_finite key payload f : assoc key payload = Some (JFloat f) -> f_finite f = true -> item_float key payload = Ok f.
Proof. intros E F. unfold item_float, item. rewrite E. cbn. by rewrite F. Qed.

Lemma few_nodes n d : (n <= 2 ^ S d - 1)%nat -> (d < 52)%nat -> Z.of_nat n < 2 ^ 53.
Proof.
  intros L D. assert (Z.of_nat (2 ^ S d) <= 2 ^ 53) as H; [|lia]. rewrite Nat2Z.inj_pow. apply Z.pow_le_mono_r; lia.
Qed.
Lemma loadable grown d : (d < 52)%nat -> Forall (fun nodes => is_tree nodes ∧ (length nodes <= 2 ^ S d - 1)%nat) grown -> Forall (Forall finite_node) grown ->
  trees_from_payload (JList (map document_payload grown)) = Ok grown.
Proof.
  intros D F Ff. apply documents_read_back. rewrite Forall_forall in F, Ff |- *. intros nodes Hn. destruct (F nodes Hn) as [T L].
  split_and!; [done|by eapply few_nodes|by apply Ff].
Qed.
End fits.

(** What [fit_document] returns loads: for finite thresholds and values, each kind's document gives back the scorer whose table was
    built from the fitted trees, under the threshold asked for. *)
Definition loads (background : list (list float)) (k : Kind) (payload : Payload) (members : list Member) (base threshold : float) : Prop :=
  (∃ b, assoc "base_value"%string payload = Some (JFloat b) ∧ f_finite b = true) ->
  ∀ contract document fp, ∃ s, scorer_from_payload background k payload contract document fp = Ok s
    ∧ explainer_of background members base = Ok (explainer s) ∧ at_threshold s = threshold.

Theorem a_fitted_model_loads background log2 rows d m threshold : (d < 52)%nat -> f_finite threshold = true ->
  (∀ c payload, let nodes := fit log2 rows d m c None None in
    Forall finite_node nodes -> fit_tree background log2 rows d m c threshold = Ok payload -> loads background Tree payload [(f_one, nodes)] f_zero threshold)
  ∧ (∀ n mtry seed payload, let grown := forest_grow log2 rows n d m mtry seed in
    Forall (Forall finite_node) grown -> fit_forest background log2 rows n d m mtry seed threshold = Ok payload ->
    ∃ ms, forest_members grown = Ok ms ∧ loads background Forest payload ms f_zero threshold)
  ∧ (∀ n rate payload grown, boosting_grow log2 rows n rate d m (replicate (length rows) (base_score_of rows)) = Ok grown ->
    Forall (fun r => length (x r) = 3%nat) rows -> f_finite rate = true -> f_finite (base_score_of rows) = true -> Forall (Forall finite_node) grown ->
    fit_boosting background log2 rows n rate d m threshold = Ok payload -> loads background Gradient_boosting payload (boosting_members rate grown) (base_score_of rows) threshold).
Proof.
  intros D Ft. split_and!.
  - intros c payload nodes Fn H [b [Eb Fb]] contract document fp. unfold fit_tree in H. fold nodes in H. apply bind_Ok_inv in H as (e & Ee & [= <-]).
    cbn in Eb. injection Eb as <-. eexists. split; [apply (load background Tree _ [(f_one, nodes)] f_zero threshold e)|by split]; [|by apply item_float_finite|by apply item_float_finite|done].
    destruct (fit_is_tree log2 rows d m c None None all_columns) as [T L]. fold nodes in T, L. unfold model_of. change (item _ _) with (Ok (E := problem) (document_payload nodes)). cbn [mbind res_bind]. by rewrite (document_reads_back nodes T (few_nodes _ _ L D) Fn).
  - intros n mtry seed payload grown Fn H. unfold fit_forest in H. fold grown in H. apply bind_Ok_inv in H as (ms & Em & H). exists ms. split; [done|].
    apply bind_Ok_inv in H as (e & Ee & [= <-]). intros [b [Eb Fb]] contract document fp.
    cbn in Eb. injection Eb as <-. eexists. split; [apply (load background Forest _ ms f_zero threshold e)|by split]; [|by apply item_float_finite|by apply item_float_finite|done].
    unfold model_of. change (item _ _) with (Ok (E := problem) (JList (map document_payload grown))). cbn [mbind res_bind]. rewrite (loadable grown d D (forest_grow_trees _ _ _ _ _ _ _) Fn). cbn [mbind res_bind]. by rewrite Em.
  - intros n rate payload grown Eg Hx Fr Fb0 Fn H. unfold fit_boosting in H. rewrite Eg in H. cbn [mbind res_bind] in H.
    apply bind_Ok_inv in H as (e & Ee & [= <-]). intros [b [Eb Fb]] contract document fp.
    cbn in Eb. injection Eb as <-. eexists. split; [apply (load background Gradient_boosting _ (boosting_members rate grown) (base_score_of rows) threshold e)|by split]; [|by apply item_float_finite|by apply item_float_finite|done].
    destruct (boosting_grow_trees log2 rows n rate d m (replicate (length rows) (base_score_of rows)) Hx) as (g & Eg' & _ & T). rewrite Eg in Eg'. injection Eg' as <-.
    unfold model_of. change (item _ _) with (Ok (E := problem) (JList (map document_payload grown))). cbn [mbind res_bind]. rewrite (loadable grown d D T Fn). cbn [mbind res_bind].
    rewrite (item_float_finite "learning_rate" _ rate), (item_float_finite "base_score" _ (base_score_of rows)) by done. done.
Qed.

Definition wide : float * float := (f_zero, f_of_Z 9).
Definition little_payload : Payload :=
  [("base_value", JFloat f_one); ("criterion", JStr "gini"); ("max_depth", JInt 2); ("min_samples_leaf", JInt 1); ("nodes", document_payload little_tree); ("threshold", JFloat f_one)]%string.
Lemma an_accepted_model_discriminates_witness :
  validate_payload (f_of_Z 25) [wide; wide; wide] Tree little_payload = Ok ()
  ∧ ∃ members base threshold, model_of Tree little_payload = Ok (members, base) ∧ item_float "threshold" little_payload = Ok threshold
    ∧ Forall (fun m : Member => a_tree (f_of_Z 25) m.2) members ∧ discriminates wide wide wide members base threshold.
Proof.
  assert (validate_payload (f_of_Z 25) [wide; wide; wide] Tree little_payload = Ok ()) as H by (vm_compute; reflexivity). split; [exact H|].
  apply an_accepted_model_discriminates; [repeat constructor|reflexivity|exact H].
Defined.

Definition fitted_payload : Payload := match fit_tree two_rows_background (fun _ => f_zero) two_rows 4 1 Gini (f_lit 1 2) with Ok p => p | Err _ => [] end.
Lemma a_fitted_model_loads_witness :
  loads two_rows_background Tree fitted_payload [(f_one, fit (fun _ => f_zero) two_rows 4 1 Gini None None)] f_zero (f_lit 1 2)
  ∧ assoc "base_value"%string fitted_payload = Some (JFloat (f_lit 1 2)).
Proof.
  split; [|vm_compute; reflexivity].
  apply (a_fitted_model_loads two_rows_background (fun _ => f_zero) two_rows 4 1 (f_lit 1 2)); [lia|vm_compute; reflexivity| |vm_compute; reflexivity].
  vm_compute fit. repeat (apply Forall_cons; split); done.
Defined.

(** A seed that no float holds: the check of a document raises [OverflowError], which is none of the errors it is meant to raise. *)
Example a_huge_seed_escapes : scalar_error [("seed"%string, JInt (2 ^ 1024))] = Err (Number "seed" Too_large).
Proof. vm_compute. reflexivity. Qed.
