(* ===== verification/LinkModels.v ===== *)
(** * The GAM and the logistic regression as documents ([engine/model/gam.py], [linear.py])

    The checks a document passes before a scorer exists, and the scorers: the logit of the fast path and the explained score.
    [parse] is [json.loads] with the non-finite constants refused; [log1p] is [math.log1p]; a document is its UTF-8 text. *)
From S2P Require Import Prelude PyLib Floats Scoring Json PairFeatures Cart.

(** Why a document is refused; the words are left out. *)
Inductive refusal :=
  | Too_big | Not_json | Wrong_keys | Wrong_format | Wrong_features | Wrong_shapes | Wrong_shape | Wrong_list | Wrong_number | Not_increasing | Hard_switch
  | Wrong_interactions | Wrong_interaction | Wrong_grouping | Wrong_transform | Scale_not_positive | Bounds_crossed | Few_merge_pairs | Unreachable_threshold | Wrong_method
  | Wrong_reference | Wrong_trees | Wrong_tree | Too_deep | Too_many_nodes | Wrong_base | Wrong_scale | Wrong_points | Wrong_rates | Wrong_k | Wrong_weighting | Wrong_prior.
(** A check ends in a refusal or in an exception that is not one. *)
Inductive failure := Refused (why : refusal) | Raised (exc : string).
Inductive parsed := P_value (v : json) | P_invalid | P_constant.

Definition MAX_BINS : nat := 64.
Definition MAX_INTERACTIONS : nat := 8.
Definition MAX_INTERACTION_BINS : nat := 16.
Definition MAX_ABS_SCORE : float := f_of_Z 25.
Definition GAM_MAX_BYTES : Z := 256 * 1024.
Definition GAM_FORMAT : string := "netcorenoc.gam/1".
Definition BASIS_SHAPE : string := "shape".
Definition GAM_KEYS : list string := ["format"; "features"; "intercept"; "threshold"; "shapes"; "interactions"; "grouping"]%string.
Definition SHAPE_KEYS : list string := ["feature"; "edges"; "scores"]%string.
Definition PAIR_KEYS : list string := ["features"; "edges"; "scores"]%string.
Definition GROUPING_KEYS : list string := ["join_bias"; "merge_bias"; "merge_min_pairs"]%string.

(** ** What both checks share *)

(** [_num]: [float] of an integer no float holds raises [OverflowError]. *)
Definition num (v : json) : res failure float :=
  match v with
  | JInt z => let f := f_of_Z z in if f_finite f then Ok f else Err (Raised "OverflowError")
  | JFloat f => if f_finite f then Ok f else Err (Refused Wrong_number)
  | _ => Err (Refused Wrong_number)
  end.
Definition nums (l : list json) : res failure (list float) := mapM (M := res failure) num l.
(** [set(payload) == keys] of a dict. *)
Definition keys_are (keys : list string) (d : list (string * json)) : bool :=
  forallb (fun k => bool_decide (k ∈ keys)) d.*1 && forallb (fun k => bool_decide (k ∈ d.*1)) keys.
Definition the (key : string) (d : list (string * json)) : json := default JNull (assoc key d).
Definition is_str (s : string) (v : json) : bool := match v with JStr s' => bool_decide (s' = s) | _ => false end.
Definition refuse {A} (why : refusal) : res failure A := Err (Refused why).

(** [len(set(features))]: a list or a dict in it cannot be hashed, which raises [TypeError]; a name that is not a string is refused
    either here, as a repetition, or by name. *)
Definition unhashable (v : json) : bool := match v with JList _ | JObj _ => true | _ => false end.
Definition a_name (v : json) : res failure string := match v with JStr s => if bool_decide (s ∈ FEATURE_NAMES) then Ok s else refuse Wrong_features | _ => refuse Wrong_features end.
Definition feature_list (v : json) : res failure (list string) :=
  match v with
  | JList ((_ :: _) as l) =>
      if existsb unhashable l then Err (Raised "TypeError")
      else names ← mapM (M := res failure) a_name l; ensure (bool_decide (NoDup names)) (Refused Wrong_features) (Ok names)
  | _ => refuse Wrong_features
  end.
(** [FEATURE_NAMES.index(name)] *)
Definition position_of (name : string) : nat := match list_find (eq name) FEATURE_NAMES with Some e => e.1 | None => 0%nat end.

Record Grouping := MkGrouping { join_bias : float; merge_bias : float; merge_min_pairs : float }.
Definition grouping_of (v : json) : res failure (list (string * json)) :=
  match v with JObj d => ensure (keys_are GROUPING_KEYS d) (Refused Wrong_grouping) (Ok d) | _ => refuse Wrong_grouping end.
Definition grouping_numbers (d : list (string * json)) : res failure Grouping :=
  j ← num (the "join_bias" d); m ← num (the "merge_bias" d); p ← num (the "merge_min_pairs" d); Ok (MkGrouping j m p).

(** The document as a dict with the keys and the format asked for. *)
Definition document_dict (parse : string -> parsed) (max_bytes : Z) (keys : list string) (format document : string) : res failure (list (string * json)) :=
  if max_bytes <? Z.of_nat (String.length document) then refuse Too_big
  else match parse document with
  | P_constant => refuse Wrong_number
  | P_invalid => refuse Not_json
  | P_value (JObj d) =>
      if negb (keys_are keys d) then refuse Wrong_keys
      else if is_str format (the "format" d) then Ok d else refuse Wrong_format
  | P_value _ => refuse Wrong_keys
  end.

(** ** The GAM's document *)

Record Shape := MkShape { sh_feature : string; sh_index : nat; sh_edges : list float; sh_scores : list float }.
Record Pair := MkPair { pr_features : string * string; pr_index : nat * nat; pr_edges : list float * list float; pr_scores : list (list float) }.
Record Model := MkModel { features : list string; intercept : float; threshold : float; shapes : list Shape; pairs : list Pair; grouping : Grouping }.

Fixpoint increasing (l : list float) : bool :=
  match l with a :: ((b :: _) as l) => negb (fleb b a) && increasing l | _ => true end.
Definition edges_of (v : json) (limit : nat) : res failure (list float) :=
  match v with
  | JList l =>
      if Nat.ltb (limit - 1) (length l) then refuse Wrong_list
      else es ← nums l; ensure (increasing es) (Refused Not_increasing) (Ok es)
  | _ => refuse Wrong_list
  end.
Definition scores_of (v : json) (n : nat) : res failure (list float) :=
  match v with
  | JList l =>
      if negb (Nat.eqb (length l) n) then refuse Wrong_list
      else ss ← nums l; ensure (negb (existsb (fun s => fltb MAX_ABS_SCORE (SFabs s)) ss)) (Refused Hard_switch) (Ok ss)
  | _ => refuse Wrong_list
  end.
Definition shape_of (name : string) (raw : json) : res failure Shape :=
  match raw with
  | JObj d =>
      if negb (keys_are SHAPE_KEYS d && is_str name (the "feature" d)) then refuse Wrong_shape
      else es ← edges_of (the "edges" d) MAX_BINS; ss ← scores_of (the "scores" d) (S (length es)); Ok (MkShape name (position_of name) es ss)
  | _ => refuse Wrong_shape
  end.
Definition pair_of (names : list string) (raw : json) : res failure Pair :=
  match raw with
  | JObj d =>
      if negb (keys_are PAIR_KEYS d) then refuse Wrong_interaction
      else match the "features" d with
      | JList [JStr a; JStr b] =>
          if negb (bool_decide (a ∈ names) && bool_decide (b ∈ names)) then refuse Wrong_interaction
          else match the "edges" d with
          | JList [gx; gy] =>
              ex ← edges_of gx MAX_INTERACTION_BINS; ey ← edges_of gy MAX_INTERACTION_BINS;
              match the "scores" d with
              | JList rows =>
                  if negb (Nat.eqb (length rows) (S (length ex))) then refuse Wrong_interaction
                  else table ← mapM (M := res failure) (fun row => scores_of row (S (length ey))) rows;
                       Ok (MkPair (a, b) (position_of a, position_of b) (ex, ey) table)
              | _ => refuse Wrong_interaction
              end
          | _ => refuse Wrong_interaction
          end
      | _ => refuse Wrong_interaction
      end
  | _ => refuse Wrong_interaction
  end.

Definition least (l : list float) : float := match l with [] => f_zero | v :: l => foldl py_min v l end.
Definition greatest (l : list float) : float := match l with [] => f_zero | v :: l => foldl fmax v l end.
(** [_reachable]: the interval the scores could span if each bin were chosen freely. *)
Definition span (m : Model) : float * float :=
  (fadd (fadd (intercept m) (py_sum (map (fun s => least (sh_scores s)) (shapes m)))) (py_sum (map (fun p => least (map least (pr_scores p))) (pairs m))),
   fadd (fadd (intercept m) (py_sum (map (fun s => greatest (sh_scores s)) (shapes m)))) (py_sum (map (fun p => greatest (map greatest (pr_scores p))) (pairs m)))).

Section documents.
Context (parse : string -> parsed).

Definition validate (document : string) : res failure Model :=
  d ← document_dict parse GAM_MAX_BYTES GAM_KEYS GAM_FORMAT document;
  names ← feature_list (the "features" d);
  match the "shapes" d with
  | JList raws =>
      if negb (Nat.eqb (length raws) (length names)) then refuse Wrong_shapes
      else
        shapes ← mapM (M := res failure) (fun e : string * json => shape_of e.1 e.2) (zip names raws);
        match the "interactions" d with
        | JList ps =>
            if Nat.ltb MAX_INTERACTIONS (length ps) then refuse Wrong_interactions
            else
              pairs ← mapM (M := res failure) (pair_of names) ps;
              g ← grouping_of (the "grouping" d);
              i ← num (the "intercept" d); t ← num (the "threshold" d); g ← grouping_numbers g;
              let m := MkModel names i t shapes pairs g in
              if fltb MAX_ABS_SCORE (SFabs i) then refuse Hard_switch
              else if fltb (merge_min_pairs g) f_one then refuse Few_merge_pairs
              else if negb (fltb (span m).1 t && fltb t (span m).2) then refuse Unreachable_threshold
              else Ok m
        | _ => refuse Wrong_interactions
        end
  | _ => refuse Wrong_shapes
  end.
End documents.

(** ** The GAM's scorer *)

(** [bisect.bisect_right]: the first place after the elements at or below [x]. *)
Fixpoint bisect_up (fuel : nat) (l : list float) (x : float) (lo hi : nat) : nat :=
  match fuel with
  | O => lo
  | S fuel =>
      if Nat.ltb lo hi then
        let mid := Nat.div (lo + hi) 2 in
        if fltb x (nth mid l f_zero) then bisect_up fuel l x lo mid else bisect_up fuel l x (S mid) hi
      else lo
  end.
Definition bisect_right (l : list float) (x : float) : nat := bisect_up (S (length l)) l x 0 (length l).

(** A read out of range, which raises, is [None]. *)
Definition shape_at (s : Shape) (x : float) : option float := sh_scores s !! bisect_right (sh_edges s) x.
Definition pair_at (p : Pair) (x y : float) : option float := row ← pr_scores p !! bisect_right (pr_edges p).1 x; row !! bisect_right (pr_edges p).2 y.
Definition add_shape (vector : list float) (total : option float) (s : Shape) : option float :=
  t ← total; x ← vector !! sh_index s; v ← shape_at s x; Some (fadd t v).
Definition add_pair (vector : list float) (total : option float) (p : Pair) : option float :=
  t ← total; x ← vector !! (pr_index p).1; y ← vector !! (pr_index p).2; v ← pair_at p x y; Some (fadd t v).
Definition logit (m : Model) (vector : list float) : option float :=
  foldl (add_pair vector) (foldl (add_shape vector) (Some (intercept m)) (shapes m)) (pairs m).

Definition shape_term (vector : list float) (s : Shape) : option TermContribution :=
  x ← vector !! sh_index s; v ← shape_at s x; Some (MkTerm (sh_feature s) f_zero x v).
Definition pair_name (p : Pair) : string := (pr_features p).1 +:+ " x " +:+ (pr_features p).2.
Definition pair_term (vector : list float) (p : Pair) : option TermContribution :=
  x ← vector !! (pr_index p).1; y ← vector !! (pr_index p).2; v ← pair_at p x y; Some (MkTerm (pair_name p) f_zero f_zero v).
Definition sum_terms (start : float) (terms : list TermContribution) : float := foldl (fun t e => fadd t (t_contribution e)) start terms.
Definition explain (m : Model) (vector : list float) : option LinkScore :=
  a ← mapM (shape_term vector) (shapes m); b ← mapM (pair_term vector) (pairs m);
  let total := sum_terms (intercept m) (a ++ b) in
  Some (MkScore (fltb (threshold m) total) total (threshold m) (a ++ b) BASIS_SHAPE (intercept m)).

(** ** The logistic regression *)

Module Linear.
Definition FORMAT : string := "netcorenoc.linear/1".
Definition MAX_ABS_WEIGHT : float := f_of_Z 25.
Definition MAX_DOCUMENT_BYTES : Z := 64 * 1024.
Definition BASIS_LINEAR : string := "linear".
Definition KEYS : list string :=
  ["format"; "features"; "transform"; "center"; "scale"; "low"; "high"; "weights"; "intercept"; "threshold"; "grouping"]%string.

Inductive Transform := Identity | Log1p.
(** One feature's row: where it is, how it is transformed, its box, its weight. *)
Record Row := MkRow { position : nat; transform : Transform; center : float; scale : float; low : float; high : float; weight : float }.
Record LinearModel := MkLinear { l_features : list string; l_rows : list Row; l_intercept : float; l_threshold : float; l_grouping : Grouping }.

Definition numbers (v : json) (n : nat) : res failure (list float) :=
  match v with JList l => if Nat.eqb (length l) n then nums l else refuse Wrong_list | _ => refuse Wrong_list end.
Definition transform_of (v : json) : res failure Transform :=
  match v with
  | JStr s => if bool_decide (s = "identity"%string) then Ok Identity else if bool_decide (s = "log1p"%string) then Ok Log1p else refuse Wrong_transform
  | _ => refuse Wrong_transform
  end.
Definition transforms (v : json) (n : nat) : res failure (list Transform) :=
  match v with JList l => if Nat.eqb (length l) n then mapM (M := res failure) transform_of l else refuse Wrong_transform | _ => refuse Wrong_transform end.

(** The columns of a document as its rows. *)
Definition rows_of (names : list string) (ts : list Transform) (cs ss ls hs ws : list float) : list Row :=
  zip_with (fun e w => let '(n, t, c, s, l, h) := e in MkRow (position_of n) t c s l h w) (zip (zip (zip (zip (zip names ts) cs) ss) ls) hs) ws.
Definition ends_of (r : Row) : float * float :=
  (fdiv (fmul (weight r) (fsub (low r) (center r))) (scale r), fdiv (fmul (weight r) (fsub (high r) (center r))) (scale r)).
Definition linear_span (m : LinearModel) : float * float :=
  foldl (fun (acc : float * float) r => let '(a, b) := ends_of r in (fadd acc.1 (py_min a b), fadd acc.2 (fmax a b))) (l_intercept m, l_intercept m) (l_rows m).

Definition validate (parse : string -> parsed) (document : string) : res failure LinearModel :=
  d ← document_dict parse MAX_DOCUMENT_BYTES KEYS FORMAT document;
  names ← feature_list (the "features" d);
  let n := length names in
  ts ← transforms (the "transform" d) n;
  ss ← numbers (the "scale" d) n;
  if existsb (fun s => fleb s f_zero) ss then refuse Scale_not_positive
  else
    ws ← numbers (the "weights" d) n;
    if existsb (fun w => fltb MAX_ABS_WEIGHT (SFabs w)) ws then refuse Hard_switch
    else
      ls ← numbers (the "low" d) n; hs ← numbers (the "high" d) n;
      if existsb (fun e : float * float => fltb e.2 e.1) (zip ls hs) then refuse Bounds_crossed
      else
        g ← grouping_of (the "grouping" d);
        cs ← numbers (the "center" d) n; i ← num (the "intercept" d); t ← num (the "threshold" d); g ← grouping_numbers g;
        let m := MkLinear names (rows_of names ts cs ss ls hs ws) i t g in
        if fltb MAX_ABS_WEIGHT (SFabs i) then refuse Hard_switch
        else if fltb (merge_min_pairs g) f_one then refuse Few_merge_pairs
        else if negb (fltb (linear_span m).1 t && fltb t (linear_span m).2) then refuse Unreachable_threshold
        else Ok m.

Section scorer.
Context (log1p : float -> float).

Definition standardised_one (vector : list float) (r : Row) : option float :=
  v ← vector !! position r;
  let v := match transform r with Log1p => log1p (fmax v f_zero) | Identity => v end in
  let v := py_min (fmax v (low r)) (high r) in
  Some (fdiv (fsub v (center r)) (scale r)).
Definition standardised (m : LinearModel) (vector : list float) : option (list float) := mapM (standardised_one vector) (l_rows m).
(** The fused pass: the comparisons written out. *)
Definition add_row (vector : list float) (total : option float) (r : Row) : option float :=
  t ← total; v ← vector !! position r;
  let v := match transform r with Log1p => log1p (if fltb v f_zero then f_zero else v) | Identity => v end in
  let v := if fltb v (low r) then low r else v in
  let v := if fltb (high r) v then high r else v in
  Some (fadd t (fmul (weight r) (fdiv (fsub v (center r)) (scale r)))).
Definition logit (m : LinearModel) (vector : list float) : option float := foldl (add_row vector) (Some (l_intercept m)) (l_rows m).
Definition explain (m : LinearModel) (vector : list float) : option LinkScore :=
  z ← standardised m vector;
  let terms := zip_with (fun (nw : string * float) v => MkTerm nw.1 nw.2 v (fmul nw.2 v)) (zip (l_features m) (map weight (l_rows m))) z in
  let total := sum_terms (l_intercept m) terms in
  Some (MkScore (fltb (l_threshold m) total) total (l_threshold m) terms BASIS_LINEAR (l_intercept m)).
End scorer.
End Linear.

(** ** [load] and [score] *)

(** What a member's scorer is, with its document. *)
Inductive LinkModel := Gam (m : Model) | Linear_model (m : Linear.LinearModel).
Definition link_logit (log1p : float -> float) (m : LinkModel) (vector : list float) : option float :=
  match m with Gam m => logit m vector | Linear_model m => Linear.logit log1p m vector end.
Definition link_explain (log1p : float -> float) (m : LinkModel) (vector : list float) : option LinkScore :=
  match m with Gam m => explain m vector | Linear_model m => Linear.explain log1p m vector end.
Definition link_threshold (m : LinkModel) : float := match m with Gam m => threshold m | Linear_model m => Linear.l_threshold m end.
(** [score]: the explanation of the pair's vector; [None] when there is none, or a read fails. *)
Definition link_score (log1p : float -> float) (m : LinkModel) (f : LinkFeatures) : option LinkScore := vector ← v2 f; link_explain log1p m vector.

(** ** A loaded model scores every pair, as it explains it *)

Lemma position_of_lt name : name ∈ FEATURE_NAMES -> (position_of name < length FEATURE_NAMES)%nat.
Proof.
  intros H. unfold position_of. destruct (list_find_elem_of (eq name) FEATURE_NAMES name) as [[i y] E]; [done|done|]. rewrite E. cbn [fst].
  apply list_find_Some in E as (E & _). by eapply lookup_lt_Some.
Qed.
Lemma bisect_up_le fuel l x lo hi : (lo <= hi)%nat -> (bisect_up fuel l x lo hi <= hi)%nat.
Proof.
  revert lo hi. induction fuel as [|fuel IH]; intros lo hi L; cbn [bisect_up]; [lia|]. destruct (Nat.ltb_spec lo hi); [|lia].
  pose proof (Nat.div_mod_eq (lo + hi) 2). pose proof (Nat.mod_upper_bound (lo + hi) 2 ltac:(lia)).
  destruct (fltb x _); (etrans; [apply IH|]; lia).
Qed.
Lemma bisect_right_le l x : (bisect_right l x <= length l)%nat.
Proof. unfold bisect_right. apply bisect_up_le. lia. Qed.

(** What a model that passed its check is. *)
Definition shape_ok (s : Shape) : Prop := (sh_index s < length FEATURE_NAMES)%nat ∧ length (sh_scores s) = S (length (sh_edges s)).
Definition pair_ok (p : Pair) : Prop :=
  ((pr_index p).1 < length FEATURE_NAMES)%nat ∧ ((pr_index p).2 < length FEATURE_NAMES)%nat
  ∧ length (pr_scores p) = S (length (pr_edges p).1) ∧ Forall (fun row => length row = S (length (pr_edges p).2)) (pr_scores p).
Definition model_ok (m : LinkModel) : Prop :=
  match m with
  | Gam m => Forall shape_ok (shapes m) ∧ Forall pair_ok (pairs m)
  | Linear_model m => length (Linear.l_features m) = length (Linear.l_rows m) ∧ Forall (fun r => (Linear.position r < length FEATURE_NAMES)%nat) (Linear.l_rows m)
  end.

Lemma mapM_Ok_Forall2 {A B} (f : A -> res failure B) l vs : mapM (M := res failure) f l = Ok vs -> Forall2 (fun a b => f a = Ok b) l vs.
Proof.
  revert vs. induction l as [|a l IH]; intros vs H; cbn in H; [injection H as <-; constructor|].
  apply bind_Ok_inv in H as (b & E & H). apply bind_Ok_inv in H as (bs & E' & [= <-]). constructor; [done|by apply IH].
Qed.
Lemma feature_list_ok v names : feature_list v = Ok names -> Forall (fun n => n ∈ FEATURE_NAMES) names.
Proof.
  unfold feature_list. destruct v as [| | | | |[|x l]|]; try done. destruct (existsb _ _); [done|]. intros H. apply bind_Ok_inv in H as (ns & H & E).
  apply ensure_Ok_inv in E as [_ [= <-]]. apply mapM_Ok_Forall2 in H. rewrite Forall_forall. intros n Hn. apply list_elem_of_lookup in Hn as [i Hi].
  destruct (Forall2_lookup_r _ _ _ _ _ H Hi) as (v & _ & E). destruct v; try done. cbn in E. case_bool_decide; [by injection E as <-|done].
Qed.
Lemma scores_of_length v n ss : scores_of v n = Ok ss -> length ss = n.
Proof.
  unfold scores_of. destruct v as [| | | | |l|]; try done. destruct (Nat.eqb_spec (length l) n) as [L|]; [|done]. cbn. intros H. apply bind_Ok_inv in H as (ws & H & E).
  apply ensure_Ok_inv in E as [_ [= <-]]. apply mapM_Ok_Forall2, Forall2_length in H. lia.
Qed.
Lemma shape_of_ok name raw s : name ∈ FEATURE_NAMES -> shape_of name raw = Ok s -> shape_ok s.
Proof.
  intros Hn. unfold shape_of. destruct raw as [| | | | | |d]; try done. destruct (negb _); [done|]. intros H. apply bind_Ok_inv in H as (es & _ & H).
  apply bind_Ok_inv in H as (ss & E & [= <-]). apply scores_of_length in E. split; [by apply position_of_lt|done].
Qed.
Lemma pair_of_ok names raw p : Forall (fun n => n ∈ FEATURE_NAMES) names -> pair_of names raw = Ok p -> pair_ok p.
Proof.
  intros Hn. rewrite Forall_forall in Hn. unfold pair_of. destruct raw as [| | | | | |d]; try done. destruct (negb _); [done|].
  destruct (the "features" d) as [| | | | |[|[| | | |a| |] [|[| | | |b| |] [|]]]|]; try done.
  destruct (bool_decide_reflect (a ∈ names)) as [Ha|]; [|done]. destruct (bool_decide_reflect (b ∈ names)) as [Hb|]; [|done]. cbn [andb negb].
  destruct (the "edges" d) as [| | | | |[|gx [|gy [|]]]|]; try done. intros H. apply bind_Ok_inv in H as (ex & _ & H). apply bind_Ok_inv in H as (ey & _ & H).
  destruct (the "scores" d) as [| | | | |rows|]; try done. destruct (Nat.eqb_spec (length rows) (S (length ex))) as [L|]; [|done]. cbn [negb] in H.
  apply bind_Ok_inv in H as (table & Et & [= <-]). apply mapM_Ok_Forall2 in Et. split_and!; cbn.
  - by apply position_of_lt, Hn.
  - by apply position_of_lt, Hn.
  - rewrite <- (Forall2_length _ _ _ Et). done.
  - rewrite Forall_forall. intros row Hr. apply list_elem_of_lookup in Hr as [i Hi]. destruct (Forall2_lookup_r _ _ _ _ _ Et Hi) as (v & _ & E). by apply scores_of_length in E.
Qed.

Lemma validate_ok parse document m : validate parse document = Ok m -> model_ok (Gam m).
Proof.
  unfold validate. intros H. apply bind_Ok_inv in H as (d & _ & H). apply bind_Ok_inv in H as (names & Hn%feature_list_ok & H).
  destruct (the "shapes" d) as [| | | | |raws|]; try done. destruct (negb _); [done|]. apply bind_Ok_inv in H as (ss & Es%mapM_Ok_Forall2 & H).
  destruct (the "interactions" d) as [| | | | |ps|]; try done. destruct (Nat.ltb _ _); [done|]. apply bind_Ok_inv in H as (prs & Ep%mapM_Ok_Forall2 & H).
  apply bind_Ok_inv in H as (g & _ & H). apply bind_Ok_inv in H as (i & _ & H). apply bind_Ok_inv in H as (t & _ & H). apply bind_Ok_inv in H as (g' & _ & H).
  destruct (fltb _ _); [done|]. destruct (fltb _ _); [done|]. destruct (negb _); [done|]. injection H as <-. cbn. split; rewrite Forall_forall.
  - intros s Hs. apply list_elem_of_lookup in Hs as [k Hk]. destruct (Forall2_lookup_r _ _ _ _ _ Es Hk) as ([n raw] & Hz & E). apply lookup_zip_with_Some in Hz as (n' & raw' & [= -> ->] & Hn' & _).
    eapply shape_of_ok; [|exact E]. rewrite Forall_forall in Hn. apply Hn. by eapply list_elem_of_lookup_2.
  - intros p Hp. apply list_elem_of_lookup in Hp as [k Hk]. destruct (Forall2_lookup_r _ _ _ _ _ Ep Hk) as (raw & _ & E). by eapply pair_of_ok.
Qed.

Lemma numbers_length v n l : Linear.numbers v n = Ok l -> length l = n.
Proof. destruct v as [| | | | |k|]; try done. cbn. destruct (Nat.eqb_spec (length k) n) as [L|]; [|done]. intros H%mapM_Ok_Forall2%Forall2_length. lia. Qed.
Lemma linear_validate_ok parse document m : Linear.validate parse document = Ok m -> model_ok (Linear_model m).
Proof.
  unfold Linear.validate. intros H. apply bind_Ok_inv in H as (d & _ & H). apply bind_Ok_inv in H as (names & Hn%feature_list_ok & H).
  apply bind_Ok_inv in H as (ts & Et & H). apply bind_Ok_inv in H as (ss & Ls%numbers_length & H). destruct (existsb _ _); [done|].
  apply bind_Ok_inv in H as (ws & Lw%numbers_length & H). destruct (existsb _ _); [done|]. apply bind_Ok_inv in H as (ls & Ll%numbers_length & H). apply bind_Ok_inv in H as (hs & Lh%numbers_length & H).
  destruct (existsb _ _); [done|]. apply bind_Ok_inv in H as (g & _ & H). apply bind_Ok_inv in H as (cs & Lc%numbers_length & H). apply bind_Ok_inv in H as (i & _ & H). apply bind_Ok_inv in H as (t & _ & H).
  apply bind_Ok_inv in H as (g' & _ & H). destruct (fltb _ _); [done|]. destruct (fltb _ _); [done|]. destruct (negb _); [done|]. injection H as <-.
  assert (length ts = length names) as Lt.
  { unfold Linear.transforms in Et. destruct (the "transform" d) as [| | | | |k|]; try done. destruct (Nat.eqb_spec (length k) (length names)) as [L|]; [|done].
    apply mapM_Ok_Forall2, Forall2_length in Et. lia. }
  cbn [model_ok Linear.l_features Linear.l_rows]. split.
  - unfold Linear.rows_of. rewrite length_zip_with, !length_zip. lia.
  - rewrite Forall_forall. intros r Hr. apply list_elem_of_lookup in Hr as [k Hk]. unfold Linear.rows_of in Hk.
    apply lookup_zip_with_Some in Hk as (e & w & -> & He & _). destruct e as [[[[[n tr] c] s] l] h].
    do 5 apply lookup_zip_with_Some in He as (? & ? & [= <- <-] & He & _) || (apply lookup_zip_with_Some in He as (? & ? & ? & He & _); simplify_eq). cbn.
    apply position_of_lt. rewrite Forall_forall in Hn. apply Hn. by eapply list_elem_of_lookup_2.
Qed.

Lemma add_shapes vector l t : foldl (add_shape vector) t l = t ← t; (fun ts => sum_terms t ts) <$> mapM (shape_term vector) l.
Proof.
  revert t. induction l as [|s l IH]; intros t; cbn [foldl mapM]; [by destruct t|]. rewrite IH. destruct t as [t|]; [|done]. cbn. unfold shape_term.
  destruct (vector !! sh_index s) as [x|]; [|done]. cbn. destruct (shape_at s x) as [v|]; [|done]. cbn. by destruct (mapM _ l).
Qed.
Lemma add_pairs vector l t : foldl (add_pair vector) t l = t ← t; (fun ts => sum_terms t ts) <$> mapM (pair_term vector) l.
Proof.
  revert t. induction l as [|p l IH]; intros t; cbn [foldl mapM]; [by destruct t|]. rewrite IH. destruct t as [t|]; [|done]. cbn. unfold pair_term.
  destruct (vector !! (pr_index p).1) as [x|]; [|done]. cbn. destruct (vector !! (pr_index p).2) as [y|]; [|done]. cbn. destruct (pair_at p x y) as [v|]; [|done]. cbn. by destruct (mapM _ l).
Qed.
Lemma sum_terms_app start a b : sum_terms start (a ++ b) = sum_terms (sum_terms start a) b.
Proof. apply foldl_app. Qed.
Lemma gam_fast m vector : logit m vector = s_score <$> explain m vector.
Proof.
  unfold logit, explain. rewrite add_shapes, add_pairs. cbn. destruct (mapM (shape_term vector) (shapes m)) as [a|]; [|done]. cbn.
  destruct (mapM (pair_term vector) (pairs m)) as [b|]; [|done]. cbn. by rewrite sum_terms_app.
Qed.
(** The fused pass makes the comparisons [max] and [min] make. *)
Lemma add_row_fused log1p vector t r : Linear.add_row log1p vector t r = t ← t; z ← Linear.standardised_one log1p vector r; Some (fadd t (fmul (Linear.weight r) z)).
Proof.
  unfold Linear.add_row, Linear.standardised_one. destruct t as [t|]; [|done]. cbn [mbind option_bind]. destruct (vector !! Linear.position r) as [v|]; reflexivity.
Qed.
Lemma add_rows log1p vector rows names t : length names = length rows ->
  foldl (Linear.add_row log1p vector) (Some t) rows =
  (fun z => sum_terms t (zip_with (fun (nw : string * float) v => MkTerm nw.1 nw.2 v (fmul nw.2 v)) (zip names (map Linear.weight rows)) z)) <$> mapM (Linear.standardised_one log1p vector) rows.
Proof.
  revert names t. induction rows as [|r rows IH]; intros [|n names] t L; try done. cbn [foldl mapM map zip zip_with]. cbn [length] in L.
  rewrite add_row_fused. cbn [mbind option_bind]. destruct (Linear.standardised_one log1p vector r) as [z|]; cbn [mbind option_bind].
  - rewrite (IH names) by lia. by destruct (mapM _ rows).
  - clear. induction rows; done.
Qed.
Lemma linear_fast log1p m vector : model_ok (Linear_model m) -> Linear.logit log1p m vector = s_score <$> Linear.explain log1p m vector.
Proof.
  intros [L _]. unfold Linear.logit, Linear.explain, Linear.standardised. rewrite (add_rows _ _ _ _ _ L). by destruct (mapM _ _).
Qed.

Lemma mapM_total {A B} (f : A -> option B) l : Forall (fun a => is_Some (f a)) l -> is_Some (mapM f l).
Proof. intros. by apply mapM_is_Some. Qed.
Lemma explain_total log1p m vector : model_ok m -> length vector = length FEATURE_NAMES -> is_Some (link_explain log1p m vector).
Proof.
  intros H L. change (length FEATURE_NAMES) with 15%nat in L. destruct m as [m|m]; cbn in H |- *.
  - destruct H as [Hs Hp]. unfold explain.
    assert (is_Some (mapM (shape_term vector) (shapes m))) as [a ->].
    { apply mapM_is_Some. eapply Forall_impl; [exact Hs|]. intros s [H1 H2]. change (length FEATURE_NAMES) with 15%nat in H1. unfold compose, shape_term. destruct (lookup_lt_is_Some_2 vector (sh_index s)) as [x ->]; [lia|]. cbn.
      unfold shape_at. pose proof (bisect_right_le (sh_edges s) x). destruct (lookup_lt_is_Some_2 (sh_scores s) (bisect_right (sh_edges s) x)) as [v ->]; [lia|]. by eexists. }
    assert (is_Some (mapM (pair_term vector) (pairs m))) as [b ->]; [|by eexists].
    apply mapM_is_Some. eapply Forall_impl; [exact Hp|]. intros p (H1 & H2 & H3 & H4). change (length FEATURE_NAMES) with 15%nat in H1, H2. unfold compose, pair_term.
    destruct (lookup_lt_is_Some_2 vector (pr_index p).1) as [x ->]; [lia|]. destruct (lookup_lt_is_Some_2 vector (pr_index p).2) as [y ->]; [lia|]. cbn [mbind option_bind].
    unfold pair_at. pose proof (bisect_right_le (pr_edges p).1 x). destruct (lookup_lt_is_Some_2 (pr_scores p) (bisect_right (pr_edges p).1 x)) as [row Er]; [lia|]. rewrite Er. cbn [mbind option_bind].
    rewrite Forall_forall in H4. specialize (H4 row (list_elem_of_lookup_2 _ _ _ Er)). pose proof (bisect_right_le (pr_edges p).2 y).
    destruct (lookup_lt_is_Some_2 row (bisect_right (pr_edges p).2 y)) as [v ->]; [lia|]. by eexists.
  - destruct H as [_ Hr]. unfold Linear.explain, Linear.standardised.
    assert (is_Some (mapM (Linear.standardised_one log1p vector) (Linear.l_rows m))) as [z ->]; [|by eexists].
    apply mapM_is_Some. eapply Forall_impl; [exact Hr|]. intros r Hp. cbn beta in Hp. unfold compose, Linear.standardised_one. destruct (lookup_lt_is_Some_2 vector (Linear.position r)) as [v ->]; [lia|]. by eexists.
Qed.

(** The kinds loaded from a document. *)
Definition load_gam (parse : string -> parsed) (document : string) : res failure LinkModel := Gam <$> validate parse document.
Definition load_linear (parse : string -> parsed) (document : string) : res failure LinkModel := Linear_model <$> Linear.validate parse document.

(** A document of either kind that passed its check scores every pair of fifteen features; the logit of the fast path is the
    explained score, bit for bit; the verdict is that of the score against the model's threshold; and the score is what the base value and
    the terms' contributions add up to, in their order. *)
Theorem a_loaded_model_scores_as_it_explains parse log1p document m vector :
  load_gam parse document = Ok m ∨ load_linear parse document = Ok m -> length vector = length FEATURE_NAMES ->
  ∃ s, link_explain log1p m vector = Some s ∧ link_logit log1p m vector = Some (s_score s)
  ∧ s_linked s = fltb (link_threshold m) (s_score s) ∧ s_score s = sum_terms (s_base s) (s_terms s).
Proof.
  intros H L. assert (model_ok m) as Hm.
  { destruct H as [H|H]; unfold load_gam, load_linear in H; apply fmap_Ok_inv in H as (m' & E & ->); [by eapply validate_ok|by eapply linear_validate_ok]. }
  destruct (explain_total log1p m vector Hm L) as [s E]. exists s. split; [done|]. destruct m as [m|m]; cbn [link_explain link_logit link_threshold] in *.
  - rewrite gam_fast, E. split; [done|]. unfold explain in E. destruct (mapM (shape_term _) _); [|done]. cbn in E. destruct (mapM (pair_term _) _); [|done]. by injection E as <-.
  - rewrite linear_fast, E by done. split; [done|]. unfold Linear.explain in E. destruct (Linear.standardised _ _ _); [|done]. by injection E as <-.
Qed.

(** ** Two documents *)

Definition one_grouping : json := JObj [("join_bias", JInt 0); ("merge_bias", JInt 0); ("merge_min_pairs", JInt 1)]%string.
Definition one_shape (edge low high : Z) : json :=
  JObj [("format", JStr GAM_FORMAT); ("features", JList [JStr "same_ne"]); ("intercept", JInt 0); ("threshold", JInt 0);
        ("shapes", JList [JObj [("feature", JStr "same_ne"); ("edges", JList [JInt edge]); ("scores", JList [JInt low; JInt high])]]);
        ("interactions", JList []); ("grouping", one_grouping)]%string.
Definition fifteen (v : float) : list float := replicate 15 v.
Lemma a_loaded_model_scores_as_it_explains_witness :
  match load_gam (fun _ => P_value (one_shape 1 (-1) 2)) "" with
  | Ok m => ∃ s, link_explain id m (fifteen f_one) = Some s ∧ link_logit id m (fifteen f_one) = Some (s_score s)
      ∧ s_linked s = fltb (link_threshold m) (s_score s) ∧ s_score s = sum_terms (s_base s) (s_terms s)
  | Err _ => False
  end.
Proof.
  destruct (load_gam (fun _ => P_value (one_shape 1 (-1) 2)) "") as [m|p] eqn:E; [|by vm_compute in E].
  apply (a_loaded_model_scores_as_it_explains (fun _ => P_value (one_shape 1 (-1) 2)) id "" m (fifteen f_one)); [by left|reflexivity].
Defined.

(** A list where a feature's name should be cannot be hashed: the check raises [TypeError], which a league takes for no refusal. *)
Example a_list_of_names_escapes :
  (load_gam (fun _ => P_value (JObj (dict_set "features"%string (JList [JList []]) (match one_shape 1 0 1 with JObj d => d | _ => [] end)))) "") = Err (Raised "TypeError").
Proof. vm_compute. reflexivity. Qed.

(** A model whose only linking bin lies below 0, where no feature ever is, is accepted: it links no pair. *)
Definition links_nothing : res failure LinkModel := load_gam (fun _ => P_value (one_shape 0 5 (-1))) "".
Lemma right_of_zero v : fltb v f_zero = false -> bisect_right [f_zero] v = 1%nat.
Proof. intros Hv. unfold bisect_right. cbn -[fltb f_zero]. by rewrite Hv. Qed.
Lemma links_no_pair m v vector : links_nothing = Ok m -> vector !! 1%nat = Some v -> fltb v f_zero = false -> link_logit id m vector = Some (f_of_Z (-1)).
Proof.
  intros H E Hv. vm_compute in H. injection H as <-. cbn [link_logit]. unfold logit. cbn [shapes pairs foldl intercept sh_index sh_edges sh_scores]. unfold add_shape. cbn [mbind option_bind sh_index]. rewrite E.
  cbn [mbind option_bind]. unfold shape_at. cbn [sh_edges sh_scores]. change (S754_zero false) with f_zero. rewrite right_of_zero by done. by vm_compute.
Qed.
Example a_model_that_never_links : match links_nothing with Ok m => (link_threshold m, link_logit id m (fifteen f_zero), link_logit id m (fifteen f_one)) | Err _ => (f_one, None, None) end
  = (f_zero, Some (f_of_Z (-1)), Some (f_of_Z (-1))).
Proof. vm_compute. reflexivity. Qed.
