(* ===== verification/League.v ===== *)
(** * The league of models and its judge ([engine/model/league.py], [league_judge.py])

    Loading the members a build ships and the site's own, each checked against its manifest; the order their manifests put them in; the choice
    of the champion. A kind is an interface: how its document loads and what its scorer answers. SHA-256, [json.loads],
    [float] of a string, [exp], [log], [pow] and [stdev] of [statistics] are arguments. *)
From S2P Require Import Prelude PyLib Floats Json Scores LinkModels.

(** ** Kinds *)

(** The kinds of the build, in order, with the name an operator reads. *)
Definition KINDS : list (string * string) :=
  [("gam", "GAM (explainable boosting)"); ("boosted_trees", "Gradient-boosted trees"); ("random_forest", "Random forest"); ("decision_tree", "Decision tree");
   ("logistic_regression", "Logistic regression"); ("xgboost", "XGBoost"); ("knn", "k-nearest neighbours")]%string.

(** [KINDS[kind][1](document, scorer_id)]: refused, another exception, or a scorer with its logit. *)
Class Kinds (S : Type) := {
  load_kind : string -> string -> res failure S;
  kind_logit : S -> list float -> option float }.

(** ** Python's reads of a manifest *)

Inductive exn := KeyError | TypeError | ValueError | AttributeError | OverflowError | IndexError.

Definition truthy (v : json) : bool :=
  match v with
  | JNull => false | JBool b => b | JInt z => negb (z =? 0) | JFloat f => negb (feqb f f_zero)
  | JStr s => negb (bool_decide (s = EmptyString)) | JList l => match l with [] => false | _ => true end | JObj d => match d with [] => false | _ => true end
  end.
(** [v.get(key)], [v[key]] and [v or {}]. *)
Definition get (v : json) (key : string) : res exn json := match v with JObj d => Ok (default JNull (assoc key d)) | _ => Err AttributeError end.
Definition index (v : json) (key : string) : res exn json :=
  match v with JObj d => match assoc key d with Some v => Ok v | None => Err KeyError end | _ => Err TypeError end.
Definition or_empty (v : json) : json := if truthy v then v else JObj [].

(** [math.fsum]: the exact sum of floats, rounded once. *)
Definition exactly (f : float) : Z := match f with S754_finite s m e => (if s then Z.neg m else Z.pos m) * 2 ^ (e + 1074) | _ => 0 end.
Definition is_infinity (f : float) : bool := match f with S754_infinity _ => true | _ => false end.
Definition rounded (total : Z) : float := binary_normalize 53 1024 total (-1074) false.
Definition add_exactly (acc : res exn Z) (f : float) : res exn Z :=
  total ← acc; let total := total + exactly f in if f_finite (rounded total) then Ok total else Err OverflowError.
Definition fsum (l : list float) : res exn float :=
  total ← foldl add_exactly (Ok 0) (List.filter f_finite l);
  if forallb f_finite l then Ok (rounded total)
  else
    let infinities := foldl fadd f_zero (List.filter is_infinity l) in
    if is_nan infinities then Err ValueError else Ok (if existsb is_nan l then S754_nan else infinities).
(** [statistics.fmean] of a list that is not empty. *)
Definition fmean (l : list float) : res exn float := t ← fsum l; Ok (fdiv t (f_of_Z (Z.of_nat (length l)))).

Section league.
Context {S : Type} `{Kinds S} (sha256 : string -> string) (parse_json : string -> option json) (float_of_string : string -> option float).

(** [float(v)] *)
Definition to_float (v : json) : res exn float :=
  match v with
  | JBool b => Ok (f_of_Z (Z.b2z b))
  | JInt z => let f := f_of_Z z in if f_finite f then Ok f else Err OverflowError
  | JFloat f => Ok f
  | JStr s => match float_of_string s with Some f => Ok f | None => Err ValueError end
  | _ => Err TypeError
  end.

Inductive Origin := Pretrained | Site.
Record Member := MkMember { kind : string; document : string; sha : string; manifest : list (string * json); scorer : S; origin : Origin }.
Definition ref (m : Member) : string :=
  (match origin m with Pretrained => "" | Site => "site-" end)%string +:+ kind m +:+ ":" +:+ String.substring 0 12 (sha m).

Inductive league_refusal :=
  | Unknown_kind | Manifest_too_big | Manifest_not_json | No_artifact | Hash_differs | Kind_differs | Document_refused (why : refusal)
  | Missing_document | Missing_manifest | Unreadable (exc : string).
Record League := MkLeague { members : list Member; refused : list (string * league_refusal) }.
Definition by_ref (l : list Member) (r : string) : option Member := head (List.filter (fun m => bool_decide (ref m = r)) l).
Definition by_kind (l : list Member) (k : string) : option Member := head (List.filter (fun m => bool_decide (kind m = k) && match origin m with Pretrained => true | Site => false end) l).
Definition with_member (l : League) (m : Member) : League := MkLeague (members l ++ [m]) (refused l).

(** A call that raises [LeagueError] with its reason, or another exception. *)
Inductive league_error := Refusal (why : league_refusal) | Escapes (exc : string).
Definition known (k : string) : bool := bool_decide (k ∈ KINDS.*1).
Definition MAX_MANIFEST_BYTES : Z := 8 * 1024 * 1024.

Definition loaded (k document : string) : res league_error S :=
  match load_kind k document with
  | Ok s => Ok s
  | Err (Refused why) => Err (Refusal (Document_refused why))
  | Err (Raised exc) => Err (Escapes exc)
  end.
Definition site_member (k document : string) (version_id : Z) (created_at : float) : res league_error Member :=
  if negb (known k) then Err (Refusal Unknown_kind)
  else
    s ← loaded k document;
    let digest := sha256 document in
    Ok (MkMember k document digest
      [("artifact", JObj [("kind", JStr k); ("sha256", JStr digest)]);
       ("provenance", JObj [("data", JStr "this site's labels"); ("model_version_id", JInt version_id); ("fitted_at", JFloat created_at)])]%string s Site).
Definition is_string (s : string) (v : option json) : bool := match v with Some (JStr t) => bool_decide (t = s) | _ => false end.
Definition member_from (k document manifest_text : string) : res league_error Member :=
  if negb (known k) then Err (Refusal Unknown_kind)
  else if MAX_MANIFEST_BYTES <? Z.of_nat (String.length manifest_text) then Err (Refusal Manifest_too_big)
  else match parse_json manifest_text with
  | None => Err (Refusal Manifest_not_json)
  | Some (JObj manifest) =>
      match assoc "artifact"%string manifest with
      | Some (JObj artifact) =>
          let digest := sha256 document in
          if negb (is_string digest (assoc "sha256"%string artifact)) then Err (Refusal Hash_differs)
          else if negb (is_string k (assoc "kind"%string artifact)) then Err (Refusal Kind_differs)
          else s ← loaded k document; Ok (MkMember k document digest manifest s Pretrained)
      | _ => Err (Refusal No_artifact)
      end
  | Some _ => Err (Refusal No_artifact)
  end.

(** A file of the directory: absent, its text, or the exception its reading raised. *)
Definition Files : Type := string -> option (res string string).
Definition load_one (files : Files) (l : League) (k : string) : res string League :=
  let refuse_it why := Ok (MkLeague (members l) (refused l ++ [(k, why)])) in
  match files (k +:+ ".json"), files (k +:+ ".manifest.json") with
  | None, None => Ok l
  | None, Some _ => refuse_it Missing_document
  | Some _, None => refuse_it Missing_manifest
  | Some (Err exc), _ => refuse_it (Unreadable exc)
  | Some (Ok _), Some (Err exc) => refuse_it (Unreadable exc)
  | Some (Ok document), Some (Ok manifest) =>
      match member_from k document manifest with
      | Ok m => Ok (MkLeague (members l ++ [m]) (refused l))
      | Err (Refusal why) => refuse_it why
      | Err (Escapes exc) => Err exc
      end
  end.
Definition load_dir (files : Files) : res string League := foldl (fun l k => l ← l; load_one files l k) (Ok (MkLeague [] [])) KINDS.*1.

(** ** The offline order *)

Definition GENERATED : list string := ["test_iid"; "test_concurrency"; "test_optical"; "test_protocol"; "test_adverse"; "test_spread"]%string.
Definition SUITES : list string := GENERATED ++ ["corpus"%string].
Definition TIE : float := f_lit 5 1000.
Definition LATENCY_BUDGET_US : float := f_of_Z 150.

Definition splits_of (m : list (string * json)) : res exn json :=
  s ← get (or_empty (default JNull (assoc "evaluation"%string m))) "splits"; Ok (or_empty s).
(** [float(splits[name]["model"][measure]["point"])]; what the loop's [except] catches is [None]. *)
Definition point (splits : json) (name measure : string) : res exn (option float) :=
  match (a ← index splits name; b ← index a "model"; c ← index b measure; d ← index c "point"; to_float d) with
  | Ok f => Ok (Some f)
  | Err (KeyError | TypeError | ValueError) => Ok None
  | Err e => Err e
  end.
Definition named_point (splits : json) (measure name : string) : res exn (string * option float) := p ← point splits name measure; Ok (name, p).
Definition present (e : string * option float) : option (string * float) := match e.2 with Some f => Some (e.1, f) | None => None end.
Definition points_of (splits : json) (measure : string) : res exn (list (string * float)) :=
  found ← mapM (M := res exn) (named_point splits measure) GENERATED; Ok (omap (M := list) present found).
Definition corpus_values (m : list (string * json)) : res exn (list float) :=
  c ← index (JObj m) "corpus"; s ← index c "scenarios";
  match s with JObj d => mapM (M := res exn) (fun e : string * json => p ← index e.2 "pairwise_f1"; to_float p) d | _ => Err AttributeError end.
Definition corpus_score (m : list (string * json)) : res exn (option float) :=
  match corpus_values m with
  | Ok values => match List.filter f_finite values with [] => Ok None | vs => f ← fmean vs; Ok (Some f) end
  | Err (KeyError | TypeError | ValueError | AttributeError) => Ok None
  | Err e => Err e
  end.
Definition suites (m : Member) : res exn (list (string * float)) :=
  splits ← splits_of (manifest m); found ← points_of splits "pairwise_f1"; corpus ← corpus_score (manifest m);
  Ok (List.filter (fun e : string * float => f_finite e.2) (found ++ match corpus with Some c => [("corpus"%string, c)] | None => [] end)).
Definition f_infinite : float := S754_infinity false.
Definition repair (m : Member) : res exn float :=
  splits ← splits_of (manifest m); found ← points_of splits "repair_gestures";
  match found with [] => Ok f_infinite | _ => fmean found.*2 end.
Definition offline_score (m : Member) : res exn float := got ← suites m; match got with [] => Ok S754_nan | _ => fmean got.*2 end.

Record Order := MkOrder { incomplete : bool; bucket : option Z; gestures : float; kind_key : string }.
(** [math.floor] *)
Definition floor (f : float) : res exn Z := if f_finite f then Ok (f_floor_div f 1) else Err OverflowError.
Definition order_key (m : Member) : res exn Order :=
  got ← suites m; score ← offline_score m;
  b ← (if f_finite score then n ← floor (fdiv score TIE); Ok (Some (- n)) else Ok None);
  r ← repair m; Ok (MkOrder (negb (Nat.eqb (length got) (length SUITES))) b r (kind m)).
Definition bucket_ltb (a b : option Z) : bool := match a, b with Some x, Some y => x <? y | Some _, None => true | None, _ => false end.
(** Tuples compare by their first difference. *)
Definition order_ltb (a b : Order) : bool :=
  if Bool.eqb (incomplete a) (incomplete b) then
    if bool_decide (bucket a = bucket b) then
      if feqb (gestures a) (gestures b) then negb (string_leb (kind_key b) (kind_key a)) else fltb (gestures a) (gestures b)
    else bucket_ltb (bucket a) (bucket b)
  else incomplete b.
Definition offline_order (l : list Member) : res exn (list Member) :=
  keyed ← mapM (M := res exn) (fun m => k ← order_key m; Ok (k, m)) l;
  Ok (sort_by (fun a b : Order * Member => negb (order_ltb b.1 a.1)) keyed).*2.

(** A row of the table; the rounding of what it shows, and its rank and name, are left out. *)
Record TableRow := MkTableRow { tr_kind : string; tr_ref : string; tr_score : float; tr_suites : list (string * float); tr_repair : float; tr_latency : option float; tr_eligible : bool }.
Definition table_row (latency_us : list (string * float)) (m : Member) : res exn TableRow :=
  score ← offline_score m; got ← suites m; r ← repair m;
  let us := assoc (ref m) latency_us in
  Ok (MkTableRow (kind m) (ref m) score got r us (match us with Some us => negb (fltb LATENCY_BUDGET_US us) | None => true end)).

(** ** The comparison on a site's labels *)

Section judge.
Context (exp log : float -> float) (pow : float -> Z -> float) (stdev : list float -> float).

Record SiteRow := MkSiteRow { sr_x : list float; sr_y : Z; sr_w : float; sr_bag : string * Z; sr_incident : Z; label_at : float }.
Inductive verdict := Better | Worse | Undecided | No_evidence.
Record Comparison := MkComparison { challenger : string; champion_of : string; incidents : nat; c_mean : float; c_low : float; c_high : float; c_verdict : verdict }.

Definition T_TABLE : list float :=
  map (fun n => f_lit n 1000) [12706; 4303; 3182; 2776; 2571; 2447; 2365; 2306; 2262; 2228; 2201; 2179; 2160; 2145; 2131; 2120; 2110; 2101; 2093; 2086;
    2080; 2074; 2069; 2064; 2060; 2056; 2052; 2048; 2045; 2042].
Definition t_quantile (df : nat) : float :=
  if Nat.ltb df 1 then f_infinite
  else if Nat.leb df (length T_TABLE) then nth (df - 1) T_TABLE f_zero
  else
    let z := f_lit 1959964 1000000 in
    let n := Z.of_nat df in
    fadd (fadd z (fdiv (fadd (pow z 3) z) (f_of_Z (4 * n))))
      (fdiv (fadd (fadd (fmul (f_of_Z 5) (pow z 5)) (fmul (f_of_Z 16) (pow z 3))) (fmul (f_of_Z 3) z)) (f_of_Z (96 * n * n))).

Definition EPSILON : float := f_lit 1 1000000000000.
Definition probability (z : float) : float :=
  let z := fmax (f_of_Z (-700)) (py_min (f_of_Z 700) z) in
  py_min (fmax (fdiv f_one (fadd f_one (exp (fopp z)))) EPSILON) (fsub f_one EPSILON).
Definition log_loss_step (m : Member) (acc : option (float * float)) (r : SiteRow) : option (float * float) :=
  '(total, mass) ← acc; z ← kind_logit (scorer m) (sr_x r);
  let p := probability z in
  Some (fsub total (fmul (sr_w r) (if sr_y r =? 0 then log (fsub f_one p) else log p)), fadd mass (sr_w r)).
Definition log_loss (m : Member) (rows : list SiteRow) : res exn float :=
  match foldl (log_loss_step m) (Some (f_zero, f_zero)) rows with
  | None => Err IndexError
  | Some (total, mass) => Ok (if feqb mass f_zero then f_zero else fdiv total mass)
  end.
Definition insert_Z (z : Z) (l : list Z) : list Z := if bool_decide (z ∈ l) then l else z :: l.
Definition incidents_of (rows : list SiteRow) : list Z := sort_by Z.leb (foldr insert_Z [] (map sr_incident rows)).
Definition group (rows : list SiteRow) (i : Z) : list SiteRow := List.filter (fun r => sr_incident r =? i) rows.
Definition compare (champion challenger : Member) (rows : list SiteRow) : res exn Comparison :=
  diffs ← mapM (M := res exn) (fun i => a ← log_loss challenger (group rows i); b ← log_loss champion (group rows i); Ok (fsub a b)) (incidents_of rows);
  let n := length diffs in
  if Nat.ltb n 2 then Ok (MkComparison (ref challenger) (ref champion) n S754_nan S754_nan S754_nan No_evidence)
  else
    m ← fmean diffs;
    let half := fdiv (fmul (t_quantile (n - 1)) (stdev diffs)) (fsqrt (f_of_Z (Z.of_nat n))) in
    let low := fsub m half in let high := fadd m half in
    Ok (MkComparison (ref challenger) (ref champion) n m low high (if fltb high f_zero then Better else if fltb f_zero low then Worse else Undecided)).

Definition fitted_at (m : Member) : res exn float :=
  match (p ← index (JObj (manifest m)) "provenance"; f ← index p "fitted_at"; to_float f) with
  | Ok f => Ok f
  | Err (KeyError | TypeError | ValueError) => Ok f_zero
  | Err e => Err e
  end.
(** The labels that arrived after the last fit of a site member of the pair. *)
Definition out_of_sample (rows : list SiteRow) (a b : Member) : res exn (list SiteRow) :=
  sinces ← mapM (M := res exn) fitted_at (List.filter (fun m => match origin m with Site => true | Pretrained => false end) [a; b]);
  match sinces with
  | [] => Ok rows
  | s :: rest => let since := foldl fmax s rest in Ok (List.filter (fun r => fltb since (label_at r)) rows)
  end.

(** ** The choice *)

Inductive reason := By_pin | All_over_budget | Kept | First_offline | No_labels (first : list string) | Better_here (c : Comparison).
Record Choice := MkChoice { champion : string; why : reason; table : list TableRow; comparisons : list Comparison; ineligible : list string }.

Fixpoint min_by {A} (lt : A -> A -> bool) (best : A) (l : list A) : A := match l with [] => best | a :: l => min_by lt (if lt a best then a else best) l end.
Definition latency_or_inf (latency_us : list (string * float)) (m : Member) : float := default f_infinite (assoc (ref m) latency_us).
Definition comparison_ltb (a b : Comparison) : bool :=
  if feqb (c_mean a) (c_mean b) then negb (string_leb (challenger b) (challenger a)) else fltb (c_mean a) (c_mean b).
(** The members tied with the first on completeness and score. *)
Definition tied_with (first : Member) (candidates : list Member) : res exn (list string) :=
  key ← order_key first;
  ts ← mapM (M := res exn) (fun m => k ← order_key m; Ok (negb (bool_decide (ref m = ref first)) && Bool.eqb (incomplete k) (incomplete key) && bool_decide (bucket k = bucket key), ref m)) candidates;
  Ok (omap (M := list) (fun e : bool * string => if e.1 then Some e.2 else None) ts).

Definition choose (l : list Member) (rows : list SiteRow) (current pinned : option string) (latency_us : list (string * float)) : res exn (option Choice) :=
  match l with
  | [] => Ok None
  | first_member :: others =>
      ordered ← offline_order l;
      table ← mapM (M := res exn) (table_row latency_us) ordered;
      let ineligible := (List.filter (fun e : string * float => fltb LATENCY_BUDGET_US e.2) latency_us).*1 in
      let candidates := omap (fun r => if tr_eligible r then by_ref l (tr_ref r) else None) table in
      match pinned ≫= by_ref l with
      | Some _ => Ok (Some (MkChoice (default ""%string pinned) By_pin table [] ineligible))
      | None =>
          match candidates with
          | [] =>
              let fastest := min_by (fun a b => fltb (latency_or_inf latency_us a) (latency_or_inf latency_us b)) first_member others in
              Ok (Some (MkChoice (ref fastest) All_over_budget table [] ineligible))
          | first_candidate :: _ =>
              let kept := head (List.filter (fun m => bool_decide (Some (ref m) = current)) candidates) in
              let incumbent := default first_candidate kept in
              cs ← mapM (M := res exn) (fun m => fresh ← out_of_sample rows incumbent m; compare incumbent m fresh)
                     (List.filter (fun m => negb (bool_decide (ref m = ref incumbent))) candidates);
              match List.filter (fun c => match c_verdict c with Better => true | _ => false end) cs with
              | b :: better =>
                  let best := min_by comparison_ltb b better in
                  Ok (Some (MkChoice (challenger best) (Better_here best) table cs ineligible))
              | [] =>
                  reason ← (if bool_decide (rows = []) then t ← tied_with incumbent candidates; Ok (No_labels t)
                            else Ok (match kept with Some _ => Kept | None => First_offline end));
                  Ok (Some (MkChoice (ref incumbent) reason table cs ineligible))
              end
          end
      end
  end.
End judge.
End league.

(** ** What the judge promises *)

Section laws.
Context {S : Type} `{Kinds S} (sha256 : string -> string) (parse_json : string -> option json) (float_of_string : string -> option float).
Context (exp log : float -> float) (pow : float -> Z -> float) (stdev : list float -> float).
Notation Choose := (choose float_of_string exp log pow stdev).
Implicit Types (l : list (Member (S := S))) (m : Member (S := S)).

(** Not measured over the fast loop's budget. *)
Definition within_budget (latency_us : list (string * float)) m : bool := match assoc (ref m) latency_us with Some us => negb (fltb LATENCY_BUDGET_US us) | None => true end.

Lemma head_filter_Some {A} (p : A -> bool) k x : head (List.filter p k) = Some x -> x ∈ k ∧ p x = true.
Proof.
  intros E. assert (x ∈ List.filter p k) as Hx by (destruct (List.filter p k); [done|injection E as ->; by left]).
  by apply list_elem_of_In, filter_In in Hx as [Hx%list_elem_of_In ?].
Qed.
Lemma head_filter_None {A} (p : A -> bool) k x : head (List.filter p k) = None -> x ∈ k -> p x = false.
Proof.
  intros E Hx. destruct (p x) eqn:P; [|done]. assert (x ∈ List.filter p k) as Hf by (apply list_elem_of_In, filter_In; by rewrite <- list_elem_of_In).
  destruct (List.filter p k); [by apply elem_of_nil in Hf|done].
Qed.
Lemma by_ref_Some l r m : by_ref l r = Some m -> m ∈ l ∧ ref m = r.
Proof. intros [Hm E%bool_decide_eq_true]%head_filter_Some. done. Qed.
Lemma by_ref_found l m : m ∈ l -> ∃ m', by_ref l (ref m) = Some m' ∧ ref m' = ref m.
Proof.
  intros Hm. destruct (by_ref l (ref m)) as [x|] eqn:E; [exists x; by apply by_ref_Some in E as [_ ->]|].
  apply (head_filter_None _ _ m) in E; [|done]. by apply bool_decide_eq_false in E.
Qed.

Lemma mapM_Forall2 {E A B} (f : A -> res E B) (k : list A) vs : mapM (M := res E) f k = Ok vs -> Forall2 (fun a b => f a = Ok b) k vs.
Proof.
  revert vs. induction k as [|a k IH]; intros vs Hv; cbn in Hv; [injection Hv as <-; constructor|].
  apply bind_Ok_inv in Hv as (b & E1 & Hv). apply bind_Ok_inv in Hv as (bs & E2 & [= <-]). constructor; [done|by apply IH].
Qed.
Lemma offline_order_perm l o : offline_order float_of_string l = Ok o -> o ≡ₚ l.
Proof.
  unfold offline_order. intros E. apply bind_Ok_inv in E as (keyed & Ek & [= <-]). rewrite sort_by_perm. apply mapM_Forall2 in Ek.
  induction Ek as [|m [k m'] l keyed E Ek IH]; [done|]. apply bind_Ok_inv in E as (k' & _ & [= <- <-]). cbn. by constructor.
Qed.

(** The eligible rows, in the offline order, name the members within the budget. *)
Definition candidates_of l (table : list TableRow) : list Member := omap (fun r => if tr_eligible r then by_ref l (tr_ref r) else None) table.
Lemma candidates_spec l lat o table : offline_order float_of_string l = Ok o -> mapM (M := res exn) (table_row float_of_string lat) o = Ok table ->
  (∀ m, m ∈ candidates_of l table -> m ∈ l ∧ within_budget lat m = true ∧ by_ref l (ref m) = Some m)
  ∧ (∀ m, m ∈ l -> within_budget lat m = true -> ∃ m', m' ∈ candidates_of l table ∧ ref m' = ref m).
Proof.
  intros P%offline_order_perm T%mapM_Forall2.
  assert (∀ m r, table_row float_of_string lat m = Ok r -> tr_ref r = ref m ∧ tr_eligible r = within_budget lat m) as R.
  { intros m r E. unfold table_row in E. apply bind_Ok_inv in E as (? & _ & E). apply bind_Ok_inv in E as (? & _ & E). apply bind_Ok_inv in E as (? & _ & E). injection E as <-. done. }
  split.
  - intros m (r & Hr & E)%list_elem_of_omap. apply list_elem_of_lookup in Hr as [i Hi]. destruct (Forall2_lookup_r _ _ _ _ _ T Hi) as (m' & Hm' & Er).
    apply R in Er as [Er1 Er2]. destruct (tr_eligible r) eqn:El; [|done]. pose proof (by_ref_Some _ _ _ E) as [Hm Hr']. rewrite Hr'. split_and!; [done| |done].
    rewrite Er1 in Hr'. unfold within_budget in *. by rewrite Hr'.
  - intros m Hm Hw. rewrite <- P in Hm. apply list_elem_of_lookup in Hm as [i Hi]. destruct (Forall2_lookup_l _ _ _ _ _ T Hi) as (r & Hr & Er). apply R in Er as [Er1 Er2].
    destruct (by_ref_found l m) as (m' & E & Er'); [rewrite <- P; by eapply list_elem_of_lookup_2|]. exists m'. split; [|done]. apply list_elem_of_omap. exists r.
    split; [by eapply list_elem_of_lookup_2|]. by rewrite Er2, Hw, Er1.
Qed.

Lemma min_by_in {A} (lt : A -> A -> bool) b k : min_by lt b k ∈ b :: k.
Proof. revert b. induction k as [|a k IH]; intros b; cbn; [by left|]. destruct (lt a b); [right; apply IH|]. specialize (IH b). set_solver. Qed.
Lemma min_by_least {A} (f : A -> float) b k : (∀ a, a ∈ b :: k -> is_nan (f a) = false) ->
  ∀ a, a ∈ b :: k -> fltb (f a) (f (min_by (fun a b => fltb (f a) (f b)) b k)) = false.
Proof.
  revert b. induction k as [|c k IH]; intros b N a Ha; cbn [min_by].
  - apply list_elem_of_singleton in Ha as ->. apply fltb_irrefl.
  - assert (∀ x y, x ∈ b :: c :: k -> y ∈ b :: c :: k -> fltb (f y) (f x) = false -> fltb (f x) (f (min_by (fun a b => fltb (f a) (f b)) x k)) = false ->
      fltb (f y) (f (min_by (fun a b => fltb (f a) (f b)) x k)) = false) as T.
    { intros x y Hx Hy L X. apply not_true_iff_false in X. apply not_true_iff_false. intros Y. apply X.
      rewrite fltb_fleb_total in L by (by apply N). apply negb_false_iff in L. by eapply fleb_ltb_trans. }
    apply elem_of_cons in Ha as [->|[->|Ha]%elem_of_cons].
    + destruct (fltb (f c) (f b)) eqn:E; [|apply IH; [intros; apply N; set_solver|by left]].
      apply T; [set_solver|set_solver| |apply IH; [intros; apply N; set_solver|by left]].
      apply not_true_iff_false. intros Y. pose proof (fltb_trans _ _ _ E Y) as Z. by rewrite fltb_irrefl in Z.
    + destruct (fltb (f c) (f b)) eqn:E; [apply IH; [intros; apply N; set_solver|by left]|].
      apply T; [set_solver|set_solver|done|apply IH; [intros; apply N; set_solver|by left]].
    + destruct (fltb (f c) (f b)); (apply IH; [intros; apply N; set_solver|by right]).
Qed.

Lemma compare_better champion challenger rows b : compare exp log pow stdev champion challenger rows = Ok b -> c_verdict b = Better ->
  League.challenger b = ref challenger ∧ champion_of b = ref champion ∧ fltb (c_high b) f_zero = true ∧ incidents b = length (incidents_of rows) ∧ (2 <= incidents b)%nat.
Proof.
  unfold compare. intros E V. apply bind_Ok_inv in E as (diffs & D & E). apply mapM_Forall2, Forall2_length in D. rewrite D.
  destruct (Nat.ltb (length diffs) 2) eqn:L; [injection E as <-; discriminate V|]. apply Nat.ltb_ge in L.
  apply bind_Ok_inv in E as (x & _ & E). injection E as <-. cbn in V |- *. split_and!; [done..| |done|done]. by repeat case_match.
Qed.

(** How the champion without a valid pin is reached, when some member is within the budget. *)
Lemma choose_among l rows current pinned lat c : Choose l rows current pinned lat = Ok (Some c) -> pinned ≫= by_ref l = None ->
  ∃ o table, offline_order float_of_string l = Ok o ∧ mapM (M := res exn) (table_row float_of_string lat) o = Ok table ∧
  match candidates_of l table with
  | [] => ∃ m k, l = m :: k ∧ champion c = ref (min_by (fun a b => fltb (latency_or_inf lat a) (latency_or_inf lat b)) m k)
  | first :: _ =>
      let kept := head (List.filter (fun m => bool_decide (Some (ref m) = current)) (candidates_of l table)) in
      let incumbent := default first kept in
      champion c = ref incumbent
      ∨ ∃ m fresh b, m ∈ candidates_of l table ∧ out_of_sample float_of_string rows incumbent m = Ok fresh ∧ compare exp log pow stdev incumbent m fresh = Ok b
          ∧ c_verdict b = Better ∧ why c = Better_here b ∧ b ∈ comparisons c ∧ champion c = ref m
  end.
Proof.
  intros E P. destruct l as [|m0 l']; [done|]. set (l := m0 :: l') in *. unfold choose in E. fold l in E.
  cbn [l] in E. fold l in E. apply bind_Ok_inv in E as (o & Eo & E). apply bind_Ok_inv in E as (table & Et & E). exists o, table. split_and!; [done..|].
  rewrite P in E. fold (candidates_of l table) in E. destruct (candidates_of l table) as [|first k] eqn:Ec.
  { injection E as <-. by exists m0, l'. }
  cbv zeta in E |- *. set (incumbent := default first _) in *. apply bind_Ok_inv in E as (cs & Ecs & E). apply mapM_Forall2 in Ecs.
  destruct (List.filter _ cs) as [|b0 better] eqn:Eb.
  - apply bind_Ok_inv in E as (r & _ & E). injection E as <-. by left.
  - right. injection E as <-. cbn [champion why comparisons]. set (b := min_by comparison_ltb b0 better).
    assert (b ∈ List.filter (fun c => match c_verdict c with Better => true | _ => false end) cs) as Hb by (rewrite Eb; apply min_by_in).
    apply list_elem_of_In, filter_In in Hb as [Hb V]. apply list_elem_of_In in Hb. destruct (c_verdict b) eqn:Ev; try discriminate V.
    apply list_elem_of_lookup in Hb as [i Hi]. destruct (Forall2_lookup_r _ _ _ _ _ Ecs Hi) as (m & Hm & E). apply bind_Ok_inv in E as (fresh & Ef & E).
    exists m, fresh, b. apply list_elem_of_lookup_2, list_elem_of_In, filter_In in Hm as [Hm _]. apply list_elem_of_In in Hm.
    split_and!; [done..|by eapply list_elem_of_lookup_2|]. by destruct (compare_better _ _ _ _ E Ev) as [-> _].
Qed.

Lemma pin_invalid l pinned : (∀ m, m ∈ l -> pinned ≠ Some (ref m)) -> pinned ≫= by_ref l = None.
Proof.
  intros N. destruct pinned as [r|]; [|done]. cbn. destruct (by_ref l r) as [m|] eqn:E; [|done]. exfalso. apply by_ref_Some in E as [Hm <-]. by apply (N m Hm).
Qed.
Lemma over_budget_measured lat m : within_budget lat m = false -> fltb LATENCY_BUDGET_US (latency_or_inf lat m) = true.
Proof. unfold within_budget, latency_or_inf. destruct (assoc (ref m) lat); [|done]. cbn. by intros ?%negb_false_iff. Qed.

Lemma choose_pinned l rows current pinned lat c p : Choose l rows current pinned lat = Ok (Some c) -> pinned ≫= by_ref l = Some p -> p ∈ l ∧ pinned = Some (ref p) ∧ champion c = ref p.
Proof.
  intros E P. destruct pinned as [r|]; [|done]. cbn in P. pose proof (by_ref_Some _ _ _ P) as [Hp <-]. split_and!; [done..|].
  unfold choose in E. destruct l as [|m0 l']; [done|]. apply bind_Ok_inv in E as (? & _ & E). apply bind_Ok_inv in E as (? & _ & E).
  change (Some (ref p) ≫= by_ref (m0 :: l')) with (by_ref (m0 :: l') (ref p)) in E. rewrite P in E. by injection E as <-.
Qed.
Lemma choose_member l rows current pinned lat c : Choose l rows current pinned lat = Ok (Some c) -> ∃ m, m ∈ l ∧ champion c = ref m.
Proof.
  intros E. destruct (pinned ≫= by_ref l) as [p|] eqn:P; [exists p; by edestruct choose_pinned as (? & ? & ?)|].
  destruct (choose_among _ _ _ _ _ _ E P) as (o & table & Eo & Et & C). destruct (candidates_spec _ _ _ _ Eo Et) as [In _]. destruct (candidates_of l table) as [|first k].
  - destruct C as (m0 & k & -> & C). eexists. split; [apply min_by_in|exact C].
  - cbv zeta in C. destruct C as [C|(m & _ & _ & Hm & _ & _ & _ & _ & _ & C)]; [|exists m; split; [by apply In|done]].
    eexists. split; [|exact C]. destruct (head _) eqn:K; [apply head_filter_Some in K as [? _]; by apply In|apply In; by left].
Qed.

(** C28: The judge moves the champion only on evidence. Whatever the league, the labels, the champion of the day, the pin and the measured latencies,
    a champion [choose] names is a member of the league. A pin that names a member decides. Without one, the champion is within the
    latency budget when any member is, and when none is, no member is faster. And a champion of the day that is within the budget
    loses its place only to a member it was compared with, on the labels neither was fitted on, over at least two incidents, with the
    whole interval of the difference of loss below zero. *)
Theorem the_judge_moves_the_champion_only_on_evidence l rows current pinned lat c : Choose l rows current pinned lat = Ok (Some c) ->
  (∃ m, m ∈ l ∧ champion c = ref m)
  ∧ (∀ m, m ∈ l -> pinned = Some (ref m) -> champion c = ref m)
  ∧ ((∀ m, m ∈ l -> pinned ≠ Some (ref m)) ->
     ((∃ m, m ∈ l ∧ within_budget lat m = true) -> ∃ m, m ∈ l ∧ within_budget lat m = true ∧ champion c = ref m)
     ∧ ((∀ m, m ∈ l -> within_budget lat m = false) ->
        ∃ m, m ∈ l ∧ champion c = ref m ∧ ∀ m', m' ∈ l -> fltb (latency_or_inf lat m') (latency_or_inf lat m) = false)
     ∧ (∀ m, m ∈ l -> within_budget lat m = true -> current = Some (ref m) -> champion c ≠ ref m ->
        ∃ incumbent better fresh b, incumbent ∈ l ∧ ref incumbent = ref m ∧ better ∈ l ∧ champion c = ref better
          ∧ out_of_sample float_of_string rows incumbent better = Ok fresh ∧ compare exp log pow stdev incumbent better fresh = Ok b
          ∧ (2 <= length (incidents_of fresh))%nat ∧ fltb (c_high b) f_zero = true ∧ b ∈ comparisons c)).
Proof.
  intros E. split; [by eapply choose_member|]. destruct (pinned ≫= by_ref l) as [p|] eqn:P.
  { destruct (choose_pinned _ _ _ _ _ _ _ E P) as (Hp & -> & Ec). split; [by intros m _ [= <-]|]. intros N. by destruct (N p Hp). }
  destruct (choose_among _ _ _ _ _ _ E P) as (o & table & Eo & Et & C). destruct (candidates_spec _ _ _ _ Eo Et) as [In Cover].
  assert (∀ m, m ∈ l -> pinned = Some (ref m) -> champion c = ref m) as Pin.
  { intros m Hm ->. destruct (by_ref_found _ _ Hm) as (m' & E' & _). cbn in P. by rewrite E' in P. }
  destruct (candidates_of l table) as [|first k] eqn:Ec.
  - destruct C as (m0 & k & -> & C). pose proof (min_by_in (fun a b => fltb (latency_or_inf lat a) (latency_or_inf lat b)) m0 k) as Hm. split; [done|]. intros _.
    split_and!; [intros (m & Hl & W); by destruct (Cover m Hl W) as (? & ?%elem_of_nil & _)| |intros m Hl W; by destruct (Cover m Hl W) as (? & ?%elem_of_nil & _)].
    intros W. eexists. split_and!; [exact Hm|done|]. apply (min_by_least (latency_or_inf lat)). intros m Hl%W%over_budget_measured. by apply fltb_not_nan in Hl as [_ ?].
  - set (kept := head _) in C. set (incumbent := default first kept) in C. cbv zeta in C.
    assert (∀ m, kept = Some m -> m ∈ first :: k ∧ Some (ref m) = current) as Hk by (by intros m [? ?%bool_decide_eq_true]%head_filter_Some).
    assert (incumbent ∈ first :: k) as Hi by (subst incumbent; destruct kept; [by apply Hk|by left]).
    assert (∃ m, m ∈ first :: k ∧ champion c = ref m) as (w & Hw & Ew) by (destruct C as [C|(m & ? & ? & C)]; [by exists incumbent|exists m; naive_solver]).
    pose proof (In w Hw) as (Hwl & Hww & _). split; [done|]. intros _. split_and!; [by exists w| |].
    + intros W. by rewrite (W w Hwl) in Hww.
    + intros m Hl W -> Ne. assert (ref incumbent = ref m) as Ei.
      { subst incumbent. destruct kept as [m'|] eqn:K; [destruct (Hk _ eq_refl) as [_ Hr]; cbn; congruence|]. exfalso. destruct (Cover m Hl W) as (m' & Hm' & Er).
        apply (head_filter_None _ _ m') in K; [|done]. apply bool_decide_eq_false in K. by rewrite Er in K. }
      destruct C as [C|(m' & fresh & b & Hm' & F & Cm & V & _ & Hb & Ec')]; [by destruct Ne; rewrite C|]. destruct (compare_better _ _ _ _ Cm V) as (_ & _ & Hh & Hn & H2).
      exists incumbent, m', fresh, b. split_and!; [by apply In|done|by apply In|done..|by rewrite <- Hn|done|done].
Qed.

(** ** The choice settles *)

Lemma mapM_all_Ok {E A B} (f : A -> res E B) k : (∀ a, a ∈ k -> ∃ b, f a = Ok b) -> ∃ bs, mapM (M := res E) f k = Ok bs.
Proof.
  induction k as [|a k IH]; intros T; [by exists []|]. destruct (T a ltac:(by left)) as [b Eb]. destruct IH as [bs Ebs]; [intros c Hc; apply T; by right|].
  exists (b :: bs). cbn. by rewrite Eb, Ebs.
Qed.
Lemma mapM_Ok_each {E A B} (f : A -> res E B) k bs a : mapM (M := res E) f k = Ok bs -> a ∈ k -> ∃ b, f a = Ok b.
Proof. intros M%mapM_Forall2 [i Hi]%list_elem_of_lookup. destruct (Forall2_lookup_l _ _ _ _ _ M Hi) as (b & _ & Eb). by exists b. Qed.

Notation is_site m := (match origin m with Site => true | Pretrained => false end).
Lemma out_of_sample_fits rows a b fresh m : out_of_sample float_of_string rows a b = Ok fresh -> m = a ∨ m = b -> is_site m = true -> ∃ f, fitted_at float_of_string m = Ok f.
Proof.
  unfold out_of_sample. intros E Hm O. apply bind_Ok_inv in E as (sinces & Es & _). eapply mapM_Ok_each; [exact Es|]. apply list_elem_of_In, filter_In.
  split; [destruct Hm as [->| ->]; cbn; auto|done].
Qed.
Lemma out_of_sample_none a b : (∀ m, m = a ∨ m = b -> is_site m = true -> ∃ f, fitted_at float_of_string m = Ok f) -> out_of_sample float_of_string [] a b = Ok [].
Proof.
  intros F. unfold out_of_sample. destruct (mapM_all_Ok (fitted_at float_of_string) (List.filter (fun m => is_site m) [a; b])) as [sinces E].
  { intros m [Hm O]%list_elem_of_In%filter_In. apply F; [|done]. destruct Hm as [->|[->|[]]]; auto. }
  rewrite E. by destruct sinces.
Qed.
Lemma compare_nothing a b : compare exp log pow stdev a b [] = Ok (MkComparison (ref b) (ref a) 0 S754_nan S754_nan S754_nan No_evidence).
Proof. reflexivity. Qed.

Lemma order_keys l o m : offline_order float_of_string l = Ok o -> m ∈ l -> ∃ k, order_key float_of_string m = Ok k.
Proof.
  unfold offline_order. intros E Hm. apply bind_Ok_inv in E as (keyed & Ek & _). destruct (mapM_Ok_each _ _ _ _ Ek Hm) as [[k m'] Ekm].
  apply bind_Ok_inv in Ekm as (k' & E & _). by exists k'.
Qed.
Lemma tied_with_total l o first candidates : offline_order float_of_string l = Ok o -> first ∈ l -> (∀ m, m ∈ candidates -> m ∈ l) -> ∃ t, tied_with float_of_string first candidates = Ok t.
Proof.
  intros Eo Hf Hc. unfold tied_with. destruct (order_keys _ _ _ Eo Hf) as [key ->]. cbn [mbind res_bind].
  match goal with |- context [mapM ?f candidates] => destruct (mapM_all_Ok f candidates) as [ts E] end.
  { intros m Hm%Hc. destruct (order_keys _ _ _ Eo Hm) as [k ->]. by eexists. }
  rewrite E. by eexists.
Qed.

(** Without labels, the champion of the day within the budget stays. *)
Lemma kept_without_labels l o table lat pinned r m : l ≠ [] -> offline_order float_of_string l = Ok o -> mapM (M := res exn) (table_row float_of_string lat) o = Ok table ->
  pinned ≫= by_ref l = None -> m ∈ candidates_of l table -> ref m = r ->
  (∀ a b x, a ∈ candidates_of l table -> b ∈ candidates_of l table -> ref a ≠ ref b -> x = a ∨ x = b -> is_site x = true -> ∃ f, fitted_at float_of_string x = Ok f) ->
  ∃ c, Choose l [] (Some r) pinned lat = Ok (Some c) ∧ champion c = r.
Proof.
  intros Ne Eo Et P Hm Er F. destruct l as [|m0 l']; [done|]. set (l := m0 :: l') in *. destruct (candidates_spec _ _ _ _ Eo Et) as [In _]. unfold choose.
  cbn [l]. fold l. rewrite Eo. cbn [mbind res_bind]. rewrite Et. cbn [mbind res_bind]. cbv zeta. rewrite P. fold (candidates_of l table).
  destruct (candidates_of l table) as [|first k] eqn:Ec; [by apply elem_of_nil in Hm|].
  destruct (head (List.filter _ (first :: k))) as [kept|] eqn:K; [|apply (head_filter_None _ _ m) in K; [|done]; apply bool_decide_eq_false in K; by rewrite Er in K].
  apply head_filter_Some in K as [Hk Rk%bool_decide_eq_true]. injection Rk as Rk. change (default first (Some kept)) with kept.
  match goal with |- context [mapM (M := res exn) ?f ?ms] => assert (∀ cs, mapM (M := res exn) f ms = Ok cs -> Forall (fun c => c_verdict c = No_evidence) cs) as V; [|destruct (mapM_all_Ok f ms) as [cs Ecs]] end.
  - intros cs M%mapM_Forall2. apply Forall_forall. intros c [i Hi]%list_elem_of_lookup. destruct (Forall2_lookup_r _ _ _ _ _ M Hi) as (x & _ & E).
    apply bind_Ok_inv in E as (fresh & E1 & E). unfold out_of_sample in E1. apply bind_Ok_inv in E1 as (ss & _ & E1). assert (fresh = []) as -> by (destruct ss; by injection E1 as <-).
    rewrite compare_nothing in E. by injection E as <-.
  - intros x [Hx Nx]%list_elem_of_In%filter_In. apply list_elem_of_In in Hx. apply negb_true_iff, bool_decide_eq_false in Nx.
    rewrite out_of_sample_none; [by eexists|]. intros y Hy. by apply (F kept x).
  - rewrite Ecs. cbn [mbind res_bind]. specialize (V cs Ecs).
    assert (List.filter (fun c => match c_verdict c with Better => true | _ => false end) cs = []) as -> by (clear -V; induction V as [|c cs Hc _ IH]; [done|]; cbn; by rewrite Hc).
    change (bool_decide ([] = [])) with true. cbn [mbind res_bind].
    destruct (tied_with_total l o kept (first :: k) Eo) as [t ->]; [by apply In|intros x Hx; by apply In|]. cbn. by eexists.
Qed.

(** The members compared without error have their fits read. *)
Lemma choose_reads_fits l rows current pinned lat c o table : Choose l rows current pinned lat = Ok (Some c) -> pinned ≫= by_ref l = None ->
  offline_order float_of_string l = Ok o -> mapM (M := res exn) (table_row float_of_string lat) o = Ok table ->
  ∀ a b x, a ∈ candidates_of l table -> b ∈ candidates_of l table -> ref a ≠ ref b -> x = a ∨ x = b -> is_site x = true -> ∃ f, fitted_at float_of_string x = Ok f.
Proof.
  intros E P Eo Et a b x Ha Hb Ne Hx O. destruct l as [|m0 l']; [done|]. set (l := m0 :: l') in *. destruct (candidates_spec _ _ _ _ Eo Et) as [In _].
  unfold choose in E. cbn [l] in E. fold l in E. rewrite Eo in E. cbn [mbind res_bind] in E. rewrite Et in E. cbn [mbind res_bind] in E. cbv zeta in E. rewrite P in E. fold (candidates_of l table) in E.
  destruct (candidates_of l table) as [|first k] eqn:Ec; [by apply elem_of_nil in Ha|].
  set (incumbent := default first _) in E. apply bind_Ok_inv in E as (cs & Ecs & _).
  assert (∀ m y, m ∈ first :: k -> ref m ≠ ref incumbent -> y = incumbent ∨ y = m -> is_site y = true -> ∃ f, fitted_at float_of_string y = Ok f) as R.
  { intros m y Hm Nm Hy Oy. destruct (mapM_Ok_each _ _ _ m Ecs) as [cm Em]; [apply list_elem_of_In, filter_In; split; [by apply list_elem_of_In|by apply negb_true_iff, bool_decide_eq_false]|].
    apply bind_Ok_inv in Em as (fresh & Ef & _). by eapply out_of_sample_fits. }
  assert (incumbent ∈ first :: k) as Hi.
  { subst incumbent. destruct (head _) eqn:K; [by apply head_filter_Some in K as [? _]|by left]. }
  assert (∀ y, y ∈ first :: k -> ref y = ref incumbent -> y = incumbent) as U.
  { intros y Hy Ey. apply In in Hy as (_ & _ & E1). apply In in Hi as (_ & _ & E2). rewrite Ey in E1. congruence. }
  assert (x ∈ first :: k) as Hxk by (by destruct Hx as [->| ->]). destruct (decide (ref x = ref incumbent)) as [Ex|Ex]; [|apply (R x x); auto].
  apply U in Ex as ->; [|done]. destruct Hx as [Hx|Hx]; [apply (R b)|apply (R a)]; auto; congruence.
Qed.

(** The judge's choice settles: taken again without the labels, with the champion it named as the champion of the day, it names the same. *)
Lemma the_choice_settles l rows current pinned lat c : Choose l rows current pinned lat = Ok (Some c) ->
  ∃ c', Choose l [] (Some (champion c)) pinned lat = Ok (Some c') ∧ champion c' = champion c.
Proof.
  intros E. destruct (pinned ≫= by_ref l) as [p|] eqn:P.
  { unfold choose in E |- *. destruct l as [|m0 l']; [done|]. apply bind_Ok_inv in E as (o & Eo & E). apply bind_Ok_inv in E as (table & Et & E). rewrite Eo. cbn [mbind res_bind]. rewrite Et. cbn [mbind res_bind].
    cbv zeta in E |- *. rewrite P in E |- *. injection E as <-. by eexists. }
  destruct (choose_among _ _ _ _ _ _ E P) as (o & table & Eo & Et & C). destruct (candidates_of l table) as [|first k] eqn:Ec.
  - destruct C as (m0 & l' & -> & C). unfold choose. rewrite Eo. cbn [mbind res_bind]. rewrite Et. cbn [mbind res_bind]. cbv zeta. rewrite P. fold (candidates_of (m0 :: l') table). rewrite Ec. eexists. split; [done|]. by rewrite C.
  - assert (∃ m, m ∈ candidates_of l table ∧ ref m = champion c) as (m & Hm & Em).
    { cbv zeta in C. rewrite Ec. destruct C as [C|(m & fresh & b & Hm & _ & _ & _ & _ & _ & C)]; [|by exists m].
      eexists. split; [|symmetry; exact C]. destruct (head _) eqn:K; [by apply head_filter_Some in K as [? _]|by left]. }
    rewrite <- Em. eapply kept_without_labels; [by intros ->|done|done|done|done|done|]. by eapply choose_reads_fits.
Qed.

(** ** Loading *)

Notation Load_one := (load_one sha256 parse_json).
Lemma is_string_true t v : is_string t v = true -> v = Some (JStr t).
Proof. destruct v as [[| | | |s'| |]|]; try done. cbn. by intros ->%bool_decide_eq_true. Qed.

(** What the files say of a member, and that a kind has one of its two files. *)
Definition as_manifest_says (files : Files) m : Prop :=
  kind m ∈ KINDS.*1 ∧ origin m = Pretrained ∧ files (kind m +:+ ".json") = Some (Ok (document m))
  ∧ (∃ text, files (kind m +:+ ".manifest.json") = Some (Ok text) ∧ parse_json text = Some (JObj (manifest m)))
  ∧ sha m = sha256 (document m)
  ∧ (∃ artifact, assoc "artifact"%string (manifest m) = Some (JObj artifact) ∧ assoc "sha256"%string artifact = Some (JStr (sha m)) ∧ assoc "kind"%string artifact = Some (JStr (kind m)))
  ∧ load_kind (kind m) (document m) = Ok (scorer m).
Definition has_a_file (files : Files) (k : string) : bool :=
  match files (k +:+ ".json"), files (k +:+ ".manifest.json") with None, None => false | _, _ => true end.

Lemma member_from_spec files k d text m : files (k +:+ ".json") = Some (Ok d) -> files (k +:+ ".manifest.json") = Some (Ok text) ->
  member_from sha256 parse_json k d text = Ok m -> kind m = k ∧ as_manifest_says files m.
Proof.
  unfold member_from. intros Fd Ft E. destruct (known k) eqn:K; [|done]. cbn [negb] in E. destruct (MAX_MANIFEST_BYTES <? _); [done|].
  destruct (parse_json text) as [[| | | | | |mf]|] eqn:Ep; try done. destruct (assoc _ mf) as [[| | | | | |artifact]|] eqn:Ea; try done.
  destruct (is_string (sha256 d) _) eqn:E1; [|done]. destruct (is_string k _) eqn:E2; [|done]. cbn [negb] in E. apply bind_Ok_inv in E as (s & El & E). injection E as <-.
  unfold loaded in El. destruct (load_kind k d) as [s'|[]] eqn:Ek; try done. injection El as ->. split; [done|]. unfold as_manifest_says; cbn.
  apply bool_decide_eq_true in K. apply is_string_true in E1, E2. split_and!; eauto.
Qed.
Lemma load_one_spec files (g : League) k (g' : League) : Load_one files g k = Ok g' ->
  ∃ ms rs, members g' = members g ++ ms ∧ refused g' = refused g ++ rs ∧ Forall (as_manifest_says files) ms ∧ map kind ms ++ rs.*1 = if has_a_file files k then [k] else [].
Proof.
  unfold load_one, has_a_file. intros E.
  assert (∀ why, Ok (MkLeague (members g) (refused g ++ [(k, why)])) = (Ok g' : res string League) ->
    ∃ ms rs, members g' = members g ++ ms ∧ refused g' = refused g ++ rs ∧ Forall (as_manifest_says files) ms ∧ map kind ms ++ rs.*1 = [k]) as R.
  { intros why [= <-]. exists [], [(k, why)]. by rewrite app_nil_r. }
  destruct (files (k +:+ ".json")) as [[d|]|] eqn:Fd, (files (k +:+ ".manifest.json")) as [[text|]|] eqn:Ft; try (by eapply R).
  - destruct (member_from _ _ k d text) as [m|[why|]] eqn:Em; [|by eapply R|done]. injection E as <-. apply (member_from_spec files) in Em as [<- Hm]; [|done..].
    exists [m], []. rewrite app_nil_r. split_and!; [done..| |done]. by constructor.
  - injection E as <-. exists [], []. by rewrite !app_nil_r.
Qed.
Lemma load_from files ks (acc : res string League) (g' : League) : foldl (fun r k => g ← r; Load_one files g k) acc ks = Ok g' -> ∃ g, acc = Ok g ∧
  ∃ ms rs, members g' = members g ++ ms ∧ refused g' = refused g ++ rs ∧ Forall (as_manifest_says files) ms ∧ map kind ms ++ rs.*1 ≡ₚ List.filter (has_a_file files) ks.
Proof.
  revert acc. induction ks as [|k ks IH]; intros acc E; cbn in E.
  - subst acc. exists g'. split; [done|]. exists [], []. by rewrite !app_nil_r.
  - apply IH in E as (g1 & E & ms & rs & -> & -> & G & P). apply bind_Ok_inv in E as (g & -> & E). exists g. split; [done|].
    apply load_one_spec in E as (ms1 & rs1 & -> & -> & G1 & P1). exists (ms1 ++ ms), (rs1 ++ rs). rewrite !app_assoc. split_and!; [done..|by apply Forall_app|].
    rewrite map_app, fmap_app. cbn [List.filter]. trans ((map kind ms1 ++ rs1.*1) ++ (map kind ms ++ rs.*1)); [solve_Permutation|]. rewrite P1, P. by destruct (has_a_file files k).
Qed.

(** Every member of the league is what its manifest names. Whatever the files of the directory, a league that loads holds, of the kinds the build knows, exactly
    those with a file, each once: a member, or refused with its reason. A member scores by the document in its own
    file, which its kind's loader accepted, and its manifest, read from the other file, names that kind and that document's hash. *)
Theorem every_member_is_what_its_manifest_names files (g : League) : load_dir sha256 parse_json files = Ok g ->
  Forall (as_manifest_says files) (members g) ∧ map kind (members g) ++ (refused g).*1 ≡ₚ List.filter (has_a_file files) KINDS.*1.
Proof. intros E%load_from. destruct E as (g0 & [= <-] & ms & rs & -> & -> & G & P). done. Qed.
End laws.

(** ** Witnesses *)

(** Two kinds: a document is its scorer's constant; a hash is the document; [exp] and [log] are monotone stand-ins. *)
#[local] Instance w_kinds : Kinds Z := {
  load_kind _ d := if bool_decide (d = "[]"%string) then Err (Raised "TypeError") else Ok (Z.of_nat (String.length d));
  kind_logit s _ := Some (f_of_Z s) }.
Definition w_json (text : string) : option json :=
  Some (JObj [("artifact", JObj [("kind", JStr (if bool_decide (text = "m1") then "gam" else "knn")); ("sha256", JStr (if bool_decide (text = "m1") then "d" else "[]"))])]%string).
Definition w_files (second : bool) : Files := fun name =>
  if bool_decide (name = "gam.json"%string) then Some (Ok "d"%string)
  else if bool_decide (name = "gam.manifest.json"%string) then Some (Ok "m1"%string)
  else if bool_decide (name = "knn.json"%string) then if second then Some (Ok "[]"%string) else None
  else if bool_decide (name = "knn.manifest.json"%string) then Some (Ok "m2"%string) else None.
Definition w_exp (z : float) : float := if fltb z f_zero then f_lit 1 8 else f_of_Z 8.
Definition w_log (p : float) : float := fsub p f_one.
Definition w_float (_ : string) : option float := None.
Definition w_pow (f : float) (_ : Z) : float := f.
Definition w_stdev (_ : list float) : float := f_lit 1 100.
Definition w_member (k : string) (s : Z) : Member (S := Z) := MkMember k "d" k [] s Pretrained.
Definition w_rows : list SiteRow := [MkSiteRow [] 1 f_one ("confirm"%string, 1) 1 f_zero; MkSiteRow [] 1 f_one ("confirm"%string, 2) 2 f_zero].
Definition w_league : list Member := [w_member "gam" (-2); w_member "knn" 2].
Definition w_gam : string := ref (w_member "gam" (-2)).
Definition w_choose (rows : list SiteRow) : res exn (option Choice) := choose w_float w_exp w_log w_pow w_stdev w_league rows (Some w_gam) None [].
Definition w_choice : option Choice := match w_choose w_rows with Ok c => c | Err _ => None end.

(** On these labels the other member takes the place; without labels the champion keeps it. *)
Example labels_move_the_champion : (champion <$> w_choice) = Some "knn:knn"%string ∧ match w_choose [] with Ok (Some c) => champion c = "gam:gam"%string | _ => False end.
Proof. split; vm_compute; reflexivity. Qed.

Lemma the_judge_moves_the_champion_only_on_evidence_witness :
  ∃ c incumbent better fresh b, w_choose w_rows = Ok (Some c) ∧ champion c = ref better ∧ incumbent ∈ w_league ∧ out_of_sample w_float w_rows incumbent better = Ok fresh
    ∧ compare w_exp w_log w_pow w_stdev incumbent better fresh = Ok b ∧ (2 <= length (incidents_of fresh))%nat ∧ fltb (c_high b) f_zero = true.
Proof.
  destruct w_choice as [c|] eqn:E; [|vm_compute in E; discriminate E].
  assert (w_choose w_rows = Ok (Some c)) as Ec by (unfold w_choice in E; destruct (w_choose w_rows); [by subst|done]).
  assert (champion c ≠ w_gam) as Ne by (assert (bool_decide (champion <$> w_choice = Some w_gam) = false) as X by (vm_compute; reflexivity); apply bool_decide_eq_false in X; rewrite E in X; cbn in X; congruence).
  destruct (the_judge_moves_the_champion_only_on_evidence w_float w_exp w_log w_pow w_stdev w_league w_rows (Some w_gam) None [] c Ec) as (_ & _ & N).
  destruct (N ltac:(done)) as (_ & _ & M).
  destruct (M (w_member "gam" (-2)) ltac:(by left) ltac:(vm_compute; reflexivity) eq_refl Ne) as (i & m & fresh & b & Hi & _ & Hm & Em & F & Cm & H2 & Hh & _).
  exists c, i, m, fresh, b. split_and!; done.
Defined.
Lemma every_member_is_what_its_manifest_names_witness :
  ∃ l, load_dir id w_json (w_files false) = Ok l ∧ Forall (as_manifest_says id w_json (w_files false)) (members l)
    ∧ map kind (members l) ++ (refused l).*1 ≡ₚ List.filter (has_a_file (w_files false)) KINDS.*1.
Proof.
  eexists. split; [vm_compute; reflexivity|]. apply (every_member_is_what_its_manifest_names id w_json). vm_compute. reflexivity.
Defined.
(** A member that fails is to be refused alone; a document whose loader raises anything else takes every member with it. *)
Example one_document_takes_the_league : match load_dir id w_json (w_files false) with Ok l => map kind (members l) = ["gam"%string] ∧ (refused l).*1 = ["knn"%string] | Err _ => False end
  ∧ load_dir id w_json (w_files true) = Err "TypeError"%string.
Proof. split; vm_compute; [split|]; reflexivity. Qed.
