(* ===== verification/LeagueModels.v ===== *)
(** * The league's trees and its neighbours ([engine/model/trees.py], [trees_shap.py], [knn.py])

    The five kinds of the league that are not link models: the four sums of trees, whose document is one format, and the vote of the k nearest
    neighbours. Their documents' checks, their logits, their explanations, and the seven kinds of the build. Explaining a sum of trees only adds,
    subtracts, multiplies and divides, so it is written over an arithmetic: with floats it is what runs; without rounding it gives exactly the
    Shapley values of the features. [json.loads], [math.dist], [math.log], [math.log1p], [** 2] and [random.sample] are arguments. *)
From Stdlib Require Import QArith Qcanon.
From S2P Require Import Prelude PyLib Floats Scores Scoring Json PairFeatures Cart LinkModels League.
#[local] Open Scope Z_scope.

(** ** An arithmetic *)

(** [ratio] is the true division of two integers. *)
Class Arith (A : Type) := { of_float : float -> A; plus : A -> A -> A; minus : A -> A -> A; times : A -> A -> A; ratio : Z -> positive -> A }.

(** Python's [/] of integers rounds the exact quotient once. *)
Definition quotient (n : Z) (d : positive) : float := match n with Z0 => f_zero | Zpos p => fdiv (S754_finite false p 0) (S754_finite false d 0) | Zneg p => fdiv (S754_finite true p 0) (S754_finite false d 0) end.
#[export] Instance float_arith : Arith float := {| of_float f := f; plus := fadd; minus := fsub; times := fmul; ratio := quotient |}.

(** Without rounding: what a float is, and the field's operations. *)
Definition exact (f : float) : Qc :=
  match f with
  | S754_finite s m e => let m := if s then Zneg m else Zpos m in Q2Qc (if 0 <=? e then inject_Z (m * 2 ^ e) else Qmake m (Z.to_pos (2 ^ (- e))))
  | _ => 0%Qc
  end.
#[export] Instance exact_arith : Arith Qc := {| of_float := exact; plus := Qcplus; minus := Qcminus; times := Qcmult; ratio n d := Q2Qc (Qmake n d) |}.

Module Ensemble.
Definition FORMAT : string := "netcorenoc.trees/1".
Definition METHODS : list string := ["decision_tree"; "random_forest"; "boosted_trees"; "xgboost"]%string.
Definition LEAF : Z := -1.
Definition MAX_DEPTH : nat := 14.
Definition MAX_TREES : Z := 600.
Definition MAX_NODES : Z := 2047.
Definition MAX_TOTAL_NODES : Z := 120000.
Definition MAX_DOCUMENT_BYTES : Z := 4 * 1024 * 1024.
Definition BASIS_SHAPLEY : string := "shapley".
Definition KEYS : list string := ["format"; "method"; "features"; "reference"; "base"; "scale"; "trees"; "threshold"; "grouping"]%string.

(** ** A tree *)

(** A place of the six tuples of a tree: where its feature is in the vector, and in the model's own list. *)
Inductive Node := Leaf (value : float) | Split (feature local : nat) (threshold : float) (left right : nat).
Notation Tree := (list Node).
Definition children (n : Node) : list nat := match n with Leaf _ => [] | Split _ _ _ l r => [l; r] end.

Definition between (i c n : Z) : bool := (i <? c) && (c <? n).
Definition node_of (positions : list nat) (n : Z) (i : nat) (raw : json) : res failure Node :=
  match raw with
  | JList [JInt f; t; l; r; v] =>
      if f =? LEAF then v ← num v; if fltb MAX_ABS_SCORE (SFabs v) then refuse Hard_switch else Ok (Leaf v)
      else if f <? 0 then refuse Wrong_tree
      else match positions !! Z.to_nat f with
      | None => refuse Wrong_tree
      | Some p =>
          match l, r with
          | JInt lo, JInt hi =>
              if between (Z.of_nat i) lo n && between (Z.of_nat i) hi n && negb (lo =? hi) then t ← num t; Ok (Split p (Z.to_nat f) t (Z.to_nat lo) (Z.to_nat hi))
              else refuse Wrong_tree
          | _, _ => refuse Wrong_tree
          end
      end
  | _ => refuse Wrong_tree
  end.
(** How many parents each node has; how deep it is. *)
Definition count_child (counts : list nat) (c : nat) : list nat := alter S c counts.
Definition parents (t : Tree) : list nat := foldl count_child (replicate (length t) 0%nat) (t ≫= children).
Definition one_parent_each (counts : list nat) : bool := match counts with [] => true | p :: ps => Nat.eqb p 0 && forallb (Nat.eqb 1) ps end.
Definition deepen (ds : list nat) (e : nat * Node) : list nat := foldl (fun ds c => <[c := S (nth e.1 ds 0%nat)]> ds) ds (children e.2).
Definition depths (t : Tree) : list nat := foldl deepen (replicate (length t) 0%nat) (imap pair t).
Definition tree_of (positions : list nat) (raw : json) : res failure Tree :=
  match raw with
  | JList raws =>
      let n := Z.of_nat (length raws) in
      if negb ((1 <=? n) && (n <=? MAX_NODES)) then refuse Wrong_tree
      else
        t ← mapM (M := res failure) (fun e : nat * json => node_of positions n e.1 e.2) (imap pair raws);
        if negb (one_parent_each (parents t)) then refuse Wrong_tree
        else if existsb (Nat.ltb MAX_DEPTH) (depths t) then refuse Too_deep
        else Ok t
  | _ => refuse Wrong_tree
  end.

(** [leaf_of]: the loop, a node per round; a read out of range, which raises, is [None]. *)
Fixpoint descend (rounds : nat) (t : Tree) (vector : list float) (i : nat) : option float :=
  match rounds with
  | O => None
  | S rounds =>
      match t !! i with
      | None => None
      | Some (Leaf v) => Some v
      | Some (Split f _ th l r) => x ← vector !! f; descend rounds t vector (if fleb x th then l else r)
      end
  end.
Definition leaf_of (t : Tree) (vector : list float) : option float := descend (length t) t vector 0.

(** ** A sum of trees *)

Record Model := MkModel {
  method : string; features : list string; reference : list float; base : float; scale : float; trees : list Tree; threshold : float; grouping : Grouping }.

Definition leaf_value (n : Node) : option float := match n with Leaf v => Some v | _ => None end.
Definition leaves (t : Tree) : list float := omap leaf_value t.
Definition span (m : Model) : float * float :=
  (fadd (base m) (fmul (scale m) (py_sum (map (fun t => least (leaves t)) (trees m)))),
   fadd (base m) (fmul (scale m) (py_sum (map (fun t => greatest (leaves t)) (trees m))))).
Definition method_of (v : json) : res failure string := match v with JStr s => if bool_decide (s ∈ METHODS) then Ok s else refuse Wrong_method | _ => refuse Wrong_method end.
Definition listed (v : json) (why : refusal) : res failure (list json) := match v with JList l => Ok l | _ => refuse why end.

Definition validate (parse : string -> parsed) (document : string) : res failure Model :=
  d ← document_dict parse MAX_DOCUMENT_BYTES KEYS FORMAT document;
  method ← method_of (the "method" d);
  names ← feature_list (the "features" d);
  reference ← listed (the "reference" d) Wrong_reference;
  if negb (Nat.eqb (length reference) (length names)) then refuse Wrong_reference
  else
    raws ← listed (the "trees" d) Wrong_trees;
    let n := Z.of_nat (length raws) in
    if negb ((1 <=? n) && (n <=? MAX_TREES)) then refuse Wrong_trees
    else if bool_decide (method = "decision_tree"%string) && negb (n =? 1) then refuse Wrong_trees
    else
      ts ← mapM (M := res failure) (tree_of (map position_of names)) raws;
      if MAX_TOTAL_NODES <? Z.of_nat (sum_list_with length ts) then refuse Too_many_nodes
      else
        g ← grouping_of (the "grouping" d);
        b ← num (the "base" d); s ← num (the "scale" d);
        if fltb MAX_ABS_SCORE (SFabs b) then refuse Wrong_base
        else if negb (fltb f_zero s && fleb s f_one) then refuse Wrong_scale
        else
          ref ← nums reference; th ← num (the "threshold" d); g ← grouping_numbers g;
          let m := MkModel method names ref b s ts th g in
          if fltb (merge_min_pairs g) f_one then refuse Few_merge_pairs
          else if negb (fltb (span m).1 th && fltb th (span m).2) then refuse Unreachable_threshold
          else Ok m.

(** The reference pair laid out as a vector. *)
Definition reference_vector (m : Model) : list float :=
  foldl (fun v (e : string * float) => <[position_of e.1 := e.2]> v) (replicate (length FEATURE_NAMES) f_zero) (zip (features m) (reference m)).

Section arithmetic.
Context {A : Type} `{Arith A}.

Definition add_leaf (vector : list float) (total : option A) (t : Tree) : option A := total ← total; v ← leaf_of t vector; Some (plus total (of_float v)).
Definition logit_in (m : Model) (vector : list float) : option A :=
  total ← foldl (add_leaf vector) (Some (of_float f_zero)) (trees m); Some (plus (of_float (base m)) (times (of_float (scale m)) total)).

(** ** The walk that explains a tree ([trees_shap.py]) *)

Fixpoint factorial (n : nat) : positive := match n with O => 1%positive | S n => (Pos.of_succ_nat n * factorial n)%positive end.
Definition weight_x (a b : nat) : A := match a with O => of_float f_zero | S a' => ratio (Zpos (factorial a' * factorial b)) (factorial (a + b)) end.
Definition weight_z (a b : nat) : A := match b with O => of_float f_zero | S b' => ratio (Zpos (factorial a * factorial b')) (factorial (a + b)) end.
(** [_W[a][b]]: a table of fifteen rows of fifteen. *)
Definition weights (a b : nat) : option (A * A) := if Nat.leb a MAX_DEPTH && Nat.leb b MAX_DEPTH then Some (weight_x a b, weight_z a b) else None.

(** Of each feature on the path, whether the explained pair and the reference pair satisfy it. *)
Definition State : Type := list (nat * (bool * bool)).
Definition only_x (s : State) : list nat := (List.filter (fun e : nat * (bool * bool) => e.2.1 && negb e.2.2) s).*1.
Definition only_z (s : State) : list nat := (List.filter (fun e : nat * (bool * bool) => e.2.2 && negb e.2.1) s).*1.
Definition at_key (f : A -> A) (phi : option (list A)) (k : nat) : option (list A) := phi ← phi; p ← phi !! k; Some (<[k := f p]> phi).

Section walk.
Context (t : Tree) (x z : list float) (scale : A).

Definition credit (phi : list A) (s : State) (value : float) : option (list A) :=
  let a_set := only_x s in let b_set := only_z s in
  if Nat.eqb (length a_set) 0 && Nat.eqb (length b_set) 0 then Some phi
  else
    let v := times scale (of_float value) in
    w ← weights (length a_set) (length b_set);
    foldl (at_key (fun p => minus p (times v w.2))) (foldl (at_key (fun p => plus p (times v w.1))) (Some phi) a_set) b_set.
(** A child one of the pairs can take, with its state. *)
Definition reach_child (s : State) (k : nat) (e : nat * (bool * bool)) : option (nat * State) :=
  let o := default (true, true) (assoc k s) in
  let c := (o.1 && e.2.1, o.2 && e.2.2) in
  if negb c.1 && negb c.2 then None else Some (e.1, if bool_decide (c = o) then s else dict_set k c s).
(** One round: the top of the stack is the head of the list. *)
Definition round (i : nat) (s : State) (phi : list A) : option (list (nat * State) * list A) :=
  node ← t !! i;
  match node with
  | Leaf v => phi ← credit phi s v; Some ([], phi)
  | Split f k th l r =>
      xv ← x !! f; zv ← z !! f;
      Some (omap (reach_child s k) [(r, (negb (fleb xv th), negb (fleb zv th))); (l, (fleb xv th, fleb zv th))], phi)
  end.
Fixpoint run (rounds : nat) (stack : list (nat * State)) (phi : list A) : option (list A) :=
  match stack, rounds with
  | [], _ => Some phi
  | _, O => None
  | (i, s) :: stack, S rounds => e ← round i s phi; run rounds (e.1 ++ stack) e.2
  end.
Definition walk (phi : list A) : option (list A) := run (length t) [(0%nat, [])] phi.
End walk.

Definition walk_on (x z : list float) (scale : A) (phi : option (list A)) (t : Tree) : option (list A) := phi ← phi; walk t x z scale phi.
Definition attribution_in (m : Model) (x : list float) : option (list A) :=
  foldl (walk_on x (reference_vector m) (of_float (scale m))) (Some (replicate (length (features m)) (of_float f_zero))) (trees m).
End arithmetic.

(** What runs. *)
Definition logit : Model -> list float -> option float := logit_in.
Definition base_value (m : Model) : option float := logit m (reference_vector m).
Definition attribution : Model -> list float -> option (list float) := attribution_in.
Definition term_of (vector : list float) (name : string) (phi : float) : option TermContribution := v ← vector !! position_of name; Some (MkTerm name f_zero v phi).
Definition explain (m : Model) (vector : list float) : option LinkScore :=
  phi ← attribution m vector;
  terms ← mapM (M := option) (fun e : string * float => term_of vector e.1 e.2) (zip (features m) phi);
  total ← logit m vector; base_value ← base_value m;
  Some (MkScore (fltb (threshold m) total) total (threshold m) terms BASIS_SHAPLEY base_value).

(** ** A tree that passed its check *)

Definition child_of (t : Tree) (i c : nat) : Prop := ∃ n, t !! i = Some n ∧ c ∈ children n.
Record tree_ok (positions : list nat) (t : Tree) : Prop := {
  ok_split : ∀ i f k th l r, t !! i = Some (Split f k th l r) -> positions !! k = Some f ∧ (i < l < length t)%nat ∧ (i < r < length t)%nat ∧ l ≠ r;
  ok_parent : ∀ i j c, child_of t i c -> child_of t j c -> i = j;
  ok_depth : ∃ depth : nat -> nat, (∀ i c, child_of t i c -> depth c = S (depth i)) ∧ ∀ i, (i < length t)%nat -> (depth i <= MAX_DEPTH)%nat;
  ok_root : (0 < length t)%nat }.

Lemma node_of_split positions n i raw f k th l r : node_of positions n i raw = Ok (Split f k th l r) ->
  positions !! k = Some f ∧ (i < l)%nat ∧ Z.of_nat l < n ∧ (i < r)%nat ∧ Z.of_nat r < n ∧ l ≠ r.
Proof.
  unfold node_of. destruct raw as [| | | | |[|[| |g| | | |] [|t [|lo [|hi [|v [|]]]]]]|]; try done.
  destruct (Z.eqb_spec g LEAF); [intros H; apply bind_Ok_inv in H as (w & _ & H); by destruct (fltb _ _)|].
  destruct (Z.ltb_spec g 0); [done|]. destruct (positions !! Z.to_nat g) as [p|] eqn:E; [|done].
  destruct lo as [| |lo| | | |], hi as [| |hi| | | |]; try done. unfold between.
  destruct (Z.ltb_spec (Z.of_nat i) lo), (Z.ltb_spec lo n), (Z.ltb_spec (Z.of_nat i) hi), (Z.ltb_spec hi n), (Z.eqb_spec lo hi); try done; cbn [andb negb].
  intros H'; apply bind_Ok_inv in H' as (w & _ & H'); injection H' as <- <- <- <- <-. split; [done|]. split_and!; lia.
Qed.

Lemma counted cs counts c : foldl count_child counts cs !! c = (fun p => (p + count_occ Nat.eq_dec cs c)%nat) <$> counts !! c.
Proof.
  revert counts. induction cs as [|d cs IH]; intros counts; cbn [foldl count_occ].
  - destruct (counts !! c) as [p|]; cbn; [f_equal; lia|done].
  - rewrite IH. unfold count_child. destruct (Nat.eq_dec d c) as [->|N].
    + rewrite list_lookup_alter_eq. destruct (counts !! c) as [p|]; cbn; [f_equal; lia|done].
    + by rewrite list_lookup_alter_ne.
Qed.
Lemma one_parent_counts counts c n : one_parent_each counts = true -> counts !! c = Some n -> (n <= 1)%nat.
Proof.
  destruct counts as [|p ps]; [done|]. cbn. intros [P F]%andb_true_iff. apply Nat.eqb_eq in P as ->. destruct c as [|c]; cbn; [intros [= <-]; lia|].
  intros E. rewrite forallb_forall in F. apply list_elem_of_lookup_2, list_elem_of_In, F in E. destruct n as [|[|n]]; [lia|lia|done].
Qed.
Lemma NoDup_children t : Forall (fun c => (c < length t)%nat) (t ≫= children) -> one_parent_each (parents t) = true -> NoDup (t ≫= children).
Proof.
  intros F P. apply NoDup_ListNoDup, (NoDup_count_occ Nat.eq_dec). intros c.
  destruct (decide (c ∈ t ≫= children)) as [Hc|Hc]; [|rewrite (proj1 (count_occ_not_In Nat.eq_dec _ _)); [lia|by rewrite <- list_elem_of_In]].
  rewrite Forall_forall in F. pose proof (F c Hc) as L. apply (one_parent_counts (parents t) c); [done|]. unfold parents. rewrite counted.
  by rewrite lookup_replicate_2.
Qed.
Lemma NoDup_bind_once {A B} (f : A -> list B) l i j a b c : NoDup (l ≫= f) -> l !! i = Some a -> l !! j = Some b -> c ∈ f a -> c ∈ f b -> (i < j)%nat -> False.
Proof.
  intros N Ha Hb Ca Cb L. rewrite <- (take_drop (S i) l), bind_app in N. apply NoDup_app in N as (_ & N & _). apply (N c).
  - apply list_elem_of_bind. exists a. split; [done|]. apply (list_elem_of_lookup_2 _ i). by rewrite lookup_take_lt by lia.
  - apply list_elem_of_bind. exists b. split; [done|]. apply (list_elem_of_lookup_2 _ (j - S i)). rewrite lookup_drop, <- Hb. f_equal. lia.
Qed.
Lemma one_parent t i j c : NoDup (t ≫= children) -> child_of t i c -> child_of t j c -> i = j.
Proof.
  intros N (a & Ha & Ca) (b & Hb & Cb). destruct (lt_eq_lt_dec i j) as [[L|]|L]; [|done|]; exfalso;
    [exact (NoDup_bind_once children t i j a b c N Ha Hb Ca Cb L)|exact (NoDup_bind_once children t j i b a c N Hb Ha Cb Ca L)].
Qed.

(** The depths are those of a tree: a child is one below its parent. *)
Definition forward (t : Tree) : Prop := ∀ i c, child_of t i c -> (i < c < length t)%nat.
Lemma nth_insert (ds : list nat) k v c : (k < length ds)%nat -> nth c (<[k := v]> ds) 0%nat = if decide (c = k) then v else nth c ds 0%nat.
Proof.
  intros L. rewrite !nth_lookup. destruct (decide (c = k)) as [->|N]; [by rewrite list_lookup_insert_eq|by rewrite list_lookup_insert_ne by done].
Qed.
Lemma length_deepen ds e : length (deepen ds e) = length ds.
Proof. unfold deepen. destruct e as [i [v|f k th l r]]; cbn [children foldl snd]; by rewrite ?length_insert. Qed.
Lemma deepen_nth i n ds c : (∀ c, c ∈ children n -> (i < c < length ds)%nat) ->
  nth c (deepen ds (i, n)) 0%nat = if decide (c ∈ children n) then S (nth i ds 0%nat) else nth c ds 0%nat.
Proof.
  intros F. unfold deepen. destruct n as [v|f k th l r]; cbn [children foldl fst snd] in *; [rewrite decide_False; [done|apply not_elem_of_nil]|].
  assert (i < l < length ds ∧ i < r < length ds)%nat as [Hl Hr] by (split; apply F; set_solver).
  rewrite !nth_insert by (rewrite ?length_insert; lia). rewrite (decide_False (P := i = l)) by lia.
  destruct (decide (c = r)) as [->|]; [rewrite decide_True by set_solver; done|]. destruct (decide (c = l)) as [->|]; [rewrite decide_True by set_solver; done|].
  rewrite decide_False by set_solver. done.
Qed.
Lemma depths_so_far t m : forward t -> (∀ i j c, child_of t i c -> child_of t j c -> i = j) -> (m <= length t)%nat ->
  let ds := foldl deepen (replicate (length t) 0%nat) (take m (imap pair t)) in
  length ds = length t ∧ ∀ i c, (i < m)%nat -> child_of t i c -> nth c ds 0%nat = S (nth i ds 0%nat).
Proof.
  intros F U. induction m as [|m IH]; intros L; cbn zeta; [rewrite take_0; cbn [foldl]; split; [apply length_replicate|lia]|].
  destruct (lookup_lt_is_Some_2 t m) as [n En]; [lia|].
  rewrite (take_S_r _ _ (m, n)) by (by rewrite list_lookup_imap, En). rewrite foldl_app. cbn [foldl]. destruct IH as [Ld IH]; [lia|].
  set (ds := foldl deepen _ _) in *. rewrite length_deepen. split; [done|]. intros i c Li (n' & En' & Hc).
  assert (∀ c, c ∈ children n -> (m < c < length ds)%nat) as Fm by (intros c' Hc'; rewrite Ld; apply F; by exists n).
  rewrite !deepen_nth by done. rewrite (decide_False (P := i ∈ children n)) by (intros H; apply Fm in H; lia).
  destruct (decide (c ∈ children n)) as [Hcn|Hcn].
  - rewrite (U m i c); [done|by exists n|by exists n'].
  - destruct (decide (i = m)) as [->|]; [exfalso; rewrite En in En'; injection En' as <-; by apply Hcn|]. apply IH; [lia|by exists n'].
Qed.
Lemma depths_spec t : forward t -> (∀ i j c, child_of t i c -> child_of t j c -> i = j) -> existsb (Nat.ltb MAX_DEPTH) (depths t) = false ->
  (∀ i c, child_of t i c -> nth c (depths t) 0%nat = S (nth i (depths t) 0%nat)) ∧ ∀ i, (i < length t)%nat -> (nth i (depths t) 0%nat <= MAX_DEPTH)%nat.
Proof.
  intros F U X. destruct (depths_so_far t (length t) F U) as [L D]; [done|]. rewrite take_ge in L, D by (by rewrite length_imap). fold (depths t) in L, D. split.
  - intros i c H. apply D; [|done]. destruct H as (n & E & _). by apply lookup_lt_Some in E.
  - intros i Li. destruct (Nat.le_gt_cases (nth i (depths t) 0%nat) MAX_DEPTH) as [|G]; [done|]. exfalso. apply not_true_iff_false in X. apply X, existsb_exists.
    exists (nth i (depths t) 0%nat). split; [apply nth_In; by rewrite L|]. by apply Nat.ltb_lt.
Qed.

Lemma tree_of_ok positions raw t : tree_of positions raw = Ok t -> tree_ok positions t.
Proof.
  unfold tree_of. destruct raw as [| | | | |raws|]; try done. destruct (Z.leb_spec 1 (Z.of_nat (length raws))); [|done]. destruct (Z.leb_spec (Z.of_nat (length raws)) MAX_NODES); [|done].
  cbn [andb negb]. intros E. apply bind_Ok_inv in E as (t' & M & E). apply mapM_Ok_Forall2 in M. pose proof (Forall2_length _ _ _ M) as L. rewrite length_imap in L.
  destruct (one_parent_each (parents t')) eqn:P; [|done]. destruct (existsb _ _) eqn:D; [done|]. injection E as <-.
  assert (∀ i f k th l r, t' !! i = Some (Split f k th l r) -> positions !! k = Some f ∧ (i < l < length t')%nat ∧ (i < r < length t')%nat ∧ l ≠ r) as S.
  { intros i f k th l r E. destruct (Forall2_lookup_r _ _ _ _ _ M E) as ([j raw] & Ej & H'). rewrite list_lookup_imap in Ej. destruct (raws !! i); [|done]. injection Ej as <- <-.
    apply node_of_split in H' as (? & ? & ? & ? & ? & ?). split; [done|]. rewrite <- L. split_and!; lia || done. }
  assert (forward t') as F.
  { intros i c ([v|f k th l r] & E & Hc); [by apply elem_of_nil in Hc|]. apply S in E. cbn in Hc. apply elem_of_cons in Hc as [->|[->|Hc%elem_of_nil]%elem_of_cons]; [lia|lia|done]. }
  assert (NoDup (t' ≫= children)) as N.
  { apply NoDup_children; [|done]. rewrite Forall_forall. intros c (n & Hc & [i E]%list_elem_of_lookup)%list_elem_of_bind. eapply F. by exists n. }
  assert (∀ i j c, child_of t' i c -> child_of t' j c -> i = j) as U by (intros; by eapply one_parent).
  split; [done|done| |lia]. exists (fun i => nth i (depths t') 0%nat). by apply depths_spec.
Qed.

(** ** Every walk ends *)

Definition fits_in (positions : list nat) (vector : list float) : Prop := ∀ k f, positions !! k = Some f -> (f < length vector)%nat.

Definition sides (th : float) (l r : nat) (xv zv : float) : list (nat * (bool * bool)) := [(r, (negb (fleb xv th), negb (fleb zv th))); (l, (fleb xv th, fleb zv th))].
Lemma omap_branch_keys s k es : (omap (reach_child s k) es).*1 ⊆ es.*1 ∧ (NoDup es.*1 -> NoDup (omap (reach_child s k) es).*1).
Proof.
  induction es as [|e es [IH1 IH2]]; [done|]. cbn. destruct (reach_child s k e) as [[c s']|] eqn:B; cbn.
  - assert (c = e.1) as -> by (unfold reach_child in B; destruct (_ && _) in B; [done|congruence]).
    split; [set_solver|]. intros [N1 N2]%NoDup_cons. apply NoDup_cons. split; [set_solver|auto].
  - split; [set_solver|]. intros [N1 N2]%NoDup_cons. auto.
Qed.

Section a_tree.
Context (positions : list nat) (t : Tree) (Ht : tree_ok positions t).

Lemma descend_more rounds rounds' vector i v : descend rounds t vector i = Some v -> (rounds <= rounds')%nat -> descend rounds' t vector i = Some v.
Proof.
  revert rounds' i. induction rounds as [|rounds IH]; intros [|rounds'] i D L; try done; [lia|]. cbn in *. destruct (t !! i) as [[w|f k th l r]|]; [done| |done].
  destruct (vector !! f) as [x|]; [|done]. cbn in *. apply IH; [done|lia].
Qed.
Lemma descend_total vector i rounds : fits_in positions vector -> (i < length t)%nat -> (length t - i <= rounds)%nat -> is_Some (descend rounds t vector i).
Proof using Ht.
  intros F. revert i. induction rounds as [|rounds IH]; intros i Li L; [lia|]. cbn. destruct (lookup_lt_is_Some_2 t i Li) as [[w|f k th l r] E]; rewrite E; [by eexists|].
  destruct (ok_split _ _ Ht _ _ _ _ _ _ E) as (P & Hl & Hr & _). destruct (lookup_lt_is_Some_2 vector f) as [x ->]; [by eapply F|]. cbn. destruct (fleb x th); apply IH; lia.
Qed.
Lemma descend_split vector i f k th l r x : fits_in positions vector -> t !! i = Some (Split f k th l r) -> vector !! f = Some x ->
  descend (length t) t vector i = descend (length t) t vector (if fleb x th then l else r).
Proof using Ht.
  intros F E Ex. destruct (ok_split _ _ Ht _ _ _ _ _ _ E) as (P & Hl & Hr & _). set (c := if fleb x th then l else r). assert (i < c < length t)%nat as Hc by (subst c; destruct (fleb x th); lia).
  destruct (descend_total vector c (length t - 1) F) as [v Dv]; [lia|lia|]. rewrite (descend_more _ (length t) _ _ _ Dv) by lia.
  apply (descend_more (S (length t - 1))); [|lia]. cbn. rewrite E, Ex. exact Dv.
Qed.
Lemma leaf_of_total vector : fits_in positions vector -> is_Some (leaf_of t vector).
Proof using Ht. intros F. apply descend_total; [done|exact (ok_root _ _ Ht)|lia]. Qed.

(** A state: a feature at most once, satisfied by one of the pairs at least, no more of them than the depth. *)
Record state_ok (d : nat) (s : State) : Prop := {
  ok_keys : NoDup s.*1;
  ok_entries : Forall (fun e : nat * (bool * bool) => (e.1 < length positions)%nat ∧ e.2.1 || e.2.2 = true) s;
  ok_length : (length s <= d)%nat }.

Lemma branch_ok d s k e c s' : state_ok d s -> (k < length positions)%nat -> reach_child s k e = Some (c, s') -> c = e.1 ∧ state_ok (S d) s'.
Proof.
  intros [N F L] Lk E. unfold reach_child in E. destruct (negb _ && negb _) eqn:B; [done|]. injection E as <- <-. split; [done|].
  case_bool_decide; [split; [done|done|lia]|]. split.
  - by apply dict_set_NoDup.
  - apply dict_set_Forall; [|done]. split; [done|]. apply orb_true_iff. apply andb_false_iff in B as [B%negb_false_iff|B%negb_false_iff]; [by left|by right].
  - rewrite length_dict_set. destruct (bool_decide _); lia.
Qed.

(** The nodes popped so far and those on the stack: each once, under a node popped before. *)
Record stack_ok (depth : nat -> nat) (popped : list nat) (stack : list (nat * State)) : Prop := {
  ok_once : NoDup (popped ++ stack.*1);
  ok_range : Forall (fun i => (i < length t)%nat) (popped ++ stack.*1);
  ok_under : ∀ c, c ∈ popped ++ stack.*1 -> c = 0%nat ∨ ∃ p, p ∈ popped ∧ child_of t p c;
  ok_states : Forall (fun e : nat * State => state_ok (depth e.1) e.2) stack }.

Context (depth : nat -> nat) (Hd : ∀ i c, child_of t i c -> depth c = S (depth i)).

Lemma stack_leaf popped i s stack : stack_ok depth popped ((i, s) :: stack) -> stack_ok depth (i :: popped) stack.
Proof.
  intros [O R U S]. assert (popped ++ ((i, s) :: stack).*1 ≡ₚ (i :: popped) ++ stack.*1) as P by (cbn; by rewrite Permutation_middle). split.
  - by rewrite <- P.
  - by rewrite <- P.
  - intros c Hc. rewrite <- P in Hc. destruct (U c Hc) as [|(p & Hp & C)]; [by left|]. right. exists p. split; [by right|done].
  - by apply Forall_cons in S as [_ ?].
Qed.
Lemma stack_split popped i s stack f k th l r xv zv : stack_ok depth popped ((i, s) :: stack) -> t !! i = Some (Split f k th l r) ->
  stack_ok depth (i :: popped) (omap (reach_child s k) (sides th l r xv zv) ++ stack).
Proof using Ht Hd.
  intros H E. pose proof (stack_leaf _ _ _ _ H) as [O R U S]. destruct (ok_split _ _ Ht _ _ _ _ _ _ E) as (P & Hl & Hr & Hlr).
  destruct H as [O0 _ U0 S0]. apply Forall_cons in S0 as [Si _]. cbn in Si.
  destruct (omap_branch_keys s k (sides th l r xv zv)) as [K N]. specialize (N ltac:(cbn; apply NoDup_cons; split; [intros Hc%list_elem_of_singleton; done|apply NoDup_singleton])).
  set (new := omap _ _) in *. assert (∀ c, c ∈ new.*1 -> child_of t i c ∧ (i < c < length t)%nat) as C.
  { intros c Hc%K. cbn in Hc. apply elem_of_cons in Hc as [->|Hc%list_elem_of_singleton]; [|subst c]; (split; [eexists; split; [exact E|cbn; set_solver]|done]). }
  assert (∀ c, c ∈ new.*1 -> c ∉ (i :: popped) ++ stack.*1) as Fresh.
  { intros c [Ci Li]%C Hc. assert (c ∈ popped ++ ((i, s) :: stack).*1) as Hc' by (cbn in Hc |- *; set_solver).
    destruct (U0 c Hc') as [->|(p & Hp & Cp)]; [lia|]. rewrite (ok_parent _ _ Ht _ _ _ Cp Ci) in Hp. apply NoDup_app in O0 as (_ & O0 & _). apply (O0 i Hp). by left. }
  split.
  - rewrite fmap_app. rewrite (app_assoc (i :: popped)), (Permutation_app_comm (i :: popped)), <- app_assoc. apply NoDup_app. split_and!; [done| |done]. intros c Hc. by apply Fresh.
  - rewrite fmap_app, !Forall_app in *. destruct R as [R1 R2]. split_and!; [done| |done]. rewrite Forall_forall. intros c Hc%C. lia.
  - intros c. rewrite fmap_app, !elem_of_app. intros Hc. destruct (decide (c ∈ new.*1)) as [Hn%C|Hn]; [right; exists i; split; [by left|apply Hn]|].
    apply U. rewrite elem_of_app. tauto.
  - apply Forall_app. split; [|done]. rewrite Forall_forall. intros [c s'] Hc. cbn. assert (c ∈ new.*1) as [Cc _]%C by (apply list_elem_of_fmap; by exists (c, s')).
    rewrite (Hd _ _ Cc). apply list_elem_of_omap in Hc as (e & _ & B). eapply branch_ok; [exact Si| |exact B]. by eapply lookup_lt_Some.
Qed.

Context (Hm : ∀ i, (i < length t)%nat -> (depth i <= MAX_DEPTH)%nat).

Lemma popped_below popped i s stack : stack_ok depth popped ((i, s) :: stack) -> (length popped < length t)%nat ∧ (i < length t)%nat.
Proof.
  intros [O R _ _]. assert (length (popped ++ ((i, s) :: stack).*1) <= length (seq 0 (length t)))%nat as L.
  { apply NoDup_incl_length; [by apply NoDup_ListNoDup|]. intros c Hc%list_elem_of_In. rewrite Forall_forall in R. apply in_seq. specialize (R c Hc). lia. }
  rewrite length_seq, length_app in L. cbn in L. split; [lia|]. rewrite Forall_forall in R. apply R, elem_of_app. right. by left.
Qed.

Section arith.
Context {A : Type} `{Arith A} (x z : list float) (scale : A) (Fx : fits_in positions x) (Fz : fits_in positions z).

Lemma at_keys (f : A -> A) ks (phi : list A) : NoDup ks -> Forall (fun k => (k < length phi)%nat) ks ->
  ∃ phi', foldl (at_key f) (Some phi) ks = Some phi' ∧ length phi' = length phi ∧ ∀ k, phi' !! k = if decide (k ∈ ks) then f <$> phi !! k else phi !! k.
Proof using.
  revert phi. induction ks as [|j ks IH]; intros phi N F; [exists phi; split_and!; [done|done|]; intros k; by rewrite decide_False by apply not_elem_of_nil|].
  apply NoDup_cons in N as [Nj N]. apply Forall_cons in F as [Lj F]. cbn. destruct (lookup_lt_is_Some_2 phi j Lj) as [p Ep]. rewrite Ep. cbn.
  destruct (IH (<[j := f p]> phi) N) as (phi' & E & L & V); [by rewrite length_insert|]. rewrite length_insert in L. exists phi'. split_and!; [done|done|]. intros k. rewrite V.
  destruct (decide (k = j)) as [->|Nk].
  - rewrite decide_False by done. rewrite decide_True by (by left). rewrite list_lookup_insert_eq by done. by rewrite Ep.
  - rewrite list_lookup_insert_ne by done. destruct (decide (k ∈ ks)) as [Hk|Hk]; [rewrite decide_True by (by right)|rewrite decide_False by (intros [?|?]%elem_of_cons; done)]; done.
Qed.
Lemma filter_keys (p : nat * (bool * bool) -> bool) s : (List.filter p s).*1 ⊆ s.*1 ∧ (NoDup s.*1 -> NoDup (List.filter p s).*1) ∧ (length (List.filter p s).*1 <= length s)%nat.
Proof using.
  induction s as [|e s (IH1 & IH2 & IH3)]; [split_and!; done|]. cbn. destruct (p e); cbn; split_and!.
  - intros k. rewrite !elem_of_cons. intros [?|Hk]; [by left|right; by apply IH1].
  - intros [N1 N2]%NoDup_cons. apply NoDup_cons. split; [intros Hk; by apply N1, IH1|by apply IH2].
  - lia.
  - intros k Hk. right. by apply IH1.
  - intros [_ N]%NoDup_cons. by apply IH2.
  - lia.
Qed.
(** What a leaf is worth to each feature. *)
Definition share (s : State) (value : float) (k : nat) (p : A) : A :=
  let v := times scale (of_float value) in
  let p := if decide (k ∈ only_x s) then plus p (times v (weight_x (length (only_x s)) (length (only_z s)))) else p in
  if decide (k ∈ only_z s) then minus p (times v (weight_z (length (only_x s)) (length (only_z s)))) else p.
Lemma credit_total d s value phi : state_ok d s -> (d <= MAX_DEPTH)%nat -> length phi = length positions ->
  ∃ phi', credit scale phi s value = Some phi' ∧ length phi' = length phi ∧ ∀ k, phi' !! k = share s value k <$> phi !! k.
Proof using.
  intros [N F Ls] Ld Lp. unfold credit. destruct (filter_keys (fun e => e.2.1 && negb e.2.2) s) as (A1 & A2 & A3), (filter_keys (fun e => e.2.2 && negb e.2.1) s) as (B1 & B2 & B3).
  assert (∀ k, k ∈ s.*1 -> (k < length phi)%nat) as Lk.
  { intros k [e [-> He]]%list_elem_of_fmap. rewrite Forall_forall in F. rewrite Lp. by apply F. }
  change (List.filter _ s).*1 with (only_x s) in A1, A2, A3. change (List.filter _ s).*1 with (only_z s) in B1, B2, B3. unfold share.
  destruct (Nat.eqb_spec (length (only_x s)) 0) as [Za|], (Nat.eqb_spec (length (only_z s)) 0) as [Zb|]; cbn [andb].
  1: { exists phi. apply length_zero_iff_nil in Za as ->, Zb as ->. split_and!; [done|done|]. intros k. destruct (phi !! k) as [p|]; [cbn [fmap option_fmap option_map]|done]. by rewrite !decide_False by apply not_elem_of_nil. }
  all: unfold weights; rewrite (proj2 (Nat.leb_le (length (only_x s)) MAX_DEPTH)), (proj2 (Nat.leb_le (length (only_z s)) MAX_DEPTH)) by lia; cbn [andb mbind option_bind fst snd];
    set (fx := fun p => plus p _); set (fz := fun p => minus p _);
    destruct (at_keys fx (only_x s) phi) as (p1 & -> & L1 & V1); [auto|rewrite Forall_forall; auto|];
    destruct (at_keys fz (only_z s) p1) as (p2 & -> & L2 & V2); [auto|rewrite Forall_forall, L1; auto|];
    exists p2; split_and!; [done|congruence|]; intros k; rewrite V2, V1; by destruct (decide (k ∈ only_x s)), (decide (k ∈ only_z s)), (phi !! k).
Qed.

(** What a leaf's credit and a node's split keep, the walk keeps; and it ends within as many rounds as the tree has nodes. *)
Lemma run_keeps (P : list (nat * State) -> list A -> Prop) :
  (∀ d i s v stack phi phi', t !! i = Some (Leaf v) -> state_ok d s -> (d <= MAX_DEPTH)%nat -> length phi = length positions -> credit scale phi s v = Some phi' ->
     P ((i, s) :: stack) phi -> P stack phi') ->
  (∀ d i s f k th l r xv zv stack phi, t !! i = Some (Split f k th l r) -> state_ok d s -> x !! f = Some xv -> z !! f = Some zv ->
     P ((i, s) :: stack) phi -> P (omap (reach_child s k) (sides th l r xv zv) ++ stack) phi) ->
  ∀ rounds popped stack phi, stack_ok depth popped stack -> length phi = length positions -> (length t <= length popped + rounds)%nat -> P stack phi ->
  ∃ phi', run t x z scale rounds stack phi = Some phi' ∧ length phi' = length positions ∧ P [] phi'.
Proof using Ht Hd Hm Fx Fz.
  intros PL PS. induction rounds as [|rounds IH]; intros popped [|[i s] stack] phi So Lp R HP; try (by exists phi); pose proof So as So'; apply popped_below in So' as [L1 L2]; [lia|].
  pose proof (ok_states _ _ _ So) as [Si _]%Forall_cons. cbn in Si. cbn [run]. unfold round. destruct (lookup_lt_is_Some_2 t i L2) as [[v|f k th l r] E].
  - destruct (credit_total _ s v phi Si (Hm i L2) Lp) as (phi' & C & L & _). assert (P stack phi') as HP' by (eapply PL; [exact E|exact Si|by apply Hm|exact Lp|exact C|exact HP]).
    rewrite E. cbn [mbind option_bind]. rewrite C. cbn [mbind option_bind fst snd app].
    apply (IH (i :: popped)); [by eapply stack_leaf|by rewrite L|cbn; lia|exact HP'].
  - destruct (ok_split _ _ Ht _ _ _ _ _ _ E) as (Pk & _). destruct (lookup_lt_is_Some_2 x f) as [xv Ex]; [by eapply Fx|]. destruct (lookup_lt_is_Some_2 z f) as [zv Ez]; [by eapply Fz|].
    assert (P (omap (reach_child s k) (sides th l r xv zv) ++ stack) phi) as HP' by (eapply PS; [exact E|exact Si|exact Ex|exact Ez|exact HP]).
    rewrite E. cbn [mbind option_bind]. rewrite Ex. cbn [mbind option_bind]. rewrite Ez. cbn [mbind option_bind fst snd].
    apply (IH (i :: popped)); [by eapply stack_split|done|cbn; lia|exact HP'].
Qed.
Lemma stack_start : stack_ok depth [] [(0%nat, [])].
Proof using Ht Hm.
  split; cbn.
  - apply NoDup_singleton.
  - repeat constructor. exact (ok_root _ _ Ht).
  - intros c ->%list_elem_of_singleton. by left.
  - repeat constructor; cbn; lia || apply NoDup_nil_2.
Qed.
End arith.
End a_tree.

(** ** Shapley values, without rounding *)

#[local] Open Scope Qc_scope.

Definition qsum : list Qc -> Qc := foldr Qcplus 0.
Fixpoint subsets (l : list nat) : list (list nat) := match l with [] => [[]] | j :: l => subsets l ++ map (cons j) (subsets l) end.
Definition fact (n : nat) : Qc := Q2Qc (inject_Z (Zpos (factorial n))).
Definition coalition_weight (n s : nat) : Qc := fact s * fact (n - s - 1) / fact n.
Definition others (n k : nat) : list nat := List.filter (fun j => negb (Nat.eqb j k)) (seq 0 n).
(** What [k] brings to the coalitions of the others among [n] players, weighted by their size. *)
Definition shapley (n : nat) (v : list nat -> Qc) (k : nat) : Qc :=
  qsum (map (fun S => coalition_weight n (length S) * (v (k :: S) - v S)) (subsets (others n k))).

Lemma fact_pos n : fact n ≠ 0.
Proof. intros H%Q2Qc_eq_iff. discriminate H. Qed.
Lemma fact_S n : fact (S n) = Q2Qc (inject_Z (Z.of_nat (S n))) * fact n.
Proof.
  unfold fact. cbn [factorial]. apply Qc_is_canon. cbn [this Q2Qc Qcmult]. rewrite !Qred_correct. unfold inject_Z, Qeq. cbn. lia.
Qed.
Lemma qn_S n : Q2Qc (inject_Z (Z.of_nat (S n))) = Q2Qc (inject_Z (Z.of_nat n)) + 1.
Proof. apply Qc_is_canon. cbn [this Q2Qc Qcplus]. rewrite !Qred_correct. unfold inject_Z, Qeq. cbn -[Z.of_nat]. lia. Qed.
Lemma ratio_facts (p q d : positive) : Q2Qc (Qmake (Zpos (p * q)) d) = Q2Qc (inject_Z (Zpos p)) * Q2Qc (inject_Z (Zpos q)) / Q2Qc (inject_Z (Zpos d)).
Proof.
  apply Qc_is_canon. unfold Qcdiv. cbn [this Q2Qc Qcmult Qcinv]. rewrite !Qred_correct. unfold inject_Z, Qeq. cbn. lia.
Qed.
Lemma qsum_app l k : qsum (l ++ k) = qsum l + qsum k.
Proof. induction l as [|a l IH]; cbn; [ring|]. rewrite IH. ring. Qed.
Lemma qsum_plus {B} (f g : B -> Qc) l : qsum (map (fun b => f b + g b) l) = qsum (map f l) + qsum (map g l).
Proof. induction l as [|b l IH]; cbn; [ring|]. rewrite IH. ring. Qed.
Lemma qsum_ext {B} (f g : B -> Qc) l : (∀ b, b ∈ l -> f b = g b) -> qsum (map f l) = qsum (map g l).
Proof. induction l as [|b l IH]; intros E; cbn; [done|]. rewrite E, IH; [done|intros; apply E; by right|by left]. Qed.
Lemma qsum_scale {B} (c : Qc) (f : B -> Qc) l : qsum (map (fun b => c * f b) l) = c * qsum (map f l).
Proof. induction l as [|b l IH]; cbn; [ring|]. rewrite IH. ring. Qed.
Lemma qsum_zero {B} (l : list B) : qsum (map (fun _ => 0) l) = 0.
Proof. induction l as [|b l IH]; cbn; [done|]. rewrite IH. ring. Qed.

Lemma shapley_ext n v w k : (∀ S, v S = w S) -> shapley n v k = shapley n w k.
Proof. intros E. apply qsum_ext. intros S _. by rewrite !E. Qed.
Lemma shapley_plus n v w k : shapley n (fun S => v S + w S) k = shapley n v k + shapley n w k.
Proof. unfold shapley. rewrite <- qsum_plus. apply qsum_ext. intros S _. ring. Qed.
Lemma shapley_const n c k : shapley n (fun _ => c) k = 0.
Proof. unfold shapley. erewrite qsum_ext; [apply qsum_zero|]. intros S _. cbn. ring. Qed.
Lemma shapley_scale n c v k : shapley n (fun S => c * v S) k = c * shapley n v k.
Proof. unfold shapley. rewrite <- qsum_scale. apply qsum_ext. intros S _. ring. Qed.

(** A player that changes nothing leaves the weights of the others' coalitions. *)
Lemma weights_meet m s : (s < m)%nat -> coalition_weight (S m) s + coalition_weight (S m) (S s) = coalition_weight m s.
Proof.
  intros L. unfold coalition_weight. replace (S m - s - 1)%nat with (S (m - s - 1)) by lia. replace (S m - S s - 1)%nat with (m - s - 1)%nat by lia.
  rewrite !(fact_S s), !(fact_S m), (fact_S (m - s - 1)). assert (Q2Qc (inject_Z (Z.of_nat (S m))) = Q2Qc (inject_Z (Z.of_nat (S (m - s - 1)))) + Q2Qc (inject_Z (Z.of_nat (S s)))) as E.
  { apply Qc_is_canon. cbn [this Q2Qc Qcplus]. rewrite !Qred_correct. unfold inject_Z, Qeq. cbn -[Z.of_nat]. lia. }
  pose proof (fact_pos m). assert (Q2Qc (inject_Z (Z.of_nat (S m))) ≠ 0) as N by (intros H'%Q2Qc_eq_iff; discriminate H').
  rewrite E in *. field. split; done.
Qed.

(** ** The game of a leaf *)

(** Whether a coalition takes the path: a feature in it is the explained pair's, the others the reference's. *)
Definition pick (S : list nat) (k : nat) (o : bool * bool) : bool := if decide (k ∈ S) then o.1 else o.2.
Definition consistent (s : State) (S : list nat) : bool := forallb (fun e : nat * (bool * bool) => pick S e.1 e.2) s.
Definition seen (s : State) (k : nat) : bool * bool := default (true, true) (assoc k s).
Definition fits (s : State) (ps : list nat) (S : list nat) : bool := forallb (fun j => pick S j (seen s j)) ps.
Definition ind (b : bool) : Qc := if b then 1 else 0.
Definition free_in (s : State) (ps : list nat) : nat := length (List.filter (fun j => (seen s j).1 && (seen s j).2) ps).
Definition xs_in (s : State) (ps : list nat) : nat := length (List.filter (fun j => (seen s j).1 && negb (seen s j).2) ps).
Definition zs_in (s : State) (ps : list nat) : nat := length (List.filter (fun j => (seen s j).2 && negb (seen s j).1) ps).
Definition satisfied (s : State) (ps : list nat) : Prop := Forall (fun j => (seen s j).1 || (seen s j).2 = true) ps.

Lemma subset_of ps T j : T ∈ subsets ps -> j ∈ T -> j ∈ ps.
Proof.
  revert T. induction ps as [|i ps IH]; intros T; cbn; [intros ->%list_elem_of_singleton ?%elem_of_nil; done|].
  intros [HT|(T' & -> & HT)%list_elem_of_fmap]%elem_of_app Hj; [right; by eapply IH|]. apply elem_of_cons in Hj as [->|Hj]; [by left|right; by eapply IH].
Qed.
Lemma fits_cons s j ps T : j ∉ ps -> fits s ps (j :: T) = fits s ps T.
Proof.
  intros Nj. unfold fits. induction ps as [|i ps IH]; [done|]. cbn. rewrite IH by (intros H; apply Nj; by right). f_equal. unfold pick.
  assert (i ≠ j) by (intros ->; apply Nj; by left). destruct (decide (i ∈ T)) as [Hi|Hi].
  - by rewrite decide_True by (by right).
  - by rewrite decide_False by (intros [?|?]%elem_of_cons; done).
Qed.
Lemma pick_out T j o : j ∉ T -> pick T j o = o.2.
Proof. intros N. unfold pick. by rewrite decide_False. Qed.
Lemma pick_in T j o : pick (j :: T) j o = o.1.
Proof. unfold pick. by rewrite decide_True by (by left). Qed.
Lemma counts_add s ps : satisfied s ps -> (free_in s ps + xs_in s ps + zs_in s ps = length ps)%nat.
Proof. unfold free_in, xs_in, zs_in. induction 1 as [|j ps Hj F IH]; [done|]. cbn. destruct (seen s j) as [[] []]; cbn in *; try done; lia. Qed.

Lemma sum_fits s ps m t : NoDup ps -> satisfied s ps -> (t + length ps < m)%nat ->
  qsum (map (fun T => coalition_weight m (t + length T) * ind (fits s ps T)) (subsets ps)) = coalition_weight (m - free_in s ps) (t + xs_in s ps).
Proof.
  revert t. induction ps as [|j ps IH]; intros t N F L; [cbn; replace (m - 0)%nat with m by lia; ring|].
  apply NoDup_cons in N as [Nj N]. apply Forall_cons in F as [Fj F]. cbn [length] in L. pose proof (counts_add s ps F) as C.
  cbn [subsets]. rewrite map_app, qsum_app, map_map.
  rewrite (qsum_ext _ (fun T => ind (seen s j).2 * (coalition_weight m (t + length T) * ind (fits s ps T))) (subsets ps)).
  2: { intros T HT. unfold fits at 1. cbn [forallb]. fold (fits s ps T). rewrite pick_out by (intros Hj; by eapply Nj, subset_of). destruct (seen s j).2; cbn; ring. }
  rewrite (qsum_ext (fun T => _ * ind (fits s (j :: ps) (j :: T))) (fun T => ind (seen s j).1 * (coalition_weight m (S t + length T) * ind (fits s ps T))) (subsets ps)).
  2: { intros T HT. unfold fits at 1. cbn [forallb length]. fold (fits s ps (j :: T)). rewrite pick_in, fits_cons by done. replace (t + S (length T))%nat with (S t + length T)%nat by lia. destruct (seen s j).1; cbn -[Nat.add]; ring. }
  rewrite !qsum_scale, !IH by (done || lia). unfold free_in, xs_in in *. cbn. destruct (seen s j) as [[] []]; cbn in Fj |- *; try done.
  - set (a := length (List.filter (fun j => (seen s j).1 && negb _) ps)) in *. set (f := length (List.filter (fun j => (seen s j).1 && (seen s j).2) ps)) in *. rewrite <- (weights_meet (m - S f)) by lia. replace (S (m - S f)) with (m - f)%nat by lia. ring.
  - rewrite Nat.add_succ_r. cbn. ring.
  - cbn. ring.
Qed.

Lemma bool_filter_perm {B} (p : B -> bool) l k : l ≡ₚ k -> List.filter p l ≡ₚ List.filter p k.
Proof.
  induction 1 as [|b l k _ IH|b c l|l k m _ IH1 _ IH2]; cbn; [done|destruct (p b); [by constructor|done]|destruct (p b), (p c); (done || constructor)|by etrans].
Qed.
Lemma others_perm n k : (k < n)%nat -> seq 0 n ≡ₚ k :: others n k.
Proof.
  intros L. apply NoDup_Permutation; [apply NoDup_ListNoDup, seq_NoDup| |].
  - apply NoDup_cons. unfold others. split; [|apply NoDup_ListNoDup, List.NoDup_filter, seq_NoDup].
    rewrite list_elem_of_In, filter_In. intros [_ H]. by rewrite Nat.eqb_refl in H.
  - intros j. unfold others. rewrite elem_of_cons, !list_elem_of_In, filter_In, in_seq, negb_true_iff, Nat.eqb_neq. destruct (decide (j = k)); naive_solver lia.
Qed.
Lemma others_out n k : k ∉ others n k.
Proof. unfold others. rewrite list_elem_of_In, filter_In. intros [_ H]. by rewrite Nat.eqb_refl in H. Qed.
Lemma others_NoDup n k : NoDup (others n k).
Proof. apply NoDup_ListNoDup, List.NoDup_filter, seq_NoDup. Qed.

(** The value of a leaf the game pays exactly when the coalition takes its path. *)
Lemma shapley_fits s n c k : (k < n)%nat -> satisfied s (seq 0 n) ->
  shapley n (fun S => c * ind (fits s (seq 0 n) S)) k =
  c * (ind (seen s k).1 - ind (seen s k).2) * coalition_weight (S (xs_in s (others n k) + zs_in s (others n k))) (xs_in s (others n k)).
Proof.
  intros L F. pose proof (others_perm n k L) as P. unfold satisfied in F. rewrite P in F. apply Forall_cons in F as [Fk F].
  assert (∀ S, fits s (seq 0 n) S = pick S k (seen s k) && fits s (others n k) S) as E.
  { intros S. unfold fits. change (_ && forallb _ _) with (forallb (fun j => pick S j (seen s j)) (k :: others n k)).
    apply eq_true_iff_eq. rewrite !forallb_forall. setoid_rewrite <- list_elem_of_In. by setoid_rewrite P. }
  rewrite shapley_scale. unfold shapley.
  rewrite (qsum_ext _ (fun T => (ind (seen s k).1 - ind (seen s k).2) * (coalition_weight n (0 + length T) * ind (fits s (others n k) T)))).
  - rewrite qsum_scale. pose proof (Permutation_length P) as Ln. rewrite length_seq in Ln. cbn in Ln. pose proof (counts_add s _ F).
    rewrite sum_fits; [|apply others_NoDup|done|lia]. replace (n - free_in s (others n k))%nat with (S (xs_in s (others n k) + zs_in s (others n k))) by lia. cbn [Nat.add]. ring.
  - intros T HT. rewrite !E, pick_in, pick_out, fits_cons by (apply others_out || (intros Hk; eapply others_out, subset_of; [exact HT|exact Hk])).
    destruct (seen s k) as [[] []], (fits s (others n k) T); cbn; ring.
Qed.

Lemma seen_entry s k o : NoDup s.*1 -> (k, o) ∈ s -> seen s k = o.
Proof. intros N H. unfold seen. by rewrite (assoc_NoDup _ _ _ N H). Qed.
Lemma seen_not_both s k o : NoDup s.*1 -> o ≠ (true, true) -> seen s k = o <-> (k, o) ∈ s.
Proof.
  intros N No. split; [|by apply seen_entry]. unfold seen. destruct (assoc k s) as [o'|] eqn:E; cbn; [|congruence]. intros <-. by apply assoc_Some.
Qed.
Lemma in_only_x s k : NoDup s.*1 -> k ∈ only_x s <-> seen s k = (true, false).
Proof.
  intros N. rewrite seen_not_both by done. unfold only_x. rewrite list_elem_of_fmap. setoid_rewrite list_elem_of_In. setoid_rewrite filter_In. split.
  - intros ([k' [[] []]] & -> & H & B); cbn in *; done.
  - intros H. by exists (k, (true, false)).
Qed.
Lemma in_only_z s k : NoDup s.*1 -> k ∈ only_z s <-> seen s k = (false, true).
Proof.
  intros N. rewrite seen_not_both by done. unfold only_z. rewrite list_elem_of_fmap. setoid_rewrite list_elem_of_In. setoid_rewrite filter_In. split.
  - intros ([k' [[] []]] & -> & H & B); cbn in *; done.
  - intros H. by exists (k, (false, true)).
Qed.

Section leaf.
Context (positions : list nat) (d : nat) (s : State) (Hs : state_ok positions d s).
Notation n := (length positions).

Lemma state_satisfied ps : satisfied s ps.
Proof using Hs.
  apply Forall_forall. intros j _. unfold seen. destruct (assoc j s) as [o|] eqn:E; [|done]. apply assoc_Some in E. pose proof (ok_entries _ _ _ Hs) as F. rewrite Forall_forall in F.
  by apply F in E as [_ ?].
Qed.
Lemma consistent_fits S : consistent s S = fits s (seq 0 n) S.
Proof using Hs.
  apply eq_true_iff_eq. unfold consistent, fits. rewrite !forallb_forall. setoid_rewrite <- list_elem_of_In. pose proof (ok_entries _ _ _ Hs) as F. rewrite Forall_forall in F. split.
  - intros H j _. unfold seen. destruct (assoc j s) as [o|] eqn:E; cbn; [by apply assoc_Some, H in E|unfold pick; by destruct (decide _)].
  - intros H [j o] Hj. cbn. rewrite <- (seen_entry s j o (ok_keys _ _ _ Hs) Hj). apply H, list_elem_of_In, in_seq. apply F in Hj as [Lj _]. cbn in Lj. lia.
Qed.
Lemma length_only_x : length (only_x s) = xs_in s (seq 0 n).
Proof using Hs.
  pose proof (ok_keys _ _ _ Hs) as N. unfold xs_in. apply Permutation_length, NoDup_Permutation; [by apply filter_keys|apply NoDup_ListNoDup, List.NoDup_filter, seq_NoDup|].
  intros k. rewrite in_only_x, list_elem_of_In, filter_In, in_seq by done. pose proof (ok_entries _ _ _ Hs) as F. rewrite Forall_forall in F. split.
  - intros E. rewrite E. split; [|done]. apply seen_not_both in E; [|done|done]. apply F in E as [Lk _]. cbn in Lk. lia.
  - intros [_ E]. by destruct (seen s k) as [[] []].
Qed.
Lemma length_only_z : length (only_z s) = zs_in s (seq 0 n).
Proof using Hs.
  pose proof (ok_keys _ _ _ Hs) as N. unfold zs_in. apply Permutation_length, NoDup_Permutation; [by apply filter_keys|apply NoDup_ListNoDup, List.NoDup_filter, seq_NoDup|].
  intros k. rewrite in_only_z, list_elem_of_In, filter_In, in_seq by done. pose proof (ok_entries _ _ _ Hs) as F. rewrite Forall_forall in F. split.
  - intros E. rewrite E. split; [|done]. apply seen_not_both in E; [|done|done]. apply F in E as [Lk _]. cbn in Lk. lia.
  - intros [_ E]. by destruct (seen s k) as [[] []].
Qed.

(** The closed form is the Shapley value of the leaf's game. *)
Lemma share_is_shapley (scale : Qc) value k p : (k < n)%nat ->
  share scale s value k p = p + shapley n (fun S => if consistent s S then scale * exact value else 0) k.
Proof using Hs.
  intros L. rewrite (shapley_ext _ _ (fun S => scale * exact value * ind (fits s (seq 0 n) S))) by (intros S; rewrite consistent_fits; destruct (fits _ _ _); cbn; ring).
  rewrite shapley_fits by (done || apply state_satisfied). pose proof (ok_keys _ _ _ Hs) as N. pose proof (others_perm n k L) as P. unfold share.
  rewrite length_only_x, length_only_z. unfold xs_in, zs_in. rewrite !(Permutation_length (bool_filter_perm _ _ _ P)). cbn [List.filter].
  fold (xs_in s (others n k)) (zs_in s (others n k)). set (a := xs_in s (others n k)). set (b := zs_in s (others n k)).
  destruct (decide (k ∈ only_x s)) as [Hx|Hx], (decide (k ∈ only_z s)) as [Hz|Hz]; rewrite in_only_x in Hx by done; rewrite in_only_z in Hz by done.
  - congruence.
  - rewrite Hx. cbn [fst snd andb negb length weight_x ratio exact_arith times plus of_float]. fold (xs_in s (others n k)) (zs_in s (others n k)). fold a b.
    rewrite ratio_facts. fold (fact a) (fact b) (fact (S a + b)). unfold coalition_weight. replace (S (a + b) - a - 1)%nat with b by lia. cbn [ind Nat.add]. unfold Qcdiv. ring.
  - rewrite Hz. cbn [fst snd andb negb length weight_z ratio exact_arith times minus of_float]. fold (xs_in s (others n k)) (zs_in s (others n k)). fold a b.
    rewrite ratio_facts. fold (fact a) (fact b) (fact (a + S b)). unfold coalition_weight. replace (S (a + b) - a - 1)%nat with b by lia. rewrite Nat.add_succ_r. cbn [ind]. unfold Qcdiv. ring.
  - pose proof (state_satisfied [k]) as [Fk _]%Forall_cons. destruct (seen s k) as [[] []]; try done. cbn. ring.
Qed.
End leaf.

(** ** The game of a node is what its children's games pay *)

Lemma pick_and S k a b : pick S k (a.1 && b.1, a.2 && b.2) = pick S k a && pick S k b.
Proof. unfold pick. by destruct (decide _). Qed.
Lemma consistent_seen s S k : consistent s S = true -> pick S k (seen s k) = true.
Proof.
  unfold consistent, seen. rewrite forallb_forall. intros H. destruct (assoc k s) as [o|] eqn:E; cbn; [|unfold pick; by destruct (decide _)].
  apply assoc_Some, list_elem_of_In in E. exact (H _ E).
Qed.
Lemma consistent_set s S k g : consistent (dict_set k ((seen s k).1 && g.1, (seen s k).2 && g.2) s) S = consistent s S && pick S k g.
Proof.
  unfold seen. induction s as [|[j o] s IH]; [cbn; unfold pick; destruct (decide _); cbn; by rewrite ?andb_true_r|]. cbn [assoc dict_set]. destruct (decide (k = j)) as [->|N]; cbn [default consistent forallb fst snd].
  - rewrite pick_and. fold (consistent s S). change (id o) with o. by destruct (pick S j o), (pick S j g), (consistent s S).
  - fold (consistent s S). rewrite <- andb_assoc, <- IH. done.
Qed.

Section exactly.
Context (positions : list nat) (t : Tree) (Ht : tree_ok positions t) (x z : list float) (scale : Qc) (hyb : list nat -> list float).
Context (Fx : fits_in positions x) (Fz : fits_in positions z) (Fh : ∀ S, fits_in positions (hyb S)).
Context (Hh : ∀ S k f, positions !! k = Some f -> hyb S !! f = if decide (k ∈ S) then x !! f else z !! f).
Notation n := (length positions).

Definition worth (i : nat) (S : list nat) : Qc := exact (default f_zero (descend (length t) t (hyb S) i)).
Definition node_game (e : nat * State) (S : list nat) : Qc := if consistent e.2 S then scale * worth e.1 S else 0.

Lemma branch_game S s k e : match reach_child s k e with Some e' => node_game e' S | None => 0 end = if consistent s S && pick S k e.2 then scale * worth e.1 S else 0.
Proof.
  unfold reach_child. fold (seen s k). set (o := seen s k). pose proof (consistent_seen s S k) as C. fold o in C. pose proof (pick_and S k o e.2) as A.
  pose proof (consistent_set s S k e.2) as E. fold o in E. destruct (negb _ && negb _) eqn:B.
  - apply andb_true_iff in B as [B1%negb_true_iff B2%negb_true_iff]. cbn in B1, B2. rewrite B1, B2 in A. unfold pick at 1 in A. cbn in A.
    destruct (consistent s S); [|done]. rewrite (C eq_refl) in A. cbn in A |- *. rewrite <- A. by destruct (decide _).
  - unfold node_game. case_bool_decide as Ec; cbn [fst snd]; [|by rewrite E]. rewrite Ec in A. destruct (consistent s S); [|done]. rewrite (C eq_refl) in A. cbn in A |- *. by rewrite <- A.
Qed.
Lemma split_game s S i f k th l r xv zv : t !! i = Some (Split f k th l r) -> x !! f = Some xv -> z !! f = Some zv ->
  node_game (i, s) S = qsum (map (fun e => node_game e S) (omap (reach_child s k) (sides th l r xv zv))).
Proof using Ht Fh Hh.
  intros E Ex Ez. destruct (ok_split _ _ Ht _ _ _ _ _ _ E) as (P & _).
  assert (qsum (map (fun e => node_game e S) (omap (reach_child s k) (sides th l r xv zv))) =
    (if consistent s S && pick S k (negb (fleb xv th), negb (fleb zv th)) then scale * worth r S else 0) + (if consistent s S && pick S k (fleb xv th, fleb zv th) then scale * worth l S else 0)) as ->.
  { pose proof (branch_game S s k (r, (negb (fleb xv th), negb (fleb zv th)))) as Br. pose proof (branch_game S s k (l, (fleb xv th, fleb zv th))) as Bl. cbn [fst snd] in Br, Bl.
    rewrite <- Br, <- Bl. unfold sides. cbn [omap list_omap]. destruct (reach_child s k (r, _)), (reach_child s k (l, _)); cbn; ring. }
  unfold node_game. cbn [fst snd]. destruct (consistent s S); [|cbn; ring]. cbn [andb].
  assert (hyb S !! f = Some (if decide (k ∈ S) then xv else zv)) as Ey by (rewrite (Hh S k f P); by destruct (decide _)).
  unfold worth. rewrite (descend_split positions t Ht _ _ _ _ _ _ _ _ (Fh S) E Ey). unfold pick. destruct (decide (k ∈ S)); cbn; [destruct (fleb xv th)|destruct (fleb zv th)]; cbn; ring.
Qed.

(** What is linear in the game, read off the contributions, is what the whole tree's game is worth. *)
Section linear.
Context (L : (list nat -> Qc) -> Qc) (R : list Qc -> Qc).
Context (L_ext : ∀ v w, (∀ S, v S = w S) -> L v = L w) (L_plus : ∀ v w, L (fun S => v S + w S) = L v + L w) (L_const : ∀ c, L (fun _ => c) = 0).
Context (R_leaf : ∀ d s v phi phi', state_ok positions d s -> (d <= MAX_DEPTH)%nat -> length phi = n -> credit scale phi s v = Some phi' ->
  R phi' = R phi + L (fun S => if consistent s S then scale * exact v else 0)).

Lemma linear_sum {B} (g : B -> list nat -> Qc) l : L (fun S => qsum (map (fun e => g e S) l)) = qsum (map (fun e => L (g e)) l).
Proof using L_plus L_const. induction l as [|e l IH]; [exact (L_const 0)|]. cbn. rewrite <- IH. by rewrite <- L_plus. Qed.
Lemma walk_pays phi : length phi = n -> ∃ phi', walk t x z scale phi = Some phi' ∧ length phi' = n ∧ R phi' = R phi + L (fun S => scale * worth 0 S).
Proof using All.
  intros Lp. destruct (ok_depth _ _ Ht) as (depth & Hd & Hm).
  destruct (run_keeps positions t Ht depth Hd Hm x z scale Fx Fz
    (fun stack phi' => R phi' + qsum (map (fun e => L (node_game e)) stack) = R phi + L (fun S => scale * worth 0 S))) with (rounds := length t) (popped := @nil nat) (stack := [(0%nat, [] : State)]) (phi := phi)
    as (phi' & W & L' & HP).
  - intros d i s v stack p p' E Si Ld Lq C HP. rewrite <- HP. cbn [map qsum foldr]. rewrite (R_leaf _ _ _ _ _ Si Ld Lq C).
    rewrite (L_ext (node_game (i, s)) (fun S => if consistent s S then scale * exact v else 0)); [unfold qsum; ring|].
    intros S. unfold node_game, worth. cbn [fst snd]. pose proof (ok_root _ _ Ht). destruct (length t); [lia|]. cbn [descend]. by rewrite E.
  - intros d i s f k th l r xv zv stack p E Si Ex Ez HP. rewrite <- HP, map_app, qsum_app. cbn [map qsum foldr]. rewrite <- linear_sum.
    rewrite (L_ext (node_game (i, s)) _ (fun S => split_game s S i f k th l r xv zv E Ex Ez)). unfold qsum. ring.
  - by apply (stack_start positions t Ht depth Hm).
  - done.
  - cbn. lia.
  - cbn [map qsum foldr]. rewrite (L_ext (node_game (0%nat, [] : State)) (fun S => scale * worth 0 S)) by done. unfold qsum. cbn [foldr]. ring.
  - exists phi'. split_and!; [done|done|]. cbn in HP. rewrite <- HP. ring.
Qed.
End linear.
End exactly.

(** A feature's contribution is linear in the game, and so is the sum of all of them. *)
Lemma shapley_leaf positions k : (k < length positions)%nat -> ∀ (scale : Qc) d s v phi phi', state_ok positions d s -> (d <= MAX_DEPTH)%nat -> length phi = length positions ->
  credit scale phi s v = Some phi' ->
  default 0 (phi' !! k) = default 0 (phi !! k) + shapley (length positions) (fun S => if consistent s S then scale * exact v else 0) k.
Proof.
  intros Lk scale d s v phi phi' Si Ld Lp C. destruct (credit_total positions scale d s v phi Si Ld Lp) as (p & C' & _ & V). rewrite C in C'. injection C' as <-. rewrite V.
  destruct (lookup_lt_is_Some_2 phi k) as [p ->]; [by rewrite Lp|]. cbn. by apply (share_is_shapley positions d).
Qed.

Definition qn (k : nat) : Qc := Q2Qc (inject_Z (Z.of_nat k)).
Lemma qsum_cons a l : qsum (a :: l) = a + qsum l.
Proof. done. Qed.
Lemma qsum_insert l j p q : l !! j = Some p -> qsum (<[j := q]> l) = qsum l - p + q.
Proof.
  revert j. induction l as [|a l IH]; intros [|j] E; try done; cbn [lookup list_lookup] in E.
  - injection E as ->. change (<[0%nat := q]> (p :: l)) with (q :: l). rewrite !qsum_cons. ring.
  - change (<[S j := q]> (a :: l)) with (a :: <[j := q]> l). rewrite !qsum_cons, (IH j E). ring.
Qed.
Lemma at_keys_None (f : Qc -> Qc) ks : foldl (at_key f) None ks = None.
Proof. by induction ks. Qed.
Lemma qsum_at_keys (f : Qc -> Qc) w ks phi phi' : (∀ p, f p = p + w) -> foldl (at_key f) (Some phi) ks = Some phi' -> qsum phi' = qsum phi + qn (length ks) * w.
Proof.
  intros Hf. revert phi. induction ks as [|k ks IH]; intros phi E; [injection E as <-; change (qn (length (@nil nat))) with 0; ring|]. cbn in E. destruct (phi !! k) as [p|] eqn:Ek; [|by rewrite at_keys_None in E].
  cbn in E. apply IH in E as ->. rewrite (qsum_insert _ _ _ _ Ek), Hf. unfold qn. cbn [length]. rewrite qn_S. ring.
Qed.
Lemma consistent_all s n : Forall (fun e : nat * (bool * bool) => (e.1 < n)%nat ∧ e.2.1 || e.2.2 = true) s -> consistent s (seq 0 n) = Nat.eqb (length (only_z s)) 0.
Proof.
  induction 1 as [|[k o] s [Lk He] F IH]; [done|]. change (consistent _ _) with (pick (seq 0 n) k o && consistent s (seq 0 n)). rewrite IH. unfold pick. cbn in Lk, He.
  rewrite decide_True by (apply list_elem_of_In, in_seq; lia). by destruct o as [[] []].
Qed.
Lemma consistent_none s n : Forall (fun e : nat * (bool * bool) => (e.1 < n)%nat ∧ e.2.1 || e.2.2 = true) s -> consistent s [] = Nat.eqb (length (only_x s)) 0.
Proof.
  induction 1 as [|[k o] s [Lk He] F IH]; [done|]. change (consistent _ _) with (pick [] k o && consistent s []). rewrite IH. unfold pick. cbn in He.
  rewrite decide_False by apply not_elem_of_nil. by destruct o as [[] []].
Qed.
Lemma weight_x_shares a b : qn (S a) * weight_x (S a) b = fact (S a) * fact b / fact (S a + b).
Proof. unfold qn. cbn [weight_x ratio exact_arith]. rewrite ratio_facts. fold (fact a) (fact b) (fact (S a + b)). rewrite (fact_S a). unfold Qcdiv. ring. Qed.
Lemma weight_z_shares a b : qn (S b) * weight_z a (S b) = fact a * fact (S b) / fact (a + S b).
Proof. unfold qn. cbn [weight_z ratio exact_arith]. rewrite ratio_facts. fold (fact a) (fact b) (fact (a + S b)). rewrite (fact_S b). unfold Qcdiv. ring. Qed.
Lemma sum_leaf positions (scale : Qc) d s v phi phi' : state_ok positions d s -> (d <= MAX_DEPTH)%nat -> length phi = length positions -> credit scale phi s v = Some phi' ->
  let game S := if consistent s S then scale * exact v else 0 in
  qsum phi' = qsum phi + (game (seq 0 (length positions)) - game []).
Proof.
  intros [N F Ls] Ld Lp C. cbv beta zeta. rewrite (consistent_all _ _ F), (consistent_none _ _ F). unfold credit in C.
  destruct (Nat.eqb_spec (length (only_x s)) 0) as [A|A], (Nat.eqb_spec (length (only_z s)) 0) as [B|B]; cbn [andb] in C; [injection C as <-; ring|..];
    (destruct (weights _ _) as [[wx wz]|] eqn:W; [|done]); cbn [mbind option_bind fst snd] in C; unfold weights in W; (destruct (_ && _); [|done]); injection W as <- <-;
    (destruct (foldl (at_key (fun p => plus p _)) _ _) as [p1|] eqn:C1; [|by rewrite at_keys_None in C]);
    apply (qsum_at_keys _ (scale * exact v * weight_x (length (only_x s)) (length (only_z s)))) in C1; try done;
    apply (qsum_at_keys _ (- (scale * exact v * weight_z (length (only_x s)) (length (only_z s))))) in C; try done; rewrite C, C1.
  - rewrite A. destruct (length (only_z s)) as [|b]; [done|]. pose proof (weight_z_shares 0 b) as E. cbn [Nat.add] in E. pose proof (fact_pos (S b)) as P.
    assert (fact 0 * fact (S b) / fact (S b) = 1) as E1 by (change (fact 0) with 1; by field). rewrite E1 in E. transitivity (qsum phi - scale * exact v * (qn (S b) * weight_z 0 (S b))); [change (qn 0) with 0; ring|rewrite E; ring].
  - rewrite B. destruct (length (only_x s)) as [|a]; [done|]. pose proof (weight_x_shares a 0) as E. rewrite Nat.add_0_r in E. pose proof (fact_pos (S a)) as P.
    assert (fact (S a) * fact 0 / fact (S a) = 1) as E1 by (change (fact 0) with 1; by field). rewrite E1 in E. transitivity (qsum phi + scale * exact v * (qn (S a) * weight_x (S a) 0)); [change (qn 0) with 0; ring|rewrite E; ring].
  - destruct (length (only_x s)) as [|a], (length (only_z s)) as [|b]; try done. pose proof (weight_x_shares a (S b)) as Ex. pose proof (weight_z_shares (S a) b) as Ez. rewrite <- Ez in Ex.
    transitivity (qsum phi + scale * exact v * (qn (S a) * weight_x (S a) (S b)) - scale * exact v * (qn (S b) * weight_z (S a) (S b))); [ring|rewrite Ex; ring].
Qed.

(** ** A sum of trees that passed its check *)

Lemma position_of_lookup name : name ∈ FEATURE_NAMES -> FEATURE_NAMES !! position_of name = Some name.
Proof.
  intros H. unfold position_of. destruct (list_find_elem_of (eq name) FEATURE_NAMES name) as [[i y] E]; [done|done|]. rewrite E. cbn [fst].
  by apply list_find_Some in E as (E & <- & _).
Qed.
Lemma feature_list_NoDup v names : feature_list v = Ok names -> NoDup names.
Proof.
  unfold feature_list. destruct v as [| | | | |[|x l]|]; try done. destruct (existsb _ _); [done|]. intros H. apply bind_Ok_inv in H as (ns & _ & E).
  apply ensure_Ok_inv in E as [E [= <-]]. by apply bool_decide_eq_true in E.
Qed.

Definition positions_of (m : Model) : list nat := map position_of (features m).
Record model_ok (m : Model) : Prop := {
  ok_features : Forall (fun name => name ∈ FEATURE_NAMES) (features m);
  ok_distinct : NoDup (features m);
  ok_reference : length (reference m) = length (features m);
  ok_trees : Forall (tree_ok (positions_of m)) (trees m) }.

Lemma ensemble_ok parse document m : validate parse document = Ok m -> model_ok m.
Proof.
  unfold validate. intros H. apply bind_Ok_inv in H as (d & _ & H). apply bind_Ok_inv in H as (me & _ & H). apply bind_Ok_inv in H as (names & Hn & H).
  apply bind_Ok_inv in H as (ref & _ & H). destruct (Nat.eqb_spec (length ref) (length names)) as [Lr|]; [|done]. cbn [negb] in H. apply bind_Ok_inv in H as (raws & _ & H).
  cbv zeta in H. destruct (negb _); [done|]. destruct (_ && _); [done|]. apply bind_Ok_inv in H as (ts & Et & H). destruct (_ <? _); [done|].
  apply bind_Ok_inv in H as (g & _ & H). apply bind_Ok_inv in H as (b & _ & H). apply bind_Ok_inv in H as (sc & _ & H). destruct (fltb _ _); [done|]. destruct (negb _); [done|].
  apply bind_Ok_inv in H as (rs & Er & H). apply bind_Ok_inv in H as (th & _ & H). apply bind_Ok_inv in H as (g' & _ & H). destruct (fltb _ _); [done|]. destruct (negb _); [done|].
  injection H as <-. split; cbn.
  - by apply feature_list_ok in Hn.
  - by apply feature_list_NoDup in Hn.
  - apply mapM_Ok_Forall2, Forall2_length in Er. congruence.
  - apply mapM_Ok_Forall2 in Et. apply Forall_lookup. intros i t E. destruct (Forall2_lookup_r _ _ _ _ _ Et E) as (raw & _ & E'). by apply tree_of_ok in E'.
Qed.

(** The input that takes the coalition's features from the explained pair and the others from the reference. *)
Definition taken (m : Model) (S : list nat) (p : nat) : bool := existsb (fun k => bool_decide (positions_of m !! k = Some p)) S.
Definition hybrid (m : Model) (x : list float) (S : list nat) : list float := imap (fun p v => if taken m S p then nth p x f_zero else v) (reference_vector m).
(** The logit without rounding, and the game the coalitions play. *)
Definition exact_logit (m : Model) (vector : list float) : Qc := default 0 (logit_in m vector).
Definition game (m : Model) (x : list float) (S : list nat) : Qc := exact_logit m (hybrid m x S).

Section model.
Context (m : Model) (Hm : model_ok m) (x : list float) (Lx : length x = length FEATURE_NAMES).

Lemma length_reference : length (reference_vector m) = length FEATURE_NAMES.
Proof using.
  unfold reference_vector. rewrite <- (length_replicate (length FEATURE_NAMES) f_zero) at 2. generalize (replicate (length FEATURE_NAMES) f_zero) as v.
  induction (zip (features m) (reference m)) as [|e l IH]; intros v; [done|]. cbn [foldl]. by rewrite IH, length_insert.
Qed.
Lemma positions_fit vector : length vector = length FEATURE_NAMES -> fits_in (positions_of m) vector.
Proof using Hm.
  intros L k f E. unfold positions_of in E. rewrite list_lookup_fmap in E. destruct (features m !! k) as [name|] eqn:En; [|done]. injection E as <-. rewrite L.
  apply position_of_lt. pose proof (ok_features _ Hm) as F. rewrite Forall_lookup in F. by eapply F.
Qed.
Lemma positions_distinct j k p : positions_of m !! j = Some p -> positions_of m !! k = Some p -> j = k.
Proof using Hm.
  unfold positions_of. rewrite !list_lookup_fmap. destruct (features m !! j) as [a|] eqn:Ea, (features m !! k) as [b|] eqn:Eb; try done. cbn. intros [= <-] [= E].
  pose proof (ok_features _ Hm) as F. rewrite Forall_lookup in F. apply (NoDup_lookup _ _ _ _ (ok_distinct _ Hm) Ea). rewrite Eb. f_equal.
  pose proof (position_of_lookup a (F _ _ Ea)) as Pa. pose proof (position_of_lookup b (F _ _ Eb)) as Pb. congruence.
Qed.
Lemma length_hybrid S : length (hybrid m x S) = length FEATURE_NAMES.
Proof using. unfold hybrid. by rewrite length_imap, length_reference. Qed.
Lemma hybrid_lookup S k f : positions_of m !! k = Some f -> hybrid m x S !! f = if decide (k ∈ S) then x !! f else reference_vector m !! f.
Proof using Hm Lx.
  intros E. pose proof (positions_fit x Lx k f E) as Lf. unfold hybrid. rewrite list_lookup_imap.
  destruct (lookup_lt_is_Some_2 (reference_vector m) f) as [v Ev]; [by rewrite length_reference, <- Lx|]. destruct (lookup_lt_is_Some_2 x f Lf) as [w Ew]. rewrite Ev, Ew. cbn.
  assert (taken m S f = bool_decide (k ∈ S)) as ->.
  { apply eq_true_iff_eq. unfold taken. rewrite existsb_exists, bool_decide_eq_true. setoid_rewrite <- list_elem_of_In. setoid_rewrite bool_decide_eq_true. split.
    - intros (j & Hj & Ej). by rewrite (positions_distinct k j f E Ej).
    - intros Hk. by exists k. }
  case_bool_decide as Hk; [rewrite decide_True by done|by rewrite decide_False by done]. f_equal. erewrite nth_lookup_Some; done.
Qed.

Lemma add_leaves {A} `{Arith A} vector ts (a : A) : Forall (fun t => is_Some (leaf_of t vector)) ts ->
  foldl (add_leaf vector) (Some a) ts = Some (foldl (fun a t => plus a (of_float (default f_zero (leaf_of t vector)))) a ts).
Proof using. intros F. revert a. induction F as [|t ts [v E] F IH]; intros a; [done|]. cbn. rewrite E. cbn. apply IH. Qed.
Lemma leaves_total vector : length vector = length FEATURE_NAMES -> Forall (fun t => is_Some (leaf_of t vector)) (trees m).
Proof using Hm. intros L. eapply Forall_impl; [exact (ok_trees _ Hm)|]. intros t Ht. eapply leaf_of_total; [exact Ht|]. by apply positions_fit. Qed.
Lemma logit_total {A} `{Arith A} vector : length vector = length FEATURE_NAMES -> ∃ v : A, logit_in m vector = Some v.
Proof using Hm. intros L. unfold logit_in. rewrite add_leaves by (by apply leaves_total). by eexists. Qed.
Definition leaf_sum (ts : list Tree) (vector : list float) : Qc := qsum (map (fun t => exact (default f_zero (leaf_of t vector))) ts).
Lemma exact_logit_sum vector : length vector = length FEATURE_NAMES -> exact_logit m vector = exact (base m) + exact (scale m) * leaf_sum (trees m) vector.
Proof using Hm.
  intros L. unfold exact_logit, logit_in. rewrite add_leaves by (by apply leaves_total). cbn [mbind option_bind default plus times of_float exact_arith]. f_equal. f_equal.
  assert (∀ a, foldl (fun a t => a + exact (default f_zero (leaf_of t vector))) a (trees m) = a + leaf_sum (trees m) vector) as ->.
  { induction (trees m) as [|t ts IH]; intros a; cbn [foldl leaf_sum map]; [unfold leaf_sum; cbn [map qsum foldr]; ring|]. rewrite IH. unfold leaf_sum. cbn [map]. rewrite qsum_cons. ring. }
  change (exact f_zero) with 0. unfold id. ring.
Qed.

Lemma attribution_total {A} `{Arith A} ts (sc : A) phi : Forall (tree_ok (positions_of m)) ts -> length phi = length (positions_of m) ->
  ∃ phi', foldl (walk_on x (reference_vector m) sc) (Some phi) ts = Some phi' ∧ length phi' = length (positions_of m).
Proof using Hm Lx.
  intros F. revert phi. induction F as [|t ts Ht F IH]; intros phi L; [by exists phi|]. cbn [foldl walk_on mbind option_bind]. destruct (ok_depth _ _ Ht) as (depth & Hd & Hdm).
  destruct (run_keeps _ t Ht depth Hd Hdm x (reference_vector m) sc (positions_fit _ Lx) (positions_fit _ length_reference) (fun _ _ => True)) with (rounds := length t) (popped := @nil nat) (stack := [(0%nat, [] : State)]) (phi := phi)
    as (phi' & W & L' & _); [done|done|by apply (stack_start _ t Ht depth Hdm)|done|cbn; lia|done|].
  assert (walk t x (reference_vector m) sc phi = Some phi') as -> by exact W. by apply IH.
Qed.

(** What is linear in the game, read off all the contributions, is what the model's game is worth. *)
Lemma model_pays (L : (list nat -> Qc) -> Qc) (R : list Qc -> Qc) :
  (∀ v w, (∀ S, v S = w S) -> L v = L w) -> (∀ v w, L (fun S => v S + w S) = L v + L w) -> (∀ c, L (fun _ => c) = 0) ->
  (∀ d s v phi phi', state_ok (positions_of m) d s -> (d <= MAX_DEPTH)%nat -> length phi = length (positions_of m) -> credit (exact (scale m)) phi s v = Some phi' ->
    R phi' = R phi + L (fun S => if consistent s S then exact (scale m) * exact v else 0)) ->
  ∀ phi, attribution_in m x = Some phi -> R phi = R (replicate (length (features m)) 0) + L (game m x).
Proof using Hm Lx.
  intros Le Lp Lc Rl phi E. unfold attribution_in in E. cbn [of_float exact_arith] in E. change (exact f_zero) with 0 in E.
  assert (∀ ts p p', Forall (tree_ok (positions_of m)) ts -> length p = length (positions_of m) -> foldl (walk_on x (reference_vector m) (exact (scale m))) (Some p) ts = Some p' ->
    R p' = R p + L (fun S => exact (scale m) * leaf_sum ts (hybrid m x S))) as H.
  { intros ts p p' F. revert p. induction F as [|t ts Ht F IH]; intros p Lq Ep.
    - injection Ep as <-. rewrite (Le _ (fun _ => 0)); [rewrite Lc; ring|]. intros S. unfold leaf_sum. cbn [map qsum foldr]. ring.
    - destruct (walk_pays _ t Ht x (reference_vector m) (exact (scale m)) (hybrid m x) (positions_fit _ Lx) (positions_fit _ length_reference) (fun S => positions_fit _ (length_hybrid S))
        hybrid_lookup L R Le Lp Lc Rl p Lq) as (p1 & W & L1 & E1).
      cbn [foldl walk_on mbind option_bind] in Ep. rewrite W in Ep. rewrite (IH _ L1 Ep), E1.
      rewrite (Le (fun S => exact (scale m) * leaf_sum (t :: ts) (hybrid m x S)) (fun S => exact (scale m) * worth t (hybrid m x) 0 S + exact (scale m) * leaf_sum ts (hybrid m x S))).
      + rewrite Lp. ring.
      + intros S. unfold leaf_sum. cbn [map]. rewrite qsum_cons. unfold worth, leaf_of. ring. }
  rewrite (H _ _ _ (ok_trees _ Hm) ltac:(unfold positions_of; by rewrite length_replicate, length_map) E). f_equal.
  rewrite (Le (game m x) (fun S => exact (base m) + exact (scale m) * leaf_sum (trees m) (hybrid m x S))) by (intros S; apply exact_logit_sum, length_hybrid).
  rewrite Lp, Lc. ring.
Qed.
End model.

Lemma descend_agree positions t rounds v w i : tree_ok positions t -> (∀ k f, positions !! k = Some f -> v !! f = w !! f) -> descend rounds t v i = descend rounds t w i.
Proof.
  intros Ht E. revert i. induction rounds as [|rounds IH]; intros i; [done|]. cbn. destruct (t !! i) as [[a|f k th l r]|] eqn:Et; [done| |done].
  destruct (ok_split _ _ Ht _ _ _ _ _ _ Et) as (P & _). rewrite (E _ _ P). destruct (w !! f); [|done]. cbn. apply IH.
Qed.
Lemma exact_logit_agree m v w : model_ok m -> length v = length FEATURE_NAMES -> length w = length FEATURE_NAMES ->
  (∀ k f, positions_of m !! k = Some f -> v !! f = w !! f) -> exact_logit m v = exact_logit m w.
Proof.
  intros Hm Lv Lw E. rewrite !exact_logit_sum by done. f_equal. f_equal. unfold leaf_sum. apply qsum_ext. intros t Ht. pose proof (ok_trees _ Hm) as F.
  rewrite Forall_forall in F. unfold leaf_of. by rewrite (descend_agree _ _ _ v w 0 (F t Ht) E).
Qed.
Lemma hybrid_none m x : hybrid m x [] = reference_vector m.
Proof. apply list_eq. intros i. unfold hybrid. rewrite list_lookup_imap. cbn. by destruct (_ !! i). Qed.

Lemma terms_total m x phi : model_ok m -> length x = length FEATURE_NAMES -> length phi = length (features m) ->
  ∃ terms, mapM (M := option) (fun e : string * float => term_of x e.1 e.2) (zip (features m) phi) = Some terms ∧ map t_contribution terms = phi.
Proof.
  intros Hm L. pose proof (ok_features _ Hm) as F. revert phi. induction F as [|name names Hn F IH]; intros [|p phi] Lp; try done; [by exists []|].
  destruct (IH phi) as (ts & E & V); [cbn in Lp; lia|]. destruct (lookup_lt_is_Some_2 x (position_of name)) as [v Ev]; [rewrite L; by apply position_of_lt|].
  assert (term_of x name p = Some (MkTerm name f_zero v p)) as Ep by (unfold term_of; by rewrite Ev).
  exists (MkTerm name f_zero v p :: ts). cbn [zip zip_with mapM fst snd]. rewrite Ep. cbn [mbind option_bind]. rewrite E. cbn. by rewrite V.
Qed.
Lemma ensemble_explains m x : model_ok m -> length x = length FEATURE_NAMES ->
  ∃ s phi, explain m x = Some s ∧ attribution m x = Some phi ∧ map t_contribution (s_terms s) = phi ∧ logit m x = Some (s_score s) ∧ base_value m = Some (s_base s)
  ∧ s_linked s = fltb (threshold m) (s_score s).
Proof.
  intros Hm L. destruct (attribution_total m Hm x L (trees m) (scale m) (replicate (length (features m)) f_zero) (ok_trees _ Hm)) as (phi & Ea & Lp);
    [unfold positions_of; by rewrite length_replicate, length_map|]. unfold positions_of in Lp. rewrite length_map in Lp.
  destruct (terms_total m x phi Hm L Lp) as (terms & Et & V). destruct (logit_total (A := float) m Hm x L) as (v & Ev). destruct (logit_total (A := float) m Hm (reference_vector m) (length_reference m)) as (b & Eb).
  assert (attribution m x = Some phi) as Ea' by exact Ea. assert (logit m x = Some v) as Ev' by exact Ev. assert (base_value m = Some b) as Eb' by exact Eb.
  eexists _, phi. unfold explain. rewrite Ea'. cbn [mbind option_bind]. rewrite Et. cbn [mbind option_bind]. rewrite Ev'. cbn [mbind option_bind]. rewrite Eb'. cbn [mbind option_bind].
  split_and!; [reflexivity|done|exact V|done|done|done].
Qed.

(** C36: A document of trees that passed its check explains every pair of fifteen features: the score is the logit of the fast path, the verdict
    is the score's against the threshold, the contributions are those of the walk. And the walk's arithmetic is right: without rounding, what
    it gives each feature is the feature's Shapley value in the game of the hybrids of the pair and the reference, and the contributions add
    up to the logit less the reference's. *)
Theorem the_terms_are_shapley_values parse document m x : validate parse document = Ok m -> length x = length FEATURE_NAMES ->
  (∃ s, explain m x = Some s ∧ attribution m x = Some (map t_contribution (s_terms s)) ∧ logit m x = Some (s_score s) ∧ base_value m = Some (s_base s)
     ∧ s_linked s = fltb (threshold m) (s_score s))
  ∧ ∃ phi : list Qc, attribution_in m x = Some phi ∧ length phi = length (features m)
    ∧ (∀ k, (k < length (features m))%nat -> phi !! k = Some (shapley (length (features m)) (game m x) k))
    ∧ qsum phi = exact_logit m x - exact_logit m (reference_vector m).
Proof.
  intros Hm%ensemble_ok L. split.
  { destruct (ensemble_explains m x Hm L) as (s & phi & E & A & V & ? & ? & ?). exists s. rewrite V. done. }
  assert (length (positions_of m) = length (features m)) as Ln by (unfold positions_of; by rewrite length_map).
  destruct (attribution_total m Hm x L (trees m) (exact (scale m)) (replicate (length (features m)) 0) (ok_trees _ Hm)) as (phi & E & Lp); [by rewrite length_replicate|].
  rewrite Ln in Lp. exists phi. assert (attribution_in m x = Some phi) as E' by exact E. split_and!; [exact E'|exact Lp| |].
  - intros k Lk. destruct (lookup_lt_is_Some_2 phi k) as [p Ep]; [by rewrite Lp|]. rewrite Ep. f_equal.
    pose proof (model_pays m Hm x L (fun v => shapley (length (features m)) v k) (fun l => default 0 (l !! k)) (fun v w => shapley_ext _ v w k) (fun v w => shapley_plus _ v w k)
      (fun c => shapley_const _ c k)) as H. cbv beta in H. specialize (H ltac:(rewrite <- Ln; intros; eapply shapley_leaf; [by rewrite Ln|done..]) phi E'). rewrite Ep in H. cbn [default] in H. unfold id in H. rewrite H.
    rewrite lookup_replicate_2 by done. cbn [default]. unfold id. ring.
  - pose proof (model_pays m Hm x L (fun v => v (seq 0 (length (features m))) - v []) qsum) as H. cbv beta in H.
    rewrite (H ltac:(intros v w Ev; by rewrite !Ev) ltac:(intros; ring) ltac:(intros; ring) ltac:(rewrite <- Ln; intros; by eapply sum_leaf) phi E').
    assert (qsum (replicate (length (features m)) 0) = 0) as -> by (clear; induction (length (features m)) as [|j IH]; [done|]; cbn [replicate]; rewrite qsum_cons, IH; ring).
    unfold game. rewrite hybrid_none. rewrite (exact_logit_agree m (hybrid m x (seq 0 (length (features m)))) x Hm); [ring|apply length_hybrid|done|].
    intros k f Ek. rewrite (hybrid_lookup m Hm x L _ k f Ek). rewrite decide_True; [done|]. apply list_elem_of_In, in_seq. apply lookup_lt_Some in Ek. lia.
Qed.

(** ** A document: two features, one tree of three leaves *)

Definition three_leaves : json :=
  JObj [("format", JStr FORMAT); ("method", JStr "decision_tree"); ("features", JList [JStr "same_ne"; JStr "same_class"]); ("reference", JList [JInt 0; JInt 0]);
        ("base", JInt 0); ("scale", JInt 1);
        ("trees", JList [JList [JList [JInt 0; JFloat (f_lit 1 2); JInt 1; JInt 2; JInt 0]; JList [JInt (-1); JInt 0; JInt 0; JInt 0; JInt (-2)];
                                JList [JInt 1; JFloat (f_lit 1 2); JInt 3; JInt 4; JInt 0]; JList [JInt (-1); JInt 0; JInt 0; JInt 0; JInt 1]; JList [JInt (-1); JInt 0; JInt 0; JInt 0; JInt 4]]]);
        ("threshold", JInt 0); ("grouping", one_grouping)]%string.
Definition load_three : res failure Model := validate (fun _ => P_value three_leaves) "".
Example three_leaves_explained :
  match load_three with Ok m => (logit m (fifteen f_one), base_value m, attribution m (fifteen f_one)) | Err _ => (None, None, None) end
  = (Some (f_of_Z 4), Some (f_of_Z (-2)), Some [f_lit 9 2; f_lit 3 2]).
Proof. vm_compute. reflexivity. Qed.

Lemma the_terms_are_shapley_values_witness :
  match load_three with
  | Ok m => (∃ s, explain m (fifteen f_one) = Some s ∧ attribution m (fifteen f_one) = Some (map t_contribution (s_terms s))
      ∧ logit m (fifteen f_one) = Some (s_score s) ∧ base_value m = Some (s_base s) ∧ s_linked s = fltb (threshold m) (s_score s))
    ∧ ∃ phi : list Qc, attribution_in m (fifteen f_one) = Some phi ∧ length phi = length (features m)
      ∧ (∀ k, (k < length (features m))%nat -> phi !! k = Some (shapley (length (features m)) (game m (fifteen f_one)) k))
      ∧ qsum phi = (exact_logit m (fifteen f_one) - exact_logit m (reference_vector m))%Qc
  | Err _ => False
  end.
Proof.
  destruct load_three as [m|p] eqn:E; [|by vm_compute in E]. apply (the_terms_are_shapley_values (fun _ => P_value three_leaves) "" m (fifteen f_one)); [exact E|reflexivity].
Defined.
End Ensemble.

(** ** The k nearest neighbours ([knn.py]) *)

Module Knn.
Definition FORMAT : string := "netcorenoc.knn/1".
Definition MAX_POINTS : Z := 2048.
Definition MAX_K : Z := 64.
Definition MAX_ABS_COORD : float := f_of_Z 1000000.
Definition MAX_ABS_LOGIT : float := f_of_Z 12.
Definition MAX_DOCUMENT_BYTES : Z := 4 * 1024 * 1024.
Definition EPS : float := f_lit 1 1000000.
Definition BASIS_SHAPLEY_SAMPLED : string := "shapley-sampled".
Definition KEYS : list string :=
  ["format"; "features"; "center"; "scale"; "points"; "rates"; "k"; "weighting"; "prior_rate"; "prior"; "reference"; "threshold"; "grouping"]%string.

Inductive Weighting := Uniform | Distance.
Record Model := MkModel {
  features : list string; positions : list nat; center : list float; scale : list float; points : list (list float); rates : list float; k : nat; weighting : Weighting;
  prior_rate : float; prior : float; reference : list float; threshold : float; grouping : Grouping }.

Definition num_within (bound : float) (v : json) : res failure float := f ← num v; if fltb bound (SFabs f) then refuse Wrong_number else Ok f.
Definition vector_of (v : json) (n : nat) : res failure (list float) :=
  match v with JList l => if Nat.eqb (length l) n then mapM (M := res failure) (num_within MAX_ABS_COORD) l else refuse Wrong_list | _ => refuse Wrong_list end.
Definition weighting_of (v : json) : res failure Weighting :=
  match v with
  | JStr s => if bool_decide (s = "uniform"%string) then Ok Uniform else if bool_decide (s = "distance"%string) then Ok Distance else refuse Wrong_weighting
  | _ => refuse Wrong_weighting
  end.
Definition grouping_within (d : list (string * json)) : res failure Grouping :=
  j ← num_within MAX_ABS_COORD (the "join_bias" d); m ← num_within MAX_ABS_COORD (the "merge_bias" d); p ← num_within MAX_ABS_COORD (the "merge_min_pairs" d); Ok (MkGrouping j m p).

Section knn.
Context (log : float -> float) (dist : list float -> list float -> float) (square : float -> option float) (orders : nat -> list (list nat)).

Definition TINY : float := f_lit 1 1000000000000.
(** [_logit]: clipped before and after. *)
Definition clipped_logit (p : float) : float :=
  let p := py_min (fmax p TINY) (fsub f_one TINY) in fmax (fopp MAX_ABS_LOGIT) (py_min MAX_ABS_LOGIT (log (fdiv p (fsub f_one p)))).

(** The least and the greatest vote. *)
Definition vote_span (m : Model) : float * float :=
  let ordered := sort_by fleb (rates m) in
  match weighting m with
  | Uniform =>
      let mix := fmul (prior m) (prior_rate m) in let mass := fadd (f_of_Z (Z.of_nat (k m))) (prior m) in
      (fdiv (fadd (py_sum (take (k m) ordered)) mix) mass, fdiv (fadd (py_sum (drop (length ordered - k m) ordered)) mix) mass)
  | Distance => (py_min (default f_zero (head ordered)) (prior_rate m), fmax (default f_zero (last ordered)) (prior_rate m))
  end.
Definition reachable (m : Model) : bool := let '(low, high) := vote_span m in fltb (clipped_logit low) (threshold m) && fltb (threshold m) (clipped_logit high).

Definition validate (parse : string -> parsed) (document : string) : res failure Model :=
  d ← document_dict parse MAX_DOCUMENT_BYTES KEYS FORMAT document;
  names ← feature_list (the "features" d);
  let n := length names in
  cs ← vector_of (the "center" d) n; ss ← vector_of (the "scale" d) n;
  if existsb (fun s => fleb s f_zero) ss then refuse Scale_not_positive
  else
    raws ← Ensemble.listed (the "points" d) Wrong_points;
    let count := Z.of_nat (length raws) in
    if negb ((1 <=? count) && (count <=? MAX_POINTS)) then refuse Wrong_points
    else
      raw_rates ← Ensemble.listed (the "rates" d) Wrong_rates;
      if negb (Nat.eqb (length raw_rates) (length raws)) then refuse Wrong_rates
      else
        ps ← mapM (M := res failure) (fun p => vector_of p n) raws;
        rs ← mapM (M := res failure) (num_within f_one) raw_rates;
        if existsb (fun r => fltb r f_zero) rs then refuse Wrong_rates
        else match the "k" d with
        | JInt k =>
            if negb ((1 <=? k) && (k <=? Z.min MAX_K count)) then refuse Wrong_k
            else
              w ← weighting_of (the "weighting" d);
              pr ← num_within f_one (the "prior_rate" d);
              if negb (fltb f_zero pr && fltb pr f_one) then refuse Wrong_prior
              else
                prior ← num_within (f_of_Z 10000) (the "prior" d);
                if fltb prior f_zero then refuse Wrong_prior
                else
                  g ← grouping_of (the "grouping" d);
                  ref ← vector_of (the "reference" d) n; th ← num_within MAX_ABS_LOGIT (the "threshold" d); g ← grouping_within g;
                  let m := MkModel names (map position_of names) cs ss ps rs (Z.to_nat k) w pr prior ref th g in
                  if fltb (merge_min_pairs g) f_one then refuse Few_merge_pairs else if reachable m then Ok m else refuse Unreachable_threshold
        | _ => refuse Wrong_k
        end.

(** ** The vote *)

(** [/] of floats: a divisor of zero raises. *)
Definition py_div (a b : float) : option float := if feqb b f_zero then None else Some (fdiv a b).
(** [heapq.nsmallest]: the first of the places sorted by their distance. *)
Definition nearest (n : nat) (ds : list float) : list nat := take n (sort_by (fun i j => fleb (nth i ds f_zero) (nth j ds f_zero)) (seq 0 (length ds))).
Definition rate (m : Model) (i : nat) : float := nth i (rates m) f_zero.
Definition masses (m : Model) (ds : list float) (near : list nat) : option (float * float) :=
  match weighting m with
  | Uniform => Some (f_of_Z (Z.of_nat (length near)), py_sum (map (rate m) near))
  | Distance => ws ← mapM (M := option) (fun i => py_div f_one (fadd (nth i ds f_zero) EPS)) near; Some (py_sum ws, py_sum (zip_with (fun w i => fmul w (rate m i)) ws near))
  end.
Definition vote (m : Model) (ds : list float) : option float :=
  e ← masses m ds (nearest (k m) ds); p ← py_div (fadd e.2 (fmul (prior m) (prior_rate m))) (fadd e.1 (prior m)); Some (clipped_logit p).

Definition standardise (m : Model) (local : list float) : list float := zip_with (fun v e => fmul (fsub v e.1) e.2) local (zip (center m) (scale m)).
Definition standard (m : Model) (vector : list float) : option (list float) := local ← mapM (M := option) (fun p => vector !! p) (positions m); Some (standardise m local).
Definition distances (m : Model) (q : list float) : list float := map (dist q) (points m).
Definition logit (m : Model) (vector : list float) : option float := q ← standard m vector; vote m (distances m q).
Definition base_value (m : Model) : option float := vote m (distances m (standardise m (reference m))).

(** ** The sampled explanation *)

Record Walk := MkWalk { sq : list float; before : float; phi : list float }.
Definition walk_step (m : Model) (delta : list (nat * list float)) (w : option Walk) (j : nat) : option Walk :=
  w ← w; dj ← assoc j delta;
  let sq := zip_with fadd (sq w) dj in
  after ← vote m (map (fun v => fsqrt (fmax v f_zero)) sq);
  Some (MkWalk sq after (alter (fun p => fadd p (fsub after (before w))) j (phi w))).
Definition walk_path (m : Model) (delta : list (nat * list float)) (base_sq : list float) (base : float) (phi_ : option (list float)) (path : list nat) : option (list float) :=
  p ← phi_; w ← foldl (walk_step m delta) (Some (MkWalk base_sq base p)) path; Some (phi w).
Definition squared (z p : list float) : option float := l ← mapM square (zip_with fsub z p); Some (py_sum l).
Definition change_of (x z : list float) (j : nat) (p : list float) : option float :=
  let at_j l := nth j l f_zero in
  a ← square (fsub (at_j x) (at_j p)); b ← square (fsub (at_j z) (at_j p)); Some (fsub a b).
Definition paths (moving order : list nat) : list (list nat) := let steps := List.filter (fun j => bool_decide (j ∈ moving)) order in [steps; reverse steps].
Definition attribution (m : Model) (vector : list float) : option (list float) :=
  x ← standard m vector;
  let z := standardise m (reference m) in let d := length x in let zeros := replicate d f_zero in
  let moving := List.filter (fun j => negb (feqb (nth j x f_zero) (nth j z f_zero))) (seq 0 d) in
  match moving with
  | [] => Some zeros
  | _ =>
      base_sq ← mapM (squared z) (points m);
      delta ← mapM (M := option) (fun j => l ← mapM (change_of x z j) (points m); Some (j, l)) moving;
      base ← base_value m;
      let all := orders (length (features m)) ≫= paths moving in
      total ← foldl (walk_path m delta base_sq base) (Some zeros) all;
      mapM (M := option) (fun v => py_div v (f_of_Z (Z.of_nat (length all)))) total
  end.
Definition explain (m : Model) (vector : list float) : option LinkScore :=
  phi ← attribution m vector;
  terms ← mapM (M := option) (fun e : string * float => Ensemble.term_of vector e.1 e.2) (zip (features m) phi);
  total ← logit m vector; base ← base_value m;
  Some (MkScore (fltb (threshold m) total) total (threshold m) terms BASIS_SHAPLEY_SAMPLED base).

(** The logit keeps within its bounds, whatever [log] answers. *)
Lemma clipped_within p : fleb (fopp MAX_ABS_LOGIT) (clipped_logit p) = true ∧ fleb (clipped_logit p) MAX_ABS_LOGIT = true.
Proof.
  unfold clipped_logit. set (v := log _). assert (fleb (fopp MAX_ABS_LOGIT) MAX_ABS_LOGIT = true) as H by (by vm_compute). unfold fmax, py_min.
  destruct (fltb v MAX_ABS_LOGIT) eqn:E; [destruct (fltb (fopp MAX_ABS_LOGIT) v) eqn:F|destruct (fltb (fopp MAX_ABS_LOGIT) MAX_ABS_LOGIT) eqn:F]; split; try (by apply fltb_leb); try done; by vm_compute.
Qed.
Lemma vote_within m ds v : vote m ds = Some v -> fleb (fopp MAX_ABS_LOGIT) v = true ∧ fleb v MAX_ABS_LOGIT = true.
Proof.
  unfold vote. destruct (masses _ _ _) as [e|]; [|done]. cbn. destruct (py_div _ _) as [p|]; [|done]. intros [= <-]. apply clipped_within.
Qed.
Lemma explained_score m vector s : explain m vector = Some s ->
  logit m vector = Some (s_score s) ∧ s_linked s = fltb (threshold m) (s_score s) ∧ fleb (fopp MAX_ABS_LOGIT) (s_score s) = true ∧ fleb (s_score s) MAX_ABS_LOGIT = true.
Proof.
  unfold explain. destruct (attribution m vector) as [p|]; [|done]. cbn [mbind option_bind]. destruct (mapM _ _) as [ts|]; [|done]. cbn [mbind option_bind].
  destruct (logit m vector) as [v|] eqn:E; [|done]. cbn [mbind option_bind]. destruct (base_value m); [|done]. cbn. intros [= <-]. cbn. split; [done|]. split; [done|].
  unfold logit in E. destruct (standard m vector) as [q|]; [|done]. by apply vote_within in E.
Qed.
End knn.
End Knn.

(** ** The kinds of the build *)

(** A member's scorer. *)
Inductive BuildModel := Link (m : LinkModel) | Trees (m : Ensemble.Model) | Neighbours (m : Knn.Model).
Section kinds.
Context (parse : string -> parsed) (log1p log : float -> float) (dist : list float -> list float -> float).

(** [_trees(kind)]: the document says which of the four it is. *)
Definition load_trees (kind document : string) : res failure BuildModel :=
  m ← Ensemble.validate parse document; if bool_decide (Ensemble.method m = kind) then Ok (Trees m) else refuse Wrong_method.
(** The vote at the reference is taken when the scorer is made. *)
Definition load_knn (document : string) : res failure BuildModel :=
  m ← Knn.validate log parse document; match Knn.base_value log dist m with Some _ => Ok (Neighbours m) | None => Err (Raised "ZeroDivisionError") end.
Definition load_build (kind document : string) : res failure BuildModel :=
  if bool_decide (kind = "gam"%string) then Link <$> load_gam parse document
  else if bool_decide (kind = "logistic_regression"%string) then Link <$> load_linear parse document
  else if bool_decide (kind = "knn"%string) then load_knn document
  else if bool_decide (kind ∈ Ensemble.METHODS) then load_trees kind document
  else Err (Raised "KeyError").
Definition build_logit (m : BuildModel) (vector : list float) : option float :=
  match m with Link m => link_logit log1p m vector | Trees m => Ensemble.logit m vector | Neighbours m => Knn.logit log dist m vector end.
Definition build_kinds : Kinds BuildModel := {| load_kind := load_build; kind_logit := build_logit |}.

(** A member of any kind but the neighbours, whose vote may divide by zero, answers on every pair of fifteen features. *)
Lemma build_logit_total kind document m vector : load_build kind document = Ok m -> kind ≠ "knn"%string -> length vector = length FEATURE_NAMES -> is_Some (build_logit m vector).
Proof.
  intros E Nk L. unfold load_build in E. rewrite (bool_decide_eq_false_2 (kind = "knn"%string)) in E by done. repeat case_bool_decide; try done.
  - apply fmap_Ok_inv in E as (l & E & ->). apply fmap_Ok_inv in E as (g & E & ->). cbn. rewrite gam_fast. apply validate_ok in E.
    destruct (explain_total log1p (Gam g) vector E L) as [s Es]. cbn in Es. rewrite Es. by eexists.
  - apply fmap_Ok_inv in E as (l & E & ->). apply fmap_Ok_inv in E as (g & E & ->). apply linear_validate_ok in E. cbn. rewrite linear_fast by done.
    destruct (explain_total log1p (Linear_model g) vector E L) as [s Es]. cbn in Es. rewrite Es. by eexists.
  - apply bind_Ok_inv in E as (e & E & E'). case_bool_decide; [|done]. injection E' as <-. apply Ensemble.ensemble_ok in E.
    destruct (Ensemble.logit_total (A := float) e E vector L) as [v Ev]. by exists v.
Qed.
(** So the judge's loss of such a member on a site's labels never reads out of range. *)
Lemma log_loss_total (exp ln : float -> float) (m : Member (S := BuildModel)) kind document rows : load_build kind document = Ok (scorer m) -> kind ≠ "knn"%string ->
  Forall (fun r => length (sr_x r) = length FEATURE_NAMES) rows -> ∃ f, log_loss (H := build_kinds) exp ln m rows = Ok f.
Proof.
  intros E Nk F. unfold log_loss.
  assert (∀ acc, ∃ acc', foldl (log_loss_step (H := build_kinds) exp ln m) (Some acc) rows = Some acc') as H.
  { induction F as [|r rows Lr F IH]; intros acc; [by exists acc|]. cbn [foldl]. unfold log_loss_step at 2. destruct acc as [total mass]. cbn [mbind option_bind kind_logit build_kinds].
    destruct (build_logit_total kind document (scorer m) (sr_x r) E Nk Lr) as [z ->]. cbn [mbind option_bind]. apply IH. }
  destruct (H (f_zero, f_zero)) as [[total mass] ->]. by eexists.
Qed.
End kinds.

(** ** Documents of both formats *)

(** The range a threshold must lie in is taken over all leaves, also those whose path contradicts itself: this tree, whose only leaf above the
    threshold asks for more than a half and at most a fifth, is accepted, and links no pair. *)
Definition contradicting : json :=
  JObj [("format", JStr Ensemble.FORMAT); ("method", JStr "decision_tree"); ("features", JList [JStr "same_ne"]); ("reference", JList [JInt 0]); ("base", JInt 0); ("scale", JInt 1);
        ("trees", JList [JList [JList [JInt 0; JFloat (f_lit 1 2); JInt 1; JInt 2; JInt 0]; JList [JInt (-1); JInt 0; JInt 0; JInt 0; JInt (-1)];
                                JList [JInt 0; JFloat (f_lit 1 5); JInt 3; JInt 4; JInt 0]; JList [JInt (-1); JInt 0; JInt 0; JInt 0; JInt 5]; JList [JInt (-1); JInt 0; JInt 0; JInt 0; JInt (-1)]]]);
        ("threshold", JInt 0); ("grouping", one_grouping)]%string.
Definition load_contradicting : res failure Ensemble.Model := Ensemble.validate (fun _ => P_value contradicting) "".
Lemma an_accepted_tree_never_links m vector x : load_contradicting = Ok m -> vector !! 1%nat = Some x -> Ensemble.logit m vector = Some (f_of_Z (-1)) ∧ fltb (Ensemble.threshold m) (f_of_Z (-1)) = false.
Proof.
  intros E Ex. assert (∃ tree, Ensemble.trees m = [tree] ∧ Ensemble.base m = f_zero ∧ Ensemble.scale m = f_one ∧ Ensemble.threshold m = f_zero
    ∧ tree = [Ensemble.Split 1 0 (f_lit 1 2) 1 2; Ensemble.Leaf (f_of_Z (-1)); Ensemble.Split 1 0 (f_lit 1 5) 3 4; Ensemble.Leaf (f_of_Z 5); Ensemble.Leaf (f_of_Z (-1))]) as (tree & Et & Eb & Es & Eth & ->).
  { vm_compute in E. injection E as <-. eexists. split_and!; [reflexivity|by vm_compute..]. }
  rewrite Eth. split; [|by vm_compute]. unfold Ensemble.logit, Ensemble.logit_in. rewrite Et, Eb, Es. cbn [foldl]. unfold Ensemble.add_leaf, Ensemble.leaf_of.
  assert (fleb (f_lit 1 5) (f_lit 1 2) = true) as L by (by vm_compute). cbn -[f_lit f_of_Z fleb fadd fmul f_zero f_one]. rewrite Ex. cbn -[f_lit f_of_Z fleb fadd fmul f_zero f_one].
  destruct (fleb x (f_lit 1 2)) eqn:H; cbn -[f_lit f_of_Z fleb fadd fmul f_zero f_one]; [by vm_compute|]. rewrite Ex. cbn -[f_lit f_of_Z fleb fadd fmul f_zero f_one].
  destruct (fleb x (f_lit 1 5)) eqn:G; [exfalso; by rewrite (fleb_trans _ _ _ G L) in H|]. cbn -[f_lit f_of_Z fleb fadd fmul f_zero f_one]. by vm_compute.
Qed.
Example the_contradicting_tree_is_accepted : match load_contradicting with Ok _ => true | Err _ => false end = true.
Proof. vm_compute. reflexivity. Qed.

(** The nearest in their order, ties by place; a vote of two neighbours out of three, with [log] left out. *)
Example the_nearest : Knn.nearest 2 [f_of_Z 3; f_of_Z 1; f_of_Z 2; f_of_Z 1] = [1; 3]%nat.
Proof. vm_compute. reflexivity. Qed.
Definition three_points (threshold : json) : json :=
  JObj [("format", JStr Knn.FORMAT); ("features", JList [JStr "same_ne"]); ("center", JList [JInt 0]); ("scale", JList [JInt 1]); ("points", JList [JList [JInt 0]; JList [JInt 1]; JList [JInt 5]]);
        ("rates", JList [JInt 0; JFloat (f_lit 1 2); JInt 1]); ("k", JInt 2); ("weighting", JStr "uniform"); ("prior_rate", JFloat (f_lit 1 2)); ("prior", JInt 0);
        ("reference", JList [JInt 0]); ("threshold", threshold); ("grouping", one_grouping)]%string.
Definition on_a_line (a b : list float) : float := match a, b with [a], [b] => SFabs (fsub a b) | _, _ => f_zero end.
Example three_points_vote :
  match Knn.validate id (fun _ => P_value (three_points (JInt 1))) "" with Ok m => (Knn.logit id on_a_line m (fifteen f_zero), Knn.logit id on_a_line m (fifteen (f_of_Z 4))) | Err _ => (None, None) end
  = (Some (f_lit 1 3), Some (f_of_Z 3)).
Proof. vm_compute. reflexivity. Qed.
Example three_points_refused : Knn.validate id (fun _ => P_value (three_points (JInt 4))) "" = refuse Unreachable_threshold.
Proof. vm_compute. reflexivity. Qed.
