(* ===== verification/ModelVersions.v ===== *)
(** * Stored models and their one dispatch ([engine/model/model_version.py], [challenger.py])

    The logistic scorer and its rules, the check of a stored document of any kind, the scorer it describes and the document a scorer is registered by;
    the routes that register one. [exp] is [math.exp], [loads] [json.loads], [gam_loads] the same with the non-finite constants refused,
    [float_repr] how a float prints, [sha256] the hash in hexadecimal. *)
From S2P Require Import Prelude PyLib Floats Scoring Json PairFeatures Candidates Cart CartLaws LinkModels Attribution Trees TreesLaws.

(** ** The challenger *)

Definition CHALLENGER_SCORER_ID : string := "logistic-shadow".
Definition LOGIT_CLAMP : float := f_of_Z 700.

Record Coefficients := MkCoefficients { intercept : float; decay : float; c_class : float; c_entity : float }.
Definition untrained : Coefficients := MkCoefficients f_zero f_zero f_zero f_zero.
Definition weights (c : Coefficients) : list float := [decay c; c_class c; c_entity c].
Definition as_dict (c : Coefficients) : list (string * float) := ("intercept"%string, intercept c) :: zip FEATURE_NAMES (weights c).
Definition from_vector (intercept decay class_affinity entity_affinity : float) : Coefficients := MkCoefficients intercept decay class_affinity entity_affinity.
Definition trained (c : Coefficients) : bool :=
  negb (feqb (intercept c) f_zero && feqb (decay c) f_zero && feqb (c_class c) f_zero && feqb (c_entity c) f_zero).

Record LogisticScorer := MkLogistic { coefficients : Coefficients; lg_threshold : float; lg_id : string; lg_contract : string }.
Definition challenger (c : Coefficients) : LogisticScorer := MkLogistic c f_zero CHALLENGER_SCORER_ID CONTRACT_VERSION.

(** A dict of floats, and its canonical text. *)
Definition floats (params : list (string * float)) : json := JObj (map (fun e => (e.1, JFloat e.2)) params).
Definition param (key : string) (params : list (string * float)) : float := default f_zero (assoc key params).

Inductive degeneracy := Every_weight_zero | Beyond_bound (name : string) | Threshold_above (high : float) | Threshold_below (low : float).
Definition LOGISTIC_KEYS : list string := ["intercept"; "threshold"]%string ++ FEATURE_NAMES.

(** The lowest and the highest logit: each weight at its worse and its better end. *)
Definition attainable (bounds : list (string * (float * float))) (intercept : float) (ws : list (string * float)) : float * float :=
  foldl (fun (acc : float * float) (e : string * float) =>
    let '(lo, hi) := default (f_zero, f_zero) (assoc e.1 bounds) in
    (fadd acc.1 (py_min (fmul e.2 lo) (fmul e.2 hi)), fadd acc.2 (fmax (fmul e.2 lo) (fmul e.2 hi)))) (intercept, intercept) ws.
Definition validate_logistic (params : list (string * float)) (bounds : list (string * (float * float))) (max_abs logit_margin : float) : option degeneracy :=
  let ws := map (fun name => (name, param name params)) FEATURE_NAMES in
  let threshold := param "threshold" params in
  let intercept := param "intercept" params in
  if forallb (fun e : string * float => feqb e.2 f_zero) ws then Some Every_weight_zero
  else match List.find (fun e : string * float => fltb max_abs (SFabs e.2)) (("intercept"%string, intercept) :: ws) with
  | Some e => Some (Beyond_bound e.1)
  | None =>
      let '(low, high) := attainable bounds intercept ws in
      if fleb (fsub high logit_margin) threshold then Some (Threshold_above high)
      else if fltb threshold low then Some (Threshold_below low)
      else None
  end.

(** ** Stored models *)

Definition KIND_ADDITIVE : string := "additive".
Definition KIND_LOGISTIC : string := "logistic".
Definition KIND_GAM : string := "gam".
Definition family (kind : string) : option Kind := List.find (fun k => bool_decide (KIND k = kind)) [Tree; Forest; Gradient_boosting].
Definition family_keys (k : Kind) : list string := match k with Tree => TREE_KEYS | Forest => FOREST_KEYS | Gradient_boosting => BOOSTING_KEYS end.
Definition SUPPORTED_KINDS : list string := [KIND_ADDITIVE; KIND_LOGISTIC; KIND_GAM; "tree"; "forest"; "gradient_boosting"]%string.
Definition MAX_ABS_COEFFICIENT : float := f_of_Z 25.
Definition LOGIT_MARGIN : float := f_lit 1 100.
Definition ADDITIVE_KEYS : list string := ["w_t"; "w_a"; "w_e"; "tau_s"; "threshold"]%string.

Inductive payload_problem :=
  | Unknown_kind | Contract (v : version_error) | Gam_refused (why : refusal) | Not_valid_json | Not_an_object
  | Param_not_a_number (key : string) | Param_not_finite (key : string) | Wrong_param_keys
  | Tree_refused (p : problem) | Additive_refused (p : params_problem) | Logistic_refused (p : degeneracy).
(** [ModelPayloadError], or an exception that is not one. *)
Inductive load_failure := Payload_error (why : payload_problem) | Load_raises (exc : string).
Definition reject {A} (why : payload_problem) : res load_failure A := Err (Payload_error why).

(** A [problem] of a tree's document that is neither [TreePayloadError] nor [AttributionError]. *)
Fixpoint raised_by (p : problem) : option string :=
  match p with
  | Number _ Too_large | Field _ _ Too_large => Some "OverflowError"%string
  | Key _ => Some "KeyError"%string
  | No_members => Some "ZeroDivisionError"%string
  | Cannot_walk => Some "IndexError"%string
  | Member_of _ p => raised_by p
  | _ => None
  end.
Definition of_problem (p : problem) : load_failure := match raised_by p with Some exc => Load_raises exc | None => Payload_error (Tree_refused p) end.
Definition of_gam (f : failure) : load_failure := match f with Refused why => Payload_error (Gam_refused why) | Raised exc => Load_raises exc end.

Definition flat_float (e : string * json) : res load_failure (string * float) :=
  match number e.2 with
  | Ok f => Ok (e.1, f)
  | Err Not_a_number => reject (Param_not_a_number e.1)
  | Err Infinite_or_nan => reject (Param_not_finite e.1)
  | Err Too_large => Err (Load_raises "OverflowError")
  end.
Definition flat_floats (payload : Payload) : res load_failure (list (string * float)) := mapM (M := res load_failure) flat_float payload.
Definition exact_keys (payload : Payload) (expected : list string) : res load_failure unit := ensure (keys_are expected payload) (Payload_error Wrong_param_keys) (Ok ()).

(** The scorers a row may describe. *)
Inductive AnyScorer :=
  | Additive (s : AdditiveScorer) (contract : string) | Logistic (s : LogisticScorer) | Attributed (s : AttributedScorer) | Gam_scorer (m : Model) (document : string).

Section stored.
Context (exp : float -> float) (loads : string -> option json) (gam_loads : string -> parsed) (float_repr : float -> string) (sha256 : string -> string).

Definition sigmoid (logit : float) : float :=
  let clamped := fmax (fopp LOGIT_CLAMP) (py_min LOGIT_CLAMP logit) in
  if fleb f_zero clamped then fdiv f_one (fadd f_one (exp (fopp clamped)))
  else let scaled := exp clamped in fdiv scaled (fadd f_one scaled).

Definition to_json (c : Coefficients) : string := dumps float_repr (floats (as_dict c)).
Definition from_dict (payload : list (string * float)) : Coefficients :=
  MkCoefficients (param "intercept" payload) (param "decay" payload) (param "class_affinity" payload) (param "entity_affinity" payload).

Definition logistic_term (e : string * float * float) : TermContribution := MkTerm e.1.1 e.1.2 e.2 (fmul e.1.2 e.2).
Definition logistic_score (s : LogisticScorer) (f : LinkFeatures) : LinkScore :=
  let values := feature_vector exp (delta_t_s f) (class_affinity f) (entity_affinity f) in
  let first := intercept (coefficients s) in
  let terms := map logistic_term (zip (zip FEATURE_NAMES (weights (coefficients s))) values) in
  let total := foldl (fun t e => fadd t (t_contribution e)) first terms in
  MkScore (fltb (lg_threshold s) total) total (lg_threshold s) (MkTerm "intercept" first f_one first :: terms) BASIS_WEIGHTED_SUM f_zero.
Definition probability (s : LogisticScorer) (f : LinkFeatures) : float := sigmoid (s_score (logistic_score s f)).

Definition FEATURE_BOUNDS : list (string * (float * float)) :=
  [("decay", (exp (fdiv (fopp WINDOW_S) TAU0_S), f_one)); ("class_affinity", (f_zero, f_one)); ("entity_affinity", (f_zero, f_one))]%string.
Definition ORDERED_BOUNDS : list (float * float) := omap (M := list) (fun name => assoc name FEATURE_BOUNDS) FEATURE_NAMES.

Definition canonical_document (params : list (string * float)) : string := dumps float_repr (floats params).
Definition canonical_object (payload : Payload) : string := dumps float_repr (JObj payload).
Definition newline : string := String (Ascii.ascii_of_nat 10) "".
Definition params_hash (kind contract document : string) : string := sha256 (kind +:+ newline +:+ contract +:+ newline +:+ document).
Definition object_of (document : string) : res load_failure Payload :=
  match loads document with None => reject Not_valid_json | Some (JObj d) => Ok d | Some _ => reject Not_an_object end.

(** What the check hands to the dispatch. *)
Inductive Validated := V_gam | V_tree (k : Kind) (payload : Payload) | V_additive (params : list (string * float)) | V_logistic (params : list (string * float)).
Definition additive_problem (ps : list (string * float)) : option params_problem :=
  validate_params (param "w_t" ps) (param "w_a" ps) (param "w_e" ps) (param "tau_s" ps) (param "threshold" ps).
Definition logistic_problem (ps : list (string * float)) : option degeneracy := validate_logistic ps FEATURE_BOUNDS MAX_ABS_COEFFICIENT LOGIT_MARGIN.

Definition validate_document (kind contract document : string) : res load_failure Validated :=
  if negb (bool_decide (kind ∈ SUPPORTED_KINDS)) then reject Unknown_kind
  else match check_contract_version contract with
  | Some v => reject (Contract v)
  | None =>
      if bool_decide (kind = KIND_GAM) then _ ← reraise of_gam (LinkModels.validate gam_loads document); Ok V_gam
      else
        payload ← object_of document;
        match family kind with
        | Some k =>
            _ ← exact_keys payload (family_keys k);
            _ ← reraise of_problem (validate_payload MAX_ABS_COEFFICIENT ORDERED_BOUNDS k payload);
            Ok (V_tree k payload)
        | None =>
            params ← flat_floats payload;
            if bool_decide (kind = KIND_ADDITIVE) then
              _ ← exact_keys payload ADDITIVE_KEYS;
              match additive_problem params with Some p => reject (Additive_refused p) | None => Ok (V_additive params) end
            else
              _ ← exact_keys payload LOGISTIC_KEYS;
              match logistic_problem params with Some p => reject (Logistic_refused p) | None => Ok (V_logistic params) end
        end
  end.

Definition scorer_for (kind contract document : string) : res load_failure AnyScorer :=
  v ← validate_document kind contract document;
  match v with
  | V_gam => m ← reraise of_gam (LinkModels.validate gam_loads document); Ok (Gam_scorer m document)
  | V_tree k payload =>
      s ← reraise of_problem (scorer_from_payload BACKGROUND k payload contract document (params_hash kind contract document)); Ok (Attributed s)
  | V_additive ps => Ok (Additive (MkAdditive (param "w_t" ps) (param "w_a" ps) (param "w_e" ps) (param "tau_s" ps) (param "threshold" ps)) contract)
  | V_logistic ps => Ok (Logistic (MkLogistic (from_dict ps) (param "threshold" ps) KIND_LOGISTIC contract))
  end.

Definition additive_params (s : AdditiveScorer) : list (string * float) :=
  [("w_t", w_t s); ("w_a", w_a s); ("w_e", w_e s); ("tau_s", tau_s s); ("threshold", a_threshold s)]%string.
Definition document_for (s : AnyScorer) : string :=
  match s with
  | Attributed s => params_document s
  | Gam_scorer _ document => document
  | Logistic s => canonical_document (("threshold"%string, lg_threshold s) :: as_dict (coefficients s))
  | Additive s _ => canonical_document (additive_params s)
  end.
Definition contract_of (s : AnyScorer) : string :=
  match s with Attributed s => at_contract s | Gam_scorer _ _ => CONTRACT_VERSION | Logistic s => lg_contract s | Additive _ c => c end.
(** The score of a pair; [None] is an exception. *)
Definition any_score (s : AnyScorer) (f : LinkFeatures) : option LinkScore :=
  match s with
  | Attributed s => attributed_score exp s f
  | Gam_scorer m _ => vector ← v2 f; LinkModels.explain m vector
  | Logistic s => Some (logistic_score s f)
  | Additive s _ => Some (additive_score exp s f)
  end.

(** ** Registration *)

Record ChallengerRun := MkRun { run_id : Z; run_coefficients : option string }.
Record ModelVersion := MkVersion { mv_kind : string; mv_contract : string; mv_document : string; mv_hash : string; mv_run : option Z; mv_by : string; mv_at : float; mv_note : string }.
(** What the shadow trainer stores of the fit it chose. *)
Definition recorded_run (id : Z) (chosen : option Coefficients) : ChallengerRun := MkRun id (to_json <$> chosen).

Inductive register_error := No_such_run | Nothing_fitted | Own_fit_refused (why : payload_problem) | Uncaught (exc : string).
(** [POST /api/models/register] *)
Definition register_fit (run : option ChallengerRun) (actor : string) (now : float) : res register_error ModelVersion :=
  match run with
  | None => Err No_such_run
  | Some run =>
      match run_coefficients run with
      | None | Some EmptyString => Err Nothing_fitted
      | Some document =>
          match validate_document KIND_LOGISTIC CONTRACT_VERSION document with
          | Err (Payload_error why) => Err (Own_fit_refused why)
          | Err (Load_raises exc) => Err (Uncaught exc)
          | Ok _ => Ok (MkVersion KIND_LOGISTIC CONTRACT_VERSION document (params_hash KIND_LOGISTIC CONTRACT_VERSION document) (Some (run_id run)) actor now "registered from the console")
          end
      end
  end.
(** [netcorenoc promotion register] *)
Definition promotion_register (kind params : string) (run : option Z) (now : float) : res load_failure ModelVersion :=
  _ ← validate_document kind CONTRACT_VERSION params;
  Ok (MkVersion kind CONTRACT_VERSION params (params_hash kind CONTRACT_VERSION params) run "cli" now "registered from the CLI").
End stored.

(** ** A scorer's own document *)

(** The parameters a flat scorer's document holds. *)
Definition flat_params (s : AnyScorer) : option (list (string * float)) :=
  match s with
  | Logistic s => Some (("threshold"%string, lg_threshold s) :: as_dict (coefficients s))
  | Additive s _ => Some (additive_params s)
  | _ => None
  end.

Lemma flat_floats_finite payload ps : flat_floats payload = Ok ps -> Forall (fun e : string * float => f_finite e.2 = true) ps.
Proof.
  revert ps. induction payload as [|e payload IH]; intros ps E; cbn in E; [injection E as <-; constructor|].
  apply bind_Ok_inv in E as (e' & E1 & E). apply bind_Ok_inv in E as (ps' & E2 & E). injection E as <-. constructor; [|by apply IH].
  unfold flat_float in E1. destruct (number e.2) as [f|[]] eqn:En; try done. injection E1 as <-. by apply number_finite in En.
Qed.
Lemma param_finite ps key : Forall (fun e : string * float => f_finite e.2 = true) ps -> f_finite (param key ps) = true.
Proof. intros F. unfold param. destruct (assoc key ps) as [f|] eqn:E; [|done]. apply assoc_Some in E. rewrite Forall_forall in F. by apply (F (key, f)). Qed.
Lemma flat_floats_of l : Forall (fun e : string * float => f_finite e.2 = true) l -> flat_floats (map (fun e => (e.1, JFloat e.2)) l) = Ok l.
Proof.
  induction 1 as [|[k f] l Hf _ IH]; [done|]. change (f_finite f = true) in Hf. change (flat_floats _) with (e ← flat_float (k, JFloat f); es ← flat_floats (map (fun e => (e.1, JFloat e.2)) l); Ok (e :: es)).
  rewrite IH. unfold flat_float. cbn -[f_finite]. by rewrite Hf.
Qed.

Lemma flat_scorer_document float_repr s : document_for float_repr s = match flat_params s with Some ps => canonical_document float_repr ps | None => document_for float_repr s end.
Proof. by destruct s. Qed.

(** ** What a check may fail with *)

Definition fails_as {E A} (P : E -> Prop) (r : res E A) : Prop := match r with Ok _ => True | Err e => P e end.
Lemma fails_bind {E A B} (P : E -> Prop) (m : res E A) (f : A -> res E B) : fails_as P m -> (∀ a, m = Ok a -> fails_as P (f a)) -> fails_as P (m ≫= f).
Proof. destruct m as [a|e]; cbn; [intros _ H; by apply H|done]. Qed.
Lemma fails_ensure {E A} (P : E -> Prop) b e (r : res E A) : P e -> fails_as P r -> fails_as P (ensure b e r).
Proof. by destruct b. Qed.
Lemma fails_mapM {E A B} (P : E -> Prop) (f : A -> res E B) l : (∀ a, a ∈ l -> fails_as P (f a)) -> fails_as P (mapM (M := res E) f l).
Proof.
  induction l as [|a l IH]; cbn; [done|]. intros H. apply fails_bind; [apply H; by left|]. intros b _. apply fails_bind; [|done]. apply IH. intros c Hc. apply H. by right.
Qed.
Lemma fails_each {A} (P : problem -> Prop) (l : list A) k : (∀ a, a ∈ l -> fails_as P (k a)) -> fails_as P (each l k).
Proof. induction l as [|a l IH]; cbn; [done|]. intros H. apply fails_bind; [apply H; by left|]. intros _ _. apply IH. intros c Hc. apply H. by right. Qed.
Lemma fails_reraise {E F A} (P : F -> Prop) (wrap : E -> F) (r : res E A) : fails_as (fun e => P (wrap e)) r -> fails_as P (reraise wrap r).
Proof. by destruct r. Qed.
Lemma fails_impl {E A} (P Q : E -> Prop) (r : res E A) : (∀ e, P e -> Q e) -> fails_as P r -> fails_as Q r.
Proof. destruct r; cbn; [done|]. intros H. apply H. Qed.
Create HintDb fails.
Ltac fails := repeat first [done | solve [auto 1 with fails] | apply fails_bind; [|intros ? ?] | apply fails_ensure | apply fails_reraise | progress (apply fails_mapM; intros ? _) | case_match].

(** A GAM's check. *)
Definition gam_raises (f : failure) : Prop := match f with Refused _ => True | Raised exc => exc = "TypeError"%string ∨ exc = "OverflowError"%string end.
Lemma num_fails v : fails_as gam_raises (num v).
Proof. unfold num. fails; by right. Qed.
#[export] Hint Resolve num_fails : fails.
Lemma nums_fails l : fails_as gam_raises (nums l).
Proof. apply fails_mapM. intros v _. apply num_fails. Qed.
#[export] Hint Resolve nums_fails : fails.
Lemma feature_list_fails v : fails_as gam_raises (feature_list v).
Proof. unfold feature_list. fails; first [by left | unfold a_name; fails]. Qed.
Lemma edges_fails v n : fails_as gam_raises (edges_of v n).
Proof. unfold edges_of. fails. Qed.
Lemma scores_fails v n : fails_as gam_raises (scores_of v n).
Proof. unfold scores_of. fails. Qed.
#[export] Hint Resolve feature_list_fails edges_fails scores_fails : fails.
Lemma gam_fails parse document : fails_as gam_raises (LinkModels.validate parse document).
Proof.
  unfold LinkModels.validate, document_dict, shape_of, pair_of, grouping_of, grouping_numbers. fails.
Qed.
(** A tree kind's check. *)
Definition tree_raises (p : problem) : Prop := raised_by p = None ∨ raised_by p = Some "OverflowError"%string.
Lemma number_raises (wrap : number_problem -> problem) v : (∀ e, raised_by (wrap e) = match e with Too_large => Some "OverflowError"%string | _ => None end) ->
  fails_as tree_raises (reraise wrap (number v)).
Proof. intros W. apply fails_reraise. destruct (number v) as [|e]; [done|]. cbn. unfold tree_raises. rewrite W. destruct e; auto. Qed.
Lemma scalar_raises payload : fails_as tree_raises (scalar_error payload).
Proof.
  unfold scalar_error. apply fails_bind.
  - apply fails_each. intros key _. case_match; [|done]. apply fails_bind; [|done]. apply number_raises. by intros [].
  - intros _ _. apply fails_each. intros key _. repeat case_match; try apply fails_ensure; first [done|by left].
Qed.
Lemma nodes_raises v : fails_as tree_raises (nodes_from_payload v).
Proof.
  unfold nodes_from_payload. case_match; try (by left). apply fails_mapM. intros r Hr. apply elem_of_lookup_imap in Hr as (i & row & -> & _). unfold id, node_from.
  repeat case_match; try (by left). apply fails_bind; [|done]. apply fails_mapM. intros r Hr. apply elem_of_lookup_imap in Hr as (c & v' & -> & _). unfold id.
  apply number_raises. by intros [].
Qed.
Lemma trees_raise v : fails_as tree_raises (trees_from_payload v).
Proof.
  unfold trees_from_payload. case_match; try (by left). apply fails_mapM. intros r Hr. apply elem_of_lookup_imap in Hr as (i & row & -> & _). unfold id.
  apply fails_reraise. eapply fails_impl; [|apply nodes_raises]. by intros p.
Qed.
Lemma item_raises key payload : key ∈ payload.*1 -> fails_as tree_raises (item key payload).
Proof. intros Hk. unfold item. destruct (assoc key payload) eqn:E; [done|]. by apply assoc_None in E. Qed.
Lemma item_float_raises key payload : key ∈ payload.*1 -> fails_as tree_raises (item_float key payload).
Proof. intros Hk. unfold item_float. apply fails_bind; [by apply item_raises|]. intros v _. apply number_raises. by intros []. Qed.
Lemma as_float_raises key v : fails_as tree_raises (as_float key v).
Proof. destruct v; try (by left); cbn [as_float]; [apply number_raises; by intros []|done]. Qed.
Lemma member_raises i p : tree_raises p -> tree_raises (Member_of i p).
Proof. done. Qed.

Section rules.
Context (max_abs : float) (b0 b1 b2 : float * float).
Context (Hb : Forall (fun b => fltb f_minus_inf b.1 = true ∧ is_nan b.2 = false) [b0; b1; b2]) (Nm : is_nan max_abs = false).

Lemma reachable_raises threshold members base : Forall (fun m : Member => structure_error m.2 = Some (Ok ()) ∧ thresholds_ok m.2) members ->
  fails_as tree_raises (reachable [b0; b1; b2] threshold members base).
Proof using Hb.
  intros Ht. unfold reachable. rewrite extremes_tried. cbn zeta. destruct (_ <? _); [by left|].
  destruct (tried_outputs members base b0 b1 b2 Ht Hb) as (totals & -> & _). repeat case_match; first [done|by left].
Qed.
Lemma validate_raises nodes t check : Forall finite_node nodes -> fails_as tree_raises (validate max_abs [b0; b1; b2] nodes t check).
Proof using Hb.
  intros F. unfold validate. destruct (structure_error_ends nodes) as [r E]. rewrite E. destruct r as [[]|p]; [|by left].
  apply fails_bind; [apply fails_each; intros; apply fails_ensure; [by left|done]|]. intros _ _. destruct check; [|done]. case_match; [by left|].
  apply reachable_raises. apply Forall_singleton. split; [done|]. by apply finite_thresholds.
Qed.
Lemma members_raise grown t : Forall (Forall finite_node) grown -> fails_as tree_raises (validate_members max_abs [b0; b1; b2] grown t).
Proof using Hb.
  intros F. unfold validate_members. apply fails_each. intros [i nodes] Hn. cbn [fst snd]. apply fails_reraise. eapply fails_impl; [by apply member_raises|]. apply validate_raises.
  rewrite Forall_forall in F. apply F. by eapply elem_of_zip_r.
Qed.
Lemma grown_reachable w grown t base : Forall (Forall finite_node) grown -> validate_members max_abs [b0; b1; b2] grown t = Ok () ->
  fails_as tree_raises (reachable [b0; b1; b2] t (map (pair w) grown) base).
Proof using Hb Nm.
  intros F V. apply reachable_raises. apply (weighted_trees max_abs). by eapply validate_members_trees.
Qed.
Lemma validate_payload_raises k payload : keys_are (family_keys k) payload = true -> fails_as tree_raises (validate_payload max_abs [b0; b1; b2] k payload).
Proof using Hb Nm.
  intros K. assert (∀ key, key ∈ family_keys k -> key ∈ payload.*1) as In.
  { intros key Hk. apply andb_true_iff in K as [_ K]. rewrite forallb_forall in K. apply list_elem_of_In in Hk. by apply K, bool_decide_eq_true in Hk. }
  unfold validate_payload. apply fails_bind; [apply scalar_raises|]. intros _ _. destruct k.
  - repeat case_match; try (by left). apply fails_ensure; [by left|]. apply fails_bind; [apply item_raises, In; set_solver|]. intros v _.
    apply fails_bind; [apply nodes_raises|]. intros nodes E%nodes_from_payload_finite. apply fails_bind; [apply item_float_raises, In; set_solver|]. intros t _. by apply validate_raises.
  - apply fails_bind; [apply item_raises, In; set_solver|]. intros v _. apply fails_bind; [apply trees_raise|]. intros grown E%trees_from_payload_finite.
    apply fails_bind; [apply item_float_raises, In; set_solver|]. intros t _. unfold forest_validate. destruct (assoc _ payload) as [[]|]; try (by left). destruct (Nat.ltb _ _) eqn:Few; [by left|].
    apply fails_bind; [by apply members_raise|]. intros [] V. destruct (all_same grown); [by left|]. unfold forest_members. destruct grown as [|g grown]; [done|]. cbn [mbind res_bind]. by apply grown_reachable.
  - apply fails_bind; [apply item_raises, In; set_solver|]. intros v _. apply fails_bind; [apply trees_raise|]. intros grown E%trees_from_payload_finite.
    apply fails_bind; [apply item_float_raises, In; set_solver|]. intros t _. unfold boosting_validate, number_at.
    apply fails_bind; [case_match; try apply fails_ensure; first [done|by left]|]. intros rate _. apply fails_bind; [apply as_float_raises|]. intros r _.
    apply fails_ensure; [by left|]. apply fails_ensure; [by left|]. apply fails_bind; [case_match; try apply fails_ensure; first [done|by left]|]. intros base _.
    apply fails_bind; [by apply members_raise|]. intros [] V. apply fails_bind; [apply as_float_raises|]. intros b _. by apply grown_reachable.
Qed.
End rules.

Section laws.
Context (exp : float -> float) (loads : string -> option json) (gam_loads : string -> parsed) (float_repr : float -> string) (sha256 : string -> string).
Notation Validate_document := (validate_document exp loads gam_loads).
Notation Scorer_for := (scorer_for exp loads gam_loads sha256).

(** The canonical text of flat parameters reads back as their dict, its keys in order. *)
Lemma sorted_additive a b c d e : normal (floats [("w_t", a); ("w_a", b); ("w_e", c); ("tau_s", d); ("threshold", e)]%string) = floats [("tau_s", d); ("threshold", e); ("w_a", b); ("w_e", c); ("w_t", a)]%string.
Proof. vm_compute. reflexivity. Qed.
Lemma sorted_logistic t i a b c : normal (floats (("threshold"%string, t) :: as_dict (MkCoefficients i a b c))) =
  floats [("class_affinity", b); ("decay", a); ("entity_affinity", c); ("intercept", i); ("threshold", t)]%string.
Proof. vm_compute. reflexivity. Qed.
Lemma sorted_fit c : normal (floats (as_dict c)) = floats [("class_affinity", c_class c); ("decay", decay c); ("entity_affinity", c_entity c); ("intercept", intercept c)]%string.
Proof. vm_compute. reflexivity. Qed.
Lemma object_of_floats document ps : loads document = Some (floats ps) -> object_of loads document = Ok (map (fun e => (e.1, JFloat e.2)) ps).
Proof. unfold object_of. by intros ->. Qed.

(** The check of a document of floats, by its kind. *)
Lemma validate_flat kind contract document ps : bool_decide (kind ∈ SUPPORTED_KINDS) = true -> bool_decide (kind = KIND_GAM) = false -> family kind = None ->
  check_contract_version contract = None -> loads document = Some (floats ps) -> Forall (fun e : string * float => f_finite e.2 = true) ps ->
  Validate_document kind contract document =
    if bool_decide (kind = KIND_ADDITIVE) then
      if keys_are ADDITIVE_KEYS (map (fun e => (e.1, JFloat e.2)) ps) then match additive_problem ps with Some p => reject (Additive_refused p) | None => Ok (V_additive ps) end else reject Wrong_param_keys
    else if keys_are LOGISTIC_KEYS (map (fun e => (e.1, JFloat e.2)) ps) then match logistic_problem exp ps with Some p => reject (Logistic_refused p) | None => Ok (V_logistic ps) end
    else reject Wrong_param_keys.
Proof.
  intros S G Fam C L F. unfold validate_document. rewrite S, G, Fam, C, (object_of_floats _ _ L). cbn [negb mbind res_bind]. rewrite flat_floats_of by done. cbn [mbind res_bind].
  unfold exact_keys, ensure.
  destruct (bool_decide (kind = KIND_ADDITIVE)); [destruct (keys_are ADDITIVE_KEYS _)|destruct (keys_are LOGISTIC_KEYS _)]; reflexivity.
Qed.

(** What the check left of a document it accepted. *)
Lemma validated_additive kind contract document ps : Validate_document kind contract document = Ok (V_additive ps) ->
  kind = KIND_ADDITIVE ∧ check_contract_version contract = None ∧ Forall (fun e : string * float => f_finite e.2 = true) ps ∧ additive_problem ps = None.
Proof.
  unfold validate_document. intros E. destruct (bool_decide (kind ∈ SUPPORTED_KINDS)); [|done]. cbn [negb] in E. destruct (check_contract_version contract); [done|].
  case_bool_decide; [by apply bind_Ok_inv in E as (? & _ & E)|]. apply bind_Ok_inv in E as (payload & _ & E). destruct (family kind).
  { apply bind_Ok_inv in E as (? & _ & E). apply bind_Ok_inv in E as (? & _ & E). done. }
  apply bind_Ok_inv in E as (ps' & Ef & E). case_bool_decide as K; apply bind_Ok_inv in E as (? & _ & E).
  - destruct (additive_problem ps') eqn:P; [done|]. injection E as ->. split_and!; try done. by eapply flat_floats_finite.
  - by destruct (logistic_problem exp ps').
Qed.
Lemma validated_logistic kind contract document ps : Validate_document kind contract document = Ok (V_logistic ps) ->
  kind = KIND_LOGISTIC ∧ check_contract_version contract = None ∧ Forall (fun e : string * float => f_finite e.2 = true) ps ∧ logistic_problem exp ps = None.
Proof.
  unfold validate_document. intros E. case_bool_decide as S; [|done]. cbn [negb] in E. destruct (check_contract_version contract); [done|].
  case_bool_decide as G; [by apply bind_Ok_inv in E as (? & _ & E)|]. apply bind_Ok_inv in E as (payload & _ & E). destruct (family kind) eqn:Fam.
  { apply bind_Ok_inv in E as (? & _ & E). apply bind_Ok_inv in E as (? & _ & E). done. }
  apply bind_Ok_inv in E as (ps' & Ef & E). case_bool_decide as K; apply bind_Ok_inv in E as (? & _ & E); [by destruct (additive_problem ps')|].
  destruct (logistic_problem exp ps') eqn:P; [done|]. injection E as ->. split_and!; try done; [|by eapply flat_floats_finite].
  unfold SUPPORTED_KINDS in S. repeat (apply elem_of_cons in S as [->|S]; [try done; try (by vm_compute in Fam)|]). by apply elem_of_nil in S.
Qed.

(** C33: The document of a scorer that loaded loads the same scorer again, under the same contract. For the two kinds whose document is rebuilt from their
    numbers, [loads] reads back what [canonical_document] wrote of them. *)
Theorem a_loaded_scorer_loads_from_its_own_document kind contract document s : Scorer_for kind contract document = Ok s ->
  (∀ ps, flat_params s = Some ps -> loads (canonical_document float_repr ps) = Some (normal (floats ps))) ->
  Scorer_for kind contract (document_for float_repr s) = Ok s ∧ (contract_of s = contract ∨ kind = KIND_GAM).
Proof.
  intros E L. pose proof E as E'. unfold scorer_for in E. apply bind_Ok_inv in E as (v & Ev & E). destruct v as [|k payload|ps|ps].
  - apply bind_Ok_inv in E as (m & Em & E). injection E as <-. split; [exact E'|]. right.
    unfold validate_document in Ev. destruct (negb _); [done|]. destruct (check_contract_version contract); [done|]. case_bool_decide; [done|].
    apply bind_Ok_inv in Ev as (payload & _ & Ev). destruct (family kind).
    { apply bind_Ok_inv in Ev as (? & _ & Ev). by apply bind_Ok_inv in Ev as (? & _ & Ev). }
    apply bind_Ok_inv in Ev as (? & _ & Ev). case_bool_decide; apply bind_Ok_inv in Ev as (? & _ & Ev); by destruct (_ : option _).
  - apply bind_Ok_inv in E as (a & Ea & E). injection E as <-. apply reraise_Ok in Ea. unfold scorer_from_payload in Ea. apply bind_Ok_inv in Ea as ([ms base] & _ & Ea).
    apply bind_Ok_inv in Ea as (t & _ & Ea). apply bind_Ok_inv in Ea as (b & _ & Ea). unfold build_scorer in Ea. apply bind_Ok_inv in Ea as (e & _ & Ea).
    apply ensure_Ok_inv in Ea as [_ Ea]. injection Ea as <-. split; [exact E'|by left].
  - injection E as <-. destruct (validated_additive _ _ _ _ Ev) as (-> & C & F & P). split; [|by left]. specialize (L _ eq_refl). cbn [document_for flat_params] in L |- *. unfold additive_params in L |- *.
    cbn [w_t w_a w_e tau_s a_threshold] in L |- *. rewrite sorted_additive in L. unfold scorer_for. erewrite validate_flat; [|reflexivity|reflexivity|reflexivity|done|exact L|].
    + cbn [bool_decide]. change (bool_decide (KIND_ADDITIVE = KIND_ADDITIVE)) with true. change (keys_are ADDITIVE_KEYS _) with true. cbn match.
      change (additive_problem _) with (additive_problem ps). rewrite P. reflexivity.
    + repeat (constructor; [by apply param_finite|]). constructor.
  - injection E as <-. destruct (validated_logistic _ _ _ _ Ev) as (-> & C & F & P). split; [|by left]. specialize (L _ eq_refl). cbn [document_for flat_params] in L |- *.
    cbn [lg_threshold coefficients] in L |- *. unfold from_dict in L |- *. rewrite sorted_logistic in L. unfold scorer_for. erewrite validate_flat; [|reflexivity|reflexivity|reflexivity|done|exact L|].
    + change (bool_decide (KIND_LOGISTIC = KIND_ADDITIVE)) with false. change (keys_are LOGISTIC_KEYS _) with true. cbn match.
      change (logistic_problem exp _) with (logistic_problem exp ps). rewrite P. reflexivity.
    + repeat (constructor; [by apply param_finite|]). constructor.
Qed.

(** A fit of the appliance is recorded without a threshold, which a logistic document must have: registering it is always refused, as a defect of the fit. *)
Theorem no_fit_of_the_appliance_registers id c actor now :
  Forall (fun f => f_finite f = true) (intercept c :: weights c) -> loads (to_json float_repr c) = Some (normal (floats (as_dict c))) ->
  register_fit exp loads gam_loads sha256 (Some (recorded_run float_repr id (Some c))) actor now = Err (Own_fit_refused Wrong_param_keys).
Proof.
  intros F L. rewrite sorted_fit in L. unfold recorded_run, register_fit. cbn [run_coefficients fmap option_fmap option_map].
  assert (to_json float_repr c ≠ EmptyString) as N by (intros X; unfold to_json in X; cbn in X; discriminate X).
  destruct (to_json float_repr c) as [|a t] eqn:E; [done|]. rewrite <- E in L |- *. erewrite validate_flat; [|reflexivity|reflexivity|reflexivity|reflexivity|exact L|].
  - change (bool_decide (KIND_LOGISTIC = KIND_ADDITIVE)) with false. change (keys_are LOGISTIC_KEYS _) with false. reflexivity.
  - repeat (apply Forall_cons in F as [? F]). repeat (constructor; [done|]). constructor.
Qed.

(** Whatever the kind and the document, the one check accepts, refuses by [ModelPayloadError], or lets one of two exceptions through: [OverflowError], of an integer no float
    holds, and of a GAM the [TypeError] of a list where a feature's name should be. *)
Theorem a_stored_document_is_accepted_or_refused kind contract document exc : fltb f_minus_inf (exp (fdiv (fopp WINDOW_S) TAU0_S)) = true ->
  Validate_document kind contract document = Err (Load_raises exc) -> exc = "OverflowError"%string ∨ (kind = KIND_GAM ∧ exc = "TypeError"%string).
Proof.
  intros X E. pose (P := fun f => match f with Payload_error _ => True | Load_raises exc => exc = "OverflowError"%string ∨ (kind = KIND_GAM ∧ exc = "TypeError"%string) end).
  assert (fails_as P (Validate_document kind contract document)) as F; [|by rewrite E in F]. clear E. unfold validate_document.
  destruct (bool_decide (kind ∈ SUPPORTED_KINDS)); [|done]. cbn [negb]. destruct (check_contract_version contract); [done|]. case_bool_decide as G.
  - apply fails_bind; [|done]. apply fails_reraise. eapply fails_impl; [|apply gam_fails]. intros [why|e]; [done|]. cbn. intros [->| ->]; [by right|by left].
  - apply fails_bind; [unfold object_of; by repeat case_match|]. intros payload _. destruct (family kind) as [k|].
    + apply fails_bind; [by apply fails_ensure|]. intros [] K. unfold exact_keys in K. apply ensure_Ok_inv in K as [K _]. apply fails_bind; [|done]. apply fails_reraise.
      eapply fails_impl; [|apply validate_payload_raises; [by repeat constructor|done|done]]. intros p R. unfold of_problem. destruct R as [R|R]; rewrite R; [done|by left].
    + apply fails_bind.
      { apply fails_mapM. intros e _. unfold flat_float. destruct (number e.2) as [|[]]; try done. by left. }
      intros ps _. case_match; (apply fails_bind; [by apply fails_ensure|]; intros _ _; by case_match).
Qed.
End laws.

(** ** Witnesses *)

(** A logistic document, the same for every text; [exp] is near the value it has at -4. *)
Definition w_exp (_ : float) : float := f_lit 18 1000.
Definition w_weights : Coefficients := MkCoefficients (f_of_Z (-2)) f_one (f_of_Z 2) (f_of_Z 3).
Definition w_document (text : string) : option json := Some (normal (floats (("threshold"%string, f_zero) :: as_dict w_weights))).
Definition w_fit (text : string) : option json := Some (normal (floats (as_dict w_weights))).
Definition w_repr (_ : float) : string := "0.0".
Definition w_loaded : res load_failure AnyScorer := scorer_for w_exp w_document (fun _ => P_invalid) id KIND_LOGISTIC "1.0" "".

Lemma a_loaded_scorer_loads_from_its_own_document_witness :
  ∃ s, w_loaded = Ok s ∧ scorer_for w_exp w_document (fun _ => P_invalid) id KIND_LOGISTIC "1.0" (document_for w_repr s) = Ok s.
Proof.
  exists (Logistic (MkLogistic w_weights f_zero KIND_LOGISTIC "1.0")). assert (w_loaded = Ok (Logistic (MkLogistic w_weights f_zero KIND_LOGISTIC "1.0"))) as E by (vm_compute; reflexivity).
  split; [exact E|]. apply (a_loaded_scorer_loads_from_its_own_document w_exp w_document (fun _ => P_invalid) w_repr id KIND_LOGISTIC "1.0" "" _ E). intros ps [= <-]. vm_compute. reflexivity.
Defined.
Lemma no_fit_of_the_appliance_registers_witness :
  register_fit w_exp w_fit (fun _ => P_invalid) id (Some (recorded_run w_repr 7 (Some w_weights))) "admin" f_zero = Err (Own_fit_refused Wrong_param_keys).
Proof. apply (no_fit_of_the_appliance_registers w_exp w_fit (fun _ => P_invalid) w_repr id 7 w_weights); [repeat constructor|vm_compute; reflexivity]. Defined.
Lemma a_stored_document_is_accepted_or_refused_witness :
  let huge := fun _ : string => Some (JObj [("w_t"%string, JInt (2 ^ 1024))]) in
  validate_document w_exp huge (fun _ => P_invalid) KIND_ADDITIVE "1.0" "" = Err (Load_raises "OverflowError") ∧ ("OverflowError" = "OverflowError" ∨ KIND_ADDITIVE = KIND_GAM ∧ "OverflowError" = "TypeError")%string.
Proof.
  intros huge. assert (validate_document w_exp huge (fun _ => P_invalid) KIND_ADDITIVE "1.0" "" = Err (Load_raises "OverflowError")) as E by (vm_compute; reflexivity).
  split; [exact E|]. apply (a_stored_document_is_accepted_or_refused w_exp huge (fun _ => P_invalid) KIND_ADDITIVE "1.0" ""); [vm_compute; reflexivity|exact E].
Defined.
