(* ===== verification/Lifecycle.v ===== *)
(** * Which scorer is in effect ([engine/operate/scorer_lifecycle.py], [league_loop.py], [store/league.py], [store/decider.py], [store/scoring_config.py])

    The reload point of the fast loop, with its fall-backs and what it tells the operator; the judge's step of the slow loop; the settings and decisions
    the two meet in. A call of the engine ends in a value or an exception and leaves the engine as far as it got. What the store, the package and the clock
    answer in a pass is an argument. *)
From S2P Require Import Prelude PyLib Floats Scoring Json LinkModels Scores League ModelVersions.

(** ** The tables *)

(** A row of [scorer_config]; its rows and those of [model_version] never change. *)
Record ConfigRow := MkConfigRow { cf_scorer_id : string; cf_contract : string; cf_w_t : float; cf_w_a : float; cf_w_e : float; cf_tau_s : float; cf_threshold : float; cf_hash : string }.
(** The one row of [scorer_active]: exactly one of its two pointers is set. *)
Inductive Pointer := Names_config (id : Z) | Names_version (id : Z).
Definition set_active_scorer_config (configs : gmap Z ConfigRow) (id : Z) (p : option Pointer) : bool * option Pointer :=
  match configs !! id with None => (false, p) | Some _ => (true, Some (Names_config id)) end.
Definition active_scorer_config (p : option Pointer) : option Z := match p with Some (Names_config id) => Some id | _ => None end.
Definition active_model_version (p : option Pointer) : option Z := match p with Some (Names_version id) => Some id | _ => None end.

(** [decider_setting], newest last. *)
Record Setting := MkSetting { st_mode : string; st_by : string; st_at : float; st_reason : string; st_pinned : option string }.
Definition DECIDER_MODES : list string := ["shipped"; "site"; "additive"]%string.
Definition decider_mode (settings : list Setting) : string := default "shipped"%string (st_mode <$> last settings).
Definition decider_pin (settings : list Setting) : option string := last settings ≫= st_pinned.
Definition set_decider_mode (mode by_ : string) (at_ : float) (reason : string) (settings : list Setting) : option (list Setting) :=
  if bool_decide (mode ∈ DECIDER_MODES) then Some (settings ++ [MkSetting mode by_ at_ reason None]) else None.
Definition set_decider_pin (pinned : option string) (by_ : string) (at_ : float) (reason : string) (settings : list Setting) : list Setting :=
  settings ++ [MkSetting "shipped" by_ at_ reason pinned].

(** [league_decision], newest last; the evidence is left out. *)
Record DecisionRow := MkDecision { d_at : float; d_champion : string; d_previous : option string; d_actor : string; d_why : reason; d_pinned : bool }.

(** ** The engine *)

(** [_loaded_key]: a configuration's, or a model's; a champion's id is -1. *)
Inductive why_formula := League_unreadable (exc : string) | No_model_can_decide (refusals : list (string * league_refusal)).
Inductive Key := K_config (id : Z) (hash : string) (refused : option why_formula) | K_model (id : Z) (hash : string).
#[export] Instance refusal_eq : EqDecision refusal. Proof. solve_decision. Defined.
#[export] Instance league_refusal_eq : EqDecision league_refusal. Proof. solve_decision. Defined.
#[export] Instance why_formula_eq : EqDecision why_formula. Proof. solve_decision. Defined.
#[export] Instance key_eq : EqDecision Key. Proof. solve_decision. Defined.

Inductive config_problem := Config_contract (v : version_error) | Config_params (p : params_problem).
Inductive Warning :=
  | Unreadable_configuration (exc : string) | Config_rejected (p : config_problem) | Version_rejected (id : Z) (f : load_failure)
  | Formula_runs (why : why_formula) | Member_refused (kind : string) (why : league_refusal) | League_decides.

Definition config_problem_of (row : ConfigRow) : option config_problem :=
  match check_contract_version (cf_contract row) with
  | Some v => Some (Config_contract v)
  | None => Config_params <$> validate_params (cf_w_t row) (cf_w_a row) (cf_w_e row) (cf_tau_s row) (cf_threshold row)
  end.

Section lifecycle.
Context {S : Type} `{Kinds S}.

Inductive Running := The_default | The_config (id : Z) (row : ConfigRow) | The_version (id : Z) (s : AnyScorer) | The_champion (m : Member (S := S)).
Record Engine := MkEngine {
  running : Running; degraded : bool; loaded_key : option Key; config_id : option Z; model_version_id : option Z; decider_ref : string; warnings : list Warning;
  league_members : option (League (S := S)); latency_us : list (string * float); challengers : list (Member (S := S)); champion_ : option (Member (S := S)); shadow_of : option string }.
(** [Engine.__init__] *)
Definition new_engine : Engine := MkEngine The_default false None None None "additive:default" [] None [] [] None None.

(** A call: its value or exception, and the engine after it. *)
Definition act (A : Type) : Type := Engine -> res string A * Engine.
#[local] Instance act_ret : MRet act := fun A a e => (Ok a, e).
#[local] Instance act_bind : MBind act := fun A B f m e => match m e with (Ok a, e) => f a e | (Err exc, e) => (Err exc, e) end.
Definition raise {A} (exc : string) : act A := fun e => (Err exc, e).
Definition modify (f : Engine -> Engine) : act unit := fun e => (Ok (), f e).
Definition gets {A} (f : Engine -> A) : act A := fun e => (Ok (f e), e).
Definition answer {A} (r : res string A) : act A := fun e => (r, e).

Ltac run := unfold mbind, act_bind, mret, act_ret, gets, modify, answer, raise in *; cbv beta iota in *.

Definition set_key (k : option Key) (e : Engine) : Engine :=
  MkEngine (running e) (degraded e) k (config_id e) (model_version_id e) (decider_ref e) (warnings e) (league_members e) (latency_us e) (challengers e) (champion_ e) (shadow_of e).
Definition set_league (l : League) (e : Engine) : Engine :=
  MkEngine (running e) (degraded e) (loaded_key e) (config_id e) (model_version_id e) (decider_ref e) (warnings e) (Some l) (latency_us e) (challengers e) (champion_ e) (shadow_of e).
Definition set_latency (lat : list (string * float)) (e : Engine) : Engine :=
  MkEngine (running e) (degraded e) (loaded_key e) (config_id e) (model_version_id e) (decider_ref e) (warnings e) (league_members e) lat (challengers e) (champion_ e) (shadow_of e).
Definition set_challengers (ms : list (Member (S := S))) (e : Engine) : Engine :=
  MkEngine (running e) (degraded e) (loaded_key e) (config_id e) (model_version_id e) (decider_ref e) (warnings e) (league_members e) (latency_us e) ms (champion_ e) (shadow_of e).
(** [set_scorer] wraps the scorer anew; with it go the ids, the name and the warnings. *)
Definition activate (r : Running) (config version : option Z) (name : string) (ws : list Warning) (e : Engine) : Engine :=
  MkEngine r false (loaded_key e) config version name ws (league_members e) (latency_us e) (challengers e) (champion_ e) (shadow_of e).
Definition set_champion (m : Member (S := S)) (e : Engine) : Engine :=
  MkEngine (running e) (degraded e) (loaded_key e) (config_id e) (model_version_id e) (decider_ref e) (warnings e) (league_members e) (latency_us e) (challengers e) (Some m) (Some (ref m)).
(** The guard of [Scoring.SafeScorer] replaced a scorer that misbehaved. *)
Definition degrade (e : Engine) : Engine :=
  MkEngine (running e) true (loaded_key e) (config_id e) (model_version_id e) (decider_ref e) (warnings e) (league_members e) (latency_us e) (challengers e) (champion_ e) (shadow_of e).

Definition use_default_scorer (why : Warning) : act unit := modify (activate The_default None None "additive:default" [why]).

(** ** A pass *)

Record SiteModel := MkSiteModel { sm_kind : string; sm_document : string; sm_id : Z; sm_created : float }.
(** What a pass is answered. *)
Record Answers := MkAnswers {
  a_mode : res string string; a_config : res string (option Z); a_version : res string (option Z); a_packaged : res string (League (S := S)); a_site : res string (option SiteModel);
  a_measure : Member (S := S) -> res string float; a_decision : res string (option string); a_pin : res string (option string) }.

Context (sha256 : string -> string) (loads : string -> option json) (gam_loads : string -> parsed) (float_of_string : string -> option float).
Context (exp log : float -> float) (pow : float -> Z -> float) (stdev : list float -> float).
Context (configs : Z -> ConfigRow) (versions : Z -> ModelVersion).

Definition league_now (a : Answers) : res string League :=
  members_ ← a_packaged a; row ← a_site a;
  match row with
  | None => Ok members_
  | Some row =>
      match site_member sha256 (sm_kind row) (sm_document row) (sm_id row) (sm_created row) with
      | Ok m => Ok (with_member members_ m)
      | Err (Refusal why) => Ok (MkLeague (members members_) (refused members_ ++ [("site"%string, why)]))
      | Err (Escapes exc) => Err exc
      end
  end.

(** The members of a first measurement, then those not measured yet. *)
Fixpoint measure_each (measure : Member (S := S) -> res string float) (skip : bool) (ms : list (Member (S := S))) : act unit :=
  match ms with
  | [] => mret ()
  | m :: ms =>
      lat ← gets latency_us;
      _ ← (match (if skip then assoc (ref m) lat else None) with
           | Some _ => mret ()
           | None => us ← answer (measure m); modify (set_latency (dict_set (ref m) us lat))
           end);
      measure_each measure skip ms
  end.
Definition measured (measure : Member (S := S) -> res string float) (ms : list (Member (S := S))) : act unit :=
  lat ← gets latency_us; _ ← (match lat with [] => measure_each measure false ms | _ => mret () end); measure_each measure true ms.

Definition exn_name (e : exn) : string :=
  (match e with KeyError => "KeyError" | TypeError => "TypeError" | ValueError => "ValueError" | AttributeError => "AttributeError" | OverflowError => "OverflowError" | IndexError => "IndexError" end)%string.
Definition chosen (l : list (Member (S := S))) (rows : list SiteRow) (current pinned : option string) (lat : list (string * float)) : res string (option Choice) :=
  match choose float_of_string exp log pow stdev l rows current pinned lat with Ok c => Ok c | Err e => Err (exn_name e) end.

(** [_load_league]: [None], or why no model can decide. *)
Definition load_league (a : Answers) (note : list Warning) : act (option why_formula) :=
  match league_now a with
  | Err exc => mret (Some (League_unreadable exc))
  | Ok l =>
      _ ← modify (set_league l);
      match members l with
      | [] =>
          _ ← modify (fun e => match loaded_key e with Some (K_model (-1) _) => set_key None e | _ => e end);
          mret (Some (No_model_can_decide (refused l)))
      | _ =>
          _ ← measured (a_measure a) (members l);
          current ← answer (a_decision a); pinned ← answer (a_pin a); lat ← gets latency_us;
          choice ← answer (chosen (members l) [] current pinned lat);
          match choice ≫= (fun c => by_ref (members l) (champion c)) with
          | None => raise "AssertionError"
          | Some m =>
              _ ← modify (set_challengers (List.filter (fun m' => negb (bool_decide (ref m' = ref m))) (members l)));
              key ← gets loaded_key;
              if bool_decide (key = Some (K_model (-1) (sha m))) then mret None
              else
                _ ← modify (set_key (Some (K_model (-1) (sha m))));
                _ ← modify (set_champion m);
                _ ← modify (activate (The_champion m) None None (ref m) (map (fun e => Member_refused e.1 e.2) (refused l) ++ note));
                mret None
          end
      end
  end.

Definition load_model_version (id : Z) : act unit :=
  let row := versions id in
  key ← gets loaded_key;
  if bool_decide (key = Some (K_model id (mv_hash row))) then mret ()
  else
    _ ← modify (set_key (Some (K_model id (mv_hash row))));
    match scorer_for exp loads gam_loads sha256 (mv_kind row) (mv_contract row) (mv_document row) with
    | Err f => use_default_scorer (Version_rejected id f)
    | Ok s => modify (activate (The_version id s) None (Some id) ("site:" +:+ pretty id) [])
    end.

(** The formula as configured. *)
Definition load_formula (config : option Z) (refused : option why_formula) : act unit :=
  let fallback := match refused with None => [] | Some why => [Formula_runs why] end in
  let key := (fun id => K_config id (cf_hash (configs id)) refused) <$> config in
  loaded ← gets loaded_key;
  if bool_decide (key = loaded) then mret ()
  else
    _ ← modify (set_key key);
    match config with
    | None => modify (activate The_default None None "additive:default" fallback)
    | Some id =>
        match config_problem_of (configs id) with
        | Some p => use_default_scorer (Config_rejected p)
        | None => modify (activate (The_config id (configs id)) (Some id) None ("additive:" +:+ pretty id) fallback)
        end
    end.

(** The three reads of the setting and the pointer: the mode, the configuration, the model. *)
Definition reads_of (a : Answers) : res string (string * option Z * option Z) :=
  mode ← a_mode a; config ← a_config a; version ← (match config with Some _ => Ok None | None => a_version a end); Ok (mode, config, version).
Definition league_decides (mode : string) (version : option Z) : bool :=
  bool_decide (mode = "shipped"%string) || bool_decide (mode = "site"%string) && match version with None => true | Some _ => false end.
Definition load_scorer_config (a : Answers) : act unit :=
  match reads_of a with
  | Err exc => _ ← modify (set_key None); use_default_scorer (Unreadable_configuration exc)
  | Ok (mode, config, version) =>
      if league_decides mode version then
        refused ← load_league a (if bool_decide (mode = "shipped"%string) then [] else [League_decides]);
        match refused with None => mret () | Some _ => load_formula config refused end
      else match version with
      | Some id => load_model_version id
      | None => load_formula config None
      end
  end.

(** ** The judge's step *)

(** What [judge_step] answers, the view it keeps and the row it records. *)
Record Judged := MkJudged { j_answer : option Choice; j_view : option Choice; j_recorded : option DecisionRow }.
Definition nothing_judged : Judged := MkJudged None None None.
(** [commits]: the transaction that records the decision succeeds. *)
Definition judge_step (e : Engine) (rows : list SiteRow) (decisions : list DecisionRow) (pinned : option string) (now : float) (commits : bool) : res string Judged :=
  match league_members e with
  | None => Ok nothing_judged
  | Some l =>
      let latest := last decisions in
      choice ← chosen (members l) rows (d_champion <$> latest) pinned (latency_us e);
      match choice with
      | None => Ok nothing_judged
      | Some c =>
          let is_pinned := match pinned with Some _ => true | None => false end in
          let unchanged := match latest with Some d => bool_decide (d_champion d = champion c) && Bool.eqb (d_pinned d) is_pinned | None => false end in
          if unchanged then Ok (MkJudged (Some c) (Some c) None)
          else if commits then Ok (MkJudged (Some c) (Some c) (Some (MkDecision now (champion c) (d_champion <$> latest) "judge" (why c) is_pinned)))
          else Ok (MkJudged None (Some c) None)
      end
  end.
Definition after_judging (j : Judged) (decisions : list DecisionRow) : list DecisionRow := decisions ++ match j_recorded j with Some d => [d] | None => [] end.

(** [POST /api/decider] *)
Inductive decider_error := Mode_retired | Not_a_member.
Definition set_decider (mode : string) (pin : option string) (actor : string) (now : float) (reason : string) (e : Engine) (settings : list Setting) : res decider_error (list Setting) :=
  if negb (bool_decide (mode = "shipped"%string)) then Err Mode_retired
  else
    let known := match pin with None => true | Some r => match league_members e ≫= (fun l => by_ref (members l) r) with Some _ => true | None => false end end in
    ensure known Not_a_member (Ok (set_decider_pin pin actor now reason settings)).

(** ** What holds of the engine *)

(** What scores, the ids, the name and the warnings it has, the champion and the shadow: untouched. *)
Definition same_core (e e' : Engine) : Prop :=
  running e' = running e ∧ degraded e' = degraded e ∧ loaded_key e' = loaded_key e ∧ config_id e' = config_id e ∧ model_version_id e' = model_version_id e
  ∧ decider_ref e' = decider_ref e ∧ warnings e' = warnings e ∧ champion_ e' = champion_ e ∧ shadow_of e' = shadow_of e.
Lemma same_core_refl e : same_core e e.
Proof. done. Qed.
Lemma same_core_trans e1 e2 e3 : same_core e1 e2 -> same_core e2 e3 -> same_core e1 e3.
Proof. unfold same_core. intuition congruence. Qed.

Lemma measure_each_core measure skip ms e : same_core e (measure_each measure skip ms e).2 ∧ league_members (measure_each measure skip ms e).2 = league_members e.
Proof.
  revert e. induction ms as [|m ms IH]; intros e; [done|]. cbn [measure_each]. run. destruct (if skip then assoc (ref m) (latency_us e) else None).
  - apply IH.
  - destruct (measure m) as [us|exc]; [|done]. destruct (IH (set_latency (dict_set (ref m) us (latency_us e)) e)) as [C L].
    split; [|by rewrite L]. eapply same_core_trans; [|exact C]. done.
Qed.
Lemma measured_core measure ms e : same_core e (measured measure ms e).2 ∧ league_members (measured measure ms e).2 = league_members e.
Proof.
  unfold measured. run. destruct (latency_us e); [|apply measure_each_core].
  destruct (measure_each_core measure false ms e) as [C L]. destruct (measure_each measure false ms e) as [[[]|exc] e1]; cbn [snd] in *; [|done].
  destruct (measure_each_core measure true ms e1) as [C' L']. split; [by eapply same_core_trans|congruence].
Qed.

(** A new champion is in effect. *)
Definition crowned (m : Member) (e' : Engine) : Prop :=
  running e' = The_champion m ∧ degraded e' = false ∧ loaded_key e' = Some (K_model (-1) (sha m)) ∧ config_id e' = None ∧ model_version_id e' = None ∧ decider_ref e' = ref m
  ∧ champion_ e' = Some m ∧ shadow_of e' = Some (ref m).
Definition forgotten (e : Engine) : Engine := match loaded_key e with Some (K_model (-1) _) => set_key None e | _ => e end.
Inductive league_outcome (a : Answers) (e : Engine) : res string (option why_formula) -> Engine -> Prop :=
  | O_unreadable exc : league_now a = Err exc -> league_outcome a e (Ok (Some (League_unreadable exc))) e
  | O_empty l : league_now a = Ok l -> members l = [] -> league_outcome a e (Ok (Some (No_model_can_decide (refused l)))) (forgotten (set_league l e))
  | O_raised l exc e' : league_now a = Ok l -> members l ≠ [] -> same_core e e' -> league_outcome a e (Err exc) e'
  | O_chosen l c m current pinned e' : league_now a = Ok l -> members l ≠ [] -> a_decision a = Ok current -> a_pin a = Ok pinned ->
      chosen (members l) [] current pinned (latency_us e') = Ok (Some c) -> by_ref (members l) (champion c) = Some m -> league_members e' = Some l ->
      (loaded_key e = Some (K_model (-1) (sha m)) ∧ same_core e e') ∨ (loaded_key e ≠ Some (K_model (-1) (sha m)) ∧ crowned m e') ->
      league_outcome a e (Ok None) e'.

Lemma load_league_outcome a note e r e' : load_league a note e = (r, e') -> league_outcome a e r e'.
Proof.
  unfold load_league. destruct (league_now a) as [l|exc] eqn:El; [|intros [= <- <-]; by constructor].
  run. destruct (members l) as [|m0 ms] eqn:Em; [intros [= <- <-]; by eapply O_empty|].
  destruct (measured_core (a_measure a) (m0 :: ms) (set_league l e)) as [C L]. destruct (measured (a_measure a) (m0 :: ms) (set_league l e)) as [[[]|exc] e1]; cbn [snd] in *.
  2: { intros [= <- <-]. eapply O_raised; [done|by rewrite Em|exact C]. }
  assert (∀ exc e2, same_core e e2 -> league_outcome a e (Err exc) e2) as Raises by (intros; eapply O_raised; [done|by rewrite Em|done]).
  destruct (a_decision a) as [current|exc] eqn:Ed; [|intros [= <- <-]; by apply Raises].
  destruct (a_pin a) as [pinned|exc] eqn:Ep; [|intros [= <- <-]; by apply Raises]. rewrite <- Em.
  destruct (chosen (members l) [] current pinned (latency_us e1)) as [[c|]|exc] eqn:Ec; cbn [option_bind]; [|intros [= <- <-]; by apply Raises..].
  destruct (by_ref (members l) (champion c)) as [m|] eqn:Er; [|intros [= <- <-]; by apply Raises].
  assert (loaded_key e1 = loaded_key e) as Ek by apply C. change (loaded_key (set_challengers _ e1)) with (loaded_key e1). case_bool_decide as K; intros [= <- <-].
  - eapply O_chosen; [done|by rewrite Em|done|done|exact Ec|done|exact L|]. left. split; [by rewrite <- Ek|exact C].
  - eapply O_chosen; [done|by rewrite Em|done|done|exact Ec|done|exact L|]. right. split; [by rewrite <- Ek|done].
Qed.

(** What is in effect is what the ids and the name say: a configuration that passed its check, a model its own row describes, a champion. *)
Definition named (e : Engine) : Prop :=
  match running e with
  | The_default => config_id e = None ∧ model_version_id e = None ∧ decider_ref e = "additive:default"%string
  | The_config id row => config_id e = Some id ∧ model_version_id e = None ∧ decider_ref e = ("additive:" +:+ pretty id)%string ∧ row = configs id ∧ config_problem_of row = None
  | The_version id s => config_id e = None ∧ model_version_id e = Some id ∧ decider_ref e = ("site:" +:+ pretty id)%string
      ∧ scorer_for exp loads gam_loads sha256 (mv_kind (versions id)) (mv_contract (versions id)) (mv_document (versions id)) = Ok s
  | The_champion m => config_id e = None ∧ model_version_id e = None ∧ decider_ref e = ref m ∧ champion_ e = Some m ∧ shadow_of e = Some (ref m)
  end.
(** What a configuration or a model's row asks for. *)
Definition formula_of (config : option Z) : Running :=
  match config with None => The_default | Some id => match config_problem_of (configs id) with Some _ => The_default | None => The_config id (configs id) end end.
Definition version_of (id : Z) : Running :=
  match scorer_for exp loads gam_loads sha256 (mv_kind (versions id)) (mv_contract (versions id)) (mv_document (versions id)) with Ok s => The_version id s | Err _ => The_default end.
(** The key says what was last put in effect. *)
Definition keyed (e : Engine) : Prop :=
  match loaded_key e with
  | None => match running e with The_default | The_champion _ => True | _ => False end
  | Some (K_config id _ _) => running e = formula_of (Some id)
  | Some (K_model id hash) => if id =? -1 then ∃ m, running e = The_champion m ∧ sha m = hash else running e = version_of id
  end.
Definition invariant (e : Engine) : Prop := named e ∧ keyed e.

(** The ids of [model_version] are counted from 1. *)
Definition ids_ok (a : Answers) : Prop := ∀ id, a_version a = Ok (Some id) -> 0 < id.

Lemma same_core_invariant e e' : same_core e e' -> invariant e -> invariant e'.
Proof. intros (Er & Ed & Ek & Ec & Em & En & Ew & Eh & Es). unfold invariant, named, keyed. by rewrite Er, Ek, Ec, Em, En, Eh, Es. Qed.
Lemma crowned_invariant m e' : crowned m e' -> invariant e'.
Proof. intros (Er & Ed & Ek & Ec & Em & En & Eh & Es). unfold invariant, named, keyed. rewrite Er, Ek, Ec, Em, En, Eh, Es. split; [done|]. by exists m. Qed.
Lemma forgotten_invariant e : invariant e -> invariant (forgotten e).
Proof.
  intros I. unfold forgotten. destruct (loaded_key e) as [[|[| |[| |]] hash]|] eqn:Ek; try exact I. destruct I as [N K]. split; [exact N|]. unfold keyed in K |- *. rewrite Ek in K.
  cbn in K |- *. destruct K as (m & K & _). by rewrite K.
Qed.

Lemma load_formula_ends config why e : (load_formula config why e).1 = Ok ().
Proof. unfold load_formula. run. case_bool_decide; [done|]. destruct config; [|done]. by destruct (config_problem_of _). Qed.
Lemma load_formula_key config why e : loaded_key (load_formula config why e).2 = (fun id => K_config id (cf_hash (configs id)) why) <$> config.
Proof. unfold load_formula. run. case_bool_decide as K; [done|]. unfold use_default_scorer. destruct config as [id|]; [|done]. run. by destruct (config_problem_of (configs id)). Qed.
Lemma load_formula_sticky config why e : loaded_key (load_formula config why e).2 = loaded_key e ->
  running (load_formula config why e).2 = running e ∧ degraded (load_formula config why e).2 = degraded e.
Proof. intros Q. rewrite load_formula_key in Q. unfold load_formula. run. by rewrite bool_decide_true. Qed.
Lemma load_formula_invariant config why e : invariant e -> invariant (load_formula config why e).2.
Proof.
  intros I. unfold load_formula. run. case_bool_decide as K; [done|]. unfold use_default_scorer. destruct config as [id|]; run.
  - destruct (config_problem_of (configs id)) eqn:P; cbn [snd]; (split; [done|]); unfold keyed, formula_of; cbn; by rewrite P.
  - by split.
Qed.
(** The formula as configured is in effect, unless there is no configuration and the last key was forgotten. *)
Lemma load_formula_runs config why e : invariant e -> config ≠ None ∨ loaded_key e ≠ None ∨ running e = The_default -> running (load_formula config why e).2 = formula_of config.
Proof.
  intros [_ I] D. unfold load_formula. run. case_bool_decide as K.
  - cbn [snd]. unfold keyed in I. destruct config as [id|]; cbn in K; rewrite <- K in I; [done|]. destruct D as [D|[D|D]]; [done|by rewrite <- K in D|done].
  - unfold use_default_scorer. destruct config as [id|]; [|done]. run. cbn [formula_of]. by destruct (config_problem_of (configs id)).
Qed.
Lemma load_version_ends id e : (load_model_version id e).1 = Ok ().
Proof. unfold load_model_version. run. case_bool_decide; [done|]. by destruct (scorer_for _ _ _ _ _ _ _). Qed.
Lemma load_version_invariant id e : 0 < id -> invariant e -> invariant (load_model_version id e).2 ∧ running (load_model_version id e).2 = version_of id.
Proof.
  intros P I. unfold load_model_version. run. case_bool_decide as K.
  - split; [done|]. destruct I as [_ I]. unfold keyed in I. rewrite K in I. cbn [snd]. by rewrite (proj2 (Z.eqb_neq id (-1)) ltac:(lia)) in I.
  - unfold use_default_scorer. destruct (scorer_for _ _ _ _ _ _ _) as [sc|f] eqn:E; run; cbn [snd]; (split; [split|]); unfold named, keyed, version_of; cbn; rewrite ?E, ?(proj2 (Z.eqb_neq id (-1)) ltac:(lia)); done.
Qed.

(** ** Any history *)

Inductive step (e : Engine) : Engine -> Prop :=
  | A_pass a : ids_ok a -> step e (load_scorer_config a e).2
  | A_misbehaviour : step e (degrade e).
Notation reachable := (rtc step new_engine).

Lemma reads_version a mode config id : reads_of a = Ok (mode, config, Some id) -> a_version a = Ok (Some id).
Proof.
  unfold reads_of. intros R. apply bind_Ok_inv in R as (md & _ & R). apply bind_Ok_inv in R as (cfg & _ & R). apply bind_Ok_inv in R as (v & Ev & R).
  assert (v = Some id) as -> by congruence. by destruct cfg.
Qed.
Lemma pass_invariant a e : ids_ok a -> invariant e -> invariant (load_scorer_config a e).2.
Proof.
  intros P I. unfold load_scorer_config. destruct (reads_of a) as [[[mode config] version]|exc] eqn:R; [|run; by split].
  destruct (league_decides mode version).
  - run. destruct (load_league a _ e) as [r e0] eqn:E. apply load_league_outcome in E as [exc El|l El Em|l exc e1 El Em C|l c m current pinned e1 El Em Ed Ep Ec Er Es [[K C]|[K C]]].
    + by apply load_formula_invariant.
    + apply load_formula_invariant, forgotten_invariant. exact I.
    + by eapply same_core_invariant.
    + by eapply same_core_invariant.
    + by eapply crowned_invariant.
  - destruct version as [id|]; [|by apply load_formula_invariant]. apply load_version_invariant; [|done]. by eapply P, reads_version.
Qed.
Lemma reachable_invariant e : reachable e -> invariant e.
Proof.
  intros R. refine (rtc_ind_r (fun e => invariant e) new_engine _ _ e R); [by split|]. intros e1 e2 _ [a P|] I; [by apply pass_invariant|exact I].
Qed.

(** Whatever the store, the package and the clock answer, and wherever an exception cuts a pass short, what the engine scores with is what the ids and the name it records
    with a situation say. *)
Theorem what_scores_is_what_is_named e : reachable e -> named e.
Proof. intros R. by apply reachable_invariant. Qed.

(** The formula as configured is in effect, or a champion stays because there is no configuration to load. *)
Definition runs_formula (e : Engine) (config : option Z) (e' : Engine) : Prop :=
  running e' = formula_of config ∨ (config = None ∧ ∃ m, running e = The_champion m ∧ running e' = The_champion m).
Lemma formula_runs config why e : invariant e -> runs_formula e config (load_formula config why e).2.
Proof.
  intros I. unfold runs_formula. destruct config as [id|]; [left; apply load_formula_runs; [done|by left]|].
  destruct (loaded_key e) as [k|] eqn:K; [left; apply load_formula_runs; [done|right; left; by rewrite K]|].
  pose proof I as [_ Kd]. unfold keyed in Kd. rewrite K in Kd. destruct (running e) as [| | |m] eqn:Er; try done.
  - left. apply load_formula_runs; [done|by right; right].
  - right. split; [done|]. exists m. split; [done|]. unfold load_formula. run. cbn. by rewrite K.
Qed.

(** A pass that ends puts in effect what the tables say: the built-in formula when they cannot be read; the champion the judge chooses when the league decides and has a member; the model
    the pointer names; the formula as configured in every other case, but for a champion that stays when there is no configuration. *)
Theorem a_pass_runs_what_the_tables_say a e : reachable e -> ids_ok a -> (load_scorer_config a e).1 = Ok () ->
  let e' := (load_scorer_config a e).2 in
  match reads_of a with
  | Err exc => running e' = The_default ∧ warnings e' = [Unreadable_configuration exc]
  | Ok (mode, config, version) =>
      if league_decides mode version then
        match league_now a with
        | Ok l => if bool_decide (length (members l) = 0%nat) then runs_formula e config e'
                  else ∃ c m m' current pinned, a_decision a = Ok current ∧ a_pin a = Ok pinned ∧ chosen (members l) [] current pinned (latency_us e') = Ok (Some c)
                    ∧ by_ref (members l) (champion c) = Some m ∧ running e' = The_champion m' ∧ sha m' = sha m
        | Err _ => runs_formula e config e'
        end
      else match version with Some id => running e' = version_of id | None => runs_formula e config e' end
  end.
Proof.
  intros I%reachable_invariant P E. cbv zeta. unfold load_scorer_config in *. destruct (reads_of a) as [[[mode config] version]|exc] eqn:R; [|run; done].
  destruct (league_decides mode version).
  - run. revert E. destruct (load_league a _ e) as [r e0] eqn:Eo. apply load_league_outcome in Eo as [exc El|l El Em|l exc e1 El Em C|l c m current pinned e1 El Em Ed Ep Ec Er Es C]; intros E.
    + rewrite El. by apply formula_runs.
    + rewrite El, Em. cbn [length]. rewrite bool_decide_true by done. destruct (formula_runs config (Some (No_model_can_decide (refused l))) (forgotten (set_league l e))) as [F|(-> & m & F1 & F2)];
        [by apply forgotten_invariant|by left|]. right. split; [done|]. exists m. split; [|done]. revert F1. unfold forgotten. by repeat case_match.
    + discriminate E.
    + rewrite El, bool_decide_false by (by intros ?%nil_length_inv). cbn [snd]. exists c, m. destruct C as [[K C]|[K C]].
      * destruct I as [_ I]. unfold keyed in I. rewrite K in I. cbn in I. destruct I as (m' & Em' & Sm). exists m', current, pinned. split_and!; try done. by destruct C as [-> _].
      * exists m, current, pinned. split_and!; try done. by destruct C as [-> _].
  - destruct version as [id|]; [|by apply formula_runs]. apply load_version_invariant; [|done]. by eapply P, reads_version.
Qed.

(** A reload that finds what it loaded last leaves the scorer, and its degradation, alone. *)
Theorem a_degradation_is_sticky a e : loaded_key e ≠ None -> loaded_key (load_scorer_config a e).2 = loaded_key e ->
  running (load_scorer_config a e).2 = running e ∧ degraded (load_scorer_config a e).2 = degraded e.
Proof.
  intros N. unfold load_scorer_config. destruct (reads_of a) as [[[mode config] version]|exc]; [|run; cbn; congruence]. destruct (league_decides mode version).
  - run. destruct (load_league a _ e) as [r e0] eqn:Eo. apply load_league_outcome in Eo as [exc El|l El Em|l exc e1 El Em C|l c m current pinned e1 El Em Ed Ep Ec Er Es [[K C]|[K C]]]; intros Q.
    + by apply load_formula_sticky.
    + assert (loaded_key (forgotten (set_league l e)) = loaded_key (set_league l e) ∨ ∃ h, loaded_key e = Some (K_model (-1) h)) as [X|[h X]] by (unfold forgotten; cbn; repeat case_match; eauto).
      * change (loaded_key e) with (loaded_key (set_league l e)) in Q. rewrite <- X in Q. apply load_formula_sticky in Q as [-> ->]. unfold forgotten. by repeat case_match.
      * rewrite load_formula_key, X in Q. by destruct config.
    + cbn. by destruct C as (-> & -> & _).
    + cbn. by destruct C as (-> & -> & _).
    + cbn in Q. destruct C as (_ & _ & C & _). congruence.
  - destruct version as [id|]; [|by apply load_formula_sticky]. unfold load_model_version. run. case_bool_decide as K; [done|]. unfold use_default_scorer. run.
    destruct (scorer_for _ _ _ _ _ _ _); cbn; congruence.
Qed.

(** ** The two loops *)

Lemma measure_each_known measure ms e : (∀ m, m ∈ ms -> is_Some (assoc (ref m) (latency_us e))) -> measure_each measure true ms e = (Ok (), e).
Proof.
  induction ms as [|m ms IH]; intros K; [done|]. cbn [measure_each]. run. destruct (K m ltac:(by left)) as [us ->]. apply IH. intros m' Hm. apply K. by right.
Qed.
Lemma measured_known measure ms e : latency_us e ≠ [] -> (∀ m, m ∈ ms -> is_Some (assoc (ref m) (latency_us e))) -> measured measure ms e = (Ok (), e).
Proof. intros Ne K. unfold measured. run. destruct (latency_us e) eqn:E; [done|]. apply measure_each_known. by rewrite E. Qed.
Lemma judged_last e rows decisions pinned now j c : judge_step e rows decisions pinned now true = Ok j -> j_answer j = Some c ->
  (∃ l, league_members e = Some l ∧ chosen (members l) rows (d_champion <$> last decisions) pinned (latency_us e) = Ok (Some c))
  ∧ d_champion <$> last (after_judging j decisions) = Some (champion c).
Proof.
  unfold judge_step. destruct (league_members e) as [l|]; [|by intros [= <-]]. intros E Ej. apply bind_Ok_inv in E as (choice & Ec & E).
  destruct choice as [c'|]; [|by injection E as <-]. unfold after_judging.
  destruct (match last decisions with Some d => _ | None => false end) eqn:U; injection E as <-; injection Ej as ->; cbn [j_recorded]; (split; [by eexists|]).
  - rewrite app_nil_r. destruct (last decisions) as [d|]; [|done]. apply andb_true_iff in U as [U%bool_decide_eq_true _]. cbn. by rewrite U.
  - by rewrite last_snoc.
Qed.

(** C21: The fast loop runs the slow loop's decision: when the judge has answered and its transaction
    committed, the next pass over the same league, pin and measurements, in mode "shipped", ends without an
    error and leaves as the running scorer the member the judge named, or one of the same document, although
    it sees none of the labels the judge saw. If that document was not what was loaded, the scorer is put
    in place afresh and is the one that scores. If it was, the pass leaves it as it is, its degradation
    included: a champion that [SafeScorer] has replaced for misbehaving stays replaced, and it is the
    built-in formula that scores until another document is loaded. *)
Theorem the_fast_loop_runs_the_judges_decision e rows decisions pinned now j c l a config version : reachable e ->
  judge_step e rows decisions pinned now true = Ok j -> j_answer j = Some c -> league_members e = Some l ->
  reads_of a = Ok ("shipped"%string, config, version) -> league_now a = Ok l -> a_pin a = Ok pinned -> a_decision a = Ok (d_champion <$> last (after_judging j decisions)) ->
  latency_us e ≠ [] -> (∀ m, m ∈ members l -> is_Some (assoc (ref m) (latency_us e))) ->
  let e' := (load_scorer_config a e).2 in
  (load_scorer_config a e).1 = Ok () ∧
  ∃ m m', by_ref (members l) (champion c) = Some m ∧ running e' = The_champion m' ∧ sha m' = sha m
    ∧ degraded e' = (if bool_decide (loaded_key e = Some (K_model (-1) (sha m))) then degraded e else false).
Proof.
  intros [_ I]%reachable_invariant J Ej El R Ln Ep Ed Ne K. destruct (judged_last _ _ _ _ _ _ _ J Ej) as [(l' & El' & Ec) Dl]. rewrite El in El'. injection El' as <-.
  unfold chosen in Ec. destruct (choose _ _ _ _ _ _ rows _ _ _) as [oc|] eqn:Eo; [|done]. injection Ec as ->. destruct (the_choice_settles _ _ _ _ _ _ _ _ _ _ _ Eo) as (c' & Es & Ecc).
  destruct (choose_member _ _ _ _ _ _ _ _ _ _ _ Eo) as (m1 & Hm1 & Em1). destruct (by_ref_found _ _ Hm1) as (m & Er & _). rewrite <- Em1 in Er.
  cbv zeta. unfold load_scorer_config. rewrite R. cbn [league_decides]. change (league_decides "shipped" version) with true. cbv iota. unfold load_league. rewrite Ln. run.
  destruct (members l) as [|m0 ms] eqn:Em; [by apply elem_of_nil in Hm1|]. rewrite measured_known; [|exact Ne|exact K]. rewrite Ed, Ep, Dl. cbv beta iota.
  change (latency_us (set_league l e)) with (latency_us e). unfold chosen. rewrite Es. cbv beta iota. cbn [option_bind]. unfold mbind, option_bind. rewrite Ecc, Er. cbv beta iota.
  change (loaded_key (set_challengers _ (set_league l e))) with (loaded_key e). case_bool_decide as Kc; (split; [done|]); exists m.
  - unfold keyed in I. rewrite Kc in I. cbn in I. destruct I as (m' & Em' & Sm). exists m'. rewrite (bool_decide_true _ Kc). done.
  - exists m. rewrite (bool_decide_false _ Kc). done.
Qed.
End lifecycle.

(** ** Witnesses *)

#[local] Existing Instance w_kinds.
Definition w_config (_ : Z) : ConfigRow := MkConfigRow "additive" "1.0" W_T W_A W_E TAU_S LINK_THRESHOLD "c0ffee".
Definition w_version (_ : Z) : ModelVersion := MkVersion KIND_LOGISTIC "1.0" "" "beef" None "cli" f_zero "".
Definition w_answers (mode : string) (config version : option Z) (packaged : League (S := Z)) (decision : res string (option string)) : Answers (S := Z) :=
  MkAnswers (Ok mode) (Ok config) (Ok version) (Ok packaged) (Ok None) (fun _ => Ok f_one) decision (Ok None).
Definition w_pass (a : Answers (S := Z)) (e : Engine (S := Z)) : res string unit * Engine (S := Z) :=
  load_scorer_config id w_document (fun _ => P_invalid) w_float League.w_exp w_log w_pow w_stdev w_config w_version a e.
Notation w_reachable := (rtc (step id w_document (fun _ => P_invalid) w_float League.w_exp w_log w_pow w_stdev w_config w_version) new_engine).
Definition w_packaged : League (S := Z) := MkLeague w_league [].
Definition w_start : Answers (S := Z) := w_answers "shipped" (Some 1) None w_packaged (Ok None).
Definition w_started : Engine (S := Z) := (w_pass w_start new_engine).2.

Lemma what_scores_is_what_is_named_witness : named id w_document (fun _ => P_invalid) League.w_exp w_config w_version w_started ∧ decider_ref w_started = "gam:gam"%string.
Proof.
  split; [|vm_compute; reflexivity]. apply (what_scores_is_what_is_named id w_document (fun _ => P_invalid) w_float League.w_exp w_log w_pow w_stdev w_config w_version).
  apply rtc_once, A_pass. intros i [=].
Defined.
Definition w_version_pass : Answers (S := Z) := w_answers "additive" None (Some 3) w_packaged (Ok None).
Lemma w_started_reachable : w_reachable w_started.
Proof. apply rtc_once, A_pass. intros i [=]. Qed.
Lemma a_pass_runs_what_the_tables_say_witness :
  running (w_pass w_version_pass w_started).2 = version_of id w_document (fun _ => P_invalid) League.w_exp w_version 3.
Proof.
  assert (ids_ok w_version_pass) as I by (intros i [= <-]; reflexivity).
  assert ((w_pass w_version_pass w_started).1 = Ok ()) as E by (vm_compute; reflexivity).
  pose proof (a_pass_runs_what_the_tables_say id w_document (fun _ => P_invalid) w_float League.w_exp w_log w_pow w_stdev w_config w_version w_version_pass w_started w_started_reachable I E) as X.
  exact X.
Defined.
Lemma a_degradation_is_sticky_witness : running (w_pass w_start (degrade w_started)).2 = running (degrade w_started) ∧ degraded (w_pass w_start (degrade w_started)).2 = true.
Proof.
  assert (loaded_key (degrade w_started) ≠ None) as N by (vm_compute; discriminate).
  assert (loaded_key (w_pass w_start (degrade w_started)).2 = loaded_key (degrade w_started)) as K by (vm_compute; reflexivity).
  exact (a_degradation_is_sticky id w_document (fun _ => P_invalid) w_float League.w_exp w_log w_pow w_stdev w_config w_version w_start (degrade w_started) N K).
Defined.
(** The labels of [w_rows] move the champion; the next pass runs it. *)
Definition w_judged : res string Judged := judge_step w_float League.w_exp w_log w_pow w_stdev w_started w_rows [MkDecision f_zero w_gam None "judge" Kept false] None f_one true.
Lemma the_fast_loop_runs_the_judges_decision_witness :
  ∃ c m m' a, match w_judged with Ok j => j_answer j = Some c ∧ a_decision a = Ok (d_champion <$> last (after_judging j [MkDecision f_zero w_gam None "judge" Kept false])) | Err _ => False end
    ∧ champion c = "knn:knn"%string ∧ (w_pass a w_started).1 = Ok () ∧ by_ref w_league (champion c) = Some m ∧ running (w_pass a w_started).2 = The_champion m' ∧ sha m' = sha m.
Proof.
  destruct w_judged as [j|x] eqn:J; [|vm_compute in J; discriminate J]. destruct (j_answer j) as [c|] eqn:Ej.
  2: { exfalso. assert (match w_judged with Ok j => j_answer j | Err _ => None end = None) as X by (by rewrite J). vm_compute in X. discriminate X. }
  assert (champion c = "knn:knn"%string) as Ec.
  { assert ((match w_judged with Ok j => j_answer j ≫= (fun c => Some (champion c)) | Err _ => None end) = Some "knn:knn"%string) as X by (vm_compute; reflexivity).
    rewrite J in X. cbv iota in X. rewrite Ej in X. cbn in X. congruence. }
  pose (a := w_answers "shipped" (Some 1) None w_packaged (Ok (d_champion <$> last (after_judging j [MkDecision f_zero w_gam None "judge" Kept false])))).
  destruct (the_fast_loop_runs_the_judges_decision id w_document (fun _ => P_invalid) w_float League.w_exp w_log w_pow w_stdev w_config w_version
    w_started w_rows [MkDecision f_zero w_gam None "judge" Kept false] None f_one j c w_packaged a (Some 1) None) as (E & m & m' & F1 & F2 & F3 & _).
  - exact w_started_reachable.
  - exact J.
  - exact Ej.
  - vm_compute. reflexivity.
  - reflexivity.
  - reflexivity.
  - reflexivity.
  - reflexivity.
  - vm_compute. discriminate.
  - intros m Hm. apply elem_of_cons in Hm as [->|Hm]; [vm_compute; by eexists|]. apply list_elem_of_singleton in Hm as ->. vm_compute. by eexists.
  - exists c, m, m', a. split; [by split|]. split; [exact Ec|]. split; [exact E|]. exact (conj F1 (conj F2 F3)).
Defined.

(** ** What the passes leave unsaid *)

Definition w_refused : League (S := Z) := MkLeague [] [("gam"%string, Hash_differs)].
(** With no configuration to load, a first pass that finds no model is the same as what was loaded before, nothing: the operator is not told. *)
Example no_model_goes_unsaid : let e := (w_pass (w_answers "shipped" None None w_refused (Ok None)) new_engine).2 in (running e, warnings e) = (The_default, []).
Proof. vm_compute. reflexivity. Qed.
(** The warning that the configuration was unreadable outlives the reads that fail. *)
Definition w_unreadable : Answers (S := Z) := MkAnswers (Err "OperationalError") (Ok None) (Ok None) (Ok w_packaged) (Ok None) (fun _ => Ok f_one) (Ok None) (Ok None).
Example an_old_warning_stays :
  let e := (w_pass w_unreadable new_engine).2 in
  warnings (w_pass (w_answers "additive" None None w_packaged (Ok None)) e).2 = [Unreadable_configuration "OperationalError"].
Proof. vm_compute. reflexivity. Qed.
(** A champion whose league has lost its members goes on scoring when there is no configuration. *)
Example a_champion_without_a_league : let e := (w_pass (w_answers "shipped" None None w_refused (Ok None)) w_started).2 in (decider_ref e, loaded_key e, warnings e) = ("gam:gam"%string, None, []).
Proof. vm_compute. reflexivity. Qed.
(** The load path raises when the decision cannot be read. *)
Example a_pass_raises : (w_pass (w_answers "shipped" (Some 1) None w_packaged (Err "OperationalError")) new_engine).1 = Err "OperationalError"%string.
Proof. vm_compute. reflexivity. Qed.
