(* ===== verification/Decoding.v ===== *)
(** * Records and the decoder ([ingest/records.py], [ingest/decoder.py])

    What the spool holds for a datagram, the JSON form of an event and its check field by field; the decoder
    process's loop over a [TrapReceiver]; and the main process's side of it: a batch, an answer, a
    restart, and the replay of a batch one record at a time. [json.loads], SHA-256 and the platform's
    [inet_pton] and [inet_ntop] are arguments; a message between the processes is its JSON value. *)
From S2P Require Import Intake Prelude PyLib Addresses Json Usm Receiver.

(** ** Raw records *)

(** [struct] format [d]: the bits of a binary64. *)
Definition sign_bit (s : bool) : Z := if s then 2 ^ 63 else 0.
Definition f64_bits (x : float) : Z :=
  match x with
  | S754_zero s => sign_bit s
  | S754_infinity s => sign_bit s + 2047 * 2 ^ 52
  | S754_nan => 2047 * 2 ^ 52 + 2 ^ 51
  | S754_finite s m e => sign_bit s + (if Z.pos m <? 2 ^ 52 then Z.pos m else (e + 1075) * 2 ^ 52 + (Z.pos m - 2 ^ 52))
  end.
Definition f64_of_bits (z : Z) : float :=
  let s := 2 ^ 63 <=? z in
  let ex := z / 2 ^ 52 mod 2 ^ 11 in
  let fr := z mod 2 ^ 52 in
  if ex =? 2047 then if fr =? 0 then S754_infinity s else S754_nan
  else if ex =? 0 then match fr with Zpos m => S754_finite s m (-1074) | _ => S754_zero s end
  else S754_finite s (Z.to_pos (fr + 2 ^ 52)) (ex - 1075).

(** The size of [<dBH]. *)
Definition RAW_SIZE : nat := 11.
(** [b"R"]. *)
Definition R : byte := Byte.x52.
Definition MAX_PORT : Z := 65535.

Section platform.
(** The address of a text by its family (version 6 or not), and the text of an address by its length. *)
Context (inet_pton : bool -> string -> option bytes) (inet_ntop : bytes -> string).

(** [None] is [OSError] or [struct.error]. *)
Definition raw (source : string) (port : Z) (ts : float) (datagram : bytes) : option bytes :=
  address ← inet_pton (has_char ":" source) source;
  if (0 <=? port) && (port <=? MAX_PORT) then
    Some ([R] ++ le_bytes 8 (f64_bits ts) ++ le_bytes 1 (blen address) ++ le_bytes 2 port ++ address ++ datagram)
  else None.

Definition is_raw (payload : bytes) : bool := bool_decide (payload !! 0%nat = Some R).

Definition unraw (payload : bytes) : res string (string * Z * float * bytes) :=
  ensure (is_raw payload && Nat.leb (1 + RAW_SIZE) (length payload)) "not a raw record"
  (let ts := f64_of_bits (le_value (slice payload 1 9)) in
   let len := le_value (slice payload 9 10) in
   let port := le_value (slice payload 10 12) in
   ensure (((len =? 4) || (len =? 16)) && (12 + len <=? blen payload) && f_finite ts) "a raw record with no valid address or time"
   (Ok (inet_ntop (slice payload 12 (12 + len)), port, ts, drop (Z.to_nat (12 + len)) payload))).
End platform.

(** ** Events as JSON *)

Definition varbind_json (vb : Varbind) : json := JList [JStr (vb_oid vb); JStr (vb_kind vb); JStr (vb_value vb)].

Definition as_list (item : QueueItem) : json :=
  JList match item with
        | TrapItem t => [JStr "t"; JStr (t_device t); JStr (t_oid t); JStr (t_instance t); JFloat (t_stamp t); JStr (t_tag t); JList (map varbind_json (t_varbinds t))]
        | QuarantineItem q => [JStr "q"; JStr (q_source q); JStr (b64encode (q_raw q)); JStr (q_reason q); JFloat (q_stamp q); JStr (q_sha256 q);
                               JInt (q_length q); JStr (q_first8 q); JBool (q_sanitized q)]
        end.

(** What a check raises. *)
Inductive exn := ValueError (why : string) | OverflowError | StructError.

Definition string_ (v : json) : res exn string := match v with JStr s => Ok s | _ => Err (ValueError "expected a string") end.
(** [math.isfinite] of an integer no float holds is an [OverflowError]. *)
Definition number (v : json) : res exn float :=
  match v with
  | JInt z => ensure (f_finite (f_of_Z z)) OverflowError (Ok (f_of_Z z))
  | JFloat f => ensure (f_finite f) (ValueError "expected a finite number") (Ok f)
  | _ => Err (ValueError "expected a number")
  end.
Definition whole (v : json) : res exn Z := match v with JInt z => Ok z | _ => Err (ValueError "expected a whole number") end.

(** [base64.b64decode(_, validate=True)]: no character outside the alphabet, padding only at the end. *)
Fixpoint b64_strict (l : list ascii) (quad left pads : Z) : option bytes :=
  match l with
  | [] => if quad =? 0 then Some [] else None
  | a :: l =>
      if Ascii.eqb a "=" then
        if (2 <=? quad) && (4 <=? quad + (pads + 1)) then match l with [] => Some [] | _ => None end
        else b64_strict l quad left (if 2 <=? quad then pads + 1 else 1)
      else match b64_value a with
      | None => None
      | Some v =>
          if 0 <? pads then None
          else if quad =? 0 then b64_strict l 1 v 0
          else if quad =? 1 then rest ← b64_strict l 2 (v mod 16) 0; Some (z2b (left * 4 + v / 16) :: rest)
          else if quad =? 2 then rest ← b64_strict l 3 (v mod 4) 0; Some (z2b (left * 16 + v / 4) :: rest)
          else rest ← b64_strict l 0 0 0; Some (z2b (left * 64 + v) :: rest)
      end
  end.
Definition b64decode_strict (s : string) : res exn bytes :=
  let l := chars s in
  match (if bool_decide (l !! 0%nat = Some "="%char) then None else b64_strict l 0 0 0) with
  | Some bs => Ok bs
  | None => Err (ValueError "base64")
  end.

Definition varbind_from (v : json) : res exn Varbind :=
  match v with
  | JList [a; b; c] => oid ← string_ a; kind ← string_ b; value ← string_ c; Ok (MkVarbind oid kind value)
  | _ => Err (ValueError "a varbind is not [oid, kind, value]")
  end.

Definition decode_event (v : json) : res exn QueueItem :=
  match v with
  | JList ((tag :: _) as l) =>
      match tag, l with
      | JStr "t", [_; a; b; c; d; e; vbs] =>
          match vbs with
          | JList vbs =>
              built ← foldr (fun v acc => vb ← varbind_from v; rest ← acc; Ok (vb :: rest)) (Ok []) vbs;
              device ← string_ a; oid ← string_ b; inst ← string_ c; ts ← number d; community ← string_ e;
              Ok (TrapItem (MkTrapEvent device oid inst ts built community))
          | _ => Err (ValueError "varbinds are not a list")
          end
      | JStr "q", [_; a; b; c; d; e; f; g; s] =>
          match s with
          | JBool sanitized =>
              source ← string_ a; text ← string_ b; bs ← b64decode_strict text; reason ← string_ c; ts ← number d; sha ← string_ e;
              len ← whole f; first8 ← string_ g;
              Ok (QuarantineItem (MkQuarantined source bs reason ts sha len first8 sanitized))
          | _ => Err (ValueError "sanitized is not a boolean")
          end
      | _, _ => Err (ValueError "unknown event kind")
      end
  | _ => Err (ValueError "not an event")
  end.

Section decoder.
Context (inet_pton : bool -> string -> option bytes) (inet_ntop : bytes -> string) (sha256 : bytes -> string)
        (loads : bytes -> option json).

(** [ValueError] and [RecursionError] of [json.loads] are one answer. *)
Definition load (payload : bytes) : res exn QueueItem :=
  match loads payload with Some v => decode_event v | None => Err (ValueError "not JSON") end.

(** The quarantine of a record by its metadata. *)
Definition unreadable (payload : bytes) (reason : string) : res string QueueItem :=
  '(source, _, ts, datagram) ← unraw inet_ntop payload;
  Ok (QuarantineItem (MkQuarantined source [] reason ts (sha256 datagram) (blen datagram) (hex_of (take 8 datagram)) false)).

(** ** Between the two processes *)

(** [_frames], past its [b"D"]; [struct.pack("<I")] of a length out of range raises. *)
Definition frame_of (p : bytes) : option bytes := if blen p <? 2 ^ 32 then Some (le_bytes 4 (blen p) ++ p) else None.
Fixpoint frames (payloads : list bytes) : option bytes :=
  match payloads with [] => Some [] | p :: ps => f ← frame_of p; rest ← frames ps; Some (f ++ rest) end.
(** A slice past the end is short, a length past the end raises. *)
Fixpoint unframe (fuel : nat) (blob : bytes) : option (list bytes) :=
  match blob with
  | [] => Some []
  | _ =>
      match fuel with
      | O => None
      | S fuel =>
          if Nat.ltb (length blob) 4 then None
          else let n := Z.to_nat (le_value (take 4 blob)) in
               rest ← unframe fuel (drop (4 + n) blob); Some (take n (drop 4 blob) :: rest)
      end
  end.

(** *** The decoder process *)

Section process.
(** [datagram_received] of the receiver, whose queue is a list without a bound. *)
Context (receive : bytes -> string -> float -> TrapReceiver -> option TrapReceiver).

(** [sink.pop()]. *)
Definition pop (r : TrapReceiver) : option (QueueItem * TrapReceiver) :=
  match reverse (queue r) with
  | i :: q => Some (i, MkReceiver (reverse q) (queue_size r) (networks r) (community_key r) (accepts r) (usm r) (stats r) (reasons r))
  | [] => None
  end.

(** [_decode_batch]. *)
Fixpoint decode_batch (payloads : list bytes) (r : TrapReceiver) : option (list json * TrapReceiver) :=
  match payloads with
  | [] => Some ([], r)
  | p :: ps =>
      '(entry, r) ← match unraw inet_ntop p with
                    | Err why => Some (JStr why, r)
                    | Ok (source, _, ts, datagram) =>
                        r ← receive datagram source ts r;
                        Some match pop r with Some (i, r) => (as_list i, r) | None => (JNull, r) end
                    end;
      '(rest, r) ← decode_batch ps r;
      Some (entry :: rest, r)
  end.

(** One batch, framed, and what the process answers; [None] is its end. *)
Definition serve (blob : bytes) (r : TrapReceiver) : option (json * TrapReceiver) :=
  payloads ← unframe (length blob) blob;
  '(decoded, r) ← decode_batch payloads r;
  Some (JList [JStr "e"; JList decoded;
               JObj [("accepted", JInt (accepted (stats r))); ("quarantined", JInt (quarantined (stats r)))];
               JObj (map (fun e => (e.1, JInt e.2)) (reasons r))], r).

(** [b"P"]: what [from_document] answers, and whether it has problems. *)
Definition repolicy (policy : SnmpPolicy) (problems : bool) (r : TrapReceiver) : TrapReceiver :=
  if problems then r
  else MkReceiver (queue r) (queue_size r) (networks r) (community_key r) policy (usm r) (stats r) (reasons r).
End process.

(** *** The main process *)

Section main.
(** The process from outside: its state, the one it starts in, and its answer to a message, [None] when it
    died, hung or said no JSON. *)
Context {P : Type} (boot : P) (ask : P -> bytes -> option json * P).

Abbreviation Counted := (Z * Z * list (string * Z))%type.
Record Decoder := MkDecoder {
  proc : option P; d_accepted : Z; d_quarantined : Z; d_reasons : list (string * Z); counted : Counted; restarts : Z; d_unreadable : Z }.
(** Before [start]. *)
Definition new_decoder : Decoder := MkDecoder None 0 0 [] (0, 0, []) 0 0.
Definition start_ (d : Decoder) : Decoder :=
  MkDecoder (Some boot) (d_accepted d) (d_quarantined d) (d_reasons d) (0, 0, []) (restarts d) (d_unreadable d).
Definition close (d : Decoder) : Decoder :=
  MkDecoder None (d_accepted d) (d_quarantined d) (d_reasons d) (counted d) (restarts d) (d_unreadable d).

Definition add_reasons (more : list (string * Z)) (reasons : list (string * Z)) : list (string * Z) :=
  foldl (fun acc e => dict_set e.1 (default 0 (assoc e.1 acc) + e.2) acc) reasons more.

Definition restart (d : Decoder) : Decoder :=
  let '(accepted, quarantined, reasons) := counted d in
  start_ (MkDecoder None (d_accepted d + accepted) (d_quarantined d + quarantined) (add_reasons reasons (d_reasons d)) (counted d) (restarts d + 1) (d_unreadable d)).

(** [counts]. *)
Definition counts (d : Decoder) : Z * Z * list (string * Z) :=
  let '(accepted, quarantined, reasons) := counted d in
  (d_accepted d + accepted, d_quarantined d + quarantined, add_reasons reasons (d_reasons d)).

(** [local]. *)
Fixpoint local (payloads : list bytes) : res exn (list (Decoded QueueItem)) :=
  match payloads with
  | [] => Ok []
  | p :: ps =>
      match load p with
      | Ok i => rest ← local ps; Ok (Event i :: rest)
      | Err (ValueError why) => rest ← local ps; Ok (Invalid ("not a valid event: " +:+ why) :: rest)
      | Err e => Err e
      end
  end.

(** The counters of an answer. *)
Definition counted_of (counters reasons : json) : option Counted :=
  match counters, reasons with
  | JObj c, JObj r =>
      a ← assoc "accepted" c;
      q ← assoc "quarantined" c;
      match whole a, whole q, foldr (fun e acc => n ← whole e.2; rest ← acc; Ok ((e.1, n) :: rest)) (Ok []) r with
      | Ok a, Ok q, Ok r => Some (a, q, r)
      | _, _, _ => None
      end
  | _, _ => None
  end.

Fixpoint entries (decoded : list json) : res exn (list (Decoded QueueItem)) :=
  match decoded with
  | [] => Ok []
  | JNull :: l => rest ← entries l; Ok (Nothing :: rest)
  | JStr why :: l => rest ← entries l; Ok (Invalid (PyLib.clip 200 ("not a raw record: " +:+ why)) :: rest)
  | v :: l =>
      match decode_event v with
      | Ok i => rest ← entries l; Ok (Event i :: rest)
      | Err (ValueError why) => rest ← entries l; Ok (Invalid ("the decoder returned an invalid event: " +:+ why) :: rest)
      | Err e => Err e
      end
  end.

(** An answer: the entries and the two counters' objects. *)
Definition answer (message : option json) : option (list json * json * json) :=
  match message with
  | Some (JList [JStr e; JList decoded; counters; reasons]) => if String.eqb e "e" then Some (decoded, counters, reasons) else None
  | _ => None
  end.

(** [_roundtrip]: [None] is a [DecoderError]. *)
Definition roundtrip (payloads : list bytes) (d : Decoder) : option (res exn (list (Decoded QueueItem))) * Decoder :=
  match proc d with
  | None => (None, d)
  | Some p =>
      match frames payloads with
      | None => (Some (Err StructError), d)
      | Some blob =>
      let '(message, p) := ask p blob in
      let d' := MkDecoder (Some p) (d_accepted d) (d_quarantined d) (d_reasons d) (counted d) (restarts d) (d_unreadable d) in
      match answer message with
      | Some (decoded, counters, reasons) =>
          if negb (Nat.eqb (length decoded) (length payloads)) then (None, d')
          else match counted_of counters reasons with
          | None => (None, d')
          | Some c =>
              (Some (entries decoded), MkDecoder (Some p) (d_accepted d) (d_quarantined d) (d_reasons d) c (restarts d) (d_unreadable d))
          end
      | None => (None, d')
      end
      end
  end.

Definition count_unreadable (d : Decoder) : Decoder :=
  MkDecoder (proc d) (d_accepted d) (d_quarantined d) (d_reasons d) (counted d) (restarts d) (d_unreadable d + 1).

(** One record after the other, to find the one the process cannot get through. *)
Fixpoint each (one : bytes -> Decoder -> option (res exn (list (Decoded QueueItem)) * Decoder)) (ps : list bytes) (d : Decoder)
  : option (res exn (list (Decoded QueueItem)) * Decoder) :=
  match ps with
  | [] => Some (Ok [], d)
  | p :: ps =>
      '(r, d) ← one p d;
      match r with
      | Err e => Some (Err e, d)
      | Ok out => '(rest, d) ← each one ps d; Some (more ← rest; Ok (out ++ more), d)
      end
  end.

(** [decode]: [None] is fuel run out; two is enough. *)
Fixpoint decode (fuel : nat) (payloads : list bytes) (d : Decoder) : option (res exn (list (Decoded QueueItem)) * Decoder) :=
  match fuel with
  | O => None
  | S fuel =>
      if negb (existsb is_raw payloads) then Some (local payloads, d)
      else match roundtrip payloads d with
      | (Some r, d) => Some (r, d)
      | (None, d) =>
          let d := restart d in
          match payloads with
          | [p] =>
              Some (match unreadable p "decoder-failed" with Ok i => Ok [Event i] | Err why => Err (ValueError why) end, count_unreadable d)
          | _ => each (fun p => decode fuel [p]) payloads d
          end
      end
  end.
End main.
End decoder.
