(* ===== verification/DecodingLaws.v ===== *)
(** * What crosses from the spool to the engine

    A raw record and the JSON of an event read back exactly; a batch always gets one result per record,
    in order; what the decoder process answers is what a receiver here would have queued; a datagram
    that stops the process costs no other record. *)
From S2P Require Import Intake Prelude PyLib Floats Addresses Json Usm Receiver ReceiverLaws Decoding.

(** ** Floats as eight octets *)

Lemma canonical_mantissa_cases m e :
  SpecFloat.bounded 53 1024 m e = true -> 2 ^ 52 <= Z.pos m < 2 ^ 53 ∧ -1074 <= e <= 971 ∨ Z.pos m < 2 ^ 52 ∧ e = -1074.
Proof.
  unfold SpecFloat.bounded, canonical_mantissa, fexp, emin. intros [H1 H2]%andb_true_iff. apply Z.eqb_eq in H1. apply Z.leb_le in H2.
  pose proof (digits2_pos_spec m) as [D1 D2]. set (d := Z.pos (digits2_pos m)) in *.
  destruct (Z.eq_dec d 53) as [E|E]; [left; rewrite E in D1, D2; lia|]. right.
  assert (2 ^ d <= 2 ^ 52) by (apply Z.pow_le_mono_r; lia). lia.
Qed.

Lemma sign_bit_range s : sign_bit s = 0 ∨ sign_bit s = 2 ^ 63.
Proof. destruct s; auto. Qed.

Lemma bits_split s ex fr :
  0 <= ex < 2 ^ 11 -> 0 <= fr < 2 ^ 52 ->
  let z := sign_bit s + ex * 2 ^ 52 + fr in
  0 <= z < 2 ^ 64 ∧ (2 ^ 63 <=? z) = s ∧ z / 2 ^ 52 mod 2 ^ 11 = ex ∧ z mod 2 ^ 52 = fr.
Proof.
  intros He Hf z. assert (sign_bit s = (if s then 2 ^ 11 else 0) * 2 ^ 52) as Es by by destruct s.
  assert (z = ((if s then 2 ^ 11 else 0) + ex) * 2 ^ 52 + fr) as Ez by (unfold z; rewrite Es; ring).
  assert (z / 2 ^ 52 = (if s then 2 ^ 11 else 0) + ex) as Ed by (rewrite Ez, Z.div_add_l, Z.div_small by lia; lia).
  split_and!.
  - destruct s; lia.
  - destruct s; lia.
  - destruct s; lia.
  - rewrite Ed. destruct s; [replace (2 ^ 11 + ex) with (ex + 1 * 2 ^ 11) by lia; rewrite Z.mod_add by lia|]; by apply Z.mod_small.
  - rewrite Ez, Z.add_comm, Z.mod_add by lia. by apply Z.mod_small.
Qed.

Lemma f64_reads_back x : valid_binary 53 1024 x = true -> 0 <= f64_bits x < 2 ^ 64 ∧ f64_of_bits (f64_bits x) = x.
Proof.
  intros Hv. assert (∃ s ex fr, 0 <= ex < 2 ^ 11 ∧ 0 <= fr < 2 ^ 52 ∧ f64_bits x = sign_bit s + ex * 2 ^ 52 + fr
    ∧ (if ex =? 2047 then if fr =? 0 then S754_infinity s else S754_nan
       else if ex =? 0 then match fr with Zpos m => S754_finite s m (-1074) | _ => S754_zero s end
       else S754_finite s (Z.to_pos (fr + 2 ^ 52)) (ex - 1075)) = x) as (s & ex & fr & H1 & H2 & H3 & H4).
  { destruct x as [s|s| |s m e]; cbn [f64_bits].
    - exists s, 0, 0. split_and!; try lia; done.
    - exists s, 2047, 0. split_and!; try lia; done.
    - exists false, 2047, (2 ^ 51). split_and!; try lia; done.
    - cbn [valid_binary] in Hv. apply canonical_mantissa_cases in Hv as [[Hm He]|[Hm ->]].
      + exists s, (e + 1075), (Z.pos m - 2 ^ 52). split_and!; try lia.
        * destruct (Z.ltb_spec (Z.pos m) (2 ^ 52)); lia.
        * destruct (Z.eqb_spec (e + 1075) 2047); [lia|]. destruct (Z.eqb_spec (e + 1075) 0); [lia|].
          replace (Z.pos m - 2 ^ 52 + 2 ^ 52) with (Z.pos m) by lia. cbn [Z.to_pos]. f_equal. lia.
      + exists s, 0, (Z.pos m). split_and!; try lia.
        * destruct (Z.ltb_spec (Z.pos m) (2 ^ 52)); lia.
        * done. }
  destruct (bits_split s ex fr H1 H2) as (B1 & B2 & B3 & B4). rewrite H3. split; [done|].
  unfold f64_of_bits. cbv zeta. rewrite B2, B3, B4. exact H4.
Qed.

(** ** Raw records *)

Section raw.
Context (inet_pton : bool -> string -> option bytes) (inet_ntop : bytes -> string).

Lemma slice_at pre mid rest i j : i = blen pre -> j = i + blen mid -> slice (pre ++ mid ++ rest) i j = mid.
Proof. intros -> ->. apply slice_app_exact. Qed.

(** A datagram from an address as the platform prints it, a port and a finite time of arrival, written as
    a record, reads back as it was: whatever the datagram. *)
Theorem a_raw_record_reads_back source address port ts datagram payload :
  inet_pton (has_char ":" source) source = Some address -> inet_ntop address = source -> blen address = 4 ∨ blen address = 16 ->
  valid_binary 53 1024 ts = true -> f_finite ts = true ->
  raw inet_pton source port ts datagram = Some payload ->
  is_raw payload = true ∧ unraw inet_ntop payload = Ok (source, port, ts, datagram).
Proof.
  intros Hp Hn Hl Hv Hf. unfold raw. rewrite Hp. cbn [mbind option_bind].
  destruct ((0 <=? port) && (port <=? MAX_PORT)) eqn:E; [|done]. apply andb_true_iff in E as [E1%Z.leb_le E2%Z.leb_le]. unfold MAX_PORT in E2.
  intros Epay. set (bits := le_bytes 8 (f64_bits ts)). set (len := le_bytes 1 (blen address)). set (po := le_bytes 2 port).
  destruct (f64_reads_back ts Hv) as [F1 F2].
  assert (blen bits = 8 ∧ blen len = 1 ∧ blen po = 2) as (L1 & L2 & L3) by (unfold blen, bits, len, po; rewrite !length_le_bytes; done).
  set (msg := [R] ++ bits ++ len ++ po ++ address ++ datagram). assert (payload = msg) as -> by (unfold msg, bits, len, po; congruence). clear Epay.
  assert (is_raw msg = true) as Hr by done. split; [exact Hr|]. unfold unraw. rewrite Hr.
  assert (blen msg = 12 + blen address + blen datagram) as Lm.
  { unfold msg. rewrite !blen_app. change (blen [R]) with 1. lia. }
  assert (length msg = (12 + length address + length datagram)%nat) as Ln.
  { unfold blen in Lm. lia. }
  assert (slice msg 1 9 = bits) as S1 by (apply (slice_at [R]); [done|lia]).
  assert (slice msg 9 10 = len) as S2.
  { unfold msg. rewrite (app_assoc [R] bits). apply slice_at; [rewrite blen_app; change (blen [R]) with 1; lia|lia]. }
  assert (slice msg 10 12 = po) as S3.
  { unfold msg. rewrite (app_assoc [R]), (app_assoc _ len). apply slice_at; [rewrite !blen_app; change (blen [R]) with 1; lia|lia]. }
  assert (msg = ([R] ++ bits ++ len ++ po) ++ address ++ datagram) as Em by (unfold msg; by rewrite <- !app_assoc).
  assert (blen ([R] ++ bits ++ len ++ po) = 12) as Lh by (rewrite !blen_app; change (blen [R]) with 1; lia).
  rewrite S1, S2, S3. unfold bits, len, po. rewrite !le_value_small, F2 by lia.
  replace (Nat.leb (1 + RAW_SIZE) (length msg)) with true by (symmetry; apply Nat.leb_le; rewrite Ln; unfold RAW_SIZE; lia).
  cbn [andb ensure]. cbv zeta. replace ((blen address =? 4) || (blen address =? 16)) with true by (symmetry; destruct Hl as [-> | ->]; done).
  replace (12 + blen address <=? blen msg) with true by (symmetry; pose proof (blen_nonneg datagram); lia). rewrite Hf. cbn [andb ensure].
  rewrite Em, slice_at by lia. rewrite Hn. do 2 f_equal.
  rewrite app_assoc. apply drop_app_length'. rewrite length_app. unfold blen in *. lia.
Qed.

Lemma raw_ok source port ts datagram payload :
  raw inet_pton source port ts datagram = Some payload -> ∃ address, inet_pton (has_char ":" source) source = Some address.
Proof. unfold raw. destruct (inet_pton _ _) as [a|]; [by exists a|done]. Qed.
End raw.

(** ** Events *)

Lemma b64_strict_char i l quad left :
  0 ≤ i < 64 →
  b64_strict (b64_char i :: l) quad left 0 =
    if quad =? 0 then b64_strict l 1 i 0
    else if quad =? 1 then rest ← b64_strict l 2 (i mod 16) 0; Some (z2b (left * 4 + i / 16) :: rest)
    else if quad =? 2 then rest ← b64_strict l 3 (i mod 4) 0; Some (z2b (left * 16 + i / 4) :: rest)
    else rest ← b64_strict l 0 0 0; Some (z2b (left * 64 + i) :: rest).
Proof. intros Hi. destruct (b64_char_value i Hi) as (H1 & H2 & _). cbn [b64_strict]. by rewrite H2, H1. Qed.

Lemma b64_strict_enc bs : b64_strict (b64_enc bs) 0 0 0 = Some bs.
Proof.
  assert (∀ n bs, (length bs < n)%nat → b64_strict (b64_enc bs) 0 0 0 = Some bs) as H; [|apply (H (S (length bs))); lia].
  clear bs. induction n as [|n IH]; intros bs Hn; [lia|].
  destruct bs as [|x [|y [|z bs]]]; cbn [b64_enc]; cbv zeta; [done| | |];
    pose proof (b2z_range x); rewrite b64_strict_char by dlia; cbn [Z.eqb Pos.eqb];
    try pose proof (b2z_range y); rewrite b64_strict_char by dlia; cbn [Z.eqb Pos.eqb].
  - simpl. repeat f_equal; apply z2b_eq; dlia.
  - rewrite b64_strict_char by dlia. simpl. repeat f_equal; apply z2b_eq; dlia.
  - pose proof (b2z_range z). rewrite !b64_strict_char by dlia. simpl.
    rewrite IH by (simpl in Hn; lia). simpl. repeat f_equal; apply z2b_eq; dlia.
Qed.

Lemma b64_reads_back bs : b64decode_strict (b64encode bs) = Ok bs.
Proof.
  unfold b64decode_strict, b64encode. rewrite chars_unchars. cbv zeta. rewrite b64_strict_enc.
  rewrite bool_decide_eq_false_2; [done|].
  assert (∀ i l, 0 <= i < 64 -> (b64_char i :: l) !! 0%nat ≠ Some "="%char) as Hc.
  { intros i l Hi [= Hq]. destruct (b64_char_value i Hi) as (_ & H & _). by rewrite Hq in H. }
  destruct bs as [|x [|y [|z bs]]]; cbn [b64_enc]; [done|..]; pose proof (b2z_range x); apply Hc; dlia.
Qed.

Definition stamp (i : QueueItem) : float := match i with TrapItem t => t_stamp t | QuarantineItem q => q_stamp q end.

Lemma varbinds_read_back vbs :
  foldr (fun v acc => vb ← varbind_from v; rest ← acc; Ok (vb :: rest)) (Ok []) (map varbind_json vbs) = Ok vbs.
Proof. induction vbs as [|[o k v] vbs IH]; [done|]. cbn [map foldr]. rewrite IH. done. Qed.

(** An event sent as JSON and checked field by field is the event. *)
Lemma event_reads_back i : f_finite (stamp i) = true -> decode_event (as_list i) = Ok i.
Proof.
  intros H. destruct i as [[dev oid inst ts vbs tag]|[src bs reason ts sha len f8 san]]; cbn [stamp t_stamp q_stamp] in H; cbn [as_list decode_event].
  - rewrite varbinds_read_back. cbn. by rewrite H.
  - cbn [string_ mbind res_bind q_raw q_source q_reason q_stamp q_sha256 q_length q_first8 q_sanitized]. rewrite b64_reads_back. cbn. by rewrite H.
Qed.

(** ** Frames *)

Lemma frame_len p f : frame_of p = Some f -> f = le_bytes 4 (blen p) ++ p ∧ le_value (le_bytes 4 (blen p)) = blen p.
Proof.
  unfold frame_of. destruct (Z.ltb_spec (blen p) (2 ^ 32)); [|done]. intros [= <-]. split; [done|]. apply le_value_small.
  pose proof (blen_nonneg p). change (256 ^ Z.of_nat 4) with (2 ^ 32). lia.
Qed.

Lemma frames_read_back payloads blob fuel :
  frames payloads = Some blob -> (length blob <= fuel)%nat -> unframe fuel blob = Some payloads.
Proof.
  revert blob fuel. induction payloads as [|p ps IH]; intros blob fuel; cbn [frames]; [intros [= <-] _; by destruct fuel|].
  destruct (frame_of p) as [f|] eqn:Ef; [|done]. destruct (frames ps) as [rest|]; [|done]. cbn. intros [= <-] Hl.
  apply frame_len in Ef as [-> Ev]. rewrite !length_app, length_le_bytes in Hl. destruct fuel as [|fuel]; [lia|].
  assert (take 4 ((le_bytes 4 (blen p) ++ p) ++ rest) = le_bytes 4 (blen p)) as T.
  { rewrite <- app_assoc. apply take_app_length'. by rewrite length_le_bytes. }
  assert (∃ a l, (le_bytes 4 (blen p) ++ p) ++ rest = a :: l) as (a & l & E) by (by eexists _, _).
  assert (unframe (S fuel) ((le_bytes 4 (blen p) ++ p) ++ rest) =
    (if Nat.ltb (length ((le_bytes 4 (blen p) ++ p) ++ rest)) 4 then None
     else let n := Z.to_nat (le_value (take 4 ((le_bytes 4 (blen p) ++ p) ++ rest))) in
          more ← unframe fuel (drop (4 + n) ((le_bytes 4 (blen p) ++ p) ++ rest)); Some (take n (drop 4 ((le_bytes 4 (blen p) ++ p) ++ rest)) :: more))) as -> by by rewrite E.
  rewrite T, Ev. destruct (Nat.ltb_spec (length ((le_bytes 4 (blen p) ++ p) ++ rest)) 4) as [L|_]; [rewrite !length_app, length_le_bytes in L; lia|].
  cbv zeta. assert (Z.to_nat (blen p) = length p) as -> by (unfold blen; apply Nat2Z.id).
  rewrite (drop_app_length' (le_bytes 4 (blen p) ++ p) rest (4 + length p)) by (rewrite length_app, length_le_bytes; lia).
  rewrite (IH rest fuel eq_refl) by lia. cbn [mbind option_bind]. do 2 f_equal.
  rewrite <- app_assoc, drop_app_length' by by rewrite length_le_bytes. by apply take_app_length'.
Qed.

(** ** A batch *)

Section batch.
Context (inet_ntop : bytes -> string) (sha256 : bytes -> string) (loads : bytes -> option json).
Context {P : Type} (boot : P) (ask : P -> bytes -> option json * P).

Abbreviation decoded := (decode inet_ntop sha256 loads boot ask).

Lemma entries_length l out : entries l = Ok out -> length out = length l.
Proof.
  revert out. induction l as [|v l IH]; intros out; cbn [entries]; [by intros [= <-]|].
  assert (∀ x, (rest ← entries l; Ok (x :: rest)) = Ok out -> length out = length (v :: l)) as G.
  { intros x (rest & E & [= <-])%bind_Ok_inv. cbn. by rewrite (IH rest E). }
  destruct v; try (destruct (decode_event _) as [i|[why| |]]); try done; apply G.
Qed.

Lemma local_length ps out : local loads ps = Ok out -> length out = length ps.
Proof.
  revert out. induction ps as [|p ps IH]; intros out; cbn [local]; [by intros [= <-]|].
  destruct (load loads p) as [i|[why| |]]; try done; intros (rest & E & [= <-])%bind_Ok_inv; cbn; by rewrite (IH rest E).
Qed.

Lemma roundtrip_length payloads d out d' : roundtrip ask payloads d = (Some (Ok out), d') -> length out = length payloads.
Proof.
  unfold roundtrip. destruct (proc d) as [p|]; [|done]. destruct (frames payloads) as [blob|]; [|done]. destruct (ask p blob) as [message p'].
  destruct (answer message) as [[[l counters] reasons]|]; [|done].
  destruct (Nat.eqb_spec (length l) (length payloads)) as [El|]; [|done]. destruct (counted_of counters reasons); [|done].
  intros [= H _]. rewrite <- El. by apply entries_length.
Qed.

Lemma single_total fuel p d : ∃ r d', decoded (S fuel) [p] d = Some (r, d') ∧ ∀ out, r = Ok out -> length out = 1%nat.
Proof.
  cbn [decode]. destruct (negb _); [eexists _, _; split; [done|]; intros out H; by apply local_length in H|].
  destruct (roundtrip ask [p] d) as [[r|] d1] eqn:E.
  - eexists _, _. split; [done|]. intros out ->. by apply roundtrip_length in E.
  - eexists _, _. split; [done|]. destruct (unreadable _ _ p _); [|done]. by intros out [= <-].
Qed.

Lemma each_total fuel ps d :
  ∃ r d', each (fun p => decoded (S fuel) [p]) ps d = Some (r, d') ∧ ∀ out, r = Ok out -> length out = length ps.
Proof.
  revert d. induction ps as [|p ps IH]; intros d; cbn [each]; [eexists _, _; split; [done|]; by intros out [= <-]|].
  destruct (single_total fuel p d) as ([out|e] & d1 & -> & H); cbn [mbind option_bind]; [|by eexists _, _].
  destruct (IH d1) as (rest & d2 & -> & H2). cbn [mbind option_bind]. eexists _, _. split; [done|].
  intros all (more & E & [= <-])%bind_Ok_inv. rewrite length_app, (H out eq_refl), (H2 more E). done.
Qed.

(** Decoding a batch always ends, whatever the process does, dies, hangs or answers: in an exception, or in
    exactly one result per record. The replay of a batch never nests. *)
Theorem a_batch_ends_with_a_result_per_record fuel payloads d :
  ∃ r d', decode inet_ntop sha256 loads boot ask (S (S fuel)) payloads d = Some (r, d') ∧ ∀ out, r = Ok out -> length out = length payloads.
Proof.
  cbn [decode]. destruct (negb _); [eexists _, _; split; [done|]; intros out H; by apply local_length in H|].
  destruct (roundtrip ask payloads d) as [[r|] d1] eqn:E.
  - eexists _, _. split; [done|]. intros out ->. by apply roundtrip_length in E.
  - destruct payloads as [|p [|q ps]]; [by apply (each_total fuel [])| |by apply (each_total fuel (p :: q :: ps))].
    eexists _, _. split; [done|]. destruct (unreadable _ _ p _); [|done]. by intros out [= <-].
Qed.

(** *** One datagram stops the process *)

Section isolation.
(** The records that stop the process in whatever state it is, and what it may say of another. *)
Context (bad : bytes -> bool) (says : bytes -> QueueItem -> Prop).
Hypothesis bad_stops : ∀ p payloads blob, frames payloads = Some blob -> existsb bad payloads = true -> (ask p blob).1 = None.
Hypothesis good_answers : ∀ p payloads blob, frames payloads = Some blob -> existsb bad payloads = false ->
  ∃ items c, Forall2 says payloads items ∧ Forall (fun i => f_finite (stamp i) = true) items
    ∧ (∃ counters reasons, (ask p blob).1 = Some (JList [JStr "e"; JList (map as_list items); counters; reasons]) ∧ counted_of counters reasons = Some c).

Definition outcome (p : bytes) (o : Decoded QueueItem) : Prop :=
  if bad p then ∃ i, unreadable inet_ntop sha256 p "decoder-failed" = Ok i ∧ o = Event i else ∃ i, says p i ∧ o = Event i.

Lemma entries_of_items items : Forall (fun i => f_finite (stamp i) = true) items -> entries (map as_list items) = Ok (map Event items).
Proof.
  induction 1 as [|i items Hi _ IH]; [done|]. cbn [map entries]. destruct (as_list i) as [| | | | |l|] eqn:E; try (by destruct i).
  rewrite <- E, event_reads_back, IH by done. done.
Qed.

Lemma roundtrip_good payloads d p :
  proc d = Some p -> frames payloads ≠ None -> existsb bad payloads = false ->
  ∃ items d', roundtrip ask payloads d = (Some (Ok (map Event items)), d') ∧ Forall2 says payloads items ∧ is_Some (proc d') ∧ d_unreadable d' = d_unreadable d.
Proof using All.
  intros Hp Hf Hb. unfold roundtrip. rewrite Hp. destruct (frames payloads) as [blob|] eqn:Ef; [|done].
  destruct (good_answers p payloads blob Ef Hb) as (items & c & H1 & H2 & counters & reasons & H3 & H4).
  destruct (ask p blob) as [m p']. cbn [fst] in H3. subst m. cbn [answer String.eqb Ascii.eqb Bool.eqb]. rewrite length_map, <- (Forall2_length _ _ _ H1), Nat.eqb_refl. cbn [negb].
  rewrite H4, entries_of_items by done. eexists items, _. split; [done|]. by split_and!.
Qed.

Lemma roundtrip_bad payloads d p :
  proc d = Some p -> frames payloads ≠ None -> existsb bad payloads = true ->
  ∃ d', roundtrip ask payloads d = (None, d') ∧ d_unreadable d' = d_unreadable d.
Proof using All.
  intros Hp Hf Hb. unfold roundtrip. rewrite Hp. destruct (frames payloads) as [blob|] eqn:Ef; [|done].
  pose proof (bad_stops p payloads blob Ef Hb) as H. destruct (ask p blob) as [m p']. cbn [fst] in H. subst m. by eexists.
Qed.

Definition readable (p : bytes) : Prop := is_raw p = true ∧ blen p < 2 ^ 32 ∧ ∃ u, unraw inet_ntop p = Ok u.

Lemma frames_some ps : Forall readable ps -> frames ps ≠ None.
Proof.
  induction 1 as [|p ps (_ & H & _) _ IH]; [done|]. cbn [frames]. unfold frame_of. destruct (Z.ltb_spec (blen p) (2 ^ 32)); [|lia].
  by destruct (frames ps).
Qed.

Lemma restarted d : is_Some (proc (restart boot d)) ∧ d_unreadable (restart boot d) = d_unreadable d.
Proof. unfold restart. by destruct (counted d) as [[a q] r]. Qed.

Lemma single_isolated fuel p d :
  readable p -> is_Some (proc d) ->
  ∃ o d', decoded (S fuel) [p] d = Some (Ok [o], d') ∧ outcome p o ∧ is_Some (proc d') ∧ d_unreadable d' = d_unreadable d + (if bad p then 1 else 0).
Proof using All.
  intros Hr [st Hs]. pose proof (frames_some [p] ltac:(by constructor)) as Hf. destruct Hr as (Hr & _ & [[[source port] ts] dg] & Hu).
  cbn [decode existsb]. rewrite Hr. cbn [orb negb]. unfold outcome. destruct (bad p) eqn:Hb.
  - destruct (roundtrip_bad [p] d st Hs Hf) as (d' & -> & E); [cbn; by rewrite Hb|].
    destruct (restarted d') as [R1 R2]. unfold unreadable. rewrite Hu. cbn. eexists _, _. split; [done|]. split_and!; [by eexists|done|]. cbn. lia.
  - destruct (roundtrip_good [p] d st Hs Hf) as (items & d' & -> & H & R1 & R2); [cbn; by rewrite Hb|].
    inversion H as [|? i ? l Hi Hl]; subst. inversion Hl; subst. eexists _, _. split; [done|]. split_and!; [by eexists|done|lia].
Qed.

Lemma each_isolated fuel ps d :
  Forall readable ps -> is_Some (proc d) ->
  ∃ out d', each (fun p => decoded (S fuel) [p]) ps d = Some (Ok out, d') ∧ Forall2 outcome ps out
    ∧ d_unreadable d' = d_unreadable d + Z.of_nat (length (List.filter bad ps)).
Proof using All.
  intros H. revert d. induction H as [|p ps Hp _ IH]; intros d Hd; cbn [each]; [eexists _, _; split; [done|]; split; [done|cbn; lia]|].
  destruct (single_isolated fuel p d Hp Hd) as (o & d1 & -> & Ho & H1 & H2). cbn [mbind option_bind]. destruct (IH d1 H1) as (out & d2 & -> & Hout & H3).
  cbn. eexists _, _. split; [done|]. split; [by constructor|]. rewrite H3, H2. destruct (bad p); cbn [length]; lia.
Qed.

(** A record that stops the process, in whatever batch it arrives, becomes a quarantine of its metadata, and
    every other record of the batch is decoded as if it had come alone; each stop is counted. *)
Theorem a_bad_datagram_is_alone fuel payloads d :
  Forall readable payloads -> is_Some (proc d) ->
  ∃ out d', decoded (S (S fuel)) payloads d = Some (Ok out, d') ∧ Forall2 outcome payloads out
    ∧ d_unreadable d' = d_unreadable d + Z.of_nat (length (List.filter bad payloads)).
Proof using All.
  intros Hr [st Hs]. pose proof (frames_some payloads Hr) as Hf. destruct payloads as [|p ps].
  { cbn. eexists _, _. split; [done|]. split; [done|cbn; lia]. }
  assert (is_raw p = true) as Hraw by (inversion Hr as [|? ? [? _] _]; done).
  change (decoded (S (S fuel)) (p :: ps) d) with
    (if negb (existsb is_raw (p :: ps)) then Some (local loads (p :: ps), d)
     else match roundtrip ask (p :: ps) d with
     | (Some r, d) => Some (r, d)
     | (None, d) =>
         let d := restart boot d in
         match p :: ps with
         | [p] => Some (match unreadable inet_ntop sha256 p "decoder-failed" with Ok i => Ok [Event i] | Err why => Err (ValueError why) end, count_unreadable d)
         | _ => each (fun p => decoded (S fuel) [p]) (p :: ps) d
         end
     end).
  cbn [existsb]. rewrite Hraw. cbn [orb negb]. destruct (existsb bad (p :: ps)) eqn:Hb.
  - destruct ps as [|q ps].
    { destruct (single_isolated (S fuel) p d ltac:(by inversion Hr) ltac:(by eexists)) as (o & d' & E & H1 & _ & H2).
      cbn [decode existsb] in E. rewrite Hraw in E. cbn [orb negb] in E. eexists _, _. split; [exact E|]. split; [by constructor|].
      rewrite H2. cbn. destruct (bad p); cbn; lia. }
    destruct (roundtrip_bad (p :: q :: ps) d st Hs Hf Hb) as (d' & -> & E). destruct (restarted d') as [R1 R2]. cbv zeta.
    destruct (each_isolated fuel (p :: q :: ps) (restart boot d') Hr R1) as (out & d2 & E2 & H1 & H2).
    exists out, d2. split; [exact E2|]. split; [done|]. rewrite H2. lia.
  - destruct (roundtrip_good (p :: ps) d st Hs Hf Hb) as (items & d' & -> & H1 & _ & H2). eexists _, _. split; [done|]. split.
    + clear Hr Hf Hraw. remember (p :: ps) as l. clear Heql. induction H1 as [|q i l items Hq _ IH]; [constructor|].
      cbn [existsb] in Hb. apply orb_false_iff in Hb as [B1 B2]. constructor; [|by apply IH]. unfold outcome. rewrite B1. by eexists.
    + rewrite H2. assert (List.filter bad (p :: ps) = []) as ->; [|cbn; lia]. clear -Hb. induction (p :: ps) as [|q l IH]; [done|].
      cbn [existsb] in Hb. apply orb_false_iff in Hb as [B1 B2]. cbn. rewrite B1. by apply IH.
Qed.
End isolation.
End batch.

(** ** The receiver in the other process *)

Section elsewhere.
Context (hash : string -> bytes -> bytes) (hmac : string -> bytes -> bytes -> bytes) (installed : option Ciphers)
        (decode_scoped : bytes -> option Pdu)
        (hmac_sha256 : bytes -> bytes -> string) (sha256 : bytes -> string)
        (decode_v1 : bytes -> option (bytes * V1Pdu)) (decode_v2c : bytes -> option (bytes * Pdu))
        (digest_size : string -> nat) (inet_ntop : bytes -> string) (loads : bytes -> option json).
Hypothesis hash_size : ∀ auth data, auth ∈ AUTH_PROTOCOLS.*1 -> length (hash auth data) = digest_size auth.
Hypothesis digests_are_long : ∀ auth, auth ∈ AUTH_PROTOCOLS.*1 -> (16 <= digest_size auth)%nat.

Abbreviation receive := (datagram_received hash hmac installed decode_scoped hmac_sha256 sha256 decode_v1 decode_v2c).

Hypothesis ciphers_take_keys : ∀ c, installed = Some c -> takes_its_keys c.

(** A receiver that listens to everybody, into a list. *)
Definition listening (r : TrapReceiver) : Prop := networks r = None ∧ queue_size r = 0%nat ∧ policy_problems (accepts r) = [].

(** Its policy lists each user once, by name, and the keys it keeps are of those users: as at its start, and
    for as long as the policy stays. *)
Definition keys_current (r : TrapReceiver) : Prop :=
  NoDup (users (accepts r)).*1 ∧ (∀ name u, (name, u) ∈ users (accepts r) -> name = String.list_byte_of_string (u_name u))
  ∧ memory_ok (usm r) ∧ cached_by hash (map snd (users (accepts r))) (usm r).

Lemma users_fst_unique {K V} (l : list (K * V)) k v w : NoDup l.*1 -> (k, v) ∈ l -> (k, w) ∈ l -> v = w.
Proof.
  intros N Hv Hw. apply list_elem_of_lookup in Hv as [i Hi]. apply list_elem_of_lookup in Hw as [j Hj].
  assert (i = j) as -> by (eapply NoDup_lookup; [exact N|by rewrite list_lookup_fmap, Hi|by rewrite list_lookup_fmap, Hj]). congruence.
Qed.

Lemma current_cached r : keys_current r -> cached_now hash (accepts r) (usm r).
Proof using All.
  intros (N & Hn & _ & Hc) name u engine k Hu Hk. destruct (Hc _ _ Hk) as (v & e & Hv & Es & _ & Hp).
  unfold slot_of in Es. injection Es as E1 E2 E3 <-. apply list_elem_of_fmap in Hv as ([n v'] & -> & Hv). cbn [snd] in *.
  assert (v' = u) as ->; [|done]. pose proof (Hn _ _ Hu). pose proof (Hn _ _ Hv). apply (users_fst_unique _ name v' u N); [by replace name with n by congruence|done].
Qed.

Lemma current_next r data ts r' :
  keys_current r -> usm r' = usm r ∨ usm r' = (process_run hash hmac installed decode_scoped data (accepts r) (usm r) ts).2 ->
  accepts r' = accepts r -> keys_current r'.
Proof using All.
  intros (N & Hn & Hm & Hc) [E|E] Ea; unfold keys_current; rewrite E, Ea; split_and!; try done; [by apply process_memory_ok|].
  apply process_cached; [done..|]. intros e He. apply list_elem_of_fmap. by exists e.
Qed.

Lemma parse_usm source data ts key p s x s' :
  parse_trap hash hmac installed decode_scoped hmac_sha256 decode_v1 decode_v2c source data ts key p s = Some (x, s') ->
  s' = s ∨ s' = (process_run hash hmac installed decode_scoped data p s ts).2.
Proof.
  unfold parse_trap. case_bool_decide; [intros [= _ <-]; by left|]. case_bool_decide; [|destruct (_ && _); intros [= _ <-]; by left].
  destruct (v3 p); [|intros [= _ <-]; by left]. unfold parse_v3, process.
  destruct (process_run _ _ _ _ data p s ts) as [[r|] s1]; cbn; [intros [= _ <-]; by right|done].
Qed.

Lemma stamp_of_parsed source data ts key p s t s' :
  parse_trap hash hmac installed decode_scoped hmac_sha256 decode_v1 decode_v2c source data ts key p s = Some (Ok t, s') -> t_stamp t = ts.
Proof.
  unfold parse_trap. case_bool_decide as H0; [|case_bool_decide as H3].
  - intros [= H _]. apply ensure_Ok_inv in H as [_ H]. unfold parse_v1 in H. destruct (decode_v1 data) as [[c [v|]]|]; [|done..].
    apply bind_Ok_inv in H as (tag & _ & H). by apply v1_event_ok in H as (_ & H & _).
  - destruct (v3 p); [|done]. unfold parse_v3. destruct (process _ _ _ _ data p s ts) as [[[[pdu u]|] s1]|]; cbn; [|done|done].
    destruct pdu; [|done]. intros [= H _]. by apply event_from_pdu_ok in H as (_ & H & _).
  - destruct (_ && _); [done|]. intros [= H _]. unfold parse_v2c in H. destruct (decode_v2c data) as [[c [v|]]|]; [|done..].
    apply bind_Ok_inv in H as (tag & _ & H). by apply event_from_pdu_ok in H as (_ & H & _).
Qed.

(** One datagram, one item, whatever is queued already; or an exception. *)
Lemma one_item r : listening r -> ∀ data source now, f_finite now = true ->
  (∀ q, receive data source now (with_queue q r) = None)
  ∨ ∃ i r', listening r' ∧ f_finite (stamp i) = true ∧ (keys_current r -> keys_current r')
    ∧ ∀ q, receive data source now (with_queue q r) = Some (with_queue (q ++ [i]) r').
Proof using All.
  intros (Hn & Hs & Hp) data source now Hf. destruct (stats r) as [n1 n2 n3 n4 n5] eqn:Es.
  destruct (parse_trap hash hmac installed decode_scoped hmac_sha256 decode_v1 decode_v2c source data now (community_key r) (accepts r) (usm r)) as [[parsed s]|] eqn:E.
  2: { left. intros q. unfold datagram_received. cbn [stats networks community_key accepts usm with_queue]. by rewrite Es, Hn, E. }
  right. pose proof (parse_usm _ _ _ _ _ _ _ _ E) as Hu. destruct parsed as [t|reason].
  - exists (TrapItem t), (MkReceiver [] (queue_size r) (networks r) (community_key r) (accepts r) s (MkStats (n1 + 1) (n2 + 1) n3 n4 n5) (reasons r)).
    split; [done|]. split; [cbn; by rewrite (stamp_of_parsed _ _ _ _ _ _ _ _ E)|].
    split; [intros K; by eapply current_next|]. intros q. unfold datagram_received.
    cbn [stats networks community_key accepts usm with_queue]. rewrite Es, Hn. cbn [allowed negb]. rewrite E. cbn [mbind option_bind].
    unfold full. cbn [queue_size with_queue]. rewrite Hs. cbn. by rewrite ?Hn, ?Hs.
  - exists (QuarantineItem (quarantine_packet sha256 source data reason now)),
      (MkReceiver [] (queue_size r) (networks r) (community_key r) (accepts r) s (MkStats (n1 + 1) n2 n3 (n4 + 1) n5) (refused reason (reasons r))).
    split; [done|]. split; [unfold quarantine_packet; by destruct (blank_community data)|].
    split; [intros K; by eapply current_next|]. intros q. unfold datagram_received.
    cbn [stats networks community_key accepts usm with_queue reasons]. rewrite Es, Hn. cbn [allowed negb]. rewrite E. cbn [mbind option_bind].
    unfold full. cbn [queue_size with_queue]. rewrite Hs. cbn. by rewrite ?Hn, ?Hs.
Qed.

Lemma never_raises r data source now q : listening r -> keys_current r -> receive data source now (with_queue q r) ≠ None.
Proof using All.
  intros (_ & _ & Hp) K%current_cached.
  destruct (receive_total hash hmac installed decode_scoped hmac_sha256 sha256 decode_v1 decode_v2c digest_size hash_size digests_are_long
    ciphers_take_keys data source now (with_queue q r) Hp K) as [r' ->]. done.
Qed.

(** What a receiver makes of raw records, had their datagrams arrived here. *)
Fixpoint hear (payloads : list bytes) (r : TrapReceiver) : option TrapReceiver :=
  match payloads with
  | [] => Some r
  | p :: ps =>
      match unraw inet_ntop p with
      | Ok (source, _, ts, datagram) => r ← receive datagram source ts r; hear ps r
      | Err _ => None
      end
  end.

Lemma unraw_finite p source port ts dg : unraw inet_ntop p = Ok (source, port, ts, dg) -> f_finite ts = true.
Proof. unfold unraw. intros [_ [H [= _ _ <- _]]%ensure_Ok_inv]%ensure_Ok_inv. by apply andb_true_iff in H as [_ H]. Qed.

Lemma decode_batch_hears payloads r :
  listening r -> Forall (fun p => ∃ u, unraw inet_ntop p = Ok u) payloads ->
  ((∀ q, hear payloads (with_queue q r) = None) ∧ decode_batch inet_ntop receive payloads (with_queue [] r) = None ∧ ¬ keys_current r)
  ∨ ∃ items r', (∀ q, hear payloads (with_queue q r) = Some (with_queue (q ++ items) r'))
    ∧ decode_batch inet_ntop receive payloads (with_queue [] r) = Some (map as_list items, with_queue [] r')
    ∧ listening r' ∧ length items = length payloads ∧ Forall (fun i => f_finite (stamp i) = true) items.
Proof using All.
  intros Hl H. revert r Hl. induction H as [|p ps [[[[source port] ts] dg] Hu] _ IH]; intros r Hl; cbn [hear decode_batch].
  { right. exists [], r. split_and!; try done. intros q. by rewrite app_nil_r. }
  rewrite Hu. destruct (one_item r Hl dg source ts (unraw_finite _ _ _ _ _ Hu)) as [E|(i & r1 & L1 & F1 & K1 & E1)].
  { left. split_and!; [intros q; by rewrite E|by rewrite E|]. intros K. by apply (never_raises r dg source ts [] Hl K). }
  assert (decode_batch inet_ntop receive ps (with_queue [] r1) = None -> decode_batch inet_ntop receive (p :: ps) (with_queue [] r) = None) as Hnone.
  { intros Hd. cbn [decode_batch]. rewrite Hu, E1. cbn [mbind option_bind app].
    change (pop (with_queue [i] r1)) with (Some (i, with_queue [] r1)). cbv beta iota. cbn [mbind option_bind]. by rewrite Hd. }
  destruct (IH r1 L1) as [(G1 & G2 & G3)|(items & r2 & G1 & G2 & G3 & G4 & G5)].
  - left. split_and!; [intros q; rewrite E1; cbn [mbind option_bind]; by rewrite G1| |tauto].
    specialize (Hnone G2). cbn [decode_batch] in Hnone. by rewrite Hu in Hnone.
  - right. exists (i :: items), r2. split_and!.
    + intros q. rewrite E1. cbn [mbind option_bind]. rewrite G1. f_equal. by rewrite <- app_assoc.
    + rewrite E1. cbn [mbind option_bind app]. change (pop (with_queue [i] r1)) with (Some (i, with_queue [] r1)). cbv beta iota. cbn [mbind option_bind].
      rewrite G2. done.
    + done.
    + cbn. by rewrite G4.
    + by constructor.
Qed.

(** The process: a receiver serving batches; one that raises is gone. *)
Definition answers (r : TrapReceiver) (blob : bytes) : option json * TrapReceiver :=
  match serve inet_ntop receive blob r with Some (j, r) => (Some j, r) | None => (None, r) end.

Lemma counted_of_stats (reasons : list (string * Z)) a q :
  counted_of (JObj [("accepted", JInt a); ("quarantined", JInt q)]) (JObj (map (fun e => (e.1, JInt e.2)) reasons)) = Some (a, q, reasons).
Proof.
  cbn. assert (foldr (fun e acc => n ← whole e.2; rest ← acc; Ok ((e.1, n) :: rest)) (Ok []) (map (fun e : string * Z => (e.1, JInt e.2)) reasons) = Ok reasons) as ->; [|done].
  induction reasons as [|[k n] l IH]; [done|]. cbn [map foldr]. by rewrite IH.
Qed.

(** C17: Decoding in the other process is decoding here: from records whose datagrams this receiver would have
    queued [items] for, the main process gets those items, in order, and the process is left as the
    receiver would have been; the counters the main process shows are the receiver's, past restarts
    included. Where one of the datagrams would have raised here, the process is lost on the batch, which
    is then taken record by record. None raises as long as the keys the receiver keeps are of its policy's
    users as they are, and the ciphers take keys of their sizes: only a changed SNMPv3 protocol whose
    passphrases were kept makes one raise. *)
Theorem decoding_elsewhere_is_decoding_here boot fuel payloads d r :
  proc d = Some (with_queue [] r) -> listening r -> Forall (readable inet_ntop) payloads -> payloads ≠ [] ->
  (∀ heard, hear payloads (with_queue [] r) = Some heard ->
     ∃ items r' d', heard = with_queue items r' ∧ length items = length payloads
       ∧ decode inet_ntop sha256 loads boot answers (S fuel) payloads d = Some (Ok (map Event items), d')
       ∧ proc d' = Some (with_queue [] r') ∧ listening r'
       ∧ counts d' = (d_accepted d + accepted (stats r'), d_quarantined d + quarantined (stats r'), add_reasons (reasons r') (d_reasons d)))
  ∧ (hear payloads (with_queue [] r) = None -> (roundtrip answers payloads d).1 = None)
  ∧ (keys_current r -> hear payloads (with_queue [] r) ≠ None).
Proof using All.
  intros Hp Hl Hr Hne. assert (Forall (fun p => ∃ u, unraw inet_ntop p = Ok u) payloads) as Hu by (eapply Forall_impl; [exact Hr|]; by intros p (_ & _ & ?)).
  pose proof (frames_some inet_ntop payloads Hr) as Hf. destruct (frames payloads) as [blob|] eqn:Ef; [|done].
  destruct (decode_batch_hears payloads r Hl Hu) as [(H1 & H2 & H3)|(items & r' & H1 & H2 & H3 & H4 & H5)].
  { rewrite H1. split_and!; [done| |done]. intros _. unfold roundtrip. rewrite Hp, Ef. unfold answers, serve.
    rewrite (frames_read_back payloads blob _ Ef) by done. cbn [mbind option_bind]. by rewrite H2. }
  rewrite (H1 []). split_and!; [|done|done]. intros heard [= <-].
  exists items, r'. cbn [decode]. destruct payloads as [|p ps]; [done|]. cbn [existsb].
  assert (is_raw p = true) as -> by (inversion Hr as [|? ? [? _] _]; done). cbn [orb negb]. unfold roundtrip. rewrite Hp, Ef.
  unfold answers, serve. rewrite (frames_read_back (p :: ps) blob _ Ef) by done. cbn [mbind option_bind]. rewrite H2.
  cbn [mbind option_bind answer String.eqb Ascii.eqb Bool.eqb]. rewrite length_map, H4, Nat.eqb_refl, counted_of_stats. cbn [negb].
  rewrite entries_of_items by done. eexists. split; [done|]. split; [done|]. split; [reflexivity|]. done.
Qed.
End elsewhere.

(** ** At a few records *)

Section at_a_few_records.
Let toy_hash (_ : string) (data : bytes) : bytes := take 16 (data ++ replicate 16 Byte.x2a).
Let toy_hmac (_ : string) (key data : bytes) : bytes := replicate 16 (foldl xor_byte Byte.x5c (key ++ data)).
Let home : bytes := map z2b [10; 0; 0; 1].
Let pton (_ : bool) (s : string) : option bytes := if String.eqb s "10.0.0.1" then Some home else None.
Let ntop (_ : bytes) : string := "10.0.0.1".
Let noon : float := f_of_Z 43200.
Let record (last : Byte.byte) : bytes := default [] (raw pton "10.0.0.1" 162 noon [Byte.x30; last]).

Lemma a_raw_record_reads_back_witness : unraw ntop (record Byte.x07) = Ok ("10.0.0.1", 162, noon, [Byte.x30; Byte.x07]).
Proof.
  refine (proj2 (a_raw_record_reads_back pton ntop "10.0.0.1" home 162 noon [Byte.x30; Byte.x07] (record Byte.x07) eq_refl eq_refl _ _ _ _)).
  - left. reflexivity.
  - reflexivity.
  - reflexivity.
  - reflexivity.
Defined.

Lemma readable_records last : readable ntop (record last).
Proof.
  destruct (unraw ntop (record last)) as [u|e] eqn:E; [|destruct last; vm_compute in E; discriminate E].
  split; [reflexivity|]. split; [reflexivity|]. exists u. exact E.
Qed.

(** A process that stops at a record ending in 255, and finds one quarantine in any other. *)
Let stops (p : bytes) : bool := bool_decide (List.last p Byte.x00 = Byte.xff).
Let found (p : bytes) : QueueItem := QuarantineItem (MkQuarantined "10.0.0.1" p "toy" noon "" (blen p) "" true).
Let fragile (_ : unit) (blob : bytes) : option json * unit :=
  (match unframe (length blob) blob with
   | Some ps => if existsb stops ps then None
                else Some (JList [JStr "e"; JList (map as_list (map found ps)); JObj [("accepted", JInt 0); ("quarantined", JInt 0)]; JObj []])
   | None => None
   end, tt).
Let running : Decoder (P := unit) := start_ tt new_decoder.

Lemma a_bad_datagram_is_alone_witness : ∃ out d',
  decode ntop hex_of (fun _ => None) tt fragile 2 [record Byte.x01; record Byte.xff; record Byte.x02] running = Some (Ok out, d')
  ∧ length out = 3%nat ∧ d_unreadable d' = 1 ∧ out !! 0%nat = Some (Event (found (record Byte.x01))).
Proof.
  destruct (a_bad_datagram_is_alone ntop hex_of (fun _ => None) tt fragile stops (fun p i => i = found p)) with (fuel := 0%nat) (d := running)
    (payloads := [record Byte.x01; record Byte.xff; record Byte.x02]) as (out & d' & H1 & H2 & H3).
  - intros p payloads blob Hf Hb. unfold fragile. rewrite (frames_read_back payloads blob _ Hf) by done. by rewrite Hb.
  - intros p payloads blob Hf Hb. exists (map found payloads), (0, 0, []). split_and!.
    + clear. induction payloads; constructor; done.
    + apply Forall_forall. intros i [q [-> _]]%list_elem_of_fmap. reflexivity.
    + exists (JObj [("accepted", JInt 0); ("quarantined", JInt 0)]), (JObj []). split; [|reflexivity].
      unfold fragile. rewrite (frames_read_back payloads blob _ Hf) by done. by rewrite Hb.
  - repeat (constructor; [apply readable_records|]). constructor.
  - by eexists.
  - exists out, d'. split; [exact H1|]. split; [by rewrite <- (Forall2_length _ _ _ H2)|]. split; [exact H3|].
    inversion H2 as [|? o ? l Ho _]; subst. unfold outcome in Ho. replace (stops (record Byte.x01)) with false in Ho by reflexivity.
    destruct Ho as (i & -> & ->). reflexivity.
Defined.

Let everybody : TrapReceiver := MkReceiver [] 0 None None DEFAULT_POLICY new_state no_stats [].
Let its_answers := answers toy_hash toy_hmac None (fun _ => None) (fun _ c => hex_of c) hex_of (fun _ => None) (fun _ => None) ntop.
Let its_decoder : Decoder := start_ everybody new_decoder.

Lemma decoding_elsewhere_is_decoding_here_witness : ∃ items d',
  decode ntop hex_of (fun _ => None) everybody its_answers 1 [record Byte.x01; record Byte.x02] its_decoder = Some (Ok (map Event items), d')
  ∧ length items = 2%nat ∧ (counts d').1 = (0, 2).
Proof.
  destruct (decoding_elsewhere_is_decoding_here toy_hash toy_hmac None (fun _ => None) (fun _ c => hex_of c) hex_of (fun _ => None) (fun _ => None)
    (fun _ => 16%nat) ntop (fun _ => None)) with (boot := everybody) (fuel := 0%nat) (payloads := [record Byte.x01; record Byte.x02]) (d := its_decoder) (r := everybody)
    as (Hheard & _ & Hnone).
  - intros a d _. unfold toy_hash. rewrite length_take, length_app, length_replicate. cbv beta. lia.
  - intros. cbv beta. lia.
  - discriminate.
  - reflexivity.
  - split_and!; reflexivity.
  - repeat (constructor; [apply readable_records|]). constructor.
  - discriminate.
  - destruct (hear _ _ _ _ _ _ _ _ _ _ _) as [heard|] eqn:H0.
    2: { exfalso. apply Hnone; [|reflexivity]. split_and!; [constructor|by intros ? ? ?%not_elem_of_nil|apply new_state_ok|done]. }
    destruct (Hheard heard eq_refl) as (items & r' & d' & H1 & H2 & H3 & _ & _ & H4). subst heard. rename H0 into H1.
    exists items, d'. split; [exact H3|]. split; [exact H2|]. rewrite H4.
    apply (f_equal (fmap (M := option) stats)) in H1. change (stats <$> Some (with_queue items r')) with (Some (stats r')) in H1.
    assert (Some (stats r') = Some (MkStats 2 0 0 2 0)) as [= ->] by (rewrite <- H1; vm_compute; reflexivity). reflexivity.
Defined.

(** A record that is already an event. *)
Let an_event : bytes := [Byte.x5b].
Let read_json (p : bytes) : option json :=
  if bool_decide (p = an_event) then Some (as_list (found [])) else None.

(** An event's record is an event alone, and set aside as no record in a batch with a datagram's. *)
Example an_event_among_datagrams_is_set_aside :
  let alone := decode ntop hex_of read_json everybody its_answers 2 [an_event] its_decoder in
  let among := decode ntop hex_of read_json everybody its_answers 2 [an_event; record Byte.x01] its_decoder in
  (fst <$> alone) = Some (Ok [Event (found [])])
  ∧ match among with Some (Ok (o :: _), _) => o = Invalid "not a raw record: not a raw record" | _ => False end.
Proof. vm_compute. split; reflexivity. Qed.

(** A time that no float holds is an [OverflowError], which nothing on the way of the record catches. *)
Example a_huge_time_stops_the_batch :
  local (fun _ => Some (JList [JStr "t"; JStr "10.0.0.1"; JStr "1.3"; JStr ""; JInt (10 ^ 400); JStr ""; JList []])) [an_event] = Err OverflowError.
Proof. vm_compute. reflexivity. Qed.
End at_a_few_records.
