(* ===== verification/RbacTables.v ===== *)
(** * The authorization tables ([crosscutting/rbac/tables.py], [route_map.py], [noc_map.py])

    Transcribed entry by entry, in the source's order. Dictionaries are association lists whose
    keys are distinct. *)
From S2P Require Import Prelude.

Abbreviation route := (string * string)%type.

Inductive posture := Scoped | Unscoped | AdminOnly.
#[global] Instance posture_eq_dec : EqDecision posture.
Proof. solve_decision. Defined.

Definition ROLE_RANK : list (string * Z) :=
  [("viewer", 0); ("editor", 1); ("admin", 2)].

Definition PERMISSIONS : list (string * string) :=
  [("self.read", "viewer");
   ("stats.read", "viewer");
   ("graph.read", "viewer");
   ("classes.read", "viewer");
   ("situations.read", "viewer");
   ("timeline.read", "viewer");
   ("events.stream", "viewer");
   ("entities.read", "viewer");
   ("scorer.read", "viewer");
   ("correlation.read", "viewer");
   ("model.read", "viewer");
   ("model.register", "admin");
   ("decider.write", "admin");
   ("autonomy.write", "admin");
   ("autonomy.audit", "admin");
   ("autonomy.stop", "editor");
   ("search.write", "admin");
   ("situation.severity", "editor");
   ("feedback.write", "editor");
   ("label.write", "editor");
   ("situation.close", "editor");
   ("situation.move", "editor");
   ("situation.merge", "editor");
   ("situation.split", "editor");
   ("alarm.clear", "editor");
   ("situation.promote", "editor");
   ("users.manage", "admin");
   ("entity.reset", "admin");
   ("profile.reset", "admin");
   ("tokens.manage", "admin");
   ("config.read", "admin");
   ("config.write", "admin");
   ("quarantine.read", "admin");
   ("audit.read", "admin");
   ("audit.export", "admin");
   ("audit.prune", "admin");
   ("scorer.preview", "admin");
   ("scorer.write", "admin");
   ("promotion.read", "viewer");
   ("promotion.write", "admin");
   ("rbac.read", "admin");
   ("rbac.write", "admin");
   ("scope.read", "admin");
   ("scope.write", "admin");
   ("mw.read", "viewer");
   ("mw.write", "editor");
   ("mw.confirm", "editor");
   ("mw.ledger", "admin");
   ("organizations.read", "viewer");
   ("organizations.write", "admin");
   ("timezones.read", "viewer");
   ("notice.snooze", "viewer");
   ("alarm.acknowledge", "editor");
   ("catalogue.write", "editor");
   ("catalogue.import", "editor");
   ("secrets.read", "editor");
   ("secrets.write", "editor");
   ("secrets.reveal", "editor");
   ("secrets.lease", "viewer");
   ("secrets.grants", "admin");
   ("cases.read", "viewer");
   ("cases.post", "viewer");
   ("cases.work", "editor");
   ("cases.manage", "admin");
   ("playbooks.read", "editor");
   ("playbooks.write", "editor");
   ("agents.read", "editor");
   ("agents.run", "editor");
   ("agents.manage", "admin");
   ("mcp.use", "viewer")].

Definition AUDITED_DENIED_PERMISSIONS : list string :=
  ["quarantine.read";
   "audit.read";
   "audit.export";
   "audit.prune";
   "users.manage";
   "tokens.manage";
   "config.read";
   "config.write";
   "scorer.preview";
   "scorer.write";
   "rbac.read";
   "rbac.write";
   "scope.read";
   "scope.write";
   "secrets.read";
   "secrets.write";
   "secrets.reveal";
   "secrets.grants";
   "agents.manage"].

Definition FIXED_ROLES : list string := ["admin"].

Definition NOC_ROUTE_PERMISSIONS : list (route * string) :=
  [("GET", "/api/noc/secrets", "secrets.read");
   ("POST", "/api/noc/secrets", "secrets.write");
   ("GET", "/api/noc/secrets/{secret_id}", "secrets.read");
   ("POST", "/api/noc/secrets/{secret_id}", "secrets.write");
   ("POST", "/api/noc/secrets/{secret_id}/delete", "secrets.write");
   ("POST", "/api/noc/secrets/{secret_id}/reveal", "secrets.reveal");
   ("POST", "/api/noc/secrets/{secret_id}/agents", "secrets.write");
   ("POST", "/api/noc/secrets/{secret_id}/check", "secrets.read");
   ("POST", "/api/noc/secrets/{secret_id}/models", "secrets.read");
   ("GET", "/api/noc/grants", "secrets.grants");
   ("GET", "/api/noc/access", "cases.read");
   ("POST", "/api/noc/grants", "secrets.grants");
   ("GET", "/api/noc/agent", "secrets.lease");
   ("POST", "/api/noc/secrets/{secret_id}/lease", "secrets.lease");
   ("POST", "/api/noc/leases/introspect", "secrets.lease");
   ("POST", "/api/noc/leases/{lease_id}/revoke", "secrets.lease");
   ("GET", "/api/noc/cases", "cases.read");
   ("GET", "/api/noc/cases/kpis", "cases.read");
   ("GET", "/api/noc/overview", "cases.read");
   ("GET", "/api/noc/cases/{sid}", "cases.read");
   ("POST", "/api/noc/cases/{sid}", "cases.work");
   ("POST", "/api/noc/cases/{sid}/take", "cases.work");
   ("POST", "/api/noc/cases/{sid}/release", "cases.work");
   ("POST", "/api/noc/cases/{sid}/status", "cases.work");
   ("POST", "/api/noc/cases/{sid}/resolve", "cases.work");
   ("GET", "/api/noc/cases/{sid}/feed", "cases.read");
   ("POST", "/api/noc/cases/{sid}/feed", "cases.post");
   ("POST", "/api/noc/cases/{sid}/customer-update", "cases.work");
   ("GET", "/api/noc/people", "cases.work");
   ("POST", "/api/noc/exec", "secrets.lease");
   ("POST", "/api/noc/secrets/{secret_id}/hostkey", "secrets.write");
   ("GET", "/api/noc/playbooks", "playbooks.read");
   ("POST", "/api/noc/playbooks", "playbooks.write");
   ("GET", "/api/noc/playbooks/{playbook_id}", "playbooks.read");
   ("POST", "/api/noc/playbooks/{playbook_id}", "playbooks.write");
   ("POST", "/api/noc/playbooks/{playbook_id}/enabled", "playbooks.write");
   ("GET", "/api/noc/agents", "agents.read");
   ("POST", "/api/noc/agents", "agents.manage");
   ("GET", "/api/noc/agents/me", "agents.read");
   ("GET", "/api/noc/agents/{agent_id}", "agents.read");
   ("POST", "/api/noc/agents/{agent_id}", "agents.manage");
   ("POST", "/api/noc/agents/{agent_id}/invoke", "agents.run");
   ("POST", "/api/noc/agents/{agent_id}/pause", "agents.run");
   ("POST", "/api/noc/agents/{agent_id}/resume", "agents.run");
   ("POST", "/api/noc/agents/{agent_id}/terminate", "agents.manage");
   ("POST", "/api/noc/agents/{agent_id}/key", "agents.manage");
   ("GET", "/api/noc/runs/{run_id}", "agents.read");
   ("POST", "/api/noc/runs/{run_id}/finish", "agents.run");
   ("POST", "/api/noc/cases/{sid}/assign", "cases.work");
   ("POST", "/api/noc/cases/{sid}/escalate", "cases.work");
   ("GET", "/api/noc/customers", "cases.read");
   ("GET", "/api/noc/customers/{customer_id}", "cases.read");
   ("POST", "/api/noc/customers/{customer_id}", "cases.work");
   ("POST", "/api/noc/customers/{customer_id}/memory", "cases.work");
   ("POST", "/api/noc/customers/{customer_id}/contacts", "cases.work");
   ("POST", "/api/noc/customers/{customer_id}/contacts/{contact_id}", "cases.work");
   ("POST", "/api/noc/customers/{customer_id}/contacts/{contact_id}/delete", "cases.work");
   ("POST", "/api/noc/customers/{customer_id}/end", "organizations.write");
   ("POST", "/api/noc/customers/{customer_id}/docs", "cases.work");
   ("GET", "/api/noc/customers/{customer_id}/docs/{doc_id}", "cases.read");
   ("GET", "/api/noc/customers/{customer_id}/docs/{doc_id}/file", "cases.read");
   ("POST", "/api/noc/customers/{customer_id}/docs/{doc_id}/delete", "cases.work");
   ("GET", "/api/noc/circuits", "cases.read");
   ("GET", "/api/noc/customers/{customer_id}/circuits", "cases.read");
   ("POST", "/api/noc/customers/{customer_id}/circuits/import", "cases.work");
   ("POST", "/api/noc/customers/{customer_id}/circuits", "cases.work");
   ("GET", "/api/noc/customers/{customer_id}/circuits/{circuit_id}", "cases.read");
   ("POST", "/api/noc/customers/{customer_id}/circuits/{circuit_id}", "cases.work");
   ("POST", "/api/noc/customers/{customer_id}/circuits/{circuit_id}/notes", "cases.work");
   ("POST", "/api/noc/customers/{customer_id}/circuits/{circuit_id}/delete", "cases.work");
   ("POST", "/api/mcp", "mcp.use")].

Definition NOC_ROUTE_SCOPE : list (route * posture) :=
  [("GET", "/api/noc/secrets", Unscoped);
   ("POST", "/api/noc/secrets", Unscoped);
   ("GET", "/api/noc/secrets/{secret_id}", Unscoped);
   ("POST", "/api/noc/secrets/{secret_id}", Unscoped);
   ("POST", "/api/noc/secrets/{secret_id}/delete", Unscoped);
   ("POST", "/api/noc/secrets/{secret_id}/reveal", Unscoped);
   ("POST", "/api/noc/secrets/{secret_id}/agents", Unscoped);
   ("POST", "/api/noc/secrets/{secret_id}/check", Unscoped);
   ("POST", "/api/noc/secrets/{secret_id}/models", Unscoped);
   ("GET", "/api/noc/grants", AdminOnly);
   ("GET", "/api/noc/access", Unscoped);
   ("POST", "/api/noc/grants", AdminOnly);
   ("GET", "/api/noc/agent", Unscoped);
   ("POST", "/api/noc/secrets/{secret_id}/lease", Unscoped);
   ("POST", "/api/noc/leases/introspect", Unscoped);
   ("POST", "/api/noc/leases/{lease_id}/revoke", Unscoped);
   ("GET", "/api/noc/cases", Scoped);
   ("GET", "/api/noc/cases/kpis", Scoped);
   ("GET", "/api/noc/overview", Scoped);
   ("GET", "/api/noc/cases/{sid}", Scoped);
   ("POST", "/api/noc/cases/{sid}", Scoped);
   ("POST", "/api/noc/cases/{sid}/take", Scoped);
   ("POST", "/api/noc/cases/{sid}/release", Scoped);
   ("POST", "/api/noc/cases/{sid}/status", Scoped);
   ("POST", "/api/noc/cases/{sid}/resolve", Scoped);
   ("GET", "/api/noc/cases/{sid}/feed", Scoped);
   ("POST", "/api/noc/cases/{sid}/feed", Scoped);
   ("POST", "/api/noc/cases/{sid}/customer-update", Scoped);
   ("GET", "/api/noc/people", Unscoped);
   ("POST", "/api/noc/exec", Unscoped);
   ("POST", "/api/noc/secrets/{secret_id}/hostkey", Unscoped);
   ("GET", "/api/noc/playbooks", Unscoped);
   ("POST", "/api/noc/playbooks", Unscoped);
   ("GET", "/api/noc/playbooks/{playbook_id}", Unscoped);
   ("POST", "/api/noc/playbooks/{playbook_id}", Unscoped);
   ("POST", "/api/noc/playbooks/{playbook_id}/enabled", Unscoped);
   ("GET", "/api/noc/agents", Unscoped);
   ("POST", "/api/noc/agents", AdminOnly);
   ("GET", "/api/noc/agents/me", Unscoped);
   ("GET", "/api/noc/agents/{agent_id}", Unscoped);
   ("POST", "/api/noc/agents/{agent_id}", AdminOnly);
   ("POST", "/api/noc/agents/{agent_id}/invoke", Unscoped);
   ("POST", "/api/noc/agents/{agent_id}/pause", Unscoped);
   ("POST", "/api/noc/agents/{agent_id}/resume", Unscoped);
   ("POST", "/api/noc/agents/{agent_id}/terminate", AdminOnly);
   ("POST", "/api/noc/agents/{agent_id}/key", AdminOnly);
   ("GET", "/api/noc/runs/{run_id}", Unscoped);
   ("POST", "/api/noc/runs/{run_id}/finish", Unscoped);
   ("POST", "/api/noc/cases/{sid}/assign", Scoped);
   ("POST", "/api/noc/cases/{sid}/escalate", Scoped);
   ("GET", "/api/noc/customers", Scoped);
   ("GET", "/api/noc/customers/{customer_id}", Scoped);
   ("POST", "/api/noc/customers/{customer_id}", Scoped);
   ("POST", "/api/noc/customers/{customer_id}/memory", Scoped);
   ("POST", "/api/noc/customers/{customer_id}/contacts", Scoped);
   ("POST", "/api/noc/customers/{customer_id}/contacts/{contact_id}", Scoped);
   ("POST", "/api/noc/customers/{customer_id}/contacts/{contact_id}/delete", Scoped);
   ("POST", "/api/noc/customers/{customer_id}/end", AdminOnly);
   ("POST", "/api/noc/customers/{customer_id}/docs", Scoped);
   ("GET", "/api/noc/customers/{customer_id}/docs/{doc_id}", Scoped);
   ("GET", "/api/noc/customers/{customer_id}/docs/{doc_id}/file", Scoped);
   ("POST", "/api/noc/customers/{customer_id}/docs/{doc_id}/delete", Scoped);
   ("GET", "/api/noc/circuits", Scoped);
   ("GET", "/api/noc/customers/{customer_id}/circuits", Scoped);
   ("POST", "/api/noc/customers/{customer_id}/circuits/import", Scoped);
   ("POST", "/api/noc/customers/{customer_id}/circuits", Scoped);
   ("GET", "/api/noc/customers/{customer_id}/circuits/{circuit_id}", Scoped);
   ("POST", "/api/noc/customers/{customer_id}/circuits/{circuit_id}", Scoped);
   ("POST", "/api/noc/customers/{customer_id}/circuits/{circuit_id}/notes", Scoped);
   ("POST", "/api/noc/customers/{customer_id}/circuits/{circuit_id}/delete", Scoped);
   ("POST", "/api/mcp", Unscoped)].

Definition ROUTE_PERMISSIONS : list (route * string) :=
  [("POST", "/api/logout", "self.read");
   ("GET", "/api/me", "self.read");
   ("POST", "/api/password", "self.read");
   ("GET", "/api/avatars/{uid}", "self.read");
   ("POST", "/api/me/avatar", "self.read");
   ("DELETE", "/api/me/avatar", "self.read");
   ("POST", "/api/me/profile", "self.read");
   ("GET", "/api/stats", "stats.read");
   ("GET", "/api/graph", "graph.read");
   ("GET", "/api/classes", "classes.read");
   ("GET", "/api/situations", "situations.read");
   ("GET", "/api/situations/{sid}", "situations.read");
   ("GET", "/api/timeline", "timeline.read");
   ("GET", "/api/events", "events.stream");
   ("GET", "/api/entities", "entities.read");
   ("GET", "/api/entities/{ne_id}", "entities.read");
   ("GET", "/api/state-clears", "entities.read");
   ("POST", "/api/entities/{ne_id}/reset", "entity.reset");
   ("POST", "/api/profiles/{ne_id}/reset", "profile.reset");
   ("POST", "/api/situations/{sid}/feedback", "feedback.write");
   ("POST", "/api/labels", "label.write");
   ("DELETE", "/api/labels/{kind}/{target_id}", "label.write");
   ("POST", "/api/situations/{sid}/close", "situation.close");
   ("POST", "/api/situations/{sid}/move", "situation.move");
   ("POST", "/api/situations/{sid}/merge", "situation.merge");
   ("POST", "/api/situations/{sid}/proposal", "situation.merge");
   ("POST", "/api/situations/{sid}/split", "situation.split");
   ("POST", "/api/situations/{sid}/name", "label.write");
   ("POST", "/api/alarms/{aid}/clear", "alarm.clear");
   ("POST", "/api/alarms/clear", "alarm.clear");
   ("POST", "/api/situations/{sid}/promote", "situation.promote");
   ("GET", "/api/users", "users.manage");
   ("POST", "/api/users", "users.manage");
   ("DELETE", "/api/users/{uid}", "users.manage");
   ("POST", "/api/users/{uid}/role", "users.manage");
   ("POST", "/api/users/{uid}/profile", "users.manage");
   ("POST", "/api/users/{uid}/password-reset", "users.manage");
   ("POST", "/api/users/{uid}/avatar", "users.manage");
   ("DELETE", "/api/users/{uid}/avatar", "users.manage");
   ("GET", "/api/tokens", "tokens.manage");
   ("POST", "/api/tokens", "tokens.manage");
   ("DELETE", "/api/tokens/{tid}", "tokens.manage");
   ("GET", "/api/config", "config.read");
   ("POST", "/api/config", "config.write");
   ("GET", "/api/dataset/retention", "config.read");
   ("POST", "/api/dataset/retention", "config.write");
   ("GET", "/api/scorer", "scorer.read");
   ("GET", "/api/correlation", "correlation.read");
   ("GET", "/api/models", "model.read");
   ("POST", "/api/models/register", "model.register");
   ("POST", "/api/scorer/preview", "scorer.preview");
   ("POST", "/api/scorer", "scorer.write");
   ("POST", "/api/scorer/rollback", "scorer.write");
   ("GET", "/api/promotion", "promotion.read");
   ("POST", "/api/promotion", "promotion.write");
   ("GET", "/api/rbac", "rbac.read");
   ("POST", "/api/rbac", "rbac.write");
   ("POST", "/api/rbac/subject", "rbac.write");
   ("GET", "/api/scope", "scope.read");
   ("POST", "/api/scope", "scope.write");
   ("GET", "/api/quarantine", "quarantine.read");
   ("GET", "/api/audit", "audit.read");
   ("GET", "/api/audit/export", "audit.export");
   ("POST", "/api/audit/prune", "audit.prune");
   ("GET", "/api/maintenance-windows", "mw.read");
   ("POST", "/api/maintenance-windows/preview", "mw.read");
   ("POST", "/api/maintenance-windows", "mw.write");
   ("GET", "/api/maintenance-windows/{wid}", "mw.read");
   ("POST", "/api/maintenance-windows/{wid}", "mw.write");
   ("POST", "/api/maintenance-windows/{wid}/confirm", "mw.confirm");
   ("POST", "/api/maintenance-windows/{wid}/cancel", "mw.write");
   ("POST", "/api/maintenance-windows/{wid}/end", "mw.write");
   ("POST", "/api/maintenance-windows/{wid}/extend", "mw.write");
   ("GET", "/api/organizations", "organizations.read");
   ("POST", "/api/organizations", "organizations.write");
   ("POST", "/api/entities/{ne_id}/organization", "organizations.write");
   ("GET", "/api/timezones", "timezones.read");
   ("GET", "/api/resources", "stats.read");
   ("GET", "/api/activity/severity", "timeline.read");
   ("GET", "/api/activity/lanes", "timeline.read");
   ("GET", "/api/activity/groups", "timeline.read");
   ("GET", "/api/activity/active", "timeline.read");
   ("GET", "/api/activity/top", "timeline.read");
   ("GET", "/api/inventory", "entities.read");
   ("GET", "/api/elements/{ne_id}/components", "entities.read");
   ("GET", "/api/elements/{ne_id}", "entities.read");
   ("GET", "/api/notices", "stats.read");
   ("POST", "/api/notices/snooze", "notice.snooze");
   ("DELETE", "/api/notices/snooze/{digest}", "notice.snooze");
   ("POST", "/api/alarms/{aid}/outlived/ack", "alarm.acknowledge");
   ("GET", "/api/catalogue", "classes.read");
   ("GET", "/api/catalogue/tree", "classes.read");
   ("GET", "/api/catalogue/rules", "classes.read");
   ("POST", "/api/catalogue/rules", "catalogue.write");
   ("DELETE", "/api/catalogue/rules/{rule_id}", "catalogue.write");
   ("POST", "/api/catalogue/import", "catalogue.import");
   ("DELETE", "/api/catalogue/imported", "catalogue.import");
   ("GET", "/api/decider", "scorer.read");
   ("POST", "/api/decider", "decider.write");
   ("GET", "/api/autonomy", "scorer.read");
   ("GET", "/api/autonomy/decisions", "autonomy.audit");
   ("POST", "/api/autonomy", "autonomy.write");
   ("POST", "/api/autonomy/stop", "autonomy.stop");
   ("POST", "/api/situations/{sid}/severity", "situation.severity");
   ("GET", "/api/search", "model.read");
   ("POST", "/api/search", "search.write");
   ("POST", "/api/search/stop", "search.write");
   ("GET", "/api/judge", "model.read");
   ("GET", "/api/reference", "tokens.manage");
   ("GET", "/api/snmp", "config.read");
   ("POST", "/api/snmp", "config.write");
   ("GET", "/api/email", "config.read");
   ("POST", "/api/email", "config.write");
   ("POST", "/api/email/test", "config.write")]
  ++ NOC_ROUTE_PERMISSIONS.

Definition PUBLIC_ROUTES : list route :=
  [("POST", "/api/login");
   ("GET", "/api/login/options");
   ("POST", "/api/password-reset");
   ("POST", "/api/password-reset/confirm")].

Definition ROUTE_SCOPE : list (route * posture) :=
  [("POST", "/api/logout", Unscoped);
   ("GET", "/api/me", Scoped);
   ("POST", "/api/password", Unscoped);
   ("GET", "/api/avatars/{uid}", Unscoped);
   ("POST", "/api/me/avatar", Unscoped);
   ("DELETE", "/api/me/avatar", Unscoped);
   ("POST", "/api/me/profile", Unscoped);
   ("GET", "/api/stats", Scoped);
   ("GET", "/api/graph", Scoped);
   ("GET", "/api/classes", Unscoped);
   ("GET", "/api/situations", Scoped);
   ("GET", "/api/situations/{sid}", Scoped);
   ("GET", "/api/timeline", Scoped);
   ("GET", "/api/events", Scoped);
   ("GET", "/api/entities", Scoped);
   ("GET", "/api/entities/{ne_id}", Scoped);
   ("GET", "/api/state-clears", Unscoped);
   ("POST", "/api/entities/{ne_id}/reset", AdminOnly);
   ("POST", "/api/profiles/{ne_id}/reset", AdminOnly);
   ("POST", "/api/situations/{sid}/feedback", Scoped);
   ("POST", "/api/labels", Scoped);
   ("DELETE", "/api/labels/{kind}/{target_id}", Scoped);
   ("POST", "/api/situations/{sid}/close", Scoped);
   ("POST", "/api/situations/{sid}/move", Scoped);
   ("POST", "/api/situations/{sid}/merge", Scoped);
   ("POST", "/api/situations/{sid}/proposal", Scoped);
   ("POST", "/api/situations/{sid}/split", Scoped);
   ("POST", "/api/situations/{sid}/name", Scoped);
   ("POST", "/api/alarms/{aid}/clear", Scoped);
   ("POST", "/api/alarms/clear", Scoped);
   ("POST", "/api/situations/{sid}/promote", Scoped);
   ("GET", "/api/users", AdminOnly);
   ("POST", "/api/users", AdminOnly);
   ("DELETE", "/api/users/{uid}", AdminOnly);
   ("POST", "/api/users/{uid}/role", AdminOnly);
   ("POST", "/api/users/{uid}/profile", AdminOnly);
   ("POST", "/api/users/{uid}/password-reset", AdminOnly);
   ("POST", "/api/users/{uid}/avatar", AdminOnly);
   ("DELETE", "/api/users/{uid}/avatar", AdminOnly);
   ("GET", "/api/tokens", AdminOnly);
   ("POST", "/api/tokens", AdminOnly);
   ("DELETE", "/api/tokens/{tid}", AdminOnly);
   ("GET", "/api/config", AdminOnly);
   ("POST", "/api/config", AdminOnly);
   ("GET", "/api/dataset/retention", AdminOnly);
   ("POST", "/api/dataset/retention", AdminOnly);
   ("GET", "/api/scorer", Unscoped);
   ("GET", "/api/correlation", Unscoped);
   ("GET", "/api/models", Unscoped);
   ("POST", "/api/models/register", AdminOnly);
   ("GET", "/api/promotion", Unscoped);
   ("POST", "/api/promotion", AdminOnly);
   ("POST", "/api/scorer/preview", AdminOnly);
   ("POST", "/api/scorer", AdminOnly);
   ("POST", "/api/scorer/rollback", AdminOnly);
   ("GET", "/api/rbac", AdminOnly);
   ("POST", "/api/rbac", AdminOnly);
   ("POST", "/api/rbac/subject", AdminOnly);
   ("GET", "/api/scope", AdminOnly);
   ("POST", "/api/scope", AdminOnly);
   ("GET", "/api/quarantine", AdminOnly);
   ("GET", "/api/audit", AdminOnly);
   ("GET", "/api/audit/export", AdminOnly);
   ("POST", "/api/audit/prune", AdminOnly);
   ("GET", "/api/maintenance-windows", Scoped);
   ("POST", "/api/maintenance-windows/preview", Scoped);
   ("POST", "/api/maintenance-windows", Scoped);
   ("GET", "/api/maintenance-windows/{wid}", Scoped);
   ("POST", "/api/maintenance-windows/{wid}", Scoped);
   ("POST", "/api/maintenance-windows/{wid}/confirm", Scoped);
   ("POST", "/api/maintenance-windows/{wid}/cancel", Scoped);
   ("POST", "/api/maintenance-windows/{wid}/end", Scoped);
   ("POST", "/api/maintenance-windows/{wid}/extend", Scoped);
   ("GET", "/api/organizations", Unscoped);
   ("POST", "/api/organizations", AdminOnly);
   ("POST", "/api/entities/{ne_id}/organization", AdminOnly);
   ("GET", "/api/timezones", Unscoped);
   ("GET", "/api/resources", Unscoped);
   ("GET", "/api/activity/severity", Scoped);
   ("GET", "/api/activity/lanes", Scoped);
   ("GET", "/api/activity/groups", Scoped);
   ("GET", "/api/activity/active", Scoped);
   ("GET", "/api/activity/top", Scoped);
   ("GET", "/api/inventory", Scoped);
   ("GET", "/api/elements/{ne_id}/components", Scoped);
   ("GET", "/api/elements/{ne_id}", Scoped);
   ("GET", "/api/notices", Unscoped);
   ("POST", "/api/notices/snooze", Unscoped);
   ("DELETE", "/api/notices/snooze/{digest}", Unscoped);
   ("POST", "/api/alarms/{aid}/outlived/ack", Scoped);
   ("GET", "/api/catalogue", Unscoped);
   ("GET", "/api/catalogue/tree", Unscoped);
   ("GET", "/api/catalogue/rules", Unscoped);
   ("POST", "/api/catalogue/rules", Unscoped);
   ("DELETE", "/api/catalogue/rules/{rule_id}", Unscoped);
   ("POST", "/api/catalogue/import", Unscoped);
   ("DELETE", "/api/catalogue/imported", Unscoped);
   ("GET", "/api/decider", Unscoped);
   ("POST", "/api/decider", AdminOnly);
   ("GET", "/api/autonomy", Unscoped);
   ("GET", "/api/autonomy/decisions", AdminOnly);
   ("POST", "/api/autonomy", AdminOnly);
   ("POST", "/api/autonomy/stop", Unscoped);
   ("POST", "/api/situations/{sid}/severity", Scoped);
   ("GET", "/api/search", Unscoped);
   ("POST", "/api/search", AdminOnly);
   ("POST", "/api/search/stop", AdminOnly);
   ("GET", "/api/judge", Unscoped);
   ("GET", "/api/reference", AdminOnly);
   ("GET", "/api/snmp", AdminOnly);
   ("POST", "/api/snmp", AdminOnly);
   ("GET", "/api/email", AdminOnly);
   ("POST", "/api/email", AdminOnly);
   ("POST", "/api/email/test", AdminOnly)]
  ++ NOC_ROUTE_SCOPE.
