(* ===== verification/Rbac.v ===== *)
(** * Authorization ([crosscutting/rbac/policy.py])

    The capability resolver over the tables of [RbacTables], and the stored policy and its parser.
    A document is modelled from what [json.loads] makes of it: a JSON value, or nothing when it
    raises [ValueError]. *)
From S2P Require Import Prelude Json RbacTables.

Definition in_list {A} `{EqDecision A} (x : A) (l : list A) : bool := bool_decide (x ∈ l).

(** ** The ceilings *)

Definition rank (role : string) : Z := default 0 (assoc role ROLE_RANK).

(** [_CEILINGS[role]], for a role of [ROLE_RANK]. *)
Definition CEILINGS : list (string * gset string) :=
  map (fun r => (r.1, list_to_set (map fst
         (filter (fun p => rank p.2 ≤ rank r.1) PERMISSIONS)))) ROLE_RANK.

Definition ceiling (role : string) : gset string := default ∅ (assoc role CEILINGS).

Definition role_allows (role permission : string) : bool :=
  bool_decide (permission ∈ ceiling role).

Definition permission_for (method path : string) : option string :=
  assoc (method, path) ROUTE_PERMISSIONS.

(** ** The stored policy *)

Inductive policy_reason :=
| NotJson
| NotObject
| BadVersion (v : json)
| BadShape.

Record CapabilityPolicy := Policy {
  roles : list (string * gset string);
  principals : list (string * gset string);
  malformed : option policy_reason }.

(** [version != 1] is false of [1], [1.0] and [True], which Python compares equal. *)
Definition is_version_1 (v : json) : bool :=
  match v with
  | JInt z => z =? 1
  | JFloat f => feqb f f_one
  | JBool b => b
  | _ => false
  end.

Definition as_string (j : json) : option string :=
  match j with JStr s => Some s | _ => None end.

Definition subject_sets (raw : option json) : option (list (string * gset string)) :=
  match raw with
  | None | Some JNull => Some []
  | Some (JObj fields) =>
      mapM (fun '(subject, caps) =>
              match caps with
              | JList l => names ← mapM as_string l; Some (subject, list_to_set names)
              | _ => None
              end) fields
  | Some _ => None
  end.

Definition parse_capability_policy (document : option json) : CapabilityPolicy :=
  match document with
  | None => Policy [] [] (Some NotJson)
  | Some (JObj fields) =>
      let version := default (JInt 1) (assoc "version" fields) in
      if negb (is_version_1 version) then Policy [] [] (Some (BadVersion version))
      else match subject_sets (assoc "roles" fields), subject_sets (assoc "principals" fields) with
      | Some rs, Some ps => Policy rs ps None
      | _, _ => Policy [] [] (Some BadShape)
      end
  | Some _ => Policy [] [] (Some NotObject)
  end.

Definition is_token (principal_ref : option string) : bool :=
  match principal_ref with Some r => String.prefix "token:" r | None => false end.

Definition resolve_capabilities (role : string) (principal_ref : option string)
    (policy : option CapabilityPolicy) : gset string :=
  let capabilities := ceiling role in
  match policy with
  | None => capabilities
  | Some p =>
      if bool_decide (is_Some (malformed p)) || (in_list role FIXED_ROLES && negb (is_token principal_ref))
      then capabilities
      else
        let granted_role := if in_list role FIXED_ROLES then None else assoc role (roles p) in
        let capabilities := match granted_role with Some g => capabilities ∩ g | None => capabilities end in
        match principal_ref with
        | None => capabilities
        | Some r => match assoc r (principals p) with
                    | Some g => capabilities ∩ g
                    | None => capabilities
                    end
        end
  end.

(** The sentences an admin is shown, as data. *)
Inductive policy_problem :=
| Malformed (r : policy_reason)
| UnknownRole (role : string)
| FixedRoleRefusal
| UnknownCapability (capability subject : string)
| AboveCeiling (capability role : string)
| BadPrincipal (subject : string).

Definition sorted_names (s : gset string) : list string := sort_by String.leb (elements s).

Definition role_problems (entry : string * gset string) : list policy_problem :=
  let '(role, capabilities) := entry in
  match assoc role ROLE_RANK with
  | None => [UnknownRole role]
  | Some _ =>
      if in_list role FIXED_ROLES then [FixedRoleRefusal]
      else omap (fun c => match assoc c PERMISSIONS with
                          | None => Some (UnknownCapability c role)
                          | Some _ => if role_allows role c then None
                                      else Some (AboveCeiling c role)
                          end) (sorted_names capabilities)
  end.

Definition principal_problems (entry : string * gset string) : list policy_problem :=
  let '(subject, capabilities) := entry in
  (if String.prefix "user:" subject || String.prefix "token:" subject then []
   else [BadPrincipal subject]) ++
  omap (fun c => match assoc c PERMISSIONS with
                 | None => Some (UnknownCapability c subject)
                 | Some _ => None
                 end) (sorted_names capabilities).

Definition capability_policy_errors (p : CapabilityPolicy) : list policy_problem :=
  match malformed p with
  | Some r => [Malformed r]
  | None => flat_map role_problems (roles p) ++ flat_map principal_problems (principals p)
  end.

(** ** Properties *)

Lemma ceiling_spec role c :
  c ∈ ceiling role ↔
  ∃ r m, assoc role ROLE_RANK = Some r ∧ (c, m) ∈ PERMISSIONS ∧ rank m ≤ r.
Proof.
  unfold ceiling, CEILINGS. rewrite assoc_fmap. cbn [fst].
  destruct (assoc role ROLE_RANK) as [r|] eqn:Er; unfold default, fmap, option_fmap, option_map, from_option, id; cbn [fst].
  2: { split; [set_solver|]. by intros (? & ? & ? & _). }
  assert (rank role = r) as -> by (unfold rank; by rewrite Er).
  rewrite elem_of_list_to_set, list_elem_of_fmap. split.
  - intros ([c' m] & -> & [Hr Hin]%list_elem_of_filter). by exists r, m.
  - intros (r' & m & [= <-] & Hin & Hr). exists (c, m). by rewrite list_elem_of_filter.
Qed.

Lemma resolve_subset role r policy : resolve_capabilities role r policy ⊆ ceiling role.
Proof.
  unfold resolve_capabilities. destruct policy as [p|]; [|done]. destruct (_ || _); [done|].
  set (g := if in_list role FIXED_ROLES then _ else _).
  destruct g; destruct r as [r|]; try destruct (assoc r (principals p)); set_solver.
Qed.

(** The resolved set under an understood policy, for a caller the policy applies to. *)
Lemma resolve_narrows role r p c :
  malformed p = None → (in_list role FIXED_ROLES = false ∨ is_token r = true) →
  c ∈ resolve_capabilities role r (Some p) ↔
  c ∈ ceiling role ∧
  (in_list role FIXED_ROLES = false → ∀ g, assoc role (roles p) = Some g → c ∈ g) ∧
  (∀ r' g, r = Some r' → assoc r' (principals p) = Some g → c ∈ g).
Proof.
  intros Hm Hr. unfold resolve_capabilities. rewrite Hm.
  rewrite bool_decide_false by (by intros []). cbn [orb].
  assert (in_list role FIXED_ROLES && negb (is_token r) = false) as ->.
  { destruct Hr as [-> | ->]; [done|by rewrite andb_false_r]. }
  destruct (in_list role FIXED_ROLES) eqn:Ef;
    [|destruct (assoc role (roles p)) as [g|] eqn:Eg];
    (destruct r as [r|]; [destruct (assoc r (principals p)) as [g'|] eqn:Ep|]);
    rewrite ?elem_of_intersection; naive_solver.
Qed.

(** C23: whatever is stored, however it got there, a caller holds nothing above its role's
    compiled ceiling, and an unknown role holds nothing. Under a policy that was understood, a
    caller who is not an admin person holds exactly the capabilities of the ceiling that its own entry,
    where there is one, lists, and, if its role is not a fixed one, that the entry of its role, where
    there is one, lists as well: an entry stored for the admin role is ignored, so an admin's token is
    narrowed by its own entry alone. *)
Theorem capabilities_within_ceiling role r policy :
  resolve_capabilities role r policy ⊆ ceiling role ∧
  (assoc role ROLE_RANK = None → resolve_capabilities role r policy = ∅) ∧
  (∀ p, policy = Some p → malformed p = None →
    (in_list role FIXED_ROLES = false ∨ is_token r = true) → ∀ c,
    c ∈ resolve_capabilities role r policy ↔
    c ∈ ceiling role ∧
    (in_list role FIXED_ROLES = false → ∀ g, assoc role (roles p) = Some g → c ∈ g) ∧
    (∀ r' g, r = Some r' → assoc r' (principals p) = Some g → c ∈ g)).
Proof.
  pose proof (resolve_subset role r policy) as Hsub. split_and!; [done| |].
  - intros Hn. assert (ceiling role ≡ ∅) as He.
    { intros c. rewrite ceiling_spec, Hn. split; [by intros (?&?&?&_)|set_solver]. }
    set_solver.
  - intros p -> Hm Hr c. by apply resolve_narrows.
Qed.

(** No stored document can strip an admin: a person with the admin role holds the whole admin
    ceiling under every policy, and every caller holds its whole ceiling under no policy and under
    every document the parser rejects. *)
Theorem admin_cannot_be_narrowed r policy document role :
  (is_token r = false → resolve_capabilities "admin" r policy = ceiling "admin") ∧
  resolve_capabilities role r None = ceiling role ∧
  (is_Some (malformed (parse_capability_policy document)) →
   resolve_capabilities role r (Some (parse_capability_policy document)) = ceiling role).
Proof.
  split_and!.
  - intros Ht. unfold resolve_capabilities. destruct policy as [p|]; [|done].
    assert (in_list "admin" FIXED_ROLES = true) as -> by by vm_compute.
    by rewrite Ht, orb_true_r.
  - done.
  - intros Hm. unfold resolve_capabilities. by rewrite bool_decide_true.
Qed.

Lemma flat_map_nil {A B} (f : A → list B) l : flat_map f l = [] → ∀ x, x ∈ l → f x = [].
Proof.
  induction l as [|y l IH]; simpl; [set_solver|]. intros [H1 H2]%app_eq_nil x [->|Hx]%elem_of_cons; auto.
Qed.

Lemma omap_nil {A B} (f : A → option B) l : omap f l = [] → ∀ x, x ∈ l → f x = None.
Proof.
  intros H x Hx. destruct (f x) as [y|] eqn:E; [|done].
  assert (y ∈ omap f l) as Hy by (apply list_elem_of_omap; eauto). rewrite H in Hy. set_solver.
Qed.

(** The write-time check is complete: a policy it reports no problem with does what it says.
    Each role it lists holds exactly the capabilities listed for it, and each principal exactly
    those its entry shares with what its role holds. *)
Theorem policy_without_problems_is_effective p role g :
  capability_policy_errors p = [] → assoc role (roles p) = Some g →
  resolve_capabilities role None (Some p) = g ∧
  ∀ r g', assoc r (principals p) = Some g' → resolve_capabilities role (Some r) (Some p) = g ∩ g'.
Proof.
  unfold capability_policy_errors. destruct (malformed p) eqn:Em; [done|].
  intros [Hroles _]%app_eq_nil Hg. pose proof (assoc_Some _ _ _ Hg) as Hin.
  pose proof (flat_map_nil _ _ Hroles _ Hin) as Hp. unfold role_problems in Hp.
  destruct (assoc role ROLE_RANK) eqn:Er; [|done].
  destruct (in_list role FIXED_ROLES) eqn:Ef; [done|].
  assert (g ⊆ ceiling role) as Hsub.
  { intros c Hc. apply (omap_nil _ _) with (x := c) in Hp.
    - destruct (assoc c PERMISSIONS); [|done]. unfold role_allows in Hp. by case_bool_decide.
    - unfold sorted_names. by rewrite elem_of_sort_by, elem_of_elements. }
  split.
  - apply set_eq. intros c. rewrite resolve_narrows by auto. naive_solver.
  - intros r g' Hg'. apply set_eq. intros c. rewrite resolve_narrows by auto. set_solver.
Qed.

(** The import-time assertions about the tables, and the routes a role can ever reach. *)

Definition route_ok (e : route * string) : bool :=
  let '(rt, c) := e in
  match assoc c PERMISSIONS, assoc rt ROUTE_SCOPE with
  | Some minimum, Some posture =>
      bool_decide (is_Some (assoc minimum ROLE_RANK)) &&
      Bool.eqb (bool_decide (posture = AdminOnly)) (bool_decide (minimum = "admin")) &&
      negb (in_list rt PUBLIC_ROUTES)
  | _, _ => false
  end.

Lemma all_routes_ok : forallb route_ok ROUTE_PERMISSIONS = true.
Proof. vm_compute. reflexivity. Qed.

Lemma same_routes :
  map fst ROUTE_SCOPE = map fst ROUTE_PERMISSIONS ∨
  forallb (fun e => in_list e.1 (map fst ROUTE_PERMISSIONS)) ROUTE_SCOPE = true.
Proof. right. vm_compute. reflexivity. Qed.

Lemma permissions_distinct : NoDup (map fst PERMISSIONS).
Proof. apply (bool_decide_unpack _). vm_compute. reflexivity. Qed.

Lemma permission_for_ok m path c :
  permission_for m path = Some c →
  ∃ minimum posture, assoc c PERMISSIONS = Some minimum ∧
    assoc (m, path) ROUTE_SCOPE = Some posture ∧ is_Some (assoc minimum ROLE_RANK) ∧
    (posture = AdminOnly ↔ minimum = "admin") ∧ (m, path) ∉ PUBLIC_ROUTES.
Proof.
  intros Hc%assoc_Some. pose proof all_routes_ok as Hall.
  apply (proj1 (forallb_forall _ _)) with (x := ((m, path), c)) in Hall;
    [|by apply list_elem_of_In]. unfold route_ok in Hall.
  destruct (assoc c PERMISSIONS) as [minimum|]; [|done].
  destruct (assoc (m, path) ROUTE_SCOPE) as [po|]; [|done].
  apply andb_true_iff in Hall as [[H1 H2]%andb_true_iff H3]. exists minimum, po.
  apply bool_decide_eq_true in H1. apply negb_true_iff, bool_decide_eq_false in H3.
  apply Bool.eqb_prop in H2. split_and!; try done.
  split; intros H; [rewrite (bool_decide_true (po = _)) in H2 by done; symmetry in H2
                   |rewrite (bool_decide_true (minimum = _)) in H2 by done];
    by apply bool_decide_eq_true in H2.
Qed.

(** Only an admin role's ceiling contains a capability whose minimum role is admin. *)
Lemma admin_capability role c :
  assoc c PERMISSIONS = Some "admin" → c ∈ ceiling role → role = "admin".
Proof.
  intros Hc (r & m & Hr & Hin & Hm)%ceiling_spec.
  apply assoc_NoDup in Hin; [|exact permissions_distinct].
  assert (m = "admin") as -> by congruence.
  unfold ROLE_RANK in Hr. simpl in Hr. repeat case_decide; simplify_eq; vm_compute in Hm; done.
Qed.

(** ** Witnesses *)

Definition demo_stored : json :=
  JObj [("version", JInt 1);
        ("roles", JObj [("editor", JList [JStr "alarm.clear"; JStr "stats.read"])]);
        ("principals", JObj [("user:7", JList [JStr "stats.read"])])].

Lemma capabilities_within_ceiling_witness :
  let p := parse_capability_policy (Some demo_stored) in
  resolve_capabilities "editor" (Some "user:7") (Some p) ⊆ ceiling "editor" ∧
  resolve_capabilities "nobody" (Some "user:7") (Some p) = ∅.
Proof.
  split.
  - apply (capabilities_within_ceiling "editor" (Some "user:7")).
  - apply (capabilities_within_ceiling "nobody" (Some "user:7")). reflexivity.
Defined.

Lemma admin_cannot_be_narrowed_witness :
  resolve_capabilities "admin" (Some "user:1") (Some (parse_capability_policy (Some demo_stored)))
    = ceiling "admin" ∧
  resolve_capabilities "viewer" None (Some (parse_capability_policy (Some (JInt 3))))
    = ceiling "viewer".
Proof.
  split.
  - refine (proj1 (admin_cannot_be_narrowed (Some "user:1")
             (Some (parse_capability_policy (Some demo_stored))) None "admin") _). reflexivity.
  - refine (proj2 (proj2 (admin_cannot_be_narrowed None None (Some (JInt 3)) "viewer")) _).
    by eexists.
Defined.

Lemma policy_without_problems_is_effective_witness :
  let p := parse_capability_policy (Some demo_stored) in
  let g : gset string := {["alarm.clear"; "stats.read"]} in
  resolve_capabilities "editor" None (Some p) = g ∧
  ∀ r g', assoc r (principals p) = Some g' → resolve_capabilities "editor" (Some r) (Some p) = g ∩ g'.
Proof.
  apply (policy_without_problems_is_effective (parse_capability_policy (Some demo_stored)) "editor").
  - vm_compute. reflexivity.
  - vm_compute. reflexivity.
Defined.
