(* ===== verification/Scope.v ===== *)
(** * Which rows a principal may see ([crosscutting/shaping/scope.py], [naming.py], [project.py],
    [api/perimeter.py])

    The stored visibility policy, the decision it makes over the inventory, the check an admin gets when
    writing one, and the projections of responses by a resolved scope. Rows and bodies are JSON objects;
    a policy's document is what [json.loads] makes of it. *)
From S2P Require Import Prelude PyLib Json RbacTables Rbac Addresses.

(** ** The policy *)

Record ScopePolicy := MkScopePolicy {
  s_roles : list (string * list string);
  s_principals : list (string * list string);
  s_malformed : option policy_reason }.

Definition selector_lists (raw : option json) : option (list (string * list string)) :=
  match raw with
  | None | Some JNull => Some []
  | Some (JObj fields) =>
      mapM (fun '(subject, selectors) =>
              match selectors with
              | JList l => names ← mapM as_string l; Some (subject, names)
              | _ => None
              end) fields
  | Some _ => None
  end.

Definition parse_scope_policy (document : option json) : ScopePolicy :=
  match document with
  | None => MkScopePolicy [] [] (Some NotJson)
  | Some (JObj fields) =>
      let version := default (JInt 1) (assoc "version" fields) in
      if negb (is_version_1 version) then MkScopePolicy [] [] (Some (BadVersion version))
      else match selector_lists (assoc "roles" fields), selector_lists (assoc "principals" fields) with
      | Some rs, Some ps => MkScopePolicy rs ps None
      | _, _ => MkScopePolicy [] [] (Some BadShape)
      end
  | Some _ => MkScopePolicy [] [] (Some NotObject)
  end.

(** ** The decision *)

Record Scope := MkScope { unrestricted : bool; ne_ids : gset Z; ips : gset string }.
Definition UNRESTRICTED : Scope := MkScope true ∅ ∅.
Definition DENY_ALL : Scope := MkScope false ∅ ∅.

Definition allows_ne (sc : Scope) (ne : option Z) : bool :=
  unrestricted sc || match ne with Some n => bool_decide (n ∈ ne_ids sc) | None => false end.
Definition allows_ip (sc : Scope) (ip : option string) : bool :=
  unrestricted sc || match ip with Some a => bool_decide (a ∈ ips sc) | None => false end.

Definition is_scopable (role : string) : bool := negb (String.eqb role "admin").

(** [s[3:]]. *)
Definition after_ne (selector : string) : string := unchars (drop 3 (chars selector)).

Definition selects (selector : string) (ne_id : Z) (ip : option string) : bool :=
  if String.prefix "ne:" selector then String.eqb (strip (after_ne selector)) (pretty ne_id)
  else
    let text := default "" ip in
    match (if String.eqb text "" then None else ip_address text) with
    | Some address =>
        if has_char "/" selector then
          match ip_network selector with Some net => in_network address net | None => false end
        else match ip_address selector with
             | Some a => bool_decide (address = a)
             | None => fnmatchcase text selector
             end
    | None => fnmatchcase text selector
    end.

Definition layers (policy : ScopePolicy) (role : string) (principal_ref : option string) : list (list string) :=
  option_list (assoc role (s_roles policy)) ++ option_list (principal_ref ≫= fun r => assoc r (s_principals policy)).

Record Ne := MkNe { ne_id : Z; ne_ip : option string }.

Definition named (selectors : list string) (ne : Ne) : bool :=
  existsb (fun s => selects s (ne_id ne) (ne_ip ne)) selectors.

Definition visible_nes (role : string) (principal_ref : option string) (policy : option ScopePolicy) (nes : list Ne) : Scope :=
  if String.eqb role "admin" then UNRESTRICTED
  else match policy with
  | None => UNRESTRICTED
  | Some p =>
      if bool_decide (is_Some (s_malformed p)) then DENY_ALL
      else match layers p role principal_ref with
      | [] => UNRESTRICTED
      | ls =>
          let mine := filter (fun ne => named (concat ls) ne = true) nes in
          MkScope false (list_to_set (map ne_id mine))
            (list_to_set (filter (fun a => a ≠ "") (omap ne_ip mine)))
      end
  end.

(** ** Writing a policy *)

Definition ADDRESS_CHARS : list ascii := chars "0123456789abcdefABCDEF.:/".
Definition GLOB_CHARS : list ascii := chars "*?[]!-".

Definition can_never_match (selector : string) : bool :=
  if String.prefix "ne:" selector then false
  else
    let literal := filter (fun c => c ∉ GLOB_CHARS) (chars selector) in
    negb (Nat.eqb (length literal) 0) && negb (forallb (fun c => bool_decide (c ∈ ADDRESS_CHARS)) literal).

Inductive ScopeProblem :=
| Unreadable (why : policy_reason) | NeverMatches (selector subject : string) | UnknownRole (role : string)
| AdminScoped | BadPrincipal (subject : string).

Definition scope_policy_errors (p : ScopePolicy) : list ScopeProblem :=
  match s_malformed p with
  | Some why => [Unreadable why]
  | None =>
      flat_map (fun e => map (fun s => NeverMatches s e.1) (filter (fun s => can_never_match s = true) e.2))
        (s_roles p ++ s_principals p)
      ++ omap (fun e : string * list string =>
                 if in_list e.1 (map fst ROLE_RANK) then (if String.eqb e.1 "admin" then Some AdminScoped else None)
                 else Some (UnknownRole e.1)) (s_roles p)
      ++ omap (fun e : string * list string =>
                 if String.prefix "user:" e.1 || String.prefix "token:" e.1 then None else Some (BadPrincipal e.1))
           (s_principals p)
  end.

(** ** The perimeter's questions *)

Definition scope_for (role : string) (principal_ref : option string) (policy : option ScopePolicy) (nes : list Ne) : Scope :=
  if negb (is_scopable role) then UNRESTRICTED
  else match policy with
  | None => UNRESTRICTED
  | Some p => if bool_decide (is_Some (s_malformed p)) then DENY_ALL else visible_nes role principal_ref policy nes
  end.

(** The members of a situation, each with its element. *)
Definition situation_in_scope (members : list (Z * option Z)) (sc : Scope) : bool :=
  unrestricted sc || existsb (fun m => allows_ne sc m.2) members.

Definition hidden_member_ids (members : list (Z * option Z)) (sc : Scope) : gset Z :=
  if unrestricted sc then ∅ else list_to_set (map fst (filter (fun m => allows_ne sc m.2 = false) members)).

(** ** A situation's derived name *)

Definition NO_MEMBERS : string := "(no members)".
Definition MAX_NAME_CHARS : nat := 120.
Definition STORM_ALARMS : Z := 50.

(** Python's [unique[1]] raises when a caller counts two devices and names one. *)
Definition derive_situation_name (addresses : list string) (member_count : Z) (device_count : option Z) : option string :=
  let unique := sort_by string_leb (remove_dups (filter (fun a => a ≠ "") addresses)) in
  let devices := Z.max (Z.of_nat (length unique)) (default 0 device_count) in
  match unique with
  | [] => Some NO_MEMBERS
  | first :: rest =>
      if member_count <=? 0 then Some NO_MEMBERS
      else
        let lead := if STORM_ALARMS <=? member_count then "Storm -> " +:+ first else first in
        clip MAX_NAME_CHARS <$>
          (if devices =? 1 then Some lead
           else if (devices =? 2) && (member_count =? 2) then (fun second => first +:+ " <-> " +:+ second) <$> head rest
           else Some (lead +:+ " and " +:+ pretty (devices - 1) +:+ " more"))
  end.

(** ** What a principal sees *)

Lemma elem_concat {A} (x : A) ls : x ∈ concat ls ↔ ∃ l, l ∈ ls ∧ x ∈ l.
Proof. rewrite list_elem_of_In, in_concat. by setoid_rewrite list_elem_of_In. Qed.

Lemma visible_spec role principal_ref p nes n :
  s_malformed p = None -> role ≠ "admin" -> layers p role principal_ref ≠ [] ->
  allows_ne (visible_nes role principal_ref (Some p) nes) (Some n) = true
  ↔ ∃ ne s l, ne ∈ nes ∧ ne_id ne = n ∧ l ∈ layers p role principal_ref ∧ s ∈ l ∧ selects s n (ne_ip ne) = true.
Proof.
  intros Hm Hr Hl. unfold visible_nes, allows_ne. rewrite Hm. destruct (String.eqb_spec role "admin") as [|_]; [done|].
  cbn [bool_decide]. destruct (layers p role principal_ref) as [|l0 ls] eqn:E; [done|]. simpl.
  rewrite bool_decide_eq_true, elem_of_list_to_set, list_elem_of_fmap. setoid_rewrite list_elem_of_filter.
  unfold named. setoid_rewrite existsb_exists. setoid_rewrite <- list_elem_of_In. split.
  - intros (ne & -> & (s & Hs & H) & Hne). apply elem_of_app in Hs.
    destruct Hs as [Hs|(l & Hin & Hs)%elem_concat]; exists ne, s; [exists l0|exists l]; repeat split; try done; [by left|by right].
  - intros (ne & s & l & Hne & <- & Hlm & Hs & H). exists ne. split_and!; try done. exists s. split; [|done].
    apply elem_of_app. apply elem_of_cons in Hlm as [->|Hlm]; [by left|right]. apply elem_concat. eauto.
Qed.

(** The one question the API asks: an administrator sees every element; with no policy, and under one
    that says nothing of this role and principal, so does everyone; a policy that cannot be read shows
    nothing; otherwise what is shown is exactly what a selector of the role's list or of the principal's
    names, an empty list naming nothing. What is not shown is hidden from a situation's members, and a
    situation none of whose members is shown is out of scope. *)
Theorem a_scope_shows_what_its_selectors_name role principal_ref policy nes members n :
  let sc := scope_for role principal_ref policy nes in
  (allows_ne sc (Some n) = true
   ↔ role = "admin" ∨ policy = None
     ∨ ∃ p, policy = Some p ∧ s_malformed p = None
         ∧ (layers p role principal_ref = []
            ∨ ∃ ne s l, ne ∈ nes ∧ ne_id ne = n ∧ l ∈ layers p role principal_ref ∧ s ∈ l ∧ selects s n (ne_ip ne) = true))
  ∧ (unrestricted sc = false ->
     (∀ a, a ∈ hidden_member_ids members sc ↔ ∃ e, (a, e) ∈ members ∧ allows_ne sc e = false)
     ∧ (situation_in_scope members sc = false ↔ ∀ m, m ∈ members -> allows_ne sc m.2 = false)).
Proof.
  intros sc. split.
  - subst sc. unfold scope_for, is_scopable. destruct (String.eqb_spec role "admin") as [->|Hr]; [naive_solver|]. cbn [negb].
    destruct policy as [p|]; [|naive_solver]. destruct (s_malformed p) as [why|] eqn:Hm.
    { rewrite bool_decide_true by done. split; [done|]. intros [|[|(p' & [= <-] & ? & _)]]; congruence. }
    rewrite bool_decide_false by (by intros []). destruct (decide (layers p role principal_ref = [])) as [E|E].
    + split; [intros _; right; right; exists p; auto|intros _]. unfold visible_nes. rewrite Hm, E.
      by destruct (String.eqb_spec role "admin").
    + rewrite visible_spec by done. split; [intros H; right; right; exists p; auto|].
      intros [|[|(p' & [= <-] & _ & [|])]]; done.
  - intros Hu. unfold hidden_member_ids, situation_in_scope. rewrite Hu. split.
    + intros a. rewrite elem_of_list_to_set, list_elem_of_fmap. split.
      * intros ([a' e] & -> & [H Hm]%list_elem_of_filter). eauto.
      * intros (e & Hm & H). exists (a, e). split; [done|]. by apply list_elem_of_filter.
    + simpl. rewrite <- not_true_iff_false, existsb_exists. setoid_rewrite <- list_elem_of_In. split.
      * intros H m Hm. apply not_true_iff_false. intros Ha. apply H. eauto.
      * intros H (m & Hm & Ha). by rewrite H in Ha.
Qed.

(** ** What the check of a policy being written reports *)

Definition address_text (s : string) : Prop := ∀ c, c ∈ chars s -> c ∈ ADDRESS_CHARS.

Lemma by_code (P : ascii -> bool) : forallb P (map Ascii.ascii_of_nat (seq 0 256)) = true -> ∀ a, P a = true.
Proof.
  intros H a. rewrite forallb_forall in H. apply H. rewrite <- (Ascii.ascii_nat_embedding a). apply in_map, in_seq.
  pose proof (Ascii.nat_ascii_bounded a). lia.
Qed.

Lemma dec_address a : is_dec a = true -> a ∈ ADDRESS_CHARS.
Proof.
  intros H. pose proof (by_code (fun a => implb (is_dec a) (bool_decide (a ∈ ADDRESS_CHARS))) ltac:(by vm_compute) a) as G.
  cbv beta in G. rewrite H in G. exact (bool_decide_eq_true_1 _ G).
Qed.

Lemma hex_address a z : hex_value a = Some z -> a ∈ ADDRESS_CHARS.
Proof.
  intros H. pose proof (by_code (fun a => match hex_value a with Some _ => bool_decide (a ∈ ADDRESS_CHARS) | None => true end) ltac:(by vm_compute) a) as G.
  cbv beta in G. rewrite H in G. exact (bool_decide_eq_true_1 _ G).
Qed.

Lemma split_address sep s : sep ∈ ADDRESS_CHARS -> (∀ p, p ∈ split sep s -> address_text p) -> address_text s.
Proof.
  intros Hs H c Hc. destruct (split_elem sep s c Hc) as [->|(p & Hp & Hcp)]; [done|]. by apply (H p).
Qed.

Lemma octet_address s z : parse_octet s = Some z -> address_text s.
Proof.
  unfold parse_octet, all_dec. intros H c Hc. destruct (chars s) as [|a l]; [by apply elem_of_nil in Hc|].
  destruct (forallb is_dec (a :: l)) eqn:E; [|done]. rewrite forallb_forall in E. apply dec_address, E. by apply list_elem_of_In.
Qed.

Lemma mapM_elem {A B} (f : A -> option B) l k a : mapM f l = Some k -> a ∈ l -> ∃ b, f a = Some b.
Proof.
  intros H%mapM_Some [i Hi]%list_elem_of_lookup. destruct (Forall2_lookup_l _ _ _ _ _ H Hi) as (b & _ & Hb). eauto.
Qed.

Lemma ip4_address_text s n : ip4_int s = Some n -> address_text s.
Proof.
  unfold ip4_int. intros H. apply (split_address "."); [by apply (bool_decide_unpack _); vm_compute|]. intros p Hp.
  destruct (split "." s) as [|a [|b [|c [|d [|]]]]]; try done. apply fmap_Some in H as (k & Hk & _).
  destruct (mapM_elem _ _ _ _ Hk Hp) as [z Hz]. by eapply octet_address.
Qed.

Definition part_text (p : Part) : Prop := match p with Text s => address_text s | Hextet _ => True end.

Lemma hextet_text p z : parse_hextet p = Some z -> part_text p.
Proof.
  destruct p as [s|]; [|done]. cbn [parse_hextet part_text]. intros H c Hc. destruct (chars s) as [|a l]; [by apply elem_of_nil in Hc|].
  destruct (Nat.ltb _ _); [done|]. apply fmap_Some in H as (k & Hk & _). destruct (mapM_elem _ _ _ _ Hk Hc) as [v Hv].
  by eapply hex_address.
Qed.

Lemma hextets_text hi n lo z p : hextets_int hi n lo = Some z -> p ∈ hi ++ lo -> part_text p.
Proof.
  unfold hextets_int. intros H Hp. apply bind_Some in H as (hs & Hhs & H). apply bind_Some in H as (ls & Hls & _).
  apply elem_of_app in Hp as [Hp|Hp]; [destruct (mapM_elem _ _ _ _ Hhs Hp)|destruct (mapM_elem _ _ _ _ Hls Hp)]; by eapply hextet_text.
Qed.

Lemma blank_text p : blank p = true -> part_text p.
Proof. destruct p as [s|]; [|done]. simpl. intros ->%String.eqb_eq c Hc. by apply elem_of_nil in Hc. Qed.

(** Every part of an address that parses is empty or was read: before the gap, and after it. *)
Lemma before_gap ps i j (p : Part) :
  let first := blank (nth 0 ps (Hextet 0)) in
  let hi := if first then (i - 1)%nat else i in
  first && negb (Nat.eqb hi 0) = false -> ps !! j = Some p -> (j < i)%nat -> blank p = true ∨ p ∈ take hi ps.
Proof.
  intros first hi H Hj Hlt. subst hi. destruct first eqn:E; simpl in H.
  - destruct (Nat.eqb_spec (i - 1) 0) as [Hi|]; [|done]. assert (j = 0%nat) as -> by lia.
    left. subst first. by rewrite (nth_lookup_Some _ _ _ _ Hj) in E.
  - right. apply list_elem_of_lookup. exists j. by apply lookup_take_Some.
Qed.

Lemma after_gap ps i j (p : Part) :
  let final := blank (List.last ps (Hextet 0)) in
  let lo := if final then (length ps - i - 2)%nat else (length ps - i - 1)%nat in
  final && negb (Nat.eqb lo 0) = false -> ps !! j = Some p -> (i < j)%nat -> blank p = true ∨ p ∈ drop (length ps - lo) ps.
Proof.
  intros final lo H Hj Hlt. pose proof (lookup_lt_Some _ _ _ Hj) as Hn. subst lo. destruct final eqn:E; simpl in H.
  - destruct (Nat.eqb_spec (length ps - i - 2) 0) as [Hi|]; [|done]. assert (j = (length ps - 1)%nat) as -> by lia.
    left. subst final. destruct ps as [|q ps _] using rev_ind; [done|]. rewrite List.last_last in E.
    rewrite length_app in Hj. simpl in Hj. rewrite lookup_app_r in Hj by lia.
    replace (length ps + 1 - 1 - length ps)%nat with 0%nat in Hj by lia. by injection Hj as <-.
  - right. apply list_elem_of_lookup. exists (j - (i + 1))%nat. rewrite lookup_drop, <- Hj. f_equal. lia.
Qed.

Lemma ip6_parts_text ps n p : ip6_parts ps = Some n -> p ∈ ps -> part_text p.
Proof.
  intros H Hp. unfold ip6_parts in H. destruct (Nat.ltb _ _); [done|]. destruct (gaps ps) as [|i [|]] eqn:Eg; [| |done].
  - destruct (_ || _); [done|]. eapply hextets_text; [exact H|]. by rewrite app_nil_r.
  - assert (Hi : i ∈ gaps ps) by (rewrite Eg; by left). apply list_elem_of_filter in Hi as [Hb _].
    apply list_elem_of_lookup in Hp as [j Hj].
    destruct (blank (nth 0 ps _) && _) eqn:Ef; [done|]. destruct (blank (List.last ps _) && _) eqn:El; [done|].
    destruct (Nat.ltb _ _); [done|]. destruct (Nat.lt_trichotomy j i) as [Hlt|[->|Hlt]].
    + destruct (before_gap _ _ _ _ Ef Hj Hlt); [by apply blank_text|]. eapply hextets_text; [exact H|]. apply elem_of_app. by left.
    + apply blank_text. by rewrite (nth_lookup_Some _ _ _ _ Hj) in Hb.
    + destruct (after_gap _ _ _ _ El Hj Hlt); [by apply blank_text|]. eapply hextets_text; [exact H|]. apply elem_of_app. by right.
Qed.

Lemma ip6_int_text s n : ip6_int s = Some n -> address_text s.
Proof.
  unfold ip6_int. intros H. destruct (String.eqb _ _); [done|]. destruct (Nat.ltb _ _) eqn:Hl; [done|].
  apply bind_Some in H as (ps & Hps & H). apply (split_address ":"); [by apply (bool_decide_unpack _); vm_compute|].
  intros p Hp. unfold with_suffix in Hps. set (parts := split ":" s) in *. destruct (has_char _ _).
  - apply bind_Some in Hps as (v & Hv & [= <-]). assert (parts ≠ []) as Hne by (by intros E; rewrite E in Hp; apply elem_of_nil in Hp).
    rewrite (app_removelast_last "" Hne) in Hp. apply elem_of_app in Hp as [Hp|Hp%list_elem_of_singleton].
    + apply (ip6_parts_text _ _ (Text p) H). apply elem_of_app. left. apply list_elem_of_fmap. by exists p.
    + subst p. unfold ip4_address in Hv. destruct (has_char _ _); [done|]. by eapply ip4_address_text.
  - injection Hps as <-. apply (ip6_parts_text _ _ (Text p) H). apply list_elem_of_fmap. by exists p.
Qed.

Lemma ip6_address_text s az : "%"%char ∉ chars s -> ip6_address s = Some az -> address_text s.
Proof.
  unfold ip6_address, split_zone. intros Hz H. destruct (has_char _ _); [done|]. rewrite split_one in H by done.
  apply bind_Some in H as (az' & [= <-] & H). apply bind_Some in H as (n & Hn & _). by eapply ip6_int_text.
Qed.

Lemma ip4_text s n : ip4_address s = Some n -> address_text s.
Proof. unfold ip4_address. destruct (has_char _ _); [done|]. apply ip4_address_text. Qed.

Lemma ip_address_is_text s a : "%"%char ∉ chars s -> ip_address s = Some a -> address_text s.
Proof.
  unfold ip_address. intros Hz H. destruct (ip4_address s) eqn:E; [by eapply ip4_text|].
  apply fmap_Some in H as (az & H & _). by eapply ip6_address_text.
Qed.

Lemma prefix_string_text w s p : prefix_string w s = Some p -> address_text s.
Proof.
  unfold prefix_string, all_dec. intros H c Hc. destruct (chars s) as [|a l]; [by apply elem_of_nil in Hc|].
  destruct (forallb is_dec (a :: l)) eqn:E; [|done]. rewrite forallb_forall in E. apply dec_address, E. by apply list_elem_of_In.
Qed.

Lemma ip_network_is_text s net : "%"%char ∉ chars s -> ip_network s = Some net -> address_text s.
Proof.
  intros Hz H. unfold ip_network in H. apply (split_address "/"); [by apply (bool_decide_unpack _); vm_compute|].
  intros p Hp. assert (Hzp : ∀ q, q ∈ split "/" s -> "%"%char ∉ chars q) by (intros q Hq Hc; apply Hz; by eapply split_part).
  destruct (split "/" s) as [|a [|m [|]]] eqn:E; try done.
  - apply list_elem_of_singleton in Hp as ->. specialize (Hzp a ltac:(by left)).
    destruct (ip4_address a) eqn:E4; [by eapply ip4_text|]. apply bind_Some in H as (nz & H & _). by eapply ip6_address_text.
  - pose proof (Hzp a ltac:(by left)) as Hza.
    match type of H with match ?x with _ => _ end = _ => destruct x eqn:E4 end.
    + destruct (ip4_address a) eqn:Ea; [|done]. apply bind_Some in E4 as (k & Hk & _).
      apply elem_of_cons in Hp as [-> | ->%list_elem_of_singleton]; [by eapply ip4_text|].
      destruct (prefix_string 32 m) eqn:Em; [by eapply prefix_string_text|].
      unfold prefix_mask in Hk. apply bind_Some in Hk as (v & Hv & _). by eapply ip4_address_text.
    + apply bind_Some in H as (nz & Hn & H). apply bind_Some in H as (k & Hk & _).
      apply elem_of_cons in Hp as [-> | ->%list_elem_of_singleton]; [by eapply ip6_address_text|by eapply prefix_string_text].
Qed.

Lemma matches_literal ps l c : matches ps l = true -> Lit c ∈ ps -> c ∈ l.
Proof.
  revert l. induction ps as [|p ps IH]; intros l H Hc; [by apply elem_of_nil in Hc|].
  destruct p as [| |b|neg rs|]; try (cbn [matches] in H; destruct l as [|a l]; [done|];
    apply andb_true_iff in H as [Hp H]; apply elem_of_cons in Hc as [Hc|Hc]; [|right; by apply IH];
    try done; injection Hc as <-; simpl in Hp; apply Ascii.eqb_eq in Hp as ->; by left).
  apply elem_of_cons in Hc as [|Hc]; [done|]. cbn [matches] in H. induction l as [|a l IHl].
  - apply orb_true_iff in H as [H|]; [|done]. by apply IH.
  - apply orb_true_iff in H as [H|H]; [by apply IH|]. right. by apply IHl.
Qed.

Lemma pieces_literal l c n :
  "["%char ∉ l -> (length l <= n)%nat -> c ∈ l -> c ∉ GLOB_CHARS -> Lit c ∈ pieces n l.
Proof.
  revert n. induction l as [|a l IH]; intros n Hb Hn Hc Hg; [by apply elem_of_nil in Hc|].
  destruct n as [|n]; [simpl in Hn; lia|]. apply not_elem_of_cons in Hb as [Ha Hb]. cbn [pieces]. simpl in Hn.
  assert (G : ∀ b, b ∈ GLOB_CHARS -> a = b -> c ∈ l).
  { intros b Hin ->. apply elem_of_cons in Hc as [->|]; done. }
  destruct (Ascii.eqb_spec a "*"); [right; apply IH; try done; [lia|]; by apply (G "*"%char); [apply (bool_decide_unpack _); vm_compute|]|].
  destruct (Ascii.eqb_spec a "?"); [right; apply IH; try done; [lia|]; by apply (G "?"%char); [apply (bool_decide_unpack _); vm_compute|]|].
  destruct (Ascii.eqb_spec a "["); [congruence|].
  apply elem_of_cons in Hc as [->|Hc]; [by left|right]. apply IH; try done. lia.
Qed.

(** A selector the check reports as one that can never match selects no element, whatever its number
    and its address, unless it holds a bracket or a zone. *)
Theorem a_flagged_selector_selects_nothing s n ip :
  can_never_match s = true -> "["%char ∉ chars s -> "%"%char ∉ chars s ->
  match ip with Some a => address_text a | None => True end -> selects s n ip = false.
Proof.
  intros Hc Hb Hz Hip. unfold can_never_match in Hc. unfold selects. destruct (String.prefix "ne:" s); [done|].
  apply andb_true_iff in Hc as [_ Hc%negb_true_iff]. apply not_true_iff_false in Hc. rewrite forallb_forall in Hc.
  assert (∃ c, c ∈ chars s ∧ c ∉ GLOB_CHARS ∧ c ∉ ADDRESS_CHARS) as (c & Hcs & Hg & Ha).
  { destruct (list_find (fun c => c ∉ ADDRESS_CHARS) (filter (fun c => c ∉ GLOB_CHARS) (chars s))) as [[i c]|] eqn:E.
    - apply list_find_Some in E as (E & Hn & _). apply list_elem_of_lookup_2 in E. apply list_elem_of_filter in E as [? ?]. eauto.
    - exfalso. apply Hc. intros c Hin. apply bool_decide_eq_true. apply list_find_None in E. rewrite Forall_forall in E.
      destruct (decide (c ∈ ADDRESS_CHARS)); [done|]. exfalso. eapply E; [|done]. by apply list_elem_of_In. }
  assert (¬ address_text s) as Ht by (intros H; by apply Ha, H).
  assert (fnmatchcase (default "" ip) s = false) as Hf.
  { apply not_true_iff_false. intros H. unfold fnmatchcase in H.
    pose proof (matches_literal _ _ c H (pieces_literal _ c _ Hb (le_n _) Hcs Hg)) as Hin.
    destruct ip as [a|]; [by apply Ha, Hip|by apply elem_of_nil in Hin]. }
  destruct (if String.eqb _ _ then _ else _) as [a|]; [|done].
  destruct (has_char _ _).
  - destruct (ip_network s) as [net|] eqn:E; [|done]. exfalso. by eapply Ht, ip_network_is_text.
  - destruct (ip_address s) as [b|] eqn:E; [|done]. exfalso. by eapply Ht, ip_address_is_text.
Qed.

Lemma address_text_eval s : forallb (fun c => bool_decide (c ∈ ADDRESS_CHARS)) (chars s) = true -> address_text s.
Proof. intros H c Hc. rewrite forallb_forall in H. exact (bool_decide_eq_true_1 _ (H c (proj1 (list_elem_of_In _ _) Hc))). Qed.

Lemma a_flagged_selector_selects_nothing_witness :
  can_never_match "core-*" = true ∧ selects "core-*" 7 (Some "10.0.0.7") = false.
Proof.
  split; [vm_compute; reflexivity|]. apply (a_flagged_selector_selects_nothing "core-*" 7 (Some "10.0.0.7")).
  - vm_compute. reflexivity.
  - apply (bool_decide_unpack _). vm_compute. exact I.
  - apply (bool_decide_unpack _). vm_compute. exact I.
  - apply address_text_eval. vm_compute. reflexivity.
Defined.

(** With a bracket or a zone it may: the check reports selectors that select. *)
Example a_flagged_selector_may_match :
  map (fun p => (can_never_match p.1, selects p.1 1 (Some p.2))) [("[0-9x]*", "10.0.0.1"); ("fe80::1%wan/64", "fe80::5")]
  = [(true, true); (true, true)].
Proof. vm_compute. reflexivity. Qed.

(** A policy at work: an editor scoped to a network, and a token to nothing. *)
Definition demo_nes : list Ne := [MkNe 1 (Some "10.0.0.1"); MkNe 2 (Some "10.0.9.1"); MkNe 3 (Some "fe80::5"); MkNe 4 None].
Definition demo_scope : option ScopePolicy :=
  Some (MkScopePolicy [("editor", ["10.0.0.0/21"; "ne:3"])] [("token:5", [])] None).

Lemma a_scope_shows_what_its_selectors_name_witness :
  let sc := scope_for "editor" (Some "user:1") demo_scope demo_nes in
  let none := scope_for "viewer" (Some "token:5") demo_scope demo_nes in
  map (fun n => (allows_ne sc (Some n), allows_ne none (Some n))) [1; 2; 3; 4] = [(true, false); (false, false); (true, false); (false, false)]
  ∧ situation_in_scope [(70, Some 2); (71, None)] sc = false.
Proof.
  split; [vm_compute; reflexivity|].
  apply (a_scope_shows_what_its_selectors_name "editor" (Some "user:1") demo_scope demo_nes [(70, Some 2); (71, None)] 0); [vm_compute; reflexivity|].
  intros m [-> | [-> | []%elem_of_nil]%elem_of_cons]%elem_of_cons; vm_compute; reflexivity.
Defined.
