(* ===== verification/Shaping.v ===== *)
(** * What a response shows of a row ([crosscutting/shaping/fields.py], [naming.py], [project.py])

    Fields by role, and situations, lists and graphs by scope. [repr] is [str] of a number or a
    container, where the source asks for the text of a value that is no string. *)
From S2P Require Import Prelude PyLib Json RbacTables Rbac Addresses Scope.

(** ** Fields *)

Inductive FieldAction := Coarsen | Drop.
#[global] Instance field_action_eq_dec : EqDecision FieldAction.
Proof. solve_decision. Defined.

Definition COMPOSITE : list string :=
  ["derived_name"; "operator_name"; "model_name"; "device"; "device_label"; "class"; "class_label"; "label"].

Definition FIELD_RULES : list (string * (string * FieldAction)) :=
  [("ip", ("editor", Coarsen)); ("device_ip", ("editor", Coarsen)); ("device", ("editor", Coarsen));
   ("derived_name", ("editor", Coarsen)); ("operator_name", ("editor", Coarsen)); ("model_name", ("editor", Coarsen));
   ("device_label", ("editor", Coarsen)); ("class_label", ("editor", Coarsen)); ("class", ("editor", Coarsen));
   ("label", ("editor", Coarsen)); ("key", ("editor", Coarsen)); ("root_port", ("editor", Coarsen));
   ("actor_name", ("editor", Drop)); ("actor_display", ("editor", Drop)); ("actor_avatar", ("editor", Drop));
   ("source_ip", ("admin", Drop)); ("community_tag", ("editor", Drop))].

Definition role_rank (role : option string) : Z := default (-1) (assoc (default "" role) ROLE_RANK).

Definition allowed (role : option string) (min_role : string) : bool := default 0 (assoc min_role ROLE_RANK) <=? role_rank role.

(** [FIELD_RULES["ip"][0]] and [FIELD_RULES["actor_name"][0]]. *)
Definition rule_role (field : string) : string := default "" (fst <$> assoc field FIELD_RULES).
Definition sees_raw_addresses (role : option string) : bool := allowed role (rule_role "ip").
Definition sees_people (role : option string) : bool := allowed role (rule_role "actor_name").

(** A network's address never fails to parse: it is made of one that did. *)
Definition coarsen_text (s : string) : string :=
  match ip_address s with
  | None => s
  | Some a =>
      let prefix := match a with V4 _ => 24 | V6 _ _ => 48 end in
      match ip_network (s +:+ "/" +:+ pretty prefix) with Some net => network_text net | None => s end
  end.

Definition coarsen_ip (value : json) : json := match value with JStr s => JStr (coarsen_text s) | v => v end.

Definition contains_address (text : string) : bool :=
  existsb (fun token => negb (String.eqb (coarsen_text token) token)) (split " " text).

Definition coarsen_situation_name (name : json) : json :=
  match name with
  | JStr s => if String.eqb s "" then name else JStr (join " " (map coarsen_text (split " " s)))
  | v => v
  end.

(** What is done to a field: [None] leaves it out. *)
Definition shape_field (role : option string) (k : string) (value shaped : json) : option json :=
  match assoc k FIELD_RULES with
  | Some (min_role, action) =>
      if allowed role min_role then Some shaped
      else match action with
      | Drop => None
      | Coarsen => Some (if in_list k COMPOSITE then coarsen_situation_name value else coarsen_ip value)
      end
  | None => Some shaped
  end.

Fixpoint shape (role : option string) (v : json) : json :=
  match v with
  | JList l => JList (map (shape role) l)
  | JObj d =>
      JObj ((fix go (d : list (string * json)) : list (string * json) :=
        match d with
        | [] => []
        | (k, value) :: d =>
            match shape_field role k value (shape role value) with
            | Some shaped => (k, shaped) :: go d
            | None => go d
            end
        end) d)
  | v => v
  end.

(** ** Rows by scope *)

Definition as_int (value : json) : option Z :=
  match value with
  | JInt z => Some z
  | JBool b => Some (if b then 1 else 0)
  | JFloat f => if f_finite f then Some (f_trunc f) else None
  | JStr s => py_int s
  | _ => None
  end.

(** [row.get(key)]. *)
Definition get (key : string) (row : list (string * json)) : json := default JNull (assoc key row).

Definition truthy (v : json) : bool :=
  match v with
  | JNull => false
  | JBool b => b
  | JInt z => negb (z =? 0)
  | JFloat f => negb (feqb f f_zero)
  | JStr s => negb (String.eqb s "")
  | JList l => negb (Nat.eqb (length l) 0)
  | JObj d => negb (Nat.eqb (length d) 0)
  end.
Definition or_else (a b : json) : json := if truthy a then a else b.

Abbreviation Row := (list (string * json)).

Definition filter_rows (rows : list Row) (sc : Scope) (ne_key : string) : list Row :=
  if unrestricted sc then rows else filter (fun row => allows_ne sc (as_int (get ne_key row)) = true) rows.

Definition project_situation_row (row : Row) (member_nes : list (option Z)) (sc : Scope) : option Row :=
  let shown := length (filter (fun n => allows_ne sc n = true) member_nes) in
  if Nat.eqb shown 0 then None
  else
    let redacted := (length member_nes - shown)%nat in
    let out := dict_set "redacted_count" (JInt (Z.of_nat redacted)) (dict_set "alarm_count" (JInt (Z.of_nat shown)) row) in
    Some (if Nat.eqb redacted 0 then out else dict_set "derived_name" JNull out).

(** A list of objects under a key; the empty list when there is none. *)
Definition rows_of (key : string) (d : Row) : list Row :=
  match assoc key d with
  | Some (JList l) => omap (fun v => match v with JObj r => Some r | _ => None end) l
  | _ => []
  end.
Definition of_rows (rows : list Row) : json := JList (map JObj rows).

Definition id_in (visible : list (option Z)) (v : json) : bool := in_list (as_int v) visible.

Definition project_graph (snapshot : Row) (sc : Scope) : Row :=
  if unrestricted sc then snapshot
  else
    let ip_of (node : Row) := match get "ip" node with JStr s => Some s | _ => None end in
    let nodes := filter (fun node => allows_ip sc (ip_of node) = true) (rows_of "nodes" snapshot) in
    let visible := map (fun node => as_int (get "id" node)) nodes in
    let edges := filter (fun edge => id_in visible (get "a_id" edge) && id_in visible (get "b_id" edge) = true) (rows_of "edges" snapshot) in
    dict_set "edges" (of_rows edges) (dict_set "nodes" (of_rows nodes) snapshot).

Section project.
Context (repr : json -> string).

Definition str_of (v : json) : string := match v with JStr s => s | v => repr v end.

(** The element of an alarm; an id of 0 is looked up as -1. *)
Definition element_of (member_ne_ids : list (Z * option Z)) (alarm : Row) : option Z :=
  let key := match as_int (get "id" alarm) with Some z => if z =? 0 then -1 else z | None => -1 end in
  default None (assoc key member_ne_ids).

Definition class_text (alarm : Row) : string :=
  str_of (or_else (get "class_name" alarm) (or_else (get "class_oid" alarm) (JStr ""))).

Definition NOTE : string :=
  " further member(s) of this situation are outside your visibility scope and are not shown. Scoping hides them from you; it does not stop them correlating.".

Definition redacted (hidden : list Row) : json :=
  JObj [("count", JInt (Z.of_nat (length hidden)));
        ("classes", JList (map JStr (sort_by string_leb (remove_dups (map class_text hidden)))));
        ("note", JStr (pretty (Z.of_nat (length hidden)) +:+ NOTE))].

(** The name of what is shown. *)
Definition visible_name (visible : list Row) : option string :=
  derive_situation_name (map (fun a => str_of (or_else (get "device_ip" a) (JStr ""))) visible) (Z.of_nat (length visible)) None.

Definition project_situation_detail (detail : Row) (sc : Scope) (member_ne_ids : list (Z * option Z)) : option Row :=
  if unrestricted sc then Some detail
  else
    let seen (alarm : Row) := allows_ne sc (element_of member_ne_ids alarm) in
    let visible := filter (fun a => seen a = true) (rows_of "alarms" detail) in
    let hidden := filter (fun a => seen a = false) (rows_of "alarms" detail) in
    match visible with
    | [] => None
    | _ =>
        let ids := map (fun a => as_int (get "id" a)) visible in
        let links := filter (fun l => id_in ids (get "alarm_a" l) && id_in ids (get "alarm_b" l) = true) (rows_of "links" detail) in
        let out := dict_set "links" (of_rows links) (dict_set "alarms" (of_rows visible) detail) in
        let out := match hidden with
                   | [] => out
                   | _ => dict_set "derived_name" (match visible_name visible with Some n => JStr n | None => JNull end) out
                   end in
        let out := if id_in ids (get "root_alarm_id" out) then out else dict_set "root_alarm_id" JNull out in
        Some (match hidden with [] => out | _ => dict_set "redacted_members" (redacted hidden) out end)
    end.
End project.

(** ** A coarsened address is its network *)

Lemma split_suffix s : "/"%char ∉ chars s -> ∀ m, "/"%char ∉ chars m -> split "/" (s +:+ "/" +:+ m) = [s; m].
Proof.
  intros Hs m Hm. unfold split. rewrite chars_app. change (chars ("/" +:+ m)) with ("/"%char :: chars m).
  rewrite split_chars_app by done. simpl. rewrite split_chars_last by done. simpl.
  by rewrite !app_nil_r, !reverse_involutive, !unchars_chars.
Qed.

Lemma has_no_slash s a : ip_address s = Some a -> "/"%char ∉ chars s.
Proof.
  unfold ip_address, ip4_address, ip6_address, has_char. intros H. case_bool_decide as E; [done|exact E].
Qed.

Definition coarse_prefix (a : Ip) : Z := match a with V4 _ => 24 | V6 _ _ => 48 end.
Definition coarse (a : Ip) : Ip :=
  match a with
  | V4 n => V4 (Z.land n (netmask 32 24))
  | V6 n z => V6 (Z.land n (netmask 128 48)) (if Z.land n (netmask 128 48) =? n then z else None)
  end.

Lemma coarsen_address s a : ip_address s = Some a -> coarsen_text s = network_text (MkNetwork (coarse a) (coarse_prefix a)).
Proof.
  intros H. unfold coarsen_text. rewrite H. pose proof (has_no_slash _ _ H) as Hs. unfold ip_address in H.
  assert (∀ m, "/"%char ∉ chars m -> split "/" (s +:+ "/" +:+ m) = [s; m]) as Hsp by (by apply split_suffix).
  unfold ip_network. destruct (ip4_address s) as [n|] eqn:E4.
  - injection H as <-. rewrite (Hsp (pretty 24)) by (apply (bool_decide_unpack _); by vm_compute). rewrite E4. done.
  - apply fmap_Some in H as ([n z] & E6 & ->). rewrite (Hsp (pretty 48)) by (apply (bool_decide_unpack _); by vm_compute).
    rewrite E4, E6. done.
Qed.

(** ** Two bodies a role cannot tell apart *)

Definition zoneless (a : Ip) : Prop := match a with V4 _ => True | V6 _ z => z = None end.

(** Two addresses of one network, or one text. *)
Definition same_net (s t : string) : Prop :=
  s = t ∨ ∃ a b, ip_address s = Some a ∧ ip_address t = Some b ∧ zoneless a ∧ zoneless b ∧ width a = width b
               ∧ Z.shiftr (value a) (width a - coarse_prefix a) = Z.shiftr (value b) (width b - coarse_prefix b).

Lemma same_net_coarsen s t : same_net s t -> coarsen_text s = coarsen_text t.
Proof.
  intros [->|(a & b & Ha & Hb & Za & Zb & Hw & Hv)]; [done|].
  rewrite (coarsen_address _ _ Ha), (coarsen_address _ _ Hb). apply ip_address_range in Ha, Hb.
  destruct a as [n|n za], b as [m|m zb]; simpl in *; try done; subst.
  - by rewrite (proj2 (netmask_same 32 24 n m ltac:(lia) Ha Hb) Hv).
  - rewrite (proj2 (netmask_same 128 48 n m ltac:(lia) Ha Hb) Hv). by repeat case_match.
Qed.

(** A field as its rule reads it: one address, or the words of a text. *)
Inductive address_alike (k : string) : json -> json -> Prop :=
| aa_same v : address_alike k v v
| aa_one s t : k ∉ COMPOSITE -> same_net s t -> address_alike k (JStr s) (JStr t)
| aa_words s t : k ∈ COMPOSITE -> Forall2 same_net (split " " s) (split " " t) -> address_alike k (JStr s) (JStr t).

(** What is done to a field this role may not see in full. *)
Definition rule_of (role : option string) (k : string) : option FieldAction :=
  match assoc k FIELD_RULES with
  | Some (min_role, action) => if allowed role min_role then None else Some action
  | None => None
  end.

(** One shape, and one value wherever the role sees the value; where it sees the network, one network;
    what it does not see may be anything. *)
Inductive alike (role : option string) : json -> json -> Prop :=
| alike_same v : alike role v v
| alike_list l k : Forall2 (alike role) l k -> alike role (JList l) (JList k)
| alike_obj d e : Forall2 (entry_alike role) d e -> alike role (JObj d) (JObj e)
with entry_alike (role : option string) : string * json -> string * json -> Prop :=
| entry_dropped k v w : rule_of role k = Some Drop -> entry_alike role (k, v) (k, w)
| entry_coarse k v w : rule_of role k = Some Coarsen -> address_alike k v w -> entry_alike role (k, v) (k, w)
| entry_kept k v w : rule_of role k = None -> alike role v w -> entry_alike role (k, v) (k, w).

Lemma coarsen_name_words s : coarsen_situation_name (JStr s) = JStr (join " " (map coarsen_text (split " " s))).
Proof. simpl. by destruct (String.eqb_spec s "") as [->|]. Qed.

Lemma coarsen_alike k v w :
  address_alike k v w ->
  (if in_list k COMPOSITE then coarsen_situation_name v else coarsen_ip v) = (if in_list k COMPOSITE then coarsen_situation_name w else coarsen_ip w).
Proof.
  intros [v'|s t Hk H|s t Hk H]; [done| |]; unfold in_list.
  - rewrite bool_decide_false by done. simpl. by rewrite (same_net_coarsen _ _ H).
  - rewrite bool_decide_true by done. rewrite !coarsen_name_words. do 2 f_equal.
    induction H as [|x y l l' Hxy _ IH]; simpl; [done|]. by rewrite (same_net_coarsen _ _ Hxy), IH.
Qed.

Lemma shape_field_rule role k v sv :
  shape_field role k v sv = match rule_of role k with
                            | None => Some sv
                            | Some Drop => None
                            | Some Coarsen => Some (if in_list k COMPOSITE then coarsen_situation_name v else coarsen_ip v)
                            end.
Proof. unfold shape_field, rule_of. destruct (assoc k FIELD_RULES) as [[m a]|]; [|done]. by destruct (allowed role m), a. Qed.

Definition shape_entries (role : option string) : list (string * json) -> list (string * json) :=
  fix go d :=
    match d with
    | [] => []
    | (k, value) :: d =>
        match shape_field role k value (shape role value) with
        | Some shaped => (k, shaped) :: go d
        | None => go d
        end
    end.

(** C34: Bodies that are alike for a role — equal but for the values of the fields the role may not see, and
    but for, in the fields it sees coarsened, addresses of one network (without an IPv6 zone) put for one
    another — are shaped to one body, so the response does not tell them apart. In a coarsened field the address is the whole text,
    or, where the field is a composite name, a word between single spaces; a text the coarsening does not
    recognise as an address is not alike to any other and is shown as it is. So an address that follows a
    tab, in a composite name, is not covered (Example [a_tab_hides_an_address]: it is shown whole, though
    the comment on [coarsen_name] has every whitespace-separated word coarsened). *)
Theorem a_shaped_body_shows_networks_only role v w : alike role v w -> shape role v = shape role w.
Proof.
  revert w. induction v as [| | | | |l IH|d IH] using json_nested; intros w H; inversion H; subst; try done.
  - simpl. f_equal. match goal with F : Forall2 _ l _ |- _ => clear H; revert IH; induction F as [|x y l' k' Hxy _ IHF]; intros IH; [done|] end.
    apply Forall_cons in IH as [Hx IH]. simpl. rewrite (Hx y Hxy). by rewrite (IHF IH).
  - change (JObj (shape_entries role d) = JObj (shape_entries role e)). f_equal.
    match goal with F : Forall2 _ d _ |- _ => clear H; revert IH; induction F as [|x y d' e' Hxy _ IHF]; intros IH; [done|] end.
    apply Forall_cons in IH as [Hx IH]. specialize (IHF IH). destruct Hxy as [k v w Hr|k v w Hr Ha|k v w Hr Ha]; simpl; rewrite !shape_field_rule, Hr, IHF; try done.
    + by rewrite (coarsen_alike _ _ _ Ha).
    + specialize (Hx w Ha). simpl in Hx. by rewrite Hx.
Qed.

(** For those roles. *)
Lemma a_shaped_body_shows_networks_only_witness :
  let body host octet who := JObj [("ip", JStr ("10.0.7." +:+ octet)); ("device_label", JStr ("core at 10.0.7." +:+ octet));
    ("actor_name", JStr who); ("alarms", JList [JObj [("key", JStr host); ("count", JInt 3)]])] in
  shape (Some "viewer") (body "2001:db8::1" "17" "ana") = shape (Some "viewer") (body "2001:db8:0:9::2" "201" "bruno")
  ∧ shape (Some "viewer") (body "2001:db8::1" "17" "ana")
    = JObj [("ip", JStr "10.0.7.0/24"); ("device_label", JStr "core at 10.0.7.0/24");
            ("alarms", JList [JObj [("key", JStr "2001:db8::/48"); ("count", JInt 3)]])].
Proof.
  split; [|vm_compute; reflexivity]. apply a_shaped_body_shows_networks_only. cbv zeta beta.
  assert (N4 : same_net "10.0.7.17" "10.0.7.201").
  { right. exists (V4 0x0A000711), (V4 0x0A0007C9). split_and!; vm_compute; done. }
  assert (N6 : same_net "2001:db8::1" "2001:db8:0:9::2").
  { right. exists (V6 0x20010DB8000000000000000000000001 None), (V6 0x20010DB8000000090000000000000002 None). split_and!; vm_compute; done. }
  apply alike_obj. constructor; [|constructor; [|constructor; [|constructor; [|constructor]]]].
  - apply entry_coarse; [vm_compute; reflexivity|]. apply aa_one; [|exact N4]. apply (bool_decide_unpack _). vm_compute. exact I.
  - apply entry_coarse; [vm_compute; reflexivity|]. apply aa_words; [apply (bool_decide_unpack _); vm_compute; exact I|].
    change (Forall2 same_net ["core"; "at"; "10.0.7.17"] ["core"; "at"; "10.0.7.201"]).
    constructor; [by left|]. constructor; [by left|]. constructor; [exact N4|constructor].
  - apply entry_dropped. vm_compute. reflexivity.
  - apply entry_kept; [vm_compute; reflexivity|]. apply alike_list. constructor; [|constructor]. apply alike_obj.
    constructor; [|constructor; [|constructor]].
    + apply entry_coarse; [vm_compute; reflexivity|]. apply aa_one; [|exact N6]. apply (bool_decide_unpack _). vm_compute. exact I.
    + apply entry_kept; [vm_compute; reflexivity|]. apply alike_same.
Defined.

(** A text is cut at spaces only: an address after a tab is shown whole. *)
Example a_tab_hides_an_address :
  shape (Some "viewer") (JObj [("label", JStr ("core" +:+ String "009" "10.0.7.17"))]) = JObj [("label", JStr ("core" +:+ String "009" "10.0.7.17"))].
Proof. vm_compute. reflexivity. Qed.

(** ** Two situations a scoped reader cannot tell apart *)

(** One dictionary, but for the values under the keys [K]. *)
Definition agree_off (K : list string) : Row -> Row -> Prop := Forall2 (fun x y => x.1 = y.1 ∧ (x.2 = y.2 ∨ x.1 ∈ K)).

Lemma agree_off_keys K d e : agree_off K d e -> map fst e = map fst d.
Proof. induction 1 as [|x y d e [Hk _] _ IH]; simpl; [done|]. by rewrite IH, Hk. Qed.

Lemma agree_off_nil d e : agree_off [] d e -> d = e.
Proof.
  induction 1 as [|[k v] [k' v'] d e [Hk Hv] _ IH]; [done|]. simpl in *. subst. by destruct Hv as [->|[]%elem_of_nil].
Qed.

Lemma dict_set_keys k (v : json) (d : Row) : NoDup (map fst d) -> NoDup (map fst (dict_set k v d)).
Proof.
  induction d as [|[k' v'] d IH]; simpl; [repeat constructor; by intros ?%elem_of_nil|]. intros H.
  destruct (decide (k = k')) as [->|Hn]; [done|]. apply NoDup_cons in H as [H1 H2]. simpl. apply NoDup_cons. split; [|by apply IH].
  intros H. apply H1. clear -H Hn. induction d as [|[a b] d IH]; simpl in *; [apply list_elem_of_singleton in H as ->; done|].
  destruct (decide (k = a)) as [->|]; [done|]. simpl in H. apply elem_of_cons in H as [->|H]; [by left|right; by apply IH].
Qed.

Lemma agree_weaken k K d e : agree_off (k :: K) d e -> k ∉ map fst d -> agree_off K d e.
Proof.
  intros H. induction H as [|x y d e [Hk Hv] _ IH]; intros Hn; [constructor|]. apply not_elem_of_cons in Hn as [Hn1 Hn2].
  constructor; [|by apply IH]. split; [done|]. destruct Hv as [|[Hv|Hv]%elem_of_cons]; auto. congruence.
Qed.

Lemma agree_set k (v : json) K d e : NoDup (map fst d) -> agree_off (k :: K) d e -> agree_off K (dict_set k v d) (dict_set k v e).
Proof.
  intros Hd H. induction H as [|[k1 v1] [k2 v2] d e [Hk Hv] H IH]; simpl; [repeat constructor|]. simpl in *. subst k2.
  apply NoDup_cons in Hd as [Hn Hd]. destruct (decide (k = k1)) as [->|Hne].
  - constructor; [by split; [|left]|]. by eapply agree_weaken.
  - constructor; [|by apply IH]. split; [done|]. simpl. destruct Hv as [|[|]%elem_of_cons]; auto. congruence.
Qed.

Lemma agree_mono K K' d e : K ⊆ K' -> agree_off K d e -> agree_off K' d e.
Proof. intros HK H. eapply Forall2_impl; [exact H|]. intros x y [? [?|?]]; auto. Qed.

Lemma agree_value k K d e : NoDup (map fst d) -> agree_off (k :: K) d e -> get k d = get k e -> agree_off K d e.
Proof.
  unfold get. intros Hd H. induction H as [|[k1 v1] [k2 v2] d e [Hk Hv] H IH]; [constructor|]. simpl in *. subst k2.
  apply NoDup_cons in Hd as [Hn Hd]. destruct (decide (k = k1)) as [->|Hne]; intros E.
  - simpl in E. subst. constructor; [by split; [|left]|]. by eapply agree_weaken.
  - constructor; [|by apply IH]. split; [done|]. simpl. destruct Hv as [|[|]%elem_of_cons]; auto. congruence.
Qed.

(** The root hint, suppressed when it names an alarm that is not shown. *)
Definition root_step (ids : list (option Z)) (out : Row) : Row :=
  if id_in ids (get "root_alarm_id" out) then out else dict_set "root_alarm_id" JNull out.

Lemma root_alike ids K d e :
  NoDup (map fst d) -> agree_off ("root_alarm_id" :: K) d e ->
  (get "root_alarm_id" d = get "root_alarm_id" e ∨ id_in ids (get "root_alarm_id" d) = false ∧ id_in ids (get "root_alarm_id" e) = false) ->
  agree_off K (root_step ids d) (root_step ids e).
Proof.
  intros Hd H Hr. unfold root_step. destruct Hr as [Hr|[-> ->]]; [|by apply agree_set].
  rewrite <- Hr. destruct (id_in ids _); [by eapply agree_value|by apply agree_set].
Qed.

Lemma root_step_keys ids d : NoDup (map fst d) -> NoDup (map fst (root_step ids d)).
Proof. unfold root_step. destruct (id_in ids _); [done|]. apply dict_set_keys. Qed.

Lemma assoc_agree K k d e : agree_off K d e -> k ∉ K -> assoc k d = assoc k e.
Proof.
  intros H Hk. induction H as [|[k1 v1] [k2 v2] d e [Hkk Hv] _ IH]; [done|]. simpl in *. subst k2.
  destruct (decide (k = k1)) as [->|]; [|done]. by destruct Hv as [->|].
Qed.

Section indistinct.
Context (repr : json -> string) (sc : Scope) (m1 m2 : list (Z * option Z)).

(** Aligned members: one the reader sees, the same; one it does not, of one class. *)
Definition member_alike (a b : Row) : Prop :=
  (allows_ne sc (element_of m1 a) = true ∧ allows_ne sc (element_of m2 b) = true ∧ a = b)
  ∨ (allows_ne sc (element_of m1 a) = false ∧ allows_ne sc (element_of m2 b) = false ∧ class_text repr a = class_text repr b).

Definition seen_of (m : list (Z * option Z)) (alarms : list Row) : list Row := filter (fun a => allows_ne sc (element_of m a) = true) alarms.
Definition unseen_of (m : list (Z * option Z)) (alarms : list Row) : list Row := filter (fun a => allows_ne sc (element_of m a) = false) alarms.

Lemma members_alike A B :
  Forall2 member_alike A B ->
  seen_of m1 A = seen_of m2 B ∧ map (class_text repr) (unseen_of m1 A) = map (class_text repr) (unseen_of m2 B).
Proof.
  unfold seen_of, unseen_of. induction 1 as [|a b A B [(H1 & H2 & ->)|(H1 & H2 & Hc)] _ [IH1 IH2]]; [done| |]; simpl;
    rewrite !filter_cons, H1, H2; simpl; split; try done; congruence.
Qed.

Definition shown_links (ids : list (option Z)) (d : Row) : list Row :=
  filter (fun l => id_in ids (get "alarm_a" l) && id_in ids (get "alarm_b" l) = true) (rows_of "links" d).

(** What a scoped reader is answered about a situation is a function of the members it may see, the
    links between them, the number and the classes of the others, and the situation's own fields: which
    elements, addresses, alarms and causes the others are changes nothing of it. *)
Theorem a_scoped_answer_hides_the_rest d1 d2 :
  let ids := map (fun a => as_int (get "id" a)) (seen_of m1 (rows_of "alarms" d1)) in
  unrestricted sc = false -> NoDup (map fst d1) ->
  Forall2 member_alike (rows_of "alarms" d1) (rows_of "alarms" d2) ->
  shown_links ids d1 = shown_links ids d2 ->
  agree_off (["alarms"; "links"; "root_alarm_id"] ++ if decide (unseen_of m1 (rows_of "alarms" d1) = []) then [] else ["derived_name"; "redacted_members"]) d1 d2 ->
  (get "root_alarm_id" d1 = get "root_alarm_id" d2
   ∨ id_in ids (get "root_alarm_id" d1) = false ∧ id_in ids (get "root_alarm_id" d2) = false) ->
  project_situation_detail repr d1 sc m1 = project_situation_detail repr d2 sc m2.
Proof.
  intros ids Hu Hnd Ha Hl Hag Hroot. destruct (members_alike _ _ Ha) as [Hs Hh]. unfold project_situation_detail. rewrite Hu.
  fold (seen_of m1 (rows_of "alarms" d1)) (seen_of m2 (rows_of "alarms" d2)) (unseen_of m1 (rows_of "alarms" d1)) (unseen_of m2 (rows_of "alarms" d2)).
  subst ids. rewrite <- Hs in *. set (visible := seen_of m1 _) in *. set (ids := map _ visible) in *.
  fold (shown_links ids d1) (shown_links ids d2). rewrite <- Hl. destruct visible as [|a0 vs]; [done|]. clear Hs.
  set (L := of_rows (shown_links ids d1)). set (V := of_rows (a0 :: vs)).
  assert (Ho : ∀ K, agree_off (["alarms"; "links"] ++ K) d1 d2 -> agree_off K (dict_set "links" L (dict_set "alarms" V d1)) (dict_set "links" L (dict_set "alarms" V d2))).
  { intros K HK. apply agree_set; [by apply dict_set_keys|]. by apply agree_set. }
  assert (Hr : ∀ d, get "root_alarm_id" (dict_set "links" L (dict_set "alarms" V d)) = get "root_alarm_id" d).
  { intros d. unfold get. by rewrite !assoc_dict_set. }
  f_equal. destruct (unseen_of m1 (rows_of "alarms" d1)) as [|h hs] eqn:Eh.
  - destruct (unseen_of m2 (rows_of "alarms" d2)) as [|]; [|done]. rewrite decide_True in Hag by done.
    refine (agree_off_nil _ _ (root_alike ids [] _ _ _ _ _)); [by apply dict_set_keys, dict_set_keys|by apply Ho|by rewrite !Hr].
  - destruct (unseen_of m2 (rows_of "alarms" d2)) as [|h' hs'] eqn:Eh'; [done|]. rewrite decide_False in Hag by done.
    replace (redacted repr (h' :: hs')) with (redacted repr (h :: hs)).
    2:{ unfold redacted. rewrite <- Hh. apply (f_equal length) in Hh. rewrite !length_map in Hh. by rewrite Hh. }
    set (N := match visible_name repr (a0 :: vs) with Some n => JStr n | None => JNull end).
    refine (agree_off_nil _ _ (agree_set _ _ [] _ _ (root_step_keys ids _ _) (root_alike ids ["redacted_members"] _ _ _ _ _)));
      [by repeat apply dict_set_keys|by repeat apply dict_set_keys| |].
    + apply agree_set; [by repeat apply dict_set_keys|]. apply Ho. eapply agree_mono; [|exact Hag]. clear. set_solver.
    + assert (∀ d, get "root_alarm_id" (dict_set "derived_name" N d) = get "root_alarm_id" d) as Hn
        by (intros d; unfold get; by rewrite assoc_dict_set). by rewrite !Hn, !Hr.
Qed.
End indistinct.

Definition demo_detail (hidden_id root : Z) (host cause : string) (name : string) : Row :=
  [("id", JInt 9); ("derived_name", JStr name);
   ("alarms", JList [JObj [("id", JInt 1); ("device_ip", JStr "10.0.0.1"); ("class_name", JStr "linkDown")];
                     JObj [("id", JInt hidden_id); ("device_ip", JStr host); ("class_name", JStr "linkDown"); ("cause", JStr cause)]]);
   ("links", JList [JObj [("alarm_a", JInt 1); ("alarm_b", JInt hidden_id)]]); ("root_alarm_id", JInt root)].

Lemma a_scoped_answer_hides_the_rest_witness :
  let sc := MkScope false {[1]} {["10.0.0.1"]} in
  let answer hidden root host cause name := project_situation_detail (fun _ => "") (demo_detail hidden root host cause name) sc in
  answer 2 2 "10.9.9.9" "fibre" "10.0.0.1 <-> 10.9.9.9" [(1, Some 1); (2, Some 5)]
  = answer 3 3 "10.7.7.7" "power" "10.0.0.1 <-> 10.7.7.7" [(1, Some 1); (3, Some 8)].
Proof.
  intros sc answer. apply (a_scoped_answer_hides_the_rest (fun _ => "") sc [(1, Some 1); (2, Some 5)] [(1, Some 1); (3, Some 8)]).
  - reflexivity.
  - apply (bool_decide_unpack _). vm_compute. exact I.
  - constructor; [left; split_and!; vm_compute; reflexivity|]. constructor; [|constructor]. right. split_and!; vm_compute; reflexivity.
  - vm_compute. reflexivity.
  - rewrite decide_False by (vm_compute; discriminate).
    repeat (first [apply Forall2_nil_2 | apply Forall2_cons_2; [split; [reflexivity|first [left; reflexivity | right; apply (bool_decide_unpack _); vm_compute; exact I]]|]]).
  - right. split; vm_compute; reflexivity.
Defined.
