(* ===== verification/Perimeter.v ===== *)
(** * The request perimeter ([api/perimeter.py])

    The checks every request passes, in the source's order: CSRF, identity, the forced password
    change, the rate limit, the capability. *)
From S2P Require Import Prelude PyLib Json RbacTables Rbac Auth.

Definition MUTATING : list string := ["POST"; "PUT"; "PATCH"; "DELETE"].
Definition BOOTSTRAP_ALLOWED : list route :=
  [("POST", "/api/logout"); ("GET", "/api/me"); ("POST", "/api/password")].

Definition DENIED_ACTION : list (string * string) :=
  [("quarantine.read", "quarantine.read");
   ("audit.read", "audit.read");
   ("audit.export", "audit.export");
   ("audit.prune", "prune.manual");
   ("users.manage", "user.update");
   ("tokens.manage", "token.create");
   ("config.read", "config.change");
   ("config.write", "config.change");
   ("scorer.preview", "scorer.preview");
   ("scorer.write", "scorer.config.update");
   ("rbac.read", "rbac.policy.update");
   ("rbac.write", "rbac.policy.update");
   ("scope.read", "scope.policy.update");
   ("scope.write", "scope.policy.update");
   ("secrets.read", "noc.secret.read");
   ("secrets.write", "noc.secret.update");
   ("secrets.reveal", "noc.secret.reveal");
   ("secrets.grants", "noc.grant.change");
   ("agents.manage", "noc.agent.update")].

(** Token bucket per client address: [key -> (tokens, last)]. *)
Record RateLimiter := Limiter {
  capacity : float; refill : float; buckets : list (string * (float * float)) }.

Definition level (l : RateLimiter) (now : float) (b : float * float) : float :=
  fmin (capacity l) (fadd b.1 (fmul (fsub now b.2) (refill l))).

Definition with_buckets (l : RateLimiter) (b : list (string * (float * float))) : RateLimiter :=
  Limiter (capacity l) (refill l) b.

Definition bound (now : float) (l : RateLimiter) : RateLimiter :=
  with_buckets l (take 2048 (sort_by (fun a b => fleb (level l now a.2) (level l now b.2)) (buckets l))).

Definition allow (key : string) (now : float) (l : RateLimiter) : bool * RateLimiter :=
  let tokens := level l now (default (capacity l, now) (assoc key (buckets l))) in
  let l := if bool_decide (4096 < length (buckets l))%nat then bound now l else l in
  if fltb tokens f_one then (false, with_buckets l (dict_set key (tokens, now) (buckets l)))
  else (true, with_buckets l (dict_set key (fsub tokens f_one, now) (buckets l))).

(** What the perimeter reads of a request: the route it matched, the Authorization header (empty
    when absent), the session cookie, the host its Origin or Referer names (none without one), the
    Host and client headers, whether the appliance made it to itself, and the peer's address. *)
Record Request := MkRequest {
  method : string; path : string; authorization : string; cookie : option string;
  origin_netloc : option string; host : option string; client_header : option string;
  in_process : bool; client_ip : string }.

Definition bearer_header (r : Request) : bool := String.prefix "Bearer " (authorization r).

Definition bearer (r : Request) : string :=
  if bearer_header r
  then strip (String.substring 7 (String.length (authorization r) - 7) (authorization r))
  else "".

Definition truthy (s : option string) : bool :=
  match s with None | Some EmptyString => false | Some _ => true end.

Definition csrf_ok (r : Request) : bool :=
  match origin_netloc r with
  | None => false
  | Some netloc =>
      bool_decide (Some netloc = host r) && bool_decide (client_header r = Some "ui")
  end.

Inductive denial :=
| CsrfFailed            (* 403 *)
| Unauthenticated       (* 401 *)
| PasswordChange        (* 403 *)
| RateLimited           (* 429 *)
| InsufficientRole.     (* 403 *)

Definition cookie_mutation (r : Request) : bool :=
  in_list (method r) MUTATING && truthy (cookie r) && negb (bearer_header r).

Section perimeter.
(** [hashlib.sha256(...).hexdigest()]. *)
Context (sha256_hex : string → string).

Definition resolve_identity (r : Request) (touch : bool) (now : float) (st : Store)
  : option Principal * Store :=
  if negb (String.eqb (bearer r) "") then resolve_bearer sha256_hex (bearer r) now touch st
  else match cookie r with
  | None | Some EmptyString => (None, st)
  | Some c => resolve_session sha256_hex c now touch st
  end.

(** The outcome, the store and the limiter after the request, and the action of the audit row a
    refusal leaves. [now] is the wall clock, [mono] the monotonic one. *)
Definition security (r : Request) (now mono : float) (policy : option CapabilityPolicy)
    (lim : RateLimiter) (st : Store)
  : res denial (Principal * gset string) * Store * RateLimiter * option string :=
  if cookie_mutation r && negb (csrf_ok r) then (Err CsrfFailed, st, lim, None)
  else
    let '(principal, st) := resolve_identity r true now st in
    match principal with
    | None => (Err Unauthenticated, st, lim, None)
    | Some p =>
        if p_must_change p && negb (in_list (method r, path r) BOOTSTRAP_ALLOWED)
        then (Err PasswordChange, st, lim, None)
        else
          let '(allowed, lim) :=
            if in_process r then (true, lim) else allow (client_ip r) mono lim in
          if negb allowed then (Err RateLimited, st, lim, None)
          else
            let capabilities := resolve_capabilities (p_role p) (ref p) policy in
            match permission_for (method r) (path r) with
            | None => (Err InsufficientRole, st, lim, None)
            | Some permission =>
                if bool_decide (permission ∈ capabilities)
                then (Ok (p, capabilities), st, lim, None)
                else (Err InsufficientRole, st, lim,
                      if in_list permission AUDITED_DENIED_PERMISSIONS
                      then assoc permission DENIED_ACTION else None)
            end
    end.

(** What a request that is let through has satisfied. *)
Record admitted (r : Request) (now mono : float) (policy : option CapabilityPolicy)
    (lim : RateLimiter) (st : Store) (p : Principal) (caps : gset string) : Prop := {
  ad_csrf : cookie_mutation r = true → csrf_ok r = true;
  ad_identity : (resolve_identity r true now st).1 = Some p;
  ad_bootstrap : p_must_change p = true → (method r, path r) ∈ BOOTSTRAP_ALLOWED;
  ad_rate : in_process r = true ∨ (allow (client_ip r) mono lim).1 = true;
  ad_capability : ∃ permission, permission_for (method r) (path r) = Some permission ∧
    permission ∈ caps ∧ caps = resolve_capabilities (p_role p) (ref p) policy ∧
    caps ⊆ ceiling (p_role p);
  ad_admin_only : assoc (method r, path r) ROUTE_SCOPE = Some AdminOnly → p_role p = "admin" }.
End perimeter.

(** C22: nothing passes the perimeter but a request that resolved to a live identity, on a mapped
    route, holding the route's capability within its role's ceiling; a mutation that carries the session
    cookie and no Bearer header passed the CSRF check (one that carries a Bearer header did not have to,
    also where that header is blank and the cookie identifies the caller, [blank_bearer_skips_csrf]), a
    caller who must change its password is on one of the three bootstrap routes, the rate limit allowed
    it or it is a request of the appliance to itself, and an admin-only route is reached by an admin
    role alone, whatever policy is stored. *)
Theorem perimeter_admits_only sha256_hex r now mono policy lim st p caps st' lim' audit :
  security sha256_hex r now mono policy lim st = (Ok (p, caps), st', lim', audit) →
  admitted sha256_hex r now mono policy lim st p caps.
Proof.
  unfold security. destruct (cookie_mutation r && negb (csrf_ok r)) eqn:Ec; [done|].
  destruct (resolve_identity _ r true now st) as [[p'|] st1] eqn:Ei; [|done].
  destruct (p_must_change p' && _) eqn:Em; [done|].
  destruct (if in_process r then _ else _) as [allowed lim1] eqn:El.
  destruct allowed; [|done]. cbn [negb].
  destruct (permission_for (method r) (path r)) as [perm|] eqn:Ep; [|done].
  case_bool_decide as Hin; [|done]. intros [= <- <- _ _ _]. split.
  - intros Hc. rewrite Hc in Ec. by destruct (csrf_ok r).
  - by rewrite Ei.
  - intros Hm. rewrite Hm in Em. simpl in Em. apply negb_false_iff in Em.
    by apply bool_decide_eq_true in Em.
  - destruct (in_process r); [by left|right]. by rewrite El.
  - exists perm. split_and!; [done|done|done|apply resolve_subset].
  - intros Hpo. destruct (permission_for_ok _ _ _ Ep) as (m & po & Hm & Hp & _ & Hiff & _).
    assert (po = AdminOnly) as -> by congruence. assert (m = "admin") as -> by tauto.
    apply (admin_capability _ perm); [done|]. by apply (resolve_subset _ (ref p') policy).
Qed.

(** Every audited denial has an action to be logged under. *)
Lemma denied_actions_cover :
  forallb (fun c => bool_decide (is_Some (assoc c DENIED_ACTION))) AUDITED_DENIED_PERMISSIONS = true.
Proof. vm_compute. reflexivity. Qed.

(** A refusal for want of a capability is on the record when the capability is a sensitive
    one: the request leaves an audit row, under the action listed for that capability; and such a
    refusal changes nothing but the caller's last use and its rate-limit bucket. *)
Theorem sensitive_denials_are_audited sha256_hex r now mono policy lim st st' lim' audit permission :
  security sha256_hex r now mono policy lim st = (Err InsufficientRole, st', lim', audit) →
  permission_for (method r) (path r) = Some permission →
  permission ∈ AUDITED_DENIED_PERMISSIONS →
  (∃ action, audit = Some action ∧ (permission, action) ∈ DENIED_ACTION) ∧
  st' = (resolve_identity sha256_hex r true now st).2 ∧
  lim' = if in_process r then lim else (allow (client_ip r) mono lim).2.
Proof.
  intros Hs Hp Hin. revert Hs. unfold security. destruct (_ && negb (csrf_ok r)); [done|].
  destruct (resolve_identity _ r true now st) as [[p'|] st1]; [|done].
  destruct (p_must_change p' && _); [done|].
  destruct (if in_process r then _ else _) as [allowed lim1] eqn:El.
  destruct allowed; [|done]. cbn [negb]. rewrite Hp.
  case_bool_decide as Hc; [done|].
  assert (in_list permission AUDITED_DENIED_PERMISSIONS = true) as -> by (by apply bool_decide_true).
  intros [= <- <- <-]. split_and!; [|done|].
  - pose proof denied_actions_cover as Hall. rewrite forallb_forall in Hall.
    specialize (Hall permission ltac:(by apply list_elem_of_In)). apply bool_decide_eq_true in Hall.
    destruct Hall as [a Ha]. exists a. split; [done|]. by apply assoc_Some.
  - destruct (in_process r); [congruence|]. by rewrite El.
Qed.

(** ** The rate limiter *)

Definition limiter_ok (now : float) (l : RateLimiter) : Prop :=
  Forall (λ e, is_nan (level l now e.2) = false) (buckets l).

(** The limiter's memory is bounded and a flood of new addresses does not reset the client it
    limits: it holds at most 4097 buckets, touches no other client's bucket while it has room, and
    when it forgets some, every bucket forgotten is at least as full as every bucket kept. *)
Theorem limiter_forgets_fullest key now l :
  (length (buckets l) ≤ 4097)%nat → limiter_ok now l →
  (length (buckets (allow key now l).2) ≤ 4097)%nat ∧
  ((length (buckets l) ≤ 4096)%nat →
   ∀ k, k ≠ key → assoc k (buckets (allow key now l).2) = assoc k (buckets l)) ∧
  let kept := buckets (bound now l) in
  (∀ e, e ∈ kept → e ∈ buckets l) ∧
  ∀ e e', e ∈ buckets l → e ∉ kept → e' ∈ kept → fleb (level l now e'.2) (level l now e.2) = true.
Proof.
  intros Hlen Hok. set (le := fun a b : string * (float * float) => fleb (level l now a.2) (level l now b.2)).
  set (srt := sort_by le (buckets l)).
  assert (StronglySorted (λ x y, le x y = true) srt) as Hs.
  { apply (sort_by_sorted le (λ e, is_nan (level l now e.2) = false)); [done| |].
    - intros x y Hx Hy. by apply fleb_total.
    - intros x y z. apply fleb_trans. }
  assert (∀ e, e ∈ srt ↔ e ∈ buckets l) as Hin by (intros e; apply elem_of_sort_by).
  cbv zeta. unfold bound, with_buckets. cbn [buckets]. fold le srt. split_and!.
  - unfold allow. set (tokens := level _ _ _).
    set (l' := if bool_decide _ then _ else _).
    assert (length (buckets l') ≤ 4096)%nat as Hl'.
    { unfold l'. case_bool_decide; [|lia]. unfold bound, with_buckets. simpl. rewrite length_take. lia. }
    destruct (fltb tokens f_one); unfold with_buckets; cbn [buckets snd];
      rewrite length_dict_set; case_bool_decide; lia.
  - intros Hle k Hk. unfold allow. rewrite bool_decide_false by lia.
    destruct (fltb _ f_one); unfold with_buckets; cbn [buckets snd];
      by rewrite assoc_dict_set, decide_False.
  - intros e He. apply Hin.
    rewrite <- (take_drop 2048 srt). set_solver.
  - intros e e' He Hn He'.
    apply Hin in He. rewrite <- (take_drop 2048 srt) in He. apply elem_of_app in He as [|He]; [done|].
    exact (sorted_split _ _ _ Hs _ _ He' He).
Qed.

(** An Authorization header of the word Bearer and blank characters [strip] removes but HTTP does
    not: the identity is the cookie's, and the CSRF check is skipped. *)
Example blank_bearer_skips_csrf :
  let r := MkRequest "POST" "/api/logout" ("Bearer " +:+ unchars [Ascii.ascii_of_N 160])
             (Some "old") None None None false "10.0.0.9" in
  cookie_mutation r = false ∧ csrf_ok r = false ∧
  (resolve_identity demo_sha r true (f_of_Z 100) demo_store).1 =
    (resolve_session demo_sha "old" (f_of_Z 100) true demo_store).1.
Proof. by vm_compute. Qed.

(** ** Witnesses *)

Definition demo_limiter : RateLimiter :=
  Limiter (f_of_Z 20) f_one [("10.0.0.9", (f_of_Z 3, f_zero)); ("10.0.0.8", (f_of_Z 20, f_zero))].

Definition demo_request (m p : string) : Request :=
  MkRequest m p "" (Some "old") (Some "noc.example") (Some "noc.example") (Some "ui") false "10.0.0.9".

Definition demo_policy : option CapabilityPolicy :=
  Some (parse_capability_policy
    (Some (JObj [("roles", JObj [("editor", JList [JStr "alarm.clear"; JStr "users.manage"])])]))).

Lemma perimeter_admits_only_witness :
  let r := demo_request "POST" "/api/alarms/clear" in
  let p := MkPrincipal "ana" "editor" SessionKind (Some 1) false None in
  admitted demo_sha r (f_of_Z 100) (f_of_Z 5) demo_policy demo_limiter demo_store p
    (resolve_capabilities "editor" (Some "user:1") demo_policy).
Proof.
  set (r := demo_request "POST" "/api/alarms/clear").
  refine (perimeter_admits_only demo_sha r (f_of_Z 100) (f_of_Z 5) demo_policy demo_limiter
            demo_store _ _
            (resolve_identity demo_sha r true (f_of_Z 100) demo_store).2
            (allow "10.0.0.9" (f_of_Z 5) demo_limiter).2 None _).
  vm_compute. reflexivity.
Defined.

Lemma sensitive_denials_are_audited_witness :
  let r := demo_request "GET" "/api/users" in
  let st' := (resolve_identity demo_sha r true (f_of_Z 100) demo_store).2 in
  let lim' := (allow "10.0.0.9" (f_of_Z 5) demo_limiter).2 in
  (∃ action, Some "user.update" = Some action ∧ ("users.manage", action) ∈ DENIED_ACTION) ∧
  st' = (resolve_identity demo_sha r true (f_of_Z 100) demo_store).2 ∧
  lim' = if in_process r then demo_limiter else (allow (client_ip r) (f_of_Z 5) demo_limiter).2.
Proof.
  set (r := demo_request "GET" "/api/users").
  apply (sensitive_denials_are_audited demo_sha r (f_of_Z 100) (f_of_Z 5) demo_policy demo_limiter
           demo_store).
  - vm_compute. reflexivity.
  - vm_compute. reflexivity.
  - apply (bool_decide_unpack _). vm_compute. reflexivity.
Defined.

Lemma limiter_forgets_fullest_witness :
  (length (buckets (allow "10.0.0.7" (f_of_Z 5) demo_limiter).2) ≤ 4097)%nat ∧
  ((length (buckets demo_limiter) ≤ 4096)%nat → ∀ k, k ≠ "10.0.0.7" →
   assoc k (buckets (allow "10.0.0.7" (f_of_Z 5) demo_limiter).2) = assoc k (buckets demo_limiter)) ∧
  let kept := buckets (bound (f_of_Z 5) demo_limiter) in
  (∀ e, e ∈ kept → e ∈ buckets demo_limiter) ∧
  ∀ e e', e ∈ buckets demo_limiter → e ∉ kept → e' ∈ kept →
    fleb (level demo_limiter (f_of_Z 5) e'.2) (level demo_limiter (f_of_Z 5) e.2) = true.
Proof.
  apply limiter_forgets_fullest.
  - apply Nat.leb_le. vm_compute. reflexivity.
  - repeat constructor.
Defined.
