(* ===== verification/AuditLog.v ===== *)
(** * The audit log ([crosscutting/audit.py], [store/audit_log.py], [crosscutting/vault.py])

    Each row commits to its fields and to the row before it, and is sealed under a key the database
    does not hold. Appending, verifying, pruning. The hash ([hashlib.sha256(...).hexdigest()]), the
    keyed hash and how a float prints are arguments. *)
From S2P Require Import Prelude PyLib Json.

Definition NOC_ACTIONS : list string :=
  ["noc.secret.create"; "noc.secret.update"; "noc.secret.delete"; "noc.secret.reveal";
   "noc.secret.read"; "noc.secret.agents"; "noc.grant.change"; "noc.lease.issue"; "noc.lease.use";
   "noc.lease.revoke"; "noc.case.take"; "noc.case.release"; "noc.case.update"; "noc.case.status";
   "noc.case.resolve"; "noc.case.post"; "noc.case.send_update"; "noc.exec"; "noc.playbook.create";
   "noc.playbook.update"; "noc.playbook.run"; "noc.agent.create"; "noc.agent.update";
   "noc.agent.invoke"; "noc.agent.pause"; "noc.agent.resume"; "noc.agent.terminate";
   "noc.agent.rotate"; "noc.run.finish"; "noc.case.assign"; "noc.case.escalate"; "noc.secret.use";
   "noc.customer.update"; "noc.customer.memory"; "noc.contact.create"; "noc.contact.update";
   "noc.contact.delete"; "noc.doc.upload"; "noc.doc.delete"; "noc.circuit.create";
   "noc.circuit.update"; "noc.circuit.notes"; "noc.circuit.delete"; "noc.circuit.import";
   "noc.customer.end"].

Definition ACTIONS : list string :=
  ["login.ok"; "login.fail"; "login.lockout"; "logout"; "password.change";
   "password.reset.request"; "password.reset"; "profile.update"; "user.create"; "user.update";
   "user.delete"; "role.change"; "token.create"; "token.revoke"; "config.change";
   "snmp.config.change"; "email.config.change"; "email.test"; "db.import"; "feedback"; "label.set";
   "label.clear"; "situation.close"; "situation.move"; "situation.merge"; "situation.split";
   "situation.name"; "alarm.clear"; "alarm.clear_all"; "situation.promote"; "prune.manual";
   "quarantine.read"; "audit.read"; "audit.export"; "entity.promote"; "entity.reset";
   "profile.reset"; "severity.confirm"; "ingest.gap"; "scorer.config.update"; "scorer.preview";
   "scorer.fallback"; "rbac.policy.update"; "scope.policy.update"; "retention.preview";
   "retention.change"; "governance.fallback"; "promotion.applied"; "promotion.refused";
   "seal.construct"; "seal.spend"; "maintenance.window.create"; "maintenance.window.update";
   "maintenance.window.confirm"; "maintenance.window.cancel"; "maintenance.window.extend";
   "maintenance.window.end"; "maintenance.window.read"; "notice.snooze"; "notice.unsnooze";
   "alarm.outlived.ack"; "catalogue.rule.set"; "catalogue.rule.delete"; "catalogue.import";
   "decider.set"; "search.start"; "search.stop"; "autonomy.set"; "autonomy.stop";
   "autonomy.suspend"; "autonomy.grouping"; "autonomy.naming"; "autonomy.closing";
   "autonomy.severity"; "situation.severity"; "situation.proposal"; "situation.proposal.accept";
   "situation.proposal.reject"; "league.decide"] ++ NOC_ACTIONS.

Definition OUTCOMES : list string :=
  ["ok"; "denied"; "error"].

Definition FORBIDDEN_DETAIL_KEYS : list string :=
  ["password"; "new_password"; "old_password"; "session"; "session_id"; "token"; "token_value";
   "secret"; "community"; "authorization"; "cookie"; "lease"; "private_key"; "passphrase"].

Definition GENESIS_HASH : string := "0000000000000000000000000000000000000000000000000000000000000000".
Definition MAC_PLACE : string := "audit_log.mac".

(** The fields an entry commits to. *)
Record Entry := MkEntry {
  e_id : Z; ts : float; actor : string; role : option string; source_ip : option string;
  action : string; object_type : option string; object_id : option string; outcome : string;
  details : json }.

(** A row: [details] is what [json.loads] gives back of its text; [mac] is None in the rows older
    than the key. *)
Record Row := MkRow { entry : Entry; prev_hash : string; entry_hash : string; mac : option string }.

(** [redact_details]: the forbidden keys go, at the top level. *)
Definition redact_details (d : option (list (string * json))) : list (string * json) :=
  match d with
  | Some d => filter (fun e => lower e.1 ∉ FORBIDDEN_DETAIL_KEYS) d
  | None => []
  end.

Definition jopt (s : option string) : json := match s with Some s => JStr s | None => JNull end.

(** [payload]: the canonical keys in the order of [CANONICAL_KEYS]; [dumps] sorts them. *)
Definition payload (e : Entry) : json :=
  JObj [("id", JInt (e_id e)); ("ts", JFloat (ts e)); ("actor", JStr (actor e)); ("role", jopt (role e));
        ("source_ip", jopt (source_ip e)); ("action", JStr (action e)); ("object_type", jopt (object_type e));
        ("object_id", jopt (object_id e)); ("outcome", JStr (outcome e)); ("details", details e)].

(** Why a chain is broken, as data. *)
Inductive broken :=
| BadAnchor | GenesisNotZero | PrevMismatch | HashMismatch | SealMissing.

Record VerifyResult := MkResult {
  v_ok : bool; checked : Z; first_broken_id : option Z; reason : option broken; final_hash : string }.

Section audit.
Context (sha256_hex : string -> string) (float_repr : float -> string) (hmac_hex : string -> string).

Definition canonical (e : Entry) : string := dumps float_repr (payload e).

Definition compute_hash (prev canon : string) : string := sha256_hex (prev +:+ canon).

(** [vault.index]: the place, a zero byte, the value, keyed. *)
Definition entry_mac (h : string) : string :=
  hmac_hex (MAC_PLACE +:+ String Ascii.zero "" +:+ h).

(** ** Appending *)

Definition audit_last_hash (log : list Row) : string :=
  match last log with Some r => entry_hash r | None => GENESIS_HASH end.
Definition audit_next_id (log : list Row) : Z :=
  foldr (fun r m => Z.max (e_id (entry r)) m) 0 log + 1.

(** The two assertions first; [e] carries everything but the id, and the details as given. *)
Definition write_event (e : Entry) (given : option (list (string * json))) (log : list Row)
    : option (list Row * string) :=
  if negb (bool_decide (action e ∈ ACTIONS)) then None
  else if negb (bool_decide (outcome e ∈ OUTCOMES)) then None
  else
    let prev := audit_last_hash log in
    let next := audit_next_id log in
    let e := MkEntry next (ts e) (actor e) (role e) (source_ip e) (action e) (object_type e)
               (object_id e) (outcome e) (JObj (redact_details given)) in
    let h := compute_hash prev (canonical e) in
    let stored := MkEntry next (ts e) (actor e) (role e) (source_ip e) (action e) (object_type e)
                    (object_id e) (outcome e) (normal (details e)) in
    Some (log ++ [MkRow stored prev h (Some (entry_mac h))], h).

(** [prune_audit_log]: the rows older than the cutoff. *)
Definition prune_audit (cutoff : float) (log : list Row) : list Row :=
  filter (fun r => fltb (ts (entry r)) cutoff = false) log.

(** ** Verifying *)

(** The loop of [verify_rows]: [n] rows checked, the hash of the last, whether a seal was seen. *)
Fixpoint verify_go (sealed_from : option Z) (rows : list Row) (n : Z) (prev final : string) (sealed : bool)
    : VerifyResult :=
  match rows with
  | [] => MkResult true n None None final
  | r :: rows =>
      let rid := e_id (entry r) in
      let fail why := MkResult false n (Some rid) (Some why) final in
      if (n =? 0) && (rid =? 1) && negb (String.eqb (prev_hash r) GENESIS_HASH) then fail GenesisNotZero
      else if negb (n =? 0) && negb (String.eqb (prev_hash r) prev) then fail PrevMismatch
      else if negb (String.eqb (compute_hash (prev_hash r) (canonical (entry r))) (entry_hash r))
      then fail HashMismatch
      else
        let must := bool_decide (mac r <> None) || sealed
          || match sealed_from with Some s => s <=? rid | None => false end in
        if must && negb (bool_decide (mac r = Some (entry_mac (entry_hash r)))) then fail SealMissing
        else verify_go sealed_from rows (n + 1) (entry_hash r) (entry_hash r) (sealed || must)
  end.

Definition verify_rows (sealed_from : option Z) (rows : list Row) : VerifyResult :=
  verify_go sealed_from rows 0 GENESIS_HASH GENESIS_HASH false.

(** [verify_chain]: None when the anchor was removed or altered. *)
Definition verify_chain (sealed_from : option (option Z)) (rows : list Row) : VerifyResult :=
  match sealed_from with
  | None => MkResult false 0 None (Some BadAnchor) GENESIS_HASH
  | Some s => verify_rows s rows
  end.

(** ** The logs the appliance makes

    Rows are appended by a clock that does not go back, and pruned. *)
Inductive logged : list Row -> Prop :=
| logged_empty : logged []
| logged_write e given log log' h :
    logged log -> (∀ r, r ∈ log -> fleb (ts (entry r)) (ts e) = true) ->
    write_event e given log = Some (log', h) -> logged log'
| logged_prune cutoff log : logged log -> logged (prune_audit cutoff log).

(** Each row names the one before and commits to its own fields. *)
Fixpoint linked (anchor : string) (rows : list Row) : Prop :=
  match rows with
  | [] => True
  | r :: rows =>
      prev_hash r = anchor ∧ entry_hash r = compute_hash anchor (canonical (entry r)) ∧
      linked (entry_hash r) rows
  end.
Definition tip (anchor : string) (rows : list Row) : string :=
  match last rows with Some r => entry_hash r | None => anchor end.
Definition seal_ok (r : Row) : Prop := mac r = Some (entry_mac (entry_hash r)).

Lemma tip_cons a r rows : tip a (r :: rows) = tip (entry_hash r) rows.
Proof. unfold tip. rewrite last_cons. by destruct (last rows). Qed.

Lemma tip_snoc a rows r : tip a (rows ++ [r]) = entry_hash r.
Proof. unfold tip. by rewrite last_snoc. Qed.

Lemma linked_app a xs ys : linked a (xs ++ ys) ↔ linked a xs ∧ linked (tip a xs) ys.
Proof.
  clear hmac_hex. revert a. induction xs as [|x xs IH]; intros a; simpl; [unfold tip; simpl; tauto|].
  rewrite IH, tip_cons. tauto.
Qed.

Lemma verify_go_ok sf rows n prev final sealed :
  0 < n -> linked prev rows -> Forall seal_ok rows ->
  verify_go sf rows n prev final sealed = MkResult true (n + Z.of_nat (length rows)) None None (tip final rows).
Proof.
  revert n prev final sealed. induction rows as [|r rows IH]; intros n prev final sealed Hn Hl Hs; simpl.
  - by rewrite Z.add_0_r.
  - destruct Hl as (Hp & Hh & Hl). apply Forall_cons in Hs as [Hr Hs].
    rewrite (proj2 (Z.eqb_neq n 0)) by lia. simpl.
    rewrite Hp, String.eqb_refl. simpl. rewrite <- Hh, String.eqb_refl. simpl.
    rewrite (bool_decide_eq_true_2 (mac r = _)) by exact Hr. rewrite andb_false_r.
    rewrite (IH (n + 1) (entry_hash r)) by (done || lia). rewrite tip_cons. f_equal. lia.
Qed.

Lemma verify_go_inv sf rows n prev final sealed c h :
  0 < n -> verify_go sf rows n prev final sealed = MkResult true c None None h ->
  linked prev rows ∧ h = tip final rows ∧
  ∀ r, r ∈ rows -> sealed = true ∨ (∃ s, sf = Some s ∧ s <= e_id (entry r)) -> seal_ok r.
Proof.
  revert n prev final sealed. induction rows as [|r rows IH]; intros n prev final sealed Hn; simpl.
  - intros [= <- <-]. split_and!; try done. by intros r ?%not_elem_of_nil.
  - rewrite (proj2 (Z.eqb_neq n 0)) by lia. simpl.
    destruct (String.eqb_spec (prev_hash r) prev) as [Hp|]; [|done]. simpl.
    destruct (String.eqb_spec (compute_hash (prev_hash r) (canonical (entry r))) (entry_hash r)) as [Hh|]; [|done]. simpl.
    set (must := bool_decide (mac r <> None) || sealed || _).
    destruct (must && _) eqn:Hm; [done|]. intros H. apply IH in H as (Hl & -> & Hs); [|lia].
    split; [by rewrite <- Hp|]. split; [by rewrite tip_cons|].
    intros r' [->|Hr']%elem_of_cons Hwhy.
    + apply andb_false_iff in Hm as [Hm|Hm%negb_false_iff%bool_decide_eq_true]; [|done]. exfalso.
      unfold must in Hm. apply orb_false_iff in Hm as [[_ Hs1]%orb_false_iff Hs2].
      destruct Hwhy as [->|(s & -> & Hle)]; [done|]. apply Z.leb_le in Hle. congruence.
    + apply Hs; [done|]. destruct Hwhy as [->|Hwhy]; [left|by right].
      unfold must. by rewrite !orb_true_r.
Qed.

(** ** Pruning takes a prefix *)

Definition clocked (rows : list Row) : Prop :=
  StronglySorted (fun r r' => fleb (ts (entry r)) (ts (entry r')) = true) rows.
Definition numbered (rows : list Row) : Prop :=
  StronglySorted (fun r r' => e_id (entry r) < e_id (entry r')) rows ∧ Forall (fun r => 1 <= e_id (entry r)) rows.

Lemma prune_suffix cutoff rows : clocked rows -> ∃ k, prune_audit cutoff rows = drop k rows.
Proof.
  unfold prune_audit. induction 1 as [|r rows Hs [k IH] Hr]; [by exists 0%nat|].
  rewrite filter_cons. case_decide as Hc; [|exists (S k); exact IH].
  exists 0%nat. simpl. f_equal. apply filter_all. intros r' Hin.
  apply not_true_is_false. intros Hlt. rewrite Forall_forall in Hr. specialize (Hr r' Hin). simpl in Hr.
  by rewrite (fleb_ltb_trans _ _ _ Hr Hlt) in Hc.
Qed.

Lemma StronglySorted_drop {A} (R : A -> A -> Prop) k l : StronglySorted R l -> StronglySorted R (drop k l).
Proof. revert k. induction l as [|x l IH]; intros [|k] H; simpl; try done. apply IH. by inversion H. Qed.

(** What every log of the appliance is. *)
Definition sound_log (rows : list Row) : Prop :=
  clocked rows ∧ numbered rows ∧ Forall seal_ok rows ∧
  ∃ anchor, linked anchor rows ∧ (∀ r, head rows = Some r -> e_id (entry r) = 1 -> anchor = GENESIS_HASH).

Lemma next_id_above log r : r ∈ log -> e_id (entry r) < audit_next_id log.
Proof.
  unfold audit_next_id. induction log as [|x log IH]; intros H; [by apply not_elem_of_nil in H|]. simpl.
  apply elem_of_cons in H as [->|H]; [lia|]. specialize (IH H). lia.
Qed.

Lemma next_id_pos log : 1 <= audit_next_id log.
Proof. unfold audit_next_id. assert (0 <= foldr (fun r m => Z.max (e_id (entry r)) m) 0 log); [|lia]. induction log; simpl; lia. Qed.

Lemma StronglySorted_snoc {A} (R : A -> A -> Prop) l x :
  StronglySorted R l -> (∀ y, y ∈ l -> R y x) -> StronglySorted R (l ++ [x]).
Proof.
  induction 1 as [|y l Hs IH Hy]; intros H; simpl; [repeat constructor|].
  constructor; [apply IH; intros z Hz; apply H; by right|].
  apply Forall_app. split; [done|]. apply Forall_cons. split; [apply H; by left|constructor].
Qed.

Lemma write_event_inv e given log log' h :
  write_event e given log = Some (log', h) ->
  ∃ stored, log' = log ++ [MkRow stored (audit_last_hash log) h (Some (entry_mac h))] ∧
    e_id stored = audit_next_id log ∧ ts stored = ts e ∧
    h = compute_hash (audit_last_hash log) (canonical stored).
Proof.
  unfold write_event. destruct (negb _); [done|]. destruct (negb _); [done|]. intros [= <- <-].
  eexists. split; [reflexivity|]. split; [done|]. split; [done|].
  f_equal. unfold canonical, payload.
  cbn [e_id ts actor role source_ip action object_type object_id outcome details].
  assert (H : ∀ v l, dumps float_repr (JObj (l ++ [("details", v)])) = dumps float_repr (JObj (l ++ [("details", normal v)]))).
  { intros v l. cbn [dumps]. by rewrite !map_app; cbn [map fst snd]; rewrite dumps_normal. }
  exact (H (JObj (redact_details given)) [_; _; _; _; _; _; _; _; _]).
Qed.

Lemma logged_sound log : logged log -> sound_log log.
Proof.
  induction 1 as [|e given log log' h _ (Hc & (Hn & Hp) & Hs & a & Hl & Hg) Hts Hw|cutoff log _ (Hc & (Hn & Hp) & Hs & a & Hl & Hg)].
  - split_and!; try constructor; try constructor. exists GENESIS_HASH. done.
  - apply write_event_inv in Hw as (stored & -> & Hid & Ht & Hh).
    split; [|split; [split|split]].
    + apply StronglySorted_snoc; [done|]. intros r Hr. simpl. rewrite Ht. by apply Hts.
    + apply StronglySorted_snoc; [done|]. intros r Hr. simpl. rewrite Hid. by apply next_id_above.
    + apply Forall_app. split; [done|]. apply Forall_cons. split; [|constructor]. simpl. rewrite Hid. apply next_id_pos.
    + apply Forall_app. split; [done|]. apply Forall_cons. by split; [|constructor].
    + destruct log as [|r log].
      * exists GENESIS_HASH. done.
      * exists a. split; [|exact Hg]. apply linked_app. split; [done|]. simpl linked.
        unfold audit_last_hash, tip in *. rewrite last_cons in *. by destruct (last log).
  - destruct (prune_suffix cutoff log Hc) as [k Hk]. rewrite Hk.
    split; [by apply StronglySorted_drop|]. split; [split; [by apply StronglySorted_drop|by apply Forall_drop]|].
    split; [by apply Forall_drop|].
    rewrite <- (take_drop k log) in Hl. apply linked_app in Hl as [_ Hl]. eexists. split; [exact Hl|].
    intros r Hr H1. destruct k as [|k].
    + rewrite drop_0 in Hr. unfold tip. simpl. by apply Hg in Hr.
    + exfalso. destruct log as [|x log]; [done|]. simpl in Hr.
      apply Forall_cons in Hp as [Hx _]. apply StronglySorted_inv in Hn as [_ Hn]. rewrite Forall_forall in Hn.
      assert (Hin : r ∈ log).
      { apply head_Some in Hr as [l' Hr]. rewrite <- (take_drop k log), Hr. apply elem_of_app. right. by left. }
      specialize (Hn r Hin). lia.
Qed.

Lemma verify_rows_ok sf rows a :
  linked a rows -> Forall seal_ok rows ->
  (∀ r, head rows = Some r -> e_id (entry r) = 1 -> a = GENESIS_HASH) ->
  verify_rows sf rows = MkResult true (Z.of_nat (length rows)) None None (tip GENESIS_HASH rows).
Proof.
  intros Hl Hs Hg. destruct rows as [|r rows]; [done|]. unfold verify_rows. cbn [verify_go].
  destruct Hl as (Hp & Hh & Hl). apply Forall_cons in Hs as [Hr Hs].
  rewrite Z.eqb_refl. cbn [andb negb].
  destruct ((e_id (entry r) =? 1) && negb (String.eqb (prev_hash r) GENESIS_HASH)) eqn:E.
  { exfalso. apply andb_true_iff in E as [E1%Z.eqb_eq E2%negb_true_iff%String.eqb_neq].
    apply E2. rewrite Hp. by apply (Hg r). }
  rewrite Hp, <- Hh, String.eqb_refl. cbn [negb].
  rewrite (bool_decide_eq_true_2 (mac r = _)) by exact Hr. rewrite andb_false_r.
  rewrite verify_go_ok by (done || lia). rewrite tip_cons. simpl length. f_equal; lia.
Qed.

Lemma verify_rows_inv sf rows c h :
  verify_rows sf rows = MkResult true c None None h ->
  ∃ a, linked a rows ∧ h = tip GENESIS_HASH rows ∧
  (∀ r, head rows = Some r -> e_id (entry r) = 1 -> a = GENESIS_HASH) ∧
  (∀ r, r ∈ rows -> (∃ s, sf = Some s ∧ s <= e_id (entry r)) -> seal_ok r).
Proof.
  destruct rows as [|r rows].
  { intros [= <- <-]. exists GENESIS_HASH. split_and!; try done. by intros r ?%not_elem_of_nil. }
  unfold verify_rows. cbn [verify_go]. rewrite Z.eqb_refl. cbn [andb negb].
  destruct ((e_id (entry r) =? 1) && negb (String.eqb (prev_hash r) GENESIS_HASH)) eqn:E; [done|].
  destruct (String.eqb_spec (compute_hash (prev_hash r) (canonical (entry r))) (entry_hash r)) as [Hh|]; [|done].
  cbn [negb]. set (must := bool_decide (mac r <> None) || false || _).
  destruct (must && _) eqn:Hm; [done|]. intros H. apply verify_go_inv in H as (Hl & -> & Hs); [|lia].
  exists (prev_hash r). split; [done|]. split; [by rewrite tip_cons|]. split.
  - intros r' [= <-] H1. apply andb_false_iff in E as [E%Z.eqb_neq|E%negb_false_iff%String.eqb_eq]; done.
  - intros r' [->|Hr']%elem_of_cons Hwhy; [|apply Hs; [done|by right]].
    apply andb_false_iff in Hm as [Hm|Hm%negb_false_iff%bool_decide_eq_true]; [|done]. exfalso.
    unfold must in Hm. apply orb_false_iff in Hm as [_ Hs2].
    destruct Hwhy as (s & -> & Hle). apply Z.leb_le in Hle. congruence.
Qed.

(** C39: Whatever was audited and pruned, by a clock that does not go back, the log verifies, with any
    anchor of the seals: every row's link, hash and seal are right, and the answer carries the number
    of rows and the newest row's hash. *)
Theorem the_log_verifies log sealed_from :
  logged log ->
  verify_chain (Some sealed_from) log =
    MkResult true (Z.of_nat (length log)) None None (audit_last_hash log).
Proof.
  intros (_ & _ & Hs & a & Hl & Hg)%logged_sound. simpl. by rewrite (verify_rows_ok _ _ a).
Qed.

(** ** Tampering *)

(** An entry as a reader compares it: an object's keys in any order are the same object. *)
Definition as_read (e : Entry) : Entry :=
  MkEntry (e_id e) (ts e) (actor e) (role e) (source_ip e) (action e) (object_type e) (object_id e) (outcome e) (normal (details e)).
(** Every column of a row but its seal. *)
Definition columns (r : Row) : Entry * string * string := (as_read (entry r), prev_hash r, entry_hash r).

Context (Hlen : ∀ s, String.length (sha256_hex s) = 64%nat) (Hfloat : float_text float_repr).

Lemma jopt_inj a b : jopt a = jopt b -> a = b.
Proof using. destruct a, b; simpl; congruence. Qed.
Lemma normal_entry_payload e : normal (payload e) =
  JObj [("action", JStr (action e)); ("actor", JStr (actor e)); ("details", normal (details e)); ("id", JInt (e_id e));
        ("object_id", normal (jopt (object_id e))); ("object_type", normal (jopt (object_type e))); ("outcome", JStr (outcome e));
        ("role", normal (jopt (role e))); ("source_ip", normal (jopt (source_ip e))); ("ts", JFloat (ts e))].
Proof using. reflexivity. Qed.
Lemma normal_jopt s : normal (jopt s) = jopt s.
Proof using. by destruct s. Qed.
(** The text hashed commits to every field. *)
Lemma canonical_inj e e' : canonical e = canonical e' -> as_read e = as_read e'.
Proof using Hfloat.
  intros E%(dumps_inj _ Hfloat). rewrite !normal_entry_payload, !normal_jopt in E. injection E as E1 E2 E3 E4 E5 E6 E7 E8 E9 E10.
  apply jopt_inj in E5, E6, E8, E9. unfold as_read. congruence.
Qed.

Lemma string_app_inj (a b c d : string) :
  String.length a = String.length b -> a +:+ c = b +:+ d -> a = b ∧ c = d.
Proof.
  revert b. induction a as [|x a IH]; intros [|y b] Hab H; simpl in *; try done.
  injection H as -> H. injection Hab as Hab. destruct (IH b Hab H) as [-> ->]. done.
Qed.

Lemma linked_same rows rows' :
  linked GENESIS_HASH rows -> linked GENESIS_HASH rows' -> tip GENESIS_HASH rows = tip GENESIS_HASH rows' ->
  map columns rows = map columns rows' ∨
  (∃ s s', s <> s' ∧ sha256_hex s = sha256_hex s') ∨ (∃ s, sha256_hex s = GENESIS_HASH).
Proof using Hlen Hfloat.
  revert rows'. induction rows as [|r rows IH] using rev_ind; intros rows'.
  - destruct rows' as [|r' rows' _] using rev_ind; [by left|]. rewrite tip_snoc. unfold tip at 1. simpl.
    intros _ H E. apply linked_app in H as [_ (_ & H & _)]. right; right.
    eexists. etransitivity; [symmetry; exact H|by symmetry].
  - destruct rows' as [|r' rows' _] using rev_ind.
    { rewrite tip_snoc. unfold tip. simpl. intros H _ E. apply linked_app in H as [_ (_ & H & _)].
      right; right. eexists. etransitivity; [symmetry; exact H|exact E]. }
    rewrite !tip_snoc. intros H H' E. apply linked_app in H as [Hl (Hq & Hh & _)].
    apply linked_app in H' as [Hl' (Hq' & Hh' & _)].
    set (p := tip GENESIS_HASH rows) in *. set (p' := tip GENESIS_HASH rows') in *.
    destruct (decide (p +:+ canonical (entry r) = p' +:+ canonical (entry r'))) as [Hs|Hs].
    + assert (Hp64 : ∀ l, linked GENESIS_HASH l -> String.length (tip GENESIS_HASH l) = 64%nat).
      { intros l. destruct l as [|x l _] using rev_ind; [done|]. rewrite tip_snoc.
        intros [_ (_ & -> & _)]%linked_app. apply Hlen. }
      destruct (string_app_inj p p' _ _ ltac:(unfold p, p'; by rewrite !Hp64) Hs) as [Hp Hc].
      destruct (IH rows' Hl Hl' Hp) as [IH1|?]; [left|by right].
      apply canonical_inj in Hc. rewrite !map_app, IH1. unfold columns at 2 4. simpl. rewrite Hc, E, Hq, Hq'. fold p p'. by rewrite Hp.
    + right; left. eexists _, _. split; [exact Hs|]. unfold compute_hash in *. congruence.
Qed.

(** C40: Tampering is found: take two logs from the first row on, the one that was written and any
    other, that both verify with the same final hash. Then they have as many rows, and no column of any
    row differs: not the id, the time, the actor, the role, the address, the action, the object, the
    outcome or the details (an object's keys may be in another order), nor the hashes. Unless somebody
    found two texts with one SHA-256, or a text whose SHA-256 is all zeros. And every row from the first
    sealed id on carries the seal of its own hash, which nobody makes without the key. Assumed of the
    hash: 64 characters; of how a float prints: apart from other floats, integers and constants, with
    no quote, comma, colon or bracket ([float_text]). *)
Theorem tampering_is_found sf sf' rows rows' c c' h r r' :
  verify_rows sf rows = MkResult true c None None h ->
  verify_rows sf' rows' = MkResult true c' None None h ->
  head rows = Some r -> e_id (entry r) = 1 -> head rows' = Some r' -> e_id (entry r') = 1 ->
  (map columns rows = map columns rows' ∨
   (∃ s s', s <> s' ∧ sha256_hex s = sha256_hex s') ∨ (∃ s, sha256_hex s = GENESIS_HASH)) ∧
  ∀ x s, x ∈ rows -> sf = Some s -> s <= e_id (entry x) -> mac x = Some (entry_mac (entry_hash x)).
Proof using Hlen Hfloat.
  intros (a & Hl & -> & Hg & Hs)%verify_rows_inv (a' & Hl' & Hh & Hg' & _)%verify_rows_inv H1 I1 H2 I2.
  rewrite (Hg r H1 I1) in Hl. rewrite (Hg' r' H2 I2) in Hl'. split; [by apply linked_same|].
  intros x s Hx -> Hle. apply (Hs x Hx). eauto.
Qed.
End audit.

(** ** At concrete inputs *)

Definition toy_hash (s : string) : string := unchars (take 64 (reverse (chars s) ++ replicate 64 "0"%char)).
Definition toy_repr (f : float) : string :=
  match f with
  | S754_zero b => if b then "Zm" else "Zp"
  | S754_infinity b => if b then "Im" else "Ip"
  | S754_nan => "N"
  | S754_finite b m e => (if b then "M" else "P") +:+ pretty (Npos m) +:+ "." +:+ "e" +:+ pretty e
  end.

Lemma toy_hash_length s : String.length (toy_hash s) = 64%nat.
Proof.
  assert (H : ∀ l, String.length (unchars l) = length l) by (induction l; simpl; congruence).
  unfold toy_hash. rewrite H, length_take, length_app, length_replicate. lia.
Qed.

Definition no_dot (a : ascii) : bool := negb (bool_decide (a = "."%char)).
Lemma pretty_no_dot (m : N) : Forall (fun a => no_dot a = true) (chars (pretty m)).
Proof. eapply Forall_impl; [apply pretty_digits|]. intros a Ha. apply negb_true_iff, bool_decide_eq_false. by intros ->. Qed.
Lemma finite_repr_inj (m m' : positive) (e e' : Z) :
  pretty (Npos m) +:+ "." +:+ "e" +:+ pretty e = pretty (Npos m') +:+ "." +:+ "e" +:+ pretty e' -> m = m' ∧ e = e'.
Proof.
  intros E. apply (f_equal chars) in E. rewrite !chars_app in E.
  apply (run_split no_dot (fun a => negb (no_dot a))) in E as [Em Ee]; [|by intros c ->|apply pretty_no_dot..|done|done].
  cbn in Ee. injection Ee as Ee. apply chars_eq, (inj pretty) in Em, Ee. split; [congruence|done].
Qed.
Lemma toy_repr_text : float_text toy_repr.
Proof.
  split.
  - intros f g E. destruct f as [[]|[]| |[] m e], g as [[]|[]| |[] m' e']; try done; cbn in E;
      injection E as E; by destruct (finite_repr_inj m m' e e' E) as [-> ->].
  - intros f. destruct f as [[]|[]| |[] m e]; try (by repeat constructor); cbn [toy_repr]; rewrite !chars_app; constructor; try done;
      apply Forall_app; (split; [apply (pretty_bare (Zpos m))|]); constructor; try done; constructor; try done; apply pretty_bare.
  - intros f. by destruct f as [[]|[]| |[] m e].
  - intros f. unfold CONSTANTS. rewrite !not_elem_of_cons. destruct f as [[]|[]| |[] m e]; split_and!; try done; apply not_elem_of_nil.
  - intros f z E. destruct (pretty_start z) as (a & l & Ea & Da). rewrite <- E in Ea.
    destruct f as [[]|[]| |[] m e]; injection Ea as <- _; by vm_compute in Da.
Qed.

Definition entry_at (t : Z) : Entry :=
  MkEntry 0 (f_of_Z t) "ana" (Some "admin") None "login.ok" None None "ok" JNull.
Definition write_at (t : Z) (log : list Row) : list Row :=
  match write_event toy_hash toy_repr toy_hash (entry_at t)
          (Some [("b", JInt 1); ("Password", JStr "x"); ("a", JBool true)]) log with
  | Some (log, _) => log
  | None => []
  end.

Lemma write_at_logged t log :
  logged toy_hash toy_repr toy_hash log ->
  Forall (fun r => fleb (ts (entry r)) (f_of_Z t) = true) log ->
  logged toy_hash toy_repr toy_hash (write_at t log).
Proof.
  intros H Ht. unfold write_at. destruct (write_event _ _ _ _ _ _) as [[log' h]|] eqn:E; [|constructor].
  eapply logged_write; [exact H| |exact E]. by apply Forall_forall.
Qed.

Lemma the_log_verifies_witness :
  logged toy_hash toy_repr toy_hash (write_at 5 (write_at 3 [])) ∧
  v_ok (verify_chain toy_hash toy_repr toy_hash (Some (Some 1)) (write_at 5 (write_at 3 []))) = true.
Proof.
  assert (L : logged toy_hash toy_repr toy_hash (write_at 5 (write_at 3 []))).
  { apply write_at_logged; [apply write_at_logged; constructor|].
    apply (bool_decide_unpack _). vm_compute. reflexivity. }
  split; [exact L|]. rewrite (the_log_verifies _ _ _ _ (Some 1) L). reflexivity.
Defined.

(** Both halves: the log written and another that verifies to the same hash, and the seals. *)
Lemma tampering_is_found_witness :
  let log := write_at 5 (write_at 3 []) in
  verify_rows toy_hash toy_repr toy_hash (Some 1) log = MkResult true 2 None None (audit_last_hash log) ∧
  (map columns log = map columns log ∨ (∃ s s', s <> s' ∧ toy_hash s = toy_hash s') ∨ (∃ s, toy_hash s = GENESIS_HASH)) ∧
  ∀ x s, x ∈ log -> Some 1 = Some s -> s <= e_id (entry x) -> mac x = Some (entry_mac toy_hash (entry_hash x)).
Proof.
  intros log.
  assert (H : verify_rows toy_hash toy_repr toy_hash (Some 1) log = MkResult true 2 None None (audit_last_hash log)).
  { vm_compute. reflexivity. }
  split; [exact H|].
  destruct log as [|r rest] eqn:E; [vm_compute in E; discriminate|].
  refine (tampering_is_found toy_hash toy_repr toy_hash toy_hash_length toy_repr_text _ _ _ _ _ _ _ r r H H eq_refl _ eq_refl _);
    assert (Hr : e_id (entry (default r (head (write_at 5 (write_at 3 []))))) = 1) by (vm_compute; reflexivity);
    change (write_at 5 (write_at 3 [])) with log in Hr; rewrite E in Hr; exact Hr.
Defined.

(** A changed outcome is found: the text hashed is another one. *)
Example a_changed_outcome_is_found :
  let log := write_at 5 (write_at 3 []) in
  let forged := map (fun r => MkRow (let e := entry r in MkEntry (e_id e) (ts e) (actor e) (role e) (source_ip e) (action e)
    (object_type e) (object_id e) "denied" (details e)) (prev_hash r) (entry_hash r) (mac r)) log in
  v_ok (verify_rows toy_hash toy_repr toy_hash (Some 1) forged) = false.
Proof. vm_compute. reflexivity. Qed.

(** A clock that stepped back: pruning by time then takes a row from the middle, and the rest no
    longer verifies, though nobody tampered. *)
Example prune_after_a_clock_step :
  v_ok (verify_rows toy_hash toy_repr toy_hash None (write_at 7 (write_at 3 (write_at 5 [])))) = true ∧
  reason (verify_rows toy_hash toy_repr toy_hash None (prune_audit (f_of_Z 4) (write_at 7 (write_at 3 (write_at 5 [])))))
    = Some PrevMismatch.
Proof. split; vm_compute; reflexivity. Qed.
