(* ===== verification/Commands.v ===== *)
(** * What may run on a device ([engine/noc/commands.py])

    The allow-list of verbs, the deny-list of words, and the two readings of a line: a CLI's and
    MikroTik RouterOS's. *)
From S2P Require Import Prelude PyLib.

Definition MAX_COMMAND : nat := 512.

Definition READ_VERBS : list (string * string) :=
  [("show", "view_only");
   ("display", "view_only");
   ("dis", "view_only");
   ("get", "view_only");
   ("ping", "diagnostic");
   ("traceroute", "diagnostic");
   ("tracert", "diagnostic")].

Definition RANK : list (string * Z) := [("view_only", 0); ("diagnostic", 1); ("operator", 2); ("root", 3)].

Definition WRITES : list string :=
  ["configure"; "config-mode"; "conf"; "commit"; "rollback"; "reload"; "reboot"; "restart"; "shutdown";
   "delete"; "del"; "erase"; "format"; "write"; "wr"; "copy"; "move"; "rename"; "clear"; "reset"; "set";
   "unset"; "undo"; "save"; "request"; "debug"; "undebug"; "system-view"; "sys"; "enable"; "su"; "sudo";
   "kill"; "rm"; "mkdir"; "install"; "upgrade"; "load"; "merge"; "replace"; "activate"; "deactivate";
   "redirect"; "tee"; "exec"; "bash"; "sh"; "shell"; "start"; "telnet"; "ssh"; "scp"; "sftp"; "ftp";
   "tftp"; "curl"; "wget"].

Definition ROS_WRITES : list string :=
  ["add"; "remove"; "edit"; "comment"; "disable"; "export"; "import"; "run"; "execute"; "file"; "fetch";
   "download"; "send"; "upload"; "password"; "bandwidth-test"; "flood-ping"; "make-supout"].

Definition ROS_READS : list (string * string) :=
  [("print", "view_only"); ("monitor", "view_only"); ("ping", "diagnostic")].

(** [_FORBIDDEN_CHARS.search]: a character of the class, or a dollar before a parenthesis. *)
Definition forbidden_char (a : ascii) : bool :=
  let c := code a in
  existsb (fun k => c =? k) [59; 124; 38; 62; 60; 96; 92] || (c <=? 31) || (c =? 127).
Fixpoint forbidden (l : list ascii) : bool :=
  match l with
  | [] => false
  | a :: l => forbidden_char a
      || ((code a =? 36) && match l with b :: _ => code b =? 40 | [] => false end) || forbidden l
  end.

Definition ros_forbidden_char (a : ascii) : bool := existsb (fun k => code a =? k) [91; 93; 123; 125].

(** [_WORD.findall]: a letter, then letters, digits, underscores and hyphens. *)
Definition is_letter (a : ascii) : bool :=
  let c := code a in ((65 <=? c) && (c <=? 90)) || ((97 <=? c) && (c <=? 122)).
Definition is_wordy (a : ascii) : bool :=
  let c := code a in is_letter a || ((48 <=? c) && (c <=? 57)) || (c =? 95) || (c =? 45).

Fixpoint find_words (l cur : list ascii) : list (list ascii) :=
  match l with
  | [] => match cur with [] => [] | _ => [reverse cur] end
  | a :: l =>
      match cur with
      | [] => find_words l (if is_letter a then [a] else [])
      | _ => if is_wordy a then find_words l (a :: cur) else reverse cur :: find_words l []
      end
  end.
(** [[w.lower() for w in _WORD.findall(line)]]. *)
Definition line_words (line : string) : list string := map (fun w => lower (unchars w)) (find_words (chars line) []).

(** The sentences a [CommandError] carries, as data. *)
Inductive command_error :=
| Empty | TooLong | BadCharacter | NotRead | Writes (word : string) | NeedsLevel (verb least : string)
| RosBrackets | RosNotRead.

(** [sorted(set(words) & denied)], its first. *)
Definition first_write (words : list string) (denied : list string) : option string :=
  head (sort_by string_leb (filter (fun w => w ∈ denied) words)).

Definition level_ok (access_level least : string) : bool :=
  negb (default (-1) (assoc access_level RANK) <? default 0 (assoc least RANK)).

(** [{p for w in words for p in (w, *w.split("-"))}]. *)
Definition word_parts (words : list string) : list string := mjoin (map (fun w => w :: split "-" w) words).

Definition routeros (line access_level : string) : res command_error string :=
  ensure (negb (existsb ros_forbidden_char (chars line))) RosBrackets
  (let words := line_words line in
   match first_write (word_parts words) (WRITES ++ ROS_WRITES) with
   | Some w => Err (Writes w)
   | None =>
       match list_find (fun w => is_Some (assoc w ROS_READS)) words with
       | None => Err RosNotRead
       | Some (_, verb) =>
           if String.eqb verb "monitor" && negb (bool_decide ("once" ∈ words)) then Err RosNotRead
           else
             let least := default "" (assoc verb ROS_READS) in
             ensure (level_ok access_level least) (NeedsLevel verb least) (Ok line)
       end
   end).

(** [line.split()[0]] exists, the line being stripped and not empty. *)
Definition check (command access_level : string) : res command_error string :=
  let line := strip command in
  if String.eqb line "" then Err Empty
  else ensure (Nat.leb (String.length line) MAX_COMMAND) TooLong
  (ensure (negb (forbidden (chars line))) BadCharacter
  (if String.prefix "/" line then routeros line access_level
   else
     let words := line_words line in
     let verb := lower (default "" (head (PyLib.words line))) in
     match assoc verb READ_VERBS with
     | None => Err NotRead
     | Some least =>
         match first_write (tail words) WRITES with
         | Some w => Err (Writes w)
         | None => ensure (level_ok access_level least) (NeedsLevel verb least) (Ok line)
         end
     end)).

Example check_show : check "  show Interfaces brief " "view_only" = Ok "show Interfaces brief".
Proof. reflexivity. Qed.
Example check_redirect : check "show tech-support redirect x" "root" = Err (Writes "redirect").
Proof. vm_compute. reflexivity. Qed.
Example check_ros : check "/interface ethernet print detail" "view_only" = Ok "/interface ethernet print detail".
Proof. vm_compute. reflexivity. Qed.
Example check_ros_reset : check "/interface reset-counters print" "root" = Err (Writes "reset").
Proof. vm_compute. reflexivity. Qed.

(** ** Stripping *)

Lemma drop_spaces_suffix l : ∃ s, l = s ++ drop_spaces l.
Proof.
  induction l as [|a l [s IH]]; simpl; [by exists []|]. destruct (is_space a); [|by exists []].
  exists (a :: s). simpl. by rewrite <- IH.
Qed.

Lemma drop_spaces_head l a l' : drop_spaces l = a :: l' -> is_space a = false.
Proof.
  induction l as [|b l IH]; simpl; [done|]. destruct (is_space b) eqn:Hb; [done|]. by intros [= <- _].
Qed.

Lemma drop_spaces_id l : (∀ a l', l = a :: l' -> is_space a = false) -> drop_spaces l = l.
Proof. destruct l as [|a l]; [done|]. intros H. simpl. by rewrite (H a l). Qed.

Lemma chars_strip s : chars (strip s) = reverse (drop_spaces (reverse (drop_spaces (chars s)))).
Proof. unfold strip. by rewrite chars_unchars. Qed.

Lemma strip_head s a l : chars (strip s) = a :: l -> is_space a = false.
Proof.
  rewrite chars_strip. destruct (drop_spaces_suffix (reverse (drop_spaces (chars s)))) as [p Hp].
  intros H. apply (f_equal reverse) in Hp. rewrite reverse_involutive, reverse_app, H in Hp. simpl in Hp.
  by apply drop_spaces_head in Hp.
Qed.

Lemma strip_last s a l : chars (strip s) = l ++ [a] -> is_space a = false.
Proof.
  rewrite chars_strip. intros H. apply (f_equal reverse) in H.
  rewrite reverse_involutive, reverse_app in H. simpl in H. by apply drop_spaces_head in H.
Qed.

Lemma strip_strip s : strip (strip s) = strip s.
Proof.
  unfold strip at 1. rewrite (drop_spaces_id (chars (strip s))) by (intros a l H; by eapply strip_head).
  rewrite (drop_spaces_id (reverse (chars (strip s)))), reverse_involutive; [apply unchars_chars|].
  intros a l H. apply (f_equal reverse) in H. rewrite reverse_involutive, reverse_cons in H.
  by eapply strip_last.
Qed.

(** ** The words of a line *)

Lemma wordy_not_letter a : is_wordy a = false -> is_letter a = false.
Proof. unfold is_wordy. intros H. by apply orb_false_iff in H as [[[H _]%orb_false_iff _]%orb_false_iff _]. Qed.

Lemma find_words_app l cur b post :
  is_wordy b = false -> find_words (l ++ b :: post) cur = find_words l cur ++ find_words post [].
Proof.
  intros Hb. revert cur. induction l as [|a l IH]; intros cur; simpl.
  - rewrite Hb, (wordy_not_letter b Hb). by destruct cur.
  - destruct cur; [apply IH|]. destruct (is_wordy a); [apply IH|]. by rewrite IH.
Qed.

Lemma find_words_through w post cur :
  cur <> [] -> Forall (fun a => is_wordy a = true) w ->
  find_words (w ++ post) cur = find_words post (reverse w ++ cur).
Proof.
  intros Hc Hw. revert cur Hc. induction Hw as [|a w Ha _ IH]; intros cur Hc; [done|].
  simpl. destruct cur as [|c cur]; [done|]. rewrite Ha, IH by done. by rewrite reverse_cons, <- app_assoc.
Qed.

(** A word standing on the line: a letter, then word characters, with none before it or after it. *)
Definition a_word (w : list ascii) : Prop :=
  (∃ a w', w = a :: w' ∧ is_letter a = true) ∧ Forall (fun a => is_wordy a = true) w.
Definition starts_apart (post : list ascii) : Prop := ∀ b post', post = b :: post' -> is_wordy b = false.
Definition ends_apart (pre : list ascii) : Prop := ∀ b pre', pre = pre' ++ [b] -> is_wordy b = false.

Lemma find_words_word w post :
  a_word w -> starts_apart post -> find_words (w ++ post) [] = w :: find_words post [].
Proof.
  intros [(a & w' & -> & Ha) Hw] Hp. apply Forall_cons in Hw as [_ Hw]. simpl. rewrite Ha.
  rewrite find_words_through by done.
  assert (Hr : reverse (reverse w' ++ [a]) = a :: w').
  { by rewrite reverse_app, reverse_involutive. }
  destruct post as [|b post]; simpl; destruct (reverse w' ++ [a]) as [|x y] eqn:E.
  1, 3: by destruct (reverse w').
  - by rewrite Hr.
  - rewrite (Hp b post eq_refl), Hr. by rewrite (wordy_not_letter b (Hp b post eq_refl)).
Qed.

Lemma find_words_at pre w post :
  a_word w -> ends_apart pre -> starts_apart post ->
  find_words (pre ++ w ++ post) [] = find_words pre [] ++ w :: find_words post [].
Proof.
  intros Hw Hpre Hpost. destruct pre as [|b pre' _] using rev_ind; [exact (find_words_word w post Hw Hpost)|].
  pose proof (Hpre b pre' eq_refl) as Hb. rewrite <- app_assoc. simpl. rewrite find_words_app by done.
  rewrite find_words_app by done. simpl. rewrite app_nil_r. f_equal. by apply find_words_word.
Qed.

(** [str.split()]'s first word: the line up to its first space. *)
Lemma words_of_first l cur :
  cur <> [] -> ∃ t rest ws, words_of l cur = (reverse cur ++ t) :: ws ∧ l = t ++ rest ∧
    (∀ b rest', rest = b :: rest' -> is_space b = true).
Proof.
  revert cur. induction l as [|a l IH]; intros cur Hc; simpl.
  - exists [], [], []. destruct cur; [done|]. by rewrite app_nil_r.
  - destruct (is_space a) eqn:Ha.
    + exists [], (a :: l), (words_of l []). destruct cur; [done|]. rewrite app_nil_r.
      split; [done|]. split; [done|]. by intros b rest' [= <- _].
    + destruct (IH (a :: cur)) as (t & rest & ws & Hw & -> & Hr); [done|].
      exists (a :: t), rest, ws. rewrite Hw, reverse_cons, <- app_assoc. done.
Qed.

Lemma words_first line a l :
  chars line = a :: l -> is_space a = false ->
  ∃ t rest, head (PyLib.words line) = Some (unchars (a :: t)) ∧ chars line = a :: t ++ rest ∧
    (∀ b rest', rest = b :: rest' -> is_space b = true).
Proof.
  intros Hl Ha. unfold PyLib.words. rewrite Hl. simpl. rewrite Ha.
  destruct (words_of_first l [a]) as (t & rest & ws & Hw & -> & Hr); [done|].
  exists t, rest. rewrite Hw. done.
Qed.

Lemma space_not_wordy a : is_space a = true -> is_wordy a = false.
Proof.
  unfold is_space, is_wordy, is_letter. intros H. rewrite !orb_true_iff, !andb_true_iff in H.
  rewrite !Z.leb_le, !Z.eqb_eq in H. apply not_true_is_false. intros Hw.
  rewrite !orb_true_iff, !andb_true_iff, !Z.leb_le, !Z.eqb_eq in Hw. lia.
Qed.

Lemma lower_letter a : is_letter (lower_char a) = true -> is_letter a = true.
Proof. destruct a as [[] [] [] [] [] [] [] []]; vm_compute; auto. Qed.

Lemma chars_lower s : chars (lower s) = map lower_char (chars s).
Proof. unfold lower. by rewrite chars_unchars. Qed.

(** A verb is letters; so is what folds to one. *)
Lemma verb_letters t :
  is_Some (assoc (lower t) READ_VERBS) -> Forall (fun a => is_letter a = true) (chars t).
Proof.
  intros Hv. assert (Hl : Forall (fun a => is_letter a = true) (chars (lower t))).
  { revert Hv. generalize (lower t). intros v [least Hv]. apply assoc_Some in Hv.
    assert (Hin : v ∈ READ_VERBS.*1) by (apply list_elem_of_fmap; by exists (v, least)).
    clear Hv. revert v Hin. apply Forall_forall. apply (bool_decide_unpack _). vm_compute. reflexivity. }
  rewrite chars_lower in Hl. clear Hv. induction (chars t) as [|a l IH]; [constructor|].
  apply Forall_cons in Hl as [Ha Hl]. constructor; [by apply lower_letter|auto].
Qed.

Lemma letters_wordy l : Forall (fun a => is_letter a = true) l -> Forall (fun a => is_wordy a = true) l.
Proof. intros H. eapply Forall_impl; [exact H|]. intros a Ha. unfold is_wordy. simpl in Ha. by rewrite Ha. Qed.

(** The longest run of word characters is one. *)
Lemma run_unique w1 r1 w2 r2 :
  w1 ++ r1 = w2 ++ r2 -> Forall (fun a => is_wordy a = true) w1 -> Forall (fun a => is_wordy a = true) w2 ->
  starts_apart r1 -> starts_apart r2 -> w1 = w2.
Proof.
  revert w2. induction w1 as [|a w1 IH]; intros [|b w2] H H1 H2 A1 A2; simpl in *; [done|..].
  - subst. apply Forall_cons in H2 as [Hb _]. by rewrite (A1 b (w2 ++ r2) eq_refl) in Hb.
  - subst. apply Forall_cons in H1 as [Ha _]. by rewrite (A2 a (w1 ++ r1) eq_refl) in Ha.
  - injection H as -> H. apply Forall_cons in H1 as [_ H1], H2 as [_ H2]. f_equal. eauto.
Qed.

Lemma first_write_none words denied w :
  first_write words denied = None -> w ∈ words -> w ∉ denied.
Proof.
  unfold first_write. intros H Hw Hd. apply head_None in H.
  assert (Hin : w ∈ sort_by string_leb (filter (fun w => w ∈ denied) words)).
  { apply elem_of_sort_by, list_elem_of_filter. done. }
  rewrite H in Hin. by apply not_elem_of_nil in Hin.
Qed.

Lemma line_words_at line pre w post :
  chars line = pre ++ w ++ post -> a_word w -> ends_apart pre -> starts_apart post ->
  line_words line = map (fun w => lower (unchars w)) (find_words pre []) ++ lower (unchars w)
    :: map (fun w => lower (unchars w)) (find_words post []).
Proof.
  intros Hl Hw Hpre Hpost. unfold line_words. rewrite Hl, find_words_at by done. by rewrite map_app.
Qed.

Lemma forbidden_no_call l pre post : forbidden l = false -> l <> pre ++ "$"%char :: "("%char :: post.
Proof.
  revert l. induction pre as [|b pre IH]; intros l Hf ->; [by vm_compute in Hf|]. cbn [forbidden app] in Hf.
  apply orb_false_iff in Hf as [_ Hf]. by apply (IH _ Hf).
Qed.
Lemma forbidden_none l a : forbidden l = false -> a ∈ l -> forbidden_char a = false.
Proof.
  induction l as [|b l IH]; simpl; intros H Ha; [by apply not_elem_of_nil in Ha|].
  apply orb_false_iff in H as [[H _]%orb_false_iff Hl]. apply elem_of_cons in Ha as [->|Ha]; auto.
Qed.

(** On a line a CLI reads, no standing word writes. *)
Lemma cli_no_write line verb least pre w post :
  (∀ a l, chars line = a :: l -> is_space a = false) -> line <> "" ->
  verb = lower (default "" (head (PyLib.words line))) -> assoc verb READ_VERBS = Some least ->
  first_write (tail (line_words line)) WRITES = None ->
  chars line = pre ++ w ++ post -> a_word w -> ends_apart pre -> starts_apart post ->
  lower (unchars w) ∉ WRITES.
Proof.
  intros Hsp Hne Hv Hr Hf Hl Hw Hpre Hpost.
  destruct (chars line) as [|a l] eqn:Hc.
  { exfalso. apply Hne. rewrite <- (unchars_chars line), Hc. done. }
  destruct (words_first line a l Hc (Hsp a l eq_refl)) as (t & rest & Hh & Hl' & Hrest).
  rewrite Hh in Hv. simpl in Hv. subst verb.
  assert (Hlet : Forall (fun a => is_letter a = true) (a :: t)).
  { rewrite <- (chars_unchars (a :: t)). apply verb_letters. eauto. }
  rewrite Hc in Hl'. destruct pre as [|p pre].
  - assert (Hwt : w = a :: t).
    { apply (run_unique w post (a :: t) rest); try done.
      - simpl in *. congruence.
      - by destruct Hw.
      - by apply letters_wordy.
      - intros b rest' ->. apply space_not_wordy. by eapply Hrest. }
    subst w. intros Hin. assert (Hk : lower (unchars (a :: t)) ∈ READ_VERBS.*1).
    { apply assoc_Some in Hr. apply list_elem_of_fmap. by eexists (_, _). }
    revert Hk Hin. generalize (lower (unchars (a :: t))).
    apply (Forall_forall (fun v => v ∉ WRITES) READ_VERBS.*1). apply (bool_decide_unpack _). vm_compute. reflexivity.
  - simpl in Hl. injection Hl as <- Hl. apply first_write_none with (1 := Hf).
    rewrite (line_words_at line (a :: pre) w post) by (try done; rewrite Hc; simpl; congruence).
    assert (Hfw : find_words (a :: pre) [] <> []).
    { apply Forall_cons in Hlet as [Ha _]. simpl. rewrite Ha. clear.
      assert (H : ∀ l cur, cur <> [] -> find_words l cur <> []).
      { induction l as [|b l IH]; intros [|c cur] Hc; simpl; try done. destruct (is_wordy b); [by apply IH|done]. }
      by apply H. }
    destruct (find_words (a :: pre) []) as [|x xs]; [done|]. simpl. apply elem_of_app. right. by left.
Qed.

(** On a RouterOS line, no standing word writes, nor any part of one between hyphens. *)
Lemma ros_no_write line pre w post :
  first_write (word_parts (line_words line)) (WRITES ++ ROS_WRITES) = None ->
  chars line = pre ++ w ++ post -> a_word w -> ends_apart pre -> starts_apart post ->
  ∀ p, p = lower (unchars w) ∨ p ∈ split "-" (lower (unchars w)) -> p ∉ WRITES ++ ROS_WRITES.
Proof.
  intros Hf Hl Hw Hpre Hpost p Hp. apply first_write_none with (1 := Hf).
  unfold word_parts. apply list_elem_of_join. exists (lower (unchars w) :: split "-" (lower (unchars w))).
  split; [destruct Hp as [->|Hp]; [by left|by right]|].
  apply list_elem_of_fmap. eexists. split; [reflexivity|].
  rewrite (line_words_at line pre w post) by done. apply elem_of_app. right. by left.
Qed.

(** ** The theorems *)

Lemma check_inv command level line :
  check command level = Ok line ->
  line = strip command ∧ line <> "" ∧ (String.length line <= MAX_COMMAND)%nat ∧
  forbidden (chars line) = false ∧
  if String.prefix "/" line then routeros line level = Ok line
  else ∃ verb least, verb = lower (default "" (head (PyLib.words line))) ∧
    assoc verb READ_VERBS = Some least ∧ first_write (tail (line_words line)) WRITES = None ∧
    level_ok level least = true.
Proof.
  unfold check. destruct (String.eqb_spec (strip command) ""); [done|].
  intros [Hlen%Nat.leb_le [Hf%negb_true_iff H]%ensure_Ok_inv]%ensure_Ok_inv.
  destruct (String.prefix "/" (strip command)) eqn:Hp.
  - assert (Hline : line = strip command).
    { pose proof H as H'. unfold routeros in H'. apply ensure_Ok_inv in H' as [_ H'].
      repeat case_match; try done. apply ensure_Ok_inv in H' as [_ H']. by injection H'. }
    subst line. rewrite Hp. done.
  - destruct (assoc _ READ_VERBS) as [least|] eqn:Hv; [|done]. destruct (first_write _ _) eqn:Hw; [done|].
    apply ensure_Ok_inv in H as [Hl [= <-]]. rewrite Hp.
    do 4 (split; [done|]). eexists _, least. by split_and!.
Qed.

Lemma routeros_inv line level :
  routeros line level = Ok line ->
  existsb ros_forbidden_char (chars line) = false ∧
  first_write (word_parts (line_words line)) (WRITES ++ ROS_WRITES) = None ∧
  ∃ verb least, verb ∈ line_words line ∧ assoc verb ROS_READS = Some least ∧
    (verb = "monitor" -> "once" ∈ line_words line) ∧ level_ok level least = true.
Proof.
  unfold routeros. intros [Hf%negb_true_iff H]%ensure_Ok_inv. split; [done|].
  destruct (first_write _ _); [done|]. split; [done|].
  destruct (list_find _ _) as [[i verb]|] eqn:Hfind; [|done].
  apply list_find_Some in Hfind as (Hi & [least Hl] & _).
  destruct (String.eqb verb "monitor" && negb (bool_decide ("once" ∈ line_words line))) eqn:Hm; [done|].
  apply ensure_Ok_inv in H as [Hok _]. rewrite Hl in Hok. simpl in Hok.
  exists verb, least. split; [by eapply list_elem_of_lookup_2|]. split; [done|]. split; [|done].
  intros ->. apply andb_false_iff in Hm as [Hm|Hm%negb_false_iff]; [done|]. by apply bool_decide_eq_true in Hm.
Qed.

(** C38: Whatever a playbook, an agent or a person sends, a command that is let through is the text
    stripped, not empty, of at most 512 characters; it holds none of [; | & > < \], no backquote, no ASCII
    control character (so no line feed or carriage return) and no dollar before a parenthesis, and no
    bracket or brace on a RouterOS line — quotes and what lies above ASCII are let through; nowhere on it
    stands a whole word that writes, in any case; it reads: its first word is a read verb (on a RouterOS
    line, one of its words is a read, a monitor runs once, and no part of a hyphenated word writes); and
    the access level is enough for that verb. *)
Theorem accepted_commands_only_read command level line :
  check command level = Ok line ->
  line = strip command ∧ line <> "" ∧ (String.length line <= 512)%nat ∧
  (∀ a, a ∈ chars line -> forbidden_char a = false) ∧
  (∀ pre post, chars line <> pre ++ "$"%char :: "("%char :: post) ∧
  (String.prefix "/" line = true -> ∀ a, a ∈ chars line -> ros_forbidden_char a = false) ∧
  (∀ pre w post, chars line = pre ++ w ++ post -> a_word w -> ends_apart pre -> starts_apart post ->
    lower (unchars w) ∉ WRITES ∧
    (String.prefix "/" line = true -> ∀ p, p ∈ split "-" (lower (unchars w)) -> p ∉ WRITES ++ ROS_WRITES)) ∧
  if String.prefix "/" line then
    ∃ verb least, verb ∈ line_words line ∧ assoc verb ROS_READS = Some least ∧
      (verb = "monitor" -> "once" ∈ line_words line) ∧ level_ok level least = true
  else
    ∃ first least, head (PyLib.words line) = Some first ∧ assoc (lower first) READ_VERBS = Some least ∧
      level_ok level least = true.
Proof.
  intros (-> & Hne & Hlen & Hf & H)%check_inv.
  split; [done|]. split; [done|]. split; [done|].
  split; [intros a; by apply forbidden_none|]. split; [intros pre post; by apply forbidden_no_call|].
  destruct (String.prefix "/" (strip command)) eqn:Hp; (split; [intros Hr|]); [|clear Hf| |clear Hf]; try done.
  - apply routeros_inv in H as (Hb & _). intros a Ha. destruct (ros_forbidden_char a) eqn:E; [|done].
    exfalso. apply not_true_iff_false in Hb. apply Hb, existsb_exists. exists a. by rewrite <- list_elem_of_In.
  - apply routeros_inv in H as (_ & Hw & H). split; [|done].
    intros pre w post Hl Haw Hpre Hpost. pose proof (ros_no_write _ _ _ _ Hw Hl Haw Hpre Hpost) as Hno.
    split; [|intros _ p Hp'; apply Hno; by right].
    intros Hin. apply (Hno (lower (unchars w)) (or_introl eq_refl)). apply elem_of_app. by left.
  - destruct H as (verb & least & Hv & Hr & Hw & Hok). split.
    + intros pre w post Hl Haw Hpre Hpost. split; [|done].
      eapply cli_no_write; try done. intros a l. apply strip_head.
    + destruct (head (PyLib.words (strip command))) as [t|] eqn:Ht; simpl in Hv; subst verb; eauto.
      by vm_compute in Hr.
Qed.

Lemma accepted_commands_only_read_witness :
  check " show interfaces " "view_only" = Ok "show interfaces" ∧
  lower "interfaces" ∉ WRITES.
Proof.
  assert (H : check " show interfaces " "view_only" = Ok "show interfaces") by (vm_compute; reflexivity).
  split; [exact H|].
  destruct (accepted_commands_only_read _ _ _ H) as (_ & _ & _ & _ & _ & _ & Hw & _).
  apply (Hw (chars "show ") (chars "interfaces") []).
  - vm_compute. reflexivity.
  - split; [by exists "i"%char, (chars "nterfaces")|]. apply (bool_decide_unpack _). vm_compute. reflexivity.
  - intros b pre' E. apply (f_equal reverse) in E. rewrite reverse_app in E.
    vm_compute in E. injection E as <- _. vm_compute. reflexivity.
  - intros b post' E. discriminate.
Defined.

(** Checking again changes nothing and more access never takes a command away: an accepted line,
    given back to the check, is accepted as it is at the same level and at every higher one. *)
Theorem check_is_stable command level line level' :
  check command level = Ok line ->
  default (-1) (assoc level RANK) <= default (-1) (assoc level' RANK) ->
  check line level' = Ok line.
Proof.
  intros (-> & Hne & Hlen & Hf & H)%check_inv Hl.
  assert (Hup : ∀ least, level_ok level least = true -> level_ok level' least = true).
  { intros least. unfold level_ok. rewrite !negb_true_iff, !Z.ltb_ge. lia. }
  unfold check. rewrite strip_strip. apply String.eqb_neq in Hne. rewrite Hne.
  apply Nat.leb_le in Hlen. rewrite Hlen, Hf. cbn [ensure negb].
  destruct (String.prefix "/" (strip command)).
  - unfold routeros in *. apply ensure_Ok_inv in H as [Hb H]. rewrite Hb. simpl.
    destruct (first_write _ _); [done|]. destruct (list_find _ _) as [[i verb]|]; [|done].
    destruct (_ && _); [done|]. apply ensure_Ok_inv in H as [Hok%Hup _].
    unfold ensure. simpl in Hok |- *. by rewrite Hok.
  - destruct H as (verb & least & Hv & Hr & Hw & Hok). rewrite <- Hv, Hr, Hw, (Hup _ Hok). done.
Qed.

Example check_is_stable_ping :
  check " ping 10.0.0.1 " "diagnostic" = Ok "ping 10.0.0.1" ∧ check "ping 10.0.0.1" "root" = Ok "ping 10.0.0.1".
Proof.
  assert (H : check " ping 10.0.0.1 " "diagnostic" = Ok "ping 10.0.0.1") by (vm_compute; reflexivity).
  split; [exact H|]. apply (check_is_stable _ "diagnostic" _ "root" H). vm_compute. discriminate.
Qed.

(** The control characters the class leaves out: a next-line character (0x85) inside a line is let
    through, though the source's sentence says no control character is. *)
Example c1_control_accepted :
  check ("show" +:+ String (Ascii.ascii_of_nat 133) "version") "view_only"
  = Ok ("show" +:+ String (Ascii.ascii_of_nat 133) "version").
Proof. vm_compute. reflexivity. Qed.
