(* ===== verification/Sealing.v ===== *)
(** * Values at rest ([crosscutting/vault.py], [crosscutting/secretbox.py])

    The keys derived from the two key files, what each of them seals, opens, indexes and signs. HKDF, HMAC,
    AES-256-GCM, ChaCha20-Poly1305, [json.loads] and the random values are arguments. Reading and creating the key files
    is not modelled. *)
From S2P Require Import Prelude PyLib Json Auth.

(** ** [base64.urlsafe_b64encode] and [urlsafe_b64decode] *)

Definition to_url (a : ascii) : ascii := if Ascii.eqb a "+" then "-"%char else if Ascii.eqb a "/" then "_"%char else a.
Definition of_url (a : ascii) : ascii := if Ascii.eqb a "-" then "+"%char else if Ascii.eqb a "_" then "/"%char else a.
Definition urlsafe_b64encode (bs : bytes) : string := unchars (map to_url (b64_enc bs)).
Definition urlsafe_b64decode (s : string) : option bytes := b64decode (unchars (map of_url (chars s))).

(** The padding a text of [n] characters lacks, [-n % 4]. *)
Definition pad_of (n : nat) : nat := Z.to_nat ((- Z.of_nat n) mod 4).

Definition KEY_BYTES : nat := 32.
Definition VAULT_PREFIX : string := "nc1:".
Definition BOX_PREFIX : string := "ncs1:".
Definition KID : nat := 4.
Definition NONCE : nat := 12.
Definition TAG : nat := 16.
Definition DEK : nat := 32.
Definition MAX_PAYLOAD_BYTES : Z := 64 * 1024.

Inductive VaultError := Bad_key_size | Not_sealed | Malformed | Truncated | Other_key | Failed_authentication | No_text_fields | Too_large | Not_json.

(** What follows a prefix. *)
Fixpoint after_prefix (p s : list ascii) : option (list ascii) :=
  match p, s with
  | [], _ => Some s
  | a :: p, b :: s => if Ascii.eqb a b then after_prefix p s else None
  | _ :: _, [] => None
  end.
Definition is_sealed (prefix token : string) : bool := String.prefix prefix token.
Definition body_of (prefix token : string) : option bytes := rest ← after_prefix (chars prefix) (chars token); urlsafe_b64decode (unchars rest).

Record Vault := MkVault { seal_key : bytes; index_key : bytes; pepper_key : bytes; vault_wrap_key : bytes; vault_kid : bytes }.
Record SecretBox := MkBox { box_wrap_key : bytes; lease_key : bytes; box_kid : bytes }.

Section sealing.
Context (hkdf : bytes -> string -> bytes) (hmac : bytes -> bytes -> bytes)
        (gcm_encrypt chacha_encrypt : bytes -> bytes -> bytes -> bytes -> bytes)
        (gcm_decrypt chacha_decrypt : bytes -> bytes -> bytes -> bytes -> option bytes)
        (hex : bytes -> string) (float_repr : float -> string) (loads : bytes -> option json).

Definition vault_from_key (key : bytes) : res VaultError Vault :=
  ensure (Nat.eqb (length key) KEY_BYTES) Bad_key_size
    (Ok (MkVault (hkdf key "netcorenoc seal v1") (hkdf key "netcorenoc index v1") (hkdf key "netcorenoc pepper v1")
           (hkdf key "netcorenoc credential outer v1") (take KID (hkdf key "netcorenoc key id v1")))).
Definition box_from_key (key : bytes) : res VaultError SecretBox :=
  ensure (Nat.eqb (length key) KEY_BYTES) Bad_key_size
    (Ok (MkBox (hkdf key "netcorenoc credential kek v1") (hkdf key "netcorenoc lease v1") (take KID (hkdf key "netcorenoc secrets key id v1")))).

(** ** The vault *)

Definition wrap (v : Vault) (nonce : bytes) (place : string) (data : bytes) : bytes :=
  vault_kid v ++ nonce ++ gcm_encrypt (vault_wrap_key v) nonce data (utf8 place).
(** [blob[_KID : _KID + _NONCE]] and [blob[_KID + _NONCE :]]. *)
Definition nonce_of (blob : bytes) : bytes := take NONCE (drop KID blob).
Definition sealed_of (blob : bytes) : bytes := drop (KID + NONCE) blob.
Definition unwrap (v : Vault) (place : string) (blob : bytes) : res VaultError bytes :=
  ensure (Nat.leb (KID + NONCE + 16) (length blob)) Truncated
  (ensure (bool_decide (take KID blob = vault_kid v)) Other_key
  (match gcm_decrypt (vault_wrap_key v) (nonce_of blob) (sealed_of blob) (utf8 place) with
   | Some data => Ok data
   | None => Err Failed_authentication
   end)).

Definition vault_seal (v : Vault) (nonce : bytes) (place : string) (data : bytes) : string :=
  VAULT_PREFIX +:+ urlsafe_b64encode (vault_kid v ++ nonce ++ gcm_encrypt (seal_key v) nonce data (utf8 place)).
Definition vault_open (v : Vault) (place token : string) : res VaultError bytes :=
  ensure (is_sealed VAULT_PREFIX token) Not_sealed
  (match body_of VAULT_PREFIX token with
   | None => Err Malformed
   | Some raw =>
       ensure (Nat.leb (KID + NONCE + 16) (length raw)) Truncated
       (ensure (bool_decide (take KID raw = vault_kid v)) Other_key
       (match gcm_decrypt (seal_key v) (nonce_of raw) (sealed_of raw) (utf8 place) with
        | Some data => Ok data
        | None => Err Failed_authentication
        end))
   end).

Definition zero_byte : byte := z2b 0.
Definition index (v : Vault) (place value : string) : string := hex (hmac (index_key v) (utf8 place ++ zero_byte :: utf8 value)).
Definition vault_pepper (v : Vault) (password : string) : bytes := hmac (pepper_key v) (utf8 password).

(** ** The secret box *)

Definition outer_place (binding : string) : string := "noc_secret|" +:+ binding.
Definition dek_aad (binding : string) : bytes := utf8 ("dek|" +:+ binding).
Definition inner_aad (binding : string) : bytes := utf8 ("inner|" +:+ binding).

(** The random values of one seal. *)
Record Fresh := MkFresh { f_dek : bytes; f_inner : bytes; f_wrap : bytes; f_outer : bytes }.

Definition payload_json (payload : list (string * string)) : json := JObj (map (fun e => (e.1, JStr e.2)) payload).
Definition envelope (b : SecretBox) (f : Fresh) (binding : string) (data : bytes) : bytes :=
  f_wrap f ++ gcm_encrypt (box_wrap_key b) (f_wrap f) (f_dek f) (dek_aad binding)
  ++ f_inner f ++ chacha_encrypt (f_dek f) (f_inner f) data (inner_aad binding).

Definition box_seal (v : Vault) (b : SecretBox) (f : Fresh) (binding : string) (payload : list (string * string)) : res VaultError string :=
  let data := utf8 (dumps float_repr (payload_json payload)) in
  ensure (blen data <=? MAX_PAYLOAD_BYTES) Too_large
  (Ok (BOX_PREFIX +:+ urlsafe_b64encode (box_kid b ++ wrap v (f_outer f) (outer_place binding) (envelope b f binding data)))).

(** [isinstance] of a dict of text to text. *)
Fixpoint text_fields (d : list (string * json)) : option (list (string * string)) :=
  match d with
  | [] => Some []
  | (k, JStr s) :: d => rest ← text_fields d; Some ((k, s) :: rest)
  | _ => None
  end.

Definition WRAPPED_END : nat := NONCE + DEK + TAG.
Definition open_envelope (b : SecretBox) (binding : string) (env : bytes) : option bytes :=
  dek ← gcm_decrypt (box_wrap_key b) (take NONCE env) (take (DEK + TAG) (drop NONCE env)) (dek_aad binding);
  chacha_decrypt dek (take NONCE (drop WRAPPED_END env)) (drop (WRAPPED_END + NONCE) env) (inner_aad binding).

Definition box_open (v : Vault) (b : SecretBox) (binding token : string) : res VaultError (list (string * string)) :=
  ensure (is_sealed BOX_PREFIX token) Not_sealed
  (match body_of BOX_PREFIX token with
   | None => Err Malformed
   | Some raw =>
       ensure (bool_decide (take KID raw = box_kid b)) Other_key
       (env ← unwrap v (outer_place binding) (drop KID raw);
        ensure (Nat.leb (WRAPPED_END + NONCE + TAG) (length env)) Truncated
        (match open_envelope b binding env with
         | None => Err Failed_authentication
         | Some data =>
             match loads data with
             | None => Err Not_json
             | Some (JObj d) => match text_fields d with Some p => Ok p | None => Err No_text_fields end
             | Some _ => Err No_text_fields
             end
         end))
   end).

Definition sign (b : SecretBox) (message : bytes) : bytes := hmac (lease_key b) message.
Definition verify (b : SecretBox) (message signature : bytes) : bool := bool_decide (sign b message = signature).
End sealing.
