(* ===== verification/SealingLaws.v ===== *)
(** * What a seal keeps ([crosscutting/vault.py], [crosscutting/secretbox.py])

    A sealed value opens under the keys and in the place it was sealed for, and nowhere else. The ciphers are the
    authenticated encryption their documentation says: what they encrypted decrypts, and nothing
    else does. *)
From S2P Require Import Prelude PyLib Json Auth Sealing.

(** ** The text of bytes *)

Definition url_char (a : ascii) : Prop := code a < 128 ∧ a ≠ "="%char ∧ of_url (to_url a) = a ∧ to_url a ≠ "."%char ∧ to_url a ≠ "="%char ∧ code (to_url a) < 128.

Lemma b64_char_url i : 0 <= i < 64 -> url_char (b64_char i).
Proof.
  intros Hi.
  assert (forallb (fun n => let a := b64_char (Z.of_nat n) in
            (code a <? 128) && negb (Ascii.eqb a "=") && Ascii.eqb (of_url (to_url a)) a && negb (Ascii.eqb (to_url a) ".")
            && negb (Ascii.eqb (to_url a) "=") && (code (to_url a) <? 128)) (seq 0 64) = true) as H by (vm_compute; reflexivity).
  rewrite forallb_forall in H. specialize (H (Z.to_nat i)). rewrite in_seq, Z2Nat.id in H by lia. specialize (H ltac:(lia)).
  rewrite !andb_true_iff, !negb_true_iff, !Ascii.eqb_neq, Ascii.eqb_eq in H. destruct H as [[[[[H1 H2] H3] H4] H5] H6]. unfold url_char. split_and!; try done; lia.
Qed.

Lemma pad_of_add n : pad_of (4 + n) = pad_of n.
Proof. unfold pad_of. f_equal. rewrite <- (Z_mod_plus_full (- Z.of_nat n) (-1) 4). f_equal. lia. Qed.

Lemma b64_enc_shape bs : ∃ body, b64_enc bs = body ++ replicate (pad_of (length body)) "="%char ∧ Forall url_char body.
Proof.
  assert (∀ n bs, (length bs < n)%nat → ∃ body, b64_enc bs = body ++ replicate (pad_of (length body)) "="%char ∧ Forall url_char body) as H;
    [|apply (H (S (length bs))); lia].
  clear bs. induction n as [|n IH]; intros bs Hn; [lia|].
  destruct bs as [|x [|y [|z bs]]]; cbn [b64_enc]; cbv zeta; [by exists []| | |];
    pose proof (b2z_range x); try pose proof (b2z_range y); try pose proof (b2z_range z).
  - eexists [_; _]. split; [reflexivity|]. repeat constructor; apply b64_char_url; dlia.
  - eexists [_; _; _]. split; [reflexivity|]. repeat constructor; apply b64_char_url; dlia.
  - destruct (IH bs) as (body & -> & F); [simpl in Hn; lia|]. eexists (_ :: _ :: _ :: _ :: body). split.
    + cbn [length]. change (S (S (S (S (length body))))) with (4 + length body)%nat. by rewrite pad_of_add.
    + repeat (constructor; [apply b64_char_url; dlia|]). done.
Qed.

Lemma map_of_to_url l : Forall (fun a => of_url (to_url a) = a) l -> map of_url (map to_url l) = l.
Proof. induction 1 as [|a l H _ IH]; [done|]. cbn. by rewrite H, IH. Qed.

Lemma urlsafe_decode_encode bs : urlsafe_b64decode (urlsafe_b64encode bs) = Some bs.
Proof.
  unfold urlsafe_b64decode, urlsafe_b64encode. rewrite chars_unchars, map_of_to_url; [apply b64decode_encode|].
  destruct (b64_enc_shape bs) as (body & -> & F). apply Forall_app. split; [by eapply Forall_impl; [exact F|intros a (_ & _ & ? & _)]|].
  apply Forall_forall. intros a [-> _]%elem_of_replicate. done.
Qed.

Lemma after_prefix_app p l : after_prefix p (p ++ l) = Some l.
Proof. induction p as [|a p IH]; [done|]. cbn. by rewrite Ascii.eqb_refl. Qed.

Lemma body_of_prefix prefix bs : body_of prefix (prefix +:+ urlsafe_b64encode bs) = Some bs.
Proof. unfold body_of. rewrite chars_app, after_prefix_app. cbn [mbind option_bind]. rewrite unchars_chars. apply urlsafe_decode_encode. Qed.

(** *** UTF-8 keeps texts apart *)

Lemma utf8_app s t : utf8 (s +:+ t) = utf8 s ++ utf8 t.
Proof. unfold utf8. by rewrite chars_app, flat_map_app. Qed.

Lemma code_inj a b : code a = code b -> a = b.
Proof. unfold code. intros H%N2Z.inj. rewrite <- (Ascii.ascii_N_embedding a), <- (Ascii.ascii_N_embedding b). by rewrite H. Qed.

Lemma code_range a : 0 <= code a < 256.
Proof. unfold code. pose proof (Ascii.N_ascii_bounded a). lia. Qed.

Lemma z2b_inj x y : 0 <= x < 256 -> 0 <= y < 256 -> z2b x = z2b y -> x = y.
Proof. intros Hx Hy H. apply (f_equal b2z) in H. rewrite !b2z_z2b, !Z.mod_small in H by lia. done. Qed.

Lemma utf8_inj s t : utf8 s = utf8 t -> s = t.
Proof.
  unfold utf8. rewrite <- (unchars_chars s), <- (unchars_chars t), !chars_unchars. intros H. f_equal. revert H.
  generalize (chars t). induction (chars s) as [|a l IH]; intros [|b k]; cbn; [done|by destruct (code b <? 128)|by destruct (code a <? 128)|].
  pose proof (code_range a). pose proof (code_range b).
  destruct (Z.ltb_spec (code a) 128), (Z.ltb_spec (code b) 128); cbn; intros E.
  - injection E as E1 E2. apply z2b_inj in E1; [|lia..]. f_equal; [by apply code_inj|by apply IH].
  - injection E as E1 E2. apply z2b_inj in E1; [|dlia..]. dlia.
  - injection E as E1 E2. apply z2b_inj in E1; [|dlia..]. dlia.
  - injection E as E1 E2 E3. apply z2b_inj in E1; [|dlia..]. apply z2b_inj in E2; [|dlia..]. f_equal; [|by apply IH].
    apply code_inj. dlia.
Qed.

Lemma app_inj_string (p s t : string) : p +:+ s = p +:+ t -> s = t.
Proof. induction p as [|a p IH]; [done|]. intros [= H]. by apply IH. Qed.

(** ** Sealing and opening *)

Lemma take_length_app {A} (l k : list A) n : length l = n -> take n (l ++ k) = l.
Proof. intros <-. by rewrite take_app_length. Qed.
Lemma drop_length_app {A} (l k : list A) n : length l = n -> drop n (l ++ k) = k.
Proof. intros <-. by rewrite drop_app_length. Qed.
Lemma prefix_app_self p s : is_sealed p (p +:+ s) = true.
Proof. apply prefix_app. Qed.

Lemma text_fields_all (d : list (string * string)) : text_fields (map (fun e => (e.1, JStr e.2)) d) = Some d.
Proof. induction d as [|[k s] d IH]; [done|]. cbn in *. by rewrite IH. Qed.

Lemma normal_payload p : normal (payload_json p) = JObj (map (fun e => (e.1, JStr e.2)) (by_key p)).
Proof. unfold payload_json. cbn [normal]. rewrite map_map. cbn. by rewrite (by_key_map (fun e : string * string => (e.1, JStr e.2))). Qed.

Section opens.
Context (hkdf : bytes -> string -> bytes) (gcm_encrypt chacha_encrypt : bytes -> bytes -> bytes -> bytes -> bytes)
        (gcm_decrypt chacha_decrypt : bytes -> bytes -> bytes -> bytes -> option bytes)
        (float_repr : float -> string) (loads : bytes -> option json).
Hypothesis hkdf_size : ∀ k p, length (hkdf k p) = 32%nat.
Hypothesis gcm_opens : ∀ k n d a, gcm_decrypt k n (gcm_encrypt k n d a) a = Some d.
Hypothesis gcm_size : ∀ k n d a, length (gcm_encrypt k n d a) = (length d + TAG)%nat.
Hypothesis chacha_opens : ∀ k n d a, chacha_decrypt k n (chacha_encrypt k n d a) a = Some d.
Hypothesis chacha_size : ∀ k n d a, length (chacha_encrypt k n d a) = (length d + TAG)%nat.

Lemma unwrap_wrap v nonce place data :
  length (vault_kid v) = KID -> length nonce = NONCE -> unwrap gcm_decrypt v place (wrap gcm_encrypt v nonce place data) = Ok data.
Proof using gcm_opens gcm_size.
  intros Hk Hn. unfold unwrap, wrap, nonce_of, sealed_of, ensure.
  rewrite !length_app, gcm_size, Hk, Hn. replace (Nat.leb _ _) with true by (symmetry; apply Nat.leb_le; unfold KID, NONCE, TAG; lia).
  rewrite (take_length_app (vault_kid v)) by done. rewrite bool_decide_true by done. rewrite (drop_length_app (vault_kid v)) by done.
  rewrite (take_length_app nonce) by done. rewrite app_assoc, (drop_length_app (vault_kid v ++ nonce)) by (by rewrite length_app, Hk, Hn).
  by rewrite gcm_opens.
Qed.

(** A credential sealed under the two keys opens under them for the same binding, and is the fields that were sealed. *)
Theorem a_sealed_credential_opens key key' v b f binding payload token :
  vault_from_key hkdf key = Ok v -> box_from_key hkdf key' = Ok b ->
  length (f_dek f) = DEK -> length (f_inner f) = NONCE -> length (f_wrap f) = NONCE -> length (f_outer f) = NONCE ->
  loads (utf8 (dumps float_repr (payload_json payload))) = Some (normal (payload_json payload)) ->
  box_seal gcm_encrypt chacha_encrypt float_repr v b f binding payload = Ok token ->
  box_open gcm_decrypt chacha_decrypt loads v b binding token = Ok (by_key payload).
Proof using All.
  intros [Hv [= <-]]%ensure_Ok_inv [Hb [= <-]]%ensure_Ok_inv Hd Hi Hw Ho HL. unfold box_seal.
  set (data := utf8 (dumps _ _)) in *. clearbody data. intros [_ [= <-]]%ensure_Ok_inv. set (v := MkVault _ _ _ _ _). set (b := MkBox _ _ _).
  assert (length (vault_kid v) = KID ∧ length (box_kid b) = KID) as [Kv Kb] by (cbn; by rewrite !length_take, !hkdf_size).
  unfold box_open. rewrite prefix_app_self. cbn [ensure]. rewrite body_of_prefix. rewrite (take_length_app (box_kid b)) by done.
  rewrite bool_decide_true by done. cbn [ensure]. rewrite (drop_length_app (box_kid b)) by done. rewrite unwrap_wrap by done. cbn [mbind res_bind].
  assert (length (gcm_encrypt (box_wrap_key b) (f_wrap f) (f_dek f) (dek_aad binding)) = DEK + TAG)%nat as Lw by (by rewrite gcm_size, Hd).
  unfold envelope at 1. rewrite !length_app, chacha_size, Lw, Hi, Hw. unfold ensure at 1.
  replace (Nat.leb _ _) with true by (symmetry; apply Nat.leb_le; unfold WRAPPED_END, NONCE, DEK, TAG; lia).
  unfold open_envelope, envelope. rewrite (take_length_app (f_wrap f) _ NONCE), (drop_length_app (f_wrap f) _ NONCE) by done. rewrite (take_length_app _ _ _ Lw), gcm_opens. cbn [mbind option_bind].
  rewrite app_assoc. rewrite (drop_length_app _ _ WRAPPED_END) by (rewrite length_app, Hw, Lw; done). rewrite (take_length_app (f_inner f)) by done.
  rewrite app_assoc. rewrite (drop_length_app _ _ (WRAPPED_END + NONCE)) by (rewrite !length_app, Hw, Lw, Hi; done).
  rewrite chacha_opens. cbv beta iota. rewrite HL, normal_payload. cbv beta iota. by rewrite text_fields_all.
Qed.
End opens.

(** ** One place only *)

(** What authenticated encryption promises an attacker's text: it decrypts only if it was encrypted under that key, with that
    nonce and those associated data. [log] is what was ever encrypted, each nonce of a key used once. *)
Section binding.
Context (log : list (bytes * bytes * bytes * bytes)) (gcm_encrypt : bytes -> bytes -> bytes -> bytes -> bytes)
        (gcm_decrypt chacha_decrypt : bytes -> bytes -> bytes -> bytes -> option bytes) (loads : bytes -> option json).
Hypothesis authentic : ∀ k n c a d, gcm_decrypt k n c a = Some d -> (k, n, d, a) ∈ log ∧ c = gcm_encrypt k n d a.
Hypothesis nonces_once : ∀ k n d a d' a', (k, n, d, a) ∈ log -> (k, n, d', a') ∈ log -> d = d' ∧ a = a'.

Lemma unwrap_logged v place blob data : unwrap gcm_decrypt v place blob = Ok data -> (vault_wrap_key v, nonce_of blob, data, utf8 place) ∈ log.
Proof using authentic.
  unfold unwrap. intros [_ [_ H]%ensure_Ok_inv]%ensure_Ok_inv. destruct (gcm_decrypt _ _ _ _) as [d|] eqn:E; [|done]. injection H as <-. by apply authentic in E as [? _].
Qed.

Lemma box_open_inv v b binding token p : box_open gcm_decrypt chacha_decrypt loads v b binding token = Ok p ->
  ∃ raw env data, body_of BOX_PREFIX token = Some raw ∧ unwrap gcm_decrypt v (outer_place binding) (drop KID raw) = Ok env
    ∧ open_envelope gcm_decrypt chacha_decrypt b binding env = Some data ∧ take KID raw = box_kid b.
Proof.
  unfold box_open. intros [_ H]%ensure_Ok_inv. destruct (body_of BOX_PREFIX token) as [raw|] eqn:E; [|done].
  apply ensure_Ok_inv in H as [Hk H]. apply bind_Ok_inv in H as (env & Eu & H). apply ensure_Ok_inv in H as [_ H].
  destruct (open_envelope _ _ b binding env) as [data|] eqn:Eo; [|done]. exists raw, env, data. split_and!; try done. by apply bool_decide_eq_true in Hk.
Qed.

(** C16: A text that opens as a credential was sealed for the very binding it is opened with, whatever it was copied from or
    changed to: its envelope was encrypted for that binding's place, its data key for that binding, under keys whose
    ids it names. One text opens for one binding at most, so a row whose host was rewritten does not open. *)
Theorem a_credential_opens_for_one_binding v b binding token p :
  box_open gcm_decrypt chacha_decrypt loads v b binding token = Ok p ->
  (∃ raw env dek, body_of BOX_PREFIX token = Some raw ∧ take KID raw = box_kid b
     ∧ (vault_wrap_key v, nonce_of (drop KID raw), env, utf8 (outer_place binding)) ∈ log
     ∧ (box_wrap_key b, take NONCE env, dek, dek_aad binding) ∈ log)
  ∧ ∀ binding' p', box_open gcm_decrypt chacha_decrypt loads v b binding' token = Ok p' -> binding' = binding ∧ p' = p.
Proof using authentic nonces_once.
  intros H. destruct (box_open_inv _ _ _ _ _ H) as (raw & env & data & Er & Eu & Eo & Ek). split.
  - unfold open_envelope in Eo. destruct (gcm_decrypt (box_wrap_key b) _ _ _) as [dek|] eqn:E; [|done]. exists raw, env, dek.
    split_and!; [done|done|by eapply unwrap_logged|by apply authentic in E as [? _]].
  - intros binding' p' H'. destruct (box_open_inv _ _ _ _ _ H') as (raw' & env' & data' & Er' & Eu' & _). assert (raw' = raw) as -> by congruence.
    destruct (nonces_once _ _ _ _ _ _ (unwrap_logged _ _ _ _ Eu') (unwrap_logged _ _ _ _ Eu)) as [-> Ea]. apply utf8_inj in Ea. unfold outer_place in Ea. apply app_inj_string in Ea as ->.
    split; [done|]. congruence.
Qed.
End binding.

(** ** Examples *)

Definition x_hkdf (key : bytes) (purpose : string) : bytes := take 32 (utf8 purpose ++ replicate 32 zero_byte).
Definition x_encrypt (k n d a : bytes) : bytes := d ++ replicate 16 zero_byte.
Definition x_decrypt (k n c a : bytes) : option bytes := Some (take (length c - 16) c).
Definition x_payload : list (string * string) := [("username", "noc"); ("password", "s3cret")].
Definition x_loads (_ : bytes) : option json := Some (normal (payload_json x_payload)).
Definition x_key : bytes := replicate 32 zero_byte.
Definition x_vault : Vault := match vault_from_key x_hkdf x_key with Ok v => v | Err _ => MkVault [] [] [] [] [] end.
Definition x_box : SecretBox := match box_from_key x_hkdf x_key with Ok b => b | Err _ => MkBox [] [] [] end.
Definition x_fresh : Fresh := MkFresh (replicate 32 (z2b 7)) (replicate 12 (z2b 1)) (replicate 12 (z2b 2)) (replicate 12 (z2b 3)).
Definition x_repr (_ : float) : string := "0".
Definition x_token : string := match box_seal x_encrypt x_encrypt x_repr x_vault x_box x_fresh "host-a" x_payload with Ok t => t | Err _ => "" end.

Lemma x_opens k n d a : x_decrypt k n (x_encrypt k n d a) a = Some d.
Proof. unfold x_decrypt, x_encrypt. f_equal. rewrite length_app, length_replicate. apply take_length_app. lia. Qed.
Lemma x_size k n d a : length (x_encrypt k n d a) = (length d + TAG)%nat.
Proof. unfold x_encrypt. by rewrite length_app, length_replicate. Qed.
Lemma x_hkdf_size k p : length (x_hkdf k p) = 32%nat.
Proof. unfold x_hkdf. rewrite length_take, length_app, length_replicate. lia. Qed.

Lemma a_sealed_credential_opens_witness :
  vault_from_key x_hkdf x_key = Ok x_vault ∧ box_from_key x_hkdf x_key = Ok x_box ∧
  box_seal x_encrypt x_encrypt x_repr x_vault x_box x_fresh "host-a" x_payload = Ok x_token ∧
  box_open x_decrypt x_decrypt x_loads x_vault x_box "host-a" x_token = Ok [("password", "s3cret"); ("username", "noc")].
Proof.
  assert (vault_from_key x_hkdf x_key = Ok x_vault) as Hv by (vm_compute; reflexivity).
  assert (box_from_key x_hkdf x_key = Ok x_box) as Hb by (vm_compute; reflexivity).
  assert (box_seal x_encrypt x_encrypt x_repr x_vault x_box x_fresh "host-a" x_payload = Ok x_token) as Hs by (vm_compute; reflexivity).
  split; [exact Hv|]. split; [exact Hb|]. split; [exact Hs|].
  exact (a_sealed_credential_opens x_hkdf x_encrypt x_encrypt x_decrypt x_decrypt x_repr x_loads x_hkdf_size x_opens x_size x_opens x_size
    x_key x_key x_vault x_box x_fresh "host-a" x_payload x_token Hv Hb eq_refl eq_refl eq_refl eq_refl eq_refl Hs).
Defined.

(** An authentic cipher: it decrypts exactly what is in its log. *)
Definition x_env : bytes := envelope x_encrypt x_encrypt x_box x_fresh "host-a" (utf8 (dumps x_repr (payload_json x_payload))).
Definition x_log : list (bytes * bytes * bytes * bytes) :=
  [(vault_wrap_key x_vault, f_outer x_fresh, x_env, utf8 (outer_place "host-a")); (box_wrap_key x_box, f_wrap x_fresh, f_dek x_fresh, dek_aad "host-a")].
Definition x_authentic (k n c a : bytes) : option bytes :=
  (fun r => (snd (fst (snd r)))) <$> list_find (fun e => match e with (k', n', d, a') => k' = k ∧ n' = n ∧ a' = a ∧ c = x_encrypt k n d a end) x_log.

Lemma x_authentic_ok k n c a d : x_authentic k n c a = Some d -> (k, n, d, a) ∈ x_log ∧ c = x_encrypt k n d a.
Proof.
  unfold x_authentic. intros ([i [[[k' n'] d'] a']] & E & ->)%fmap_Some. apply list_find_Some in E as (E & (-> & -> & -> & ->) & _).
  split; [by eapply list_elem_of_lookup_2|done].
Qed.
Lemma x_nonces k n d a d' a' : (k, n, d, a) ∈ x_log -> (k, n, d', a') ∈ x_log -> d = d' ∧ a = a'.
Proof.
  assert (f_outer x_fresh ≠ f_wrap x_fresh) as N by done. unfold x_log.
  intros [E1|[E1|[]%not_elem_of_nil]%elem_of_cons]%elem_of_cons [E2|[E2|[]%not_elem_of_nil]%elem_of_cons]%elem_of_cons; simplify_eq; done.
Qed.

Lemma a_credential_opens_for_one_binding_witness :
  box_open x_authentic x_decrypt x_loads x_vault x_box "host-a" x_token = Ok [("password", "s3cret"); ("username", "noc")]
  ∧ box_open x_authentic x_decrypt x_loads x_vault x_box "host-b" x_token = Err Failed_authentication
  ∧ ∀ binding' p', box_open x_authentic x_decrypt x_loads x_vault x_box binding' x_token = Ok p' -> binding' = "host-a"%string ∧ p' = [("password", "s3cret"); ("username", "noc")]%string.
Proof.
  assert (box_open x_authentic x_decrypt x_loads x_vault x_box "host-a" x_token = Ok [("password", "s3cret"); ("username", "noc")]) as H by (vm_compute; reflexivity).
  split; [exact H|]. split; [vm_compute; reflexivity|].
  exact (proj2 (a_credential_opens_for_one_binding x_log x_encrypt x_authentic x_decrypt x_loads x_authentic_ok x_nonces x_vault x_box "host-a" x_token _ H)).
Defined.
