(* ===== verification/Leases.v ===== *)
(** * Device credentials and their leases
    ([engine/noc/lease.py], [store/noc_vault.py], [store/noc_access.py], [api/noc_gate.py], [api/routes/secrets.py],
    [noc_access.py] and [noc_exec.py])

    The signed lease and its check, the rows, and each route as what it reads, what it decides and what it writes, because a
    request waits (for a confirmation, for a device) between the two. A request's metadata are those [_bound] validated;
    the outcome of a step-up, what a device answers, [json.loads], SHA-256 and random values are arguments. The case feed
    an act may be posted to, and the fields of a row nothing here reads, are left out. *)
From S2P Require Import Prelude PyLib Json Auth Commands Sealing.

Definition ISSUER : string := "netcorenoc".
Definition AUDIENCE : string := "netcorenoc-noc-executor".
Definition MIN_TTL_S : Z := 60.
Definition MAX_TTL_S : Z := 3600.
Definition LEEWAY_S : Z := 30.
Definition MAX_LEASE_CHARS : nat := Z.to_nat 4096.
Definition MAX_LIVE_LEASES : nat := 20.
Definition LEASE_GRACE_S : float := f_of_Z (30 * 86400).

Record Claims := MkClaims {
  jti : string; sub : string; sid : Z; c_ref : string; ver : Z; c_kind : string; c_host : string; c_port : Z; scope : string;
  iat : Z; nbf : Z; exp : Z; iss : string; aud : string }.

(** ** [_b64] and [_unb64]: no padding *)

Fixpoint drop_pads (l : list ascii) : list ascii := match l with a :: k => if Ascii.eqb a "=" then drop_pads k else l | [] => [] end.
Definition b64 (bs : bytes) : string := unchars (reverse (drop_pads (reverse (map to_url (b64_enc bs))))).
Definition unb64 (text : string) : option bytes := urlsafe_b64decode (text +:+ unchars (replicate (pad_of (String.length text)) "="%char)).

Section lease.
Context (hmac : bytes -> bytes -> bytes) (float_repr : float -> string) (loads : bytes -> option json).

Definition HEADER : json := JObj [("alg"%string, JStr "HS256"); ("typ"%string, JStr "JWT")].
Definition claims_json (c : Claims) : json :=
  JObj [("jti"%string, JStr (jti c)); ("sub"%string, JStr (sub c)); ("sid"%string, JInt (sid c)); ("ref"%string, JStr (c_ref c));
    ("ver"%string, JInt (ver c)); ("kind"%string, JStr (c_kind c)); ("host"%string, JStr (c_host c)); ("port"%string, JInt (c_port c));
    ("scope"%string, JStr (scope c)); ("iat"%string, JInt (iat c)); ("nbf"%string, JInt (nbf c)); ("exp"%string, JInt (exp c));
    ("iss"%string, JStr (iss c)); ("aud"%string, JStr (aud c))].
Definition signing_input (c : Claims) : string :=
  b64 (utf8 (dumps float_repr HEADER)) +:+ "." +:+ b64 (utf8 (dumps float_repr (claims_json c))).
Definition issue (b : SecretBox) (c : Claims) : string := signing_input c +:+ "." +:+ b64 (sign hmac b (utf8 (signing_input c))).

Inductive lease_problem := L_malformed | L_algorithm | L_signature | L_issuer | L_expired | L_not_yet.
(** [Raises]: an exception that is not a [LeaseError]. *)
Inductive Decoded := Valid (c : Claims) | Invalid (p : lease_problem) | Raises.

Definition str_of (v : option json) : option string := match v with Some (JStr s) => Some s | _ => None end.
Definition int_of (v : option json) : option Z := match v with Some (JInt z) => Some z | _ => None end.
Definition says (d : list (string * json)) (k s : string) : bool := bool_decide (str_of (assoc k d) = Some s).
(** [header == _HEADER]. *)
Definition is_header (v : json) : bool :=
  match v with JObj d => Nat.eqb (length d) 2 && says d "alg" "HS256" && says d "typ" "JWT" | _ => false end.

Definition REQUIRED : list string := ["jti"; "sub"; "sid"; "ref"; "ver"; "kind"; "host"; "port"; "scope"; "iat"; "nbf"; "exp"].
(** [Claims( **body)]: a missing or an unknown name is a [TypeError]. A signed body with a value of another type, which
    [issue] never makes, is taken for one that raises later. *)
Definition keys_fit (d : list (string * json)) : bool :=
  forallb (fun k => bool_decide (is_Some (assoc k d))) REQUIRED && forallb (fun e => bool_decide (e.1 ∈ REQUIRED ++ ["iss"; "aud"]%string)) d.
Definition claims_of (d : list (string * json)) : option Claims :=
  let s k := str_of (assoc k d) in let i k := int_of (assoc k d) in
  let or_default k v := match assoc k d with None => Some v | x => str_of x end in
  jti ← s "jti"%string; sub ← s "sub"%string; sid ← i "sid"%string; r ← s "ref"%string; ver ← i "ver"%string; kind ← s "kind"%string;
  host ← s "host"%string; port ← i "port"%string; scope ← s "scope"%string; iat ← i "iat"%string; nbf ← i "nbf"%string; exp ← i "exp"%string;
  iss ← or_default "iss"%string ISSUER; aud ← or_default "aud"%string AUDIENCE;
  Some (MkClaims jti sub sid r ver kind host port scope iat nbf exp iss aud).

Definition checked_claims (c : Claims) (now : float) : Decoded :=
  if negb (String.eqb (iss c) ISSUER && String.eqb (aud c) AUDIENCE) then Invalid L_issuer
  else if fltb (f_of_Z (exp c + LEEWAY_S)) now then Invalid L_expired
  else if fltb (fadd now (f_of_Z LEEWAY_S)) (f_of_Z (nbf c)) then Invalid L_not_yet
  else Valid c.

Definition ascii_text (s : string) : bool := forallb (fun a => code a <? 128) (chars s).

Definition decode (b : SecretBox) (lease : string) (now : float) : Decoded :=
  if String.eqb lease "" || Nat.ltb MAX_LEASE_CHARS (String.length lease) then Invalid L_malformed
  else match PyLib.split "." lease with
  | [h; p; g] =>
      match unb64 h ≫= loads, unb64 g with
      | Some header, Some signature =>
          if negb (is_header header) then Invalid L_algorithm
          else if negb (ascii_text (h +:+ "." +:+ p)) then Raises
          else if negb (verify hmac b (utf8 (h +:+ "." +:+ p)) signature) then Invalid L_signature
          else match unb64 p ≫= loads with
          | Some (JObj d) =>
              if negb (keys_fit d) then Invalid L_malformed
              else match claims_of d with Some c => checked_claims c now | None => Raises end
          | _ => Invalid L_malformed
          end
      | _, _ => Invalid L_malformed
      end
  | _ => Invalid L_malformed
  end.
End lease.

(** ** The rows *)

Record Credential := MkCredential {
  k_ref : string; k_name : string; k_kind : string; k_access : string; k_host : string; k_port : Z; k_protocol : string;
  k_sealed : string; k_version : Z; k_agents : bool; k_host_key : option string }.
Record LeaseRow := MkLease {
  l_hash : string; l_secret : Z; l_subject : string; l_name : string; l_issued : float; l_expires : float;
  l_revoked : option (float * string); l_used : option float; l_uses : Z }.
Record AuditLine := MkLine { au_action : string; au_outcome : string; au_object : string; au_actor : string }.
(** [noc_secret], [noc_lease], [noc_grant] and the audit log. Ids are never used twice. *)
Record Db := MkDb {
  credentials : gmap Z Credential; lease_rows : gmap Z LeaseRow; grants : gset (string * string);
  next_credential : Z; next_lease : Z; audit : list AuditLine }.

Definition set_credentials (d : Db) (m : gmap Z Credential) : Db := MkDb m (lease_rows d) (grants d) (next_credential d) (next_lease d) (audit d).
Definition set_leases (d : Db) (m : gmap Z LeaseRow) : Db := MkDb (credentials d) m (grants d) (next_credential d) (next_lease d) (audit d).
Definition set_grants (d : Db) (g : gset (string * string)) : Db := MkDb (credentials d) (lease_rows d) g (next_credential d) (next_lease d) (audit d).
Definition log_line (d : Db) (a : AuditLine) : Db :=
  MkDb (credentials d) (lease_rows d) (grants d) (next_credential d) (next_lease d) (audit d ++ [a]).

Definition noc_has_grant (d : Db) (subject role : string) : bool := bool_decide ((subject, role) ∈ grants d).
Definition noc_set_grant (d : Db) (subject role : string) (enabled : bool) : bool * Db :=
  (negb (Bool.eqb (noc_has_grant d subject role) enabled),
   set_grants d (if enabled then {[(subject, role)]} ∪ grants d else grants d ∖ {[(subject, role)]})).

Definition noc_create_secret (d : Db) (row : Credential) : Z * Db :=
  (next_credential d, MkDb (<[next_credential d := row]> (credentials d)) (lease_rows d) (grants d) (next_credential d + 1) (next_lease d) (audit d)).

(** The columns an edit writes, and those it keeps. *)
Record Meta := MkMeta { m_name : string; m_kind : string; m_access : string; m_host : string; m_port : Z; m_protocol : string }.
Definition meta_of (k : Credential) : Meta := MkMeta (k_name k) (k_kind k) (k_access k) (k_host k) (k_port k) (k_protocol k).
Definition written (k : Credential) (m : Meta) (sealed : string) (resealed : bool) : Credential :=
  MkCredential (k_ref k) (m_name m) (m_kind m) (m_access m) (m_host m) (m_port m) (m_protocol m) sealed
    (if resealed then k_version k + 1 else k_version k) (k_agents k) (k_host_key k).
Definition noc_update_secret (d : Db) (id : Z) (m : Meta) (sealed : string) (resealed : bool) : Db :=
  set_credentials d (alter (fun k => written k m sealed resealed) id (credentials d)).
(** Deleting a credential deletes its leases. *)
Definition noc_delete_secret (d : Db) (id : Z) : option Db :=
  match credentials d !! id with
  | None => None
  | Some _ => Some (set_leases (set_credentials d (delete id (credentials d))) (filter (fun e : Z * LeaseRow => l_secret e.2 ≠ id) (lease_rows d)))
  end.
Definition with_agents (enabled : bool) (k : Credential) : Credential :=
  MkCredential (k_ref k) (k_name k) (k_kind k) (k_access k) (k_host k) (k_port k) (k_protocol k) (k_sealed k) (k_version k) enabled (k_host_key k).
Definition noc_set_agent_access (d : Db) (id : Z) (enabled : bool) : bool * Db :=
  match credentials d !! id with
  | Some k => if Bool.eqb (k_agents k) enabled then (false, d) else (true, set_credentials d (<[id := with_agents enabled k]> (credentials d)))
  | None => (false, d)
  end.
Definition with_host_key (key : option string) (k : Credential) : Credential :=
  MkCredential (k_ref k) (k_name k) (k_kind k) (k_access k) (k_host k) (k_port k) (k_protocol k) (k_sealed k) (k_version k) (k_agents k) key.
Definition noc_set_host_key (d : Db) (id : Z) (key : option string) : Db := set_credentials d (alter (with_host_key key) id (credentials d)).

(** [None]: the UNIQUE constraint of the hash. *)
Definition noc_create_lease (d : Db) (row : LeaseRow) : option (Z * Db) :=
  let kept := filter (fun e : Z * LeaseRow => fltb (l_expires e.2) (fsub (l_issued row) LEASE_GRACE_S) = false) (lease_rows d) in
  if bool_decide (map_Forall (fun _ l => l_hash l ≠ l_hash row) kept)
  then Some (next_lease d, MkDb (credentials d) (<[next_lease d := row]> kept) (grants d) (next_credential d) (next_lease d + 1) (audit d))
  else None.
Definition noc_lease_by_digest (d : Db) (hash : string) : option (Z * LeaseRow) :=
  head (filter (fun e : Z * LeaseRow => l_hash e.2 = hash) (map_to_list (lease_rows d))).
Definition used_at (now : float) (l : LeaseRow) : LeaseRow :=
  MkLease (l_hash l) (l_secret l) (l_subject l) (l_name l) (l_issued l) (l_expires l) (l_revoked l) (Some now) (l_uses l + 1).
Definition noc_use_lease (d : Db) (id : Z) (now : float) : Db := set_leases d (alter (used_at now) id (lease_rows d)).
Definition revoked_by (now : float) (actor : string) (l : LeaseRow) : LeaseRow :=
  MkLease (l_hash l) (l_secret l) (l_subject l) (l_name l) (l_issued l) (l_expires l) (Some (now, actor)) (l_used l) (l_uses l).
Definition revocable (l : LeaseRow) : bool := bool_decide (l_revoked l = None).
Definition noc_revoke_lease (d : Db) (id : Z) (now : float) (actor : string) : bool * Db :=
  match lease_rows d !! id with
  | Some l => if revocable l then (true, set_leases d (<[id := revoked_by now actor l]> (lease_rows d))) else (false, d)
  | None => (false, d)
  end.
Definition live (now : float) (l : LeaseRow) : bool := revocable l && fltb now (l_expires l).
(** End every live lease of a kind; how many. *)
Definition revoke_where (which : LeaseRow -> bool) (d : Db) (now : float) (actor : string) : nat * Db :=
  (size (filter (fun e : Z * LeaseRow => which e.2 && live now e.2 = true) (lease_rows d)),
   set_leases d ((fun l => if which l && live now l then revoked_by now actor l else l) <$> lease_rows d)).
Definition noc_revoke_secret_leases (d : Db) (id : Z) (now : float) (actor : string) : nat * Db := revoke_where (fun l => l_secret l =? id) d now actor.
Definition noc_revoke_subject_leases (d : Db) (subject : string) (now : float) (actor : string) : nat * Db := revoke_where (fun l => String.eqb (l_subject l) subject) d now actor.
Definition noc_live_leases (d : Db) (subject : string) (now : float) : nat :=
  size (filter (fun e : Z * LeaseRow => l_subject e.2 = subject ∧ live now e.2 = true) (lease_rows d)).

(** ** The gates *)

Inductive problem := Forbidden | Not_found | Bad_request | Conflict | Unprocessable | Failed.

Definition is_custodian (d : Db) (p : Principal) (caps : list string) : bool :=
  if is_token p then false
  else match ref p with
       | None => false
       | Some r => if bool_decide ("secrets.grants"%string ∈ caps) then true else noc_has_grant d r "custodian"
       end.
Definition is_agent (d : Db) (p : Principal) : bool :=
  if negb (is_token p) then false else match ref p with Some r => noc_has_grant d r "agent" | None => false end.

(** [confirm]: what the step-up answered, if one was sent. A refusal is in the log before it is one. *)
Definition confirm (d : Db) (stepped : option bool) (action object actor : string) : problem * Db + unit :=
  match stepped with
  | None => inl (Bad_request, d)
  | Some false => inl (Forbidden, log_line d (MkLine action "denied" object actor))
  | Some true => inr ()
  end.

(** [_device]: the kinds that are not an AI provider's key. *)
Definition DEVICE_KINDS : list string := ["ssh_password"; "ssh_key"; "sftp"; "snmp_community"; "snmp_v3"; "api_token"; "smtp"; "other"].
Definition device (k : Credential) : bool := k_agents k && bool_decide (k_kind k ∈ DEVICE_KINDS).

Inductive lease_refusal := Not_a_lease (p : lease_problem) | Unknown_lease | Another_agent | Revoked | Expired | Changed | Not_an_agent.
Inductive Checked := Usable (c : Claims) (lease_id : Z) (k : Credential) | Unusable (r : lease_refusal) | Broken.

Section routes.
Context (hmac : bytes -> bytes -> bytes) (gcm_encrypt chacha_encrypt : bytes -> bytes -> bytes -> bytes -> bytes)
        (gcm_decrypt chacha_decrypt : bytes -> bytes -> bytes -> bytes -> option bytes) (float_repr : float -> string)
        (loads : bytes -> option json) (sha256_hex : string -> string) (v : Vault) (b : SecretBox).
Abbreviation seal := (box_seal gcm_encrypt chacha_encrypt float_repr v b).
Abbreviation open := (box_open gcm_decrypt chacha_decrypt loads v b).

(** [kinds.binding]. *)
Definition binding (r : string) (m : Meta) : string :=
  dumps float_repr (JObj [("access"%string, JStr (m_access m)); ("host"%string, JStr (m_host m)); ("kind"%string, JStr (m_kind m));
    ("port"%string, JInt (m_port m)); ("ref"%string, JStr r); ("v"%string, JStr (m_protocol m))]).
Definition own_binding (k : Credential) : string := binding (k_ref k) (meta_of k).

Definition lease_refused (d : Db) (p : Principal) (custodian : bool) (c : Claims) (now : float) : option lease_refusal :=
  match noc_lease_by_digest d (sha256_hex (jti c)) with
  | None => Some Unknown_lease
  | Some (_, row) =>
      if negb (l_secret row =? sid c) then Some Unknown_lease
      else if negb custodian && negb (bool_decide (ref p = Some (sub c))) then Some Another_agent
      else if bool_decide (is_Some (l_revoked row)) then Some Revoked
      else if fltb (l_expires row) now then Some Expired
      else match credentials d !! sid c with
      | None => Some Changed
      | Some k => if negb (k_agents k) || negb (k_version k =? ver c) then Some Changed
                  else if negb (noc_has_grant d (sub c) "agent") then Some Not_an_agent else None
      end
  end.

Definition lease_state (d : Db) (p : Principal) (caps : list string) (token : string) (now : float) : Checked * Db :=
  match decode hmac loads b token now with
  | Raises => (Broken, d)
  | Invalid e => (Unusable (Not_a_lease e), d)
  | Valid c =>
      match lease_refused d p (is_custodian d p caps) c now with
      | Some r => (Unusable r, match r with Another_agent => log_line d (MkLine "noc.lease.use" "denied" (pretty (sid c)) (actor p)) | _ => d end)
      | None => match noc_lease_by_digest d (sha256_hex (jti c)), credentials d !! sid c with
                | Some (i, _), Some k => (Usable c i k, d)
                | _, _ => (Broken, d)
                end
      end
  end.

(** ** The vault's routes *)

Definition create_secret (d : Db) (p : Principal) (caps : list string) (r : string) (m : Meta) (fields : option (list (string * string))) (f : Fresh) : problem + (Z * Db) :=
  if negb (is_custodian d p caps) then inl Forbidden
  else match fields with
  | None => inl Bad_request
  | Some fields =>
      match seal f (binding r m) fields with
      | Err _ => inl Failed
      | Ok sealed =>
          let '(id, d) := noc_create_secret d (MkCredential r (m_name m) (m_kind m) (m_access m) (m_host m) (m_port m) (m_protocol m) sealed 1 false None) in
          inr (id, log_line d (MkLine "noc.secret.create" "ok" (pretty id) (actor p)))
      end
  end.

(** [update_secret]: the row it reads, what it makes of it, and what it writes. *)
Definition update_read (d : Db) (p : Principal) (caps : list string) (id : Z) : problem + Credential :=
  if negb (is_custodian d p caps) then inl Forbidden else match credentials d !! id with None => inl Not_found | Some k => inr k end.
Definition rebound (before m : Meta) : bool :=
  negb (String.eqb (m_kind before) (m_kind m) && String.eqb (m_host before) (m_host m) && (m_port before =? m_port m)
        && String.eqb (m_protocol before) (m_protocol m) && String.eqb (m_access before) (m_access m)).
Definition update_decide (current : Credential) (m : Meta) (fields : option (list (string * string))) (f : Fresh) : problem + (string * bool) :=
  let before := meta_of current in
  if bool_decide (fields = None) && negb (String.eqb (m_kind before) (m_kind m)) then inl Bad_request
  else if bool_decide (fields = None) && negb (rebound before m) then inr (k_sealed current, false)
  else match (match fields with Some fields => Ok fields | None => open (own_binding current) (k_sealed current) end) with
  | Err _ => inl Conflict
  | Ok payload => match seal f (binding (k_ref current) m) payload with Ok sealed => inr (sealed, true) | Err _ => inl Failed end
  end.
Definition moved (current : Credential) (m : Meta) : bool := negb (String.eqb (k_host current) (m_host m) && (k_port current =? m_port m)).
Definition update_write (d : Db) (id : Z) (current : Credential) (m : Meta) (sealed : string) (resealed : bool) (now : float) (p : Principal) : problem + Db :=
  match credentials d !! id with
  | None => inl Failed
  | Some _ =>
      let d := noc_update_secret d id m sealed resealed in
      let d := if resealed then (noc_revoke_secret_leases d id now (actor p)).2 else d in
      let d := if moved current m then noc_set_host_key d id None else d in
      inr (log_line d (MkLine "noc.secret.update" "ok" (pretty id) (actor p)))
  end.
Definition update_secret (d : Db) (p : Principal) (caps : list string) (id : Z) (m : Meta) (fields : option (list (string * string))) (stepped : option bool) (f : Fresh) (now : float) : problem * Db + Db :=
  match update_read d p caps id with
  | inl e => inl (e, d)
  | inr current =>
      match confirm d stepped "noc.secret.update" (pretty id) (actor p) with
      | inl e => inl e
      | inr () =>
          match update_decide current m fields f with
          | inl e => inl (e, d)
          | inr (sealed, resealed) => match update_write d id current m sealed resealed now p with inl e => inl (e, d) | inr d => inr d end
          end
      end
  end.

Definition delete_secret (d : Db) (p : Principal) (caps : list string) (id : Z) (stepped : option bool) : problem * Db + Db :=
  match update_read d p caps id with
  | inl e => inl (e, d)
  | inr _ =>
      match confirm d stepped "noc.secret.delete" (pretty id) (actor p) with
      | inl e => inl e
      | inr () => match noc_delete_secret d id with
                  | None => inl (Not_found, d)
                  | Some d => inr (log_line d (MkLine "noc.secret.delete" "ok" (pretty id) (actor p)))
                  end
      end
  end.

(** The answer carries the fields. *)
Definition reveal_secret (d : Db) (p : Principal) (caps : list string) (id : Z) (stepped : option bool) : problem * Db + (list (string * string) * Db) :=
  match update_read d p caps id with
  | inl e => inl (e, d)
  | inr k =>
      match confirm d stepped "noc.secret.reveal" (pretty id) (actor p) with
      | inl e => inl e
      | inr () => match open (own_binding k) (k_sealed k) with
                  | Err _ => inl (Conflict, log_line d (MkLine "noc.secret.reveal" "error" (pretty id) (actor p)))
                  | Ok payload => inr (payload, log_line d (MkLine "noc.secret.reveal" "ok" (pretty id) (actor p)))
                  end
      end
  end.

(** Switching on is stepped up, switching off is not. *)
Definition agent_access (d : Db) (p : Principal) (caps : list string) (id : Z) (enabled : bool) (stepped : option bool) (now : float) : problem * Db + Db :=
  match update_read d p caps id with
  | inl e => inl (e, d)
  | inr _ =>
      match (if enabled then confirm d stepped "noc.secret.agents" (pretty id) (actor p) else inr ()) with
      | inl e => inl e
      | inr () =>
          let '(changed, d1) := noc_set_agent_access d id enabled in
          let '(ended, d2) := if enabled then (0%nat, d1) else noc_revoke_secret_leases d1 id now (actor p) in
          inr (if changed || negb (Nat.eqb ended 0) then log_line d2 (MkLine "noc.secret.agents" "ok" (pretty id) (actor p)) else d2)
      end
  end.

(** ** Grants and leases *)

(** The subject exists and fits the role; naming somebody is stepped up, withdrawing is not. *)
Definition set_grant (d : Db) (p : Principal) (subject role : string) (is_user fit enabled : bool) (stepped : option bool) (now : float) : problem * Db + Db :=
  if negb (Bool.eqb is_user (bool_decide (role ∈ ["custodian"; "lead"]%string))) then inl (Bad_request, d)
  else if negb fit then inl (Bad_request, d)
  else match (if enabled then confirm d stepped "noc.grant.change" subject (actor p) else inr ()) with
  | inl e => inl e
  | inr () =>
      let '(changed, d1) := noc_set_grant d subject role enabled in
      let '(ended, d2) := if String.eqb role "agent" && negb enabled then noc_revoke_subject_leases d1 subject now (actor p) else (0%nat, d1) in
      inr (if changed || negb (Nat.eqb ended 0) then log_line d2 (MkLine "noc.grant.change" "ok" subject (actor p)) else d2)
  end.

(** [issue_lease]: what it reads, and what it writes. *)
Definition lease_read (d : Db) (p : Principal) (id : Z) (now : float) : problem + (string * Credential) :=
  if negb (is_agent d p) then inl Forbidden
  else match ref p with
  | None => inl Failed
  | Some r =>
      match credentials d !! id with
      | None => inl Not_found
      | Some k => if negb (device k) then inl Not_found
                  else if Nat.leb MAX_LIVE_LEASES (noc_live_leases d r now) then inl Conflict else inr (r, k)
      end
  end.
Definition lease_claims (r : string) (id : Z) (k : Credential) (fresh : string) (issued ttl_s : Z) : Claims :=
  MkClaims fresh r id (k_ref k) (k_version k) (k_kind k) (k_host k) (k_port k) (k_access k) issued issued (issued + ttl_s) ISSUER AUDIENCE.
Definition lease_write (d : Db) (p : Principal) (c : Claims) (now : float) : option (Z * Db) :=
  '(i, d) ← noc_create_lease d (MkLease (sha256_hex (jti c)) (sid c) (sub c) (actor p) now (f_of_Z (exp c)) None None 0);
  Some (i, log_line d (MkLine "noc.lease.issue" "ok" (pretty (sid c)) (actor p))).
Definition issue_lease (d : Db) (p : Principal) (id ttl_s : Z) (fresh : string) (now : float) : problem + (Claims * string * Db) :=
  if negb ((MIN_TTL_S <=? ttl_s) && (ttl_s <=? MAX_TTL_S)) then inl Unprocessable
  else match lease_read d p id now with
  | inl e => inl e
  | inr (r, k) =>
      let c := lease_claims r id k fresh (f_trunc now) ttl_s in
      match lease_write d p c now with Some (_, d) => inr (c, issue hmac float_repr b c, d) | None => inl Failed end
  end.

Definition introspect (d : Db) (p : Principal) (caps : list string) (token : string) (now : float) : problem * Db + (option Claims * Db) :=
  match lease_state d p caps token now with
  | (Broken, d) => inl (Failed, d)
  | (Unusable _, d) => inr (None, d)
  | (Usable c i k, d) => inr (Some c, log_line (noc_use_lease d i now) (MkLine "noc.lease.use" "ok" (pretty (sid c)) (actor p)))
  end.
Definition revoke_lease (d : Db) (p : Principal) (caps : list string) (id : Z) (now : float) : problem + Db :=
  match lease_rows d !! id with
  | None => inl Not_found
  | Some row =>
      if negb (bool_decide (ref p = Some (l_subject row)) || is_custodian d p caps) then inl Not_found
      else let '(ended, d) := noc_revoke_lease d id now (actor p) in
           inr (if ended then log_line d (MkLine "noc.lease.revoke" "ok" (pretty (l_secret row)) (actor p)) else d)
  end.
End routes.

(** ** Step-up ([crosscutting/stepup.py]) *)

(** [Overflow]: the throttle's delay no longer fits a float. *)
Inductive StepUp := Confirmed | Is_token | Locked | Mismatch | Wrong_password | Overflow.
Section stepup.
Context (pepper : string -> bytes) (scrypt : bytes -> bytes -> Z -> Z -> Z -> Z -> bytes).

Definition stepup_confirm (st : Store) (t : LoginThrottle) (p : Principal) (uname password source_ip : string) (now : float) : StepUp * LoginThrottle :=
  match (if is_token p then None else user_id p) with
  | None => (Is_token, t)
  | Some uid =>
      let failed outcome := let '(t, raised) := record_failure (actor p) source_ip now t in (if raised then Overflow else outcome, t) in
      if fltb f_zero (locked_for t (actor p) source_ip now) then (Locked, t)
      else match users st !! uid with
      | None => failed Mismatch
      | Some u =>
          if disabled u || negb (String.eqb (username u) uname) then failed Mismatch
          else if negb (verify_password pepper scrypt password (password_hash u)) then failed Wrong_password
          else (Confirmed, record_success (actor p) source_ip t)
      end
  end.
End stepup.
