(* ===== verification/Agents.v ===== *)
(** * The organization of the agents ([engine/noc/agents.py], [store/noc_agents.py],
    [api/routes/agents.py])

    An agent reports to another or to nobody. The chain a case climbs, the agents below one, the
    check that refuses a loop, and the acts that change who reports to whom: hiring, a change of
    manager and retiring. *)
From S2P Require Import Prelude.

Definition WORKING : list string := ["idle"; "running"; "error"].

(** The columns of [noc_agent] the organization and the routing read. *)
Record Agent := MkAgent {
  a_name : string; a_status : string; a_tier : Z; reports_to : option Z; adapter : string;
  entry : bool; wake_on_assignment : bool; escalate_after_s : option Z; a_version : Z }.

(** Rows by id. [everyone] is what the API and the agent loop read: the agents not retired. *)
Definition everyone (rows : list (Z * Agent)) : list (Z * Agent) :=
  filter (fun e => a_status e.2 <> "terminated") rows.

(** [agents.get(a)["reports_to"]], None when there is no such agent. *)
Definition boss_of (agents : list (Z * Agent)) (a : Z) : option Z := assoc a agents ≫= reports_to.

(** ** [cycle]

    The [while] with its [seen] set. Each round adds a new agent, so one more round than there are
    agents is enough ([cycle_total]). *)
Fixpoint cycle_go (fuel : nat) (agents : list (Z * Agent)) (seen : list Z) (current : option Z)
    : option bool :=
  match current with
  | None => Some false
  | Some c =>
      if bool_decide (c ∈ seen) then Some true
      else match fuel with
      | O => None
      | S fuel => cycle_go fuel agents (c :: seen) (boss_of agents c)
      end
  end.

Definition cycle (agents : list (Z * Agent)) (agent_id : Z) (to : option Z) : option bool :=
  cycle_go (S (length agents)) agents [agent_id] to.

(** ** [chain] and [subtree] *)

Fixpoint chain_go (fuel : nat) (agents : list (Z * Agent)) (agent_id : Z) (out : list Z)
    (current : option Z) : option (list Z) :=
  match current with
  | None => Some out
  | Some c =>
      if bool_decide (c ∈ out) || (c =? agent_id) then Some out
      else match fuel with
      | O => None
      | S fuel => chain_go fuel agents agent_id (out ++ [c]) (boss_of agents c)
      end
  end.

Definition chain (agents : list (Z * Agent)) (agent_id : Z) : option (list Z) :=
  chain_go (S (length agents)) agents agent_id [] (boss_of agents agent_id).

(** [below.get(a, [])]. *)
Definition below (agents : list (Z * Agent)) (a : Z) : list Z :=
  (filter (fun e => reports_to e.2 = Some a) agents).*1.

(** The stack's top is the head of the list: [extend] pushes in order, [pop] takes the last. *)
Fixpoint subtree_go (fuel : nat) (agents : list (Z * Agent)) (out stack : list Z)
    : option (list Z) :=
  match stack with
  | [] => Some out
  | aid :: stack =>
      match fuel with
      | O => None
      | S fuel =>
          if bool_decide (aid ∈ out) then subtree_go fuel agents out stack
          else subtree_go fuel agents (aid :: out) (reverse (below agents aid) ++ stack)
      end
  end.

Definition subtree (agents : list (Z * Agent)) (agent_id : Z) : option (list Z) :=
  subtree_go (S (2 * length agents)) agents [] (reverse (below agents agent_id)).

Definition ESCALATE_EVERY_S : list (string * Z) :=
  [("critical", 1800); ("major", 3600); ("minor", 7200)].

(** [own] counts only when it is truthy. *)
Definition escalate_after (agent : Agent) (priority : string) : Z :=
  match escalate_after_s agent with
  | Some own => if own =? 0 then default 7200 (assoc priority ESCALATE_EVERY_S) else own
  | None => default 7200 (assoc priority ESCALATE_EVERY_S)
  end.

(** ** The acts that change the organization *)

Inductive agent_error := NoSuchAgent | NoSuchManager | ManagerBelow | Stale.

Definition set_boss (b : option Z) (a : Agent) : Agent :=
  MkAgent (a_name a) (a_status a) (a_tier a) b (adapter a) (entry a) (wake_on_assignment a)
    (escalate_after_s a) (a_version a + 1).
Definition set_agent_status (s : string) (a : Agent) : Agent :=
  MkAgent (a_name a) s (a_tier a) (reports_to a) (adapter a) (entry a) (wake_on_assignment a)
    (escalate_after_s a) (a_version a + 1).

(** [UPDATE ... WHERE id = ?]. *)
Definition at_id (id : Z) (f : Agent -> Agent) (rows : list (Z * Agent)) : list (Z * Agent) :=
  map (fun e => (e.1, if e.1 =? id then f e.2 else e.2)) rows.

(** [check_links]: a manager that exists and is not retired, and no loop. [id] is None when
    hiring. 0 is no manager, as None is. *)
Definition check_links (rows : list (Z * Agent)) (boss : option Z) (id : option Z)
    : res agent_error () :=
  match boss with
  | None => Ok tt
  | Some b =>
      if b =? 0 then Ok tt
      else ensure
        (match assoc b rows with
         | Some a => negb (String.eqb (a_status a) "terminated")
         | None => false
         end)
        NoSuchManager
        (match id with
         | None => Ok tt
         | Some i =>
             ensure (match cycle (everyone rows) i (Some b) with Some c => negb c | None => false end)
               ManagerBelow (Ok tt)
         end)
  end.

(** [noc_create_agent] after the check; the database gives a new id. *)
Definition hire (rows : list (Z * Agent)) (id : Z) (a : Agent) : res agent_error (list (Z * Agent)) :=
  _ ← check_links rows (reports_to a) None; Ok (rows ++ [(id, a)]).

Definition subject (rows : list (Z * Agent)) (id : Z) : res agent_error Agent :=
  match assoc id rows with
  | Some a => ensure (negb (String.eqb (a_status a) "terminated")) NoSuchAgent (Ok a)
  | None => Err NoSuchAgent
  end.

(** [update_agent] for the manager: 0 becomes None; [noc_update_agent] is optimistic. *)
Definition change_manager (rows : list (Z * Agent)) (id : Z) (given : option Z) (version : Z)
    : res agent_error (list (Z * Agent)) :=
  let boss := match given with Some b => if b =? 0 then None else Some b | None => None end in
  agent ← subject rows id;
  _ ← check_links rows boss (Some id);
  ensure (a_version agent =? version) Stale (Ok (at_id id (set_boss boss) rows)).

(** [terminate_agent]: the agents reporting to it move up to its manager, then it is retired. *)
Definition terminate (rows : list (Z * Agent)) (id : Z) : res agent_error (list (Z * Agent)) :=
  agent ← subject rows id;
  let reports := filter (fun e => reports_to e.2 = Some id) (everyone rows) in
  let moved := foldl (fun rows e => at_id e.1 (set_boss (reports_to agent)) rows) rows reports in
  Ok (at_id id (set_agent_status "terminated") moved).

(** The histories of the organization: pausing and running change the status, never to or from
    "terminated". *)
Inductive organized : list (Z * Agent) -> Prop :=
| organized_empty : organized []
| organized_hire rows id a rows' :
    organized rows -> id ∉ rows.*1 -> reports_to a <> Some 0 -> a_status a <> "terminated" ->
    hire rows id a = Ok rows' -> organized rows'
| organized_change rows id given version rows' :
    organized rows -> change_manager rows id given version = Ok rows' -> organized rows'
| organized_terminate rows id rows' :
    organized rows -> terminate rows id = Ok rows' -> organized rows'
| organized_status rows id s a :
    organized rows -> subject rows id = Ok a -> s <> "terminated" ->
    organized (at_id id (set_agent_status s) rows).

(** ** Walking up *)

Fixpoint up (agents : list (Z * Agent)) (n : nat) (a : Z) : option Z :=
  match n with O => Some a | S n => boss_of agents a ≫= up agents n end.

(** The organization is a forest: every chain of managers ends. *)
Definition forest (agents : list (Z * Agent)) : Prop :=
  well_founded (fun boss a => boss_of agents a = Some boss).

Lemma up_add ag n m a : up ag (n + m) a = up ag n a ≫= up ag m.
Proof.
  revert a. induction n as [|n IH]; intros a; simpl; [done|].
  destruct (boss_of ag a) as [c|]; simpl; [apply IH|done].
Qed.

Lemma up_snoc ag n a c c' : up ag n a = Some c -> boss_of ag c = Some c' -> up ag (S n) a = Some c'.
Proof. intros H Hc. replace (S n) with (n + 1)%nat by lia. rewrite up_add, H. simpl. by rewrite Hc. Qed.

Lemma forest_up ag a n : forest ag -> up ag (S n) a <> Some a.
Proof.
  intros Hf. revert n. induction (Hf a) as [a _ IH]. intros n Hn. simpl in Hn.
  destruct (boss_of ag a) as [c|] eqn:Hc; [|done]. simpl in Hn.
  apply (IH c eq_refl n). by eapply up_snoc.
Qed.

Lemma boss_of_key ag a c : boss_of ag a = Some c -> a ∈ ag.*1.
Proof.
  unfold boss_of. destruct (assoc a ag) as [r|] eqn:Hr; [|done]. intros _.
  apply assoc_Some in Hr. apply list_elem_of_fmap. by exists (a, r).
Qed.

(** Marking a new key as seen leaves fewer to see. *)
Definition unseen (ks seen : list Z) : nat := length (filter (fun k => k ∉ seen) ks).

Lemma unseen_le ks c seen : (unseen ks (c :: seen) <= unseen ks seen)%nat.
Proof.
  unfold unseen. induction ks as [|k ks IH]; [done|]. rewrite !filter_cons.
  destruct (decide (k ∉ c :: seen)) as [H|H], (decide (k ∉ seen)) as [H'|H']; simpl; try lia.
  exfalso. apply H'. intros Hk. apply H. by right.
Qed.

Lemma unseen_lt ks c seen :
  c ∈ ks -> c ∉ seen -> (unseen ks (c :: seen) < unseen ks seen)%nat.
Proof.
  intros Hc Hs. pose proof unseen_le as Hle. unfold unseen in *.
  induction ks as [|k ks IH]; [by apply not_elem_of_nil in Hc|].
  rewrite !filter_cons. specialize (Hle ks c seen).
  destruct (decide (k = c)) as [->|Hk].
  - rewrite decide_False by (intros H; apply H; by left). rewrite decide_True by done. simpl. lia.
  - apply elem_of_cons in Hc as [->|Hc]; [done|]. specialize (IH Hc).
    destruct (decide (k ∉ c :: seen)) as [H|H], (decide (k ∉ seen)) as [H'|H']; simpl; try lia.
    exfalso. apply H'. intros Hks. apply H. by right.
Qed.

Lemma unseen_nil ks seen : (unseen ks seen <= length ks)%nat.
Proof. apply length_filter. Qed.

(** ** [cycle] *)

Lemma cycle_go_total fuel ag seen current :
  (unseen ag.*1 seen < fuel)%nat -> ∃ b, cycle_go fuel ag seen current = Some b.
Proof.
  revert seen current. induction fuel as [|fuel IH]; [lia|]. intros seen [c|] Hf; simpl; [|eauto].
  case_bool_decide as Hc; [eauto|].
  destruct (decide (c ∈ ag.*1)) as [Hk|Hk].
  - apply IH. pose proof (unseen_lt _ _ _ Hk Hc). lia.
  - destruct (boss_of ag c) eqn:Hb; [by apply boss_of_key in Hb|]. destruct fuel; simpl; eauto.
Qed.

Lemma cycle_total ag id to : ∃ b, cycle ag id to = Some b.
Proof.
  apply cycle_go_total. pose proof (unseen_nil ag.*1 [id]) as H. rewrite length_fmap in H. lia.
Qed.

Lemma cycle_go_true fuel ag id seen c :
  forest ag -> (∀ s, s ∈ seen -> s = id ∨ ∃ m, up ag (S m) s = Some c) ->
  cycle_go fuel ag seen (Some c) = Some true -> ∃ n, up ag n c = Some id.
Proof.
  intros Hf. revert seen c. induction fuel as [|fuel IH]; intros seen c Hs; cbn [cycle_go];
    case_bool_decide as Hc.
  - intros _. destruct (Hs c Hc) as [->|[m Hm]]; [by exists 0%nat|by apply forest_up in Hm].
  - done.
  - intros _. destruct (Hs c Hc) as [->|[m Hm]]; [by exists 0%nat|by apply forest_up in Hm].
  - destruct (boss_of ag c) as [c'|] eqn:Hb; [|by destruct fuel].
    intros H. destruct (IH (c :: seen) c') as [n Hn]; [|done|].
    + intros s [->|Hin]%elem_of_cons; [right; exists 0%nat; simpl; by rewrite Hb|].
      destruct (Hs s Hin) as [->|[m Hm]]; [by left|right]. exists (S m). by eapply up_snoc.
    + exists (S n). simpl. by rewrite Hb.
Qed.

Lemma cycle_go_false fuel ag id seen c n :
  id ∈ seen -> cycle_go fuel ag seen (Some c) = Some false -> up ag n c <> Some id.
Proof.
  revert seen c n. induction fuel as [|fuel IH]; intros seen c n Hid; cbn [cycle_go];
    case_bool_decide as Hc; try done.
  intros H Hn. destruct n as [|n]; simpl in Hn; [by injection Hn as ->|].
  destruct (boss_of ag c) as [c'|] eqn:Hb; [|done]. simpl in Hn.
  by apply (IH (c :: seen) c' n); [right| |].
Qed.

Lemma cycle_spec ag id b :
  forest ag -> cycle ag id (Some b) = Some false ↔ ∀ n, up ag n b <> Some id.
Proof.
  intros Hf. split; [intros H n; eapply cycle_go_false; [|done]; by left|].
  intros H. destruct (cycle_total ag id (Some b)) as [[] Hc]; [|done].
  apply cycle_go_true with (id := id) in Hc as [n Hn]; [by apply H in Hn|done|].
  intros s ->%list_elem_of_singleton. by left.
Qed.

(** ** [subtree] and [chain] *)

Lemma elem_of_below ag a x :
  NoDup ag.*1 -> x ∈ below ag a ↔ boss_of ag x = Some a.
Proof.
  intros Hnd. unfold below, boss_of. split.
  - intros ([x' r] & -> & Hin)%list_elem_of_fmap. apply list_elem_of_filter in Hin as [Hr Hin].
    simpl in *. by rewrite (assoc_NoDup _ _ _ Hnd Hin).
  - destruct (assoc x ag) as [r|] eqn:Hr; [|done]. intros H. apply assoc_Some in Hr.
    apply list_elem_of_fmap. exists (x, r). split; [done|]. by apply list_elem_of_filter.
Qed.

(** The rows whose manager is not in [out]. *)
Definition hanging (ag : list (Z * Agent)) (out : list Z) : nat :=
  length (filter (fun e : Z * Agent => from_option (fun b => bool_decide (b ∉ out)) false (reports_to e.2) = true) ag).

Lemma hanging_cons ag out aid :
  aid ∉ out -> hanging ag out = (length (below ag aid) + hanging ag (aid :: out))%nat.
Proof.
  intros Ha. unfold hanging, below. rewrite length_fmap.
  induction ag as [|[k r] ag IH]; [done|]. rewrite !filter_cons. simpl.
  destruct (reports_to r) as [b|]; simpl; [|exact IH].
  destruct (decide (b = aid)) as [->|Hb].
  - rewrite (decide_True (P := Some aid = Some aid)) by done.
    rewrite (decide_True (P := bool_decide (aid ∉ out) = true)) by by rewrite bool_decide_eq_true.
    rewrite decide_False; [simpl; lia|]. rewrite bool_decide_eq_true. intros H. apply H. by left.
  - rewrite (decide_False (P := Some b = Some aid)) by congruence.
    assert (bool_decide (b ∉ aid :: out) = bool_decide (b ∉ out)) as ->.
    { apply bool_decide_ext. rewrite not_elem_of_cons. naive_solver. }
    destruct (bool_decide (b ∉ out)); simpl; [|exact IH]. lia.
Qed.

Lemma subtree_go_total fuel ag out stack :
  (length stack + hanging ag out < fuel)%nat -> ∃ l, subtree_go fuel ag out stack = Some l.
Proof.
  revert out stack. induction fuel as [|fuel IH]; [lia|]. intros out [|aid stack] Hf; simpl; [eauto|].
  simpl in Hf. case_bool_decide as Ha.
  - apply IH. lia.
  - apply IH. rewrite (hanging_cons _ _ _ Ha) in Hf. rewrite length_app, length_reverse. lia.
Qed.

Lemma subtree_total ag a : ∃ l, subtree ag a = Some l.
Proof.
  apply subtree_go_total. rewrite length_reverse.
  pose proof (length_filter (fun e : Z * Agent => reports_to e.2 = Some a) ag).
  pose proof (length_filter (fun e : Z * Agent => from_option (fun b => bool_decide (b ∉ [])) false (reports_to e.2) = true) ag).
  unfold below, hanging. rewrite length_fmap. lia.
Qed.

Section subtree.
Context (ag : list (Z * Agent)) (a : Z) (Hnd : NoDup ag.*1).

Let Below (x : Z) : Prop := ∃ n, up ag (S n) x = Some a.

Lemma subtree_go_sound fuel out stack l :
  subtree_go fuel ag out stack = Some l ->
  (∀ x, x ∈ out -> Below x) -> (∀ x, x ∈ stack -> Below x) -> ∀ x, x ∈ l -> Below x.
Proof using Hnd.
  revert out stack. induction fuel as [|fuel IH]; intros out [|aid stack]; simpl; intros H Ho Hs;
    try (by simplify_eq).
  case_bool_decide as Ha.
  - eapply IH; [done|done|]. intros x Hx. apply Hs. by right.
  - eapply IH; [done| |].
    + intros x [->|Hx]%elem_of_cons; [apply Hs; by left|by apply Ho].
    + intros x [Hx|Hx]%elem_of_app; [|apply Hs; by right].
      rewrite elem_of_reverse, elem_of_below in Hx by done.
      destruct (Hs aid ltac:(by left)) as [n Hn]. exists (S n).
      change (boss_of ag x ≫= up ag (S n) = Some a). by rewrite Hx.
Qed.

Lemma subtree_go_closed fuel out stack l :
  subtree_go fuel ag out stack = Some l ->
  (∀ x p, boss_of ag x = Some p -> p = a ∨ p ∈ out -> x ∈ out ∨ x ∈ stack) ->
  ∀ x p, boss_of ag x = Some p -> p = a ∨ p ∈ l -> x ∈ l.
Proof using Hnd.
  revert out stack. induction fuel as [|fuel IH]; intros out [|aid stack]; simpl; intros H Hc.
  1, 3: simplify_eq; intros x p Hx Hp; by destruct (Hc x p Hx Hp) as [|?%not_elem_of_nil].
  1: done.
  case_bool_decide as Ha.
  - eapply IH; [done|]. intros x p Hx Hp. destruct (Hc x p Hx Hp) as [?|[->|?]%elem_of_cons]; auto.
  - eapply IH; [done|]. intros x p Hx Hp. rewrite elem_of_cons, elem_of_app, elem_of_reverse.
    destruct (decide (p = aid)) as [->|Hpa].
    + right; left. by apply elem_of_below.
    + destruct (Hc x p Hx) as [?|[->|?]%elem_of_cons]; auto.
      destruct Hp as [|[->|]%elem_of_cons]; auto. done.
Qed.

Lemma elem_of_subtree l x : subtree ag a = Some l -> x ∈ l ↔ Below x.
Proof using Hnd.
  intros H. split.
  - eapply subtree_go_sound; [exact H|by intros ? ?%not_elem_of_nil|].
    intros y Hy. rewrite elem_of_reverse, elem_of_below in Hy by done.
    exists 0%nat. simpl. by rewrite Hy.
  - assert (Hcl : ∀ x p, boss_of ag x = Some p -> p = a ∨ p ∈ l -> x ∈ l).
    { eapply subtree_go_closed; [exact H|].
      intros y q Hq [->|?%not_elem_of_nil]; [right|done]. rewrite elem_of_reverse.
      by apply elem_of_below. }
    intros [n Hn]. revert x Hn. induction n as [|n IH]; intros x Hn; simpl in Hn;
      destruct (boss_of ag x) as [p|] eqn:Hp; try done; simpl in Hn.
    + simplify_eq. eauto.
    + eauto.
Qed.
End subtree.

Lemma chain_go_total fuel ag id out current :
  (unseen ag.*1 out < fuel)%nat -> ∃ l, chain_go fuel ag id out current = Some l.
Proof.
  revert out current. induction fuel as [|fuel IH]; [lia|]. intros out [c|] Hf; simpl; [|eauto].
  case_bool_decide as Hc; simpl; [eauto|]. destruct (c =? id); [eauto|].
  destruct (decide (c ∈ ag.*1)) as [Hk|Hk].
  - apply IH. pose proof (unseen_lt _ _ _ Hk Hc).
    replace (unseen ag.*1 (out ++ [c])) with (unseen ag.*1 (c :: out)); [lia|].
    unfold unseen. f_equal. apply list_filter_iff. intros y. rewrite elem_of_app, list_elem_of_singleton, elem_of_cons. naive_solver.
  - destruct (boss_of ag c) eqn:Hb; [by apply boss_of_key in Hb|]. destruct fuel; simpl; eauto.
Qed.

Lemma chain_total ag id : ∃ l, chain ag id = Some l.
Proof.
  apply chain_go_total. pose proof (unseen_nil ag.*1 []) as H. rewrite length_fmap in H. lia.
Qed.

(** In a forest the chain is the managers in order: nobody is met twice. *)
Lemma chain_go_spec fuel ag id out c l :
  forest ag -> (∀ i b, out !! i = Some b -> up ag (S i) id = Some b) ->
  up ag (S (length out)) id = c ->
  chain_go fuel ag id out c = Some l -> ∀ i, l !! i = up ag (S i) id.
Proof.
  intros Hf. revert out c. induction fuel as [|fuel IH]; intros out c Hout Hc; cbn [chain_go].
  all: destruct c as [c|].
  2, 4: intros [= <-] i; destruct (out !! i) as [b|] eqn:Hb; [by rewrite (Hout _ _ Hb)|];
    apply lookup_ge_None in Hb; replace (S i) with (S (length out) + (i - length out))%nat by lia;
    by rewrite up_add, Hc.
  all: assert (Hn : bool_decide (c ∈ out) || (c =? id) = false).
  1, 3: apply orb_false_iff; split;
    [apply bool_decide_eq_false; intros [i Hi]%list_elem_of_lookup;
     pose proof (lookup_lt_Some _ _ _ Hi); apply Hout in Hi;
     replace (S (length out)) with (S i + S (length out - i - 1))%nat in Hc by lia;
     rewrite up_add, Hi in Hc; by apply forest_up in Hc
    |apply Z.eqb_neq; intros ->; by apply forest_up in Hc].
  all: rewrite Hn; clear Hn.
  1: done.
  apply IH.
  - intros i b Hi. rewrite lookup_app in Hi. destruct (out !! i) as [b'|] eqn:Hb; [simplify_eq; auto|].
    apply lookup_ge_None in Hb. destruct (i - length out)%nat as [|k] eqn:Hk; [|done].
    simpl in Hi. simplify_eq. replace i with (length out) by lia. done.
  - rewrite length_app. simpl. replace (length out + 1)%nat with (S (length out)) by lia.
    destruct (boss_of ag c) as [c'|] eqn:Hb; [by eapply up_snoc|].
    change (up ag (S (S (length out))) id = None).
    replace (S (S (length out))) with (S (length out) + 1)%nat by lia.
    rewrite up_add, Hc. simpl. by rewrite Hb.
Qed.

Lemma chain_spec ag id l : forest ag -> chain ag id = Some l -> ∀ i, l !! i = up ag (S i) id.
Proof.
  intros Hf. apply chain_go_spec; [done|done|]. simpl. by destruct (boss_of ag id).
Qed.

(** ** Changes of the organization, on the managers alone *)

Lemma forest_set ag ag' id c :
  forest ag -> (∀ b n, c = Some b -> up ag n b <> Some id) ->
  (∀ x, boss_of ag' x = if decide (x = id) then c else boss_of ag x) -> forest ag'.
Proof.
  intros Hf Hc Hb.
  assert (Hlow : ∀ y, (∀ n, up ag n y <> Some id) -> Acc (λ p x, boss_of ag' x = Some p) y).
  { intros y. induction (Hf y) as [y _ IH]. intros Hy. constructor. intros p Hp.
    rewrite Hb in Hp. rewrite decide_False in Hp by (intros ->; by apply (Hy 0%nat)).
    apply IH; [done|]. intros n Hn. apply (Hy (S n)). simpl. by rewrite Hp. }
  assert (Hid : Acc (λ p x, boss_of ag' x = Some p) id).
  { constructor. intros p Hp. rewrite Hb, decide_True in Hp by done. apply Hlow. eauto. }
  intros y. induction (Hf y) as [y _ IH]. destruct (decide (y = id)) as [->|Hy]; [done|].
  constructor. intros p Hp. rewrite Hb, decide_False in Hp by done. auto.
Qed.

Lemma forest_set_inv ag ag' id c :
  (∀ x, boss_of ag' x = if decide (x = id) then Some c else boss_of ag x) ->
  forest ag' -> ∀ n, up ag n c <> Some id.
Proof.
  intros Hb Hf.
  assert (H : ∀ n y, up ag n y = Some id -> ∃ m, up ag' m y = Some id).
  { induction n as [|n IH]; intros y Hy; [by exists 0%nat|].
    destruct (decide (y = id)) as [->|Hyd]; [by exists 0%nat|].
    simpl in Hy. destruct (boss_of ag y) as [p|] eqn:Hp; [|done].
    destruct (IH p Hy) as [m Hm]. exists (S m). simpl. by rewrite Hb, decide_False, Hp by done. }
  intros n Hn. destruct (H n c Hn) as [m Hm]. apply (forest_up ag' id m Hf). simpl.
  by rewrite Hb, decide_True by done.
Qed.

Lemma forest_lift ag ag' id :
  forest ag ->
  (∀ x, boss_of ag' x = if decide (x = id) then None
    else if decide (boss_of ag x = Some id) then boss_of ag id else boss_of ag x) -> forest ag'.
Proof.
  intros Hf Hb.
  assert (H : ∀ y, Acc (λ p x, boss_of ag' x = Some p) y ∧
    ∀ p, boss_of ag y = Some p -> Acc (λ p x, boss_of ag' x = Some p) p).
  { intros y. induction (Hf y) as [y _ IH]. split; [|intros p Hp; by apply IH].
    constructor. intros p Hp. rewrite Hb in Hp. repeat case_decide; [done| |by apply IH].
    by apply (IH id). }
  intros y. apply H.
Qed.

Lemma assoc_everyone rows k :
  NoDup rows.*1 ->
  assoc k (everyone rows) =
    (r ← assoc k rows; if decide (a_status r <> "terminated") then Some r else None).
Proof.
  unfold everyone. induction rows as [|[k' r] rows IH]; [done|]. rewrite filter_cons. simpl.
  intros [Hn Hd]%NoDup_cons. specialize (IH Hd).
  assert (Hk : assoc k' rows = None) by by apply assoc_None.
  case_decide as Hs; simpl; destruct (decide (k = k')) as [->|]; try done; simpl.
  - simpl in Hs. by case_decide.
  - simpl in Hs. rewrite IH, Hk. simpl. by case_decide.
Qed.

Lemma assoc_at_id k id f rows :
  assoc k (at_id id f rows) = if decide (k = id) then f <$> assoc k rows else assoc k rows.
Proof.
  unfold at_id. induction rows as [|[k' r] rows IH]; simpl; [by case_decide|].
  destruct (decide (k = k')) as [->|]; [|done].
  destruct (Z.eqb_spec k' id); by case_decide.
Qed.

Lemma keys_at_id id f rows : (at_id id f rows).*1 = rows.*1.
Proof. unfold at_id. rewrite <- list_fmap_compose. by apply list_fmap_ext. Qed.

Lemma elem_of_keys {V} k (d : list (Z * V)) : k ∈ d.*1 ↔ is_Some (assoc k d).
Proof.
  pose proof (assoc_None k d) as H. destruct (assoc k d) as [v|] eqn:Hk.
  - split; [eauto|]. intros _. destruct (decide (k ∈ d.*1)); [done|]. by apply H in n.
  - split; [|by intros []]. intros Hin. by apply H in Hin.
Qed.

(** What the acts keep: ids are distinct, no chain loops, and an agent at work reports to one that
    is not retired. *)
Definition sound (rows : list (Z * Agent)) : Prop :=
  NoDup rows.*1 ∧ forest (everyone rows) ∧
  (∀ a b, boss_of (everyone rows) a = Some b -> b ∈ (everyone rows).*1).

Lemma subject_inv rows id a :
  subject rows id = Ok a -> assoc id rows = Some a ∧ a_status a <> "terminated".
Proof.
  unfold subject. destruct (assoc id rows) as [r|]; [|done].
  intros [Hs [= ->]]%ensure_Ok_inv. split; [done|]. reflect_bools. done.
Qed.

Lemma check_links_inv rows b id u :
  NoDup rows.*1 -> check_links rows (Some b) id = Ok u -> b <> 0 ->
  b ∈ (everyone rows).*1 ∧
  (∀ i, id = Some i -> cycle (everyone rows) i (Some b) = Some false).
Proof.
  intros Hd H Hb. unfold check_links in H. destruct (Z.eqb_spec b 0); [done|].
  apply ensure_Ok_inv in H as [Hr H].
  rewrite elem_of_keys, assoc_everyone by done.
  destruct (assoc b rows) as [r|]; [|done]. reflect_bools. simpl.
  rewrite decide_True by done. split; [eauto|]. intros i ->.
  apply ensure_Ok_inv in H as [H _].
  destruct (cycle (everyone rows) i (Some b)) as [[]|]; done.
Qed.

Lemma boss_of_everyone rows k :
  NoDup rows.*1 ->
  boss_of (everyone rows) k =
    (r ← assoc k rows; if decide (a_status r <> "terminated") then reports_to r else None).
Proof.
  intros Hd. unfold boss_of. rewrite assoc_everyone by done. destruct (assoc k rows); [|done].
  simpl. by case_decide.
Qed.

Lemma key_of_everyone rows k :
  NoDup rows.*1 ->
  k ∈ (everyone rows).*1 ↔ ∃ r, assoc k rows = Some r ∧ a_status r <> "terminated".
Proof.
  intros Hd. rewrite elem_of_keys, assoc_everyone by done. destruct (assoc k rows) as [r|]; simpl.
  - case_decide; [naive_solver|]. split; [by intros []|naive_solver].
  - split; [by intros []|naive_solver].
Qed.

Lemma NoDup_everyone rows : NoDup rows.*1 -> NoDup (everyone rows).*1.
Proof.
  unfold everyone. induction rows as [|[k r] rows IH]; [done|]. intros [Hn Hd]%NoDup_cons.
  rewrite filter_cons. case_decide; [|auto]. simpl. apply NoDup_cons. split; [|auto].
  intros ([k' r'] & -> & Hin)%list_elem_of_fmap. apply list_elem_of_filter in Hin as [_ Hin].
  apply Hn, list_elem_of_fmap. by exists (k', r').
Qed.

Lemma hire_sound rows id a rows' :
  sound rows -> id ∉ rows.*1 -> reports_to a <> Some 0 -> a_status a <> "terminated" ->
  hire rows id a = Ok rows' -> sound rows'.
Proof.
  intros (Hd & Hf & Hl) Hid H0 Ha. unfold hire. intros (u & Hu & [= <-])%bind_Ok_inv.
  assert (Hd' : NoDup (rows ++ [(id, a)]).*1).
  { rewrite fmap_app. apply NoDup_app. split; [done|]. split; [|apply NoDup_singleton].
    intros x Hx ->%list_elem_of_singleton. done. }
  assert (Hr : ∀ k, assoc k (rows ++ [(id, a)]) =
            if decide (k = id) then Some a else assoc k rows).
  { intros k. apply assoc_None in Hid. clear -Hid. induction rows as [|[k' r] rows IH]; simpl in *;
      [by case_decide|].
    repeat case_decide; subst; try done; auto. }
  assert (Hb : ∀ x, boss_of (everyone (rows ++ [(id, a)])) x =
            if decide (x = id) then reports_to a else boss_of (everyone rows) x).
  { intros x. rewrite !boss_of_everyone, Hr by done. case_decide; simpl; [by rewrite decide_True|done]. }
  assert (Hboss : ∀ b, reports_to a = Some b -> b ∈ (everyone rows).*1).
  { intros b Hb'. rewrite Hb' in Hu. apply check_links_inv in Hu as [? _]; [done..|congruence]. }
  assert (Hup : ∀ b n, b ∈ (everyone rows).*1 -> up (everyone rows) n b <> Some id).
  { assert (Hni : id ∉ (everyone rows).*1).
    { rewrite key_of_everyone by done. intros (r & Hr' & _). apply Hid, elem_of_keys. eauto. }
    intros b n Hin. revert b Hin. induction n as [|n IH]; intros b Hin; simpl; [congruence|].
    destruct (boss_of _ b) eqn:Hbb; [|done]. simpl. eauto. }
  split; [done|split].
  - eapply forest_set; [exact Hf| |exact Hb]. intros b n Hb'. apply Hup. auto.
  - intros x b. rewrite Hb, key_of_everyone, Hr by done.
    assert (Hcase : b ∈ (everyone rows).*1 ->
      ∃ r, (if decide (b = id) then Some a else assoc b rows) = Some r ∧ a_status r <> "terminated").
    { rewrite key_of_everyone by done. case_decide; [eauto|naive_solver]. }
    intros Hx. apply Hcase. case_decide; [by apply Hboss|by eapply Hl].
Qed.

Lemma change_manager_sound rows id given version rows' :
  sound rows -> change_manager rows id given version = Ok rows' -> sound rows'.
Proof.
  intros (Hd & Hf & Hl). unfold change_manager.
  set (boss := match given with Some b => if b =? 0 then None else Some b | None => None end).
  assert (H0 : boss <> Some 0) by (subst boss; destruct given as [b|]; [destruct (Z.eqb_spec b 0)|]; congruence).
  clearbody boss. intros (a & [Ha Hs]%subject_inv & (u & Hu & [_ [= <-]]%ensure_Ok_inv)%bind_Ok_inv)%bind_Ok_inv.
  assert (Hd' : NoDup (at_id id (set_boss boss) rows).*1) by by rewrite keys_at_id.
  assert (Hb : ∀ x, boss_of (everyone (at_id id (set_boss boss) rows)) x =
            if decide (x = id) then boss else boss_of (everyone rows) x).
  { intros x. rewrite !boss_of_everyone, assoc_at_id by done. case_decide; [|done]. subst.
    rewrite Ha. simpl. by rewrite decide_True by done. }
  assert (Hk : ∀ x, x ∈ (everyone rows).*1 -> x ∈ (everyone (at_id id (set_boss boss) rows)).*1).
  { intros x. rewrite !key_of_everyone, assoc_at_id by done. case_decide; [|done].
    intros (r & -> & Hr). simpl. eauto. }
  split; [done|split].
  - eapply forest_set; [exact Hf| |exact Hb]. intros b n ->.
    apply check_links_inv in Hu as [_ Hc]; [|done|congruence].
    apply cycle_spec; [done|]. by apply Hc.
  - intros x b. rewrite Hb. case_decide; intros Hx; apply Hk; [|eauto]. subst boss.
    apply check_links_inv in Hu as [? _]; [done..|congruence].
Qed.

Lemma moved_assoc (l : list (Z * Agent)) b rows k :
  ∃ f, assoc k (foldl (fun rows e => at_id e.1 (set_boss b) rows) rows l) = f <$> assoc k rows ∧
    ∀ r, a_status (f r) = a_status r ∧
      reports_to (f r) = if decide (k ∈ l.*1) then b else reports_to r.
Proof.
  revert rows. induction l as [|[k' r'] l IH]; intros rows; cbn [foldl].
  - exists id. split; [by rewrite option_fmap_id|]. intros r. by split.
  - destruct (IH (at_id k' (set_boss b) rows)) as (f & Hf & Hr). rewrite assoc_at_id in Hf.
    assert (Hin : k ∈ ((k', r') :: l).*1 ↔ k = k' ∨ k ∈ l.*1) by by rewrite fmap_cons, elem_of_cons.
    destruct (decide (k = k')) as [Hk|Hk].
    + exists (f ∘ set_boss b). split; [cbn [fst]; rewrite Hf; by destruct (assoc k rows)|].
      intros r. destruct (Hr (set_boss b r)) as [Hs Hb]. split; [done|]. cbn [compose].
      rewrite Hb. rewrite (decide_True (P := k ∈ ((k', r') :: l).*1)) by tauto. by case_decide.
    + exists f. split; [done|]. intros r. destruct (Hr r) as [Hs Hb]. split; [done|].
      rewrite Hb. apply decide_ext. tauto.
Qed.

Lemma keys_moved (l : list (Z * Agent)) b rows :
  (foldl (fun rows e => at_id e.1 (set_boss b) rows) rows l).*1 = rows.*1.
Proof.
  revert rows. induction l as [|e l IH]; intros rows; simpl; [done|]. by rewrite IH, keys_at_id.
Qed.

Lemma terminate_sound rows id rows' :
  sound rows -> terminate rows id = Ok rows' -> sound rows'.
Proof.
  intros (Hd & Hf & Hl). unfold terminate.
  intros (a & [Ha Hs]%subject_inv & Hret)%bind_Ok_inv. simpl in Hret.
  set (reports := filter _ _) in Hret. set (moved := foldl _ _ _) in Hret. injection Hret as <-.
  assert (Hboss : boss_of (everyone rows) id = reports_to a).
  { rewrite boss_of_everyone, Ha by done. simpl. by rewrite decide_True. }
  assert (Hrep : ∀ x, x ∈ reports.*1 ↔ boss_of (everyone rows) x = Some id).
  { intros x. rewrite <- elem_of_below by by apply NoDup_everyone. done. }
  assert (Hd' : NoDup (at_id id (set_agent_status "terminated") moved).*1).
  { rewrite keys_at_id. unfold moved. by rewrite keys_moved. }
  assert (Hr : ∀ x, ∃ f, assoc x (at_id id (set_agent_status "terminated") moved) = f <$> assoc x rows ∧
    ∀ r, a_status (f r) = (if decide (x = id) then "terminated" else a_status r) ∧
      reports_to (f r) = if decide (boss_of (everyone rows) x = Some id) then reports_to a else reports_to r).
  { intros x. destruct (moved_assoc reports (reports_to a) rows x) as (f & Hfx & Hx).
    rewrite assoc_at_id. destruct (decide (x = id)).
    - exists (set_agent_status "terminated" ∘ f). split; [unfold moved; rewrite Hfx; by destruct (assoc x rows)|].
      intros r. destruct (Hx r) as [_ Hb]. split; [done|]. simpl. rewrite Hb. by apply decide_ext.
    - exists f. split; [done|]. intros r. destruct (Hx r) as [Hst Hb]. split; [done|].
      rewrite Hb. by apply decide_ext. }
  assert (Hb : ∀ x, boss_of (everyone (at_id id (set_agent_status "terminated") moved)) x =
    if decide (x = id) then None else if decide (boss_of (everyone rows) x = Some id)
    then boss_of (everyone rows) id else boss_of (everyone rows) x).
  { intros x. rewrite Hboss, boss_of_everyone by done. destruct (Hr x) as (f & -> & Hx).
    rewrite (boss_of_everyone rows x) in * by done.
    destruct (assoc x rows) as [r|]; simpl in *; [|by repeat case_decide].
    destruct (Hx r) as [-> ->]. by repeat case_decide. }
  assert (Hk : ∀ x, x <> id -> x ∈ (everyone rows).*1 ->
    x ∈ (everyone (at_id id (set_agent_status "terminated") moved)).*1).
  { intros x Hx. rewrite !key_of_everyone by done. intros (r & Hxr & Hst).
    destruct (Hr x) as (f & -> & Hfr). rewrite Hxr. simpl. exists (f r). split; [done|].
    destruct (Hfr r) as [-> _]. by rewrite decide_False. }
  split; [done|split].
  - by eapply forest_lift.
  - intros x b. rewrite Hb. repeat case_decide; [done|..]; intros Hx; apply Hk; eauto.
    + intros ->. apply (forest_up (everyone rows) id 0 Hf). simpl. by rewrite Hx.
    + congruence.
Qed.

Lemma status_sound rows id s a :
  sound rows -> subject rows id = Ok a -> s <> "terminated" ->
  sound (at_id id (set_agent_status s) rows).
Proof.
  intros (Hd & Hf & Hl) [Ha Hst]%subject_inv Hs.
  assert (Hd' : NoDup (at_id id (set_agent_status s) rows).*1) by by rewrite keys_at_id.
  assert (Hb : ∀ x, boss_of (everyone (at_id id (set_agent_status s) rows)) x =
    if decide (x = id) then boss_of (everyone rows) id else boss_of (everyone rows) x).
  { intros x. rewrite !boss_of_everyone, assoc_at_id by done. case_decide; [|done]. subst.
    rewrite Ha. simpl. by rewrite !decide_True by done. }
  split; [done|split].
  - eapply forest_set; [exact Hf| |exact Hb]. intros b n Hbid Hn.
    apply (forest_up (everyone rows) id n Hf). simpl. by rewrite Hbid.
  - intros x b. rewrite Hb. intros Hx. assert (Hin : b ∈ (everyone rows).*1) by (case_decide; eauto).
    rewrite key_of_everyone in Hin |- * by done. rewrite assoc_at_id.
    destruct (decide (b = id)); [|done]. destruct Hin as (r & -> & _). simpl. eauto.
Qed.

Lemma organized_sound rows : organized rows -> sound rows.
Proof.
  induction 1.
  - split; [apply NoDup_nil_2|]. split; [|by intros]. intros x. by constructor.
  - by eapply hire_sound.
  - by eapply change_manager_sound.
  - by eapply terminate_sound.
  - by eapply status_sound.
Qed.

(** ** The theorems *)

(** However agents were hired, moved to another manager, paused and retired, the organization
    has no loop: every agent's chain of command is computed and ends, holds only agents that are not
    retired, meets nobody twice nor the agent itself, and is its managers in order; and the agents an
    agent may delegate to are exactly those whose chain it is on. *)
Theorem organization_is_a_forest rows a :
  organized rows ->
  ∃ l, chain (everyone rows) a = Some l ∧ NoDup (a :: l) ∧
    (∀ i, l !! i = up (everyone rows) (S i) a) ∧
    (∀ m, m ∈ l -> ∃ r, assoc m rows = Some r ∧ a_status r <> "terminated") ∧
    ∃ s, subtree (everyone rows) a = Some s ∧
      ∀ x, x ∈ s ↔ ∃ lx, chain (everyone rows) x = Some lx ∧ a ∈ lx.
Proof.
  intros (Hd & Hf & Hl)%organized_sound.
  destruct (chain_total (everyone rows) a) as [l Hc].
  pose proof (chain_spec _ _ _ Hf Hc) as Hi. exists l.
  assert (Hloop : ∀ i j m, l !! i = Some m -> l !! j = Some m -> (i < j)%nat -> False).
  { intros i j m. rewrite !Hi. intros H1 H2 Hij.
    replace (S j) with (S i + S (j - i - 1))%nat in H2 by lia.
    rewrite up_add, H1 in H2. by apply forest_up in H2. }
  split; [done|]. split; [|split; [done|split]].
  - apply NoDup_cons. split.
    + intros [i Hm]%list_elem_of_lookup. rewrite Hi in Hm. by apply forest_up in Hm.
    + apply NoDup_alt. intros i j m H1 H2. destruct (Nat.lt_total i j) as [|[|]]; [|done|];
        exfalso; eauto.
  - intros m [i Hm]%list_elem_of_lookup. rewrite Hi in Hm. apply key_of_everyone; [done|].
    replace (S i) with (i + 1)%nat in Hm by lia. rewrite up_add in Hm.
    destruct (up _ i a) as [c|]; [|done]. simpl in Hm.
    destruct (boss_of _ c) eqn:Hb; [|done]. simplify_eq/=. by eapply Hl.
  - destruct (subtree_total (everyone rows) a) as [s Hs]. exists s. split; [done|].
    intros x. rewrite (elem_of_subtree _ _ (NoDup_everyone _ Hd) _ _ Hs).
    destruct (chain_total (everyone rows) x) as [lx Hx].
    pose proof (chain_spec _ _ _ Hf Hx) as Hxi. split.
    + intros [n Hn]. exists lx. split; [done|]. apply list_elem_of_lookup. exists n. by rewrite Hxi.
    + intros (lx' & Hx' & [n Hn]%list_elem_of_lookup). simplify_eq. exists n. by rewrite <- Hxi.
Qed.

Definition agent_of (boss : option Z) : Agent :=
  MkAgent "a" "idle" 1 boss "claude" true true None 1.

Lemma organization_is_a_forest_witness :
  organized [(1, agent_of None); (2, agent_of (Some 1))] ∧
  ∃ l, chain (everyone [(1, agent_of None); (2, agent_of (Some 1))]) 2 = Some l ∧ NoDup (2 :: l).
Proof.
  assert (H : organized [(1, agent_of None); (2, agent_of (Some 1))]).
  { apply (organized_hire [(1, agent_of None)] 2 (agent_of (Some 1))); try done.
    - apply (organized_hire [] 1 (agent_of None)); try done; [constructor|].
      apply (bool_decide_unpack _). vm_compute. reflexivity.
    - apply (bool_decide_unpack _). vm_compute. reflexivity. }
  split; [exact H|]. destruct (organization_is_a_forest _ 2 H) as (l & Hl & Hn & _). eauto.
Defined.

(** C37: A change of manager is refused as a loop exactly when it would make one: the new manager
    being at work, the check lets the change through if and only if the organization after it is
    still a forest. *)
Theorem loop_check_is_exact rows id b :
  organized rows -> (∃ r, subject rows id = Ok r) -> (∃ r, subject rows b = Ok r) -> b <> 0 ->
  check_links rows (Some b) (Some id) = Ok tt ↔
  forest (everyone (at_id id (set_boss (Some b)) rows)).
Proof.
  intros (Hd & Hf & Hl)%organized_sound [r [Hr Hrs]%subject_inv] [rb [Hrb Hbs]%subject_inv] H0.
  assert (Hb : ∀ x, boss_of (everyone (at_id id (set_boss (Some b)) rows)) x =
            if decide (x = id) then Some b else boss_of (everyone rows) x).
  { intros x. rewrite !boss_of_everyone, assoc_at_id by (by rewrite ?keys_at_id).
    destruct (decide (x = id)) as [->|]; [|done]. rewrite Hr. simpl. by rewrite decide_True by done. }
  assert (Hcheck : check_links rows (Some b) (Some id) = Ok tt ↔
    cycle (everyone rows) id (Some b) = Some false).
  { unfold check_links. destruct (Z.eqb_spec b 0); [done|]. rewrite Hrb.
    replace (String.eqb (a_status rb) "terminated") with false
      by (symmetry; by apply String.eqb_neq). simpl.
    by destruct (cycle (everyone rows) id (Some b)) as [[]|]. }
  rewrite Hcheck, (cycle_spec _ _ _ Hf). split.
  - intros Hn. eapply forest_set; [exact Hf| |exact Hb]. by intros ? n [= <-].
  - by apply forest_set_inv.
Qed.

Lemma loop_check_is_exact_witness :
  check_links [(1, agent_of None); (2, agent_of (Some 1))] (Some 2) (Some 1) = Err ManagerBelow ∧
  ¬ forest (everyone (at_id 1 (set_boss (Some 2)) [(1, agent_of None); (2, agent_of (Some 1))])).
Proof.
  split; [vm_compute; reflexivity|].
  intros Hf. apply (loop_check_is_exact [(1, agent_of None); (2, agent_of (Some 1))] 1 2) in Hf.
  - vm_compute in Hf. discriminate.
  - apply (organized_hire [(1, agent_of None)] 2 (agent_of (Some 1))); try done.
    + apply (organized_hire [] 1 (agent_of None)); try done; [constructor|].
      apply (bool_decide_unpack _). vm_compute. reflexivity.
    + apply (bool_decide_unpack _). vm_compute. reflexivity.
  - eexists. vm_compute. reflexivity.
  - eexists. vm_compute. reflexivity.
  - done.
Defined.
