(* ===== verification/Cases.v ===== *)
(** * The vocabularies and the transition table of a case ([engine/noc/cases.py])

    Labels shown to people are kept as the source writes them (a dash for the em dash). *)
From S2P Require Import Prelude PyLib.

Definition STATUSES : list (string * string) :=
  [("new", "New");
   ("auto", "Automated checks");
   ("queue", "NOC queue");
   ("working", "Working");
   ("pending_customer", "Pending customer");
   ("pending_fiber_provider", "Pending carrier / fiber provider");
   ("pending_maintenance", "Pending scheduled maintenance");
   ("pending_dispatch", "Pending dispatch (technician)");
   ("pending_device_access", "Pending access to the device");
   ("pending_connectivity", "Pending connectivity (no ping / SNMP / SSH)");
   ("pending_vendor", "Pending equipment vendor");
   ("pending_site_access", "Pending site access approval");
   ("pending_field_tech", "Pending field technician on site");
   ("pending_rca", "Pending root cause analysis");
   ("pending_monitoring", "Pending monitoring (watching for stability)");
   ("validate", "Validate resolution");
   ("resolved", "Resolved");
   ("closed", "Closed")].

Definition PENDING : list string := filter (fun s => String.prefix "pending_" s = true) (map fst STATUSES).
Definition LIVE : list string := filter (fun s => s ∉ ["resolved"; "closed"]) (map fst STATUSES).
Definition UNOWNED : list string := ["new"; "auto"; "queue"].

Definition PRIORITIES : list (string * string) :=
  [("critical", "Critical");
   ("major", "Major");
   ("minor", "Minor")].

Definition CYCLE_REASONS : list (string * string) :=
  [("opened", "The situation was opened");
   ("automation", "Automated checks did not conclude");
   ("customer_post", "A person posted on the feed while it was pending");
   ("next_update", "Its next update came");
   ("released", "Its owner put it back");
   ("escalated", "Escalated past the agents to the NOC team");
   ("alarm", "An alarm of its situation raised again or joined while it was pending");
   ("access", "The agents were given access to one of its devices")].

Definition RESOLUTIONS : list (string * string) :=
  [("noc", "Resolved by the NOC");
   ("automation", "Resolved by an automated check");
   ("cleared", "The situation cleared before anyone took the case");
   ("merged", "The situation was merged into another")].

Definition CAUSES : list (string * string) :=
  [("planned_maintenance", "Planned maintenance");
   ("unplanned_maintenance", "Unscheduled maintenance");
   ("signal_interference", "Signal interference");
   ("force_majeure", "Force majeure / weather");
   ("cleared_before_isolation", "Cleared before isolation");
   ("no_trouble_found", "No trouble found");
   ("duplicate", "Duplicate case");
   ("hardware", "Hardware failure");
   ("software", "Software / firmware");
   ("cpe", "Customer premises equipment");
   ("configuration", "Configuration / management");
   ("decommissioned", "Decommissioned");
   ("disconnected", "Deliberately disconnected");
   ("turn_up", "Turn-up");
   ("power_commercial", "Power - commercial");
   ("power_ups", "Power - UPS / batteries");
   ("hvac", "HVAC / temperature");
   ("client_fiber_cut", "Client fiber / cable cut");
   ("carrier_fiber_cut", "Carrier fiber / cable cut");
   ("client_circuit", "Client circuit issue");
   ("carrier_circuit", "Carrier circuit issue");
   ("overutilization", "Overutilization");
   ("security_event", "Security event");
   ("human_error", "Human error");
   ("no_client_response", "No client response");
   ("client_requested_closure", "Client requested closure");
   ("other", "Other")].

Definition FIELD_LIMITS : list (string * (string * nat)) :=
  [("title", ("Title", 120%nat));
   ("description", ("Description", 4000%nat));
   ("executive_summary", ("Executive summary", 200%nat));
   ("current_analysis", ("Current analysis", 8000%nat));
   ("noc_next_step", ("NOC next step", 4000%nat));
   ("customer_next_step", ("Customer next step", 4000%nat));
   ("solution", ("Solution", 8000%nat))].

Definition TEXT_FIELDS : list string := map fst FIELD_LIMITS.

Definition FOR_PENDING : list string :=
  ["title"; "description"; "executive_summary"; "current_analysis"; "noc_next_step"; "customer_next_step"; "next_update_at"].

Definition FOR_RESOLVED : list string :=
  ["title"; "description"; "executive_summary"; "current_analysis"; "cause"; "solution"].

Definition in_list {A} `{EqDecision A} (x : A) (l : list A) : bool := bool_decide (x ∈ l).

Definition priority_of (severity : option string) : string :=
  match severity with
  | Some s => if in_list s ["critical"; "major"] then s else "minor"
  | None => "minor"
  end.

Definition super_state (status : string) : string :=
  if in_list status PENDING then "pending" else if String.eqb status "new" then "queue" else status.

(** ** What a case carries

    The columns of [noc_case] the acts read or write ([store/noc_cases.py]). The owner is the triple
    of reference, name and kind; times are floats. *)
Record Case := MkCase {
  status : string; priority : string; title : string; description : string;
  executive_summary : string; current_analysis : string; noc_next_step : string;
  customer_next_step : string; solution : string; cause : option string;
  next_update_at : option float; owner : option (string * string * string);
  priority_by : option string; opened_at : float; status_at : float;
  resolution : option string; resolved_at : option float; resolved_by : option string;
  alarms_cleared : bool; agent_id : option Z; assigned_at : option float; tier : Z;
  escalated_at : option float; with_people : bool; version : Z; updated_at : float;
  updated_by : option string }.

(** [case.get(name)] for the text columns. *)
Definition text_of (c : Case) (name : string) : option string :=
  if String.eqb name "title" then Some (title c)
  else if String.eqb name "description" then Some (description c)
  else if String.eqb name "executive_summary" then Some (executive_summary c)
  else if String.eqb name "current_analysis" then Some (current_analysis c)
  else if String.eqb name "noc_next_step" then Some (noc_next_step c)
  else if String.eqb name "customer_next_step" then Some (customer_next_step c)
  else if String.eqb name "solution" then Some (solution c)
  else if String.eqb name "cause" then cause c
  else None.

Definition filled (value : option string) : bool :=
  match value with Some s => negb (String.eqb (strip s) "") | None => false end.

Definition lacks (c : Case) (now : float) (name : string) : bool :=
  if String.eqb name "next_update_at" then
    match next_update_at c with None => true | Some w => fleb w now end
  else negb (filled (text_of c name)).

Definition missing (c : Case) (target : string) (now : float) : list string :=
  filter (fun name => lacks c now name = true)
    (if String.eqb target "resolved" then FOR_RESOLVED else FOR_PENDING).

Definition documented (c : Case) (now : float) : bool :=
  bool_decide (missing c "pending_customer" now = []).

(** ** The transition table *)

Definition FROM : list (string * list string) :=
  [("take", ["new"; "auto"; "queue"; "working"; "validate"] ++ PENDING);
   ("release", ["working"; "validate"]);
   ("pend", "working" :: PENDING);
   ("resolve", ["working"; "validate"] ++ PENDING);
   ("dispatch", ["new"]);
   ("automate", ["new"]);
   ("requeue", "auto" :: PENDING);
   ("validate", "working" :: PENDING);
   ("auto_resolve", ["new"; "auto"; "queue"]);
   ("auto_pend", ["auto"]);
   ("close", ["resolved"])].

Definition TO : list (string * string) :=
  [("take", "working"); ("release", "queue"); ("resolve", "resolved"); ("dispatch", "queue"); ("automate", "auto"); ("requeue", "queue"); ("validate", "validate"); ("auto_resolve", "resolved"); ("close", "closed")].

(** The sentences a [CaseError] carries, as data; [code] is its HTTP status. *)
Inductive case_error :=
| UnknownAct (act : string)
| CannotFrom (act status : string)
| BadStatus
| NotOwner
| Resolved
| FieldTooLong (name : string)
| BadPriority
| UpdateInPast
| ForeignSummary (organization : Z)
| SummaryTooLong
| ClosedSendsNothing
| Lacking (names : list string)
| BadCause
| AgentUnavailable (agent_status : string).

Definition code (e : case_error) : Z :=
  match e with
  | BadStatus | FieldTooLong _ | BadPriority | UpdateInPast | ForeignSummary _ | SummaryTooLong
  | BadCause => 400
  | NotOwner => 403
  | _ => 409
  end.

(** [to] is the pending status [pend] and [auto_pend] name. [_TO[act]] raises [KeyError] for an act
    that is in [_FROM] and not in [_TO]; the two that are not return before it. *)
Definition transition (act st : string) (to : option string) : res case_error string :=
  match assoc act FROM with
  | None => Err (UnknownAct act)
  | Some allowed =>
      if negb (in_list st allowed) then Err (CannotFrom act st)
      else if in_list act ["pend"; "auto_pend"] then
        match to with
        | Some t => if in_list t PENDING then Ok t else Err BadStatus
        | None => Err BadStatus
        end
      else Ok (default "" (assoc act TO))
  end.

(** ** Setting columns of the row *)

Definition set_title (v : string) (c : Case) : Case :=
  MkCase (status c) (priority c) (v) (description c) (executive_summary c) (current_analysis
    c) (noc_next_step c) (customer_next_step c) (solution c) (cause c) (next_update_at c) (owner
    c) (priority_by c) (opened_at c) (status_at c) (resolution c) (resolved_at c) (resolved_by
    c) (alarms_cleared c) (agent_id c) (assigned_at c) (tier c) (escalated_at c) (with_people c)
    (version c) (updated_at c) (updated_by c).

Definition set_description (v : string) (c : Case) : Case :=
  MkCase (status c) (priority c) (title c) (v) (executive_summary c) (current_analysis c)
    (noc_next_step c) (customer_next_step c) (solution c) (cause c) (next_update_at c) (owner c)
    (priority_by c) (opened_at c) (status_at c) (resolution c) (resolved_at c) (resolved_by c)
    (alarms_cleared c) (agent_id c) (assigned_at c) (tier c) (escalated_at c) (with_people c)
    (version c) (updated_at c) (updated_by c).

Definition set_executive_summary (v : string) (c : Case) : Case :=
  MkCase (status c) (priority c) (title c) (description c) (v) (current_analysis c)
    (noc_next_step c) (customer_next_step c) (solution c) (cause c) (next_update_at c) (owner c)
    (priority_by c) (opened_at c) (status_at c) (resolution c) (resolved_at c) (resolved_by c)
    (alarms_cleared c) (agent_id c) (assigned_at c) (tier c) (escalated_at c) (with_people c)
    (version c) (updated_at c) (updated_by c).

Definition set_current_analysis (v : string) (c : Case) : Case :=
  MkCase (status c) (priority c) (title c) (description c) (executive_summary c) (v)
    (noc_next_step c) (customer_next_step c) (solution c) (cause c) (next_update_at c) (owner c)
    (priority_by c) (opened_at c) (status_at c) (resolution c) (resolved_at c) (resolved_by c)
    (alarms_cleared c) (agent_id c) (assigned_at c) (tier c) (escalated_at c) (with_people c)
    (version c) (updated_at c) (updated_by c).

Definition set_noc_next_step (v : string) (c : Case) : Case :=
  MkCase (status c) (priority c) (title c) (description c) (executive_summary c)
    (current_analysis c) (v) (customer_next_step c) (solution c) (cause c) (next_update_at c)
    (owner c) (priority_by c) (opened_at c) (status_at c) (resolution c) (resolved_at c)
    (resolved_by c) (alarms_cleared c) (agent_id c) (assigned_at c) (tier c) (escalated_at c)
    (with_people c) (version c) (updated_at c) (updated_by c).

Definition set_customer_next_step (v : string) (c : Case) : Case :=
  MkCase (status c) (priority c) (title c) (description c) (executive_summary c)
    (current_analysis c) (noc_next_step c) (v) (solution c) (cause c) (next_update_at c) (owner
    c) (priority_by c) (opened_at c) (status_at c) (resolution c) (resolved_at c) (resolved_by
    c) (alarms_cleared c) (agent_id c) (assigned_at c) (tier c) (escalated_at c) (with_people c)
    (version c) (updated_at c) (updated_by c).

Definition set_solution (v : string) (c : Case) : Case :=
  MkCase (status c) (priority c) (title c) (description c) (executive_summary c)
    (current_analysis c) (noc_next_step c) (customer_next_step c) (v) (cause c) (next_update_at
    c) (owner c) (priority_by c) (opened_at c) (status_at c) (resolution c) (resolved_at c)
    (resolved_by c) (alarms_cleared c) (agent_id c) (assigned_at c) (tier c) (escalated_at c)
    (with_people c) (version c) (updated_at c) (updated_by c).

Definition set_cause (v : option string) (c : Case) : Case :=
  MkCase (status c) (priority c) (title c) (description c) (executive_summary c)
    (current_analysis c) (noc_next_step c) (customer_next_step c) (solution c) (v)
    (next_update_at c) (owner c) (priority_by c) (opened_at c) (status_at c) (resolution c)
    (resolved_at c) (resolved_by c) (alarms_cleared c) (agent_id c) (assigned_at c) (tier c)
    (escalated_at c) (with_people c) (version c) (updated_at c) (updated_by c).

Definition set_next_update_at (v : option float) (c : Case) : Case :=
  MkCase (status c) (priority c) (title c) (description c) (executive_summary c)
    (current_analysis c) (noc_next_step c) (customer_next_step c) (solution c) (cause c) (v)
    (owner c) (priority_by c) (opened_at c) (status_at c) (resolution c) (resolved_at c)
    (resolved_by c) (alarms_cleared c) (agent_id c) (assigned_at c) (tier c) (escalated_at c)
    (with_people c) (version c) (updated_at c) (updated_by c).

Definition set_priority (v : string) (c : Case) : Case :=
  MkCase (status c) (v) (title c) (description c) (executive_summary c) (current_analysis c)
    (noc_next_step c) (customer_next_step c) (solution c) (cause c) (next_update_at c) (owner c)
    (priority_by c) (opened_at c) (status_at c) (resolution c) (resolved_at c) (resolved_by c)
    (alarms_cleared c) (agent_id c) (assigned_at c) (tier c) (escalated_at c) (with_people c)
    (version c) (updated_at c) (updated_by c).

Definition set_priority_by (v : option string) (c : Case) : Case :=
  MkCase (status c) (priority c) (title c) (description c) (executive_summary c)
    (current_analysis c) (noc_next_step c) (customer_next_step c) (solution c) (cause c)
    (next_update_at c) (owner c) (v) (opened_at c) (status_at c) (resolution c) (resolved_at c)
    (resolved_by c) (alarms_cleared c) (agent_id c) (assigned_at c) (tier c) (escalated_at c)
    (with_people c) (version c) (updated_at c) (updated_by c).

Definition set_status (st : string) (at_ : float) (c : Case) : Case :=
  MkCase (st) (priority c) (title c) (description c) (executive_summary c) (current_analysis
    c) (noc_next_step c) (customer_next_step c) (solution c) (cause c) (next_update_at c) (owner
    c) (priority_by c) (opened_at c) (at_) (resolution c) (resolved_at c) (resolved_by c)
    (alarms_cleared c) (agent_id c) (assigned_at c) (tier c) (escalated_at c) (with_people c)
    (version c) (updated_at c) (updated_by c).

Definition set_owner (v : option (string * string * string)) (c : Case) : Case :=
  MkCase (status c) (priority c) (title c) (description c) (executive_summary c)
    (current_analysis c) (noc_next_step c) (customer_next_step c) (solution c) (cause c)
    (next_update_at c) (v) (priority_by c) (opened_at c) (status_at c) (resolution c)
    (resolved_at c) (resolved_by c) (alarms_cleared c) (agent_id c) (assigned_at c) (tier c)
    (escalated_at c) (with_people c) (version c) (updated_at c) (updated_by c).

Definition set_resolved (res ca sol : string) (cleared : bool) (at_ : float) (by_ : string) (c : Case) : Case :=
  MkCase (status c) (priority c) (title c) (description c) (executive_summary c)
    (current_analysis c) (noc_next_step c) (customer_next_step c) (sol) (Some ca)
    (next_update_at c) (owner c) (priority_by c) (opened_at c) (status_at c) (Some res) (Some
    at_) (Some by_) (cleared) (agent_id c) (assigned_at c) (tier c) (escalated_at c)
    (with_people c) (version c) (updated_at c) (updated_by c).

Definition set_agent (a : option Z) (at_ : float) (t : Z) (esc : option float) (people : bool) (c : Case) : Case :=
  MkCase (status c) (priority c) (title c) (description c) (executive_summary c)
    (current_analysis c) (noc_next_step c) (customer_next_step c) (solution c) (cause c)
    (next_update_at c) (owner c) (priority_by c) (opened_at c) (status_at c) (resolution c)
    (resolved_at c) (resolved_by c) (alarms_cleared c) (a) (Some at_) (t) (esc) (people)
    (version c) (updated_at c) (updated_by c).

(** Every write counts a version and stamps the time and the author; [stamp_time] the time alone. *)
Definition stamp (at_ : float) (by_ : string) (c : Case) : Case :=
  MkCase (status c) (priority c) (title c) (description c) (executive_summary c)
    (current_analysis c) (noc_next_step c) (customer_next_step c) (solution c) (cause c)
    (next_update_at c) (owner c) (priority_by c) (opened_at c) (status_at c) (resolution c)
    (resolved_at c) (resolved_by c) (alarms_cleared c) (agent_id c) (assigned_at c) (tier c)
    (escalated_at c) (with_people c) (version c + 1) (at_) (Some by_).

Definition stamp_time (at_ : float) (c : Case) : Case :=
  MkCase (status c) (priority c) (title c) (description c) (executive_summary c)
    (current_analysis c) (noc_next_step c) (customer_next_step c) (solution c) (cause c)
    (next_update_at c) (owner c) (priority_by c) (opened_at c) (status_at c) (resolution c)
    (resolved_at c) (resolved_by c) (alarms_cleared c) (agent_id c) (assigned_at c) (tier c)
    (escalated_at c) (with_people c) (version c + 1) (at_) (updated_by c).
