(* ===== verification/CaseOps.v ===== *)
(** * The acts on a case ([engine/noc/case_ops.py]), its rows ([store/noc_cases.py],
    [store/noc_routing.py]), its routing ([engine/noc/routing.py]) and who may press what when
    (the case loop, the runbook, the API)

    A [Desk] is one situation's case with its cycles, its feed and the runs queued for its agents.
    The acts take the case as the caller read it, as the source does, and answer the desk after
    the transaction; an error leaves nothing written. Em dashes in sentences are written "-". *)
From S2P Require Import Prelude PyLib Agents Cases.

Record Actor := MkActor { ref : string; actor_name : string; kind : string; role : option string }.

Definition SYSTEM : Actor := MkActor "system" "NetCoreNOC" "system" None.

(** A row of [noc_case_cycle]. *)
Record Cycle := MkCycle {
  reason : string; c_priority : string; entered_at : float; taken_at : option float;
  taken_by : option string; documented_at : option float; left_at : option float;
  ended_at : option float }.

(** A row of [noc_case_post], and a row of [noc_agent_run] still queued. *)
Record Post := MkPost {
  author : Actor; visibility : string; post_kind : string; body : string; created_at : float }.
Record Run := MkRun {
  run_agent : Z; trigger : string; run_situation : option Z; requested_by : string; queued_at : float }.

(** Cycles, posts and runs are newest first. [severity] is what [noc_case_severity] answers about
    the situation's alarms, [rows] the table of agents. *)
Record Desk := MkDesk {
  sid : Z; case : Case; cycles : list Cycle; feed : list Post;
  summaries : list (Z * (string * string)); runs : list Run;
  severity : option string; rows : list (Z * Agent) }.

Definition with_case (c : Case) (d : Desk) : Desk :=
  MkDesk (sid d) c (cycles d) (feed d) (summaries d) (runs d) (severity d) (rows d).
Definition with_cycles (y : list Cycle) (d : Desk) : Desk :=
  MkDesk (sid d) (case d) y (feed d) (summaries d) (runs d) (severity d) (rows d).
Definition with_feed (f : list Post) (d : Desk) : Desk :=
  MkDesk (sid d) (case d) (cycles d) f (summaries d) (runs d) (severity d) (rows d).
Definition with_summaries (s : list (Z * (string * string))) (d : Desk) : Desk :=
  MkDesk (sid d) (case d) (cycles d) (feed d) s (runs d) (severity d) (rows d).
Definition with_runs (r : list Run) (d : Desk) : Desk :=
  MkDesk (sid d) (case d) (cycles d) (feed d) (summaries d) r (severity d) (rows d).

(** ** The rows *)

(** The fields of an update: the text ones in the order given, [priority] among them, and the next
    update. A field that is None is not sent. *)
Record Fields := MkFields { texts : list (string * string); next_update : option float }.

Definition EDITABLE : list string :=
  ["title"; "description"; "executive_summary"; "current_analysis"; "noc_next_step"; "customer_next_step"; "next_update_at"; "priority"].

Definition names (f : Fields) : list string :=
  (texts f).*1 ++ match next_update f with Some _ => ["next_update_at"] | None => [] end.

(** [{**case, name: value}]. *)
Definition set_text (name value : string) (c : Case) : Case :=
  if String.eqb name "title" then set_title value c
  else if String.eqb name "description" then set_description value c
  else if String.eqb name "executive_summary" then set_executive_summary value c
  else if String.eqb name "current_analysis" then set_current_analysis value c
  else if String.eqb name "noc_next_step" then set_noc_next_step value c
  else if String.eqb name "customer_next_step" then set_customer_next_step value c
  else if String.eqb name "solution" then set_solution value c
  else if String.eqb name "priority" then set_priority value c
  else c.

Definition set_texts (t : list (string * string)) (c : Case) : Case :=
  foldl (fun c e => set_text e.1 e.2 c) c t.

(** [{**case, **fields}]. *)
Definition merge_fields (f : Fields) (c : Case) : Case :=
  let c := set_texts (texts f) c in
  match next_update f with Some w => set_next_update_at (Some w) c | None => c end.

(** [UPDATE noc_case_cycle ... WHERE id = (the latest with the condition)]. *)
Fixpoint update_latest (condition : Cycle -> bool) (f : Cycle -> Cycle) (l : list Cycle) : list Cycle :=
  match l with
  | [] => []
  | y :: l => if condition y then f y :: l else y :: update_latest condition f l
  end.

Definition is_open (y : Cycle) : bool := bool_decide (taken_at y = None) && bool_decide (ended_at y = None).
Definition is_undocumented (y : Cycle) : bool :=
  bool_decide (taken_at y <> None) && bool_decide (documented_at y = None) && bool_decide (left_at y = None).
Definition is_worked (y : Cycle) : bool := bool_decide (taken_at y <> None) && bool_decide (left_at y = None).

Definition cycle_priority (p : string) (d : Desk) : Desk :=
  with_cycles (map (fun y => if is_open y then
    MkCycle (reason y) p (entered_at y) (taken_at y) (taken_by y) (documented_at y) (left_at y) (ended_at y)
    else y) (cycles d)) d.

Definition noc_case_set_fields (f : Fields) (now : float) (actor : string) (d : Desk) : Desk :=
  match filter (fun name => name ∈ names f) EDITABLE with
  | [] => d
  | _ =>
      let editable := MkFields (filter (fun e => e.1 ∈ EDITABLE) (texts f)) (next_update f) in
      let c := merge_fields editable (case d) in
      match assoc "priority" (texts f) with
      | Some p => cycle_priority p (with_case (stamp now actor (set_priority_by (Some actor) c)) d)
      | None => with_case (stamp now actor c) d
      end
  end.

Definition noc_case_raise_priority (p : string) (now : float) (d : Desk) : Desk :=
  cycle_priority p (with_case (stamp now "system" (set_priority p (case d))) d).

Definition noc_case_set_summary (org : Z) (text : string) (actor : string) (d : Desk) : Desk :=
  with_summaries
    (if String.eqb text "" then filter (fun e => e.1 <> org) (summaries d)
     else dict_set org (text, actor) (summaries d)) d.

(** [owner]: [Some o] takes the case; None keeps the owner (no act clears it here). *)
Definition noc_case_move (st : string) (now : float) (actor : string)
    (taker : option (string * string * string)) (d : Desk) : Desk :=
  let c := set_status st now (case d) in
  let c := match taker with Some o => set_owner (Some o) c | None => c end in
  with_case (stamp now actor c) d.

Definition noc_case_enqueue (why : string) (now : float) (d : Desk) : Desk :=
  let c := stamp now "system" (set_owner None (set_status "queue" now (case d))) in
  let entered := if String.eqb why "opened" then opened_at c else now in
  with_cycles (MkCycle why (priority c) entered None None None None None :: cycles d) (with_case c d).

Definition noc_cycle_taken (now : float) (actor : string) (d : Desk) : Desk :=
  with_cycles (update_latest is_open (fun y =>
    MkCycle (reason y) (c_priority y) (entered_at y) (Some now) (Some actor) (documented_at y) (left_at y) (ended_at y))
    (cycles d)) d.
Definition noc_cycle_documented (now : float) (d : Desk) : Desk :=
  with_cycles (update_latest is_undocumented (fun y =>
    MkCycle (reason y) (c_priority y) (entered_at y) (taken_at y) (taken_by y) (Some now) (left_at y) (ended_at y))
    (cycles d)) d.
Definition noc_cycle_left (now : float) (d : Desk) : Desk :=
  with_cycles (update_latest is_worked (fun y =>
    MkCycle (reason y) (c_priority y) (entered_at y) (taken_at y) (taken_by y) (documented_at y) (Some now) (ended_at y))
    (cycles d)) d.
Definition noc_cycle_withdrawn (now : float) (d : Desk) : Desk :=
  with_cycles (update_latest is_open (fun y =>
    MkCycle (reason y) (c_priority y) (entered_at y) (taken_at y) (taken_by y) (documented_at y) (left_at y) (Some now))
    (cycles d)) d.

Definition noc_case_resolve (now : float) (actor res_ cause_ sol : string) (cleared : bool) (d : Desk) : Desk :=
  with_case (stamp now actor (set_resolved res_ cause_ sol cleared now actor (set_status "resolved" now (case d)))) d.

Definition noc_case_assign (agent : option Z) (now : float) (t : option Z) (escalated people : bool)
    (d : Desk) : Desk :=
  let c := case d in
  with_case (stamp_time now (set_agent agent now (Z.max (tier c) (default (tier c) t))
    (if escalated then Some now else escalated_at c) people c)) d.

Definition noc_post (a : Actor) (vis k text : string) (now : float) (d : Desk) : Desk :=
  with_feed (MkPost a vis k text now :: feed d) d.

(** One queued run per agent: a second wake merges, and keeps the first case named. *)
Definition noc_wake (agent : Z) (trig : string) (by_ : string) (now : float) (d : Desk) : Desk :=
  if existsb (fun r => run_agent r =? agent) (runs d) then
    with_runs (map (fun r => if run_agent r =? agent then
      MkRun (run_agent r) (trigger r)
        (match run_situation r with Some s => Some s | None => Some (sid d) end)
        (requested_by r) (queued_at r) else r) (runs d)) d
  else with_runs (MkRun agent trig (Some (sid d)) by_ now :: runs d) d.

(** ** The acts *)

Definition event (text : string) (now : float) (actor : Actor) (d : Desk) : Desk :=
  noc_post actor "internal" "event" (clip 8000 text) now d.

Definition owner_ref (c : Case) : option string := fst ∘ fst <$> owner c.
Definition owner_name (c : Case) : option string := snd ∘ fst <$> owner c.
Definition owner_kind (c : Case) : option string := snd <$> owner c.

Definition owns (c : Case) (actor : Actor) (admin : bool) : bool :=
  admin || bool_decide (owner_ref c = Some (ref actor)).

Definition RANK : list (string * Z) := [("critical", 0); ("major", 1); ("minor", 2)].
Definition rank (p : string) : Z := default 2 (assoc p RANK).

Definition label (d : list (string * string)) (k : string) : string := default "" (assoc k d).

(** Answers the new priority when it rises. *)
Definition reprioritize (now : float) (d : Desk) : Desk * option string :=
  let c := case d in
  match priority_by c with
  | Some _ => (d, None)
  | None =>
      let worst := severity d in
      let derived := priority_of worst in
      if rank (priority c) <=? rank derived then (d, None)
      else
        (event ("Priority raised to " +:+ label PRIORITIES derived +:+ ": the situation is "
            +:+ default "None" worst +:+ " on the Broker.") now SYSTEM
          (noc_case_raise_priority derived now d), Some derived)
  end.

Definition take (c : Case) (actor : Actor) (now : float) (d : Desk) : res case_error Desk :=
  let st := status c in
  if bool_decide (owner_ref c = Some (ref actor)) && String.eqb st "working" then Ok d
  else
    _ ← transition "take" st None;
    let d :=
      if in_list st ["new"; "auto"] then
        noc_case_enqueue (if String.eqb st "new" then "opened" else "automation") now (reprioritize now d).1
      else d in
    let d := noc_case_move "working" now (ref actor) (Some (ref actor, actor_name actor, kind actor)) d in
    let d := if in_list st UNOWNED then noc_cycle_taken now (ref actor) d else d in
    let took := actor_name actor +:+ " took the case" +:+
      match owner_name c with
      | Some before => if negb (String.eqb before "") && String.eqb st "working" then " from " +:+ before else ""
      | None => ""
      end in
    Ok (event (took +:+ ".") now actor d).

Definition release (c : Case) (actor : Actor) (now : float) (admin : bool) (note : string) (d : Desk)
    : res case_error Desk :=
  ensure (owns c actor admin) NotOwner
  (_ ← transition "release" (status c) None;
   let d := noc_case_enqueue "released" now (noc_cycle_left now d) in
   Ok (event (strip (actor_name actor +:+ " put the case back in the NOC queue. " +:+ note)) now actor d)).

(** The first text field, in the order given, past its cap. *)
Definition too_long (e : string * string) : bool :=
  match assoc e.1 FIELD_LIMITS with
  | Some (_, cap) => Nat.ltb cap (String.length e.2)
  | None => false
  end.

(** What the update's event names: the labels of the fields, sorted by name. *)
Definition changed (f : Fields) (summarized : bool) : list string :=
  map (fun name =>
    match assoc name FIELD_LIMITS with
    | Some (lab, _) => lower lab
    | None =>
        if String.eqb name "next_update_at" then "next update"
        else if String.eqb name "priority" then
          "priority to " +:+ label PRIORITIES (default "" (assoc "priority" (texts f)))
        else name
    end) (sort_by string_leb (names f))
  ++ (if summarized then ["an organization's executive summary"] else []).

Definition update (c : Case) (actor : Actor) (now : float) (f : Fields) (sums : list (Z * string))
    (organizations : list Z) (d : Desk) : res case_error (Desk * Case) :=
  if in_list (status c) ["resolved"; "closed"] then Err Resolved
  else match filter (fun e => too_long e = true) (texts f) with
  | e :: _ => Err (FieldTooLong e.1)
  | [] =>
  ensure (match assoc "priority" (texts f) with Some p => in_list p PRIORITIES.*1 | None => true end) BadPriority
  (ensure (match next_update f with Some w => negb (fleb w now) | None => true end) UpdateInPast
  (match sort_by Z.leb (filter (fun o => o ∉ organizations) sums.*1) with
  | o :: _ => Err (ForeignSummary o)
  | [] =>
  ensure (forallb (fun e : Z * string => Nat.leb (String.length e.2) 200) sums) SummaryTooLong
  (let d := noc_case_set_fields f now (ref actor) d in
   let d := foldl (fun d e => noc_case_set_summary e.1 (strip e.2) (ref actor) d) d
              (sort_by (fun a b : Z * string => a.1 <=? b.1) sums) in
   let merged := merge_fields f c in
   let d := if String.eqb (status c) "working" && documented merged now then noc_cycle_documented now d else d in
   Ok (event (actor_name actor +:+ " updated the "
         +:+ join ", " (changed f (negb (bool_decide (sums = [])))) +:+ ".") now actor d, merged))
  end))
  end.

Definition pend (c : Case) (actor : Actor) (now : float) (st : string) (admin : bool) (note : string)
    (d : Desk) : res case_error Desk :=
  ensure (owns c actor admin) NotOwner
  (to ← transition "pend" (status c) (Some st);
   match missing c to now with
   | [] =>
       let d := if String.eqb (status c) "working" then noc_cycle_left now (noc_cycle_documented now d) else d in
       let d := noc_case_move to now (ref actor) None d in
       Ok (event (strip (actor_name actor +:+ " set the case to " +:+ label STATUSES to
             +:+ " until its next update. " +:+ note)) now actor d)
   | lacking => Err (Lacking lacking)
   end).

(** [{**case, "cause": cause, "solution": solution}]. *)
Definition with_cause (cause_ sol : string) (c : Case) : Case := set_solution sol (set_cause (Some cause_) c).

Definition resolve (c : Case) (actor : Actor) (now : float) (cause_ sol : string) (cleared admin : bool)
    (how : string) (d : Desk) : res case_error Desk :=
  _ ← (if String.eqb how "noc" then
         ensure (owns c actor admin) NotOwner (transition "resolve" (status c) None)
       else transition "auto_resolve" (status c) None);
  ensure (in_list cause_ CAUSES.*1) BadCause
  (ensure (Nat.leb (String.length sol) 8000) (FieldTooLong "solution")
  (let lacking := missing (with_cause cause_ sol c) "resolved" now in
   if negb (bool_decide (lacking = [])) && String.eqb how "noc" then Err (Lacking lacking)
   else
     let d := if String.eqb (status c) "working" then noc_cycle_left now (noc_cycle_documented now d) else d in
     let d := noc_cycle_withdrawn now d in
     let d := noc_case_resolve now (ref actor) how cause_ (strip sol) cleared d in
     Ok (event (actor_name actor +:+ " resolved the case: " +:+ label CAUSES cause_ +:+ "."
           +:+ (if cleared then " Its alarms were verified clear on the device and cleared." else ""))
         now actor d))).

(** The agent a requeued case is still with: woken, or told. *)
Definition back_to_agent (now : float) (d : Desk) : Desk * string :=
  let c := case d in
  match agent_id c with
  | Some a =>
      if with_people c then (d, "")
      else match assoc a (rows d) with
      | Some agent =>
          if in_list (a_status agent) WORKING then
            let d := noc_case_assign (Some a) now None false false d in
            if wake_on_assignment agent && negb (String.eqb (adapter agent) "external") then
              (noc_wake a "assignment" "system" now d, a_name agent +:+ " is woken to work it again.")
            else (d, "It is with " +:+ a_name agent +:+ " again.")
          else (d, "")
      | None => (d, "")
      end
  | None => (d, "")
  end.

(** [why] is one of [CYCLE_REASONS], as every caller's is. *)
Definition requeue (why : string) (now : float) (note : string) (d : Desk) : Desk :=
  let d := noc_case_enqueue why now (reprioritize now d).1 in
  let (d, back) := back_to_agent now d in
  event (join " " (words ("Back in the NOC queue: " +:+ label CYCLE_REASONS why +:+ ". " +:+ note
    +:+ " " +:+ back))) now SYSTEM d.

(** A playbook's pending leaf; the update's text fields only. False: it went to the queue. *)
Definition auto_pend (c : Case) (actor : Actor) (now : float) (st : string)
    (given : list (string * string)) (wait_s : Z) (note : string) (d : Desk) : res case_error (Desk * bool) :=
  to ← transition "auto_pend" (status c) (Some st);
  let f := MkFields (filter (fun e => e.1 ∈ TEXT_FIELDS) given) (Some (fadd now (f_of_Z wait_s))) in
  match missing (merge_fields f c) to now with
  | [] =>
      let d := noc_case_move to now (ref actor) None (noc_case_set_fields f now (ref actor) d) in
      Ok (event (strip (actor_name actor +:+ " set the case to " +:+ label STATUSES to
            +:+ " until its next update. " +:+ note)) now actor d, true)
  | lacking => Ok (requeue "automation" now ("Its update lacked " +:+ join ", " lacking +:+ ".") d, false)
  end.

Definition dispatch (now : float) (automate : bool) (d : Desk) : Desk :=
  let d := (reprioritize now d).1 in
  if automate then event "Automated checks started." now SYSTEM (noc_case_move "auto" now "system" None d)
  else
    let d := noc_case_enqueue "opened" now d in
    event ("Entered the NOC queue (" +:+ label PRIORITIES (priority (case d)) +:+ ").") now SYSTEM d.

Definition validate (now : float) (why : string) (d : Desk) : Desk :=
  let d := noc_case_move "validate" now "system" None (noc_cycle_left now d) in
  event ("The situation resolved: " +:+ why +:+ ". Confirm the service is restored, then resolve the case.") now SYSTEM d.

Definition auto_resolve (now : float) (how why : string) (d : Desk) : Desk :=
  let d := noc_cycle_left now (noc_cycle_withdrawn now d) in
  let cause_ := if String.eqb how "merged" then "duplicate" else "cleared_before_isolation" in
  event ("Resolved without the NOC: " +:+ why +:+ ".") now SYSTEM
    (noc_case_resolve now "system" how cause_ why false d).

Definition close (now : float) (d : Desk) : Desk :=
  event "Closed: resolved a day ago with nothing since." now SYSTEM (noc_case_move "closed" now "system" None d).

(** ** Routing ([engine/noc/routing.py]) *)

(** [tier]: None or 0 is the agent's own; a case's tier of 0 counts as 1. *)
Definition assign (c : Case) (id : Z) (agent : Agent) (actor : Actor) (now : float) (trig : string)
    (t : option Z) (escalated : bool) (note : string) (d : Desk) : res case_error Desk :=
  if in_list (status c) ["resolved"; "closed"] then Err Resolved
  else ensure (in_list (a_status agent) WORKING) (AgentUnavailable (a_status agent))
  (let asked := match t with Some t => if t =? 0 then a_tier agent else t | None => a_tier agent end in
   let level := Z.max (if tier c =? 0 then 1 else tier c) asked in
   let d := noc_case_assign (Some id) now (Some level) escalated false d in
   let verb := if escalated then "Escalated" else "Assigned" in
   let d := event (strip (verb +:+ " to " +:+ a_name agent +:+ " - With NOC Tier " +:+ pretty level +:+ ". " +:+ note))
              now actor d in
   Ok (if wake_on_assignment agent && negb (String.eqb (adapter agent) "external")
       then noc_wake id trig (ref actor) now d else d)).

Definition hand_to_people (c : Case) (actor : Actor) (now : float) (why : string) (d : Desk) : Desk :=
  let d :=
    if String.eqb (status c) "working" && bool_decide (owner_kind c = Some "agent")
    then noc_case_enqueue "escalated" now (noc_cycle_left now d) else d in
  event ("Escalated to the NOC team: " +:+ why) now actor (noc_case_assign None now None true true d).

(** The [while] of [escalate]: the first manager up who can work. None when the fuel runs out. *)
Fixpoint climb (fuel : nat) (agents : list (Z * Agent)) (boss : option Z) : option (option (Z * Agent)) :=
  match boss with
  | None => Some None
  | Some b =>
      match assoc b agents with
      | None => Some None
      | Some manager =>
          if in_list (a_status manager) WORKING then Some (Some (b, manager))
          else match fuel with O => None | S fuel => climb fuel agents (reports_to manager) end
      end
  end.

(** Answers who has the case now. The loop needs no more rounds than there are agents. *)
Definition escalate (c : Case) (agents : list (Z * Agent)) (actor : Actor) (now : float) (why : string)
    (d : Desk) : option (res case_error (Desk * string)) :=
  found ← climb (length agents) agents (agent_id c ≫= boss_of agents);
  Some match found with
  | Some (b, manager) =>
      let t := Z.min 4 ((if tier c =? 0 then 1 else tier c) + 1) in
      d ← assign c b manager actor now "escalation" (Some (Z.max t (a_tier manager))) true why d;
      Ok (d, a_name manager)
  | None => Ok (hand_to_people c actor now why d, "the NOC team")
  end.

(** The entry agent with the fewest live cases, the lowest id on a tie. *)
Definition load_leb (loads : list (Z * Z)) (a b : Z * Agent) : bool :=
  let la := default 0 (assoc a.1 loads) in let lb := default 0 (assoc b.1 loads) in
  (la <? lb) || ((la =? lb) && (a.1 <=? b.1)).

Definition pick_entry (agents : list (Z * Agent)) (loads : list (Z * Z)) : option (Z * Agent) :=
  head (sort_by (load_leb loads)
    (filter (fun e => entry e.2 = true ∧ a_status e.2 ∈ WORKING) agents)).

Definition tier_label (t : option Z) (with_team : bool) : string :=
  if with_team then "With the NOC team"
  else "With NOC Tier " +:+ pretty (match t with Some t => if t =? 0 then 1 else t | None => 1 end).
