(* ===== verification/CaseDesk.v ===== *)
(** * Who may act on a case, and when ([api/routes/cases.py], [api/routes/case_feed.py],
    [api/routes/case_agents.py], [engine/noc/case_loop.py], [engine/noc/hearing.py],
    [engine/noc/runbook.py], [engine/noc/access.py], [engine/noc/feed.py])

    Each caller reads the case under the lock, decides, and calls an act; the transaction commits or
    leaves the desk as it was. The relation [pressed] is every such transaction. *)
From S2P Require Import Prelude PyLib Agents Cases CaseOps.

Inductive http_error := Refused (e : case_error) | ChangedSince (v : Z) | NotRouted | Forbidden | UnknownAgent.

Definition refused {A} (r : res case_error A) : res http_error A :=
  match r with Ok a => Ok a | Err e => Err (Refused e) end.

(** ** The API *)

(** [current]: an edit against a version someone else replaced. *)
Definition current (c : Case) (v : option Z) : bool :=
  match v with Some v => v =? version c | None => true end.

Definition take_case (actor : Actor) (now : float) (d : Desk) : res http_error Desk :=
  refused (take (case d) actor now d).
Definition release_case (actor : Actor) (now : float) (admin : bool) (note : string) (d : Desk) : res http_error Desk :=
  refused (release (case d) actor now admin note d).

(** The request model admits the editable fields only. *)
Definition update_case (actor : Actor) (now : float) (f : Fields) (sums : list (Z * string))
    (organizations : list Z) (v : option Z) (d : Desk) : res http_error Desk :=
  let f := MkFields (filter (fun e => e.1 ∈ EDITABLE) (texts f)) (next_update f) in
  ensure (current (case d) v) (ChangedSince (version (case d)))
    (refused (fst <$> update (case d) actor now f sums organizations d)).

Definition UPDATE_CADENCE_S : list (string * list (string * Z)) :=
  [("working", [("critical", 1800); ("major", 7200); ("minor", 21600)]);
   ("pending", [("critical", 3600); ("major", 10800); ("minor", 21600)])].
Definition next_update_due (c : Case) (now : float) (phase : string) : float :=
  fadd now (f_of_Z (default 0 (assoc phase UPDATE_CADENCE_S ≫= assoc (priority c)))).

(** Set pending: with no time named and none ahead, the handbook's cadence names one. *)
Definition set_status (actor : Actor) (now : float) (admin : bool) (st : string) (given : option float)
    (note : string) (v : option Z) (d : Desk) : res http_error Desk :=
  let c := case d in
  ensure (current c v) (ChangedSince (version c))
  (refused
    (let ahead := match next_update_at c with Some w => fltb now w | None => false end in
     let w := match given with
              | Some w => Some w
              | None => if ahead then None else Some (next_update_due c now "pending")
              end in
     dc ← (match w with
           | Some w => update c actor now (MkFields [] (Some w)) [] [] d
           | None => Ok (d, c)
           end);
     pend dc.2 actor now st admin note dc.1)).

Definition resolve_case (actor : Actor) (now : float) (admin : bool) (cause_ sol : string)
    (verified : bool) (v : option Z) (d : Desk) : res http_error Desk :=
  ensure (current (case d) v) (ChangedSince (version (case d)))
    (refused (resolve (case d) actor now cause_ sol verified admin "noc" d)).

(** [feed.requeues]: a person's post on a pending case, unless the person is its owner. *)
Definition requeues (c : Case) (actor : Actor) : bool :=
  String.eqb (kind actor) "person" && in_list (status c) PENDING
  && negb (bool_decide (owner_ref c = Some (ref actor))).

Definition post_on_case (actor : Actor) (now : float) (vis text : string) (d : Desk) : Desk :=
  let text := if String.eqb (strip text) "" then text else strip text in
  let c := case d in
  let d := noc_post actor vis "post" text now d in
  if requeues c actor then requeue "customer_post" now (actor_name actor +:+ " posted.") d else d.

(** Routing by hand and escalating by hand: [me] is the caller's agent id when it is one, [manages]
    the admin's capability. *)
Definition caller_owns (c : Case) (actor : Actor) (me : option Z) : bool :=
  bool_decide (owner_ref c = Some (ref actor))
  || match me with Some m => bool_decide (agent_id c = Some m) | None => false end.

Definition assign_case (actor : Actor) (now : float) (me : option Z) (manages : bool)
    (target : option Z) (note : string) (d : Desk) : res http_error Desk :=
  let c := case d in
  let agents := everyone (rows d) in
  ensure (in_list (status c) LIVE) NotRouted
  (ensure
    (match me with
     | Some m =>
         caller_owns c actor me
         && match target, subtree agents m with
            | Some t, Some s => bool_decide (t ∈ s)
            | _, _ => false
            end
     | None => manages || caller_owns c actor None || in_list (status c) UNOWNED
     end) Forbidden
  (match target with
   | None => Ok (hand_to_people c actor now (if String.eqb note "" then "assigned by hand" else note) d)
   | Some t =>
       match assoc t agents with
       | None => Err UnknownAgent
       | Some agent => refused (assign c t agent actor now "assignment" None false note d)
       end
   end)).

(** An agent that took a case routed elsewhere climbs from itself. None: the climb did not end. *)
Definition escalate_case (actor : Actor) (now : float) (me : option Z) (manages : bool) (why : string)
    (d : Desk) : option (res http_error Desk) :=
  let c := case d in
  if negb (in_list (status c) LIVE) then Some (Err NotRouted)
  else
    let mine := caller_owns c actor me in
    let allowed := match me with
      | Some _ => mine
      | None => mine || manages || bool_decide (agent_id c <> None)
      end in
    if negb allowed then Some (Err Forbidden)
    else
      let c := match me with
        | Some m => if bool_decide (agent_id c = Some m) then c else set_agent (Some m) (default f_zero (assigned_at c)) (tier c) (escalated_at c) (with_people c) c
        | None => c
        end in
      match escalate c (everyone (rows d)) actor now why d with Some r => Some (refused (fst <$> r)) | None => None end.

(** ** The loops *)

(** [hearing.apply]: [said] is the sentence when there is news, [worse] that the fault grew or came
    back. *)
Definition hear (said : option string) (worse : bool) (now : float) (d : Desk) : Desk :=
  let c := case d in
  if in_list (status c) ["new"; "auto"; "resolved"; "closed"] then d
  else match said with
  | None => d
  | Some text =>
      let d := event text now SYSTEM d in
      if worse && in_list (status c) PENDING then requeue "alarm" now "" d else d
  end.

Definition WHY_RESOLVED : list (string * string) :=
  [("operator", "an operator closed it");
   ("self_cleared", "every alarm cleared, the network fixed it");
   ("idle", "it went quiet and timed out");
   ("merged", "it was merged into another situation");
   ("manual_clear", "an operator hand-cleared the last active alarm");
   ("unattributed", "it closed before this appliance recorded why")].

(** What one pass of the loop read about this case before it took the lock. *)
Record Due := MkDue {
  rising : bool; news : option (option string * bool); fresh : bool; automate : bool; due : bool;
  orphaned : option (option string); stale : bool }.

Definition loop_dispatch (q : Due) (now : float) (d : Desk) : Desk :=
  if fresh q && String.eqb (status (case d)) "new" then dispatch now (automate q) d else d.

Definition loop_due (q : Due) (now : float) (d : Desk) : Desk :=
  let c := case d in
  if due q && in_list (status c) PENDING
     && match next_update_at c with Some w => negb (fltb now w) | None => false end
  then requeue "next_update" now "" d else d.

Definition loop_orphaned (q : Due) (now : float) (d : Desk) : Desk :=
  match orphaned q with
  | None => d
  | Some resolution =>
      let st := status (case d) in
      if in_list st ["resolved"; "closed"; "validate"] then d
      else
        let said := match resolution with
          | Some r => default (if String.eqb r "" then "closed" else r) (assoc r WHY_RESOLVED)
          | None => "closed"
          end in
        if bool_decide (resolution = Some "merged") then auto_resolve now "merged" "its situation was merged" d
        else if in_list st UNOWNED then auto_resolve now "cleared" ("the situation resolved: " +:+ said) d
        else validate now said d
  end.

Definition loop_close (q : Due) (now : float) (d : Desk) : Desk :=
  if stale q && String.eqb (status (case d)) "resolved" then close now d else d.

(** [tick], on one case. *)
Definition tick (q : Due) (now : float) (d : Desk) : Desk :=
  let d := if rising q && negb (fresh q) then (reprioritize now d).1 else d in
  let d := match news q with Some (said, worse) => hear said worse now d | None => d end in
  let d := loop_dispatch q now d in
  let d := loop_due q now d in
  let d := loop_orphaned q now d in
  loop_close q now d.

(** A playbook's leaf, and [_finish] with [run_case]'s handler: an error, or anything but a
    resolution or a wait, puts the case in the queue. *)
Inductive Leaf :=
| LeafResolve (cause_ sol : string) (clear : bool)
| LeafPending (st : string) (given : list (string * string)) (wait_s : Z) (note : string)
| LeafQueue (note : string).

Definition finish (leaf : Leaf) (actor : Actor) (now : float) (d : Desk) : res case_error Desk :=
  match leaf with
  | LeafResolve cause_ sol clear => resolve (case d) actor now cause_ sol clear true "automation" d
  | LeafPending st given wait_s note => fst <$> auto_pend (case d) actor now st given wait_s note d
  | LeafQueue note => Ok (requeue "automation" now note d)
  end.

Definition run_case (leaf : Leaf) (actor : Actor) (now : float) (d : Desk) : Desk :=
  if String.eqb (status (case d)) "auto" then
    match finish leaf actor now d with
    | Ok d => d
    | Err _ => requeue "automation" now "Automated checks could not apply their conclusion." d
    end
  else d.

Definition WAITING : list string := ["pending_connectivity"; "pending_device_access"].
Definition granted (host : string) (now : float) (d : Desk) : Desk :=
  if in_list (status (case d)) WAITING
  then requeue "access" now ("A credential for " +:+ host +:+ " is now usable by the agents.") d else d.

(** The agent loop, on one case: a queued case nobody has goes to the entry agent; a case climbs when
    it is still with the agent it was read with. *)
Definition route_queued (loads : list (Z * Z)) (now : float) (d : Desk) : res case_error Desk :=
  let c := case d in
  match pick_entry (everyone (rows d)) loads with
  | Some (id, agent) =>
      if String.eqb (status c) "queue" && bool_decide (agent_id c = None) then
        assign c id agent SYSTEM now "assignment" None false "Routed from the queue." d
      else Ok d
  | None => Ok d
  end.

Definition climb_due (read : option Z) (now : float) (why : string) (d : Desk) : option (res case_error Desk) :=
  let c := case d in
  if negb (bool_decide (agent_id c = read)) || with_people c then Some (Ok d)
  else match escalate c (everyone (rows d)) SYSTEM now why d with Some r => Some (fst <$> r) | None => None end.

(** ** Every transaction on a desk *)

Definition with_severity (s : option string) (d : Desk) : Desk :=
  MkDesk (sid d) (case d) (cycles d) (feed d) (summaries d) (runs d) s (rows d).
Definition with_rows (r : list (Z * Agent)) (d : Desk) : Desk :=
  MkDesk (sid d) (case d) (cycles d) (feed d) (summaries d) (runs d) (severity d) r.

Inductive pressed : Desk -> Desk -> Prop :=
| pressed_take actor now d d' : take_case actor now d = Ok d' -> pressed d d'
| pressed_release actor now admin note d d' : release_case actor now admin note d = Ok d' -> pressed d d'
| pressed_update actor now f sums orgs v d d' : update_case actor now f sums orgs v d = Ok d' -> pressed d d'
| pressed_status actor now admin st given note v d d' :
    set_status actor now admin st given note v d = Ok d' -> pressed d d'
| pressed_resolve actor now admin cause_ sol verified v d d' :
    resolve_case actor now admin cause_ sol verified v d = Ok d' -> pressed d d'
| pressed_post actor now vis text d : pressed d (post_on_case actor now vis text d)
| pressed_assign actor now me manages target note d d' :
    assign_case actor now me manages target note d = Ok d' -> pressed d d'
| pressed_escalate actor now me manages why d d' :
    escalate_case actor now me manages why d = Some (Ok d') -> pressed d d'
| pressed_tick q now d : pressed d (tick q now d)
| pressed_run leaf actor now d : pressed d (run_case leaf actor now d)
| pressed_run_event text now actor d : pressed d (event text now actor d)
| pressed_granted host now d : pressed d (granted host now d)
| pressed_route loads now d d' : route_queued loads now d = Ok d' -> pressed d d'
| pressed_climb read now why d d' : climb_due read now why d = Some (Ok d') -> pressed d d'
| pressed_severity s d : pressed d (with_severity s d)
| pressed_rows r d : pressed d (with_rows r d).

(** The case the database opens with its situation ([migrations/0034_noc_cases.sql]). *)
Definition opened (n : Z) (sev : option string) (at_ : float) (agents : list (Z * Agent)) : Desk :=
  MkDesk n
    (MkCase "new" (priority_of sev) "" "" "" "" "" "" "" None None None None at_ at_ None None None
      false None None 1 None false 1 at_ None)
    [] [] [] [] sev agents.

Definition lived (d : Desk) : Prop := ∃ n sev at_ agents, rtc pressed (opened n sev at_ agents) d.
