(* ===== verification/CaseActs.v ===== *)
(** * Every transaction is a sequence of acts

    The callers of [CaseDesk] reduce to guarded acts: the [quiet] ones, and at most one act that puts
    the case in a wait, as the last. A law is proved of each act once, and holds of every transaction. *)
From S2P Require Import Prelude PyLib Agents Cases CaseOps CaseDesk.

(** The cases of a membership in a closed list. *)
Ltac enum H := repeat (apply elem_of_cons in H as [H|H]); try (by apply not_elem_of_nil in H).


Lemma in_list_true {A} `{EqDecision A} (x : A) l : in_list x l = true ↔ x ∈ l.
Proof. apply bool_decide_eq_true. Qed.

Lemma in_list_false {A} `{EqDecision A} (x : A) l : in_list x l = false ↔ x ∉ l.
Proof. apply bool_decide_eq_false. Qed.

Lemma refused_Ok {A} (r : res case_error A) a : refused r = Ok a -> r = Ok a.
Proof. by destruct r; simpl; [intros [= ->]|]. Qed.

(** The status and the owner the act was given are the row's. *)
Definition read_of (c : Case) (d : Desk) : Prop := status c = status (case d) ∧ owner c = owner (case d).

Inductive quiet : Desk -> Desk -> Prop :=
| quiet_take actor now d d' : take (case d) actor now d = Ok d' -> quiet d d'
| quiet_release actor now admin note d d' : release (case d) actor now admin note d = Ok d' -> quiet d d'
| quiet_update actor now f sums orgs d d' c' :
    assoc "priority" (texts f) = None -> update (case d) actor now f sums orgs d = Ok (d', c') -> quiet d d'
| quiet_resolve actor now ca sol cl admin how d d' :
    resolve (case d) actor now ca sol cl admin how d = Ok d' -> quiet d d'
| quiet_requeue why now note d :
    status (case d) ∈ "auto" :: PENDING -> quiet d (requeue why now note d)
| quiet_dispatch now auto_ d : status (case d) = "new" -> quiet d (dispatch now auto_ d)
| quiet_validate now why d :
    status (case d) ∉ UNOWNED ++ ["validate"; "resolved"; "closed"] -> quiet d (validate now why d)
| quiet_auto_resolve now how why d :
    status (case d) ∉ ["resolved"; "closed"] -> quiet d (auto_resolve now how why d)
| quiet_close now d : status (case d) = "resolved" -> quiet d (close now d)
| quiet_reprioritize now d : quiet d (reprioritize now d).1
| quiet_assign c id agent actor now trig t esc note d d' :
    assign c id agent actor now trig t esc note d = Ok d' -> quiet d d'
| quiet_people c actor now why d : read_of c d -> quiet d (hand_to_people c actor now why d)
| quiet_post actor vis k text now d : quiet d (noc_post actor vis k text now d)
| quiet_elsewhere d d' :
    case d' = case d -> cycles d' = cycles d -> feed d' = feed d -> quiet d d'.

(** The case with only its next update replaced: what [set_status] pends with. *)
Definition renewed (c : Case) (d : Desk) : Prop :=
  case d = c ∨ ∃ c0 actor now w d0, c0 = case d0 ∧ update c0 actor now (MkFields [] (Some w)) [] [] d0 = Ok (d, c).

Inductive waiting : Desk -> Desk -> Prop :=
| waiting_pend c actor now st admin note d d' :
    renewed c d -> pend c actor now st admin note d = Ok d' -> waiting d d'
| waiting_auto actor now st given wait_s note d d' :
    auto_pend (case d) actor now st given wait_s note d = Ok (d', true) -> waiting d d'.

Lemma quiet_once d d' : quiet d d' -> rtc quiet d d'.
Proof. apply rtc_once. Qed.

Lemma quiet_event text now a d : quiet d (event text now a d).
Proof. apply quiet_post. Qed.

Lemma acts_hear said worse now d : rtc quiet d (hear said worse now d).
Proof.
  unfold hear. destruct (in_list _ _); [done|]. destruct said as [s|]; [|done].
  eapply rtc_l; [apply (quiet_event s now SYSTEM)|].
  destruct (worse && _) eqn:Hw; [|done]. apply andb_true_iff in Hw as [_ Hp%in_list_true].
  apply quiet_once, quiet_requeue. by right.
Qed.

Lemma acts_orphaned q now d : rtc quiet d (loop_orphaned q now d).
Proof.
  unfold loop_orphaned. destruct (orphaned q) as [r|]; [|done].
  destruct (in_list _ ["resolved"; "closed"; "validate"]) eqn:Hs; [done|]. apply in_list_false in Hs.
  assert (Hl : status (case d) ∉ ["resolved"; "closed"]) by set_solver.
  simpl. case_bool_decide; [by apply quiet_once, quiet_auto_resolve|].
  destruct (in_list _ UNOWNED) eqn:Hu; apply quiet_once; [by apply quiet_auto_resolve|].
  apply in_list_false in Hu. apply quiet_validate. set_solver.
Qed.

Lemma acts_dispatch q now d : rtc quiet d (loop_dispatch q now d).
Proof.
  unfold loop_dispatch. destruct (_ && _) eqn:H; [|done].
  apply andb_true_iff in H as [_ H%String.eqb_eq]. by apply quiet_once, quiet_dispatch.
Qed.

Lemma acts_due q now d : rtc quiet d (loop_due q now d).
Proof.
  unfold loop_due. destruct (_ && _ && _) eqn:H; [|done].
  apply andb_true_iff in H as [[_ H%in_list_true]%andb_true_iff _].
  apply quiet_once, quiet_requeue. by right.
Qed.

Lemma acts_close q now d : rtc quiet d (loop_close q now d).
Proof.
  unfold loop_close. destruct (_ && _) eqn:H; [|done].
  apply andb_true_iff in H as [_ H%String.eqb_eq]. by apply quiet_once, quiet_close.
Qed.

Lemma acts_tick q now d : rtc quiet d (tick q now d).
Proof.
  unfold tick. etrans; [|apply acts_close]. etrans; [|apply acts_orphaned].
  etrans; [|apply acts_due]. etrans; [|apply acts_dispatch].
  assert (Hr : rtc quiet d (if rising q && negb (fresh q) then (reprioritize now d).1 else d)).
  { case_match; [apply quiet_once, quiet_reprioritize|done]. }
  destruct (news q) as [[s w]|]; [etrans; [exact Hr|apply acts_hear]|exact Hr].
Qed.

Lemma acts_escalate c agents actor now why d r :
  read_of c d -> escalate c agents actor now why d = Some (Ok r) -> rtc quiet d r.1.
Proof.
  intros Hc. unfold escalate. destruct (climb _ _ _) as [found|]; [|done]. simpl.
  intros [= H]. destruct found as [[b m]|]; [|injection H as <-; by apply quiet_once, quiet_people].
  apply bind_Ok_inv in H as (d1 & Hd & [= <-]). by eapply quiet_once, quiet_assign.
Qed.

(** What a transaction amounts to. *)
Definition quietly (d d' : Desk) : Prop := rtc quiet d d'.
Definition into_wait (d d' : Desk) : Prop := ∃ d1, rtc quiet d d1 ∧ waiting d1 d'.
Definition by_edit (d d' : Desk) : Prop :=
  ∃ actor now f sums orgs v p, update_case actor now f sums orgs v d = Ok d' ∧ assoc "priority" (texts f) = Some p.

Lemma editable_priority (f : Fields) :
  assoc "priority" (filter (fun e => e.1 ∈ EDITABLE) (texts f)) = assoc "priority" (texts f).
Proof.
  generalize (texts f). intros t. induction t as [|[n w] t IH]; [done|]. rewrite filter_cons.
  case_decide as E; simpl; destruct (decide ("priority" = n)) as [<-|]; try done.
  exfalso. apply E. simpl. by_eval.
Qed.

Lemma acts_set_status actor now admin st given note v d d' :
  set_status actor now admin st given note v d = Ok d' -> into_wait d d'.
Proof.
  unfold set_status. intros [_ H%refused_Ok]%ensure_Ok_inv. simpl in H.
  apply bind_Ok_inv in H as ([d1 c1] & Hu & Hp). simpl in Hp. exists d1.
  assert (Hcase : (d1 = d ∧ c1 = case d) ∨ ∃ w, update (case d) actor now (MkFields [] (Some w)) [] [] d = Ok (d1, c1)).
  { destruct given; [|case_match]; eauto; simplify_eq; by left. }
  destruct Hcase as [[-> ->]|[w Hw]].
  - split; [done|]. eapply waiting_pend; [by left|exact Hp].
  - split; [eapply quiet_once, quiet_update; [|exact Hw]; done|].
    eapply waiting_pend; [|exact Hp]. right. by exists (case d), actor, now, w, d.
Qed.

Lemma acts_run_case leaf actor now d :
  quietly d (run_case leaf actor now d) ∨ into_wait d (run_case leaf actor now d).
Proof.
  unfold run_case. destruct (String.eqb_spec (status (case d)) "auto") as [Hs|]; [|left; apply rtc_refl].
  assert (Hq : ∀ note, rtc quiet d (requeue "automation" now note d)).
  { intros note. apply quiet_once, quiet_requeue. rewrite Hs. by left. }
  destruct (finish leaf actor now d) as [d'|] eqn:Hf; [|left; apply Hq].
  destruct leaf as [ca sol cl|st given w note|note]; simpl in Hf.
  - left. by eapply quiet_once, quiet_resolve.
  - apply fmap_Ok_inv in Hf as ([d1 []] & Hr & ->).
    + right. exists d. split; [done|]. by eapply waiting_auto.
    + left. unfold auto_pend in Hr. apply bind_Ok_inv in Hr as (t & _ & Hr). simpl in Hr.
      case_match; [done|]. injection Hr as <-. apply Hq.
  - left. injection Hf as <-. apply Hq.
Qed.

Lemma pressed_acts d d' : pressed d d' -> quietly d d' ∨ into_wait d d' ∨ by_edit d d'.
Proof.
  unfold quietly. intros [ ].
  - apply refused_Ok in H. left. by eapply quiet_once, quiet_take.
  - apply refused_Ok in H. left. by eapply quiet_once, quiet_release.
  - destruct (assoc "priority" (texts f)) as [p|] eqn:Hp; [right; right; by do 7 eexists|].
    unfold update_case in H. apply ensure_Ok_inv in H as [_ H%refused_Ok].
    apply fmap_Ok_inv in H as ([d1 c1] & Hu & ->). left. eapply quiet_once, quiet_update; [|exact Hu].
    cbn [texts]. by rewrite editable_priority.
  - right; left. by eapply acts_set_status.
  - unfold resolve_case in H. apply ensure_Ok_inv in H as [_ H%refused_Ok]. left. by eapply quiet_once, quiet_resolve.
  - left. unfold post_on_case. destruct (requeues _ _) eqn:Hr; [|by apply quiet_once, quiet_post].
    apply andb_true_iff in Hr as [[_ Hp%in_list_true]%andb_true_iff _].
    eapply rtc_l; [apply quiet_post|]. apply quiet_once, quiet_requeue. by right.
  - left. unfold assign_case in H. apply ensure_Ok_inv in H as [_ [_ H]%ensure_Ok_inv].
    destruct target as [t|]; [|injection H as <-; by apply quiet_once, quiet_people].
    destruct (assoc t _); [|done]. apply refused_Ok in H. by eapply quiet_once, quiet_assign.
  - left. unfold escalate_case in H. destruct (negb _); [done|]. destruct (negb _); [done|].
    case_match eqn:He; [|done]. injection H as H. apply refused_Ok, fmap_Ok_inv in H as (r' & -> & ->).
    eapply acts_escalate; [|exact He]. split; by repeat case_match.
  - left. apply acts_tick.
  - destruct (acts_run_case leaf actor now d0); auto.
  - left. apply quiet_once, quiet_event.
  - left. unfold granted. destruct (in_list _ _) eqn:Hw; [|done]. apply in_list_true in Hw.
    apply quiet_once, quiet_requeue. enum Hw; rewrite Hw; by_eval.
  - left. unfold route_queued in H. destruct (pick_entry _ _) as [[id a]|]; [|by injection H as <-].
    destruct (_ && _); [|by injection H as <-]. by eapply quiet_once, quiet_assign.
  - left. unfold climb_due in H. destruct (_ || _); [by injection H as <-|].
    case_match eqn:He; [|done]. injection H as H. apply fmap_Ok_inv in H as (r' & -> & ->).
    by eapply acts_escalate.
  - left. by apply quiet_once, quiet_elsewhere.
  - left. by apply quiet_once, quiet_elsewhere.
Qed.
