(* ===== verification/CaseView.v ===== *)
(** * What the acts do to a case's status, owner, resolution and clocks

    A desk is seen through its [view]: the status, the owner, the resolution, how many cycles wait to
    be taken and how many are being worked. Each write and each act is a function on views; the
    lemmas here are the rewrite rules the theorems of [CaseTheorems] compute with. *)
From S2P Require Import Prelude PyLib Agents Cases CaseOps CaseDesk.

Definition count (p : Cycle -> bool) (l : list Cycle) : nat := length (filter (fun y => p y = true) l).

Lemma count_cons p y l : count p (y :: l) = ((if p y then 1 else 0) + count p l)%nat.
Proof. unfold count. rewrite filter_cons. destruct (p y); by simpl. Qed.

Lemma count_update_same p q f l :
  (∀ y, p y = true -> q (f y) = q y) -> count q (update_latest p f l) = count q l.
Proof.
  intros H. induction l as [|y l IH]; simpl; [done|].
  destruct (p y) eqn:Hp; rewrite !count_cons; [by rewrite H|by rewrite IH].
Qed.

Lemma count_update_out q f l :
  (∀ y, q y = true -> q (f y) = false) -> count q (update_latest q f l) = Nat.pred (count q l).
Proof.
  intros H. induction l as [|y l IH]; simpl; [done|].
  destruct (q y) eqn:Hq; rewrite !count_cons, Hq; [by rewrite H|exact IH].
Qed.

Lemma count_update_le p q f l : (count q (update_latest p f l) <= S (count q l))%nat.
Proof.
  induction l as [|y l IH]; simpl; [unfold count; simpl; lia|].
  destruct (p y); rewrite !count_cons; [|lia]. destruct (q (f y)), (q y); lia.
Qed.

Lemma count_map q f l : (∀ y, q (f y) = q y) -> count q (map f l) = count q l.
Proof. intros H. induction l as [|y l IH]; simpl; [done|]. by rewrite !count_cons, H, IH. Qed.

Record View := MkView {
  v_status : string; v_owner : option (string * string * string); v_resolution : option string;
  v_open : nat; v_worked : nat }.

Definition view (d : Desk) : View :=
  MkView (status (case d)) (owner (case d)) (resolution (case d)) (count is_open (cycles d))
    (count is_worked (cycles d)).

Definition v_enqueue (v : View) : View := MkView "queue" None (v_resolution v) (S (v_open v)) (v_worked v).
Definition v_move (st : string) (taker : option (string * string * string)) (v : View) : View :=
  MkView st (match taker with Some o => Some o | None => v_owner v end) (v_resolution v) (v_open v) (v_worked v).
Definition v_left (v : View) : View :=
  MkView (v_status v) (v_owner v) (v_resolution v) (v_open v) (Nat.pred (v_worked v)).
Definition v_withdrawn (v : View) : View :=
  MkView (v_status v) (v_owner v) (v_resolution v) (Nat.pred (v_open v)) (v_worked v).
Definition v_resolve (how : string) (v : View) : View :=
  MkView "resolved" (v_owner v) (Some how) (v_open v) (v_worked v).

Create HintDb desk.

(** ** Writes that keep the view *)

Lemma view_event text now a d : view (event text now a d) = view d.
Proof. done. Qed.
Lemma view_post a vis k text now d : view (noc_post a vis k text now d) = view d.
Proof. done. Qed.
Lemma view_wake a t b now d : view (noc_wake a t b now d) = view d.
Proof. unfold noc_wake. by case_match. Qed.
Lemma view_assign a now t e p d : view (noc_case_assign a now t e p d) = view d.
Proof. done. Qed.
Lemma view_summary o t a d : view (noc_case_set_summary o t a d) = view d.
Proof. done. Qed.

Lemma view_cycle_priority p d : view (cycle_priority p d) = view d.
Proof.
  unfold view, cycle_priority. simpl. f_equal.
  - apply count_map. intros y. unfold is_open. by case_match.
  - apply count_map. intros y. unfold is_worked, is_open. by case_match.
Qed.

Lemma view_raise p now d : view (noc_case_raise_priority p now d) = view d.
Proof. unfold noc_case_raise_priority. by rewrite view_cycle_priority. Qed.

(** [merge_fields] touches the text fields, the priority and the next update alone. *)
Definition kept_columns (c : Case) : string * option (string * string * string) * option string :=
  (status c, owner c, resolution c).

Lemma set_text_kept n v c : kept_columns (set_text n v c) = kept_columns c.
Proof. unfold set_text. by repeat case_match. Qed.

Lemma set_texts_kept t c : kept_columns (set_texts t c) = kept_columns c.
Proof.
  unfold set_texts. revert c. induction t as [|[n v] t IH]; intros c; simpl; [done|].
  rewrite IH. apply set_text_kept.
Qed.

Lemma merge_fields_kept f c : kept_columns (merge_fields f c) = kept_columns c.
Proof.
  unfold merge_fields. destruct (next_update f) as [w|]; [|apply set_texts_kept].
  rewrite <- (set_texts_kept (texts f) c). done.
Qed.

Lemma view_columns d d' :
  kept_columns (case d') = kept_columns (case d) -> cycles d' = cycles d -> view d' = view d.
Proof. unfold kept_columns, view. intros [= -> -> ->] ->. done. Qed.

Lemma view_set_fields f now a d : view (noc_case_set_fields f now a d) = view d.
Proof.
  unfold noc_case_set_fields. case_match; [done|]. case_match; rewrite ?view_cycle_priority;
    (apply view_columns; [|done]); rewrite <- (merge_fields_kept
      (MkFields (filter (fun e => e.1 ∈ EDITABLE) (texts f)) (next_update f)) (case d)); done.
Qed.

Lemma view_summaries (l : list (Z * string)) a d :
  view (foldl (fun d e => noc_case_set_summary e.1 (strip e.2) a d) d l) = view d.
Proof. revert d. induction l as [|e l IH]; intros d; simpl; [done|]. by rewrite IH. Qed.

Lemma view_documented now d : view (noc_cycle_documented now d) = view d.
Proof.
  unfold view, noc_cycle_documented. simpl. f_equal; apply count_update_same; done.
Qed.

Lemma view_reprioritize now d : view (reprioritize now d).1 = view d.
Proof. unfold reprioritize. repeat case_match; simpl; rewrite ?view_event, ?view_raise; done. Qed.

Lemma view_back now d : view (back_to_agent now d).1 = view d.
Proof.
  unfold back_to_agent. repeat case_match; simpl; rewrite ?view_wake, ?view_assign; done.
Qed.

(** ** Writes that move it *)

Lemma view_enqueue why now d : view (noc_case_enqueue why now d) = v_enqueue (view d).
Proof. unfold view, v_enqueue, noc_case_enqueue. simpl. by rewrite !count_cons. Qed.

Lemma view_move st now a t d : view (noc_case_move st now a t d) = v_move st t (view d).
Proof. unfold noc_case_move. by destruct t. Qed.

Lemma view_left now d : view (noc_cycle_left now d) = v_left (view d).
Proof.
  unfold view, v_left, noc_cycle_left. simpl. f_equal.
  - by apply count_update_same.
  - apply count_update_out. intros y. unfold is_worked. simpl. by rewrite andb_false_r.
Qed.

Lemma view_withdrawn now d : view (noc_cycle_withdrawn now d) = v_withdrawn (view d).
Proof.
  unfold view, v_withdrawn, noc_cycle_withdrawn. simpl. f_equal.
  - apply count_update_out. intros y. unfold is_open. simpl. by rewrite andb_false_r.
  - by apply count_update_same.
Qed.

Lemma view_resolve now a how ca sol cl d : view (noc_case_resolve now a how ca sol cl d) = v_resolve how (view d).
Proof. done. Qed.

(** The take stops one waiting clock, if one runs, and starts at most one working one. *)
Lemma view_taken now a d :
  ∃ n, view (noc_cycle_taken now a d) =
    MkView (v_status (view d)) (v_owner (view d)) (v_resolution (view d)) (Nat.pred (v_open (view d))) n ∧
    (n <= S (v_worked (view d)))%nat.
Proof.
  unfold view, noc_cycle_taken. simpl. eexists. split; [f_equal|apply count_update_le].
  apply count_update_out. intros y. unfold is_open. done.
Qed.

Lemma view_requeue why now note d : view (requeue why now note d) = v_enqueue (view d).
Proof.
  unfold requeue. pose proof (view_back now (noc_case_enqueue why now (reprioritize now d).1)) as H.
  destruct (back_to_agent _ _) as [d' b]. simpl in H.
  by rewrite view_event, H, view_enqueue, view_reprioritize.
Qed.

#[export] Hint Rewrite view_event view_post view_wake view_assign view_summary view_raise view_set_fields
  view_summaries view_documented view_reprioritize view_back view_enqueue view_move view_left
  view_withdrawn view_resolve view_requeue : desk.
