(* ===== verification/Playbook.v ===== *)
(** * Troubleshooting playbooks ([engine/noc/playbook.py])

    A playbook is a JSON document: [validate] reads it field by field, in the order of the code, and
    refuses it with the path of the first thing wrong; [matches], [substitute], [fill] and [test] are
    what a run asks of it. A dictionary is the list of its items, its keys distinct. Texts are ASCII;
    how a decimal is read ([float(text)]) is an argument. *)
From S2P Require Import Prelude PyLib Json Commands Cases.

Definition MAX_DOCUMENT : nat := Z.to_nat (64 * 1024).
Definition MAX_STEPS : nat := 32.
Definition TIMEOUT_RANGE : Z * Z := (30, 1800).
Definition ACTIONS : list string := ["reach"; "ssh"; "snmp_get"].
Definition SLOTS : list string := ["ip"; "entity"].
Definition CONDITIONS : list string :=
  ["ok"; "contains"; "not_contains"; "number_after"; "above"; "below"; "vendor"].

Abbreviation dict := (list (string * json)).

(** The sentences of a [PlaybookError], as data. *)
Inductive reason :=
| AnObject | UnknownKey (k : string) | IsRequired (k : string) | AListOf (most : nat) | EachAText (longest : nat)
| OnlyThePlaceholders | TrueOrFalse | ATextOf (most : nat) | ANumber | NumberAfterGoesWith | AText
| NotACommand (e : command_error) | ExactlyOneAction | ExecOrShell | NumericOids | OneToEightBranches
| OnlyTheLastMayHaveNoIf | NoSuchStep | TheLastIsTheDefault | NotACause | NotAPendingStatus | NotAWait
| NotAnEnd | NotANumberOfSteps | NotAName (name : string) | NotATimeout | AtLeastOneOf | NotASeverity | TooLarge
| ACycle | NotReachable.

(** How [validate] leaves: the refusal it means to raise, the [TypeError] of a value that cannot be a
    key of a set, and two that the theorems exclude: a key missing from the graph, and the recursion of
    [_acyclic] cut short by the model's fuel. *)
Inductive verr :=
| PlaybookError (where_ : string) (why : reason)
| TypeError
| KeyError
| OutOfFuel.

Abbreviation vres := (res verr).

(** ** Fields *)

Definition the_keys (d : dict) : list string := d.*1.
Definition extra_key (d : dict) (allowed : list string) : option string :=
  head (sort_by string_leb (filter (fun k => k ∉ allowed) (the_keys d))).
Definition missing_key (d : dict) (required : list string) : option string :=
  head (sort_by string_leb (filter (fun k => k ∉ the_keys d) required)).

Definition keys (where_ : string) (value : json) (allowed required : list string) : vres dict :=
  match value with
  | JObj d =>
      match extra_key d allowed with
      | Some k => Err (PlaybookError where_ (UnknownKey k))
      | None =>
          match missing_key d required with
          | Some k => Err (PlaybookError where_ (IsRequired k))
          | None => Ok d
          end
      end
  | _ => Err (PlaybookError where_ AnObject)
  end.

Definition short_text (longest : nat) (v : json) : option string :=
  match v with
  | JStr s => if Nat.ltb 0 (String.length s) && Nat.leb (String.length s) longest then Some s else None
  | _ => None
  end.

Definition strings (where_ : string) (value : json) (most longest : nat) : vres (list string) :=
  match value with
  | JList l =>
      ensure (Nat.leb (length l) most) (PlaybookError where_ (AListOf most))
      (match mapM (short_text longest) l with
       | Some l => Ok l
       | None => Err (PlaybookError where_ (EachAText longest))
       end)
  | _ => Err (PlaybookError where_ (AListOf most))
  end.

(** ** Python's [in], [find] and [replace] on texts *)

Fixpoint starts (sub l : list ascii) : bool :=
  match sub, l with
  | [], _ => true
  | a :: sub, b :: l => Ascii.eqb a b && starts sub l
  | _ :: _, [] => false
  end.

(** The rest of the text from the first occurrence on. *)
Fixpoint find_from (sub l : list ascii) : option (list ascii) :=
  if starts sub l then Some l else match l with [] => None | _ :: l => find_from sub l end.

Definition contains (sub s : string) : bool := bool_decide (is_Some (find_from (chars sub) (chars s))).

(** [replace]: left to right, [skip] characters of an occurrence left to pass over. *)
Fixpoint replace_go (tok v l : list ascii) (skip : nat) : list ascii :=
  match l with
  | [] => []
  | a :: l' =>
      match skip with
      | S k => replace_go tok v l' k
      | O => if starts tok l then v ++ replace_go tok v l' (pred (length tok)) else a :: replace_go tok v l' 0
      end
  end.

(** [{slot}], and [text.replace(token, value)]. *)
Definition token (slot : string) : list ascii := ("{"%char :: chars slot) ++ ["}"%char].
Definition replace (slot value text : string) : string :=
  unchars (replace_go (token slot) (chars value) (chars text) 0).
Definition names_slot (slot text : string) : bool := contains (unchars (token slot)) text.

Definition slots (where_ text : string) : vres string :=
  let probe := foldl (fun t slot => replace slot "x" t) text SLOTS in
  ensure (negb (existsb (fun a => Ascii.eqb a "{" || Ascii.eqb a "}") (chars probe)))
    (PlaybookError where_ OnlyThePlaceholders) (Ok probe).

(** ** A condition, a command, a step *)

Definition is_bool (v : json) : bool := match v with JBool _ => true | _ => false end.
Definition is_number (v : json) : bool := match v with JBool _ | JInt _ | JFloat _ => true | _ => false end.

(** A check of a key that may be absent. *)
Definition if_given (k : string) (d : dict) (check : json -> vres unit) : vres unit :=
  match assoc k d with Some v => check v | None => Ok tt end.

Fixpoint each {A} (check : A -> vres unit) (l : list A) : vres unit :=
  match l with
  | [] => Ok tt
  | x :: l => _ ← check x; each check l
  end.

Definition text_at (d : dict) (k : string) : string := match assoc k d with Some (JStr s) => s | _ => "" end.

Definition condition (where_ : string) (cond : json) : vres unit :=
  d ← keys where_ cond CONDITIONS [];
  _ ← if_given "ok" d (fun v => ensure (is_bool v) (PlaybookError (where_ +:+ ".ok") TrueOrFalse) (Ok tt));
  _ ← each (fun k => if_given k d (fun v =>
        match short_text 200 v with
        | Some _ => Ok tt
        | None => Err (PlaybookError (where_ +:+ "." +:+ k) (ATextOf 200))
        end)) ["contains"; "not_contains"; "number_after"; "vendor"];
  _ ← each (fun k => if_given k d (fun _ => _ ← slots (where_ +:+ "." +:+ k) (text_at d k); Ok tt))
        ["contains"; "not_contains"; "number_after"];
  _ ← each (fun k => if_given k d (fun v =>
        ensure (is_number v) (PlaybookError (where_ +:+ "." +:+ k) ANumber) (Ok tt))) ["above"; "below"];
  ensure (Bool.eqb (bool_decide (is_Some (assoc "above" d)) || bool_decide (is_Some (assoc "below" d)))
            (bool_decide (is_Some (assoc "number_after" d))))
    (PlaybookError where_ NumberAfterGoesWith) (Ok tt).

Definition command (where_ : string) (value : json) : vres unit :=
  match value with
  | JStr s =>
      probe ← slots where_ s;
      match Commands.check probe "root" with
      | Ok _ => Ok tt
      | Err e => Err (PlaybookError where_ (NotACommand e))
      end
  | _ => Err (PlaybookError where_ AText)
  end.

(** [re.fullmatch(r"\.?\d+(\.\d+){least,most}", o)]. *)
Definition is_decimal (a : ascii) : bool := (48 <=? PyLib.code a) && (PyLib.code a <=? 57).
Definition all_digits (s : string) : bool :=
  negb (String.eqb s "") && forallb is_decimal (chars s).
Definition undotted (s : string) : string :=
  match s with String a r => if Ascii.eqb a "." then r else s | "" => "" end.
Definition numeric_oid (least most : nat) (s : string) : bool :=
  let parts := PyLib.split "." (undotted s) in
  forallb all_digits parts && Nat.leb (S least) (length parts) && Nat.leb (length parts) (S most).

Definition action (where_ : string) (name : string) (args : json) : vres unit :=
  if String.eqb name "reach" then _ ← keys (where_ +:+ ".do.reach") args [] []; Ok tt
  else if String.eqb name "ssh" then
    a ← keys (where_ +:+ ".do.ssh") args ["command"; "mode"] ["command"];
    _ ← command (where_ +:+ ".do.ssh.command") (default JNull (assoc "command" a));
    ensure (match assoc "mode" a with
            | None => true
            | Some (JStr m) => in_list m ["exec"; "shell"]
            | Some _ => false end)
      (PlaybookError (where_ +:+ ".do.ssh.mode") ExecOrShell) (Ok tt)
  else
    a ← keys (where_ +:+ ".do.snmp_get") args ["oids"] ["oids"];
    oids ← strings (where_ +:+ ".do.snmp_get.oids") (default JNull (assoc "oids" a)) 20 200;
    ensure (negb (Nat.eqb (length oids) 0) && forallb (numeric_oid 1 127) oids)
      (PlaybookError (where_ +:+ ".do.snmp_get.oids") NumericOids) (Ok tt).

Definition do_action (where_ : string) (value : json) : vres unit :=
  d ← keys (where_ +:+ ".do") value ACTIONS [];
  match d with
  | [(name, args)] => action where_ name args
  | _ => Err (PlaybookError (where_ +:+ ".do") ExactlyOneAction)
  end.

(** A list or an object is no key: asking a set whether it holds one raises. *)
Definition hashable (v : json) : bool := match v with JList _ | JObj _ => false | _ => true end.
Definition one_of (v : json) (names : list string) (e : verr) : vres string :=
  match v with
  | JStr s => if in_list s names then Ok s else Err e
  | JList _ | JObj _ => Err TypeError
  | _ => Err e
  end.

(** The branches of a step, the last at index [last]. *)
Fixpoint branches (where_ : string) (names : list string) (l : list json) (i : nat) : vres (list string) :=
  match l with
  | [] => Ok []
  | b :: l' =>
      let at_ := where_ +:+ ".next[" +:+ pretty (Z.of_nat i) +:+ "]" in
      d ← keys at_ b ["if"; "go"] ["go"];
      _ ← (match assoc "if" d with
           | Some c => condition (at_ +:+ ".if") c
           | None => ensure (Nat.eqb (length l') 0) (PlaybookError at_ OnlyTheLastMayHaveNoIf) (Ok tt)
           end);
      go ← one_of (default JNull (assoc "go" d)) names (PlaybookError (at_ +:+ ".go") NoSuchStep);
      rest ← branches where_ names l' (S i);
      Ok (go :: rest)
  end.

Definition has_if (b : json) : bool :=
  match b with JObj d => bool_decide (is_Some (assoc "if" d)) | _ => false end.

(** A step that ends: its leaf. *)
Definition field_limit (name : string) : nat := default O (snd <$> assoc name FIELD_LIMITS).

Definition at_most (most : nat) (v : json) : option string :=
  match v with JStr s => if Nat.leb (String.length s) most then Some s else None | _ => None end.

(** [isinstance(wait, int) and low <= wait <= high]: a boolean is an int. *)
Definition as_int (v : json) : option Z :=
  match v with JInt z => Some z | JBool b => Some (if b then 1 else 0) | _ => None end.
Definition in_range (v : json) (low high : Z) : bool :=
  match as_int v with Some z => (low <=? z) && (z <=? high) | None => false end.

Definition end_texts (where_ : string) (d : dict) : vres unit :=
  each (fun k => if_given k d (fun v =>
    match at_most 2000 v with
    | Some s => _ ← slots (where_ +:+ "." +:+ k) s; Ok tt
    | None => Err (PlaybookError (where_ +:+ "." +:+ k) (ATextOf 2000))
    end)) ["note"; "solution"].

Definition end_resolve (where_ : string) (step : json) : vres unit :=
  d ← keys where_ step ["end"; "cause"; "solution"; "clear_alarms"; "note"] ["cause"; "solution"];
  _ ← one_of (default JNull (assoc "cause" d)) CAUSES.*1 (PlaybookError (where_ +:+ ".cause") NotACause);
  ensure (is_bool (default (JBool false) (assoc "clear_alarms" d)))
    (PlaybookError (where_ +:+ ".clear_alarms") TrueOrFalse) (Ok tt).

Definition end_pending (where_ : string) (step : json) : vres unit :=
  d ← keys where_ step ["end"; "status"; "next_update_in_s"; "update"; "note"] ["status"; "update"];
  _ ← one_of (default JNull (assoc "status" d)) PENDING (PlaybookError (where_ +:+ ".status") NotAPendingStatus);
  _ ← ensure (in_range (default (JInt 3600) (assoc "next_update_in_s" d)) 300 (7 * 86400))
        (PlaybookError (where_ +:+ ".next_update_in_s") NotAWait) (Ok tt);
  u ← keys (where_ +:+ ".update") (default JNull (assoc "update" d))
        (filter (fun n => n ≠ "solution") TEXT_FIELDS) [];
  each (fun e =>
    match at_most (field_limit e.1) e.2 with
    | Some s => _ ← slots (where_ +:+ ".update." +:+ e.1) s; Ok tt
    | None => Err (PlaybookError (where_ +:+ ".update." +:+ e.1) (ATextOf (field_limit e.1)))
    end) u.

Definition end_ (where_ : string) (step : json) (d : dict) : vres (list string) :=
  _ ← (match assoc "end" d with
       | Some (JStr kind) =>
           if String.eqb kind "resolve" then end_resolve where_ step
           else if String.eqb kind "pending" then end_pending where_ step
           else if String.eqb kind "queue" then _ ← keys where_ step ["end"; "note"] []; Ok tt
           else Err (PlaybookError (where_ +:+ ".end") NotAnEnd)
       | _ => Err (PlaybookError (where_ +:+ ".end") NotAnEnd)
       end);
  _ ← end_texts where_ d;
  Ok [].

Definition step_of (name : string) (step : json) (names : list string) : vres (list string) :=
  let where_ := "steps." +:+ name in
  match step with
  | JObj d =>
      if bool_decide (is_Some (assoc "end" d)) then end_ where_ step d
      else
        _ ← keys where_ step ["do"; "next"; "note"] ["next"];
        _ ← if_given "do" d (do_action where_);
        match assoc "next" d with
        | Some (JList bs) =>
            ensure (Nat.leb 1 (length bs) && Nat.leb (length bs) 8) (PlaybookError (where_ +:+ ".next") OneToEightBranches)
            (targets ← branches where_ names bs 0;
             ensure (negb (has_if (default JNull (last bs)))) (PlaybookError (where_ +:+ ".next") TheLastIsTheDefault)
               (Ok targets))
        | _ => Err (PlaybookError (where_ +:+ ".next") OneToEightBranches)
        end
  | _ => Err (PlaybookError where_ AnObject)
  end.

(** ** The graph of the steps *)

Abbreviation graph := (list (string * list string)).

(** [state]: 1 while a step's targets are visited, 2 once they all were. *)
Abbreviation marks := (gmap string Z).

(** A loop over the targets. *)
Fixpoint visit_each (visit : marks -> string -> vres marks) (st : marks) (ts : list string) : vres marks :=
  match ts with
  | [] => Ok st
  | t :: ts => st ← visit st t; visit_each visit st ts
  end.

Fixpoint visit (g : graph) (fuel : nat) (st : marks) (node : string) : vres marks :=
  match fuel with
  | O => Err OutOfFuel
  | S fuel =>
      if bool_decide (st !! node = Some 1) then Err (PlaybookError ("steps." +:+ node) ACycle)
      else if bool_decide (st !! node = Some 2) then Ok st
      else
        let st := <[node := 1]> st in
        match assoc node g with
        | None => Err KeyError
        | Some targets => st ← visit_each (visit g fuel) st targets; Ok (<[node := 2]> st)
        end
  end.

(** Each recursion marks a step not marked before: one more than the steps is enough. *)
Definition acyclic (g : graph) (start : string) : vres unit :=
  st ← visit g (S (length g)) ∅ start;
  match head (sort_by string_leb (filter (fun n => st !! n = None) g.*1)) with
  | Some n => Err (PlaybookError ("steps." +:+ n) NotReachable)
  | None => Ok tt
  end.

(** ** The whole document *)

(** [^[a-z][a-z0-9_]{0,39}$] with [re.match]: [$] also matches before a trailing newline. *)
Definition name_char (a : ascii) : bool :=
  let c := PyLib.code a in ((97 <=? c) && (c <=? 122)) || is_decimal a || (c =? 95).
Definition chomp (l : list ascii) : list ascii :=
  match reverse l with a :: r => if PyLib.code a =? 10 then reverse r else l | [] => [] end.
Definition name_ok (s : string) : bool :=
  match chomp (chars s) with
  | a :: l => (97 <=? PyLib.code a) && (PyLib.code a <=? 122) && forallb name_char l && Nat.leb (length l) 39
  | [] => false
  end.

Fixpoint graph_of (steps : dict) (names : list string) : vres graph :=
  match steps with
  | [] => Ok []
  | (n, s) :: l => ts ← step_of n s names; rest ← graph_of l names; Ok ((n, ts) :: rest)
  end.

Definition SEVERITIES : list string := ["critical"; "major"; "minor"; "warning"; "indeterminate"].

Definition validate_match (value : json) : vres unit :=
  m ← keys "match" value ["vendors"; "trap_oids"; "severities"] [];
  _ ← ensure (negb (Nat.eqb (length m) 0)) (PlaybookError "match" AtLeastOneOf) (Ok tt);
  _ ← strings "match.vendors" (default (JList []) (assoc "vendors" m)) 20 64;
  oids ← strings "match.trap_oids" (default (JList []) (assoc "trap_oids" m)) 50 200;
  _ ← ensure (forallb (numeric_oid 0 (Z.to_nat 200)) oids) (PlaybookError "match.trap_oids" NumericOids) (Ok tt);
  severities ← strings "match.severities" (default (JList []) (assoc "severities" m)) 5 16;
  ensure (forallb (fun s => in_list s SEVERITIES) severities) (PlaybookError "match.severities" NotASeverity) (Ok tt).

(** [isinstance(doc.get("description", ""), str)] and its length. *)
Definition validate_head (doc : dict) : vres unit :=
  _ ← ensure (match assoc "name" doc with
              | Some (JStr s) => Nat.ltb 0 (String.length (strip s)) && Nat.leb (String.length (strip s)) 80
              | _ => false end) (PlaybookError "name" (ATextOf 80)) (Ok tt);
  ensure (match default (JStr "") (assoc "description" doc) with
          | JStr s => Nat.leb (String.length s) 2000
          | _ => false end) (PlaybookError "description" (ATextOf 2000)) (Ok tt).

Definition first_bad_name (names : list string) : option string :=
  head (sort_by string_leb (filter (fun n => name_ok n = false) names)).

(** The start of a document, and the steps it goes through. *)
Definition validate_steps (doc : dict) : vres unit :=
  match assoc "steps" doc with
  | Some (JObj steps) =>
      ensure (Nat.leb 1 (length steps) && Nat.leb (length steps) MAX_STEPS) (PlaybookError "steps" NotANumberOfSteps)
      (match first_bad_name (the_keys steps) with
       | Some n => Err (PlaybookError "steps" (NotAName n))
       | None =>
           start ← one_of (default JNull (assoc "start" doc)) (the_keys steps) (PlaybookError "start" NoSuchStep);
           g ← graph_of steps (the_keys steps);
           acyclic g start
       end)
  | _ => Err (PlaybookError "steps" NotANumberOfSteps)
  end.

Section validate.
Context (canonical : json -> string).

Definition validate (document : json) : vres dict :=
  doc ← keys "playbook" document ["name"; "description"; "match"; "timeout_s"; "start"; "steps"]
          ["name"; "match"; "start"; "steps"];
  _ ← validate_head doc;
  _ ← validate_match (default JNull (assoc "match" doc));
  _ ← ensure (in_range (default (JInt 300) (assoc "timeout_s" doc)) TIMEOUT_RANGE.1 TIMEOUT_RANGE.2)
        (PlaybookError "timeout_s" NotATimeout) (Ok tt);
  _ ← validate_steps doc;
  ensure (Nat.leb (String.length (canonical (JObj doc))) MAX_DOCUMENT) (PlaybookError "playbook" TooLarge) (Ok doc).
End validate.

(** ** What a run asks of a playbook *)

(** A situation, as [noc_situation_facts] describes it. *)
Record Facts := MkFacts {
  vendors : list string; trap_oids : list string; severity : option string;
  ip : option string; vendor : option string; entity : option string }.

Fixpoint lstrip_dots (l : list ascii) : list ascii :=
  match l with a :: r => if Ascii.eqb a "." then lstrip_dots r else l | [] => [] end.
Definition lstrip_dot (s : string) : string := unchars (lstrip_dots (chars s)).

Definition strings_at (d : dict) (k : string) : list string :=
  match assoc k d with
  | Some (JList l) => omap (fun v => match v with JStr s => Some s | _ => None end) l
  | _ => []
  end.

Definition obj_at (d : dict) (k : string) : dict := match assoc k d with Some (JObj m) => m | _ => [] end.

Definition matches (document : dict) (facts : Facts) : bool :=
  let m := obj_at document "match" in
  let wanted := map lower (strings_at m "vendors") in
  let prefixes := map lstrip_dot (strings_at m "trap_oids") in
  let oids := map lstrip_dot (trap_oids facts) in
  let levels := strings_at m "severities" in
  (Nat.eqb (length wanted) 0 || existsb (fun v => in_list (lower v) wanted) (vendors facts))
  && (Nat.eqb (length prefixes) 0
      || existsb (fun o => existsb (fun p => String.eqb o p || String.prefix (p +:+ ".") o) prefixes) oids)
  && (Nat.eqb (length levels) 0
      || match severity facts with Some s => in_list s levels | None => false end).

(** What these raise: a [CommandError], with its sentence; another exception of Python's. *)
Inductive slot_error := NoPlainValue (slot : string) | OutgrewField (name : string) | Refusal (e : command_error)
| OidCount | BadOid (text : string).
Inductive run_error := CommandErr (e : slot_error) | Raised (what : string).

(** [^[A-Za-z0-9./:_-]{1,64}$] with [re.match]. *)
Definition plain_char (a : ascii) : bool :=
  is_wordy a || existsb (fun k => PyLib.code a =? k) [46; 47; 58].
Definition plain (s : string) : bool :=
  let l := chomp (chars s) in
  negb (Nat.eqb (length l) 0) && Nat.leb (length l) 64 && forallb plain_char l.

Abbreviation slot_values := (list (string * option string)).

Definition substitute_one (values : slot_values) (out slot : string) : res run_error string :=
  if names_slot slot out then
    match assoc slot values with
    | Some (Some v) => ensure (plain v) (CommandErr (NoPlainValue slot)) (Ok (replace slot v out))
    | _ => Err (CommandErr (NoPlainValue slot))
    end
  else Ok out.

(** The loop over the slots; a template that is no text has no [in]. *)
Definition substitute (template : json) (values : slot_values) : res run_error string :=
  match template with
  | JStr s => out ← substitute_one values s "ip"; substitute_one values out "entity"
  | _ => Err (Raised "TypeError")
  end.

(** [out[key] = substitute(out[key])] for a key that may be absent. *)
Definition fill_at (k : string) (values : slot_values) (leaf : dict) : res run_error dict :=
  match assoc k leaf with
  | Some v => s ← substitute v values; Ok (dict_set k (JStr s) leaf)
  | None => Ok leaf
  end.

Fixpoint fill_update (u : dict) (values : slot_values) : res run_error dict :=
  match u with
  | [] => Ok []
  | (k, v) :: u => s ← substitute v values; rest ← fill_update u values; Ok ((k, JStr s) :: rest)
  end.

(** A field the limits do not name has none: a [KeyError]. *)
Fixpoint update_fits (u : dict) : res run_error unit :=
  match u with
  | [] => Ok tt
  | (k, v) :: u =>
      match assoc k FIELD_LIMITS with
      | None => Err (Raised "KeyError")
      | Some (_, most) =>
          ensure (Nat.leb (String.length (text_at [(k, v)] k)) most) (CommandErr (OutgrewField k)) (update_fits u)
      end
  end.

Definition fill (leaf : dict) (values : slot_values) : res run_error dict :=
  out ← fill_at "solution" values leaf;
  out ← fill_at "note" values out;
  out ← (match assoc "update" out with
         | Some (JObj u) =>
             u ← fill_update u values;
             _ ← update_fits u;
             Ok (dict_set "update" (JObj u) out)
         | Some _ => Err (Raised "AttributeError")
         | None => Ok out
         end);
  ensure (Nat.leb (String.length (text_at out "solution")) (field_limit "solution"))
    (CommandErr (OutgrewField "solution")) (Ok out).

(** ** [test]: one [if] *)

(** [_NUMBER.search]: an optional sign, digits, and digits after a point. *)
Fixpoint span_digits (l : list ascii) : list ascii * list ascii :=
  match l with
  | a :: r => if is_decimal a then let '(d, rest) := span_digits r in (a :: d, rest) else ([], l)
  | [] => ([], [])
  end.

Definition number_at (l : list ascii) : option (list ascii) :=
  let '(sign, r) :=
    match l with a :: r => if (PyLib.code a =? 43) || (PyLib.code a =? 45) then ([a], r) else ([], l) | [] => ([], []) end in
  match span_digits r with
  | ([], _) => None
  | (d, rest) =>
      match rest with
      | a :: rest' =>
          if PyLib.code a =? 46 then
            match span_digits rest' with
            | ([], _) => Some (sign ++ d)
            | (f, _) => Some (sign ++ d ++ a :: f)
            end
          else Some (sign ++ d)
      | [] => Some (sign ++ d)
      end
  end.

Fixpoint find_number (l : list ascii) : option (list ascii) :=
  match number_at l with
  | Some n => Some n
  | None => match l with [] => None | _ :: l => find_number l end
  end.

(** A float against an int is compared exactly: [m * 2^e] with [z]. *)
Definition cmp_int (f : float) (z : Z) : option comparison :=
  match f with
  | SpecFloat.S754_zero _ => Some (0 ?= z)
  | SpecFloat.S754_infinity s => Some (if s then Lt else Gt)
  | SpecFloat.S754_nan => None
  | SpecFloat.S754_finite s m e =>
      let v := if s then - Zpos m else Zpos m in
      Some (if 0 <=? e then v * 2 ^ e ?= z else v ?= z * 2 ^ (- e))
  end.

Definition compare_number (f : float) (v : json) : res run_error (option comparison) :=
  match v with
  | JInt z => Ok (cmp_int f z)
  | JBool b => Ok (cmp_int f (if b then 1 else 0))
  | JFloat g => Ok (SpecFloat.SFcompare f g)
  | _ => Err (Raised "TypeError")
  end.

(** [cond["ok"] != ok]. *)
Definition equals_bool (v : json) (b : bool) : bool :=
  match v with
  | JBool b' => Bool.eqb b' b
  | JInt z => z =? (if b then 1 else 0)
  | JFloat f => feqb f (f_of_Z (if b then 1 else 0))
  | _ => false
  end.

(** The checks in turn: the first that fails answers False, the rest is not asked. *)
Definition and_then (check : res run_error bool) (rest : res run_error bool) : res run_error bool :=
  b ← check; if (b : bool) then rest else Ok false.

Definition key_check (k : string) (cond : dict) (check : json -> res run_error bool) : res run_error bool :=
  match assoc k cond with Some v => check v | None => Ok true end.

Section test.
Context (py_float : string -> float).

Definition phrase (v : json) (values : slot_values) : res run_error string := lower <$> substitute v values.

Definition number_check (cond : dict) (text : string) (values : slot_values) (v : json) : res run_error bool :=
  label ← phrase v values;
  match find_from (chars label) (chars text) with
  | None => Ok false
  | Some rest =>
      match find_number (drop (String.length label) rest) with
      | None => Ok false
      | Some n =>
          let number := py_float (unchars n) in
          and_then (key_check "above" cond (fun w => c ← compare_number number w; Ok (bool_decide (c = Some Gt))))
                   (key_check "below" cond (fun w => c ← compare_number number w; Ok (bool_decide (c = Some Lt))))
      end
  end.

Definition test (cond : dict) (ok : bool) (output : string) (vend : option string) (values : slot_values)
    : res run_error bool :=
  let text := lower output in
  and_then (key_check "ok" cond (fun v => Ok (equals_bool v ok)))
  (and_then (key_check "contains" cond (fun v => p ← phrase v values; Ok (contains p text)))
  (and_then (key_check "not_contains" cond (fun v => p ← phrase v values; Ok (negb (contains p text))))
  (and_then (key_check "vendor" cond (fun v =>
      match v with
      | JStr s => Ok (String.eqb (lower (default "" vend)) (lower s))
      | _ => Err (Raised "AttributeError")
      end))
  (key_check "number_after" cond (number_check cond text values))))).
End test.

(** ** What a document that was accepted is made of *)

Lemma head_sorted_None {A} (le : A -> A -> bool) (l : list A) : head (sort_by le l) = None -> l = [].
Proof.
  intros H. apply Permutation_nil. rewrite <- (sort_by_perm le l). destruct (sort_by le l); [done|discriminate].
Qed.

Lemma keys_Ok where_ v allowed required d :
  keys where_ v allowed required = Ok d ->
  v = JObj d ∧ (∀ k, k ∈ the_keys d -> k ∈ allowed) ∧ (∀ k, k ∈ required -> k ∈ the_keys d).
Proof.
  unfold keys. destruct v as [| | | | | |m]; try done.
  destruct (extra_key m allowed) eqn:Ee; [done|]. destruct (missing_key m required) eqn:Em; [done|].
  intros [= <-]. apply head_sorted_None in Ee, Em. repeat split.
  - intros k Hk. destruct (decide (k ∈ allowed)); [done|]. exfalso.
    assert (Hf : k ∈ filter (fun k => k ∉ allowed) (the_keys m)) by (by apply list_elem_of_filter).
    rewrite Ee in Hf. by apply not_elem_of_nil in Hf.
  - intros k Hk. destruct (decide (k ∈ the_keys m)); [done|]. exfalso.
    assert (Hf : k ∈ filter (fun k => k ∉ the_keys m) required) by (by apply list_elem_of_filter).
    rewrite Em in Hf. by apply not_elem_of_nil in Hf.
Qed.

Lemma key_given (d : dict) k : k ∈ the_keys d ↔ is_Some (assoc k d).
Proof.
  destruct (assoc k d) as [v|] eqn:E.
  - split; [eauto|]. intros _. apply assoc_Some in E. apply list_elem_of_fmap. by exists (k, v).
  - apply assoc_None in E. split; [done|]. intros [v Hv]. discriminate.
Qed.

Lemma each_Ok {A} (check : A -> vres unit) l u : each check l = Ok u -> ∀ x, x ∈ l -> check x = Ok tt.
Proof.
  induction l as [|y l IH]; simpl; intros H x Hx; [by apply not_elem_of_nil in Hx|].
  apply bind_Ok_inv in H as ([] & Hy & H). apply elem_of_cons in Hx as [->|Hx]; auto.
Qed.

Lemma if_given_Ok k d check u v : if_given k d check = Ok u -> assoc k d = Some v -> check v = Ok tt.
Proof. unfold if_given. intros H Hv. rewrite Hv in H. by destruct u. Qed.

Lemma one_of_Ok v names e s : one_of v names e = Ok s -> v = JStr s ∧ s ∈ names.
Proof.
  destruct v; simpl; try done. destruct (in_list s0 names) eqn:E; [|done].
  intros [= <-]. split; [done|]. by apply bool_decide_eq_true in E.
Qed.

Lemma short_text_Some n v s : short_text n v = Some s -> v = JStr s.
Proof. destruct v; simpl; try done. case_match; [|done]. by intros [= <-]. Qed.

Lemma at_most_Some n v s : at_most n v = Some s -> v = JStr s.
Proof. destruct v; simpl; try done. case_match; [|done]. by intros [= <-]. Qed.

(** What the tests of a branch need of its condition. *)
Definition is_text (v : json) : Prop := ∃ s, v = JStr s.
Record condition_typed (c : dict) : Prop := {
  ct_text k v : k ∈ ["contains"; "not_contains"; "number_after"; "vendor"] -> assoc k c = Some v -> is_text v;
  ct_number k v : k ∈ ["above"; "below"] -> assoc k c = Some v -> is_number v = true }.

Lemma condition_Ok where_ cond u : condition where_ cond = Ok u -> ∃ c, cond = JObj c ∧ condition_typed c.
Proof.
  unfold condition. intros H. apply bind_Ok_inv in H as (c & Hk & H). apply keys_Ok in Hk as (-> & _).
  apply bind_Ok_inv in H as ([] & _ & H). apply bind_Ok_inv in H as ([] & Ht & H).
  apply bind_Ok_inv in H as ([] & _ & H). apply bind_Ok_inv in H as ([] & Hn & _).
  exists c. split; [done|]. split; intros k v Hin Hv.
  - apply (each_Ok _ _ _ Ht) in Hin. apply (if_given_Ok _ _ _ _ _ Hin) in Hv.
    destruct (short_text 200 v) as [s|] eqn:E; [|done]. apply short_text_Some in E. by exists s.
  - apply (each_Ok _ _ _ Hn) in Hin. apply (if_given_Ok _ _ _ _ _ Hin) in Hv.
    by apply ensure_Ok_inv in Hv as [? _].
Qed.

(** *** A run raises nothing but a [CommandError] *)

Definition fine {A} (r : res run_error A) : Prop := ∀ what, r ≠ Err (Raised what).

Lemma fine_Ok {A} (a : A) : fine (Ok a).
Proof. by intros ?. Qed.
Lemma fine_bind {A B} (r : res run_error A) (f : A -> res run_error B) :
  fine r -> (∀ a, r = Ok a -> fine (f a)) -> fine (r ≫= f).
Proof. intros Hr Hf. destruct r as [a|e]; simpl; [by apply Hf|]. intros what [= ->]. by apply (Hr what). Qed.
Lemma fine_ensure {A} (b : bool) e (k : res run_error A) : fine k -> fine (ensure b (CommandErr e) k).
Proof. by destruct b. Qed.
#[export] Hint Resolve fine_Ok fine_ensure : noc.

Lemma fine_and_then a b : fine a -> fine b -> fine (and_then a b).
Proof. intros Ha Hb. apply fine_bind; [done|]. intros [] _; auto with noc. Qed.

Lemma fine_key_check k c check : (∀ v, assoc k c = Some v -> fine (check v)) -> fine (key_check k c check).
Proof. intros H. unfold key_check. destruct (assoc k c); auto with noc. Qed.

Lemma fine_substitute_one values out slot : fine (substitute_one values out slot).
Proof.
  unfold substitute_one. destruct (names_slot slot out); [|done]. destruct (assoc slot values) as [[v|]|]; [|done..].
  auto with noc.
Qed.

Lemma fine_substitute v values : is_text v -> fine (substitute v values).
Proof. intros [s ->]. simpl. apply fine_bind; [apply fine_substitute_one|]. intros. apply fine_substitute_one. Qed.

Lemma fine_phrase v values : is_text v -> fine (phrase v values).
Proof.
  intros H. unfold phrase. pose proof (fine_substitute v values H) as Hf.
  destruct (substitute v values); [done|]. intros what [= ->]. by apply (Hf what).
Qed.

Lemma fine_test py_float c b out vend values : condition_typed c -> fine (test py_float c b out vend values).
Proof.
  intros [Ht Hn]. unfold test.
  assert (Htext : ∀ k v, k ∈ ["contains"; "not_contains"; "number_after"; "vendor"] ->
    assoc k c = Some v -> fine (phrase v values)) by (intros; eapply fine_phrase, Ht; eauto).
  repeat apply fine_and_then; apply fine_key_check; intros v Hv.
  - done.
  - apply fine_bind; [|by intros]. eapply Htext; [|exact Hv]; by_eval.
  - apply fine_bind; [|by intros]. eapply Htext; [|exact Hv]; by_eval.
  - destruct (Ht "vendor" v) as [s ->]; [by_eval|done|done].
  - unfold number_check. apply fine_bind; [eapply Htext; [|exact Hv]; by_eval|]. intros label _.
    destruct (find_from _ _); [|done]. destruct (find_number _); [|done].
    apply fine_and_then; apply fine_key_check; intros x Hx;
      (assert (Hnum : is_number x = true) by (eapply Hn; [|exact Hx]; by_eval); by destruct x).
Qed.

(** A leaf's texts are texts, and its update's names are the case's. *)
Record leaf_typed (d : dict) : Prop := {
  lt_text k v : k ∈ ["note"; "solution"] -> assoc k d = Some v -> is_text v;
  lt_update v : assoc "update" d = Some v ->
    ∃ u, v = JObj u ∧ ∀ e, e ∈ u -> is_text e.2 ∧ e.1 ∈ TEXT_FIELDS }.

Lemma end_Ok where_ d ts : end_ where_ (JObj d) d = Ok ts -> leaf_typed d.
Proof.
  unfold end_. intros H. apply bind_Ok_inv in H as ([] & He & H). apply bind_Ok_inv in H as ([] & Ht & _).
  split.
  - intros k v Hin Hv. apply (each_Ok _ _ _ Ht) in Hin. apply (if_given_Ok _ _ _ _ _ Hin) in Hv.
    destruct (at_most 2000 v) as [s|] eqn:E; [|done]. apply at_most_Some in E. by exists s.
  - intros v Hv. assert (Hu : "update" ∈ the_keys d) by (apply key_given; eauto).
    assert (Hno : ∀ w allowed required d', keys w (JObj d) allowed required = Ok d' -> "update" ∉ allowed -> False).
    { intros w al re d' Hk Hn. apply keys_Ok in Hk as ([= ->] & Hk & _). by apply Hn, Hk. }
    assert (Hkind : end_pending where_ (JObj d) = Ok tt).
    { destruct (assoc "end" d) as [[| | | |s| |]|]; try done.
      destruct (String.eqb s "resolve"); [exfalso|destruct (String.eqb s "pending"); [done|exfalso]].
      - apply bind_Ok_inv in He as (d' & Hk & _). eapply Hno; [exact Hk|by_eval].
      - destruct (String.eqb s "queue"); [|done].
        apply bind_Ok_inv in He as (d' & Hk & _). eapply Hno; [exact Hk|by_eval]. }
    unfold end_pending in Hkind. apply bind_Ok_inv in Hkind as (d' & Hk & H).
    apply keys_Ok in Hk as ([= ->] & _). apply bind_Ok_inv in H as (st & _ & H).
    apply bind_Ok_inv in H as ([] & _ & H). apply bind_Ok_inv in H as (u & Hk & H).
    rewrite Hv in Hk. simpl in Hk. apply keys_Ok in Hk as (-> & Hal & _). exists u. split; [done|].
    intros e He'. split.
    + apply (each_Ok _ _ _ H) in He'. destruct (at_most _ e.2) as [s|] eqn:E; [|done].
      apply at_most_Some in E. by exists s.
    + assert (Hin : e.1 ∈ the_keys u) by (apply list_elem_of_fmap; eauto). apply Hal in Hin.
      by apply list_elem_of_filter in Hin as [_ ?].
Qed.

Lemma fine_fill_at k values leaf :
  (∀ v, assoc k leaf = Some v -> is_text v) -> fine (fill_at k values leaf).
Proof.
  intros H. unfold fill_at. destruct (assoc k leaf) as [v|]; [|done].
  apply fine_bind; [by apply fine_substitute, H|done].
Qed.

Lemma fill_at_other k k' values leaf leaf' :
  fill_at k values leaf = Ok leaf' -> k' ≠ k -> assoc k' leaf' = assoc k' leaf.
Proof.
  unfold fill_at. destruct (assoc k leaf) as [v|]; [|by intros [= ->]].
  intros H Hk. apply bind_Ok_inv in H as (s & _ & [= <-]). rewrite assoc_dict_set. by case_decide.
Qed.

Lemma fine_fill_update u values : (∀ e, e ∈ u -> is_text e.2) -> fine (fill_update u values).
Proof.
  induction u as [|[k v] u IH]; intros H; simpl; [done|].
  apply fine_bind; [apply fine_substitute, (H (k, v)), list_elem_of_here|]. intros s _.
  apply fine_bind; [apply IH; intros; apply H; by right|done].
Qed.

Lemma fill_update_names u values u' : fill_update u values = Ok u' -> u'.*1 = u.*1.
Proof.
  revert u'. induction u as [|[k v] u IH]; simpl; intros u' H; [by injection H as <-|].
  apply bind_Ok_inv in H as (s & _ & H). apply bind_Ok_inv in H as (r & Hr & [= <-]). rewrite !fmap_cons. f_equal. by apply IH.
Qed.

Lemma fine_update_fits u : (∀ k, k ∈ u.*1 -> k ∈ TEXT_FIELDS) -> fine (update_fits u).
Proof.
  induction u as [|[k v] u IH]; intros H; cbn [update_fits]; [done|].
  assert (Hk : k ∈ FIELD_LIMITS.*1) by (apply H; by left).
  destruct (assoc k FIELD_LIMITS) as [[? ?]|] eqn:E.
  - apply fine_ensure, IH. intros. apply H. by right.
  - by apply assoc_None in E.
Qed.

Lemma fine_fill leaf values : leaf_typed leaf -> fine (fill leaf values).
Proof.
  intros [Ht Hu]. unfold fill.
  apply fine_bind; [apply fine_fill_at; intros v; apply Ht; by_eval|]. intros l1 H1.
  apply fine_bind.
  { apply fine_fill_at. intros v. rewrite (fill_at_other _ "note" _ _ _ H1) by done. apply Ht; by_eval. }
  intros l2 H2. apply fine_bind; [|intros; auto with noc].
  assert (Hup : assoc "update" l2 = assoc "update" leaf).
  { rewrite (fill_at_other _ "update" _ _ _ H2), (fill_at_other _ "update" _ _ _ H1); done. }
  rewrite Hup. destruct (assoc "update" leaf) as [v|] eqn:Ev; [|done].
  destruct (Hu v eq_refl) as (u & -> & Hall).
  apply fine_bind; [apply fine_fill_update; intros; by apply Hall|]. intros u' Hu'.
  apply fine_bind; [|done]. apply fine_update_fits. intros k Hk.
  rewrite (fill_update_names _ _ _ Hu') in Hk. apply list_elem_of_fmap in Hk as (e & -> & He). by apply Hall.
Qed.

(** *** A step's branches lead to steps, and one of them is taken *)

Lemma branches_Ok where_ names bs i ts :
  branches where_ names bs i = Ok ts -> ∀ t, t ∈ ts -> t ∈ names.
Proof.
  revert i ts. induction bs as [|b bs IH]; cbn [branches]; intros i ts H t Ht.
  - injection H as <-. by apply not_elem_of_nil in Ht.
  - apply bind_Ok_inv in H as (d & _ & H). apply bind_Ok_inv in H as (? & _ & H).
    apply bind_Ok_inv in H as (go & Hg & H). apply bind_Ok_inv in H as (rest & Hr & [= <-]).
    apply one_of_Ok in Hg as [_ Hg]. apply elem_of_cons in Ht as [->|Ht]; eauto.
Qed.

(** A step that does not end, as [step_of] accepted it. *)
Record step_typed (step : dict) (names ts : list string) : Prop := {
  st_do v : assoc "do" step = Some v -> ∃ name args, v = JObj [(name, args)] ∧ ∃ where_, action where_ name args = Ok tt;
  st_next : ∃ bs where_ i, assoc "next" step = Some (JList bs) ∧ branches where_ names bs i = Ok ts
    ∧ bs ≠ [] ∧ has_if (default JNull (last bs)) = false }.

Lemma step_Ok name step names ts :
  step_of name step names = Ok ts ->
  ∃ d, step = JObj d ∧
    (if bool_decide (is_Some (assoc "end" d)) then leaf_typed d ∧ ts = [] else step_typed d names ts).
Proof.
  unfold step_of. destruct step as [| | | | | |d]; try done. intros H. exists d. split; [done|].
  destruct (bool_decide (is_Some (assoc "end" d))).
  - split; [by eapply end_Ok|]. unfold end_ in H.
    apply bind_Ok_inv in H as ([] & _ & H). by apply bind_Ok_inv in H as ([] & _ & [= <-]).
  - apply bind_Ok_inv in H as (d' & _ & H). apply bind_Ok_inv in H as ([] & Hdo & H). split.
    + intros v Hv. apply (if_given_Ok _ _ _ _ _ Hdo) in Hv. unfold do_action in Hv.
      apply bind_Ok_inv in Hv as (m & Hk & Ha). apply keys_Ok in Hk as (-> & _).
      destruct m as [|[n a] [|]]; try done. eauto.
    + destruct (assoc "next" d) as [[| | | | |bs|]|]; try done. apply ensure_Ok_inv in H as [Hlen H].
      apply bind_Ok_inv in H as (ts' & Hb & H). apply ensure_Ok_inv in H as [Hl [= ->]].
      exists bs, ("steps." +:+ name), 0%nat. repeat split; try done.
      * intros ->. done.
      * by apply negb_true_iff in Hl.
Qed.

Lemma graph_of_Ok steps names g :
  graph_of steps names = Ok g ->
  g.*1 = steps.*1 ∧
  (∀ n, match assoc n steps, assoc n g with
        | Some s, Some ts => step_of n s names = Ok ts
        | None, None => True
        | _, _ => False end).
Proof.
  revert g. induction steps as [|[n s] steps IH]; cbn [graph_of]; intros g H; [by injection H as <-|].
  apply bind_Ok_inv in H as (ts & Hs & H). apply bind_Ok_inv in H as (r & Hr & [= <-]).
  destruct (IH r Hr) as [Hd Ha]. split; [rewrite !fmap_cons; by f_equal|].
  intros m. simpl. destruct (decide (m = n)) as [->|]; [done|apply Ha].
Qed.

(** ** [_acyclic] *)

Section acyclic.
Context (g : graph).

(** Steps all of whose targets were visited before them: a later step of the list is deeper. *)
Inductive finished : list string -> Prop :=
| finished_nil : finished []
| finished_cons n ts l :
    assoc n g = Some ts -> (∀ t, t ∈ ts -> t ∈ l) -> n ∉ l -> finished l -> finished (n :: l).

Lemma finished_keys l : finished l -> NoDup l ∧ ∀ n, n ∈ l -> n ∈ g.*1.
Proof.
  induction 1 as [|n ts l Hn Hts Hni Hl [IH1 IH2]]; [split; [constructor|set_solver]|].
  split; [by constructor|]. intros m [->|Hm]%elem_of_cons; [|auto].
  apply assoc_Some in Hn. apply list_elem_of_fmap. by exists (n, ts).
Qed.

Lemma finished_length l : finished l -> (length l <= length g)%nat.
Proof.
  intros H. apply finished_keys in H as [Hd Hk]. rewrite <- (length_fmap fst g).
  by apply submseteq_length, NoDup_submseteq.
Qed.

(** What a visit keeps: the finished steps grow, the steps being visited stay so. *)
Definition visits (v : marks -> string -> vres marks) : Prop :=
  ∀ st n st' l, v st n = Ok st' -> finished l -> (∀ m, st !! m = Some 2 ↔ m ∈ l) ->
    ∃ l', finished l' ∧ (∀ m, st' !! m = Some 2 ↔ m ∈ l') ∧ n ∈ l' ∧ (∀ m, m ∈ l -> m ∈ l')
      ∧ ∀ m, st !! m = Some 1 -> st' !! m = Some 1.

Lemma visit_each_visits v ts st st' l :
  visits v -> visit_each v st ts = Ok st' -> finished l -> (∀ m, st !! m = Some 2 ↔ m ∈ l) ->
  ∃ l', finished l' ∧ (∀ m, st' !! m = Some 2 ↔ m ∈ l') ∧ (∀ t, t ∈ ts -> t ∈ l') ∧ (∀ m, m ∈ l -> m ∈ l')
    ∧ ∀ m, st !! m = Some 1 -> st' !! m = Some 1.
Proof.
  intros Hv. revert st l. induction ts as [|t ts IH]; cbn [visit_each]; intros st l H Hl Hst.
  - injection H as <-. exists l. split_and!; [done|done|set_solver|done|done].
  - apply bind_Ok_inv in H as (st1 & H1 & H).
    destruct (Hv _ _ _ _ H1 Hl Hst) as (l1 & Hl1 & Hst1 & Ht & Hsub & Hone).
    destruct (IH _ _ H Hl1 Hst1) as (l2 & Hl2 & Hst2 & Hts & Hsub2 & Hone2). exists l2.
    split_and!; [done|done| |auto|auto]. intros x [->|Hx]%elem_of_cons; auto.
Qed.

Lemma visit_visits fuel : visits (visit g fuel).
Proof.
  induction fuel as [|fuel IH]; intros st n st' l; cbn [visit]; [done|]. intros H Hl Hst.
  case_bool_decide as H1; [done|]. case_bool_decide as H2.
  { injection H as <-. exists l. split_and!; [done|done|by apply Hst|done|done]. }
  destruct (assoc n g) as [ts|] eqn:En; [|done].
  apply bind_Ok_inv in H as (st2 & Hv & [= <-]).
  assert (Hst1 : ∀ m, <[n:=1]> st !! m = Some 2 ↔ m ∈ l).
  { intros m. rewrite lookup_insert. case_decide as Em; [|apply Hst]. subst m.
    split; [done|]. intros Hm. by apply Hst in Hm. }
  destruct (visit_each_visits _ _ _ _ _ IH Hv Hl Hst1) as (l2 & Hl2 & Hst2 & Hts & Hsub & Hone).
  assert (Hn1 : st2 !! n = Some 1) by (apply Hone, lookup_insert_eq).
  assert (Hni : n ∉ l2) by (intros Hin; apply Hst2 in Hin; congruence).
  exists (n :: l2). split_and!.
  - by apply (finished_cons n ts).
  - intros m. rewrite lookup_insert, elem_of_cons. case_decide as Em; [subst m; by split; [left|]|].
    rewrite Hst2. split; [by right|intros [->|]; done].
  - by left.
  - intros m Hm. right. auto.
  - intros m Hm. assert (m ≠ n) by (intros ->; congruence).
    rewrite lookup_insert_ne by done. apply Hone. by rewrite lookup_insert_ne.
Qed.

(** *** The recursion's fuel is enough *)

Context (Hclosed : ∀ n ts, assoc n g = Some ts -> ∀ t, t ∈ ts -> t ∈ g.*1).

Definition unmarked (st : marks) : nat := length (filter (fun n => st !! n = None) g.*1).
Definition grows (st st' : marks) : Prop := ∀ m, is_Some (st !! m) -> is_Some (st' !! m).
Definition two_marks (st : marks) : Prop := ∀ m z, st !! m = Some z -> z = 1 ∨ z = 2.

Lemma filter_shrinks {A} (P Q : A -> Prop) `{∀ x, Decision (P x)} `{∀ x, Decision (Q x)} l :
  (∀ x, Q x -> P x) -> (length (filter Q l) <= length (filter P l))%nat.
Proof.
  intros HQ. induction l as [|x l IH]; [done|]. rewrite !filter_cons.
  destruct (decide (Q x)) as [Hx|]; [rewrite decide_True by auto; simpl; lia|]. case_decide; simpl; lia.
Qed.

Lemma filter_loses {A} (P Q : A -> Prop) `{∀ x, Decision (P x)} `{∀ x, Decision (Q x)} l x :
  (∀ x, Q x -> P x) -> x ∈ l -> P x -> ¬ Q x -> (length (filter Q l) < length (filter P l))%nat.
Proof.
  intros HQ Hx Hp Hq. induction l as [|y l IH]; [by apply not_elem_of_nil in Hx|]. rewrite !filter_cons.
  apply elem_of_cons in Hx as [->|Hx].
  - rewrite decide_False, decide_True by done. pose proof (filter_shrinks P Q l HQ). simpl. lia.
  - specialize (IH Hx). destruct (decide (Q y)) as [Hy|]; [rewrite decide_True by auto; simpl; lia|].
    case_decide; simpl; lia.
Qed.

Lemma grows_unmarked st st' : grows st st' -> (unmarked st' <= unmarked st)%nat.
Proof.
  intros H. apply filter_shrinks. intros m Hm. destruct (st !! m) eqn:E; [|done].
  destruct (H m); [eauto|congruence].
Qed.

(** A visit ends, or refuses the document: it is never out of fuel, and every step is in the graph. *)
Definition visit_ends (r : vres marks) (st : marks) : Prop :=
  match r with
  | Ok st' => grows st st' ∧ two_marks st'
  | Err (PlaybookError _ _) => True
  | Err _ => False
  end.

Lemma visit_each_ends v fuel ts st :
  (∀ st n, (unmarked st < fuel)%nat -> two_marks st -> n ∈ g.*1 -> visit_ends (v st n) st) ->
  (unmarked st < fuel)%nat -> two_marks st -> (∀ t, t ∈ ts -> t ∈ g.*1) -> visit_ends (visit_each v st ts) st.
Proof.
  intros Hv. revert st. induction ts as [|t ts IH]; cbn [visit_each]; intros st Hf H2 Hts; [by split; [intros ?|]|].
  pose proof (Hv st t Hf H2 (Hts t (list_elem_of_here _ _))) as H1.
  destruct (v st t) as [st1|[]]; try done. simpl in *. destruct H1 as [Hg H2'].
  specialize (IH st1). pose proof (grows_unmarked _ _ Hg).
  assert (Hr : visit_ends (visit_each v st1 ts) st1) by (apply IH; [lia|done|intros; apply Hts; by right]).
  destruct (visit_each v st1 ts) as [st2|[]]; try done. destruct Hr as [Hg2 ?]. split; [|done].
  intros m Hm. auto.
Qed.

Lemma visit_terminates fuel st n :
  (unmarked st < fuel)%nat -> two_marks st -> n ∈ g.*1 -> visit_ends (visit g fuel st n) st.
Proof using Hclosed.
  revert st n. induction fuel as [|fuel IH]; [lia|]. intros st n Hf H2 Hn. cbn [visit].
  case_bool_decide as E1; [done|]. case_bool_decide as E2; [by split; [intros ?|]|].
  assert (En : st !! n = None).
  { destruct (st !! n) as [z|] eqn:E; [|done]. destruct (H2 n z E) as [->| ->]; done. }
  destruct (assoc n g) as [ts|] eqn:Ets; [|by apply assoc_None in Ets].
  assert (Hins : ∀ z, grows st (<[n:=z]> st)).
  { intros z m Hm. rewrite lookup_insert. by case_decide. }
  assert (Hlt : (unmarked (<[n:=1%Z]> st) < unmarked st)%nat).
  { apply (filter_loses _ _ _ n); [|done|done|by rewrite lookup_insert_eq].
    intros m. rewrite lookup_insert. by case_decide. }
  assert (Hr : visit_ends (visit_each (visit g fuel) (<[n:=1]> st) ts) (<[n:=1]> st)).
  { apply (visit_each_ends _ fuel); [exact IH|lia| |by eapply Hclosed].
    intros m z. rewrite lookup_insert. case_decide; [intros [= <-]; by left|apply H2]. }
  destruct (visit_each _ _ ts) as [st2|[]]; try done. destruct Hr as [Hg Hm2]. simpl. split.
  - intros m Hm. rewrite lookup_insert. case_decide; [done|]. apply Hg, Hins, Hm.
  - intros m z. rewrite lookup_insert. case_decide; [intros [= <-]; by right|apply Hm2].
Qed.

Lemma acyclic_ends start : start ∈ g.*1 ->
  match acyclic g start with Ok _ | Err (PlaybookError _ _) => True | Err _ => False end.
Proof using Hclosed.
  intros Hs. unfold acyclic.
  assert (Hu : (unmarked ∅ < S (length g))%nat).
  { apply Nat.lt_succ_r. unfold unmarked. etrans; [apply length_filter|]. by rewrite length_fmap. }
  pose proof (visit_terminates _ ∅ start Hu ltac:(intros ?; by rewrite lookup_empty) Hs) as H.
  destruct (visit _ _ _ _) as [st|[]]; try done. simpl. by destruct (head _).
Qed.
End acyclic.

Lemma acyclic_Ok g start u : acyclic g start = Ok u -> ∃ l, finished g l ∧ start ∈ l.
Proof.
  unfold acyclic. intros H. apply bind_Ok_inv in H as (st & Hv & _).
  destruct (visit_visits g _ _ _ _ [] Hv (finished_nil g)) as (l & Hl & _ & Hs & _).
  - intros m. rewrite lookup_empty. split; [done|by intros ?%not_elem_of_nil].
  - by exists l.
Qed.

(** *** [validate] raises what it means to, or the [TypeError] of an unhashable value *)

Definition proper {A} (r : vres A) : Prop :=
  match r with Ok _ | Err (PlaybookError _ _) | Err TypeError => True | Err _ => False end.

Lemma proper_bind {A B} (r : vres A) (f : A -> vres B) :
  proper r -> (∀ a, r = Ok a -> proper (f a)) -> proper (r ≫= f).
Proof. intros Hr Hf. destruct r as [a|[]]; simpl in *; auto. Qed.
Lemma proper_ensure {A} b where_ why (k : vres A) : proper k -> proper (ensure b (PlaybookError where_ why) k).
Proof. by destruct b. Qed.
Lemma proper_each {A} (check : A -> vres unit) l : (∀ x, proper (check x)) -> proper (each check l).
Proof. intros H. induction l; cbn [each]; [done|]. by apply proper_bind. Qed.
Lemma proper_if_given k d check : (∀ v, proper (check v)) -> proper (if_given k d check).
Proof. intros H. unfold if_given. by destruct (assoc k d). Qed.
Lemma proper_keys where_ v allowed required : proper (keys where_ v allowed required).
Proof. unfold keys. destruct v; try done. by repeat case_match. Qed.
Lemma proper_strings where_ v most longest : proper (strings where_ v most longest).
Proof. unfold strings. destruct v; try done. apply proper_ensure. by destruct (mapM _ _). Qed.
Lemma proper_slots where_ text : proper (slots where_ text).
Proof. unfold slots. by apply proper_ensure. Qed.
Lemma proper_one_of v names where_ why : proper (one_of v names (PlaybookError where_ why)).
Proof. destruct v; simpl; try done. by destruct (in_list _ _). Qed.

Create HintDb proper.
#[local] Hint Resolve proper_keys proper_strings proper_slots proper_one_of proper_ensure : proper.
Ltac proper_step :=
  match goal with
  | |- proper (Ok _) => done
  | |- proper (Err _) => done
  | |- proper (_ ≫= _) => apply proper_bind; [|intros ? _]
  | |- proper (ensure _ _ _) => apply proper_ensure
  | |- proper (each _ _) => apply proper_each; intros ?
  | |- proper (if_given _ _ _) => apply proper_if_given; intros ?
  | |- proper (match ?x with _ => _ end) => destruct x
  end.
Ltac solve_proper_checks := repeat (eauto with proper; try proper_step).

Lemma proper_condition where_ v : proper (condition where_ v).
Proof. unfold condition. solve_proper_checks. Qed.
Lemma proper_command where_ v : proper (command where_ v).
Proof. unfold command. solve_proper_checks. Qed.
#[local] Hint Resolve proper_condition proper_command : proper.
Lemma proper_do_action where_ v : proper (do_action where_ v).
Proof. unfold do_action, action. solve_proper_checks. Qed.
Lemma proper_branches where_ names l i : proper (branches where_ names l i).
Proof. revert i. induction l as [|b l IH]; intros i; cbn [branches]; solve_proper_checks. Qed.
Lemma proper_end where_ step d : proper (end_ where_ step d).
Proof. unfold end_, end_texts, end_resolve, end_pending. solve_proper_checks. Qed.
#[local] Hint Resolve proper_do_action proper_branches proper_end : proper.
Lemma proper_step_of name step names : proper (step_of name step names).
Proof. unfold step_of. solve_proper_checks. Qed.
#[local] Hint Resolve proper_step_of : proper.
Lemma proper_graph_of steps names : proper (graph_of steps names).
Proof. induction steps as [|[n s] steps IH]; cbn [graph_of]; solve_proper_checks. Qed.
Lemma proper_validate_match v : proper (validate_match v).
Proof. unfold validate_match. solve_proper_checks. Qed.
#[local] Hint Resolve proper_graph_of proper_validate_match : proper.

(** The graph of accepted steps names only its own. *)
Lemma graph_closed steps g :
  graph_of steps (the_keys steps) = Ok g -> ∀ n ts, assoc n g = Some ts -> ∀ t, t ∈ ts -> t ∈ g.*1.
Proof.
  intros Hg n ts Hn t Ht. apply graph_of_Ok in Hg as [Hd Ha]. rewrite Hd. specialize (Ha n). rewrite Hn in Ha.
  destruct (assoc n steps) as [s|]; [|done]. apply step_Ok in Ha as (d & -> & Hs).
  case_bool_decide.
  - destruct Hs as [_ ->]. by apply not_elem_of_nil in Ht.
  - destruct Hs as [_ (bs & w & i & _ & Hb & _)]. by eapply branches_Ok.
Qed.

Lemma proper_validate_steps doc : proper (validate_steps doc).
Proof.
  unfold validate_steps. destruct (assoc "steps" doc) as [[| | | | | |steps]|]; try done.
  apply proper_ensure. destruct (first_bad_name _); [done|].
  apply proper_bind; [apply proper_one_of|]. intros start Hs. apply one_of_Ok in Hs as [_ Hs].
  apply proper_bind; [apply proper_graph_of|]. intros g Hg.
  pose proof (graph_closed _ _ Hg) as Hc. apply graph_of_Ok in Hg as [Hd _].
  pose proof (acyclic_ends g Hc start ltac:(by rewrite Hd)) as H. by destruct (acyclic g start) as [|[]].
Qed.

(** A document [validate] refuses is refused with the path of what is wrong; the only other way out
    is the [TypeError] of a list or an object where a name is looked up in a set. The recursion that
    looks for cycles ends, and never asks for a step the graph lacks. *)
Theorem validate_refuses_with_a_path canonical document e :
  validate canonical document = Err e -> (∃ where_ why, e = PlaybookError where_ why) ∨ e = TypeError.
Proof.
  assert (H : proper (validate canonical document)).
  { unfold validate, validate_head. repeat (eauto using proper_validate_steps with proper; try proper_step). }
  intros He. rewrite He in H. destruct e; try done; eauto.
Qed.

(** The document of the module's description, and one whose branch goes to a list. *)
Definition leaf_queue (note : string) : json := JObj [("end", JStr "queue"); ("note", JStr note)].
Definition branch (cond : dict) (go : string) : json :=
  JObj (match cond with [] => [] | _ => [("if", JObj cond)] end ++ [("go", JStr go)]).
Definition sample_steps : dict :=
  [("reach", JObj [("do", JObj [("reach", JObj [])]);
      ("next", JList [branch [("ok", JBool true)] "saos"; branch [] "down"])]);
   ("saos", JObj [("do", JObj [("snmp_get", JObj [("oids", JList [JStr "1.3.6.1.2.1.1.1.0"])])]);
      ("next", JList [branch [("contains", JStr "SAOS 10")] "alarms"; branch [] "noc"])]);
   ("alarms", JObj [("do", JObj [("ssh", JObj [("command", JStr "show alarm list port {entity}")])]);
      ("next", JList [branch [("contains", JStr "LOS")] "noc"; branch [] "clear"])]);
   ("clear", JObj [("end", JStr "resolve"); ("cause", JStr "cleared_before_isolation"); ("clear_alarms", JBool true);
      ("solution", JStr "Not active on the device; the clear trap never arrived.")]);
   ("down", JObj [("end", JStr "pending"); ("status", JStr "pending_connectivity"); ("next_update_in_s", JInt 1800);
      ("update", JObj [("title", JStr "{ip} is down")])]);
   ("noc", leaf_queue "Automated checks did not conclude.")].
Definition sample (start : string) (steps : dict) : dict :=
  [("name", JStr "SAOS"); ("match", JObj [("vendors", JList [JStr "ciena"])]); ("timeout_s", JInt 300);
   ("start", JStr start); ("steps", JObj steps)].
Definition sample_canonical (v : json) : string := dumps (fun _ => "0.0") v.

Example validate_accepts_the_sample :
  validate sample_canonical (JObj (sample "reach" sample_steps)) = Ok (sample "reach" sample_steps).
Proof. vm_compute. reflexivity. Qed.

Example validate_finds_a_cycle :
  validate sample_canonical (JObj (sample "a" [("a", JObj [("next", JList [branch [] "b"])]);
    ("b", JObj [("next", JList [branch [("ok", JBool true)] "c"; branch [] "a"])]); ("c", leaf_queue "")]))
  = Err (PlaybookError "steps.a" ACycle).
Proof. vm_compute. reflexivity. Qed.

Example a_name_may_end_in_a_newline : name_ok (String "a" (String (Ascii.ascii_of_nat 10) "")) = true.
Proof. vm_compute. reflexivity. Qed.

Lemma validate_refuses_with_a_path_witness :
  validate sample_canonical (JObj (sample "a"
    [("a", JObj [("next", JList [JObj [("go", JList [])]])])])) = Err TypeError
  ∧ ((∃ where_ why, TypeError = PlaybookError where_ why) ∨ TypeError = TypeError).
Proof.
  assert (H : validate sample_canonical (JObj (sample "a"
    [("a", JObj [("next", JList [JObj [("go", JList [])]])])])) = Err TypeError) by (vm_compute; reflexivity).
  split; [exact H|]. exact (validate_refuses_with_a_path _ _ _ H).
Defined.
