(* ===== verification/Runbook.v ===== *)
(** * Running a playbook on a case ([engine/noc/runbook.py], [engine/noc/executor.py])

    [walk] is [_walk] over [act], which is [_act] with the credential it opens and the line it sends.
    What devices answer, the clock and whether the case is still [auto] are arguments, asked once per
    step; a line is recorded in [sent] where the executor hands it to the connection. The leaf goes to
    [CaseDesk.run_case]. *)
From S2P Require Import Prelude PyLib Json Commands Cases CaseOps CaseDesk CaseView Playbook.

(** [executor.Outcome], the fields a run reads. *)
Record Outcome := MkOutcome {
  ok : bool; act_name : string; output : string; detail : string; duration_ms : float; host_key : option string }.

(** A row of the vault ([noc_secret]). *)
Record Secret := MkSecret {
  id : Z; secret_kind : string; access_level : string; host : string; port : Z; pinned : option string;
  agent_access : bool }.

Definition SSH : list string := ["ssh_password"; "ssh_key"].
Definition SNMP : list string := ["snmp_community"; "snmp_v3"].
Definition MAX_OIDS : nat := 20.
Definition FEED_EXCERPT : nat := 3000.

(** [CASE access_level WHEN ... ELSE 3 END], and the order of the query. *)
Definition rank (level : string) : Z := default 3 (assoc level [("view_only", 0); ("diagnostic", 1); ("operator", 2)]).
Definition floor (least : string) : Z := default 0 (assoc least Commands.RANK).
Definition secret_leb (a b : Secret) : bool :=
  (rank (access_level a) <? rank (access_level b))
  || ((rank (access_level a) =? rank (access_level b)) && (id a <=? id b)).

Definition noc_secret_for (secrets : list Secret) (host_ : string) (kinds : list string) (least : string) : option Secret :=
  head (sort_by secret_leb (filter (fun s =>
    host s = host_ ∧ agent_access s = true ∧ secret_kind s ∈ kinds ∧ floor least <= rank (access_level s)) secrets)).

Definition noc_set_host_key (secret_id : Z) (key : option string) (secrets : list Secret) : list Secret :=
  map (fun s => if id s =? secret_id
    then MkSecret (id s) (secret_kind s) (access_level s) (host s) (port s) key (agent_access s) else s) secrets.

(** What one action sends: a command line over SSH, or the OIDs of a GET. *)
Inductive Sent := SentLine (row : Secret) (line mode : string) | SentGet (row : Secret) (oids : list string).

(** What the devices of a run answer, by step, and what else the run asks the world. A call that raises
    gives the exception's class: opening a credential ([VaultError] of [secretbox.open]), and the executor
    (a key that cannot be imported, a field that is missing, an error of the SNMP library it does not catch). *)
Record World := MkWorld {
  opened : nat -> Secret -> res string unit;
  reached : nat -> string -> Z -> res string Outcome;
  answered : nat -> Sent -> res string Outcome;
  time_left : nat -> float;
  still_auto : nat -> bool;
  wall : nat -> float }.

(** [line.split()[0].lower()], where there is a word, and the level it needs. *)
Definition least_for (line : string) : option string :=
  (fun verb => default "view_only" (assoc (lower verb) READ_VERBS)) <$> head (words line).

(** [executor._oid], over [isdigit]. *)
Definition oid_text (s : string) : option string :=
  let oid := lstrip_dot (strip s) in
  let parts := PyLib.split "." oid in
  if Nat.leb 2 (length parts) && Nat.leb (length parts) (Z.to_nat 128)
     && forallb (fun p => all_digits p && Nat.leb (String.length p) 10) parts then Some oid else None.

Fixpoint oid_texts (l : list string) : res slot_error (list string) :=
  match l with
  | [] => Ok []
  | t :: l => match oid_text t with None => Err (BadOid t) | Some o => rest ← oid_texts l; Ok (o :: rest) end
  end.

(** The sentences of the errors. *)
Definition quoted_word (s : string) : string := "'" +:+ s +:+ "'".
Definition command_sentence (e : command_error) : string :=
  match e with
  | Empty => "command: empty"
  | TooLong => "command: at most 512 characters"
  | BadCharacter => "command: one line, with no ; | & > < ` \ $( or control character"
  | NotRead => "command: read-only — it must begin with one of "
      +:+ join ", " (sort_by string_leb (map fst READ_VERBS))
  | Writes word => "command: read-only — " +:+ quoted_word word +:+ " writes or escalates"
  | NeedsLevel verb least => "command: " +:+ quoted_word verb +:+ " needs the " +:+ least +:+ " access level or above"
  | RosBrackets => "command: RouterOS — no [ ] { }: they run a nested command"
  | RosNotRead => "command: RouterOS, read-only — a menu path then print, monitor … once, or ping"
  end.
Definition sentence (e : slot_error) : string :=
  match e with
  | NoPlainValue slot => "{" +:+ slot +:+ "}: the situation has no plain value for it"
  | OutgrewField "solution" => "solution: longer than its field once filled"
  | OutgrewField name => "update." +:+ name +:+ ": longer than its field once filled"
  | Refusal e => command_sentence e
  | OidCount => "oids: between 1 and 20"
  | BadOid t => "oids: " +:+ quoted_word t +:+ " is not a numeric OID"
  end.

(** What a run has done so far. *)
Record Trace := MkTrace { t_step : string; t_ok : bool; t_detail : string; t_ms : float; t_output : option string }.
Record Progress := MkProgress { secrets : list Secret; sent : list Sent; trace : list Trace; posted : list string }.

Section run.
Context (w : World) (doc : Playbook.dict) (facts : Facts) (py_float : string -> float) (format_g : float -> string).

Definition host_of : string := default "" (ip facts).

(** The address as a slot: an empty one is none. *)
Definition values : slot_values :=
  [("ip", if String.eqb host_of "" then None else Some host_of); ("entity", entity facts)].
(** [_act] fills a command with the address as it is. *)
Definition command_values : slot_values := [("ip", Some host_of); ("entity", entity facts)].

Definition no_action (name why : string) : Outcome := MkOutcome false name "" why f_zero None.
Definition refused_action (name : string) (e : slot_error) : Outcome := no_action name ("refused: " +:+ sentence e).

(** [executor.ssh] and [executor.snmp_get] up to the connection. *)
Definition run_ssh (i : nat) (row : Secret) (line mode : string) : res slot_error (Sent * res string Outcome) :=
  match Commands.check line (access_level row) with
  | Ok checked => let s := SentLine row checked mode in Ok (s, answered w i s)
  | Err e => Err (Refusal e)
  end.

Definition run_get (i : nat) (row : Secret) (oids : list string) : res slot_error (Sent * res string Outcome) :=
  ensure (Nat.leb 1 (length oids) && Nat.leb (length oids) MAX_OIDS) OidCount
  (wanted ← oid_texts oids; let s := SentGet row wanted in Ok (s, answered w i s)).

(** An exception of the world is one of the run. *)
Definition or_raised {A} (r : res string A) : res run_error A := match r with Ok a => Ok a | Err e => Err (Raised e) end.

(** [_credential]: the row and its opened fields, which only the executor reads. *)
Definition credential (i : nat) (p : Progress) (kinds : list string) (least : string) : res run_error (option Secret) :=
  match noc_secret_for (secrets p) host_of kinds least with
  | None => Ok None
  | Some row => _ ← or_raised (opened w i row); Ok (Some row)
  end.

(** The credential is looked up once the line is known; one that is missing is an outcome. *)
Definition use_credential (i : nat) (p : Progress) (name kind_ least : string) (kinds : list string)
    (go : Secret -> res slot_error (Sent * res string Outcome)) : res run_error (Progress * Outcome) :=
  found ← credential i p kinds least;
  match found with
  | None => Ok (p, no_action name
      ("no " +:+ kind_ +:+ " credential agents may use for " +:+ host_of +:+ " at " +:+ least +:+ " or above"))
  | Some row =>
      match go row with
      | Err e => Ok (p, refused_action name e)
      | Ok (s, r) =>
          o ← or_raised r;
          let kept := match host_key o with
                      | Some k => noc_set_host_key (id row) (Some k) (secrets p)
                      | None => secrets p end in
          Ok (MkProgress kept (sent p ++ [s]) (trace p) (posted p), o)
      end
  end.

(** An [IndexError] of [line.split()[0]] leaves [_act]; the refusals of a command are its outcome. *)
Definition act (i : nat) (p : Progress) (do : Playbook.dict) : res run_error (Progress * Outcome) :=
  match do with
  | [] => Err (Raised "StopIteration")
  | (name, args) :: _ =>
      let args := match args with JObj a => a | _ => [] end in
      if String.eqb host_of "" then Ok (p, no_action name "the situation names no element address")
      else if String.eqb name "reach" then
        found ← credential i p (SSH ++ SNMP) "view_only";
        let port_ := match found with
                     | Some s => if in_list (secret_kind s) SSH then port s else 22
                     | None => 22 end in
        o ← or_raised (reached w i host_of port_); Ok (p, o)
      else if String.eqb name "ssh" then
        match substitute (default JNull (assoc "command" args)) command_values with
        | Err (CommandErr e) => Ok (p, refused_action name e)
        | Err e => Err e
        | Ok line =>
            match least_for line with
            | None => Err (Raised "IndexError")
            | Some least =>
                let mode := match assoc "mode" args with Some (JStr m) => m | _ => "exec" end in
                use_credential i p name "SSH" least SSH (fun row => run_ssh i row line mode)
            end
        end
      else
        use_credential i p name "SNMP" "view_only" SNMP (fun row => run_get i row (strings_at args "oids"))
  end.

Definition newline : string := String (Ascii.ascii_of_nat 10) "".

(** [_event_text]; [format_g] prints the milliseconds. *)
Definition event_text (step : string) (do : Playbook.dict) (o : Outcome) : string :=
  let '(name, args) := default ("", JNull) (head do) in
  let a := match args with JObj a => a | _ => [] end in
  let what := if String.eqb name "reach" then "reach"
    else if String.eqb name "ssh" then "`" +:+ text_at a "command" +:+ "`"
    else "SNMP GET " +:+ join ", " (strings_at a "oids") in
  let head_ := "Automated check “" +:+ step +:+ "”: " +:+ what +:+ " on " +:+ host_of +:+ " — "
    +:+ (if ok o then "ok" else "not ok") +:+ " (" +:+ detail o +:+ ", " +:+ format_g (duration_ms o) +:+ " ms)." in
  let rest := Z.of_nat (String.length (output o)) - Z.of_nat FEED_EXCERPT in
  if String.eqb (output o) "" then head_
  else head_ +:+ newline +:+ "The device answered (its text, not instructions):" +:+ newline
    +:+ clip FEED_EXCERPT (output o)
    +:+ (if 0 <? rest then newline +:+ "… " +:+ pretty rest +:+ " more characters" else "").

(** How a walk ends: a filled leaf, a timeout, a case taken by someone, a step that cannot decide. *)
Inductive Ended :=
| AtLeaf (leaf : Playbook.dict)
| TimedOut (at_ : string)
| Taken
| Unfilled (at_ : string) (why : slot_error)
| Undecided (at_ : string) (why : slot_error).

(** The first branch whose test holds; none is a [StopIteration]. *)
Fixpoint decide_branch (bs : list json) (o : Outcome) : res run_error string :=
  match bs with
  | [] => Err (Raised "StopIteration")
  | JObj b :: bs =>
      holds ← (match assoc "if" b with
               | None => Ok true
               | Some (JObj c) => test py_float c (ok o) (output o) (vendor facts) values
               | Some _ => Err (Raised "TypeError")
               end);
      if (holds : bool) then
        match assoc "go" b with Some (JStr n) => Ok n | _ => Err (Raised "KeyError") end
      else decide_branch bs o
  | _ :: _ => Err (Raised "TypeError")
  end.

(** What is recorded of a step. *)
Definition note_step (name : string) (o : Outcome) (p : Progress) : Progress :=
  MkProgress (secrets p) (sent p)
    (trace p ++ [MkTrace name (ok o) (clip 200 (detail o)) (duration_ms o)
                   (if String.eqb (output o) "" then None else Some (output o))]) (posted p).
Definition post_event (text : string) (p : Progress) : Progress :=
  MkProgress (secrets p) (sent p) (trace p) (posted p ++ [text]).

(** A step with no action decides on an empty answer. *)
Definition do_step (i : nat) (name : string) (step : Playbook.dict) (p : Progress) : res run_error (Progress * Outcome) :=
  match assoc "do" step with
  | None => Ok (p, MkOutcome true "decide" "" "no action" f_zero None)
  | Some (JObj do) => r ← act i p do; Ok (post_event (event_text name do r.2) r.1, r.2)
  | Some _ => Err (Raised "TypeError")
  end.

(** One turn of the loop: it ends, or goes to a step. *)
Inductive Turn := Ends (e : Ended) | Goes (name : string).

Definition turn (i : nat) (name : string) (p : Progress) : res run_error (Progress * Turn) :=
  match assoc name (obj_at doc "steps") with
  | Some (JObj step) =>
      if bool_decide (is_Some (assoc "end" step)) then
        match fill step values with
        | Ok leaf => Ok (p, Ends (AtLeaf leaf))
        | Err (CommandErr e) => Ok (p, Ends (Unfilled name e))
        | Err e => Err e
        end
      else if fleb (time_left w i) f_zero then Ok (p, Ends (TimedOut name))
      else if negb (still_auto w i) then Ok (p, Ends Taken)
      else
        r ← do_step i name step p;
        let p := note_step name r.2 r.1 in
        match assoc "next" step with
        | Some (JList bs) =>
            match decide_branch bs r.2 with
            | Ok go => Ok (p, Goes go)
            | Err (CommandErr e) => Ok (p, Ends (Undecided name e))
            | Err e => Err e
            end
        | _ => Err (Raised "KeyError")
        end
  | _ => Err (Raised "KeyError")
  end.

(** The loop, for [fuel] turns; [None] is a walk that is not over. *)
Fixpoint walk (fuel i : nat) (name : string) (p : Progress) : option (res run_error (Progress * Ended)) :=
  match fuel with
  | O => None
  | S fuel =>
      match turn i name p with
      | Err e => Some (Err e)
      | Ok (p, Ends e) => Some (Ok (p, e))
      | Ok (p, Goes next) => walk fuel (S i) next p
      end
  end.

Definition start : string := text_at doc "start".
End run.

(** ** What the case is told ([run_case], [_finish]) *)

Definition leaf_of (e : Ended) : Leaf :=
  match e with
  | AtLeaf leaf =>
      if String.eqb (text_at leaf "end") "resolve" then
        LeafResolve (text_at leaf "cause") (text_at leaf "solution")
          (match assoc "clear_alarms" leaf with Some (JBool b) => b | _ => false end)
      else if String.eqb (text_at leaf "end") "pending" then
        LeafPending (text_at leaf "status")
          (omap (fun e => match e.2 with JStr s => Some (e.1, s) | _ => None end) (obj_at leaf "update"))
          (default 3600 (assoc "next_update_in_s" leaf ≫= as_int)) (text_at leaf "note")
      else LeafQueue (text_at leaf "note")
  | TimedOut at_ => LeafQueue ("Automated checks timed out at “" +:+ at_ +:+ "”.")
  | Taken => LeafQueue ""
  | Unfilled at_ why => LeafQueue ("Automated checks reached “" +:+ at_ +:+ "”: " +:+ sentence why)
  | Undecided at_ why => LeafQueue ("Automated checks could not decide at “" +:+ at_ +:+ "”: " +:+ sentence why)
  end.

(** A run that raised is the queue's, saying that it failed. *)
Definition conclusion (r : res run_error (Progress * Ended)) : Leaf :=
  match r with
  | Ok (_, e) => leaf_of e
  | Err (Raised what) => LeafQueue ("Automated checks failed (" +:+ what +:+ ").")
  | Err (CommandErr _) => LeafQueue "Automated checks failed (CommandError)."
  end.

(** ** Every playbook that was stored concludes *)

(** A text that holds a character that is no space has a first word. *)
Definition nonblank (l : list ascii) : bool := existsb (fun a => negb (is_space a)) l.

Lemma words_of_nonblank l cur : nonblank l = true ∨ cur ≠ [] -> words_of l cur ≠ [].
Proof.
  revert cur. induction l as [|a l IH]; simpl; intros cur H; [by destruct H, cur|].
  destruct (is_space a) eqn:Ea; simpl in H.
  - destruct cur; [|done]. apply IH. left. by destruct H.
  - apply IH. by right.
Qed.

Lemma words_nonblank s : nonblank (chars s) = true -> words s ≠ [].
Proof.
  intros H. pose proof (words_of_nonblank (chars s) [] (or_introl H)) as Hw. unfold words.
  by destruct (words_of (chars s) []).
Qed.

Lemma drop_spaces_blank l : nonblank l = false -> drop_spaces l = [].
Proof. induction l as [|a l IH]; simpl; [done|]. by destruct (is_space a). Qed.

Lemma check_nonblank text level line : Commands.check text level = Ok line -> nonblank (chars text) = true.
Proof.
  unfold Commands.check. destruct (String.eqb_spec (strip text) "") as [|E]; [done|]. intros _.
  destruct (nonblank (chars text)) eqn:Hb; [done|]. exfalso.
  apply E. unfold strip. rewrite (drop_spaces_blank (chars text) Hb). reflexivity.
Qed.

Lemma replace_nonblank tok v l : nonblank l = true -> nonblank v = true -> nonblank (replace_go tok v l 0) = true.
Proof.
  intros Hl Hv. induction l as [|a l IH]; [done|]. cbn [replace_go]. destruct (starts tok (a :: l)).
  - unfold nonblank in *. rewrite existsb_app. by rewrite Hv.
  - simpl in *. destruct (negb (is_space a)); simpl in *; auto.
Qed.

(** A blank text names no slot. *)
Lemma replace_blank slot v l : nonblank l = false -> replace_go (token slot) v l 0 = l.
Proof.
  induction l as [|a l IH]; [done|]. intros H. simpl in H. apply orb_false_iff in H as [Ha Hl].
  cbn [replace_go]. assert (Hs : starts (token slot) (a :: l) = false).
  { unfold token. cbn [app starts]. destruct (Ascii.eqb_spec "{" a) as [<-|]; [by vm_compute in Ha|done]. }
  rewrite Hs. f_equal. auto.
Qed.

Lemma nonblank_replaced slot v text : nonblank (chars (replace slot v text)) = true -> nonblank (chars text) = true.
Proof.
  unfold replace. rewrite chars_unchars. destruct (nonblank (chars text)) eqn:E; [done|].
  by rewrite replace_blank, E.
Qed.

Lemma plain_not_space a : plain_char a = true -> is_space a = false.
Proof. destruct a as [[] [] [] [] [] [] [] []]; vm_compute; done. Qed.

Lemma plain_nonblank v : plain v = true -> nonblank (chars v) = true.
Proof.
  unfold plain. intros [[Hn _]%andb_true_iff Hp]%andb_true_iff.
  assert (Hc : ∃ post, chars v = chomp (chars v) ++ post).
  { unfold chomp. destruct (reverse (chars v)) as [|a r] eqn:E; [by exists (chars v)|].
    case_match; [|by exists []; rewrite app_nil_r]. exists [a].
    by rewrite <- (reverse_involutive (chars v)), E, reverse_cons. }
  destruct Hc as [post Hc]. rewrite Hc. unfold nonblank. rewrite existsb_app.
  destruct (chomp (chars v)) as [|a l]; [done|]. simpl in *. apply andb_true_iff in Hp as [Ha _].
  by rewrite (plain_not_space a Ha).
Qed.

Lemma substitute_one_nonblank values text slot out :
  substitute_one values text slot = Ok out -> nonblank (chars text) = true -> nonblank (chars out) = true.
Proof.
  unfold substitute_one. destruct (names_slot slot text); [|by intros [= <-]].
  destruct (assoc slot values) as [[v|]|]; try done. intros [Hp [= <-]]%ensure_Ok_inv Ht.
  unfold replace. rewrite chars_unchars. apply replace_nonblank; [done|by apply plain_nonblank].
Qed.

(** A command that was stored is never empty once filled, so it has a verb. *)
Lemma stored_command_has_a_verb where_ v values line :
  command where_ v = Ok tt -> substitute v values = Ok line -> is_Some (least_for line).
Proof.
  intros Hc Hs. destruct v as [| | | |s| |]; try done. unfold command in Hc. simpl in Hs.
  apply bind_Ok_inv in Hc as (probe & Hp & Hc).
  destruct (Commands.check probe "root") as [l|] eqn:Ec; [|done]. apply check_nonblank in Ec.
  unfold slots in Hp. apply ensure_Ok_inv in Hp as [_ [= <-]]. cbn [foldl SLOTS] in Ec.
  do 2 apply nonblank_replaced in Ec.
  apply bind_Ok_inv in Hs as (out & H1 & H2).
  pose proof (substitute_one_nonblank _ _ _ _ H2 (substitute_one_nonblank _ _ _ _ H1 Ec)) as Hb.
  apply words_nonblank in Hb. unfold least_for. destruct (words line); [done|]. by eexists.
Qed.

Section concludes.
Context (w : World) (doc : Playbook.dict) (facts : Facts) (py_float : string -> float) (format_g : float -> string).

(** What a run may raise: what one of its calls to the world raised. *)
Definition world_raises (what : string) : Prop :=
  (∃ i row, opened w i row = Err what) ∨ (∃ i h pt, reached w i h pt = Err what) ∨ ∃ i s, answered w i s = Err what.
Definition answers_or_raises {A} (r : res run_error A) : Prop :=
  match r with Ok _ => True | Err (Raised what) => world_raises what | Err (CommandErr _) => False end.

Lemma credential_answers i p kinds least : answers_or_raises (credential w facts i p kinds least).
Proof. unfold credential. destruct (noc_secret_for _ _ _ _) as [row|]; [|done]. destruct (opened w i row) eqn:E; [done|]. left. eauto. Qed.

Lemma use_credential_answers i p name kind_ least kinds go :
  (∀ row s what, go row = Ok (s, Err what) -> world_raises what) -> answers_or_raises (use_credential w facts i p name kind_ least kinds go).
Proof.
  intros Hgo. unfold use_credential. pose proof (credential_answers i p kinds least) as Hc.
  destruct (credential _ _ _ _ _ _) as [[row|]|e]; [|done|exact Hc]. cbn [mbind res_bind]. destruct (go row) as [[s [o|what]]|] eqn:E; [done| |done].
  by apply (Hgo row s).
Qed.

Lemma act_answers where_ i p name args :
  action where_ name args = Ok tt -> answers_or_raises (act w facts i p [(name, args)]).
Proof.
  intros Ha. unfold act. destruct (String.eqb (host_of facts) ""); [done|].
  unfold action in Ha. destruct (String.eqb name "reach").
  { pose proof (credential_answers i p (SSH ++ SNMP) "view_only") as Hc. destruct (credential _ _ _ _ _ _) as [found|e]; [|exact Hc].
    cbn [mbind res_bind]. set (port_ := match found with Some _ => _ | None => _ end). destruct (reached w i (host_of facts) port_) eqn:E; [done|]. right. left. eauto. }
  destruct (String.eqb name "ssh").
  2:{ apply use_credential_answers. intros row s what. unfold run_get. intros [_ H]%ensure_Ok_inv. apply bind_Ok_inv in H as (wanted & _ & [= <- H]). right. right. eauto. }
  apply bind_Ok_inv in Ha as (a & Hk & Ha). apply keys_Ok in Hk as (-> & _ & Hreq).
  apply bind_Ok_inv in Ha as ([] & Hc & _).
  destruct (substitute _ _) as [line|[e|what]] eqn:Hs; [|done|].
  - destruct (stored_command_has_a_verb _ _ _ _ Hc Hs) as [least ->]. apply use_credential_answers. intros row s what. unfold run_ssh.
    destruct (Commands.check line (access_level row)) as [checked|]; [|done]. intros [= <- H]. right. right. eauto.
  - exfalso. revert Hs. apply fine_substitute. destruct (default JNull (assoc "command" a)); try done. by eexists.
Qed.

Lemma decide_typed where_ names bs i ts o :
  branches where_ names bs i = Ok ts -> bs ≠ [] -> has_if (default JNull (last bs)) = false ->
  match decide_branch facts py_float bs o with
  | Ok go => go ∈ ts
  | Err (CommandErr _) => True
  | Err (Raised _) => False
  end.
Proof.
  revert i ts. induction bs as [|b bs IH]; [done|]. intros i ts Hb _ Hl. cbn [branches] in Hb.
  apply bind_Ok_inv in Hb as (d & Hk & Hb). apply keys_Ok in Hk as (-> & _).
  apply bind_Ok_inv in Hb as ([] & Hc & Hb). apply bind_Ok_inv in Hb as (go & Hgo & Hb).
  apply one_of_Ok in Hgo as [Hgo _]. apply bind_Ok_inv in Hb as (rest & Hr & [= <-]).
  cbn [decide_branch]. assert (Hg : assoc "go" d = Some (JStr go)) by (destruct (assoc "go" d); simpl in Hgo; congruence).
  assert (Hnext : bs ≠ [] -> match decide_branch facts py_float bs o with
    Ok go' => go' ∈ go :: rest | Err (CommandErr _) => True | Err (Raised _) => False end).
  { intros Hne. specialize (IH (S i) rest Hr Hne). destruct bs as [|b' bs]; [done|].
    rewrite last_cons_cons in Hl. specialize (IH Hl).
    destruct (decide_branch _ _ (b' :: bs) o) as [|[]]; try done. by right. }
  destruct (assoc "if" d) as [c|] eqn:Eif.
  - apply condition_Ok in Hc as (c' & -> & Ht).
    assert (Hne : bs ≠ []).
    { intros ->. simpl in Hl. rewrite Eif in Hl. done. }
    pose proof (fine_test py_float c' (ok o) (output o) (vendor facts) (values facts) Ht) as Hf.
    destruct (test _ _ _ _ _ _) as [[]|[e|what]]; simpl.
    + rewrite Hg. by left.
    + by apply Hnext.
    + done.
    + by apply (Hf what).
  - simpl. rewrite Hg. by left.
Qed.

Context (steps : Playbook.dict) (g : graph) (Hsteps : assoc "steps" doc = Some (JObj steps))
  (Hg : graph_of steps (the_keys steps) = Ok g).

Lemma turn_typed i n p ts :
  assoc n g = Some ts ->
  match turn w doc facts py_float format_g i n p with
  | Ok (_, Goes next) => next ∈ ts
  | Ok (_, Ends _) => True
  | Err (Raised what) => world_raises what
  | Err (CommandErr _) => False
  end.
Proof using Hsteps Hg.
  intros Hn. pose proof (graph_of_Ok _ _ _ Hg) as [_ Ha]. specialize (Ha n). rewrite Hn in Ha.
  unfold turn, obj_at. rewrite Hsteps. destruct (assoc n steps) as [s|]; [|done].
  apply step_Ok in Ha as (d & -> & Hs). case_bool_decide as Hend.
  - destruct Hs as [Hs _]. pose proof (fine_fill d (values facts) Hs) as Hf.
    destruct (fill d (values facts)) as [|[e|what]]; [done..|]. by destruct (Hf what).
  - destruct (fleb _ _); [done|]. destruct (negb _); [done|]. destruct Hs as [Hdo (bs & where_ & j & Hnx & Hb & Hne & Hl)].
    assert (Hd : answers_or_raises (do_step w facts format_g i n d p)).
    { unfold do_step. destruct (assoc "do" d) as [v|]; [|done].
      destruct (Hdo v eq_refl) as (name & args & -> & where' & Hact).
      pose proof (act_answers where' i p name args Hact) as Hr.
      destruct (act _ _ _ _ _) as [r|[]]; [done|done|exact Hr]. }
    destruct (do_step _ _ _ _ _ _ _) as [r|[]]; [|done|exact Hd]. simpl. rewrite Hnx.
    pose proof (decide_typed where_ (the_keys steps) bs j ts r.2 Hb Hne Hl) as Hdec.
    destruct (decide_branch _ _ _ _) as [|[]]; done.
Qed.

Lemma playbook_walk_ends l : finished g l -> ∀ n, n ∈ l -> ∀ fuel i p, (length l <= fuel)%nat ->
  ∃ r, walk w doc facts py_float format_g fuel i n p = Some r ∧ answers_or_raises r.
Proof using Hsteps Hg.
  induction 1 as [|m ts l Hm Hts Hni Hl IH]; intros n Hn fuel i p Hf; [by apply not_elem_of_nil in Hn|].
  simpl in Hf. apply elem_of_cons in Hn as [->|Hn]; [|apply IH; [done|lia]].
  destruct fuel as [|fuel]; [lia|]. cbn [walk]. pose proof (turn_typed i m p ts Hm) as Ht.
  destruct (turn _ _ _ _ _ _ _ _) as [[p' [e|next]]|[|what]]; [by eexists| |done|by eexists].
  apply IH; [auto|lia].
Qed.
End concludes.

(** *** What a run leaves its case in *)

Lemma status_v d : status (case d) = v_status (view d).
Proof. done. Qed.

Lemma run_case_leaves_auto leaf actor now d : status (case (run_case leaf actor now d)) ≠ "auto".
Proof.
  unfold run_case. destruct (String.eqb_spec (status (case d)) "auto") as [Hs|]; [|done].
  assert (Hq : ∀ why note, status (case (requeue why now note d)) ≠ "auto").
  { intros. by rewrite status_v, view_requeue. }
  destruct (finish leaf actor now d) as [d'|] eqn:Hf; [|apply Hq].
  destruct leaf as [ca sol cl|st given wait note|note]; cbn [finish] in Hf.
  - unfold resolve in Hf. apply bind_Ok_inv in Hf as (? & _ & Hf).
    apply ensure_Ok_inv in Hf as [_ Hf]. apply ensure_Ok_inv in Hf as [_ Hf]. cbv zeta in Hf.
    destruct (negb _ && _) in Hf; [done|]. injection Hf as <-.
    rewrite status_v. autorewrite with desk. done.
  - apply fmap_Ok_inv in Hf as ([d1 sent_] & Ha & ->). unfold auto_pend in Ha.
    apply bind_Ok_inv in Ha as (t & Ht & Ha). cbv zeta in Ha.
    destruct (missing _ t now); injection Ha as <- <-; [|apply Hq]. simpl fst.
    rewrite status_v. autorewrite with desk. simpl.
    unfold transition in Ht. destruct (assoc "auto_pend" FROM); [|done].
    destruct (negb _); [done|]. destruct (in_list "auto_pend" _) eqn:El; [|by vm_compute in El].
    destruct (in_list st PENDING) eqn:Ep; [|done]. injection Ht as <-. apply bool_decide_eq_true in Ep.
    intros ->. revert Ep. by_eval.
  - injection Hf as <-. apply Hq.
Qed.

(** What [validate] leaves of a document it accepts. *)
Lemma stored_steps canonical document doc :
  validate canonical document = Ok doc ->
  ∃ steps g, assoc "steps" doc = Some (JObj steps) ∧ graph_of steps (the_keys steps) = Ok g
    ∧ start doc ∈ the_keys steps ∧ acyclic g (start doc) = Ok tt.
Proof.
  intros Hv. unfold validate in Hv. apply bind_Ok_inv in Hv as (doc' & _ & Hv).
  apply bind_Ok_inv in Hv as ([] & _ & Hv). apply bind_Ok_inv in Hv as ([] & _ & Hv).
  apply bind_Ok_inv in Hv as ([] & _ & Hv). apply bind_Ok_inv in Hv as ([] & Hs & Hv).
  apply ensure_Ok_inv in Hv as [_ [= ->]]. unfold validate_steps in Hs.
  destruct (assoc "steps" doc) as [[| | | | | |steps]|] eqn:Esteps; try done.
  apply ensure_Ok_inv in Hs as [_ Hs]. destruct (first_bad_name _); [done|].
  apply bind_Ok_inv in Hs as (st & Hst & Hs). apply one_of_Ok in Hst as [Hst Hin].
  apply bind_Ok_inv in Hs as (g & Hg & Hs).
  assert (Est : start doc = st).
  { unfold start, text_at. destruct (assoc "start" doc); simpl in Hst; [by subst|done]. }
  exists steps, g. by rewrite Est.
Qed.

(** C11: Whatever the devices answer and however long they take, a run of a playbook that was stored goes
    through at most as many steps as the playbook has and ends: at a leaf, out of time, at a step that
    cannot decide, because someone took the case, or because a call to the world raised: opening a
    credential, or the executor where it does not catch. The document itself makes nothing raise: every
    exception of the run is one that such a call raised. In each case its conclusion is applied, a run that
    raised sending the case to the queue with the exception's name, and the case is no longer with
    automation. The database and the clock are taken to answer. *)
Theorem every_stored_playbook_concludes canonical document doc w facts py_float format_g p :
  validate canonical document = Ok doc ->
  ∃ r, walk w doc facts py_float format_g (length (obj_at doc "steps")) 0 (start doc) p = Some r
    ∧ match r with Ok _ => True | Err (Raised what) => world_raises w what | Err (CommandErr _) => False end
    ∧ ∀ actor now d, status (case (run_case (conclusion r) actor now d)) ≠ "auto".
Proof.
  intros Hv. apply stored_steps in Hv as (steps & g & Esteps & Hg & _ & Ha).
  apply acyclic_Ok in Ha as (l & Hl & Hin). unfold obj_at. rewrite Esteps.
  pose proof (finished_length g l Hl) as Hlen. pose proof (graph_of_Ok _ _ _ Hg) as [Hd _].
  assert (Hlg : length g = length steps) by (by rewrite <- (length_fmap fst g), Hd, length_fmap).
  destruct (playbook_walk_ends w doc facts py_float format_g steps g Esteps Hg l Hl _ Hin (length steps) 0 p) as (r & Hr & Hw);
    [lia|]. exists r. split; [exact Hr|]. split; [exact Hw|]. intros. apply run_case_leaves_auto.
Qed.

(** ** What a run sends *)

(** A line a step of the document may put on a device: its own command, filled from the situation's
    facts alone, accepted by [Commands.check] at the level of a credential of the situation's device
    that agents may use. *)
Inductive allowed_line (doc : Playbook.dict) (facts : Facts) (row : Secret) (line : string) : Prop :=
| allowed step d args text raw :
    assoc step (obj_at doc "steps") = Some (JObj d) ->
    assoc "do" d = Some (JObj [("ssh", JObj args)]) -> assoc "command" args = Some text ->
    substitute text (command_values facts) = Ok raw ->
    Commands.check raw (access_level row) = Ok line ->
    host row = host_of facts -> agent_access row = true -> allowed_line doc facts row line.

Definition all_allowed (doc : Playbook.dict) (facts : Facts) (p : Progress) : Prop :=
  ∀ row line mode, SentLine row line mode ∈ sent p -> allowed_line doc facts row line.

Lemma noc_secret_for_Some secrets h kinds least row :
  noc_secret_for secrets h kinds least = Some row ->
  row ∈ secrets ∧ host row = h ∧ agent_access row = true ∧ secret_kind row ∈ kinds ∧ floor least <= rank (access_level row).
Proof.
  unfold noc_secret_for. intros H. assert (Hin : row ∈ sort_by secret_leb (filter (fun s =>
    host s = h ∧ agent_access s = true ∧ secret_kind s ∈ kinds ∧ floor least <= rank (access_level s)) secrets)).
  { destruct (sort_by _ _); [done|]. injection H as ->. by left. }
  rewrite elem_of_sort_by, list_elem_of_filter in Hin. tauto.
Qed.

(** The credential the query answers is the least that suffices. *)
Lemma noc_secret_for_least secrets h kinds least row other :
  noc_secret_for secrets h kinds least = Some row -> other ∈ secrets -> host other = h ->
  agent_access other = true -> secret_kind other ∈ kinds -> floor least <= rank (access_level other) ->
  rank (access_level row) <= rank (access_level other).
Proof.
  unfold noc_secret_for. set (l := filter _ secrets). intros H Ho Hh Ha Hk Hf.
  assert (Hin : other ∈ l) by (by apply list_elem_of_filter).
  destruct (sort_by secret_leb l) as [|x s] eqn:E; [done|]. injection H as ->.
  destruct (sort_by_head_least secret_leb (fun _ => True) l row s ltac:(by apply Forall_true)) with other
    as [->|Hle]; try done.
  - intros x y _ _. unfold secret_leb. rewrite !orb_true_iff, !andb_true_iff. lia.
  - intros x y z. unfold secret_leb. rewrite !orb_true_iff, !andb_true_iff. lia.
  - unfold secret_leb in Hle. rewrite orb_true_iff, andb_true_iff in Hle. lia.
Qed.

Section reads.
Context (w : World) (doc : Playbook.dict) (facts : Facts) (py_float : string -> float) (format_g : float -> string).

Lemma use_credential_sends i p name kind_ least kinds go r :
  (∀ row s o, go row = Ok (s, o) -> host row = host_of facts -> agent_access row = true ->
     ∀ row' line mode, s = SentLine row' line mode -> allowed_line doc facts row' line) ->
  all_allowed doc facts p -> use_credential w facts i p name kind_ least kinds go = Ok r -> all_allowed doc facts r.1.
Proof.
  intros Hgo Hp. unfold use_credential, credential. destruct (noc_secret_for _ _ _ _) as [row|] eqn:Er; [|by intros [= <-]].
  destruct (opened w i row); [|done]. cbn [mbind res_bind or_raised].
  apply noc_secret_for_Some in Er as (_ & Hh & Ha & _).
  destruct (go row) as [[s [o|]]|] eqn:Eg; [|done|by intros [= <-]]. cbn [mbind res_bind or_raised]. intros [= <-].
  intros row' line mode Hin. simpl in Hin. apply elem_of_app in Hin as [Hin|Hin%list_elem_of_singleton]; [eauto|].
  symmetry in Hin. eauto.
Qed.

Lemma act_sends i n d do p r :
  assoc n (obj_at doc "steps") = Some (JObj d) -> assoc "do" d = Some (JObj do) -> (length do <= 1)%nat ->
  act w facts i p do = Ok r -> all_allowed doc facts p -> all_allowed doc facts r.1.
Proof.
  intros Hn Hdo Hlen Ha Hp. unfold act in Ha. destruct do as [|[name args] [|]]; [done| |simpl in Hlen; lia].
  destruct (String.eqb (host_of facts) ""); [by injection Ha as <-|].
  destruct (String.eqb_spec name "reach").
  { apply bind_Ok_inv in Ha as (? & _ & Ha). by apply bind_Ok_inv in Ha as (? & _ & [= <-]). }
  destruct (String.eqb_spec name "ssh") as [->|].
  - destruct (substitute _ _) as [raw|[]] eqn:Es; [|by injection Ha as <-|done].
    destruct (least_for raw) as [least|]; [|done].
    eapply use_credential_sends; [|exact Hp|exact Ha]. intros row s o Hgo Hh Hac row' line mode ->.
    unfold run_ssh in Hgo. destruct (Commands.check raw (access_level row)) as [checked|] eqn:Ec; [|done].
    injection Hgo as -> -> _ _.
    destruct args as [| | | | | |a]; try done. destruct (assoc "command" a) as [text|] eqn:Et; [|done].
    by econstructor.
  - eapply use_credential_sends; [|exact Hp|exact Ha]. intros row s o Hgo _ _ row' line mode ->.
    unfold run_get in Hgo. apply ensure_Ok_inv in Hgo as [_ Hgo]. by apply bind_Ok_inv in Hgo as (? & _ & [= ?]).
Qed.

Context (Hone : ∀ n d do, assoc n (obj_at doc "steps") = Some (JObj d) -> bool_decide (is_Some (assoc "end" d)) = false ->
  assoc "do" d = Some (JObj do) -> (length do <= 1)%nat).

Lemma turn_sends i n p r :
  turn w doc facts py_float format_g i n p = Ok r -> all_allowed doc facts p -> all_allowed doc facts r.1.
Proof using Hone.
  unfold turn. intros Ht Hp. destruct (assoc n (obj_at doc "steps")) as [[| | | | | |d]|] eqn:En; try done.
  destruct (bool_decide (is_Some (assoc "end" d))) eqn:Hend.
  { destruct (fill _ _) as [|[]]; try done; by injection Ht as <-. }
  destruct (fleb _ _); [by injection Ht as <-|]. destruct (negb _); [by injection Ht as <-|].
  apply bind_Ok_inv in Ht as (r1 & Hd & Ht).
  assert (H1 : all_allowed doc facts r1.1).
  { unfold do_step in Hd. destruct (assoc "do" d) as [[| | | | | |do]|] eqn:Edo; try done.
    - apply bind_Ok_inv in Hd as (r2 & Ha & [= <-]). exact (act_sends _ _ _ _ _ _ En Edo (Hone _ _ _ En Hend Edo) Ha Hp).
    - by injection Hd as <-. }
  destruct (assoc "next" d) as [[| | | | |bs|]|]; try done.
  by destruct (decide_branch _ _ _ _) as [|[]]; try done; injection Ht as <-.
Qed.

Lemma walk_sends fuel i n p p' e :
  walk w doc facts py_float format_g fuel i n p = Some (Ok (p', e)) -> all_allowed doc facts p -> all_allowed doc facts p'.
Proof using Hone.
  revert i n p. induction fuel as [|fuel IH]; [done|]. intros i n p. cbn [walk]. intros H Hp.
  destruct (turn _ _ _ _ _ _ _ _) as [[p1 [e'|next]]|] eqn:Et; [| |done].
  - injection H as <- _. exact (turn_sends _ _ _ _ Et Hp).
  - eapply IH; [exact H|]. exact (turn_sends _ _ _ _ Et Hp).
Qed.
End reads.

(** A run of a stored playbook puts on a device only lines of the playbook, filled from the situation's
    facts and accepted as read-only at the level of the credential in use — one of the situation's own
    device, which agents may use. What a device answers chooses the branch and never becomes a line. *)
Theorem a_run_sends_only_its_own_reads canonical document doc w facts py_float format_g p fuel p' e :
  validate canonical document = Ok doc -> sent p = [] ->
  walk w doc facts py_float format_g fuel 0 (start doc) p = Some (Ok (p', e)) ->
  ∀ row line mode, SentLine row line mode ∈ sent p' -> allowed_line doc facts row line.
Proof.
  intros Hv Hp Hw. apply stored_steps in Hv as (steps & g & Esteps & Hg & _ & _).
  apply (walk_sends w doc facts py_float format_g) in Hw; [exact Hw| |].
  - intros n d do Hn Hend Hdo. unfold obj_at in Hn. rewrite Esteps in Hn.
    pose proof (graph_of_Ok _ _ _ Hg) as [_ Ha]. specialize (Ha n). rewrite Hn in Ha.
    destruct (assoc n g) as [ts|]; [|done]. apply step_Ok in Ha as (d' & [= <-] & Hs). rewrite Hend in Hs.
    destruct (st_do _ _ _ Hs _ Hdo) as (name & args & [= ->] & _). done.
  - intros row line mode Hin. rewrite Hp in Hin. by apply not_elem_of_nil in Hin.
Qed.

(** ** Runs of the sample *)

Definition sample_doc : Playbook.dict := sample "reach" sample_steps.
Definition sample_facts : Facts := MkFacts ["ciena"] [] None (Some "10.0.0.7") (Some "ciena") (Some "1/1/3").
Definition ssh_row : Secret := MkSecret 1 "ssh_password" "view_only" "10.0.0.7" 22 None true.
Definition snmp_row : Secret := MkSecret 2 "snmp_community" "view_only" "10.0.0.7" 161 None true.
Definition answer (text : string) : Outcome := MkOutcome true "" text "ran" f_zero None.
Definition sample_world : World :=
  MkWorld (fun _ _ => Ok ()) (fun _ _ _ => Ok (answer ""))
    (fun _ s => Ok (match s with SentLine _ _ _ => answer "no alarms" | SentGet _ _ => answer "Ciena SAOS 10.7" end))
    (fun _ => f_one) (fun _ => true) (fun _ => f_zero).
Definition sample_progress : Progress := MkProgress [ssh_row; snmp_row] [] [] [].
Definition sample_run := walk sample_world sample_doc sample_facts (fun _ => f_zero) (fun _ => "0").

Lemma every_stored_playbook_concludes_witness :
  validate sample_canonical (JObj sample_doc) = Ok sample_doc
  ∧ ∃ r, sample_run 6 0 "reach" sample_progress = Some r
    ∧ ∀ actor now d, status (case (run_case (conclusion r) actor now d)) ≠ "auto".
Proof.
  split; [exact validate_accepts_the_sample|].
  destruct (every_stored_playbook_concludes _ _ _ sample_world sample_facts (fun _ => f_zero) (fun _ => "0")
    sample_progress validate_accepts_the_sample) as (r & H1 & _ & H2). by exists r.
Defined.

(** A credential that does not open: the run fails, the queue is told so, and nothing was sent. *)
Example an_unopened_credential_fails_the_run :
  let sealed := MkWorld (fun _ _ => Err "VaultError") (reached sample_world) (answered sample_world) (fun _ => f_one) (fun _ => true) (fun _ => f_zero) in
  conclusion <$> walk sealed sample_doc sample_facts (fun _ => f_zero) (fun _ => "0") 6 0 "reach" sample_progress
  = Some (LeafQueue "Automated checks failed (VaultError).").
Proof. vm_compute. reflexivity. Qed.

Example the_sample_resolves :
  (fun r => match r with Ok (p, e) => Some (leaf_of e, sent p) | Err _ => None end)
    <$> sample_run 6 0 "reach" sample_progress
  = Some (Some (LeafResolve "cleared_before_isolation" "Not active on the device; the clear trap never arrived." true,
      [SentGet snmp_row ["1.3.6.1.2.1.1.1.0"]; SentLine ssh_row "show alarm list port 1/1/3" "exec"])).
Proof. vm_compute. reflexivity. Qed.

Lemma a_run_sends_only_its_own_reads_witness :
  ∃ p' e, sample_run 6 0 "reach" sample_progress = Some (Ok (p', e))
    ∧ SentLine ssh_row "show alarm list port 1/1/3" "exec" ∈ sent p'
    ∧ allowed_line sample_doc sample_facts ssh_row "show alarm list port 1/1/3".
Proof.
  destruct (sample_run 6 0 "reach" sample_progress) as [[[p' e]|]|] eqn:E;
    [|exfalso; revert E; vm_compute; discriminate..].
  exists p', e. split; [done|].
  assert (Hin : SentLine ssh_row "show alarm list port 1/1/3" "exec" ∈ sent p').
  { revert E. vm_compute. intros [= <- _]. vm_compute. right. left. }
  split; [exact Hin|].
  exact (a_run_sends_only_its_own_reads _ _ _ sample_world sample_facts (fun _ => f_zero) (fun _ => "0")
    sample_progress 6 p' e validate_accepts_the_sample eq_refl E _ _ _ Hin).
Defined.

(** A RouterOS ping is stored, and needs the diagnostic level; its first word is no verb of
    [READ_VERBS], so the credential is chosen at [view_only] and the line is refused when it runs,
    though the vault has one that may send it. *)
Definition ping_step : Playbook.dict :=
  [("ssh", JObj [("command", JStr "/ping 10.0.0.1")])].
Definition diagnostic_row : Secret := MkSecret 3 "ssh_password" "diagnostic" "10.0.0.7" 22 None true.
Example a_routeros_ping_is_refused :
  do_action "ping" (JObj ping_step) = Ok tt
  ∧ Commands.check "/ping 10.0.0.1" (access_level diagnostic_row) = Ok "/ping 10.0.0.1"
  ∧ (fun r => match r with Ok (p, o) => Some (sent p, ok o, detail o) | Err _ => None end)
      (act sample_world sample_facts 0 (MkProgress [ssh_row; diagnostic_row] [] [] []) ping_step)
    = Some ([], false, "refused: command: 'ping' needs the diagnostic access level or above").
Proof. vm_compute. done. Qed.
