(* ===== verification/CaseTheorems.v ===== *)
(** * What every history of a case keeps *)
From S2P Require Import Prelude PyLib Agents Cases CaseOps CaseDesk CaseActs CaseView.

(** The state a desk is always in: exactly one clock waits to be taken while the case is in the
    queue and none otherwise; at most one is being worked, and only while the case is; nobody owns
    a case that is new, automated or queued, and somebody owns one being worked; and it carries a
    resolution exactly when it is over. *)
Definition kept (v : View) : Prop :=
  v_status v ∈ STATUSES.*1 ∧
  v_open v = (if String.eqb (v_status v) "queue" then 1 else 0)%nat ∧
  (v_worked v <= if String.eqb (v_status v) "working" then 1 else 0)%nat ∧
  (v_status v ∈ UNOWNED -> v_owner v = None) ∧
  (v_status v = "working" -> v_owner v <> None) ∧
  (v_resolution v <> None <-> v_status v = "resolved" ∨ v_status v = "closed").

Lemma pending_is st : st ∈ PENDING ->
  st ∈ STATUSES.*1 ∧ st ∉ ["new"; "auto"; "queue"; "working"; "validate"; "resolved"; "closed"].
Proof.
  revert st. apply (Forall_forall (fun st => st ∈ STATUSES.*1 ∧ st ∉ _) PENDING). by_eval.
Qed.

Lemma status_is st : st ∈ STATUSES.*1 ->
  st ∈ PENDING ∨ st ∈ ["new"; "auto"; "queue"; "working"; "validate"; "resolved"; "closed"].
Proof. revert st. apply (Forall_forall (fun st => _ ∨ _) STATUSES.*1). by_eval. Qed.

Lemma transition_inv act st to t :
  transition act st to = Ok t -> ∃ allowed, assoc act FROM = Some allowed ∧ st ∈ allowed ∧
    if in_list act ["pend"; "auto_pend"] then to = Some t ∧ t ∈ PENDING else t = default "" (assoc act TO).
Proof.
  unfold transition. destruct (assoc act FROM) as [l|]; [|done].
  destruct (in_list st l) eqn:Hl; simpl; [|done]. apply in_list_true in Hl. intros H.
  exists l. split; [done|]. split; [done|].
  destruct (in_list act ["pend"; "auto_pend"]); [|by injection H].
  destruct to as [t'|]; [|done]. destruct (in_list t' PENDING) eqn:Ht; [|done].
  apply in_list_true in Ht. by injection H as ->.
Qed.

(** ** On views *)

(** Closes the clauses of [kept] that compute: a concrete status, no resolution. *)
Ltac kept_clauses :=
  split_and!; try done; try lia; try by_eval;
  try (split; [by intros []|by intros [|]]);
  try (let H := fresh in intros H; exfalso; revert H; by_eval).

Definition v_live (v : View) : Prop := v_status v <> "resolved" ∧ v_status v <> "closed".

Lemma kept_live_resolution v : kept v -> v_live v -> v_resolution v = None.
Proof.
  intros (_ & _ & _ & _ & _ & Hr) [H1 H2]. destruct (v_resolution v); [|done].
  destruct (proj1 Hr ltac:(done)); contradiction.
Qed.

Lemma kept_open v : kept v -> v_status v <> "queue" -> v_open v = 0%nat.
Proof. intros (_ & Ho & _) H. apply String.eqb_neq in H. by rewrite H in Ho. Qed.

Lemma kept_worked v : kept v -> v_status v <> "working" -> v_worked v = 0%nat.
Proof. intros (_ & _ & Hw & _) H. apply String.eqb_neq in H. rewrite H in Hw. lia. Qed.

Lemma kept_pred_worked v : kept v -> Nat.pred (v_worked v) = 0%nat.
Proof. intros (_ & _ & Hw & _). destruct (String.eqb _ _); lia. Qed.

Lemma kept_pred_open v : kept v -> Nat.pred (v_open v) = 0%nat.
Proof. intros (_ & Ho & _). destruct (String.eqb _ _); lia. Qed.

Lemma v_left_idle v : kept v -> v_status v <> "working" -> v_left v = v.
Proof. intros Hk H. pose proof (kept_worked v Hk H) as Hw. unfold v_left. rewrite Hw. destruct v. simpl in *. by subst. Qed.

Lemma kept_enqueue_left v : kept v -> v_live v -> v_status v <> "queue" -> kept (v_enqueue (v_left v)).
Proof.
  intros Hk Hl Hq. unfold kept, v_enqueue, v_left. simpl.
  rewrite (kept_live_resolution v Hk Hl), (kept_open v Hk Hq), (kept_pred_worked v Hk).
  kept_clauses.
Qed.

Lemma kept_enqueue v :
  kept v -> v_live v -> v_status v <> "queue" -> v_status v <> "working" -> kept (v_enqueue v).
Proof. intros Hk Hl Hq Hw. rewrite <- (v_left_idle v Hk Hw). by apply kept_enqueue_left. Qed.

(** A status outside the queue, nobody's and nothing's to be counted. *)
Definition aside (st : string) : Prop := st ∈ PENDING ∨ st = "validate".

Lemma aside_is st : aside st -> st ∈ STATUSES.*1 ∧ st ∉ ["new"; "auto"; "queue"; "working"; "resolved"; "closed"].
Proof.
  intros [H| ->]; [|by_eval]. apply pending_is in H as [H1 H2]. split; [done|]. set_solver.
Qed.

Lemma kept_aside v st :
  kept v -> v_live v -> v_status v <> "queue" -> aside st -> kept (v_move st None (v_left v)).
Proof.
  intros Hk Hl Hq Ha%aside_is. destruct Ha as [Hs Hn].
  rewrite !not_elem_of_cons in Hn. destruct Hn as (H1 & H2 & H3 & H4 & H5 & H6 & _).
  unfold kept, v_move, v_left. simpl.
  rewrite (kept_live_resolution v Hk Hl), (kept_open v Hk Hq), (kept_pred_worked v Hk).
  rewrite (proj2 (String.eqb_neq st "queue") H3).
  kept_clauses. unfold UNOWNED. set_solver.
Qed.

Lemma kept_resolve v how : kept v -> v_live v -> kept (v_resolve how (v_withdrawn (v_left v))).
Proof.
  intros Hk Hl. unfold kept, v_resolve, v_withdrawn, v_left. simpl.
  rewrite (kept_pred_worked v Hk), (kept_pred_open v Hk).
  kept_clauses.
Qed.

Lemma kept_close v : kept v -> v_status v = "resolved" -> kept (v_move "closed" None v).
Proof.
  intros Hk Hs. pose proof (kept_open v Hk) as Ho. pose proof (kept_worked v Hk) as Hw.
  rewrite Hs in Ho, Hw. destruct Hk as (_ & _ & _ & _ & _ & Hr).
  unfold kept, v_move. simpl. rewrite Ho, Hw by done.
  kept_clauses. split; [intros _; by right|intros _; apply Hr; by left].
Qed.

Lemma kept_auto v : kept v -> v_status v = "new" -> kept (v_move "auto" None v).
Proof.
  intros Hk Hs. pose proof (kept_open v Hk) as Ho. pose proof (kept_worked v Hk) as Hw.
  rewrite Hs in Ho, Hw. destruct Hk as (_ & _ & _ & Hu & _ & Hr). rewrite Hs in Hu, Hr.
  unfold kept, v_move. simpl. rewrite Ho, Hw by done.
  kept_clauses; [intros _; apply Hu; by_eval|naive_solver].
Qed.

(** What a take from a status of the queue's side leaves, and from elsewhere. *)
Lemma kept_taken v o n :
  kept v -> v_live v -> (n <= S (v_worked v))%nat -> v_status v <> "working" ->
  kept (MkView "working" (Some o) (v_resolution v) (Nat.pred (v_open v)) n).
Proof.
  intros Hk Hl Hn Hw. rewrite (kept_worked v Hk Hw) in Hn. unfold kept. simpl.
  rewrite (kept_live_resolution v Hk Hl), (kept_pred_open v Hk).
  kept_clauses.
Qed.

Lemma kept_changed_hands v o :
  kept v -> v_live v -> v_status v <> "queue" -> kept (v_move "working" (Some o) v).
Proof.
  intros Hk Hl Hq. pose proof (kept_open v Hk Hq) as Ho.
  pose proof (kept_live_resolution v Hk Hl) as Hr. destruct Hk as (_ & _ & Hw & _).
  unfold kept, v_move. simpl. rewrite Ho, Hr. kept_clauses. simpl. destruct (String.eqb (v_status v) "working"); lia.
Qed.

(** ** On desks *)

Lemma live_of (d : Desk) (l : list string) :
  status (case d) ∈ l -> "resolved" ∉ l -> "closed" ∉ l -> v_live (view d).
Proof. intros H H1 H2. split; intros E; simpl in E; rewrite E in H; done. Qed.

Lemma not_of (st w : string) (l : list string) : st ∈ l -> w ∉ l -> st <> w.
Proof. by intros H Hw ->. Qed.

(** [st ∈ l] with [l] closed: [st] is not the word [w], decided by evaluation. *)
Ltac other H := eapply not_of; [exact H|by_eval].
Ltac live H := eapply live_of; [exact H|by_eval..].

(** The act's starting statuses, [l] its list in [FROM]. *)
Lemma transition_from act st to t l :
  transition act st to = Ok t -> assoc act FROM = Some l -> st ∈ l.
Proof. intros (l' & Hl & H & _)%transition_inv E. by rewrite E in Hl; simplify_eq. Qed.

Lemma kept_view_requeue why now note d :
  kept (view d) -> status (case d) ∈ "auto" :: PENDING -> kept (view (requeue why now note d)).
Proof.
  intros Hk H. rewrite view_requeue. apply kept_enqueue; [done|live H|other H|other H].
Qed.

Lemma kept_take actor now d d' :
  kept (view d) -> take (case d) actor now d = Ok d' -> kept (view d').
Proof.
  intros Hk. unfold take. destruct (bool_decide _ && _); [by intros [= <-]|].
  intros (t & Ht & H)%bind_Ok_inv. eapply transition_from in Ht; [|vm_compute; reflexivity].
  injection H as <-. rewrite view_event.
  destruct (in_list (status (case d)) ["new"; "auto"]) eqn:Hna.
  - apply in_list_true in Hna. replace (in_list (status (case d)) UNOWNED) with true.
    2: { symmetry. apply in_list_true. unfold UNOWNED. set_solver. }
    match goal with |- context [noc_cycle_taken now ?a ?e] => destruct (view_taken now a e) as (n & -> & Hn) end.
    assert (Hq : kept (v_enqueue (view d))) by (apply kept_enqueue; [done|live Hna|other Hna|other Hna]).
    autorewrite with desk in *. by apply (kept_taken _ _ n Hq).
  - apply in_list_false in Hna. destruct (in_list (status (case d)) UNOWNED) eqn:Hun.
    + apply in_list_true in Hun.
      match goal with |- context [noc_cycle_taken now ?a ?e] => destruct (view_taken now a e) as (n & -> & Hn) end.
      rewrite view_move in *. simpl in *.
      apply (kept_taken (view d)); [done|live Hun|done|other Hun].
    + apply in_list_false in Hun. rewrite view_move. apply kept_changed_hands; [done|live Ht|].
      intros E. simpl in E. apply Hun. rewrite E. by_eval.
Qed.

Lemma kept_release actor now admin note d d' :
  kept (view d) -> release (case d) actor now admin note d = Ok d' -> kept (view d').
Proof.
  intros Hk. unfold release. intros [_ (t & Ht & H)%bind_Ok_inv]%ensure_Ok_inv.
  eapply transition_from in Ht; [|vm_compute; reflexivity]. injection H as <-.
  autorewrite with desk. apply kept_enqueue_left; [done|live Ht|other Ht].
Qed.

Lemma view_update c actor now f sums orgs d d' c' :
  update c actor now f sums orgs d = Ok (d', c') ->
  view d' = view d ∧ c' = merge_fields f c ∧ status c <> "resolved" ∧ status c <> "closed".
Proof.
  unfold update. destruct (in_list (status c) _) eqn:Hs; [done|]. apply in_list_false in Hs.
  case_match; [|done]. intros [_ [_ H1]%ensure_Ok_inv]%ensure_Ok_inv. case_match; [|done].
  apply ensure_Ok_inv in H1 as [_ H1]. simpl in H1.
  match type of H1 with context [event ?t now actor ?e] => set (text := t) in H1; set (ee := e) in H1 end.
  injection H1 as <- <-. split; [|split; [done|set_solver]].
  rewrite view_event. unfold ee. case_match; autorewrite with desk; done.
Qed.

Lemma kept_pend c actor now st admin note d d' :
  kept (view d) -> status c = status (case d) -> pend c actor now st admin note d = Ok d' -> kept (view d').
Proof.
  intros Hk Hc. unfold pend. intros [_ (t & Ht & H)%bind_Ok_inv]%ensure_Ok_inv.
  destruct (transition_inv _ _ _ _ Ht) as (_ & _ & _ & Hto). simpl in Hto. destruct Hto as [_ Hp].
  eapply transition_from in Ht; [|vm_compute; reflexivity]. rewrite Hc in Ht, H.
  case_match; [|done]. injection H as <-. rewrite view_event, view_move.
  assert (Hm : kept (v_move t None (v_left (view d)))).
  { apply kept_aside; [done|live Ht|other Ht|by left]. }
  destruct (String.eqb (status (case d)) "working") eqn:Hw; autorewrite with desk; [done|].
  apply String.eqb_neq in Hw. by rewrite (v_left_idle _ Hk Hw) in Hm.
Qed.

Lemma kept_resolving c actor now cause_ sol cleared admin how d d' :
  kept (view d) -> status c = status (case d) ->
  resolve c actor now cause_ sol cleared admin how d = Ok d' -> kept (view d').
Proof.
  intros Hk Hc. unfold resolve. intros (t & Ht & H)%bind_Ok_inv.
  assert (Hl : v_live (view d)).
  { rewrite Hc in Ht. destruct (String.eqb how "noc").
    - apply ensure_Ok_inv in Ht as [_ Ht]. eapply transition_from in Ht; [|vm_compute; reflexivity]. live Ht.
    - eapply transition_from in Ht; [|vm_compute; reflexivity]. live Ht. }
  apply ensure_Ok_inv in H as [_ [_ H]%ensure_Ok_inv]. rewrite Hc in H.
  case_match; [done|]. injection H as <-. rewrite view_event, view_resolve, view_withdrawn.
  pose proof (kept_resolve _ how Hk Hl) as Hr.
  destruct (String.eqb (status (case d)) "working") eqn:Hw; autorewrite with desk; [done|].
  apply String.eqb_neq in Hw. by rewrite (v_left_idle _ Hk Hw) in Hr.
Qed.

Lemma view_routed c id agent actor now trig t esc note d d' :
  assign c id agent actor now trig t esc note d = Ok d' -> view d' = view d.
Proof.
  unfold assign. destruct (in_list _ _); [done|]. intros [_ [= <-]]%ensure_Ok_inv.
  case_match; autorewrite with desk; done.
Qed.

Lemma kept_to_people c actor now why d :
  kept (view d) -> status c = status (case d) -> kept (view (hand_to_people c actor now why d)).
Proof.
  intros Hk Hc. unfold hand_to_people. rewrite view_event, view_assign, Hc.
  destruct (String.eqb_spec (status (case d)) "working") as [Hw|]; simpl; [|done].
  case_bool_decide; [|done]. autorewrite with desk.
  apply kept_enqueue_left; [done|split; simpl; by rewrite Hw|simpl; by rewrite Hw].
Qed.

Lemma kept_autopend c actor now st given wait_s note d r :
  kept (view d) -> status c = status (case d) ->
  auto_pend c actor now st given wait_s note d = Ok r -> kept (view r.1).
Proof.
  intros Hk Hc. unfold auto_pend. intros (t & Ht & H)%bind_Ok_inv. simpl in H.
  destruct (transition_inv _ _ _ _ Ht) as (_ & _ & _ & Hto). simpl in Hto. destruct Hto as [_ Hp].
  eapply transition_from in Ht; [|vm_compute; reflexivity]. rewrite Hc in Ht.
  case_match; injection H as <-; cbn [fst].
  - autorewrite with desk. rewrite <- (v_left_idle (view d)) by (done || other Ht).
    apply kept_aside; [done|live Ht|other Ht|by left].
  - apply kept_view_requeue; [done|]. apply list_elem_of_singleton in Ht. rewrite Ht. by_eval.
Qed.

Lemma kept_dispatch now auto_ d :
  kept (view d) -> status (case d) = "new" -> kept (view (dispatch now auto_ d)).
Proof.
  intros Hk Hs. unfold dispatch. destruct auto_; autorewrite with desk; [by apply kept_auto|].
  apply kept_enqueue; [done|split|..]; simpl; by rewrite Hs.
Qed.

Lemma kept_auto_resolve now how why d :
  kept (view d) -> status (case d) ∉ ["resolved"; "closed"] -> kept (view (auto_resolve now how why d)).
Proof.
  intros Hk Hs. unfold auto_resolve. rewrite view_event, view_resolve, view_left, view_withdrawn.
  apply (kept_resolve _ how Hk). split; intros E; simpl in E; rewrite E in Hs; apply Hs; by_eval.
Qed.

Lemma kept_validate now why d :
  kept (view d) -> status (case d) ∉ UNOWNED ++ ["validate"; "resolved"; "closed"] ->
  kept (view (validate now why d)).
Proof.
  intros Hk Hs. unfold validate. autorewrite with desk. apply kept_aside; [done|split|..].
  4: by right.
  all: intros E; simpl in E; rewrite E in Hs; apply Hs; by_eval.
Qed.

Lemma merge_fields_status f c : status (merge_fields f c) = status c.
Proof. pose proof (merge_fields_kept f c) as H. by injection H. Qed.

Lemma renewed_status c d : renewed c d -> status c = status (case d).
Proof.
  intros [->|(c0 & actor & now & w & d0 & -> & Hu)]; [done|].
  apply view_update in Hu as (Hv & -> & _). rewrite merge_fields_status. by injection Hv.
Qed.

Lemma kept_quiet d d' : quiet d d' -> kept (view d) -> kept (view d').
Proof.
  intros [ ] Hk.
  - by eapply kept_take.
  - by eapply kept_release.
  - match goal with Hu : update _ _ _ _ _ _ _ = _ |- _ => apply view_update in Hu as [-> _] end. done.
  - by eapply kept_resolving.
  - by apply kept_view_requeue.
  - by apply kept_dispatch.
  - by apply kept_validate.
  - by apply kept_auto_resolve.
  - unfold close. autorewrite with desk. by apply kept_close.
  - by rewrite view_reprioritize.
  - match goal with Ha : assign _ _ _ _ _ _ _ _ _ _ = _ |- _ => apply view_routed in Ha as -> end. done.
  - match goal with Hr : read_of _ _ |- _ => destruct Hr as [Hr _] end. by apply kept_to_people.
  - done.
  - erewrite view_columns; [exact Hk| |done]. unfold kept_columns. congruence.
Qed.

Lemma kept_waiting d d' : waiting d d' -> kept (view d) -> kept (view d').
Proof.
  intros [c actor now st admin note d1 d2 Hc H|actor now st given w note d1 d2 H] Hk.
  - eapply kept_pend; [done|by apply renewed_status|done].
  - by apply kept_autopend in H.
Qed.

Lemma kept_quietly d d' : rtc quiet d d' -> kept (view d) -> kept (view d').
Proof. induction 1; [done|]. eauto using kept_quiet. Qed.

Lemma kept_pressed d d' : pressed d d' -> kept (view d) -> kept (view d').
Proof.
  intros [H|[(d1 & H & Hw)|(actor & now & f & sums & orgs & v & p & H & _)]]%pressed_acts Hk.
  - by eapply kept_quietly.
  - eapply kept_waiting; [done|]. by eapply kept_quietly.
  - unfold update_case in H. apply ensure_Ok_inv in H as [_ H%refused_Ok].
    apply fmap_Ok_inv in H as ([d1 c1] & Hu & ->). apply view_update in Hu as [Hv _]. cbn [fst]. by rewrite Hv.
Qed.
