(* ===== verification/CaseLaws.v ===== *)
(** * The laws of a case's life *)
From S2P Require Import Prelude PyLib Agents Cases CaseOps CaseDesk CaseActs CaseView CaseTheorems.

(** ** Nothing changes silently *)

(** Either the row and the feed are as they were, or there is something new on the feed. *)
Definition spoken (d d' : Desk) : Prop :=
  (case d' = case d ∧ feed d' = feed d) ∨ ∃ p new, feed d' = p :: new ++ feed d.

Definition extends (d d' : Desk) : Prop := ∃ new, feed d' = new ++ feed d.

Lemma spoken_refl d : spoken d d.
Proof. by left. Qed.

Lemma spoken_trans d1 d2 d3 : spoken d1 d2 -> spoken d2 d3 -> spoken d1 d3.
Proof.
  unfold spoken. intros [[C1 F1]|(p1 & n1 & F1)] [[C2 F2]|(p2 & n2 & F2)].
  - left. by rewrite C2, F2.
  - right. exists p2, n2. by rewrite F2, F1.
  - right. exists p1, n1. by rewrite F2, F1.
  - right. exists p2, (n2 ++ p1 :: n1). rewrite F2, F1. by rewrite <- app_assoc.
Qed.

Lemma spoken_event text now a d d' : extends d d' -> spoken d (event text now a d').
Proof. intros [new H]. right. eexists _, new. unfold event, noc_post. simpl. by rewrite H. Qed.

Lemma spoken_extends d d' : spoken d d' -> extends d d'.
Proof. intros [[_ F]|(p & n & F)]; [exists []; by rewrite F|by exists (p :: n)]. Qed.

Lemma extends_feed d d' : feed d' = feed d -> extends d d'.
Proof. intros H. exists []. by rewrite H. Qed.

Lemma feed_set_fields f now a d : feed (noc_case_set_fields f now a d) = feed d.
Proof. unfold noc_case_set_fields. by repeat case_match. Qed.
Lemma feed_wake a t b now d : feed (noc_wake a t b now d) = feed d.
Proof. unfold noc_wake. by case_match. Qed.
Lemma feed_summaries (l : list (Z * string)) a d :
  feed (foldl (fun d e => noc_case_set_summary e.1 (strip e.2) a d) d l) = feed d.
Proof. revert d. induction l as [|e l IH]; intros d; simpl; [done|]. by rewrite IH. Qed.
Lemma feed_move st now a t d : feed (noc_case_move st now a t d) = feed d.
Proof. unfold noc_case_move. by destruct t. Qed.
Lemma feed_back now d : feed (back_to_agent now d).1 = feed d.
Proof. unfold back_to_agent. repeat case_match; cbn [fst]; rewrite ?feed_wake; done. Qed.
Lemma feed_enqueue why now d : feed (noc_case_enqueue why now d) = feed d.
Proof. done. Qed.

Lemma spoken_reprioritize now d : spoken d (reprioritize now d).1.
Proof.
  unfold reprioritize. destruct (priority_by (case d)); [apply spoken_refl|].
  destruct (_ <=? _); [apply spoken_refl|]. apply spoken_event. by apply extends_feed.
Qed.

Lemma extends_reprioritize now d d' : feed d' = feed (reprioritize now d).1 -> extends d d'.
Proof. intros H. destruct (spoken_extends _ _ (spoken_reprioritize now d)) as [n Hn]. exists n. by rewrite H. Qed.

Lemma spoken_requeue why now note d : spoken d (requeue why now note d).
Proof.
  unfold requeue. pose proof (feed_back now (noc_case_enqueue why now (reprioritize now d).1)) as H.
  destruct (back_to_agent _ _) as [d' b]. simpl in H. apply spoken_event.
  apply (extends_reprioritize now). by rewrite H.
Qed.

Lemma spoken_take actor now d d' : take (case d) actor now d = Ok d' -> spoken d d'.
Proof.
  unfold take. destruct (bool_decide _ && _); [intros [= ->]; apply spoken_refl|].
  intros (t & _ & [= <-])%bind_Ok_inv. apply spoken_event.
  destruct (in_list _ ["new"; "auto"]); [apply (extends_reprioritize now)|apply extends_feed];
    by destruct (in_list _ UNOWNED).
Qed.

Lemma spoken_update c actor now f sums orgs d d' c' :
  update c actor now f sums orgs d = Ok (d', c') -> spoken d d'.
Proof.
  unfold update. destruct (in_list (status c) _); [done|]. case_match; [|done].
  intros [_ [_ H1]%ensure_Ok_inv]%ensure_Ok_inv. case_match; [|done].
  apply ensure_Ok_inv in H1 as [_ H1]. simpl in H1.
  match type of H1 with context [event ?t now actor ?e] => set (text := t) in H1; set (ee := e) in H1 end.
  injection H1 as <- _. apply spoken_event, extends_feed. unfold ee.
  case_match; simpl; by rewrite feed_summaries, feed_set_fields.
Qed.

Lemma spoken_pend c actor now st admin note d d' : pend c actor now st admin note d = Ok d' -> spoken d d'.
Proof.
  unfold pend. intros [_ (t & _ & H)%bind_Ok_inv]%ensure_Ok_inv. case_match; [|done]. injection H as <-.
  apply spoken_event, extends_feed. rewrite feed_move. by case_match.
Qed.

Lemma spoken_resolve c actor now ca sol cl admin how d d' :
  resolve c actor now ca sol cl admin how d = Ok d' -> spoken d d'.
Proof.
  unfold resolve. intros (t & _ & [_ [_ H]%ensure_Ok_inv]%ensure_Ok_inv)%bind_Ok_inv.
  case_match; [done|]. injection H as <-. apply spoken_event, extends_feed. by case_match.
Qed.

Lemma spoken_assign c id agent actor now trig t esc note d d' :
  assign c id agent actor now trig t esc note d = Ok d' -> spoken d d'.
Proof.
  unfold assign. destruct (in_list _ _); [done|]. intros [_ [= <-]]%ensure_Ok_inv.
  match goal with |- context [event ?t now actor ?e] =>
    pose proof (spoken_event t now actor d e (extends_feed _ _ eq_refl)) as [H|(p & n & H)] end.
  { destruct H as [_ H]. exfalso. revert H. unfold event, noc_post. simpl. intros H.
    apply (f_equal length) in H. simpl in H. lia. }
  right. exists p, n. destruct (wake_on_assignment agent && _); [by rewrite feed_wake|done].
Qed.

Lemma spoken_people c actor now why d : spoken d (hand_to_people c actor now why d).
Proof. apply spoken_event, extends_feed. by case_match. Qed.

Lemma spoken_quiet d d' : quiet d d' -> spoken d d'.
Proof.
  intros [ ].
  - by eapply spoken_take.
  - apply ensure_Ok_inv in H as [_ (t & _ & [= <-])%bind_Ok_inv].
    apply spoken_event. by apply extends_feed.
  - by eapply spoken_update.
  - by eapply spoken_resolve.
  - apply spoken_requeue.
  - unfold dispatch. destruct auto_; apply spoken_event; by apply (extends_reprioritize now).
  - apply spoken_event. by apply extends_feed.
  - apply spoken_event. by apply extends_feed.
  - apply spoken_event. by apply extends_feed.
  - apply spoken_reprioritize.
  - by eapply spoken_assign.
  - apply spoken_people.
  - right. by eexists _, [].
  - by left.
Qed.

Lemma spoken_waiting d d' : waiting d d' -> spoken d d'.
Proof.
  intros [c actor now st admin note d1 d2 Hc H|actor now st given w note d1 d2 H]; [by eapply spoken_pend|].
  unfold auto_pend in H. apply bind_Ok_inv in H as (t & _ & H). simpl in H. case_match; [|done].
  injection H as <-. apply spoken_event, extends_feed. by rewrite feed_move, feed_set_fields.
Qed.

Lemma spoken_quietly d d' : rtc quiet d d' -> spoken d d'.
Proof. induction 1; [apply spoken_refl|]. eauto using spoken_trans, spoken_quiet. Qed.

(** ** Over is over *)

(** What a transaction does to a case that is resolved or closed: nothing to its view, except that a
    resolved one may close. *)
Definition settled (d d' : Desk) : Prop :=
  view d' = view d ∨ (status (case d) = "resolved" ∧ view d' = v_move "closed" None (view d)).

Lemma over_is d : status (case d) ∈ ["resolved"; "closed"] ->
  status (case d) ∉ PENDING ∧ status (case d) ∉ ["new"; "auto"; "queue"; "working"; "validate"].
Proof.
  intros H. split.
  - intros [_ Hp]%pending_is. apply Hp. enum H; rewrite H; by_eval.
  - enum H; rewrite H; by_eval.
Qed.

Lemma not_from act st to t l :
  assoc act FROM = Some l -> st ∉ l -> transition act st to <> Ok t.
Proof. intros Hl Hn H. apply Hn. by eapply transition_from. Qed.

Section over.
Context (d : Desk) (Ho : status (case d) ∈ ["resolved"; "closed"]).

Lemma over_pending : in_list (status (case d)) PENDING = false.
Proof using Ho. apply in_list_false. by apply over_is. Qed.

Lemma over_not w : w ∉ ["resolved"; "closed"] -> status (case d) <> w.
Proof using Ho. intros Hw E. by rewrite E in Ho. Qed.

Lemma over_is_not w : w ∉ ["resolved"; "closed"] -> String.eqb (status (case d)) w = false.
Proof using Ho. intros Hw. apply String.eqb_neq. by apply over_not. Qed.

Lemma over_no_transition act to t :
  act ∈ ["take"; "release"; "pend"; "resolve"; "auto_resolve"; "auto_pend"] ->
  transition act (status (case d)) to <> Ok t.
Proof using Ho.
  destruct (over_is d Ho) as [Hp Hn]. intros Ha H.
  apply transition_inv in H as (l & Hl & Hin & _).
  enum Ha; rewrite Ha in Hl; vm_compute in Hl; injection Hl as <-; clear -Ho Hin;
    enum Ho; rewrite Ho in Hin; revert Hin; by_eval.
Qed.

Lemma settled_refl : settled d d.
Proof. by left. Qed.

Lemma over_people c actor now why :
  status c = status (case d) -> settled d (hand_to_people c actor now why d).
Proof using Ho.
  intros Hc. left. unfold hand_to_people. rewrite Hc, (over_is_not "working") by by_eval.
  by autorewrite with desk.
Qed.

End over.

Lemma over_quiet d d' : quiet d d' -> status (case d) ∈ ["resolved"; "closed"] -> settled d d'.
Proof.
  intros [ ] Ho; unfold settled.
  - unfold take in *. destruct (bool_decide _ && _); [left; congruence|].
    apply bind_Ok_inv in H as (t & Ht & _).
    by apply over_no_transition in Ht; [|done|by_eval].
  - apply ensure_Ok_inv in H as [_ (t & Ht & _)%bind_Ok_inv].
    by apply over_no_transition in Ht; [|done|by_eval].
  - left. by apply view_update in H0 as [-> _].
  - apply bind_Ok_inv in H as (t & Ht & _).
    destruct (String.eqb how "noc"); [apply ensure_Ok_inv in Ht as [_ Ht]|];
      by apply over_no_transition in Ht; [|done|by_eval].
  - exfalso. apply elem_of_cons in H as [H|H].
    + revert Ho. rewrite H. by_eval.
    + destruct (over_is _ Ho) as [Hn _]. by apply Hn.
  - exfalso. revert Ho. rewrite H. by_eval.
  - exfalso. apply H. clear -Ho. enum Ho; rewrite Ho; by_eval.
  - done.
  - right. split; [done|]. unfold close. by autorewrite with desk.
  - left. apply view_reprioritize.
  - left. by eapply view_routed.
  - apply over_people; [done|]. by destruct H.
  - by left.
  - left. apply view_columns; [|done]. unfold kept_columns. congruence.
Qed.

Lemma over_waiting d d' : waiting d d' -> status (case d) ∉ ["resolved"; "closed"].
Proof.
  intros [c actor now st admin note d1 d2 Hc H|actor now st given w note d1 d2 H] Ho.
  - unfold pend in H. apply ensure_Ok_inv in H as [_ (t & Ht & _)%bind_Ok_inv].
    rewrite (renewed_status _ _ Hc) in Ht. by apply over_no_transition in Ht; [|done|by_eval].
  - unfold auto_pend in H. apply bind_Ok_inv in H as (t & Ht & _).
    by apply over_no_transition in Ht; [|done|by_eval].
Qed.

(** Settling goes on: what is settled is still over. *)
Lemma settled_trans d1 d2 d3 :
  settled d1 d2 -> settled d2 d3 -> settled d1 d3.
Proof.
  unfold settled. intros [V1|[S1 V1]] [V2|[S2 V2]].
  - left. congruence.
  - right. split; [|by rewrite V2, V1]. rewrite <- S2. symmetry. exact (f_equal v_status V1).
  - right. split; [done|]. by rewrite V2.
  - right. split; [done|]. by rewrite V2, V1.
Qed.

Lemma settled_over d d' :
  settled d d' -> status (case d) ∈ ["resolved"; "closed"] -> status (case d') ∈ ["resolved"; "closed"].
Proof.
  intros [V|[_ V]] Ho; pose proof (f_equal v_status V) as S; simpl in S; rewrite S; [done|by_eval].
Qed.

Lemma over_quietly d d' : rtc quiet d d' -> status (case d) ∈ ["resolved"; "closed"] -> settled d d'.
Proof.
  induction 1 as [d|d1 d2 d3 H _ IH]; intros Ho; [by left|].
  pose proof (over_quiet _ _ H Ho) as Hs. eapply settled_trans; [exact Hs|]. apply IH. by eapply settled_over.
Qed.

Lemma over_pressed d d' : pressed d d' -> status (case d) ∈ ["resolved"; "closed"] -> settled d d'.
Proof.
  intros [H|[(d1 & H & Hw)|(actor & now & f & sums & orgs & v & p & H & _)]]%pressed_acts Ho.
  - by apply over_quietly.
  - exfalso. apply (over_waiting _ _ Hw). eapply settled_over; [|exact Ho]. by apply over_quietly.
  - left. unfold update_case in H. apply ensure_Ok_inv in H as [_ H%refused_Ok].
    apply fmap_Ok_inv in H as ([d1 c1] & Hu & ->). by apply view_update in Hu as [Hv _].
Qed.

(** ** Waiting takes a complete update *)

(** Two rows that agree on everything a wait needs. *)
Definition agree (c c' : Case) : Prop :=
  next_update_at c = next_update_at c' ∧
  ∀ name, name <> "solution" -> text_of c name = text_of c' name.

#[export] Instance agree_equivalence : Equivalence agree.
Proof.
  split.
  - done.
  - intros c c' [H1 H2]. split; [done|]. intros n Hn. by rewrite H2.
  - intros c1 c2 c3 [H1 H2] [H3 H4]. split; [congruence|]. intros n Hn. by rewrite H2, H4.
Qed.

Lemma missing_agree c c' st now : st <> "resolved" -> agree c c' -> missing c st now = missing c' st now.
Proof.
  intros Hs [H1 H2]. unfold missing. apply String.eqb_neq in Hs. rewrite Hs.
  apply filter_ext_in. intros n Hn. unfold lacks. rewrite H1, H2; [done|].
  intros ->. revert Hn. by_eval.
Qed.

Lemma agree_stamp now a st c : agree (stamp now a (Cases.set_status st now c)) c.
Proof. by split. Qed.

Lemma set_text_agree n v c c' : agree c c' -> agree (set_text n v c) (set_text n v c').
Proof.
  intros [H1 H2]. unfold agree, text_of, set_text in *. split; [by repeat case_match|].
  intros m Hm. specialize (H2 m Hm). revert H2. unfold text_of.
  by repeat (case_match; simpl; try done).
Qed.

Lemma set_text_other n v c : n ∉ EDITABLE -> agree (set_text n v c) c.
Proof.
  intros Hn. unfold set_text.
  repeat match goal with |- context [String.eqb n ?w] => destruct (String.eqb_spec n w) as [->|] end;
    try done; try (exfalso; revert Hn; by_eval); try (exfalso; apply Hn; by_eval).
  split; [done|]. intros m Hm. unfold text_of. apply String.eqb_neq in Hm. rewrite Hm.
  by repeat case_match.
Qed.

Lemma set_texts_editable t c c' :
  agree c c' -> agree (set_texts (filter (fun e => e.1 ∈ EDITABLE) t) c) (set_texts t c').
Proof.
  unfold set_texts. revert c c'. induction t as [|[n v] t IH]; intros c c' H; [done|].
  rewrite filter_cons. case_decide as Hn; simpl in *; apply IH.
  - by apply set_text_agree.
  - etrans; [exact H|]. symmetry. by apply set_text_other.
Qed.

Lemma set_fields_agree f now a d :
  next_update f <> None -> agree (case (noc_case_set_fields f now a d)) (merge_fields f (case d)).
Proof.
  intros Hn. unfold noc_case_set_fields.
  destruct (filter (fun name => name ∈ names f) EDITABLE) as [|x l] eqn:E.
  - exfalso. assert (Hin : "next_update_at" ∈ filter (fun name => name ∈ names f) EDITABLE).
    { apply list_elem_of_filter. split; [|by_eval]. unfold names. destruct (next_update f); [|done].
      apply elem_of_app. right. by left. }
    rewrite E in Hin. by apply not_elem_of_nil in Hin.
  - assert (H : agree (merge_fields (MkFields (filter (fun e => e.1 ∈ EDITABLE) (texts f)) (next_update f)) (case d))
                  (merge_fields f (case d))).
    { unfold merge_fields. simpl. destruct (next_update f) as [w|]; [|done].
      pose proof (set_texts_editable (texts f) (case d) (case d) ltac:(done)) as [_ H].
      split; [done|]. exact H. }
    case_match; exact H.
Qed.

Lemma case_update c actor now f sums orgs d d' c' :
  update c actor now f sums orgs d = Ok (d', c') ->
  case d' = case (noc_case_set_fields f now (ref actor) d).
Proof.
  assert (Hsum : ∀ l d0, case (foldl (fun d (e : Z * string) => noc_case_set_summary e.1 (strip e.2) (ref actor) d) d0 l) = case d0).
  { intros l. induction l as [|e l IH]; intros d0; simpl; [done|]. by rewrite IH. }
  unfold update. destruct (in_list (status c) _); [done|]. case_match; [|done].
  intros [_ [_ H1]%ensure_Ok_inv]%ensure_Ok_inv. case_match; [|done].
  apply ensure_Ok_inv in H1 as [_ H1]. simpl in H1.
  match type of H1 with context [event ?t now actor ?e] => set (text := t) in H1; set (ee := e) in H1 end.
  injection H1 as <- _. unfold event, noc_post. simpl. unfold ee. case_match; simpl; apply Hsum.
Qed.

Lemma case_left now d : case (noc_cycle_left now d) = case d.
Proof. done. Qed.

(** Entering a wait by hand. *)
Lemma pend_complete c actor now st admin note d d' :
  agree c (case d) -> pend c actor now st admin note d = Ok d' ->
  status (case d') = st ∧ missing (case d') st now = [].
Proof.
  intros Hc. unfold pend. intros [_ (t & Ht & H)%bind_Ok_inv]%ensure_Ok_inv.
  destruct (transition_inv _ _ _ _ Ht) as (_ & _ & _ & Hto). simpl in Hto. destruct Hto as [[= ->] Hp].
  case_match eqn:Hm; [|done]. injection H as <-.
  match goal with |- context [noc_case_move t now ?a None ?e] => set (ee := e) end.
  assert (He : case ee = case d) by (unfold ee; by case_match).
  split; [done|]. change (missing (stamp now (ref actor) (Cases.set_status t now (case ee))) t now = []).
  rewrite He. rewrite <- Hm. apply missing_agree; [|].
  - intros ->. apply pending_is in Hp as [_ Hp]. apply Hp. by_eval.
  - etrans; [apply agree_stamp|]. by symmetry.
Qed.

Lemma auto_pend_complete c actor now st given wait_s note d d' :
  c = case d -> auto_pend c actor now st given wait_s note d = Ok (d', true) ->
  status (case d') = st ∧ missing (case d') st now = [].
Proof.
  intros ->. unfold auto_pend. intros (t & Ht & H)%bind_Ok_inv. simpl in H.
  destruct (transition_inv _ _ _ _ Ht) as (_ & _ & _ & Hto). simpl in Hto. destruct Hto as [[= ->] Hp].
  case_match eqn:Hm; [|done]. injection H as <-. split; [done|].
  match goal with |- context [noc_case_move t now ?a None ?e] => set (ee := e) end.
  change (missing (stamp now (ref actor) (Cases.set_status t now (case ee))) t now = []).
  rewrite <- Hm. apply missing_agree.
  - intros ->. apply pending_is in Hp as [_ Hp]. apply Hp. by_eval.
  - etrans; [apply agree_stamp|]. by apply set_fields_agree.
Qed.

(** A transaction that does not put the case in a wait. *)
Definition no_new_wait (d d' : Desk) : Prop :=
  status (case d') ∈ PENDING -> status (case d') = status (case d).

Lemma no_new_wait_trans d1 d2 d3 : no_new_wait d1 d2 -> no_new_wait d2 d3 -> no_new_wait d1 d3.
Proof. unfold no_new_wait. intros H1 H2 H. specialize (H2 H). rewrite H2 in H |- *. auto. Qed.

Lemma no_new_wait_view d d' : view d' = view d -> no_new_wait d d'.
Proof. intros H _. exact (f_equal v_status H). Qed.

Lemma no_new_wait_to d d' st : status (case d') = st -> st ∉ PENDING -> no_new_wait d d'.
Proof. unfold no_new_wait. intros -> H Hp. contradiction. Qed.

Lemma status_view d : status (case d) = v_status (view d).
Proof. done. Qed.

Lemma no_new_wait_requeue why now note d : no_new_wait d (requeue why now note d).
Proof.
  apply no_new_wait_to with (st := "queue"); [|by_eval].
  by rewrite status_view, view_requeue.
Qed.

Lemma no_new_wait_resolve c actor now ca sol cl admin how d d' :
  resolve c actor now ca sol cl admin how d = Ok d' -> no_new_wait d d'.
Proof.
  unfold resolve. intros (t & _ & [_ [_ H]%ensure_Ok_inv]%ensure_Ok_inv)%bind_Ok_inv.
  case_match; [done|]. injection H as <-. by eapply no_new_wait_to; [reflexivity|by_eval].
Qed.

Lemma no_new_wait_quiet d d' : quiet d d' -> no_new_wait d d'.
Proof.
  intros [ ].
  - unfold take in *. destruct (bool_decide _ && _); [apply no_new_wait_view; congruence|].
    apply bind_Ok_inv in H as (t & _ & [= <-]).
    eapply no_new_wait_to with (st := "working"); [|by_eval].
    by destruct (in_list (status _) UNOWNED).
  - apply ensure_Ok_inv in H as [_ (t & _ & [= <-])%bind_Ok_inv].
    by eapply no_new_wait_to; [reflexivity|by_eval].
  - apply no_new_wait_view. by apply view_update in H0 as [-> _].
  - by eapply no_new_wait_resolve.
  - apply no_new_wait_requeue.
  - unfold dispatch. destruct auto_; by eapply no_new_wait_to; [reflexivity|by_eval].
  - by eapply no_new_wait_to; [reflexivity|by_eval].
  - by eapply no_new_wait_to; [reflexivity|by_eval].
  - by eapply no_new_wait_to; [reflexivity|by_eval].
  - apply no_new_wait_view, view_reprioritize.
  - by eapply no_new_wait_view, view_routed.
  - unfold hand_to_people. case_match; [|by apply no_new_wait_view].
    by eapply no_new_wait_to; [reflexivity|by_eval].
  - by apply no_new_wait_view.
  - intros _. congruence.
Qed.

Lemma no_new_wait_quietly d d' : rtc quiet d d' -> no_new_wait d d'.
Proof. induction 1; [by apply no_new_wait_view|]. eauto using no_new_wait_trans, no_new_wait_quiet. Qed.

Lemma set_status_agree (actor : Actor) now c (w : float) d1 c1 d :
  c = case d -> update c actor now (MkFields [] (Some w)) [] [] d = Ok (d1, c1) -> agree c1 (case d1).
Proof.
  intros -> Hu. pose proof (case_update _ _ _ _ _ _ _ _ _ Hu) as Hrow.
  apply view_update in Hu as (_ & -> & _). rewrite Hrow. symmetry. by apply set_fields_agree.
Qed.

Lemma renewed_agree c d : renewed c d -> agree c (case d).
Proof. intros [->|(c0 & actor & now & w & d0 & Hc & Hu)]; [done|]. by eapply set_status_agree. Qed.

Lemma pressed_waits d d' :
  pressed d d' -> no_new_wait d d' ∨ ∃ now, missing (case d') (status (case d')) now = [].
Proof.
  intros [H|[(d1 & _ & Hw)|(actor & now & f & sums & orgs & v & p & H & _)]]%pressed_acts.
  - left. by apply no_new_wait_quietly.
  - right. destruct Hw as [c actor now st admin note d1 d2 Hc H|actor now st given w note d1 d2 H]; exists now.
    + apply pend_complete in H as [-> Hm]; [done|by apply renewed_agree].
    + by apply auto_pend_complete in H as [-> Hm].
  - left. unfold update_case in H. apply ensure_Ok_inv in H as [_ H%refused_Ok].
    apply fmap_Ok_inv in H as ([d1 c1] & Hu & ->). apply view_update in Hu as [Hv _]. by apply no_new_wait_view.
Qed.

(** ** The priority *)

(** The appliance leaves who set the priority alone, never lowers it, and does not touch it once a
    person or an agent set it. *)
Definition sober (d d' : Desk) : Prop :=
  priority_by (case d') = priority_by (case d) ∧
  rank (priority (case d')) <= rank (priority (case d)) ∧
  (priority_by (case d) <> None -> priority (case d') = priority (case d)).

Definition same_priority (d d' : Desk) : Prop :=
  priority_by (case d') = priority_by (case d) ∧ priority (case d') = priority (case d).

Lemma sober_same d d' : same_priority d d' -> sober d d'.
Proof. intros [H1 H2]. unfold sober. rewrite H1, H2. done. Qed.

Lemma sober_refl d : sober d d.
Proof. by apply sober_same. Qed.

Lemma sober_trans d1 d2 d3 : sober d1 d2 -> sober d2 d3 -> sober d1 d3.
Proof.
  intros (B1 & R1 & P1) (B2 & R2 & P2). unfold sober. rewrite B2, B1. split; [done|]. split; [lia|].
  intros H. rewrite P2 by (by rewrite B1). auto.
Qed.

Lemma sober_reprioritize now d : sober d (reprioritize now d).1.
Proof.
  unfold reprioritize. destruct (priority_by (case d)) eqn:B; [apply sober_refl|].
  destruct (Z.leb_spec (rank (priority (case d))) (rank (priority_of (severity d)))); [apply sober_refl|].
  unfold sober. simpl. rewrite B. split; [done|]. split; [lia|done].
Qed.

Lemma same_wake a t b now d : same_priority d (noc_wake a t b now d).
Proof. unfold noc_wake. by case_match. Qed.

Lemma same_back now d : same_priority d (back_to_agent now d).1.
Proof.
  unfold back_to_agent. repeat (case_match; try done); cbn [fst].
  unfold noc_wake. by case_match.
Qed.

Lemma same_move st now a t d : same_priority d (noc_case_move st now a t d).
Proof. unfold noc_case_move. by destruct t. Qed.

Lemma sober_requeue why now note d : sober d (requeue why now note d).
Proof.
  unfold requeue. pose proof (same_back now (noc_case_enqueue why now (reprioritize now d).1)) as H.
  destruct (back_to_agent _ _) as [d' b]. simpl in H.
  eapply sober_trans; [apply (sober_reprioritize now)|]. apply sober_same. exact H.
Qed.

(** Fields with no priority leave it as it is. *)
Lemma set_texts_priority t c :
  "priority" ∉ t.*1 -> priority (set_texts t c) = priority c ∧ priority_by (set_texts t c) = priority_by c.
Proof.
  unfold set_texts. revert c. induction t as [|[n v] t IH]; intros c Hn; [done|].
  simpl in *. rewrite not_elem_of_cons in Hn. destruct Hn as [Hp Hn].
  destruct (IH (set_text n v c) Hn) as [-> ->]. unfold set_text.
  apply not_eq_sym, String.eqb_neq in Hp. rewrite Hp. by repeat case_match.
Qed.

Lemma set_fields_priority f now a d :
  assoc "priority" (texts f) = None -> same_priority d (noc_case_set_fields f now a d).
Proof.
  intros Hp. unfold noc_case_set_fields. case_match; [done|]. rewrite Hp.
  assert (Hn : "priority" ∉ (filter (fun e => e.1 ∈ EDITABLE) (texts f)).*1).
  { intros (e & He & Hin)%list_elem_of_fmap. apply list_elem_of_filter in Hin as [_ Hin].
    apply assoc_None in Hp. apply Hp, list_elem_of_fmap. eauto. }
  destruct (set_texts_priority _ (case d) Hn) as [H1 H2].
  unfold same_priority, merge_fields. simpl. by destruct (next_update f).
Qed.

Lemma sober_update c actor now f sums orgs d d' c' :
  update c actor now f sums orgs d = Ok (d', c') -> assoc "priority" (texts f) = None -> sober d d'.
Proof.
  intros H Hp. apply sober_same. unfold same_priority. rewrite (case_update _ _ _ _ _ _ _ _ _ H).
  by apply set_fields_priority.
Qed.

Lemma sober_people c actor now why d : sober d (hand_to_people c actor now why d).
Proof. apply sober_same. unfold hand_to_people. by case_match. Qed.

Lemma sober_assign c id agent actor now trig t esc note d d' :
  assign c id agent actor now trig t esc note d = Ok d' -> sober d d'.
Proof.
  unfold assign. destruct (in_list _ _); [done|]. intros [_ [= <-]]%ensure_Ok_inv. apply sober_same.
  destruct (wake_on_assignment agent && _); [|done]. unfold noc_wake. by case_match.
Qed.

Lemma sober_pend c actor now st admin note d d' : pend c actor now st admin note d = Ok d' -> sober d d'.
Proof.
  unfold pend. intros [_ (t & _ & H)%bind_Ok_inv]%ensure_Ok_inv. case_match; [|done]. injection H as <-.
  apply sober_same. by case_match.
Qed.

Lemma sober_resolve c actor now ca sol cl admin how d d' :
  resolve c actor now ca sol cl admin how d = Ok d' -> sober d d'.
Proof.
  unfold resolve. intros (t & _ & [_ [_ H]%ensure_Ok_inv]%ensure_Ok_inv)%bind_Ok_inv.
  case_match; [done|]. injection H as <-. apply sober_same. by destruct (String.eqb (status c) "working").
Qed.

Lemma sober_quiet d d' : quiet d d' -> sober d d'.
Proof.
  intros [ ].
  - unfold take in *. destruct (bool_decide _ && _); [simplify_eq; apply sober_refl|].
    apply bind_Ok_inv in H as (t & _ & [= <-]).
    destruct (in_list _ ["new"; "auto"]); [eapply sober_trans; [apply (sober_reprioritize now)|]|];
      apply sober_same; by destruct (in_list (status _) UNOWNED).
  - apply ensure_Ok_inv in H as [_ (t & _ & [= <-])%bind_Ok_inv].
    by apply sober_same.
  - by eapply sober_update.
  - by eapply sober_resolve.
  - apply sober_requeue.
  - unfold dispatch. eapply sober_trans; [apply (sober_reprioritize now)|].
    destruct auto_; by apply sober_same.
  - by apply sober_same.
  - by apply sober_same.
  - by apply sober_same.
  - apply sober_reprioritize.
  - by eapply sober_assign.
  - apply sober_people.
  - by apply sober_same.
  - apply sober_same. split; congruence.
Qed.

Lemma sober_quietly d d' : rtc quiet d d' -> sober d d'.
Proof. induction 1; [apply sober_refl|]. eauto using sober_trans, sober_quiet. Qed.

Lemma sober_waiting d d' : waiting d d' -> sober d d'.
Proof.
  intros [c actor now st admin note d1 d2 Hc H|actor now st given w note d1 d2 H]; [by eapply sober_pend|].
  unfold auto_pend in H. apply bind_Ok_inv in H as (t & _ & H). simpl in H. case_match; [|done].
  injection H as <-. apply sober_same. apply set_fields_priority. cbn [texts]. apply assoc_None.
  intros (e & He & Hin)%list_elem_of_fmap. apply list_elem_of_filter in Hin as [Hin _].
  rewrite <- He in Hin. revert Hin. by_eval.
Qed.

Lemma set_fields_owned f p now a d :
  assoc "priority" (texts f) = Some p -> priority_by (case (noc_case_set_fields f now a d)) = Some a.
Proof.
  intros Hp. unfold noc_case_set_fields.
  destruct (filter (fun name => name ∈ names f) EDITABLE) as [|x l] eqn:E.
  - exfalso. assert (Hin : "priority" ∈ filter (fun name => name ∈ names f) EDITABLE).
    { apply list_elem_of_filter. split; [|by_eval]. unfold names. apply elem_of_app. left.
      apply assoc_Some in Hp. apply list_elem_of_fmap. by eexists (_, _). }
    rewrite E in Hin. by apply not_elem_of_nil in Hin.
  - rewrite Hp. done.
Qed.

(** ** Escalation *)

Lemma climb_total ag fuel seen boss :
  forest ag -> (unseen ag.*1 seen <= fuel)%nat ->
  (∀ s b, s ∈ seen -> boss = Some b -> ∃ m, up ag (S m) s = Some b) ->
  ∃ r, climb fuel ag boss = Some r.
Proof.
  intros Hf. revert seen boss. induction fuel as [|fuel IH]; intros seen [b|] Hu Hs; simpl; eauto;
    destruct (assoc b ag) as [m|] eqn:Hm; eauto; destruct (in_list (a_status m) WORKING); eauto.
  all: assert (Hk : b ∈ ag.*1) by (apply elem_of_keys; eauto).
  all: assert (Hn : b ∉ seen) by (intros Hin; destruct (Hs b b Hin eq_refl) as [k Hk']; by apply forest_up in Hk').
  all: pose proof (unseen_lt _ _ _ Hk Hn).
  - lia.
  - assert (Hb : boss_of ag b = reports_to m) by (unfold boss_of; by rewrite Hm).
    apply (IH (b :: seen)); [lia|]. intros s b' [->|Hin]%elem_of_cons Hb'.
    + exists 0%nat. simpl. by rewrite Hb, Hb'.
    + destruct (Hs s b Hin eq_refl) as [k Hk']. exists (S k). eapply up_snoc; [done|]. by rewrite Hb.
Qed.

(** What the climb finds: everyone below it on the way cannot work. *)
Lemma climb_spec ag fuel boss r :
  climb fuel ag boss = Some r ->
  match r with
  | Some (b, m) => ∃ n c, boss = Some c ∧ up ag n c = Some b ∧ assoc b ag = Some m ∧
      a_status m ∈ WORKING ∧
      ∀ k c', (k < n)%nat -> up ag k c = Some c' -> ∃ a, assoc c' ag = Some a ∧ a_status a ∉ WORKING
  | None => ∀ c k c' a, boss = Some c -> up ag k c = Some c' -> assoc c' ag = Some a -> a_status a ∉ WORKING
  end.
Proof.
  revert boss r. induction fuel as [|fuel IH]; intros [b|] r; simpl.
  2, 4: by intros [= <-].
  all: destruct (assoc b ag) as [m|] eqn:Hm.
  2, 4: intros [= <-] c k c' a [= <-] Hu Ha;
    assert (Hb : boss_of ag b = None) by (unfold boss_of; by rewrite Hm);
    destruct k as [|k]; simpl in Hu; rewrite ?Hb in Hu; simplify_eq/=.
  all: destruct (in_list (a_status m) WORKING) eqn:Hw.
  1, 3: intros [= <-]; apply in_list_true in Hw; exists 0%nat, b; split_and!; try done; lia.
  - done.
  - intros H. apply IH in H. apply in_list_false in Hw.
    assert (Hb : boss_of ag b = reports_to m) by (unfold boss_of; by rewrite Hm).
    destruct r as [[x mx]|].
    + destruct H as (n & c & Hc & Hu & Hx & Hwx & Hbelow). exists (S n), b.
      split; [done|]. split; [simpl; by rewrite Hb, Hc|]. split; [done|]. split; [done|].
      intros [|k] c' Hk Hk'; [simpl in Hk'; simplify_eq; eauto|].
      simpl in Hk'. rewrite Hb, Hc in Hk'. apply (Hbelow k); [lia|done].
    + intros c [|k] c' a [= <-] Hu Ha; simpl in Hu; [by simplify_eq|].
      rewrite Hb in Hu. destruct (reports_to m) as [c2|]; [|done]. by eapply (H c2 k).
Qed.

(** ** The theorems *)

(** C31: In every history of a case, whatever people, agents, playbooks and loops did and in whatever
    order: its status is one of the vocabulary; exactly one take clock runs while it is in the queue
    and none otherwise; at most one stint is being documented, and only while the case is worked;
    nobody owns a case that is new, automated or queued; somebody owns a case being worked; and it
    carries a resolution exactly when it is resolved or closed. *)
Theorem clocks_follow_the_status d :
  lived d ->
  status (case d) ∈ STATUSES.*1 ∧
  count is_open (cycles d) = (if String.eqb (status (case d)) "queue" then 1 else 0)%nat ∧
  (count is_worked (cycles d) <= if String.eqb (status (case d)) "working" then 1 else 0)%nat ∧
  (status (case d) ∈ UNOWNED -> owner (case d) = None) ∧
  (status (case d) = "working" -> owner (case d) <> None) ∧
  (resolution (case d) <> None <-> status (case d) = "resolved" ∨ status (case d) = "closed").
Proof.
  intros (n & sev & at_ & agents & H). change (kept (view d)).
  remember (opened n sev at_ agents) as o eqn:Ho.
  assert (Hk : kept (view o)).
  { subst o. unfold kept. simpl. kept_clauses. }
  clear Ho. induction H as [|x y z Hxy _ IH]; [done|]. apply IH. by eapply kept_pressed.
Qed.

Definition some_person : Actor := MkActor "user:1" "ana" "person" (Some "editor").
Definition nothing_due : Due := MkDue false None true false false None false.
Definition queued_desk : Desk := tick nothing_due f_one (opened 7 None f_one []).

Lemma clocks_follow_the_status_witness :
  ∃ d, take_case some_person f_one queued_desk = Ok d ∧ count is_open (cycles queued_desk) = 1%nat ∧
    count is_open (cycles d) = 0%nat.
Proof.
  assert (L : lived queued_desk).
  { exists 7, None, f_one, []. eapply rtc_l; [apply pressed_tick|apply rtc_refl]. }
  eexists. split; [reflexivity|].
  split; [exact (proj1 (proj2 (clocks_follow_the_status queued_desk L)))|].
  vm_compute. reflexivity.
Defined.

(** C32: Nothing happens to a case silently: a transaction either leaves the row and the feed as they
    were, or puts something new on the feed, and never takes back or alters what the feed said. *)
Theorem nothing_changes_silently d d' :
  pressed d d' ->
  (case d' = case d ∧ feed d' = feed d) ∨ ∃ p new, feed d' = p :: new ++ feed d.
Proof.
  intros [H|[(d1 & H & Hw)|(actor & now & f & sums & orgs & v & p & H & _)]]%pressed_acts.
  - by apply spoken_quietly.
  - eapply spoken_trans; [by apply spoken_quietly|by apply spoken_waiting].
  - unfold update_case in H. apply ensure_Ok_inv in H as [_ H%refused_Ok].
    apply fmap_Ok_inv in H as ([d1 c1] & Hu & ->). by eapply spoken_update.
Qed.

Lemma nothing_changes_silently_witness :
  ∃ p new, feed queued_desk = p :: new ++ feed (opened 7 None f_one []).
Proof.
  destruct (nothing_changes_silently _ _ (pressed_tick nothing_due f_one (opened 7 None f_one [])))
    as [[C _]|H]; [|exact H]. vm_compute in C. discriminate.
Defined.

(** Over is over: once a case is resolved, whatever is done to it afterwards, it stays resolved
    or closes; once closed it stays closed; and its resolution and its owner no longer change, nor
    does a clock start again. *)
Theorem over_is_over d d' :
  status (case d) ∈ ["resolved"; "closed"] -> rtc pressed d d' ->
  (status (case d') = status (case d) ∨ status (case d') = "closed") ∧
  resolution (case d') = resolution (case d) ∧ owner (case d') = owner (case d) ∧
  count is_open (cycles d') = count is_open (cycles d) ∧
  count is_worked (cycles d') = count is_worked (cycles d).
Proof.
  intros Ho H. induction H as [|x y z Hxy _ IH]; [split_and!; by auto|].
  assert (Hy : (status (case y) = status (case x) ∨ status (case y) = "closed") ∧
    resolution (case y) = resolution (case x) ∧ owner (case y) = owner (case x) ∧
    count is_open (cycles y) = count is_open (cycles x) ∧
    count is_worked (cycles y) = count is_worked (cycles x)).
  { destruct (over_pressed x y Hxy Ho) as [V|[_ V]]; unfold view, v_move in V; injection V; intros;
      split_and!; try done; by auto. }
  destruct Hy as (S1 & R1 & O1 & A1 & B1).
  destruct IH as (S2 & R2 & O2 & A2 & B2).
  { destruct S1 as [->| ->]; [done|]. by_eval. }
  rewrite R2, O2, A2, B2, R1, O1, A1, B1. split_and!; try done.
  destruct S2 as [->| ->]; [done|by right].
Qed.

Definition resolved_desk : Desk :=
  tick (MkDue false None false false false (Some (Some "merged")) false) f_one queued_desk.

Lemma over_is_over_witness :
  status (case resolved_desk) = "resolved" ∧
  status (case (tick (MkDue false None false false false None true) f_one resolved_desk)) = "closed" ∧
  owner (case (tick (MkDue false None false false false None true) f_one resolved_desk)) = None.
Proof.
  split; [vm_compute; reflexivity|]. split; [vm_compute; reflexivity|].
  destruct (over_is_over resolved_desk (tick (MkDue false None false false false None true) f_one resolved_desk))
    as (_ & _ & O & _).
  - by_eval.
  - eapply rtc_l; [apply pressed_tick|apply rtc_refl].
  - rewrite O. vm_compute. reflexivity.
Defined.

(** A case is put in a pending status, by hand or by a playbook, only when its own row carries
    the complete customer update and a next update still to come: no field of it is missing at that
    instant. *)
Theorem waiting_needs_a_complete_update d d' :
  pressed d d' -> status (case d') ∈ PENDING -> status (case d') <> status (case d) ->
  ∃ now, missing (case d') (status (case d')) now = [] ∧
    ∃ w, next_update_at (case d') = Some w ∧ fleb w now = false.
Proof.
  intros H Hp Hs. destruct (pressed_waits d d' H) as [Hw|[now Hm]]; [exfalso; by apply Hs, Hw|].
  exists now. split; [done|].
  assert (Hn : "next_update_at" ∉ missing (case d') (status (case d')) now).
  { rewrite Hm. apply not_elem_of_nil. }
  unfold missing in Hn. rewrite list_elem_of_filter in Hn.
  assert (Hr : String.eqb (status (case d')) "resolved" = false).
  { apply String.eqb_neq. intros E. rewrite E in Hp. revert Hp. by_eval. }
  rewrite Hr in Hn. unfold lacks in Hn. simpl in Hn.
  destruct (next_update_at (case d')) as [w|].
  - exists w. split; [done|]. destruct (fleb w now); [|done]. exfalso. apply Hn. split; [done|by_eval].
  - exfalso. apply Hn. split; [done|by_eval].
Qed.

Definition full_update : list (string * string) :=
  [("title", "Link down"); ("description", "d"); ("executive_summary", "e");
   ("current_analysis", "a"); ("noc_next_step", "n"); ("customer_next_step", "c")].
Definition automated_desk : Desk := tick (MkDue false None true true false None false) f_one (opened 7 None f_one []).

Lemma waiting_needs_a_complete_update_witness :
  let d' := run_case (LeafPending "pending_vendor" full_update 3600 "") some_person f_one automated_desk in
  status (case d') = "pending_vendor" ∧
  ∃ now w, next_update_at (case d') = Some w ∧ fleb w now = false.
Proof.
  split; [vm_compute; reflexivity|].
  destruct (waiting_needs_a_complete_update automated_desk
    (run_case (LeafPending "pending_vendor" full_update 3600 "") some_person f_one automated_desk))
    as (now & _ & w & Hw & Hf).
  - apply pressed_run.
  - by_eval.
  - by_eval.
  - eauto.
Defined.

(** Only a person's or an agent's edit lowers a case's priority: any transaction that is not an
    update naming a priority never lowers it, leaves who set it alone, and leaves it unchanged once
    somebody set it; an update that names one puts its author's name on it. *)
Theorem only_an_edit_lowers_the_priority d d' :
  pressed d d' ->
  (priority_by (case d') = priority_by (case d) ∧
   rank (priority (case d')) <= rank (priority (case d)) ∧
   (priority_by (case d) <> None -> priority (case d') = priority (case d))) ∨
  ∃ actor now f sums orgs v p, update_case actor now f sums orgs v d = Ok d' ∧
    assoc "priority" (texts f) = Some p ∧ p ∈ PRIORITIES.*1 ∧ priority_by (case d') = Some (ref actor).
Proof.
  intros [H|[(d1 & H & Hw)|(actor & now & f & sums & orgs & v & p & H & Hp)]]%pressed_acts.
  - left. by apply sober_quietly.
  - left. eapply sober_trans; [by apply sober_quietly|by apply sober_waiting].
  - right. exists actor, now, f, sums, orgs, v, p. split; [done|]. split; [done|].
    unfold update_case in H. apply ensure_Ok_inv in H as [_ H%refused_Ok].
    apply fmap_Ok_inv in H as ([d1 c1] & Hu & ->). cbn [fst].
    rewrite (case_update _ _ _ _ _ _ _ _ _ Hu). rewrite <- (editable_priority f) in Hp.
    split; [|by apply (set_fields_owned _ p)].
    unfold update in Hu. destruct (in_list _ _); [done|]. case_match; [|done].
    apply ensure_Ok_inv in Hu as [Hin _]. cbn [texts] in Hin. rewrite Hp in Hin. by apply in_list_true in Hin.
Qed.

Lemma only_an_edit_lowers_the_priority_witness :
  rank (priority (case queued_desk)) <= rank (priority (case (opened 7 None f_one []))).
Proof.
  destruct (only_an_edit_lowers_the_priority _ _ (pressed_tick nothing_due f_one (opened 7 None f_one [])))
    as [(_ & H & _)|_]; [exact H|]. vm_compute. discriminate.
Defined.

(** Escalating ends and finds the nearest manager who can work: in an organization built by the
    API's own acts, a live case always gets an answer. Either the case is with the first manager up
    from its agent who is idle, running or in error (every nearer one is not), at a tier no lower than
    before; or nobody above can work, and the case is with the people. *)
Theorem escalation_finds_the_nearest_manager actor now why d :
  organized (rows d) -> status (case d) ∉ ["resolved"; "closed"] ->
  ∃ d' who, escalate (case d) (everyone (rows d)) actor now why d = Some (Ok (d', who)) ∧
  ((∃ a n b m, agent_id (case d) = Some a ∧ up (everyone (rows d)) (S n) a = Some b ∧
      assoc b (everyone (rows d)) = Some m ∧ a_status m ∈ WORKING ∧
      (∀ k c r, (k < n)%nat -> up (everyone (rows d)) (S k) a = Some c ->
        assoc c (everyone (rows d)) = Some r -> a_status r ∉ WORKING) ∧
      agent_id (case d') = Some b ∧ who = a_name m ∧ with_people (case d') = false ∧
      tier (case d) <= tier (case d')) ∨
   ((∀ a k c r, agent_id (case d) = Some a -> up (everyone (rows d)) (S k) a = Some c ->
        assoc c (everyone (rows d)) = Some r -> a_status r ∉ WORKING) ∧
      agent_id (case d') = None ∧ with_people (case d') = true)).
Proof.
  intros (Hd & Hf & _)%organized_sound Hs. unfold escalate.
  destruct (climb_total (everyone (rows d)) (length (everyone (rows d))) [] (agent_id (case d) ≫= boss_of (everyone (rows d))))
    as [r Hr]; [done| |by intros s b ?%not_elem_of_nil|].
  { pose proof (unseen_nil (everyone (rows d)).*1 []) as H. by rewrite length_fmap in H. }
  rewrite Hr. simpl. pose proof (climb_spec _ _ _ _ Hr) as Hc. destruct r as [[b m]|].
  - destruct Hc as (n & c & Hboss & Hu & Hm & Hw & Hbelow).
    destruct (agent_id (case d)) as [a|] eqn:Ha; [|done]. simpl in Hboss.
    unfold assign. apply in_list_false in Hs. rewrite Hs.
    apply in_list_true in Hw as Hw'. rewrite Hw'. simpl. do 2 eexists. split; [reflexivity|].
    left. exists a, n, b, m. split; [done|]. split; [by rewrite Hboss|]. split; [done|]. split; [done|].
    assert (Hwake : ∀ x t y e, case (noc_wake x t y now e) = case e) by (intros; unfold noc_wake; by case_match).
    split.
    { intros k c' r' Hk Hk' Hr'. simpl in Hk'. rewrite Hboss in Hk'.
      destruct (Hbelow k c' Hk Hk') as (a' & Ha' & Hn). by simplify_eq. }
    destruct (wake_on_assignment m && _); rewrite ?Hwake; split_and!; try done; apply Z.le_max_l.
  - do 2 eexists. split; [reflexivity|]. right. split; [|done].
    intros a k c r' Ha Hu Hr'. rewrite Ha in Hc. simpl in Hu.
    destruct (boss_of (everyone (rows d)) a) as [b|] eqn:Hb; [|done]. by eapply (Hc b k).
Qed.

Lemma escalation_finds_the_nearest_manager_witness :
  let d := with_rows [(1, agent_of None); (2, agent_of (Some 1))] queued_desk in
  ∃ d' who, escalate (case d) (everyone (rows d)) some_person f_one "late" d = Some (Ok (d', who)) ∧
    with_people (case d') = true.
Proof.
  intros d. destruct (escalation_finds_the_nearest_manager some_person f_one "late" d) as (d' & who & He & H).
  - apply (organized_hire [(1, agent_of None)] 2 (agent_of (Some 1))); try done.
    + apply (organized_hire [] 1 (agent_of None)); try done; [constructor|by_eval].
    + by_eval.
  - by_eval.
  - exists d', who. split; [exact He|]. destruct H as [(a & _ & _ & _ & Ha & _)|(_ & _ & Hp)]; [|exact Hp].
    vm_compute in Ha. discriminate.
Defined.
