(* ===== verification/Executor.v ===== *)
(** * An agent acts on a device ([api/routes/noc_exec.py], [engine/noc/executor.py])

    The check of the lease, the row as it is read again, what is sent, and what is written after the device answered. The
    connection itself is not modelled. *)
From S2P Require Import Prelude PyLib Json Auth Commands Runbook Sealing Leases.

Section executor.
Context (hmac : bytes -> bytes -> bytes) (gcm_decrypt chacha_decrypt : bytes -> bytes -> bytes -> bytes -> option bytes)
        (float_repr : float -> string) (loads : bytes -> option json) (sha256_hex : string -> string) (v : Vault) (b : SecretBox).
Abbreviation open := (box_open gcm_decrypt chacha_decrypt loads v b).

Inductive Action := Ssh (command : string) | Snmp_get (oids : list string) | Reach.
(** What reaches a device. *)
Inductive Sent :=
  | Command (host : string) (port : Z) (pinned : option string) (fields : list (string * string)) (line : string)
  | Get (host : string) (port : Z) (fields : list (string * string)) (oids : list string)
  | Ping (host : string) (port : Z).
Definition kind_fits (a : Action) (k : Credential) : bool :=
  match a with
  | Ssh _ => bool_decide (k_kind k ∈ ["ssh_password"; "ssh_key"]%string)
  | Snmp_get _ => bool_decide (k_kind k ∈ ["snmp_community"; "snmp_v3"]%string)
  | Reach => true
  end.

(** [run]: the check of the lease, the row as it is read again, and what is written after the device answered. *)
Definition exec_check (d : Db) (p : Principal) (caps : list string) (token : string) (a : Action) (now : float) : (problem + (Claims * Z * Credential)) * Db :=
  if negb (is_agent d p) then (inl Forbidden, d)
  else match lease_state hmac loads sha256_hex b d p caps token now with
  | (Broken, d) => (inl Failed, d)
  | (Unusable _, d) => (inl Forbidden, d)
  | (Usable c i k, d) => (if kind_fits a k then inr (c, i, k) else inl Bad_request, d)
  end.
Definition exec_send (d : Db) (id : Z) (checked : Credential) (a : Action) : problem + Sent :=
  match a with
  | Reach => inr (Ping (k_host checked) (k_port checked))
  | _ =>
      match credentials d !! id with
      | None => inl Failed
      | Some k =>
          match open (own_binding float_repr k) (k_sealed k) with
          | Err _ => inl Failed
          | Ok fields =>
              match a with
              | Ssh command => match Commands.check command (k_access k) with
                               | Ok line => inr (Command (k_host k) (k_port k) (k_host_key k) fields line)
                               | Err _ => inl Bad_request
                               end
              | Snmp_get oids => if Nat.leb 1 (length oids) && Nat.leb (length oids) 20 then (match oid_texts oids with Ok wanted => inr (Get (k_host k) (k_port k) fields wanted) | Err _ => inl Bad_request end) else inl Bad_request
              | Reach => inl Failed
              end
          end
      end
  end.
(** [seen]: a host key presented where none was pinned. *)
Definition exec_write (d : Db) (p : Principal) (id lease_id : Z) (seen : option string) (ok : bool) (now : float) : Db :=
  let d := match seen with Some key => noc_set_host_key d id (Some key) | None => d end in
  log_line (noc_use_lease d lease_id now) (MkLine "noc.exec" (if ok then "ok" else "error") (pretty id) (actor p)).

Definition forget_host_key (d : Db) (p : Principal) (caps : list string) (id : Z) (stepped : option bool) : problem * Db + Db :=
  match update_read d p caps id with
  | inl e => inl (e, d)
  | inr _ =>
      match confirm d stepped "noc.secret.update" (pretty id) (actor p) with
      | inl e => inl e
      | inr () => inr (log_line (noc_set_host_key d id None) (MkLine "noc.secret.update" "ok" (pretty id) (actor p)))
      end
  end.

(** [run] with nothing between its parts: an answered request, or the problem. *)
Definition exec (d : Db) (p : Principal) (caps : list string) (token : string) (a : Action) (now : float)
    (answer : Sent -> option string * bool) : problem * Db + (Claims * Sent * Db) :=
  match exec_check d p caps token a now with
  | (inl e, d) => inl (e, d)
  | (inr (c, i, k), d) =>
      match exec_send d (sid c) k a with
      | inl e => inl (e, d)
      | inr s => let '(seen, ok) := answer s in inr (c, s, exec_write d p (sid c) i seen ok now)
      end
  end.
End executor.
