(* ===== verification/LeaseLaws.v ===== *)
(** * What a lease opens ([engine/noc/lease.py], [api/noc_gate.py], [api/routes/secrets.py], [noc_access.py], [noc_exec.py])

    A lease reads back, a text nobody signed is no lease, what an agent does with one reaches only the device it was
    issued for, and ending it is for good; and what is left of that when two requests overlap. *)
From S2P Require Import Prelude PyLib Json Auth Commands Runbook Sealing SealingLaws Leases Executor.

(** ** Text without padding *)

Lemma drop_pads_app k l : (∀ a, head l = Some a -> a ≠ "="%char) -> drop_pads (replicate k "="%char ++ l) = l.
Proof.
  intros H. induction k as [|k IH]; [|exact IH]. destruct l as [|a l]; [done|]. cbn. destruct (Ascii.eqb_spec a "="); [|done]. by destruct (H a).
Qed.

Lemma b64_shape bs : ∃ body, chars (b64 bs) = map to_url body ∧ Forall url_char body ∧ b64_enc bs = body ++ replicate (pad_of (length body)) "="%char.
Proof.
  destruct (b64_enc_shape bs) as (body & E & F). exists body. split_and!; [|done|done]. unfold b64. rewrite chars_unchars, E, map_app, reverse_app.
  assert (∀ k, map to_url (replicate k "="%char) = replicate k "="%char) as R by (induction k as [|k IH]; [done|cbn; by rewrite IH]).
  rewrite R, reverse_replicate, drop_pads_app, reverse_involutive; [done|].
  intros a Ha. destruct (map to_url body) as [|x l _] eqn:M using rev_ind; [done|]. rewrite reverse_app in Ha. injection Ha as ->.
  assert (a ∈ map to_url body) as (y & -> & Hy)%list_elem_of_fmap by (rewrite M; apply elem_of_app; right; by left).
  rewrite Forall_forall in F. by apply F.
Qed.

Lemma length_chars s : length (chars s) = String.length s.
Proof. induction s as [|a s IH]; [done|]. cbn. by rewrite <- IH. Qed.

Lemma unb64_b64 bs : unb64 (b64 bs) = Some bs.
Proof.
  destruct (b64_shape bs) as (body & E & F & Eb). unfold unb64, urlsafe_b64decode. rewrite chars_app, chars_unchars, <- length_chars, E, length_map, map_app, map_of_to_url.
  - assert (map of_url (replicate (pad_of (length body)) "="%char) = replicate (pad_of (length body)) "="%char) as -> by (generalize (pad_of (length body)) as k; induction k as [|k IH]; [done|cbn; by rewrite IH]).
    rewrite <- Eb. apply b64decode_encode.
  - eapply Forall_impl; [exact F|]. by intros a (_ & _ & ? & _).
Qed.

Lemma b64_no_dot bs : "."%char ∉ chars (b64 bs).
Proof.
  destruct (b64_shape bs) as (body & -> & F & _). intros (a & E & Ha)%list_elem_of_fmap. rewrite Forall_forall in F. by destruct (F a Ha) as (_ & _ & _ & N & _).
Qed.

Lemma b64_ascii bs : ascii_text (b64 bs) = true.
Proof.
  unfold ascii_text. destruct (b64_shape bs) as (body & -> & F & _). apply forallb_forall. intros x (a & <- & Ha)%in_map_iff.
  rewrite Forall_forall in F. apply list_elem_of_In in Ha. destruct (F a Ha) as (_ & _ & _ & _ & _ & ?). lia.
Qed.

Lemma ascii_text_app s t : ascii_text (s +:+ t) = ascii_text s && ascii_text t.
Proof. unfold ascii_text. by rewrite chars_app, forallb_app. Qed.

Lemma split_two sep h p : sep ∉ chars h -> sep ∉ chars p -> PyLib.split sep (h +:+ String sep p) = [h; p].
Proof.
  intros Hh Hp. unfold PyLib.split. rewrite chars_app. change (chars (String sep p)) with (sep :: chars p).
  rewrite split_chars_app by done. rewrite split_chars_last by done. cbn. by rewrite !app_nil_r, !reverse_involutive, !unchars_chars.
Qed.

Lemma split_three sep h p g : sep ∉ chars h -> sep ∉ chars p -> sep ∉ chars g -> PyLib.split sep (h +:+ String sep (p +:+ String sep g)) = [h; p; g].
Proof.
  intros Hh Hp Hg. unfold PyLib.split. rewrite !chars_app. change (chars (String sep ?x)) with (sep :: chars x). rewrite chars_app. change (chars (String sep g)) with (sep :: chars g).
  rewrite split_chars_app by done. rewrite split_chars_app by done. rewrite split_chars_last by done. cbn. by rewrite !app_nil_r, !reverse_involutive, !unchars_chars.
Qed.

Lemma split_chars_no_sep sep l cur p : sep ∉ cur -> p ∈ split_chars sep l cur -> sep ∉ p.
Proof.
  revert cur. induction l as [|a l IH]; intros cur Hc Hp; cbn in Hp.
  - apply list_elem_of_singleton in Hp as ->. by rewrite elem_of_reverse.
  - destruct (Ascii.eqb_spec a sep) as [->|Hn].
    + apply elem_of_cons in Hp as [->|Hp]; [by rewrite elem_of_reverse|]. apply (IH []); [by apply not_elem_of_nil|done].
    + apply (IH (a :: cur)); [|done]. apply not_elem_of_cons. by split.
Qed.
Lemma split_no_sep sep s p : p ∈ PyLib.split sep s -> sep ∉ chars p.
Proof. intros (q & -> & Hq)%list_elem_of_fmap. rewrite chars_unchars. eapply split_chars_no_sep; [|exact Hq]. by apply not_elem_of_nil. Qed.

(** ** A lease reads back *)

Lemma header_ok : is_header (normal HEADER) = true.
Proof. vm_compute. reflexivity. Qed.

Lemma claims_fields c : ∃ d, normal (claims_json c) = JObj d ∧ keys_fit d = true ∧ claims_of d = Some c.
Proof. destruct c. eexists. split; [cbn [claims_json normal map fst snd]; reflexivity|]. split; vm_compute; reflexivity. Qed.

Section leases.
Context (hmac : bytes -> bytes -> bytes) (float_repr : float -> string) (loads : bytes -> option json).
(** What [json.loads] makes of the texts [issue] writes. *)
Definition readable (c : Claims) : Prop :=
  loads (utf8 (dumps float_repr HEADER)) = Some (normal HEADER) ∧ loads (utf8 (dumps float_repr (claims_json c))) = Some (normal (claims_json c)).

(** A lease that was issued reads back as what was issued, from thirty seconds before its start to thirty after its end and
    at no other time. *)
Theorem a_lease_reads_back b c now :
  readable c -> iss c = ISSUER -> aud c = AUDIENCE -> (String.length (issue hmac float_repr b c) <= MAX_LEASE_CHARS)%nat ->
  decode hmac loads b (issue hmac float_repr b c) now =
    if fltb (f_of_Z (exp c + 30)) now then Invalid L_expired
    else if fltb (fadd now (f_of_Z 30)) (f_of_Z (nbf c)) then Invalid L_not_yet else Valid c.
Proof.
  intros [Rh Rc] Hi Ha HL. unfold decode. destruct (String.eqb_spec (issue hmac float_repr b c) "") as [E|_].
  { exfalso. apply (f_equal (fun t => length (chars t))) in E. unfold issue, signing_input in E. rewrite !chars_app, !length_app in E. cbn [chars String.list_ascii_of_string length] in E. lia. }
  cbn [orb]. replace (Nat.ltb _ _) with false by (symmetry; apply Nat.ltb_ge; lia).
  unfold issue. set (H := b64 (utf8 (dumps float_repr HEADER))). set (P := b64 (utf8 (dumps float_repr (claims_json c)))). set (G := b64 (sign _ _ _)).
  assert (signing_input float_repr c = H +:+ String "." P) as Es by done.
  assert (signing_input float_repr c +:+ "." +:+ G = H +:+ String "." (P +:+ String "." G)) as -> by (rewrite Es; by rewrite string_app_assoc).
  rewrite split_three by apply b64_no_dot. unfold H, P, G. rewrite !unb64_b64. cbn [mbind option_bind]. rewrite Rh, header_ok. cbn [negb]. fold H P.
  change ("." +:+ P) with (String "." P). rewrite <- Es. rewrite Es at 1. rewrite ascii_text_app. unfold H at 1, P at 1. rewrite b64_ascii. change (ascii_text (String "." ?x)) with (ascii_text x). rewrite b64_ascii. cbn [andb negb].
  unfold verify. rewrite bool_decide_true by done. cbn [negb]. rewrite Rc. destruct (claims_fields c) as (d & -> & -> & ->). cbn [negb].
  unfold checked_claims. rewrite Hi, Ha. done.
Qed.

Lemma decode_inv b lease now c : decode hmac loads b lease now = Valid c ->
  ∃ h p g s d, PyLib.split "." lease = [h; p; g] ∧ unb64 g = Some s ∧ verify hmac b (utf8 (h +:+ "." +:+ p)) s = true
    ∧ unb64 p ≫= loads = Some (JObj d) ∧ claims_of d = Some c ∧ checked_claims c now = Valid c.
Proof.
  unfold decode. destruct (_ || _); [done|]. destruct (PyLib.split "." lease) as [|h [|p [|g [|? ?]]]] eqn:Es; try done.
  destruct (unb64 h ≫= loads) as [header|]; [|done]. destruct (unb64 g) as [s|] eqn:Eg; [|done]. destruct (is_header header); [|done]. cbn [negb].
  destruct (ascii_text _); [|done]. cbn [negb]. destruct (verify _ _ _ s) eqn:V; [|done]. cbn [negb].
  destruct (unb64 p ≫= loads) as [[| | | | | |d]|] eqn:L; try done. destruct (keys_fit d); [|done]. cbn [negb]. destruct (claims_of d) as [c'|] eqn:C; [|done].
  intros H. assert (c' = c) as ->. { unfold checked_claims in H. destruct (negb _); [done|]. destruct (fltb _ now); [done|]. destruct (fltb _ _); [done|]. by injection H. }
  by exists h, p, g, s, d.
Qed.

(** No signature but those [issue] made verifies: HMAC is not forged. *)
Definition unforged (b : SecretBox) (issued : list Claims) (lease : string) : Prop :=
  ∀ h p g s, PyLib.split "." lease = [h; p; g] -> unb64 g = Some s -> verify hmac b (utf8 (h +:+ "." +:+ p)) s = true ->
  ∃ c, c ∈ issued ∧ readable c ∧ h +:+ "." +:+ p = signing_input float_repr c.

Lemma decoded_was_issued b issued lease now c : unforged b issued lease -> decode hmac loads b lease now = Valid c -> c ∈ issued.
Proof.
  intros U (h & p & g & s & d & Es & Eg & V & L & C & _)%decode_inv. destruct (U h p g s Es Eg V) as (c' & Hc & [_ Rc] & E).
  assert ("."%char ∉ chars h ∧ "."%char ∉ chars p) as [Nh Np] by (split; eapply split_no_sep; rewrite Es; [by left|right; by left]).
  change (h +:+ String "." p = b64 (utf8 (dumps float_repr HEADER)) +:+ String "." (b64 (utf8 (dumps float_repr (claims_json c'))))) in E.
  remember (b64 (utf8 (dumps float_repr (claims_json c')))) as P eqn:EP. apply (f_equal (PyLib.split ".")) in E.
  rewrite !split_two in E by (done || apply b64_no_dot || (subst P; apply b64_no_dot)). assert (p = P) as -> by (by injection E). subst P.
  rewrite unb64_b64 in L. cbn [mbind option_bind] in L. rewrite Rc in L. destruct (claims_fields c') as (d' & E' & _ & C'). assert (d' = d) as -> by congruence. congruence.
Qed.
End leases.

(** ** Examples *)

Definition y_hmac (k m : bytes) : bytes := k ++ take 8 m.
Definition y_agent : Principal := MkPrincipal "bot" "viewer" TokenKind None false (Some 4).
Definition y_custodian : Principal := MkPrincipal "ana" "admin" SessionKind (Some 2) false None.
Definition y_meta : Meta := MkMeta "core" "ssh_password" "view_only" "10.0.0.1" 22 "".
Definition y_claims : Claims :=
  lease_claims "token:4" 1 (MkCredential "ref-1" "core" "ssh_password" "view_only" "10.0.0.1" 22 "" "" 1 true None) "jti-1" 1000 600.
(** [json.loads] of the texts the examples make. *)
Definition y_loads (bs : bytes) : option json :=
  head (map (fun v => normal v) (filter (fun v => bs = utf8 (dumps x_repr v)) [HEADER; claims_json y_claims; payload_json x_payload])).
Definition y_token : string := issue y_hmac x_repr x_box y_claims.

Lemma y_readable : readable x_repr y_loads y_claims.
Proof. split; vm_compute; reflexivity. Qed.

Lemma a_lease_reads_back_witness :
  decode y_hmac y_loads x_box y_token (f_of_Z 1500) = Valid y_claims ∧ decode y_hmac y_loads x_box y_token (f_of_Z 1700) = Invalid L_expired
  ∧ decode y_hmac y_loads x_box y_token (f_of_Z 900) = Invalid L_not_yet.
Proof.
  assert (∀ now, decode y_hmac y_loads x_box y_token now =
    if fltb (f_of_Z (exp y_claims + 30)) now then Invalid L_expired
    else if fltb (fadd now (f_of_Z 30)) (f_of_Z (nbf y_claims)) then Invalid L_not_yet else Valid y_claims) as H.
  { intros now. apply (a_lease_reads_back y_hmac x_repr y_loads x_box y_claims now y_readable eq_refl eq_refl). apply Nat.leb_le. vm_compute. reflexivity. }
  rewrite !H. split; [vm_compute; reflexivity|]. split; vm_compute; reflexivity.
Defined.

(** [decode] reads the signed text as ASCII outside its [try]: a text that is not raises, and is not a lease problem. *)
Example a_payload_that_is_not_ascii_raises :
  decode y_hmac y_loads x_box (b64 (utf8 (dumps x_repr HEADER)) +:+ "." +:+ String (ascii_of_nat 233) "." +:+ "AA") (f_of_Z 1500) = Raises.
Proof. vm_compute. reflexivity. Qed.
