(* ===== verification/LeaseSystem.v ===== *)
(** * Requests on the vault, one after another and overlapping ([api/routes/secrets.py], [noc_access.py], [noc_exec.py])

    The requests as steps over the rows, the leases issued so far, and the rows an edit has read but not yet written. An edit
    waits for its confirmation between the two; every other request is one step. *)
From S2P Require Import Prelude PyLib Json Auth Commands Runbook Sealing SealingLaws Leases Executor LeaseLaws.

Record World := MkWorld { db : Db; issued : list Claims; editing : list (Z * Credential) }.

Section system.
Context (hmac : bytes -> bytes -> bytes) (gcm_encrypt chacha_encrypt : bytes -> bytes -> bytes -> bytes -> bytes)
        (gcm_decrypt chacha_decrypt : bytes -> bytes -> bytes -> bytes -> option bytes) (float_repr : float -> string)
        (loads : bytes -> option json) (sha256_hex : string -> string) (v : Vault) (b : SecretBox).
Abbreviation do_create := (create_secret gcm_encrypt chacha_encrypt float_repr v b).
Abbreviation do_update := (update_secret gcm_encrypt chacha_encrypt gcm_decrypt chacha_decrypt float_repr loads v b).
Abbreviation do_decide := (update_decide gcm_encrypt chacha_encrypt gcm_decrypt chacha_decrypt float_repr loads v b).
Abbreviation do_reveal := (reveal_secret gcm_decrypt chacha_decrypt float_repr loads v b).
Abbreviation do_exec := (exec hmac gcm_decrypt chacha_decrypt float_repr loads sha256_hex v b).
Abbreviation do_issue := (issue_lease hmac float_repr sha256_hex b).
Abbreviation do_introspect := (introspect hmac loads sha256_hex b).

(** A request but an edit: the leases it issues and the rows it leaves. *)
Inductive request (d : Db) : list Claims -> Db -> Prop :=
  | Create p caps r m fields f id d' : do_create d p caps r m fields f = inr (id, d') -> request d [] d'
  | Delete p caps id s d' : delete_secret d p caps id s = inr d' -> request d [] d'
  | Reveal p caps id s fields d' : do_reveal d p caps id s = inr (fields, d') -> request d [] d'
  | Agents p caps id on s now d' : agent_access d p caps id on s now = inr d' -> request d [] d'
  | Grant p subject role user fit on s now d' : set_grant d p subject role user fit on s now = inr d' -> request d [] d'
  | Issue p id ttl fresh now c t d' : do_issue d p id ttl fresh now = inr (c, t, d') -> request d [c] d'
  | Introspect p caps t now c d' : do_introspect d p caps t now = inr (c, d') -> request d [] d'
  | Revoke p caps id now d' : revoke_lease d p caps id now = inr d' -> request d [] d'
  | Act p caps t a now answer c s d' : do_exec d p caps t a now answer = inr (c, s, d') -> request d [] d'
  | Forget p caps id s d' : forget_host_key d p caps id s = inr d' -> request d [] d'
  (** A refusal changes the log only. *)
  | Refused a : request d [] (log_line d a).

(** One request at a time. *)
Inductive serial (w : World) : World -> Prop :=
  | S_request cs d' : request (db w) cs d' -> serial w (MkWorld d' (issued w ++ cs) (editing w))
  | S_update p caps id m fields s f now d' : do_update (db w) p caps id m fields s f now = inr d' -> serial w (MkWorld d' (issued w) (editing w)).

(** The same, with an edit in two parts. *)
Inductive overlapping (w : World) : World -> Prop :=
  | O_request cs d' : request (db w) cs d' -> overlapping w (MkWorld d' (issued w ++ cs) (editing w))
  | O_read p caps id k : update_read (db w) p caps id = inr k -> overlapping w (MkWorld (db w) (issued w) ((id, k) :: editing w))
  | O_write id k m fields f sealed resealed now p d' : (id, k) ∈ editing w -> do_decide k m fields f = inr (sealed, resealed) ->
      update_write (db w) id k m sealed resealed now p = inr d' -> overlapping w (MkWorld d' (issued w) (editing w)).

Definition no_rows : World := MkWorld (MkDb ∅ ∅ ∅ 1 1 []) [] [].

(** ** What a request leaves of the credentials *)

(** What neither an agent's switch nor a host key changes. *)
Definition facts (k : Credential) : string * Meta * string * Z := (k_ref k, meta_of k, k_sealed k, k_version k).
(** The rows that are left kept their facts. *)
Definition quiet (d d' : Db) : Prop :=
  next_credential d' = next_credential d ∧ ∀ id k', credentials d' !! id = Some k' -> ∃ k, credentials d !! id = Some k ∧ facts k' = facts k.

Lemma quiet_refl d : quiet d d. Proof. split; eauto. Qed.
Lemma quiet_same d d' : next_credential d' = next_credential d -> credentials d' = credentials d -> quiet d d'.
Proof. intros E H. split; [done|]. rewrite H. eauto. Qed.
Lemma quiet_trans d1 d2 d3 : quiet d1 d2 -> quiet d2 d3 -> quiet d1 d3.
Proof. intros [E1 H1] [E2 H2]. split; [congruence|]. intros id k3 (k2 & K2 & F2)%H2. destruct (H1 _ _ K2) as (k1 & ? & ?). exists k1. split; congruence. Qed.

Lemma quiet_host_key d id key : quiet d (noc_set_host_key d id key).
Proof.
  split; [done|]. intros i k' H. cbn in H. destruct (decide (i = id)) as [->|N].
  - rewrite lookup_alter_eq in H. apply fmap_Some in H as (k & ? & ->). by exists k.
  - rewrite lookup_alter_ne in H by done. eauto.
Qed.
Lemma quiet_agents d id on : quiet d (noc_set_agent_access d id on).2.
Proof.
  unfold noc_set_agent_access. destruct (credentials d !! id) as [k|] eqn:E; [|apply quiet_refl]. destruct (Bool.eqb _ _); [apply quiet_refl|].
  split; [done|]. intros i k' H. cbn in H. destruct (decide (i = id)) as [->|N].
  - rewrite lookup_insert_eq in H. injection H as <-. by exists k.
  - rewrite lookup_insert_ne in H by done. eauto.
Qed.
Lemma quiet_delete d id d' : noc_delete_secret d id = Some d' -> quiet d d'.
Proof.
  unfold noc_delete_secret. destruct (credentials d !! id); [|done]. intros [= <-]. split; [done|]. intros i k' H. cbn in H.
  apply lookup_delete_Some in H as [_ ?]. eauto.
Qed.

(** [c] names what [k] is for. *)
Definition describes (c : Claims) (k : Credential) : Prop :=
  c_ref c = k_ref k ∧ c_kind c = k_kind k ∧ c_host c = k_host k ∧ c_port c = k_port k ∧ scope c = k_access k.
Definition sealed_for_itself (k : Credential) : Prop :=
  ∃ f fields, box_seal gcm_encrypt chacha_encrypt float_repr v b f (own_binding float_repr k) fields = Ok (k_sealed k).

#[local] Hint Resolve quiet_refl quiet_host_key quiet_agents quiet_delete : core.
#[local] Hint Extern 1 (quiet _ _) => (by apply quiet_same) : core.

Lemma quiet_log d d' a : quiet d d' -> quiet d (log_line d' a).
Proof. intros. eapply quiet_trans; [done|]. by apply quiet_same. Qed.
#[local] Hint Resolve quiet_log : core.

Lemma confirm_ok d s action object who : confirm d s action object who = inr () -> s = Some true.
Proof. destruct s as [[]|]; done. Qed.

Lemma create_effect d p caps r m fields f id d' : do_create d p caps r m fields f = inr (id, d') ->
  id = next_credential d ∧ ∃ row, sealed_for_itself row ∧ next_credential d' = next_credential d + 1 ∧ credentials d' = <[next_credential d := row]> (credentials d).
Proof.
  unfold create_secret. destruct (negb _); [done|]. destruct fields as [fields|]; [|done]. destruct (box_seal _ _ _ _ _ _ _ _) as [sealed|] eqn:E; [|done].
  cbn [noc_create_secret]. intros [= <- <-]. split; [done|]. eexists. split; [|done]. exists f, fields. destruct m. exact E.
Qed.

Lemma issue_effect d p id ttl fresh now c t d' : do_issue d p id ttl fresh now = inr (c, t, d') ->
  quiet d d' ∧ (∃ k, credentials d !! sid c = Some k ∧ ver c = k_version k ∧ describes c k) ∧ is_agent d p = true ∧ ref p = Some (sub c)
  ∧ t = issue hmac float_repr b c ∧ ∃ i row, noc_create_lease d row = Some (i, MkDb (credentials d') (lease_rows d') (grants d') (next_credential d') (next_lease d') (audit d))
      ∧ l_hash row = sha256_hex (jti c) ∧ l_secret row = sid c ∧ l_subject row = sub c ∧ l_expires row = f_of_Z (exp c) ∧ l_revoked row = None
      ∧ MIN_TTL_S <= exp c - iat c <= MAX_TTL_S ∧ (noc_live_leases d (sub c) now < MAX_LIVE_LEASES)%nat ∧ grants d' = grants d.
Proof.
  unfold issue_lease. destruct (_ && _) eqn:T; [|done]. cbn [negb]. unfold lease_read. destruct (is_agent d p) eqn:A; [|done]. cbn [negb].
  destruct (ref p) as [r|] eqn:R; [|done]. destruct (credentials d !! id) as [k|] eqn:K; [|done]. destruct (device k); [|done]. cbn [negb].
  destruct (Nat.leb_spec MAX_LIVE_LEASES (noc_live_leases d r now)) as [|L]; [done|]. set (c0 := lease_claims _ _ _ _ _ _).
  unfold lease_write. destruct (noc_create_lease d _) as [[i d1]|] eqn:C; [|done]. cbn [mbind option_bind]. intros [= <- <- <-].
  assert (audit d1 = audit d ∧ next_credential d1 = next_credential d ∧ credentials d1 = credentials d ∧ grants d1 = grants d) as (Ea & En & Ec & Eg)
    by (unfold noc_create_lease in C; destruct (bool_decide _); by simplify_eq/=).
  split_and!; try done; [by apply quiet_log, quiet_same|by exists k|].
  exists i. eexists. split; [rewrite C; do 2 f_equal; cbn; rewrite <- Ea; by destruct d1|]. split_and!; try done; cbn; unfold MIN_TTL_S, MAX_TTL_S in *; lia.
Qed.

Lemma usable_inv d p caps t now c i k d' : lease_state hmac loads sha256_hex b d p caps t now = (Usable c i k, d') ->
  d' = d ∧ decode hmac loads b t now = Valid c ∧ lease_refused sha256_hex d p (is_custodian d p caps) c now = None
  ∧ (∃ row, noc_lease_by_digest d (sha256_hex (jti c)) = Some (i, row)) ∧ credentials d !! sid c = Some k.
Proof.
  unfold lease_state. destruct (decode _ _ _ _ _) as [c'| |]; try done. destruct (lease_refused _ _ _ _ _ _) eqn:R; [done|].
  destruct (noc_lease_by_digest _ _) as [[i' row]|] eqn:L; [|done]. destruct (credentials d !! _) eqn:K; [|done]. intros [= <- <- <- <-]. split_and!; eauto.
Qed.
Lemma unusable_log d p caps t now r d' : lease_state hmac loads sha256_hex b d p caps t now = (Unusable r, d') -> d' = d ∨ ∃ a, d' = log_line d a.
Proof.
  unfold lease_state. destruct (decode _ _ _ _ _) as [c'|e|]; [|intros [= _ <-]; by left|done]. destruct (lease_refused _ _ _ _ _ _) as [[]|]; [intros [= _ <-]; eauto..|].
  destruct (noc_lease_by_digest _ _) as [[]|]; [|done]. by destruct (credentials d !! _).
Qed.
Lemma exec_inv d p caps t a now answer c s d' : do_exec d p caps t a now answer = inr (c, s, d') ->
  is_agent d p = true ∧ ∃ i k, lease_state hmac loads sha256_hex b d p caps t now = (Usable c i k, d) ∧ kind_fits a k = true
  ∧ exec_send gcm_decrypt chacha_decrypt float_repr loads v b d (sid c) k a = inr s ∧ d' = exec_write d p (sid c) i (answer s).1 (answer s).2 now.
Proof.
  unfold exec, exec_check. destruct (is_agent d p); [|done]. cbn [negb]. destruct (lease_state _ _ _ _ _ _ _ _ _) as [[c2 i2 k2|r|] d2] eqn:L; try done.
  destruct (kind_fits a k2) eqn:F; [|done]. pose proof (usable_inv _ _ _ _ _ _ _ _ _ L) as [-> _].
  destruct (exec_send _ _ _ _ _ _ _ _ _ _) as [|s'] eqn:S; [done|]. destruct (answer s') as [seen ok] eqn:A. intros [= <- <- <-]. split; [done|]. exists i2, k2. by rewrite A.
Qed.

Lemma request_effect d cs d' : request d cs d' ->
  (cs = [] ∧ quiet d d')
  ∨ (cs = [] ∧ ∃ row, sealed_for_itself row ∧ next_credential d' = next_credential d + 1 ∧ credentials d' = <[next_credential d := row]> (credentials d))
  ∨ (∃ c k, cs = [c] ∧ quiet d d' ∧ credentials d !! sid c = Some k ∧ ver c = k_version k ∧ describes c k).
Proof.
  intros [p caps r m fields f id d1 H|p caps id s d1 H|p caps id s fields d1 H|p caps id on s now d1 H|p subject role user fit on s now d1 H|p id ttl fresh now c t d1 H|p caps t now c d1 H|p caps id now d1 H|p caps t a now answer c s d1 H|p caps id s d1 H|a].
  1: (right; left). 6: (right; right). all: try (left; split; [done|]).
  - apply create_effect in H as [_ ?]. done.
  - unfold delete_secret, update_read in H. destruct (negb _); [done|]. destruct (credentials d !! id); [|done].
    destruct (confirm _ _ _ _ _) as [|[]]; [done|]. destruct (noc_delete_secret d id) eqn:E; [|done]. injection H as <-. eauto.
  - unfold reveal_secret, update_read in H. destruct (negb _); [done|]. destruct (credentials d !! id); [|done].
    destruct (confirm _ _ _ _ _) as [|[]]; [done|]. destruct (box_open _ _ _ _ _ _ _); [|done]. injection H as <- <-. eauto.
  - unfold agent_access, update_read in H. destruct (negb _); [done|]. destruct (credentials d !! id); [|done].
    destruct (if on then _ else _) as [|[]]; [done|]. pose proof (quiet_agents d id on) as Q. destruct (noc_set_agent_access d id on) as [ch d2]. cbn in Q.
    destruct (if on then _ else _) as [n d3] eqn:E. assert (quiet d d3) by (destruct on; injection E as _ <-; [done|by eapply quiet_trans; [exact Q|apply quiet_same]]).
    injection H as <-. destruct (_ || _); eauto.
  - unfold set_grant in H. destruct (negb _); [done|]. destruct (negb fit); [done|]. destruct (if on then _ else _) as [|[]]; [done|].
    cbn [noc_set_grant] in H. destruct (if _ && _ then _ else _) as [n d3] eqn:E. assert (quiet d d3) by (destruct (_ && _); injection E as _ <-; by apply quiet_same).
    injection H as <-. destruct (_ || _); eauto.
  - destruct (issue_effect _ _ _ _ _ _ _ _ _ H) as (Q & (k & ? & ? & ?) & _). by exists c, k.
  - unfold introspect in H. destruct (lease_state _ _ _ _ _ _ _ _ _) as [[c' i k|r|] d2] eqn:E; [| |done]; injection H as <- <-.
    + apply usable_inv in E as [-> _]. apply quiet_log. by apply quiet_same.
    + apply unusable_log in E as [->|[a ->]]; eauto.
  - unfold revoke_lease in H. destruct (lease_rows d !! id) eqn:E; [|done]. destruct (negb _); [done|]. unfold noc_revoke_lease in H. rewrite E in H.
    destruct (revocable _); injection H as <-; eauto.
  - apply exec_inv in H as (_ & i & k & _ & _ & _ & ->). unfold exec_write. apply quiet_log. destruct ((answer s).1) as [key|]; [|by apply quiet_same].
    eapply quiet_trans; [apply (quiet_host_key d (sid c) (Some key))|]. by apply quiet_same.
  - unfold forget_host_key, update_read in H. destruct (negb _); [done|]. destruct (credentials d !! id); [|done].
    destruct (confirm _ _ _ _ _) as [|[]]; [done|]. injection H as <-. eauto.
  - eauto.
Qed.
End system.
