(* ===== verification/LeaseSafety.v ===== *)
(** * What holds of the vault's requests ([api/routes/secrets.py], [noc_access.py], [noc_exec.py])

    One request at a time, what an agent sends reaches the device its lease names and nothing else. Overlapping, every row still
    holds a seal of its own binding and an ended lease stays ended; that a lease of the current version names the row's device
    does not hold any more. *)
From S2P Require Import Prelude PyLib Json Auth Commands Runbook Sealing SealingLaws Leases Executor LeaseLaws LeaseSystem.

Section safety.
Context (hmac : bytes -> bytes -> bytes) (gcm_encrypt chacha_encrypt : bytes -> bytes -> bytes -> bytes -> bytes)
        (gcm_decrypt chacha_decrypt : bytes -> bytes -> bytes -> bytes -> option bytes) (float_repr : float -> string)
        (loads : bytes -> option json) (sha256_hex : string -> string) (v : Vault) (b : SecretBox).
Abbreviation open := (box_open gcm_decrypt chacha_decrypt loads v b).
Abbreviation do_exec := (exec hmac gcm_decrypt chacha_decrypt float_repr loads sha256_hex v b).
Abbreviation do_decide := (update_decide gcm_encrypt chacha_encrypt gcm_decrypt chacha_decrypt float_repr loads v b).
Abbreviation request := (LeaseSystem.request hmac gcm_encrypt chacha_encrypt gcm_decrypt chacha_decrypt float_repr loads sha256_hex v b).
Abbreviation serial := (LeaseSystem.serial hmac gcm_encrypt chacha_encrypt gcm_decrypt chacha_decrypt float_repr loads sha256_hex v b).
Abbreviation overlapping := (LeaseSystem.overlapping hmac gcm_encrypt chacha_encrypt gcm_decrypt chacha_decrypt float_repr loads sha256_hex v b).
Abbreviation sealed_for_itself := (LeaseSystem.sealed_for_itself gcm_encrypt chacha_encrypt float_repr v b).

(** ** Rows and versions *)

Definition ids_below (d : Db) : Prop := ∀ id k, credentials d !! id = Some k -> id < next_credential d.
(** A lease of the row's version names what the row is for. *)
Definition versions_agree (d : Db) (c : Claims) : Prop :=
  sid c < next_credential d ∧ ∀ k, credentials d !! sid c = Some k -> ver c <= k_version k ∧ (ver c = k_version k -> describes c k).

Lemma facts_eq k k' : facts k' = facts k -> k_ref k' = k_ref k ∧ k_sealed k' = k_sealed k ∧ k_version k' = k_version k ∧ meta_of k' = meta_of k
  ∧ ∀ c, describes c k -> describes c k'.
Proof. destruct k, k'. unfold facts, meta_of. cbn. intros [= -> -> -> -> -> -> -> -> ->]. done. Qed.

Lemma quiet_ids d d' : quiet d d' -> ids_below d -> ids_below d'.
Proof. intros [E H] I id k' (k & ? & _)%H. rewrite E. eauto. Qed.
Lemma quiet_versions d d' c : quiet d d' -> versions_agree d c -> versions_agree d' c.
Proof.
  intros [E H] [L V]. split; [by rewrite E|]. intros k' (k & K & F)%H. apply facts_eq in F as (_ & _ & -> & _ & D). destruct (V k K) as [? V']. split; [done|eauto].
Qed.

Lemma write_effect d id cur m sealed resealed now p d' : update_write d id cur m sealed resealed now p = inr d' ->
  (∃ k, credentials d !! id = Some k) ∧ quiet (noc_update_secret d id m sealed resealed) d'.
Proof.
  unfold update_write. destruct (credentials d !! id) as [k|]; [|done]. intros [= <-]. split; [by exists k|]. set (d1 := noc_update_secret _ _ _ _ _).
  apply quiet_log. destruct resealed, (moved cur m); cbn [noc_revoke_secret_leases revoke_where snd]; try apply quiet_host_key; try by apply quiet_same.
  eapply quiet_trans; [|apply quiet_host_key]. by apply quiet_same.
Qed.

Lemma updated_lookup d id m sealed resealed i k' : credentials (noc_update_secret d id m sealed resealed) !! i = Some k' ->
  ∃ k, credentials d !! i = Some k ∧ (i ≠ id ∧ k' = k ∨ i = id ∧ k' = written k m sealed resealed).
Proof.
  cbn. destruct (decide (i = id)) as [->|N].
  - rewrite lookup_alter_eq. intros (k & ? & ->)%fmap_Some. exists k. eauto.
  - rewrite lookup_alter_ne by done. eauto.
Qed.
Lemma updated_ids d id m sealed resealed : ids_below d -> ids_below (noc_update_secret d id m sealed resealed).
Proof. intros I i k' (k & ? & _)%updated_lookup. eauto. Qed.

Lemma not_rebound before m : rebound before m = false ->
  m_kind m = m_kind before ∧ m_host m = m_host before ∧ m_port m = m_port before ∧ m_protocol m = m_protocol before ∧ m_access m = m_access before.
Proof. unfold rebound. rewrite negb_false_iff, !andb_true_iff, !String.eqb_eq, Z.eqb_eq. intuition congruence. Qed.

Lemma decide_cases cur m fields f sealed resealed : do_decide cur m fields f = inr (sealed, resealed) ->
  resealed = false ∧ sealed = k_sealed cur ∧ rebound (meta_of cur) m = false
  ∨ resealed = true ∧ ∃ payload, box_seal gcm_encrypt chacha_encrypt float_repr v b f (binding float_repr (k_ref cur) m) payload = Ok sealed.
Proof.
  unfold update_decide. destruct (_ && negb (String.eqb _ _)); [done|]. destruct (_ && _) eqn:R.
  - intros [= <- <-]. left. apply andb_true_iff in R as [_ R%negb_true_iff]. done.
  - destruct (match fields with Some _ => _ | None => _ end) as [payload|]; [|done]. destruct (box_seal _ _ _ _ _ _ _ _) as [s|] eqn:E; [|done].
    intros [= <- <-]. right. eauto.
Qed.

Lemma update_inv d p caps id m fields s f now d' : update_secret gcm_encrypt chacha_encrypt gcm_decrypt chacha_decrypt float_repr loads v b d p caps id m fields s f now = inr d' ->
  s = Some true ∧ is_custodian d p caps = true ∧ ∃ k sealed resealed, credentials d !! id = Some k ∧ do_decide k m fields f = inr (sealed, resealed) ∧ update_write d id k m sealed resealed now p = inr d'.
Proof.
  unfold update_secret, update_read. destruct (is_custodian d p caps); [|done]. cbn [negb]. destruct (credentials d !! id) as [k|] eqn:K; [|done].
  destruct (confirm _ _ _ _ _) as [|[]] eqn:C; [done|]. apply confirm_ok in C. destruct (update_decide _ _ _ _ _ _ _ _ _ _ _ _) as [|[sealed resealed]] eqn:E; [done|].
  destruct (update_write _ _ _ _ _ _ _ _) eqn:W; [done|]. intros [= <-]. split_and!; [done|done|]. exists k, sealed, resealed. done.
Qed.

Definition bound (w : World) : Prop := ids_below (db w) ∧ ∀ c, c ∈ issued w -> versions_agree (db w) c.

Lemma bound_serial w w' : serial w w' -> bound w -> bound w'.
Proof.
  intros [cs d' H|p caps id m fields s f now d' H] [I V].
  - apply request_effect in H as [[-> Q]|[(-> & row & _ & En & Ec)|(c & k & -> & Q & K & Ev & D)]]; (split; cbn [db issued]; [|intros c'; rewrite ?app_nil_r]).
    + by eapply quiet_ids.
    + intros Hc. eapply quiet_versions; [done|by apply V].
    + intros id k. rewrite Ec, En. intros [[<- <-]|[_ H]]%lookup_insert_Some; [lia|]. specialize (I _ _ H). lia.
    + intros [L Hc]%V. split; [lia|]. rewrite Ec, lookup_insert_ne by lia. done.
    + by eapply quiet_ids.
    + intros [Hc|Hc]%elem_of_app; [eapply quiet_versions; [done|by apply V]|]. apply list_elem_of_singleton in Hc as ->.
      eapply quiet_versions; [done|]. split; [by eapply I|]. intros k2 K2. assert (k2 = k) as -> by congruence. split; [lia|done].
  - apply update_inv in H as (_ & _ & k & sealed & resealed & K & E & W). apply write_effect in W as [_ Q]. split; cbn [db issued].
    + eapply quiet_ids; [done|]. by apply updated_ids.
    + intros c Hc. eapply quiet_versions; [done|]. destruct (V c Hc) as [L Hv]. split; [done|].
      intros k' (k0 & K0 & [[_ ->]|[Ei ->]])%updated_lookup; [by apply Hv|]. destruct (Hv k0 K0) as [Hle Hd]. assert (k0 = k) as -> by congruence.
      apply decide_cases in E as [(-> & -> & (E1 & E2 & E3 & E4 & E5)%not_rebound)|[-> _]]; cbn; [|lia]. split; [done|]. intros (D1 & D2 & D3 & D4 & D5)%Hd.
      unfold describes. cbn in *. split_and!; congruence.
Qed.
Lemma bound_reachable w : rtc serial no_rows w -> bound w.
Proof.
  intros H. assert (bound no_rows) as I by (split; [intros ??; cbn; by rewrite lookup_empty|intros c []%not_elem_of_nil]).
  revert I. induction H as [|w1 w2 w3 S _ IH]; [done|]. intros I. apply IH. by eapply bound_serial.
Qed.

(** ** An agent reaches only its device *)

(** What was sent is what [a] asks of the device [c] names, with the secret sealed for that device. *)
Definition answers (c : Claims) (k : Credential) (a : Action) (s : Sent) : Prop :=
  match a, s with
  | Reach, Ping host port => host = c_host c ∧ port = c_port c
  | Ssh command, Command host port pinned fields line =>
      host = c_host c ∧ port = c_port c ∧ pinned = k_host_key k ∧ open (own_binding float_repr k) (k_sealed k) = Ok fields ∧ Commands.check command (scope c) = Ok line
  | Snmp_get oids, Get host port fields wanted =>
      host = c_host c ∧ port = c_port c ∧ open (own_binding float_repr k) (k_sealed k) = Ok fields ∧ oid_texts oids = Ok wanted ∧ (1 <= length oids <= 20)%nat
  | _, _ => False
  end.

Lemma refused_inv d p custodian c now : lease_refused sha256_hex d p custodian c now = None ->
  (custodian = false -> ref p = Some (sub c)) ∧ noc_has_grant d (sub c) "agent" = true
  ∧ (∃ i row, noc_lease_by_digest d (sha256_hex (jti c)) = Some (i, row) ∧ l_secret row = sid c ∧ l_revoked row = None ∧ fltb (l_expires row) now = false)
  ∧ ∃ k, credentials d !! sid c = Some k ∧ k_agents k = true ∧ k_version k = ver c.
Proof.
  unfold lease_refused. destruct (noc_lease_by_digest _ _) as [[i row]|]; [|done]. destruct (Z.eqb_spec (l_secret row) (sid c)); [|done]. cbn [negb].
  destruct (negb custodian && _) eqn:C; [done|]. destruct (l_revoked row) as [|] eqn:R; [by rewrite bool_decide_true|]. rewrite bool_decide_false by (by intros []).
  destruct (fltb _ now) eqn:E; [done|]. destruct (credentials d !! sid c) as [k|]; [|done]. destruct (k_agents k) eqn:A; [|done].
  destruct (Z.eqb_spec (k_version k) (ver c)); [|done]. cbn [negb orb]. destruct (noc_has_grant _ _ _); [|done]. intros _. split_and!; [|done|by exists i, row|by exists k].
  intros ->. cbn [negb andb] in C. apply negb_false_iff, bool_decide_eq_true in C. done.
Qed.

Lemma lease_of_digest d h i row : noc_lease_by_digest d h = Some (i, row) -> lease_rows d !! i = Some row ∧ l_hash row = h.
Proof.
  unfold noc_lease_by_digest. intros H. assert ((i, row) ∈ filter (fun e : Z * LeaseRow => l_hash e.2 = h) (map_to_list (lease_rows d))) as [? ?%elem_of_map_to_list]%list_elem_of_filter; [|done].
  destruct (filter _ _); [done|]. injection H as ->. by left.
Qed.

Lemma agent_is_token d p caps : is_agent d p = true -> is_custodian d p caps = false.
Proof. unfold is_agent, is_custodian. by destruct (is_token p). Qed.

Lemma send_inv d id c k0 a s k : exec_send gcm_decrypt chacha_decrypt float_repr loads v b d id k0 a = inr s ->
  credentials d !! id = Some k -> credentials d !! id = Some k0 -> describes c k -> answers c k a s.
Proof.
  unfold exec_send. intros H K K0 (_ & _ & Eh & Ep & Es). assert (k0 = k) as -> by congruence. rewrite K in H. destruct a as [command|oids|].
  - destruct (box_open _ _ _ _ _ _ _) as [fields|] eqn:O; [|done]. destruct (Commands.check _ _) as [line|] eqn:C; [|done]. injection H as <-. cbn. by rewrite Eh, Ep, Es.
  - destruct (box_open _ _ _ _ _ _ _) as [fields|] eqn:O; [|done]. destruct (_ && _) eqn:L; [|done]. destruct (oid_texts oids) as [wanted|] eqn:T; [|done].
    injection H as <-. cbn. rewrite Eh, Ep. apply andb_true_iff in L as [L1%Nat.leb_le L2%Nat.leb_le]. done.
  - injection H as <-. cbn. by rewrite Eh, Ep.
Qed.

(** C13: One request at a time, whatever requests came before: an agent that acts on a device holds a lease that was issued, to
    itself, and not forged; it is still an agent, the lease is neither revoked nor past its end, the credential is still
    open to agents, and what is sent goes to the device the lease was issued for, with the secret sealed for that device,
    and asks nothing but the read the checks passed. *)
Theorem an_agent_reaches_only_its_device w p caps t a now answer c s d' :
  rtc serial no_rows w -> unforged hmac float_repr loads b (issued w) t -> do_exec (db w) p caps t a now answer = inr (c, s, d') ->
  c ∈ issued w ∧ is_token p = true ∧ ref p = Some (sub c) ∧ (sub c, "agent"%string) ∈ grants (db w)
  ∧ (∃ i row, lease_rows (db w) !! i = Some row ∧ l_hash row = sha256_hex (jti c) ∧ l_secret row = sid c ∧ l_revoked row = None ∧ fltb (l_expires row) now = false)
  ∧ ∃ k, credentials (db w) !! sid c = Some k ∧ k_agents k = true ∧ describes c k ∧ answers c k a s.
Proof.
  intros R U H. apply bound_reachable in R as [_ V]. apply exec_inv in H as (A & i & k0 & L & _ & S & _).
  apply usable_inv in L as (_ & D & N & _ & K0). apply (decoded_was_issued hmac float_repr loads b (issued w)) in D; [|done].
  rewrite (agent_is_token _ _ caps A) in N. apply refused_inv in N as (Hr & G & (j & row & (Hj & Eh)%lease_of_digest & Es & Rv & X) & k & K & Ka & Ev).
  split_and!; [done|by unfold is_agent in A; destruct (is_token p)|by apply Hr|by unfold noc_has_grant in G; apply bool_decide_eq_true in G|by exists j, row|].
  exists k. destruct (V c D) as [_ [_ Hd]%(fun f => f k K)]. assert (describes c k) as Hk by (by apply Hd). split_and!; [done|done|done|]. by eapply send_inv.
Qed.

(** ** A row's seal is its own *)

Definition own_seals (w : World) : Prop :=
  ids_below (db w) ∧ (∀ id k, credentials (db w) !! id = Some k -> sealed_for_itself k)
  ∧ ∀ id k, (id, k) ∈ editing w -> id < next_credential (db w) ∧ sealed_for_itself k ∧ ∀ k', credentials (db w) !! id = Some k' -> k_ref k' = k_ref k.

Lemma sealed_facts k k' : facts k' = facts k -> sealed_for_itself k -> sealed_for_itself k'.
Proof. intros (E1 & E2 & _ & E3 & _)%facts_eq (f & fields & H). exists f, fields. unfold own_binding in *. by rewrite E1, E2, E3. Qed.

Lemma quiet_seals w d' cs : quiet (db w) d' -> own_seals w -> own_seals (MkWorld d' cs (editing w)).
Proof.
  intros Q (I & S & P). split_and!; cbn [db editing]; [by eapply quiet_ids| |]; destruct Q as [E Q].
  - intros id k' (k & K & F)%Q. eapply sealed_facts; eauto.
  - intros id k (L & Hk & Hr)%P. split_and!; [by rewrite E|done|]. intros k' (k0 & K0 & (-> & _)%facts_eq)%Q. by apply Hr.
Qed.

Lemma own_seals_step w w' : overlapping w w' -> own_seals w -> own_seals w'.
Proof.
  intros [cs d' H|p caps id k H|id k m fields f sealed resealed now p d' Hp E W] Hw.
  - apply request_effect in H as [[-> Q]|[(-> & row & Hs & En & Ec)|(c & k & -> & Q & _)]]; try by apply quiet_seals.
    destruct Hw as (I & S & P). split_and!; cbn [db editing]; rewrite ?Ec.
    + intros id k. rewrite Ec, En. intros [[<- _]|[_ K]]%lookup_insert_Some; [lia|]. specialize (I _ _ K). lia.
    + intros id k [[_ <-]|[_ K]]%lookup_insert_Some; [done|eauto].
    + intros id k (L & Hk & Hr)%P. split_and!; [lia|done|]. rewrite lookup_insert_ne by lia. done.
  - destruct Hw as (I & S & P). unfold update_read in H. destruct (negb _); [done|]. destruct (credentials (db w) !! id) as [k0|] eqn:K; [|done]. injection H as <-.
    split_and!; [done|done|]. cbn [db editing]. intros i k [[= -> ->]|Hi]%elem_of_cons; [|by apply P]. split_and!; [by eapply I|by eapply S|]. congruence.
  - destruct Hw as (I & S & P). destruct (P _ _ Hp) as (L & (f0 & fs0 & Hk) & Hr). apply write_effect in W as [(k0 & K0) Q].
    apply (quiet_seals (MkWorld _ (issued w) (editing w)) d' (issued w) Q). clear Q d'. split_and!; cbn [db editing].
    + by apply updated_ids.
    + intros i k' (k1 & K1 & [[_ ->]|[-> ->]])%updated_lookup; [eauto|]. assert (k1 = k0) as -> by congruence. specialize (Hr _ K0).
      unfold LeaseSystem.sealed_for_itself, own_binding. cbn [written k_ref k_sealed]. rewrite Hr.
      apply decide_cases in E as [(-> & -> & (E1 & E2 & E3 & E4 & E5)%not_rebound)|(-> & payload & E)].
      * exists f0, fs0. rewrite <- Hk. unfold own_binding, binding. cbn in *. by rewrite E1, E2, E3, E4, E5.
      * exists f, payload. rewrite <- E. by destruct m.
    + intros i ki (Li & Hi & Hri)%P. split_and!; [done|done|]. intros k' (k1 & K1 & [[_ ->]|[-> ->]])%updated_lookup; [eauto|]. cbn. eauto.
Qed.

(** C15: Whatever overlaps what, every stored credential is sealed for the very device, kind and access its row names: an edit
    that keeps the seal keeps all of them. *)
Theorem every_row_keeps_its_own_seal w : rtc overlapping no_rows w -> ∀ id k, credentials (db w) !! id = Some k ->
  ∃ f fields, box_seal gcm_encrypt chacha_encrypt float_repr v b f (own_binding float_repr k) fields = Ok (k_sealed k).
Proof.
  intros H. assert (own_seals w) as (_ & S & _); [|exact S].
  assert (own_seals no_rows) as I by (split_and!; [intros ??; cbn; by rewrite lookup_empty|intros ??; cbn; by rewrite lookup_empty|intros ?? []%not_elem_of_nil]).
  revert I. induction H as [|w1 w2 w3 T _ IH]; [done|]. intros I. apply IH. by eapply own_seals_step.
Qed.
End safety.

(** ** Examples *)

Abbreviation y_request := (request y_hmac x_encrypt x_encrypt x_decrypt x_decrypt x_repr y_loads (fun s => s) x_vault x_box).
Abbreviation y_serial := (serial y_hmac x_encrypt x_encrypt x_decrypt x_decrypt x_repr y_loads (fun s => s) x_vault x_box).
Abbreviation y_overlapping := (overlapping y_hmac x_encrypt x_encrypt x_decrypt x_decrypt x_repr y_loads (fun s => s) x_vault x_box).

(** An agent is named, a credential created and opened to agents, and a lease issued. *)
Definition granted (r : problem * Db + Db) : Db := match r with inr d => d | inl (_, d) => d end.
Definition y_d1 : Db := granted (set_grant (db no_rows) y_custodian "token:4" "agent" false true true (Some true) (f_of_Z 1)).
Definition y_d2 : Db := match create_secret x_encrypt x_encrypt x_repr x_vault x_box y_d1 y_custodian ["secrets.grants"]%string "ref-1" y_meta (Some x_payload) x_fresh with inr (_, d) => d | inl _ => y_d1 end.
Definition y_d3 : Db := granted (agent_access y_d2 y_custodian ["secrets.grants"]%string 1 true (Some true) (f_of_Z 1)).
Definition y_d4 : Db := match issue_lease y_hmac x_repr (fun s => s) x_box y_d3 y_agent 1 600 "jti-1" (f_of_Z 1000) with inr (_, _, d) => d | inl _ => y_d3 end.
Definition y_w3 : World := MkWorld y_d3 [] [].
Definition y_w4 : World := MkWorld y_d4 [y_claims] [].

Lemma y_r1 : y_request (db no_rows) [] y_d1.
Proof. eapply (Grant _ _ _ _ _ _ _ _ _ _ _ y_custodian "token:4" "agent" false true true (Some true) (f_of_Z 1)). vm_compute. reflexivity. Qed.
Lemma y_r2 : y_request y_d1 [] y_d2.
Proof. eapply (Create _ _ _ _ _ _ _ _ _ _ _ y_custodian ["secrets.grants"]%string "ref-1" y_meta (Some x_payload) x_fresh 1). vm_compute. reflexivity. Qed.
Lemma y_r3 : y_request y_d2 [] y_d3.
Proof. eapply (Agents _ _ _ _ _ _ _ _ _ _ _ y_custodian ["secrets.grants"]%string 1 true (Some true) (f_of_Z 1)). vm_compute. reflexivity. Qed.
Lemma y_r4 : y_request y_d3 [y_claims] y_d4.
Proof. eapply (LeaseSystem.Issue _ _ _ _ _ _ _ _ _ _ _ y_agent 1 600 "jti-1" (f_of_Z 1000) _ y_token). vm_compute. reflexivity. Qed.

Lemma y_serially : rtc y_serial no_rows y_w4.
Proof.
  eapply rtc_l; [exact (S_request _ _ _ _ _ _ _ _ _ _ no_rows [] y_d1 y_r1)|].
  eapply rtc_l; [exact (S_request _ _ _ _ _ _ _ _ _ _ (MkWorld y_d1 [] []) [] y_d2 y_r2)|].
  eapply rtc_l; [exact (S_request _ _ _ _ _ _ _ _ _ _ (MkWorld y_d2 [] []) [] y_d3 y_r3)|].
  eapply rtc_l; [exact (S_request _ _ _ _ _ _ _ _ _ _ (MkWorld y_d3 [] []) [y_claims] y_d4 y_r4)|]. apply rtc_refl.
Qed.
Lemma y_overlapped : rtc y_overlapping no_rows y_w4.
Proof.
  eapply rtc_l; [exact (O_request _ _ _ _ _ _ _ _ _ _ no_rows [] y_d1 y_r1)|].
  eapply rtc_l; [exact (O_request _ _ _ _ _ _ _ _ _ _ (MkWorld y_d1 [] []) [] y_d2 y_r2)|].
  eapply rtc_l; [exact (O_request _ _ _ _ _ _ _ _ _ _ (MkWorld y_d2 [] []) [] y_d3 y_r3)|].
  eapply rtc_l; [exact (O_request _ _ _ _ _ _ _ _ _ _ (MkWorld y_d3 [] []) [y_claims] y_d4 y_r4)|]. apply rtc_refl.
Qed.

(** The token is the issued one. *)
Lemma y_unforged : unforged y_hmac x_repr y_loads x_box [y_claims] y_token.
Proof.
  intros h p g s E _ _. exists y_claims. split; [by left|]. split; [apply y_readable|].
  assert (PyLib.split "." y_token = [b64 (utf8 (dumps x_repr HEADER)); b64 (utf8 (dumps x_repr (claims_json y_claims))); b64 (sign y_hmac x_box (utf8 (signing_input x_repr y_claims)))]) as E' by (vm_compute; reflexivity).
  rewrite E' in E. assert (h = b64 (utf8 (dumps x_repr HEADER)) ∧ p = b64 (utf8 (dumps x_repr (claims_json y_claims)))) as [-> ->] by (split; congruence). reflexivity.
Qed.

Definition y_answer (_ : Sent) : option string * bool := (None, true).
Definition y_sent : Sent := Command "10.0.0.1" 22 None [("password", "s3cret"); ("username", "noc")]%string "show version".
Definition y_d5 : Db := log_line (noc_use_lease y_d4 1 (f_of_Z 1200)) (MkLine "noc.exec" "ok" "1" "bot").

Lemma an_agent_reaches_only_its_device_witness :
  exec y_hmac x_decrypt x_decrypt x_repr y_loads (fun s => s) x_vault x_box y_d4 y_agent [] y_token (Ssh "show version") (f_of_Z 1200) y_answer = inr (y_claims, y_sent, y_d5)
  ∧ ∃ k, credentials y_d4 !! sid y_claims = Some k ∧ describes y_claims k ∧ answers x_decrypt x_decrypt x_repr y_loads x_vault x_box y_claims k (Ssh "show version") y_sent.
Proof.
  assert (exec y_hmac x_decrypt x_decrypt x_repr y_loads (fun s => s) x_vault x_box (db y_w4) y_agent [] y_token (Ssh "show version") (f_of_Z 1200) y_answer = inr (y_claims, y_sent, y_d5)) as H by (vm_compute; reflexivity).
  split; [exact H|].
  destruct (an_agent_reaches_only_its_device y_hmac x_encrypt x_encrypt x_decrypt x_decrypt x_repr y_loads (fun s => s) x_vault x_box y_w4 y_agent [] y_token (Ssh "show version") (f_of_Z 1200) y_answer y_claims y_sent y_d5 y_serially y_unforged H)
    as (_ & _ & _ & _ & _ & k & K & _ & D & A).
  exists k. split; [exact K|]. split; [exact D|exact A].
Defined.

Lemma every_row_keeps_its_own_seal_witness : ∃ k, credentials y_d4 !! 1 = Some k ∧
  ∃ f fields, box_seal x_encrypt x_encrypt x_repr x_vault x_box f (own_binding x_repr k) fields = Ok (k_sealed k).
Proof.
  assert (∃ k, credentials (db y_w4) !! 1 = Some k) as [k K] by (eexists; vm_compute; reflexivity). exists k. split; [exact K|].
  exact (every_row_keeps_its_own_seal y_hmac x_encrypt x_encrypt x_decrypt x_decrypt x_repr y_loads (fun s => s) x_vault x_box y_w4 y_overlapped 1 k K).
Defined.

(** *** Two edits that overlap *)

Definition caps_ : list string := ["secrets.grants"].
Definition row_a : Credential := match credentials y_d3 !! 1 with Some k => k | None => MkCredential "" "" "" "" "" 0 "" "" 0 false None end.
(** The first edit renames the credential, the second moves it to another device. *)
Definition renamed_ : Meta := MkMeta "core-1" "ssh_password" "view_only" "10.0.0.1" 22 "".
Definition moved_ : Meta := MkMeta "core" "ssh_password" "view_only" "10.0.0.2" 22 "".
Definition sealed_b : string := match box_seal x_encrypt x_encrypt x_repr x_vault x_box x_fresh (binding x_repr "ref-1" moved_) [("password", "s3cret"); ("username", "noc")]%string with Ok s => s | Err _ => "" end.
Definition z_d1 : Db := match update_write y_d3 1 row_a moved_ sealed_b true (f_of_Z 900) y_custodian with inr d => d | inl _ => y_d3 end.
Definition z_claims : Claims := match issue_lease y_hmac x_repr (fun s => s) x_box z_d1 y_agent 1 600 "jti-2" (f_of_Z 1000) with inr (c, _, _) => c | inl _ => y_claims end.
Definition z_token : string := match issue_lease y_hmac x_repr (fun s => s) x_box z_d1 y_agent 1 600 "jti-2" (f_of_Z 1000) with inr (_, t, _) => t | inl _ => "" end.
Definition z_d2 : Db := match issue_lease y_hmac x_repr (fun s => s) x_box z_d1 y_agent 1 600 "jti-2" (f_of_Z 1000) with inr (_, _, d) => d | inl _ => z_d1 end.
Definition z_d3 : Db := match update_write z_d2 1 row_a renamed_ (k_sealed row_a) false (f_of_Z 1100) y_custodian with inr d => d | inl _ => z_d2 end.
Definition z_w : World := MkWorld z_d3 [z_claims] [(1, row_a)].

Lemma z_reached : rtc y_overlapping no_rows z_w.
Proof.
  eapply rtc_l; [exact (O_request _ _ _ _ _ _ _ _ _ _ no_rows [] y_d1 y_r1)|].
  eapply rtc_l; [exact (O_request _ _ _ _ _ _ _ _ _ _ (MkWorld y_d1 [] []) [] y_d2 y_r2)|].
  eapply rtc_l; [exact (O_request _ _ _ _ _ _ _ _ _ _ (MkWorld y_d2 [] []) [] y_d3 y_r3)|].
  eapply rtc_l; [apply (O_read _ _ _ _ _ _ _ _ _ _ (MkWorld y_d3 [] []) y_custodian caps_ 1 row_a); vm_compute; reflexivity|].
  eapply rtc_l.
  { apply (O_write _ _ _ _ _ _ _ _ _ _ (MkWorld y_d3 [] [(1, row_a)]) 1 row_a moved_ None x_fresh sealed_b true (f_of_Z 900) y_custodian z_d1); [by left|vm_compute; reflexivity|vm_compute; reflexivity]. }
  eapply rtc_l.
  { apply (O_request _ _ _ _ _ _ _ _ _ _ (MkWorld z_d1 [] [(1, row_a)]) [z_claims] z_d2). apply (LeaseSystem.Issue _ _ _ _ _ _ _ _ _ _ _ y_agent 1 600 "jti-2" (f_of_Z 1000) _ z_token). vm_compute. reflexivity. }
  eapply rtc_l; [|apply rtc_refl].
  apply (O_write _ _ _ _ _ _ _ _ _ _ (MkWorld z_d2 [z_claims] [(1, row_a)]) 1 row_a renamed_ None x_fresh (k_sealed row_a) false (f_of_Z 1100) y_custodian z_d3); [by left|vm_compute; reflexivity|vm_compute; reflexivity].
Qed.

(** Two edits that overlap can leave a lease on another device than it was issued for: an edit that only renames writes back
    the host it had read, under the version of the edit that moved the credential meanwhile, so the lease issued for the
    new host is still usable and opens the old one. *)
Theorem an_overlapping_edit_moves_a_lease : ∃ w c k, rtc y_overlapping no_rows w ∧ c ∈ issued w ∧ credentials (db w) !! sid c = Some k
  ∧ c_host c = "10.0.0.2"%string ∧ k_host k = "10.0.0.1"%string ∧ lease_refused (fun s => s) (db w) y_agent false c (f_of_Z 1200) = None
  ∧ box_open x_decrypt x_decrypt y_loads x_vault x_box (own_binding x_repr k) (k_sealed k) = Ok [("password", "s3cret"); ("username", "noc")]%string.
Proof.
  exists z_w, z_claims. eexists. split; [exact z_reached|]. split; [by left|]. split; [vm_compute; reflexivity|]. split; [vm_compute; reflexivity|].
  split; [vm_compute; reflexivity|]. split; vm_compute; reflexivity.
Qed.
