(* ===== verification/LeaseEnds.v ===== *)
(** * An ended lease stays ended ([store/noc_access.py], [api/routes/secrets.py], [noc_access.py])

    Withdrawing the credential, the agent or the lease ends it for good, whatever overlaps. *)
From S2P Require Import Prelude PyLib Floats Json Auth Commands Runbook Sealing SealingLaws Leases Executor LeaseLaws LeaseSystem LeaseSafety.

Lemma f_of_Z_not_nan z : is_nan (f_of_Z z) = false.
Proof. destruct z; [done|apply binary_round_not_nan..]. Qed.

(** A lease that is not live at [t] is past its end ever after. *)
Lemma past_end e t t' : is_nan e = false -> fltb t e = false -> fltb t t' = true -> fltb e t' = true.
Proof.
  intros He H Ht. destruct (fltb_not_nan _ _ Ht) as [Hn _]. destruct (fltb_total3 t e Hn He) as [|[E|E]]; [congruence| |by eapply fltb_trans].
  destruct (fltb_not_nan _ _ Ht) as [_ Hn']. destruct (fltb_total3 e t' He Hn') as [|[E2|E2]]; [done| |].
  - pose proof (fltb_eqb_trans t t' e Ht) as X. rewrite feqb_sym in E2. specialize (X E2). congruence.
  - pose proof (fltb_trans _ _ _ Ht E2). congruence.
Qed.

Section ends.
Context (hmac : bytes -> bytes -> bytes) (gcm_encrypt chacha_encrypt : bytes -> bytes -> bytes -> bytes -> bytes)
        (gcm_decrypt chacha_decrypt : bytes -> bytes -> bytes -> bytes -> option bytes) (float_repr : float -> string)
        (loads : bytes -> option json) (sha256_hex : string -> string) (v : Vault) (b : SecretBox).
Abbreviation request := (LeaseSystem.request hmac gcm_encrypt chacha_encrypt gcm_decrypt chacha_decrypt float_repr loads sha256_hex v b).
Abbreviation overlapping := (LeaseSystem.overlapping hmac gcm_encrypt chacha_encrypt gcm_decrypt chacha_decrypt float_repr loads sha256_hex v b).
Abbreviation digest c := (sha256_hex (jti c)).

(** ** What becomes of a lease's row *)

Definition older (l l' : LeaseRow) : Prop :=
  l_hash l' = l_hash l ∧ l_secret l' = l_secret l ∧ l_subject l' = l_subject l ∧ l_expires l' = l_expires l ∧ (is_Some (l_revoked l) -> is_Some (l_revoked l')).
Definition row_of (c : Claims) (l : LeaseRow) : Prop :=
  l_hash l = digest c ∧ l_secret l = sid c ∧ l_subject l = sub c ∧ l_expires l = f_of_Z (exp c).
(** Every row of [d'] is one of [d], no younger. *)
Definition aged (d d' : Db) : Prop := ∀ i l', lease_rows d' !! i = Some l' -> ∃ l, lease_rows d !! i = Some l ∧ older l l'.

Lemma older_refl l : older l l. Proof. done. Qed.
Lemma aged_refl d : aged d d. Proof. intros i l H. by exists l. Qed.
Lemma aged_same d d' : lease_rows d' = lease_rows d -> aged d d'. Proof. intros E i l. rewrite E. intros H. by exists l. Qed.
Lemma aged_trans d1 d2 d3 : aged d1 d2 -> aged d2 d3 -> aged d1 d3.
Proof.
  intros A B i l3 (l2 & (l1 & ? & (E1 & E2 & E3 & E4 & R))%A & (F1 & F2 & F3 & F4 & S))%B. exists l1. split; [done|]. unfold older. split_and!; [congruence..|auto].
Qed.
Lemma aged_alter d d' f i : (∀ l, older l (f l)) -> lease_rows d' = alter f i (lease_rows d) -> aged d d'.
Proof.
  intros Hf E j l'. rewrite E. destruct (decide (j = i)) as [->|N]; [rewrite lookup_alter_eq; intros (l & ? & ->)%fmap_Some; eauto|].
  rewrite lookup_alter_ne by done. eauto using older_refl.
Qed.
Lemma older_revoked now who l : older l (revoked_by now who l).
Proof. unfold older. cbn. split_and!; [done..|]. intros _. by eexists. Qed.
Lemma aged_revoke_where which d now who : aged d (revoke_where which d now who).2.
Proof. intros i l'. cbn. rewrite lookup_fmap. intros (l & H & ->)%fmap_Some. exists l. split; [done|]. destruct (_ && _); [apply older_revoked|done]. Qed.
Lemma aged_then_revoked which d d0 now who : lease_rows d0 = lease_rows d -> aged d (revoke_where which d0 now who).2.
Proof. intros E. eapply aged_trans; [by apply aged_same|apply aged_revoke_where]. Qed.
#[local] Hint Resolve aged_refl aged_revoke_where : core.
#[local] Hint Extern 1 (aged _ _) => (by apply aged_same) : core.

Lemma aged_agents d p caps id on s now d' : agent_access d p caps id on s now = inr d' -> aged d d'.
Proof.
  unfold agent_access, update_read. destruct (negb _); [done|]. destruct (credentials d !! id) eqn:K; [|done]. destruct (if on then _ else _) as [|[]]; [done|].
  assert (lease_rows (noc_set_agent_access d id on).2 = lease_rows d) as E by (unfold noc_set_agent_access; rewrite K; by destruct (Bool.eqb _ _)).
  destruct (noc_set_agent_access d id on) as [ch d1]. cbn in E. destruct (if on then _ else _) as [n d2] eqn:R. intros [= <-].
  assert (aged d d2) as A. { destruct on; [injection R as _ <-; by apply aged_same|]. change d2 with (n, d2).2. rewrite <- R. by apply aged_then_revoked. }
  destruct (_ || _); [|done]. eapply aged_trans; [exact A|]. by apply aged_same.
Qed.
Lemma aged_grant d p subject role user fit on s now d' : set_grant d p subject role user fit on s now = inr d' -> aged d d'.
Proof.
  unfold set_grant. destruct (negb _); [done|]. destruct (negb fit); [done|]. destruct (if on then _ else _) as [|[]]; [done|]. cbn [noc_set_grant].
  destruct (if _ && _ then _ else _) as [n d2] eqn:R. intros [= <-].
  assert (aged d d2) as A. { destruct (_ && _); [|injection R as _ <-; by apply aged_same]. change d2 with (n, d2).2. rewrite <- R. by apply aged_then_revoked. }
  destruct (_ || _); [|done]. eapply aged_trans; [exact A|]. by apply aged_same.
Qed.
Lemma aged_write d id k m sealed resealed now p d' : update_write d id k m sealed resealed now p = inr d' -> aged d d'.
Proof.
  unfold update_write. destruct (credentials d !! id); [|done]. intros [= <-]. set (d1 := noc_update_secret _ _ _ _ _).
  assert (aged d (if resealed then (noc_revoke_secret_leases d1 id now (actor p)).2 else d1)) as A.
  { destruct resealed; [by apply aged_then_revoked|by apply aged_same]. }
  eapply aged_trans; [exact A|]. destruct (moved k m); by apply aged_same.
Qed.
Lemma aged_delete d p caps id s d' : delete_secret d p caps id s = inr d' -> aged d d' ∧ ∀ i l, lease_rows d' !! i = Some l -> l_secret l ≠ id.
Proof.
  unfold delete_secret, update_read. destruct (negb _); [done|]. destruct (credentials d !! id) eqn:K; [|done]. destruct (confirm _ _ _ _ _) as [|[]]; [done|].
  unfold noc_delete_secret. rewrite K. intros [= <-]. cbn. split; intros i l [H N]%map_lookup_filter_Some; [by exists l|done].
Qed.
Lemma aged_revoke d p caps i now d' : revoke_lease d p caps i now = inr d' -> aged d d' ∧ ∃ l, lease_rows d' !! i = Some l ∧ is_Some (l_revoked l).
Proof.
  unfold revoke_lease. destruct (lease_rows d !! i) as [l|] eqn:L; [|done]. destruct (negb _); [done|]. unfold noc_revoke_lease. rewrite L. unfold revocable.
  destruct (bool_decide_reflect (l_revoked l = None)) as [E|N]; intros [= <-]; cbn.
  - split; [|exists (revoked_by now (actor p) l); rewrite lookup_insert_eq; split; [done|by eexists]]. intros j l'. cbn.
    intros [[<- <-]|[_ H]]%lookup_insert_Some; [exists l; split; [done|apply older_revoked]|by exists l'].
  - split; [apply aged_refl|]. exists l. split; [done|]. destruct (l_revoked l); [by eexists|done].
Qed.

(** One hash, one row. *)
Definition hashes_once (d : Db) : Prop := ∀ i j l k, lease_rows d !! i = Some l -> lease_rows d !! j = Some k -> l_hash l = l_hash k -> i = j.
Lemma aged_once d d' : aged d d' -> hashes_once d -> hashes_once d'.
Proof. intros A O i j l k (l0 & Hl & E1 & _)%A (k0 & Hk & E2 & _)%A E. eapply O; [exact Hl|exact Hk|congruence]. Qed.

Lemma request_aged d cs d' : request d cs d' ->
  (cs = [] ∧ aged d d')
  ∨ ∃ c i l, cs = [c] ∧ lease_rows d' !! i = Some l ∧ row_of c l ∧ l_revoked l = None
      ∧ ∀ j k, lease_rows d' !! j = Some k -> j ≠ i -> lease_rows d !! j = Some k ∧ l_hash k ≠ l_hash l.
Proof.
  intros [p caps r m fields f id d1 H|p caps id s d1 H|p caps id s fields d1 H|p caps id on s now d1 H|p subject role user fit on s now d1 H|p id ttl fresh now c t d1 H|p caps t now c d1 H|p caps id now d1 H|p caps t a now answer c s d1 H|p caps id s d1 H|a].
  6: right. all: try (left; split; [done|]).
  - unfold create_secret in H. destruct (negb _); [done|]. destruct fields; [|done]. destruct (box_seal _ _ _ _ _ _ _ _); [|done]. cbn [noc_create_secret] in H. injection H as <- <-. by apply aged_same.
  - by apply aged_delete in H as [? _].
  - unfold reveal_secret in H. destruct (update_read _ _ _ _); [done|]. destruct (confirm _ _ _ _ _) as [|[]]; [done|]. destruct (box_open _ _ _ _ _ _ _); [|done]. injection H as <- <-. by apply aged_same.
  - by eapply aged_agents.
  - by eapply aged_grant.
  - apply issue_effect in H as (_ & _ & _ & _ & _ & i & row & C & E1 & E2 & E3 & E4 & E5 & _). unfold noc_create_lease in C. destruct (bool_decide _) eqn:F; [|done]. apply bool_decide_eq_true in F.
    injection C as <- _ Ed _ _ _. exists c, (next_lease d), row. rewrite <- Ed. split; [done|]. split; [by rewrite lookup_insert_eq|]. do 2 (split; [done|]).
    intros j k [[-> _]|[_ Hk]]%lookup_insert_Some Nj; [done|]. split; [by apply map_lookup_filter_Some in Hk as [? _]|by apply (F j)].
  - unfold introspect in H. destruct (lease_state _ _ _ _ _ _ _ _ _) as [[c' i k|r|] d2] eqn:E; [| |done]; injection H as <- <-.
    + apply usable_inv in E as [-> _]. by eapply (aged_alter _ _ (used_at now) i).
    + apply unusable_log in E as [->|[a ->]]; by apply aged_same.
  - by apply aged_revoke in H as [? _].
  - apply exec_inv in H as (_ & i & k & _ & _ & _ & ->). unfold exec_write. destruct ((answer s).1) as [key|]; by eapply (aged_alter _ _ (used_at now) i).
  - unfold forget_host_key in H. destruct (update_read _ _ _ _); [done|]. destruct (confirm _ _ _ _ _) as [|[]]; [done|]. injection H as <-. by apply aged_same.
  - by apply aged_same.
Qed.

(** ** Ending a lease *)

(** Requests after which [c] must not be used: its credential closed to agents, edited under a new seal or deleted, its
    agent no longer one, or the lease itself revoked. *)
Inductive ends (c : Claims) (now : float) (d : Db) : Db -> Prop :=
  | Closed p caps s d' : agent_access d p caps (sid c) false s now = inr d' -> ends c now d d'
  | Resealed k m sealed p d' : update_write d (sid c) k m sealed true now p = inr d' -> ends c now d d'
  | Deleted p caps s d' : delete_secret d p caps (sid c) s = inr d' -> ends c now d d'
  | Withdrawn p user fit s d' : set_grant d p (sub c) "agent" user fit false s now = inr d' -> ends c now d d'
  | Revoked_by p caps i l d' : lease_rows d !! i = Some l -> l_hash l = digest c -> revoke_lease d p caps i now = inr d' -> ends c now d d'.

(** No row of [c] is live at [t]. *)
Definition ended (c : Claims) (t : float) (d : Db) : Prop :=
  ∀ i l, lease_rows d !! i = Some l -> l_hash l = digest c -> l_secret l = sid c -> is_Some (l_revoked l) ∨ fltb t (l_expires l) = false ∧ is_nan (l_expires l) = false.

Lemma aged_ended c t d d' : aged d d' -> ended c t d -> ended c t d'.
Proof.
  intros A E i l' (l & Hl & E1 & E2 & _ & E4 & R)%A H1 H2. rewrite E4. destruct (E i l Hl) as [?|?]; [congruence|congruence|left; auto|by right].
Qed.

Definition digests_once (cs : list Claims) : Prop := NoDup (map (fun c => digest c) cs).
Lemma elem_digest c cs : c ∈ cs -> digest c ∈ map (fun c => digest c) cs.
Proof. intros H. apply list_elem_of_fmap. by exists c. Qed.
Lemma digests_inj cs c c' : digests_once cs -> c ∈ cs -> c' ∈ cs -> digest c = digest c' -> c = c'.
Proof.
  unfold digests_once. induction cs as [|x cs IH]; [by intros _ ?%not_elem_of_nil|]. cbn. intros [N D]%NoDup_cons.
  assert (∀ y, y ∈ cs -> digest x ≠ digest y) as X by (intros y Hy E; apply N; rewrite E; by apply elem_digest).
  intros [->|H]%elem_of_cons [->|H']%elem_of_cons E; [done|by destruct (X _ H')|by destruct (X _ H)|by apply IH].
Qed.

(** A row is that of an issued lease, and its own. *)
Definition rows_issued (w : World) : Prop := hashes_once (db w) ∧ ∀ i l, lease_rows (db w) !! i = Some l -> ∃ c, c ∈ issued w ∧ row_of c l.

Lemma issued_grows w w' : overlapping w w' -> ∃ cs, issued w' = issued w ++ cs.
Proof. intros [cs d' _|p caps id k _|id k m fields f sealed resealed now p d' _ _ _]; cbn; [by exists cs|exists []; by rewrite app_nil_r..]. Qed.

Lemma issued_prefix w w' : rtc overlapping w w' -> ∃ cs, issued w' = issued w ++ cs.
Proof.
  induction 1 as [|x y z S R [r E]]; [exists []; by rewrite app_nil_r|]. destruct (issued_grows _ _ S) as [q E']. exists (q ++ r). by rewrite E, E', app_assoc.
Qed.
Lemma digests_before w w' : rtc overlapping w w' -> digests_once (issued w') -> digests_once (issued w).
Proof. intros [cs E]%issued_prefix. unfold digests_once. rewrite E, map_app. by intros (? & _ & _)%NoDup_app. Qed.

Lemma aged_rows w d' : aged (db w) d' -> rows_issued w -> ∀ e, rows_issued (MkWorld d' (issued w) e).
Proof.
  intros A [O H] e. split; [by eapply aged_once|]. cbn. intros i l' (l & Hl & E1 & E2 & E3 & E4 & _)%A. destruct (H _ _ Hl) as (c & Hc & R1 & R2 & R3 & R4).
  exists c. split; [done|]. unfold row_of. by rewrite E1, E2, E3, E4.
Qed.

Lemma rows_issued_step w w' : overlapping w w' -> rows_issued w -> rows_issued w'.
Proof.
  intros [cs d' H|p caps id k H|id k m fields f sealed resealed now p d' _ _ W] Hw.
  - apply request_aged in H as [[-> A]|(c & i & l & -> & Hi & R & _ & N)]; [rewrite app_nil_r; by apply aged_rows|]. destruct Hw as [O H]. split; cbn [db issued].
    + assert (∀ j k, lease_rows d' !! j = Some k -> l_hash k = l_hash l -> j = i) as U.
      { intros j k Hj E. destruct (decide (j = i)) as [|Nj]; [done|]. by destruct (N j k Hj Nj). }
      intros j1 j2 l1 l2 H1 H2 E. destruct (decide (j1 = i)) as [->|N1]; [assert (l1 = l) as -> by congruence; symmetry; by eapply U|].
      destruct (decide (j2 = i)) as [->|N2]; [assert (l2 = l) as -> by congruence; by eapply U|]. apply N in H1 as [H1 _]; [|done]. apply N in H2 as [H2 _]; [|done]. by eapply O.
    + intros j k Hj. destruct (decide (j = i)) as [->|Nj].
      * assert (k = l) as -> by congruence. exists c. split; [apply elem_of_app; right; by left|done].
      * apply N in Hj as [Hj _]; [|done]. destruct (H _ _ Hj) as (c' & ? & ?). exists c'. split; [apply elem_of_app; by left|done].
  - done.
  - apply aged_rows; [by eapply aged_write|done].
Qed.

Lemma ended_step c t w w' : overlapping w w' -> c ∈ issued w -> digests_once (issued w') -> ended c t (db w) -> ended c t (db w').
Proof.
  intros [cs d' H|p caps id k H|id k m fields f sealed resealed now p d' _ _ W] Hc D E; cbn [db issued] in *; [|done|eapply aged_ended; [by eapply aged_write|done]].
  apply request_aged in H as [[-> A]|(c' & i & l & -> & Hi & (R1 & _) & _ & N)]; [by eapply aged_ended|].
  intros j k Hj E1 E2. destruct (decide (j = i)) as [->|Nj]; [|apply N in Hj as [Hj _]; [by eapply E|done]]. exfalso.
  assert (k = l) as -> by congruence. unfold digests_once in D. rewrite map_app in D. apply NoDup_app in D as (_ & D & _). apply (D (digest c)).
  - by apply elem_digest.
  - apply list_elem_of_singleton. congruence.
Qed.

Lemma ended_later c t w w' : rtc overlapping w w' -> c ∈ issued w -> digests_once (issued w') -> ended c t (db w) -> ended c t (db w').
Proof.
  induction 1 as [|w1 w2 w3 S R IH]; [done|]. intros Hc D E. destruct (issued_grows _ _ S) as [cs Ec].
  apply IH; [rewrite Ec; apply elem_of_app; by left|done|]. eapply ended_step; [done|done|by eapply digests_before|done].
Qed.

Lemma revoked_where_ended c which d d0 now who : lease_rows d0 = lease_rows d ->
  (∀ i l, lease_rows d !! i = Some l -> l_hash l = digest c -> l_secret l = sid c -> which l = true ∧ is_nan (l_expires l) = false) -> ended c now (revoke_where which d0 now who).2.
Proof.
  intros E0 W i l'. cbn. rewrite E0, lookup_fmap. intros (l & Hl & ->)%fmap_Some. unfold live, revocable. intros E1 E2.
  destruct (W i l Hl) as [Hw Hn]; [by destruct (_ && _)|by destruct (_ && _)|]. rewrite Hw in *. cbn [andb] in *.
  destruct (bool_decide_reflect (l_revoked l = None)) as [R|R]; cbn [andb].
  - destruct (fltb now (l_expires l)) eqn:F; [left; by eexists|by right].
  - left. destruct (l_revoked l); [by eexists|done].
Qed.

Lemma ends_ended w c now d' : rows_issued w -> digests_once (issued w) -> c ∈ issued w -> ends c now (db w) d' -> ended c now d'.
Proof.
  intros [O I] D Hc H. set (d := db w) in *.
  assert (∀ i l, lease_rows d !! i = Some l -> l_hash l = digest c -> l_subject l = sub c ∧ is_nan (l_expires l) = false) as X.
  { intros i l (c' & Hc' & R1 & _ & R3 & R4)%I E. assert (c' = c) as -> by (eapply digests_inj; eauto; congruence). split; [done|]. rewrite R4. apply f_of_Z_not_nan. }
  destruct H as [p caps s d' H|k m sealed p d' H|p caps s d' H|p user fit s d' H|p caps i l d' Hl E H].
  - unfold agent_access, update_read in H. destruct (negb _); [done|]. destruct (credentials d !! sid c) eqn:K; [|done].
    assert (lease_rows (noc_set_agent_access d (sid c) false).2 = lease_rows d) as E by (unfold noc_set_agent_access; rewrite K; by destruct (Bool.eqb _ _)).
    destruct (noc_set_agent_access d (sid c) false) as [ch d1]. cbn in E.
    assert (ended c now (noc_revoke_secret_leases d1 (sid c) now (actor p)).2) as A.
    { apply (revoked_where_ended c _ d); [done|]. intros i l Hl E1 E2. split; [by apply Z.eqb_eq|by apply (X i)]. }
    destruct (noc_revoke_secret_leases _ _ _ _) as [n d2]. injection H as <-. by destruct (_ || _).
  - unfold update_write in H. destruct (credentials d !! sid c); [|done]. injection H as <-.
    assert (ended c now (noc_revoke_secret_leases (noc_update_secret d (sid c) m sealed true) (sid c) now (actor p)).2) as A.
    { apply (revoked_where_ended c _ d); [done|]. intros i l Hl E1 E2. split; [by apply Z.eqb_eq|by apply (X i)]. }
    by destruct (moved k m).
  - apply aged_delete in H as [_ H]. intros i l Hl _ E. by destruct (H i l).
  - unfold set_grant in H. destruct (negb _); [done|]. destruct (negb fit); [done|]. cbn [noc_set_grant negb andb] in H. rewrite String.eqb_refl in H. cbn [andb] in H.
    set (d1 := set_grants d _) in H. assert (ended c now (noc_revoke_subject_leases d1 (sub c) now (actor p)).2) as A.
    { apply (revoked_where_ended c _ d); [done|]. intros i l Hl E1 E2. apply X in Hl as [Es ?]; [|done]. split; [by apply String.eqb_eq|done]. }
    destruct (noc_revoke_subject_leases _ _ _ _) as [n d2]. injection H as <-. by destruct (_ || _).
  - apply aged_revoke in H as [A (l' & Hl' & R)]. intros j k Hj Ek _. left. destruct (A _ _ Hj) as (k0 & Hk0 & E1 & _).
    assert (j = i) as -> by (eapply O; [exact Hk0|exact Hl|congruence]). by assert (k = l') as -> by congruence.
Qed.

Lemma rows_issued_reachable w : rtc overlapping no_rows w -> rows_issued w.
Proof.
  intros H. assert (rows_issued no_rows) as I by (split; [intros i j l k; cbn; by rewrite lookup_empty|intros i l; cbn; by rewrite lookup_empty]).
  revert I. induction H as [|w1 w2 w3 S _ IH]; [done|]. intros I. apply IH. by eapply rows_issued_step.
Qed.

(** C14: A lease that was ended is never usable again, by whoever presents it: not when the credential is opened to agents again, not
    when its agent is named again, and not by any requests that overlap. The random identities of the leases give each
    its own digest. *)
Theorem an_ended_lease_stays_ended w c now d' w' now' p custodian :
  rtc overlapping no_rows w -> c ∈ issued w -> ends c now (db w) d' -> rtc overlapping (MkWorld d' (issued w) (editing w)) w' ->
  digests_once (issued w') -> fltb now now' = true -> lease_refused sha256_hex (db w') p custodian c now' ≠ None.
Proof.
  intros Hr Hc He Hl D Ht. apply rows_issued_reachable in Hr as Hi.
  pose proof (digests_before _ _ Hl D) as D0.
  pose proof (ends_ended w c now d' Hi D0 Hc He) as E. apply (ended_later c now _ _ Hl Hc D) in E.
  intros (_ & _ & (i & row & (Hrow & Eh)%lease_of_digest & Es & Rv & X) & _)%refused_inv.
  destruct (E i row Hrow Eh Es) as [[? R]|[F Nn]]; [congruence|]. rewrite (past_end _ _ _ Nn F Ht) in X. done.
Qed.
End ends.

(** ** Examples *)

(** The credential is closed to agents and opened again. *)
Definition e_off : Db := granted (agent_access y_d4 y_custodian caps_ 1 false None (f_of_Z 1100)).
Definition e_on : Db := granted (agent_access e_off y_custodian caps_ 1 true (Some true) (f_of_Z 1150)).

Lemma an_ended_lease_stays_ended_witness :
  lease_refused (fun s => s) y_d4 y_agent false y_claims (f_of_Z 1099) = None ∧ lease_refused (fun s => s) e_on y_agent false y_claims (f_of_Z 1200) ≠ None.
Proof.
  split; [vm_compute; reflexivity|].
  assert (ends (fun s => s) y_claims (f_of_Z 1100) (db y_w4) e_off) as H.
  { apply (Closed _ _ _ _ y_custodian caps_ None). vm_compute. reflexivity. }
  assert (rtc y_overlapping (MkWorld e_off (issued y_w4) (editing y_w4)) (MkWorld e_on [y_claims] [])) as R.
  { eapply rtc_l; [|apply rtc_refl]. apply (O_request _ _ _ _ _ _ _ _ _ _ (MkWorld e_off [y_claims] []) [] e_on).
    apply (Agents _ _ _ _ _ _ _ _ _ _ _ y_custodian caps_ 1 true (Some true) (f_of_Z 1150)). vm_compute. reflexivity. }
  apply (an_ended_lease_stays_ended y_hmac x_encrypt x_encrypt x_decrypt x_decrypt x_repr y_loads (fun s => s) x_vault x_box y_w4 y_claims (f_of_Z 1100) e_off
    (MkWorld e_on [y_claims] []) (f_of_Z 1200) y_agent false y_overlapped ltac:(by left) H R); [apply NoDup_singleton|vm_compute; reflexivity].
Defined.
